(* ===== verification/_CoqProject ===== *)
-Q . S2P
Prelude.v
Cells.v
Lines.v
Buffers.v
Resizing.v
ReflowText.v
Functions.v
Tabs.v
Terminal.v
TerminalInv.v
Parser.v
ParserInv.v
Checkpoint.v
Vt.v
Dump.v
DumpInv.v
DumpResume.v
VtInv.v
DumpTotal.v
Layout.v
Topology.v
LayoutInv.v
Dividers.v
TopologyInv.v
Tracking.v
Screens.v
EmulatorTheorems.v
DumpTheorems.v
LayoutTheorems.v
Leases.v
Journal.v
Utf8.v
Observers.v
ObserversInv.v
History.v
HistoryInv.v
Retention.v
ShellState.v
ShellReports.v
LiveTerminal.v
CoreTheorems.v
Sessions.v
Attachments.v
Delivery.v
LiveRuns.v
Protocol.v
Messages.v
Presence.v
Paging.v
FlowControl.v
Requests.v
ServerAttach.v
Client.v
HistorySync.v
Controller.v
Wire.v
FlowInv.v
Pairing.v
FlowProgress.v
DaemonTheorems.v
ClientTheorems.v
SessionsWp.v
SessionsInv.v
SessionsControl.v
SessionsTopology.v
SessionsManage.v
SessionsLifecycle.v
SessionsEdits.v
AttachmentsInv.v
SessionsRun.v
SessionTheorems.v
RequestsInv.v
LiveLaws.v
RequestTheorems.v
Approvals.v
Drags.v
Prompt.v
CopyMode.v
KeyInput.v
HostInput.v
