(* ===== verification/Prelude.v ===== *)
(** * A verified model of ctl's terminal multiplexer

    The repository holds several programs.  [ctmux] keeps terminal sessions alive in a
    daemon and lets clients attach to them; [ctl] reaches hosts, keychains and VPNs; [task]
    keeps a list of tasks; [apps] are front ends.  The logic that is the repository's own
    and that everything else relies on is ctmux's, and this development models it from the
    bottom up, in the order in which its parts use one another, and then the parts of [ctl]
    and of the terminal front end whose logic does not sit in other libraries.

    ** The parts, and the files that model them

    - The terminal emulator (src/ctmux/avt/src).  [Cells], [Lines], [Buffers], [Tabs] and
      [Terminal] follow cell.rs, color.rs, pen.rs, charset.rs, line.rs, buffer.rs, tabs.rs
      and terminal.rs; [Functions] and [Parser] follow parser.rs; [Checkpoint] the state.rs
      files; [Vt] vt.rs and util.rs; [Dump] the printers of parser.rs and terminal.rs.
      Invariants and their proofs are in [Resizing], [ReflowText], [TerminalInv],
      [ParserInv], [VtInv], [DumpInv], [DumpResume], [DumpTotal],
      [Tracking] and [Screens]; the properties in [EmulatorTheorems] and [DumpTheorems].
      The daemon resizes its terminals with a policy that need not leave them tidy, so the
      invariant has three levels of [Upkeep]: what the emulator keeps by itself, what it
      needs to take input, and what any resizes leave.
    - Layouts of views (src/ctmux/proto/src/layout.rs and the pure part of
      src/ctmux/daemon/src/session/topology.rs): [Layout] and [Topology], with [LayoutInv],
      [Dividers], [TopologyInv] and [LayoutTheorems].
    - Portable state (src/ctmux/core/src): [Leases], [Journal], [Observers], [History], with
      [ObserversInv], [HistoryInv] and [CoreTheorems].
    - A terminal in the daemon (TerminalState of src/ctmux/daemon/src/session.rs,
      history_snapshot.rs and shell_reporter.rs): [Utf8] (the standard library's decoding),
      [Retention], [ShellState], [ShellReports], [LiveTerminal] and [Delivery], with
      [LiveRuns].
    - What a client is sent (src/ctmux/daemon/src/server.rs, src/ctl-core/src/protocol.rs,
      src/ctl-core/src/component.rs and src/ctmux/proto/src/lib.rs): [Protocol], [Messages],
      [Paging] and [FlowControl], with [FlowInv] and [FlowProgress].  The properties of a terminal and its clients are in [DaemonTheorems].
    - The client of an attachment (src/ctmux/client/src/lib.rs and history_sync.rs):
      [Client], [HistorySync] and [Controller].  [Wire] says what one
      message is to the client; [Pairing] puts client and daemon together, with the two
      streams between them; the properties of both are in [ClientTheorems].
    - The session registry (src/ctmux/daemon/src/session.rs and session/topology.rs):
      [Sessions] and [Attachments], with [SessionsWp], [SessionsInv], [SessionsControl], [SessionsTopology], [SessionsManage],
      [SessionsLifecycle], [SessionsEdits], [AttachmentsInv], [SessionsRun]
      and [SessionTheorems].
    - The daemon's requests (src/ctmux/daemon/src/server.rs, session/presence.rs and
      src/ctmux/proto/src/lib.rs): [Presence] lists clients and sessions; [Requests] is the
      handshake, the dispatch of every request, local control and the main loop's decisions;
      [ServerAttach] a connection that attaches, from its first request to the end of its
      driver.  [RequestsInv] and [RequestTheorems] run them all against the registry, and,
      by [LiveLaws], against the terminals of the files above.
    - Reconnecting without asking again (src/ctl/daemon/src/reconnect_approval.rs and
      approval_context.rs): [Approvals], with its theorems.
    - The terminal front end (src/apps/tui/src): [Drags] follows divider.rs and puts it
      together with the daemon's dividers; [Prompt] follows prompt.rs and the key table of
      actions.rs; [CopyMode] copy.rs; [KeyInput] input.rs and keys.rs; [HostInput] the
      decoder of host_input.rs.

    ** How the code is written down

    A Rust struct is a record, an enum an inductive type with the same constructors, and a
    function or method one definition of the same name in a module named after its type.  A
    [&mut self] method returns the new value.  A function that may panic returns [option],
    [None] being the panic; one that returns [Result] and may panic returns [outcome], whose
    [Panic] is the panic.  Overflow, indices out of range, [expect] and failed assertions
    are panics, as in a debug build, unless the code wraps or saturates.  Sizes are [nat],
    sequence numbers and fixed-width integers [N] or [Z] whose bounds are checked where the
    code checks them or proved where it relies on them.  A character is its scalar value, a
    string the list of its characters or, for identifiers, a [string].

    Loops that are not structural take fuel; each has a lemma that the fuel given is
    enough: the reflow of rows (one unit per row and cell), the allocation of extents (a
    pass per child), decoding (a unit per byte), sending output (a unit per unsent byte),
    the search for a free name (a unit per name taken).

    The registry and the state of a terminal are each behind one lock, and an operation
    is atomic where the code holds that lock throughout.  [Attachments] splits operations
    at every release of a lock, so that others can come in between; [FlowInv] interleaves
    one turn of an attachment's driver with everything that can happen to the terminal.

    ** What is assumed of other code

    Nothing is an axiom: code outside the repository comes in as an argument.
    [UnicodeWidth] is the width table of the crate unicode-width; [HistoryCodec] and
    [RowParser] the JSON text of a row and the digest of a transfer, with what is asked of
    them in [CodecLaws]; [Connection] which writes of a connection
    succeed and the random identifiers; [UuidText] the text of an identifier, [Surroundings] what the system answers a request;
    [HomeDirectory] the abbreviation of a path; [Parsing] the parser of one frame of the
    terminal, the crate terminput; the PTY's
    answers, the clock and the process table are arguments of the operations that ask them.
    Where the code walks a hash map, the order is an argument.
    A theorem that needs more of them than their type says so in a hypothesis.

    Between parts of the repository itself there are interfaces with laws, which the parts
    prove.  [Screen] and [Inspection] are what the registry and the requests do to a
    terminal, with [ScreenLaws] and [InspectionLaws]; [ServerAttach] gives them by
    [LiveTerminal], and [LiveLaws] proves the laws for it.  [AttachInput] is what the
    registry answers an attachment's requests, which [ServerAttach] gives by the registry.

    ** What the theorems show

    - The emulator never panics on any input and keeps its invariant ([run_total]); its checkpoints and dumps restore it
      ([checkpoint_roundtrip], [accepted_checkpoint_runs], [parser_dump_resumes],
      [functions_roundtrip], [dump_total]); change reports are complete
      ([changes_complete]); reflowing and scrolling keep text and bounds
      ([reflow_keeps_ink], [scrollback_bounded]).
    - Layouts tile their canvas and dividers go where they are asked to
      ([pane_geometry_tiles], [split_extents_fill], [divider_goes_where_asked],
      [resize_divider_total], [swap_exchanges_panes]).
    - The journal is the end of the output stream, leases are never stolen, observers are
      independent of chunks and resume exactly, history rows keep their look.
    - A terminal takes in any output without a panic ([output_never_panics]), the same
      however it is cut into reads ([read_boundaries_invisible]); its deliveries refine the
      stream ([delivery_refines_stream]); an attachment's client follows the stream within
      its window in every interleaving ([attachment_follows_stream]) and receives all of it
      ([attachment_drains]); contracts are negotiated alike on both ends
      ([negotiation_agrees]).
    - Neither end of an attachment rejects what the other sends ([attachment_opens],
      [attachment_never_rejects]), both agree on where the client is ([attachment_agrees]),
      and the history above the screen arrives as it was pinned ([history_synced]).
    - Whatever a daemon is asked and whatever its terminals write, it serves without a panic
      and stays sound ([daemon_serves]), at sizes of 2 to 65,534 columns and at least one row
      and but for one case of output ([primary_return_panics]; [widest_dump_panics] and
      [sizeless_panics] show what happens at other sizes); clients are told what their contract has ([replies_fit_contract]),
      only the owner of a lease types ([only_owner_types]), an attachment that fails leaves
      nothing behind ([failed_attachment_leaves_nothing]), clients are listed exactly
      ([clients_listed_exactly]), labels carry no control characters
      ([labels_are_harmless]), a managed run starts once ([managed_run_starts_once]), and a
      restart ends everything ([restart_ends_everything]).
    - An approval is reused only where it was earned and not taken back
      ([permission_granted]), the windows are bounded ([approvals_bounded]), and a wake asks
      once ([wake_asks_once]).
    - Every gap of the picture is a divider of the daemon ([every_gap_is_hit]) and a drag
      predicts what the daemon answers ([drag_follows_daemon]); the prompt stays sound under
      all keys ([prompt_stays_sound]) and its commands round-trip ([commands_roundtrip]);
      copy mode copies exactly what is selected ([copies_exactly]), finds what is searched
      ([search_goes_next]) and shows what was captured ([captured_cell_shown]).
    - What an application is sent it can read back ([keys_read_back],
      [pointer_reports_read_back]), commands need their prefix ([commands_are_asked_for]),
      and pastes and sequences of the user's terminal are never taken apart
      ([paste_is_one_event], [sequence_is_one_event], [decoder_bounded]).
    - The registry never panics and stays well formed under any requests
      ([registry_safety]), refines the map from sessions to terminals
      ([registry_refines_sessions]), keeps names unique, undoes failed changes, refuses
      stale edits and ignores superseded connections.

    Theorems named in the findings show where the code falls short of what it says.

    ** What is not modelled

    The operating system's part: processes, PTYs, threads, sockets, files and clocks appear
    only as results.  Encodings derived by serde and the JSON library are not modelled.
    Of ctmux: the spawning and observing of processes and the pipes of the shells; the
    sockets and their accept loop; the client's caches, archives and statistics, which are
    files, a third-party database and clocks; the command line.
    Of ctl: the daemon's services and its agent are asynchronous glue around SSH, keychain,
    VPN and platform libraries, whose behaviour would have to be assumed for anything to be
    said of them; the contexts a platform reports to the approvals are opaque values here.
    The logic of task is in its database.  Of the front ends, the parts that draw widgets,
    talk to sockets or call the desktop toolkit. *)

From stdpp Require Export prelude.
From stdpp Require Export list.
From stdpp Require Import strings.
#[global] Set Default Goal Selector "!".

(** * Outcomes

    A Rust function that returns [Result<A, E>] and that may panic is modelled
    by [outcome E A]; one that only may panic by [option A], [None] being the
    panic.  Both are monads for stdpp's [x ← m; k] notation. *)

Inductive outcome (E A : Type) : Type :=
  | Ok (a : A)
  | Err (e : E)
  | Panic.
Arguments Ok {E A} a.
Arguments Err {E A} e.
Arguments Panic {E A}.

#[export] Instance outcome_ret {E} : MRet (outcome E) := λ _ a, Ok a.
#[export] Instance outcome_bind {E} : MBind (outcome E) := λ _ _ f m,
  match m with Ok a => f a | Err e => Err e | Panic => Panic end.
#[export] Instance outcome_fmap {E} : FMap (outcome E) := λ _ _ f m,
  match m with Ok a => Ok (f a) | Err e => Err e | Panic => Panic end.
#[export] Instance outcome_eq_dec {E A} `{EqDecision E, EqDecision A} :
  EqDecision (outcome E A).
Proof. solve_decision. Defined.

(** [Option::ok_or]: [None] becomes the error [e]. *)
Definition ok_or {E A} (m : option A) (e : E) : outcome E A :=
  match m with Some a => Ok a | None => Err e end.

(** Unwrapping an option: [None] is a panic. *)
Definition expect {E A} (m : option A) : outcome E A :=
  match m with Some a => Ok a | None => Panic end.

(** An early [return Err(e)] taken when [b] holds. *)
Definition fail_if {E} (b : bool) (e : E) : outcome E () :=
  if b then Err e else Ok ().

Definition is_ok {E A} (m : outcome E A) : bool :=
  match m with Ok _ => true | _ => false end.

(** * Weakest preconditions

    [Safe m P] says that the panicking computation [m] does not panic and that
    its result satisfies [P]; [Total m P] says that a fallible one does not
    panic and that [P] holds of its result when it is [Ok]. *)

Definition Safe {A} (m : option A) (P : A → Prop) : Prop :=
  match m with Some a => P a | None => False end.

Definition Total {E A} (m : outcome E A) (P : A → Prop) : Prop :=
  match m with Ok a => P a | Err _ => True | Panic => False end.

Declare Scope ctl_scope.
Delimit Scope ctl_scope with ctl.
Notation "m ⇓ P" := (Safe m P) (at level 71, no associativity) : ctl_scope.
Notation "m ⇓? P" := (Total m P) (at level 71, no associativity) : ctl_scope.
Open Scope ctl_scope.

Section safe.
Context {A B : Type}.
Implicit Types (m : option A) (P Q : A → Prop).

Lemma Safe_iff m P : m ⇓ P ↔ ∃ a, m = Some a ∧ P a.
Proof.
  split; [destruct m; simpl; eauto; done|].
  by intros (a & -> & ?).
Qed.

Lemma Safe_elim m P : m ⇓ P → ∃ a, m = Some a ∧ P a.
Proof. apply Safe_iff. Qed.

Lemma Safe_intro m a P : m = Some a → P a → m ⇓ P.
Proof. intros -> ?; done. Qed.

Lemma Safe_mono m P Q : m ⇓ P → (∀ a, P a → Q a) → m ⇓ Q.
Proof. destruct m; simpl; auto. Qed.

Lemma Safe_bind m (f : A → option B) P (R : B → Prop) :
  m ⇓ P → (∀ a, P a → f a ⇓ R) → (m ≫= f) ⇓ R.
Proof. destruct m; simpl; [auto|done]. Qed.

Lemma Safe_fmap m (f : A → B) P (R : B → Prop) :
  m ⇓ P → (∀ a, P a → R (f a)) → (f <$> m) ⇓ R.
Proof. destruct m; simpl; [auto|done]. Qed.

Lemma Safe_ret (a : A) P : P a → mret (M:=option) a ⇓ P.
Proof. done. Qed.
End safe.

Lemma Safe_bind2 {A B C} (m : option A) (f : A → option B) (k : B → option C) P R :
  (m ≫= f) ⇓ P → (∀ b, P b → k b ⇓ R) → (m ≫= λ a, f a ≫= k) ⇓ R.
Proof. destruct m; simpl; [apply Safe_bind|done]. Qed.

Lemma Safe_bind_assoc {A B C} (m : option A) (f : A → option B) (k : B → option C) P R :
  m ⇓ P → (∀ a, P a → (f a ≫= k) ⇓ R) → ((m ≫= f) ≫= k) ⇓ R.
Proof. destruct m; simpl; [auto|done]. Qed.

(** ** Partial correctness: what holds of a result, when there is one *)

Definition Partial {A} (m : option A) (P : A → Prop) : Prop :=
  match m with Some a => P a | None => True end.
Notation "m ↠ P" := (Partial m P) (at level 71, no associativity) : ctl_scope.

Section partial.
Context {A B : Type}.
Implicit Types (m : option A) (P Q : A → Prop).

Lemma Partial_elim m P a : m ↠ P → m = Some a → P a.
Proof. by intros Hm ->. Qed.

Lemma Partial_intro m P : (∀ a, m = Some a → P a) → m ↠ P.
Proof. destruct m; simpl; auto. Qed.

Lemma Partial_mono m P Q : m ↠ P → (∀ a, P a → Q a) → m ↠ Q.
Proof. destruct m; simpl; auto. Qed.

Lemma Partial_and m P Q : m ↠ P → m ↠ Q → m ↠ λ a, P a ∧ Q a.
Proof. by destruct m. Qed.

Lemma Partial_bind m (f : A → option B) P (R : B → Prop) :
  m ↠ P → (∀ a, P a → f a ↠ R) → (m ≫= f) ↠ R.
Proof. destruct m; simpl; auto. Qed.

(** What is known of a result in two ways *)
Lemma Safe_partial m P Q : m ⇓ P → m ↠ Q → m ⇓ λ a, P a ∧ Q a.
Proof. destruct m; simpl; auto. Qed.

Lemma Safe_bind_partial m (f : A → option B) P Q (R : B → Prop) :
  m ⇓ P → m ↠ Q → (∀ a, P a → Q a → f a ⇓ R) → (m ≫= f) ⇓ R.
Proof. destruct m; simpl; auto; done. Qed.

(** The value bound, with its equation. *)
Lemma Partial_bind_eq m (f : A → option B) (R : B → Prop) :
  (∀ a, m = Some a → f a ↠ R) → (m ≫= f) ↠ R.
Proof. destruct m; simpl; auto. Qed.
End partial.

Section total.
Context {E A B : Type}.
Implicit Types (m : outcome E A) (P Q : A → Prop).

Lemma Total_mono m P Q : m ⇓? P → (∀ a, P a → Q a) → m ⇓? Q.
Proof. destruct m; simpl; auto. Qed.

Lemma Total_bind m (f : A → outcome E B) P (R : B → Prop) :
  m ⇓? P → (∀ a, P a → f a ⇓? R) → (m ≫= f) ⇓? R.
Proof. destruct m; simpl; auto; done. Qed.

Lemma bind_Ok m (f : A → outcome E B) b :
  m ≫= f = Ok b ↔ ∃ a, m = Ok a ∧ f a = Ok b.
Proof.
  split; [destruct m; simpl; try done; eauto|].
  by intros (a & -> & Hf).
Qed.

Lemma fmap_Ok m (f : A → B) b :
  f <$> m = Ok b ↔ ∃ a, m = Ok a ∧ b = f a.
Proof.
  split; [destruct m; simpl; intros [= <-]; eauto|].
  by intros (a & -> & ->).
Qed.
End total.

Lemma fail_if_Ok {E} b (e : E) u : fail_if b e = Ok u ↔ b = false.
Proof. destruct b, u; simpl; split; done. Qed.

Create HintDb safe.
#[export] Hint Resolve Safe_ret : safe.

(** [wp H] applies the [Safe]-lemma [H] to the head of a bind, leaving its side
    conditions and the continuation. *)
Tactic Notation "wp" uconstr(H) := eapply Safe_bind; [eapply H | simpl].

(** * Checked operations on [usize] and on slices

    A Rust [usize] is a [nat]: every length here is bounded by the memory that
    holds the data, so additions do not wrap.  Subtractions do underflow, and
    indexing is bounds checked: both are panics. *)

Definition csub (a b : nat) : option nat :=
  if decide (b ≤ a) then Some (a - b) else None.

(** [v[i] = x] *)
Definition update {A} (l : list A) (i : nat) (x : A) : option (list A) :=
  if decide (i < length l) then Some (<[i := x]> l) else None.

(** [f(&mut v[i])] *)
Definition modify {A} (i : nat) (f : A → option A) (l : list A) : option (list A) :=
  x ← l !! i; y ← f x; Some (<[i := y]> l).

(** [f(&mut v[s..e])] for an [f] that keeps the slice's length *)
Definition on_range {A} (s e : nat) (f : list A → option (list A)) (l : list A) :
    option (list A) :=
  if decide (s ≤ e ≤ length l)
  then m ← f (take (e - s) (drop s l)); Some (take s l ++ m ++ drop e l)
  else None.

(** [v[s..e].fill(x)] *)
Definition fill_range {A} (s e : nat) (x : A) : list A → option (list A) :=
  on_range s e (λ m, Some (replicate (length m) x)).

(** [slice::rotate_left] and [slice::rotate_right] panic when [n > len]. *)
Definition rotate_left {A} (n : nat) (l : list A) : option (list A) :=
  if decide (n ≤ length l) then Some (drop n l ++ take n l) else None.

Definition rotate_right {A} (n : nat) (l : list A) : option (list A) :=
  if decide (n ≤ length l)
  then Some (drop (length l - n) l ++ take (length l - n) l) else None.

(** [Vec::resize] *)
Definition resize_vec {A} (n : nat) (x : A) (l : list A) : list A :=
  take n l ++ replicate (n - length l) x.

(** [iter().take_while(p).count()] and [iter().rev().take_while(p).count()] *)
Fixpoint count_while {A} (p : A → bool) (l : list A) : nat :=
  match l with
  | [] => 0
  | x :: l => if p x then S (count_while p l) else 0
  end.

Definition count_trailing {A} (p : A → bool) (l : list A) : nat :=
  count_while p (reverse l).

Section checked.
Context {A : Type}.
Implicit Types (l k : list A) (x : A) (P : A → Prop).

Lemma csub_Safe a b (Q : nat → Prop) : b ≤ a → Q (a - b) → csub a b ⇓ Q.
Proof. intros. unfold csub. by case_decide. Qed.

Lemma csub_Some a b : b ≤ a → csub a b = Some (a - b).
Proof. intros. unfold csub. by case_decide. Qed.

Lemma update_Some l i x : i < length l → update l i x = Some (<[i := x]> l).
Proof. intros. unfold update. by case_decide. Qed.

Lemma update_Some_inv l i x l' :
  update l i x = Some l' → i < length l ∧ l' = <[i := x]> l.
Proof. unfold update. case_decide; naive_solver. Qed.

(** Updating inside the right half of an append. *)
Lemma update_app l k i x :
  update (l ++ k) (length l + i) x = (λ k', l ++ k') <$> update k i x.
Proof.
  unfold update. rewrite length_app.
  do 2 case_decide; try lia; simpl; [|done].
  by rewrite insert_app_r.
Qed.

Lemma update_app_here l y k x :
  update (l ++ y :: k) (length l) x = Some (l ++ x :: k).
Proof. replace (length l) with (length l + 0) at 1 by lia. by rewrite update_app. Qed.

Lemma lookup_app_here l y k : (l ++ y :: k) !! length l = Some y.
Proof. by rewrite lookup_app_r, Nat.sub_diag by lia. Qed.

Lemma split_at l i x :
  l !! i = Some x → ∃ a b, l = a ++ x :: b ∧ length a = i.
Proof.
  intros Hi. exists (take i l), (drop (S i) l). split.
  - by rewrite take_drop_middle.
  - rewrite length_take. apply lookup_lt_Some in Hi. lia.
Qed.

Lemma split_at_len l i :
  i ≤ length l → ∃ a b, l = a ++ b ∧ length a = i.
Proof.
  intros Hi. exists (take i l), (drop i l). split.
  - by rewrite take_drop.
  - rewrite length_take. lia.
Qed.

Lemma on_range_app (a m m' b : list A) f :
  f m = Some m' →
  on_range (length a) (length a + length m) f (a ++ m ++ b) = Some (a ++ m' ++ b).
Proof.
  intros Hf. unfold on_range. rewrite !length_app.
  case_decide; [|lia].
  replace (length a + length m - length a) with (length m) by lia.
  rewrite drop_app_length, (take_app_length m b), Hf. simpl.
  rewrite take_app_length, (app_assoc a m b).
  by rewrite <- length_app, drop_app_length.
Qed.

Lemma split_range l s e :
  s ≤ e ≤ length l →
  ∃ a m b, l = a ++ m ++ b ∧ length a = s ∧ length m = e - s.
Proof.
  intros He. exists (take s l), (take (e - s) (drop s l)), (drop e l). split_and!.
  - replace (drop e l) with (drop (e - s) (drop s l))
      by (rewrite drop_drop; f_equal; lia).
    by rewrite !take_drop.
  - rewrite length_take. lia.
  - rewrite length_take, length_drop. lia.
Qed.

Lemma on_range_Safe s e f l (Q : list A → Prop) :
  s ≤ e ≤ length l →
  (∀ a m b, l = a ++ m ++ b → length a = s → length m = e - s →
     f m ⇓ λ m', Q (a ++ m' ++ b)) →
  on_range s e f l ⇓ Q.
Proof.
  intros He Hf. destruct (split_range l s e He) as (a & m & b & -> & Ha & Hm).
  specialize (Hf a m b eq_refl Ha Hm).
  apply Safe_elim in Hf as (m' & Hm' & HQ).
  replace e with (length a + length m) by lia. subst s.
  eapply Safe_intro; [by apply on_range_app | done].
Qed.

Lemma fill_range_Safe s e x l (Q : list A → Prop) :
  s ≤ e ≤ length l →
  (∀ a m b, l = a ++ m ++ b → length a = s → length m = e - s →
     Q (a ++ replicate (e - s) x ++ b)) →
  fill_range s e x l ⇓ Q.
Proof.
  intros He HQ. apply on_range_Safe; [done|].
  intros a m b ? ? Hm. simpl. rewrite Hm. eauto.
Qed.

Lemma rotate_left_app l k : rotate_left (length l) (l ++ k) = Some (k ++ l).
Proof.
  unfold rotate_left. rewrite length_app.
  case_decide; [|lia]. by rewrite drop_app_length, take_app_length.
Qed.

Lemma rotate_right_app l k : rotate_right (length k) (l ++ k) = Some (k ++ l).
Proof.
  unfold rotate_right. rewrite length_app.
  case_decide; [|lia].
  replace (length l + length k - length k) with (length l) by lia.
  by rewrite drop_app_length, take_app_length.
Qed.

Lemma rotate_left_Safe n l (Q : list A → Prop) :
  n ≤ length l →
  (∀ a b, l = a ++ b → length a = n → Q (b ++ a)) →
  rotate_left n l ⇓ Q.
Proof.
  intros Hn HQ. destruct (split_at_len l n Hn) as (a & b & -> & <-).
  rewrite rotate_left_app. simpl. eauto.
Qed.

Lemma rotate_right_Safe n l (Q : list A → Prop) :
  n ≤ length l →
  (∀ a b, l = a ++ b → length b = n → Q (b ++ a)) →
  rotate_right n l ⇓ Q.
Proof.
  intros Hn HQ.
  destruct (split_at_len l (length l - n)) as (a & b & -> & Ha); [lia|].
  rewrite length_app in *. assert (length b = n) as <- by lia.
  rewrite rotate_right_app. simpl. eauto.
Qed.

Lemma modify_Safe i f l (Q : list A → Prop) :
  i < length l →
  (∀ a x b, l = a ++ x :: b → length a = i → f x ⇓ λ y, Q (a ++ y :: b)) →
  modify i f l ⇓ Q.
Proof.
  intros Hi Hf. destruct (lookup_lt_is_Some_2 l i Hi) as [x Hx].
  destruct (split_at l i x Hx) as (a & b & -> & Ha).
  specialize (Hf a x b eq_refl Ha). apply Safe_elim in Hf as (y & Hy & HQ).
  unfold modify. rewrite Hx. simpl. rewrite Hy. simpl.
  subst i. pose proof (insert_app_r a (x :: b) 0 y) as E. rewrite Nat.add_0_r in E.
  by rewrite E.
Qed.

Lemma length_resize_vec n x l : length (resize_vec n x l) = n.
Proof. unfold resize_vec. rewrite length_app, length_take, length_replicate. lia. Qed.

Lemma count_trailing_split p l :
  ∃ a b, l = a ++ b ∧ length b = count_trailing p l ∧ Forall (λ x, p x) b ∧
    (∀ x, last a = Some x → p x = false).
Proof.
  induction l as [|x l (a & b & -> & Hb & Hp & Ha)] using rev_ind.
  - exists [], []. done.
  - unfold count_trailing in *. rewrite reverse_snoc. simpl. destruct (p x) eqn:Hx.
    + exists a, (b ++ [x]). split_and!; [by rewrite app_assoc| | |done].
      * rewrite length_app, Hb. simpl. lia.
      * apply Forall_app. split; [done|]. constructor; [by rewrite Hx|constructor].
    + exists ((a ++ b) ++ [x]), []. rewrite app_nil_r. split_and!; try done.
      intros y. rewrite last_snoc. by intros [= <-].
Qed.

Lemma count_trailing_last p l x : last l = Some x → p x = false → count_trailing p l = 0.
Proof.
  intros [k ->]%last_Some Hp. unfold count_trailing. rewrite reverse_snoc. simpl. by rewrite Hp.
Qed.

Lemma count_trailing_app p l k :
  count_trailing p (l ++ k) =
    if forallb p k then length k + count_trailing p l else count_trailing p k.
Proof.
  unfold count_trailing. rewrite reverse_app.
  assert (Hf : forallb p k = forallb p (reverse k)).
  { apply eq_bool_prop_intro. rewrite !forallb_True. by rewrite reverse_Permutation. }
  rewrite Hf, <- (length_reverse k). generalize (reverse k) (reverse l). clear.
  intros k l. induction k as [|x k IH]; simpl; [done|].
  destruct (p x); simpl; [|done]. rewrite IH. by destruct (forallb p k).
Qed.

Lemma count_trailing_all p l : forallb p l = true → count_trailing p l = length l.
Proof.
  intros Hl. pose proof (count_trailing_app p [] l) as E. rewrite Hl in E.
  change (count_trailing p l = length l + 0) in E. lia.
Qed.

Lemma count_trailing_le p l : count_trailing p l ≤ length l.
Proof.
  destruct (count_trailing_split p l) as (a & b & -> & <- & _).
  rewrite length_app. lia.
Qed.
End checked.

Lemma mapM_Safe {A B} (f : A → option B) (P : A → B → Prop) (l : list A) :
  (∀ x, x ∈ l → f x ⇓ P x) → mapM f l ⇓ λ k, Forall2 P l k.
Proof.
  induction l as [|x l IH]; intros Hl; simpl; [constructor|].
  eapply Safe_bind; [apply Hl, elem_of_cons; auto|]. intros y Hy.
  eapply Safe_bind; [apply IH; intros; apply Hl, elem_of_cons; auto|].
  intros k Hk. by constructor.
Qed.

#[export] Hint Resolve csub_Safe : safe.
Create Rewrite HintDb len.
#[export] Hint Rewrite @length_app @length_take @length_drop @length_replicate
  @length_insert @length_resize_vec @length_fmap @length_reverse : len.

(** Normalise lengths everywhere and finish with linear arithmetic. *)
Ltac len := repeat (progress (autorewrite with len in *; simpl in *)); lia.
