(* ===== verification/Cells.v ===== *)
(** Screen cells of the terminal emulator: colours and pens
    (ctmux/avt/src/color.rs, pen.rs), cells and their occupancy (cell.rs), and
    character sets (charset.rs).  A Rust [char] is the [N] of its Unicode scalar
    value, a [u8] an [N] kept below 256 by the operations. *)

From S2P Require Import Prelude.

Abbreviation char := N (only parsing).

(** [unicode_width::UnicodeWidthChar::width], third-party: [Some 2] for a wide
    character, [None] for a control character. *)
Class UnicodeWidth := char_width : char → option nat.

(** * Colours *)
Module Color.
Inductive t :=
  | Indexed (c : N)
  | RGB (r g b : N).

#[global] Instance eq_dec : EqDecision t.
Proof. solve_decision. Defined.

(** Both variants carry [u8]s. *)
Definition is_u8 (c : t) : bool :=
  match c with
  | Indexed i => bool_decide (i < 256)%N
  | RGB r g b => bool_decide (r < 256)%N && bool_decide (g < 256)%N && bool_decide (b < 256)%N
  end.
End Color.

(** * Pens *)
Inductive Intensity := Normal | Bold | Faint.

#[global] Instance Intensity_eq_dec : EqDecision Intensity.
Proof. solve_decision. Defined.

Module Pen.
Record t := Mk {
  foreground : option Color.t;
  background : option Color.t;
  intensity : Intensity;
  attrs : N;
}.

#[global] Instance eq_dec : EqDecision t.
Proof. solve_decision. Defined.

Definition ITALIC_MASK : N := 1.
Definition UNDERLINE_MASK : N := N.shiftl 1 1.
Definition STRIKETHROUGH_MASK : N := N.shiftl 1 2.
Definition BLINK_MASK : N := N.shiftl 1 3.
Definition INVERSE_MASK : N := N.shiftl 1 4.

Definition default : t := Mk None None Normal 0.

Definition set_foreground (p : t) (color : option Color.t) : t :=
  Mk color (background p) (intensity p) (attrs p).
Definition set_background (p : t) (color : option Color.t) : t :=
  Mk (foreground p) color (intensity p) (attrs p).
Definition set_intensity (p : t) (i : Intensity) : t :=
  Mk (foreground p) (background p) i (attrs p).
Definition with_attrs (p : t) (a : N) : t :=
  Mk (foreground p) (background p) (intensity p) a.

(** [self.attrs & MASK != 0], [self.attrs |= MASK], [self.attrs &= !MASK] on [u8] *)
Definition has (mask : N) (p : t) : bool := negb (N.land (attrs p) mask =? 0)%N.
Definition set_attr (mask : N) (p : t) : t := with_attrs p (N.lor (attrs p) mask).
Definition unset_attr (mask : N) (p : t) : t :=
  with_attrs p (N.land (attrs p) (N.lxor mask 255)).

Definition set_bold (p : t) : t := set_intensity p Bold.
Definition set_faint (p : t) : t := set_intensity p Faint.
Definition is_bold (p : t) : bool := bool_decide (intensity p = Bold).
Definition is_faint (p : t) : bool := bool_decide (intensity p = Faint).
Definition is_italic := has ITALIC_MASK.
Definition is_underline := has UNDERLINE_MASK.
Definition is_strikethrough := has STRIKETHROUGH_MASK.
Definition is_blink := has BLINK_MASK.
Definition is_inverse := has INVERSE_MASK.
Definition set_italic := set_attr ITALIC_MASK.
Definition set_underline := set_attr UNDERLINE_MASK.
Definition set_blink := set_attr BLINK_MASK.
Definition set_strikethrough := set_attr STRIKETHROUGH_MASK.
Definition set_inverse := set_attr INVERSE_MASK.
Definition unset_italic := unset_attr ITALIC_MASK.
Definition unset_underline := unset_attr UNDERLINE_MASK.
Definition unset_blink := unset_attr BLINK_MASK.
Definition unset_strikethrough := unset_attr STRIKETHROUGH_MASK.
Definition unset_inverse := unset_attr INVERSE_MASK.

Definition is_default (p : t) : bool :=
  bool_decide (foreground p = None) && bool_decide (background p = None)
  && bool_decide (intensity p = Normal)
  && negb (is_italic p) && negb (is_underline p) && negb (is_strikethrough p)
  && negb (is_blink p) && negb (is_inverse p).

(** [pen.attrs & !0x1f == 0], the check of [state::validate_pen] *)
Definition known_attrs (p : t) : bool := (N.land (attrs p) (N.lxor 31 255) =? 0)%N.

(** A pen of the emulator: the attribute byte has only known bits. *)
Definition wf (p : t) : Prop := (attrs p < 32)%N.
End Pen.

(** * Cells *)
Inductive Occupancy := Single | WideHead | WideTail.

#[global] Instance Occupancy_eq_dec : EqDecision Occupancy.
Proof. solve_decision. Defined.

Definition occupancy_width (o : Occupancy) : N :=
  match o with Single => 1 | WideHead => 2 | WideTail => 0 end.

Definition space : char := 32%N.

Module Cell.
Record t := Mk { ch : char; occupancy : Occupancy; pen : Pen.t }.

#[global] Instance eq_dec : EqDecision t.
Proof. solve_decision. Defined.

Definition blank (p : Pen.t) : t := Mk space Single p.
Definition default : t := blank Pen.default.

Definition is_default (c : t) : bool :=
  bool_decide (ch c = space) && bool_decide (occupancy c = Single)
  && Pen.is_default (pen c).

Definition width (c : t) : N := occupancy_width (occupancy c).
End Cell.

(** * Character sets *)
Module Charset.
Inductive t := Ascii | Drawing.

#[global] Instance eq_dec : EqDecision t.
Proof. solve_decision. Defined.

(** The glyphs of U+0060 to U+007E in the drawing set. *)
Definition SPECIAL_GFX_CHARS : list char :=
  [9830; 9618; 9225; 9228; 9229; 9226; 176; 177; 9252; 9227; 9496; 9488; 9484;
   9492; 9532; 9146; 9147; 9472; 9148; 9149; 9500; 9508; 9524; 9516; 9474; 8804;
   8805; 960; 8800; 163; 8901]%N.

Definition LUT_DRAWING : list char :=
  (λ i, if (96 <=? i)%N && (i <? 127)%N
        then default 0%N (SPECIAL_GFX_CHARS !! N.to_nat (i - 96)) else i)
    <$> (N.of_nat <$> seq 0 128).

(** The table has 128 entries, so the index of an ASCII character is in range. *)
Definition translate (cs : t) (c : char) : option char :=
  if (127 <? c)%N then Some c
  else match cs with
       | Ascii => Some c
       | Drawing => LUT_DRAWING !! N.to_nat c
       end.
End Charset.

(** * Lemmas *)

Section pens.
Implicit Types p : Pen.t.

Lemma Pen_wf_default : Pen.wf Pen.default.
Proof. done. Qed.

Lemma lor_lt_32 a b : (a < 32 → b < 32 → N.lor a b < 32)%N.
Proof.
  intros Ha Hb. destruct (decide (N.lor a b = 0)%N) as [->|Hn]; [done|].
  apply (N.log2_lt_pow2 _ 5); [lia|]. rewrite N.log2_lor.
  apply N.max_lub_lt.
  - destruct (decide (a = 0)%N) as [->|]; [done|]. apply N.log2_lt_pow2; [lia|done].
  - destruct (decide (b = 0)%N) as [->|]; [done|]. apply N.log2_lt_pow2; [lia|done].
Qed.

Lemma land_le_l a b : (N.land a b ≤ a)%N.
Proof. pose proof (N.land_le_l a b). lia. Qed.

Lemma Pen_wf_set_attr mask p : (mask < 32)%N → Pen.wf p → Pen.wf (Pen.set_attr mask p).
Proof. intros. by apply lor_lt_32. Qed.

Lemma Pen_wf_unset_attr mask p : Pen.wf p → Pen.wf (Pen.unset_attr mask p).
Proof.
  unfold Pen.wf. simpl. intros.
  pose proof (land_le_l (Pen.attrs p) (N.lxor mask 255)). lia.
Qed.

(** The validator's bit test is the bound on the attribute byte. *)
Lemma Pen_known_attrs p : (Pen.attrs p < 256)%N → Pen.known_attrs p ↔ Pen.wf p.
Proof.
  unfold Pen.known_attrs, Pen.wf. intros H256.
  change (N.lxor 31 255) with (N.shiftl (N.ones 3) 5). split.
  - intros Heq%Is_true_true%N.eqb_eq.
    assert (Hsh : N.shiftr (Pen.attrs p) 5 = 0%N); [|].
    { apply N.bits_inj_0. intros i. rewrite N.shiftr_spec by lia.
      destruct (decide (i < 3)%N).
      - assert (N.testbit (N.land (Pen.attrs p) (N.shiftl (N.ones 3) 5)) (i + 5) = false)
          as Hb by (by rewrite Heq, N.bits_0).
        rewrite N.land_spec, N.shiftl_spec_high, N.ones_spec_low in Hb by lia.
        by rewrite andb_true_r in Hb.
      - destruct (decide (Pen.attrs p = 0)%N) as [->|]; [by rewrite N.bits_0|].
        apply N.bits_above_log2.
        assert (N.log2 (Pen.attrs p) < 8)%N by (apply N.log2_lt_pow2; [lia|done]). lia. }
    rewrite N.shiftr_div_pow2 in Hsh. apply N.div_small_iff in Hsh; [|done]. done.
  - intros Hlt. apply Is_true_true, N.eqb_eq. apply N.bits_inj_0. intros i.
    rewrite N.land_spec. destruct (decide (i < 5)%N).
    + rewrite (N.shiftl_spec_low _ 5) by lia. by rewrite andb_false_r.
    + destruct (decide (Pen.attrs p = 0)%N) as [->|]; [by rewrite N.bits_0|].
      rewrite (N.bits_above_log2 (Pen.attrs p)); [done|].
      assert (N.log2 (Pen.attrs p) < 5)%N by (apply N.log2_lt_pow2; [lia|done]). lia.
Qed.

Lemma Pen_has_default mask : Pen.has mask Pen.default = false.
Proof. done. Qed.
End pens.

#[export] Hint Resolve Pen_wf_default : safe.

Section cells.
Lemma Cell_is_default_char c : Cell.is_default c → Cell.ch c = space ∧ Cell.occupancy c = Single.
Proof. unfold Cell.is_default. rewrite !andb_True, !bool_decide_spec. tauto. Qed.

Lemma Charset_translate_total cs c : is_Some (Charset.translate cs c).
Proof.
  unfold Charset.translate. destruct (127 <? c)%N eqn:E; [eauto|].
  destruct cs; [eauto|]. apply lookup_lt_is_Some_2.
  unfold Charset.LUT_DRAWING. rewrite !length_fmap, length_seq.
  apply N.ltb_ge in E. lia.
Qed.
End cells.
