(* ===== verification/Lines.v ===== *)
(** Physical rows of the screen (ctmux/avt/src/line.rs): a vector of cells and
    the flag that links a row to the next one when a logical line wraps.

    A row is well formed when wide characters occupy a head and a tail cell:
    [wf_cells].  Every operation is a partial function, [None] being a panic
    (index out of bounds, [usize] underflow, failed [debug_assert]). *)

From S2P Require Import Prelude.
From S2P Require Import Cells.

Definition assert (b : bool) : option () := if b then Some () else None.

Module Line.
Record t := Mk { cells : list Cell.t; wrapped : bool }.

#[global] Instance eq_dec : EqDecision t.
Proof. solve_decision. Defined.

Inductive CharWidth := WSingle | WDouble.

Definition as_usize (w : CharWidth) : nat :=
  match w with WSingle => 1 | WDouble => 2 end.

Definition char_display_width `{UnicodeWidth} (c : char) : CharWidth :=
  if bool_decide (c ≤ 126)%N || bool_decide (default 1 (char_width c) ≠ 2)
  then WSingle else WDouble.

Definition len (l : t) : nat := length (cells l).

Definition set_wrapped (w : bool) (l : t) : t := Mk (cells l) w.
Definition set_cells (cs : list Cell.t) (l : t) : t := Mk cs (wrapped l).

(** [self.cells[i].occupancy()] and [self.cells[i].set(ch, occupancy, pen)] *)
Definition occ_at (cs : list Cell.t) (i : nat) : option Occupancy :=
  Cell.occupancy <$> cs !! i.
Definition set (cs : list Cell.t) (i : nat) (c : char) (o : Occupancy) (p : Pen.t) :
    option (list Cell.t) :=
  _ ← cs !! i; update cs i (Cell.Mk c o p).

Definition blank (cols : nat) (pen : Pen.t) : t :=
  Mk (replicate cols (Cell.blank pen)) false.

Definition reset (l : t) (cols : nat) (pen : Pen.t) : t :=
  Mk (resize_vec cols (Cell.blank pen) []) false.

Definition clear (l : t) (start_col end_col : nat) (pen : Pen.t) : option t :=
  if decide (start_col = len l) then Some l else
  o ← occ_at (cells l) start_col;
  cs ← (if decide (o = WideTail)
        then p ← csub start_col 1; set (cells l) p space Single pen
        else Some (cells l));
  cs ← fill_range start_col end_col (Cell.blank pen) cs;
  cs ← match cs !! end_col with
       | Some next_cell =>
           if decide (Cell.occupancy next_cell = WideTail)
           then set cs end_col space Single pen else Some cs
       | None => Some cs
       end;
  Some (set_cells cs l).

(** The cells written by [print]; [None] inside the pair is the [return None]
    of a wide character that does not fit. *)
Definition print `{UnicodeWidth} (l : t) (col : nat) (ch : char) (pen : Pen.t) :
    option (t * option nat) :=
  let cs := cells l in
  cell_occupancy ← occ_at cs col;
  let char_width := char_display_width ch in
  let remaining_cols : Z := (Z.of_nat (len l) - 1 - Z.of_nat col)%Z in
  let printed cs := Some (set_cells cs l, Some (as_usize char_width)) in
  match cell_occupancy, char_width with
  | Single, WSingle => cs ← set cs col ch Single pen; printed cs
  | Single, WDouble =>
      if decide (remaining_cols = 0)%Z then Some (l, None)
      else if decide (remaining_cols = 1)%Z then
        o ← occ_at cs (col + 1);
        _ ← assert (bool_decide (o = Single));
        cs ← set cs col ch WideHead pen;
        cs ← set cs (col + 1) space WideTail pen;
        printed cs
      else
        cs ← set cs col ch WideHead pen;
        o ← occ_at cs (col + 1);
        cs ← (if decide (o = WideHead) then set cs (col + 2) space Single pen else Some cs);
        cs ← set cs (col + 1) space WideTail pen;
        printed cs
  | WideHead, WSingle =>
      _ ← assert (bool_decide (remaining_cols >= 1)%Z);
      o ← occ_at cs (col + 1);
      _ ← assert (bool_decide (o = WideTail));
      cs ← set cs col ch Single pen;
      cs ← set cs (col + 1) space Single pen;
      printed cs
  | WideHead, WDouble =>
      _ ← assert (bool_decide (remaining_cols >= 1)%Z);
      o ← occ_at cs (col + 1);
      _ ← assert (bool_decide (o = WideTail));
      cs ← set cs col ch WideHead pen;
      cs ← set cs (col + 1) space WideTail pen;
      printed cs
  | WideTail, WSingle =>
      prev ← csub col 1;
      o ← occ_at cs prev;
      _ ← assert (bool_decide (o = WideHead));
      cs ← set cs prev space Single pen;
      cs ← set cs col ch Single pen;
      printed cs
  | WideTail, WDouble =>
      prev ← csub col 1;
      o ← occ_at cs prev;
      _ ← assert (bool_decide (o = WideHead));
      if decide (remaining_cols = 0)%Z then Some (l, None)
      else if decide (remaining_cols = 1)%Z then
        cs ← set cs prev space Single pen;
        cs ← set cs col ch WideHead pen;
        cs ← set cs (col + 1) space WideTail pen;
        printed cs
      else
        cs ← set cs prev space Single pen;
        cs ← set cs col ch WideHead pen;
        o ← occ_at cs (col + 1);
        cs ← (if decide (o = WideHead) then set cs (col + 2) space Single pen else Some cs);
        cs ← set cs (col + 1) space WideTail pen;
        printed cs
  end.

Definition shift_right (l : t) (col n : nat) (pen : Pen.t) : option t :=
  last_col ← csub (len l) 1;
  let col := col `min` last_col in
  o ← occ_at (cells l) col;
  cs ← (if decide (o = WideTail) then
          cs ← set (cells l) col space Single pen;
          prev ← csub col 1;
          set cs prev space Single pen
        else Some (cells l));
  cs ← on_range col (length cs) (rotate_right n) cs;
  o ← occ_at cs col;
  cs ← (if decide (o = WideTail) then
          cs ← set cs col space Single pen;
          last ← csub (length cs) 1;
          set cs last space Single pen
        else Some cs);
  Some (set_cells cs l).

Definition delete (l : t) (col n : nat) (pen : Pen.t) : option t :=
  o ← occ_at (cells l) col;
  cs ← (if decide (o = WideTail)
        then prev ← csub col 1; set (cells l) prev space Single pen
        else Some (cells l));
  cs ← on_range col (length cs) (rotate_left n) cs;
  o ← occ_at cs col;
  cs ← (if decide (o = WideTail) then set cs col space Single pen else Some cs);
  fill_start ← csub (length cs) n;
  cs ← fill_range fill_start (length cs) (Cell.blank pen) cs;
  Some (set_cells cs l).

Definition trailers (l : t) : nat := count_trailing Cell.is_default (cells l).

Definition trim (l : t) : option t :=
  let n := trailers l in
  if decide (0 < n)
  then k ← csub (len l) n; Some (set_cells (take k (cells l)) l)
  else Some l.

Definition is_blank (l : t) : bool := forallb Cell.is_default (cells l).

(** [Line::expand]: pad to [n] cells; [n - self.len()] may underflow. *)
Definition expand (l : t) (n : nat) (pen : Pen.t) : option t :=
  k ← csub n (len l);
  Some (set_cells (cells l ++ replicate k (Cell.blank pen)) l).

(** [Line::extend]: fill this row up to [n] cells from the row [other] that
    follows it.  The result is the new row, whether it is complete, and what
    is left of [other]. *)
Definition extend (l other : t) (n : nat) : option (t * (bool * option t)) :=
  needed ← csub n (len l);
  if decide (needed = 0) then Some (l, (true, Some other)) else
  if negb (wrapped l) then
    l ← expand l n Pen.default;
    Some (l, (true, Some other))
  else
  other ← (if negb (wrapped other) then trim other else Some other);
  if decide (needed < len other) then
    o ← occ_at (cells other) needed;
    '(l, needed) ←
      (if decide (o = WideTail) then
         needed ← csub needed 1;
         last ← csub (len l) 1;
         c ← cells l !! last;
         Some (set_cells (cells l ++ [Cell.Mk space Single (Cell.pen c)]) l, needed)
       else Some (l, needed));
    let l := set_cells (cells l ++ take needed (cells other)) l in
    cs ← rotate_left needed (cells other);
    k ← csub (length cs) needed;
    Some (l, (true, Some (Mk (take k cs) (wrapped other))))
  else
  let l := set_cells (cells l ++ cells other) l in
  if negb (wrapped other) then
    let l := set_wrapped false l in
    l ← (if decide (len l < n) then expand l n Pen.default else Some l);
    Some (l, (true, None))
  else Some (l, (false, None)).

Definition resize_preserving_wrap (l : t) (cols : nat) : option t :=
  let cs := take cols (cells l) in
  let cs := match last cs with
            | Some c => if decide (Cell.occupancy c = WideHead)
                        then <[length cs - 1 := Cell.blank (Cell.pen c)]> cs else cs
            | None => cs
            end in
  expand (set_cells cs l) cols Pen.default.

(** [Line::contract]: keep [n] cells, returning the rest as a new row. *)
Definition contract (l : t) (n : nat) : option (t * option t) :=
  l ← (if negb (wrapped l) then
         trimmed_len ← csub (len l) (trailers l);
         Some (set_cells (take (n `max` trimmed_len) (cells l)) l)
       else Some l);
  if decide (n < len l) then
    o ← occ_at (cells l) n;
    let wide_char_boundary := bool_decide (o = WideTail) in
    n ← (if wide_char_boundary then csub n 1 else Some n);
    let rest := Mk (drop n (cells l)) (wrapped l) in
    let l := set_cells (take n (cells l)) l in
    l ← (if wide_char_boundary then
           last ← csub (len l) 1;
           c ← cells l !! last;
           Some (set_cells (cells l ++ [Cell.Mk space Single (Cell.pen c)]) l)
         else Some l);
    rest ← (if negb (wrapped l) then trim rest else Some rest);
    if decide (cells rest = []) then Some (l, None)
    else Some (set_wrapped true l, Some rest)
  else Some (l, None).

Definition chars (l : t) : list char :=
  omap (λ c, if decide (Cell.occupancy c ≠ WideTail) then Some (Cell.ch c) else None)
    (cells l).
Definition text (l : t) : list char := chars l.

(** The iterator [Chunks]: [cur] is the chunk being collected. *)
Fixpoint chunks_go (predicate : Cell.t → Cell.t → bool) (cur iter : list Cell.t) :
    list (list Cell.t) :=
  match iter with
  | [] => if decide (cur = []) then [] else [cur]
  | c :: iter =>
      match last cur with
      | None => chunks_go predicate (cur ++ [c]) iter
      | Some c' =>
          if predicate c' c then cur :: chunks_go predicate [c] iter
          else chunks_go predicate (cur ++ [c]) iter
      end
  end.

Definition chunks (predicate : Cell.t → Cell.t → bool) (l : t) : list (list Cell.t) :=
  chunks_go predicate []
    (List.filter (λ c, bool_decide (Cell.occupancy c ≠ WideTail)) (cells l)).
End Line.

(** * Well-formed rows *)

Section wf.
Context `{UnicodeWidth}.

(** A character that takes one column. *)
Definition narrow (c : char) : Prop := Line.char_display_width c = Line.WSingle.

(** A head cell and its tail. *)
Definition wide_pair (h t : Cell.t) : Prop :=
  Cell.occupancy h = WideHead ∧ char_width (Cell.ch h) = Some 2 ∧
  Cell.occupancy t = WideTail ∧ Cell.ch t = space ∧
  Cell.pen h = Cell.pen t ∧ Pen.wf (Cell.pen t).

Definition single_cell (c : Cell.t) : Prop :=
  Cell.occupancy c = Single ∧ narrow (Cell.ch c) ∧ Pen.wf (Cell.pen c).

Inductive wf_cells : list Cell.t → Prop :=
  | wf_nil : wf_cells []
  | wf_single c cs : single_cell c → wf_cells cs → wf_cells (c :: cs)
  | wf_wide h t cs : wide_pair h t → wf_cells cs → wf_cells (h :: t :: cs).

Definition wf_line (cols : nat) (l : Line.t) : Prop :=
  length (Line.cells l) = cols ∧ wf_cells (Line.cells l).
End wf.

Create HintDb wf.
#[export] Hint Constructors wf_cells : wf.

Section wf_facts.
Context `{UnicodeWidth}.
Implicit Types (a b cs : list Cell.t) (c h t : Cell.t) (p : Pen.t).

Lemma wf_cells_app a b : wf_cells a → wf_cells b → wf_cells (a ++ b).
Proof. induction 1; intros; simpl; eauto with wf. Qed.

(** A split of a well-formed row falls between characters or inside a pair. *)
Lemma wf_cells_split a b :
  wf_cells (a ++ b) →
  (wf_cells a ∧ wf_cells b) ∨
  (∃ a' h t b', a = a' ++ [h] ∧ b = t :: b' ∧ wide_pair h t ∧ wf_cells a' ∧ wf_cells b').
Proof.
  remember (a ++ b) as cs eqn:E. intros Hwf. revert a b E.
  induction Hwf as [|c cs Hc Hcs IH|h t cs Hp Hcs IH]; intros a b E.
  - symmetry in E. apply app_nil in E as [-> ->]. left. eauto with wf.
  - destruct a as [|c' a]; simplify_eq/=; [left; eauto with wf|].
    destruct (IH a b eq_refl) as [[? ?]|(a' & h & t & b' & -> & -> & ? & ? & ?)].
    + left. eauto with wf.
    + right. exists (c' :: a'), h, t, b'. split_and!; eauto with wf.
  - destruct a as [|h' [|t' a]]; simplify_eq/=.
    + left. eauto with wf.
    + right. exists [], h', t, cs. split_and!; eauto with wf.
    + destruct (IH a b eq_refl) as [[? ?]|(a' & h & t & b' & -> & -> & ? & ? & ?)].
      * left. eauto with wf.
      * right. exists (h' :: t' :: a'), h, t, b'. split_and!; eauto with wf.
Qed.

Lemma wf_cells_inv c cs :
  wf_cells (c :: cs) →
  (single_cell c ∧ wf_cells cs) ∨ (∃ t cs', cs = t :: cs' ∧ wide_pair c t ∧ wf_cells cs').
Proof. inversion 1; subst; eauto 10. Qed.

(** Where a position of a well-formed row falls: on a single cell, a head or a tail. *)
Lemma wf_cells_at a c b :
  wf_cells (a ++ c :: b) →
  (single_cell c ∧ wf_cells a ∧ wf_cells b) ∨
  (∃ t b', b = t :: b' ∧ wide_pair c t ∧ wf_cells a ∧ wf_cells b') ∨
  (∃ a' h, a = a' ++ [h] ∧ wide_pair h c ∧ wf_cells a' ∧ wf_cells b).
Proof.
  intros [[Ha Hb]|(a' & h & t & b' & -> & [= <- <-] & ? & ? & ?)]%wf_cells_split.
  - apply wf_cells_inv in Hb as [[? ?]|(t & cs & -> & ? & ?)]; eauto 10.
  - right. right. eauto 10.
Qed.

Lemma wf_cells_prefix a b :
  wf_cells (a ++ b) → (∀ c b', b = c :: b' → Cell.occupancy c ≠ WideTail) →
  wf_cells a ∧ wf_cells b.
Proof.
  intros [?|(a' & h & t & b' & -> & -> & Hp & ?)]%wf_cells_split Hb; [done|].
  exfalso. by eapply Hb, Hp.
Qed.

Lemma narrow_space : narrow space.
Proof. done. Qed.

Lemma single_space p : Pen.wf p → single_cell (Cell.Mk space Single p).
Proof. intros. split_and!; done. Qed.

Lemma single_blank p : Pen.wf p → single_cell (Cell.blank p).
Proof. apply single_space. Qed.

Lemma wide_pair_print ch p :
  Line.char_display_width ch = Line.WDouble → Pen.wf p →
  wide_pair (Cell.Mk ch WideHead p) (Cell.Mk space WideTail p).
Proof.
  intros Hw Hp. split_and!; try done. simpl. unfold Line.char_display_width in Hw.
  destruct (bool_decide (ch ≤ 126)%N); simpl in Hw; [done|].
  case_bool_decide as E; [done|].
  destruct (char_width ch) as [n|]; simpl in E; [|done]. f_equal. lia.
Qed.

Lemma wf_blanks n p : Pen.wf p → wf_cells (replicate n (Cell.blank p)).
Proof. intros. induction n; simpl; auto using wf_cells, single_blank. Qed.

Lemma wide_pair_pen h t : wide_pair h t → Pen.wf (Cell.pen h) ∧ Pen.wf (Cell.pen t).
Proof. intros (_ & _ & _ & _ & -> & ?). done. Qed.

Lemma wf_cells_pen cs c : wf_cells cs → c ∈ cs → Pen.wf (Cell.pen c).
Proof.
  induction 1 as [|c' cs Hc Hcs IH|h t cs Hp Hcs IH]; rewrite ?elem_of_cons.
  - by intros ?%not_elem_of_nil.
  - intros [->|?]; [apply Hc|auto].
  - apply wide_pair_pen in Hp as [? ?]. intros [->|[->|?]]; auto.
Qed.

Lemma wf_cells_hd_not_tail c cs : wf_cells (c :: cs) → Cell.occupancy c ≠ WideTail.
Proof. intros [[(-> & _) _]|(? & ? & _ & (-> & _) & _)]%wf_cells_inv; done. Qed.

(** Removing the trailing default cells of a row does not cut a pair. *)
Lemma wf_cells_trim a b :
  wf_cells (a ++ b) → Forall (λ c, Cell.is_default c) b → wf_cells a ∧ wf_cells b.
Proof.
  intros Hwf Hb. apply wf_cells_prefix; [done|].
  intros c b' ->. apply Forall_cons in Hb as [[_ E]%Cell_is_default_char _]. by rewrite E.
Qed.
End wf_facts.

#[export] Hint Resolve single_space single_blank wf_cells_app wide_pair_print wf_blanks
  wf_cells_pen : wf.

(** Rewriting with cells at [length a + k] of [a ++ l]. *)
Section at_index.
Context {A : Type}.
Implicit Types (l a : list A) (x : A).

Lemma update_cons_0 y l x : update (y :: l) 0 x = Some (x :: l).
Proof. done. Qed.

Lemma update_cons_S y l i x : update (y :: l) (S i) x = (cons y) <$> update l i x.
Proof. unfold update. simpl. do 2 case_decide; simpl; try lia; done. Qed.

Lemma lookup_app_plus a l i : (a ++ l) !! (length a + i) = l !! i.
Proof. rewrite lookup_app_r by lia. f_equal. lia. Qed.

Lemma csub_plus n i : csub (n + i) i = Some n.
Proof. rewrite csub_Some by lia. f_equal. lia. Qed.
End at_index.

Lemma Line_set_app a l i c o p :
  Line.set (a ++ l) (length a + i) c o p = (λ l', a ++ l') <$> Line.set l i c o p.
Proof.
  unfold Line.set. rewrite lookup_app_plus, update_app. by destruct (l !! i).
Qed.

Lemma Line_occ_app a l i : Line.occ_at (a ++ l) (length a + i) = Line.occ_at l i.
Proof. unfold Line.occ_at. by rewrite lookup_app_plus. Qed.

Lemma Line_set_app0 a l c o p :
  Line.set (a ++ l) (length a) c o p = (λ l', a ++ l') <$> Line.set l 0 c o p.
Proof. pose proof (Line_set_app a l 0 c o p) as E. by rewrite Nat.add_0_r in E. Qed.

Lemma Line_occ_app0 a l : Line.occ_at (a ++ l) (length a) = Line.occ_at l 0.
Proof. pose proof (Line_occ_app a l 0) as E. by rewrite Nat.add_0_r in E. Qed.

Lemma Line_set_cons_0 y l c o p : Line.set (y :: l) 0 c o p = Some (Cell.Mk c o p :: l).
Proof. done. Qed.

Lemma Line_set_cons_S y l i c o p :
  Line.set (y :: l) (S i) c o p = cons y <$> Line.set l i c o p.
Proof. unfold Line.set. simpl. rewrite update_cons_S. by destruct (l !! i). Qed.

Lemma Line_occ_cons_0 y l : Line.occ_at (y :: l) 0 = Some (Cell.occupancy y).
Proof. done. Qed.

Lemma Line_occ_cons_S y l i : Line.occ_at (y :: l) (S i) = Line.occ_at l i.
Proof. done. Qed.

(** Evaluate cell accesses at [length a + k] in [a ++ c1 :: ... :: l]. *)
Ltac cells_simpl :=
  repeat first
    [ progress simpl
    | rewrite <- Nat.add_assoc
    | rewrite Line_set_app | rewrite Line_occ_app | rewrite csub_plus
    | rewrite Line_set_app0 | rewrite Line_occ_app0
    | rewrite Line_set_cons_0 | rewrite Line_set_cons_S
    | rewrite Line_occ_cons_0 | rewrite Line_occ_cons_S ].

(** * The operations keep rows well formed *)

Section line_ops.
Context `{UnicodeWidth}.
Implicit Types (a b cs : list Cell.t) (c h t : Cell.t) (p : Pen.t) (l : Line.t).

(** A suffix of a well-formed row: it may start with an orphan tail. *)
Definition wf_tailed b : Prop :=
  wf_cells b ∨ ∃ t b', b = t :: b' ∧ Cell.occupancy t = WideTail ∧ wf_cells b'.

Lemma wf_suffix a b : wf_cells (a ++ b) → wf_tailed b.
Proof.
  intros [[_ ?]|(a' & h & t & b' & -> & -> & (_ & _ & ? & _) & _ & ?)]%wf_cells_split.
  - by left.
  - right. eauto.
Qed.

Lemma wf_tailed_suffix a b : wf_tailed (a ++ b) → wf_tailed b.
Proof.
  intros [?|(t & b' & E & Ht & Hb)]; [by eapply wf_suffix|].
  destruct a as [|c a]; simplify_eq/=; [right; eauto|by eapply wf_suffix].
Qed.

(** Replacing the head of a pair that is about to lose its tail. *)
Lemma cut_left cs s p :
  wf_cells cs → s < length cs → Pen.wf p →
  (o ← Line.occ_at cs s;
   if decide (o = WideTail) then q ← csub s 1; Line.set cs q space Single p else Some cs)
    ⇓ λ cs', ∃ a b, cs' = a ++ b ∧ length a = s ∧ length cs' = length cs ∧
                    wf_cells a ∧ wf_tailed b.
Proof.
  intros Hwf Hs Hp. destruct (lookup_lt_is_Some_2 cs s Hs) as [c Hc].
  apply split_at in Hc as (a & b & -> & Ha).
  rewrite <- Ha, <- (Nat.add_0_r (length a)), Line_occ_app. simpl.
  apply wf_cells_at in Hwf as [(Hc & ? & ?)|[(t & b' & -> & Hc & ? & ?)|(a' & h & -> & Hc & ? & ?)]].
  - rewrite decide_False by (destruct Hc as (-> & _); done). simpl.
    exists a, (c :: b). split_and!; try lia; [done..|]. left. auto with wf.
  - rewrite decide_False by (destruct Hc as (-> & _); done). simpl.
    exists a, (c :: t :: b'). split_and!; try lia; [done..|]. left. auto with wf.
  - rewrite decide_True by (by destruct Hc as (_ & _ & -> & _)).
    rewrite length_app, Nat.add_0_r. simpl. rewrite csub_plus. simpl.
    rewrite <- app_assoc, <- (Nat.add_0_r (length a')). cells_simpl.
    exists (a' ++ [Cell.Mk space Single p]), (c :: b). rewrite <- app_assoc.
    split_and!; [done|len|len|auto with wf|].
    right. exists c, b. by destruct Hc as (_ & _ & -> & _).
Qed.

(** Replacing a tail whose head has just been overwritten. *)
Lemma fix_tail a b e p :
  length a = e → wf_cells a → wf_tailed b → Pen.wf p →
  match (a ++ b) !! e with
  | Some c => if decide (Cell.occupancy c = WideTail)
              then Line.set (a ++ b) e space Single p else Some (a ++ b)
  | None => Some (a ++ b)
  end ⇓ λ cs', length cs' = length (a ++ b) ∧ wf_cells cs' ∧ take e cs' = a.
Proof.
  intros <- Ha Hb Hp. rewrite <- (Nat.add_0_r (length a)), lookup_app_plus.
  destruct b as [|c b]; simpl.
  - rewrite app_nil_r, Nat.add_0_r, take_ge by lia. done.
  - case_decide as Hc; simpl.
    + cells_simpl. rewrite Nat.add_0_r, take_app_length. split_and!; [len| |done].
      apply wf_cells_app; [done|]. constructor; [by apply single_space|].
      destruct Hb as [Hb|(t & b' & [= <- <-] & _ & ?)]; [|done].
      exfalso. by apply wf_cells_hd_not_tail in Hb.
    + rewrite Nat.add_0_r, take_app_length. split_and!; [done| |done].
      apply wf_cells_app; [done|]. destruct Hb as [?|(t & b' & [= <- <-] & ? & _)]; done.
Qed.

Lemma Line_clear_Safe cols l s e p :
  wf_line cols l → s ≤ e ≤ cols → Pen.wf p →
  Line.clear l s e p ⇓ λ l', wf_line cols l' ∧ Line.wrapped l' = Line.wrapped l ∧
    ∀ i, s ≤ i < e → Line.cells l' !! i = Some (Cell.blank p).
Proof.
  intros [Hlen Hwf] He Hp. unfold Line.clear. case_decide as Hs.
  { unfold Line.len in Hs. simpl. split_and!; [done..|]. lia. }
  unfold Line.len in Hs. eapply Safe_bind2; [apply cut_left; [done|lia|done]|].
  intros cs1 (a & b & -> & Ha & Hl & Hwa & Hwb).
  eapply Safe_bind; [apply fill_range_Safe with
    (Q := λ cs, ∃ b, cs = (a ++ replicate (e - s) (Cell.blank p)) ++ b ∧ wf_tailed b ∧
                     length cs = cols)|].
  - len.
  - intros a' m b' E Ha' Hm. assert (a' = a) as ->.
    { apply (f_equal (take s)) in E. by rewrite <- Ha in E at 1; rewrite <- Ha' in E;
      rewrite !take_app_length in E. }
    apply app_inv_head in E as ->.
    exists b'. rewrite <- app_assoc. split_and!; [done|by eapply wf_tailed_suffix|len].
  - intros cs2 (b' & -> & Hb' & Hl').
    assert (length (a ++ replicate (e - s) (Cell.blank p)) = e) as He' by len.
    eapply Safe_bind; [apply (fix_tail _ _ e p He'); auto with wf|].
    intros cs3 (Hl3 & Hwf3 & Htake). simpl. split_and!.
    + split; simpl; [by rewrite Hl3|done].
    + done.
    + intros i Hi. rewrite <- (lookup_take_lt cs3 e) by lia.
      rewrite Htake, lookup_app_r by lia. apply lookup_replicate. split; [done|lia].
Qed.

(** What [print] leaves: the character at [col], the continuation of a wide one,
    and every cell away from the pairs it cuts. *)
Definition printed (col : nat) (ch : char) p (w : nat) (old new : list Cell.t) : Prop :=
  new !! col = Some (Cell.Mk ch (if decide (w = 2) then WideHead else Single) p) ∧
  (w = 2 → new !! (col + 1) = Some (Cell.Mk space WideTail p)) ∧
  ∀ i, i + 1 < col ∨ col + w < i → new !! i = old !! i.

Definition print_post cols (l : Line.t) col ch p : Line.t * option nat → Prop :=
  λ '(l', r), wf_line cols l' ∧ Line.wrapped l' = Line.wrapped l ∧
    match r with
    | None => l' = l ∧ S col = cols ∧ Line.char_display_width ch = Line.WDouble
    | Some w => w = Line.as_usize (Line.char_display_width ch) ∧ col + w ≤ cols ∧
                printed col ch p w (Line.cells l) (Line.cells l')
    end.

Lemma printed_here a b b' ch p w :
  b' !! 0 = Some (Cell.Mk ch (if decide (w = 2) then WideHead else Single) p) →
  (w = 2 → b' !! 1 = Some (Cell.Mk space WideTail p)) →
  (∀ k, w < k → b' !! k = b !! k) →
  printed (length a) ch p w (a ++ b) (a ++ b').
Proof.
  intros H0 H1 Hk. split_and!.
  - by rewrite <- (Nat.add_0_r (length a)), lookup_app_plus.
  - intros Hw. rewrite lookup_app_plus. auto.
  - intros i [?|?]; [by rewrite !lookup_app_l by lia|].
    replace i with (length a + (i - length a)) by lia.
    rewrite !lookup_app_plus. apply Hk. lia.
Qed.

Lemma printed_after_head a h h' b b' ch p w :
  printed (length (a ++ [h'])) ch p w ((a ++ [h']) ++ b) ((a ++ [h']) ++ b') →
  printed (length a + 1) ch p w (a ++ h :: b) (a ++ h' :: b').
Proof.
  rewrite length_app, <- !app_assoc. simpl. intros (H0 & H1 & Hk).
  split_and!; [done..|]. intros i Hi. rewrite Hk by done.
  destruct (decide (i < length a)); [by rewrite !lookup_app_l by lia|].
  replace i with (length a + S (i - length a - 1)) by lia.
  by rewrite !lookup_app_plus.
Qed.
End line_ops.

Ltac lookup_k := intros k Hk; destruct k as [|[|[|k]]]; simpl in *; try lia; done.

Section line_print.
Context `{UnicodeWidth}.
Implicit Types (a b cs : list Cell.t) (c h t : Cell.t) (p : Pen.t) (l : Line.t).

Lemma single_print ch p :
  Line.char_display_width ch = Line.WSingle → Pen.wf p → single_cell (Cell.Mk ch Single p).
Proof. intros. split_and!; done. Qed.

Ltac print_done :=
  split_and!; [split; simpl; [len|]|done|done|len|].

(** Writing a wide character at [length a]: [pre] is the already cleared prefix. *)
Lemma print_over_single cols a c b w ch p :
  wf_cells a → single_cell c → wf_cells b → Pen.wf p → length (a ++ c :: b) = cols →
  Line.print (Line.Mk (a ++ c :: b) w) (length a + 0) ch p
    ⇓ print_post cols (Line.Mk (a ++ c :: b) w) (length a + 0) ch p.
Proof.
  intros Ha Hc Hb Hp Hl. assert (Hoc := proj1 Hc).
  unfold Line.print. cells_simpl. rewrite Hoc.
  unfold Line.len. simpl Line.cells. rewrite Nat.add_0_r.
  destruct (Line.char_display_width ch) eqn:Hw.
  - cells_simpl. rewrite Hw. print_done.
    + apply wf_cells_app; [done|]. constructor; [by apply single_print|done].
    + apply printed_here; [done|done|lookup_k].
  - destruct b as [|x r].
    { rewrite decide_True by len. simpl. split_and!; [|done|done|len|done].
      split; simpl; [done|]. auto with wf. }
    rewrite decide_False by len.
    assert (Hx := wf_cells_inv _ _ Hb).
    case_decide as Hone.
    + destruct r; [|exfalso; len].
      destruct Hx as [[(Hox & Hx) _]|(t & r' & ? & _)]; [|done].
      cells_simpl. rewrite Hox. cells_simpl. rewrite Hw. print_done.
      * apply wf_cells_app; [done|]. constructor; [by apply wide_pair_print|constructor].
      * apply printed_here; [done|done|lookup_k].
    + cells_simpl.
      destruct Hx as [[(Hox & _) ?]|(t & r' & -> & (Hox & _) & ?)].
      * rewrite decide_False by (by rewrite Hox). cells_simpl. rewrite Hw. print_done.
        -- apply wf_cells_app; [done|]. constructor; [by apply wide_pair_print|done].
        -- apply printed_here; [done|done|lookup_k].
      * rewrite decide_True by done. cells_simpl. rewrite Hw. print_done.
        -- apply wf_cells_app; [done|]. constructor; [by apply wide_pair_print|].
           constructor; [by apply single_space|done].
        -- apply printed_here; [done|done|lookup_k].
Qed.

Lemma print_over_head cols a c t b w ch p :
  wf_cells a → wide_pair c t → wf_cells b → Pen.wf p → length (a ++ c :: t :: b) = cols →
  Line.print (Line.Mk (a ++ c :: t :: b) w) (length a + 0) ch p
    ⇓ print_post cols (Line.Mk (a ++ c :: t :: b) w) (length a + 0) ch p.
Proof.
  intros Ha Hc Hb Hp Hl. destruct Hc as (Hoc & _ & Hot & _).
  unfold Line.print. cells_simpl. rewrite Hoc.
  unfold Line.len. simpl Line.cells. rewrite Nat.add_0_r.
  rewrite (bool_decide_eq_true_2 (_ >= 1)%Z) by len.
  destruct (Line.char_display_width ch) eqn:Hw; cells_simpl; rewrite Hot;
    cells_simpl; rewrite Hw; print_done.
  - apply wf_cells_app; [done|]. constructor; [by apply single_print|].
    constructor; [by apply single_space|done].
  - apply printed_here; [done|done|lookup_k].
  - apply wf_cells_app; [done|]. constructor; [by apply wide_pair_print|done].
  - apply printed_here; [done|done|lookup_k].
Qed.

Lemma print_over_tail cols a h c b w ch p :
  wf_cells a → wide_pair h c → wf_cells b → Pen.wf p → length (a ++ h :: c :: b) = cols →
  Line.print (Line.Mk (a ++ h :: c :: b) w) (length a + 1) ch p
    ⇓ print_post cols (Line.Mk (a ++ h :: c :: b) w) (length a + 1) ch p.
Proof.
  intros Ha Hc Hb Hp Hl. assert (Hpair := Hc). destruct Hc as (Hoh & _ & Hoc & _).
  unfold Line.print. cells_simpl. rewrite Hoc.
  unfold Line.len. simpl Line.cells.
  destruct (Line.char_display_width ch) eqn:Hw; cells_simpl; rewrite Hoh; cells_simpl.
  - rewrite Hw. print_done.
    + apply wf_cells_app; [done|]. constructor; [by apply single_space|].
      constructor; [by apply single_print|done].
    + apply printed_after_head, printed_here; [done|done|lookup_k].
  - destruct b as [|x r].
    { rewrite decide_True by len. simpl. split_and!; [|done|done|len|done].
      split; simpl; [done|]. auto with wf. }
    rewrite decide_False by len.
    assert (Hx := wf_cells_inv _ _ Hb).
    case_decide as Hone.
    + destruct r; [|exfalso; len].
      destruct Hx as [[(Hox & Hx) _]|(t & r' & ? & _)]; [|done].
      cells_simpl. rewrite Hw. print_done.
      * apply wf_cells_app; [done|]. constructor; [by apply single_space|].
        constructor; [by apply wide_pair_print|constructor].
      * apply printed_after_head, printed_here; [done|done|lookup_k].
    + cells_simpl.
      destruct Hx as [[(Hox & _) ?]|(t & r' & -> & (Hox & _) & ?)].
      * rewrite decide_False by (by rewrite Hox). cells_simpl. rewrite Hw. print_done.
        -- apply wf_cells_app; [done|]. constructor; [by apply single_space|].
           constructor; [by apply wide_pair_print|done].
        -- apply printed_after_head, printed_here; [done|done|lookup_k].
      * rewrite decide_True by done. cells_simpl. rewrite Hw. print_done.
        -- apply wf_cells_app; [done|]. constructor; [by apply single_space|].
           constructor; [by apply wide_pair_print|].
           constructor; [by apply single_space|done].
        -- apply printed_after_head, printed_here; [done|done|lookup_k].
Qed.

Lemma Line_print_Safe cols l col ch p :
  wf_line cols l → col < cols → Pen.wf p →
  Line.print l col ch p ⇓ print_post cols l col ch p.
Proof.
  intros [Hlen Hwf] Hcol Hp. destruct l as [cs w]. simpl in *.
  destruct (lookup_lt_is_Some_2 cs col) as [c Hc]; [lia|].
  apply split_at in Hc as (a & b & -> & <-). rewrite <- (Nat.add_0_r (length a)).
  apply wf_cells_at in Hwf as [(? & ? & ?)|[(t & b' & -> & ? & ? & ?)|(a' & h & -> & ? & ? & ?)]].
  - by apply print_over_single.
  - by apply print_over_head.
  - rewrite <- app_assoc in *. rewrite length_app, Nat.add_0_r. simpl in *.
    by apply print_over_tail.
Qed.
End line_print.

Section line_edit.
Context `{UnicodeWidth}.
Implicit Types (a b cs x y : list Cell.t) (c h t : Cell.t) (p : Pen.t) (l : Line.t).

Lemma wf_cells_last x c : wf_cells (x ++ [c]) → Cell.occupancy c ≠ WideHead.
Proof.
  intros [(E & _)|[(t & b' & ? & _)|(a' & h & _ & (_ & _ & E & _) & _)]]%wf_cells_at;
    [by destruct E as (-> & _)|done|by rewrite E].
Qed.

(** A position of a well-formed row, after the pair of a tail found there is blanked. *)
Lemma blank_pair cs col p :
  wf_cells cs → col < length cs → Pen.wf p →
  (o ← Line.occ_at cs col;
   if decide (o = WideTail) then
     cs ← Line.set cs col space Single p; prev ← csub col 1; Line.set cs prev space Single p
   else Some cs)
    ⇓ λ cs', ∃ a b, cs' = a ++ b ∧ length a = col ∧ length cs' = length cs ∧
                    wf_cells a ∧ wf_cells b ∧ b ≠ [].
Proof.
  intros Hwf Hcol Hp. destruct (lookup_lt_is_Some_2 cs col Hcol) as [c Hc].
  apply split_at in Hc as (a & b & -> & <-).
  apply wf_cells_at in Hwf as [(Hc & ? & ?)|[(t & b' & -> & Hc & ? & ?)|(a' & h & -> & Hc & ? & ?)]].
  - cells_simpl. rewrite decide_False by (by rewrite (proj1 Hc)). simpl.
    exists a, (c :: b). split_and!; auto with wf.
  - cells_simpl. rewrite decide_False by (by rewrite (proj1 Hc)). simpl.
    exists a, (c :: t :: b'). split_and!; auto with wf.
  - rewrite length_app, <- app_assoc. simpl. cells_simpl.
    rewrite decide_True by (by destruct Hc as (_ & _ & -> & _)). cells_simpl.
    exists (a' ++ [Cell.Mk space Single p]), (Cell.Mk space Single p :: b).
    rewrite <- app_assoc. split_and!; [done|len|len| | |done]; auto with wf.
Qed.

Lemma Line_shift_right_Safe cols l col n p :
  wf_line cols l → col < cols → n ≤ cols - col → Pen.wf p →
  Line.shift_right l col n p ⇓ λ l', wf_line cols l' ∧ Line.wrapped l' = Line.wrapped l.
Proof.
  intros [Hlen Hwf] Hcol Hn Hp. unfold Line.shift_right.
  eapply Safe_bind; [apply (csub_Safe _ _ (λ k, k = cols - 1)); unfold Line.len; lia|].
  intros ? ->. rewrite Nat.min_l by lia.
  eapply Safe_bind2; [apply blank_pair; [done|lia|done]|].
  intros ? (a & b & -> & <- & Hl & Ha & Hb & Hne).
  assert (length a + length b = cols) as Hab by len.
  eapply Safe_bind; [apply on_range_Safe with
    (Q := λ cs, ∃ x y, cs = a ++ y ++ x ∧ x ++ y = b); [len|]|].
  { intros a' m b' E Ha' Hm. apply app_inj_1 in E as [<- ->]; [|done].
    rewrite length_app in Hm. assert (b' = []) as ->
      by (apply length_zero_iff_nil; len).
    rewrite app_nil_r in *. apply rotate_right_Safe; [len|].
    intros x y -> ?. exists x, y. by rewrite app_nil_r. }
  intros ? (x & y & -> & <-).
  apply wf_cells_split in Hb as [[Hx Hy]|(x' & h & t & y' & -> & -> & Hpair & Hx & Hy)].
  - assert (wf_cells (y ++ x)) as Hyx by auto with wf.
    destruct (y ++ x) as [|c r] eqn:E.
    { apply app_nil in E as [-> ->]. done. }
    cells_simpl. rewrite decide_False by (by eapply wf_cells_hd_not_tail).
    cells_simpl. split; [split; simpl|done]; [|auto with wf].
    apply (f_equal length) in E. len.
  - simpl. cells_simpl. rewrite decide_True by (by destruct Hpair as (_ & _ & -> & _)).
    cells_simpl.
    replace (a ++ Cell.Mk space Single p :: y' ++ x' ++ [h])
      with ((a ++ Cell.Mk space Single p :: y' ++ x') ++ [h])
      by (by rewrite <- !app_assoc; simpl; rewrite <- !app_assoc).
    rewrite (length_app _ [h]). simpl (length [h]). rewrite csub_plus. cells_simpl.
    split; [split; simpl; [len|]|done]. eauto 10 using wf_cells with wf.
Qed.

Lemma Line_delete_Safe cols l col n p :
  wf_line cols l → col < cols → 1 ≤ n ≤ cols - col → Pen.wf p →
  Line.delete l col n p ⇓ λ l', wf_line cols l' ∧ Line.wrapped l' = Line.wrapped l.
Proof.
  intros [Hlen Hwf] Hcol Hn Hp. unfold Line.delete.
  eapply Safe_bind2; [apply cut_left; [done|lia|done]|].
  intros ? (a & b & -> & <- & Hl & Ha & Hb).
  assert (length a + length b = cols) as Hab by len.
  eapply Safe_bind; [apply on_range_Safe with
    (Q := λ cs, ∃ x y, cs = a ++ y ++ x ∧ length x = n ∧ length (a ++ y ++ x) = cols ∧
                       wf_tailed y); [len|]|].
  { intros a' m b' E Ha' Hm. apply app_inj_1 in E as [<- ->]; [|done].
    assert (b' = []) as -> by (apply length_zero_iff_nil; len).
    rewrite app_nil_r in *. apply rotate_left_Safe; [len|].
    intros x y -> ?. exists x, y. rewrite app_nil_r. split_and!; [done..|len|].
    by eapply wf_tailed_suffix. }
  intros ? (x & y & -> & Hx & Hxy & Hy).
  eapply Safe_bind2; [instantiate (1 := λ cs, ∃ x y, cs = a ++ y ++ x ∧ length x = n ∧
                        length (a ++ y ++ x) = cols ∧ wf_cells y)|].
  { destruct y as [|c y].
    - destruct x as [|c x]; [simpl in Hx; lia|]. cells_simpl.
      case_decide; cells_simpl; eexists _, []; (split_and!; [done|done|len|constructor]).
    - cells_simpl. destruct Hy as [Hy|(? & ? & [= <- <-] & Ht & Hy)].
      + rewrite decide_False by (by eapply wf_cells_hd_not_tail). simpl.
        exists x, (c :: y). split_and!; [done..|len|done].
      + rewrite decide_True by done. cells_simpl.
        exists x, (Cell.Mk space Single p :: y). split_and!; [done..|len|auto with wf]. }
  clear x y Hx Hxy Hy. intros ? (x & y & -> & Hx & Hxy & Hy).
  rewrite !app_assoc in *. rewrite (length_app (a ++ y) x), Hx, csub_plus. simpl.
  eapply Safe_bind; [apply fill_range_Safe with
    (Q := λ cs, cs = (a ++ y) ++ replicate n (Cell.blank p)); [len|]|].
  { intros a' m b' E Ha' Hm. apply app_inj_1 in E as [<- ->]; [|done].
    assert (b' = []) as -> by (apply length_zero_iff_nil; len).
    rewrite app_nil_r in *. by replace (length (a ++ y) + n - length (a ++ y)) with n by lia. }
  intros ? ->. simpl. split; [split; simpl; [len|]|done]. auto with wf.
Qed.
End line_edit.

Section line_reflow.
Context `{UnicodeWidth}.
Implicit Types (a b cs x y : list Cell.t) (c h t : Cell.t) (p : Pen.t) (l other : Line.t).

Lemma wf_line_blank cols p : Pen.wf p → wf_line cols (Line.blank cols p).
Proof. split; simpl; [len|auto with wf]. Qed.

Lemma Line_reset_blank l cols p : Line.reset l cols p = Line.blank cols p.
Proof. unfold Line.reset, Line.blank, resize_vec. by rewrite take_nil, Nat.sub_0_r. Qed.

Lemma Line_expand_Safe l n p :
  wf_cells (Line.cells l) → Line.len l ≤ n → Pen.wf p →
  Line.expand l n p ⇓ λ l', wf_line n l' ∧ Line.wrapped l' = Line.wrapped l ∧
    ∃ k, Line.cells l' = Line.cells l ++ replicate k (Cell.blank p).
Proof.
  intros ? Hn ?. unfold Line.expand, Line.len in *.
  eapply Safe_bind; [apply (csub_Safe _ _ (λ k, k = n - Line.len l)); done|].
  intros ? ->. unfold Line.len. simpl. split_and!; [split; simpl; [len|auto with wf]|done|eauto].
Qed.

Lemma Line_trim_Safe l :
  wf_cells (Line.cells l) →
  Line.trim l ⇓ λ l', wf_cells (Line.cells l') ∧ Line.wrapped l' = Line.wrapped l ∧
    Line.len l' = Line.len l - Line.trailers l ∧
    Line.cells l' = take (Line.len l - Line.trailers l) (Line.cells l).
Proof.
  intros Hwf. unfold Line.trim, Line.trailers, Line.len.
  destruct (count_trailing_split Cell.is_default (Line.cells l)) as (a & b & E & Hb & Hd & _).
  assert (Hab : length (Line.cells l) = length a + length b) by (rewrite E; len).
  assert (wf_cells a) as Ha by (rewrite E in Hwf; apply (wf_cells_trim _ _ Hwf Hd)).
  replace (length (Line.cells l) - count_trailing Cell.is_default (Line.cells l))
    with (length a) by lia.
  assert (Htk : take (length a) (Line.cells l) = a) by (by rewrite E, take_app_length).
  rewrite <- Hb. case_decide.
  - rewrite csub_Some by lia. simpl.
    replace (length (Line.cells l) - length b) with (length a) by lia.
    rewrite Htk. by split_and!.
  - assert (b = []) as -> by (apply length_zero_iff_nil; lia).
    rewrite app_nil_r in E. simpl. rewrite Htk, E. by split_and!.
Qed.

(** Cutting a row at [n]: inside a pair, the cut moves left of it. *)
Lemma cut_at cs n :
  wf_cells cs → n < length cs →
  ∃ a b, wf_cells a ∧ wf_cells b ∧ cs = a ++ b ∧ b ≠ [] ∧
    ((length a = n ∧ ∃ o, Line.occ_at cs n = Some o ∧ o ≠ WideTail) ∨
     (S (length a) = n ∧ Line.occ_at cs n = Some WideTail)).
Proof.
  intros Hwf Hn. destruct (lookup_lt_is_Some_2 cs n Hn) as [c Hc].
  apply split_at in Hc as (a & b & -> & <-).
  apply wf_cells_at in Hwf as [(Hc & ? & ?)|[(t & b' & -> & Hc & ? & ?)|(a' & h & -> & Hc & ? & ?)]].
  - exists a, (c :: b). split_and!; auto with wf. left. split; [done|]. rewrite Line_occ_app0.
    exists (Cell.occupancy c). split; [done|]. by rewrite (proj1 Hc).
  - exists a, (c :: t :: b'). split_and!; auto with wf. left. split; [done|].
    rewrite Line_occ_app0. exists (Cell.occupancy c). split; [done|]. by rewrite (proj1 Hc).
  - exists a', (h :: c :: b). rewrite <- app_assoc. split_and!; auto with wf. right.
    split; [len|]. rewrite length_app. simpl. rewrite Line_occ_app. simpl.
    destruct Hc as (_ & _ & Hc & _). by rewrite Line_occ_cons_S, Line_occ_cons_0, Hc.
Qed.

(** The last cell of a nonempty row gives the pen of the padding of a cut pair. *)
Lemma last_pen l (Q : Cell.t → Prop) :
  wf_cells (Line.cells l) → 0 < Line.len l → (∀ c, Pen.wf (Cell.pen c) → Q c) →
  (last ← csub (Line.len l) 1; Line.cells l !! last) ⇓ Q.
Proof.
  intros Hwf Hl HQ. rewrite csub_Some by lia. simpl.
  destruct (lookup_lt_is_Some_2 (Line.cells l) (Line.len l - 1)) as [c Hc];
    [unfold Line.len in *; lia|].
  rewrite Hc. simpl. apply HQ. eapply wf_cells_pen; [done|].
  by eapply list_elem_of_lookup_2.
Qed.

Definition extend_post n l other : Line.t * (bool * option Line.t) → Prop :=
  λ '(l', (complete, rest)), wf_cells (Line.cells l') ∧
    match complete, rest with
    | true, Some o => Line.len l' = n ∧ wf_cells (Line.cells o) ∧
        0 < Line.len o ≤ Line.len other ∧ Line.wrapped o = Line.wrapped other
    | true, None => Line.len l' = n ∧ Line.wrapped other = false ∧ Line.wrapped l' = false
    | false, None => Line.wrapped other = true ∧ Line.len l' = Line.len l + Line.len other ∧
        Line.len l' ≤ n
    | false, Some _ => False
    end.

Lemma Line_extend_Safe l other n :
  wf_cells (Line.cells l) → wf_cells (Line.cells other) →
  0 < Line.len l < n → 0 < Line.len other →
  Line.extend l other n ⇓ extend_post n l other.
Proof.
  intros Hl Ho Hln Hon. unfold Line.extend. rewrite (csub_Some n) by lia. simpl.
  rewrite decide_False by lia. destruct (Line.wrapped l) eqn:Hw; simpl.
  2: { eapply Safe_bind; [apply Line_expand_Safe; [done|lia|done]|].
       intros l' ([? ?] & ? & _). simpl. split_and!; auto. }
  eapply (Safe_bind _ _ (λ o, wf_cells (Line.cells o) ∧ Line.len o ≤ Line.len other ∧
            Line.wrapped o = Line.wrapped other ∧
            (Line.wrapped other = true → Line.len o = Line.len other))).
  { destruct (Line.wrapped other) eqn:Hwo; simpl; [rewrite Hwo; auto|].
    eapply Safe_mono; [by apply Line_trim_Safe|]. rewrite Hwo.
    intros o (? & ? & E & _). split_and!; try done. lia. }
  intros o (Hwfo & Hlo & Hwo & Hlen).
  case_decide as Hneed.
  - destruct (cut_at (Line.cells o) _ Hwfo Hneed) as (a & b & Ha & Hb & Eo & Hbn & Hcut).
    eapply (Safe_bind2 _ _ _ (λ '(l', k), wf_cells (Line.cells l') ∧ k = length a ∧
              Line.len l' + length a = n)).
    { destruct Hcut as [(Hk & occ & -> & ?)|(Hk & ->)]; simpl.
      - rewrite decide_False by done. split_and!; [done|done|lia].
      - rewrite (csub_Some (n - _)) by lia. simpl.
        eapply Safe_bind2; [apply (last_pen l (λ c, Pen.wf (Cell.pen c))); auto; lia|].
        intros c Hc. simpl. split_and!; [auto with wf|lia|unfold Line.len in *; len]. }
    intros [l' k] (Hl' & -> & Hlen').
    assert (take (length a) (Line.cells o) = a) as -> by (by rewrite Eo, take_app_length).
    rewrite Eo, rotate_left_app. simpl. rewrite (length_app b a), csub_plus. simpl.
    rewrite take_app_length. apply (f_equal length) in Eo.
    destruct b as [|c b]; [done|]. unfold Line.len in *.
    split_and!; simpl; [auto with wf|len|done|len|len|done].
  - destruct (Line.wrapped o) eqn:Hwo'; simpl.
    + specialize (Hlen (eq_sym Hwo)).
      split_and!; [auto with wf|done| |]; unfold Line.len in *; simpl; rewrite length_app; lia.
    + eapply (Safe_bind _ _ (λ l', wf_line n l' ∧ Line.wrapped l' = false)).
      { case_decide.
        - eapply Safe_mono; [apply Line_expand_Safe; [|lia|done]; simpl; auto with wf|].
          intros ? (? & ? & _). done.
        - simpl. split; [split; simpl; [|auto with wf]|done].
          unfold Line.len in *. simpl in *. rewrite length_app in *. lia. }
      intros l' ([? ?] & ?). simpl. split_and!; done.
Qed.

Definition contract_post n l : Line.t * option Line.t → Prop :=
  λ '(l', rest), wf_line n l' ∧
    match rest with
    | Some o => wf_cells (Line.cells o) ∧ 0 < Line.len o < Line.len l ∧
        Line.wrapped l' = true ∧ Line.wrapped o = Line.wrapped l
    | None => Line.wrapped l' = false ∧ Line.wrapped l = false
    end.

(** The unwrapped row that [contract] starts from has lost trailing blanks only. *)
Lemma contract_trimmed l n :
  wf_cells (Line.cells l) → n < Line.len l →
  (if negb (Line.wrapped l) then
     trimmed_len ← csub (Line.len l) (Line.trailers l);
     Some (Line.set_cells (take (n `max` trimmed_len) (Line.cells l)) l)
   else Some l) ⇓ λ l', wf_cells (Line.cells l') ∧ n ≤ Line.len l' ≤ Line.len l ∧
     Line.wrapped l' = Line.wrapped l ∧
     (Line.wrapped l = true → l' = l) ∧
     (Line.wrapped l = false → n < Line.len l' →
        ∃ c, last (Line.cells l') = Some c ∧ Cell.is_default c = false).
Proof.
  intros Hwf Hn. destruct (Line.wrapped l) eqn:Hw; simpl.
  { split_and!; auto; lia. }
  destruct (count_trailing_split Cell.is_default (Line.cells l)) as (a & b & E & Hb & Hd & Hlast).
  assert (Hab : Line.len l = length a + length b) by (unfold Line.len; rewrite E; len).
  assert (Htr : Line.trailers l = length b) by (by rewrite Hb).
  rewrite Htr, csub_Some by lia. simpl.
  replace (Line.len l - length b) with (length a) by lia.
  rewrite E in Hwf. destruct (wf_cells_trim _ _ Hwf Hd) as [Ha Hwb].
  unfold Line.len at 1 3 4. unfold Line.trailers. simpl. rewrite E. split_and!; try done; try len.
  - rewrite take_app. rewrite take_ge by lia. apply wf_cells_app; [done|].
    rewrite <- (take_drop (n `max` length a - length a) b) in Hwb.
    apply wf_cells_trim in Hwb as [? _]; [done|by apply Forall_drop].
  - unfold Line.len. len.
  - intros _ Hlt. rewrite length_take, length_app in Hlt.
    assert (n `max` length a = length a) as -> by lia.
    rewrite take_app_length.
    destruct (last a) as [x|] eqn:Hx; [eauto|].
    apply last_None in Hx as ->. simpl in *. lia.
Qed.

Lemma trim_nonblank l c :
  last (Line.cells l) = Some c → Cell.is_default c = false → Line.trim l = Some l.
Proof.
  intros Hx Hd. unfold Line.trim, Line.trailers.
  by rewrite (count_trailing_last _ _ _ Hx Hd).
Qed.

Lemma Line_contract_Safe l n :
  wf_cells (Line.cells l) → 2 ≤ n < Line.len l →
  Line.contract l n ⇓ contract_post n l.
Proof.
  intros Hwf Hn. unfold Line.contract.
  eapply Safe_bind; [apply contract_trimmed; [done|lia]|].
  intros l1 (Hwf1 & Hl1 & Hw1 & Hsame & Htrim).
  case_decide as Hlt; simpl.
  2: { destruct (Line.wrapped l) eqn:Hw; [rewrite Hsame in * by done; lia|].
       split_and!; [split; [unfold Line.len in *; lia|done]|by rewrite Hw1|done]. }
  destruct (cut_at (Line.cells l1) n Hwf1) as (a & b & Ha & Hb & Eo & Hbn & Hcut);
    [unfold Line.len in *; lia|].
  assert (Hlen1 : Line.len l1 = length a + length b) by (unfold Line.len; rewrite Eo; len).
  assert (Hb0 : 0 < length b) by (destruct b; [done|simpl; lia]).
  assert (Htrim' : (if negb (Line.wrapped l1) then Line.trim (Line.Mk b (Line.wrapped l1))
                    else Some (Line.Mk b (Line.wrapped l1))) = Some (Line.Mk b (Line.wrapped l1))).
  { destruct (Line.wrapped l1) eqn:Hw; simpl; [done|].
    destruct Htrim as (x & Hx & Hd); [congruence|lia|]. eapply trim_nonblank; [|done]. simpl.
    rewrite Eo, last_app in Hx. destruct (last b) eqn:E; [done|]. by apply last_None in E as ->. }
  destruct Hcut as [(Hk & occ & -> & Hocc)|(Hk & ->)]; simpl.
  - rewrite bool_decide_eq_false_2 by done. simpl. rewrite <- Hk.
    assert (drop (length a) (Line.cells l1) = b) as -> by (by rewrite Eo, drop_app_length).
    assert (take (length a) (Line.cells l1) = a) as -> by (by rewrite Eo, take_app_length).
    rewrite Htrim'. simpl. rewrite decide_False by done. simpl. unfold Line.len in *.
    split_and!; simpl; try done; lia.
  - rewrite (csub_Some n) by lia. simpl. replace (n - 1) with (length a) by lia.
    assert (drop (length a) (Line.cells l1) = b) as -> by (by rewrite Eo, drop_app_length).
    assert (take (length a) (Line.cells l1) = a) as -> by (by rewrite Eo, take_app_length).
    eapply (Safe_bind _ _ (λ l', wf_line n l' ∧ Line.wrapped l' = Line.wrapped l1)).
    { eapply Safe_bind2; [apply (last_pen (Line.set_cells a l1) (λ c, Pen.wf (Cell.pen c)));
        [done|unfold Line.len; simpl; lia|done]|].
      intros c Hc. simpl. split; [split; simpl; [len|auto with wf]|done]. }
    intros l' [Hl' Hwl']. simpl. rewrite Hwl', Htrim'. simpl. rewrite decide_False by done. simpl.
    unfold Line.len in *. split_and!; simpl; try done; lia.
Qed.

Lemma Line_resize_preserving_wrap_Safe l cols :
  wf_cells (Line.cells l) →
  Line.resize_preserving_wrap l cols ⇓ λ l', wf_line cols l' ∧
    Line.wrapped l' = Line.wrapped l.
Proof.
  intros Hwf. unfold Line.resize_preserving_wrap.
  eapply Safe_mono; [apply Line_expand_Safe; simpl|].
  4: { intros l' (? & ? & _). done. }
  - rewrite <- (take_drop cols (Line.cells l)) in Hwf.
    apply wf_cells_split in Hwf as [[Hwf _]|(a & h & t & b & E & _ & Hp & Hwf & _)].
    + destruct (take cols (Line.cells l)) as [|c cs _] eqn:E using rev_ind; [done|].
      rewrite last_snoc. rewrite decide_False; [done|]. by eapply wf_cells_last.
    + rewrite E, last_snoc. rewrite decide_True by (apply Hp).
      rewrite length_app. simpl. rewrite Nat.add_sub.
      pose proof (insert_app_r a [h] 0 (Cell.blank (Cell.pen h))) as E'.
      rewrite Nat.add_0_r in E'. rewrite E'. simpl. apply wide_pair_pen in Hp as [? _].
      auto with wf.
  - unfold Line.len. simpl. destruct (last _); [case_decide; [rewrite length_insert|]|];
      rewrite length_take; lia.
  - done.
Qed.
End line_reflow.
