(* ===== verification/Buffers.v ===== *)
(** Screen buffers (ctmux/avt/src/buffer.rs): the scrollback and the visible
    rows, erasing, scrolling, and reflowing to a new size.  The view is the last
    [rows] lines; rows are addressed relative to it. *)

From S2P Require Import Prelude.
From S2P Require Import Cells.
From S2P Require Import Lines.

(** [char::is_whitespace], the Unicode White_Space property *)
Definition is_whitespace (c : char) : bool :=
  (bool_decide (9 ≤ c ≤ 13) || bool_decide (c = 32) || bool_decide (c = 133)
   || bool_decide (c = 160) || bool_decide (c = 5760) || bool_decide (8192 ≤ c ≤ 8202)
   || bool_decide (c = 8232) || bool_decide (c = 8233) || bool_decide (c = 8239)
   || bool_decide (c = 8287) || bool_decide (c = 12288))%N.

(** [str::trim_end] *)
Definition trim_end (s : list char) : list char :=
  take (length s - count_trailing is_whitespace s) s.

Inductive EraseMode :=
  | NextChars (n : nat)
  | FromCursorToEndOfView
  | FromStartOfViewToCursor
  | WholeView
  | FromCursorToEndOfLine
  | FromStartOfLineToCursor
  | WholeLine.

Module Buffer.
Record t := Mk {
  lines : list Line.t;
  cols : nat;
  rows : nat;
  scrollback_limit : option nat;
  trim_needed : bool;
}.

#[global] Instance eq_dec : EqDecision t.
Proof. solve_decision. Defined.

Definition set_lines (ls : list Line.t) (b : t) : t :=
  Mk ls (cols b) (rows b) (scrollback_limit b) (trim_needed b).
Definition set_trim_needed (x : bool) (b : t) : t :=
  Mk (lines b) (cols b) (rows b) (scrollback_limit b) x.
Definition set_size (c r : nat) (b : t) : t :=
  Mk (lines b) c r (scrollback_limit b) (trim_needed b).

Definition new (cols rows : nat) (scrollback_limit : option nat) (pen : option Pen.t) : t :=
  Mk (replicate rows (Line.blank cols (default Pen.default pen))) cols rows
     scrollback_limit false.

(** The loop of [Buffer::text]: [current] is the logical line being joined. *)
Fixpoint text_go (current : list char) (ls : list Line.t) : list (list char) :=
  match ls with
  | [] => if decide (current = []) then [] else [trim_end current]
  | l :: ls =>
      let current := current ++ Line.text l in
      if Line.wrapped l then text_go current ls
      else trim_end current :: text_go [] ls
  end.
Definition text (b : t) : list (list char) := text_go [] (lines b).

Definition view_offset (b : t) : option nat := csub (length (lines b)) (rows b).

Definition view (b : t) : option (list Line.t) :=
  o ← view_offset b; Some (drop o (lines b)).

(** [&self[row]], [&self[(col, row)]] and [f(&mut self[row])] *)
Definition index (b : t) (row : nat) : option Line.t :=
  o ← view_offset b; lines b !! (o + row).
Definition index_cell (b : t) (col row : nat) : option Cell.t :=
  l ← index b row; Line.cells l !! col.
Definition on_row (row : nat) (f : Line.t → option Line.t) (b : t) : option t :=
  o ← view_offset b;
  ls ← modify (o + row) f (lines b);
  Some (set_lines ls b).
Definition on_rows (s e : nat) (f : list Line.t → option (list Line.t)) (b : t) : option t :=
  o ← view_offset b;
  ls ← on_range (o + s) (o + e) f (lines b);
  Some (set_lines ls b).

Definition unwrap_row (row : nat) : t → option t :=
  on_row row (λ l, Some (Line.set_wrapped false l)).

Definition print `{UnicodeWidth} (b : t) (col row : nat) (ch : char) (pen : Pen.t) :
    option (t * option nat) :=
  o ← view_offset b;
  l ← lines b !! (o + row);
  '(l, r) ← Line.print l col ch pen;
  ls ← update (lines b) (o + row) l;
  Some (set_lines ls b, r).

Definition wrap (b : t) (row : nat) : option t :=
  on_row row (λ l, Some (Line.set_wrapped true l)) b.

Definition shift_right (b : t) (col row n : nat) (pen : Pen.t) : option t :=
  k ← csub (cols b) col;
  on_row row (λ l, Line.shift_right l col (n `min` k) pen) b.

Definition delete (b : t) (col row n : nat) (pen : Pen.t) : option t :=
  k ← csub (cols b) col;
  on_row row (λ l, l ← Line.delete l col (n `min` k) pen;
                   Some (Line.set_wrapped false l)) b.

(** Erasing an entire row removes its incoming wrap link. *)
Definition clear_incoming_wrap (b : t) (row : nat) : option t :=
  o ← view_offset b;
  match csub (o + row) 1 with
  | Some previous =>
      ls ← modify previous (λ l, Some (Line.set_wrapped false l)) (lines b);
      Some (set_lines ls b)
  | None => Some b
  end.

Definition clear (b : t) (s e : nat) (pen : Pen.t) : option t :=
  on_rows s e (λ ls, Some ((λ l, Line.reset l (cols b) pen) <$> ls)) b.

Definition extend (b : t) (n cols : nat) (pen : Pen.t) : t :=
  set_lines (lines b ++ replicate n (Line.blank cols pen)) b.

Definition erase (b : t) (col row : nat) (mode : EraseMode) (pen : Pen.t) : option t :=
  match mode with
  | NextChars n =>
      k ← csub (cols b) col;
      on_row row (λ l, Line.clear l col (col + n `min` k) pen) b
  | FromCursorToEndOfView =>
      b ← (if decide (col = 0) then clear_incoming_wrap b row else Some b);
      b ← on_row row (λ l, Line.clear (Line.set_wrapped false l) col (cols b) pen) b;
      clear b (row + 1) (rows b) pen
  | FromStartOfViewToCursor =>
      b ← clear_incoming_wrap b row;
      b ← on_row row (λ l, Line.clear l 0 ((col + 1) `min` cols b) pen) b;
      b ← (if decide (cols b ≤ col + 1) then unwrap_row row b else Some b);
      clear b 0 row pen
  | WholeView =>
      b ← clear_incoming_wrap b 0;
      clear b 0 (rows b) pen
  | FromCursorToEndOfLine =>
      b ← (if decide (col = 0) then clear_incoming_wrap b row else Some b);
      on_row row (λ l, Line.clear l col (cols b) pen) b
  | FromStartOfLineToCursor =>
      on_row row (λ l, Line.clear l 0 ((col + 1) `min` cols b) pen) b
  | WholeLine =>
      b ← clear_incoming_wrap b row;
      on_row row (λ l, Line.clear l 0 (cols b) pen) b
  end.

(** [n] times [self.lines.insert(index, line.clone())] *)
Fixpoint insert_lines (n index : nat) (line : Line.t) (ls : list Line.t) :
    option (list Line.t) :=
  match n with
  | 0 => Some ls
  | S n =>
      if decide (index ≤ length ls)
      then insert_lines n index line (take index ls ++ line :: drop index ls)
      else None
  end.

Definition scroll_up (b : t) (s e n : nat) (pen : Pen.t) : option t :=
  size ← csub e s;
  let n := n `min` size in
  last ← csub e 1;
  last_row ← csub (rows b) 1;
  b ← (if decide (last < last_row) then unwrap_row last b else Some b);
  b ← (if decide (s = 0) then
         if decide (e = rows b) then Some (extend b n (cols b) pen)
         else
           k ← csub (length (lines b)) (rows b);
           ls ← insert_lines n (k + e) (Line.blank (cols b) pen) (lines b);
           Some (set_lines ls b)
       else
         prev ← csub s 1;
         b ← unwrap_row prev b;
         b ← on_rows s e (rotate_left n) b;
         from ← csub e n;
         clear b from e pen);
  Some (set_trim_needed true b).

Definition scroll_down (b : t) (s e n : nat) (pen : Pen.t) : option t :=
  size ← csub e s;
  let n := n `min` size in
  b ← on_rows s e (rotate_right n) b;
  b ← clear b s (s + n) pen;
  b ← (if decide (0 < s) then prev ← csub s 1; unwrap_row prev b else Some b);
  last ← csub e 1;
  unwrap_row last b.

(** ** Reflow *)

(** The iterator [Reflow]: one unit of fuel per pass through [next]'s loop;
    [rest] is the row put back, [iter] the rows not yet read. *)
Fixpoint reflow_go (fuel cols : nat) (rest : option Line.t) (iter : list Line.t) :
    option (list Line.t) :=
  match fuel with
  | 0 => None
  | S fuel =>
      let step line iter :=
        if decide (cols < Line.len line) then
          '(line, rest) ← Line.contract line cols;
          out ← reflow_go fuel cols rest iter;
          Some (line :: out)
        else if decide (cols = Line.len line) then
          out ← reflow_go fuel cols None iter;
          Some (line :: out)
        else
          match iter with
          | next_line :: iter =>
              '(line, (complete, rest)) ← Line.extend line next_line cols;
              if (complete : bool) then
                out ← reflow_go fuel cols rest iter;
                Some (line :: out)
              else reflow_go fuel cols (Some line) iter
          | [] =>
              line ← Line.expand line cols Pen.default;
              out ← reflow_go fuel cols None iter;
              Some (Line.set_wrapped false line :: out)
          end in
      match rest, iter with
      | Some line, _ => step line iter
      | None, line :: iter => step line iter
      | None, [] => Some []
      end
  end.

(** Fuel for [reflow]: every pass uses up a cell or a row. *)
Definition reflow_size (rest : option Line.t) (iter : list Line.t) : nat :=
  match rest with Some l => S (Line.len l) | None => 0 end
  + sum_list_with (λ l, S (Line.len l)) iter.

Definition reflow (iter : list Line.t) (cols : nat) : option (list Line.t) :=
  ls ← reflow_go (S (reflow_size None iter)) cols None iter;
  _ ← assert (forallb (λ l, bool_decide (Line.len l = cols)) ls);
  Some ls.

Definition logical_position (b : t) (pos : nat * nat) (cols rows : nat) :
    option (nat * nat) :=
  vis_row_offset ← csub (length (lines b)) rows;
  let abs_row := pos.2 + vis_row_offset in
  let last_available_row := abs_row `min` length (lines b) in
  log_row ← csub abs_row last_available_row;
  let '(log_col_offset, log_row) :=
    foldl (λ '(off, row) line,
             if Line.wrapped line then (off + cols, row) else (0, row + 1))
          (0, log_row) (take abs_row (lines b)) in
  Some (pos.1 + log_col_offset, log_row).

(** [while r < pos.1 && rel_row < last_row]; fuel: the rows left. *)
Fixpoint relative_row (fuel : nat) (ls : list Line.t) (target last_row r rel_row : nat) :
    option nat :=
  match fuel with
  | 0 => None
  | S fuel =>
      if decide (r < target ∧ rel_row < last_row) then
        l ← ls !! rel_row;
        relative_row fuel ls target last_row (if Line.wrapped l then r else r + 1) (rel_row + 1)
      else Some rel_row
  end.

(** [while rel_col >= cols && self.lines[rel_row].wrapped] *)
Fixpoint relative_col (fuel : nat) (ls : list Line.t) (cols rel_col rel_row : nat) :
    option (nat * nat) :=
  match fuel with
  | 0 => None
  | S fuel =>
      if decide (cols ≤ rel_col) then
        l ← ls !! rel_row;
        if Line.wrapped l then
          rel_col ← csub rel_col cols;
          relative_col fuel ls cols rel_col (rel_row + 1)
        else Some (rel_col, rel_row)
      else Some (rel_col, rel_row)
  end.

Definition relative_position (b : t) (pos : nat * nat) (cols rows : nat) :
    option (nat * Z) :=
  last_row ← csub (length (lines b)) 1;
  rel_row ← relative_row (S (length (lines b))) (lines b) pos.2 last_row 0 0;
  '(rel_col, rel_row) ← relative_col (S (length (lines b))) (lines b) cols pos.1 rel_row;
  last_col ← csub cols 1;
  rel_row_offset ← csub (length (lines b)) rows;
  Some (rel_col `min` last_col, (Z.of_nat rel_row - Z.of_nat rel_row_offset)%Z).

Definition resize_rows (b : t) (new_cols new_rows old_rows : nat) (cursor : nat * nat) :
    option (t * (nat * nat)) :=
  let line_count := length (lines b) in
  '(b, cursor_row) ←
    match Nat.compare new_rows old_rows with
    | Lt =>
        height_delta ← csub old_rows new_rows;
        bottom ← csub old_rows 1;
        inverted_cursor_row ← csub bottom cursor.2;
        let excess := height_delta `min` inverted_cursor_row in
        b ← (if decide (0 < excess) then
               keep ← csub line_count excess;
               let ls := take keep (lines b) in
               back ← csub (length ls) 1;
               ls ← modify back (λ l, Some (Line.set_wrapped false l)) ls;
               Some (set_lines ls b)
             else Some b);
        up ← csub height_delta excess;
        row ← csub cursor.2 up;
        Some (b, row)
    | Gt =>
        height_delta ← csub new_rows old_rows;
        scrollback_size ← csub line_count (old_rows `min` line_count);
        let cursor_row_shift := scrollback_size `min` height_delta in
        height_delta ← csub height_delta cursor_row_shift;
        let row := if decide (cursor.2 < old_rows) then cursor.2 + cursor_row_shift
                   else cursor.2 in
        Some (if decide (0 < height_delta) then extend b height_delta new_cols Pen.default
              else b, row)
    | Eq => Some (b, cursor.2)
    end;
  Some (set_trim_needed true (set_size new_cols new_rows b), (cursor.1, cursor_row)).

Definition resize (b : t) (new_cols new_rows : nat) (cursor : nat * nat) :
    option (t * (nat * nat)) :=
  let old_cols := cols b in
  let old_rows := rows b in
  cursor_log_pos ← logical_position b cursor old_cols old_rows;
  '(b, cursor, old_rows) ←
    (if decide (new_cols ≠ old_cols) then
       ls ← reflow (lines b) new_cols;
       let line_count := length ls in
       let b := set_lines ls b in
       b ← (if decide (line_count < old_rows) then
              n ← csub old_rows line_count; Some (extend b n new_cols Pen.default)
            else Some b);
       rel ← relative_position b cursor_log_pos new_cols old_rows;
       Some (if decide (0 <= rel.2)%Z
             then (b, (rel.1, Z.to_nat rel.2), old_rows)
             else (b, (rel.1, 0), old_rows + Z.to_nat (- rel.2)))
     else Some (b, cursor, old_rows));
  resize_rows b new_cols new_rows old_rows cursor.

(** [while start > 0 && self.lines[start - 1].wrapped] *)
Fixpoint logical_start (ls : list Line.t) (start : nat) : option nat :=
  match start with
  | 0 => Some 0
  | S prev => l ← ls !! prev; if Line.wrapped l then logical_start ls prev else Some start
  end.

(** [while end < old_count && self.lines[end - 1].wrapped]; fuel: the rows left. *)
Fixpoint logical_end (fuel : nat) (ls : list Line.t) (end_ : nat) : option nat :=
  match fuel with
  | 0 => None
  | S fuel =>
      if decide (end_ < length ls) then
        prev ← csub end_ 1;
        l ← ls !! prev;
        if Line.wrapped l then logical_end fuel ls (end_ + 1) else Some end_
      else Some end_
  end.

Definition resize_preserving_cursor (b : t) (new_cols new_rows : nat) (cursor : nat * nat) :
    option (t * (nat * nat)) :=
  if decide (rows b ≤ cursor.2) then resize b new_cols new_rows cursor else
  let old_rows := rows b in
  let old_count := length (lines b) in
  top ← csub old_count old_rows;
  let old_cursor_absolute := top + cursor.2 in
  '(b, cursor, old_rows) ←
    (if decide (new_cols ≠ cols b) then
       start ← logical_start (lines b) old_cursor_absolute;
       end_ ← logical_end (S old_count) (lines b) (old_cursor_absolute + 1);
       below ← csub old_count end_;
       let bottom_padding :=
         count_while (λ line, Line.is_blank line && negb (Line.wrapped line))
           (take below (reverse (lines b))) in
       let after := drop end_ (lines b) in
       let active_line := drop start (take end_ (lines b)) in
       result ← reflow (take start (lines b)) new_cols;
       new_cursor ← csub (length result + old_cursor_absolute) start;
       active_line ← mapM (λ l, Line.resize_preserving_wrap l new_cols) active_line;
       tail ← reflow after new_cols;
       let result := result ++ active_line ++ tail in
       let padding_to_consume := (length result - old_count) `min` bottom_padding in
       keep ← csub (length result) padding_to_consume;
       let b := set_lines (take keep result) b in
       b ← (if decide (length (lines b) < old_rows) then
              n ← csub old_rows (length (lines b)); Some (extend b n new_cols Pen.default)
            else Some b);
       last_col ← csub new_cols 1;
       view_offset ← csub (length (lines b)) old_rows;
       Some (if decide (view_offset ≤ new_cursor)
             then (b, (cursor.1 `min` last_col, new_cursor - view_offset), old_rows)
             else (b, (cursor.1 `min` last_col, 0), old_rows + (view_offset - new_cursor)))
     else Some (b, cursor, old_rows));
  resize_rows b new_cols new_rows old_rows cursor.

(** [gc] drains the rows above the scrollback limit; dropping the iterator
    unread removes them all the same. *)
Definition trim_scrollback (b : t) : option (t * option (list Line.t)) :=
  match scrollback_limit b with
  | Some limit =>
      scrollback_size ← csub (length (lines b)) (rows b);
      if decide (limit < scrollback_size) then
        let excess := scrollback_size - limit in
        Some (set_lines (drop excess (lines b)) b, Some (take excess (lines b)))
      else Some (b, None)
  | None => Some (b, None)
  end.

Definition gc (b : t) : option (t * option (list Line.t)) :=
  if trim_needed b then trim_scrollback (set_trim_needed false b) else Some (b, None).
End Buffer.

(** * Well-formed buffers *)

(** The last line is not linked to a following one. *)
Definition ends_unwrapped (ls : list Line.t) : Prop :=
  ∀ l, last ls = Some l → Line.wrapped l = false.

(** [strict] asks it of a buffer: resizing the screen in the line-preserving policy may
    leave the last line linked (see [Resizing]). *)
Definition closed (strict : bool) (ls : list Line.t) : Prop := strict = true → ends_unwrapped ls.

Section wf_buffer.
Context `{UnicodeWidth}.

Record buffer_shape (b : Buffer.t) : Prop := {
  shape_cols : 1 ≤ Buffer.cols b;
  shape_rows : 1 ≤ Buffer.rows b ≤ length (Buffer.lines b);
  shape_lines : Forall (wf_line (Buffer.cols b)) (Buffer.lines b);
}.

Definition wf_buffer (strict : bool) (b : Buffer.t) : Prop :=
  buffer_shape b ∧ closed strict (Buffer.lines b).

(** A buffer whose last line may be wrapped while rows up to [e] are edited. *)
Definition wf_below (strict : bool) (e : nat) (b : Buffer.t) : Prop :=
  buffer_shape b ∧ (e < Buffer.rows b → closed strict (Buffer.lines b)).
End wf_buffer.

Definition same_dims (b b' : Buffer.t) : Prop :=
  Buffer.cols b' = Buffer.cols b ∧ Buffer.rows b' = Buffer.rows b ∧
  Buffer.scrollback_limit b' = Buffer.scrollback_limit b.

#[global] Instance same_dims_preorder : PreOrder same_dims.
Proof. split; [done|]. intros x y z (? & ? & ?) (? & ? & ?). split_and!; congruence. Qed.

Section ends.
Implicit Types (x y m : list Line.t) (l : Line.t).

Lemma ends_app x y : y ≠ [] → ends_unwrapped (x ++ y) ↔ ends_unwrapped y.
Proof.
  intros Hy. unfold ends_unwrapped. rewrite last_app.
  destruct (last y) eqn:E; [done|]. by apply last_None in E.
Qed.

Lemma ends_app_nil x : ends_unwrapped [] .
Proof. by intros l. Qed.

Lemma ends_cons l x : x ≠ [] → ends_unwrapped (l :: x) ↔ ends_unwrapped x.
Proof. intros. by apply (ends_app [l]). Qed.

Lemma ends_replace x y l l' :
  ends_unwrapped (x ++ l :: y) → (Line.wrapped l = false → Line.wrapped l' = false) →
  ends_unwrapped (x ++ l' :: y).
Proof.
  intros He Hk. rewrite ends_app in * by done. destruct y as [|l2 y].
  - intros ? [= <-]. by apply Hk, He.
  - rewrite ends_cons in * by done. done.
Qed.

Lemma ends_replace_range x m m' y :
  ends_unwrapped (x ++ m ++ y) → length m' = length m →
  Forall (λ l, Line.wrapped l = false) m' → ends_unwrapped (x ++ m' ++ y).
Proof.
  intros He Hl Hm. destruct y as [|l y].
  - rewrite app_nil_r in *. destruct m' as [|l m'].
    + destruct m; [done|simpl in Hl; lia].
    + rewrite ends_app by done. intros l' [k E]%last_Some. rewrite E in Hm.
      apply Forall_app in Hm as [_ [Hm _]%Forall_cons_1]. exact Hm.
  - rewrite app_assoc, ends_app in * by done. done.
Qed.

Lemma ends_unwrapped_all x : Forall (λ l, Line.wrapped l = false) x → ends_unwrapped x.
Proof.
  intros Hx l [k ->]%last_Some. apply Forall_app in Hx as [_ [Hx _]%Forall_cons_1]. exact Hx.
Qed.

Context {strict : bool}.
Notation closed := (closed strict).

Lemma closed_app x y : y ≠ [] → closed (x ++ y) ↔ closed y.
Proof. intros Hy. unfold Buffers.closed. by rewrite ends_app. Qed.

Lemma closed_cons l x : x ≠ [] → closed (l :: x) ↔ closed x.
Proof. intros. by apply (closed_app [l]). Qed.

Lemma closed_replace x y l l' :
  closed (x ++ l :: y) → (Line.wrapped l = false → Line.wrapped l' = false) → closed (x ++ l' :: y).
Proof. intros He Hk Hs. by eapply ends_replace; [apply He|]. Qed.

Lemma closed_replace_range x m m' y :
  closed (x ++ m ++ y) → length m' = length m →
  Forall (λ l, Line.wrapped l = false) m' → closed (x ++ m' ++ y).
Proof. intros He Hl Hm Hs. by eapply ends_replace_range; [apply He|..]. Qed.

Lemma closed_all x : Forall (λ l, Line.wrapped l = false) x → closed x.
Proof. intros Hx _. by apply ends_unwrapped_all. Qed.
End ends.

Section buffer_ops.
Context `{UnicodeWidth} {strict : bool}.
Notation wf_buffer := (wf_buffer strict).
Notation wf_below := (wf_below strict).
Notation closed := (closed strict).
Implicit Types (b : Buffer.t) (p : Pen.t) (l : Line.t).

Lemma wf_below_of e b : wf_buffer b → wf_below e b.
Proof. intros [? ?]. by split. Qed.

Lemma wf_below_wf e b : wf_below e b → e < Buffer.rows b → wf_buffer b.
Proof. intros [? He] ?. split; auto. Qed.

Lemma wf_below_mono e e' b : wf_below e b → e ≤ e' → wf_below e' b.
Proof. intros [? He] ?. split; [done|]. intros. apply He. lia. Qed.

Lemma view_offset_Some b :
  buffer_shape b →
  Buffer.view_offset b = Some (length (Buffer.lines b) - Buffer.rows b).
Proof. intros [? ? ?]. unfold Buffer.view_offset. by rewrite csub_Some by lia. Qed.

Lemma shape_set_lines b ls :
  buffer_shape b → Buffer.rows b ≤ length ls → Forall (wf_line (Buffer.cols b)) ls →
  buffer_shape (Buffer.set_lines ls b).
Proof. intros [? [? ?] ?] ? ?. split; simpl; [done|lia|done]. Qed.

(** An edit of one row that never sets its wrap flag. *)
Lemma on_row_Safe e b row f :
  wf_below e b → row < Buffer.rows b →
  (∀ l, wf_line (Buffer.cols b) l →
     f l ⇓ λ l', wf_line (Buffer.cols b) l' ∧
                 (Line.wrapped l = false → Line.wrapped l' = false)) →
  Buffer.on_row row f b ⇓ λ b', wf_below e b' ∧ same_dims b b'.
Proof.
  intros [Hs He] Hrow Hf. unfold Buffer.on_row. rewrite view_offset_Some by done. simpl.
  pose proof (shape_rows _ Hs). pose proof (shape_lines _ Hs) as Hl.
  eapply Safe_bind; [eapply modify_Safe with (Q := λ ls, length ls = length (Buffer.lines b) ∧
    Forall (wf_line (Buffer.cols b)) ls ∧
    (closed (Buffer.lines b) → closed ls)); [lia|]|].
  - intros x l y E Hx. rewrite E in Hl. apply Forall_app in Hl as [? [? ?]%Forall_cons].
    eapply Safe_mono; [by apply Hf|]. intros l' [? ?]. rewrite E. split_and!.
    + len.
    + apply Forall_app. split; [done|]. by constructor.
    + intros. by eapply closed_replace.
  - intros ls (? & ? & Hend). simpl. split; [|done]. split; [apply shape_set_lines; auto; lia|].
    simpl. auto.
Qed.

Lemma wrap_Safe b row :
  wf_buffer b → row < Buffer.rows b →
  Buffer.wrap b row ⇓ λ b', wf_below (row + 1) b' ∧ same_dims b b'.
Proof.
  intros [Hs He] Hrow. unfold Buffer.wrap, Buffer.on_row. rewrite view_offset_Some by done.
  simpl. pose proof (shape_rows _ Hs). pose proof (shape_lines _ Hs) as Hl.
  eapply Safe_bind; [eapply modify_Safe with (Q := λ ls, length ls = length (Buffer.lines b) ∧
    Forall (wf_line (Buffer.cols b)) ls ∧ (row + 1 < Buffer.rows b → closed ls)); [lia|]|].
  - intros x l y E Hx. rewrite E in Hl, He. apply Forall_app in Hl as [? [[? ?] ?]%Forall_cons].
    simpl. rewrite E. split_and!.
    + len.
    + apply Forall_app. split; [done|]. by constructor.
    + intros. rewrite closed_app in * by done. destruct y as [|l2 y].
      * apply (f_equal length) in E. len.
      * rewrite closed_cons in * by done. done.
  - intros ls (? & ? & Hend). simpl. split; [|done]. split; [apply shape_set_lines; auto; lia|].
    simpl. auto.
Qed.

Lemma unwrap_row_Safe e b row :
  wf_below e b → row < Buffer.rows b →
  Buffer.unwrap_row row b ⇓ λ b', wf_below e b' ∧ same_dims b b'.
Proof. intros. apply on_row_Safe; [done..|]. intros l ?. simpl. auto. Qed.

(** Unwrapping the last edited row closes the buffer again. *)
Lemma unwrap_last_Safe e b :
  wf_below e b → 1 ≤ e ≤ Buffer.rows b →
  Buffer.unwrap_row (e - 1) b ⇓ λ b', wf_buffer b' ∧ same_dims b b'.
Proof.
  intros [Hs He] Hrow. unfold Buffer.unwrap_row, Buffer.on_row.
  rewrite view_offset_Some by done. simpl.
  pose proof (shape_rows _ Hs). pose proof (shape_lines _ Hs) as Hl.
  eapply Safe_bind; [eapply modify_Safe with (Q := λ ls, length ls = length (Buffer.lines b) ∧
    Forall (wf_line (Buffer.cols b)) ls ∧ closed ls); [lia|]|].
  - intros x l y E Hx. rewrite E in Hl, He. apply Forall_app in Hl as [? [[? ?] ?]%Forall_cons].
    simpl. rewrite E. split_and!.
    + len.
    + apply Forall_app. split; [done|]. by constructor.
    + destruct (decide (e < Buffer.rows b)).
      * eapply closed_replace; eauto.
      * rewrite closed_app by done. destruct y as [|l2 y]; [by intros _ ? [= <-]|].
        apply (f_equal length) in E. len.
  - intros ls (? & ? & Hend). simpl. split; [|done]. split; [apply shape_set_lines; auto; lia|].
    done.
Qed.

Lemma on_rows_split b s e f (Q : Buffer.t → Prop) :
  buffer_shape b → s ≤ e ≤ Buffer.rows b →
  (∀ x m y, Buffer.lines b = x ++ m ++ y → length m = e - s →
     (y = [] ↔ e = Buffer.rows b) →
     f m ⇓ λ m', Q (Buffer.set_lines (x ++ m' ++ y) b)) →
  Buffer.on_rows s e f b ⇓ Q.
Proof.
  intros Hs He Hf. unfold Buffer.on_rows. rewrite view_offset_Some by done. simpl.
  pose proof (shape_rows _ Hs).
  eapply Safe_bind; [apply on_range_Safe with
    (Q := λ ls, Q (Buffer.set_lines ls b)); [lia|]|by intros].
  intros x m y E Hx Hm. apply Hf; [done|lia|].
  apply (f_equal length) in E. rewrite !length_app in E.
  rewrite <- length_zero_iff_nil. lia.
Qed.

Lemma rotate_rows_Safe s e f b :
  wf_below e b → s ≤ e ≤ Buffer.rows b →
  (∀ m : list Line.t, length m = e - s → f m ⇓ λ m', m' ≡ₚ m) →
  Buffer.on_rows s e f b ⇓ λ b', wf_below e b' ∧ same_dims b b'.
Proof.
  intros [Hs He] Hse Hf. pose proof (shape_rows _ Hs). pose proof (shape_lines _ Hs) as Hl.
  apply on_rows_split; [done..|]. intros x m y E Hm Hy.
  eapply Safe_mono; [by apply Hf|]. intros m' Hp. split; [|done]. rewrite E in Hl, He.
  split; simpl.
  - apply shape_set_lines; [done|rewrite Hp, <- E; lia|by rewrite Hp].
  - intros Hlt. specialize (He Hlt). rewrite app_assoc, closed_app in *; [done|..];
      intros ?%Hy; lia.
Qed.

Lemma clear_gen s e e' b p :
  wf_below e' b → s ≤ e ≤ Buffer.rows b → Pen.wf p →
  Buffer.clear b s e p ⇓ λ b', wf_below e' b' ∧ same_dims b b' ∧
    (s < e → e' ≤ e → wf_buffer b').
Proof.
  intros [Hs He] Hse Hp. pose proof (shape_rows _ Hs). pose proof (shape_lines _ Hs) as Hl.
  apply on_rows_split; [done..|]. intros x m y E Hm Hy. simpl. rewrite E in Hl, He.
  apply Forall_app in Hl as [? [_ ?]%Forall_app].
  set (m' := (λ l, Line.reset l (Buffer.cols b) p) <$> m).
  assert (Hm' : Forall (λ l, l = Line.blank (Buffer.cols b) p) m').
  { apply Forall_fmap, Forall_true. intros. by apply Line_reset_blank. }
  assert (length m' = length m) as Hlm by apply length_fmap.
  assert (Hu : Forall (λ l, Line.wrapped l = false) m').
  { eapply Forall_impl; [done|]. by intros ? ->. }
  assert (Hsh : buffer_shape (Buffer.set_lines (x ++ m' ++ y) b)).
  { apply shape_set_lines; [done| |].
    - apply (f_equal length) in E. rewrite !length_app in *. lia.
    - rewrite !Forall_app. split_and!; [done| |done].
      eapply Forall_impl; [exact Hm'|]. intros ? ->. by apply wf_line_blank. }
  split_and!; [split; [done|]; simpl; intros; eapply closed_replace_range; eauto|done|].
  intros Hlt Hee. split; [done|]. simpl. destruct (decide (y = [])) as [->|Hne].
  - rewrite app_nil_r, closed_app; [by apply closed_all|].
    intros Hnil. rewrite Hnil in Hlm. simpl in Hlm. lia.
  - eapply closed_replace_range; [apply He|done..]. assert (e ≠ Buffer.rows b) by tauto. lia.
Qed.

Lemma clear_Safe s e b p :
  wf_buffer b → s ≤ e ≤ Buffer.rows b → Pen.wf p →
  Buffer.clear b s e p ⇓ λ b', wf_buffer b' ∧ same_dims b b'.
Proof.
  intros [Hs He] ? ?. eapply Safe_mono; [apply (clear_gen s e 0); [by split|done..]|].
  intros b' (Hb' & Hd & _). split; [|done]. eapply wf_below_wf; [done|].
  destruct Hb' as [Hs' _]. pose proof (shape_rows _ Hs'). lia.
Qed.
End buffer_ops.

Section buffer_edit.
Context `{UnicodeWidth} {strict : bool}.
Notation wf_buffer := (wf_buffer strict).
Notation wf_below := (wf_below strict).
Notation closed := (closed strict).
Implicit Types (b : Buffer.t) (p : Pen.t) (l : Line.t).

(** What the operations on a well-formed buffer return. *)
Definition kept (b b' : Buffer.t) : Prop := wf_buffer b' ∧ same_dims b b'.

Lemma kept_trans b1 b2 b3 : same_dims b1 b2 → kept b2 b3 → kept b1 b3.
Proof. intros ? [? ?]. split; [done|]. by etrans. Qed.

Lemma edit_row_Safe b row f :
  wf_buffer b → row < Buffer.rows b →
  (∀ l, wf_line (Buffer.cols b) l →
     f l ⇓ λ l', wf_line (Buffer.cols b) l' ∧
                 (Line.wrapped l = false → Line.wrapped l' = false)) →
  Buffer.on_row row f b ⇓ kept b.
Proof.
  intros Hb Hrow Hf. eapply Safe_mono; [eapply (on_row_Safe (strict:=strict) 0); eauto using wf_below_of|].
  intros b' [Hb' Hd]. split; [|done]. eapply wf_below_wf; [done|].
  destruct Hb' as [Hs' _]. pose proof (shape_rows _ Hs'). lia.
Qed.

Lemma Buffer_print_Safe b col row ch p :
  wf_buffer b → row < Buffer.rows b → col < Buffer.cols b → Pen.wf p →
  Buffer.print b col row ch p ⇓ λ '(b', r), kept b b' ∧
    match r with
    | Some w => w = Line.as_usize (Line.char_display_width ch) ∧ col + w ≤ Buffer.cols b
    | None => S col = Buffer.cols b ∧ Line.char_display_width ch = Line.WDouble
    end.
Proof.
  intros Hb Hrow Hcol Hp. destruct (id Hb) as [Hs He].
  unfold Buffer.print. rewrite view_offset_Some by done. simpl.
  pose proof (shape_rows _ Hs). pose proof (shape_lines _ Hs) as Hl.
  set (i := length (Buffer.lines b) - Buffer.rows b + row).
  destruct (lookup_lt_is_Some_2 (Buffer.lines b) i) as [l Hli]; [lia|]. rewrite Hli. simpl.
  apply split_at in Hli as (x & y & E & Hx). rewrite E in Hl, He.
  apply Forall_app in Hl as [? [? ?]%Forall_cons].
  eapply Safe_bind; [by apply Line_print_Safe|].
  intros [l' r] (? & Hw & Hr). rewrite E, <- Hx, update_app_here. simpl.
  split; [|by destruct r as [w|]; [destruct Hr as (? & ? & _)|destruct Hr as (_ & ? & ?)]].
  split; [|done]. split; simpl.
  - apply shape_set_lines; [done| |].
    + rewrite E in *. len.
    + apply Forall_app. split; [done|]. by constructor.
  - eapply closed_replace; [done|]. congruence.
Qed.

Lemma index_cell_Safe b col row :
  wf_buffer b → row < Buffer.rows b → col < Buffer.cols b →
  Buffer.index_cell b col row ⇓ λ _, True.
Proof.
  intros [Hs _] Hrow Hcol. unfold Buffer.index_cell, Buffer.index.
  rewrite view_offset_Some by done. simpl.
  pose proof (shape_rows _ Hs). pose proof (shape_lines _ Hs) as Hl.
  destruct (lookup_lt_is_Some_2 (Buffer.lines b)
    (length (Buffer.lines b) - Buffer.rows b + row)) as [l Hli]; [lia|]. rewrite Hli. simpl.
  eapply Forall_lookup_1 in Hl as [Hlen _]; [|exact Hli].
  by destruct (lookup_lt_is_Some_2 (Line.cells l) col) as [c ->]; [lia|].
Qed.

Lemma Buffer_shift_right_Safe b col row n p :
  wf_buffer b → row < Buffer.rows b → col < Buffer.cols b → Pen.wf p →
  Buffer.shift_right b col row n p ⇓ kept b.
Proof.
  intros Hb Hrow Hcol Hp. unfold Buffer.shift_right. rewrite csub_Some by lia. simpl.
  apply edit_row_Safe; [done..|]. intros l Hl.
  eapply Safe_mono; [apply Line_shift_right_Safe; [done|done|lia|done]|].
  intros l' [? ->]. done.
Qed.

Lemma Buffer_delete_Safe b col row n p :
  wf_buffer b → row < Buffer.rows b → col < Buffer.cols b → 1 ≤ n → Pen.wf p →
  Buffer.delete b col row n p ⇓ kept b.
Proof.
  intros Hb Hrow Hcol Hn Hp. unfold Buffer.delete. rewrite csub_Some by lia. simpl.
  apply edit_row_Safe; [done..|]. intros l Hl.
  eapply Safe_bind; [apply Line_delete_Safe; [done|done|lia|done]|].
  intros l' [[? ?] ?]. simpl. done.
Qed.

Lemma clear_row_Safe b row s e p :
  wf_buffer b → row < Buffer.rows b → s ≤ e ≤ Buffer.cols b → Pen.wf p →
  Buffer.on_row row (λ l, Line.clear l s e p) b ⇓ kept b.
Proof.
  intros. apply edit_row_Safe; [done..|]. intros l Hl.
  eapply Safe_mono; [by apply Line_clear_Safe|]. intros l' (? & -> & _). done.
Qed.

Lemma clear_incoming_wrap_Safe b row :
  wf_buffer b → row < Buffer.rows b → Buffer.clear_incoming_wrap b row ⇓ kept b.
Proof.
  intros Hb Hrow. destruct (id Hb) as [Hs He]. unfold Buffer.clear_incoming_wrap.
  rewrite view_offset_Some by done. simpl.
  pose proof (shape_rows _ Hs). pose proof (shape_lines _ Hs) as Hl.
  unfold csub. case_decide; [|by split].
  eapply Safe_bind; [eapply modify_Safe with (Q := λ ls, kept b (Buffer.set_lines ls b)); [lia|]|].
  - intros x l y E Hx. simpl. split; [|done]. rewrite E in Hl, He.
    apply Forall_app in Hl as [? [[? ?] ?]%Forall_cons]. split.
    + apply shape_set_lines; [done| |].
      * rewrite E in *. len.
      * apply Forall_app. split; [done|]. by constructor.
    + by eapply closed_replace.
  - intros ls ?. done.
Qed.

Lemma erase_Safe b col row mode p :
  wf_buffer b → row < Buffer.rows b → col ≤ Buffer.cols b → Pen.wf p →
  Buffer.erase b col row mode p ⇓ kept b.
Proof.
  intros Hb Hrow Hcol Hp.
  assert (Hrows : 1 ≤ Buffer.rows b) by lia.
  assert (Hinc : ∀ r, r < Buffer.rows b →
    (if decide (col = 0) then Buffer.clear_incoming_wrap b r else Some b) ⇓ kept b).
  { intros r ?. case_decide; [by apply clear_incoming_wrap_Safe|by split]. }
  destruct mode; simpl.
  - rewrite csub_Some by lia. simpl. apply clear_row_Safe; [done..| |done]. lia.
  - eapply Safe_bind; [by apply Hinc|]. intros b1 [Hb1 (Hc1 & Hr1 & Hl1)].
    eapply Safe_bind; [apply edit_row_Safe; [done|lia|]|].
    { intros l [Hl ?]. eapply Safe_mono; [apply (Line_clear_Safe (Buffer.cols b1));
        [by split|lia|done]|]. intros l' (? & -> & _). done. }
    intros b2 [Hb2 (Hc2 & Hr2 & Hl2)].
    eapply Safe_mono; [eapply clear_Safe; [done|lia|done]|].
    intros b3 [? (? & ? & ?)]. split; [done|]. split_and!; congruence.
  - eapply Safe_bind; [by apply clear_incoming_wrap_Safe|]. intros b1 [Hb1 (Hc1 & Hr1 & Hl1)].
    eapply Safe_bind; [apply clear_row_Safe; [done|lia| |done]; lia|].
    intros b2 [Hb2 (Hc2 & Hr2 & Hl2)].
    eapply (Safe_bind _ _ (kept b2)).
    { clear Hinc. case_decide; [|by split]. apply edit_row_Safe; [done|lia|]. intros l [? ?]. by simpl. }
    intros b3 [Hb3 (Hc3 & Hr3 & Hl3)].
    eapply Safe_mono; [eapply clear_Safe; [done|lia|done]|].
    intros b4 [? (? & ? & ?)]. split; [done|]. split_and!; congruence.
  - eapply Safe_bind; [by apply clear_incoming_wrap_Safe|]. intros b1 [Hb1 (Hc1 & Hr1 & Hl1)].
    eapply Safe_mono; [eapply clear_Safe; [done|lia|done]|].
    intros b2 [? (? & ? & ?)]. split; [done|]. split_and!; congruence.
  - eapply Safe_bind; [by apply Hinc|]. intros b1 [Hb1 Hd]. destruct (id Hd) as (Hc1 & Hr1 & Hl1).
    eapply Safe_mono; [apply clear_row_Safe; [done|lia| |done]; lia|].
    intros. by eapply kept_trans.
  - apply clear_row_Safe; [done..| |done]. lia.
  - eapply Safe_bind; [by apply clear_incoming_wrap_Safe|].
    intros b1 [Hb1 Hd]. destruct (id Hd) as (Hc1 & Hr1 & Hl1).
    eapply Safe_mono; [apply clear_row_Safe; [done|lia| |done]; lia|].
    intros. by eapply kept_trans.
Qed.

(** ** Scrolling *)

Lemma insert_lines_Safe n x y l :
  Buffer.insert_lines n (length x) l (x ++ y) = Some (x ++ replicate n l ++ y).
Proof.
  revert y. induction n as [|n IH]; intros y; simpl; [done|].
  rewrite decide_True by len. rewrite take_app_length, drop_app_length.
  rewrite IH. f_equal. f_equal.
  change (replicate n l ++ [l] ++ y = [l] ++ replicate n l ++ y).
  by rewrite !app_assoc, <- replicate_cons_app.
Qed.

Lemma set_trim_needed_kept b b' x : kept b b' → kept b (Buffer.set_trim_needed x b').
Proof. intros [[[? ? ?] ?] ?]. split; [|done]. split; [split|]; done. Qed.

Lemma extend_blank b n p :
  buffer_shape b → 1 ≤ n → Pen.wf p → kept b (Buffer.extend b n (Buffer.cols b) p).
Proof.
  intros Hs Hn Hp. split; [|done]. split; simpl.
  - apply shape_set_lines; [done| |].
    + pose proof (shape_rows _ Hs). len.
    + apply Forall_app. split; [by apply shape_lines|].
      apply Forall_replicate. by apply wf_line_blank.
  - destruct n as [|n]; [lia|]. rewrite closed_app by done. apply closed_all.
    by apply Forall_replicate.
Qed.

Lemma scroll_up_Safe b s e n p :
  wf_below e b → s < e ≤ Buffer.rows b → 1 ≤ n → Pen.wf p →
  Buffer.scroll_up b s e n p ⇓ kept b.
Proof.
  intros Hb Hse Hn Hp. unfold Buffer.scroll_up.
  rewrite (csub_Some e s), (csub_Some e 1), (csub_Some (Buffer.rows b) 1) by lia. simpl.
  eapply (Safe_bind _ _ (λ b', wf_below e b' ∧ same_dims b b')).
  { case_decide; [eapply unwrap_row_Safe; [done|lia]|by split]. }
  intros b1 [Hb1 (Hc1 & Hr1 & Hl1)].
  eapply (Safe_bind _ _ (kept b1)); [|intros b2 [? (? & ? & ?)]; simpl].
  2: { apply set_trim_needed_kept. split; [done|]. split_and!; congruence. }
  assert (Hs1 := proj1 Hb1). pose proof (shape_rows _ Hs1).
  case_decide as Hs0; [case_decide as Her|]; simpl.
  - apply extend_blank; [done|lia|done].
  - rewrite csub_Some by lia. simpl.
    assert (Hwf : wf_buffer b1) by (eapply wf_below_wf; [done|lia]).
    destruct (split_at_len (Buffer.lines b1)
      (length (Buffer.lines b1) - Buffer.rows b1 + e)) as (x & y & E & Hx); [lia|].
    pose proof (shape_lines _ Hs1) as Hlines. destruct Hwf as [_ Hends].
    rewrite <- Hx, E. rewrite insert_lines_Safe. simpl. split; [|done].
    assert (Hlen := f_equal length E). rewrite length_app in Hlen.
    assert (y ≠ []) as Hy by (intros ->; simpl in *; lia). rewrite E in Hlines, Hends.
    apply Forall_app in Hlines as [? ?]. split; simpl.
    + apply shape_set_lines; [done|len|].
      rewrite !Forall_app. split_and!; [done| |done].
      apply Forall_replicate. by apply wf_line_blank.
    + by rewrite app_assoc, closed_app in * by done.
  - rewrite (csub_Some s 1) by lia. simpl.
    eapply Safe_bind; [eapply unwrap_row_Safe; [done|lia]|]. intros b2 [Hb2 (Hc2 & Hr2 & Hl2)].
    eapply Safe_bind; [eapply rotate_rows_Safe; [done|lia|]|].
    { intros m Hm. apply rotate_left_Safe; [lia|]. intros u v -> _. apply Permutation_app_comm. }
    intros b3 [Hb3 (Hc3 & Hr3 & Hl3)]. rewrite (csub_Some e) by lia. simpl.
    eapply Safe_mono; [eapply (clear_gen _ _ e); [done|lia|done]|].
    intros b4 (_ & (? & ? & ?) & Hwf). split; [apply Hwf; lia|]. split_and!; congruence.
Qed.

Lemma scroll_down_Safe b s e n p :
  wf_buffer b → s < e ≤ Buffer.rows b → Pen.wf p →
  Buffer.scroll_down b s e n p ⇓ kept b.
Proof.
  intros Hb Hse Hp. unfold Buffer.scroll_down.
  rewrite (csub_Some e s), (csub_Some e 1) by lia. simpl.
  eapply Safe_bind; [eapply rotate_rows_Safe; [by apply wf_below_of|lia|]|].
  { intros m Hm. apply rotate_right_Safe; [lia|]. intros u v -> _. apply Permutation_app_comm. }
  intros b1 [Hb1 (Hc1 & Hr1 & Hl1)].
  eapply Safe_bind; [eapply (clear_gen _ _ e); [done|lia|done]|].
  intros b2 (Hb2 & (Hc2 & Hr2 & Hl2) & _).
  eapply (Safe_bind _ _ (λ b', wf_below e b' ∧ same_dims b2 b')).
  { case_decide; [|by split]. rewrite csub_Some by lia. simpl.
    apply unwrap_row_Safe; [done|lia]. }
  intros b3 [Hb3 (Hc3 & Hr3 & Hl3)].
  eapply Safe_mono; [eapply unwrap_last_Safe; [done|lia]|].
  intros b4 [? (? & ? & ?)]. split; [done|]. split_and!; congruence.
Qed.

Lemma gc_Safe b :
  wf_buffer b →
  Buffer.gc b ⇓ λ '(b', gone), kept b b' ∧
    Buffer.lines b = default [] gone ++ Buffer.lines b' ∧
    (Buffer.trim_needed b = true → ∀ limit, Buffer.scrollback_limit b = Some limit →
       length (Buffer.lines b') ≤ Buffer.rows b + limit).
Proof.
  intros [Hs He]. unfold Buffer.gc, Buffer.trim_scrollback. pose proof (shape_rows _ Hs).
  assert (Hkeep : kept b (Buffer.set_trim_needed false b)).
  { apply set_trim_needed_kept. by split. }
  destruct (Buffer.trim_needed b) eqn:Ht; simpl; [|by split_and!].
  destruct (Buffer.scrollback_limit b) as [limit|] eqn:Hlim; simpl; [|by split_and!].
  rewrite csub_Some by lia. simpl. case_decide; simpl.
  - split_and!; [|by rewrite take_drop|intros _ ? [= <-]; len].
    split; [|done]. pose proof (shape_lines _ Hs) as Hl.
    rewrite <- (take_drop (length (Buffer.lines b) - Buffer.rows b - limit) (Buffer.lines b)) in Hl, He.
    apply Forall_app in Hl as [_ ?]. split; [split; simpl; [apply Hs|len|done]|].
    simpl. rewrite closed_app in He; [done|].
    intros E%(f_equal length). len.
  - split_and!; [done|done|]. intros _ ? [= <-]. lia.
Qed.
End buffer_edit.
