(* ===== verification/Resizing.v ===== *)
(** Resizing a screen buffer (ctmux/avt/src/buffer.rs: [Reflow], [Buffer::resize],
    [Buffer::resize_preserving_cursor]): the reflow loop ends, none of the
    operations panics, and the resized buffer is well formed with the cursor in
    its view. *)

From S2P Require Import Prelude.
From S2P Require Import Cells.
From S2P Require Import Lines.
From S2P Require Import Buffers.

Section reflow.
Context `{UnicodeWidth}.
Implicit Types (l o : Line.t) (a b iter out : list Line.t).

(** Rows that can be reflowed: whole characters, and at least one cell. *)
Definition flowable (l : Line.t) : Prop := wf_cells (Line.cells l) ∧ 0 < Line.len l.

Lemma wf_line_flowable cols l : 1 ≤ cols → wf_line cols l → flowable l.
Proof. intros ? [? ?]. split; [done|]. unfold Line.len. lia. Qed.

Lemma wf_lines_flowable cols iter :
  1 ≤ cols → Forall (wf_line cols) iter → Forall flowable iter.
Proof. intros ? Hf. eapply Forall_impl; [exact Hf|]. intros. by eapply wf_line_flowable. Qed.

(** An unused row: blank, and not continued below. *)
Definition padding (l : Line.t) : bool := Line.is_blank l && negb (Line.wrapped l).

Lemma padding_unwrapped l : padding l → Line.wrapped l = false.
Proof. unfold padding. by destruct (Line.wrapped l), (Line.is_blank l). Qed.

Lemma padding_contract l n :
  padding l → n < Line.len l →
  Line.contract l n = Some (Line.set_cells (take n (Line.cells l)) l, None).
Proof.
  intros Hp Hn. unfold Line.contract. rewrite (padding_unwrapped _ Hp). simpl.
  assert (Line.trailers l = Line.len l) as ->.
  { apply count_trailing_all. unfold padding in Hp. fold (Line.is_blank l).
    by destruct (Line.is_blank l). }
  rewrite (csub_Some (Line.len l)) by lia. simpl. rewrite Nat.sub_diag, Nat.max_0_r.
  rewrite decide_False; [done|]. unfold Line.len. simpl. rewrite length_take. lia.
Qed.

(** What a run of the reflow iterator over [a ++ b] yields, [b] being unused
    rows at the bottom: every row of [b] stays one row. *)
Definition reflow_post cols (a b out : list Line.t) : Prop :=
  ∃ oa ob, out = oa ++ ob ∧ Forall (wf_line cols) out ∧ ends_unwrapped oa ∧
    Forall (λ l, Line.wrapped l = false) ob ∧ length ob = length b ∧ (oa = [] ↔ a = []).

Lemma reflow_post_cons cols l l0 out a a' b :
  wf_line cols l → (a = [] → Line.wrapped l = false) →
  reflow_post cols a b out → reflow_post cols (l0 :: a') b (l :: out).
Proof.
  intros Hl Hw (oa & ob & -> & Hf & He & Hu & Hlen & Hn).
  exists (l :: oa), ob. split_and!; [done|by constructor| |done..].
  destruct oa as [|l' oa].
  - intros ? [= <-]. apply Hw. tauto.
  - by rewrite ends_cons.
Qed.

Lemma reflow_post_pad cols l l0 out b :
  wf_line cols l → Line.wrapped l = false →
  reflow_post cols [] b out → reflow_post cols [] (l0 :: b) (l :: out).
Proof.
  intros Hl Hw (oa & ob & -> & Hf & He & Hu & Hlen & Hn).
  assert (oa = []) as -> by tauto.
  exists [], (l :: ob). split_and!; try done; [by constructor|by constructor|simpl; lia].
Qed.

(** One pass of the loop of [Reflow::next], with the row [l] in hand. *)
Definition reflow_pass (fuel cols : nat) (l : Line.t) (iter : list Line.t) :
    option (list Line.t) :=
  if decide (cols < Line.len l) then
    '(line, rest) ← Line.contract l cols;
    out ← Buffer.reflow_go fuel cols rest iter; Some (line :: out)
  else if decide (cols = Line.len l) then
    out ← Buffer.reflow_go fuel cols None iter; Some (l :: out)
  else
    match iter with
    | next_line :: iter =>
        '(line, (complete, rest)) ← Line.extend l next_line cols;
        if (complete : bool) then
          out ← Buffer.reflow_go fuel cols rest iter; Some (line :: out)
        else Buffer.reflow_go fuel cols (Some line) iter
    | [] =>
        line ← Line.expand l cols Pen.default;
        out ← Buffer.reflow_go fuel cols None iter;
        Some (Line.set_wrapped false line :: out)
    end.

Lemma reflow_go_S fuel cols rest iter :
  Buffer.reflow_go (S fuel) cols rest iter =
    match option_list rest ++ iter with
    | [] => Some []
    | _ => match rest, iter with
           | Some l, _ => reflow_pass fuel cols l iter
           | None, l :: iter => reflow_pass fuel cols l iter
           | None, [] => Some []
           end
    end.
Proof. by destruct rest, iter. Qed.

(** The claim for the rows still to be read, [fuel] passes at most. *)
Definition reflow_claim cols fuel : Prop := ∀ rest iter a b,
  Buffer.reflow_size rest iter < fuel →
  option_list rest ++ iter = a ++ b →
  Forall flowable (a ++ b) → ends_unwrapped a → Forall padding b →
  Buffer.reflow_go fuel cols rest iter ⇓ reflow_post cols a b.

Lemma reflow_size_cons l iter :
  Buffer.reflow_size None (l :: iter) = S (Line.len l) + Buffer.reflow_size None iter.
Proof. done. Qed.
Lemma reflow_size_rest l iter :
  Buffer.reflow_size (Some l) iter = S (Line.len l) + Buffer.reflow_size None iter.
Proof. done. Qed.

(** A row of padding becomes one row. *)
Lemma reflow_pass_padding cols fuel l iter :
  2 ≤ cols → reflow_claim cols fuel →
  S (Line.len l) + Buffer.reflow_size None iter ≤ fuel →
  Forall flowable (l :: iter) → Forall padding (l :: iter) →
  reflow_pass fuel cols l iter ⇓ reflow_post cols [] (l :: iter).
Proof.
  intros Hc IH Hfuel Hf Hp. apply Forall_cons in Hf as [[Hwf Hlen] Hf].
  apply Forall_cons in Hp as [Hp1 Hp]. pose proof (padding_unwrapped _ Hp1) as Hu.
  assert (Hrec : Buffer.reflow_go fuel cols None iter ⇓ reflow_post cols [] iter).
  { apply IH; try done. lia. }
  unfold reflow_pass. repeat case_decide.
  - pose proof (Line_contract_Safe l cols Hwf) as Hpost.
    rewrite padding_contract in * by done. simpl in *.
    eapply Safe_bind; [exact Hrec|]. intros out Hout.
    apply reflow_post_pad; [apply Hpost; lia|done|done].
  - eapply Safe_bind; [exact Hrec|]. intros out Hout. by apply reflow_post_pad.
  - destruct iter as [|other iter].
    + eapply Safe_bind; [apply Line_expand_Safe; [done|lia|done]|].
      intros l' ([? ?] & _ & _). eapply Safe_bind; [exact Hrec|].
      intros out Hout. by apply reflow_post_pad.
    + unfold Line.extend. rewrite (csub_Some cols) by lia. simpl.
      rewrite decide_False by lia. rewrite Hu. simpl.
      eapply Safe_bind_assoc; [apply Line_expand_Safe; [done|lia|done]|].
      intros l' (? & Hw & _). simpl. eapply Safe_bind; [apply (IH _ _ [] (other :: iter)); try done|].
      * rewrite reflow_size_rest. rewrite reflow_size_cons in Hfuel. lia.
      * intros out Hout. apply reflow_post_pad; try done. by rewrite Hw.
Qed.

(** A row above the padding, the rows [a] and the padding [b] after it. *)
Lemma reflow_pass_text cols fuel l a b :
  2 ≤ cols → reflow_claim cols fuel →
  S (Line.len l) + Buffer.reflow_size None (a ++ b) ≤ fuel →
  Forall flowable (l :: a ++ b) → ends_unwrapped (l :: a) → Forall padding b →
  reflow_pass fuel cols l (a ++ b) ⇓ reflow_post cols (l :: a) b.
Proof.
  intros Hc IH Hfuel Hf He Hp. apply Forall_cons in Hf as [[Hwf Hlen] Hf].
  assert (Hlast : a = [] → Line.wrapped l = false) by (intros ->; by apply He).
  assert (He' : ends_unwrapped a).
  { destruct a; [by intros ?|]. by rewrite ends_cons in He. }
  assert (Hrec : Buffer.reflow_go fuel cols None (a ++ b) ⇓ reflow_post cols a b).
  { apply IH; try done. lia. }
  unfold reflow_pass. repeat case_decide.
  - eapply Safe_bind; [apply Line_contract_Safe; [done|lia]|].
    intros [l' [o|]] [Hl' Hr].
    + destruct Hr as (Ho & Hlo & Hw' & Hwo).
      eapply Safe_bind; [apply (IH _ _ (o :: a) b); try done|].
      * rewrite reflow_size_rest. lia.
      * constructor; [split; [done|lia]|done].
      * destruct a; [intros ? [= <-]; rewrite Hwo; auto|by rewrite ends_cons].
      * intros out Hout. by eapply reflow_post_cons; [..|exact Hout].
    + destruct Hr as [Hr ?]. eapply Safe_bind; [exact Hrec|].
      intros out Hout. by eapply reflow_post_cons.
  - eapply Safe_bind; [exact Hrec|].
    intros out Hout. eapply reflow_post_cons; [by split|exact Hlast|done].
  - destruct (a ++ b) as [|other iter] eqn:E.
    + apply app_nil in E as [-> ->].
      eapply Safe_bind; [apply Line_expand_Safe; [done|lia|done]|].
      intros l' ([? ?] & _ & _). eapply Safe_bind; [exact Hrec|].
      intros out Hout. by eapply reflow_post_cons.
    + apply Forall_cons in Hf as [[Hwfo Hleno] Hf]. rewrite reflow_size_cons in Hfuel.
      destruct a as [|? a]; simplify_eq/=.
      { unfold Line.extend. rewrite (csub_Some cols) by lia. simpl.
        rewrite decide_False by lia. rewrite Hlast by done. simpl.
        eapply Safe_bind_assoc; [apply Line_expand_Safe; [done|lia|done]|].
        intros l' (? & Hw & _). simpl.
        eapply Safe_bind; [apply (IH _ _ [] (other :: iter)); try done|].
        - rewrite reflow_size_rest. lia.
        - by constructor.
        - intros out Hout. eapply reflow_post_cons; try done. by rewrite Hw, Hlast. }
      eapply Safe_bind; [apply Line_extend_Safe; [done|done|lia|done]|].
      intros [l' [[] [o|]]] Hpost; simpl in Hpost; [| | by destruct Hpost|].
      * destruct Hpost as (Hl' & Hlen' & Ho & Hlo & Hwo).
        eapply Safe_bind; [apply (IH _ _ (o :: a) b); try done|].
        -- rewrite reflow_size_rest. lia.
        -- constructor; [split; [done|lia]|done].
        -- destruct a; [intros ? [= <-]; rewrite Hwo; by apply He'|].
           rewrite ends_cons in * by done. done.
        -- intros out Hout. by eapply reflow_post_cons; [..|exact Hout].
      * destruct Hpost as (Hl' & Hlen' & Hwo & Hw').
        eapply Safe_bind; [apply (IH None _ a b); try done|].
        -- lia.
        -- destruct a; [by intros ?|by rewrite ends_cons in He'].
        -- intros out Hout. by eapply reflow_post_cons; [..|exact Hout].
      * destruct Hpost as (Hl' & Hwo & Hlen' & Hle).
        assert (a ≠ []) as Hne.
        { intros ->. specialize (He' other eq_refl). congruence. }
        eapply Safe_mono; [apply (IH _ _ (l' :: a) b); try done|].
        -- rewrite reflow_size_rest. lia.
        -- constructor; [split; [done|lia]|done].
        -- by rewrite ends_cons in *.
        -- intros out (oa & ob & ? & ? & ? & ? & ? & Hn). exists oa, ob. split_and!; try done.
           split; [by intros ?%Hn|done].
Qed.

Lemma reflow_go_Safe cols fuel : 2 ≤ cols → reflow_claim cols fuel.
Proof.
  intros Hc. induction fuel as [|fuel IH]; intros rest iter a b Hfuel E Hf He Hp; [lia|].
  rewrite reflow_go_S, E.
  assert (∃ l ls, a ++ b = l :: ls ∧ S (Line.len l) + Buffer.reflow_size None ls ≤ fuel ∧
    match rest, iter with
    | Some l, _ => reflow_pass fuel cols l iter
    | None, l :: iter => reflow_pass fuel cols l iter
    | None, [] => Some []
    end = reflow_pass fuel cols l ls ∨ a ++ b = []) as (l & ls & Hl).
  { rewrite <- E. destruct rest as [l|]; [exists l, iter|destruct iter as [|l iter]];
      [rewrite reflow_size_rest in Hfuel; left; split_and!; [done|lia|done] | |].
    - exists (Line.Mk [] false), []. by right.
    - exists l, iter. rewrite reflow_size_cons in Hfuel. left. split_and!; [done|lia|done]. }
  destruct Hl as [(Hl & Hsz & ->)|Hl].
  2: { rewrite Hl. apply app_nil in Hl as [-> ->]. exists [], []. by split_and!. }
  rewrite Hl in Hf |- *. destruct a as [|l' a]; simpl in Hl.
  - subst b. by apply reflow_pass_padding.
  - injection Hl as -> <-. by apply reflow_pass_text.
Qed.

(** Reflowing rows followed by unused rows [b]: the latter stay separate rows at
    the bottom. *)
Lemma reflow_padded_Safe cols a b :
  2 ≤ cols → Forall flowable (a ++ b) → ends_unwrapped a → Forall padding b →
  Buffer.reflow (a ++ b) cols ⇓ reflow_post cols a b.
Proof.
  intros Hc Hf He Hp. unfold Buffer.reflow.
  eapply Safe_bind; [apply (reflow_go_Safe cols _ Hc None _ a b); try done; lia|].
  intros out Hout.
  assert (forallb (λ l, bool_decide (Line.len l = cols)) out = true) as ->; [|done].
  apply forallb_forall. intros l Hl%list_elem_of_In. apply bool_decide_eq_true.
  destruct Hout as (? & ? & _ & Hout & _). rewrite Forall_forall in Hout. by apply Hout.
Qed.

Lemma reflow_Safe cols iter :
  2 ≤ cols → Forall flowable iter → ends_unwrapped iter →
  Buffer.reflow iter cols ⇓ λ out, Forall (wf_line cols) out ∧ ends_unwrapped out ∧
    (out = [] ↔ iter = []).
Proof.
  intros Hc Hf He. pose proof (reflow_padded_Safe cols iter []) as Hr.
  rewrite app_nil_r in Hr. eapply Safe_mono; [by apply Hr|].
  intros out (oa & ob & -> & ? & ? & ? & Hlen & ?). apply length_zero_iff_nil in Hlen as ->.
  by rewrite app_nil_r in *.
Qed.

(** Rows of any kind: there are at least as many rows after it as logical lines that end. *)
Definition ended (ls : list Line.t) : nat := length (filter (λ l, Line.wrapped l = false) ls).

Lemma ended_cons l ls : ended (l :: ls) = (if Line.wrapped l then 0 else 1) + ended ls.
Proof. unfold ended. rewrite filter_cons. by destruct (Line.wrapped l). Qed.

Lemma reflow_go_loose cols fuel : 2 ≤ cols → ∀ rest iter, Buffer.reflow_size rest iter < fuel →
  Forall flowable (option_list rest ++ iter) →
  Buffer.reflow_go fuel cols rest iter ⇓ λ out,
    Forall (wf_line cols) out ∧ ended (option_list rest ++ iter) ≤ length out.
Proof.
  intros Hc. induction fuel as [|fuel IH]; intros rest iter Hfuel Hf; [lia|].
  assert (∀ l iter, S (Line.len l) + Buffer.reflow_size None iter ≤ fuel → Forall flowable (l :: iter) →
    reflow_pass fuel cols l iter ⇓ λ out, Forall (wf_line cols) out ∧ ended (l :: iter) ≤ length out) as Hpass.
  { clear rest iter Hfuel Hf. intros l iter Hfuel [[Hwf Hlen] Hf]%Forall_cons.
    pose proof (IH None iter ltac:(lia) Hf) as Hrec. change (option_list None ++ iter) with iter in Hrec.
    assert (∀ l', wf_line cols l' → (out ← Buffer.reflow_go fuel cols None iter; Some (l' :: out)) ⇓ λ out,
      Forall (wf_line cols) out ∧ ended (l :: iter) ≤ length out) as Hone.
    { intros l' Hl'. eapply Safe_bind; [exact Hrec|]. intros out [Ho Hn]. split; [by constructor|].
      rewrite ended_cons. cbn [length]. destruct (Line.wrapped l); lia. }
    assert (∀ l' o, wf_line cols l' → wf_cells (Line.cells o) → 0 < Line.len o →
      ∀ iter', S (Line.len o) + Buffer.reflow_size None iter' < fuel → Forall flowable iter' →
      ended (l :: iter) ≤ 1 + ended (o :: iter') →
      (out ← Buffer.reflow_go fuel cols (Some o) iter'; Some (l' :: out)) ⇓ λ out,
        Forall (wf_line cols) out ∧ ended (l :: iter) ≤ length out) as Hmore.
    { intros l' o Hl' Ho Hlo iter' Hsz Hf' Hn. eapply Safe_bind; [apply (IH (Some o) iter')|].
      - rewrite reflow_size_rest. lia.
      - constructor; [by split|done].
      - intros out [Hout Hle]. split; [by constructor|]. simpl in *. lia. }
    unfold reflow_pass. repeat case_decide.
    - eapply Safe_bind; [apply Line_contract_Safe; [done|lia]|]. intros [l' [o|]] [Hl' Hr]; [|by apply Hone].
      destruct Hr as (Ho & Hlo & _ & Hwo). apply (Hmore l' o); [done|done|lia|lia|done|].
      rewrite !ended_cons, Hwo. lia.
    - apply Hone. by split.
    - destruct iter as [|other iter].
      + eapply Safe_bind; [apply Line_expand_Safe; [done|lia|done]|]. intros l' ([? ?] & _ & _). apply Hone. by split.
      + apply Forall_cons in Hf as [[Hwfo Hleno] Hf]. rewrite reflow_size_cons in Hfuel.
        destruct (Line.wrapped l) eqn:Hw.
        * eapply Safe_bind; [apply Line_extend_Safe; [done|done|lia|done]|].
          intros [l' [[] [o|]]] Hpost; simpl in Hpost; [| | by destruct Hpost|].
          -- destruct Hpost as (Hl' & Hlen' & Ho & Hlo & Hwo). apply (Hmore l' o); [by split|done|lia| |done|].
             { lia. }
             rewrite !ended_cons, Hw, Hwo. lia.
          -- destruct Hpost as (Hl' & Hlen' & Hwo & _).
             eapply Safe_bind; [apply (IH None iter); [lia|done]|]. intros out [Hout Hle]. change (option_list None ++ iter) with iter in Hle.
             split; [by constructor|]. rewrite !ended_cons, Hw, Hwo. cbn [length]. lia.
          -- destruct Hpost as (Hl' & Hwo & Hlen' & Hle). eapply Safe_mono; [apply (IH (Some l') iter)|].
             ++ rewrite reflow_size_rest. lia.
             ++ constructor; [split; [done|lia]|done].
             ++ intros out [Hout Hn]. split; [done|]. change (option_list (Some l') ++ iter) with (l' :: iter) in Hn. rewrite !ended_cons in *. rewrite Hw, Hwo.
                destruct (Line.wrapped l'); lia.
        * unfold Line.extend. rewrite (csub_Some cols) by lia. simpl. rewrite decide_False by lia. rewrite Hw. simpl.
          eapply Safe_bind_assoc; [apply Line_expand_Safe; [done|lia|done]|]. intros l' (Hl' & _). simpl.
          apply (Hmore l' other); [done|done|done| |done|].
          -- lia.
          -- rewrite ended_cons, Hw. lia. }
  rewrite reflow_go_S. destruct rest as [l|]; [|destruct iter as [|l iter]]; simpl in Hf |- *.
  - rewrite reflow_size_rest in Hfuel. apply Hpass; [lia|done].
  - by split.
  - rewrite reflow_size_cons in Hfuel. apply Hpass; [lia|done].
Qed.

Lemma reflow_loose cols iter : 2 ≤ cols → Forall flowable iter →
  Buffer.reflow iter cols ⇓ λ out, Forall (wf_line cols) out ∧ ended iter ≤ length out.
Proof.
  intros Hc Hf. unfold Buffer.reflow. eapply Safe_bind; [apply (reflow_go_loose cols _ Hc None iter); [lia|done]|].
  intros out [Hout Hn]. assert (forallb (λ l, bool_decide (Line.len l = cols)) out = true) as ->; [|done].
  apply forallb_forall. intros l Hl%list_elem_of_In. apply bool_decide_eq_true.
  rewrite Forall_forall in Hout. by apply Hout.
Qed.
End reflow.

Section resize.
Context `{UnicodeWidth} {strict : bool}.
Notation wf_buffer := (wf_buffer strict).
Notation closed := (closed strict).
Implicit Types (b : Buffer.t) (p : Pen.t) (l o : Line.t) (ls : list Line.t).

(** ** Cursor positions *)

Lemma relative_row_Safe fuel ls target last_row r rel_row :
  last_row < length ls → rel_row ≤ last_row → last_row - rel_row < fuel →
  Buffer.relative_row fuel ls target last_row r rel_row ⇓ λ row, row ≤ last_row.
Proof.
  intros Hl. revert r rel_row. induction fuel as [|fuel IH]; intros r rel_row Hrow Hfuel; [lia|].
  simpl. case_decide; [|done].
  destruct (lookup_lt_is_Some_2 ls rel_row) as [l ->]; [lia|]. simpl. apply IH; lia.
Qed.

Lemma relative_col_Safe fuel ls cols rel_col rel_row :
  ends_unwrapped ls → 1 ≤ cols → rel_row < length ls → length ls - rel_row ≤ fuel →
  Buffer.relative_col fuel ls cols rel_col rel_row ⇓ λ '(_, row), row < length ls.
Proof.
  intros He Hc. revert rel_col rel_row.
  induction fuel as [|fuel IH]; intros rel_col rel_row Hrow Hfuel; [lia|].
  simpl. case_decide; [|done].
  destruct (lookup_lt_is_Some_2 ls rel_row) as [l Hl]; [lia|]. rewrite Hl. simpl.
  destruct (Line.wrapped l) eqn:Hw; [|done]. rewrite csub_Some by lia. simpl.
  destruct (decide (S rel_row = length ls)) as [E|]; [|apply IH; lia].
  specialize (He l). rewrite last_lookup, <- E in He. simpl in He.
  rewrite He in Hw by done. done.
Qed.

(** The new cursor lands on a row of the buffer, at most [length - rows] rows
    above the view. *)
Lemma relative_position_Safe b pos cols rows :
  ends_unwrapped (Buffer.lines b) → 1 ≤ cols → 1 ≤ rows ≤ length (Buffer.lines b) →
  Buffer.relative_position b pos cols rows ⇓ λ '(col, row), col < cols ∧
    (Z.of_nat rows - Z.of_nat (length (Buffer.lines b)) <= row < Z.of_nat rows)%Z.
Proof.
  intros He Hc Hr. unfold Buffer.relative_position.
  remember (S (length (Buffer.lines b))) as fuel eqn:Hfuel.
  rewrite (csub_Some (length (Buffer.lines b)) 1) by lia. simpl.
  eapply Safe_bind; [apply relative_row_Safe; lia|]. intros row Hrow. simpl in Hrow.
  eapply Safe_bind; [apply relative_col_Safe; [done|done|lia|lia]|].
  intros [c row'] Hrow'. rewrite !csub_Some by lia. simpl. lia.
Qed.

Lemma logical_position_Safe b pos cols rows :
  rows ≤ length (Buffer.lines b) →
  Buffer.logical_position b pos cols rows ⇓ λ _, True.
Proof.
  intros Hr. unfold Buffer.logical_position. rewrite csub_Some by lia. simpl.
  rewrite csub_Some by lia. simpl. by destruct (foldl _ _ _).
Qed.

(** ** Rows *)

Lemma closed_blanks (s : bool) ls n cols p :
  0 < n → Buffers.closed s (ls ++ replicate n (Line.blank cols p)).
Proof.
  intros Hn. rewrite closed_app by (by destruct n; [lia|]).
  apply closed_all. by apply Forall_replicate.
Qed.

Definition resize_post (new_cols new_rows : nat) (b : Buffer.t) :
    Buffer.t * (nat * nat) → Prop :=
  λ '(b', cursor), wf_buffer b' ∧ Buffer.cols b' = new_cols ∧ Buffer.rows b' = new_rows ∧
    Buffer.scrollback_limit b' = Buffer.scrollback_limit b ∧ cursor.2 < new_rows.

Lemma resize_rows_Safe b new_cols new_rows old_rows (cursor : nat * nat) :
  1 ≤ new_cols → 1 ≤ new_rows → 1 ≤ old_rows ≤ length (Buffer.lines b) →
  Forall (wf_line new_cols) (Buffer.lines b) → closed (Buffer.lines b) →
  cursor.2 < old_rows ∨ cursor.2 < new_rows →
  Buffer.resize_rows b new_cols new_rows old_rows cursor ⇓ λ r,
    resize_post new_cols new_rows b r ∧ r.2.1 = cursor.1.
Proof.
  intros Hc Hr Ho Hf He Hcur. unfold Buffer.resize_rows.
  eapply (Safe_bind _ _ (λ '(b', row), row < new_rows ∧
    new_rows ≤ length (Buffer.lines b') ∧ Forall (wf_line new_cols) (Buffer.lines b') ∧
    closed (Buffer.lines b') ∧
    Buffer.scrollback_limit b' = Buffer.scrollback_limit b)).
  2: { intros [b' row] (Hrow & Hl & Hf' & He' & Hs'). simpl.
       split; [|done]. split_and!; try done. }
  destruct (Nat.compare_spec new_rows old_rows) as [->|Hlt|Hlt]; simpl.
  - split_and!; try done; try lia.
  - rewrite (csub_Some old_rows new_rows), (csub_Some old_rows 1) by lia. simpl.
    rewrite (csub_Some (old_rows - 1)) by lia. simpl.
    eapply (Safe_bind _ _ (λ b', new_rows ≤ length (Buffer.lines b') ∧
      Forall (wf_line new_cols) (Buffer.lines b') ∧ closed (Buffer.lines b') ∧
      Buffer.scrollback_limit b' = Buffer.scrollback_limit b)).
    { case_decide; [|split_and!; [lia|done..]]. rewrite csub_Some by lia. simpl.
      rewrite csub_Some by len. simpl. rewrite length_take.
      eapply Safe_bind; [apply modify_Safe with (Q := λ ls, new_rows ≤ length ls ∧
        Forall (wf_line new_cols) ls ∧ closed ls); [len|]|].
      - intros x l y E Hx. assert (y = []) as ->.
        { apply (f_equal length) in E. apply length_zero_iff_nil. len. }
        assert (Hl := f_equal length E).
        eapply Forall_take in Hf. rewrite E in Hf. apply Forall_app in Hf as [? [[? ?] _]%Forall_cons]. simpl. split_and!.
        + len.
        + apply Forall_app. split; [done|]. by repeat constructor.
        + rewrite closed_app by done. by intros _ ? [= <-].
      - intros ls (? & ? & ?). done. }
    intros b' (? & ? & ? & ?). do 2 (rewrite csub_Some by lia; simpl). split_and!; try done. lia.
  - rewrite (csub_Some new_rows old_rows), (csub_Some _ (old_rows `min` _)) by lia. simpl.
    rewrite csub_Some by lia. simpl. split; [case_decide; lia|].
    case_decide; simpl; [|split_and!; try done; lia]. split_and!; [len| | |done].
    + apply Forall_app. split; [done|]. apply Forall_replicate. by apply wf_line_blank.
    + by apply closed_blanks.
Qed.

(** Rows added below a reflowed screen that has become too short. *)
Lemma pad_rows_Safe (s : bool) b rows cols :
  1 ≤ cols → Forall (wf_line cols) (Buffer.lines b) → Buffers.closed s (Buffer.lines b) →
  (if decide (length (Buffer.lines b) < rows) then
     n ← csub rows (length (Buffer.lines b)); Some (Buffer.extend b n cols Pen.default)
   else Some b) ⇓ λ b', rows ≤ length (Buffer.lines b') ∧
     Forall (wf_line cols) (Buffer.lines b') ∧ Buffers.closed s (Buffer.lines b') ∧
     length (Buffer.lines b) ≤ length (Buffer.lines b') ∧
     length (Buffer.lines b') ≤ length (Buffer.lines b) `max` rows ∧
     Buffer.scrollback_limit b' = Buffer.scrollback_limit b.
Proof.
  intros Hc Hf He. case_decide; simpl; [|split_and!; try done; lia].
  rewrite csub_Some by lia. simpl. split_and!; try done; try len.
  - apply Forall_app. split; [done|]. apply Forall_replicate. by apply wf_line_blank.
  - apply closed_blanks. lia.
Qed.

Definition cursor_kept (b : Buffer.t) new_cols (cursor cursor' : nat * nat) : Prop :=
  cursor'.1 < new_cols ∨ (new_cols = Buffer.cols b ∧ cursor'.1 = cursor.1).

(** What the column change of a resize leaves to [resize_rows]. *)
Definition recolumned (b : Buffer.t) new_cols new_rows (cursor : nat * nat) :
    Buffer.t * (nat * nat) * nat → Prop :=
  λ '(b', cursor', old_rows), 1 ≤ old_rows ≤ length (Buffer.lines b') ∧
    Forall (wf_line new_cols) (Buffer.lines b') ∧ closed (Buffer.lines b') ∧
    (cursor'.2 < old_rows ∨ cursor'.2 < new_rows) ∧ cursor_kept b new_cols cursor cursor' ∧
    Buffer.scrollback_limit b' = Buffer.scrollback_limit b.

Lemma resize_finish b new_cols new_rows cursor r :
  2 ≤ new_cols → 1 ≤ new_rows → recolumned b new_cols new_rows cursor r →
  (let '(b', cursor', old_rows) := r in
   Buffer.resize_rows b' new_cols new_rows old_rows cursor') ⇓ λ r,
    resize_post new_cols new_rows b r ∧ cursor_kept b new_cols cursor r.2.
Proof.
  intros ? ?. destruct r as [[b' cursor'] old_rows]. intros (Ho & Hf' & He' & Hcur' & Hk & Hl).
  eapply Safe_mono; [apply resize_rows_Safe; [lia|done..]|].
  intros [b2 cursor2] ((? & ? & ? & ? & ?) & E). simpl in E.
  split; [split_and!; try done; congruence|]. unfold cursor_kept in *. simpl. by rewrite E.
Qed.

Lemma recolumned_same b new_rows cursor :
  wf_buffer b → cursor.2 < Buffer.rows b ∨ cursor.2 < new_rows →
  recolumned b (Buffer.cols b) new_rows cursor (b, cursor, Buffer.rows b).
Proof.
  intros [Hs He] ?. pose proof (shape_rows _ Hs).
  split_and!; try done; try lia; [apply Hs|by right].
Qed.

Lemma resize_Safe b new_cols new_rows cursor :
  wf_buffer b → 2 ≤ new_cols → 1 ≤ new_rows →
  (new_cols = Buffer.cols b → cursor.2 < Buffer.rows b ∨ cursor.2 < new_rows) →
  (new_cols ≠ Buffer.cols b → ends_unwrapped (Buffer.lines b)) →
  Buffer.resize b new_cols new_rows cursor ⇓ λ r,
    resize_post new_cols new_rows b r ∧ cursor_kept b new_cols cursor r.2.
Proof.
  intros Hb Hc Hr Hcur He. destruct (id Hb) as [Hs _]. unfold Buffer.resize. pose proof (shape_rows _ Hs).
  pose proof (shape_lines _ Hs) as Hf. pose proof (shape_cols _ Hs).
  eapply Safe_bind; [apply logical_position_Safe; lia|]. intros log _.
  eapply (Safe_bind _ _ (recolumned b new_cols new_rows cursor)); [|by intros; apply resize_finish].
  case_decide as Hne; simpl.
  2: { assert (new_cols = Buffer.cols b) as -> by lia. apply recolumned_same; auto. }
  specialize (He Hne).
  eapply Safe_bind; [apply reflow_Safe; [done|by eapply wf_lines_flowable|done]|].
  intros ls (Hls & Hels & Hnil). simpl.
  eapply Safe_bind; [apply (pad_rows_Safe true (Buffer.set_lines ls b)); [lia|done|by intros _|..]|].
  intros b' (Hlen & Hf' & He'%(λ H, H eq_refl) & Hgrow & Hmax & Hlim).
  eapply Safe_bind; [apply relative_position_Safe; [done|lia|lia]|].
  intros [col row] [Hcol Hrow]. simpl. case_decide; simpl;
    (split_and!; [lia|lia|done|by intros _|left; lia|by left|done]).
Qed.

(** ** Keeping the cursor's logical line in place *)

(** The unused rows at the bottom do not continue a wrapped row. *)
Definition sealed (ls : list Line.t) : Prop :=
  ends_unwrapped (take (length ls - count_trailing padding ls) ls).

Lemma logical_start_Safe ls start :
  start ≤ length ls →
  Buffer.logical_start ls start ⇓ λ s, s ≤ start ∧ ends_unwrapped (take s ls).
Proof.
  induction start as [|prev IH]; intros Hs; simpl; [split; [done|by intros ?]|].
  destruct (lookup_lt_is_Some_2 ls prev) as [l Hl]; [lia|]. rewrite Hl. simpl.
  destruct (Line.wrapped l) eqn:Hw.
  - eapply Safe_mono; [apply IH; lia|]. intros s [? ?]. split; [lia|done].
  - split; [done|]. rewrite (take_S_r _ _ l) by done. rewrite ends_app by done.
    by intros ? [= <-].
Qed.

Lemma logical_end_Safe fuel ls e :
  ends_unwrapped ls → 1 ≤ e ≤ length ls → length ls - e < fuel →
  Buffer.logical_end fuel ls e ⇓ λ e', e ≤ e' ≤ length ls ∧ ends_unwrapped (take e' ls).
Proof.
  intros He. revert e. induction fuel as [|fuel IH]; intros e Hle Hfuel; [lia|].
  simpl. case_decide.
  2: { simpl. split; [lia|]. by rewrite take_ge by lia. }
  rewrite csub_Some by lia. simpl. replace e with (S (e - 1)) at 2 4 by lia.
  destruct (lookup_lt_is_Some_2 ls (e - 1)) as [l Hl]; [lia|]. rewrite Hl. simpl.
  destruct (Line.wrapped l) eqn:Hw.
  - eapply Safe_mono; [apply IH; lia|]. intros e' [? ?]. split; [lia|done].
  - simpl. split; [lia|]. replace e with (S (e - 1)) by lia.
    rewrite (take_S_r _ _ l) by done. rewrite ends_app by done. by intros ? [= <-].
Qed.

(** The rows [after] a row that ends a logical line split into text and padding. *)
Lemma sealed_split x after :
  sealed (x ++ after) → ends_unwrapped x →
  ∃ a k, after = a ++ k ∧ ends_unwrapped a ∧ Forall padding k ∧
    length k = count_trailing padding after.
Proof.
  intros Hs Hx. destruct (count_trailing_split padding after) as (a & k & -> & Hk & Hp & Hl).
  exists a, k. split_and!; [done| |done|done].
  destruct (last a) as [l|] eqn:E; [|by apply last_None in E as ->; intros ?].
  unfold sealed in Hs. rewrite (app_assoc x), count_trailing_app in Hs.
  assert (forallb padding k = true) as Hf by (apply Is_true_true, forallb_True; exact Hp).
  rewrite Hf in Hs. rewrite (count_trailing_last _ (x ++ a) l) in Hs; [| |auto].
  2: { by rewrite last_app, E. }
  rewrite length_app in Hs.
  replace (length (x ++ a) + length k - (length k + 0)) with (length (x ++ a)) in Hs by lia.
  rewrite take_app_length, ends_app in Hs; [done|]. by intros ->.
Qed.

Lemma ends_app_both (x y : list Line.t) :
  ends_unwrapped x → ends_unwrapped y → ends_unwrapped (x ++ y).
Proof.
  intros Hx Hy. destruct y; [by rewrite app_nil_r|]. by rewrite ends_app.
Qed.

Lemma ends_preserved (P : Line.t → Prop) x (y y' : list Line.t) :
  Forall2 (λ l l', P l' ∧ Line.wrapped l' = Line.wrapped l) y y' → y ≠ [] →
  ends_unwrapped (x ++ y) → ends_unwrapped y'.
Proof.
  intros Hf Hy. rewrite ends_app by done. intros He l' Hl'.
  apply last_Some in Hl' as [k' ->]. apply Forall2_app_inv_r in Hf as (k & m & ? & Hm & ->).
  apply Forall2_cons_inv_r in Hm as (l & m' & [_ ->] & Hm & ->).
  apply Forall2_nil_inv_r in Hm as ->. apply He. apply last_snoc.
Qed.

Lemma take_keep {A} (x y a ob : list A) c :
  c ≤ length ob →
  take (length (x ++ y ++ a ++ ob) - c) (x ++ y ++ a ++ ob) =
    (x ++ y ++ a) ++ take (length ob - c) ob.
Proof.
  intros Hc. rewrite (app_assoc y), (app_assoc x), length_app.
  rewrite take_app. rewrite take_ge by lia. f_equal. f_equal. lia.
Qed.

Lemma resize_preserving_cursor_Safe b new_cols new_rows cursor :
  Buffers.wf_buffer true b → 2 ≤ new_cols → 1 ≤ new_rows →
  (new_cols = Buffer.cols b → cursor.2 < Buffer.rows b ∨ cursor.2 < new_rows) →
  (new_cols ≠ Buffer.cols b → sealed (Buffer.lines b)) →
  Buffer.resize_preserving_cursor b new_cols new_rows cursor ⇓ λ r,
    resize_post new_cols new_rows b r ∧ cursor_kept b new_cols cursor r.2.
Proof.
  intros Hb Hc Hr Hcur Hseal. unfold Buffer.resize_preserving_cursor.
  case_decide as Hvirt; [|destruct Hb as [Hs He%(λ H, H eq_refl)]].
  { destruct Hb as [Hs He]. apply resize_Safe; [split; [done|by intros _; apply He]|done..|by intros _; apply He]. }
  pose proof (shape_rows _ Hs). pose proof (shape_cols _ Hs).
  pose proof (wf_lines_flowable _ _ (shape_cols _ Hs) (shape_lines _ Hs)) as Hf.
  rewrite (csub_Some (length (Buffer.lines b))) by lia. cbn [mbind option_bind].
  eapply (Safe_bind _ _ (recolumned b new_cols new_rows cursor)); [|by intros; apply resize_finish].
  case_decide as Hne.
  2: { assert (new_cols = Buffer.cols b) as -> by lia. apply recolumned_same; auto. split; [done|by intros _]. }
  specialize (Hseal Hne). clear Hcur.
  set (old := length (Buffer.lines b)) in *.
  remember (old - Buffer.rows b + cursor.2) as abs eqn:Habs.
  remember (S old) as fuel eqn:Hfuel.
  eapply Safe_bind; [apply logical_start_Safe; lia|]. intros s [Hsa Hends].
  eapply Safe_bind; [apply logical_end_Safe; [done|lia|lia]|]. intros e [Hea Hende].
  rewrite (csub_Some old) by lia. cbn [mbind option_bind].
  destruct (split_range (Buffer.lines b) s e) as (x & act & after & E & Hx & Hact); [lia|].
  assert (Hold : old = length x + length act + length after).
  { unfold old. rewrite E. len. }
  assert (take s (Buffer.lines b) = x) as Ex by (by rewrite E, <- Hx, take_app_length).
  assert (take e (Buffer.lines b) = x ++ act) as Ee.
  { rewrite E, app_assoc. replace e with (length (x ++ act)) by len. by rewrite take_app_length. }
  assert (drop s (take e (Buffer.lines b)) = act) as -> by (by rewrite Ee, <- Hx, drop_app_length).
  assert (drop e (Buffer.lines b) = after) as ->.
  { rewrite E, app_assoc. replace e with (length (x ++ act)) by len. by rewrite drop_app_length. }
  assert (take (old - e) (reverse (Buffer.lines b)) = reverse after) as ->.
  { rewrite E, !reverse_app, <- app_assoc. replace (old - e) with (length (reverse after)) by len.
    by rewrite take_app_length. }
  rewrite Ex in *. rewrite Ee in *. rewrite E, app_assoc in Hseal.
  destruct (sealed_split _ _ Hseal Hende) as (a & k & Eafter & Ha & Hk & Hlk).
  change (count_while _ (reverse after)) with (count_trailing padding after). rewrite <- Hlk.
  rewrite E in Hf. apply Forall_app in Hf as [Hfx [Hfa Hf]%Forall_app]. subst after.
  eapply Safe_bind; [by apply reflow_Safe|]. intros rx (Hrx & Herx & _).
  rewrite (csub_Some (length rx + abs)) by lia. cbn [mbind option_bind].
  eapply Safe_bind; [apply mapM_Safe; intros l Hl; apply Line_resize_preserving_wrap_Safe|].
  { rewrite Forall_forall in Hfa. by apply Hfa. }
  intros act' Hact'. eapply Safe_bind; [by apply reflow_padded_Safe|].
  intros tl (oa & ob & -> & Htl & Heoa & Hob & Hlob & _). cbv beta in Hact'.
  assert (Hlact := Forall2_length _ _ _ Hact').
  apply (ends_preserved _ _ _ _ Hact') in Hende; [|by intros ->; simpl in *; lia].
  assert (Forall (wf_line new_cols) act') as Hwact.
  { clear -Hact'. induction Hact' as [|? ? ? ? []]; by constructor. }
  clear Hact' Hseal. remember (_ `min` length k) as c eqn:Hc'.
  rewrite (csub_Some _ c) by len. cbn [mbind option_bind].
  rewrite (take_keep rx act' oa ob c) by lia.
  set (res := (rx ++ act' ++ oa) ++ take (length ob - c) ob).
  assert (Forall (wf_line new_cols) res) as Hres.
  { apply Forall_app in Htl as [? ?]. unfold res. rewrite !Forall_app. split_and!; try done.
    by apply Forall_take. }
  assert (ends_unwrapped res) as Hends'.
  { unfold res. repeat apply ends_app_both; try done. by apply ends_unwrapped_all, Forall_take. }
  eapply Safe_bind; [apply (pad_rows_Safe strict (Buffer.set_lines res b)); [lia|done|by intros _]|].
  intros b' (Hlen & Hf' & He' & Hgrow & Hmax & Hlim). simpl in Hgrow.
  assert (length rx + abs - s < length res).
  { unfold res. rewrite !length_app. lia. }
  rewrite !csub_Some by lia. simpl. case_decide; simpl;
    (split_and!; [lia|lia|done|done|left; lia|left; simpl; lia|done]).
Qed.
End resize.

(** ** Screens whose last row may be linked *)

(** Without more about the rows below the cursor's line, keeping that line may leave the
    last row linked to none; but nothing goes wrong, unless the cursor is below the screen. *)
Section loose.
Context `{UnicodeWidth}.
Implicit Types (b : Buffer.t) (ls : list Line.t).

Lemma logical_end_loose fuel ls e : 1 ≤ e ≤ length ls → length ls - e < fuel →
  Buffer.logical_end fuel ls e ⇓ λ e', e ≤ e' ≤ length ls.
Proof.
  revert e. induction fuel as [|fuel IH]; intros e Hle Hfuel; [lia|]. simpl. case_decide; [|simpl; lia].
  rewrite csub_Some by lia. simpl. destruct (lookup_lt_is_Some_2 ls (e - 1)) as [l ->]; [lia|]. simpl.
  destruct (Line.wrapped l); [|simpl; lia]. eapply Safe_mono; [apply IH; lia|]. intros e' ?; cbv beta in *; lia.
Qed.

(** Unused rows are logical lines of their own, or end one. *)
Lemma padding_ended ls : count_trailing padding ls ≤ ended ls.
Proof.
  destruct (count_trailing_split padding ls) as (a & k & -> & <- & Hk & _). unfold ended. rewrite filter_app, length_app.
  assert (filter (λ l, Line.wrapped l = false) k = k) as ->; [|lia]. clear -Hk.
  induction Hk as [|l k Hl _ IH]; [done|]. rewrite filter_cons_True by by apply padding_unwrapped. by rewrite IH.
Qed.

Lemma resize_preserving_cursor_loose b new_cols new_rows cursor :
  wf_buffer false b → 2 ≤ new_cols → 1 ≤ new_rows →
  (new_cols = Buffer.cols b → cursor.2 < Buffer.rows b ∨ cursor.2 < new_rows) →
  (new_cols ≠ Buffer.cols b → cursor.2 < Buffer.rows b ∨ ends_unwrapped (Buffer.lines b)) →
  Buffer.resize_preserving_cursor b new_cols new_rows cursor ⇓ λ r,
    resize_post (strict := false) new_cols new_rows b r ∧ cursor_kept b new_cols cursor r.2.
Proof.
  intros Hb Hc Hr Hcur Hseal. unfold Buffer.resize_preserving_cursor.
  case_decide as Hvirt.
  { apply resize_Safe; [done..|]. intros [?|?]%Hseal; [lia|done]. }
  destruct (id Hb) as [Hs _]. pose proof (shape_rows _ Hs). pose proof (shape_cols _ Hs).
  pose proof (wf_lines_flowable _ _ (shape_cols _ Hs) (shape_lines _ Hs)) as Hf.
  rewrite (csub_Some (length (Buffer.lines b))) by lia. cbn [mbind option_bind].
  eapply (Safe_bind _ _ (recolumned (strict := false) b new_cols new_rows cursor)); [|by intros; apply resize_finish].
  case_decide as Hne.
  2: { assert (new_cols = Buffer.cols b) as -> by lia. apply recolumned_same; auto. }
  clear Hcur Hseal. set (old := length (Buffer.lines b)) in *.
  remember (old - Buffer.rows b + cursor.2) as abs eqn:Habs. remember (S old) as fuel eqn:Hfuel.
  eapply Safe_bind; [apply logical_start_Safe; lia|]. intros s [Hsa _].
  eapply Safe_bind; [apply logical_end_loose; lia|]. intros e Hea; cbv beta in Hea.
  rewrite (csub_Some old) by lia. cbn [mbind option_bind].
  destruct (split_range (Buffer.lines b) s e) as (x & act & after & E & Hx & Hact); [lia|].
  assert (Hold : old = length x + length act + length after) by (unfold old; rewrite E; len).
  assert (take s (Buffer.lines b) = x) as -> by by rewrite E, <- Hx, take_app_length.
  assert (take e (Buffer.lines b) = x ++ act) as Ee.
  { rewrite E, app_assoc. replace e with (length (x ++ act)) by len. by rewrite take_app_length. }
  assert (drop s (take e (Buffer.lines b)) = act) as -> by by rewrite Ee, <- Hx, drop_app_length.
  assert (drop e (Buffer.lines b) = after) as ->.
  { rewrite E, app_assoc. replace e with (length (x ++ act)) by len. by rewrite drop_app_length. }
  assert (take (old - e) (reverse (Buffer.lines b)) = reverse after) as ->.
  { rewrite E, !reverse_app, <- app_assoc. replace (old - e) with (length (reverse after)) by len. by rewrite take_app_length. }
  change (count_while _ (reverse after)) with (count_trailing padding after). pose proof (padding_ended after) as Hpad.
  rewrite E in Hf. apply Forall_app in Hf as [Hfx [Hfa Hf]%Forall_app].
  eapply Safe_bind; [by apply reflow_loose|]. intros rx [Hrx _].
  rewrite (csub_Some (length rx + abs)) by lia. cbn [mbind option_bind].
  eapply Safe_bind; [apply mapM_Safe; intros l Hl; apply Line_resize_preserving_wrap_Safe|].
  { rewrite Forall_forall in Hfa. by apply Hfa. }
  intros act' Hact'. eapply Safe_bind; [by apply reflow_loose|]. intros tl [Htl Hended]. cbv beta in Hact'.
  assert (Hlact := Forall2_length _ _ _ Hact').
  assert (Forall (wf_line new_cols) act') as Hwact by (clear -Hact'; induction Hact' as [|? ? ? ? []]; by constructor).
  remember (_ `min` count_trailing padding after) as c eqn:Hc'.
  rewrite (csub_Some _ c) by len. cbn [mbind option_bind].
  set (res := take _ _).
  assert (length res = length rx + length act' + length tl - c) as Hres by (unfold res; len).
  assert (Forall (wf_line new_cols) res) as Hwres by (apply Forall_take; rewrite !Forall_app; by split_and!).
  eapply Safe_bind; [apply (pad_rows_Safe false (Buffer.set_lines res b)); [lia|done..]|].
  intros b' (Hlen & Hf' & He' & Hgrow & Hmax & Hlim). simpl in Hgrow.
  rewrite !csub_Some by lia. simpl. case_decide; simpl;
    (split_and!; [lia|lia|done|done|left; lia|left; simpl; lia|done]).
Qed.
End loose.
