(* ===== verification/ReflowText.v ===== *)
(** Reflowing keeps the text (ctmux/avt/src/buffer.rs, [Reflow]): the logical
    lines read from the reflowed rows are those read from the original ones.
    Wide characters may gain a padding space at the right edge, so the exact text
    is kept for screens without them, and the text without spaces in general. *)

From S2P Require Import Prelude.
From S2P Require Import Cells.
From S2P Require Import Lines.
From S2P Require Import Buffers.
From S2P Require Import Resizing.

Lemma Safe_and {A} (m : option A) (P Q : A → Prop) :
  m ⇓ P → m ⇓ Q → m ⇓ λ a, P a ∧ Q a.
Proof. by destruct m. Qed.

Section text.
Context `{UnicodeWidth}.

(** A reading of rows: the characters of a cell and the end of a logical line,
    on the cells of a domain. *)
Context (g : Cell.t → list char) (fin : list char → list char) (okc : Cell.t → Prop).

Definition gs (cs : list Cell.t) : list char := concat (g <$> cs).
Definition gl (l : Line.t) : list char := gs (Line.cells l).

(** Unused cells at the end of a logical line are not read. *)
Context (fin_defaults : ∀ x ds, Forall (λ c, Cell.is_default c) ds → fin (x ++ gs ds) = fin x).
(** The padding next to a wide character that moved to the next row is not read. *)
Context (pad_blank : ∀ c p, okc c → Cell.occupancy c = WideTail →
  g (Cell.Mk space Single p) = []).
Context (ok_space : ∀ p, okc (Cell.Mk space Single p)).

Implicit Types (l o : Line.t) (a b cs ds : list Cell.t).

(** The logical lines of a list of rows, [current] being the line so far. *)
Fixpoint logical (current : list char) (ls : list Line.t) : list (list char) :=
  match ls with
  | [] => if decide (current = []) then [] else [fin current]
  | l :: ls =>
      let current := current ++ gl l in
      if Line.wrapped l then logical current ls else fin current :: logical [] ls
  end.

(** Equal readings, up to unused cells when the row ends a logical line. *)
Definition same (w : bool) (x y : list char) : Prop :=
  if w then x = y else ∀ current, fin (current ++ x) = fin (current ++ y).

Definition okl l : Prop := Forall okc (Line.cells l).

Lemma gs_app a b : gs (a ++ b) = gs a ++ gs b.
Proof. unfold gs. by rewrite fmap_app, concat_app. Qed.

Lemma same_refl w x : same w x x.
Proof. by destruct w. Qed.

Lemma same_defaults w a ds :
  Forall (λ c, Cell.is_default c) ds → (w = true → ds = []) → same w (gs a) (gs (a ++ ds)).
Proof.
  intros Hd Hw. destruct w; simpl.
  - rewrite Hw by done. by rewrite app_nil_r.
  - intros current. rewrite gs_app, app_assoc. by rewrite (fin_defaults _ ds).
Qed.

Lemma default_cells k : Forall (λ c, Cell.is_default c) (replicate k (Cell.blank Pen.default)).
Proof. apply Forall_replicate. exact I. Qed.

Lemma ok_blanks k p : Forall okc (replicate k (Cell.blank p)).
Proof. apply Forall_replicate, ok_space. Qed.

Lemma ok_cut cs n c :
  Forall okc cs → cs !! n = Some c → Cell.occupancy c = WideTail →
  ∀ p, g (Cell.Mk space Single p) = [].
Proof. intros Hok Hc Ho p. apply (pad_blank c); [|done]. by eapply Forall_lookup_1. Qed.

Lemma occ_at_Some cs n (o : Occupancy) : Line.occ_at cs n = Some o → ∃ c, cs !! n = Some c ∧ Cell.occupancy c = o.
Proof. intros Ho. unfold Line.occ_at in Ho. apply fmap_Some in Ho as (c & ? & ->). eauto. Qed.

(** ** Contracting a row *)

(** The row that [contract] cuts. *)
Definition trimmed l n : Line.t :=
  if Line.wrapped l then l
  else Line.set_cells (take (n `max` (Line.len l - Line.trailers l)) (Line.cells l)) l.

Lemma trailing_defaults l k :
  Line.len l - Line.trailers l ≤ k → Forall (λ c, Cell.is_default c) (drop k (Line.cells l)).
Proof.
  intros Hk. unfold Line.len, Line.trailers in *.
  destruct (count_trailing_split Cell.is_default (Line.cells l)) as (a & b & E & Hb & Hd & _).
  rewrite <- Hb in Hk. rewrite E in *. rewrite length_app in Hk.
  rewrite drop_app_ge by lia. by apply Forall_drop.
Qed.

Lemma same_take l k :
  Line.len l - Line.trailers l ≤ k → same false (gs (take k (Line.cells l))) (gl l).
Proof.
  intros Hk. pose proof (same_defaults false (take k (Line.cells l)) (drop k (Line.cells l))) as Hs.
  rewrite take_drop in Hs. apply Hs; [by apply trailing_defaults|done].
Qed.

Lemma trimmed_same l n :
  okl l → okl (trimmed l n) ∧ same (Line.wrapped l) (gl (trimmed l n)) (gl l).
Proof.
  intros Hok. unfold trimmed. destruct (Line.wrapped l) eqn:Hw; [by split|].
  set (k := n `max` (Line.len l - Line.trailers l)). unfold okl, gl. simpl. split.
  - by apply Forall_take.
  - apply same_take. lia.
Qed.

Definition contract_text l : Line.t * option Line.t → Prop :=
  λ '(l', rest), okl l' ∧
    match rest with
    | Some o => okl o ∧ same (Line.wrapped l) (gl l' ++ gl o) (gl l)
    | None => same false (gl l') (gl l)
    end.

Lemma trim_same l :
  okl l →
  (if negb (Line.wrapped l) then Line.trim l else Some l) ⇓ λ l', okl l' ∧
    Line.wrapped l' = Line.wrapped l ∧ same (Line.wrapped l) (gl l') (gl l).
Proof.
  intros Hok. destruct (Line.wrapped l) eqn:E; simpl; [by rewrite E|].
  unfold Line.trim. case_decide as Hd; [|rewrite <- E; by split_and!].
  assert (Line.trailers l ≤ Line.len l) by apply count_trailing_le.
  rewrite csub_Some by lia. simpl. unfold okl, gl. simpl. split_and!; [by apply Forall_take|done|].
  by apply same_take.
Qed.

(** The left part of a cut row, with its padding when the cut falls inside a
    wide character: it reads as the cells left of the cut. *)
Lemma cut_left_text l n a b :
  okl l → Line.cells l = a ++ b →
  Line.occ_at (Line.cells l) n = Some WideTail →
  ∀ c p, okl c → Line.cells c = a →
    okl (Line.set_cells (a ++ [Cell.Mk space Single p]) c) ∧ gs (a ++ [Cell.Mk space Single p]) = gs a.
Proof.
  intros Hok E Ho c p Hc Ec. apply occ_at_Some in Ho as (t & Ht & Ho). split.
  - unfold okl. simpl. apply Forall_app. split; [by rewrite <- Ec|]. constructor; [apply ok_space|done].
  - rewrite gs_app. unfold gs at 2. simpl.
    rewrite (ok_cut _ _ _ Hok Ht Ho). by rewrite app_nil_r.
Qed.

Lemma contract_text_Safe l n :
  wf_cells (Line.cells l) → okl l → 2 ≤ n < Line.len l →
  Line.contract l n ⇓ contract_text l.
Proof.
  intros Hwf Hok Hn. unfold Line.contract.
  eapply (Safe_bind _ _ (λ l1, l1 = trimmed l n ∧ wf_cells (Line.cells l1) ∧
    n ≤ Line.len l1 ≤ Line.len l ∧ Line.wrapped l1 = Line.wrapped l ∧
    (Line.wrapped l = true → l1 = l) ∧
    (Line.wrapped l = false → n < Line.len l1 →
       ∃ c, last (Line.cells l1) = Some c ∧ Cell.is_default c = false))).
  { apply Safe_and; [|apply contract_trimmed; [done|lia]]. unfold trimmed.
    destruct (Line.wrapped l); simpl; [done|].
    assert (Line.trailers l ≤ Line.len l) by apply count_trailing_le.
    rewrite csub_Some by lia. done. }
  intros l1 (El1 & Hwf1 & Hl1 & Hw1 & Hsame & Htrim).
  destruct (trimmed_same l n Hok) as [Hok1 Hs1]. rewrite <- El1 in *. clear El1.
  case_decide as Hlt; simpl.
  2: { split; [done|]. destruct (Line.wrapped l) eqn:Hw; [|done].
       rewrite Hsame in * by done. lia. }
  destruct (cut_at (Line.cells l1) n Hwf1) as (a & b & Ha & Hb & Eo & Hbn & Hcut);
    [unfold Line.len in *; lia|].
  assert (Htrim' : (if negb (Line.wrapped l1) then Line.trim (Line.Mk b (Line.wrapped l1))
                    else Some (Line.Mk b (Line.wrapped l1))) = Some (Line.Mk b (Line.wrapped l1))).
  { destruct (Line.wrapped l1) eqn:Hw; simpl; [done|].
    destruct Htrim as (x & Hx & Hd); [congruence|lia|]. eapply trim_nonblank; [|done]. simpl.
    rewrite Eo, last_app in Hx. destruct (last b) eqn:E; [done|]. by apply last_None in E as ->. }
  assert (Hab : Forall okc a ∧ Forall okc b) by (apply Forall_app; by rewrite <- Eo).
  destruct Hab as [Hoka Hokb].
  assert (Hgl : gl l1 = gs a ++ gs b) by (unfold gl; rewrite Eo; apply gs_app).
  destruct Hcut as [(Hk & occ & -> & Hocc)|(Hk & Hocc)]; [|rewrite Hocc]; simpl.
  - rewrite bool_decide_eq_false_2 by done. simpl. rewrite <- Hk.
    assert (drop (length a) (Line.cells l1) = b) as -> by (by rewrite Eo, drop_app_length).
    assert (take (length a) (Line.cells l1) = a) as -> by (by rewrite Eo, take_app_length).
    rewrite Htrim'. simpl. rewrite decide_False by done. simpl.
    split_and!; [done|done|]. unfold gl at 1 2. simpl. by rewrite <- Hgl.
  - rewrite (csub_Some n) by lia. simpl. replace (n - 1) with (length a) by lia.
    assert (drop (length a) (Line.cells l1) = b) as -> by (by rewrite Eo, drop_app_length).
    assert (take (length a) (Line.cells l1) = a) as -> by (by rewrite Eo, take_app_length).
    eapply (Safe_bind _ _ (λ l', okl l' ∧ gl l' = gs a ∧ Line.wrapped l' = Line.wrapped l1)).
    { eapply Safe_bind2; [apply (last_pen (Line.set_cells a l1) (λ _, True));
        [done|unfold Line.len; simpl; lia|done]|].
      intros c _. simpl.
      destruct (cut_left_text l1 n a b Hok1 Eo Hocc (Line.set_cells a l1) (Cell.pen c)) as [? ?]; done. }
    intros l' (Hl' & Hg' & Hwl'). simpl. rewrite Hwl', Htrim'. simpl. rewrite decide_False by done. simpl.
    split_and!; [done|done|]. change (gl (Line.set_wrapped true l')) with (gl l').
    unfold gl at 2. simpl. by rewrite Hg', <- Hgl.
Qed.

(** ** Extending a row *)

Definition extend_text l o : Line.t * (bool * option Line.t) → Prop :=
  λ '(l', (complete, rest)), okl l' ∧
    match complete, rest with
    | true, Some r =>
        (Line.wrapped l = false ∧ r = o ∧ Line.wrapped l' = false ∧ same false (gl l') (gl l)) ∨
        (Line.wrapped l = true ∧ Line.wrapped l' = true ∧ okl r ∧
           Line.wrapped r = Line.wrapped o ∧
           same (Line.wrapped o) (gl l' ++ gl r) (gl l ++ gl o))
    | true, None => Line.wrapped l = true ∧ Line.wrapped l' = false ∧ Line.wrapped o = false ∧
        same false (gl l') (gl l ++ gl o)
    | false, _ => Line.wrapped l = true ∧ Line.wrapped l' = true ∧ Line.wrapped o = true ∧
        gl l' = gl l ++ gl o
    end.

Lemma expand_text l n :
  okl l → Line.len l ≤ n →
  Line.expand l n Pen.default ⇓ λ l', okl l' ∧ Line.wrapped l' = Line.wrapped l ∧
    ∀ x, same false (x ++ gl l') (x ++ gl l).
Proof.
  intros Hok Hn. unfold Line.expand. rewrite csub_Some by lia. simpl. split_and!.
  - unfold okl. simpl. apply Forall_app. split; [done|]. apply ok_blanks.
  - done.
  - intros x current. unfold gl. simpl. rewrite gs_app, !app_assoc. apply fin_defaults, default_cells.
Qed.

Lemma same_false_app x y z : same false y z → same false (x ++ y) (x ++ z).
Proof. intros Hs current. rewrite !app_assoc. apply Hs. Qed.

Lemma same_trans w x y z : same w x y → same w y z → same w x z.
Proof. destruct w; simpl; [congruence|]. intros H1 H2 c. by rewrite H1. Qed.

Lemma same_app w x y z : same w y z → same w (x ++ y) (x ++ z).
Proof. destruct w; [by intros ->|]. apply same_false_app. Qed.

Lemma extend_text_Safe l o n :
  wf_cells (Line.cells l) → wf_cells (Line.cells o) → okl l → okl o →
  0 < Line.len l < n → 0 < Line.len o →
  Line.extend l o n ⇓ extend_text l o.
Proof.
  intros Hl Ho Hokl Hoko Hln Hon. unfold Line.extend. rewrite (csub_Some n) by lia. simpl.
  rewrite decide_False by lia. destruct (Line.wrapped l) eqn:Hw; simpl.
  2: { eapply Safe_bind; [apply expand_text; [done|lia]|].
       intros l' (? & Hw' & Hs). simpl. split; [done|]. left. split_and!; [done|done|congruence|].
       by apply (Hs []). }
  eapply (Safe_bind _ _ (λ o', (wf_cells (Line.cells o') ∧ Line.len o' ≤ Line.len o) ∧
    okl o' ∧ Line.wrapped o' = Line.wrapped o ∧ same (Line.wrapped o) (gl o') (gl o))).
  { apply Safe_and; [|by apply trim_same].
    destruct (Line.wrapped o); simpl; [done|].
    eapply Safe_mono; [by apply Line_trim_Safe|]. intros o' (? & ? & E & _). split; [done|lia]. }
  intros o' ([Hwfo Hlo] & Hoko' & Hwo & Hs).
  case_decide as Hneed.
  - destruct (cut_at (Line.cells o') _ Hwfo Hneed) as (a & b & Ha & Hb & Eo & Hbn & Hcut).
    assert (Hab : Forall okc a ∧ Forall okc b) by (apply Forall_app; by rewrite <- Eo).
    destruct Hab as [Hoka Hokb].
    eapply (Safe_bind2 _ _ _ (λ '(l', k), okl l' ∧ gl l' = gl l ∧ k = length a ∧
              Line.wrapped l' = true)).
    { destruct Hcut as [(Hk & occ & -> & ?)|(Hk & Hocc)]; [|rewrite Hocc]; simpl.
      - rewrite decide_False by done. by split_and!.
      - rewrite (csub_Some (n - _)) by lia. simpl.
        eapply Safe_bind2; [apply (last_pen l (λ _, True)); [done|lia|done]|].
        intros c _. simpl. apply occ_at_Some in Hocc as (t & Ht & Hot).
        pose proof (ok_cut _ _ _ Hoko' Ht Hot (Cell.pen c)) as Hpad. split_and!; [| |lia|done].
        + unfold okl. simpl. apply Forall_app. split; [done|]. constructor; [apply ok_space|done].
        + unfold gl. simpl. rewrite gs_app. unfold gs at 2. simpl. by rewrite Hpad, app_nil_r. }
    intros [l' k] (Hokl' & Hgl' & -> & Hwl').
    assert (take (length a) (Line.cells o') = a) as -> by (by rewrite Eo, take_app_length).
    rewrite Eo, rotate_left_app. simpl. rewrite (length_app b a), csub_plus. simpl.
    rewrite take_app_length. split; [by apply Forall_app|]. right. split_and!; try done.
    unfold gl at 1 2. simpl. rewrite gs_app. unfold gl in Hgl' at 1. rewrite Hgl', <- app_assoc.
    rewrite <- gs_app, <- Eo. by apply same_app.
  - destruct (Line.wrapped o') eqn:Hwo'; simpl.
    + split; [by apply Forall_app|]. split_and!; [done|done|congruence|].
      rewrite <- Hwo in Hs. simpl in Hs. unfold gl at 1. simpl. rewrite gs_app. f_equal. exact Hs.
    + rewrite <- Hwo in *.
      eapply (Safe_bind _ _ (λ l', okl l' ∧ Line.wrapped l' = false ∧ same false (gl l') (gl l ++ gl o'))).
      { assert (Hokl1 : okl (Line.set_wrapped false (Line.set_cells (Line.cells l ++ Line.cells o') l)))
          by (by apply Forall_app).
        case_decide.
        - eapply Safe_mono; [apply expand_text; [exact Hokl1|lia]|].
          intros l' (? & ? & Hs'). split_and!; [done|done|].
          intros current. specialize (Hs' [] current). simpl in Hs'. rewrite Hs'.
          unfold gl at 1. simpl. by rewrite gs_app.
        - simpl. split_and!; [done|done|]. unfold gl at 1. simpl. by rewrite gs_app. }
      intros l' (? & ? & Hs'). simpl. split_and!; try done.
      exact (same_trans false _ _ _ Hs' (same_app false _ _ _ Hs)).
Qed.

(** ** The loop *)

Lemma logical_cons current l ls :
  logical current (l :: ls) =
    if Line.wrapped l then logical (current ++ gl l) ls
    else fin (current ++ gl l) :: logical [] ls.
Proof. done. Qed.

Definition reads (ls out : list Line.t) : Prop :=
  ∀ current, logical current out = logical current ls.

(** The claim for the rows still to be read, [fuel] passes at most. *)
Definition text_claim cols fuel : Prop := ∀ rest iter,
  Buffer.reflow_size rest iter < fuel →
  Forall flowable (option_list rest ++ iter) → Forall okl (option_list rest ++ iter) →
  ends_unwrapped (option_list rest ++ iter) →
  Buffer.reflow_go fuel cols rest iter ⇓ reads (option_list rest ++ iter).

Lemma reads_same l l' ls out :
  Line.wrapped l = false → Line.wrapped l' = false → same false (gl l') (gl l) →
  reads ls out → reads (l :: ls) (l' :: out).
Proof. intros Hw Hw' Hs Hr current. rewrite !logical_cons, Hw, Hw', Hr. f_equal. apply Hs. Qed.

(** A row [l] split in two, [l'] continued by [o]. *)
Lemma reads_split l l' o ls out :
  Line.wrapped l' = true → Line.wrapped o = Line.wrapped l →
  same (Line.wrapped l) (gl l' ++ gl o) (gl l) →
  reads (o :: ls) out → reads (l :: ls) (l' :: out).
Proof.
  intros Hw' Hwo Hs Hr current.
  rewrite (logical_cons current l'), Hw', Hr, !logical_cons, Hwo, <- app_assoc.
  destruct (Line.wrapped l); simpl in Hs; [by rewrite <- Hs|]. f_equal. apply Hs.
Qed.

Lemma reflow_pass_reads cols fuel l iter :
  2 ≤ cols → text_claim cols fuel →
  S (Line.len l) + Buffer.reflow_size None iter ≤ fuel →
  Forall flowable (l :: iter) → Forall okl (l :: iter) → ends_unwrapped (l :: iter) →
  reflow_pass fuel cols l iter ⇓ reads (l :: iter).
Proof.
  intros Hc IH Hfuel Hf Hok He. apply Forall_cons in Hf as [[Hwf Hlen] Hf].
  apply Forall_cons in Hok as [Hokl Hok].
  assert (Hlast : iter = [] → Line.wrapped l = false) by (intros ->; by apply He).
  assert (He' : ends_unwrapped iter).
  { destruct iter; [by intros ?|]. by rewrite ends_cons in He. }
  assert (Hrec : Buffer.reflow_go fuel cols None iter ⇓ reads iter).
  { apply IH; try done. lia. }
  unfold reflow_pass. repeat case_decide.
  - eapply Safe_bind; [apply Safe_and; [apply Line_contract_Safe|apply contract_text_Safe];
      (done || lia)|].
    intros [l' [o|]] [[Hl' Hr] [Hokl' Ht]].
    + destruct Hr as (Ho & Hlo & Hw' & Hwo), Ht as [Hoko Hs].
      eapply Safe_bind; [apply (IH (Some o) iter); simpl|].
      * rewrite reflow_size_rest. lia.
      * constructor; [split; [done|lia]|done].
      * by constructor.
      * destruct iter; [intros ? [= <-]; rewrite Hwo; auto|by rewrite ends_cons].
      * intros out Hout. by eapply reads_split.
    + destruct Hr as [Hr Hw]. eapply Safe_bind; [exact Hrec|].
      intros out Hout. by apply reads_same.
  - eapply Safe_bind; [exact Hrec|]. intros out Hout current. by rewrite !logical_cons, !Hout.
  - destruct iter as [|other iter].
    + eapply Safe_bind; [apply expand_text; [done|lia]|].
      intros l' (? & ? & Hs). eapply Safe_bind; [exact Hrec|].
      intros out Hout. apply reads_same; [auto|done|by apply (Hs [])|done].
    + apply Forall_cons in Hf as [[Hwfo Hleno] Hf]. apply Forall_cons in Hok as [Hoko Hok].
      rewrite reflow_size_cons in Hfuel.
      eapply Safe_bind; [apply Safe_and; [apply Line_extend_Safe|apply extend_text_Safe];
        (done || lia)|].
      intros [l' [[] [r|]]] [Hpost [Hokl' Ht]]; simpl in Hpost, Ht; [| | by destruct Hpost|].
      * destruct Hpost as (Hl' & Hlen' & Hr & Hlr & Hwr).
        assert (Hokr : okl r) by (destruct Ht as [(_ & -> & _)|(_ & _ & ? & _)]; done).
        eapply Safe_bind; [apply (IH (Some r) iter); simpl|].
        -- rewrite reflow_size_rest. lia.
        -- constructor; [split; [done|lia]|done].
        -- by constructor.
        -- destruct iter; [intros ? [= <-]; rewrite Hwr; by apply He'|].
           rewrite ends_cons in * by done. done.
        -- intros out Hout. destruct Ht as [(Hw & -> & Hw' & Hs)|(Hw & Hw' & _ & _ & Hs)].
           ++ by apply reads_same.
           ++ intros current. change (reads (r :: iter) out) in Hout. rewrite !logical_cons, Hw, Hw', Hout, !logical_cons, Hwr, <- !app_assoc.
              destruct (Line.wrapped other); [by rewrite <- Hs|]. f_equal. apply Hs.
      * destruct Hpost as (Hl' & Hlen' & Hwo & Hw'), Ht as (Hw & _ & _ & Hs).
        eapply Safe_bind; [apply (IH None iter); simpl; try done|].
        -- lia.
        -- destruct iter; [by intros ?|by rewrite ends_cons in He'].
        -- intros out Hout current. rewrite !logical_cons, Hw, Hw', Hwo, Hout, <- app_assoc.
           f_equal. apply Hs.
      * destruct Hpost as (Hl' & Hwo & Hlen' & Hle), Ht as (Hw & Hw' & _ & Hg).
        assert (iter ≠ []) as Hne.
        { intros ->. specialize (He' other eq_refl). congruence. }
        eapply Safe_mono; [apply (IH (Some l') iter); simpl|].
        -- rewrite reflow_size_rest. lia.
        -- constructor; [split; [done|lia]|done].
        -- by constructor.
        -- by rewrite ends_cons in *.
        -- intros out Hout current. rewrite Hout. simpl.
           by rewrite Hw, Hw', Hwo, Hg, app_assoc.
Qed.

Lemma reflow_go_reads cols fuel : 2 ≤ cols → text_claim cols fuel.
Proof.
  intros Hc. induction fuel as [|fuel IH]; intros rest iter Hfuel Hf Hok He; [lia|].
  rewrite reflow_go_S. destruct rest as [l|]; simpl in *.
  - apply reflow_pass_reads; try done. rewrite reflow_size_rest in Hfuel. lia.
  - destruct iter as [|l iter]; [by intros current|].
    apply reflow_pass_reads; try done. rewrite reflow_size_cons in Hfuel. lia.
Qed.

Lemma reflow_reads cols ls :
  2 ≤ cols → Forall flowable ls → Forall okl ls → ends_unwrapped ls →
  Buffer.reflow ls cols ⇓ reads ls.
Proof.
  intros Hc Hf Hok He. pose proof (reflow_Safe cols ls Hc Hf He) as Hsafe.
  unfold Buffer.reflow in *.
  pose proof (reflow_go_reads cols _ Hc None ls (Nat.lt_succ_diag_r _) Hf Hok He) as Hr.
  apply Safe_elim in Hr as (out & E & Hr). simpl option_list in Hr.
  rewrite E in Hsafe |- *. cbn [mbind option_bind] in *.
  by destruct (assert _).
Qed.
End text.

(** * The text of a screen without wide characters *)

Section narrow_text.
Context `{UnicodeWidth}.

Definition char_of (c : Cell.t) : list char :=
  if decide (Cell.occupancy c ≠ WideTail) then [Cell.ch c] else [].

Definition single_width (l : Line.t) : Prop :=
  Forall (λ c, Cell.occupancy c = Single) (Line.cells l).

Lemma gl_text l : gl char_of l = Line.text l.
Proof.
  unfold gl, gs, Line.text, Line.chars. induction (Line.cells l) as [|c cs IH]; csimpl; [done|].
  rewrite IH. unfold char_of at 1. by case_decide.
Qed.

Lemma logical_text current ls : logical char_of trim_end current ls = Buffer.text_go current ls.
Proof.
  revert current. induction ls as [|l ls IH]; intros current; simpl; [done|].
  rewrite gl_text, !IH. done.
Qed.

Lemma count_trailing_snoc_true {A} (p : A → bool) l k :
  forallb p k = true → count_trailing p (l ++ k) = length k + count_trailing p l.
Proof. intros Hk. by rewrite count_trailing_app, Hk. Qed.

Lemma trim_end_blanks x k :
  forallb is_whitespace k = true → trim_end (x ++ k) = trim_end x.
Proof.
  intros Hk. unfold trim_end. rewrite count_trailing_snoc_true, length_app by done.
  pose proof (count_trailing_le is_whitespace x). rewrite take_app_le by lia. f_equal. lia.
Qed.

Lemma trim_end_defaults x ds :
  Forall (λ c, Cell.is_default c) ds → trim_end (x ++ gs char_of ds) = trim_end x.
Proof.
  intros Hd. apply trim_end_blanks. induction Hd as [|c ds Hc Hd IH]; [done|].
  unfold gs in *. csimpl. apply Cell_is_default_char in Hc as [Hc Ho]. unfold char_of at 1.
  rewrite decide_True by (by rewrite Ho). simpl. by rewrite Hc, IH.
Qed.

Lemma reflow_text_Safe cols ls :
  2 ≤ cols → Forall flowable ls → Forall single_width ls → ends_unwrapped ls →
  Buffer.reflow ls cols ⇓ λ out, Buffer.text_go [] out = Buffer.text_go [] ls.
Proof.
  intros Hc Hf Hok He.
  eapply Safe_mono; [apply (reflow_reads char_of trim_end (λ c, Cell.occupancy c = Single)); try done|].
  - apply trim_end_defaults.
  - intros c p -> [=].
  - intros out Hr. by rewrite <- !logical_text, Hr.
Qed.

(** ** Any screen, without its spaces *)

Definition ink_of (c : Cell.t) : list char :=
  if decide (Cell.occupancy c ≠ WideTail ∧ Cell.ch c ≠ space) then [Cell.ch c] else [].

(** The characters of every logical line other than spaces. *)
Definition ink (ls : list Line.t) : list (list char) := logical ink_of id [] ls.

Lemma reflow_ink_Safe cols ls :
  2 ≤ cols → Forall flowable ls → ends_unwrapped ls →
  Buffer.reflow ls cols ⇓ λ out, ink out = ink ls.
Proof.
  intros Hc Hf He.
  eapply Safe_mono; [apply (reflow_reads ink_of id (λ _, True)); try done|].
  - intros x ds Hd. unfold id. rewrite <- (app_nil_r x) at 2. f_equal.
    induction Hd as [|c ds Hcd Hd IH]; [done|]. unfold gs in *. csimpl. rewrite IH.
    apply Cell_is_default_char in Hcd as [Hch Ho]. unfold ink_of.
    rewrite decide_False by tauto. done.
  - apply Forall_forall. intros l _. by apply Forall_forall.
  - intros out Hr. apply Hr.
Qed.
End narrow_text.
