(* ===== verification/Functions.v ===== *)
(** The control functions a terminal executes (ctmux/avt/src/parser.rs, data
    types): [Function], its modes, scopes and graphic renditions, and the
    small-buffer collections that carry their parameter lists. *)

From S2P Require Import Prelude.
From S2P Require Import Cells.

(** Parameters are [u16] values. *)
Abbreviation u16 := N (only parsing).
Definition is_u16 (n : u16) : bool := bool_decide (n < 65536)%N.

Module AnsiMode.
Inductive t := Insert | NewLine.
#[global] Instance eq_dec : EqDecision t.
Proof. solve_decision. Defined.
End AnsiMode.

Module CtcOp.
Inductive t := SetStop | ClearCurrentColumn | ClearAll.
#[global] Instance eq_dec : EqDecision t.
Proof. solve_decision. Defined.
End CtcOp.

Module DecMode.
Inductive t :=
  | CursorKeys
  | Origin
  | AutoWrap
  | TextCursorEnable
  | AltScreenBuffer
  | SaveCursor
  | SaveCursorAltScreenBuffer.
#[global] Instance eq_dec : EqDecision t.
Proof. solve_decision. Defined.
End DecMode.

Module EdScope.
Inductive t := Below | Above | All | SavedLines.
#[global] Instance eq_dec : EqDecision t.
Proof. solve_decision. Defined.
End EdScope.

Module ElScope.
Inductive t := ToRight | ToLeft | All.
#[global] Instance eq_dec : EqDecision t.
Proof. solve_decision. Defined.
End ElScope.

Module SgrOp.
Inductive t :=
  | Reset
  | SetBoldIntensity
  | SetFaintIntensity
  | SetItalic
  | SetUnderline
  | SetBlink
  | SetInverse
  | SetStrikethrough
  | ResetIntensity
  | ResetItalic
  | ResetUnderline
  | ResetBlink
  | ResetInverse
  | ResetStrikethrough
  | SetForegroundColor (c : Color.t)
  | ResetForegroundColor
  | SetBackgroundColor (c : Color.t)
  | ResetBackgroundColor.
#[global] Instance eq_dec : EqDecision t.
Proof. solve_decision. Defined.
End SgrOp.

Module TbcScope.
Inductive t := CurrentColumn | All.
#[global] Instance eq_dec : EqDecision t.
Proof. solve_decision. Defined.
End TbcScope.

Module XtwinopsOp.
Inductive t := Resize (cols rows : u16).
#[global] Instance eq_dec : EqDecision t.
Proof. solve_decision. Defined.
End XtwinopsOp.

(** * Small-buffer collections

    [SgrOps], [AnsiModes] and [DecModes] are the same code at three element
    types: up to [cap] values sit in an array, initialised with [fill], and the
    ones that do not fit move to a vector. *)
Module SmallVec.
Section small_vec.
Context {A : Type} (cap : nat) (fill : A).

Inductive t :=
  | Inline (ops : list A) (len : nat)
  | Heap (v : list A).

Definition new : t := Inline (replicate cap fill) 0.

Definition push (m : t) (x : A) : option t :=
  match m with
  | Inline ops len =>
      if decide (len < cap)
      then ops ← update ops len x; Some (Inline ops (len + 1))
      else Some (Heap (ops ++ [x]))
  | Heap v => Some (Heap (v ++ [x]))
  end.

Fixpoint collect_go (m : t) (l : list A) : option t :=
  match l with
  | [] => Some m
  | x :: l => m ← push m x; collect_go m l
  end.
Definition collect (l : list A) : option t := collect_go new l.

Definition len (m : t) : nat :=
  match m with Inline _ n => n | Heap v => length v end.

Definition is_empty (m : t) : bool := bool_decide (len m = 0).

(** [&ops[..len]] *)
Definition as_slice (m : t) : option (list A) :=
  match m with
  | Inline ops n => if decide (n ≤ length ops) then Some (take n ops) else None
  | Heap v => Some v
  end.

(** [From<Vec<A>>] *)
Definition from_vec (v : list A) : option t :=
  if decide (length v ≤ cap) then collect v else Some (Heap v).

(** The array keeps its length, and the heap is used only past [cap] values. *)
Definition wf (m : t) : Prop :=
  match m with
  | Inline ops n => length ops = cap ∧ n ≤ cap
  | Heap v => cap < length v
  end.

(** A collection represents the list of its values. *)
Definition repr (m : t) (l : list A) : Prop := wf m ∧ as_slice m = Some l.

Lemma new_repr : repr new [].
Proof.
  split; [split; [apply length_replicate|lia]|].
  unfold as_slice, new. by rewrite decide_True by lia.
Qed.

Lemma push_repr m l x : repr m l → push m x ⇓ λ m', repr m' (l ++ [x]).
Proof.
  intros [Hwf Hl]. destruct m as [ops n|v]; simpl in *.
  - destruct Hwf as [Hops Hn]. rewrite decide_True in Hl by lia. injection Hl as <-.
    case_decide.
    + rewrite update_Some by lia. simpl. split; simpl; [rewrite length_insert; lia|].
      rewrite decide_True by (rewrite length_insert; lia).
      rewrite Nat.add_1_r, (take_S_r _ _ x) by (apply list_lookup_insert_eq; lia).
      by rewrite take_insert_ge by lia.
    + simpl. split; simpl; [len|]. rewrite (take_ge ops) by lia. done.
  - injection Hl as <-. split; simpl; [len|done].
Qed.

Lemma collect_go_repr l : ∀ m k, repr m k → collect_go m l ⇓ λ m', repr m' (k ++ l).
Proof.
  induction l as [|x l IH]; intros m k Hm; simpl; [by rewrite app_nil_r|].
  eapply Safe_bind; [by apply push_repr|]. intros m' Hm'.
  change (x :: l) with ([x] ++ l). rewrite (app_assoc k [x] l). by apply IH.
Qed.

(** [collect] never panics, and the slice of what it collects is the list. *)
Lemma collect_repr l : collect l ⇓ λ m, repr m l.
Proof. apply (collect_go_repr l new []), new_repr. Qed.

Lemma from_vec_repr v : from_vec v ⇓ λ m, repr m v.
Proof. unfold from_vec. case_decide; [apply collect_repr|]. split; simpl; [lia|done]. Qed.

Lemma len_repr m l : repr m l → len m = length l.
Proof.
  intros [Hwf Hl]. destruct m as [ops n|v]; simpl in *; [|congruence].
  case_decide; simplify_eq. rewrite length_take. lia.
Qed.

Lemma wf_repr m : wf m → ∃ l, repr m l.
Proof.
  intros Hm. destruct m as [ops n|v]; [|by exists v].
  destruct Hm as [? ?]. exists (take n ops). split; [done|]. simpl.
  by rewrite decide_True by lia.
Qed.

End small_vec.
Arguments t A : clear implicits.

#[global] Instance eq_dec `{EqDecision A} : EqDecision (t A).
Proof. solve_decision. Defined.
End SmallVec.

Module SgrOps.
Definition INLINE_CAP : nat := 4.
Definition t := SmallVec.t SgrOp.t.
Definition new : t := SmallVec.new INLINE_CAP SgrOp.Reset.
Definition push : t → SgrOp.t → option t := SmallVec.push INLINE_CAP.
Definition collect : list SgrOp.t → option t := SmallVec.collect INLINE_CAP SgrOp.Reset.
Definition wf : t → Prop := SmallVec.wf INLINE_CAP.
Definition repr : t → list SgrOp.t → Prop := SmallVec.repr INLINE_CAP.
End SgrOps.

Definition MODES_INLINE_CAP : nat := 4.

Module AnsiModes.
Definition t := SmallVec.t AnsiMode.t.
Definition new : t := SmallVec.new MODES_INLINE_CAP AnsiMode.Insert.
Definition push : t → AnsiMode.t → option t := SmallVec.push MODES_INLINE_CAP.
Definition one (m : AnsiMode.t) : option t := push new m.
Definition collect : list AnsiMode.t → option t :=
  SmallVec.collect MODES_INLINE_CAP AnsiMode.Insert.
Definition repr : t → list AnsiMode.t → Prop := SmallVec.repr MODES_INLINE_CAP.
End AnsiModes.

Module DecModes.
Definition t := SmallVec.t DecMode.t.
Definition new : t := SmallVec.new MODES_INLINE_CAP DecMode.CursorKeys.
Definition push : t → DecMode.t → option t := SmallVec.push MODES_INLINE_CAP.
Definition one (m : DecMode.t) : option t := push new m.
Definition collect : list DecMode.t → option t :=
  SmallVec.collect MODES_INLINE_CAP DecMode.CursorKeys.
Definition repr : t → list DecMode.t → Prop := SmallVec.repr MODES_INLINE_CAP.
End DecModes.

Module Fun.
Inductive t :=
  | Bs
  | Cbt (n : u16)
  | Cha (n : u16)
  | Cht (n : u16)
  | Cnl (n : u16)
  | Cpl (n : u16)
  | Cr
  | Ctc (op : CtcOp.t)
  | Cub (n : u16)
  | Cud (n : u16)
  | Cuf (n : u16)
  | Cup (row col : u16)
  | Cuu (n : u16)
  | Dch (n : u16)
  | Decaln
  | Decrc
  | Decrst (modes : DecModes.t)
  | Decsc
  | Decset (modes : DecModes.t)
  | Decstbm (top bottom : u16)
  | Decstr
  | Dl (n : u16)
  | Ech (n : u16)
  | Ed (scope : EdScope.t)
  | El (scope : ElScope.t)
  | G1d4 (charset : Charset.t)
  | Gzd4 (charset : Charset.t)
  | Ht
  | Hts
  | Ich (n : u16)
  | Il (n : u16)
  | Lf
  | Nel
  | Print (ch : char)
  | Rep (n : u16)
  | Ri
  | Ris
  | Rm (modes : AnsiModes.t)
  | Scorc
  | Scosc
  | Sd (n : u16)
  | Sgr (ops : SgrOps.t)
  | Si
  | Sm (modes : AnsiModes.t)
  | So
  | Su (n : u16)
  | Tbc (scope : TbcScope.t)
  | Vpa (n : u16)
  | Vpr (n : u16)
  | Xtwinops (op : XtwinopsOp.t).

#[global] Instance eq_dec : EqDecision t.
Proof. solve_decision. Defined.

(** The collections a function carries are in the shape their code keeps. *)
Definition wf (f : t) : Prop :=
  match f with
  | Decrst m | Decset m => SmallVec.wf MODES_INLINE_CAP m
  | Rm m | Sm m => SmallVec.wf MODES_INLINE_CAP m
  | Sgr ops => SgrOps.wf ops
  | _ => True
  end.
End Fun.
