(* ===== verification/Tabs.v ===== *)
(** Tab stops (ctmux/avt/src/tabs.rs): a strictly increasing vector of columns. *)

From Stdlib Require Import Sorted.
From S2P Require Import Prelude.

Module Tabs.
(** [(s..e).step_by(8)] *)
Definition step_by_8 (s e : nat) : list nat :=
  (λ i, s + 8 * i) <$> seq 0 ((e - s + 7) `div` 8).

(** [slice::binary_search] on a strictly increasing slice: the index of the
    value, or the index where it would be inserted. *)
Definition binary_search (tabs : list nat) (pos : nat) : nat + nat :=
  let index := count_while (λ t, bool_decide (t < pos)) tabs in
  if decide (tabs !! index = Some pos) then inl index else inr index.

Definition new (cols : nat) : list nat := step_by_8 8 cols.

Definition set (pos : nat) (tabs : list nat) : list nat :=
  match binary_search tabs pos with
  | inl _ => tabs
  | inr index => take index tabs ++ pos :: drop index tabs
  end.

Definition unset (pos : nat) (tabs : list nat) : list nat :=
  match binary_search tabs pos with
  | inl index => take index tabs ++ drop (S index) tabs
  | inr _ => tabs
  end.

Definition expand (start e : nat) (tabs : list nat) : list nat :=
  let start := start + (8 - start `mod` 8) in
  tabs ++ step_by_8 start e.

Definition contract (pos : nat) (tabs : list nat) : list nat :=
  take (count_while (λ t, bool_decide (t < pos)) tabs) tabs.

(** [iter().skip_while(p)] *)
Definition skip_while (p : nat → bool) (l : list nat) : list nat :=
  drop (count_while p l) l.

Definition before (pos n : nat) (tabs : list nat) : option (option nat) :=
  k ← csub n 1;
  Some (skip_while (λ t, bool_decide (pos ≤ t)) (reverse tabs) !! k).

Definition after (pos n : nat) (tabs : list nat) : option (option nat) :=
  k ← csub n 1;
  Some (skip_while (λ t, bool_decide (t ≤ pos)) tabs !! k).
End Tabs.

(** * Well-formed tab stops *)

(** Strictly increasing, on the columns [1..cols]. *)
Definition wf_tabs (cols : nat) (tabs : list nat) : Prop :=
  StronglySorted lt tabs ∧ Forall (λ t, 0 < t ≤ cols) tabs.

Section tabs.
Implicit Types (tabs l k : list nat) (t pos cols : nat).

Lemma sorted_app l k :
  StronglySorted lt (l ++ k) ↔
    StronglySorted lt l ∧ StronglySorted lt k ∧ (∀ x y, x ∈ l → y ∈ k → x < y).
Proof.
  induction l as [|x l IH]; simpl.
  - split; [|tauto]. intros. split_and!; [constructor|done|]. intros ? ? []%not_elem_of_nil.
  - split.
    + intros [Hs Hx]%StronglySorted_inv. apply IH in Hs as (? & ? & Hlt).
      rewrite Forall_app in Hx. destruct Hx as [Hx1 Hx2]. split_and!.
      * by constructor.
      * done.
      * rewrite Forall_forall in Hx2. intros y z [->|?]%elem_of_cons ?; auto.
    + intros ([Hs Hx]%StronglySorted_inv & ? & Hlt). constructor.
      * apply IH. split_and!; [done..|]. intros. apply Hlt; [by right|done].
      * apply Forall_app. split; [done|]. apply Forall_forall. intros. apply Hlt; [by left|done].
Qed.

(** A sorted list splits at any column. *)
Lemma sorted_split tabs pos :
  StronglySorted lt tabs →
  ∃ l k, tabs = l ++ k ∧ length l = count_while (λ t, bool_decide (t < pos)) tabs ∧
    Forall (λ t, t < pos) l ∧ Forall (λ t, pos ≤ t) k.
Proof.
  induction 1 as [|x tabs Hs (l & k & -> & Hl & Hlt & Hge) Hx]; simpl; [by exists [], []|].
  case_bool_decide.
  - exists (x :: l), k. split_and!; simpl; [done|by rewrite Hl|by constructor|done].
  - exists [], (x :: l ++ k). split_and!; [done..|]. constructor; [lia|].
    eapply Forall_impl; [exact Hx|]. simpl. lia.
Qed.

Lemma step_by_8_spec s e t :
  t ∈ Tabs.step_by_8 s e ↔ s ≤ t < e ∧ (t - s) `mod` 8 = 0.
Proof.
  unfold Tabs.step_by_8. rewrite list_elem_of_fmap. setoid_rewrite elem_of_seq. split.
  - intros (i & -> & Hi). pose proof (Nat.div_mod_eq (e - s + 7) 8).
    pose proof (Nat.mod_upper_bound (e - s + 7) 8).
    replace (s + 8 * i - s) with (i * 8) by lia. rewrite Nat.Div0.mod_mul. lia.
  - intros [Hr Hm]. exists ((t - s) `div` 8). pose proof (Nat.div_mod_eq (t - s) 8).
    pose proof (Nat.div_mod_eq (e - s + 7) 8).
    pose proof (Nat.mod_upper_bound (e - s + 7) 8). lia.
Qed.

Lemma step_by_8_sorted s e : StronglySorted lt (Tabs.step_by_8 s e).
Proof.
  enough (∀ n i, StronglySorted lt ((λ i, s + 8 * i) <$> seq i n)) as E by apply E.
  induction n as [|n IH]; intros i; simpl; constructor; [apply IH|].
  apply Forall_forall. intros t (j & -> & Hj%elem_of_seq)%list_elem_of_fmap. lia.
Qed.

Lemma wf_tabs_new cols : wf_tabs cols (Tabs.new cols).
Proof.
  split; [apply step_by_8_sorted|]. apply Forall_forall. intros t Ht%step_by_8_spec. lia.
Qed.

Lemma wf_tabs_nil cols : wf_tabs cols [].
Proof. split; constructor. Qed.

Lemma tabs_set_elem tabs pos t :
  StronglySorted lt tabs → t ∈ Tabs.set pos tabs ↔ t = pos ∨ t ∈ tabs.
Proof.
  intros Hs. unfold Tabs.set, Tabs.binary_search. case_decide as Hd.
  - apply list_elem_of_lookup_2 in Hd. split; [tauto|]. by intros [->|?].
  - generalize (count_while (λ t, bool_decide (t < pos)) tabs) as i. intros i.
    assert (t ∈ tabs ↔ t ∈ take i tabs ∨ t ∈ drop i tabs) as ->.
    { by rewrite <- elem_of_app, take_drop. }
    rewrite elem_of_app, elem_of_cons. tauto.
Qed.

Lemma tabs_unset_elem tabs pos t :
  StronglySorted lt tabs → t ∈ Tabs.unset pos tabs ↔ t ≠ pos ∧ t ∈ tabs.
Proof.
  intros Hs. destruct (sorted_split tabs pos Hs) as (l & k & E & Hl & Hlt & Hge).
  unfold Tabs.unset, Tabs.binary_search. rewrite <- Hl. rewrite Forall_forall in Hlt, Hge.
  assert (tabs !! length l = head k) as ->.
  { rewrite E, lookup_app_r, Nat.sub_diag by lia. by destruct k. }
  subst tabs. apply sorted_app in Hs as (Hsl & Hsk & _).
  case_decide as Hd.
  - destruct k as [|y k]; simplify_eq/=. apply StronglySorted_inv in Hsk as [_ Hk].
    rewrite Forall_forall in Hk.
    rewrite take_app_length, (cons_middle pos l k), app_assoc.
    replace (S (length l)) with (length (l ++ [pos])) by len. rewrite drop_app_length.
    rewrite !elem_of_app, list_elem_of_singleton. split.
    + intros [Ht|Ht]; [specialize (Hlt t Ht)|specialize (Hk t Ht)]; (split; [lia|auto]).
    + tauto.
  - assert (pos ∉ l ++ k) as Hn; [|split; [split; [by intros ->|done]|tauto]].
    intros [Ht|Ht]%elem_of_app; [specialize (Hlt _ Ht); lia|].
    destruct k as [|y k]; [by apply not_elem_of_nil in Ht|].
    apply StronglySorted_inv in Hsk as [_ Hk]. rewrite Forall_forall in Hk.
    apply elem_of_cons in Ht as [->|Ht]; [done|].
    specialize (Hk _ Ht). specialize (Hge y (list_elem_of_here _ _)). lia.
Qed.

Lemma wf_tabs_set cols tabs pos :
  wf_tabs cols tabs → 0 < pos ≤ cols → wf_tabs cols (Tabs.set pos tabs).
Proof.
  intros [Hs Hf] Hpos. split.
  2: { apply Forall_forall. intros t [->|Ht]%tabs_set_elem; [done| |done].
       rewrite Forall_forall in Hf. auto. }
  destruct (sorted_split tabs pos Hs) as (l & k & E & Hl & Hlt & Hge).
  unfold Tabs.set, Tabs.binary_search. case_decide as Hd; [done|].
  rewrite <- Hl in *. subst tabs. rewrite take_app_length, drop_app_length.
  apply sorted_app in Hs as (Hsl & Hsk & Hlk). rewrite Forall_forall in Hlt.
  assert (Forall (lt pos) k).
  { destruct k as [|y k]; [constructor|]. rewrite lookup_app_here in Hd.
    apply Forall_cons in Hge as [? Hge]. apply StronglySorted_inv in Hsk as [_ Hk].
    assert (pos ≠ y) by congruence. constructor; [lia|].
    eapply Forall_impl; [exact Hk|]. simpl. lia. }
  apply sorted_app. split_and!; [done|by constructor|].
  intros x y Hx [->|Hy]%elem_of_cons; auto.
Qed.

Lemma sorted_sub l k m :
  StronglySorted lt (l ++ k ++ m) → StronglySorted lt (l ++ m).
Proof. rewrite !sorted_app. setoid_rewrite elem_of_app. naive_solver. Qed.

Lemma wf_tabs_unset cols tabs pos : wf_tabs cols tabs → wf_tabs cols (Tabs.unset pos tabs).
Proof.
  intros [Hs Hf]. split.
  2: { apply Forall_forall. intros t [_ Ht]%tabs_unset_elem; [|done].
       rewrite Forall_forall in Hf. auto. }
  unfold Tabs.unset. destruct (Tabs.binary_search tabs pos) as [i|i] eqn:E; [|done].
  unfold Tabs.binary_search in E. case_decide as Hd; [|done]. injection E as <-.
  apply split_at in Hd as (l & k & E & Hl). rewrite E in Hs at 1. rewrite E at 2 4.
  rewrite <- Hl. rewrite take_app_length, (cons_middle pos l k), app_assoc.
  replace (S (length l)) with (length (l ++ [pos])) by len. rewrite drop_app_length.
  by apply (sorted_sub l [pos] k).
Qed.

(** New stops are added to the right of the old columns. *)
Lemma wf_tabs_expand cols tabs cols' :
  wf_tabs cols tabs → cols ≤ cols' → wf_tabs cols' (Tabs.expand cols cols' tabs).
Proof.
  intros [Hs Hf] Hle. rewrite Forall_forall in Hf.
  pose proof (Nat.mod_upper_bound cols 8).
  unfold Tabs.expand. split.
  - apply sorted_app. split_and!; [done|apply step_by_8_sorted|].
    intros x y Hx%Hf Hy%step_by_8_spec. lia.
  - apply Forall_app. split; apply Forall_forall; [intros x Hx%Hf; lia|].
    intros y Hy%step_by_8_spec. lia.
Qed.

Lemma tabs_contract_elem pos tabs t :
  StronglySorted lt tabs → t ∈ Tabs.contract pos tabs ↔ t < pos ∧ t ∈ tabs.
Proof.
  intros Hs. destruct (sorted_split tabs pos Hs) as (l & k & E & Hl & Hlt & Hge).
  unfold Tabs.contract. rewrite <- Hl, E, take_app_length, elem_of_app.
  rewrite Forall_forall in Hlt, Hge. split; [by auto|].
  intros [? [?|Hk%Hge]]; [done|lia].
Qed.

Lemma wf_tabs_contract cols pos tabs :
  wf_tabs cols tabs → wf_tabs pos (Tabs.contract pos tabs).
Proof.
  intros [Hs Hf]. split.
  - unfold Tabs.contract.
    rewrite <- (take_drop (count_while (λ t, bool_decide (t < pos)) tabs) tabs), sorted_app in Hs.
    tauto.
  - rewrite Forall_forall in *. intros t [? ?%Hf]%tabs_contract_elem; [|done]. lia.
Qed.

Lemma wf_tabs_mono cols cols' tabs : wf_tabs cols tabs → cols ≤ cols' → wf_tabs cols' tabs.
Proof. intros [? Hf] ?. split; [done|]. eapply Forall_impl; [exact Hf|]. simpl. lia. Qed.

(** There is no more than one stop per column. *)
Lemma wf_tabs_length cols tabs : wf_tabs cols tabs → length tabs ≤ cols.
Proof.
  intros [Hs Hf]. rewrite <- (length_seq cols 1). apply submseteq_length, NoDup_submseteq.
  - clear Hf. induction Hs as [|x tabs Hs IH Hx]; constructor; [|done].
    rewrite Forall_forall in Hx. intros ?%Hx. lia.
  - rewrite Forall_forall in Hf. intros t ?%Hf. apply elem_of_seq. lia.
Qed.
End tabs.
