(* ===== verification/Terminal.v ===== *)
(** The terminal state machine (ctmux/avt/src/terminal.rs, terminal/cursor.rs,
    terminal/dirty_lines.rs): the screen, its modes, margins, tab stops and saved
    contexts, and one definition per control function, dispatched by [execute]. *)

From S2P Require Import Prelude.
From S2P Require Import Cells.
From S2P Require Import Lines.
From S2P Require Import Buffers.
From S2P Require Import Functions.
From S2P Require Import Tabs.

Module Cursor.
Record t := Mk { col : nat; row : nat; visible : bool }.
#[global] Instance eq_dec : EqDecision t.
Proof. solve_decision. Defined.
Definition default : t := Mk 0 0 true.
Definition to_option (c : t) : option (nat * nat) :=
  if visible c then Some (col c, row c) else None.
End Cursor.

Module DirtyLines.
Definition new (len : nat) : list bool := replicate len true.
Definition add (n : nat) (d : list bool) : option (list bool) := update d n true.
Definition extend (s e : nat) (d : list bool) : option (list bool) := fill_range s e true d.
Definition resize (len : nat) (d : list bool) : list bool := resize_vec len false d.
Definition clear (d : list bool) : list bool := replicate (length d) false.
(** The indices of the dirty lines, in order. *)
Definition to_vec (d : list bool) : list nat :=
  omap (λ '(i, affected), if (affected : bool) then Some i else None)
    (zip (seq 0 (length d)) d).
End DirtyLines.

Inductive BufferType := Primary | Alternate.
#[global] Instance BufferType_eq_dec : EqDecision BufferType.
Proof. solve_decision. Defined.

Inductive CursorKeysMode := NormalKeys | ApplicationKeys.
#[global] Instance CursorKeysMode_eq_dec : EqDecision CursorKeysMode.
Proof. solve_decision. Defined.

Module SavedCtx.
Record t := Mk {
  cursor_col : nat;
  cursor_row : nat;
  pen : Pen.t;
  origin_mode : bool;
  auto_wrap_mode : bool;
}.
#[global] Instance eq_dec : EqDecision t.
Proof. solve_decision. Defined.
Definition default : t := Mk 0 0 Pen.default false true.
Definition is_default (c : t) : bool :=
  bool_decide (cursor_col c = 0) && bool_decide (cursor_row c = 0)
  && Pen.is_default (pen c) && negb (origin_mode c) && auto_wrap_mode c.
End SavedCtx.

Inductive PrintResult := Printed (width : nat) | NeedsRelocation.

Definition as_usize (value : u16) (default : nat) : nat :=
  if decide (value = 0%N) then default else N.to_nat value.

(** [for x in l { s = f(x, s) }] *)
Fixpoint for_each {A S} (l : list A) (f : A → S → option S) (s : S) : option S :=
  match l with
  | [] => Some s
  | x :: l => s ← f x s; for_each l f s
  end.

Module Terminal.
Record t := Mk {
  cols : nat;
  rows : nat;
  buffer : Buffer.t;
  other_buffer : Buffer.t;
  active_buffer_type : BufferType;
  scrollback_limit : option nat;
  cursor : Cursor.t;
  pen : Pen.t;
  charsets : list Charset.t;
  active_charset : nat;
  tabs : list nat;
  insert_mode : bool;
  origin_mode : bool;
  auto_wrap_mode : bool;
  new_line_mode : bool;
  cursor_keys_mode : CursorKeysMode;
  top_margin : nat;
  bottom_margin : nat;
  saved_ctx : SavedCtx.t;
  alternate_saved_ctx : SavedCtx.t;
  dirty_lines : list bool;
  xtwinops_enabled : bool;
  reflow_cursor_line : bool;
}.

#[global] Instance eq_dec : EqDecision t.
Proof. solve_decision. Defined.

(** Assignments to one field. *)
Definition set_cols (x : nat) (s : t) : t := Mk x (rows s) (buffer s) (other_buffer s)
  (active_buffer_type s) (scrollback_limit s) (cursor s) (pen s) (charsets s) (active_charset
  s) (tabs s) (insert_mode s) (origin_mode s) (auto_wrap_mode s) (new_line_mode s)
  (cursor_keys_mode s) (top_margin s) (bottom_margin s) (saved_ctx s) (alternate_saved_ctx s)
  (dirty_lines s) (xtwinops_enabled s) (reflow_cursor_line s).
Definition set_rows (x : nat) (s : t) : t := Mk (cols s) x (buffer s) (other_buffer s)
  (active_buffer_type s) (scrollback_limit s) (cursor s) (pen s) (charsets s) (active_charset
  s) (tabs s) (insert_mode s) (origin_mode s) (auto_wrap_mode s) (new_line_mode s)
  (cursor_keys_mode s) (top_margin s) (bottom_margin s) (saved_ctx s) (alternate_saved_ctx s)
  (dirty_lines s) (xtwinops_enabled s) (reflow_cursor_line s).
Definition set_buffer (x : Buffer.t) (s : t) : t := Mk (cols s) (rows s) x (other_buffer s)
  (active_buffer_type s) (scrollback_limit s) (cursor s) (pen s) (charsets s) (active_charset
  s) (tabs s) (insert_mode s) (origin_mode s) (auto_wrap_mode s) (new_line_mode s)
  (cursor_keys_mode s) (top_margin s) (bottom_margin s) (saved_ctx s) (alternate_saved_ctx s)
  (dirty_lines s) (xtwinops_enabled s) (reflow_cursor_line s).
Definition set_other_buffer (x : Buffer.t) (s : t) : t := Mk (cols s) (rows s) (buffer s) x
  (active_buffer_type s) (scrollback_limit s) (cursor s) (pen s) (charsets s) (active_charset
  s) (tabs s) (insert_mode s) (origin_mode s) (auto_wrap_mode s) (new_line_mode s)
  (cursor_keys_mode s) (top_margin s) (bottom_margin s) (saved_ctx s) (alternate_saved_ctx s)
  (dirty_lines s) (xtwinops_enabled s) (reflow_cursor_line s).
Definition set_active_buffer_type (x : BufferType) (s : t) : t := Mk (cols s) (rows s) (buffer
  s) (other_buffer s) x (scrollback_limit s) (cursor s) (pen s) (charsets s) (active_charset
  s) (tabs s) (insert_mode s) (origin_mode s) (auto_wrap_mode s) (new_line_mode s)
  (cursor_keys_mode s) (top_margin s) (bottom_margin s) (saved_ctx s) (alternate_saved_ctx s)
  (dirty_lines s) (xtwinops_enabled s) (reflow_cursor_line s).
Definition set_cursor (x : Cursor.t) (s : t) : t := Mk (cols s) (rows s) (buffer s)
  (other_buffer s) (active_buffer_type s) (scrollback_limit s) x (pen s) (charsets s)
  (active_charset s) (tabs s) (insert_mode s) (origin_mode s) (auto_wrap_mode s)
  (new_line_mode s) (cursor_keys_mode s) (top_margin s) (bottom_margin s) (saved_ctx s)
  (alternate_saved_ctx s) (dirty_lines s) (xtwinops_enabled s) (reflow_cursor_line s).
Definition set_pen (x : Pen.t) (s : t) : t := Mk (cols s) (rows s) (buffer s) (other_buffer s)
  (active_buffer_type s) (scrollback_limit s) (cursor s) x (charsets s) (active_charset s)
  (tabs s) (insert_mode s) (origin_mode s) (auto_wrap_mode s) (new_line_mode s)
  (cursor_keys_mode s) (top_margin s) (bottom_margin s) (saved_ctx s) (alternate_saved_ctx s)
  (dirty_lines s) (xtwinops_enabled s) (reflow_cursor_line s).
Definition set_charsets (x : list Charset.t) (s : t) : t := Mk (cols s) (rows s) (buffer s)
  (other_buffer s) (active_buffer_type s) (scrollback_limit s) (cursor s) (pen s) x
  (active_charset s) (tabs s) (insert_mode s) (origin_mode s) (auto_wrap_mode s)
  (new_line_mode s) (cursor_keys_mode s) (top_margin s) (bottom_margin s) (saved_ctx s)
  (alternate_saved_ctx s) (dirty_lines s) (xtwinops_enabled s) (reflow_cursor_line s).
Definition set_active_charset (x : nat) (s : t) : t := Mk (cols s) (rows s) (buffer s)
  (other_buffer s) (active_buffer_type s) (scrollback_limit s) (cursor s) (pen s) (charsets s)
  x (tabs s) (insert_mode s) (origin_mode s) (auto_wrap_mode s) (new_line_mode s)
  (cursor_keys_mode s) (top_margin s) (bottom_margin s) (saved_ctx s) (alternate_saved_ctx s)
  (dirty_lines s) (xtwinops_enabled s) (reflow_cursor_line s).
Definition set_tabs (x : list nat) (s : t) : t := Mk (cols s) (rows s) (buffer s)
  (other_buffer s) (active_buffer_type s) (scrollback_limit s) (cursor s) (pen s) (charsets s)
  (active_charset s) x (insert_mode s) (origin_mode s) (auto_wrap_mode s) (new_line_mode s)
  (cursor_keys_mode s) (top_margin s) (bottom_margin s) (saved_ctx s) (alternate_saved_ctx s)
  (dirty_lines s) (xtwinops_enabled s) (reflow_cursor_line s).
Definition set_insert_mode (x : bool) (s : t) : t := Mk (cols s) (rows s) (buffer s)
  (other_buffer s) (active_buffer_type s) (scrollback_limit s) (cursor s) (pen s) (charsets s)
  (active_charset s) (tabs s) x (origin_mode s) (auto_wrap_mode s) (new_line_mode s)
  (cursor_keys_mode s) (top_margin s) (bottom_margin s) (saved_ctx s) (alternate_saved_ctx s)
  (dirty_lines s) (xtwinops_enabled s) (reflow_cursor_line s).
Definition set_origin_mode (x : bool) (s : t) : t := Mk (cols s) (rows s) (buffer s)
  (other_buffer s) (active_buffer_type s) (scrollback_limit s) (cursor s) (pen s) (charsets s)
  (active_charset s) (tabs s) (insert_mode s) x (auto_wrap_mode s) (new_line_mode s)
  (cursor_keys_mode s) (top_margin s) (bottom_margin s) (saved_ctx s) (alternate_saved_ctx s)
  (dirty_lines s) (xtwinops_enabled s) (reflow_cursor_line s).
Definition set_auto_wrap_mode (x : bool) (s : t) : t := Mk (cols s) (rows s) (buffer s)
  (other_buffer s) (active_buffer_type s) (scrollback_limit s) (cursor s) (pen s) (charsets s)
  (active_charset s) (tabs s) (insert_mode s) (origin_mode s) x (new_line_mode s)
  (cursor_keys_mode s) (top_margin s) (bottom_margin s) (saved_ctx s) (alternate_saved_ctx s)
  (dirty_lines s) (xtwinops_enabled s) (reflow_cursor_line s).
Definition set_new_line_mode (x : bool) (s : t) : t := Mk (cols s) (rows s) (buffer s)
  (other_buffer s) (active_buffer_type s) (scrollback_limit s) (cursor s) (pen s) (charsets s)
  (active_charset s) (tabs s) (insert_mode s) (origin_mode s) (auto_wrap_mode s) x
  (cursor_keys_mode s) (top_margin s) (bottom_margin s) (saved_ctx s) (alternate_saved_ctx s)
  (dirty_lines s) (xtwinops_enabled s) (reflow_cursor_line s).
Definition set_cursor_keys_mode (x : CursorKeysMode) (s : t) : t := Mk (cols s) (rows s)
  (buffer s) (other_buffer s) (active_buffer_type s) (scrollback_limit s) (cursor s) (pen s)
  (charsets s) (active_charset s) (tabs s) (insert_mode s) (origin_mode s) (auto_wrap_mode s)
  (new_line_mode s) x (top_margin s) (bottom_margin s) (saved_ctx s) (alternate_saved_ctx s)
  (dirty_lines s) (xtwinops_enabled s) (reflow_cursor_line s).
Definition set_top_margin (x : nat) (s : t) : t := Mk (cols s) (rows s) (buffer s)
  (other_buffer s) (active_buffer_type s) (scrollback_limit s) (cursor s) (pen s) (charsets s)
  (active_charset s) (tabs s) (insert_mode s) (origin_mode s) (auto_wrap_mode s)
  (new_line_mode s) (cursor_keys_mode s) x (bottom_margin s) (saved_ctx s)
  (alternate_saved_ctx s) (dirty_lines s) (xtwinops_enabled s) (reflow_cursor_line s).
Definition set_bottom_margin (x : nat) (s : t) : t := Mk (cols s) (rows s) (buffer s)
  (other_buffer s) (active_buffer_type s) (scrollback_limit s) (cursor s) (pen s) (charsets s)
  (active_charset s) (tabs s) (insert_mode s) (origin_mode s) (auto_wrap_mode s)
  (new_line_mode s) (cursor_keys_mode s) (top_margin s) x (saved_ctx s) (alternate_saved_ctx
  s) (dirty_lines s) (xtwinops_enabled s) (reflow_cursor_line s).
Definition set_saved_ctx (x : SavedCtx.t) (s : t) : t := Mk (cols s) (rows s) (buffer s)
  (other_buffer s) (active_buffer_type s) (scrollback_limit s) (cursor s) (pen s) (charsets s)
  (active_charset s) (tabs s) (insert_mode s) (origin_mode s) (auto_wrap_mode s)
  (new_line_mode s) (cursor_keys_mode s) (top_margin s) (bottom_margin s) x
  (alternate_saved_ctx s) (dirty_lines s) (xtwinops_enabled s) (reflow_cursor_line s).
Definition set_alternate_saved_ctx (x : SavedCtx.t) (s : t) : t := Mk (cols s) (rows s)
  (buffer s) (other_buffer s) (active_buffer_type s) (scrollback_limit s) (cursor s) (pen s)
  (charsets s) (active_charset s) (tabs s) (insert_mode s) (origin_mode s) (auto_wrap_mode s)
  (new_line_mode s) (cursor_keys_mode s) (top_margin s) (bottom_margin s) (saved_ctx s) x
  (dirty_lines s) (xtwinops_enabled s) (reflow_cursor_line s).
Definition set_dirty_lines (x : list bool) (s : t) : t := Mk (cols s) (rows s) (buffer s)
  (other_buffer s) (active_buffer_type s) (scrollback_limit s) (cursor s) (pen s) (charsets s)
  (active_charset s) (tabs s) (insert_mode s) (origin_mode s) (auto_wrap_mode s)
  (new_line_mode s) (cursor_keys_mode s) (top_margin s) (bottom_margin s) (saved_ctx s)
  (alternate_saved_ctx s) x (xtwinops_enabled s) (reflow_cursor_line s).
Definition set_reflow_cursor_line (x : bool) (s : t) : t := Mk (cols s) (rows s) (buffer s)
  (other_buffer s) (active_buffer_type s) (scrollback_limit s) (cursor s) (pen s) (charsets s)
  (active_charset s) (tabs s) (insert_mode s) (origin_mode s) (auto_wrap_mode s)
  (new_line_mode s) (cursor_keys_mode s) (top_margin s) (bottom_margin s) (saved_ctx s)
  (alternate_saved_ctx s) (dirty_lines s) (xtwinops_enabled s) x.

Definition set_cursor_col (x : nat) (s : t) : t :=
  set_cursor (Cursor.Mk x (Cursor.row (cursor s)) (Cursor.visible (cursor s))) s.
Definition set_cursor_row (x : nat) (s : t) : t :=
  set_cursor (Cursor.Mk (Cursor.col (cursor s)) x (Cursor.visible (cursor s))) s.
Definition set_cursor_visible (x : bool) (s : t) : t :=
  set_cursor (Cursor.Mk (Cursor.col (cursor s)) (Cursor.row (cursor s)) x) s.

Definition new (cols rows : nat) (scrollback_limit : option nat) : option t :=
  bottom_margin ← csub rows 1;
  Some (Mk cols rows
    (Buffer.new cols rows scrollback_limit None) (Buffer.new cols rows (Some 0) None)
    Primary scrollback_limit Cursor.default Pen.default [Charset.Ascii; Charset.Ascii] 0
    (Tabs.new cols) false false true false NormalKeys 0 bottom_margin
    SavedCtx.default SavedCtx.default (DirtyLines.new rows) false true).

Definition size (s : t) : nat * nat := (cols s, rows s).

(** The rows [gc] hands out; the alternate screen has no scrollback to give. *)
Definition gc (s : t) : option (t * list Line.t) :=
  '(b, lines) ← Buffer.gc (buffer s);
  Some (set_buffer b s,
    if decide (active_buffer_type s = Alternate) then [] else default [] lines).

Definition changes (s : t) : t * list nat :=
  (set_dirty_lines (DirtyLines.clear (dirty_lines s)) s, DirtyLines.to_vec (dirty_lines s)).

(** ** Dirty lines *)

Definition dirty_add (n : nat) (s : t) : option t :=
  d ← DirtyLines.add n (dirty_lines s); Some (set_dirty_lines d s).
Definition dirty_extend (st e : nat) (s : t) : option t :=
  d ← DirtyLines.extend st e (dirty_lines s); Some (set_dirty_lines d s).

(** ** Cursor *)

Definition save_cursor (s : t) : option t :=
  last_col ← csub (cols s) 1;
  Some (set_saved_ctx
    (SavedCtx.Mk (Cursor.col (cursor s) `min` last_col) (Cursor.row (cursor s)) (pen s)
       (origin_mode s) (auto_wrap_mode s)) s).

Definition restore_cursor (s : t) : t :=
  let ctx := saved_ctx s in
  let s := set_cursor_col (SavedCtx.cursor_col ctx) s in
  let s := set_cursor_row (SavedCtx.cursor_row ctx) s in
  let s := set_pen (SavedCtx.pen ctx) s in
  let s := set_origin_mode (SavedCtx.origin_mode ctx) s in
  set_auto_wrap_mode (SavedCtx.auto_wrap_mode ctx) s.

Definition move_cursor_to_col (col : nat) (s : t) : option t :=
  if decide (cols s ≤ col)
  then last_col ← csub (cols s) 1; Some (set_cursor_col last_col s)
  else Some (set_cursor_col col s).

Definition actual_top_margin (s : t) : nat :=
  if origin_mode s then top_margin s else 0.

Definition actual_bottom_margin (s : t) : option nat :=
  if origin_mode s then Some (bottom_margin s) else csub (rows s) 1.

Definition do_move_cursor_to_row (row : nat) (s : t) : option t :=
  last_col ← csub (cols s) 1;
  Some (set_cursor_row row (set_cursor_col (Cursor.col (cursor s) `min` last_col) s)).

Definition move_cursor_to_row (row : nat) (s : t) : option t :=
  let top := actual_top_margin s in
  bottom ← actual_bottom_margin s;
  do_move_cursor_to_row (((top + row) `max` top) `min` bottom) s.

Definition move_cursor_to_rel_col (rel_col : Z) (s : t) : option t :=
  let new_col := (Z.of_nat (Cursor.col (cursor s)) + rel_col)%Z in
  if decide (new_col < 0)%Z then Some (set_cursor_col 0 s)
  else if decide (cols s ≤ Z.to_nat new_col)
  then last_col ← csub (cols s) 1; Some (set_cursor_col last_col s)
  else Some (set_cursor_col (Z.to_nat new_col) s).

Definition move_cursor_home (s : t) : option t :=
  let s := set_cursor_col 0 s in
  do_move_cursor_to_row (actual_top_margin s) s.

Definition move_cursor_to_next_tab (n : nat) (s : t) : option t :=
  tab ← Tabs.after (Cursor.col (cursor s)) n (tabs s);
  last_col ← csub (cols s) 1;
  move_cursor_to_col (default last_col tab) s.

Definition move_cursor_to_prev_tab (n : nat) (s : t) : option t :=
  tab ← Tabs.before (Cursor.col (cursor s)) n (tabs s);
  move_cursor_to_col (default 0 tab) s.

(** ** Scrolling *)

Definition scroll_up_in_region (n : nat) (s : t) : option t :=
  b ← Buffer.scroll_up (buffer s) (top_margin s) (bottom_margin s + 1) n (pen s);
  dirty_extend (top_margin s) (bottom_margin s + 1) (set_buffer b s).

Definition scroll_down_in_region (n : nat) (s : t) : option t :=
  b ← Buffer.scroll_down (buffer s) (top_margin s) (bottom_margin s + 1) n (pen s);
  dirty_extend (top_margin s) (bottom_margin s + 1) (set_buffer b s).

Definition move_cursor_down_with_scroll (s : t) : option t :=
  if decide (Cursor.row (cursor s) = bottom_margin s) then scroll_up_in_region 1 s
  else
    last_row ← csub (rows s) 1;
    if decide (Cursor.row (cursor s) < last_row)
    then do_move_cursor_to_row (Cursor.row (cursor s) + 1) s
    else Some s.

Definition cursor_down (n : nat) (s : t) : option t :=
  new_y ← (if decide (bottom_margin s < Cursor.row (cursor s))
           then last_row ← csub (rows s) 1;
                Some (last_row `min` (Cursor.row (cursor s) + n))
           else Some (bottom_margin s `min` (Cursor.row (cursor s) + n)));
  do_move_cursor_to_row new_y s.

Definition cursor_up (n : nat) (s : t) : option t :=
  let new_y := (Z.of_nat (Cursor.row (cursor s)) - Z.of_nat n)%Z in
  let new_y := if decide (Cursor.row (cursor s) < top_margin s)
               then (new_y `max` 0)%Z else (new_y `max` Z.of_nat (top_margin s))%Z in
  do_move_cursor_to_row (Z.to_nat new_y) s.

(** ** Tab stops *)

Definition set_tab (s : t) : t :=
  if decide (0 < Cursor.col (cursor s) < cols s)
  then set_tabs (Tabs.set (Cursor.col (cursor s)) (tabs s)) s else s.
Definition clear_tab (s : t) : t :=
  set_tabs (Tabs.unset (Cursor.col (cursor s)) (tabs s)) s.
Definition clear_all_tabs (s : t) : t := set_tabs [] s.

(** ** Buffer switching *)

Definition switch_to_alternate_buffer (s : t) : option t :=
  match active_buffer_type s with
  | Primary =>
      let s := set_active_buffer_type Alternate s in
      let s := set_alternate_saved_ctx (saved_ctx s) (set_saved_ctx (alternate_saved_ctx s) s) in
      let s := set_other_buffer (buffer s) (set_buffer (other_buffer s) s) in
      let s := set_buffer (Buffer.new (cols s) (rows s) (Some 0) (Some (pen s))) s in
      dirty_extend 0 (rows s) s
  | Alternate => Some s
  end.

Definition switch_to_primary_buffer (s : t) : option t :=
  match active_buffer_type s with
  | Alternate =>
      let s := set_active_buffer_type Primary s in
      let s := set_alternate_saved_ctx (saved_ctx s) (set_saved_ctx (alternate_saved_ctx s) s) in
      let s := set_other_buffer (buffer s) (set_buffer (other_buffer s) s) in
      dirty_extend 0 (rows s) s
  | Primary => Some s
  end.

(** ** Resizing *)

Definition reflow (s : t) : option t :=
  let cursor := (Cursor.col (cursor s), Cursor.row (cursor s)) in
  '(b, (col, row)) ←
    (if negb (reflow_cursor_line s) && bool_decide (active_buffer_type s = Primary)
     then Buffer.resize_preserving_cursor (buffer s) (cols s) (rows s) cursor
     else Buffer.resize (buffer s) (cols s) (rows s) cursor);
  let s := set_buffer b s in
  let s := set_cursor_row row (set_cursor_col col s) in
  let s := set_dirty_lines (DirtyLines.resize (rows s) (dirty_lines s)) s in
  s ← dirty_extend 0 (rows s) s;
  let ctx := saved_ctx s in
  col ← (if decide (cols s ≤ SavedCtx.cursor_col ctx) then csub (cols s) 1
         else Some (SavedCtx.cursor_col ctx));
  row ← (if decide (rows s ≤ SavedCtx.cursor_row ctx) then csub (rows s) 1
         else Some (SavedCtx.cursor_row ctx));
  Some (set_saved_ctx (SavedCtx.Mk col row (SavedCtx.pen ctx) (SavedCtx.origin_mode ctx)
                         (SavedCtx.auto_wrap_mode ctx)) s).

Definition resize (new_cols new_rows : nat) (s : t) : option (t * bool) :=
  let '(s, resized) :=
    match Nat.compare new_cols (cols s) with
    | Lt => (set_tabs (Tabs.contract new_cols (tabs s)) s, true)
    | Eq => (s, false)
    | Gt => (set_tabs (Tabs.expand (cols s) new_cols (tabs s)) s, true)
    end in
  '(s, resized) ←
    match Nat.compare new_rows (rows s) with
    | Eq => Some (s, resized)
    | Lt | Gt =>
        bottom_margin ← csub new_rows 1;
        Some (set_bottom_margin bottom_margin (set_top_margin 0 s), true)
    end;
  let s := set_rows new_rows (set_cols new_cols s) in
  s ← reflow s;
  Some (s, resized).

(** ** Resetting *)

Definition soft_reset (s : t) : option t :=
  last_row ← csub (rows s) 1;
  let s := set_cursor_visible true s in
  let s := set_top_margin 0 s in
  let s := set_bottom_margin last_row s in
  let s := set_insert_mode false s in
  let s := set_origin_mode false s in
  let s := set_pen Pen.default s in
  let s := set_charsets [Charset.Ascii; Charset.Ascii] s in
  let s := set_active_charset 0 s in
  Some (set_saved_ctx SavedCtx.default s).

Definition hard_reset (s : t) : option t :=
  last_row ← csub (rows s) 1;
  Some (Mk (cols s) (rows s)
    (Buffer.new (cols s) (rows s) (scrollback_limit s) None)
    (Buffer.new (cols s) (rows s) (Some 0) None)
    Primary (scrollback_limit s) Cursor.default Pen.default
    [Charset.Ascii; Charset.Ascii] 0 (Tabs.new (cols s))
    false false true false NormalKeys 0 last_row
    SavedCtx.default SavedCtx.default (DirtyLines.new (rows s))
    (xtwinops_enabled s) (reflow_cursor_line s)).

Definition primary_buffer (s : t) : Buffer.t :=
  if decide (active_buffer_type s = Primary) then buffer s else other_buffer s.
Definition alternate_buffer (s : t) : Buffer.t :=
  if decide (active_buffer_type s = Alternate) then buffer s else other_buffer s.

Definition view (s : t) : option (list Line.t) := Buffer.view (buffer s).
Definition text (s : t) : list (list char) := Buffer.text (primary_buffer s).
Definition cursor_keys_app_mode (s : t) : bool :=
  bool_decide (cursor_keys_mode s = ApplicationKeys).

Section execute.
Context `{UnicodeWidth}.

(** ** Printing *)

(** [self.buffer.print((col, row), ch, self.pen)] *)
Definition buffer_print (col row : nat) (ch : char) (p : Pen.t) (s : t) :
    option (t * option nat) :=
  '(b, width) ← Buffer.print (buffer s) col row ch p; Some (set_buffer b s, width).

Definition try_print (ch : char) (s : t) : option (t * PrintResult) :=
  if decide (cols s ≤ Cursor.col (cursor s)) then Some (s, NeedsRelocation) else
  s ← (if insert_mode s then
         b ← Buffer.shift_right (buffer s) (Cursor.col (cursor s)) (Cursor.row (cursor s))
               1 (pen s);
         Some (set_buffer b s)
       else Some s);
  '(s, width) ← buffer_print (Cursor.col (cursor s)) (Cursor.row (cursor s)) ch (pen s) s;
  Some (s, match width with Some width => Printed width | None => NeedsRelocation end).

Definition advance_cursor_after_print (width : nat) (s : t) : option t :=
  let s := set_cursor_col (Cursor.col (cursor s) + width) s in
  if bool_decide (Cursor.col (cursor s) = cols s) && negb (auto_wrap_mode s)
  then last_col ← csub (cols s) 1; Some (set_cursor_col last_col s)
  else Some s.

Definition wrap_and_print_at_line_start (ch : char) (s : t) : option t :=
  s ← (if decide (Cursor.row (cursor s) = bottom_margin s) then
         b ← Buffer.wrap (buffer s) (Cursor.row (cursor s));
         scroll_up_in_region 1 (set_buffer b s)
       else
         last_row ← csub (rows s) 1;
         if decide (Cursor.row (cursor s) < last_row) then
           b ← Buffer.wrap (buffer s) (Cursor.row (cursor s));
           Some (set_cursor_row (Cursor.row (cursor s) + 1) (set_buffer b s))
         else Some s);
  '(s, width) ← buffer_print 0 (Cursor.row (cursor s)) ch (pen s) s;
  Some (match width with Some width => set_cursor_col width s | None => set_cursor_col 0 s end).

Definition print_at_line_end (ch : char) (s : t) : option t :=
  let row := Cursor.row (cursor s) in
  s ← (if decide (0 < Cursor.col (cursor s)) then
         col ← csub (Cursor.col (cursor s)) 1;
         '(s, printed) ← buffer_print col row ch (pen s) s;
         if bool_decide (printed = None) && bool_decide (0 < col)
         then prev ← csub col 1; '(s, _) ← buffer_print prev row ch (pen s) s; Some s
         else Some s
       else Some s);
  last_col ← csub (cols s) 1;
  Some (set_cursor_col last_col s).

Definition print (ch : char) (s : t) : option t :=
  charset ← charsets s !! active_charset s;
  ch ← Charset.translate charset ch;
  '(s, result) ← try_print ch s;
  s ← match result with
      | Printed width => advance_cursor_after_print width s
      | NeedsRelocation =>
          if auto_wrap_mode s then wrap_and_print_at_line_start ch s
          else print_at_line_end ch s
      end;
  dirty_add (Cursor.row (cursor s)) s.

(** ** Control functions *)

Definition bs (s : t) : option t :=
  if decide (Cursor.col (cursor s) = cols s)
  then move_cursor_to_rel_col (-2) s else move_cursor_to_rel_col (-1) s.

Definition ht (s : t) : option t := move_cursor_to_next_tab 1 s.

Definition lf (s : t) : option t :=
  s ← move_cursor_down_with_scroll s;
  Some (if new_line_mode s then set_cursor_col 0 s else s).

Definition cr (s : t) : t := set_cursor_col 0 s.
Definition so (s : t) : t := set_active_charset 1 s.
Definition si (s : t) : t := set_active_charset 0 s.

Definition nel (s : t) : option t :=
  s ← move_cursor_down_with_scroll s; Some (set_cursor_col 0 s).

Definition hts (s : t) : t := set_tab s.

Definition ri (s : t) : option t :=
  if decide (Cursor.row (cursor s) = top_margin s) then scroll_down_in_region 1 s
  else if decide (0 < Cursor.row (cursor s)) then
    row ← csub (Cursor.row (cursor s)) 1; move_cursor_to_row row s
  else Some s.

Definition sc : t → option t := save_cursor.
Definition rc (s : t) : t := restore_cursor s.
Definition ris : t → option t := hard_reset.

Definition decaln (s : t) : option t :=
  for_each (seq 0 (rows s)) (λ row s,
    s ← for_each (seq 0 (cols s)) (λ col s,
          '(s, _) ← buffer_print col row 69%N Pen.default s; Some s) s;
    dirty_add row s) s.

Definition gzd4 (charset : Charset.t) (s : t) : option t :=
  cs ← update (charsets s) 0 charset; Some (set_charsets cs s).
Definition g1d4 (charset : Charset.t) (s : t) : option t :=
  cs ← update (charsets s) 1 charset; Some (set_charsets cs s).

Definition ich (n : u16) (s : t) : option t :=
  s ← (if decide (Cursor.col (cursor s) = cols s)
       then last_col ← csub (cols s) 1; Some (set_cursor_col last_col s) else Some s);
  room ← csub (cols s) (Cursor.col (cursor s));
  let n := as_usize n 1 `min` room in
  b ← Buffer.shift_right (buffer s) (Cursor.col (cursor s)) (Cursor.row (cursor s)) n (pen s);
  let s := set_buffer b s in
  s ← for_each (seq (Cursor.col (cursor s)) n) (λ col s,
        '(s, _) ← buffer_print col (Cursor.row (cursor s)) space (pen s) s; Some s) s;
  dirty_add (Cursor.row (cursor s)) s.

Definition cuu (n : u16) : t → option t := cursor_up (as_usize n 1).
Definition cud (n : u16) : t → option t := cursor_down (as_usize n 1).
Definition cuf (n : u16) : t → option t :=
  move_cursor_to_rel_col (Z.of_nat (as_usize n 1)).

Definition cub (n : u16) (s : t) : option t :=
  let rel_col := (- Z.of_nat (as_usize n 1))%Z in
  let rel_col := if decide (Cursor.col (cursor s) = cols s) then (rel_col - 1)%Z
                 else rel_col in
  move_cursor_to_rel_col rel_col s.

Definition cnl (n : u16) (s : t) : option t :=
  s ← cursor_down (as_usize n 1) s; Some (set_cursor_col 0 s).
Definition cpl (n : u16) (s : t) : option t :=
  s ← cursor_up (as_usize n 1) s; Some (set_cursor_col 0 s).

Definition cha (n : u16) (s : t) : option t :=
  col ← csub (as_usize n 1) 1; move_cursor_to_col col s.

Definition cup (row col : u16) (s : t) : option t :=
  col ← csub (as_usize col 1) 1;
  s ← move_cursor_to_col col s;
  row ← csub (as_usize row 1) 1;
  move_cursor_to_row row s.

Definition cht (n : u16) : t → option t := move_cursor_to_next_tab (as_usize n 1).
Definition cbt (n : u16) : t → option t := move_cursor_to_prev_tab (as_usize n 1).

(** [self.buffer.erase((self.cursor.col, self.cursor.row), mode, &self.pen)] *)
Definition buffer_erase (mode : EraseMode) (s : t) : option t :=
  b ← Buffer.erase (buffer s) (Cursor.col (cursor s)) (Cursor.row (cursor s)) mode (pen s);
  Some (set_buffer b s).

Definition ed (scope : EdScope.t) (s : t) : option t :=
  match scope with
  | EdScope.Below =>
      s ← buffer_erase FromCursorToEndOfView s;
      dirty_extend (Cursor.row (cursor s)) (rows s) s
  | EdScope.Above =>
      s ← buffer_erase FromStartOfViewToCursor s;
      dirty_extend 0 (Cursor.row (cursor s) + 1) s
  | EdScope.All =>
      s ← buffer_erase WholeView s;
      dirty_extend 0 (rows s) s
  | EdScope.SavedLines => Some s
  end.

Definition el (scope : ElScope.t) (s : t) : option t :=
  s ← buffer_erase (match scope with
                    | ElScope.ToRight => FromCursorToEndOfLine
                    | ElScope.ToLeft => FromStartOfLineToCursor
                    | ElScope.All => WholeLine
                    end) s;
  dirty_add (Cursor.row (cursor s)) s.

(** The rows that [il] and [dl] scroll. *)
Definition line_range_end (s : t) : nat :=
  if decide (Cursor.row (cursor s) ≤ bottom_margin s) then bottom_margin s + 1 else rows s.

Definition il (n : u16) (s : t) : option t :=
  let start := Cursor.row (cursor s) in
  let end_ := line_range_end s in
  b ← Buffer.scroll_down (buffer s) start end_ (as_usize n 1) (pen s);
  dirty_extend start end_ (set_buffer b s).

Definition dl (n : u16) (s : t) : option t :=
  let start := Cursor.row (cursor s) in
  let end_ := line_range_end s in
  b ← Buffer.scroll_up (buffer s) start end_ (as_usize n 1) (pen s);
  dirty_extend start end_ (set_buffer b s).

Definition dch (n : u16) (s : t) : option t :=
  s ← (if decide (cols s ≤ Cursor.col (cursor s))
       then last_col ← csub (cols s) 1; move_cursor_to_col last_col s else Some s);
  b ← Buffer.delete (buffer s) (Cursor.col (cursor s)) (Cursor.row (cursor s))
        (as_usize n 1) (pen s);
  dirty_add (Cursor.row (cursor s)) (set_buffer b s).

Definition su (n : u16) : t → option t := scroll_up_in_region (as_usize n 1).
Definition sd (n : u16) : t → option t := scroll_down_in_region (as_usize n 1).

Definition ctc (op : CtcOp.t) (s : t) : t :=
  match op with
  | CtcOp.SetStop => set_tab s
  | CtcOp.ClearCurrentColumn => clear_tab s
  | CtcOp.ClearAll => clear_all_tabs s
  end.

Definition ech (n : u16) (s : t) : option t :=
  s ← buffer_erase (NextChars (as_usize n 1)) s;
  dirty_add (Cursor.row (cursor s)) s.

(** [while col > 0 && self.buffer[(col, row)].occupancy() == WideTail] *)
Fixpoint rep_col (s : t) (row col : nat) : option nat :=
  match col with
  | 0 => Some 0
  | S prev =>
      cell ← Buffer.index_cell (buffer s) col row;
      if decide (Cell.occupancy cell = WideTail) then rep_col s row prev else Some col
  end.

Definition rep (n : u16) (s : t) : option t :=
  if decide (0 < Cursor.col (cursor s)) then
    let n := as_usize n 1 in
    let row := Cursor.row (cursor s) in
    col ← csub (Cursor.col (cursor s)) 1;
    col ← rep_col s row col;
    cell ← Buffer.index_cell (buffer s) col row;
    for_each (seq 0 n) (λ _, print (Cell.ch cell)) s
  else Some s.

Definition vpa (n : u16) (s : t) : option t :=
  row ← csub (as_usize n 1) 1; move_cursor_to_row row s.
Definition vpr (n : u16) : t → option t := cursor_down (as_usize n 1).

Definition tbc (scope : TbcScope.t) (s : t) : t :=
  match scope with
  | TbcScope.CurrentColumn => clear_tab s
  | TbcScope.All => clear_all_tabs s
  end.

Definition sm (modes : AnsiModes.t) (s : t) : option t :=
  modes ← SmallVec.as_slice modes;
  for_each modes (λ mode s,
    match mode with
    | AnsiMode.Insert => Some (set_insert_mode true s)
    | AnsiMode.NewLine => Some (set_new_line_mode true s)
    end) s.

Definition rm (modes : AnsiModes.t) (s : t) : option t :=
  modes ← SmallVec.as_slice modes;
  for_each modes (λ mode s,
    match mode with
    | AnsiMode.Insert => Some (set_insert_mode false s)
    | AnsiMode.NewLine => Some (set_new_line_mode false s)
    end) s.

Definition sgr_op (op : SgrOp.t) (p : Pen.t) : Pen.t :=
  match op with
  | SgrOp.Reset => Pen.default
  | SgrOp.SetBoldIntensity => Pen.set_intensity p Bold
  | SgrOp.SetFaintIntensity => Pen.set_intensity p Faint
  | SgrOp.SetItalic => Pen.set_italic p
  | SgrOp.SetUnderline => Pen.set_underline p
  | SgrOp.SetBlink => Pen.set_blink p
  | SgrOp.SetInverse => Pen.set_inverse p
  | SgrOp.SetStrikethrough => Pen.set_strikethrough p
  | SgrOp.ResetIntensity => Pen.set_intensity p Normal
  | SgrOp.ResetItalic => Pen.unset_italic p
  | SgrOp.ResetUnderline => Pen.unset_underline p
  | SgrOp.ResetBlink => Pen.unset_blink p
  | SgrOp.ResetInverse => Pen.unset_inverse p
  | SgrOp.ResetStrikethrough => Pen.unset_strikethrough p
  | SgrOp.SetForegroundColor color => Pen.set_foreground p (Some color)
  | SgrOp.ResetForegroundColor => Pen.set_foreground p None
  | SgrOp.SetBackgroundColor color => Pen.set_background p (Some color)
  | SgrOp.ResetBackgroundColor => Pen.set_background p None
  end.

Definition sgr (ops : SgrOps.t) (s : t) : option t :=
  ops ← SmallVec.as_slice ops;
  for_each ops (λ op s, Some (set_pen (sgr_op op (pen s)) s)) s.

Definition decstbm (top bottom : u16) (s : t) : option t :=
  top ← csub (as_usize top 1) 1;
  bottom ← csub (as_usize bottom (rows s)) 1;
  let s := if decide (top < bottom ∧ bottom < rows s)
           then set_bottom_margin bottom (set_top_margin top s) else s in
  move_cursor_home s.

Definition xtwinops (op : XtwinopsOp.t) (s : t) : option t :=
  if xtwinops_enabled s then
    let 'XtwinopsOp.Resize cols' rows' := op in
    '(s, _) ← resize (as_usize cols' (cols s)) (as_usize rows' (rows s)) s;
    Some s
  else Some s.

Definition decstr : t → option t := soft_reset.

Definition decset_mode (mode : DecMode.t) (s : t) : option t :=
  match mode with
  | DecMode.CursorKeys => Some (set_cursor_keys_mode ApplicationKeys s)
  | DecMode.Origin => move_cursor_home (set_origin_mode true s)
  | DecMode.AutoWrap => Some (set_auto_wrap_mode true s)
  | DecMode.TextCursorEnable => Some (set_cursor_visible true s)
  | DecMode.AltScreenBuffer => s ← switch_to_alternate_buffer s; reflow s
  | DecMode.SaveCursor => save_cursor s
  | DecMode.SaveCursorAltScreenBuffer =>
      s ← save_cursor s; s ← switch_to_alternate_buffer s; reflow s
  end.
Definition decset (modes : DecModes.t) (s : t) : option t :=
  modes ← SmallVec.as_slice modes; for_each modes decset_mode s.

Definition decrst_mode (mode : DecMode.t) (s : t) : option t :=
  match mode with
  | DecMode.CursorKeys => Some (set_cursor_keys_mode NormalKeys s)
  | DecMode.Origin => move_cursor_home (set_origin_mode false s)
  | DecMode.AutoWrap => Some (set_auto_wrap_mode false s)
  | DecMode.TextCursorEnable => Some (set_cursor_visible false s)
  | DecMode.AltScreenBuffer => s ← switch_to_primary_buffer s; reflow s
  | DecMode.SaveCursor => Some (restore_cursor s)
  | DecMode.SaveCursorAltScreenBuffer =>
      s ← switch_to_primary_buffer s; reflow (restore_cursor s)
  end.
Definition decrst (modes : DecModes.t) (s : t) : option t :=
  modes ← SmallVec.as_slice modes; for_each modes decrst_mode s.

Definition execute (f : Fun.t) (s : t) : option t :=
  match f with
  | Fun.Bs => bs s
  | Fun.Cbt n => cbt n s
  | Fun.Cha n => cha n s
  | Fun.Cht n => cht n s
  | Fun.Cnl n => cnl n s
  | Fun.Cpl n => cpl n s
  | Fun.Cr => Some (cr s)
  | Fun.Ctc op => Some (ctc op s)
  | Fun.Cub n => cub n s
  | Fun.Cud n => cud n s
  | Fun.Cuf n => cuf n s
  | Fun.Cup row col => cup row col s
  | Fun.Cuu n => cuu n s
  | Fun.Dch n => dch n s
  | Fun.Decaln => decaln s
  | Fun.Decrc => Some (rc s)
  | Fun.Decrst modes => decrst modes s
  | Fun.Decsc => sc s
  | Fun.Decset modes => decset modes s
  | Fun.Decstbm top bottom => decstbm top bottom s
  | Fun.Decstr => decstr s
  | Fun.Dl n => dl n s
  | Fun.Ech n => ech n s
  | Fun.Ed scope => ed scope s
  | Fun.El scope => el scope s
  | Fun.G1d4 charset => g1d4 charset s
  | Fun.Gzd4 charset => gzd4 charset s
  | Fun.Ht => ht s
  | Fun.Hts => Some (hts s)
  | Fun.Ich n => ich n s
  | Fun.Il n => il n s
  | Fun.Lf => lf s
  | Fun.Nel => nel s
  | Fun.Print ch => print ch s
  | Fun.Rep n => rep n s
  | Fun.Ri => ri s
  | Fun.Ris => ris s
  | Fun.Rm modes => rm modes s
  | Fun.Scorc => Some (rc s)
  | Fun.Scosc => sc s
  | Fun.Sd n => sd n s
  | Fun.Sgr ops => sgr ops s
  | Fun.Si => Some (si s)
  | Fun.Sm modes => sm modes s
  | Fun.So => Some (so s)
  | Fun.Su n => su n s
  | Fun.Tbc scope => Some (tbc scope s)
  | Fun.Vpa n => vpa n s
  | Fun.Vpr n => vpr n s
  | Fun.Xtwinops op => xtwinops op s
  end.
End execute.
End Terminal.
