(* ===== verification/TerminalInv.v ===== *)
(** The terminal invariant: no control function, from a well-formed terminal,
    panics or leaves the invariant (ctmux/avt/src/terminal.rs).

    [wf_term] is what a checkpoint of the terminal is validated against
    (ctmux/avt/src/terminal/state.rs), together with the structure of the rows. *)

From S2P Require Import Prelude.
From S2P Require Import Cells.
From S2P Require Import Lines.
From S2P Require Import Buffers.
From S2P Require Import Resizing.
From S2P Require Import Functions.
From S2P Require Import Tabs.
From S2P Require Import Terminal.

Import Terminal.

(** The resize policy of a terminal, chosen when it is built: whether the logical
    line of the cursor is reflowed ([Builder::reflow_cursor_line]). *)
Class ResizePolicy := reflows : bool.

(** What is known of the rows of the primary screen in the line-preserving policy.  [Tidy]:
    the last row is linked to none, and behind the alternate screen no unused row continues
    another, as it is while no resize changes the columns.  [Loose]: neither, which is what
    any resize keeps.  [Fit]: nor that, but behind the alternate screen it can still be shown
    again: it has the columns or at least the rows of the terminal, or its last row is linked
    to none. *)
Inductive UpkeepLevel := Tidy | Fit | Loose.
#[global] Instance UpkeepLevel_eq_dec : EqDecision UpkeepLevel.
Proof. solve_decision. Defined.
Class Upkeep := upkeep : UpkeepLevel.

Section inv.
Context `{UnicodeWidth} `{ResizePolicy} `{Upkeep}.
Implicit Types (s : Terminal.t) (b : Buffer.t) (p : Pen.t).

Definition wf_ctx (cols rows : nat) (c : SavedCtx.t) : Prop :=
  SavedCtx.cursor_col c < cols ∧ SavedCtx.cursor_row c < rows ∧ Pen.wf (SavedCtx.pen c).

(** Whether the last row of a screen is known to be linked to none *)
Definition strict_of (ty : BufferType) : bool :=
  bool_decide (upkeep = Tidy) || reflows || bool_decide (ty = Alternate).

(** The screen that is not shown *)
Definition aside (ty : BufferType) : BufferType := match ty with Primary => Alternate | Alternate => Primary end.

(** The primary buffer behind the alternate screen can be resized keeping its
    cursor line: see [sealed]. *)
Definition wf_policy s : Prop :=
  reflow_cursor_line s = false → active_buffer_type s = Alternate →
  Buffer.cols (other_buffer s) ≠ cols s →
  match upkeep with
  | Tidy => sealed (Buffer.lines (other_buffer s))
  | Fit => rows s ≤ Buffer.rows (other_buffer s) ∨ ends_unwrapped (Buffer.lines (other_buffer s))
  | Loose => True
  end.

(** The part of the invariant that holds between a change of size and the
    reflow that follows it. *)
Record wf_core s : Prop := {
  wc_cols : 2 ≤ cols s;
  wc_rows : 1 ≤ rows s;
  wc_buffer : wf_buffer (strict_of (active_buffer_type s)) (buffer s);
  wc_other : wf_buffer (strict_of (aside (active_buffer_type s))) (other_buffer s);
  wc_primary : Buffer.scrollback_limit (primary_buffer s) = scrollback_limit s;
  wc_alternate : Buffer.scrollback_limit (alternate_buffer s) = Some 0;
  wc_pen : Pen.wf (pen s);
  wc_saved_pen : Pen.wf (SavedCtx.pen (saved_ctx s));
  wc_charsets : length (charsets s) = 2 ∧ active_charset s < 2;
  wc_tabs : wf_tabs (cols s) (tabs s);
  wc_margins : top_margin s ≤ bottom_margin s < rows s;
  wc_alternate_saved :
    wf_ctx (Buffer.cols (other_buffer s)) (Buffer.rows (other_buffer s))
      (alternate_saved_ctx s);
  wc_xtwinops : xtwinops_enabled s = false;
  wc_policy : wf_policy s;
  wc_reflows : reflow_cursor_line s = reflows;
}.

Record wf_term s : Prop := {
  wt_core : wf_core s;
  wt_dims : Buffer.cols (buffer s) = cols s ∧ Buffer.rows (buffer s) = rows s;
  wt_cursor : Cursor.col (cursor s) ≤ cols s ∧ Cursor.row (cursor s) < rows s;
  wt_saved : wf_ctx (cols s) (rows s) (saved_ctx s);
  wt_dirty : length (dirty_lines s) = rows s;
}.
End inv.

(** Split the invariant of an updated terminal into the fields that changed. *)
Ltac wf_fields H :=
  let Hc := fresh in
  destruct H as [[] [? ?] [? ?] ? ?];
  split; [split|..]; simpl; try done.

Section setters.
Context `{UnicodeWidth} `{ResizePolicy} `{Upkeep}.
Implicit Types (s : Terminal.t) (b : Buffer.t) (p : Pen.t).

(** What an operation on the shown buffer returns *)
Definition kept_shown s b : Prop := kept (strict := strict_of (active_buffer_type s)) (buffer s) b.

Lemma wf_set_buffer s b :
  wf_term s → kept_shown s b → wf_term (set_buffer b s).
Proof.
  intros Hs [Hb (? & ? & Hl)]. wf_fields Hs; try congruence.
  - by unfold primary_buffer in *; simpl in *; case_decide; congruence.
  - by unfold alternate_buffer in *; simpl in *; case_decide; congruence.
  - split; congruence.
Qed.

Lemma wf_set_cursor_col s x : wf_term s → x ≤ cols s → wf_term (set_cursor_col x s).
Proof. intros Hs ?. by wf_fields Hs. Qed.

Lemma wf_set_cursor_row s x : wf_term s → x < rows s → wf_term (set_cursor_row x s).
Proof. intros Hs ?. by wf_fields Hs. Qed.

Lemma wf_set_cursor_visible s x : wf_term s → wf_term (set_cursor_visible x s).
Proof. intros Hs. by wf_fields Hs. Qed.

Lemma wf_set_pen s p : wf_term s → Pen.wf p → wf_term (set_pen p s).
Proof. intros Hs ?. by wf_fields Hs. Qed.

Lemma wf_set_charsets s cs : wf_term s → length cs = 2 → wf_term (set_charsets cs s).
Proof. intros Hs ?. wf_fields Hs. tauto. Qed.

Lemma wf_set_active_charset s n : wf_term s → n < 2 → wf_term (set_active_charset n s).
Proof. intros Hs ?. wf_fields Hs. tauto. Qed.

Lemma wf_set_tabs s ts : wf_term s → wf_tabs (cols s) ts → wf_term (set_tabs ts s).
Proof. intros Hs ?. by wf_fields Hs. Qed.

Lemma wf_set_insert_mode s x : wf_term s → wf_term (set_insert_mode x s).
Proof. intros Hs. by wf_fields Hs. Qed.
Lemma wf_set_origin_mode s x : wf_term s → wf_term (set_origin_mode x s).
Proof. intros Hs. by wf_fields Hs. Qed.
Lemma wf_set_auto_wrap_mode s x : wf_term s → wf_term (set_auto_wrap_mode x s).
Proof. intros Hs. by wf_fields Hs. Qed.
Lemma wf_set_new_line_mode s x : wf_term s → wf_term (set_new_line_mode x s).
Proof. intros Hs. by wf_fields Hs. Qed.
Lemma wf_set_cursor_keys_mode s x : wf_term s → wf_term (set_cursor_keys_mode x s).
Proof. intros Hs. by wf_fields Hs. Qed.

Lemma wf_set_margins s top bottom :
  wf_term s → top ≤ bottom < rows s →
  wf_term (set_bottom_margin bottom (set_top_margin top s)).
Proof. intros Hs ?. by wf_fields Hs. Qed.

Lemma wf_set_saved_ctx s c :
  wf_term s → wf_ctx (cols s) (rows s) c → wf_term (set_saved_ctx c s).
Proof. intros Hs Hc. wf_fields Hs. apply Hc. Qed.

Lemma wf_set_dirty_lines s d :
  wf_term s → length d = rows s → wf_term (set_dirty_lines d s).
Proof. intros Hs ?. by wf_fields Hs. Qed.
End setters.

Create HintDb term.
#[export] Hint Resolve wf_set_buffer wf_set_cursor_col wf_set_cursor_row
  wf_set_cursor_visible wf_set_pen wf_set_charsets wf_set_active_charset wf_set_tabs
  wf_set_insert_mode wf_set_origin_mode wf_set_auto_wrap_mode wf_set_new_line_mode
  wf_set_cursor_keys_mode wf_set_margins wf_set_saved_ctx wf_set_dirty_lines : term.

(** The numeric facts of the invariant, in the context. *)
Ltac term_facts H :=
  pose proof (wc_cols _ (wt_core _ H)); pose proof (wc_rows _ (wt_core _ H));
  pose proof (wc_margins _ (wt_core _ H)); pose proof (wt_dims _ H);
  pose proof (wt_cursor _ H); pose proof (wt_dirty _ H);
  pose proof (wc_buffer _ (wt_core _ H)); pose proof (wc_pen _ (wt_core _ H)).

Section moves.
Context `{UnicodeWidth} `{ResizePolicy} `{Upkeep}.
Implicit Types (s : Terminal.t) (b : Buffer.t) (p : Pen.t).

(** What a control function leaves: a well-formed terminal of the same size. *)
Definition stepped s s' : Prop := wf_term s' ∧ cols s' = cols s ∧ rows s' = rows s.

Lemma stepped_trans s1 s2 s3 : stepped s1 s2 → stepped s2 s3 → stepped s1 s3.
Proof. intros (? & ? & ?) (? & ? & ?). split_and!; [done|congruence..]. Qed.

Lemma stepped_bind s (m : option Terminal.t) (f : Terminal.t → option Terminal.t) :
  m ⇓ stepped s → (∀ s', stepped s s' → f s' ⇓ stepped s') → (m ≫= f) ⇓ stepped s.
Proof.
  intros Hm Hf. eapply Safe_bind; [exact Hm|]. intros s' Hs'.
  eapply Safe_mono; [by apply Hf|]. intros. by eapply stepped_trans.
Qed.

Lemma dirty_add_Safe s n : wf_term s → n < rows s → dirty_add n s ⇓ stepped s.
Proof.
  intros Hs Hn. term_facts Hs. unfold dirty_add, DirtyLines.add.
  rewrite update_Some by lia. simpl. split; [|done]. apply wf_set_dirty_lines; [done|].
  by rewrite length_insert.
Qed.

Lemma dirty_extend_len (d : list bool) st e :
  st ≤ e ≤ length d → DirtyLines.extend st e d ⇓ λ d', length d' = length d.
Proof.
  intros ?. apply fill_range_Safe; [done|]. intros a m b -> ? ?. len.
Qed.

Lemma dirty_extend_eq s st e :
  st ≤ e ≤ length (dirty_lines s) →
  dirty_extend st e s ⇓ λ s', ∃ d, s' = set_dirty_lines d s ∧ length d = length (dirty_lines s).
Proof.
  intros He. unfold dirty_extend. eapply Safe_bind; [by apply dirty_extend_len|].
  intros d Hd. simpl. eauto.
Qed.

Lemma dirty_extend_Safe s st e : wf_term s → st ≤ e ≤ rows s → dirty_extend st e s ⇓ stepped s.
Proof.
  intros Hs He. term_facts Hs. unfold dirty_extend.
  eapply Safe_bind; [apply dirty_extend_len; lia|]. intros d Hd. simpl. split; [|done].
  apply wf_set_dirty_lines; [done|]. congruence.
Qed.

(** ** Cursor *)

Lemma save_cursor_Safe s : wf_term s → save_cursor s ⇓ stepped s.
Proof.
  intros Hs. term_facts Hs. unfold save_cursor. rewrite csub_Some by lia. simpl.
  split; [|done]. apply wf_set_saved_ctx; [done|]. split_and!; simpl; [lia|lia|done].
Qed.

Lemma restore_cursor_wf s : wf_term s → stepped s (restore_cursor s).
Proof.
  intros Hs. pose proof (wt_saved _ Hs) as (? & ? & ?). split; [|done].
  apply wf_set_auto_wrap_mode, wf_set_origin_mode, wf_set_pen; [|done].
  apply wf_set_cursor_row; [|done]. apply wf_set_cursor_col; [done|lia].
Qed.

Lemma move_cursor_to_col_Safe s col :
  wf_term s → move_cursor_to_col col s ⇓ λ s', stepped s s' ∧ Cursor.col (cursor s') < cols s'.
Proof.
  intros Hs. term_facts Hs. unfold move_cursor_to_col. case_decide.
  - rewrite csub_Some by lia. simpl. split; [split; [|done]|lia]. apply wf_set_cursor_col; [done|lia].
  - simpl. split; [split; [|done]|lia]. apply wf_set_cursor_col; [done|lia].
Qed.

Lemma do_move_cursor_to_row_Safe s row :
  wf_term s → row < rows s → do_move_cursor_to_row row s ⇓ stepped s.
Proof.
  intros Hs Hrow. term_facts Hs. unfold do_move_cursor_to_row. rewrite csub_Some by lia. simpl.
  split; [|done]. apply wf_set_cursor_row; [|done]. apply wf_set_cursor_col; [done|lia].
Qed.

Lemma actual_bottom_margin_Safe s :
  wf_term s → actual_bottom_margin s ⇓ λ bottom, actual_top_margin s ≤ bottom < rows s.
Proof.
  intros Hs. term_facts Hs. unfold actual_bottom_margin, actual_top_margin.
  destruct (origin_mode s); simpl; [done|]. rewrite csub_Some by lia. simpl. lia.
Qed.

Lemma move_cursor_to_row_Safe s row : wf_term s → move_cursor_to_row row s ⇓ stepped s.
Proof.
  intros Hs. unfold move_cursor_to_row. wp actual_bottom_margin_Safe; [done|].
  intros bottom ?. apply do_move_cursor_to_row_Safe; [done|]. lia.
Qed.

Lemma move_cursor_to_rel_col_Safe s rel : wf_term s → move_cursor_to_rel_col rel s ⇓ stepped s.
Proof.
  intros Hs. term_facts Hs. unfold move_cursor_to_rel_col.
  repeat case_decide; rewrite ?csub_Some by lia; simpl; (split; [|done]);
    (apply wf_set_cursor_col; [done|lia]).
Qed.

Lemma move_cursor_home_Safe s : wf_term s → move_cursor_home s ⇓ stepped s.
Proof.
  intros Hs. term_facts Hs. unfold move_cursor_home.
  eapply Safe_mono; [apply do_move_cursor_to_row_Safe|].
  - apply wf_set_cursor_col; [done|lia].
  - unfold actual_top_margin. simpl. destruct (origin_mode s); lia.
  - done.
Qed.

Lemma move_cursor_to_next_tab_Safe s n :
  wf_term s → 1 ≤ n → move_cursor_to_next_tab n s ⇓ stepped s.
Proof.
  intros Hs Hn. term_facts Hs. unfold move_cursor_to_next_tab, Tabs.after.
  rewrite (csub_Some n) by lia. simpl. rewrite csub_Some by lia. simpl.
  eapply Safe_mono; [by apply move_cursor_to_col_Safe|]. by intros ? [? _].
Qed.

Lemma move_cursor_to_prev_tab_Safe s n :
  wf_term s → 1 ≤ n → move_cursor_to_prev_tab n s ⇓ stepped s.
Proof.
  intros Hs Hn. unfold move_cursor_to_prev_tab, Tabs.before.
  rewrite (csub_Some n) by lia. simpl.
  eapply Safe_mono; [by apply move_cursor_to_col_Safe|]. by intros ? [? _].
Qed.

(** ** Scrolling *)

Lemma scroll_up_in_region_gen s b n :
  wf_term s → wf_below (strict_of (active_buffer_type s)) (bottom_margin s + 1) b → same_dims (buffer s) b → 1 ≤ n →
  scroll_up_in_region n (set_buffer b s) ⇓ stepped s.
Proof.
  intros Hs Hb Hd Hn. term_facts Hs. destruct (id Hd) as (? & ? & _). unfold scroll_up_in_region.
  simpl. wp scroll_up_Safe; [done|lia|done|done|]. intros b' Hb'.
  eapply Safe_mono; [apply dirty_extend_Safe|].
  - apply (wf_set_buffer s); [done|]. by eapply kept_trans.
  - simpl. lia.
  - done.
Qed.

Lemma set_buffer_id s : set_buffer (buffer s) s = s.
Proof. by destruct s. Qed.

Lemma scroll_up_in_region_Safe s n :
  wf_term s → 1 ≤ n → scroll_up_in_region n s ⇓ stepped s.
Proof.
  intros Hs Hn. term_facts Hs. rewrite <- (set_buffer_id s) at 1.
  apply scroll_up_in_region_gen; [done|by apply wf_below_of|done|done].
Qed.

Lemma scroll_down_in_region_Safe s n :
  wf_term s → scroll_down_in_region n s ⇓ stepped s.
Proof.
  intros Hs. term_facts Hs. unfold scroll_down_in_region.
  wp scroll_down_Safe; [done|lia|done|]. intros b' Hb'.
  eapply Safe_mono; [apply dirty_extend_Safe|].
  - by apply wf_set_buffer.
  - simpl. lia.
  - done.
Qed.

Lemma move_cursor_down_with_scroll_Safe s :
  wf_term s → move_cursor_down_with_scroll s ⇓ stepped s.
Proof.
  intros Hs. term_facts Hs. unfold move_cursor_down_with_scroll.
  case_decide; [by apply scroll_up_in_region_Safe|]. rewrite csub_Some by lia. simpl.
  case_decide; [|by split]. apply do_move_cursor_to_row_Safe; [done|lia].
Qed.

Lemma cursor_down_Safe s n : wf_term s → cursor_down n s ⇓ stepped s.
Proof.
  intros Hs. term_facts Hs. unfold cursor_down.
  eapply (Safe_bind _ _ (λ y, y < rows s)).
  { case_decide; [rewrite csub_Some by lia|]; simpl; lia. }
  intros y Hy. by apply do_move_cursor_to_row_Safe.
Qed.

Lemma cursor_up_Safe s n : wf_term s → cursor_up n s ⇓ stepped s.
Proof.
  intros Hs. term_facts Hs. unfold cursor_up. apply do_move_cursor_to_row_Safe; [done|].
  case_decide; lia.
Qed.

(** ** Tab stops *)

Lemma set_tab_wf s : wf_term s → stepped s (set_tab s).
Proof.
  intros Hs. unfold set_tab. case_decide; [|by split]. split; [|done].
  apply wf_set_tabs; [done|]. apply wf_tabs_set; [apply (wt_core _ Hs)|lia].
Qed.

Lemma clear_tab_wf s : wf_term s → stepped s (clear_tab s).
Proof.
  intros Hs. split; [|done]. apply wf_set_tabs; [done|]. apply wf_tabs_unset, (wt_core _ Hs).
Qed.

Lemma clear_all_tabs_wf s : wf_term s → stepped s (clear_all_tabs s).
Proof. intros Hs. split; [|done]. apply wf_set_tabs; [done|]. apply wf_tabs_nil. Qed.
End moves.

Section printing.
Context `{UnicodeWidth} `{ResizePolicy} `{Upkeep}.
Implicit Types (s : Terminal.t) (b : Buffer.t) (p : Pen.t).

(** [stepped], with the cursor where it was. *)
Definition edited s s' : Prop := stepped s s' ∧ cursor s' = cursor s.

Lemma set_buffer_edited s b : wf_term s → kept_shown s b → edited s (set_buffer b s).
Proof. intros. split; [split; [by apply wf_set_buffer|done]|done]. Qed.

Lemma buffer_print_Safe s col row ch p :
  wf_term s → col < cols s → row < rows s → Pen.wf p →
  buffer_print col row ch p s ⇓ λ '(s', r), edited s s' ∧
    match r with
    | Some w => w = Line.as_usize (Line.char_display_width ch) ∧ col + w ≤ cols s
    | None => S col = cols s
    end.
Proof.
  intros Hs ? ? ?. term_facts Hs. unfold buffer_print.
  wp Buffer_print_Safe; [done|lia|lia|done|]. intros [b r] [Hb Hr]. simpl.
  split; [by apply set_buffer_edited|].
  destruct r as [w|]; [destruct Hr; split; [done|lia]|destruct Hr; lia].
Qed.

Lemma try_print_Safe s ch :
  wf_term s →
  try_print ch s ⇓ λ '(s', r), edited s s' ∧
    match r with
    | Printed w => Cursor.col (cursor s) + w ≤ cols s
    | NeedsRelocation => cols s ≤ S (Cursor.col (cursor s))
    end.
Proof.
  intros Hs. term_facts Hs. unfold try_print. case_decide; simpl; [split; [by split|lia]|].
  eapply (Safe_bind _ _ (edited s)).
  { destruct (insert_mode s); [|by split]. wp Buffer_shift_right_Safe; [done|lia|lia|done|].
    intros b Hb. by apply set_buffer_edited. }
  intros s1 [(Hs1 & Hc1 & Hr1) E1]. term_facts Hs1. rewrite E1 in *.
  wp buffer_print_Safe; [done|lia|lia|done|]. intros [s2 r] [[Hs2 E2] Hr]. simpl.
  split; [split; [by eapply stepped_trans|congruence]|].
  destruct r; [destruct Hr|]; lia.
Qed.

Lemma advance_cursor_after_print_Safe s w :
  wf_term s → Cursor.col (cursor s) + w ≤ cols s →
  advance_cursor_after_print w s ⇓ stepped s.
Proof.
  intros Hs Hw. term_facts Hs. unfold advance_cursor_after_print. simpl.
  destruct (_ && _); [rewrite csub_Some by lia|]; simpl; (split; [|done]).
  - apply wf_set_cursor_col; [|simpl; lia]. by apply wf_set_cursor_col.
  - by apply wf_set_cursor_col.
Qed.

Lemma as_usize_width ch : Line.as_usize (Line.char_display_width ch) ≤ 2.
Proof. by destruct (Line.char_display_width ch); simpl; lia. Qed.

Lemma wrap_and_print_Safe s ch :
  wf_term s → wrap_and_print_at_line_start ch s ⇓ stepped s.
Proof.
  intros Hs. term_facts Hs. unfold wrap_and_print_at_line_start.
  eapply stepped_bind.
  - case_decide as E.
    + wp wrap_Safe; [done|lia|]. intros b [Hb Hd].
      apply scroll_up_in_region_gen; [done|by rewrite <- E|done|done].
    + rewrite csub_Some by lia. simpl. case_decide; [|by split].
      wp wrap_Safe; [done|lia|]. intros b [Hb Hd]. destruct (id Hd) as (? & ? & _).
      split; [|done]. apply wf_set_cursor_row; [|simpl; lia].
      apply wf_set_buffer; [done|]. split; [|done]. eapply wf_below_wf; [done|lia].
  - intros s1 (Hs1 & Hc1 & Hr1). term_facts Hs1.
    wp buffer_print_Safe; [done|lia|lia|done|]. intros [s2 r] [[(Hs2 & Hc2 & Hr2) _] Hr]. simpl.
    pose proof (as_usize_width ch).
    destruct r as [w|]; [destruct Hr|]; (split; [|done]); (apply wf_set_cursor_col; [done|lia]).
Qed.

Lemma print_at_line_end_Safe s ch : wf_term s → print_at_line_end ch s ⇓ stepped s.
Proof.
  intros Hs. term_facts Hs. unfold print_at_line_end. eapply stepped_bind.
  - case_decide; [|by split]. rewrite csub_Some by lia. simpl.
    wp buffer_print_Safe; [done|lia|lia|done|].
    intros [s1 r] [[(Hs1 & Hc1 & Hr1) E1] _]. simpl. rewrite <- E1.
    destruct (bool_decide _ && _) eqn:E; [|by split].
    apply andb_true_iff in E as [_ ?%bool_decide_eq_true]. term_facts Hs1. rewrite E1 in *.
    rewrite csub_Some by lia. simpl. wp buffer_print_Safe; [done|lia|lia|done|].
    intros [s2 r2] [[Hs2 _] _]. simpl. by eapply stepped_trans.
  - intros s1 (Hs1 & Hc1 & Hr1). rewrite csub_Some by lia. simpl.
    split; [|done]. apply wf_set_cursor_col; [done|lia].
Qed.

Lemma print_Safe s ch : wf_term s → print ch s ⇓ stepped s.
Proof.
  intros Hs. term_facts Hs. pose proof (wc_charsets _ (wt_core _ Hs)) as [Hcs Hac]. unfold print.
  destruct (lookup_lt_is_Some_2 (charsets s) (active_charset s)) as [cs ->]; [lia|]. simpl.
  destruct (Charset_translate_total cs ch) as [ch' ->]. simpl.
  wp try_print_Safe; [done|]. intros [s1 r] [[Hs1 E1] Hr]. simpl.
  destruct (id Hs1) as (Hw1 & Hc1 & Hr1).
  eapply stepped_bind; [|intros s2 (Hs2 & ? & ?); term_facts Hs2; apply dirty_add_Safe; [done|lia]].
  eapply Safe_mono; [|intros ?; by apply stepped_trans].
  destruct r as [w|].
  - apply advance_cursor_after_print_Safe; [done|]. rewrite E1, Hc1. done.
  - destruct (auto_wrap_mode s1); [by apply wrap_and_print_Safe|by apply print_at_line_end_Safe].
Qed.

(** ** Loops *)

Lemma for_each_Safe {A} (l : list A) f (P : Terminal.t → Prop) s :
  P s → (∀ x s, x ∈ l → P s → f x s ⇓ P) → for_each l f s ⇓ P.
Proof.
  intros Hs Hf. revert s Hs. induction l as [|x l IH]; intros s Hs; simpl; [done|].
  eapply Safe_bind; [apply Hf; [by left|done]|]. intros s' Hs'. apply IH; [|done].
  intros. apply Hf; [by right|done].
Qed.

Lemma decaln_Safe s : wf_term s → decaln s ⇓ stepped s.
Proof.
  intros Hs. unfold decaln. apply for_each_Safe; [by split|].
  intros row s1 Hrow%elem_of_seq (Hs1 & Hc1 & Hr1).
  eapply (Safe_bind _ _ (stepped s)).
  - apply for_each_Safe; [by split|]. intros col s2 Hcol%elem_of_seq (Hs2 & Hc2 & Hr2).
    wp buffer_print_Safe; [done|lia|lia|done|]. intros [s3 r] [[Hs3 _] _]. simpl.
    eapply stepped_trans; [|exact Hs3]. by split.
  - intros s2 (Hs2 & Hc2 & Hr2). eapply Safe_mono; [apply dirty_add_Safe; [done|lia]|].
    intros. eapply stepped_trans; [|done]. by split.
Qed.

Lemma ich_Safe s n : wf_term s → ich n s ⇓ stepped s.
Proof.
  intros Hs. unfold ich.
  eapply (Safe_bind _ _ (λ s', stepped s s' ∧ Cursor.col (cursor s') < cols s')).
  { term_facts Hs. case_decide; [rewrite csub_Some by lia|]; simpl.
    - split; [split; [apply wf_set_cursor_col; [done|lia]|done]|lia].
    - split; [by split|lia]. }
  intros s1 [(Hs1 & Hc1 & Hr1) Hcol]. term_facts Hs1. rewrite csub_Some by lia.
  cbn [mbind option_bind]. remember (as_usize n 1 `min` _) as k eqn:Hk.
  wp Buffer_shift_right_Safe; [done|lia|lia|done|]. intros b Hb.
  pose proof (set_buffer_edited _ _ Hs1 Hb) as [(Hs2 & Hc2 & Hr2) E2].
  eapply (Safe_bind _ _ (λ s', stepped s s' ∧ cursor s' = cursor s1)).
  - apply for_each_Safe; [split; [split_and!; [done|congruence..]|done]|].
    intros col s3 Hin%elem_of_seq [(Hs3 & Hc3 & Hr3) E3]. simpl in Hin.
    pose proof (wc_pen _ (wt_core _ Hs3)). rewrite E3.
    wp buffer_print_Safe; [done|lia|lia|done|]. intros [s4 r] [[Hs4 E4] _]. simpl.
    split; [eapply stepped_trans; [|exact Hs4]; by split|congruence].
  - intros s3 [(Hs3 & Hc3 & Hr3) E3]. rewrite E3.
    eapply Safe_mono; [apply dirty_add_Safe; [done|lia]|].
    intros. eapply stepped_trans; [|done]. by split.
Qed.

Lemma rep_col_Safe s row col :
  wf_term s → row < rows s → col < cols s → rep_col s row col ⇓ λ c, c ≤ col.
Proof.
  intros Hs Hrow. term_facts Hs. induction col as [|prev IH]; intros Hcol; simpl; [done|].
  eapply Safe_bind; [eapply (index_cell_Safe (buffer s) (S prev) row); [done|lia|lia]|].
  intros cell _. case_decide; [|simpl; lia]. eapply Safe_mono; [apply IH; lia|]. simpl. lia.
Qed.

Lemma rep_Safe s n : wf_term s → rep n s ⇓ stepped s.
Proof.
  intros Hs. term_facts Hs. unfold rep. case_decide; [|by split].
  rewrite csub_Some by lia. cbn [mbind option_bind].
  eapply Safe_bind; [apply rep_col_Safe; [done|lia|lia]|]. intros col Hcol. simpl in Hcol.
  eapply Safe_bind; [eapply (index_cell_Safe (buffer s)); [done|lia|lia]|]. intros cell _.
  apply for_each_Safe; [by split|]. intros i s1 _ Hs1.
  eapply Safe_mono; [apply print_Safe, Hs1|]. intros. by eapply stepped_trans.
Qed.
End printing.

Section executing.
Context `{UnicodeWidth} `{ResizePolicy} `{Upkeep}.
Implicit Types (s : Terminal.t) (b : Buffer.t) (p : Pen.t).

Lemma buffer_erase_Safe s mode : wf_term s → buffer_erase mode s ⇓ edited s.
Proof.
  intros Hs. term_facts Hs. unfold buffer_erase.
  wp erase_Safe; [done|lia|lia|done|]. intros b Hb. by apply set_buffer_edited.
Qed.

Lemma ed_Safe s scope : wf_term s → ed scope s ⇓ stepped s.
Proof.
  intros Hs. destruct scope; simpl; [| | |by split];
    (wp buffer_erase_Safe; [done|]; intros s1 [Hs1 E]; destruct (id Hs1) as (Hw1 & ? & ?);
     term_facts Hw1; eapply Safe_mono; [apply dirty_extend_Safe; [done|lia]|];
     intros; by eapply stepped_trans).
Qed.

Lemma el_Safe s scope : wf_term s → el scope s ⇓ stepped s.
Proof.
  intros Hs. unfold el. eapply stepped_bind.
  - eapply Safe_mono; [by apply buffer_erase_Safe|]. by intros ? [? _].
  - intros s1 (Hs1 & ? & ?). term_facts Hs1. apply dirty_add_Safe; [done|lia].
Qed.

Lemma ech_Safe s n : wf_term s → ech n s ⇓ stepped s.
Proof.
  intros Hs. unfold ech. eapply stepped_bind.
  - eapply Safe_mono; [by apply buffer_erase_Safe|]. by intros ? [? _].
  - intros s1 (Hs1 & ? & ?). term_facts Hs1. apply dirty_add_Safe; [done|lia].
Qed.

Lemma as_usize_pos n d : 1 ≤ d → 1 ≤ as_usize n d.
Proof. unfold as_usize. case_decide; lia. Qed.

Lemma line_range_end_le s :
  wf_term s → Cursor.row (cursor s) < line_range_end s ≤ rows s.
Proof. intros Hs. term_facts Hs. unfold line_range_end. case_decide; lia. Qed.

Lemma il_Safe s n : wf_term s → il n s ⇓ stepped s.
Proof.
  intros Hs. term_facts Hs. pose proof (line_range_end_le _ Hs). unfold il.
  wp scroll_down_Safe; [done|lia|done|]. intros b Hb.
  eapply Safe_mono; [apply dirty_extend_Safe; [by apply wf_set_buffer|simpl; lia]|done].
Qed.

Lemma dl_Safe s n : wf_term s → dl n s ⇓ stepped s.
Proof.
  intros Hs. term_facts Hs. pose proof (line_range_end_le _ Hs). unfold dl.
  wp scroll_up_Safe; [by apply wf_below_of|lia|by apply as_usize_pos|done|]. intros b Hb.
  eapply Safe_mono; [apply dirty_extend_Safe; [by apply wf_set_buffer|simpl; lia]|done].
Qed.

Lemma dch_Safe s n : wf_term s → dch n s ⇓ stepped s.
Proof.
  intros Hs. unfold dch.
  eapply (Safe_bind _ _ (λ s', stepped s s' ∧ Cursor.col (cursor s') < cols s')).
  { term_facts Hs. case_decide; [rewrite csub_Some by lia|]; simpl.
    - by apply move_cursor_to_col_Safe.
    - split; [by split|lia]. }
  intros s1 [(Hs1 & Hc1 & Hr1) Hcol]. term_facts Hs1.
  wp Buffer_delete_Safe; [done|lia|lia|by apply as_usize_pos|done|]. intros b Hb.
  eapply Safe_mono; [apply dirty_add_Safe; [by apply wf_set_buffer|simpl; lia]|].
  intros s2 (? & ? & ?). simpl in *. split_and!; [done|congruence..].
Qed.

Lemma sgr_op_wf op p : Pen.wf p → Pen.wf (sgr_op op p).
Proof.
  destruct op; simpl; intros; auto using Pen_wf_default, Pen_wf_set_attr, Pen_wf_unset_attr;
    first [by apply Pen_wf_set_attr | by apply Pen_wf_unset_attr | done].
Qed.

Lemma as_slice_Safe {A} cap (m : SmallVec.t A) :
  SmallVec.wf cap m → SmallVec.as_slice m ⇓ λ _, True.
Proof. intros (l & _ & Hl)%SmallVec.wf_repr. by rewrite Hl. Qed.

Lemma sgr_Safe s ops : wf_term s → SgrOps.wf ops → sgr ops s ⇓ stepped s.
Proof.
  intros Hs Hops. unfold sgr. wp as_slice_Safe; [exact Hops|]. intros l _.
  apply for_each_Safe; [by split|]. intros op s1 _ (Hs1 & ? & ?). simpl.
  term_facts Hs1. split; [|done]. apply wf_set_pen; [done|]. by apply sgr_op_wf.
Qed.

Lemma sm_Safe s modes : wf_term s → SmallVec.wf MODES_INLINE_CAP modes → sm modes s ⇓ stepped s.
Proof.
  intros Hs Hm. unfold sm. wp as_slice_Safe; [exact Hm|]. intros l _.
  apply for_each_Safe; [by split|]. intros [] s1 _ (Hs1 & ? & ?); simpl; (split; [|done]);
    auto with term.
Qed.

Lemma rm_Safe s modes : wf_term s → SmallVec.wf MODES_INLINE_CAP modes → rm modes s ⇓ stepped s.
Proof.
  intros Hs Hm. unfold rm. wp as_slice_Safe; [exact Hm|]. intros l _.
  apply for_each_Safe; [by split|]. intros [] s1 _ (Hs1 & ? & ?); simpl; (split; [|done]);
    auto with term.
Qed.

Lemma decstbm_Safe s top bottom : wf_term s → decstbm top bottom s ⇓ stepped s.
Proof.
  intros Hs. term_facts Hs. unfold decstbm.
  pose proof (as_usize_pos top 1). pose proof (as_usize_pos bottom (rows s)).
  rewrite (csub_Some (as_usize top 1)) by lia. cbn [mbind option_bind].
  rewrite (csub_Some (as_usize bottom (rows s))) by lia. cbn [mbind option_bind].
  case_decide as Hd; [|by apply move_cursor_home_Safe].
  eapply Safe_mono; [apply move_cursor_home_Safe, wf_set_margins; [done|lia]|done].
Qed.

Lemma soft_reset_Safe s : wf_term s → soft_reset s ⇓ stepped s.
Proof.
  intros Hs. term_facts Hs. unfold soft_reset. rewrite csub_Some by lia. simpl.
  split; [|done]. apply wf_set_saved_ctx; [|split_and!; simpl; [lia|lia|done]].
  apply wf_set_active_charset; [|lia]. apply wf_set_charsets; [|done].
  apply wf_set_pen; [|done]. apply wf_set_origin_mode, wf_set_insert_mode.
  apply wf_set_margins; [by apply wf_set_cursor_visible|simpl; lia].
Qed.

(** ** A fresh screen *)

Lemma wf_buffer_new strict cols rows limit (pen : option Pen.t) :
  1 ≤ cols → 1 ≤ rows → Pen.wf (default Pen.default pen) →
  wf_buffer strict (Buffer.new cols rows limit pen).
Proof.
  intros. split; [split; simpl; [done|len|]|].
  - apply Forall_replicate. by apply wf_line_blank.
  - apply closed_all. by apply Forall_replicate.
Qed.

Lemma new_Safe cols' rows' limit :
  reflows = true → 2 ≤ cols' → 1 ≤ rows' →
  new cols' rows' limit ⇓ λ s, wf_term s ∧ size s = (cols', rows').
Proof.
  intros Hpol Hc Hr. unfold new. rewrite csub_Some by lia. simpl. split; [|done].
  split; simpl; [|done|lia|split_and!; simpl; [lia|lia|done]|apply length_replicate].
  split; simpl; try done; try lia; try (apply wf_buffer_new; [lia|done|done]).
  - apply wf_tabs_new.
  - split_and!; simpl; [lia|lia|done].
Qed.

Lemma hard_reset_Safe s : wf_term s → hard_reset s ⇓ stepped s.
Proof.
  intros Hs. term_facts Hs. unfold hard_reset. rewrite csub_Some by lia. simpl. split; [|done].
  split; simpl; [|done|lia|split_and!; simpl; [lia|lia|done]|apply length_replicate].
  split; simpl; try done; try lia; try (apply wf_buffer_new; [lia|done|done]).
  - apply wf_tabs_new.
  - split_and!; simpl; [lia|lia|done].
  - apply (wt_core _ Hs).
  - apply (wt_core _ Hs).
Qed.
End executing.

Section resizing.
Context `{UnicodeWidth} `{ResizePolicy} `{Upkeep}.
Implicit Types (s : Terminal.t) (b : Buffer.t) (p : Pen.t).

(** The resize policy finds what it needs in the active buffer. *)
Definition resizable s : Prop :=
  reflow_cursor_line s = true ∨ active_buffer_type s = Alternate ∨
  Buffer.cols (buffer s) = cols s ∨
  match upkeep with
  | Tidy => sealed (Buffer.lines (buffer s))
  | _ => Cursor.row (cursor s) < Buffer.rows (buffer s) ∨ ends_unwrapped (Buffer.lines (buffer s))
  end.

(** Between a change of size, or of screen, and the reflow that follows it. *)
Record pre_reflow s : Prop := {
  pr_core : wf_core s;
  pr_resizable : resizable s;
  pr_col : Buffer.cols (buffer s) = cols s → Cursor.col (cursor s) ≤ cols s;
  pr_row : Buffer.cols (buffer s) = cols s →
    Cursor.row (cursor s) < Buffer.rows (buffer s) ∨ Cursor.row (cursor s) < rows s;
}.

Lemma policy_resize_Safe s :
  pre_reflow s →
  (if negb (reflow_cursor_line s) && bool_decide (active_buffer_type s = Primary)
   then Buffer.resize_preserving_cursor (buffer s) (cols s) (rows s)
          (Cursor.col (cursor s), Cursor.row (cursor s))
   else Buffer.resize (buffer s) (cols s) (rows s)
          (Cursor.col (cursor s), Cursor.row (cursor s))) ⇓ λ r,
    resize_post (strict := strict_of (active_buffer_type s)) (cols s) (rows s) (buffer s) r ∧
    cursor_kept (buffer s) (cols s) (Cursor.col (cursor s), Cursor.row (cursor s)) r.2.
Proof.
  intros [Hc Hp Hcol Hrow]. pose proof (wc_buffer _ Hc) as Hb. pose proof (wc_reflows _ Hc) as Hr. destruct (_ && _) eqn:E.
  - apply andb_true_iff in E as [E1%negb_true_iff E2%bool_decide_eq_true].
    unfold strict_of in *. rewrite <- Hr, E1, E2 in *. simpl in *. rewrite !orb_false_r in *.
    unfold resizable in Hp. rewrite E2 in Hp. destruct upkeep; simpl in *.
    + apply resize_preserving_cursor_Safe; try apply Hc; [done|by intros ?%eq_sym%Hrow|].
      intros Hne. destruct Hp as [|[|[|]]]; [congruence..|done].
    + apply resize_preserving_cursor_loose; try apply Hc; [done|by intros ?%eq_sym%Hrow|].
      intros Hne. destruct Hp as [|[|[|]]]; [congruence..|done].
    + apply resize_preserving_cursor_loose; try apply Hc; [done|by intros ?%eq_sym%Hrow|].
      intros Hne. destruct Hp as [|[|[|]]]; [congruence..|done].
  - assert (strict_of (active_buffer_type s) = true) as Est.
    { unfold strict_of. rewrite <- Hr. apply andb_false_iff in E as [->%negb_false_iff|E%bool_decide_eq_false]; [by rewrite orb_true_r|].
      destruct (active_buffer_type s); [done|]. by rewrite orb_true_r. }
    rewrite Est in *. apply resize_Safe; try apply Hc; [done|by intros ?%eq_sym%Hrow|]. intros _. by apply Hb.
Qed.

Lemma clip_Safe (n limit : nat) :
  1 ≤ limit → (if decide (limit ≤ n) then csub limit 1 else Some n) ⇓ λ m, m < limit.
Proof. intros. case_decide; [rewrite csub_Some by lia|]; simpl; lia. Qed.

Lemma reflow_terminal_Safe s : pre_reflow s → reflow s ⇓ stepped s.
Proof.
  intros Hs. destruct (id Hs) as [Hc _ Hcol _]. unfold reflow.
  pose proof (wc_cols _ Hc). pose proof (wc_rows _ Hc).
  eapply Safe_bind; [by apply policy_resize_Safe|].
  intros [b [col row]] ((Hb & Hbc & Hbr & Hbl & Hrow) & Hk). simpl in Hk, Hrow.
  eapply Safe_bind; [apply dirty_extend_eq|].
  { simpl. unfold DirtyLines.resize. rewrite length_resize_vec. lia. }
  intros s1 (d & -> & Hd). cbn [dirty_lines set_dirty_lines rows] in Hd.
  unfold DirtyLines.resize in Hd. rewrite length_resize_vec in Hd.
  eapply Safe_bind; [apply clip_Safe; simpl; lia|]. intros scol Hscol.
  eapply Safe_bind; [apply clip_Safe; simpl; lia|]. intros srow Hsrow. simpl.
  split; [|done]. destruct Hc as [].
  split; [split|..]; simpl; try done.
  - unfold primary_buffer in *; simpl in *; case_decide; congruence.
  - unfold alternate_buffer in *; simpl in *; case_decide; congruence.
  - split; [|done]. destruct Hk as [|[E Ek]]; simpl in *; [lia|]. rewrite Ek. by apply Hcol.
Qed.

(** ** Switching screens *)

Lemma switch_to_alternate_Safe s :
  wf_term s → switch_to_alternate_buffer s ⇓ λ s', pre_reflow s' ∧ cols s' = cols s ∧ rows s' = rows s.
Proof.
  intros Hs. term_facts Hs. unfold switch_to_alternate_buffer. destruct Hs as [Hc [Hd1 Hd2] ? Hsv ?].
  destruct (active_buffer_type s) eqn:Ha.
  2: { split; [|done]. split; [done|right; by left|lia|lia]. }
  destruct Hc as [].
  unfold primary_buffer, alternate_buffer in *. rewrite Ha in *. simpl in *.
  eapply Safe_mono; [apply dirty_extend_eq; simpl; lia|]. intros s1 (d & -> & Hd). simpl in *.
  split; [|done]. split; simpl.
  - split; simpl; try done.
    + apply wf_buffer_new; [lia|lia|done].
    + by destruct wc_alternate_saved0 as (? & ? & ?).
    + by rewrite Hd1, Hd2.
    + intros _ _ Hne. by destruct Hne.
  - by right; left.
  - intros. tauto.
  - intros. right. tauto.
Qed.

Lemma switch_to_primary_Safe s : upkeep ≠ Loose →
  wf_term s → switch_to_primary_buffer s ⇓ λ s', pre_reflow s' ∧
    cols s' = cols s ∧ rows s' = rows s ∧
    wf_ctx (Buffer.cols (buffer s')) (Buffer.rows (buffer s')) (saved_ctx s').
Proof.
  intros Hl Hs. term_facts Hs. unfold switch_to_primary_buffer. destruct Hs as [Hc [Hd1 Hd2] ? Hsv ?].
  destruct (active_buffer_type s) eqn:Ha.
  { split; [|by rewrite Hd1, Hd2]. split; [done|by right; right; left|lia|lia]. }
  destruct Hc as [].
  unfold primary_buffer, alternate_buffer in *. rewrite Ha in *. simpl in *.
  eapply Safe_mono; [apply dirty_extend_eq; simpl; lia|]. intros s1 (d & -> & Hd). simpl in *.
  split; [|done]. split; simpl.
  - split; simpl; try done.
    + by destruct wc_alternate_saved0 as (? & ? & ?).
    + by rewrite Hd1, Hd2.
  - destruct (reflow_cursor_line s) eqn:Hr; [by left|]. right. right.
    destruct (decide (Buffer.cols (other_buffer s) = cols s)) as [|Hne]; [by left|right].
    specialize (wc_policy0 Hr Ha Hne). destruct upkeep; [done| |done].
    destruct wc_policy0; [left; simpl; lia|by right].
  - intros. tauto.
  - intros. right. tauto.
Qed.

Lemma restore_pre_reflow s :
  pre_reflow s → wf_ctx (Buffer.cols (buffer s)) (Buffer.rows (buffer s)) (saved_ctx s) →
  pre_reflow (restore_cursor s).
Proof.
  intros [Hc Hr _ _] (Hcol & Hrow & Hp). split; simpl; [| |lia|by left].
  - destruct Hc as []. by split.
  - destruct Hr as [Hr|[Hr|[Hr|Hr]]]; [by left|by right; left|by right; right; left|right; right; right].
    destruct upkeep; [done|by left..].
Qed.

(** ** Modes *)

Lemma stepped_reflow s s1 :
  pre_reflow s1 → cols s1 = cols s → rows s1 = rows s → reflow s1 ⇓ stepped s.
Proof.
  intros Hp Hc Hr. eapply Safe_mono; [by apply reflow_terminal_Safe|].
  intros s2 (? & ? & ?). split_and!; [done|congruence..].
Qed.

Lemma decset_mode_Safe s mode : wf_term s → decset_mode mode s ⇓ stepped s.
Proof.
  intros Hs. term_facts Hs.
  assert (Halt : ∀ s, wf_term s → (s' ← switch_to_alternate_buffer s; reflow s') ⇓ stepped s).
  { intros s1 Hs1. wp switch_to_alternate_Safe; [done|].
    intros s2 (? & ? & ?). by apply stepped_reflow. }
  destruct mode; simpl; [| | | |by apply Halt|by apply save_cursor_Safe|].
  - split; [by apply wf_set_cursor_keys_mode|done].
  - eapply Safe_mono; [apply move_cursor_home_Safe; by apply wf_set_origin_mode|done].
  - split; [by apply wf_set_auto_wrap_mode|done].
  - split; [by apply wf_set_cursor_visible|done].
  - eapply stepped_bind; [by apply save_cursor_Safe|]. intros s1 [Hs1 _]. by apply Halt.
Qed.

Lemma decrst_mode_Safe s mode : upkeep ≠ Loose → wf_term s → decrst_mode mode s ⇓ stepped s.
Proof.
  intros Hl Hs. term_facts Hs. destruct mode; simpl.
  - split; [by apply wf_set_cursor_keys_mode|done].
  - eapply Safe_mono; [apply move_cursor_home_Safe; by apply wf_set_origin_mode|done].
  - split; [by apply wf_set_auto_wrap_mode|done].
  - split; [by apply wf_set_cursor_visible|done].
  - wp switch_to_primary_Safe; [done|done|]. intros s1 (? & ? & ? & _). by apply stepped_reflow.
  - by apply restore_cursor_wf.
  - wp switch_to_primary_Safe; [done|done|]. intros s1 (? & ? & ? & ?).
    apply stepped_reflow; [by apply restore_pre_reflow|done..].
Qed.

Lemma modes_Safe s modes (f : DecMode.t → Terminal.t → option Terminal.t) :
  wf_term s → SmallVec.wf MODES_INLINE_CAP modes →
  (∀ mode s, wf_term s → f mode s ⇓ stepped s) →
  (ms ← SmallVec.as_slice modes; for_each ms f s) ⇓ stepped s.
Proof.
  intros Hs Hm Hf. wp as_slice_Safe; [exact Hm|]. intros l _.
  apply for_each_Safe; [by split|]. intros mode s1 _ Hs1.
  eapply Safe_mono; [apply Hf, Hs1|]. intros. by eapply stepped_trans.
Qed.

(** ** Resizing the terminal *)

(** What a resize in the line-preserving policy asks of the primary screen. *)
Definition resize_ok s (new_cols : nat) : Prop :=
  match upkeep with
  | Tidy => reflow_cursor_line s = true ∨ new_cols = cols s ∨ sealed (Buffer.lines (primary_buffer s))
  | Fit => reflow_cursor_line s = true
  | Loose => True
  end.

Lemma resized_tabs_wf s new_cols :
  wf_term s →
  wf_tabs new_cols
    match Nat.compare new_cols (cols s) with
    | Lt => Tabs.contract new_cols (tabs s)
    | Eq => tabs s
    | Gt => Tabs.expand (cols s) new_cols (tabs s)
    end.
Proof.
  intros Hs. pose proof (wc_tabs _ (wt_core _ Hs)).
  destruct (Nat.compare_spec new_cols (cols s)) as [->|?|?]; [done| |].
  - by eapply wf_tabs_contract.
  - apply wf_tabs_expand; [done|lia].
Qed.

Lemma resize_pre_reflow s new_cols new_rows ts top bottom :
  wf_term s → 2 ≤ new_cols → 1 ≤ new_rows → resize_ok s new_cols →
  wf_tabs new_cols ts → top ≤ bottom < new_rows →
  pre_reflow (set_rows new_rows (set_cols new_cols
    (set_bottom_margin bottom (set_top_margin top (set_tabs ts s))))).
Proof.
  intros Hs Hnc Hnr Hok Hts Hm. destruct Hs as [[] [Hd1 Hd2] [? ?] ? ?].
  unfold resize_ok, primary_buffer in Hok. split; simpl.
  - split; simpl; try done. intros Hr Ha Hne. simpl in *. destruct upkeep eqn:Eu; [|congruence|done].
    destruct Hok as [|[->|Hok]]; [congruence|by unfold wf_policy in wc_policy0; rewrite Eu in wc_policy0; apply wc_policy0|].
    rewrite decide_False in Hok by congruence. done.
  - unfold resizable. simpl. destruct upkeep eqn:Eu; [|by left|].
    + destruct Hok as [|[->|Hok]]; [by left|by right; right; left|].
      case_decide; [by do 3 right|]. right. left. by destruct (active_buffer_type s).
    + do 3 right. left. lia.
  - intros <-. lia.
  - intros _. left. lia.
Qed.

Lemma set_tabs_id s : set_tabs (tabs s) s = s.
Proof. by destruct s. Qed.

Lemma resize_terminal_Safe s new_cols new_rows :
  wf_term s → 2 ≤ new_cols → 1 ≤ new_rows → resize_ok s new_cols →
  resize new_cols new_rows s ⇓ λ '(s', resized),
    wf_term s' ∧ size s' = (new_cols, new_rows) ∧
    resized = negb (bool_decide ((new_cols, new_rows) = size s)).
Proof.
  intros Hs Hnc Hnr Hok. pose proof (resized_tabs_wf s new_cols Hs) as Hts.
  pose proof (wc_margins _ (wt_core _ Hs)).
  set (ts := match Nat.compare new_cols (cols s) with
             | Lt => Tabs.contract new_cols (tabs s)
             | Eq => tabs s
             | Gt => Tabs.expand (cols s) new_cols (tabs s)
             end) in Hts.
  unfold resize.
  assert (E : (match Nat.compare new_cols (cols s) with
    | Lt => (set_tabs (Tabs.contract new_cols (tabs s)) s, true)
    | Eq => (s, false)
    | Gt => (set_tabs (Tabs.expand (cols s) new_cols (tabs s)) s, true)
    end) = (set_tabs ts s, negb (bool_decide (new_cols = cols s)))).
  { unfold ts. destruct (Nat.compare_spec new_cols (cols s)).
    - by rewrite set_tabs_id, bool_decide_eq_true_2.
    - by rewrite bool_decide_eq_false_2 by lia.
    - by rewrite bool_decide_eq_false_2 by lia. }
  rewrite E. clear E. clearbody ts.
  eapply (Safe_bind _ _ (λ '(s', r), ∃ top bottom, top ≤ bottom < new_rows ∧
    s' = set_bottom_margin bottom (set_top_margin top (set_tabs ts s)) ∧
    r = negb (bool_decide ((new_cols, new_rows) = size s)))).
  { assert (Hr : ∀ c r : nat, negb (bool_decide ((c, r) = size s)) =
      negb (bool_decide (c = cols s)) || negb (bool_decide (r = rows s))).
    { intros c r. unfold size. repeat case_bool_decide; simpl; simplify_eq/=; done. }
    rewrite Hr. simpl.
    destruct (Nat.compare_spec new_rows (rows s)) as [->|?|?]; simpl.
    - exists (top_margin s), (bottom_margin s). split_and!; [lia..| |].
      + by destruct s.
      + by rewrite (bool_decide_eq_true_2 (rows s = _)), orb_false_r.
    - rewrite csub_Some by lia. simpl. exists 0, (new_rows - 1). split_and!; [lia|lia|done|].
      by rewrite (bool_decide_eq_false_2 (new_rows = _)), orb_true_r by lia.
    - rewrite csub_Some by lia. simpl. exists 0, (new_rows - 1). split_and!; [lia|lia|done|].
      by rewrite (bool_decide_eq_false_2 (new_rows = _)), orb_true_r by lia. }
  intros [s' r] (top & bottom & Hm & -> & ->).
  eapply Safe_bind; [apply reflow_terminal_Safe, resize_pre_reflow; done|].
  intros s2 (Hs2 & Hc2 & Hr2). simpl in *. split_and!; [done| |done].
  unfold size. by rewrite Hc2, Hr2.
Qed.

(** ** Every control function *)

Lemma execute_Safe s f : upkeep ≠ Loose → wf_term s → Fun.wf f → execute f s ⇓ stepped s.
Proof.
  intros Hl Hs Hf. pose proof Hs as Hs0. term_facts Hs0. pose proof as_usize_pos as Hpos.
  destruct f; simpl in *.
  - unfold bs. case_decide; by apply move_cursor_to_rel_col_Safe.
  - apply move_cursor_to_prev_tab_Safe; auto.
  - unfold cha. rewrite csub_Some by auto. simpl.
    eapply Safe_mono; [by apply move_cursor_to_col_Safe|]. by intros ? [? _].
  - apply move_cursor_to_next_tab_Safe; auto.
  - eapply stepped_bind; [by apply cursor_down_Safe|]. intros s1 (? & ? & ?).
    split; [apply wf_set_cursor_col; [done|lia]|done].
  - eapply stepped_bind; [by apply cursor_up_Safe|]. intros s1 (? & ? & ?).
    split; [apply wf_set_cursor_col; [done|lia]|done].
  - split; [apply wf_set_cursor_col; [done|lia]|done].
  - destruct op; [by apply set_tab_wf|by apply clear_tab_wf|by apply clear_all_tabs_wf].
  - by apply move_cursor_to_rel_col_Safe.
  - by apply cursor_down_Safe.
  - by apply move_cursor_to_rel_col_Safe.
  - unfold cup. rewrite (csub_Some (as_usize col 1)) by auto. simpl. eapply stepped_bind.
    { eapply Safe_mono; [by apply move_cursor_to_col_Safe|]. by intros ? [? _]. }
    intros s1 (? & ? & ?). rewrite csub_Some by auto. simpl. by apply move_cursor_to_row_Safe.
  - by apply cursor_up_Safe.
  - by apply dch_Safe.
  - by apply decaln_Safe.
  - by apply restore_cursor_wf.
  - apply modes_Safe; auto using decrst_mode_Safe.
  - by apply save_cursor_Safe.
  - apply modes_Safe; auto using decset_mode_Safe.
  - by apply decstbm_Safe.
  - by apply soft_reset_Safe.
  - by apply dl_Safe.
  - by apply ech_Safe.
  - by apply ed_Safe.
  - by apply el_Safe.
  - pose proof (wc_charsets _ (wt_core _ Hs)) as [Hcs _].
    unfold g1d4. rewrite update_Some by lia. simpl. split; [|done].
    apply wf_set_charsets; [done|]. by rewrite length_insert.
  - pose proof (wc_charsets _ (wt_core _ Hs)) as [Hcs _].
    unfold gzd4. rewrite update_Some by lia. simpl. split; [|done].
    apply wf_set_charsets; [done|]. by rewrite length_insert.
  - by apply move_cursor_to_next_tab_Safe.
  - by apply set_tab_wf.
  - by apply ich_Safe.
  - by apply il_Safe.
  - eapply stepped_bind; [by apply move_cursor_down_with_scroll_Safe|]. intros s1 (? & ? & ?).
    simpl. destruct (new_line_mode s1); [|by split].
    split; [apply wf_set_cursor_col; [done|lia]|done].
  - eapply stepped_bind; [by apply move_cursor_down_with_scroll_Safe|]. intros s1 (? & ? & ?).
    split; [apply wf_set_cursor_col; [done|lia]|done].
  - by apply print_Safe.
  - by apply rep_Safe.
  - unfold ri. case_decide; [by apply scroll_down_in_region_Safe|]. case_decide; [|by split].
    rewrite csub_Some by lia. simpl. by apply move_cursor_to_row_Safe.
  - by apply hard_reset_Safe.
  - by apply rm_Safe.
  - by apply restore_cursor_wf.
  - by apply save_cursor_Safe.
  - by apply scroll_down_in_region_Safe.
  - by apply sgr_Safe.
  - split; [apply wf_set_active_charset; [done|lia]|done].
  - by apply sm_Safe.
  - split; [apply wf_set_active_charset; [done|lia]|done].
  - apply scroll_up_in_region_Safe; auto.
  - destruct scope; [by apply clear_tab_wf|by apply clear_all_tabs_wf].
  - unfold vpa. rewrite csub_Some by auto. simpl. by apply move_cursor_to_row_Safe.
  - by apply cursor_down_Safe.
  - unfold xtwinops. rewrite (wc_xtwinops _ (wt_core _ Hs)). by split.
Qed.

Lemma gc_terminal_Safe s :
  wf_term s → gc s ⇓ λ '(s', gone), stepped s s' ∧
    (active_buffer_type s = Alternate → gone = []).
Proof.
  intros Hs. term_facts Hs. unfold gc. wp gc_Safe; [done|]. intros [b gone] [Hb _].
  simpl. split; [split; [by apply wf_set_buffer|done]|]. intros. by rewrite decide_True.
Qed.

Lemma changes_wf s : wf_term s → stepped s (changes s).1.
Proof.
  intros Hs. term_facts Hs. split; [|done]. apply wf_set_dirty_lines; [done|].
  unfold DirtyLines.clear. by rewrite length_replicate.
Qed.
End resizing.

(** ** Between the levels *)

Section levels.
Context `{UnicodeWidth} `{ResizePolicy}.
Implicit Types (s : Terminal.t).

(** Behind the alternate screen, the primary screen can be shown again: it has the columns
    of the terminal or at least its rows, or its last row is linked to none. *)
Definition returnable s : Prop :=
  active_buffer_type s = Alternate → Buffer.cols (other_buffer s) ≠ cols s →
  rows s ≤ Buffer.rows (other_buffer s) ∨ ends_unwrapped (Buffer.lines (other_buffer s)).

Lemma wf_buffer_weaken strict b : wf_buffer true b → wf_buffer strict b.
Proof. intros [Hs He]. split; [done|]. intros _. by apply He. Qed.

Lemma wf_term_fit s : wf_term (H1 := Tidy) s → wf_term (H1 := Fit) s.
Proof.
  intros [[] ? ? ? ?]. split; [split|..]; try done; [by apply wf_buffer_weaken..|].
  intros _ Ha _. right. destruct wc_other0 as [_ He]. by apply He.
Qed.

Lemma wf_term_loose s : wf_term (H1 := Fit) s → wf_term (H1 := Loose) s.
Proof. intros [[] ? ? ? ?]. by split; [split|..]. Qed.

Lemma wf_term_returnable s : wf_term (H1 := Loose) s → returnable s → wf_term (H1 := Fit) s.
Proof. intros [[] ? ? ? ?] Hr. split; [split|..]; try done. intros _. exact Hr. Qed.
End levels.

Lemma tidy_fit : Tidy ≠ Loose.
Proof. done. Qed.

(** Unless it is said otherwise, screens are tidy. *)
#[export] Instance tidy_upkeep : Upkeep := Tidy.
