(* ===== verification/Parser.v ===== *)
(** The control sequence parser (ctmux/avt/src/parser.rs): the state machine that
    turns characters into functions. *)

From S2P Require Import Prelude.
From S2P Require Import Cells.
From S2P Require Import Functions.

Definition PARAMS_LEN : nat := 32.
Definition MAX_PARAM_LEN : nat := 6.

Inductive State :=
  | Ground
  | Escape
  | EscapeIntermediate
  | CsiEntry
  | CsiParam
  | CsiIntermediate
  | CsiIgnore
  | DcsEntry
  | DcsParam
  | DcsIntermediate
  | DcsPassthrough
  | DcsIgnore
  | OscString
  | SosPmApcString.
#[global] Instance State_eq_dec : EqDecision State.
Proof. solve_decision. Defined.

(** [n as u8] and [n as u16] *)
Definition as_u8 (n : N) : N := (n `mod` 256)%N.
Definition as_u16 (n : N) : u16 := (n `mod` 65536)%N.

Module Param.
Record t := Mk { cur_part : nat; parts : list u16 }.
#[global] Instance eq_dec : EqDecision t.
Proof. solve_decision. Defined.

Definition new (number : u16) : t := Mk 0 [number; 0; 0; 0; 0; 0]%N.
Definition default : t := new 0.

Definition clear (p : t) : option t :=
  parts ← fill_range 0 (cur_part p + 1) 0%N (parts p); Some (Mk 0 parts).

Definition add_part (p : t) : t := Mk ((cur_part p + 1) `min` 5) (parts p).

Definition add_digit (input : N) (p : t) : option t :=
  parts ← modify (cur_part p) (λ number, Some (as_u16 (10 * number + input))%N) (parts p);
  Some (Mk (cur_part p) parts).

Definition first (p : t) : option u16 := parts p !! 0.

(** [&self.parts[..=self.cur_part]] *)
Definition used (p : t) : option (list u16) :=
  if decide (cur_part p + 1 ≤ length (parts p))
  then Some (take (cur_part p + 1) (parts p)) else None.
End Param.

(** * Parameters to modes and renditions *)

Definition ansi_mode (param : Param.t) : option (option AnsiMode.t) :=
  n ← Param.first param;
  Some (match n with
        | 4%N => Some AnsiMode.Insert
        | 20%N => Some AnsiMode.NewLine
        | _ => None
        end).

Definition dec_mode (param : Param.t) : option (option DecMode.t) :=
  n ← Param.first param;
  Some (match n with
        | 1%N => Some DecMode.CursorKeys
        | 6%N => Some DecMode.Origin
        | 7%N => Some DecMode.AutoWrap
        | 25%N => Some DecMode.TextCursorEnable
        | 47%N => Some DecMode.AltScreenBuffer
        | 1047%N => Some DecMode.AltScreenBuffer
        | 1048%N => Some DecMode.SaveCursor
        | 1049%N => Some DecMode.SaveCursorAltScreenBuffer
        | _ => None
        end).

(** [iter().filter_map(f)] *)
Definition filter_mapM {A B} (f : A → option (option B)) (l : list A) : option (list B) :=
  omap id <$> mapM f l.

Module SgrOpsDecoder.
(** The arms for a parameter of one part. *)
Definition single (n : u16) : option SgrOp.t :=
  match n with
  | 0%N => Some SgrOp.Reset
  | 1%N => Some SgrOp.SetBoldIntensity
  | 2%N => Some SgrOp.SetFaintIntensity
  | 3%N => Some SgrOp.SetItalic
  | 4%N => Some SgrOp.SetUnderline
  | 5%N => Some SgrOp.SetBlink
  | 7%N => Some SgrOp.SetInverse
  | 9%N => Some SgrOp.SetStrikethrough
  | 21%N | 22%N => Some SgrOp.ResetIntensity
  | 23%N => Some SgrOp.ResetItalic
  | 24%N => Some SgrOp.ResetUnderline
  | 25%N => Some SgrOp.ResetBlink
  | 27%N => Some SgrOp.ResetInverse
  | 29%N => Some SgrOp.ResetStrikethrough
  | 39%N => Some SgrOp.ResetForegroundColor
  | 49%N => Some SgrOp.ResetBackgroundColor
  | _ =>
      if decide (30 ≤ n ≤ 37)%N then
        Some (SgrOp.SetForegroundColor (Color.Indexed (as_u8 (n - 30))))
      else if decide (40 ≤ n ≤ 47)%N then
        Some (SgrOp.SetBackgroundColor (Color.Indexed (as_u8 (n - 40))))
      else if decide (90 ≤ n ≤ 97)%N then
        Some (SgrOp.SetForegroundColor (Color.Indexed (as_u8 (n - 90 + 8))))
      else if decide (100 ≤ n ≤ 107)%N then
        Some (SgrOp.SetBackgroundColor (Color.Indexed (as_u8 (n - 100 + 8))))
      else None
  end.

Definition rgb (r g b : u16) : Color.t := Color.RGB (as_u8 r) (as_u8 g) (as_u8 b).

(** The arms [[38]] and [[48]]: the colour is in the parameters that follow. *)
Definition extended (set : Color.t → SgrOp.t) (ps : list Param.t) :
    option (option SgrOp.t * list Param.t) :=
  match ps !! 1 with
  | None => Some (None, drop 1 ps)
  | Some p =>
      parts ← Param.used p;
      if decide (parts = [2%N]) then
        match ps !! 4 with
        | Some b =>
            r ← ps !! 2 ≫= Param.first;
            g ← ps !! 3 ≫= Param.first;
            b ← Param.first b;
            Some (Some (set (rgb r g b)), drop 5 ps)
        | None => Some (None, drop 2 ps)
        end
      else if decide (parts = [5%N]) then
        match ps !! 2 with
        | Some idx =>
            idx ← Param.first idx;
            Some (Some (set (Color.Indexed (as_u8 idx))), drop 3 ps)
        | None => Some (None, drop 2 ps)
        end
      else Some (None, drop 1 ps)
  end.

(** One pass of the loop of [next]: the rendition, if there is one, and the
    parameters left. *)
Definition step (param : Param.t) (ps : list Param.t) :
    option (option SgrOp.t * list Param.t) :=
  parts ← Param.used param;
  match parts with
  | [38%N; 2%N; r; g; b] | [38%N; 2%N; _; r; g; b] =>
      Some (Some (SgrOp.SetForegroundColor (rgb r g b)), drop 1 ps)
  | [38%N; 5%N; idx] =>
      Some (Some (SgrOp.SetForegroundColor (Color.Indexed (as_u8 idx))), drop 1 ps)
  | [38%N] => extended SgrOp.SetForegroundColor ps
  | [48%N; 2%N; r; g; b] | [48%N; 2%N; _; r; g; b] =>
      Some (Some (SgrOp.SetBackgroundColor (rgb r g b)), drop 1 ps)
  | [48%N; 5%N; idx] =>
      Some (Some (SgrOp.SetBackgroundColor (Color.Indexed (as_u8 idx))), drop 1 ps)
  | [48%N] => extended SgrOp.SetBackgroundColor ps
  | [n] => Some (single n, drop 1 ps)
  | _ => Some (None, drop 1 ps)
  end.

(** [while let Some(param) = self.ps.first()]; every pass drops a parameter. *)
Fixpoint next (fuel : nat) (ps : list Param.t) : option (option SgrOp.t * list Param.t) :=
  match fuel with
  | 0 => None
  | S fuel =>
      match ps with
      | [] => Some (None, [])
      | param :: _ =>
          '(op, ps) ← step param ps;
          match op with
          | Some op => Some (Some op, ps)
          | None => next fuel ps
          end
      end
  end.

(** The renditions the iterator yields. *)
Fixpoint decode_go (fuel : nat) (ps : list Param.t) : option (list SgrOp.t) :=
  match fuel with
  | 0 => None
  | S fuel' =>
      '(op, ps) ← next (S (length ps)) ps;
      match op with
      | None => Some []
      | Some op => ops ← decode_go fuel' ps; Some (op :: ops)
      end
  end.
Definition decode (ps : list Param.t) : option (list SgrOp.t) :=
  decode_go (S (length ps)) ps.
End SgrOpsDecoder.

Module Parser.
Record t := Mk {
  state : State;
  params : list Param.t;
  cur_param : nat;
  intermediate : option char;
}.
#[global] Instance eq_dec : EqDecision t.
Proof. solve_decision. Defined.

Definition new : t := Mk Ground (replicate PARAMS_LEN Param.default) 0 None.

Definition set_state (st : State) (p : t) : t :=
  Mk st (params p) (cur_param p) (intermediate p).

(** [&self.params[..=self.cur_param]] *)
Definition used_params (p : t) : option (list Param.t) :=
  if decide (cur_param p + 1 ≤ length (params p))
  then Some (take (cur_param p + 1) (params p)) else None.

Definition execute (input : char) : option Fun.t :=
  match input with
  | 0x08%N => Some Fun.Bs
  | 0x09%N => Some Fun.Ht
  | 0x0a%N => Some Fun.Lf
  | 0x0b%N => Some Fun.Lf
  | 0x0c%N => Some Fun.Lf
  | 0x0d%N => Some Fun.Cr
  | 0x0e%N => Some Fun.So
  | 0x0f%N => Some Fun.Si
  | 0x84%N => Some Fun.Lf
  | 0x85%N => Some Fun.Nel
  | 0x88%N => Some Fun.Hts
  | 0x8d%N => Some Fun.Ri
  | _ => None
  end.

Definition clear (p : t) : option t :=
  params ← on_range 0 (cur_param p + 1) (mapM Param.clear) (params p);
  Some (Mk (state p) params 0 None).

Definition collect (input : char) (p : t) : t :=
  Mk (state p) (params p) (cur_param p) (Some input).

Definition param (input : char) (p : t) : option t :=
  if decide (input = 0x3b)%N (* ';' *) then
    let cur := cur_param p + 1 in
    let cur := if decide (cur = PARAMS_LEN) then PARAMS_LEN - 1 else cur in
    Some (Mk (state p) (params p) cur (intermediate p))
  else if decide (input = 0x3a)%N (* ':' *) then
    ps ← modify (cur_param p) (λ q, Some (Param.add_part q)) (params p);
    Some (Mk (state p) ps (cur_param p) (intermediate p))
  else
    let byte := as_u8 input in
    digit ← (if decide (0x30 ≤ byte)%N then Some (byte - 0x30)%N else None);
    ps ← modify (cur_param p) (Param.add_digit digit) (params p);
    Some (Mk (state p) ps (cur_param p) (intermediate p)).

(** The dispatch functions return the parser and the function. *)
Definition esc_dispatch (input : char) (p : t) : option (t * option Fun.t) :=
  match intermediate p with
  | None =>
      if decide (0x40 ≤ input ≤ 0x5f)%N (* '@'..='_' *) then
        let byte := as_u8 input in
        _ ← (if decide (byte + 0x40 < 256)%N then Some () else None);
        Some (p, execute (byte + 0x40)%N)
      else match input with
           | 0x37%N (* '7' *) => Some (p, Some Fun.Decsc)
           | 0x38%N (* '8' *) => Some (p, Some Fun.Decrc)
           | 0x63%N (* 'c' *) => Some (set_state Ground p, Some Fun.Ris)
           | _ => Some (p, None)
           end
  | Some 0x23%N (* '#' *) =>
      Some (p, match input with 0x38%N => Some Fun.Decaln | _ => None end)
  | Some 0x28%N (* '(' *) =>
      Some (p, match input with
               | 0x30%N => Some (Fun.Gzd4 Charset.Drawing)
               | _ => Some (Fun.Gzd4 Charset.Ascii)
               end)
  | Some 0x29%N (* ')' *) =>
      Some (p, match input with
               | 0x30%N => Some (Fun.G1d4 Charset.Drawing)
               | _ => Some (Fun.G1d4 Charset.Ascii)
               end)
  | Some _ => Some (p, None)
  end.

(** [ps[i].as_u16()] *)
Definition arg (p : t) (i : nat) : option u16 := params p !! i ≫= Param.first.

Definition csi_plain (input : char) (p : t) : option (option Fun.t) :=
  let one f := n ← arg p 0; Some (Some (f n)) in
  let two f := n ← arg p 0; m ← arg p 1; Some (Some (f n m)) in
  match input with
  | 0x40%N (* '@' *) => one Fun.Ich
  | 0x41%N (* 'A' *) => one Fun.Cuu
  | 0x42%N (* 'B' *) => one Fun.Cud
  | 0x43%N (* 'C' *) => one Fun.Cuf
  | 0x44%N (* 'D' *) => one Fun.Cub
  | 0x45%N (* 'E' *) => one Fun.Cnl
  | 0x46%N (* 'F' *) => one Fun.Cpl
  | 0x47%N (* 'G' *) => one Fun.Cha
  | 0x48%N (* 'H' *) => two Fun.Cup
  | 0x49%N (* 'I' *) => one Fun.Cht
  | 0x4a%N (* 'J' *) =>
      n ← arg p 0;
      Some (match n with
            | 0%N => Some (Fun.Ed EdScope.Below)
            | 1%N => Some (Fun.Ed EdScope.Above)
            | 2%N => Some (Fun.Ed EdScope.All)
            | 3%N => Some (Fun.Ed EdScope.SavedLines)
            | _ => None
            end)
  | 0x4b%N (* 'K' *) =>
      n ← arg p 0;
      Some (match n with
            | 0%N => Some (Fun.El ElScope.ToRight)
            | 1%N => Some (Fun.El ElScope.ToLeft)
            | 2%N => Some (Fun.El ElScope.All)
            | _ => None
            end)
  | 0x4c%N (* 'L' *) => one Fun.Il
  | 0x4d%N (* 'M' *) => one Fun.Dl
  | 0x50%N (* 'P' *) => one Fun.Dch
  | 0x53%N (* 'S' *) => one Fun.Su
  | 0x54%N (* 'T' *) => one Fun.Sd
  | 0x57%N (* 'W' *) =>
      n ← arg p 0;
      Some (match n with
            | 0%N => Some (Fun.Ctc CtcOp.SetStop)
            | 2%N => Some (Fun.Ctc CtcOp.ClearCurrentColumn)
            | 5%N => Some (Fun.Ctc CtcOp.ClearAll)
            | _ => None
            end)
  | 0x58%N (* 'X' *) => one Fun.Ech
  | 0x5a%N (* 'Z' *) => one Fun.Cbt
  | 0x60%N (* '`' *) => one Fun.Cha
  | 0x61%N (* 'a' *) => one Fun.Cuf
  | 0x62%N (* 'b' *) => one Fun.Rep
  | 0x64%N (* 'd' *) => one Fun.Vpa
  | 0x65%N (* 'e' *) => one Fun.Vpr
  | 0x66%N (* 'f' *) => two Fun.Cup
  | 0x67%N (* 'g' *) =>
      n ← arg p 0;
      Some (match n with
            | 0%N => Some (Fun.Tbc TbcScope.CurrentColumn)
            | 3%N => Some (Fun.Tbc TbcScope.All)
            | _ => None
            end)
  | 0x68%N (* 'h' *) =>
      ps ← used_params p; modes ← filter_mapM ansi_mode ps;
      modes ← AnsiModes.collect modes; Some (Some (Fun.Sm modes))
  | 0x6c%N (* 'l' *) =>
      ps ← used_params p; modes ← filter_mapM ansi_mode ps;
      modes ← AnsiModes.collect modes; Some (Some (Fun.Rm modes))
  | 0x6d%N (* 'm' *) =>
      ps ← used_params p; ops ← SgrOpsDecoder.decode ps;
      ops ← SgrOps.collect ops; Some (Some (Fun.Sgr ops))
  | 0x72%N (* 'r' *) => two Fun.Decstbm
  | 0x73%N (* 's' *) => Some (Some Fun.Scosc)
  | 0x74%N (* 't' *) =>
      n ← arg p 0;
      if decide (n = 8)%N then
        rows ← arg p 1; cols ← arg p 2;
        Some (Some (Fun.Xtwinops (XtwinopsOp.Resize cols rows)))
      else Some None
  | 0x75%N (* 'u' *) => Some (Some Fun.Scorc)
  | _ => Some None
  end.

Definition csi_dispatch (input : char) (p : t) : option (option Fun.t) :=
  match intermediate p with
  | None => csi_plain input p
  | Some 0x21%N (* '!' *) =>
      Some (match input with 0x70%N (* 'p' *) => Some Fun.Decstr | _ => None end)
  | Some 0x3f%N (* '?' *) =>
      match input with
      | 0x68%N (* 'h' *) =>
          ps ← used_params p; modes ← filter_mapM dec_mode ps;
          modes ← DecModes.collect modes; Some (Some (Fun.Decset modes))
      | 0x6c%N (* 'l' *) =>
          ps ← used_params p; modes ← filter_mapM dec_mode ps;
          modes ← DecModes.collect modes; Some (Some (Fun.Decrst modes))
      | _ => Some None
      end
  | Some _ => Some None
  end.

(** ['\u{lo}'..='\u{hi}'] *)
Definition rng (lo hi c : N) : bool := (lo <=? c)%N && (c <=? hi)%N.
Definition one_of (c : char) (l : list N) : bool := existsb (N.eqb c) l.
Definition within (st : State) (l : list State) : bool :=
  existsb (λ st', bool_decide (st = st')) l.

(** C0 controls without CAN, SUB and ESC *)
Definition c0 (c : char) : bool := rng 0x00 0x17 c || one_of c [0x19%N] || rng 0x1c 0x1f c.

(** The arms of the last, long [match] arm that ignores its input. *)
Definition ignored (st : State) (c : char) : bool :=
  (within st [Escape; EscapeIntermediate; CsiEntry; CsiParam; CsiIntermediate; CsiIgnore;
          DcsEntry; DcsParam; DcsIntermediate; DcsPassthrough; DcsIgnore; SosPmApcString]
     && one_of c [0x7f%N])
  || (within st [CsiIgnore] && rng 0x20 0x3f c)
  || (within st [DcsEntry; DcsParam; DcsIntermediate] && c0 c)
  || (within st [DcsIgnore; SosPmApcString]
        && (rng 0x00 0x17 c || one_of c [0x19%N] || rng 0x1c 0x7e c))
  || (within st [OscString]
        && (rng 0x00 0x06 c || rng 0x08 0x17 c || one_of c [0x19%N] || rng 0x1c 0x1f c)).

(** The bodies of the arms of [feed]. *)
Inductive Arm :=
  | Print
  | PutParam
  | ClearTo (st : State)
  | CsiDispatch
  | ParamTo (st : State)
  | Execute
  | ExecuteGround
  | Nothing
  | CollectTo (st : State)
  | Collect
  | EscDispatch
  | GoTo (st : State)
  | Unreachable.
#[global] Instance Arm_eq_dec : EqDecision Arm.
Proof. solve_decision. Defined.

(** The arm the [match] of [feed] takes: its patterns, in their order. *)
Definition arm (st : State) (c : char) : Arm :=
  if within st [Ground] && rng 0x20 0x7f c then Print
  else if within st [CsiParam] && rng 0x30 0x3b c then PutParam
  else if one_of c [0x1b%N] then ClearTo Escape
  else if within st [Escape] && one_of c [0x5b%N] then ClearTo CsiEntry
  else if within st [CsiParam; CsiEntry; CsiIntermediate] && rng 0x40 0x7e c then CsiDispatch
  else if within st [CsiEntry] && (rng 0x30 0x39 c || one_of c [0x3b%N]) then ParamTo CsiParam
  else if within st [Ground] && c0 c then Execute
  else if within st [OscString] && rng 0x20 0x7f c then Nothing
  else if within st [Escape] && rng 0x20 0x2f c then CollectTo EscapeIntermediate
  else if (within st [EscapeIntermediate] && rng 0x30 0x7e c)
       || (within st [Escape] && (rng 0x30 0x4f c || rng 0x51 0x57 c
             || one_of c [0x59; 0x5a; 0x5c]%N || rng 0x60 0x7e c)) then EscDispatch
  else if within st [CsiEntry] && rng 0x3c 0x3f c then CollectTo CsiParam
  else if within st [DcsPassthrough]
            && (rng 0x00 0x17 c || one_of c [0x19%N] || rng 0x1c 0x7e c) then Nothing
  else if within st [CsiIgnore] && rng 0x40 0x7e c then GoTo Ground
  else if (within st [CsiParam] && rng 0x3c 0x3f c)
       || (within st [CsiIntermediate] && rng 0x30 0x3f c)
       || (within st [CsiEntry] && one_of c [0x3a%N]) then GoTo CsiIgnore
  else if within st [Escape] && one_of c [0x5d%N] then GoTo OscString
  else if within st [OscString] && one_of c [0x07%N] then GoTo Ground
  else if one_of c [0x18; 0x1a; 0x99; 0x9a]%N || rng 0x80 0x8f c || rng 0x91 0x97 c then
    ExecuteGround
  else if within st [Escape] && one_of c [0x50%N] then ClearTo DcsEntry
  else if within st [CsiParam; CsiEntry] && rng 0x20 0x2f c then CollectTo CsiIntermediate
  else if within st [DcsParam] && (rng 0x30 0x39 c || one_of c [0x3b%N]) then PutParam
  else if within st [DcsEntry] && rng 0x3c 0x3f c then CollectTo DcsParam
  else if within st [DcsEntry; DcsParam; DcsIntermediate] && rng 0x40 0x7e c then
    GoTo DcsPassthrough
  else if within st [DcsEntry; DcsParam] && rng 0x20 0x2f c then CollectTo DcsIntermediate
  else if within st [CsiIntermediate; EscapeIntermediate; DcsIntermediate]
            && rng 0x20 0x2f c then Collect
  else if (within st [DcsEntry] && one_of c [0x3a%N])
       || (within st [DcsIntermediate] && rng 0x30 0x3f c)
       || (within st [DcsParam] && one_of c [0x3a%N])
       || (within st [DcsParam] && rng 0x3c 0x3f c) then GoTo DcsIgnore
  else if within st [DcsEntry] && (rng 0x30 0x39 c || one_of c [0x3b%N]) then
    ParamTo DcsParam
  else if within st [Escape; EscapeIntermediate; CsiEntry; CsiParam; CsiIntermediate; CsiIgnore]
            && c0 c then Execute
  else if within st [Escape] && one_of c [0x58; 0x5e; 0x5f]%N then GoTo SosPmApcString
  else if one_of c [0x98; 0x9e; 0x9f]%N then GoTo SosPmApcString
  else if one_of c [0x9c%N] then GoTo Ground
  else if one_of c [0x9d%N] then GoTo OscString
  else if one_of c [0x90%N] then ClearTo DcsEntry
  else if one_of c [0x9b%N] then ClearTo CsiEntry
  else if ignored st c then Nothing
  else Unreachable.

(** [input2]: everything from U+00A0 up is treated as a letter. *)
Definition input2 (input : char) : char :=
  if (0xa0 <=? input)%N then 0x41%N else input.

Definition feed (input : char) (p : t) : option (t * option Fun.t) :=
  match arm (state p) (input2 input) with
  | Print => Some (p, Some (Fun.Print input))
  | PutParam => p ← param input p; Some (p, None)
  | ClearTo st => p ← clear (set_state st p); Some (p, None)
  | CsiDispatch =>
      let p := set_state Ground p in f ← csi_dispatch input p; Some (p, f)
  | ParamTo st => p ← param input (set_state st p); Some (p, None)
  | Execute => Some (p, execute input)
  | ExecuteGround => Some (set_state Ground p, execute input)
  | Nothing => Some (p, None)
  | CollectTo st => Some (collect input (set_state st p), None)
  | Collect => Some (collect input p, None)
  | EscDispatch => esc_dispatch input (set_state Ground p)
  | GoTo st => Some (set_state st p, None)
  | Unreachable => None
  end.

(** Feeding a string, collecting the functions. *)
Fixpoint feed_all (cs : list char) (p : t) : option (t * list Fun.t) :=
  match cs with
  | [] => Some (p, [])
  | c :: cs =>
      '(p, f) ← feed c p;
      '(p, fs) ← feed_all cs p;
      Some (p, option_list f ++ fs)
  end.
End Parser.
