(* ===== verification/ParserInv.v ===== *)
(** The parser invariant: feeding any character to a well-formed parser neither
    panics nor reaches the [unreachable!()] arm, and the functions it yields are
    well formed (ctmux/avt/src/parser.rs). *)

From S2P Require Import Prelude.
From S2P Require Import Cells.
From S2P Require Import Functions.
From S2P Require Import Parser.

Import Parser.

(** * The arms of [feed] *)

Definition all_states : list State :=
  [Ground; Escape; EscapeIntermediate; CsiEntry; CsiParam; CsiIntermediate; CsiIgnore;
   DcsEntry; DcsParam; DcsIntermediate; DcsPassthrough; DcsIgnore; OscString; SosPmApcString].

Lemma elem_of_all_states st : st ∈ all_states.
Proof. destruct st; unfold all_states; set_solver. Qed.

(** What the arms rely on: parameter bytes and intermediates are in range, and
    the last arm is never taken. *)
Definition is_intermediate (c : char) : bool := rng 0x20 0x2f c || rng 0x3c 0x3f c.

Definition arm_ok (c : char) (a : Arm) : bool :=
  match a with
  | PutParam | ParamTo _ => rng 0x30 0x3b c
  | CollectTo _ | Collect => is_intermediate c
  | Unreachable => false
  | _ => true
  end.

(** A decidable fact about the characters below [n], for every state. *)
Definition all_below (n : nat) (P : State → char → bool) : bool :=
  forallb (λ st, forallb (λ c, P st (N.of_nat c)) (seq 0 n)) all_states.

Lemma all_below_spec n P st c :
  all_below n P = true → (c < N.of_nat n)%N → P st c = true.
Proof.
  intros Hall Hc. unfold all_below in Hall. rewrite forallb_forall in Hall.
  specialize (Hall st). rewrite forallb_forall in Hall.
  rewrite <- (N2Nat.id c). apply Hall.
  - apply list_elem_of_In, elem_of_all_states.
  - apply in_seq. lia.
Qed.

Lemma input2_lt c : (input2 c < 160)%N.
Proof. unfold input2. destruct (N.leb_spec 160 c); lia. Qed.

Lemma arm_total st c : arm_ok (input2 c) (arm st (input2 c)) = true.
Proof.
  apply (all_below_spec 160 (λ st c, arm_ok c (arm st c)) st (input2 c)).
  - vm_compute. reflexivity.
  - apply input2_lt.
Qed.

Lemma rng_spec lo hi c : rng lo hi c = true ↔ (lo ≤ c ≤ hi)%N.
Proof. unfold rng. rewrite andb_true_iff, !N.leb_le. done. Qed.

(** A character that [input2] leaves in a range below 'A' is in that range. *)
Lemma input2_rng lo hi c : (hi < 0x41)%N → rng lo hi (input2 c) = true → rng lo hi c = true.
Proof.
  rewrite !rng_spec. unfold input2. destruct (N.leb_spec 160 c); lia.
Qed.

Lemma input2_intermediate c : is_intermediate (input2 c) = true → is_intermediate c = true.
Proof.
  unfold is_intermediate. rewrite !orb_true_iff.
  intros [?|?]; [left|right]; by eapply input2_rng.
Qed.

(** * Invariants *)

Definition wf_param (q : Param.t) : Prop :=
  length (Param.parts q) = MAX_PARAM_LEN ∧ Param.cur_part q < MAX_PARAM_LEN ∧
  Forall (λ n, n < 65536)%N (Param.parts q).

(** What [ParserState::validate] checks, and the lengths of the arrays. *)
Record wf_parser (p : Parser.t) : Prop := {
  wp_len : length (params p) = PARAMS_LEN;
  wp_params : Forall wf_param (params p);
  wp_cur : cur_param p < PARAMS_LEN;
  wp_intermediate : ∀ c, intermediate p = Some c → is_intermediate c = true;
}.

(** Past the current part and the current parameter everything is zero. *)
Definition tidy_param (q : Param.t) : Prop :=
  drop (Param.cur_part q + 1) (Param.parts q)
    = replicate (MAX_PARAM_LEN - (Param.cur_part q + 1)) 0%N.

Record tidy (p : Parser.t) : Prop := {
  td_params : Forall tidy_param (params p);
  td_rest : drop (cur_param p + 1) (params p)
    = replicate (PARAMS_LEN - (cur_param p + 1)) Param.default;
}.

Section params.
Implicit Types (q : Param.t) (p : Parser.t).

Lemma wf_param_default : wf_param Param.default.
Proof. split_and!; [done|unfold MAX_PARAM_LEN; simpl; lia|]. by repeat constructor. Qed.

Lemma tidy_param_default : tidy_param Param.default.
Proof. done. Qed.

Lemma wf_parser_new : wf_parser Parser.new.
Proof.
  split; [done| |unfold PARAMS_LEN; simpl; lia|done]. apply Forall_replicate, wf_param_default.
Qed.

Lemma tidy_new : tidy Parser.new.
Proof. split; [|done]. apply Forall_replicate, tidy_param_default. Qed.

Lemma param_clear_Safe q :
  wf_param q → Param.clear q ⇓ λ q', wf_param q' ∧ (tidy_param q → q' = Param.default).
Proof.
  intros (Hl & Hc & Hf). unfold Param.clear, MAX_PARAM_LEN in *.
  eapply Safe_bind; [eapply fill_range_Safe with (Q := λ parts, length parts = MAX_PARAM_LEN ∧
    Forall (λ n, n < 65536)%N parts ∧
    parts = replicate (Param.cur_part q + 1) 0%N ++ drop (Param.cur_part q + 1) (Param.parts q));
    [lia|]|].
  - intros a m b E Ha Hm. apply length_zero_iff_nil in Ha as ->. simpl in E.
    assert (drop (Param.cur_part q + 1) (Param.parts q) = b) as ->.
    { rewrite E. replace (Param.cur_part q + 1) with (length m) by lia. apply drop_app_length. }
    rewrite Nat.sub_0_r in *. rewrite E in Hl, Hf. apply Forall_app in Hf as [_ Hb].
    simpl. split_and!; [unfold MAX_PARAM_LEN; len| |done].
    apply Forall_app. split; [|done]. by apply Forall_replicate.
  - intros parts (Hlen & Hfp & E). simpl. split; [split_and!; simpl; [done|unfold MAX_PARAM_LEN; lia|done]|].
    intros Ht. unfold tidy_param in Ht. rewrite Ht in E.
    rewrite <- replicate_add in E. unfold MAX_PARAM_LEN in E.
    replace (Param.cur_part q + 1 + (6 - (Param.cur_part q + 1))) with 6 in E by lia.
    by rewrite E.
Qed.

Lemma param_add_part_wf q : wf_param q → wf_param (Param.add_part q).
Proof. intros (? & ? & ?). unfold MAX_PARAM_LEN in *. split_and!; simpl; [done|unfold MAX_PARAM_LEN; lia|done]. Qed.

Lemma param_add_part_tidy q : wf_param q → tidy_param q → tidy_param (Param.add_part q).
Proof.
  intros (Hl & Hc & _) Ht. unfold tidy_param, MAX_PARAM_LEN in *. simpl.
  destruct (decide (Param.cur_part q + 1 ≤ 5)).
  - rewrite Nat.min_l by lia. rewrite <- drop_drop, Ht, drop_replicate. f_equal. lia.
  - rewrite Nat.min_r by lia. simpl. by rewrite drop_ge by lia.
Qed.

Lemma as_u16_lt n : (as_u16 n < 65536)%N.
Proof. unfold as_u16. by apply N.mod_lt. Qed.

Lemma param_add_digit_Safe q d :
  wf_param q → Param.add_digit d q ⇓ λ q', wf_param q' ∧ (tidy_param q → tidy_param q').
Proof.
  intros (Hl & Hc & Hf). unfold Param.add_digit.
  eapply Safe_bind; [apply modify_Safe with (Q := λ parts, length parts = MAX_PARAM_LEN ∧
    Forall (λ n, n < 65536)%N parts ∧
    drop (Param.cur_part q + 1) parts = drop (Param.cur_part q + 1) (Param.parts q)); [lia|]|].
  - intros a x b E Ha. simpl. rewrite E in *. split_and!; [len| |].
    + rewrite Forall_app, Forall_cons in *. split_and!; try tauto. apply as_u16_lt.
    + rewrite <- Ha, !(cons_middle _ a b), !app_assoc.
      replace (length a + 1) with (length (a ++ [x])) at 2 by len.
      rewrite drop_app_length. rewrite Nat.add_1_r, <- (Nat.add_1_r (length a)).
      replace (length a + 1) with (length (a ++ [as_u16 (10 * x + d)])) by len.
      by rewrite drop_app_length.
  - intros parts (? & ? & Hd). simpl. split; [by split_and!|].
    unfold tidy_param. simpl. by rewrite Hd.
Qed.
End params.

Section feeding.
Implicit Types (q : Param.t) (p : Parser.t).

(** [good p p'] : the step keeps the invariants. *)
Definition good p p' : Prop := wf_parser p' ∧ (tidy p → tidy p').

Lemma set_state_good st p : wf_parser p → good p (set_state st p).
Proof. intros []. split; [by split|]. by intros []. Qed.

Lemma good_trans p1 p2 p3 : good p1 p2 → good p2 p3 → good p1 p3.
Proof. intros [] []. split; auto. Qed.

Lemma collect_good c p : wf_parser p → is_intermediate c = true → good p (collect c p).
Proof. intros [] ?. split; [split; simpl; try done; by intros ? [= <-]|]. by intros []. Qed.

Lemma mapM_clear_Safe qs :
  Forall wf_param qs →
  mapM Param.clear qs ⇓ λ qs', length qs' = length qs ∧ Forall wf_param qs' ∧
    (Forall tidy_param qs → qs' = replicate (length qs) Param.default).
Proof.
  induction 1 as [|q qs Hq Hqs IH]; simpl; [by split_and!|].
  eapply Safe_bind; [by apply param_clear_Safe|]. intros q' [Hq' Ht].
  eapply Safe_bind; [exact IH|]. intros qs' (Hl & Hf & Hts). simpl.
  split_and!; [by rewrite Hl|by constructor|]. intros [? ?]%Forall_cons.
  rewrite Ht, Hts by done. done.
Qed.

(** After [clear], every parameter of a tidy parser is zero. *)
Lemma parser_clear_Safe p :
  wf_parser p → clear p ⇓ λ p', good p p' ∧ state p' = state p ∧ cur_param p' = 0 ∧
    intermediate p' = None ∧ (tidy p → params p' = replicate PARAMS_LEN Param.default).
Proof.
  intros [Hl Hf Hc Hi]. unfold clear.
  eapply Safe_bind; [apply on_range_Safe with (Q := λ ps, length ps = PARAMS_LEN ∧
    Forall wf_param ps ∧ (tidy p → ps = replicate PARAMS_LEN Param.default)); [lia|]|].
  - intros a m b E Ha Hm. apply length_zero_iff_nil in Ha as ->. simpl in E.
    rewrite E in Hf, Hl. apply Forall_app in Hf as [Hfm Hfb].
    eapply Safe_mono; [by apply mapM_clear_Safe|]. intros m' (Hlm & Hfm' & Ht). simpl.
    split_and!; [len|by apply Forall_app|]. intros [Htd Hrest].
    rewrite E in Htd, Hrest. apply Forall_app in Htd as [? ?]. rewrite Ht by done.
    rewrite Nat.sub_0_r in Hm. rewrite <- Hm, drop_app_length in Hrest.
    rewrite Hrest, <- replicate_add. change (replicate (length m + (PARAMS_LEN - length m))
      Param.default = replicate PARAMS_LEN Param.default). f_equal. lia.
  - intros ps (Hlp & Hfp & Ht). simpl. split_and!; try done.
    split; [split; simpl; [done..|unfold PARAMS_LEN; lia|done]|].
    intros Htd. specialize (Ht Htd). subst ps. split; [|done].
    apply Forall_replicate, tidy_param_default.
Qed.

(** Editing the current parameter. *)
Lemma modify_param_Safe p f :
  wf_parser p →
  (∀ q, wf_param q → f q ⇓ λ q', wf_param q' ∧ (tidy_param q → tidy_param q')) →
  (ps ← modify (cur_param p) f (params p);
   Some (Mk (state p) ps (cur_param p) (intermediate p))) ⇓ good p.
Proof.
  intros [Hl Hf Hc Hi] Hq.
  eapply Safe_bind; [apply modify_Safe with (Q := λ ps, good p
    (Mk (state p) ps (cur_param p) (intermediate p))); [lia|]|by intros].
  intros a x b E Ha. rewrite E in Hf, Hl. apply Forall_app in Hf as [? [Hx ?]%Forall_cons].
  eapply Safe_mono; [by apply Hq|]. intros y [Hy Ht]. split.
  - split; simpl; [len| |done..]. apply Forall_app. split; [done|]. by constructor.
  - intros [Htd Hrest]. rewrite E in Htd, Hrest. rewrite Forall_app, Forall_cons in Htd.
    split; simpl.
    + rewrite Forall_app, Forall_cons. tauto.
    + rewrite <- Hrest, <- Ha, !(cons_middle _ a b), !app_assoc.
      replace (length a + 1) with (length (a ++ [y])) at 1 by len.
      replace (length a + 1) with (length (a ++ [x])) by len. by rewrite !drop_app_length.
Qed.

Lemma param_Safe c p : wf_parser p → rng 0x30 0x3b c = true → param c p ⇓ good p.
Proof.
  intros Hp Hc%rng_spec. unfold param. case_decide; [|case_decide].
  - simpl. destruct Hp as [Hl Hf Hcur Hi]. set (cur := if decide _ then _ else _).
    assert (cur = cur_param p + 1 ∨ cur = cur_param p) as Hcur' by
      (unfold cur, PARAMS_LEN in *; case_decide; lia).
    assert (cur < PARAMS_LEN) by (unfold cur, PARAMS_LEN in *; case_decide; lia).
    split; [by split|]. intros [Ht Hrest]. split; simpl; [done|].
    destruct Hcur' as [->| ->]; [|done].
    rewrite <- drop_drop, Hrest, drop_replicate. f_equal. lia.
  - apply modify_param_Safe; [done|]. intros q Hq. simpl.
    split; [by apply param_add_part_wf|]. intros. by apply param_add_part_tidy.
  - unfold as_u8. rewrite N.mod_small by lia. rewrite decide_True by lia. simpl.
    apply modify_param_Safe; [done|]. intros. by apply param_add_digit_Safe.
Qed.

(** ** Dispatch *)

Definition good_fun (f : option Fun.t) : Prop := ∀ g, f = Some g → Fun.wf g.

Lemma execute_fun c : good_fun (execute c).
Proof.
  unfold good_fun, execute. intros g Hg. repeat (case_match; simplify_eq/=; try done).
Qed.

Lemma esc_dispatch_Safe c p :
  wf_parser p → esc_dispatch c p ⇓ λ '(p', f), good p p' ∧ good_fun f.
Proof.
  intros Hp. assert (Hgood : good p p) by (split; [done|by intros]).
  unfold esc_dispatch. destruct (intermediate p) as [i|].
  - assert (Hall : ∀ f, good_fun f → Some (p, f) ⇓ λ '(p', f), good p p' ∧ good_fun f) by done.
    repeat (case_match; try (apply Hall; intros ? ?; simplify_eq/=; done)).
  - case_decide.
    + unfold as_u8. rewrite N.mod_small by lia. rewrite decide_True by lia. simpl.
      split; [done|apply execute_fun].
    + repeat (case_match; try (split; [done|intros ? ?; simplify_eq/=; done])).
      split; [by apply set_state_good|]. by intros ? [= <-].
Qed.

Lemma wf_param_first q : wf_param q → is_Some (Param.first q).
Proof. intros (Hl & _). apply lookup_lt_is_Some_2. unfold MAX_PARAM_LEN in *. lia. Qed.

Lemma arg_Safe p i : wf_parser p → i < PARAMS_LEN → arg p i ⇓ λ _, True.
Proof.
  intros [Hl Hf _ _] Hi. unfold arg.
  destruct (lookup_lt_is_Some_2 (params p) i) as [q Hq]; [lia|]. rewrite Hq. simpl.
  eapply Forall_lookup_1 in Hf; [|exact Hq]. by destruct (wf_param_first _ Hf) as [n ->].
Qed.

Lemma used_params_Safe p :
  wf_parser p → used_params p ⇓ λ ps, Forall wf_param ps ∧ ps = take (cur_param p + 1) (params p).
Proof.
  intros [Hl Hf Hc _]. unfold used_params. rewrite decide_True by lia. simpl.
  split; [by apply Forall_take|done].
Qed.

Lemma filter_mapM_Safe {A B} (f : A → option (option B)) (l : list A) :
  (∀ x, x ∈ l → is_Some (f x)) → filter_mapM f l ⇓ λ _, True.
Proof.
  intros Hf. unfold filter_mapM. eapply Safe_fmap; [|done].
  apply (mapM_Safe f (λ _ _, True)). intros x Hx. by destruct (Hf x Hx) as [y ->].
Qed.

Lemma modes_of_Safe {B} (f : Param.t → option (option B)) ps :
  Forall wf_param ps → (∀ q n, Param.first q = Some n → is_Some (f q)) →
  filter_mapM f ps ⇓ λ _, True.
Proof.
  intros Hps Hf. apply filter_mapM_Safe. intros q Hq. rewrite Forall_forall in Hps.
  destruct (wf_param_first q) as [n Hn]; [by apply Hps|]. by eapply Hf.
Qed.

Lemma collect_Safe {A} cap (fill : A) l : SmallVec.collect cap fill l ⇓ SmallVec.wf cap.
Proof. eapply Safe_mono; [apply SmallVec.collect_repr|]. by intros m [? _]. Qed.

(** ** Decoding renditions *)

Lemma param_used_Safe q :
  wf_param q → Param.used q ⇓ λ parts, parts = take (Param.cur_part q + 1) (Param.parts q).
Proof. intros (Hl & Hc & _). unfold Param.used. by rewrite decide_True by lia. Qed.

(** Every pass of the decoder drops at least the parameter it looks at. *)
Definition shorter (ps : list Param.t) : option SgrOp.t * list Param.t → Prop :=
  λ '(_, ps'), Forall wf_param ps' ∧ length ps' < length ps.

Lemma drop_shorter op n ps :
  Forall wf_param ps → ps ≠ [] → 1 ≤ n → shorter ps (op, drop n ps).
Proof.
  intros Hf Hne Hn. split; [by apply Forall_drop|]. rewrite length_drop.
  destruct ps; [done|simpl; lia].
Qed.

Lemma extended_Safe set ps :
  Forall wf_param ps → ps ≠ [] → SgrOpsDecoder.extended set ps ⇓ shorter ps.
Proof.
  intros Hf Hne.
  assert (Hfirst : ∀ i, is_Some (ps !! i) → is_Some (ps !! i ≫= Param.first)).
  { intros i [q Hq]. rewrite Hq. simpl. eapply Forall_lookup_1 in Hf; [|exact Hq].
    by apply wf_param_first. }
  unfold SgrOpsDecoder.extended.
  destruct (ps !! 1) as [q1|] eqn:E1; [|by apply drop_shorter].
  eapply Safe_bind; [apply param_used_Safe; by eapply Forall_lookup_1|]. intros parts _.
  repeat case_decide; [| |apply drop_shorter; auto with lia].
  - destruct (ps !! 4) as [b|] eqn:E4; [|apply drop_shorter; auto with lia].
    pose proof (lookup_lt_Some _ _ _ E4) as Hlen.
    destruct (Hfirst 2) as [r ->]; [apply lookup_lt_is_Some; lia|].
    destruct (Hfirst 3) as [g ->]; [apply lookup_lt_is_Some; lia|]. simpl.
    destruct (Hfirst 4) as [b' Hb]; [by rewrite E4|]. rewrite E4 in Hb. simpl in Hb.
    rewrite Hb. apply drop_shorter; auto with lia.
  - destruct (ps !! 2) as [b|] eqn:E2; [|apply drop_shorter; auto with lia].
    destruct (Hfirst 2) as [b' Hb]; [by rewrite E2|]. rewrite E2 in Hb. simpl in Hb.
    rewrite Hb. apply drop_shorter; auto with lia.
Qed.

Lemma sgr_step_Safe param ps :
  wf_param param → Forall wf_param ps → ps ≠ [] →
  SgrOpsDecoder.step param ps ⇓ shorter ps.
Proof.
  intros Hq Hf Hne. unfold SgrOpsDecoder.step.
  eapply Safe_bind; [by apply param_used_Safe|]. intros parts _.
  repeat (case_match; try (apply drop_shorter; by auto with lia);
          try by apply extended_Safe).
Qed.

Lemma next_Safe fuel ps :
  Forall wf_param ps → length ps < fuel →
  SgrOpsDecoder.next fuel ps ⇓ λ '(op, ps'), Forall wf_param ps' ∧
    (is_Some op → length ps' < length ps).
Proof.
  revert ps. induction fuel as [|fuel IH]; intros ps Hf Hfuel; [lia|]. simpl.
  destruct ps as [|q ps]; [split; [done|by intros []]|].
  eapply Safe_bind; [apply sgr_step_Safe; [by apply Forall_cons in Hf as []|done|done]|].
  intros [[op|] ps'] [Hf' Hlt]; [by split|].
  eapply Safe_mono; [apply IH; [done|simpl in *; lia]|].
  intros [op ps2] [? Hs]. split; [done|]. intros Hop. specialize (Hs Hop). lia.
Qed.

Lemma decode_Safe ps : Forall wf_param ps → SgrOpsDecoder.decode ps ⇓ λ _, True.
Proof.
  intros Hf. unfold SgrOpsDecoder.decode.
  assert (length ps < S (length ps)) as Hfuel by lia. revert Hfuel.
  generalize (S (length ps)) as fuel. intros fuel. revert ps Hf.
  induction fuel as [|fuel IH]; intros ps Hf Hfuel; [lia|].
  cbn [SgrOpsDecoder.decode_go].
  eapply Safe_bind; [apply next_Safe; [done|lia]|].
  intros [[op|] ps'] [Hf' Hlt]; [|done].
  eapply Safe_bind; [apply IH; [done|]|done].
  assert (is_Some (Some op)) as Hop by done. specialize (Hlt Hop). lia.
Qed.

(** ** Control sequences *)

Lemma good_fun_None : good_fun None.
Proof. by intros ?. Qed.

Lemma csi_modes_Safe p {B C} (f : Param.t → option (option B)) (collect : list B → option C)
    (g : C → Fun.t) (P : C → Prop) :
  wf_parser p → (∀ q n, Param.first q = Some n → is_Some (f q)) →
  (∀ l, collect l ⇓ P) → (∀ c, P c → Fun.wf (g c)) →
  (ps ← used_params p; modes ← filter_mapM f ps; modes ← collect modes;
   Some (Some (g modes))) ⇓ good_fun.
Proof.
  intros Hp Hf Hc Hg. eapply Safe_bind; [by apply used_params_Safe|]. intros ps [Hps _].
  eapply Safe_bind; [by apply modes_of_Safe|]. intros modes _.
  eapply Safe_bind; [apply Hc|]. intros c Hc'. by intros ? [= <-]; apply Hg.
Qed.

Lemma ansi_mode_Some q n : Param.first q = Some n → is_Some (ansi_mode q).
Proof. intros Hn. unfold ansi_mode. rewrite Hn. simpl. eauto. Qed.
Lemma dec_mode_Some q n : Param.first q = Some n → is_Some (dec_mode q).
Proof. intros Hn. unfold dec_mode. rewrite Hn. simpl. eauto. Qed.

Lemma csi_plain_Safe c p : wf_parser p → csi_plain c p ⇓ good_fun.
Proof.
  intros Hp.
  assert (Hone : ∀ f : N → option Fun.t, (∀ n, good_fun (f n)) →
    (n ← arg p 0; Some (f n)) ⇓ good_fun).
  { intros f Hf. eapply Safe_bind; [apply (arg_Safe p 0 Hp); unfold PARAMS_LEN; lia|].
    intros n _. apply Hf. }
  assert (Htwo : ∀ f : N → N → option Fun.t, (∀ n m, good_fun (f n m)) →
    (n ← arg p 0; m ← arg p 1; Some (f n m)) ⇓ good_fun).
  { intros f Hf. eapply Safe_bind; [apply (arg_Safe p 0 Hp); unfold PARAMS_LEN; lia|]. intros n _.
    eapply Safe_bind; [apply (arg_Safe p 1 Hp); unfold PARAMS_LEN; lia|]. intros m _. apply Hf. }
  assert (Hsgr : (ps ← used_params p; ops ← SgrOpsDecoder.decode ps;
    ops ← SgrOps.collect ops; Some (Some (Fun.Sgr ops))) ⇓ good_fun).
  { eapply Safe_bind; [by apply used_params_Safe|]. intros ps [Hps _].
    eapply Safe_bind; [by apply decode_Safe|]. intros ops _.
    eapply Safe_bind; [apply collect_Safe|]. intros m Hm. by intros ? [= <-]. }
  assert (Hxt : (n ← arg p 0;
      if decide (n = 8)%N then
        rows ← arg p 1; cols ← arg p 2;
        Some (Some (Fun.Xtwinops (XtwinopsOp.Resize cols rows)))
      else Some None) ⇓ good_fun).
  { eapply Safe_bind; [apply (arg_Safe p 0 Hp); unfold PARAMS_LEN; lia|]. intros n _.
    case_decide; [|apply good_fun_None].
    eapply Safe_bind; [apply (arg_Safe p 1 Hp); unfold PARAMS_LEN; lia|]. intros r _.
    eapply Safe_bind; [apply (arg_Safe p 2 Hp); unfold PARAMS_LEN; lia|]. intros cl _.
    by intros ? [= <-]. }
  unfold csi_plain.
  repeat (case_match; try apply good_fun_None; try exact Hsgr; try exact Hxt;
    try (apply Hone; intros; repeat case_match; intros ? ?; simplify_eq/=; done);
    try (apply Htwo; intros; intros ? [= <-]; done);
    try (intros ? [= <-]; done);
    try (apply (csi_modes_Safe p ansi_mode AnsiModes.collect Fun.Sm (SmallVec.wf MODES_INLINE_CAP));
         [done|apply ansi_mode_Some|intros; apply collect_Safe|done]);
    try (apply (csi_modes_Safe p ansi_mode AnsiModes.collect Fun.Rm (SmallVec.wf MODES_INLINE_CAP));
         [done|apply ansi_mode_Some|intros; apply collect_Safe|done])).
Qed.

Lemma csi_dispatch_Safe c p : wf_parser p → csi_dispatch c p ⇓ good_fun.
Proof.
  intros Hp. unfold csi_dispatch. destruct (intermediate p); [|by apply csi_plain_Safe].
  repeat (case_match; try apply good_fun_None;
    try (intros ? ?; simplify_eq/=; done);
    try (apply (csi_modes_Safe p dec_mode DecModes.collect Fun.Decset (SmallVec.wf MODES_INLINE_CAP));
         [done|apply dec_mode_Some|intros; apply collect_Safe|done]);
    try (apply (csi_modes_Safe p dec_mode DecModes.collect Fun.Decrst (SmallVec.wf MODES_INLINE_CAP));
         [done|apply dec_mode_Some|intros; apply collect_Safe|done])).
Qed.

(** ** Any character *)

Lemma feed_Safe c p : wf_parser p → feed c p ⇓ λ '(p', f), good p p' ∧ good_fun f.
Proof.
  intros Hp. pose proof (arm_total (state p) c) as Harm. unfold feed.
  assert (Hself : good p p) by (split; [done|by intros]).
  assert (Hst : ∀ st, wf_parser (set_state st p)) by (intros; by apply set_state_good).
  destruct (arm (state p) (input2 c)) as [| |st| |st| | | |st| | |st|]; simpl in *.
  - split; [done|]. by intros ? [= <-].
  - eapply Safe_bind; [apply param_Safe; [done|by eapply input2_rng]|].
    intros p' ?. split; [done|apply good_fun_None].
  - eapply Safe_bind; [by apply parser_clear_Safe|]. intros p' [? _].
    split; [eapply good_trans; [by apply set_state_good|done]|apply good_fun_None].
  - eapply Safe_bind; [by apply csi_dispatch_Safe|]. intros f Hf.
    split; [by apply set_state_good|done].
  - eapply Safe_bind; [apply param_Safe; [done|by eapply input2_rng]|].
    intros p' ?. split; [eapply good_trans; [by apply set_state_good|done]|apply good_fun_None].
  - split; [done|apply execute_fun].
  - split; [by apply set_state_good|apply execute_fun].
  - split; [done|apply good_fun_None].
  - split; [|apply good_fun_None]. eapply good_trans; [by apply set_state_good|].
    apply collect_good; [done|by apply input2_intermediate].
  - split; [|apply good_fun_None]. apply collect_good; [done|by apply input2_intermediate].
  - eapply Safe_mono; [by apply esc_dispatch_Safe|]. intros [p' f] [? ?].
    split; [eapply good_trans; [by apply set_state_good|done]|done].
  - split; [by apply set_state_good|apply good_fun_None].
  - done.
Qed.

Lemma feed_all_Safe cs p :
  wf_parser p → feed_all cs p ⇓ λ '(p', fs), good p p' ∧ Forall Fun.wf fs.
Proof.
  revert p. induction cs as [|c cs IH]; intros p Hp; simpl.
  { split; [split; [done|by intros]|constructor]. }
  eapply Safe_bind; [by apply feed_Safe|]. intros [p1 f] [Hg Hf]. destruct (id Hg) as [Hp1 _].
  eapply Safe_bind; [by apply IH|]. intros [p2 fs] [Hg2 Hfs]. simpl.
  split; [by eapply good_trans|]. apply Forall_app. split; [|done].
  destruct f; repeat constructor. by apply Hf.
Qed.
End feeding.
