(* ===== verification/Checkpoint.v ===== *)
(** Checkpoints of the emulator (ctmux/avt/src/state.rs, buffer/state.rs,
    terminal/state.rs, parser/state.rs): exporting the state, validating an
    imported one against limits and invariants, and rebuilding the emulator. *)

From stdpp Require Import strings.
From S2P Require Import Prelude.
From S2P Require Import Cells.
From S2P Require Import Lines.
From S2P Require Import Buffers.
From S2P Require Import Functions.
From S2P Require Import Tabs.
From S2P Require Import Terminal.
From S2P Require Import Parser.

Inductive StateError :=
  | UnsupportedVersion (component : string) (version : N)
  | InvalidState (reason : string)
  | LimitExceeded (limit : string).

Module StateLimits.
Record t := Mk {
  max_cols : N;
  max_rows : N;
  max_lines : N;
  max_cells : N;
  max_scrollback_limit : N;
}.
Definition default : t := Mk 4096 4096 262144 16777216 262144.
End StateLimits.

Definition usize_MAX : N := 18446744073709551615.
Definition isize_MAX : N := 9223372036854775807.

Definition VT_STATE_VERSION : N := 1.
Definition PARSER_STATE_VERSION : N := 1.

Abbreviation result A := (outcome StateError A).

Definition validate_version (component : string) (version expected : N) : result () :=
  fail_if (negb (bool_decide (version = expected))) (UnsupportedVersion component version).

Definition validate_pen (p : Pen.t) : result () :=
  fail_if (negb (Pen.known_attrs p)) (InvalidState "unknown pen attributes").

Definition validate_size (cols rows : nat) (limits : StateLimits.t) : result () :=
  let c := N.of_nat cols in
  let r := N.of_nat rows in
  _ ← fail_if (bool_decide (c = 0 ∨ r = 0)%N) (InvalidState "zero buffer dimension");
  _ ← fail_if (bool_decide (StateLimits.max_cols limits < c ∨ StateLimits.max_rows limits < r)%N)
        (LimitExceeded "buffer dimensions");
  fail_if (bool_decide (isize_MAX < c ∨ isize_MAX < r)%N)
    (InvalidState "buffer dimension exceeds coordinate range").

Definition validate_scrollback_limit (limit : option nat) (limits : StateLimits.t) : result () :=
  fail_if (match limit with
           | Some limit => bool_decide (StateLimits.max_scrollback_limit limits < N.of_nat limit)%N
           | None => false
           end) (LimitExceeded "scrollback limit").

(** [usize::checked_add] on lengths *)
Definition checked_add (a b : N) : option N :=
  if decide (a + b ≤ usize_MAX)%N then Some (a + b)%N else None.

(** [for x in l { f(x)?; }] *)
Fixpoint try_each {A} (f : A → result ()) (l : list A) : result () :=
  match l with
  | [] => Ok ()
  | x :: l => _ ← f x; try_each f l
  end.

(** * Buffers *)

Module CellState.
Record t := Mk { ch : char; occupancy : Occupancy; pen : Pen.t }.
Definition of_cell (c : Cell.t) : t := Mk (Cell.ch c) (Cell.occupancy c) (Cell.pen c).
Definition into_cell (c : t) : Cell.t := Cell.Mk (ch c) (occupancy c) (pen c).
End CellState.

Module LineState.
Record t := Mk { cells : list CellState.t; wrapped : bool }.

Section validate.
Context `{UnicodeWidth}.

(** The loop body of [LineState::validate] for the cell at [index]. *)
Definition validate_cell (cells : list CellState.t) (index : nat) (cell : CellState.t) :
    result () :=
  _ ← validate_pen (CellState.pen cell);
  match CellState.occupancy cell with
  | Single =>
      fail_if (bool_decide (0x7e < CellState.ch cell)%N
               && bool_decide (char_width (CellState.ch cell) = Some 2))
        (InvalidState "wide character has single occupancy")
  | WideHead =>
      tail ← ok_or (cells !! (index + 1)) (InvalidState "wide head has no continuation");
      fail_if (negb (bool_decide (char_width (CellState.ch cell) = Some 2))
               || negb (bool_decide (CellState.occupancy tail = WideTail)))
        (InvalidState "invalid wide head")
  | WideTail =>
      head ← ok_or (previous ← csub index 1; cells !! previous)
               (InvalidState "wide continuation has no head");
      fail_if (negb (bool_decide (CellState.occupancy head = WideHead))
               || negb (bool_decide (CellState.ch cell = space))
               || negb (bool_decide (CellState.pen head = CellState.pen cell)))
        (InvalidState "invalid wide continuation")
  end.

Definition validate (cols : nat) (l : t) : result () :=
  _ ← fail_if (negb (bool_decide (length (cells l) = cols)))
        (InvalidState "line width does not match buffer");
  try_each (λ '(index, cell), validate_cell (cells l) index cell)
    (zip (seq 0 (length (cells l))) (cells l)).
End validate.

Definition of_line (l : Line.t) : t :=
  Mk (CellState.of_cell <$> Line.cells l) (Line.wrapped l).
Definition into_line (l : t) : Line.t :=
  Line.Mk (CellState.into_cell <$> cells l) (wrapped l).
End LineState.

Module BufferState.
Record t := Mk {
  cols : nat;
  rows : nat;
  scrollback_limit : option nat;
  lines : list LineState.t;
  trim_needed : bool;
}.

Definition line_count (b : t) : N := N.of_nat (length (lines b)).

(** [try_fold] with [checked_add] *)
Fixpoint cell_count_go (total : N) (ls : list LineState.t) : result N :=
  match ls with
  | [] => Ok total
  | l :: ls =>
      total ← ok_or (checked_add total (N.of_nat (length (LineState.cells l))))
                (LimitExceeded "cell count");
      cell_count_go total ls
  end.
Definition cell_count (b : t) : result N := cell_count_go 0 (lines b).

Definition validate `{UnicodeWidth} (b : t) (limits : StateLimits.t) : result () :=
  _ ← validate_size (cols b) (rows b) limits;
  _ ← validate_scrollback_limit (scrollback_limit b) limits;
  _ ← fail_if (bool_decide (length (lines b) < rows b))
        (InvalidState "buffer has fewer lines than rows");
  _ ← fail_if (match last (lines b) with Some l => LineState.wrapped l | None => false end)
        (InvalidState "last buffer line is wrapped");
  try_each (LineState.validate (cols b)) (lines b).

Definition export_state (b : Buffer.t) : t :=
  Mk (Buffer.cols b) (Buffer.rows b) (Buffer.scrollback_limit b)
    (LineState.of_line <$> Buffer.lines b) (Buffer.trim_needed b).

Definition into_buffer (b : t) : Buffer.t :=
  Buffer.Mk (LineState.into_line <$> lines b) (cols b) (rows b) (scrollback_limit b)
    (trim_needed b).
End BufferState.

(** * The terminal *)

Module TerminalState.
Record t := Mk {
  cols : nat;
  rows : nat;
  buffer : BufferState.t;
  other_buffer : BufferState.t;
  active_buffer_type : BufferType;
  scrollback_limit : option nat;
  cursor : Cursor.t;
  pen : Pen.t;
  charsets : list Charset.t;
  active_charset : nat;
  tabs : list nat;
  insert_mode : bool;
  origin_mode : bool;
  auto_wrap_mode : bool;
  new_line_mode : bool;
  cursor_keys_mode : CursorKeysMode;
  top_margin : nat;
  bottom_margin : nat;
  saved_ctx : SavedCtx.t;
  alternate_saved_ctx : SavedCtx.t;
  dirty_lines : list bool;
  xtwinops : bool;
  reflow_cursor_line : bool;
}.

Definition validate_saved_ctx (ctx : SavedCtx.t) (b : BufferState.t) : result () :=
  _ ← fail_if (bool_decide (BufferState.cols b ≤ SavedCtx.cursor_col ctx
                            ∨ BufferState.rows b ≤ SavedCtx.cursor_row ctx))
        (InvalidState "saved cursor outside its buffer");
  validate_pen (SavedCtx.pen ctx).

Definition validate_aggregate_size (s : t) (limits : StateLimits.t) : result () :=
  lines ← ok_or (checked_add (BufferState.line_count (buffer s))
                   (BufferState.line_count (other_buffer s)))
            (LimitExceeded "line count");
  _ ← fail_if (bool_decide (StateLimits.max_lines limits < lines ∨ isize_MAX < lines)%N)
        (LimitExceeded "line count");
  a ← BufferState.cell_count (buffer s);
  b ← BufferState.cell_count (other_buffer s);
  cells ← ok_or (checked_add a b) (LimitExceeded "cell count");
  fail_if (bool_decide (StateLimits.max_cells limits < cells ∨ isize_MAX < cells)%N)
    (LimitExceeded "cell count").

(** [windows(2).any(|pair| pair[0] >= pair[1])] *)
Fixpoint unsorted (tabs : list nat) : bool :=
  match tabs with
  | a :: ((b :: _) as tabs) => bool_decide (b ≤ a) || unsorted tabs
  | _ => false
  end.

Definition validate `{UnicodeWidth} (s : t) (limits : StateLimits.t) : result () :=
  _ ← validate_size (cols s) (rows s) limits;
  _ ← validate_scrollback_limit (scrollback_limit s) limits;
  _ ← validate_aggregate_size s limits;
  _ ← BufferState.validate (buffer s) limits;
  _ ← BufferState.validate (other_buffer s) limits;
  _ ← fail_if (negb (bool_decide (BufferState.cols (buffer s) = cols s))
               || negb (bool_decide (BufferState.rows (buffer s) = rows s)))
        (InvalidState "active buffer dimensions differ from terminal");
  let '(primary, alternate) :=
    match active_buffer_type s with
    | Primary => (buffer s, other_buffer s)
    | Alternate => (other_buffer s, buffer s)
    end in
  _ ← fail_if (negb (bool_decide (BufferState.scrollback_limit primary = scrollback_limit s))
               || negb (bool_decide (BufferState.scrollback_limit alternate = Some 0)))
        (InvalidState "buffer scrollback policy");
  _ ← fail_if (bool_decide (cols s < Cursor.col (cursor s) ∨ rows s ≤ Cursor.row (cursor s)))
        (InvalidState "cursor outside terminal");
  _ ← fail_if (bool_decide (bottom_margin s < top_margin s ∨ rows s ≤ bottom_margin s))
        (InvalidState "scrolling margins");
  _ ← fail_if (bool_decide (length (charsets s) ≤ active_charset s))
        (InvalidState "active character set");
  _ ← fail_if (negb (bool_decide (length (dirty_lines s) = rows s)))
        (InvalidState "dirty line count");
  _ ← fail_if (bool_decide (cols s < length (tabs s))
               || existsb (λ tab, bool_decide (cols s < tab)) (tabs s)
               || unsorted (tabs s))
        (InvalidState "tab stops");
  _ ← validate_pen (pen s);
  _ ← validate_saved_ctx (saved_ctx s) (buffer s);
  validate_saved_ctx (alternate_saved_ctx s) (other_buffer s).

Definition export_state (s : Terminal.t) : t :=
  Mk (Terminal.cols s) (Terminal.rows s)
    (BufferState.export_state (Terminal.buffer s))
    (BufferState.export_state (Terminal.other_buffer s))
    (Terminal.active_buffer_type s) (Terminal.scrollback_limit s) (Terminal.cursor s)
    (Terminal.pen s) (Terminal.charsets s) (Terminal.active_charset s) (Terminal.tabs s)
    (Terminal.insert_mode s) (Terminal.origin_mode s) (Terminal.auto_wrap_mode s)
    (Terminal.new_line_mode s) (Terminal.cursor_keys_mode s) (Terminal.top_margin s)
    (Terminal.bottom_margin s) (Terminal.saved_ctx s) (Terminal.alternate_saved_ctx s)
    (Terminal.dirty_lines s) (Terminal.xtwinops_enabled s) (Terminal.reflow_cursor_line s).

Definition into_terminal (s : t) : Terminal.t :=
  Terminal.Mk (cols s) (rows s)
    (BufferState.into_buffer (buffer s)) (BufferState.into_buffer (other_buffer s))
    (active_buffer_type s) (scrollback_limit s) (cursor s) (pen s) (charsets s)
    (active_charset s) (tabs s) (insert_mode s) (origin_mode s) (auto_wrap_mode s)
    (new_line_mode s) (cursor_keys_mode s) (top_margin s) (bottom_margin s)
    (saved_ctx s) (alternate_saved_ctx s) (dirty_lines s) (xtwinops s)
    (reflow_cursor_line s).
End TerminalState.

(** * The parser *)

Module ParserState.
Record t := Mk {
  version : N;
  state : State;
  params : list Param.t;
  cur_param : nat;
  intermediate : option char;
}.

Definition validate (s : t) : result () :=
  _ ← validate_version "parser" (version s) PARSER_STATE_VERSION;
  _ ← fail_if (bool_decide (PARAMS_LEN ≤ cur_param s)) (InvalidState "parser parameter index");
  _ ← fail_if (existsb (λ q, bool_decide (MAX_PARAM_LEN ≤ Param.cur_part q)) (params s))
        (InvalidState "parser subparameter index");
  fail_if (match intermediate s with
           | Some ch => negb (Parser.rng 0x20 0x2f ch) && negb (Parser.rng 0x3c 0x3f ch)
           | None => false
           end) (InvalidState "parser intermediate character").

Definition export_state (p : Parser.t) : t :=
  Mk PARSER_STATE_VERSION (Parser.state p)
    ((λ q, Param.Mk (Param.cur_part q) (Param.parts q)) <$> Parser.params p)
    (Parser.cur_param p) (Parser.intermediate p).

Definition from_state (s : t) : result Parser.t :=
  _ ← validate s;
  Ok (Parser.Mk (state s)
        ((λ q, Param.Mk (Param.cur_part q) (Param.parts q)) <$> params s)
        (cur_param s) (intermediate s)).
End ParserState.

(** * The emulator *)

Module VtState.
Record t := Mk {
  version : N;
  parser : ParserState.t;
  terminal : TerminalState.t;
}.

Definition new (parser : ParserState.t) (terminal : TerminalState.t) : t :=
  Mk VT_STATE_VERSION parser terminal.

Definition validate `{UnicodeWidth} (s : t) (limits : StateLimits.t) : result () :=
  _ ← validate_version "vt" (version s) VT_STATE_VERSION;
  _ ← ParserState.validate (parser s);
  TerminalState.validate (terminal s) limits.

Definition into_parts (s : t) : ParserState.t * TerminalState.t := (parser s, terminal s).
End VtState.
