(* ===== verification/Vt.v ===== *)
(** The emulator (ctmux/avt/src/vt.rs): the parser driving the terminal, its
    checkpoints, and the collectors of logical lines (ctmux/avt/src/util.rs). *)

From S2P Require Import Prelude.
From S2P Require Import Cells.
From S2P Require Import Lines.
From S2P Require Import Buffers.
From S2P Require Import Functions.
From S2P Require Import Terminal.
From S2P Require Import Parser.
From S2P Require Import Checkpoint.

Module Vt.
Record t := Mk { parser : Parser.t; terminal : Terminal.t }.

#[global] Instance eq_dec : EqDecision t.
Proof. solve_decision. Defined.

Record Changes := MkChanges { lines : list nat; scrollback : list Line.t }.

Section vt.
Context `{UnicodeWidth}.

Definition feed (input : char) (v : t) : option t :=
  '(p, op) ← Parser.feed input (parser v);
  match op with
  | Some op => s ← Terminal.execute op (terminal v); Some (Mk p s)
  | None => Some (Mk p (terminal v))
  end.

(** The characters are parsed and executed one after the other. *)
Fixpoint feed_chars (s : list char) (v : t) : option t :=
  match s with
  | [] => Some v
  | c :: s => v ← feed c v; feed_chars s v
  end.

(** [let lines = terminal.changes(); let scrollback = terminal.gc();] *)
Definition collect_changes (v : t) : option (t * Changes) :=
  let '(s, lines) := Terminal.changes (terminal v) in
  '(s, scrollback) ← Terminal.gc s;
  Some (Mk (parser v) s, MkChanges lines scrollback).

Definition feed_str (s : list char) (v : t) : option (t * Changes) :=
  v ← feed_chars s v; collect_changes v.

Definition resize (cols rows : nat) (v : t) : option (t * Changes) :=
  '(s, _) ← Terminal.resize cols rows (terminal v);
  collect_changes (Mk (parser v) s).

Definition size (v : t) : nat * nat := Terminal.size (terminal v).
Definition view (v : t) : option (list Line.t) := Terminal.view (terminal v).
Definition all_lines (v : t) : list Line.t := Buffer.lines (Terminal.buffer (terminal v)).
Definition text (v : t) : list (list char) := Terminal.text (terminal v).
Definition cursor (v : t) : Cursor.t := Terminal.cursor (terminal v).

Definition export_state (v : t) : VtState.t :=
  VtState.new (ParserState.export_state (parser v))
    (TerminalState.export_state (terminal v)).

Definition from_state_with_limits (s : VtState.t) (limits : StateLimits.t) : result t :=
  _ ← VtState.validate s limits;
  let '(p, tm) := VtState.into_parts s in
  p ← ParserState.from_state p;
  Ok (Mk p (TerminalState.into_terminal tm)).

Definition from_state (s : VtState.t) : result t :=
  from_state_with_limits s StateLimits.default.
End vt.

Module Builder.
Record t := Mk {
  size : nat * nat;
  scrollback_limit : option nat;
  reflow_cursor_line : bool;
}.
Definition default : t := Mk (80, 24) None true.
Definition build (b : t) : option Vt.t :=
  s ← Terminal.new (size b).1 (size b).2 (scrollback_limit b);
  Some (Vt.Mk Parser.new (Terminal.set_reflow_cursor_line (reflow_cursor_line b) s)).
End Builder.
End Vt.

Module TextUnwrapper.
(** The unfinished logical line *)
Definition t := list char.
Definition new : t := [].

Definition push (line : Line.t) (wrapped_line : t) : t * option (list char) :=
  if Line.wrapped line then (wrapped_line ++ Line.text line, None)
  else ([], Some (wrapped_line ++ trim_end (Line.text line))).

Definition flush (wrapped_line : t) : option (list char) :=
  if decide (wrapped_line = []) then None else Some wrapped_line.

(** [filter_map(|l| unwrapper.push(&l))] *)
Fixpoint push_all (ls : list Line.t) (u : t) : t * list (list char) :=
  match ls with
  | [] => (u, [])
  | l :: ls =>
      let '(u, r) := push l u in
      let '(u, rs) := push_all ls u in
      (u, option_list r ++ rs)
  end.
End TextUnwrapper.

Module TextCollector.
Record t := Mk { vt : Vt.t; unwrapper : TextUnwrapper.t }.
Definition new (vt : Vt.t) : t := Mk vt TextUnwrapper.new.

Section collector.
Context `{UnicodeWidth}.

Definition feed_str (s : list char) (c : t) : option (t * list (list char)) :=
  '(vt, changes) ← Vt.feed_str s (vt c);
  let '(u, lines) := TextUnwrapper.push_all (Vt.scrollback changes) (unwrapper c) in
  Some (Mk vt u, lines).

Definition resize (cols rows : N) (c : t) : option (t * list (list char)) :=
  '(vt, changes) ← Vt.resize (N.to_nat cols) (N.to_nat rows) (vt c);
  let '(u, lines) := TextUnwrapper.push_all (Vt.scrollback changes) (unwrapper c) in
  Some (Mk vt u, lines).

(** Trailing empty lines are dropped. *)
Definition flush (c : t) : list (list char) :=
  let '(u, lines) := TextUnwrapper.push_all (Vt.all_lines (vt c)) (unwrapper c) in
  let lines := lines ++ option_list (TextUnwrapper.flush u) in
  take (length lines - count_trailing (λ l, bool_decide (l = [])) lines) lines.
End collector.
End TextCollector.
