(* ===== verification/Dump.v ===== *)
(** Printing the emulator as control sequences (ctmux/avt/src/parser.rs: [dump],
    [dump_function], [Parser::dump]; terminal.rs: [Terminal::dump]; vt.rs: [Vt::dump]): a
    screen checkpoint is a text that a fresh emulator turns back into the screen. *)

From S2P Require Import Prelude.
From S2P Require Import Cells.
From S2P Require Import Lines.
From S2P Require Import Buffers.
From S2P Require Import Functions.
From S2P Require Import Tabs.
From S2P Require Import Parser.
From S2P Require Import Terminal.
From S2P Require Import Vt.

(** * Numbers and sequences *)

(** [to_string] of an unsigned integer of up to 64 bits *)
Fixpoint decimal_go (fuel : nat) (n : N) : list char :=
  match fuel with
  | 0 => []
  | S fuel => if (n <? 10)%N then [48 + n]%N else decimal_go fuel (n / 10) ++ [48 + n `mod` 10]%N
  end.
Definition decimal (n : N) : list char := decimal_go 20 n.

(** [join] *)
Fixpoint join (sep : char) (l : list (list char)) : list char :=
  match l with
  | [] => []
  | [s] => s
  | s :: l => s ++ sep :: join sep l
  end.

Definition push_esc (intermediate : option char) (final_char : char) : list char :=
  0x1b%N :: option_list intermediate ++ [final_char].

Definition push_csi (intermediate : option char) (params : list (list char)) (final_char : char) : list char :=
  [0x1b; 0x5b]%N ++ option_list intermediate ++ join 0x3b%N params ++ [final_char].

(** The sums of [u8]s stay below 108. *)
Definition dump_sgr_color (color : Color.t) (base : N) : list char :=
  match color with
  | Color.Indexed c =>
      if (c <? 8)%N then decimal (base + c)
      else if (c <? 16)%N then decimal (base + 52 + c)
      else join 0x3a%N [decimal (base + 8); decimal 5; decimal c]
  | Color.RGB r g b => join 0x3a%N [decimal (base + 8); decimal 2; decimal r; decimal g; decimal b]
  end.

Definition sgr_param (op : SgrOp.t) : list char :=
  match op with
  | SgrOp.Reset => decimal 0
  | SgrOp.SetBoldIntensity => decimal 1
  | SgrOp.SetFaintIntensity => decimal 2
  | SgrOp.SetItalic => decimal 3
  | SgrOp.SetUnderline => decimal 4
  | SgrOp.SetBlink => decimal 5
  | SgrOp.SetInverse => decimal 7
  | SgrOp.SetStrikethrough => decimal 9
  | SgrOp.ResetIntensity => decimal 22
  | SgrOp.ResetItalic => decimal 23
  | SgrOp.ResetUnderline => decimal 24
  | SgrOp.ResetBlink => decimal 25
  | SgrOp.ResetInverse => decimal 27
  | SgrOp.ResetStrikethrough => decimal 29
  | SgrOp.SetForegroundColor color => dump_sgr_color color 30
  | SgrOp.ResetForegroundColor => decimal 39
  | SgrOp.SetBackgroundColor color => dump_sgr_color color 40
  | SgrOp.ResetBackgroundColor => decimal 49
  end.

Definition dec_mode_param (mode : DecMode.t) : N :=
  match mode with
  | DecMode.CursorKeys => 1
  | DecMode.Origin => 6
  | DecMode.AutoWrap => 7
  | DecMode.TextCursorEnable => 25
  | DecMode.AltScreenBuffer => 1047
  | DecMode.SaveCursor => 1048
  | DecMode.SaveCursorAltScreenBuffer => 1049
  end%N.

Definition ansi_mode_param (mode : AnsiMode.t) : N :=
  match mode with AnsiMode.Insert => 4 | AnsiMode.NewLine => 20 end%N.

Definition charset_final (charset : Charset.t) : char :=
  match charset with Charset.Drawing => 0x30 | Charset.Ascii => 0x42 end%N.

(** * Functions *)

Definition dump_function (fun_ : Fun.t) : option (list char) :=
  let csi params final_char := Some (push_csi None (decimal <$> params) final_char) in
  match fun_ with
  | Fun.Bs => Some [0x08%N]
  | Fun.Cbt n => csi [n] 0x5a%N
  | Fun.Cha n => csi [n] 0x47%N
  | Fun.Cht n => csi [n] 0x49%N
  | Fun.Cnl n => csi [n] 0x45%N
  | Fun.Cpl n => csi [n] 0x46%N
  | Fun.Cr => Some [0x0d%N]
  | Fun.Ctc op =>
      csi [match op with CtcOp.SetStop => 0 | CtcOp.ClearCurrentColumn => 2 | CtcOp.ClearAll => 5 end%N] 0x57%N
  | Fun.Cub n => csi [n] 0x44%N
  | Fun.Cud n => csi [n] 0x42%N
  | Fun.Cuf n => csi [n] 0x43%N
  | Fun.Cup row col => csi [row; col] 0x48%N
  | Fun.Cuu n => csi [n] 0x41%N
  | Fun.Dch n => csi [n] 0x50%N
  | Fun.Decaln => Some (push_esc (Some 0x23%N) 0x38%N)
  | Fun.Decrc => Some (push_esc None 0x38%N)
  | Fun.Decrst modes =>
      modes ← SmallVec.as_slice modes;
      Some (push_csi (Some 0x3f%N) ((decimal ∘ dec_mode_param) <$> modes) 0x6c%N)
  | Fun.Decsc => Some (push_esc None 0x37%N)
  | Fun.Decset modes =>
      modes ← SmallVec.as_slice modes;
      Some (push_csi (Some 0x3f%N) ((decimal ∘ dec_mode_param) <$> modes) 0x68%N)
  | Fun.Decstbm top bottom => csi [top; bottom] 0x72%N
  | Fun.Decstr => Some (push_csi (Some 0x21%N) [] 0x70%N)
  | Fun.Dl n => csi [n] 0x4d%N
  | Fun.Ech n => csi [n] 0x58%N
  | Fun.Ed scope =>
      csi [match scope with
           | EdScope.Below => 0 | EdScope.Above => 1 | EdScope.All => 2 | EdScope.SavedLines => 3
           end%N] 0x4a%N
  | Fun.El scope =>
      csi [match scope with ElScope.ToRight => 0 | ElScope.ToLeft => 1 | ElScope.All => 2 end%N] 0x4b%N
  | Fun.G1d4 charset => Some (push_esc (Some 0x29%N) (charset_final charset))
  | Fun.Gzd4 charset => Some (push_esc (Some 0x28%N) (charset_final charset))
  | Fun.Ht => Some [0x09%N]
  | Fun.Hts => Some (push_esc None 0x48%N)
  | Fun.Ich n => csi [n] 0x40%N
  | Fun.Il n => csi [n] 0x4c%N
  | Fun.Lf => Some [0x0a%N]
  | Fun.Nel => Some (push_esc None 0x45%N)
  | Fun.Print ch => Some [ch]
  | Fun.Rep n => csi [n] 0x62%N
  | Fun.Ri => Some (push_esc None 0x4d%N)
  | Fun.Ris => Some (push_esc None 0x63%N)
  | Fun.Rm modes =>
      modes ← SmallVec.as_slice modes;
      Some (push_csi None ((decimal ∘ ansi_mode_param) <$> modes) 0x6c%N)
  | Fun.Scorc => Some (push_csi None [] 0x75%N)
  | Fun.Scosc => Some (push_csi None [] 0x73%N)
  | Fun.Sd n => csi [n] 0x54%N
  | Fun.Sgr ops =>
      if SmallVec.is_empty ops then Some ([0x1b; 0x5b; 0x33; 0x38; 0x3b; 0x32; 0x6d]%N)
      else ops ← SmallVec.as_slice ops; Some (push_csi None (sgr_param <$> ops) 0x6d%N)
  | Fun.Si => Some [0x0f%N]
  | Fun.Sm modes =>
      modes ← SmallVec.as_slice modes;
      Some (push_csi None ((decimal ∘ ansi_mode_param) <$> modes) 0x68%N)
  | Fun.So => Some [0x0e%N]
  | Fun.Su n => csi [n] 0x53%N
  | Fun.Tbc scope =>
      csi [match scope with TbcScope.CurrentColumn => 0 | TbcScope.All => 3 end%N] 0x67%N
  | Fun.Vpa n => csi [n] 0x64%N
  | Fun.Vpr n => csi [n] 0x65%N
  | Fun.Xtwinops (XtwinopsOp.Resize cols rows) => csi [8%N; rows; cols] 0x74%N
  end.

(** [parser::dump] *)
Fixpoint dump_functions (funs : list Fun.t) : option (list char) :=
  match funs with
  | [] => Some []
  | f :: funs => s ← dump_function f; rest ← dump_functions funs; Some (s ++ rest)
  end.

(** * Unfinished sequences *)

(** [Display for Param] *)
Definition param_to_string (q : Param.t) : option (list char) :=
  parts ← Param.used q;
  match parts with [] => None | _ => Some (join 0x3a%N (decimal <$> parts)) end.

Definition parser_dump (p : Parser.t) : option (list char) :=
  let intermediates := option_list (Parser.intermediate p) in
  let with_params introducer :=
    ps ← Parser.used_params p;
    params ← mapM param_to_string ps;
    Some (introducer :: intermediates ++ join 0x3b%N params) in
  match Parser.state p with
  | Ground => Some []
  | Escape => Some [0x1b%N]
  | EscapeIntermediate => Some (0x1b%N :: intermediates)
  | CsiEntry => Some [0x9b%N]
  | CsiParam => with_params 0x9b%N
  | CsiIntermediate => Some (0x9b%N :: intermediates)
  | CsiIgnore => Some [0x9b; 0x3a]%N
  | DcsEntry => Some [0x90%N]
  | DcsIntermediate => Some (0x90%N :: intermediates)
  | DcsParam => with_params 0x90%N
  | DcsPassthrough => Some (0x90%N :: intermediates ++ [0x40%N])
  | DcsIgnore => Some [0x90; 0x3a]%N
  | OscString => Some [0x9d%N]
  | SosPmApcString => Some [0x98%N]
  end.

(** * The screen *)

(** [try_into] of a length or position: more than a [u16] panics. *)
Definition to_u16 (value : nat) : option u16 :=
  if decide (N.of_nat value < 65536)%N then Some (N.of_nat value) else None.

(** [ops.push(op)] under a condition *)
Definition push_if (b : bool) (op : SgrOp.t) (ops : SgrOps.t) : option SgrOps.t :=
  if b then SgrOps.push ops op else Some ops.

Definition push_attr_diff (from to : bool) (set reset : SgrOp.t) (ops : SgrOps.t) : option SgrOps.t :=
  push_if (negb (Bool.eqb from to)) (if to then set else reset) ops.

Definition to_sgr_diff_ops (from to : Pen.t) : option SgrOps.t :=
  ops ← push_if (negb (bool_decide (Pen.intensity from = Pen.intensity to)))
          (match Pen.intensity to with
           | Normal => SgrOp.ResetIntensity
           | Bold => SgrOp.SetBoldIntensity
           | Faint => SgrOp.SetFaintIntensity
           end) SgrOps.new;
  ops ← push_if (negb (bool_decide (Pen.foreground from = Pen.foreground to)))
          (match Pen.foreground to with
           | Some color => SgrOp.SetForegroundColor color
           | None => SgrOp.ResetForegroundColor
           end) ops;
  ops ← push_if (negb (bool_decide (Pen.background from = Pen.background to)))
          (match Pen.background to with
           | Some color => SgrOp.SetBackgroundColor color
           | None => SgrOp.ResetBackgroundColor
           end) ops;
  ops ← push_attr_diff (Pen.is_italic from) (Pen.is_italic to) SgrOp.SetItalic SgrOp.ResetItalic ops;
  ops ← push_attr_diff (Pen.is_underline from) (Pen.is_underline to) SgrOp.SetUnderline SgrOp.ResetUnderline ops;
  ops ← push_attr_diff (Pen.is_blink from) (Pen.is_blink to) SgrOp.SetBlink SgrOp.ResetBlink ops;
  ops ← push_attr_diff (Pen.is_inverse from) (Pen.is_inverse to) SgrOp.SetInverse SgrOp.ResetInverse ops;
  push_attr_diff (Pen.is_strikethrough from) (Pen.is_strikethrough to)
    SgrOp.SetStrikethrough SgrOp.ResetStrikethrough ops.

Definition to_sgr_ops (pen : Pen.t) : option SgrOps.t :=
  ops ← SgrOps.push SgrOps.new SgrOp.Reset;
  ops ← (match Pen.foreground pen with
         | Some color => SgrOps.push ops (SgrOp.SetForegroundColor color)
         | None => Some ops
         end);
  ops ← (match Pen.background pen with
         | Some color => SgrOps.push ops (SgrOp.SetBackgroundColor color)
         | None => Some ops
         end);
  ops ← (match Pen.intensity pen with
         | Normal => Some ops
         | Bold => SgrOps.push ops SgrOp.SetBoldIntensity
         | Faint => SgrOps.push ops SgrOp.SetFaintIntensity
         end);
  ops ← push_if (Pen.is_italic pen) SgrOp.SetItalic ops;
  ops ← push_if (Pen.is_underline pen) SgrOp.SetUnderline ops;
  ops ← push_if (Pen.is_blink pen) SgrOp.SetBlink ops;
  ops ← push_if (Pen.is_inverse pen) SgrOp.SetInverse ops;
  push_if (Pen.is_strikethrough pen) SgrOp.SetStrikethrough ops.

Definition to_sgr (pen : Pen.t) : option Fun.t := Fun.Sgr <$> to_sgr_ops pen.

(** Pens are compared by their colours, intensity and attribute byte. *)
Definition to_sgr_diff (from to : Pen.t) : option (option Fun.t) :=
  if bool_decide (from = to) then Some None else
  full ← to_sgr_ops to;
  diff ← to_sgr_diff_ops from to;
  Some (Some (Fun.Sgr (if bool_decide (SmallVec.len diff ≤ SmallVec.len full) then diff else full))).

(** The length of the run of [ch] at the head *)
Fixpoint run_len (ch : char) (cells : list Cell.t) : nat :=
  match cells with
  | c :: cells => if decide (Cell.ch c = ch) then S (run_len ch cells) else 0
  | [] => 0
  end.

Fixpoint dump_cells_go (fuel : nat) (cells : list Cell.t) : option (list Fun.t) :=
  match fuel with
  | 0 => None
  | S fuel =>
      match cells with
      | [] => Some []
      | c :: rest =>
          let ch := Cell.ch c in
          let run_len := S (run_len ch rest) in
          head ← (if decide (5 < run_len)
                  then n ← to_u16 (run_len - 1); Some [Fun.Print ch; Fun.Rep n]
                  else Some (replicate run_len (Fun.Print ch)));
          funs ← dump_cells_go fuel (drop run_len cells);
          Some (head ++ funs)
      end
  end.
Definition dump_cells (cells : list Cell.t) : option (list Fun.t) := dump_cells_go (S (length cells)) cells.

(** The chunks of a row; the pen is carried along. *)
Fixpoint dump_chunks (chunks : list (list Cell.t)) (pen : Pen.t) : option (list Fun.t * Pen.t) :=
  match chunks with
  | [] => Some ([], pen)
  | cells :: chunks =>
      first ← head cells;
      sgr ← (if bool_decide (Cell.pen first = pen) then Some None else to_sgr_diff pen (Cell.pen first));
      printed ← dump_cells cells;
      '(funs, pen) ← dump_chunks chunks (Cell.pen first);
      Some (option_list sgr ++ printed ++ funs, pen)
  end.

Fixpoint dump_lines (last i : nat) (lines : list Line.t) (pen : Pen.t) : option (list Fun.t) :=
  match lines with
  | [] => Some []
  | line :: lines =>
      '(funs, pen) ← dump_chunks (Line.chunks (λ c1 c2, negb (bool_decide (Cell.pen c1 = Cell.pen c2))) line) pen;
      let feed := if decide (i < last) then if Line.wrapped line then [] else [Fun.Cr; Fun.Lf] else [] in
      rest ← dump_lines last (S i) lines pen;
      Some (funs ++ feed ++ rest)
  end.

(** One past the last row that must be printed *)
Fixpoint cutoff_go (i : nat) (wrapped : bool) (lines : list Line.t) (cutoff : nat) : nat :=
  match lines with
  | [] => cutoff
  | line :: lines =>
      cutoff_go (S i) (Line.wrapped line) lines
        (if wrapped || Line.wrapped line || negb (Line.is_blank line) then i + 1 else cutoff)
  end.

Definition dump_buffer (b : Buffer.t) : option (list Fun.t) :=
  view ← Buffer.view b;
  last ← csub (Buffer.rows b) 1;
  dump_lines last 0 (take (cutoff_go 0 false view 0) view) Pen.default.

Section terminal_dump.
Implicit Types (s : Terminal.t) (ctx : SavedCtx.t).

Definition push_decset (mode : DecMode.t) : option (list Fun.t) := m ← DecModes.one mode; Some [Fun.Decset m].
Definition push_decrst (mode : DecMode.t) : option (list Fun.t) := m ← DecModes.one mode; Some [Fun.Decrst m].
Definition set_ansi (mode : AnsiMode.t) : option (list Fun.t) := m ← AnsiModes.one mode; Some [Fun.Sm m].

(** Functions pushed under a condition *)
Definition when (b : bool) (funs : option (list Fun.t)) : option (list Fun.t) := if b then funs else Some [].

(** Concatenation of what is pushed *)
Fixpoint sequence (l : list (option (list Fun.t))) : option (list Fun.t) :=
  match l with
  | [] => Some []
  | funs :: l => funs ← funs; rest ← sequence l; Some (funs ++ rest)
  end.

Definition cup_at (row col : nat) : option (list Fun.t) :=
  row ← to_u16 (row + 1); col ← to_u16 (col + 1); Some [Fun.Cup row col].
Definition push_sgr (pen : Pen.t) : option (list Fun.t) := f ← to_sgr pen; Some [f].

Definition dump_ctx ctx : option (list Fun.t) :=
  when (negb (SavedCtx.is_default ctx)) (sequence [
    when (negb (SavedCtx.auto_wrap_mode ctx)) (push_decrst DecMode.AutoWrap);
    when (SavedCtx.origin_mode ctx) (push_decset DecMode.Origin);
    cup_at (SavedCtx.cursor_row ctx) (SavedCtx.cursor_col ctx);
    push_sgr (SavedCtx.pen ctx);
    Some [Fun.Decsc];
    when (negb (SavedCtx.auto_wrap_mode ctx)) (push_decset DecMode.AutoWrap);
    when (SavedCtx.origin_mode ctx) (push_decrst DecMode.Origin)]).

Definition dump_tabs s : option (list Fun.t) :=
  when (negb (bool_decide (Terminal.tabs s = Tabs.new (Terminal.cols s)))) (
    stops ← mapM (λ t, n ← to_u16 (t + 1); Some [Fun.Cha n; Fun.Ctc CtcOp.SetStop]) (Terminal.tabs s);
    Some (Fun.Ctc CtcOp.ClearAll :: mjoin stops)).

(** A move by the difference of two positions *)
Definition shift (to from : nat) (back forth : u16 → Fun.t) : option (list Fun.t) :=
  if decide (to < from) then n ← to_u16 (from - to); Some [back n]
  else if decide (from < to) then n ← to_u16 (to - from); Some [forth n]
  else Some [].

Definition dump_cursor s : option (list Fun.t) :=
  let col := Cursor.col (Terminal.cursor s) in
  let row := Cursor.row (Terminal.cursor s) in
  let saved := Terminal.saved_ctx s in
  if Terminal.origin_mode s then
    if bool_decide (row < Terminal.top_margin s) || bool_decide (Terminal.bottom_margin s < row) then
      sequence [Some [Fun.Scorc]; shift col (SavedCtx.cursor_col saved) Fun.Cub Fun.Cuf;
                shift row (SavedCtx.cursor_row saved) Fun.Cuu Fun.Cud]
    else row ← csub row (Terminal.top_margin s); cup_at row col
  else cup_at row col.

(** Printing the last cell of the row again leaves the cursor past the border. *)
Definition dump_pending_wrap s : option (list Fun.t) :=
  when (bool_decide (Terminal.cols s ≤ Cursor.col (Terminal.cursor s))) (
    last_col ← csub (Terminal.cols s) 1;
    last_cell ← Buffer.index_cell (Terminal.buffer s) last_col (Cursor.row (Terminal.cursor s));
    match Cell.occupancy last_cell with
    | Single => sequence [push_sgr (Cell.pen last_cell); Some [Fun.Print (Cell.ch last_cell)]]
    | WideTail =>
        prev_col ← csub (Terminal.cols s) 2;
        prev_cell ← Buffer.index_cell (Terminal.buffer s) prev_col (Cursor.row (Terminal.cursor s));
        sequence [Some [Fun.Cub 1]; push_sgr (Cell.pen prev_cell); Some [Fun.Print (Cell.ch prev_cell)]]
    | WideHead => Some []
    end).

Definition terminal_dump s : option (list Fun.t) :=
  let '(primary_ctx, alternate_ctx) :=
    match Terminal.active_buffer_type s with
    | Primary => (Terminal.saved_ctx s, Terminal.alternate_saved_ctx s)
    | Alternate => (Terminal.alternate_saved_ctx s, Terminal.saved_ctx s)
    end in
  let on_alternate := bool_decide (Terminal.active_buffer_type s = Alternate) in
  sequence [
    dump_buffer (Terminal.primary_buffer s);
    dump_tabs s;
    dump_ctx primary_ctx;
    push_sgr Pen.default;
    when (on_alternate || negb (SavedCtx.is_default alternate_ctx)) (push_decset DecMode.AltScreenBuffer);
    when on_alternate (funs ← dump_buffer (Terminal.alternate_buffer s); Some (Fun.Cup 1 1 :: funs));
    dump_ctx alternate_ctx;
    when (negb on_alternate && negb (SavedCtx.is_default alternate_ctx)) (push_decrst DecMode.AltScreenBuffer);
    when (Terminal.origin_mode s) (push_decset DecMode.Origin);
    (last_row ← csub (Terminal.rows s) 1;
     when (bool_decide (0 < Terminal.top_margin s) || bool_decide (Terminal.bottom_margin s < last_row)) (
       top ← to_u16 (Terminal.top_margin s + 1); bottom ← to_u16 (Terminal.bottom_margin s + 1);
       Some [Fun.Decstbm top bottom]));
    dump_cursor s;
    dump_pending_wrap s;
    push_sgr (Terminal.pen s);
    when (negb (Cursor.visible (Terminal.cursor s))) (push_decrst DecMode.TextCursorEnable);
    (g0 ← Terminal.charsets s !! 0;
     when (bool_decide (g0 = Charset.Drawing)) (Some [Fun.Gzd4 Charset.Drawing]));
    (g1 ← Terminal.charsets s !! 1;
     when (bool_decide (g1 = Charset.Drawing)) (Some [Fun.G1d4 Charset.Drawing]));
    when (bool_decide (Terminal.active_charset s = 1)) (Some [Fun.So]);
    when (Terminal.insert_mode s) (set_ansi AnsiMode.Insert);
    when (negb (Terminal.auto_wrap_mode s)) (push_decrst DecMode.AutoWrap);
    when (Terminal.new_line_mode s) (set_ansi AnsiMode.NewLine);
    when (bool_decide (Terminal.cursor_keys_mode s = ApplicationKeys)) (push_decset DecMode.CursorKeys)].
End terminal_dump.

(** [Vt::dump] *)
Definition vt_dump (v : Vt.t) : option (list char) :=
  funs ← terminal_dump (Vt.terminal v);
  seq ← dump_functions funs;
  rest ← parser_dump (Vt.parser v);
  Some (seq ++ rest).
