(* ===== verification/DumpInv.v ===== *)
(** Printed control functions are read back as they were: the parser, fed the text of a
    list of functions, yields those functions. *)

From S2P Require Import Prelude.
From S2P Require Import Cells.
From S2P Require Import Functions.
From S2P Require Import Parser.
From S2P Require Import ParserInv.
From S2P Require Import Terminal.
From S2P Require Import Vt.
From S2P Require Import Dump.

Import Parser.

(** * Feeding *)

Lemma feed_all_app cs1 cs2 p p' fs :
  feed_all cs1 p = Some (p', fs) →
  feed_all (cs1 ++ cs2) p = ('(p2, fs2) ← feed_all cs2 p'; Some (p2, fs ++ fs2)).
Proof.
  revert p fs. induction cs1 as [|c cs1 IH]; intros p fs; simpl.
  { intros [= -> <-]. by destruct (feed_all cs2 p') as [[]|]. }
  destruct (feed c p) as [[p1 f]|]; [|done]. simpl.
  destruct (feed_all cs1 p1) as [[p2 fs1]|] eqn:E1; [|done]. simpl. intros [= <- <-].
  rewrite (IH _ _ E1). destruct (feed_all cs2 p2) as [[]|]; [|done]. simpl. by rewrite app_assoc.
Qed.

(** The text changes the parser and yields nothing. *)
Definition eats (cs : list char) (p p' : Parser.t) : Prop := feed_all cs p = Some (p', []).

Lemma eats_nil p : eats [] p p.
Proof. done. Qed.

Lemma eats_cons c cs p p1 p' : feed c p = Some (p1, None) → eats cs p1 p' → eats (c :: cs) p p'.
Proof. unfold eats. intros H1 H2. simpl. rewrite H1. simpl. by rewrite H2. Qed.

Lemma eats_app cs1 cs2 p p1 p' : eats cs1 p p1 → eats cs2 p1 p' → eats (cs1 ++ cs2) p p'.
Proof. unfold eats. intros H1 H2. rewrite (feed_all_app _ _ _ _ _ H1), H2. done. Qed.

Lemma eats_emit cs c p p1 p' f : eats cs p p1 → feed c p1 = Some (p', f) →
  feed_all (cs ++ [c]) p = Some (p', option_list f).
Proof. unfold eats. intros H1 H2. rewrite (feed_all_app _ _ _ _ _ H1). simpl. rewrite H2. simpl. by rewrite app_nil_r. Qed.

(** * Numbers *)

Lemma digit_cases (P : N → Prop) : Forall P [0; 1; 2; 3; 4; 5; 6; 7; 8; 9]%N → ∀ d, (d < 10)%N → P d.
Proof.
  rewrite !Forall_cons. intros Hall d Hd. destruct_and! Hall.
  assert (d = 0 ∨ d = 1 ∨ d = 2 ∨ d = 3 ∨ d = 4 ∨ d = 5 ∨ d = 6 ∨ d = 7 ∨ d = 8 ∨ d = 9)%N as Hc by lia.
  by destruct_or! Hc; subst.
Qed.

(** A text is a sequence of digits. *)
Definition digits (cs : list char) (ds : list N) : Prop :=
  cs = (λ d, 48 + d)%N <$> ds ∧ Forall (λ d, d < 10)%N ds ∧ ds ≠ [].

Definition value (ds : list N) (v : N) : N := foldl (λ v d, 10 * v + d)%N v ds.

Lemma decimal_go_digits fuel n : (n < 10 ^ N.of_nat (S fuel))%N →
  ∃ ds, digits (decimal_go (S fuel) n) ds ∧ value ds 0 = n.
Proof.
  revert n. induction fuel as [|fuel IH]; intros n Hn; cbn [decimal_go];
    (destruct (N.ltb_spec n 10) as [Hlt|Hge];
      [exists [n]; split; [split_and!; [done|by repeat constructor|done]|cbn; lia]|]).
  - change (10 ^ N.of_nat 1)%N with 10%N in Hn. lia.
  - destruct (IH (n / 10)%N) as (ds & (E & Hf & Hne) & Hv).
    { rewrite Nat2N.inj_succ, N.pow_succ_r' in Hn. apply N.Div0.div_lt_upper_bound. lia. }
    cbn [decimal_go] in E. rewrite E.
    exists (ds ++ [n `mod` 10]%N). split; [split_and!|].
    + by rewrite fmap_app.
    + apply Forall_app. split; [done|]. constructor; [by apply N.mod_lt|done].
    + by destruct ds.
    + unfold value in *. rewrite foldl_app, Hv. cbn. pose proof (N.div_mod' n 10). lia.
Qed.

Lemma decimal_digits n : (n < 65536)%N → ∃ ds, digits (decimal n) ds ∧ value ds 0 = n.
Proof. intros Hn. apply decimal_go_digits. change (N.of_nat 20) with 20%N. lia. Qed.

(** Adding digits with 16-bit wrap-around comes to the wrapped sum. *)
Lemma wrapped_value ds v :
  foldl (λ v d, as_u16 (10 * v + d))%N (as_u16 v) ds = as_u16 (value ds v).
Proof.
  revert v. induction ds as [|d ds IH]; intros v; [done|].
  change (value (d :: ds) v) with (value ds (10 * v + d)%N). rewrite <- IH. cbn [foldl]. f_equal.
  unfold as_u16. rewrite N.Div0.add_mod, N.Div0.mul_mod_idemp_r, <- N.Div0.add_mod. done.
Qed.

(** * Parameters *)

Lemma modify_middle {A} (a : list A) x b f y :
  f x = Some y → modify (length a) f (a ++ x :: b) = Some (a ++ y :: b).
Proof. intros Hf. unfold modify. rewrite list_lookup_middle by done. simpl. rewrite Hf. simpl. by rewrite <- (Nat.add_0_r (length a)), insert_app_r. Qed.

Lemma digit_arms d : (d < 10)%N →
  input2 (48 + d) = (48 + d)%N ∧ arm CsiParam (48 + d) = PutParam ∧ arm CsiEntry (48 + d) = ParamTo CsiParam ∧
  arm DcsParam (48 + d) = PutParam ∧ arm DcsEntry (48 + d) = ParamTo DcsParam.
Proof. revert d. apply digit_cases. by repeat constructor. Qed.

(** The parser of state [st] whose current parameter has [pre] before its current part *)
Definition at_part (st : State) (before : list Param.t) (pre : list N) (v : N) (post : list N)
    (after : list Param.t) (i : option char) : Parser.t :=
  Parser.Mk st (before ++ Param.Mk (length pre) (pre ++ v :: post) :: after) (length before) i.

Lemma param_digit st before pre v post after i d : (d < 10)%N →
  param (48 + d)%N (at_part st before pre v post after i)
    = Some (at_part st before pre (as_u16 (10 * v + d)) post after i).
Proof.
  intros Hd. unfold param. rewrite !decide_False by lia. cbv zeta.
  replace (as_u8 (48 + d)) with (48 + d)%N by (unfold as_u8; rewrite N.mod_small; lia).
  rewrite decide_True by lia. simpl. replace (48 + d - 48)%N with d by lia.
  rewrite (modify_middle before _ after _ (Param.Mk (length pre) (pre ++ as_u16 (10 * v + d) :: post))).
  - done.
  - unfold Param.add_digit. simpl.
    by rewrite (modify_middle pre v post _ (as_u16 (10 * v + d))%N).
Qed.

Lemma feed_digit before pre v post after i d : (d < 10)%N →
  feed (48 + d)%N (at_part CsiParam before pre v post after i)
    = Some (at_part CsiParam before pre (as_u16 (10 * v + d)) post after i, None).
Proof.
  intros Hd. destruct (digit_arms d Hd) as (Hi & Ha & _). unfold feed. cbn [state at_part].
  rewrite Hi, Ha, param_digit by done. done.
Qed.

Lemma eats_digits before pre v post after i ds : Forall (λ d, d < 10)%N ds →
  eats ((λ d, 48 + d)%N <$> ds) (at_part CsiParam before pre v post after i)
    (at_part CsiParam before pre (foldl (λ v d, as_u16 (10 * v + d))%N v ds) post after i).
Proof.
  intros Hds. revert v. induction Hds as [|d ds Hd _ IH]; intros v; [apply eats_nil|].
  eapply eats_cons; [by apply feed_digit|apply IH].
Qed.

Lemma eats_decimal before pre post after i n : (n < 65536)%N →
  eats (decimal n) (at_part CsiParam before pre 0 post after i) (at_part CsiParam before pre n post after i).
Proof.
  intros Hn. destruct (decimal_digits n Hn) as (ds & (-> & Hf & _) & Hv).
  pose proof (eats_digits before pre 0 post after i ds Hf) as He.
  pose proof (wrapped_value ds 0) as Hw. change (as_u16 0) with 0%N in Hw. rewrite Hw, Hv in He.
  unfold as_u16 in He. by rewrite N.mod_small in He by done.
Qed.

(** ** Parameters of several parts *)

Lemma feed_colon before pre v post after i : length pre < 5 →
  feed 0x3a%N (at_part CsiParam before pre v (0%N :: post) after i)
    = Some (at_part CsiParam before (pre ++ [v]) 0 post after i, None).
Proof.
  intros Hl. unfold feed. cbn [state at_part]. change (arm CsiParam (input2 0x3a)) with PutParam.
  unfold param. cbn [params cur_param at_part].
  rewrite (modify_middle before _ after _ (Param.Mk (length pre + 1) (pre ++ v :: 0%N :: post))).
  - simpl. unfold at_part. by rewrite length_app, <- (app_assoc pre [v]).
  - unfold Param.add_part. simpl. by rewrite Nat.min_l by lia.
Qed.

Definition param_of (parts : list N) : Param.t :=
  Param.Mk (length parts - 1) (parts ++ replicate (MAX_PARAM_LEN - length parts) 0%N).

(** Parts that fit a parameter *)
Definition parts_ok (parts : list N) : Prop :=
  parts ≠ [] ∧ length parts ≤ MAX_PARAM_LEN ∧ Forall (λ n, n < 65536)%N parts.

Definition show (parts : list N) : list char := join 0x3a%N (decimal <$> parts).

Lemma eats_parts before after i parts : ∀ pre,
  parts ≠ [] → length pre + length parts ≤ MAX_PARAM_LEN → Forall (λ n, n < 65536)%N parts →
  eats (show parts) (at_part CsiParam before pre 0 (replicate (5 - length pre) 0%N) after i)
    (Parser.Mk CsiParam (before ++ param_of (pre ++ parts) :: after) (length before) i).
Proof.
  unfold show, MAX_PARAM_LEN. induction parts as [|n parts IH]; intros pre Hne Hlen Hf; [done|].
  apply Forall_cons in Hf as [Hn Hf]. destruct parts as [|m parts].
  - cbn [fmap list_fmap join]. cbn [length] in Hlen.
    replace (Parser.Mk CsiParam _ _ i) with (at_part CsiParam before pre n (replicate (5 - length pre) 0%N) after i).
    { by apply eats_decimal. }
    unfold at_part, param_of. f_equal. f_equal. f_equal; rewrite length_app; cbn [length].
    + f_equal; [lia|]. rewrite <- app_assoc. cbn [app]. do 3 f_equal. unfold MAX_PARAM_LEN. lia.
  - cbn [length] in Hlen. change (decimal <$> n :: m :: parts) with (decimal n :: (decimal <$> m :: parts)).
    change (join 0x3a%N (decimal n :: (decimal <$> m :: parts)))
      with (decimal n ++ 0x3a%N :: join 0x3a%N (decimal <$> m :: parts)).
    eapply eats_app; [by apply eats_decimal|].
    replace (5 - length pre) with (S (5 - length (pre ++ [n]))) by (rewrite length_app; cbn; lia).
    eapply eats_cons; [apply feed_colon; lia|].
    replace (pre ++ n :: m :: parts) with ((pre ++ [n]) ++ m :: parts) by by rewrite <- app_assoc.
    apply IH; [done|rewrite length_app; cbn; lia|done].
Qed.

Lemma eats_param before after i parts : parts_ok parts →
  eats (show parts) (Parser.Mk CsiParam (before ++ Param.default :: after) (length before) i)
    (Parser.Mk CsiParam (before ++ param_of parts :: after) (length before) i).
Proof. intros (Hne & Hl & Hf). exact (eats_parts before after i parts [] Hne Hl Hf). Qed.

(** ** Lists of parameters *)

Lemma feed_semicolon before q after i : length before + 1 < PARAMS_LEN →
  feed 0x3b%N (Parser.Mk CsiParam (before ++ q :: after) (length before) i)
    = Some (Parser.Mk CsiParam (before ++ q :: after) (length before + 1) i, None).
Proof.
  intros Hl. unfold feed. cbn [state]. change (arm CsiParam (input2 0x3b)) with PutParam.
  unfold param. cbn [cur_param params state intermediate]. rewrite decide_True by done. cbv zeta.
  by rewrite decide_False by (unfold PARAMS_LEN in *; lia).
Qed.

Lemma eats_params i ps : ∀ before,
  ps ≠ [] → Forall parts_ok ps → length before + length ps ≤ PARAMS_LEN →
  eats (join 0x3b%N (show <$> ps))
    (Parser.Mk CsiParam (before ++ replicate (PARAMS_LEN - length before) Param.default) (length before) i)
    (Parser.Mk CsiParam (before ++ (param_of <$> ps) ++
        replicate (PARAMS_LEN - (length before + length ps)) Param.default)
      (length before + length ps - 1) i).
Proof.
  induction ps as [|p ps IH]; intros before Hne Hf Hlen; [done|]. apply Forall_cons in Hf as [Hp Hf].
  cbn [length] in Hlen.
  replace (PARAMS_LEN - length before) with (S (PARAMS_LEN - (length before + 1))) by lia.
  cbn [replicate].
  destruct ps as [|p' ps].
  - cbn [fmap list_fmap join app length]. replace (length before + 1 - 1) with (length before) by lia.
    by apply eats_param.
  - change (join 0x3b%N (show <$> p :: p' :: ps))
      with (show p ++ 0x3b%N :: join 0x3b%N (show <$> p' :: ps)).
    eapply eats_app; [by apply eats_param|].
    eapply eats_cons; [apply feed_semicolon; cbn [length] in Hlen; lia|].
    pose proof (IH (before ++ [param_of p]) ltac:(done) Hf) as IH'. rewrite length_app in IH'. cbn [length] in IH'.
    rewrite <- !app_assoc in IH'. cbn [app] in IH'.
    replace (length before + length (p :: p' :: ps)) with (length before + 1 + S (length ps)) by (cbn [length]; lia).
    apply IH'. cbn [length] in *. lia.
Qed.

(** * Sequences *)

(** A parser between sequences *)
Definition ground (q : Parser.t) : Prop := state q = Ground ∧ wf_parser q ∧ tidy q.

Definition clean (st : State) (i : option char) : Parser.t :=
  Parser.Mk st (replicate PARAMS_LEN Param.default) 0 i.

Lemma feed_escape q : wf_parser q → tidy q → feed 0x1b%N q = Some (clean Escape None, None).
Proof.
  intros Hq Ht. assert (Ha : arm (state q) (input2 0x1b) = ClearTo Escape) by by destruct (state q).
  unfold feed. rewrite Ha.
  destruct (Safe_elim _ _ (parser_clear_Safe (set_state Escape q) (proj1 (set_state_good Escape q Hq))))
    as (p' & -> & _ & Hs & Hc & Hi & Hp). simpl. destruct p' as [st ps cur i]. cbn in *. subst.
  rewrite Hp; [done|]. by destruct Ht.
Qed.

Lemma eats_csi_open q : wf_parser q → tidy q → eats [0x1b; 0x5b]%N q (clean CsiEntry None).
Proof. intros Hq Ht. eapply eats_cons; [by apply feed_escape|]. by eapply eats_cons. Qed.

Lemma decimal_head n : (n < 65536)%N → ∃ d cs, (d < 10)%N ∧ decimal n = (48 + d)%N :: cs.
Proof.
  intros Hn. destruct (decimal_digits n Hn) as ([|d ds] & (-> & Hf & Hne) & _); [done|].
  apply Forall_cons in Hf as [Hd _]. by exists d, ((λ d, 48 + d)%N <$> ds).
Qed.

Lemma show_head parts : parts_ok parts → ∃ d cs, (d < 10)%N ∧ show parts = (48 + d)%N :: cs.
Proof.
  intros (Hne & _ & Hf). destruct parts as [|n parts]; [done|]. apply Forall_cons in Hf as [Hn _].
  destruct (decimal_head n Hn) as (d & cs & Hd & E). unfold show.
  change (decimal <$> n :: parts) with (decimal n :: (decimal <$> parts)). rewrite E.
  exists d. destruct (decimal <$> parts); cbn [join app]; eauto.
Qed.

(** The first digit takes the parser from the entry of the sequence to its parameters. *)
Lemma eats_entry d cs ps i p' : (d < 10)%N →
  eats ((48 + d)%N :: cs) (Parser.Mk CsiParam ps 0 i) p' → eats ((48 + d)%N :: cs) (Parser.Mk CsiEntry ps 0 i) p'.
Proof.
  intros Hd. destruct (digit_arms d Hd) as (Hi & Hp & He & _). unfold eats. cbn [feed_all].
  unfold feed. cbn [state]. by rewrite Hi, Hp, He.
Qed.

(** The parser that has read the parameters [ps] *)
Definition csi_parser (ps : list (list N)) (i : option char) : Parser.t :=
  Parser.Mk CsiParam ((param_of <$> ps) ++ replicate (PARAMS_LEN - length ps) Param.default) (length ps - 1) i.

Definition params_ok (ps : list (list N)) : Prop := Forall parts_ok ps ∧ length ps ≤ PARAMS_LEN.

Lemma eats_clean_params ps i : params_ok ps →
  eats (join 0x3b%N (show <$> ps)) (clean CsiParam i) (csi_parser ps i).
Proof.
  intros [Hf Hl]. destruct ps as [|p ps]; [apply eats_nil|]. by apply (eats_params i (p :: ps) []).
Qed.

Lemma show_all_head ps : ps ≠ [] → params_ok ps →
  ∃ d cs, (d < 10)%N ∧ join 0x3b%N (show <$> ps) = (48 + d)%N :: cs.
Proof.
  intros Hne [Hok _]. destruct ps as [|p ps]; [done|]. apply Forall_cons in Hok as [Hp _].
  destruct (show_head p Hp) as (d & cs & Hd & E). change (show <$> p :: ps) with (show p :: (show <$> ps)).
  rewrite E. destruct (show <$> ps); cbn [join app]; eauto.
Qed.

(** Printed parameters right after the introducer *)
Lemma eats_csi_entry ps : ps ≠ [] → params_ok ps →
  eats (join 0x3b%N (show <$> ps)) (clean CsiEntry None) (csi_parser ps None).
Proof.
  intros Hne Hps. pose proof (eats_clean_params ps None Hps) as He.
  destruct (show_all_head ps Hne Hps) as (d & cs & Hd & E). rewrite E in *. by apply eats_entry.
Qed.

Lemma eats_csi ps q : ps ≠ [] → params_ok ps → wf_parser q → tidy q →
  eats ([0x1b; 0x5b]%N ++ join 0x3b%N (show <$> ps)) q (csi_parser ps None).
Proof. intros Hne Hps Hq Ht. eapply eats_app; [by apply eats_csi_open|by apply eats_csi_entry]. Qed.

Lemma eats_csi_private ps q : params_ok ps → wf_parser q → tidy q →
  eats ([0x1b; 0x5b; 0x3f]%N ++ join 0x3b%N (show <$> ps)) q (csi_parser ps (Some 0x3f%N)).
Proof.
  intros Hps Hq Ht. change ([0x1b; 0x5b; 0x3f]%N ++ ?s) with ([0x1b; 0x5b]%N ++ [0x3f]%N ++ s).
  eapply eats_app; [by apply eats_csi_open|]. eapply eats_app; [|by apply eats_clean_params].
  by eapply eats_cons.
Qed.

(** * Functions *)

(** The text is read as the function, and as nothing else. *)
Definition reads (s : list char) (f : Fun.t) : Prop := ∀ q, ground q →
  ∃ q', feed_all s q = Some (q', [f]) ∧ ground q'.

Lemma reads_intro s f :
  (∀ q, ground q → ∃ q', feed_all s q = Some (q', [f]) ∧ state q' = Ground) → reads s f.
Proof.
  intros Hs q Hq. destruct (Hs q Hq) as (q' & E & Hg). exists q'. split; [done|].
  destruct Hq as (_ & Hw & Ht). pose proof (feed_all_Safe s q Hw) as Hsafe. rewrite E in Hsafe.
  destruct Hsafe as [[Hw' Ht'] _]. split_and!; auto.
Qed.

Definition final_ok (c : char) : Prop := arm CsiParam (input2 c) = CsiDispatch.

Lemma emit_csi c p f : final_ok c → state p = CsiParam →
  csi_dispatch c (set_state Ground p) = Some (Some f) → feed c p = Some (set_state Ground p, Some f).
Proof. intros Ha Hs Hd. unfold feed. rewrite Hs, Ha. cbv zeta. by rewrite Hd. Qed.

Lemma reads_csi ps c f : ps ≠ [] → params_ok ps → final_ok c →
  csi_dispatch c (set_state Ground (csi_parser ps None)) = Some (Some f) →
  reads (push_csi None (show <$> ps) c) f.
Proof.
  intros Hne Hps Hc Hd. apply reads_intro. intros q (_ & Hw & Ht).
  exists (set_state Ground (csi_parser ps None)). split; [|done].
  change (push_csi None (show <$> ps) c) with (([0x1b; 0x5b]%N ++ join 0x3b%N (show <$> ps)) ++ [c]).
  exact (eats_emit _ _ _ _ _ (Some f) (eats_csi ps q Hne Hps Hw Ht)
    (emit_csi c (csi_parser ps None) f Hc eq_refl Hd)).
Qed.

Lemma reads_csi_private ps c f : params_ok ps → final_ok c →
  csi_dispatch c (set_state Ground (csi_parser ps (Some 0x3f%N))) = Some (Some f) →
  reads (push_csi (Some 0x3f%N) (show <$> ps) c) f.
Proof.
  intros Hps Hc Hd. apply reads_intro. intros q (_ & Hw & Ht).
  exists (set_state Ground (csi_parser ps (Some 0x3f%N))). split; [|done].
  change (push_csi (Some 0x3f%N) (show <$> ps) c)
    with (([0x1b; 0x5b; 0x3f]%N ++ join 0x3b%N (show <$> ps)) ++ [c]).
  exact (eats_emit _ _ _ _ _ (Some f) (eats_csi_private ps q Hps Hw Ht)
    (emit_csi c (csi_parser ps (Some 0x3f%N)) f Hc eq_refl Hd)).
Qed.

(** Escape sequences and sequences without parameters: everything after the first
    character is determined. *)
Lemma reads_escape s f : (∃ q', feed_all s (clean Escape None) = Some (q', [f]) ∧ state q' = Ground) →
  reads (0x1b%N :: s) f.
Proof.
  intros (q' & E & Hg). apply reads_intro. intros q (_ & Hw & Ht). exists q'. split; [|done].
  cbn [feed_all]. rewrite feed_escape by done. cbn [mbind option_bind]. by rewrite E.
Qed.

(** A control character *)
Lemma reads_control c f : arm Ground (input2 c) = Execute → execute c = Some f → reads [c] f.
Proof.
  intros Ha He. apply reads_intro. intros q (Hs & _). exists q. split; [|done].
  cbn [feed_all]. unfold feed. by rewrite Hs, Ha, He.
Qed.

Lemma reads_print c : arm Ground (input2 c) = Print → reads [c] (Fun.Print c).
Proof.
  intros Ha. apply reads_intro. intros q (Hs & _). exists q. split; [|done].
  cbn [feed_all]. unfold feed. by rewrite Hs, Ha.
Qed.

(** ** Renditions *)

Definition color_parts (color : Color.t) (base : N) : list N :=
  match color with
  | Color.Indexed c =>
      if (c <? 8)%N then [base + c]%N
      else if (c <? 16)%N then [base + 52 + c]%N
      else [base + 8; 5; c]%N
  | Color.RGB r g b => [base + 8; 2; r; g; b]%N
  end.

(** The parts of the parameter a rendition is printed as *)
Definition sgr_parts (op : SgrOp.t) : list N :=
  match op with
  | SgrOp.Reset => [0]
  | SgrOp.SetBoldIntensity => [1]
  | SgrOp.SetFaintIntensity => [2]
  | SgrOp.SetItalic => [3]
  | SgrOp.SetUnderline => [4]
  | SgrOp.SetBlink => [5]
  | SgrOp.SetInverse => [7]
  | SgrOp.SetStrikethrough => [9]
  | SgrOp.ResetIntensity => [22]
  | SgrOp.ResetItalic => [23]
  | SgrOp.ResetUnderline => [24]
  | SgrOp.ResetBlink => [25]
  | SgrOp.ResetInverse => [27]
  | SgrOp.ResetStrikethrough => [29]
  | SgrOp.SetForegroundColor color => color_parts color 30
  | SgrOp.ResetForegroundColor => [39]
  | SgrOp.SetBackgroundColor color => color_parts color 40
  | SgrOp.ResetBackgroundColor => [49]
  end%N.

Lemma show_color color base : show (color_parts color base) = dump_sgr_color color base.
Proof. destruct color as [c|r g b]; [|done]. cbn [color_parts dump_sgr_color]. by repeat case_match. Qed.

Lemma show_sgr op : show (sgr_parts op) = sgr_param op.
Proof. destruct op; try done; apply show_color. Qed.

Definition op_ok (op : SgrOp.t) : Prop :=
  match op with
  | SgrOp.SetForegroundColor c | SgrOp.SetBackgroundColor c => Color.is_u8 c = true
  | _ => True
  end.

Lemma color_parts_ok color base : Color.is_u8 color = true → (base ≤ 40)%N → parts_ok (color_parts color base).
Proof.
  intros Hc Hb. unfold parts_ok, MAX_PARAM_LEN. destruct color as [c|r g b]; cbn [color_parts Color.is_u8] in *.
  - apply bool_decide_eq_true in Hc.
    destruct (N.ltb_spec c 8); [|destruct (N.ltb_spec c 16)]; split_and!; try done; cbn; try lia;
      repeat constructor; lia.
  - rewrite !andb_true_iff, !bool_decide_eq_true in Hc. destruct_and! Hc.
    split_and!; [done|cbn; lia|repeat constructor; lia].
Qed.

Lemma sgr_parts_ok op : op_ok op → parts_ok (sgr_parts op).
Proof.
  destruct op; cbn [op_ok sgr_parts]; intros Hop;
    try (unfold parts_ok, MAX_PARAM_LEN; split_and!; [done|cbn; lia|repeat constructor; lia]);
    by apply color_parts_ok.
Qed.

Lemma color_cases (P : N → Prop) : (∀ d, (d < 8)%N → P d) → (∀ d, (d < 8)%N → P (8 + d)%N) → ∀ d, (d < 16)%N → P d.
Proof.
  intros H1 H2 d Hd. destruct (N.ltb_spec d 8); [by apply H1|].
  replace d with (8 + (d - 8))%N by lia. apply H2. lia.
Qed.

Lemma small_cases (P : N → Prop) : Forall P [0; 1; 2; 3; 4; 5; 6; 7]%N → ∀ d, (d < 8)%N → P d.
Proof.
  rewrite !Forall_cons. intros Hall d Hd. destruct_and! Hall.
  assert (d = 0 ∨ d = 1 ∨ d = 2 ∨ d = 3 ∨ d = 4 ∨ d = 5 ∨ d = 6 ∨ d = 7)%N as Hc by lia.
  by destruct_or! Hc; subst.
Qed.

Lemma as_u8_small n : (n < 256)%N → as_u8 n = n.
Proof. intros ?. unfold as_u8. by rewrite N.mod_small. Qed.

Lemma used_param_of parts : parts_ok parts → Param.used (param_of parts) = Some parts.
Proof.
  intros (Hne & Hl & _). unfold MAX_PARAM_LEN in Hl. unfold Param.used, param_of. cbn [Param.cur_part Param.parts].
  assert (0 < length parts) by (destruct parts; [done|cbn; lia]).
  replace (length parts - 1 + 1) with (length parts) by lia.
  rewrite decide_True by (rewrite length_app; lia). by rewrite take_app_length.
Qed.

Lemma step_color color : Color.is_u8 color = true → ∀ ps,
  SgrOpsDecoder.step (param_of (color_parts color 30)) ps = Some (Some (SgrOp.SetForegroundColor color), drop 1 ps) ∧
  SgrOpsDecoder.step (param_of (color_parts color 40)) ps = Some (Some (SgrOp.SetBackgroundColor color), drop 1 ps).
Proof.
  destruct color as [c|r g b]; cbn [Color.is_u8]; intros Hc ps.
  - apply bool_decide_eq_true in Hc. destruct (N.ltb_spec c 16) as [Hlt|Hge].
    + clear Hc. revert c Hlt. apply color_cases; apply small_cases; by repeat constructor.
    + unfold color_parts. rewrite (proj2 (N.ltb_ge c 8)), (proj2 (N.ltb_ge c 16)) by lia.
      assert (∀ n, (n < 65536)%N → parts_ok [n; 5; c]%N) as Hok.
      { intros n Hn. split_and!; [done|unfold MAX_PARAM_LEN; cbn; lia|repeat constructor; lia]. }
      unfold SgrOpsDecoder.step. rewrite !used_param_of by (apply Hok; lia).
      cbn -[as_u8]. by rewrite as_u8_small by done.
  - rewrite !andb_true_iff, !bool_decide_eq_true in Hc. destruct_and! Hc.
    assert (∀ n, (n < 65536)%N → parts_ok [n; 2; r; g; b]%N) as Hok.
    { intros n Hn. split_and!; [done|unfold MAX_PARAM_LEN; cbn; lia|repeat constructor; lia]. }
    unfold SgrOpsDecoder.step, color_parts. rewrite !used_param_of by (apply Hok; lia).
    cbn -[as_u8]. unfold SgrOpsDecoder.rgb. by rewrite !as_u8_small by done.
Qed.

Lemma step_op op ps : op_ok op →
  SgrOpsDecoder.step (param_of (sgr_parts op)) ps = Some (Some op, drop 1 ps).
Proof. destruct op; try done; intros Hc; cbn [sgr_parts]; by apply step_color. Qed.

Lemma decode_ops ops : Forall op_ok ops →
  SgrOpsDecoder.decode (param_of <$> (sgr_parts <$> ops)) = Some ops.
Proof.
  intros Hops. unfold SgrOpsDecoder.decode. rewrite !length_fmap.
  induction Hops as [|op ops Hop _ IH]; [done|].
  change (param_of <$> (sgr_parts <$> op :: ops)) with (param_of (sgr_parts op) :: (param_of <$> (sgr_parts <$> ops))).
  cbn [length]. remember (S (length ops)) as fuel eqn:Hfuel. cbn [SgrOpsDecoder.decode_go].
  cbn [length SgrOpsDecoder.next]. rewrite step_op by done. cbn [mbind option_bind drop]. rewrite drop_0. by rewrite IH.
Qed.

(** ** Lists of modes *)

Lemma used_csi ps i : ps ≠ [] → length ps ≤ PARAMS_LEN →
  used_params (set_state Ground (csi_parser ps i)) = Some (param_of <$> ps).
Proof.
  intros Hne Hl. unfold used_params. cbn [cur_param params set_state csi_parser].
  destruct ps as [|p ps]; [done|]. cbn [length] in *.
  rewrite decide_True by (rewrite length_app, length_fmap, length_replicate; cbn [length]; lia).
  f_equal. rewrite take_app_le by (rewrite length_fmap; cbn [length]; lia).
  apply take_ge. rewrite length_fmap. cbn [length]. lia.
Qed.

Lemma filter_mapM_all {A B} (f : A → option (option B)) (g : B → A) l :
  (∀ x, f (g x) = Some (Some x)) → filter_mapM f (g <$> l) = Some l.
Proof.
  intros Hf. unfold filter_mapM. assert (E : mapM f (g <$> l) = Some (Some <$> l)).
  { apply mapM_Some_2, Forall2_fmap, Forall_Forall2_diag, Forall_true. intros x. apply Hf. }
  rewrite E. change (Some (omap id (Some <$> l)) = Some l). f_equal. clear E.
  induction l as [|x l IH]; [done|]. change (omap id (Some <$> x :: l)) with (x :: omap id (Some <$> l)). by rewrite IH.
Qed.

Lemma collect_slice {A} cap (fill : A) l m :
  SmallVec.collect cap fill l = Some m → SmallVec.as_slice m = Some l ∧ SmallVec.len m = length l.
Proof.
  intros E. pose proof (SmallVec.collect_repr cap fill l) as Hr. rewrite E in Hr. cbn in Hr.
  split; [apply Hr|by eapply SmallVec.len_repr].
Qed.

Lemma singles_ok (ns : list N) : Forall (λ n, n < 65536)%N ns → Forall parts_ok ((λ n, [n]) <$> ns).
Proof.
  intros Hns. apply Forall_fmap. eapply Forall_impl; [exact Hns|]. intros n Hn. cbv beta.
  split_and!; [done|unfold MAX_PARAM_LEN; cbn; lia|by repeat constructor].
Qed.

Lemma show_singles (ns : list N) : show <$> ((λ n, [n]) <$> ns) = decimal <$> ns.
Proof. by rewrite <- list_fmap_compose. Qed.

(** ** Every function *)

(** Functions whose parameters are in the ranges their types and the parser give them:
    the collections are those that collecting their values makes, and hold no more values
    than a sequence has parameters. *)
Definition printable (f : Fun.t) : Prop :=
  match f with
  | Fun.Print ch => (0x20 ≤ ch < 0x80)%N ∨ (0xa0 ≤ ch)%N
  | Fun.Cbt n | Fun.Cha n | Fun.Cht n | Fun.Cnl n | Fun.Cpl n | Fun.Cub n | Fun.Cud n | Fun.Cuf n
  | Fun.Cuu n | Fun.Dch n | Fun.Dl n | Fun.Ech n | Fun.Ich n | Fun.Il n | Fun.Rep n | Fun.Sd n
  | Fun.Su n | Fun.Vpa n | Fun.Vpr n => (n < 65536)%N
  | Fun.Cup n m | Fun.Decstbm n m | Fun.Xtwinops (XtwinopsOp.Resize n m) => (n < 65536)%N ∧ (m < 65536)%N
  | Fun.Decset modes | Fun.Decrst modes => ∃ l, DecModes.collect l = Some modes ∧ length l ≤ PARAMS_LEN
  | Fun.Sm modes | Fun.Rm modes => ∃ l, AnsiModes.collect l = Some modes ∧ length l ≤ PARAMS_LEN
  | Fun.Sgr ops => ∃ l, SgrOps.collect l = Some ops ∧ length l ≤ PARAMS_LEN ∧ Forall op_ok l
  | _ => True
  end.

(** The function prints as a text that is read as the function. *)
Definition prints (f : Fun.t) : Prop := ∃ s, dump_function f = Some s ∧ reads s f.

Lemma prints_intro f s : dump_function f = Some s → reads s f → prints f.
Proof. intros. by exists s. Qed.

Lemma params_ok_singles ns : Forall (λ n, n < 65536)%N ns → length ns ≤ PARAMS_LEN →
  params_ok ((λ n, [n]) <$> ns).
Proof. intros Hns Hl. split; [by apply singles_ok|by rewrite length_fmap]. Qed.

Lemma prints_csi f ns c : ns ≠ [] → Forall (λ n, n < 65536)%N ns → length ns ≤ PARAMS_LEN → final_ok c →
  dump_function f = Some (push_csi None (decimal <$> ns) c) →
  csi_dispatch c (set_state Ground (csi_parser ((λ n, [n]) <$> ns) None)) = Some (Some f) → prints f.
Proof.
  intros Hne Hns Hl Hc Hs Hd. eapply prints_intro; [exact Hs|]. rewrite <- show_singles.
  apply reads_csi; [by destruct ns|by apply params_ok_singles|done|done].
Qed.

Lemma prints_one (f : N → Fun.t) c n : (n < 65536)%N → final_ok c →
  (∀ n, dump_function (f n) = Some (push_csi None (decimal <$> [n]) c)) →
  (∀ n, csi_dispatch c (set_state Ground (csi_parser [[n]] None)) = Some (Some (f n))) → prints (f n).
Proof.
  intros Hn Hc Hs Hd. apply (prints_csi _ [n] c); [done|by apply Forall_singleton|unfold PARAMS_LEN; cbn; lia|
    exact Hc|apply Hs|apply Hd].
Qed.

Lemma prints_two (f : N → N → Fun.t) c n m : (n < 65536)%N → (m < 65536)%N → final_ok c →
  (∀ n m, dump_function (f n m) = Some (push_csi None (decimal <$> [n; m]) c)) →
  (∀ n m, csi_dispatch c (set_state Ground (csi_parser [[n]; [m]] None)) = Some (Some (f n m))) → prints (f n m).
Proof.
  intros Hn Hm Hc Hs Hd.
  apply (prints_csi _ [n; m] c); [done|by rewrite !Forall_cons|unfold PARAMS_LEN; cbn; lia|
    exact Hc|apply Hs|apply Hd].
Qed.

(** The modes of a private sequence *)
Lemma prints_dec_modes (f : DecModes.t → Fun.t) c l modes :
  DecModes.collect l = Some modes → length l ≤ PARAMS_LEN → final_ok c →
  dump_function (f modes) =
    (l ← SmallVec.as_slice modes; Some (push_csi (Some 0x3f%N) ((decimal ∘ dec_mode_param) <$> l) c)) →
  (∀ p, intermediate p = Some 0x3f%N → csi_dispatch c p =
    (ps ← used_params p; modes ← filter_mapM dec_mode ps; modes ← DecModes.collect modes; Some (Some (f modes)))) →
  prints (f modes).
Proof.
  intros Hl Hlen Hc Hs Hd. destruct (collect_slice _ _ _ _ Hl) as [Hsl _]. rewrite Hsl in Hs. cbn in Hs.
  eapply prints_intro; [exact Hs|].
  assert (E : (decimal ∘ dec_mode_param) <$> l = show <$> ((λ m, [dec_mode_param m]) <$> l)) by by rewrite <- list_fmap_compose.
  rewrite E. apply reads_csi_private.
  - split; [|by rewrite length_fmap]. apply Forall_fmap, Forall_true. intros m. cbn.
    split_and!; [done|unfold MAX_PARAM_LEN; cbn; lia|constructor; [by destruct m|constructor]].
  - done.
  - rewrite Hd by done. destruct l as [|m l].
    + cbn in Hl. injection Hl as <-. reflexivity.
    + rewrite used_csi by (rewrite ?length_fmap; done). cbn [mbind option_bind].
      rewrite <- list_fmap_compose, filter_mapM_all by by intros [].
      cbn [mbind option_bind]. by rewrite Hl.
Qed.

Lemma prints_ansi_modes (f : AnsiModes.t → Fun.t) c l modes :
  AnsiModes.collect l = Some modes → length l ≤ PARAMS_LEN → final_ok c →
  dump_function (f modes) =
    (l ← SmallVec.as_slice modes; Some (push_csi None ((decimal ∘ ansi_mode_param) <$> l) c)) →
  (∀ p, intermediate p = None → csi_dispatch c p =
    (ps ← used_params p; modes ← filter_mapM ansi_mode ps; modes ← AnsiModes.collect modes; Some (Some (f modes)))) →
  (l = [] → prints (f modes)) → prints (f modes).
Proof.
  intros Hl Hlen Hc Hs Hd Hnil. destruct l as [|m l]; [by apply Hnil|].
  destruct (collect_slice _ _ _ _ Hl) as [Hsl _]. rewrite Hsl in Hs. cbn [mbind option_bind] in Hs.
  eapply prints_intro; [exact Hs|].
  assert (E : (decimal ∘ ansi_mode_param) <$> m :: l = show <$> ((λ m, [ansi_mode_param m]) <$> m :: l))
    by by rewrite <- list_fmap_compose.
  rewrite E. apply reads_csi; [done| |done|].
  - split; [|by rewrite length_fmap]. apply Forall_fmap, Forall_true. intros x. cbn.
    split_and!; [done|unfold MAX_PARAM_LEN; cbn; lia|constructor; [by destruct x|constructor]].
  - rewrite Hd by done. rewrite used_csi by (rewrite ?length_fmap; done). cbn [mbind option_bind].
    rewrite <- list_fmap_compose, filter_mapM_all by by intros [].
    cbn [mbind option_bind]. by rewrite Hl.
Qed.

Lemma prints_sgr l ops : SgrOps.collect l = Some ops → length l ≤ PARAMS_LEN → Forall op_ok l → prints (Fun.Sgr ops).
Proof.
  intros Hl Hlen Hok. destruct (collect_slice _ _ _ _ Hl) as [Hsl Hn].
  destruct l as [|op l].
  - cbn in Hl. injection Hl as <-. eexists. split; [reflexivity|]. apply reads_escape. by eexists.
  - assert (Hs : dump_function (Fun.Sgr ops) = Some (push_csi None (sgr_param <$> op :: l) 0x6d%N)).
    { cbn [dump_function]. unfold SmallVec.is_empty. rewrite Hn. by rewrite Hsl. }
    eapply prints_intro; [exact Hs|].
    assert (E : sgr_param <$> op :: l = show <$> (sgr_parts <$> op :: l)).
    { rewrite <- list_fmap_compose. apply list_fmap_ext. intros _ x _. symmetry. apply show_sgr. }
    rewrite E. apply reads_csi; [done| |done|].
    + split; [|by rewrite length_fmap]. apply Forall_fmap. eapply Forall_impl; [exact Hok|]. apply sgr_parts_ok.
    + assert (Ed : ∀ p, intermediate p = None → csi_dispatch 0x6d%N p =
        (ps ← used_params p; ops ← SgrOpsDecoder.decode ps; ops ← SgrOps.collect ops; Some (Some (Fun.Sgr ops)))).
      { intros p Hp. unfold csi_dispatch. by rewrite Hp. }
      rewrite Ed by done.
      rewrite used_csi by (rewrite ?length_fmap; done). cbn [mbind option_bind].
      rewrite decode_ops by done. cbn [mbind option_bind]. by rewrite Hl.
Qed.

Lemma prints_escape s f : dump_function f = Some (0x1b%N :: s) →
  (∃ q', feed_all s (clean Escape None) = Some (q', [f]) ∧ state q' = Ground) → prints f.
Proof. intros Hs Hr. eapply prints_intro; [exact Hs|]. by apply reads_escape. Qed.

Lemma prints_control c f : dump_function f = Some [c] → arm Ground (input2 c) = Execute →
  execute c = Some f → prints f.
Proof. intros Hs Ha He. eapply prints_intro; [exact Hs|]. by apply reads_control. Qed.

Lemma print_arm ch : (0x20 ≤ ch < 0x80)%N ∨ (0xa0 ≤ ch)%N → arm Ground (input2 ch) = Print.
Proof.
  unfold input2. intros Hc. destruct (N.leb_spec 0xa0 ch); [done|].
  unfold arm, within, rng. cbn [existsb bool_decide].
  rewrite (proj2 (N.leb_le 0x20 ch)), (proj2 (N.leb_le ch 0x7f)) by lia. done.
Qed.

Ltac prints_params L := eapply L; [eassumption..| |intros; reflexivity|]; [reflexivity|intros; reflexivity].

(** Whatever a printable function prints is read back as that function. *)
Lemma printable_prints f : printable f → prints f.
Proof.
  destruct f; intros Hf; cbn [printable] in Hf;
    try (by eapply prints_control);
    try (by eapply prints_escape; [reflexivity|by eexists]);
    try (prints_params prints_one).
  all: try (destruct Hf; prints_params prints_two).
  all: try (match goal with |- prints (Fun.Ctc ?x) => destruct x | |- prints (Fun.Ed ?x) => destruct x
              | |- prints (Fun.El ?x) => destruct x | |- prints (Fun.Tbc ?x) => destruct x
              | |- prints (Fun.G1d4 ?x) => destruct x | |- prints (Fun.Gzd4 ?x) => destruct x end;
            by eapply prints_escape; [reflexivity|by eexists]).
  - destruct Hf as (l & Hl & Hlen). by apply (prints_dec_modes Fun.Decrst 0x6c l); try (intros p Hp; unfold csi_dispatch; rewrite Hp).
  - destruct Hf as (l & Hl & Hlen). by apply (prints_dec_modes Fun.Decset 0x68 l); try (intros p Hp; unfold csi_dispatch; rewrite Hp).
  - eapply prints_intro; [reflexivity|]. by apply reads_print, print_arm.
  - destruct Hf as (l & Hl & Hlen). apply (prints_ansi_modes Fun.Rm 0x6c l); try done.
    + intros p Hp. unfold csi_dispatch. by rewrite Hp.
    + intros ->. cbn in Hl. injection Hl as <-. by eapply prints_escape; [reflexivity|by eexists].
  - destruct Hf as (l & Hl & Hlen & Hok). by eapply prints_sgr.
  - destruct Hf as (l & Hl & Hlen). apply (prints_ansi_modes Fun.Sm 0x68 l); try done.
    + intros p Hp. unfold csi_dispatch. by rewrite Hp.
    + intros ->. cbn in Hl. injection Hl as <-. by eapply prints_escape; [reflexivity|by eexists].
  - destruct op as [n m], Hf as [Hn Hm].
    apply (prints_csi _ [8%N; m; n] 0x74); [done|by rewrite !Forall_cons|unfold PARAMS_LEN; cbn; lia|reflexivity..].
Qed.

(** So are lists of functions, one after the other. *)
Lemma printable_all funs : Forall printable funs → ∃ s, dump_functions funs = Some s ∧
  ∀ q, ground q → ∃ q', feed_all s q = Some (q', funs) ∧ ground q'.
Proof.
  induction 1 as [|f funs Hf _ (s2 & Hs2 & IH)]; [exists []; split; [done|]; intros q Hq; by exists q|].
  destruct (printable_prints f Hf) as (s1 & Hs1 & Hr). exists (s1 ++ s2). cbn [dump_functions].
  rewrite Hs1. cbn [mbind option_bind]. rewrite Hs2. split; [done|]. intros q Hq.
  destruct (Hr q Hq) as (q1 & E1 & Hq1). destruct (IH q1 Hq1) as (q2 & E2 & Hq2).
  exists q2. split; [|done]. by rewrite (feed_all_app _ _ _ _ _ E1), E2.
Qed.
