(* ===== verification/DumpResume.v ===== *)
(** Every function the parser yields is one that [parser::dump] prints, and a printed
    unfinished sequence puts another parser where the first one was: from then on the two
    read the same. *)

From S2P Require Import Prelude.
From S2P Require Import Cells.
From S2P Require Import Functions.
From S2P Require Import Terminal.
From S2P Require Import Parser.
From S2P Require Import ParserInv.
From S2P Require Import Vt.
From S2P Require Import Dump.
From S2P Require Import DumpInv.

Import Parser.

(** * Which state an arm is taken from and leads to *)

Definition arm_shape (st : State) (c : char) (a : Arm) : bool :=
  match a with
  | Print => bool_decide (st = Ground) && rng 0x20 0x7f c
  | PutParam => within st [CsiParam; DcsParam] && (rng 0x30 0x39 c || one_of c [0x3b%N] || within st [CsiParam])
  | ClearTo st' => within st' [Escape; CsiEntry; DcsEntry]
  | CsiDispatch => within st [CsiParam; CsiEntry; CsiIntermediate]
  | ParamTo st' =>
      (bool_decide (st = CsiEntry) && bool_decide (st' = CsiParam)
       || bool_decide (st = DcsEntry) && bool_decide (st' = DcsParam)) && (rng 0x30 0x39 c || one_of c [0x3b%N])
  | CollectTo st' =>
      match st' with
      | EscapeIntermediate => bool_decide (st = Escape) && rng 0x20 0x2f c
      | CsiParam => bool_decide (st = CsiEntry) && rng 0x3c 0x3f c
      | CsiIntermediate => within st [CsiParam; CsiEntry] && rng 0x20 0x2f c
      | DcsParam => bool_decide (st = DcsEntry) && rng 0x3c 0x3f c
      | DcsIntermediate => within st [DcsEntry; DcsParam] && rng 0x20 0x2f c
      | _ => false
      end
  | Collect => within st [CsiIntermediate; EscapeIntermediate; DcsIntermediate] && rng 0x20 0x2f c
  | EscDispatch => within st [Escape; EscapeIntermediate]
  | GoTo st' =>
      match st' with
      | Ground | OscString | CsiIgnore | DcsIgnore | SosPmApcString => true
      | DcsPassthrough => within st [DcsEntry; DcsParam; DcsIntermediate]
      | _ => false
      end
  | Execute | ExecuteGround | Nothing => true
  | Unreachable => false
  end.

Lemma arm_shaped st c : arm_shape st (input2 c) (arm st (input2 c)) = true.
Proof.
  apply (all_below_spec 160 (λ st c, arm_shape st c (arm st c)) st (input2 c)).
  - vm_compute. reflexivity.
  - apply input2_lt.
Qed.

(** * Settled parsers *)

Definition plain (p : Parser.t) : Prop := Forall (λ q, Param.cur_part q = 0) (params p).

Definition collected (lo hi : N) (i : option char) : Prop := ∃ c, i = Some c ∧ rng lo hi c = true.

(** What the state of a parser tells about its other fields *)
Definition settled (p : Parser.t) : Prop :=
  wf_parser p ∧ tidy p ∧
  match state p with
  | Escape => intermediate p = None
  | EscapeIntermediate | CsiIntermediate | DcsIntermediate => collected 0x20 0x2f (intermediate p)
  | CsiEntry => p = clean CsiEntry None
  | DcsEntry => p = clean DcsEntry None
  | CsiParam => intermediate p = None ∨ collected 0x3c 0x3f (intermediate p)
  | DcsParam => plain p ∧ (intermediate p = None ∨ collected 0x3c 0x3f (intermediate p))
  | DcsPassthrough => intermediate p = None ∨ collected 0x20 0x2f (intermediate p) ∨ collected 0x3c 0x3f (intermediate p)
  | _ => True
  end.

Lemma settled_new : settled Parser.new.
Proof. split_and!; [apply wf_parser_new|apply tidy_new|done]. Qed.

Lemma clear_to st p : wf_parser p → tidy p → clear (set_state st p) = Some (clean st None).
Proof.
  intros Hp Ht.
  destruct (Safe_elim _ _ (parser_clear_Safe (set_state st p) (proj1 (set_state_good st p Hp))))
    as (p' & -> & _ & Hs & Hc & Hi & Hps). destruct p' as [st' ps cur i]. cbn in *. subst.
  by rewrite Hps by (by destruct Ht).
Qed.

Lemma param_keeps c p p' : param c p = Some p' → state p' = state p ∧ intermediate p' = intermediate p.
Proof.
  unfold param. destruct (decide _); [by intros [= <-]|].
  destruct (decide _).
  - destruct (modify _ _ _); [|done]. by intros [= <-].
  - cbv zeta. destruct (decide _); [|done]. cbn [mbind option_bind]. destruct (modify _ _ _); [|done]. by intros [= <-].
Qed.

Lemma modify_Forall {A} (P : A → Prop) i f (l l' : list A) :
  modify i f l = Some l' → Forall P l → (∀ x y, P x → f x = Some y → P y) → Forall P l'.
Proof.
  unfold modify. destruct (l !! i) as [x|] eqn:Ex; [|done]. cbn. destruct (f x) as [y|] eqn:Ey; [|done].
  cbn. intros [= <-] Hl Hf. apply Forall_insert; [done|]. eapply Hf; [|exact Ey]. by eapply Forall_lookup_1.
Qed.

Lemma param_plain c p p' : c ≠ 0x3a%N → param c p = Some p' → plain p → plain p'.
Proof.
  intros Hc. unfold param. destruct (decide (c = 0x3b)%N); [by intros [= <-]|].
  rewrite decide_False by done. cbv zeta. destruct (decide _); [|done]. cbn [mbind option_bind].
  destruct (modify _ _ _) as [ps|] eqn:Em; [|done]. cbn. intros [= <-] Hp. unfold plain. cbn [params].
  eapply modify_Forall; [exact Em|exact Hp|]. intros x y Hx. unfold Param.add_digit.
  destruct (modify (Param.cur_part x) _ _); [|done]. intros E. by simplify_eq/=.
Qed.

Lemma esc_dispatch_keeps c p p' f : esc_dispatch c p = Some (p', f) → state p = Ground → state p' = Ground.
Proof.
  unfold esc_dispatch. intros E Hs. repeat (case_match; simplify_eq/=; try done).
Qed.

Lemma collected_intro lo hi c c' : (hi < 0x41)%N → rng lo hi (input2 c) = true → c' = Some c → collected lo hi c'.
Proof. intros Hh Hr ->. exists c. split; [done|]. by eapply input2_rng. Qed.

Lemma plain_clean st i : plain (clean st i).
Proof. by apply Forall_replicate. Qed.

(** Every character keeps a parser settled. *)
Lemma settled_step c p p' f : settled p → feed c p = Some (p', f) → settled p'.
Proof.
  intros (Hw & Ht & Hs) E. pose proof (feed_Safe c p Hw) as Hsafe. rewrite E in Hsafe.
  destruct Hsafe as [[Hw' Ht'] _]. split_and!; [done|auto|].
  pose proof (arm_shaped (state p) c) as Ha. unfold feed in E.
  destruct (arm (state p) (input2 c)) as [| |st| |st| | | |st| | |st|]; cbn [arm_shape] in Ha.
  - by simplify_eq.
  - destruct (param c p) as [p1|] eqn:Ep; [|done]. cbn in E. simplify_eq.
    destruct (param_keeps _ _ _ Ep) as [-> ->]. destruct (state p); try done.
    destruct Hs as [Hpl Hi]. split; [|done]. eapply param_plain; [|exact Ep|done].
    intros ->. vm_compute in Ha. done.
  - rewrite clear_to in E by done. cbn in E. simplify_eq. destruct st; done.
  - cbv zeta in E. destruct (csi_dispatch _ _); [|done]. cbn in E. by simplify_eq.
  - destruct (param c (set_state st p)) as [p1|] eqn:Ep; [|done]. cbn in E. simplify_eq.
    destruct (param_keeps _ _ _ Ep) as [-> ->]. cbn [state intermediate set_state].
    apply andb_true_iff in Ha as [Ha Hc].
    apply orb_true_iff in Ha as [[Es Es']%andb_true_iff|[Es Es']%andb_true_iff];
      apply bool_decide_eq_true in Es, Es'; rewrite Es in Hs; subst p st; cbn [intermediate clean]; [by left|].
    split; [|by left]. eapply param_plain; [|exact Ep|].
    + intros ->. vm_compute in Hc. done.
    + apply plain_clean.
  - simplify_eq. done.
  - by simplify_eq.
  - by simplify_eq.
  - simplify_eq. cbn [state collect set_state intermediate].
    destruct st; try done; apply andb_true_iff in Ha as [Hst Hr]; try by apply (collected_intro _ _ c).
    + right. by apply (collected_intro _ _ c).
    + apply bool_decide_eq_true in Hst. rewrite Hst in Hs. subst p. split; [apply plain_clean|].
      right. by apply (collected_intro _ _ c).
  - simplify_eq. cbn [state collect intermediate]. apply andb_true_iff in Ha as [Hst Hr].
    destruct (state p); try done; by apply (collected_intro _ _ c).
  - apply esc_dispatch_keeps in E; [|done]. by rewrite E.
  - simplify_eq. cbn [state set_state intermediate]. destruct st; try done.
    destruct (state p); try done; [subst p; by left| |by right; left].
    destruct Hs as [_ [Hi|Hi]]; [by left|by right; right].
  - done.
Qed.

(** * Parsers that read the same *)

Record alike (p q : Parser.t) : Prop := {
  alike_left : settled p;
  alike_right : settled q;
  alike_state : state q = state p;
  alike_params : within (state p) [CsiEntry; CsiParam] = true →
    params q = params p ∧ cur_param q = cur_param p ∧ intermediate q = intermediate p;
  alike_intermediate : within (state p) [EscapeIntermediate; CsiIntermediate] = true →
    intermediate q = intermediate p }.

(** A parser that reads parameters is equal to one like it. *)
Lemma alike_eq p q : alike p q → within (state p) [CsiEntry; CsiParam] = true → q = p.
Proof.
  intros [_ _ Hs Hp _] Hw. destruct (Hp Hw) as (E1 & E2 & E3). destruct p, q. cbn in *. congruence.
Qed.

(** What two parsers answer to the same character *)
Definition same_answer (r1 r2 : option (Parser.t * option Fun.t)) : Prop :=
  ∃ p q f, r1 = Some (p, f) ∧ r2 = Some (q, f) ∧ state q = state p ∧
    (within (state p) [CsiEntry; CsiParam] = true →
       params q = params p ∧ cur_param q = cur_param p ∧ intermediate q = intermediate p) ∧
    (within (state p) [EscapeIntermediate; CsiIntermediate] = true → intermediate q = intermediate p).

Lemma same_answer_refl r : is_Some r → same_answer r r.
Proof. intros [[p f] ->]. by exists p, p, f. Qed.

(** Answers in a state where nothing else matters *)
Lemma same_answer_quiet p q f st : state p = st → state q = st →
  within st [CsiEntry; CsiParam; EscapeIntermediate; CsiIntermediate] = false →
  same_answer (Some (p, f)) (Some (q, f)).
Proof.
  intros <- Hq Hw. exists p, q, f. split_and!; try done; intros Hw'; exfalso;
    destruct (state p); vm_compute in Hw, Hw'; congruence.
Qed.

Lemma csi_dispatch_intermediate c p q i : rng 0x20 0x2f i = true →
  intermediate p = Some i → intermediate q = Some i → csi_dispatch c q = csi_dispatch c p.
Proof.
  intros Hi Hp Hq. unfold csi_dispatch. rewrite Hp, Hq. apply rng_spec in Hi.
  repeat (case_match; simplify_eq; try done; try lia).
Qed.

Lemma esc_dispatch_same c p q : state p = Ground → state q = Ground → intermediate q = intermediate p →
  same_answer (esc_dispatch c p) (esc_dispatch c q).
Proof.
  intros Hp Hq Hi. unfold esc_dispatch. rewrite Hi.
  assert (Hsame : ∀ f, same_answer (Some (p, f)) (Some (q, f))) by (intros f; by apply (same_answer_quiet _ _ f Ground)).
  assert (Hset : ∀ f, same_answer (Some (set_state Ground p, f)) (Some (set_state Ground q, f)))
    by (intros f; by apply (same_answer_quiet _ _ f Ground)).
  destruct (intermediate p) as [i|].
  - repeat (case_match; try apply Hsame).
  - destruct (decide _) as [Hc|]; [|repeat (case_match; try apply Hsame; try apply Hset)].
    cbv zeta. destruct (decide _) as [|Hn]; [apply Hsame|].
    exfalso. unfold as_u8 in Hn. rewrite N.mod_small in Hn by lia. lia.
Qed.

Lemma set_state_same st p q : alike p q → within (state p) [CsiEntry; CsiParam] = true → set_state st q = set_state st p.
Proof. intros Ha Hw. by rewrite (alike_eq _ _ Ha Hw). Qed.

Lemma alike_answer c p q : alike p q → same_answer (feed c p) (feed c q).
Proof.
  intros Ha. pose proof Ha as [(Hwp & Htp & Hsp) (Hwq & Htq & Hsq) Hst Hps Hi].
  assert (Hsp_feed : is_Some (feed c p)).
  { pose proof (feed_Safe c p Hwp) as Hs. destruct (feed c p); [by eexists|done]. }
  destruct (within (state p) [CsiEntry; CsiParam]) eqn:Hw.
  { rewrite (alike_eq p q Ha Hw). by apply same_answer_refl. }
  assert (Hc : arm (state p) (input2 c) = PutParam → rng 0x30 0x3b c = true).
  { intros Ea. pose proof (arm_total (state p) c) as Hok. rewrite Ea in Hok. by eapply input2_rng. }
  clear Hps. rewrite Hst in Hsq. pose proof (arm_shaped (state p) c) as Hsh.
  assert (Hkeep : ∀ f, same_answer (Some (p, f)) (Some (q, f))).
  { intros f. exists p, q, f. split_and!; try done. intros Hw'. congruence. }
  unfold feed in *. rewrite Hst. revert Hc. destruct (arm (state p) (input2 c)) as [| |st| |st| | | |st| | |st|]; cbn [arm_shape] in Hsh; intros Hc;
    try specialize (Hc eq_refl).
  - apply Hkeep.
  - assert (Earm : state p = DcsParam) by (destruct (state p); done).
    destruct (Safe_elim _ _ (param_Safe c p Hwp Hc)) as (p1 & E1 & _).
    destruct (Safe_elim _ _ (param_Safe c q Hwq Hc)) as (q1 & E2 & _). rewrite E1, E2.
    apply (same_answer_quiet _ _ _ DcsParam); [| |done].
    + destruct (param_keeps _ _ _ E1) as [-> _]. done.
    + destruct (param_keeps _ _ _ E2) as [-> _]. by rewrite Hst.
  - rewrite !clear_to by done. by apply same_answer_refl.
  - assert (Earm : state p = CsiIntermediate) by (destruct (state p); done). rewrite Earm in Hsp, Hi.
    destruct Hsp as (i & Hpi & Hr). specialize (Hi eq_refl). cbv zeta.
    rewrite (csi_dispatch_intermediate c (set_state Ground p) (set_state Ground q) i Hr Hpi) by (cbn; congruence).
    destruct (csi_dispatch _ _) as [f|]; [|by destruct Hsp_feed]. by apply (same_answer_quiet _ _ _ Ground).
  - assert (Earm : state p = DcsEntry) by (destruct (state p); done). rewrite Earm in Hsp, Hsq.
    rewrite Hsp, Hsq in *. apply same_answer_refl. done.
  - apply Hkeep.
  - by apply (same_answer_quiet _ _ _ Ground).
  - apply Hkeep.
  - exists (collect c (set_state st p)), (collect c (set_state st q)), None. split_and!; try done.
    intros Hw'. cbn [state collect set_state] in Hw'. destruct st; try done.
    apply andb_true_iff in Hsh as [Hsh _]. apply bool_decide_eq_true in Hsh. by rewrite Hsh in Hw.
  - exists (collect c p), (collect c q), None. split_and!; try done. intros Hw'. cbn [state collect] in Hw'. congruence.
  - assert (Earm : within (state p) [Escape; EscapeIntermediate] = true) by done.
    apply esc_dispatch_same; [done|done|]. cbn [intermediate set_state].
    destruct (state p); try done; [congruence|by apply Hi].
  - apply (same_answer_quiet _ _ _ st); [done|done|]. by destruct st.
  - done.
Qed.

(** Two alike parsers stay alike and yield the same, whatever they are fed. *)
Lemma alike_step c p q p' f : alike p q → feed c p = Some (p', f) → ∃ q', feed c q = Some (q', f) ∧ alike p' q'.
Proof.
  intros Ha E. destruct (alike_answer c p q Ha) as (p1 & q1 & f1 & E1 & E2 & Hs & Hps & Hi).
  rewrite E in E1. simplify_eq. exists q1. split; [done|]. split; try done.
  - eapply settled_step; [exact (alike_left _ _ Ha)|done].
  - eapply settled_step; [exact (alike_right _ _ Ha)|done].
Qed.

Lemma alike_feed_all cs p q p' fs : alike p q → feed_all cs p = Some (p', fs) →
  ∃ q', feed_all cs q = Some (q', fs) ∧ alike p' q'.
Proof.
  revert p q fs. induction cs as [|c cs IH]; intros p q fs Ha; cbn [feed_all].
  { intros [= -> <-]. by exists q. }
  destruct (feed c p) as [[p1 f]|] eqn:E1; [|done]. cbn [mbind option_bind].
  destruct (alike_step c p q p1 f Ha E1) as (q1 & E2 & Ha1). rewrite E2. cbn [mbind option_bind].
  destruct (feed_all cs p1) as [[p2 fs1]|] eqn:E3; [|done]. cbn [mbind option_bind]. intros [= <- <-].
  destruct (IH p1 q1 fs1 Ha1 E3) as (q2 & E4 & Ha2). rewrite E4. by exists q2.
Qed.

Lemma settled_all cs p p' fs : settled p → feed_all cs p = Some (p', fs) → settled p'.
Proof.
  revert p fs. induction cs as [|c cs IH]; intros p fs Hp; cbn [feed_all]; [by intros [= <- _]|].
  destruct (feed c p) as [[p1 f]|] eqn:E1; [|done]. cbn [mbind option_bind].
  destruct (feed_all cs p1) as [[p2 fs1]|] eqn:E2; [|done]. cbn [mbind option_bind]. intros [= <- _].
  eapply IH; [|exact E2]. by eapply settled_step.
Qed.

(** * Printing an unfinished sequence *)

Lemma intermediate_arms c :
  (rng 0x20 0x2f c = true → input2 c = c ∧ arm Escape c = CollectTo EscapeIntermediate ∧
     arm CsiEntry c = CollectTo CsiIntermediate ∧ arm DcsEntry c = CollectTo DcsIntermediate) ∧
  (rng 0x3c 0x3f c = true → input2 c = c ∧ arm CsiEntry c = CollectTo CsiParam ∧ arm DcsEntry c = CollectTo DcsParam).
Proof.
  assert (Hall : forallb (λ n, let c := N.of_nat n in
    implb (rng 0x20 0x2f c) (bool_decide (arm Escape c = CollectTo EscapeIntermediate) &&
      bool_decide (arm CsiEntry c = CollectTo CsiIntermediate) && bool_decide (arm DcsEntry c = CollectTo DcsIntermediate)) &&
    implb (rng 0x3c 0x3f c) (bool_decide (arm CsiEntry c = CollectTo CsiParam) &&
      bool_decide (arm DcsEntry c = CollectTo DcsParam))) (seq 0 64) = true) by by vm_compute.
  rewrite forallb_forall in Hall.
  assert (Hc : ∀ lo hi, (hi < 64)%N → rng lo hi c = true → input2 c = c ∧ In (N.to_nat c) (seq 0 64)).
  { intros lo hi Hh Hr%rng_spec. split; [|apply in_seq; lia]. unfold input2. by rewrite (proj2 (N.leb_gt 0xa0 c)) by lia. }
  split; intros Hr; (destruct (λ Hh, Hc _ _ Hh Hr) as [Hi Hin]; [lia|]); (split; [done|]);
    specialize (Hall _ Hin); cbv zeta in Hall; rewrite N2Nat.id, Hr in Hall; cbn [implb] in Hall;
    rewrite ?andb_true_iff, ?bool_decide_eq_true in Hall; tauto.
Qed.

Lemma eats_one c q q' : feed c q = Some (q', None) → eats [c] q q'.
Proof. intros E. by eapply eats_cons. Qed.

Lemma eats_csi_char q : ground q → eats [0x9b]%N q (clean CsiEntry None).
Proof.
  intros (Hs & Hw & Ht). apply eats_one. unfold feed. rewrite Hs.
  change (arm Ground (input2 0x9b)) with (ClearTo CsiEntry). cbv beta iota. by rewrite clear_to.
Qed.

Lemma eats_dcs_char q : ground q → eats [0x90]%N q (clean DcsEntry None).
Proof.
  intros (Hs & Hw & Ht). apply eats_one. unfold feed. rewrite Hs.
  change (arm Ground (input2 0x90)) with (ClearTo DcsEntry). cbv beta iota. by rewrite clear_to.
Qed.

Lemma eats_dcs_entry ps q : ps ≠ [] → params_ok ps →
  eats (join 0x3b%N (show <$> ps)) (clean DcsParam None) q → eats (join 0x3b%N (show <$> ps)) (clean DcsEntry None) q.
Proof.
  intros Hne Hps. destruct (show_all_head ps Hne Hps) as (d & cs & Hd & ->). unfold eats. cbn [feed_all].
  assert (E : feed (48 + d) (clean DcsEntry None) = feed (48 + d) (clean DcsParam None)); [|by rewrite E].
  unfold feed. cbn [state clean]. by destruct (digit_arms d Hd) as (-> & _ & _ & -> & ->).
Qed.

Lemma wf_clean st p : wf_parser p → wf_parser (clean st (intermediate p)).
Proof. intros []. destruct wf_parser_new. by split. Qed.

Lemma eats_collect c st st' : input2 c = c → arm st c = CollectTo st' →
  eats [c] (clean st None) (clean st' (Some c)).
Proof. intros Hi Ha. apply eats_one. unfold feed. cbn [state clean]. by rewrite Hi, Ha. Qed.

(** Texts that end in the state of [p] with all that matters *)
Definition reaches (p q : Parser.t) : Prop :=
  ∃ s q', parser_dump p = Some s ∧ feed_all s q = Some (q', []) ∧ alike p q'.

Lemma reaches_intro p q s q' : settled p → settled q → parser_dump p = Some s → eats s q q' →
  state q' = state p →
  (within (state p) [CsiEntry; CsiParam] = true → q' = p) →
  (within (state p) [EscapeIntermediate; CsiIntermediate] = true → intermediate q' = intermediate p) → reaches p q.
Proof.
  intros Hp Hq Hs He Hst Hpar Hi. exists s, q'. split_and!; [done..|]. split; try done.
  - eapply settled_all; [exact Hq|exact He].
  - intros Hw. by rewrite (Hpar Hw).
Qed.

(** Digits and semicolons leave the parser in its state of device control parameters. *)
Lemma eats_dcs_params s p : wf_parser p → state p = DcsParam →
  Forall (λ c, (∃ d, (d < 10)%N ∧ c = (48 + d)%N) ∨ c = 0x3b%N) s →
  ∃ p', eats s p p' ∧ state p' = DcsParam.
Proof.
  intros Hw Hs Hf. revert p Hw Hs. induction Hf as [|c s Hc _ IH]; intros p Hw Hs; [by exists p|].
  assert (feed c p = (p' ← param c p; Some (p', None)) ∧ rng 0x30 0x3b c = true) as [Hfeed Hr].
  { unfold feed. rewrite Hs. destruct Hc as [(d & Hd & ->)| ->]; [|done].
    destruct (digit_arms d Hd) as (-> & _ & _ & -> & _). split; [done|]. apply rng_spec. lia. }
  destruct (Safe_elim _ _ (param_Safe c p Hw Hr)) as (p1 & E1 & [Hw1 _]). rewrite E1 in Hfeed.
  destruct (IH p1 Hw1) as (p' & He & Hst); [by destruct (param_keeps _ _ _ E1) as [-> _]|].
  exists p'. split; [|done]. by eapply eats_cons.
Qed.

Lemma param_is q : wf_param q → tidy_param q → ∃ parts, parts_ok parts ∧ q = param_of parts ∧
  (Param.cur_part q = 0 → length parts = 1).
Proof.
  intros (Hl & Hc & Hf) Ht. exists (take (Param.cur_part q + 1) (Param.parts q)). unfold tidy_param in Ht.
  assert (Hlen : length (take (Param.cur_part q + 1) (Param.parts q)) = Param.cur_part q + 1).
  { rewrite length_take. lia. }
  unfold parts_ok. split_and!.
  - intros E. rewrite E in Hlen. cbn in Hlen. lia.
  - rewrite Hlen. lia.
  - by apply Forall_take.
  - destruct q as [cur parts]. unfold param_of. cbn [Param.cur_part Param.parts] in *. f_equal; [rewrite Hlen; lia|].
    rewrite Hlen, <- Ht. symmetry. apply take_drop.
  - lia.
Qed.

Lemma params_are p : wf_parser p → tidy p → ∃ pss, params_ok pss ∧ pss ≠ [] ∧ cur_param p = length pss - 1 ∧
  params p = (param_of <$> pss) ++ replicate (PARAMS_LEN - length pss) Param.default ∧
  used_params p = Some (param_of <$> pss) ∧
  (plain p → Forall (λ parts, length parts = 1) pss).
Proof.
  intros [Hl Hf Hc _] [Ht Hr]. set (qs := take (cur_param p + 1) (params p)).
  assert (Hq : Forall (λ q, ∃ parts, parts_ok parts ∧ q = param_of parts ∧ (Param.cur_part q = 0 → length parts = 1)) qs).
  { apply Forall_take. rewrite Forall_forall in *. intros q Hq. apply param_is; auto. }
  assert (Hlen : length qs = cur_param p + 1) by (unfold qs; rewrite length_take; lia).
  assert (∃ pss, Forall parts_ok pss ∧ qs = param_of <$> pss ∧
    (Forall (λ q, Param.cur_part q = 0) qs → Forall (λ parts, length parts = 1) pss)) as (pss & Hok & Eqs & Hpl).
  { clear Hlen. induction Hq as [|q qs' (parts & Hp & -> & H1) _ (pss & Hok & -> & Hpl)].
    - exists []. by split_and!.
    - exists (parts :: pss). split_and!; [by constructor|done|]. intros [H0 Hrest]%Forall_cons.
      constructor; auto. }
  assert (Hlp : length pss = cur_param p + 1) by (rewrite <- Hlen, Eqs; by rewrite length_fmap).
  exists pss. split_and!.
  - split; [done|]. lia.
  - intros ->. cbn in Hlp. lia.
  - lia.
  - rewrite Hlp, <- Hr, <- Eqs. symmetry. apply take_drop.
  - unfold used_params. rewrite decide_True by lia. by rewrite <- Eqs.
  - intros Hplain. apply Hpl. by apply Forall_take.
Qed.

Lemma mapM_to_string pss : Forall parts_ok pss → mapM param_to_string (param_of <$> pss) = Some (show <$> pss).
Proof.
  intros Hok. apply mapM_Some_2, Forall2_fmap, Forall_Forall2_diag.
  eapply Forall_impl; [exact Hok|]. intros parts Hp. cbv beta. unfold param_to_string.
  rewrite used_param_of by done. cbn [mbind option_bind]. destruct parts; [by destruct Hp|done].
Qed.

Lemma dcs_text pss : Forall parts_ok pss → Forall (λ parts, length parts = 1) pss →
  Forall (λ c, (∃ d, (d < 10)%N ∧ c = (48 + d)%N) ∨ c = 0x3b%N) (join 0x3b%N (show <$> pss)).
Proof.
  intros Hok H1. assert (Hshow : Forall (Forall (λ c, (∃ d, (d < 10)%N ∧ c = (48 + d)%N) ∨ c = 0x3b%N)) (show <$> pss)).
  { apply Forall_fmap. rewrite Forall_forall in *. intros parts Hin. specialize (Hok parts Hin). specialize (H1 parts Hin).
    destruct parts as [|n [|? ?]]; try done. destruct Hok as (_ & _ & [Hn _]%Forall_cons).
    cbv [compose]. change (show [n]) with (decimal n). destruct (decimal_digits n Hn) as (ds & (-> & Hds & _) & _).
    apply Forall_fmap. eapply Forall_impl; [exact Hds|]. intros d Hd. left. by exists d. }
  induction Hshow as [|s l Hs _ IH]; [constructor|]. destruct l as [|s' l]; [done|].
  change (join 0x3b%N (s :: s' :: l)) with (s ++ 0x3b%N :: join 0x3b%N (s' :: l)).
  apply Forall_app. split; [done|]. constructor; [by right|done].
Qed.

Lemma dump_reaches p q : settled p → ground q → reaches p q.
Proof.
  intros Hp Hq. pose proof Hp as (Hw & Ht & Hs). pose proof Hq as (Hqs & Hqw & Hqt).
  assert (Hset : settled q) by (split_and!; [done..|by rewrite Hqs]).
  destruct (params_are p Hw Ht) as (pss & Hok & Hne & Hcur & Hps & Hused & Hplain).
  assert (Hwith : ∀ introducer, state p = CsiParam ∨ state p = DcsParam →
    (ps ← used_params p; params ← mapM param_to_string ps;
     Some (introducer :: option_list (intermediate p) ++ join 0x3b%N params)) =
    Some (introducer :: option_list (intermediate p) ++ join 0x3b%N (show <$> pss))).
  { intros introducer _. rewrite Hused. cbn [mbind option_bind]. rewrite mapM_to_string by apply Hok. done. }
  destruct (state p) eqn:Est.
  - eapply reaches_intro; [done..|by unfold parser_dump; rewrite Est|apply eats_nil|by rewrite Est| |]; by rewrite Est.
  - eapply (reaches_intro p q _ (clean Escape None)); [done..|by unfold parser_dump; rewrite Est| |by rewrite Est| |]; try by rewrite Est.
    eapply eats_one. by apply feed_escape.
  - destruct Hs as (c & Hi & Hr). destruct (proj1 (intermediate_arms c) Hr) as (Hi2 & Ha & _).
    eapply (reaches_intro p q _ (clean EscapeIntermediate (Some c)));
      [done..|by unfold parser_dump; rewrite Est| |by rewrite Est| |]; rewrite ?Est; try done.
    rewrite Hi. eapply eats_cons; [by apply feed_escape|]. by apply eats_collect.
  - eapply (reaches_intro p q _ (clean CsiEntry None)); [done..|by unfold parser_dump; rewrite Est|by apply eats_csi_char|by rewrite Est| |]; by rewrite Est.
  - assert (Ep : p = csi_parser pss (intermediate p)).
    { destruct p as [st ps cur i]. cbn [state params cur_param intermediate] in *. subst st ps cur. done. }
    assert (He : eats ([0x9b]%N ++ option_list (intermediate p) ++ join 0x3b%N (show <$> pss)) q p).
    { eapply eats_app; [by apply eats_csi_char|]. rewrite Ep at 2.
      destruct Hs as [Hi|(c & Hi & Hr)]; rewrite Hi; cbn [option_list app].
      - by apply eats_csi_entry.
      - destruct (proj2 (intermediate_arms c) Hr) as (Hi2 & Ha & _).
        apply (eats_app [c] _ _ (clean CsiParam (Some c))); [by apply eats_collect|by apply eats_clean_params]. }
    eapply (reaches_intro p q _ p); [done..| |exact He|done| |]; [unfold parser_dump; rewrite Est; by apply Hwith; left|done..].
  - destruct Hs as (c & Hi & Hr). destruct (proj1 (intermediate_arms c) Hr) as (Hi2 & _ & Ha & _).
    eapply (reaches_intro p q [0x9b; c]%N (clean CsiIntermediate (Some c))); [done..| | | | |]; rewrite ?Est; try done.
    + unfold parser_dump. by rewrite Est, Hi.
    + apply (eats_app [_] [c] _ (clean CsiEntry None)); [by apply eats_csi_char|by apply eats_collect].
  - eapply (reaches_intro p q [0x9b; 0x3a]%N (clean CsiIgnore None)); [done..| | | | |]; rewrite ?Est; try done.
    + unfold parser_dump. by rewrite Est.
    + apply (eats_app [_] [_] _ (clean CsiEntry None)); [by apply eats_csi_char|by apply eats_one].
  - eapply (reaches_intro p q [0x90]%N (clean DcsEntry None)); [done..| | | | |]; rewrite ?Est; try done.
    + unfold parser_dump. by rewrite Est.
    + by apply eats_dcs_char.
  - destruct Hs as [Hpl Hs]. specialize (dcs_text pss (proj1 Hok) (Hplain Hpl)) as Htext.
    assert (∃ q', eats ([0x90]%N ++ option_list (intermediate p) ++ join 0x3b%N (show <$> pss)) q q' ∧ state q' = DcsParam)
      as (q' & He & Hst).
    { destruct (eats_dcs_params _ (clean DcsParam (intermediate p)) (wf_clean _ _ Hw) eq_refl Htext) as (q' & He & Hst).
      exists q'. split; [|done]. eapply eats_app; [by apply eats_dcs_char|].
      destruct Hs as [Hi|(c & Hi & Hr)]; rewrite Hi in *; cbn [option_list app].
      - by apply eats_dcs_entry.
      - destruct (proj2 (intermediate_arms c) Hr) as (Hi2 & _ & Ha).
        apply (eats_app [c] _ _ (clean DcsParam (Some c))); [by apply eats_collect|done]. }
    eapply (reaches_intro p q _ q'); [done..| |exact He| | |]; rewrite ?Est; try done.
    unfold parser_dump. rewrite Est. apply Hwith. by right.
  - destruct Hs as (c & Hi & Hr). destruct (proj1 (intermediate_arms c) Hr) as (Hi2 & _ & _ & Ha).
    eapply (reaches_intro p q [0x90; c]%N (clean DcsIntermediate (Some c))); [done..| | | | |]; rewrite ?Est; try done.
    + unfold parser_dump. by rewrite Est, Hi.
    + apply (eats_app [_] [c] _ (clean DcsEntry None)); [by apply eats_dcs_char|by apply eats_collect].
  - eapply (reaches_intro p q _ (clean DcsPassthrough (intermediate p))); [done..|unfold parser_dump; by rewrite Est| | | |];
      rewrite ?Est; try done.
    apply (eats_app [_] _ _ (clean DcsEntry None)); [by apply eats_dcs_char|].
    destruct Hs as [Hi|[(c & Hi & Hr)|(c & Hi & Hr)]]; rewrite Hi; cbn [option_list app].
    + by apply eats_one.
    + destruct (proj1 (intermediate_arms c) Hr) as (Hi2 & _ & _ & Ha).
      apply (eats_app [c] [_] _ (clean DcsIntermediate (Some c))); [by apply eats_collect|by apply eats_one].
    + destruct (proj2 (intermediate_arms c) Hr) as (Hi2 & _ & Ha).
      apply (eats_app [c] [_] _ (clean DcsParam (Some c))); [by apply eats_collect|by apply eats_one].
  - eapply (reaches_intro p q [0x90; 0x3a]%N (clean DcsIgnore None)); [done..| | | | |]; rewrite ?Est; try done.
    + unfold parser_dump. by rewrite Est.
    + apply (eats_app [_] [_] _ (clean DcsEntry None)); [by apply eats_dcs_char|by apply eats_one].
  - eapply (reaches_intro p q [0x9d]%N (set_state OscString q)); [done..| | | | |]; rewrite ?Est; try done.
    + unfold parser_dump. by rewrite Est.
    + apply eats_one. unfold feed. by rewrite Hqs.
  - eapply (reaches_intro p q [0x98]%N (set_state SosPmApcString q)); [done..| | | | |]; rewrite ?Est; try done.
    + unfold parser_dump. by rewrite Est.
    + apply eats_one. unfold feed. by rewrite Hqs.
Qed.

Import Parser.

(** * Renditions *)

Lemma as_u8_ok n : Color.is_u8 (Color.Indexed (as_u8 n)) = true.
Proof. apply bool_decide_eq_true, N.mod_lt. lia. Qed.

Lemma rgb_ok r g b : Color.is_u8 (SgrOpsDecoder.rgb r g b) = true.
Proof. cbn. rewrite !andb_true_iff, !bool_decide_eq_true. split_and!; apply N.mod_lt; lia. Qed.

#[local] Hint Resolve as_u8_ok rgb_ok : core.

Lemma single_ok n op : SgrOpsDecoder.single n = Some op → op_ok op.
Proof. unfold SgrOpsDecoder.single. intros E. repeat (case_match; simplify_eq; try exact I; try by apply as_u8_ok). Qed.

Lemma extended_ok set ps op ps' : (∀ c, Color.is_u8 c = true → op_ok (set c)) →
  SgrOpsDecoder.extended set ps = Some (Some op, ps') → op_ok op.
Proof.
  intros Hset. unfold SgrOpsDecoder.extended. destruct (ps !! 1) as [p|]; [|done].
  destruct (Param.used p) as [parts|]; [|done]. cbn [mbind option_bind].
  repeat case_decide; repeat case_match; intros E; simplify_eq; try done; simplify_option_eq; auto.
Qed.

Lemma step_ok q ps op ps' : SgrOpsDecoder.step q ps = Some (Some op, ps') → op_ok op.
Proof.
  unfold SgrOpsDecoder.step. destruct (Param.used q) as [parts|]; [|done]. cbn [mbind option_bind]. intros E.
  repeat (case_match; simplify_eq; try (by apply rgb_ok); try (by apply as_u8_ok); try (by eapply single_ok);
    try (by eapply extended_ok; [|exact E])).
Qed.

Lemma next_ok fuel : ∀ ps op ps', SgrOpsDecoder.next fuel ps = Some (Some op, ps') → op_ok op.
Proof.
  induction fuel as [|fuel IH]; intros ps op ps'; [done|]. cbn [SgrOpsDecoder.next].
  destruct ps as [|q ps]; [done|]. destruct (SgrOpsDecoder.step q (q :: ps)) as [[[op'|] ps1]|] eqn:E; [| |done];
    cbn [mbind option_bind].
  - intros [= <- _]. by eapply step_ok.
  - apply IH.
Qed.

Lemma decode_go_ok fuel : ∀ ps ops, Forall wf_param ps → length ps < fuel →
  SgrOpsDecoder.decode_go fuel ps = Some ops → Forall op_ok ops ∧ length ops ≤ length ps.
Proof.
  induction fuel as [|fuel IH]; intros ps ops Hf Hl; [done|]. cbn [SgrOpsDecoder.decode_go].
  destruct (Safe_elim _ _ (next_Safe (S (length ps)) ps Hf ltac:(lia))) as ([op ps1] & E & Hf1 & Hlt).
  rewrite E. cbn [mbind option_bind]. destruct op as [op|]; [|intros [= <-]; split; [done|cbn; lia]].
  specialize (Hlt ltac:(done)). destruct (SgrOpsDecoder.decode_go fuel ps1) as [ops1|] eqn:E1; [|done].
  cbn [mbind option_bind]. intros [= <-]. destruct (IH ps1 ops1 Hf1 ltac:(lia) E1) as [Hok Hlen].
  split; [|cbn; lia]. constructor; [by eapply next_ok|done].
Qed.

(** * Functions *)

Definition printable_fun (f : option Fun.t) : Prop := ∀ g, f = Some g → printable g.

Lemma printable_None : printable_fun None.
Proof. by intros g. Qed.

Lemma execute_printable c : printable_fun (execute c).
Proof. intros g Hg. unfold execute in Hg. repeat (case_match; simplify_eq/=; try done). Qed.

Lemma esc_dispatch_printable c p : esc_dispatch c p ⇓ λ '(_, f), printable_fun f.
Proof.
  assert (Hall : ∀ (p' : t) f, printable_fun f → Some (p', f) ⇓ λ '(_, f), printable_fun f) by done.
  assert (Hone : ∀ f, printable f → printable_fun (Some f)) by (intros f Hf ? [= <-]; done).
  unfold esc_dispatch. destruct (intermediate p) as [i|].
  - repeat (case_match; try (apply Hall; first [apply printable_None | by apply Hone])).
  - case_decide.
    + unfold as_u8. rewrite N.mod_small by lia. rewrite decide_True by lia. apply Hall, execute_printable.
    + repeat (case_match; try (apply Hall; first [apply printable_None | by apply Hone])).
Qed.


Lemma arg_lt p i : wf_parser p → i < PARAMS_LEN → arg p i ⇓ λ n, (n < 65536)%N.
Proof.
  intros [Hl Hf _ _] Hi. unfold arg.
  destruct (lookup_lt_is_Some_2 (params p) i) as [q Hq]; [lia|]. rewrite Hq. cbn [mbind option_bind].
  eapply Forall_lookup_1 in Hf; [|exact Hq]. destruct (wf_param_first _ Hf) as [n Hn]. rewrite Hn.
  destruct Hf as (_ & _ & Hn'). cbv beta. eapply Forall_lookup_1 in Hn'; [exact Hn'|exact Hn].
Qed.

Lemma used_params_short p : wf_parser p → used_params p ⇓ λ ps, Forall wf_param ps ∧ length ps ≤ PARAMS_LEN.
Proof.
  intros Hp. eapply Safe_mono; [by apply used_params_Safe|]. intros ps [Hf ->]. split; [done|].
  rewrite length_take. destruct Hp as [-> _ _ _]. lia.
Qed.

Lemma length_omap_id {B} (l : list (option B)) : length (omap id l) ≤ length l.
Proof. induction l as [|[x|] l IH]; cbn; lia. Qed.

(** The modes a control sequence sets are at most as many as its parameters. *)
Lemma modes_printable p {B C} (f : Param.t → option (option B)) (collect : list B → option C) (g : C → Fun.t)
    (P : C → Prop) :
  wf_parser p → (∀ q n, Param.first q = Some n → is_Some (f q)) → (∀ l, collect l ⇓ P) →
  (∀ l m, collect l = Some m → length l ≤ PARAMS_LEN → printable (g m)) →
  (ps ← used_params p; modes ← filter_mapM f ps; modes ← collect modes; Some (Some (g modes))) ⇓ printable_fun.
Proof.
  intros Hp Hf Hc Hg. eapply Safe_bind; [by apply used_params_short|]. intros ps [Hps Hl].
  destruct (Safe_elim _ _ (modes_of_Safe f ps Hps Hf)) as (modes & E & _). rewrite E.
  cbn [mbind option_bind]. destruct (Safe_elim _ _ (Hc modes)) as (m & Em & _). rewrite Em. 
  cbn [mbind option_bind]. intros ? [= <-]. eapply Hg; [exact Em|]. unfold filter_mapM in E.
  destruct (mapM f ps) as [l|] eqn:El; [|done]. cbn in E. injection E as <-.
  apply mapM_Some, Forall2_length in El. pose proof (length_omap_id l). cbn in *. lia.
Qed.

Lemma csi_plain_printable c p : wf_parser p → csi_plain c p ⇓ printable_fun.
Proof.
  intros Hp.
  assert (Hsome : ∀ f, printable f → printable_fun (Some f)) by (intros f Hf ? [= <-]; done).
  assert (Hone : ∀ f : N → option Fun.t, (∀ n, (n < 65536)%N → printable_fun (f n)) →
    (n ← arg p 0; Some (f n)) ⇓ printable_fun).
  { intros f Hf. eapply Safe_bind; [apply (arg_lt p 0 Hp); unfold PARAMS_LEN; lia|].
    intros n Hn. by apply Hf. }
  assert (Htwo : ∀ f : N → N → option Fun.t, (∀ n m, (n < 65536)%N → (m < 65536)%N → printable_fun (f n m)) →
    (n ← arg p 0; m ← arg p 1; Some (f n m)) ⇓ printable_fun).
  { intros f Hf. eapply Safe_bind; [apply (arg_lt p 0 Hp); unfold PARAMS_LEN; lia|]. intros n Hn.
    eapply Safe_bind; [apply (arg_lt p 1 Hp); unfold PARAMS_LEN; lia|]. intros m Hm. by apply Hf. }
  assert (Hsgr : (ps ← used_params p; ops ← SgrOpsDecoder.decode ps;
    ops ← SgrOps.collect ops; Some (Some (Fun.Sgr ops))) ⇓ printable_fun).
  { eapply Safe_bind; [by apply used_params_short|]. intros ps [Hps Hl].
    destruct (Safe_elim _ _ (decode_Safe ps Hps)) as (ops & E & _). rewrite E. cbn [mbind option_bind].
    destruct (Safe_elim _ _ (collect_Safe SgrOps.INLINE_CAP SgrOp.Reset ops)) as (m & Em & _).
    change (SgrOps.collect ops) with (SmallVec.collect SgrOps.INLINE_CAP SgrOp.Reset ops). rewrite Em.
    apply Hsome. exists ops. unfold SgrOpsDecoder.decode in E.
    apply decode_go_ok in E as [Hok Hlen]; [|done|lia]. split_and!; [done|lia|done]. }
  assert (Hxt : (n ← arg p 0;
      if decide (n = 8)%N then
        rows ← arg p 1; cols ← arg p 2;
        Some (Some (Fun.Xtwinops (XtwinopsOp.Resize cols rows)))
      else Some None) ⇓ printable_fun).
  { eapply Safe_bind; [apply (arg_lt p 0 Hp); unfold PARAMS_LEN; lia|]. intros n _.
    case_decide; [|apply printable_None].
    eapply Safe_bind; [apply (arg_lt p 1 Hp); unfold PARAMS_LEN; lia|]. intros r Hr.
    eapply Safe_bind; [apply (arg_lt p 2 Hp); unfold PARAMS_LEN; lia|]. intros cl Hcl.
    by apply Hsome. }
  unfold csi_plain.
  repeat (case_match; try apply printable_None; try exact Hsgr; try exact Hxt;
    try (apply Hone; intros; repeat case_match; first [apply printable_None | by apply Hsome]);
    try (apply Htwo; intros; by apply Hsome);
    try (by apply Hsome);
    try (apply (modes_printable p ansi_mode AnsiModes.collect Fun.Sm (SmallVec.wf MODES_INLINE_CAP));
         [done|apply ansi_mode_Some|intros; apply collect_Safe|by intros l m ? ?; exists l]);
    try (apply (modes_printable p ansi_mode AnsiModes.collect Fun.Rm (SmallVec.wf MODES_INLINE_CAP));
         [done|apply ansi_mode_Some|intros; apply collect_Safe|by intros l m ? ?; exists l])).
Qed.

Lemma csi_dispatch_printable c p : wf_parser p → csi_dispatch c p ⇓ printable_fun.
Proof.
  intros Hp. unfold csi_dispatch. destruct (intermediate p); [|by apply csi_plain_printable].
  repeat (case_match; try apply printable_None;
    try (intros ? ?; simplify_eq/=; done);
    try (apply (modes_printable p dec_mode DecModes.collect Fun.Decset (SmallVec.wf MODES_INLINE_CAP));
         [done|apply dec_mode_Some|intros; apply collect_Safe|by intros l m ? ?; exists l]);
    try (apply (modes_printable p dec_mode DecModes.collect Fun.Decrst (SmallVec.wf MODES_INLINE_CAP));
         [done|apply dec_mode_Some|intros; apply collect_Safe|by intros l m ? ?; exists l])).
Qed.

(** * Any text *)

Lemma feed_printable c p : wf_parser p → feed c p ⇓ λ '(_, f), printable_fun f.
Proof.
  intros Hp. pose proof (arm_total (state p) c) as Harm. pose proof (arm_shaped (state p) c) as Hsh. unfold feed.
  assert (Hst : ∀ st, wf_parser (set_state st p)) by (intros; by apply set_state_good).
  destruct (arm (state p) (input2 c)) as [| |st| |st| | | |st| | |st|]; cbn [arm_shape] in Hsh;
    try apply printable_None; try apply execute_printable.
  - intros ? [= <-]. apply andb_true_iff in Hsh as [_ Hr%rng_spec]. unfold input2 in Hr. cbn [printable].
    destruct (0xa0 <=? c)%N eqn:E; [right; by apply N.leb_le|left; lia].
  - eapply Safe_bind; [apply param_Safe; [done|by eapply input2_rng]|]. intros; apply printable_None.
  - eapply Safe_bind; [by apply parser_clear_Safe|]. intros; apply printable_None.
  - eapply Safe_bind; [by apply csi_dispatch_printable|]. done.
  - eapply Safe_bind; [apply param_Safe; [done|by eapply input2_rng]|]. intros; apply printable_None.
  - apply esc_dispatch_printable.
  - done.
Qed.

Lemma feed_all_printable cs p : wf_parser p → feed_all cs p ⇓ λ '(_, fs), Forall printable fs.
Proof.
  revert p. induction cs as [|c cs IH]; intros p Hp; [constructor|]. cbn [feed_all].
  destruct (Safe_elim _ _ (feed_Safe c p Hp)) as ([p1 f] & E & [Hp1 _] & _).
  pose proof (feed_printable c p Hp) as Hf. rewrite E in Hf |- *. cbn [mbind option_bind].
  eapply Safe_bind; [by apply IH|]. intros [p2 fs] Hfs. apply Forall_app. split; [|done].
  destruct f; repeat constructor. by apply Hf.
Qed.
