(* ===== verification/VtInv.v ===== *)
(** The emulator never panics on input, and its checkpoints are faithful:
    exporting and restoring gives back the same emulator, and every checkpoint
    that validation accepts describes a well-formed one. *)

From S2P Require Import Prelude.
From S2P Require Import Cells.
From S2P Require Import Lines.
From S2P Require Import Buffers.
From S2P Require Import Resizing.
From S2P Require Import Functions.
From S2P Require Import Tabs.
From S2P Require Import Terminal.
From S2P Require Import TerminalInv.
From S2P Require Import Parser.
From S2P Require Import ParserInv.
From S2P Require Import Checkpoint.
From S2P Require Import Vt.

Section vt_inv.
Context `{UnicodeWidth} `{ResizePolicy} `{Upkeep}.
Implicit Types (v : Vt.t) (s : Terminal.t).

Definition wf_vt v : Prop := wf_parser (Vt.parser v) ∧ wf_term (Vt.terminal v).

Lemma feed_vt_Safe c v : upkeep ≠ Loose →
  wf_vt v → Vt.feed c v ⇓ λ v', wf_vt v' ∧ Vt.size v' = Vt.size v.
Proof.
  intros Hl [Hp Hs]. unfold Vt.feed.
  eapply Safe_bind; [by apply feed_Safe|]. intros [p [f|]] [[Hp' _] Hf]; [|by split].
  eapply Safe_bind; [apply execute_Safe; [done|done|by apply Hf]|].
  intros s' (Hs' & Hc & Hr). split; [by split|]. unfold Vt.size, Terminal.size. simpl.
  by rewrite Hc, Hr.
Qed.

Lemma feed_chars_Safe cs v : upkeep ≠ Loose →
  wf_vt v → Vt.feed_chars cs v ⇓ λ v', wf_vt v' ∧ Vt.size v' = Vt.size v.
Proof.
  intros Hl. revert v. induction cs as [|c cs IH]; intros v Hv; simpl; [by split|].
  eapply Safe_bind; [by apply feed_vt_Safe|]. intros v1 [Hv1 Hsz].
  eapply Safe_mono; [by apply IH|]. intros v2 [? ?]. split; [done|congruence].
Qed.

Lemma collect_changes_Safe v :
  wf_vt v → Vt.collect_changes v ⇓ λ '(v', _), wf_vt v' ∧ Vt.size v' = Vt.size v.
Proof.
  intros [Hp Hs]. unfold Vt.collect_changes. simpl.
  destruct (changes_wf _ Hs) as (Hs1 & Hc1 & Hr1). unfold Terminal.changes in *. simpl in *.
  eapply Safe_bind; [by apply gc_terminal_Safe|]. intros [s' gone] [(? & Hc & Hr) _].
  simpl in *. split; [by split|]. unfold Vt.size, Terminal.size. simpl. by rewrite Hc, Hr.
Qed.

Lemma feed_str_Safe cs v : upkeep ≠ Loose →
  wf_vt v → Vt.feed_str cs v ⇓ λ '(v', _), wf_vt v' ∧ Vt.size v' = Vt.size v.
Proof.
  intros Hl Hv. unfold Vt.feed_str. eapply Safe_bind; [by apply feed_chars_Safe|].
  intros v1 [Hv1 E]. eapply Safe_mono; [by apply collect_changes_Safe|].
  intros [v2 ch] [? ?]. split; [done|congruence].
Qed.

Lemma resize_vt_Safe v cols rows :
  wf_vt v → 2 ≤ cols → 1 ≤ rows → resize_ok (Vt.terminal v) cols →
  Vt.resize cols rows v ⇓ λ '(v', _), wf_vt v' ∧ Vt.size v' = (cols, rows).
Proof.
  intros [Hp Hs] Hc Hr Hok. unfold Vt.resize.
  eapply Safe_bind; [by apply resize_terminal_Safe|]. intros [s' r] (Hs' & Hsz & _).
  eapply Safe_mono; [by apply collect_changes_Safe|]. intros [v' ch] [? E].
  split; [done|]. by rewrite E.
Qed.

Lemma set_policy_wf (policy : bool) (s : Terminal.t) :
  wf_term (H0:=true) s → Terminal.active_buffer_type s = Primary →
  wf_term (H0:=policy) (Terminal.set_reflow_cursor_line policy s).
Proof.
  intros Hs Ha. destruct Hs as [[] ? ? ? ?]. unfold strict_of in *. rewrite orb_true_r in *.
  split; [split|..]; try done; [by apply wf_buffer_weaken..|]. intros _ Hb. simpl in *. congruence.
Qed.

Lemma build_Safe b :
  Vt.Builder.reflow_cursor_line b = reflows →
  2 ≤ (Vt.Builder.size b).1 → 1 ≤ (Vt.Builder.size b).2 →
  Vt.Builder.build b ⇓ λ v, wf_vt v ∧ Vt.size v = Vt.Builder.size b.
Proof.
  intros Hpol Hc Hr.
  destruct (Safe_elim _ _ (new_Safe (H0:=true) (Vt.Builder.size b).1 (Vt.Builder.size b).2
    (Vt.Builder.scrollback_limit b) eq_refl Hc Hr)) as (s & E & Hs & Hsz).
  unfold Vt.Builder.build. rewrite E. simpl. split; [|by destruct (Vt.Builder.size b)].
  split; [apply wf_parser_new|]. simpl. rewrite Hpol. apply set_policy_wf; [done|].
  unfold Terminal.new in E. destruct (csub _ 1); simplify_eq/=. done.
Qed.
End vt_inv.

(** * Checkpoints *)

Lemma seq_Ok {A} (m : result ()) (k : result A) a :
  (_ ← m; k) = Ok a ↔ m = Ok () ∧ k = Ok a.
Proof. destruct m as [[]|e|]; simpl; split; [auto|by intros []|done|by intros []|done|by intros []]. Qed.

Lemma ok_or_seq {A B} (m : option A) e (k : A → result B) b :
  (x ← ok_or m e; k x) = Ok b ↔ ∃ x, m = Some x ∧ k x = Ok b.
Proof. destruct m; simpl; split; [eauto|by intros (? & [= <-] & ?)|done|by intros (? & ? & _)]. Qed.

Lemma try_each_Ok {A} (f : A → result ()) (l : list A) :
  try_each f l = Ok () ↔ Forall (λ x, f x = Ok ()) l.
Proof.
  induction l as [|x l IH]; simpl; [split; [constructor|done]|].
  by rewrite seq_Ok, Forall_cons, IH.
Qed.

Section cells.
Context `{UnicodeWidth}.
Implicit Types (c : Cell.t) (cs : list Cell.t).

(** The local condition on the cell at an index that [LineState::validate] checks. *)
Definition cell_ok cs (i : nat) c : Prop :=
  Pen.wf (Cell.pen c) ∧
  match Cell.occupancy c with
  | Single => narrow (Cell.ch c)
  | WideHead => char_width (Cell.ch c) = Some 2 ∧
      ∃ t, cs !! (i + 1) = Some t ∧ Cell.occupancy t = WideTail
  | WideTail => Cell.ch c = space ∧
      ∃ j h, i = S j ∧ cs !! j = Some h ∧ Cell.occupancy h = WideHead ∧
        Cell.pen h = Cell.pen c
  end.

Definition cells_ok cs : Prop := ∀ i c, cs !! i = Some c → cell_ok cs i c.

Lemma cell_ok_shift a cs i c : cell_ok cs i c → cell_ok (a ++ cs) (length a + i) c.
Proof.
  intros [Hp Ho]. split; [done|]. destruct (Cell.occupancy c); [done| |].
  - destruct Ho as (? & t & Ht & ?). split; [done|]. exists t. split; [|done].
    rewrite lookup_app_r by lia. by replace (length a + i + 1 - length a) with (i + 1) by lia.
  - destruct Ho as (? & j & h & -> & Hj & ? & ?). split; [done|].
    exists (length a + j), h. split_and!; [lia| |done..].
    rewrite lookup_app_r by lia. by replace (length a + j - length a) with j by lia.
Qed.

Lemma wf_cells_ok cs : wf_cells cs → cells_ok cs.
Proof.
  induction 1 as [|c cs Hc Hcs IH|h t cs Hp Hcs IH]; intros i x Hx; [done| |].
  - destruct i as [|i]; simplify_eq/=.
    + destruct Hc as (Ho & ? & ?). split; [done|]. by rewrite Ho.
    + apply (cell_ok_shift [c] cs i). by apply IH.
  - destruct Hp as (Hoh & Hw & Hot & Hch & Hpen & Hwf).
    destruct i as [|[|i]]; simplify_eq/=.
    + split; [by rewrite Hpen|]. rewrite Hoh. eauto.
    + split; [done|]. rewrite Hot. split; [done|]. exists 0, h. done.
    + apply (cell_ok_shift [h; t] cs i). by apply IH.
Qed.

(** Dropping cells that are no tail's head keeps the conditions. *)
Lemma cell_ok_unshift a cs i c :
  cell_ok (a ++ cs) (length a + i) c →
  (∀ h, last a = Some h → Cell.occupancy h ≠ WideHead) → cell_ok cs i c.
Proof.
  intros [Hp Ho] Ha. split; [done|]. destruct (Cell.occupancy c); [done| |].
  - destruct Ho as (? & t & Ht & ?). split; [done|]. exists t. split; [|done].
    rewrite lookup_app_r in Ht by lia.
    by replace (length a + i + 1 - length a) with (i + 1) in Ht by lia.
  - destruct Ho as (? & j & h & Hij & Hj & Hh & ?). split; [done|]. destruct i as [|i].
    + exfalso. apply (Ha h); [|done]. rewrite last_lookup, <- Hj.
      rewrite lookup_app_l by lia. f_equal. lia.
    + exists i, h. split_and!; [done| |done..].
      rewrite lookup_app_r in Hj by lia. by replace (j - length a) with i in Hj by lia.
Qed.

Lemma cells_ok_unshift a cs :
  cells_ok (a ++ cs) → (∀ h, last a = Some h → Cell.occupancy h ≠ WideHead) → cells_ok cs.
Proof.
  intros Hok Ha i c Hc. apply (cell_ok_unshift a); [|done]. apply Hok.
  rewrite lookup_app_r by lia. by replace (length a + i - length a) with i by lia.
Qed.

(** The local conditions are exactly the structure of a row. *)
Lemma cells_ok_iff cs : cells_ok cs ↔ wf_cells cs.
Proof.
  split; [|apply wf_cells_ok].
  induction cs as [cs IH] using (induction_ltof1 _ length). unfold ltof in IH.
  destruct cs as [|c cs]; [constructor|]. intros Hok.
  destruct (Hok 0 c eq_refl) as [Hp Ho]. destruct (Cell.occupancy c) eqn:Hc.
  - constructor; [done|]. apply IH; [simpl; lia|]. apply (cells_ok_unshift [c]); [done|].
    intros h [= <-]. by rewrite Hc.
  - destruct Ho as (Hw & t & Ht & Hot). destruct cs as [|t' cs]; [done|]. simplify_eq/=.
    destruct (Hok 1 t eq_refl) as [Hpt Hott]. rewrite Hot in Hott.
    destruct Hott as (Hch & j & h & [= <-] & [= <-] & _ & Hpen).
    constructor; [by split_and!|]. apply IH; [simpl; lia|].
    apply (cells_ok_unshift [c; t]); [done|]. intros h [= <-]. by rewrite Hot.
  - by destruct Ho as (_ & j & h & ? & _).
Qed.
End cells.

Section validation.
Context `{UnicodeWidth}.
Implicit Types (c : Cell.t) (l : Line.t) (b : Buffer.t) (s : Terminal.t).

(** The attribute byte of a pen is a [u8]. *)
Definition pen_u8 (p : Pen.t) : Prop := (Pen.attrs p < 256)%N.

Lemma validate_pen_Ok p : pen_u8 p → validate_pen p = Ok () ↔ Pen.wf p.
Proof.
  intros Hp. unfold validate_pen. rewrite fail_if_Ok, negb_false_iff, <- Is_true_true.
  by apply Pen_known_attrs.
Qed.

Lemma wf_pen_u8 p : Pen.wf p → pen_u8 p.
Proof. unfold Pen.wf, pen_u8. lia. Qed.

Lemma narrow_iff (c : char) : narrow c ↔ ¬ ((126 < c)%N ∧ char_width c = Some 2).
Proof.
  unfold narrow, Line.char_display_width.
  destruct (bool_decide_reflect (c ≤ 126)%N); simpl; [split; [lia|done]|].
  destruct (char_width c) as [m|]; simpl;
    [|split; [by intros _ [_ [=]]|done]].
  case_bool_decide; split; try done; [by intros _ [_ [= ->]]|].
  intros Hn. exfalso. apply Hn. split; [lia|f_equal; lia].
Qed.

Lemma validate_cell_Ok cs i c :
  pen_u8 (Cell.pen c) →
  LineState.validate_cell (CellState.of_cell <$> cs) i (CellState.of_cell c) = Ok () ↔
    cell_ok cs i c.
Proof.
  intros Hp. unfold LineState.validate_cell, cell_ok. rewrite seq_Ok. simpl.
  rewrite validate_pen_Ok by done. apply and_iff_compat_l. destruct (Cell.occupancy c).
  - rewrite fail_if_Ok, narrow_iff. rewrite andb_false_iff, !bool_decide_eq_false.
    destruct (decide (126 < Cell.ch c)%N); tauto.
  - rewrite ok_or_seq. setoid_rewrite fail_if_Ok.
    setoid_rewrite orb_false_iff. setoid_rewrite negb_false_iff.
    setoid_rewrite bool_decide_eq_true. rewrite list_lookup_fmap. split.
    + intros (t & Ht & Hw & Ho). apply fmap_Some in Ht as (t' & Ht & ->). eauto.
    + intros (Hw & t & -> & Ho). simpl. eauto.
  - rewrite ok_or_seq. setoid_rewrite fail_if_Ok.
    setoid_rewrite orb_false_iff. setoid_rewrite orb_false_iff.
    setoid_rewrite negb_false_iff. setoid_rewrite bool_decide_eq_true. split.
    + intros (h & Hh & (Ho & Hch) & Hpen). unfold csub in Hh. case_decide; [|done].
      simpl in Hh. rewrite list_lookup_fmap in Hh. apply fmap_Some in Hh as (h' & Hh & ->).
      split; [done|]. exists (i - 1), h'. split_and!; [lia|done..].
    + intros (Hch & j & h & -> & Hj & Ho & Hpen). exists (CellState.of_cell h).
      unfold csub. rewrite decide_True by lia. simpl. rewrite Nat.sub_0_r.
      rewrite list_lookup_fmap, Hj. done.
Qed.

Definition cells_u8 cs : Prop := Forall (λ c, pen_u8 (Cell.pen c)) cs.

Lemma Forall_zip_seq {A} (P : nat → A → Prop) (l : list A) :
  Forall (λ '(i, x), P i x) (zip (seq 0 (length l)) l) ↔ ∀ i x, l !! i = Some x → P i x.
Proof.
  rewrite Forall_lookup. split.
  - intros Hf i x Hx. apply (Hf i (i, x)). apply lookup_zip_with_Some. exists i, x.
    split_and!; [done| |done]. apply lookup_seq. split; [done|]. by eapply lookup_lt_Some.
  - intros Hf i [j x] Hx. apply lookup_zip_with_Some in Hx as (j' & x' & [= -> ->] & Hj & Hx).
    apply lookup_seq in Hj as [-> _]. by apply Hf.
Qed.

(** Validation of a row accepts exactly the well-formed rows of its width. *)
Lemma validate_line_Ok cols l :
  cells_u8 (Line.cells l) →
  LineState.validate cols (LineState.of_line l) = Ok () ↔ wf_line cols l.
Proof.
  intros Hu. unfold LineState.validate, wf_line. rewrite seq_Ok, fail_if_Ok, negb_false_iff,
    bool_decide_eq_true, try_each_Ok. simpl. rewrite length_fmap.
  apply and_iff_compat_l. rewrite <- cells_ok_iff. unfold cells_ok.
  pose proof (Forall_zip_seq (λ i (c : CellState.t), LineState.validate_cell
    (CellState.of_cell <$> Line.cells l) i c = Ok ()) (CellState.of_cell <$> Line.cells l)) as E.
  rewrite length_fmap in E. etrans; [|etrans; [exact E|]].
  { apply Forall_iff. by intros [i c]. }
  setoid_rewrite list_lookup_fmap. split.
  - intros Hv i c Hc. apply validate_cell_Ok.
    + unfold cells_u8 in Hu. rewrite Forall_lookup in Hu. by eapply Hu.
    + apply Hv. by rewrite Hc.
  - intros Hok i c' Hc. apply fmap_Some in Hc as (c & Hc & ->).
    apply validate_cell_Ok; [|by apply Hok]. unfold cells_u8 in Hu.
    rewrite Forall_lookup in Hu. by eapply Hu.
Qed.

Lemma wf_cells_u8 cs : wf_cells cs → cells_u8 cs.
Proof. intros Hw. apply Forall_forall. intros c Hc. by eapply wf_pen_u8, wf_cells_pen. Qed.

(** ** Buffers *)

Definition buffer_u8 b : Prop := Forall (λ l, cells_u8 (Line.cells l)) (Buffer.lines b).

Lemma wf_buffer_u8 b : wf_buffer true b → buffer_u8 b.
Proof.
  intros [Hs _]. eapply Forall_impl; [apply Hs|]. intros l [_ Hl]. by apply wf_cells_u8.
Qed.

(** The size of a buffer and its scrollback limit are within the limits. *)
Definition fits_buffer (limits : StateLimits.t) b : Prop :=
  (N.of_nat (Buffer.cols b) ≤ StateLimits.max_cols limits ∧
   N.of_nat (Buffer.rows b) ≤ StateLimits.max_rows limits ∧
   N.of_nat (Buffer.cols b) ≤ isize_MAX ∧ N.of_nat (Buffer.rows b) ≤ isize_MAX)%N ∧
  (∀ n, Buffer.scrollback_limit b = Some n →
     (N.of_nat n ≤ StateLimits.max_scrollback_limit limits)%N).

Lemma validate_size_Ok cols rows limits :
  validate_size cols rows limits = Ok () ↔
    1 ≤ cols ∧ 1 ≤ rows ∧
    (N.of_nat cols ≤ StateLimits.max_cols limits ∧
     N.of_nat rows ≤ StateLimits.max_rows limits ∧
     N.of_nat cols ≤ isize_MAX ∧ N.of_nat rows ≤ isize_MAX)%N.
Proof.
  unfold validate_size. rewrite !seq_Ok, !fail_if_Ok, !bool_decide_eq_false. lia.
Qed.

Lemma validate_limit_Ok limit limits :
  validate_scrollback_limit limit limits = Ok () ↔
    ∀ n, limit = Some n → (N.of_nat n ≤ StateLimits.max_scrollback_limit limits)%N.
Proof.
  unfold validate_scrollback_limit. rewrite fail_if_Ok. destruct limit as [n|].
  - rewrite bool_decide_eq_false. split; [intros ? ? [= <-]; lia|]. intros Hn.
    specialize (Hn n eq_refl). lia.
  - split; [by intros _ ? [=]|done].
Qed.

Lemma validate_buffer_Ok b limits :
  buffer_u8 b →
  BufferState.validate (BufferState.export_state b) limits = Ok () ↔
    wf_buffer true b ∧ fits_buffer limits b.
Proof.
  intros Hu. unfold BufferState.validate. rewrite !seq_Ok, validate_size_Ok, validate_limit_Ok,
    !fail_if_Ok, try_each_Ok. simpl. rewrite length_fmap, bool_decide_eq_false.
  assert (Hlast : match last (LineState.of_line <$> Buffer.lines b) with
                  | Some l => LineState.wrapped l | None => false end = false ↔
                  ends_unwrapped (Buffer.lines b)).
  { rewrite fmap_last. unfold ends_unwrapped. destruct (last (Buffer.lines b)); simpl.
    - split; [by intros ? ? [= <-]|auto].
    - split; [by intros _ ?|done]. }
  assert (Hclosed : closed true (Buffer.lines b) ↔ ends_unwrapped (Buffer.lines b)) by (split; [by intros Hc; apply Hc|by intros He _]).
  rewrite Hlast, Forall_fmap. unfold fits_buffer, wf_buffer. rewrite Hclosed.
  assert (Hlines : Forall ((λ (l : LineState.t), LineState.validate (Buffer.cols b) l = Ok ())
      ∘ LineState.of_line) (Buffer.lines b) ↔ Forall (wf_line (Buffer.cols b)) (Buffer.lines b)).
  { unfold buffer_u8 in Hu. rewrite Forall_forall in Hu. rewrite !Forall_forall.
    split; intros Hl l Hin; specialize (Hl l Hin); simpl in *.
    - apply validate_line_Ok; auto.
    - apply validate_line_Ok; auto. }
  rewrite Hlines. split.
  - intros (? & ? & ? & ? & ?). split_and!; try tauto; try lia. split; [lia|lia|done].
  - intros [[[] ?] ?]. split_and!; try tauto; lia.
Qed.

Lemma buffer_roundtrip b : BufferState.into_buffer (BufferState.export_state b) = b.
Proof.
  destruct b as [ls c r lim tn]. unfold BufferState.into_buffer. simpl. f_equal.
  rewrite <- list_fmap_compose. rewrite <- (list_fmap_id ls) at 2. apply list_fmap_ext.
  intros i [cs w] _. unfold LineState.into_line, compose. simpl. f_equal.
  rewrite <- list_fmap_compose. rewrite <- (list_fmap_id cs) at 2. apply list_fmap_ext.
  by intros j [] _.
Qed.

Lemma buffer_state_roundtrip st : BufferState.export_state (BufferState.into_buffer st) = st.
Proof.
  destruct st as [c r lim ls tn]. unfold BufferState.export_state. simpl. f_equal.
  rewrite <- list_fmap_compose. rewrite <- (list_fmap_id ls) at 2. apply list_fmap_ext.
  intros i [cs w] _. unfold LineState.of_line, compose. simpl. f_equal.
  rewrite <- list_fmap_compose. rewrite <- (list_fmap_id cs) at 2. apply list_fmap_ext.
  by intros j [] _.
Qed.

Lemma terminal_state_roundtrip st :
  TerminalState.export_state (TerminalState.into_terminal st) = st.
Proof. destruct st. unfold TerminalState.export_state. simpl. by rewrite !buffer_state_roundtrip. Qed.

Lemma terminal_roundtrip s :
  TerminalState.into_terminal (TerminalState.export_state s) = s.
Proof. destruct s. unfold TerminalState.into_terminal. simpl. by rewrite !buffer_roundtrip. Qed.
End validation.

Section restore.
Context `{UnicodeWidth}.
Implicit Types (b : Buffer.t) (s : Terminal.t) (v : Vt.t) (limits : StateLimits.t).

Definition cells_in (ls : list Line.t) : N :=
  N.of_nat (sum_list_with (λ l, length (Line.cells l)) ls).

Lemma cell_count_go_Ok total ls n :
  BufferState.cell_count_go total (LineState.of_line <$> ls) = Ok n →
  n = (total + cells_in ls)%N.
Proof.
  revert total. induction ls as [|l ls IH]; intros total; simpl; [unfold cells_in; simpl; intros [= <-]; lia|].
  rewrite ok_or_seq. unfold checked_add, cells_in in *. intros (t & Ht & Hgo%IH).
  case_decide; [|done]. injection Ht as <-. subst n. simpl. rewrite length_fmap. lia.
Qed.

Lemma cell_count_go_total total ls :
  (total + cells_in ls ≤ usize_MAX)%N →
  BufferState.cell_count_go total (LineState.of_line <$> ls) = Ok (total + cells_in ls)%N.
Proof.
  revert total. induction ls as [|l ls IH]; intros total Ht; simpl; [f_equal; unfold cells_in; simpl; lia|].
  rewrite length_fmap. unfold cells_in in *. simpl in *. unfold checked_add.
  rewrite decide_True by lia. simpl. rewrite IH by lia. f_equal. lia.
Qed.

Lemma isize_le_usize : (isize_MAX ≤ usize_MAX)%N.
Proof. unfold isize_MAX, usize_MAX. lia. Qed.

(** Lines and cells of both buffers together. *)
Definition total_lines s : N :=
  (N.of_nat (length (Buffer.lines (Terminal.buffer s)))
   + N.of_nat (length (Buffer.lines (Terminal.other_buffer s))))%N.
Definition total_cells s : N :=
  (cells_in (Buffer.lines (Terminal.buffer s))
   + cells_in (Buffer.lines (Terminal.other_buffer s)))%N.

Definition fits_total limits s : Prop :=
  (total_lines s ≤ StateLimits.max_lines limits ∧ total_lines s ≤ isize_MAX ∧
   total_cells s ≤ StateLimits.max_cells limits ∧ total_cells s ≤ isize_MAX)%N.

Lemma validate_aggregate_Ok s limits :
  TerminalState.validate_aggregate_size (TerminalState.export_state s) limits = Ok () ↔
    fits_total limits s.
Proof.
  pose proof isize_le_usize. unfold TerminalState.validate_aggregate_size, fits_total,
    BufferState.line_count, BufferState.cell_count, total_lines, total_cells. simpl.
  rewrite !length_fmap, ok_or_seq. unfold checked_add at 1. split.
  - intros (n & Hn & Hv). case_decide; [|done]. injection Hn as <-.
    rewrite seq_Ok, fail_if_Ok, bool_decide_eq_false in Hv. destruct Hv as [Hlines Hv].
    apply bind_Ok in Hv as (a & Ha%cell_count_go_Ok & Hv).
    apply bind_Ok in Hv as (c & Hc%cell_count_go_Ok & Hv).
    apply ok_or_seq in Hv as (m & Hm & Hv). unfold checked_add in Hm. case_decide; [|done].
    injection Hm as <-. rewrite fail_if_Ok, bool_decide_eq_false in Hv. lia.
  - intros (? & ? & ? & ?). eexists. rewrite decide_True by lia. split; [done|].
    rewrite seq_Ok, fail_if_Ok, bool_decide_eq_false. split; [lia|].
    rewrite !cell_count_go_total by lia. simpl. unfold checked_add. rewrite !N.add_0_l.
    rewrite decide_True by lia. simpl. rewrite fail_if_Ok, bool_decide_eq_false. lia.
Qed.

Lemma unsorted_false tabs :
  TerminalState.unsorted tabs = false ↔ Sorted.StronglySorted lt tabs.
Proof.
  induction tabs as [|a tabs IH]; [split; [constructor|done]|].
  destruct tabs as [|b tabs]; [split; [by repeat constructor|done]|].
  simpl in *. rewrite orb_false_iff, bool_decide_eq_false, IH. split.
  - intros [Hab Hs]. constructor; [done|]. apply Sorted.StronglySorted_inv in Hs as [_ Hb].
    constructor; [lia|]. eapply Forall_impl; [exact Hb|]. simpl. lia.
  - intros [Hs [Hab _]%Forall_cons]%Sorted.StronglySorted_inv. split; [lia|done].
Qed.

Definition term_u8 s : Prop :=
  buffer_u8 (Terminal.buffer s) ∧ buffer_u8 (Terminal.other_buffer s) ∧
  pen_u8 (Terminal.pen s) ∧ pen_u8 (SavedCtx.pen (Terminal.saved_ctx s)) ∧
  pen_u8 (SavedCtx.pen (Terminal.alternate_saved_ctx s)).

Lemma validate_ctx_Ok c b :
  pen_u8 (SavedCtx.pen c) →
  TerminalState.validate_saved_ctx c (BufferState.export_state b) = Ok () ↔
    wf_ctx (Buffer.cols b) (Buffer.rows b) c.
Proof.
  intros Hu. unfold TerminalState.validate_saved_ctx, wf_ctx.
  rewrite seq_Ok, fail_if_Ok, bool_decide_eq_false, validate_pen_Ok by done. simpl.
  split; [intros [? ?]; split_and!; [lia|lia|done]|intros (? & ? & ?); split; [lia|done]].
Qed.

(** What validation of an exported terminal checks, field by field. *)
Record checked limits s : Prop := {
  ck_size : 1 ≤ Terminal.cols s ∧ 1 ≤ Terminal.rows s ∧
    (N.of_nat (Terminal.cols s) ≤ StateLimits.max_cols limits ∧
     N.of_nat (Terminal.rows s) ≤ StateLimits.max_rows limits ∧
     N.of_nat (Terminal.cols s) ≤ isize_MAX ∧ N.of_nat (Terminal.rows s) ≤ isize_MAX)%N;
  ck_limit : ∀ n, Terminal.scrollback_limit s = Some n →
    (N.of_nat n ≤ StateLimits.max_scrollback_limit limits)%N;
  ck_total : fits_total limits s;
  ck_buffer : wf_buffer true (Terminal.buffer s) ∧ fits_buffer limits (Terminal.buffer s);
  ck_other : wf_buffer true (Terminal.other_buffer s) ∧ fits_buffer limits (Terminal.other_buffer s);
  ck_dims : Buffer.cols (Terminal.buffer s) = Terminal.cols s ∧
    Buffer.rows (Terminal.buffer s) = Terminal.rows s;
  ck_policy : Buffer.scrollback_limit (Terminal.primary_buffer s) = Terminal.scrollback_limit s ∧
    Buffer.scrollback_limit (Terminal.alternate_buffer s) = Some 0;
  ck_cursor : Cursor.col (Terminal.cursor s) ≤ Terminal.cols s ∧
    Cursor.row (Terminal.cursor s) < Terminal.rows s;
  ck_margins : Terminal.top_margin s ≤ Terminal.bottom_margin s < Terminal.rows s;
  ck_charset : Terminal.active_charset s < length (Terminal.charsets s);
  ck_dirty : length (Terminal.dirty_lines s) = Terminal.rows s;
  ck_tabs : length (Terminal.tabs s) ≤ Terminal.cols s ∧
    Forall (λ t, t ≤ Terminal.cols s) (Terminal.tabs s) ∧
    Sorted.StronglySorted lt (Terminal.tabs s);
  ck_pen : Pen.wf (Terminal.pen s);
  ck_saved : wf_ctx (Buffer.cols (Terminal.buffer s)) (Buffer.rows (Terminal.buffer s))
    (Terminal.saved_ctx s);
  ck_alternate_saved : wf_ctx (Buffer.cols (Terminal.other_buffer s))
    (Buffer.rows (Terminal.other_buffer s)) (Terminal.alternate_saved_ctx s);
}.

Lemma existsb_false {A} (f : A → bool) (l : list A) :
  existsb f l = false ↔ Forall (λ x, f x = false) l.
Proof.
  induction l as [|x l IH]; simpl; [split; [constructor|done]|].
  by rewrite orb_false_iff, Forall_cons, IH.
Qed.

Lemma policy_pair s :
  (let '(primary, alternate) :=
     match Terminal.active_buffer_type s with
     | Primary => (BufferState.export_state (Terminal.buffer s),
                   BufferState.export_state (Terminal.other_buffer s))
     | Alternate => (BufferState.export_state (Terminal.other_buffer s),
                     BufferState.export_state (Terminal.buffer s))
     end in (primary, alternate)) =
  (BufferState.export_state (Terminal.primary_buffer s),
   BufferState.export_state (Terminal.alternate_buffer s)).
Proof.
  unfold Terminal.primary_buffer, Terminal.alternate_buffer.
  by destruct (Terminal.active_buffer_type s).
Qed.

Lemma validate_terminal_Ok s limits :
  term_u8 s →
  TerminalState.validate (TerminalState.export_state s) limits = Ok () ↔ checked limits s.
Proof.
  intros (Hub & Huo & Hup & Hus & Hua). unfold TerminalState.validate. pose proof (policy_pair s) as Hpp.
  cbn [TerminalState.cols TerminalState.rows TerminalState.buffer TerminalState.other_buffer
    TerminalState.active_buffer_type TerminalState.scrollback_limit TerminalState.cursor
    TerminalState.pen TerminalState.charsets TerminalState.active_charset TerminalState.tabs
    TerminalState.top_margin TerminalState.bottom_margin TerminalState.saved_ctx
    TerminalState.alternate_saved_ctx TerminalState.dirty_lines TerminalState.export_state].
  destruct (match Terminal.active_buffer_type s with
     | Primary => (BufferState.export_state (Terminal.buffer s),
                   BufferState.export_state (Terminal.other_buffer s))
     | Alternate => (BufferState.export_state (Terminal.other_buffer s),
                     BufferState.export_state (Terminal.buffer s))
     end) as [pr al]. injection Hpp as -> ->.
  fold (TerminalState.export_state s).
  rewrite !seq_Ok, validate_size_Ok, validate_limit_Ok, validate_aggregate_Ok,
    !validate_buffer_Ok, validate_pen_Ok, !validate_ctx_Ok, !fail_if_Ok by done.
  rewrite !orb_false_iff, !negb_false_iff, existsb_false, unsorted_false, !bool_decide_eq_true,
    !bool_decide_eq_false.
  cbn [BufferState.cols BufferState.rows BufferState.scrollback_limit BufferState.export_state].
  assert (Htabs : Forall (λ t, bool_decide (Terminal.cols s < t) = false) (Terminal.tabs s) ↔
    Forall (λ t, t ≤ Terminal.cols s) (Terminal.tabs s)).
  { apply Forall_iff. intros t. rewrite bool_decide_eq_false. lia. }
  rewrite Htabs. split.
  - intros (? & ? & ? & ? & ? & ? & ? & ? & ? & ? & ? & [[? ?] ?] & ? & ? & ?).
    split; try done; try lia. split_and!; [lia|done|done].
  - intros []. split_and!; try tauto; try lia.
Qed.
End restore.

Section checkpoint.
Context `{UnicodeWidth} `{ResizePolicy}.
Implicit Types (b : Buffer.t) (s : Terminal.t) (v : Vt.t) (p : Parser.t)
  (limits : StateLimits.t).

(** The emulator's size is within the limits of a restore. *)
Definition fits limits s : Prop :=
  fits_total limits s ∧ fits_buffer limits (Terminal.buffer s) ∧
  fits_buffer limits (Terminal.other_buffer s).

Lemma wf_term_checked limits s : wf_term s → fits limits s → checked limits s.
Proof.
  intros Hs (Htot & [Hfs1 Hfl1] & [Hfs2 Hfl2]). pose proof (wt_core _ Hs) as Hc.
  pose proof (wt_dims _ Hs) as [Hd1 Hd2]. pose proof (wc_tabs _ Hc) as Ht.
  pose proof (wc_cols _ Hc). pose proof (wc_rows _ Hc).
  split; try done; try (by apply Hc); try (by apply Hs).
  - rewrite Hd1, Hd2 in Hfs1. split_and!; try lia; tauto.
  - intros n Hn. rewrite <- (wc_primary _ Hc) in Hn. unfold Terminal.primary_buffer in Hn.
    case_decide; auto.
  - split; [by apply Hc|by split].
  - split; [by apply Hc|by split].
  - split; by apply Hc.
  - destruct (wc_charsets _ Hc). lia.
  - split_and!; [by apply wf_tabs_length| |by apply Ht].
    eapply Forall_impl; [apply Ht|]. simpl. lia.
  - rewrite Hd1, Hd2. by apply Hs.
Qed.

Lemma wf_term_u8 s : wf_term s → term_u8 s.
Proof.
  intros Hs. pose proof (wt_core _ Hs) as Hc. split_and!.
  - apply wf_buffer_u8, Hc.
  - apply wf_buffer_u8, Hc.
  - apply wf_pen_u8, Hc.
  - apply wf_pen_u8, Hc.
  - apply wf_pen_u8. by destruct (wc_alternate_saved _ Hc) as (? & ? & ?).
Qed.

Lemma parser_validate_Ok p :
  wf_parser p → ParserState.validate (ParserState.export_state p) = Ok ().
Proof.
  intros [Hl Hf Hc Hi]. unfold ParserState.validate, validate_version.
  rewrite !seq_Ok, !fail_if_Ok. simpl. split_and!.
  - done.
  - rewrite bool_decide_eq_false. lia.
  - apply existsb_false, Forall_fmap. eapply Forall_impl; [exact Hf|].
    intros q (? & ? & ?). simpl. rewrite bool_decide_eq_false. lia.
  - destruct (Parser.intermediate p) as [c|]; [|done]. specialize (Hi c eq_refl).
    unfold is_intermediate in Hi. by destruct (Parser.rng 0x20 0x2f c), (Parser.rng 0x3c 0x3f c).
Qed.

Lemma params_id (qs : list Param.t) :
  ((λ q, Param.Mk (Param.cur_part q) (Param.parts q)) <$> qs) = qs.
Proof.
  rewrite <- (list_fmap_id qs) at 2. apply list_fmap_ext. by intros i [] _.
Qed.

Lemma parser_restore p :
  wf_parser p → ParserState.from_state (ParserState.export_state p) = Ok p.
Proof.
  intros Hp. unfold ParserState.from_state. rewrite parser_validate_Ok by done. simpl.
  rewrite !params_id. by destruct p.
Qed.

Lemma vt_restore limits v :
  wf_vt v → fits limits (Vt.terminal v) →
  Vt.from_state_with_limits (Vt.export_state v) limits = Ok v.
Proof.
  intros [Hp Hs] Hfit. unfold Vt.from_state_with_limits.
  assert (VtState.validate (Vt.export_state v) limits = Ok ()) as ->.
  { unfold VtState.validate. rewrite !seq_Ok. simpl. split_and!; [done| |].
    - by apply parser_validate_Ok.
    - apply validate_terminal_Ok; [by apply wf_term_u8|by apply wf_term_checked]. }
  simpl. rewrite parser_restore by done. simpl. rewrite terminal_roundtrip. by destruct v.
Qed.

(** ** Accepted checkpoints *)

(** What the Rust types of a checkpoint guarantee: the lengths of its arrays and
    the ranges of its integers. *)
Definition typed_term s : Prop := term_u8 s ∧ length (Terminal.charsets s) = 2.
Definition typed_parser p : Prop :=
  length (Parser.params p) = PARAMS_LEN ∧
  Forall (λ q, length (Param.parts q) = MAX_PARAM_LEN ∧
               Forall (λ n, n < 65536)%N (Param.parts q)) (Parser.params p).

(** What validation leaves open: one-column screens, a tab stop in column zero,
    the escape-driven resize, and the resize policy behind an alternate screen. *)
Definition ordinary s : Prop :=
  2 ≤ Terminal.cols s ∧ Forall (λ t, 0 < t) (Terminal.tabs s) ∧
  Terminal.xtwinops_enabled s = false ∧ wf_policy s ∧
  Terminal.reflow_cursor_line s = reflows.

Lemma checked_wf_term limits s :
  checked limits s → typed_term s → ordinary s → wf_term s.
Proof.
  intros Hck [Hu Hcs] (Hcols & Htabs & Hx & Hpol & Hrefl).
  pose proof (ck_dims _ _ Hck) as [Hd1 Hd2]. pose proof (ck_tabs _ _ Hck) as (_ & Hle & Hsorted).
  pose proof (ck_saved _ _ Hck) as Hsv. split.
  - split; try done; try (by apply Hck).
    + split; [done|]. rewrite <- Hcs. apply Hck.
    + split; [done|]. rewrite Forall_forall in *. intros t Ht. split; auto.
  - done.
  - apply Hck.
  - by rewrite <- Hd1, <- Hd2.
  - apply Hck.
Qed.

Lemma validated_parser_wf p :
  ParserState.validate (ParserState.export_state p) = Ok () → typed_parser p → wf_parser p.
Proof.
  unfold ParserState.validate, validate_version. rewrite !seq_Ok, !fail_if_Ok. simpl.
  intros (_ & Hc & Hq & Hi) [Hl Hf]. rewrite bool_decide_eq_false in Hc.
  apply existsb_false, Forall_fmap in Hq. split; [done| |lia|].
  - rewrite Forall_forall in *. intros q Hin. specialize (Hq q Hin). simpl in Hq.
    rewrite bool_decide_eq_false in Hq. destruct (Hf q Hin). split_and!; [done|lia|done].
  - intros c E. rewrite E in Hi. unfold is_intermediate.
    by destruct (Parser.rng 0x20 0x2f c), (Parser.rng 0x3c 0x3f c).
Qed.

Lemma from_state_inv limits st v :
  Vt.from_state_with_limits st limits = Ok v →
  ParserState.validate (ParserState.export_state (Vt.parser v)) = Ok () ∧
  (term_u8 (Vt.terminal v) → checked limits (Vt.terminal v)).
Proof.
  unfold Vt.from_state_with_limits, VtState.validate, VtState.into_parts.
  rewrite !seq_Ok. intros [(_ & Hp & Ht) Hok].
  apply bind_Ok in Hok as (p & Hfrom & [= <-]). simpl.
  unfold ParserState.from_state in Hfrom. apply seq_Ok in Hfrom as [_ [= <-]].
  split.
  - unfold ParserState.export_state. simpl. rewrite !params_id.
    unfold ParserState.validate in Hp. apply seq_Ok in Hp as [_ Hp].
    unfold ParserState.validate. by apply seq_Ok.
  - intros Hu. apply validate_terminal_Ok; [done|].
    assert (TerminalState.export_state (TerminalState.into_terminal (VtState.terminal st))
      = VtState.terminal st) as ->; [|done].
    apply terminal_state_roundtrip.
Qed.
End checkpoint.
