(* ===== verification/DumpTotal.v ===== *)
(** [Vt::dump] answers for every well-formed emulator of less than 65535 columns
    and at most 65535 rows. *)

From S2P Require Import Prelude.
From S2P Require Import Cells.
From S2P Require Import Lines.
From S2P Require Import Buffers.
From S2P Require Import Functions.
From S2P Require Import Tabs.
From S2P Require Import Terminal.
From S2P Require Import TerminalInv.
From S2P Require Import Parser.
From S2P Require Import ParserInv.
From S2P Require Import Vt.
From S2P Require Import VtInv.
From S2P Require Import Dump.
From S2P Require Import DumpInv.
From S2P Require Import DumpResume.

(** Functions [parser::dump] prints *)
Definition dumpable (f : Fun.t) : Prop := is_Some (dump_function f).
Definition dumpable_all (funs : list Fun.t) : Prop := Forall dumpable funs.

Lemma dump_functions_total funs : dumpable_all funs → is_Some (dump_functions funs).
Proof.
  induction 1 as [|f funs [s Hs] _ [rest IH]]; [by eexists|]. cbn [dump_functions]. rewrite Hs, IH. by eexists.
Qed.

Lemma slice_Some {A} cap (m : SmallVec.t A) : SmallVec.wf cap m → is_Some (SmallVec.as_slice m).
Proof. intros Hm. destruct (SmallVec.wf_repr cap m Hm) as (l & _ & E). by exists l. Qed.

Lemma dumpable_wf f : Fun.wf f → dumpable f.
Proof.
  unfold dumpable. destruct f; cbn; try (intros _; by eexists); try (intros [l ->]%slice_Some; by eexists);
    try (intros _; case_match; by eexists).
  intros Hm. case_match; [by eexists|]. destruct (slice_Some _ _ Hm) as [l ->]. by eexists.
Qed.

Lemma sequence_Safe l : Forall (λ o, o ⇓ dumpable_all) l → sequence l ⇓ dumpable_all.
Proof.
  induction 1 as [|o l Ho _ IH]; [constructor|]. cbn [sequence]. eapply Safe_bind; [exact Ho|]. intros funs Hf.
  eapply Safe_bind; [exact IH|]. intros rest Hr. by apply Forall_app.
Qed.

Lemma when_Safe b o : (b = true → o ⇓ dumpable_all) → when b o ⇓ dumpable_all.
Proof. intros Ho. destruct b; [by apply Ho|constructor]. Qed.

Lemma dumpable_one f : Fun.wf f → dumpable_all [f].
Proof. intros Hf. constructor; [by apply dumpable_wf|constructor]. Qed.

Lemma to_u16_Safe n : (N.of_nat n < 65536)%N → to_u16 n ⇓ λ _, True.
Proof. intros Hn. unfold to_u16. by rewrite decide_True by lia. Qed.

(** * Renditions *)

Lemma push_wf ops op : SgrOps.wf ops → SgrOps.push ops op ⇓ SgrOps.wf.
Proof.
  intros (l & Hl)%SmallVec.wf_repr. eapply Safe_mono; [by apply (SmallVec.push_repr SgrOps.INLINE_CAP)|].
  by intros m [? _].
Qed.

Lemma push_if_wf b op ops : SgrOps.wf ops → push_if b op ops ⇓ SgrOps.wf.
Proof. intros Hw. destruct b; [by apply push_wf|done]. Qed.

Lemma new_wf : SgrOps.wf SgrOps.new.
Proof. apply (SmallVec.new_repr SgrOps.INLINE_CAP SgrOp.Reset). Qed.

#[local] Hint Resolve push_wf push_if_wf new_wf : wf.

Lemma to_sgr_ops_wf pen : to_sgr_ops pen ⇓ SgrOps.wf.
Proof.
  unfold to_sgr_ops. eapply Safe_bind; [by apply push_wf, new_wf|]. intros ops Hw.
  repeat (eapply Safe_bind; [first [by apply push_if_wf | case_match; by auto with wf]|]; intros ? ?).
  by apply push_if_wf.
Qed.

Lemma to_sgr_diff_ops_wf from to : to_sgr_diff_ops from to ⇓ SgrOps.wf.
Proof.
  unfold to_sgr_diff_ops, push_attr_diff. pose proof new_wf.
  repeat (eapply Safe_bind; [by apply push_if_wf|]; intros ? ?). by apply push_if_wf.
Qed.

Lemma dump_sgr_Safe pen : push_sgr pen ⇓ dumpable_all.
Proof.
  unfold push_sgr, to_sgr. destruct (Safe_elim _ _ (to_sgr_ops_wf pen)) as (ops & -> & Hw). by apply dumpable_one.
Qed.

Lemma to_sgr_diff_Safe from to : to_sgr_diff from to ⇓ λ f, dumpable_all (option_list f).
Proof.
  unfold to_sgr_diff. case_match; [constructor|].
  destruct (Safe_elim _ _ (to_sgr_ops_wf to)) as (ops & -> & Hw). cbn [mbind option_bind].
  destruct (Safe_elim _ _ (to_sgr_diff_ops_wf from to)) as (diff & -> & Hd). cbn [mbind option_bind].
  apply dumpable_one. by case_match.
Qed.

(** * Rows *)

Lemma run_len_le ch cells : run_len ch cells ≤ length cells.
Proof. induction cells as [|c cells IH]; cbn; [lia|]. case_decide; lia. Qed.

Lemma dumpable_print ch n : dumpable_all (replicate n (Fun.Print ch)).
Proof. apply Forall_replicate, dumpable_wf. exact I. Qed.

Lemma dump_cells_go_Safe fuel cells : length cells < fuel → (N.of_nat (length cells) < 65536)%N →
  dump_cells_go fuel cells ⇓ dumpable_all.
Proof.
  revert cells. induction fuel as [|fuel IH]; intros cells Hf Hl; [lia|]. cbn [dump_cells_go].
  destruct cells as [|c rest]; [constructor|]. cbv zeta. pose proof (run_len_le (Cell.ch c) rest) as Hr. cbn in Hf, Hl.
  eapply (Safe_bind _ _ dumpable_all).
  - case_decide; [|apply dumpable_print]. eapply Safe_bind; [apply to_u16_Safe; lia|]. intros n _.
    constructor; [by eexists|]. by apply dumpable_one.
  - intros head Hh. eapply Safe_bind; [apply IH; cbn [drop]; rewrite length_drop; lia|].
    intros funs Hfs. by apply Forall_app.
Qed.

Lemma chunks_go_spec predicate iter : ∀ cur, Forall (λ k, k ≠ [] ∧ length k ≤ length cur + length iter)
  (Line.chunks_go predicate cur iter).
Proof.
  induction iter as [|c iter IH]; intros cur; cbn [Line.chunks_go].
  - case_decide; repeat constructor; [done|lia].
  - assert (Hgo : ∀ cur', length cur' ≤ S (length cur) → Forall (λ k, k ≠ [] ∧ length k ≤ length cur + length (c :: iter))
      (Line.chunks_go predicate cur' iter)).
    { intros cur' Hl. eapply Forall_impl; [apply IH|]. intros k [Hk ?]. split; [done|]. cbn. lia. }
    destruct (last cur) as [c'|] eqn:El; [|apply Hgo; rewrite length_app; cbn; lia].
    case_match; [|apply Hgo; rewrite length_app; cbn; lia].
    constructor; [split; [by intros ->|cbn; lia]|]. apply Hgo. cbn. lia.
Qed.

Lemma dump_chunks_Safe chunks : Forall (λ k, k ≠ [] ∧ (N.of_nat (length k) < 65536)%N) chunks →
  ∀ pen, dump_chunks chunks pen ⇓ λ '(funs, _), dumpable_all funs.
Proof.
  induction 1 as [|cells chunks [Hne Hl] _ IH]; intros pen; [constructor|]. cbn [dump_chunks].
  destruct cells as [|c cells]; [done|]. cbn [head mbind option_bind].
  eapply (Safe_bind _ _ (λ f, dumpable_all (option_list f))); [case_match; [constructor|apply to_sgr_diff_Safe]|].
  intros f Hf. eapply Safe_bind; [apply dump_cells_go_Safe; [lia|done]|]. intros printed Hp.
  eapply Safe_bind; [apply IH|]. intros [funs pen'] Hfs. repeat (apply Forall_app; split); done.
Qed.

Lemma dump_lines_Safe last lines : Forall (λ l, (N.of_nat (Line.len l) < 65536)%N) lines →
  ∀ i pen, dump_lines last i lines pen ⇓ dumpable_all.
Proof.
  induction 1 as [|l lines Hl _ IH]; intros i pen; [constructor|]. cbn [dump_lines].
  eapply Safe_bind.
  - apply dump_chunks_Safe. eapply Forall_impl; [apply chunks_go_spec|]. intros k [Hk Hlen]. split; [done|].
    unfold Line.len in Hl. cbn in Hlen. pose proof (List.filter_length_le (λ c, bool_decide (Cell.occupancy c ≠ WideTail)) (Line.cells l)).
    lia.
  - intros [funs pen'] Hfs. eapply Safe_bind; [apply IH|]. intros rest Hr.
    repeat (apply Forall_app; split); try done. repeat case_match; repeat constructor; by eexists.
Qed.

(** * The whole terminal *)

Section total.
Context `{UnicodeWidth} `{ResizePolicy} `{Upkeep}.
Implicit Types (s : Terminal.t) (b : Buffer.t).

(** Positions in the buffer, counted from one, are [u16]s. *)
Definition small b : Prop := (N.of_nat (Buffer.cols b) < 65535)%N ∧ (N.of_nat (Buffer.rows b) < 65536)%N.

Lemma dump_buffer_Safe strict b : wf_buffer strict b → small b → dump_buffer b ⇓ dumpable_all.
Proof.
  intros [Hs _] [Hc _]. unfold dump_buffer, Buffer.view. rewrite view_offset_Some by done. cbn [mbind option_bind].
  destruct Hs as [Hcols Hrows Hl]. eapply Safe_bind; [eapply (csub_Safe _ _ (λ _, True)); [lia|done]|]. intros last _.
  apply dump_lines_Safe, Forall_take, Forall_drop. eapply Forall_impl; [exact Hl|].
  intros l [Hlen _]. unfold Line.len. lia.
Qed.

Lemma decset_Safe mode : push_decset mode ⇓ dumpable_all.
Proof. destruct mode; (eapply Safe_intro; [reflexivity|]); apply dumpable_one; (split; [done|by apply Nat.leb_le]). Qed.
Lemma decrst_Safe mode : push_decrst mode ⇓ dumpable_all.
Proof. destruct mode; (eapply Safe_intro; [reflexivity|]); apply dumpable_one; (split; [done|by apply Nat.leb_le]). Qed.
Lemma set_ansi_Safe mode : set_ansi mode ⇓ dumpable_all.
Proof. destruct mode; (eapply Safe_intro; [reflexivity|]); apply dumpable_one; (split; [done|by apply Nat.leb_le]). Qed.

Lemma cup_Safe row col : (N.of_nat row < 65535)%N → (N.of_nat col < 65535)%N → cup_at row col ⇓ dumpable_all.
Proof.
  intros Hr Hc. unfold cup_at. eapply Safe_bind; [apply to_u16_Safe; lia|]. intros r _.
  eapply Safe_bind; [apply to_u16_Safe; lia|]. intros c _. by apply dumpable_one.
Qed.

Lemma shift_Safe to from back forth : (∀ n, Fun.wf (back n)) → (∀ n, Fun.wf (forth n)) →
  (N.of_nat to < 65536)%N → (N.of_nat from < 65536)%N → shift to from back forth ⇓ dumpable_all.
Proof.
  intros Hb Hf Ht Hfr. unfold shift. repeat case_decide; [| |constructor];
    (eapply Safe_bind; [apply to_u16_Safe; lia|]); intros n _; by apply dumpable_one.
Qed.

Create HintDb dump.
#[local] Hint Resolve decset_Safe decrst_Safe set_ansi_Safe cup_Safe dump_sgr_Safe : dump.

(** The parts of a dump, one goal each, less those that need no argument *)
Ltac each_piece :=
  apply sequence_Safe;
  repeat match goal with
    | |- Forall _ [] => apply Forall_nil_2
    | |- Forall _ (_ :: _) => apply Forall_cons_2
    end.
Ltac pieces := each_piece; try (apply when_Safe; intros ?); auto with dump.

Lemma dump_ctx_Safe cols rows ctx : wf_ctx cols rows ctx → (N.of_nat cols < 65535)%N → (N.of_nat rows < 65536)%N →
  dump_ctx ctx ⇓ dumpable_all.
Proof.
  intros (Hc & Hr & _) Hcols Hrows. apply when_Safe. intros _. pieces.
  - apply cup_Safe; lia.
  - by apply dumpable_one.
Qed.

Lemma dump_tabs_Safe s : wf_tabs (Terminal.cols s) (Terminal.tabs s) → (N.of_nat (Terminal.cols s) < 65535)%N → dump_tabs s ⇓ dumpable_all.
Proof.
  intros [_ Ht] Hc. apply when_Safe. intros _. eapply Safe_bind.
  - apply (mapM_Safe _ (λ _, dumpable_all)). intros t Hin. rewrite Forall_forall in Ht. specialize (Ht t Hin).
    eapply Safe_bind; [apply to_u16_Safe; lia|]. intros n _. by repeat (constructor; [by eexists|]).
  - intros stops Hf. apply (Forall_cons_2 dumpable); [by eexists|].
    clear Ht. induction Hf as [|t funs l stops Hne _ IH]; [constructor|].
    apply (Forall_app dumpable funs (mjoin stops)). by split.
Qed.

Lemma dump_cursor_Safe s : wf_term s → small (Terminal.buffer s) → dump_cursor s ⇓ dumpable_all.
Proof.
  intros Hw [Hc Hr]. pose proof (wt_dims _ Hw) as [Ec Er]. pose proof (wt_cursor _ Hw) as [Hcol Hrow].
  pose proof (wt_saved _ Hw) as (Hsc & Hsr & _). rewrite Ec in Hc. rewrite Er in Hr. unfold dump_cursor. cbv zeta.
  assert (Hcup : ∀ row, row ≤ Cursor.row (Terminal.cursor s) → cup_at row (Cursor.col (Terminal.cursor s)) ⇓ dumpable_all)
    by (intros; apply cup_Safe; lia).
  case_match; [|by apply Hcup]. case_match eqn:Em.
  - pieces; [by apply dumpable_one|apply shift_Safe; (done || lia)|apply shift_Safe; (done || lia)].
  - apply orb_false_iff in Em as [Ht%bool_decide_eq_false _].
    eapply Safe_bind; [eapply (csub_Safe _ _ (λ r, r ≤ Cursor.row (Terminal.cursor s))); lia|]. intros r Hle. by apply Hcup.
Qed.

Lemma dump_pending_wrap_Safe s : wf_term s → dump_pending_wrap s ⇓ dumpable_all.
Proof.
  intros Hw. pose proof (wt_dims _ Hw) as [Ec Er]. pose proof (wt_cursor _ Hw) as [Hcol Hrow].
  pose proof (wt_core _ Hw) as Hcore. pose proof (wc_cols _ Hcore) as Hcols.
  assert (Hcell : ∀ col, col < Terminal.cols s → Buffer.index_cell (Terminal.buffer s) col (Cursor.row (Terminal.cursor s)) ⇓ λ _, True).
  { intros col Hlt. eapply index_cell_Safe; [apply Hcore|congruence|congruence]. }
  apply when_Safe. intros _. rewrite (csub_Some _ 1), (csub_Some _ 2) by lia. cbn [mbind option_bind].
  eapply Safe_bind; [apply Hcell; lia|]. intros last _. destruct (Cell.occupancy last).
  - pieces. by apply dumpable_one.
  - constructor.
  - eapply Safe_bind; [apply Hcell; lia|]. intros prev _.
    pieces; by apply dumpable_one.
Qed.

(** The buffers on show and behind *)
Lemma both_buffers s (P : Buffer.t → Prop) : P (Terminal.buffer s) → P (Terminal.other_buffer s) → P (Terminal.primary_buffer s) ∧ P (Terminal.alternate_buffer s).
Proof. intros. unfold Terminal.primary_buffer, Terminal.alternate_buffer. by destruct (Terminal.active_buffer_type s). Qed.

Lemma terminal_dump_Safe s : wf_term s → small (Terminal.buffer s) → small (Terminal.other_buffer s) → terminal_dump s ⇓ dumpable_all.
Proof.
  intros Hw Hb Ho. pose proof (wt_core _ Hw) as Hcore. pose proof (wt_dims _ Hw) as [Ec Er].
  destruct (both_buffers s (λ b, dump_buffer b ⇓ dumpable_all)) as [Hp Ha]; [by eapply dump_buffer_Safe; [apply Hcore|]..|].
  assert (Hctx : dump_ctx (Terminal.saved_ctx s) ⇓ dumpable_all).
  { eapply dump_ctx_Safe; [apply (wt_saved _ Hw)|rewrite <- Ec; apply Hb|rewrite <- Er; apply Hb]. }
  assert (Halt : dump_ctx (Terminal.alternate_saved_ctx s) ⇓ dumpable_all).
  { eapply dump_ctx_Safe; [apply (wc_alternate_saved _ Hcore)|apply Ho|apply Ho]. }
  destruct (wc_charsets _ Hcore) as [Hcs _].
  assert (Hset : ∀ i charset f, i < 2 → Fun.wf f →
    (g ← Terminal.charsets s !! i; when (bool_decide (g = charset)) (Some [f])) ⇓ dumpable_all).
  { intros i charset f Hi Hf. destruct (lookup_lt_is_Some_2 (Terminal.charsets s) i) as [g ->]; [lia|].
    apply when_Safe. intros _. by apply dumpable_one. }
  assert (Hmargins : (last_row ← csub (Terminal.rows s) 1;
     when (bool_decide (0 < Terminal.top_margin s) || bool_decide (Terminal.bottom_margin s < last_row)) (
       top ← to_u16 (Terminal.top_margin s + 1); bottom ← to_u16 (Terminal.bottom_margin s + 1);
       Some [Fun.Decstbm top bottom])) ⇓ dumpable_all).
  { destruct Hb as [_ Hb]. rewrite Er in Hb. pose proof (wc_margins _ Hcore).
    rewrite csub_Some by apply Hcore. apply when_Safe. intros _.
    eapply Safe_bind; [apply to_u16_Safe; lia|]. intros top _. eapply Safe_bind; [apply to_u16_Safe; lia|]. intros bottom _.
    by apply dumpable_one. }
  assert (Halternate : (funs ← dump_buffer (Terminal.alternate_buffer s); Some (Fun.Cup 1 1 :: funs)) ⇓ dumpable_all).
  { eapply Safe_bind; [exact Ha|]. intros funs Hf. constructor; [by eexists|done]. }
  assert (Htabs : dump_tabs s ⇓ dumpable_all).
  { apply dump_tabs_Safe; [apply Hcore|]. rewrite <- Ec. apply Hb. }
  pose proof (dump_cursor_Safe s Hw Hb). pose proof (dump_pending_wrap_Safe s Hw).
  unfold terminal_dump. destruct (Terminal.active_buffer_type s) eqn:Et; cbv beta iota zeta; each_piece;
    first [assumption | apply dump_sgr_Safe | by apply Hset; [lia|] | apply when_Safe; intros _;
      first [assumption | apply decset_Safe | apply decrst_Safe | apply set_ansi_Safe | by apply dumpable_one]].
Qed.

Lemma parser_dump_Safe p : wf_parser p → is_Some (parser_dump p).
Proof.
  intros Hp.
  assert (Hwith : ∀ k : list (list char) → list char,
    is_Some (ps ← Parser.used_params p; params ← mapM param_to_string ps; Some (k params))).
  { intros k. destruct (Safe_elim _ _ (used_params_Safe p Hp)) as (ps & -> & Hps & _). cbn [mbind option_bind].
    assert (Hstr : mapM param_to_string ps ⇓ λ _, True).
    { eapply Safe_mono; [apply (mapM_Safe _ (λ _ _, True))|done]. intros q Hq. rewrite Forall_forall in Hps.
      specialize (Hps q Hq). unfold param_to_string.
      destruct (Safe_elim _ _ (param_used_Safe q Hps)) as (parts & -> & Eparts). cbn [mbind option_bind].
      destruct parts; [|done]. destruct Hps as (Hl & Hc & _). apply (f_equal length) in Eparts.
      rewrite length_take in Eparts. cbn in Eparts. lia. }
    destruct (Safe_elim _ _ Hstr) as (params & -> & _). by eexists. }
  unfold parser_dump. destruct (Parser.state p); try (by eexists);
    [apply (Hwith (λ params, 0x9b%N :: option_list (Parser.intermediate p) ++ join 0x3b%N params))
    |apply (Hwith (λ params, 0x90%N :: option_list (Parser.intermediate p) ++ join 0x3b%N params))].
Qed.

Lemma vt_dump_Safe v : wf_vt v → small (Terminal.buffer (Vt.terminal v)) →
  small (Terminal.other_buffer (Vt.terminal v)) → is_Some (vt_dump v).
Proof.
  intros [Hp Hw] Hb Ho. unfold vt_dump.
  destruct (Safe_elim _ _ (terminal_dump_Safe _ Hw Hb Ho)) as (funs & -> & Hf). cbn [mbind option_bind].
  destruct (dump_functions_total _ Hf) as [seq ->]. cbn [mbind option_bind].
  destruct (parser_dump_Safe _ Hp) as [rest ->]. by eexists.
Qed.
End total.
