(* ===== verification/Layout.v ===== *)
(** View layouts of the terminal multiplexer (ctmux/proto/src/layout.rs): a tree of
    splits over terminals, laid out on a canvas of cells with one-cell dividers.

    [u16], [u32] and [u64] values are [N]; additions on [u16] are checked, as a
    debug build checks them, and [split_extents] computes in [u64], whose bounds are
    a theorem.  [Err] carries the message; a panic is [Panic].  A [&mut self] method
    returns the new layout: all of them fail before they change anything. *)

From S2P Require Import Prelude.
From stdpp Require Import strings.

Inductive SplitAxis := Horizontal | Vertical.
#[global] Instance SplitAxis_eq_dec : EqDecision SplitAxis.
Proof. solve_decision. Defined.

Inductive ResizeDirection := Left | Right | Up | Down.
#[global] Instance ResizeDirection_eq_dec : EqDecision ResizeDirection.
Proof. solve_decision. Defined.

(** The pixel sizes take no part in the layout. *)
Module TerminalSize.
Record t := Mk { columns : N; rows : N; pixel_width : N; pixel_height : N }.
#[global] Instance eq_dec : EqDecision t.
Proof. solve_decision. Defined.
End TerminalSize.

Module PaneGeometry.
Record t := Mk { terminal_id : string; left : N; top : N; columns : N; rows : N }.
#[global] Instance eq_dec : EqDecision t.
Proof. solve_decision. Defined.
End PaneGeometry.

Unset Elimination Schemes.
Inductive ViewLayout :=
  | Terminal (terminal_id : string)
  | Split (axis : SplitAxis) (children : list ViewLayout) (weights : list N).
Set Elimination Schemes.

(** Induction with the hypothesis on every child. *)
Lemma ViewLayout_ind (P : ViewLayout → Prop) :
  (∀ id, P (Terminal id)) →
  (∀ axis children weights, Forall P children → P (Split axis children weights)) →
  ∀ l, P l.
Proof.
  intros Ht Hs. fix IH 1. intros [id|axis children weights]; [apply Ht|]. apply Hs.
  induction children as [|c cs IHcs]; constructor; [apply IH|exact IHcs].
Qed.

(** * Arithmetic *)

Definition u16_MAX : N := 65535.
Definition u32_MAX : N := 4294967295.

Definition saturating_add (a b : N) : N := (a + b) `min` u32_MAX.
Definition saturating_mul (a b : N) : N := (a * b) `min` u32_MAX.

Definition u64_MAX : N := 18446744073709551615.

Abbreviation res A := (outcome string A).

(** [u16] addition and the sum of a slice of [u16]s *)
Definition add16 (a b : N) : res N :=
  if decide (a + b ≤ u16_MAX)%N then Ok (a + b)%N else Panic.
Fixpoint sum16 (l : list N) : res N :=
  match l with [] => Ok 0%N | x :: l => s ← sum16 l; add16 x s end.

Definition sum (l : list N) : N := foldr N.add 0%N l.

Definition along (axis : SplitAxis) (size : N * N) : N :=
  match axis with Horizontal => size.1 | Vertical => size.2 end.

Module Layout.
(** [fold((2, 1), max)] over the children's minimum sizes *)
Definition largest (sizes : list (N * N)) : N * N :=
  foldl (λ a b, (a.1 `max` b.1, a.2 `max` b.2)%N) (2%N, 1%N) sizes.
Definition total (sizes : list (N * N)) : N * N :=
  foldl (λ a b, (saturating_add a.1 b.1, saturating_add a.2 b.2)) (0%N, 0%N) sizes.

(** [u32::try_from(children.len()).unwrap_or(u32::MAX)] *)
Definition count32 {A} (children : list A) : N := N.of_nat (length children) `min` u32_MAX.

Definition split_minimum (axis : SplitAxis) (weights : list N) (sizes : list (N * N)) : N * N :=
  let count := count32 sizes in
  let gaps := (count - 1)%N in
  let big := largest sizes in
  if negb (bool_decide (weights = [])) then
    let tot := total sizes in
    match axis with
    | Horizontal => (saturating_add tot.1 gaps, big.2)
    | Vertical => (big.1, saturating_add tot.2 gaps)
    end
  else
    match axis with
    | Horizontal => (saturating_add (saturating_mul big.1 count) gaps, big.2)
    | Vertical => (big.1, saturating_add (saturating_mul big.2 count) gaps)
    end.

Fixpoint minimum_size (l : ViewLayout) : N * N :=
  match l with
  | Terminal _ => (2%N, 1%N)
  | Split axis children weights => split_minimum axis weights (minimum_size <$> children)
  end.

(** ** Extents of the children of a split *)

(** [extents[index] = remaining * weights[index] / total] and the residual cells,
    one each, to the first active children *)
Definition share (weights : list N) (remaining total : N) (active : list nat)
    (extents : list N) : res (list N) :=
  extents ← foldl (λ acc i,
      extents ← acc; w ← expect (weights !! i);
      expect (update extents i (remaining * w / total)%N)) (Ok extents) active;
  given ← foldl (λ acc i, s ← acc; e ← expect (extents !! i); Ok (s + e)%N) (Ok 0%N) active;
  residual ← expect (if decide (given ≤ remaining)%N then Some (remaining - given)%N else None);
  foldl (λ acc i,
      extents ← acc; e ← expect (extents !! i); expect (update extents i (e + 1)%N))
    (Ok extents) (take (N.to_nat residual) active).

(** The sum and the products of a pass of the loop do not overflow [u64]. *)
Definition fits64 (weight minimum : nat → N) (remaining : N) (active : list nat) : bool :=
  bool_decide (sum (weight <$> active) ≤ u64_MAX)%N &&
  forallb (λ i, bool_decide (remaining * weight i ≤ u64_MAX)%N &&
                bool_decide (minimum i * sum (weight <$> active) ≤ u64_MAX)%N) active.

(** The loop of [split_extents]; the slices are as long as the children, so indexing
    them by an active child cannot fail.  Fuel: every pass but the last fixes a child. *)
Fixpoint allocate (fuel : nat) (weights minima : list N) (active : list nat) (remaining : N)
    (extents : list N) : res (list N) :=
  match fuel with
  | 0 => Panic
  | S fuel =>
      if decide (active = []) then Ok extents else
      let weight i := default 0%N (weights !! i) in
      let minimum i := default 0%N (minima !! i) in
      let total := sum (weight <$> active) in
      _ ← expect (if fits64 weight minimum remaining active then Some () else None);
      let clamped :=
        filter (λ i, (remaining * weight i < minimum i * total)%N) active in
      if decide (clamped = []) then share weights remaining total active extents
      else
        '(extents, remaining) ← foldl (λ acc i,
            '(extents, remaining) ← acc;
            extents ← expect (update extents i (minimum i));
            remaining ← expect (if decide (minimum i ≤ remaining)%N
                                then Some (remaining - minimum i)%N else None);
            Ok (extents, remaining)) (Ok (extents, remaining)) clamped;
        allocate fuel weights minima (filter (λ i, i ∉ clamped) active) remaining extents
  end.

Definition as_u16 (extent : N) : res N :=
  if decide (extent ≤ u16_MAX)%N then Ok extent else Err "invalid pane extent"%string.

Fixpoint try_map {A B} (f : A → res B) (l : list A) : res (list B) :=
  match l with [] => Ok [] | x :: l => y ← f x; ys ← try_map f l; Ok (y :: ys) end.

Definition split_extents (axis : SplitAxis) (children : list ViewLayout) (weights : list N)
    (length_ : N) : res (list N) :=
  let count := N.of_nat (length children) in
  _ ← fail_if (bool_decide (u16_MAX < count)%N) "too many split children"%string;
  _ ← fail_if (bool_decide (count = 0%N)) "empty split"%string;
  _ ← fail_if (bool_decide (length_ < count - 1)%N) "canvas too small"%string;
  let available := (length_ - (count - 1))%N in
  if decide (weights = []) then
    Ok ((λ i, available / count + (if decide (N.of_nat i < available `mod` count) then 1 else 0))%N
          <$> seq 0 (length children))
  else
    _ ← fail_if (negb (bool_decide (length weights = length children)) || bool_decide (0%N ∈ weights))
          "split weights must have one positive value per child"%string;
    let minima := (λ child, along axis (minimum_size child)) <$> children in
    _ ← fail_if (bool_decide (available < sum minima)%N) "canvas too small"%string;
    extents ← allocate (S (length children)) weights minima (seq 0 (length children)) available
                (replicate (length children) 0%N);
    try_map as_u16 extents.

(** ** Placing the panes *)

(** The loop of [place] over [children.iter().zip(extents)]: [fs] places each child. *)
Fixpoint place_children (horizontal : bool)
    (fs : list (N → N → N → N → res (list PaneGeometry.t))) (extents : list N)
    (left top columns rows offset : N) : res (list PaneGeometry.t) :=
  match fs, extents with
  | f :: fs, extent :: extents =>
      panes ← (if horizontal
               then left ← add16 left offset; f left top extent rows
               else top ← add16 top offset; f left top columns extent);
      offset ← add16 offset extent;
      offset ← (if decide (fs = []) then Ok offset else add16 offset 1%N);
      rest ← place_children horizontal fs extents left top columns rows offset;
      Ok (panes ++ rest)
  | _, _ => Ok []
  end.

Fixpoint place (l : ViewLayout) (left top columns rows : N) : res (list PaneGeometry.t) :=
  match l with
  | Terminal terminal_id => Ok [PaneGeometry.Mk terminal_id left top columns rows]
  | Split axis children weights =>
      let horizontal := bool_decide (axis = Horizontal) in
      extents ← split_extents axis children weights (if horizontal then columns else rows);
      place_children horizontal (place <$> children) extents left top columns rows 0%N
  end.

Definition pane_geometry (l : ViewLayout) (size : TerminalSize.t) : res (list PaneGeometry.t) :=
  let minimum := minimum_size l in
  _ ← fail_if (bool_decide (TerminalSize.columns size < minimum.1)%N
               || bool_decide (TerminalSize.rows size < minimum.2)%N)
        "view needs at least"%string;
  place l 0%N 0%N (TerminalSize.columns size) (TerminalSize.rows size).

(** ** Moving dividers *)

(** [i64::clamp], which panics when the bounds are crossed *)
Definition clamp (x lo hi : Z) : res Z :=
  if decide (lo ≤ hi)%Z then Ok (if decide (x < lo)%Z then lo else if decide (hi < x)%Z then hi else x)
  else Panic.

Definition extent_of (x : Z) : res N :=
  if decide (0 ≤ x ≤ Z.of_N u16_MAX)%Z then Ok (Z.to_N x) else Err "invalid pane extent"%string.

(** The new weights, if the boundary moves. *)
Definition move_boundary (axis : SplitAxis) (children : list ViewLayout) (extents : list N)
    (boundary : nat) (delta : Z) : res (option (list N)) :=
  left_child ← expect (children !! boundary);
  right_child ← expect (children !! (boundary + 1));
  left ← expect (extents !! boundary);
  right ← expect (extents !! (boundary + 1));
  let minimum child := Z.of_N (along axis (minimum_size child)) in
  delta ← clamp delta (minimum left_child - Z.of_N left) (Z.of_N right - minimum right_child);
  if decide (delta = 0%Z) then Ok None else
  l ← extent_of (Z.of_N left + delta);
  extents ← expect (update extents boundary l);
  r ← extent_of (Z.of_N right - delta);
  extents ← expect (update extents (boundary + 1) r);
  Ok (Some extents).

Fixpoint contains_terminal (id : string) (l : ViewLayout) : bool :=
  match l with
  | Terminal terminal_id => bool_decide (terminal_id = id)
  | Split _ children _ => existsb (contains_terminal id) children
  end.

(** [children.iter().position(p)] *)
Fixpoint position {A} (p : A → bool) (l : list A) : option nat :=
  match l with
  | [] => None
  | x :: l => if p x then Some 0 else S <$> position p l
  end.

Definition resized (l : ViewLayout) (weights : option (list N)) : ViewLayout * bool :=
  match l, weights with
  | Split axis children _, Some weights => (Split axis children weights, true)
  | l, _ => (l, false)
  end.

(** The new layout and whether it changed; [None] when no split on the way has the
    direction's axis. *)
Fixpoint move_divider (terminal_id : string) (direction : ResizeDirection) (amount : N)
    (l : ViewLayout) (columns rows : N) : res (option (ViewLayout * bool)) :=
  match l with
  | Terminal _ => Ok None
  | Split axis children weights =>
      selected ← ok_or (position (contains_terminal terminal_id) children)
                   "resize terminal is absent from split"%string;
      let horizontal := bool_decide (axis = Horizontal) in
      extents ← split_extents axis children weights (if horizontal then columns else rows);
      extent ← expect (extents !! selected);
      child ← expect ((move_divider terminal_id direction amount <$> children) !! selected);
      result ← (if horizontal then child extent rows else child columns extent);
      match result with
      | Some (moved, changed) =>
          Ok (Some (Split axis (<[selected := moved]> children) weights, changed))
      | None =>
          let requested_horizontal :=
            bool_decide (direction = Left) || bool_decide (direction = Right) in
          if negb (eqb horizontal requested_horizontal) || bool_decide (length children < 2)
          then Ok None
          else
            let boundary := selected `min` (length children - 2) in
            let delta := if bool_decide (direction = Right) || bool_decide (direction = Down)
                         then Z.of_N amount else (- Z.of_N amount)%Z in
            moved ← move_boundary axis children extents boundary delta;
            Ok (Some (resized l moved))
      end
  end.

Definition resize_pane (terminal_id : string) (direction : ResizeDirection) (amount : N)
    (size : TerminalSize.t) (l : ViewLayout) : res (ViewLayout * bool) :=
  _ ← fail_if (bool_decide (amount = 0%N)) "pane resize amount must be positive"%string;
  _ ← fail_if (negb (contains_terminal terminal_id l))
        "resize terminal must belong to the attached view"%string;
  _ ← pane_geometry l size;
  moved ← move_divider terminal_id direction amount l (TerminalSize.columns size)
            (TerminalSize.rows size);
  Ok (default (l, false) moved).

Record LayoutBounds := Bounds { bleft : N; btop : N; bcolumns : N; brows : N }.

Fixpoint place_divider (split_path : list N) (boundary : nat) (pos : N) (bounds : LayoutBounds)
    (l : ViewLayout) : res (ViewLayout * bool) :=
  match l with
  | Terminal _ => Err "divider path must target a split"%string
  | Split axis children weights =>
      let horizontal := bool_decide (axis = Horizontal) in
      extents ← split_extents axis children weights
                  (if horizontal then bcolumns bounds else brows bounds);
      match split_path with
      | index :: remaining =>
          let i := N.to_nat index in
          extent ← ok_or (extents !! i) "divider split path child is absent"%string;
          before ← sum16 (take i extents);
          offset ← add16 before index;
          child_bounds ←
            (if horizontal
             then left ← add16 (bleft bounds) offset;
                  Ok (Bounds left (btop bounds) extent (brows bounds))
             else top ← add16 (btop bounds) offset;
                  Ok (Bounds (bleft bounds) top (bcolumns bounds) extent));
          child ← expect (children !! i);
          '(child, changed) ← place_divider remaining boundary pos child_bounds child;
          Ok (Split axis (<[i := child]> children) weights, changed)
      | [] =>
          _ ← fail_if (bool_decide (length children ≤ boundary + 1))
                "divider boundary is absent from split"%string;
          upto ← sum16 (take (boundary + 1) extents);
          start ← add16 (if horizontal then bleft bounds else btop bounds) upto;
          current ← add16 start (N.of_nat boundary);
          moved ← move_boundary axis children extents boundary (Z.of_N pos - Z.of_N current);
          Ok (resized l moved)
      end
  end.

Definition resize_divider (split_path : list N) (boundary pos : N) (size : TerminalSize.t)
    (l : ViewLayout) : res (ViewLayout * bool) :=
  _ ← fail_if (bool_decide (16 < length split_path)) "divider split path exceeds 16 levels"%string;
  _ ← pane_geometry l size;
  place_divider split_path (N.to_nat boundary) pos
    (Bounds 0 0 (TerminalSize.columns size) (TerminalSize.rows size)) l.

(** ** Weights *)

Fixpoint clear_weights (l : ViewLayout) : ViewLayout :=
  match l with
  | Terminal id => Terminal id
  | Split axis children _ => Split axis (clear_weights <$> children) []
  end.

Fixpoint has_weights (l : ViewLayout) : bool :=
  match l with
  | Terminal _ => false
  | Split _ children weights => negb (bool_decide (weights = [])) || existsb has_weights children
  end.
End Layout.
