(* ===== verification/Topology.v ===== *)
(** Operations of the session daemon on layouts (ctmux/daemon/src/session/topology.rs):
    the terminals of a view, splitting, swapping and removing them, the limits on a
    layout a client sends and the weights an arrangement edit keeps. *)

From S2P Require Import Prelude.
From S2P Require Import Layout.
From stdpp Require Import strings.

(** The code's list index [weights[index]], which panics out of range *)
Fixpoint keep_children (weights : list N) (index : nat) (results : list (res (option ViewLayout))) :
    res (list ViewLayout * list N) :=
  match results with
  | [] => Ok ([], [])
  | result :: results =>
      child ← result;
      match child with
      | None => keep_children weights (S index) results
      | Some child =>
          weight ← (if decide (weights = []) then Ok []
                    else w ← expect (weights !! index); Ok [w]);
          '(remaining, remaining_weights) ← keep_children weights (S index) results;
          Ok (child :: remaining, weight ++ remaining_weights)
      end
  end.

Module LayoutExt.
Fixpoint first_terminal (l : ViewLayout) : res string :=
  match l with
  | Terminal terminal_id => Ok terminal_id
  | Split _ children _ => child ← expect ((first_terminal <$> children) !! 0); child
  end.

Fixpoint terminal_ids (l : ViewLayout) : list string :=
  match l with
  | Terminal terminal_id => [terminal_id]
  | Split _ children _ => mjoin (terminal_ids <$> children)
  end.

Fixpoint remove_terminal (id : string) (l : ViewLayout) : res (option ViewLayout) :=
  match l with
  | Terminal terminal_id => Ok (if decide (terminal_id = id) then None else Some l)
  | Split axis children weights =>
      '(children, weights) ← keep_children weights 0 (remove_terminal id <$> children);
      Ok (match children with
          | [] => None
          | [child] => Some child
          | _ => Some (Split axis children weights)
          end)
  end.

Fixpoint split_terminal (id new_id : string) (axis : SplitAxis) (l : ViewLayout) : ViewLayout :=
  match l with
  | Terminal terminal_id =>
      if decide (terminal_id = id) then Split axis [l; Terminal new_id] [] else l
  | Split ax children weights => Split ax (split_terminal id new_id axis <$> children) weights
  end.
End LayoutExt.
Import LayoutExt.

Fixpoint swap_terminal_ids (left right : string) (l : ViewLayout) : ViewLayout :=
  match l with
  | Terminal terminal_id =>
      if decide (terminal_id = left) then Terminal right
      else if decide (terminal_id = right) then Terminal left
      else l
  | Split axis children weights => Split axis (swap_terminal_ids left right <$> children) weights
  end.

(** The pane [swap_pane_inner] swaps with the one at [index] *)
Definition adjacent (previous : bool) (index count : nat) : nat :=
  if previous then (index + count - 1) `mod` count else (index + 1) `mod` count.

Fixpoint all_ok (l : list (res ())) : res () :=
  match l with [] => Ok () | r :: l => _ ← r; all_ok l end.

Fixpoint validate_layout (l : ViewLayout) (depth : nat) : res () :=
  _ ← fail_if (bool_decide (depth = 0) && bool_decide (64 < length (terminal_ids l)))
        "a view supports at most 64 terminals"%string;
  _ ← fail_if (bool_decide (16 < depth)) "layout nesting exceeds 16"%string;
  match l with
  | Terminal _ => Ok ()
  | Split _ children weights =>
      _ ← fail_if (bool_decide (length children < 2) || bool_decide (64 < length children))
            "layout groups require 2 to 64 children"%string;
      _ ← fail_if (negb (bool_decide (weights = [])) &&
                   (negb (bool_decide (length weights = length children)) ||
                    bool_decide (0%N ∈ weights)))
            "split weights must have one positive value per child"%string;
      all_ok ((λ child, validate_layout child (S depth)) <$> children)
  end.

Definition ambiguous {A} : res A :=
  Err "weighted layout cannot be restructured by update_view"%string.

(** The loop over [children.iter_mut().zip(old_children)] *)
Fixpoint preserve_children (fs : list (ViewLayout → res ViewLayout)) (old : list ViewLayout) :
    res (list ViewLayout) :=
  match fs, old with
  | f :: fs, previous :: old =>
      child ← f previous; children ← preserve_children fs old; Ok (child :: children)
  | _, _ => Ok []
  end.

Fixpoint preserve_layout_weights (next previous : ViewLayout) : res ViewLayout :=
  let otherwise :=
    if Layout.has_weights next || Layout.has_weights previous then ambiguous else Ok next in
  match next, previous with
  | Split axis children weights, Split old_axis old_children old_weights =>
      if decide (axis = old_axis ∧ length children = length old_children) then
        if decide (weights ≠ [] ∧ weights ≠ old_weights) then ambiguous
        else
          children ← preserve_children (preserve_layout_weights <$> children) old_children;
          Ok (Split axis children old_weights)
      else otherwise
  | _, _ => otherwise
  end.

(** [u16::try_from(a * b / c).expect(..)] of [u32]s: the division and the conversion can
    panic, the product of two [u16]s fits. *)
Definition scaled (pixels cells canvas : N) : res N :=
  if decide (canvas = 0%N) then Panic
  else if decide (pixels * cells / canvas ≤ u16_MAX)%N then Ok (pixels * cells / canvas)%N
  else Panic.

Definition pane_size (canvas : TerminalSize.t) (pane : PaneGeometry.t) : res TerminalSize.t :=
  pixel_width ← scaled (TerminalSize.pixel_width canvas) (PaneGeometry.columns pane)
                  (TerminalSize.columns canvas);
  pixel_height ← scaled (TerminalSize.pixel_height canvas) (PaneGeometry.rows pane)
                   (TerminalSize.rows canvas);
  Ok (TerminalSize.Mk (PaneGeometry.columns pane) (PaneGeometry.rows pane)
        pixel_width pixel_height).
