(* ===== verification/LayoutInv.v ===== *)
(** Layouts tile their canvas (ctmux/proto/src/layout.rs): the extents of a split
    fill it exactly and respect every minimum, a divider moves to where it is asked to, no
    further than its neighbours' minima; minimum sizes are monotone, so an edit that shrinks
    a part never makes a canvas too small; and the panes, one per terminal and in order,
    stay inside the canvas and apart, at least two columns by one row. *)

From S2P Require Import Prelude.
From S2P Require Import Layout.
From S2P Require Import Topology.
From stdpp Require Import strings.

Import Layout.

(** * Sums *)

Section sums.
Implicit Types (l : list N).

Lemma sum_cons (x : N) l : sum (x :: l) = (x + sum l)%N.
Proof. done. Qed.

Lemma sum_app l k : sum (l ++ k) = (sum l + sum k)%N.
Proof. unfold sum. induction l as [|x l IH]; simpl in *; lia. Qed.

Lemma sum_insert l i (x y : N) :
  l !! i = Some x → (sum (<[i := y]> l) + x = sum l + y)%N.
Proof.
  revert i. induction l as [|z l IH]; intros [|i] Hi; simplify_eq/=; [lia|].
  specialize (IH i Hi). unfold sum in *. simpl. lia.
Qed.

Lemma sum_replicate n (x : N) : sum (replicate n x) = (N.of_nat n * x)%N.
Proof. unfold sum. induction n as [|n IH]; simpl in *; lia. Qed.

Lemma sum_lookup_le l i (x : N) : l !! i = Some x → (x ≤ sum l)%N.
Proof.
  revert i. induction l as [|z l IH]; intros [|i] Hi; simplify_eq/=; [unfold sum; simpl; lia|].
  specialize (IH i Hi). unfold sum in *. simpl. lia.
Qed.

Lemma sum_map_le {A} (f g : A → N) (l : list A) :
  (∀ x, x ∈ l → (f x ≤ g x)%N) → (sum (f <$> l) ≤ sum (g <$> l))%N.
Proof.
  induction l as [|x l IH]; intros Hf; [done|]. unfold sum in *. csimpl.
  specialize (Hf x ltac:(left)) as Hx. specialize (IH ltac:(intros; apply Hf; by right)). lia.
Qed.

Lemma sum_map_lt {A} (f g : A → N) (l : list A) :
  l ≠ [] → (∀ x, x ∈ l → (f x < g x)%N) → (sum (f <$> l) < sum (g <$> l))%N.
Proof.
  intros Hne Hf. destruct l as [|x l]; [done|]. unfold sum. csimpl.
  pose proof (Hf x ltac:(left)) as Hx.
  pose proof (sum_map_le f g l ltac:(intros; apply N.lt_le_incl, Hf; by right)) as Hl.
  unfold sum in Hl. lia.
Qed.

Lemma sum_map_mul {A} (f : A → N) c (l : list A) :
  sum ((λ x, c * f x)%N <$> l) = (c * sum (f <$> l))%N.
Proof. unfold sum. induction l as [|x l IH]; csimpl; lia. Qed.

Lemma sum_map_const {A} c (l : list A) : sum ((λ _, c) <$> l) = (N.of_nat (length l) * c)%N.
Proof. unfold sum. induction l as [|x l IH]; csimpl; lia. Qed.

Lemma sum_map_add {A} (f g : A → N) (l : list A) :
  sum ((λ x, f x + g x)%N <$> l) = (sum (f <$> l) + sum (g <$> l))%N.
Proof. unfold sum. induction l as [|x l IH]; csimpl; lia. Qed.

Lemma sum_filter {A} (P : A → Prop) `{∀ x, Decision (P x)} (f : A → N) (l : list A) :
  sum (f <$> l) = (sum (f <$> filter P l) + sum (f <$> filter (λ x, ¬ P x) l))%N.
Proof.
  induction l as [|x l IH]; [done|]. rewrite !filter_cons. unfold sum in *. csimpl.
  destruct (decide (P x)); destruct (decide (¬ P x)); try done; csimpl; lia.
Qed.

(** Rounded-down shares of [R] in proportion to weights leave less than one each. *)
Lemma floor_shares (w : nat → N) R (active : list nat) :
  let T := sum (w <$> active) in
  (0 < T)%N → active ≠ [] →
  let given := sum ((λ i, R * w i / T)%N <$> active) in
  (given ≤ R ∧ R - given < N.of_nat (length active))%N.
Proof.
  intros T HT Hne given.
  assert (Hlow : (T * given ≤ R * T)%N).
  { subst given. rewrite <- sum_map_mul. transitivity (sum ((λ i, R * w i)%N <$> active)).
    - apply sum_map_le. intros i _. apply N.Div0.mul_div_le.
    - rewrite sum_map_mul. done. }
  assert (Hhigh : (R * T < T * given + T * N.of_nat (length active))%N).
  { subst given. rewrite <- (sum_map_mul (λ i, R * w i / T)%N).
    assert (T * N.of_nat (length active) = sum ((λ _, T) <$> active))%N as ->
      by (rewrite sum_map_const; lia).
    rewrite <- sum_map_add. subst T. rewrite <- sum_map_mul. apply sum_map_lt; [done|].
    intros i _. pose proof (N.div_mod (R * w i) (sum (w <$> active)) ltac:(lia)) as Hd.
    pose proof (N.mod_lt (R * w i) (sum (w <$> active)) ltac:(lia)). lia. }
  split; nia.
Qed.
End sums.

(** * Allocation *)

Definition at_ (l : list N) (i : nat) : N := default 0%N (l !! i).

Lemma at_Some l i : i < length l → l !! i = Some (at_ l i).
Proof. intros Hi. unfold at_. by destruct (lookup_lt_is_Some_2 l i Hi) as [x ->]. Qed.

Lemma at_lookup l i x : l !! i = Some x → at_ l i = x.
Proof. unfold at_. by intros ->. Qed.

(** A loop that rewrites each of its positions once. *)
Lemma fold_set (step : res (list N) → nat → res (list N)) (v : nat → N → N) n active extents :
  (∀ ext i, i ∈ active → length ext = n → step (Ok ext) i = Ok (<[i := v i (at_ ext i)]> ext)) →
  NoDup active → (∀ i, i ∈ active → i < n) → length extents = n →
  ∃ ext', foldl step (Ok extents) active = Ok ext' ∧ length ext' = n ∧
    (∀ i, i ∉ active → at_ ext' i = at_ extents i) ∧
    (∀ i, i ∈ active → at_ ext' i = v i (at_ extents i)) ∧
    (sum ext' + sum (at_ extents <$> active) =
     sum extents + sum ((λ i, v i (at_ extents i)) <$> active))%N.
Proof.
  revert extents. induction active as [|i active IH]; intros extents Hstep Hnd Hlt Hlen.
  { exists extents. split_and!; try done. set_solver. }
  apply NoDup_cons in Hnd as [Hi Hnd]. cbn [foldl]. rewrite Hstep by (done || left).
  assert (Hin : i < n) by (apply Hlt; left). rewrite <- Hlen in Hin.
  destruct (IH (<[i := v i (at_ extents i)]> extents)) as (ext' & E & Hl & Hout & Hact & Hsum);
    [intros; apply Hstep; [by right|done]|done|intros; apply Hlt; by right|by rewrite length_insert|].
  assert (Hsame : ∀ j, j ≠ i → at_ (<[i := v i (at_ extents i)]> extents) j = at_ extents j).
  { intros j Hj. unfold at_. by rewrite list_lookup_insert_ne. }
  assert (Hnew : at_ (<[i := v i (at_ extents i)]> extents) i = v i (at_ extents i)).
  { apply at_lookup. by apply list_lookup_insert_eq. }
  exists ext'. split_and!; [done|done| | |].
  - intros j Hj. rewrite not_elem_of_cons in Hj. rewrite Hout by tauto. apply Hsame. tauto.
  - intros j [->|Hj]%elem_of_cons; [by rewrite Hout|].
    rewrite Hact by done. rewrite Hsame; [done|]. by intros ->.
  - assert (∀ f : nat → N → N, sum ((λ j, f j (at_ (<[i := v i (at_ extents i)]> extents) j)) <$> active)
      = sum ((λ j, f j (at_ extents j)) <$> active)) as Hmap.
    { intros f. f_equal. apply list_fmap_ext. intros k j Hk. rewrite Hsame; [done|].
      intros ->. apply Hi. by apply list_elem_of_lookup_2 in Hk. }
    pose proof (Hmap (λ _ x, x)) as Hm1. pose proof (Hmap v) as Hm2. simpl in Hm1, Hm2.
    pose proof (sum_insert extents i (at_ extents i) (v i (at_ extents i)) (at_Some _ _ Hin)).
    change (at_ (<[i:=v i (at_ extents i)]> extents) <$> active) with
      ((λ j, at_ (<[i:=v i (at_ extents i)]> extents) j) <$> active) in Hsum.
    rewrite Hm1, Hm2 in Hsum.
    change ((λ j, at_ extents j) <$> active) with (at_ extents <$> active) in Hsum.
    rewrite !fmap_cons, !sum_cons. lia.
Qed.

Lemma filter_local {A} (P Q : A → Prop) `{∀ x, Decision (P x), ∀ x, Decision (Q x)} (l : list A) :
  (∀ x, x ∈ l → P x ↔ Q x) → filter P l = filter Q l.
Proof.
  induction l as [|x l IH]; intros Hl; [done|]. rewrite !filter_cons.
  rewrite IH by (intros; apply Hl; by right). specialize (Hl x ltac:(left)).
  repeat case_decide; tauto.
Qed.

Section allocation.
Context (weights minima : list N) (n : nat).
Context (Hweights : length weights = n) (Hminima : length minima = n).

Lemma given_fold (ext : list N) (active : list nat) s :
  (∀ i, i ∈ active → i < length ext) →
  foldl (λ acc i, s ← acc; e ← expect (ext !! i); Ok (s + e)%N) (Ok s : res N) active
    = Ok (s + sum (at_ ext <$> active))%N.
Proof.
  revert s. induction active as [|i active IH]; intros s Hlt; cbn [foldl].
  { rewrite fmap_nil. unfold sum. simpl. by rewrite N.add_0_r. }
  cbn [mbind outcome_bind]. rewrite (at_Some ext i) by (apply Hlt; left). cbn [expect mbind outcome_bind].
  rewrite IH by (intros; apply Hlt; by right). f_equal. rewrite fmap_cons, sum_cons. lia.
Qed.

Lemma share_spec R (active : list nat) ext :
  let T := sum (at_ weights <$> active) in
  length ext = n → NoDup active → (∀ i, i ∈ active → i < n ∧ at_ ext i = 0%N) →
  active ≠ [] → (0 < T)%N →
  ∃ ext', share weights R T active ext = Ok ext' ∧ length ext' = n ∧
    (sum ext' = sum ext + R)%N ∧ (∀ i, i ∉ active → at_ ext' i = at_ ext i) ∧
    (∀ i, i ∈ active → (R * at_ weights i / T ≤ at_ ext' i ≤ R * at_ weights i / T + 1)%N).
Proof.
  intros T Hlen Hnd Hact Hne HT. unfold share.
  destruct (fold_set (λ acc i, extents ← acc; w ← expect (weights !! i);
      expect (update extents i (R * w / T)%N)) (λ i _, R * at_ weights i / T)%N n active ext)
    as (e1 & -> & Hl1 & Hout1 & Hin1 & Hs1); [|done|intros; by apply Hact|done|].
  { intros e i Hi He. destruct (Hact i Hi) as [Hlt _]. simpl.
    rewrite (at_Some weights i) by lia. simpl. by rewrite update_Some by lia. }
  cbn [mbind outcome_bind]. rewrite given_fold by (intros; rewrite Hl1; by apply Hact).
  cbn [mbind outcome_bind]. rewrite N.add_0_l.
  destruct (floor_shares (at_ weights) R active HT Hne) as [Hle Hlt].
  assert (Hg : sum (at_ e1 <$> active) = sum ((λ i, R * at_ weights i / T)%N <$> active)).
  { f_equal. apply list_fmap_ext. intros k i Hk. apply Hin1. by eapply list_elem_of_lookup_2. }
  fold T in Hle, Hlt. rewrite Hg, decide_True by done. cbn [mbind outcome_bind expect].
  set (res := (R - sum _)%N) in *.
  destruct (fold_set (λ acc i, extents ← acc; e ← expect (extents !! i);
      expect (update extents i (e + 1)%N)) (λ _ e, e + 1)%N n (take (N.to_nat res) active) e1)
    as (e2 & -> & Hl2 & Hout2 & Hin2 & Hs2).
  { intros e i Hi He. apply elem_of_take in Hi as (k & Hk & _). apply list_elem_of_lookup_2 in Hk.
    destruct (Hact i Hk) as [Hi _]. simpl. rewrite (at_Some e i) by lia. simpl.
    by rewrite update_Some by lia. }
  { eapply sublist_NoDup; [exact Hnd|apply sublist_take]. }
  { intros i Hi. apply elem_of_take in Hi as (k & Hk & _). apply list_elem_of_lookup_2 in Hk.
    by apply Hact. }
  { done. }
  exists e2. split_and!; [done|done| | |].
  - rewrite sum_map_add, sum_map_const, length_take in Hs2.
    assert (sum (at_ ext <$> active) = 0%N) as Hz.
    { transitivity (sum ((λ _, 0%N) <$> active)); [|rewrite sum_map_const; lia].
      f_equal. apply list_fmap_ext. intros k i Hk. apply Hact. by eapply list_elem_of_lookup_2. }
    rewrite Hz in Hs1. lia.
  - intros i Hi. rewrite Hout2; [by apply Hout1|]. intros Ht. apply Hi.
    apply elem_of_take in Ht as (k & Hk & _). by eapply list_elem_of_lookup_2.
  - intros i Hi. rewrite <- (Hin1 i Hi).
    destruct (decide (i ∈ take (N.to_nat res) active)) as [Ht|Ht]; [rewrite Hin2 by done; lia|].
    rewrite Hout2 by done. lia.
Qed.

Lemma clamp_fold (clamped : list nat) ext R :
  NoDup clamped → (∀ i, i ∈ clamped → i < n) → length ext = n →
  (sum (at_ minima <$> clamped) ≤ R)%N →
  ∃ ext', foldl (λ acc i,
      '(extents, remaining) ← acc;
      extents ← expect (update extents i (default 0%N (minima !! i)));
      remaining ← expect (if decide (default 0%N (minima !! i) ≤ remaining)%N
                          then Some (remaining - default 0%N (minima !! i))%N else None);
      Ok (extents, remaining)) (Ok (ext, R) : res (list N * N)) clamped
    = Ok (ext', R - sum (at_ minima <$> clamped))%N ∧ length ext' = n ∧
    (∀ i, i ∉ clamped → at_ ext' i = at_ ext i) ∧ (∀ i, i ∈ clamped → at_ ext' i = at_ minima i) ∧
    (sum ext' + sum (at_ ext <$> clamped) = sum ext + sum (at_ minima <$> clamped))%N.
Proof.
  revert ext R. induction clamped as [|i cl IH]; intros ext R Hnd Hlt Hlen Hle.
  { exists ext. cbn [foldl]. rewrite fmap_nil. unfold sum at 1. cbn [foldr].
    rewrite N.sub_0_r. split_and!; try done. set_solver. }
  apply NoDup_cons in Hnd as [Hi Hnd]. rewrite fmap_cons, sum_cons in Hle |- *.
  assert (Hin : i < length ext) by (rewrite Hlen; apply Hlt; left).
  cbn [foldl mbind outcome_bind]. rewrite update_Some by done. cbn [expect mbind outcome_bind].
  fold (at_ minima i). rewrite decide_True by lia. cbn [expect mbind outcome_bind].
  destruct (IH (<[i := at_ minima i]> ext) (R - at_ minima i)%N) as (ext' & -> & Hl & Hout & Hact & Hs);
    [done|intros; apply Hlt; by right|by rewrite length_insert|lia|].
  assert (Hsame : ∀ j, j ≠ i → at_ (<[i := at_ minima i]> ext) j = at_ ext j).
  { intros j Hj. unfold at_ at 1. by rewrite list_lookup_insert_ne. }
  assert (Hnew : at_ (<[i := at_ minima i]> ext) i = at_ minima i).
  { apply at_lookup. by apply list_lookup_insert_eq. }
  exists ext'. split_and!; [f_equal; f_equal; lia|done| | |].
  - intros j Hj. rewrite not_elem_of_cons in Hj. rewrite Hout by tauto. apply Hsame. tauto.
  - intros j [->|Hj]%elem_of_cons; [by rewrite Hout|]. by apply Hact.
  - assert (sum (at_ (<[i := at_ minima i]> ext) <$> cl) = sum (at_ ext <$> cl)) as Hm.
    { f_equal. apply list_fmap_ext. intros k j Hk. apply Hsame.
      intros ->. apply Hi. by apply list_elem_of_lookup_2 in Hk. }
    pose proof (sum_insert ext i (at_ ext i) (at_ minima i) (at_Some _ _ Hin)).
    rewrite fmap_cons, sum_cons. lia.
Qed.

Context (Hpositive : Forall (λ w, 0 < w ≤ u32_MAX)%N weights) (Hn : (N.of_nat n ≤ u16_MAX)%N).

Lemma weight_bounds i : i < n → (0 < at_ weights i ≤ u32_MAX)%N.
Proof.
  intros Hi. rewrite Forall_lookup in Hpositive. apply (Hpositive i). apply at_Some. lia.
Qed.

Lemma weight_total active :
  NoDup active → (∀ i, i ∈ active → i < n) → active ≠ [] →
  (0 < sum (at_ weights <$> active) ≤ u16_MAX * u32_MAX)%N.
Proof.
  intros Hnd Hlt Hne. split.
  - pose proof (sum_map_lt (λ _, 0%N) (at_ weights) active Hne) as Hpos.
    rewrite sum_map_const, N.mul_0_r in Hpos. apply Hpos. intros i Hi. by apply weight_bounds, Hlt.
  - etrans; [apply (sum_map_le (at_ weights) (λ _, u32_MAX)); intros i Hi; by apply weight_bounds, Hlt|].
    rewrite sum_map_const. apply N.mul_le_mono_r. etrans; [|exact Hn].
    assert (length active ≤ n); [|lia]. rewrite <- (length_seq n 0). apply NoDup_incl_length.
    + by apply NoDup_ListNoDup.
    + intros i Hi%list_elem_of_In. apply in_seq. split; [lia|]. by apply Hlt.
Qed.

(** The products of a pass fit in [u64]. *)
Lemma pass_fits R active :
  NoDup active → (∀ i, i ∈ active → i < n) → active ≠ [] → (R ≤ u16_MAX)%N →
  (sum (at_ minima <$> active) ≤ R)%N →
  fits64 (at_ weights) (at_ minima) R active = true.
Proof.
  intros Hnd Hlt Hne HR Hm. unfold fits64. rewrite andb_true_iff, bool_decide_eq_true.
  rewrite forallb_forall. destruct (weight_total active Hnd Hlt Hne) as [_ HT].
  assert (u16_MAX * (u16_MAX * u32_MAX) ≤ u64_MAX)%N by done.
  split; [etrans; [exact HT|done]|]. intros i Hi%list_elem_of_In.
  rewrite andb_true_iff, !bool_decide_eq_true. split.
  - destruct (weight_bounds i (Hlt i Hi)) as [_ Hw]. etrans; [by apply N.mul_le_mono|done].
  - etrans; [|done]. apply N.mul_le_mono; [|exact HT].
    etrans; [|exact HR]. etrans; [|exact Hm]. apply list_elem_of_lookup in Hi as [k Hk].
    apply (sum_lookup_le _ k). by rewrite list_lookup_fmap, Hk.
Qed.

(** Not every active child is clamped to its minimum. *)
Lemma some_unclamped R active :
  let T := sum (at_ weights <$> active) in
  (sum (at_ minima <$> active) ≤ R)%N → active ≠ [] →
  filter (λ i, ¬ (R * at_ weights i < at_ minima i * T)%N) active ≠ [].
Proof.
  intros T Hm Hne Hnil.
  assert (Hall : ∀ i, i ∈ active → (R * at_ weights i < at_ minima i * T)%N).
  { intros i Hi. destruct (decide (R * at_ weights i < at_ minima i * T)%N) as [|Hn']; [done|].
    assert (i ∈ filter (λ i, ¬ (R * at_ weights i < at_ minima i * T)%N) active) as Hf
      by (by apply list_elem_of_filter). rewrite Hnil in Hf. set_solver. }
  pose proof (sum_map_lt _ _ active Hne Hall) as Hlt. rewrite sum_map_mul in Hlt. fold T in Hlt.
  assert (sum ((λ i, at_ minima i * T)%N <$> active) = (T * sum (at_ minima <$> active))%N) as E.
  { rewrite <- sum_map_mul. f_equal. apply list_fmap_ext. intros. lia. }
  rewrite E in Hlt. nia.
Qed.

Lemma allocate_spec fuel active R ext :
  length active < fuel → NoDup active → active ≠ [] → length ext = n →
  (∀ i, i ∈ active → i < n ∧ at_ ext i = 0%N) →
  (∀ i, i < n → i ∉ active → (at_ minima i ≤ at_ ext i)%N) →
  (sum (at_ minima <$> active) ≤ R ≤ u16_MAX)%N →
  ∃ ext', allocate fuel weights minima active R ext = Ok ext' ∧ length ext' = n ∧
    (sum ext' = sum ext + R)%N ∧ ∀ i, i < n → (at_ minima i ≤ at_ ext' i)%N.
Proof.
  revert active R ext. induction fuel as [|fuel IH]; intros active R ext Hfuel Hnd Hne Hlen Hact Hout HR;
    [lia|]. cbn [allocate]. rewrite decide_False by done.
  change (λ i, default 0%N (weights !! i)) with (at_ weights).
  assert (Hlt : ∀ i, i ∈ active → i < n) by (intros; by apply Hact).
  destruct (weight_total active Hnd Hlt Hne) as [HT _].
  change (λ i, default 0%N (minima !! i)) with (at_ minima).
  rewrite pass_fits by (done || lia). cbn [expect mbind outcome_bind].
  set (T := sum (at_ weights <$> active)) in *.
  change (filter (λ i, (R * default 0 (weights !! i) < default 0 (minima !! i) * T)%N) active)
    with (filter (λ i, (R * at_ weights i < at_ minima i * T)%N) active).
  set (P := λ i, (R * at_ weights i < at_ minima i * T)%N).
  assert (Hpart : (sum (at_ minima <$> active) = sum (at_ minima <$> filter P active)
    + sum (at_ minima <$> filter (λ i, ¬ P i) active))%N) by apply sum_filter.
  case_decide as Hcl.
  - destruct (share_spec R active ext Hlen Hnd Hact Hne HT) as (ext' & E & Hl & Hs & Ho & Hi).
    fold T in E, Hi. rewrite E.
    exists ext'. split_and!; [done..|]. intros i Hin. destruct (decide (i ∈ active)) as [Ha|Ha].
    + destruct (Hi i Ha) as [Hge _]. etrans; [|exact Hge]. apply N.div_le_lower_bound; [lia|].
      assert (¬ P i) as HP.
      { intros HP. assert (i ∈ filter P active) as Hf by (by apply list_elem_of_filter).
        rewrite Hcl in Hf. set_solver. }
      unfold P in HP. lia.
    + rewrite Ho by done. by apply Hout.
  - change (filter (λ i, (R * at_ weights i < at_ minima i * T)%N) active) with (filter P active) in *.
    destruct (clamp_fold (filter P active) ext R) as (e1 & E1 & Hl1 & Ho1 & Hi1 & Hs1);
      [by apply NoDup_filter|intros i [_ Hi]%list_elem_of_filter; auto|done|lia|].
    rewrite E1. cbn [mbind outcome_bind].
    assert (Hrest : filter (λ i, i ∉ filter P active) active = filter (λ i, ¬ P i) active).
    { apply filter_local. intros i Hi. rewrite list_elem_of_filter. tauto. }
    rewrite Hrest.
    destruct (IH (filter (λ i, ¬ P i) active) (R - sum (at_ minima <$> filter P active))%N e1)
      as (ext' & -> & Hl & Hs & Hmin).
    + destruct (filter P active) as [|x l] eqn:Hx; [done|].
      assert (x ∈ filter P active) as [HP Hin]%list_elem_of_filter by (rewrite Hx; left).
      pose proof (length_filter_lt (λ i, ¬ P i) active x Hin ltac:(tauto)). lia.
    + by apply NoDup_filter.
    + apply some_unclamped; [lia|done].
    + done.
    + intros i [HP Hi]%list_elem_of_filter. destruct (Hact i Hi) as [? Hz]. split; [done|].
      rewrite Ho1; [done|]. by intros [? _]%list_elem_of_filter.
    + intros i Hin Hi. destruct (decide (i ∈ filter P active)) as [Hf|Hf].
      * rewrite Hi1 by done. done.
      * rewrite Ho1 by done. apply Hout; [done|]. intros Ha. apply Hi, list_elem_of_filter.
        split; [|done]. intros HP. by apply Hf, list_elem_of_filter.
    + lia.
    + exists ext'. split_and!; [done|done| |done].
      assert (sum (at_ ext <$> filter P active) = 0%N) as Hz.
      { transitivity (sum ((λ _, 0%N) <$> filter P active)); [|rewrite sum_map_const; lia].
        f_equal. apply list_fmap_ext. intros k i Hk. apply Hact.
        apply list_elem_of_lookup_2 in Hk. by apply list_elem_of_filter in Hk as [_ ?]. }
      lia.
Qed.
End allocation.

(** * Layouts *)

(** A layout the multiplexer keeps: no split is empty, and its weights are absent or
    one positive [u32] per child. *)
Unset Elimination Schemes.
Inductive wf_layout : ViewLayout → Prop :=
  | wf_terminal id : wf_layout (Terminal id)
  | wf_split axis children weights :
      children ≠ [] → (N.of_nat (length children) ≤ u16_MAX)%N →
      (weights = [] ∨ length weights = length children ∧ Forall (λ w, 0 < w ≤ u32_MAX)%N weights) →
      Forall wf_layout children → wf_layout (Split axis children weights).
Set Elimination Schemes.

Definition min_along (axis : SplitAxis) (l : ViewLayout) : N := along axis (minimum_size l).

Section minima.
Implicit Types (sizes : list (N * N)).

Lemma largest_ge sizes a :
  let big := foldl (λ a b, (a.1 `max` b.1, a.2 `max` b.2)%N) a sizes in
  (a.1 ≤ big.1 ∧ a.2 ≤ big.2)%N ∧ Forall (λ s, s.1 ≤ big.1 ∧ s.2 ≤ big.2)%N sizes.
Proof.
  revert a. induction sizes as [|s sizes IH]; intros a; cbn [foldl]; [simpl; split; [lia|constructor]|].
  destruct (IH (a.1 `max` s.1, a.2 `max` s.2)%N) as [[H1 H2] Hf]. cbn [fst snd] in *.
  split; [lia|]. constructor; [lia|exact Hf].
Qed.

(** A saturating sum below [u32::MAX] is the sum. *)
Lemma total_sum sizes a1 a2 :
  let tot := foldl (λ a b, (saturating_add a.1 b.1, saturating_add a.2 b.2)) (a1, a2) sizes in
  (a1 ≤ u32_MAX → a2 ≤ u32_MAX →
   tot.1 = (a1 + sum (fst <$> sizes)) `min` u32_MAX ∧
   tot.2 = (a2 + sum (snd <$> sizes)) `min` u32_MAX)%N.
Proof.
  revert a1 a2. induction sizes as [|s sizes IH]; intros a1 a2; cbn [foldl]; intros H1 H2.
  - rewrite !fmap_nil. unfold sum. simpl. lia.
  - destruct (IH (saturating_add a1 s.1) (saturating_add a2 s.2)) as [E1 E2];
      [unfold saturating_add; lia..|]. cbn [fst snd].
    rewrite E1, E2, !fmap_cons, !sum_cons. unfold saturating_add. lia.
Qed.
End minima.

Lemma wf_split_inv axis children weights :
  wf_layout (Split axis children weights) →
  0 < length children ∧ (N.of_nat (length children) ≤ u16_MAX)%N ∧
  (weights = [] ∨ weights ≠ [] ∧ length weights = length children ∧
    Forall (λ w, 0 < w ≤ u32_MAX)%N weights) ∧
  Forall wf_layout children.
Proof.
  intros Hwf. inversion Hwf as [|? ? ? Hne Hn Hw Hcs]; subst.
  assert (0 < length children) by (destruct children; [done|simpl; lia]).
  split_and!; try done. destruct Hw as [->|[Hl Hw]]; [by left|right]. split; [|done].
  intros ->. simpl in Hl. lia.
Qed.

(** What the minimum of a split says of its children, when it is not saturated. *)
Lemma split_minimum_spec axis weights sizes (len : N) :
  sizes ≠ [] → (N.of_nat (length sizes) ≤ u16_MAX)%N → (len ≤ u16_MAX)%N →
  (along axis (split_minimum axis weights sizes) ≤ len)%N →
  (N.of_nat (length sizes) - 1 ≤ len)%N ∧
  if decide (weights = [])
  then Forall (λ s, along axis s * N.of_nat (length sizes)
                    ≤ len - (N.of_nat (length sizes) - 1))%N sizes
  else (sum (along axis <$> sizes) ≤ len - (N.of_nat (length sizes) - 1))%N.
Proof.
  intros Hne Hn Hlen Hmin. unfold split_minimum, count32 in Hmin.
  assert (u16_MAX < u32_MAX)%N as Hmax by done.
  assert (0 < length sizes) by (destruct sizes; [done|simpl; lia]).
  rewrite (N.min_l (N.of_nat (length sizes))) in Hmin by lia.
  destruct (largest_ge sizes (2, 1)%N) as [_ Hbig]. fold (largest sizes) in Hbig.
  destruct (total_sum sizes 0 0 ltac:(lia) ltac:(lia)) as [T1 T2]. fold (total sizes) in T1, T2.
  case_decide as Hw.
  - rewrite bool_decide_eq_true_2 in Hmin by done. cbn [negb] in Hmin.
    split; [destruct axis; simpl in Hmin; unfold saturating_add in Hmin; lia|].
    eapply Forall_impl; [exact Hbig|]. intros s [H1 H2]. cbn beta.
    destruct axis; simpl in *; unfold saturating_add, saturating_mul in Hmin; nia.
  - rewrite bool_decide_eq_false_2 in Hmin by done. cbn [negb] in Hmin.
    destruct axis; cbn [along] in *; cbn [fst snd] in Hmin; unfold saturating_add in Hmin;
      change (along Horizontal) with (@fst N N); change (along Vertical) with (@snd N N); lia.
Qed.

(** The axis a split does not divide *)
Definition across (axis : SplitAxis) : SplitAxis :=
  match axis with Horizontal => Vertical | Vertical => Horizontal end.

Lemma split_minimum_across axis weights sizes s :
  s ∈ sizes → (along (across axis) s ≤ along (across axis) (split_minimum axis weights sizes))%N.
Proof.
  intros Hs. destruct (largest_ge sizes (2, 1)%N) as [_ Hbig]. fold (largest sizes) in Hbig.
  rewrite Forall_forall in Hbig. destruct (Hbig s Hs) as [H1 H2]. unfold split_minimum.
  destruct (negb _); destruct axis; simpl; lia.
Qed.

Lemma minimum_at_least l :
  wf_layout l → (2 ≤ (minimum_size l).1 ∧ 1 ≤ (minimum_size l).2)%N.
Proof.
  induction l as [id|axis children weights IH] using ViewLayout_ind; intros Hwf; [simpl; lia|].
  apply wf_split_inv in Hwf as (Hne & Hn & _ & Hcs). cbn [minimum_size].
  destruct children as [|c cs]; [simpl in Hne; lia|].
  rewrite Forall_forall in IH, Hcs.
  destruct (IH c ltac:(left) (Hcs c ltac:(left))) as [Hc1 Hc2].
  assert (u16_MAX < u32_MAX)%N as Hmax by done.
  assert (2 ≤ u32_MAX)%N as Hmax2 by done.
  unfold split_minimum, count32. rewrite length_fmap.
  rewrite (N.min_l (N.of_nat (length (c :: cs)))) by lia.
  set (sizes := minimum_size <$> c :: cs).
  destruct (largest_ge sizes (2, 1)%N) as [[H1 H2] _]. fold (largest sizes) in H1, H2.
  destruct (total_sum sizes 0 0 ltac:(lia) ltac:(lia)) as [T1 T2]. fold (total sizes) in T1, T2.
  cbn [fst snd] in *.
  assert (2 ≤ sum (fst <$> sizes) ∧ 1 ≤ sum (snd <$> sizes))%N as [S1 S2].
  { subst sizes. rewrite !fmap_cons, !sum_cons. lia. }
  destruct (negb _), axis; cbn [fst snd]; unfold saturating_add, saturating_mul; nia.
Qed.

(** ** The extents of a split *)

Lemma sum_equal_shares (q r : N) m n :
  sum ((λ i, q + (if decide (N.of_nat i < r) then 1 else 0))%N <$> seq m n)
  = (N.of_nat n * q + (r `min` N.of_nat (m + n) - r `min` N.of_nat m))%N.
Proof.
  revert m. induction n as [|n IH]; intros m.
  - rewrite Nat.add_0_r. unfold sum. simpl. lia.
  - rewrite <- cons_seq, fmap_cons, sum_cons, IH. case_decide; lia.
Qed.

Lemma try_map_fits (l : list N) :
  (sum l ≤ u16_MAX)%N → try_map as_u16 l = Ok l.
Proof.
  induction l as [|x l IH]; [done|]. rewrite sum_cons. intros Hle. cbn [try_map].
  assert (as_u16 x = Ok x) as -> by (unfold as_u16; by rewrite decide_True by lia).
  cbn [mbind outcome_bind]. by rewrite IH by lia.
Qed.

(** Extents that fill [len] cells, dividers included, each above its child's minimum *)
Definition fills (axis : SplitAxis) (children : list ViewLayout) (len : N) (extents : list N) : Prop :=
  Forall2 (λ c e, min_along axis c ≤ e)%N children extents ∧
  (sum extents + (N.of_nat (length children) - 1) = len)%N.

Lemma at_seq (l : list N) n : length l = n → at_ l <$> seq 0 n = l.
Proof.
  intros Hn. apply list_eq_same_length with n; [done|by rewrite length_fmap, length_seq|].
  intros i x y Hi Hx Hy. rewrite list_lookup_fmap, lookup_seq_lt in Hx by done.
  simplify_eq/=. by apply at_lookup.
Qed.

(** With valid weights and room for the minima, the loop decides. *)
Lemma split_extents_weighted axis children weights len :
  0 < length children → (N.of_nat (length children) ≤ u16_MAX)%N →
  length weights = length children → Forall (λ w, 0 < w ≤ u32_MAX)%N weights →
  (N.of_nat (length children) - 1 ≤ len)%N →
  (sum (min_along axis <$> children) ≤ len - (N.of_nat (length children) - 1))%N →
  split_extents axis children weights len =
    extents ← allocate (S (length children)) weights (min_along axis <$> children)
      (seq 0 (length children)) (len - (N.of_nat (length children) - 1))%N
      (replicate (length children) 0%N);
    try_map as_u16 extents.
Proof.
  intros Hne Hn Hwl Hpos Hgap Hmin. unfold split_extents.
  rewrite (bool_decide_eq_false_2 (u16_MAX < _)%N), (bool_decide_eq_false_2 (_ = 0%N)),
    (bool_decide_eq_false_2 (len < _)%N) by lia. cbn [fail_if mbind outcome_bind].
  rewrite decide_False by (intros ->; simpl in Hwl; lia).
  rewrite (bool_decide_eq_true_2 (length weights = length children)) by done.
  rewrite (bool_decide_eq_false_2 (0%N ∈ weights)).
  2: { rewrite Forall_forall in Hpos. intros Hz. specialize (Hpos _ Hz). lia. }
  cbn [negb orb fail_if mbind outcome_bind].
  change ((λ child, along axis (minimum_size child)) <$> children) with (min_along axis <$> children).
  by rewrite bool_decide_eq_false_2 by lia.
Qed.

Lemma split_extents_fills axis children weights len :
  wf_layout (Split axis children weights) → (len ≤ u16_MAX)%N →
  (min_along axis (Split axis children weights) ≤ len)%N →
  ∃ extents, split_extents axis children weights len = Ok extents ∧
    fills axis children len extents.
Proof.
  intros Hwf Hlen Hmin. apply wf_split_inv in Hwf as (Hne & Hn & Hw & _).
  unfold min_along in Hmin. cbn [minimum_size] in Hmin.
  apply split_minimum_spec in Hmin as [Hgap Hmin];
    [|by destruct children; [simpl in Hne; lia|]|by rewrite length_fmap|done].
  rewrite length_fmap in Hgap, Hmin.
  case_decide as Hnil.
  - subst weights. unfold split_extents.
    rewrite (bool_decide_eq_false_2 (u16_MAX < _)%N), (bool_decide_eq_false_2 (_ = 0%N)),
      (bool_decide_eq_false_2 (len < _)%N) by lia. cbn [fail_if mbind outcome_bind].
    rewrite decide_True by done.
    eexists. split; [done|]. split.
    + apply Forall2_fmap_r, Forall2_same_length_lookup_2; [by rewrite length_seq|].
      intros i c j Hc Hj. apply lookup_seq in Hj as [-> _].
      rewrite Forall_fmap, Forall_lookup in Hmin. specialize (Hmin i c Hc).
      change (min_along axis c * N.of_nat (length children)
              ≤ len - (N.of_nat (length children) - 1))%N in Hmin.
      assert (min_along axis c ≤ (len - (N.of_nat (length children) - 1)) / N.of_nat (length children))%N;
        [apply N.div_le_lower_bound; lia|]. simpl. case_decide; lia.
    + rewrite sum_equal_shares, Nat.add_0_l, N.min_0_r, N.sub_0_r.
      set (n := N.of_nat (length children)) in *. set (a := (len - (n - 1))%N).
      pose proof (N.div_mod a n ltac:(lia)) as Hd.
      pose proof (N.mod_lt a n ltac:(lia)) as Hm. rewrite (N.min_l (a `mod` n)) by lia.
      rewrite <- Hd. lia.
  - destruct Hw as [|(_ & Hwl & Hpos)]; [done|].
    rewrite <- list_fmap_compose in Hmin.
    change (along axis ∘ minimum_size) with (min_along axis) in Hmin.
    rewrite split_extents_weighted by done.
    set (n := length children) in *. set (minima := min_along axis <$> children) in *.
    assert (Hml : length minima = n) by (subst minima; by rewrite length_fmap).
    pose proof (at_seq minima n Hml) as Hall.
    destruct (allocate_spec weights minima n Hwl Hml Hpos Hn (S n) (seq 0 n)
      (len - (N.of_nat n - 1))%N (replicate n 0%N)) as (ext & -> & Hl & Hs & Hmins).
    + rewrite length_seq. lia.
    + apply NoDup_seq.
    + destruct n; [lia|done].
    + by rewrite length_replicate.
    + intros i Hi%elem_of_seq. split; [lia|]. apply at_lookup, lookup_replicate_2. lia.
    + intros i Hi Hni. exfalso. apply Hni, elem_of_seq. lia.
    + rewrite Hall. lia.
    + rewrite sum_replicate in Hs. cbn [mbind outcome_bind]. rewrite try_map_fits by lia.
      exists ext. split; [done|]. split; [|lia].
      apply Forall2_same_length_lookup_2; [lia|]. intros i c e Hc He.
      specialize (Hmins i ltac:(apply lookup_lt_Some in Hc; lia)).
      rewrite (at_lookup ext i e He) in Hmins. etrans; [|exact Hmins].
      unfold at_, minima. by rewrite list_lookup_fmap, Hc.
Qed.

Import Layout.

Definition le2 (a b : N * N) : Prop := (a.1 ≤ b.1 ∧ a.2 ≤ b.2)%N.

#[global] Instance le2_preorder : PreOrder le2.
Proof. split; [intros []|intros [] [] []]; unfold le2; simpl; lia. Qed.

(** Some of the sizes, no larger and in order *)
Inductive shrinks : list (N * N) → list (N * N) → Prop :=
  | shrinks_nil : shrinks [] []
  | shrinks_keep a b l k : le2 a b → shrinks l k → shrinks (a :: l) (b :: k)
  | shrinks_drop b l k : shrinks l k → shrinks l (b :: k).

#[export] Hint Constructors shrinks : core.

Lemma shrinks_refl l : shrinks l l.
Proof. induction l; constructor; done. Qed.

Lemma shrinks_length l k : shrinks l k → length l ≤ length k.
Proof. induction 1; simpl; lia. Qed.

Lemma Forall2_shrinks l k : Forall2 le2 l k → shrinks l k.
Proof. induction 1; by constructor. Qed.

Lemma largest_shrinks l k a b :
  shrinks l k → le2 a b →
  le2 (foldl (λ a b, (a.1 `max` b.1, a.2 `max` b.2)%N) a l)
      (foldl (λ a b, (a.1 `max` b.1, a.2 `max` b.2)%N) b k).
Proof.
  intros Hs. revert a b. induction Hs as [|x y l k Hxy Hs IH|y l k Hs IH]; intros a b Hab; [done| |];
    cbn [foldl]; apply IH; unfold le2 in *; simpl; lia.
Qed.

Lemma total_shrinks l k a b :
  shrinks l k → le2 a b →
  le2 (foldl (λ a b, (saturating_add a.1 b.1, saturating_add a.2 b.2)) a l)
      (foldl (λ a b, (saturating_add a.1 b.1, saturating_add a.2 b.2)) b k) ∨
  (u32_MAX < a.1 ∨ u32_MAX < a.2)%N.
Proof.
  intros Hs. revert a b. induction Hs as [|x y l k Hxy Hs IH|y l k Hs IH]; intros a b Hab; [by left| |];
    cbn [foldl].
  - destruct (IH (saturating_add a.1 x.1, saturating_add a.2 x.2)
                 (saturating_add b.1 y.1, saturating_add b.2 y.2)) as [|Hbig]; [|by left|];
      unfold le2, saturating_add in *; simpl in *; lia.
  - destruct (decide (u32_MAX < a.1 ∨ u32_MAX < a.2)%N) as [|Hsmall]; [by right|].
    apply IH. unfold le2, saturating_add in *; simpl in *; lia.
Qed.

Lemma split_minimum_shrinks axis w w' l k :
  shrinks l k → (w = [] ↔ w' = []) → le2 (split_minimum axis w l) (split_minimum axis w' k).
Proof.
  intros Hs Hw. unfold split_minimum.
  rewrite (bool_decide_ext _ _ Hw). pose proof (shrinks_length _ _ Hs) as Hlen.
  pose proof (largest_shrinks l k (2, 1)%N (2, 1)%N Hs ltac:(done)) as Hbig.
  destruct (total_shrinks l k (0, 0)%N (0, 0)%N Hs ltac:(done)) as [Htot|Hbad]; [|by simpl in Hbad; lia].
  fold (largest l) (largest k) in Hbig. fold (total l) (total k) in Htot.
  unfold count32, le2 in *.
  destruct (negb _), axis; cbn [fst snd]; unfold saturating_add, saturating_mul; split; try lia; nia.
Qed.

(** Weights only lower the minimum. *)
Lemma split_minimum_weighted axis w sizes :
  w ≠ [] → (N.of_nat (length sizes) ≤ u16_MAX)%N →
  le2 (split_minimum axis w sizes) (split_minimum axis [] sizes).
Proof.
  intros Hw Hn. unfold split_minimum, count32. assert (u16_MAX < u32_MAX)%N as Hmax by done.
  rewrite (bool_decide_eq_false_2 (w = [])), (bool_decide_eq_true_2 ([] = [])) by done. cbn [negb].
  rewrite N.min_l by lia.
  destruct (largest_ge sizes (2, 1)%N) as [_ Hbig]. fold (largest sizes) in Hbig.
  destruct (total_sum sizes 0 0 ltac:(lia) ltac:(lia)) as [T1 T2]. fold (total sizes) in T1, T2.
  assert (Hs : ∀ (f : N * N → N) big, Forall (λ s, f s ≤ big)%N sizes →
    (sum (f <$> sizes) ≤ big * N.of_nat (length sizes))%N).
  { intros f big Hf. rewrite Forall_forall in Hf.
    etrans; [by apply (sum_map_le f (λ _, big))|]. rewrite sum_map_const. lia. }
  pose proof (Hs fst (largest sizes).1 ltac:(eapply Forall_impl; [exact Hbig|]; naive_solver)).
  pose proof (Hs snd (largest sizes).2 ltac:(eapply Forall_impl; [exact Hbig|]; naive_solver)).
  destruct axis; unfold le2; cbn [fst snd]; unfold saturating_add, saturating_mul; lia.
Qed.

Lemma split_minimum_reweigh axis w w' sizes :
  w' ≠ [] → (N.of_nat (length sizes) ≤ u16_MAX)%N →
  le2 (split_minimum axis w' sizes) (split_minimum axis w sizes).
Proof.
  intros Hw' Hn. destruct (decide (w = [])) as [->|Hw]; [by apply split_minimum_weighted|].
  apply split_minimum_shrinks; [apply shrinks_refl|done].
Qed.

(** A minimum is a [u32]. *)
Lemma minimum_u32 l :
  ((minimum_size l).1 ≤ u32_MAX ∧ (minimum_size l).2 ≤ u32_MAX)%N.
Proof.
  induction l as [id|axis children weights IH] using ViewLayout_ind; [done|].
  cbn [minimum_size]. unfold split_minimum.
  assert (Hbig : ((largest (minimum_size <$> children)).1 ≤ u32_MAX ∧
                  (largest (minimum_size <$> children)).2 ≤ u32_MAX)%N).
  { unfold largest. assert (2 ≤ u32_MAX ∧ 1 ≤ u32_MAX)%N as Hinit by done.
    change 2%N with ((2, 1)%N.1) in Hinit at 1. change 1%N with ((2, 1)%N.2) in Hinit at 2.
    revert Hinit. generalize (2, 1)%N. induction IH as [|c cs Hc _ IHc]; intros a Ha; [done|].
    csimpl. apply IHc. simpl. lia. }
  destruct (negb _), axis; cbn [fst snd]; unfold saturating_add; lia.
Qed.

(** A child needs no more than the split. *)
Lemma split_minimum_child axis w (children : list ViewLayout) c :
  c ∈ children → le2 (minimum_size c) (split_minimum axis w (minimum_size <$> children)).
Proof.
  intros Hc. set (sizes := minimum_size <$> children).
  assert (Hs : minimum_size c ∈ sizes) by by apply list_elem_of_fmap_2.
  destruct (minimum_u32 c) as [U1 U2].
  assert (Hne : 0 < length sizes) by (destruct sizes; [by apply elem_of_nil in Hs|simpl; lia]).
  destruct (largest_ge sizes (2, 1)%N) as [_ Hbig]. fold (largest sizes) in Hbig.
  rewrite Forall_forall in Hbig. destruct (Hbig _ Hs) as [H1 H2].
  destruct (total_sum sizes 0 0 ltac:(lia) ltac:(lia)) as [T1 T2]. fold (total sizes) in T1, T2.
  apply list_elem_of_lookup in Hs as [i Hi].
  assert (Hf : ((minimum_size c).1 ≤ sum (fst <$> sizes) ∧ (minimum_size c).2 ≤ sum (snd <$> sizes))%N).
  { split; apply (sum_lookup_le _ i); by rewrite list_lookup_fmap, Hi. }
  assert (1 ≤ count32 sizes)%N as Hcount.
  { unfold count32. assert (1 ≤ u32_MAX)%N by done. lia. }
  unfold split_minimum, le2.
  destruct (negb _), axis; cbn [fst snd]; unfold saturating_add, saturating_mul; split; try lia; nia.
Qed.

Import Layout LayoutExt.

(** * Rectangles *)

Definition inside (left top columns rows : N) (p : PaneGeometry.t) : Prop :=
  (left ≤ PaneGeometry.left p ∧ PaneGeometry.left p + PaneGeometry.columns p ≤ left + columns ∧
   top ≤ PaneGeometry.top p ∧ PaneGeometry.top p + PaneGeometry.rows p ≤ top + rows ∧
   2 ≤ PaneGeometry.columns p ∧ 1 ≤ PaneGeometry.rows p)%N.

(** A pane that comes earlier is wholly to the left of the other or wholly above it,
    with at least one cell between them. *)
Definition apart (p q : PaneGeometry.t) : Prop :=
  (PaneGeometry.left p + PaneGeometry.columns p < PaneGeometry.left q ∨
   PaneGeometry.top p + PaneGeometry.rows p < PaneGeometry.top q)%N.

Definition all_apart (panes : list PaneGeometry.t) : Prop :=
  ∀ i j p q, i < j → panes !! i = Some p → panes !! j = Some q → apart p q.

Lemma all_apart_app ps qs :
  all_apart ps → all_apart qs → (∀ p q, p ∈ ps → q ∈ qs → apart p q) → all_apart (ps ++ qs).
Proof.
  intros Hp Hq Hpq i j p q Hij Hi Hj.
  apply lookup_app_Some in Hi as [Hi|[Hil Hi]], Hj as [Hj|[Hjl Hj]].
  - by eapply (Hp i j).
  - apply Hpq; by eapply list_elem_of_lookup_2.
  - apply lookup_lt_Some in Hj. lia.
  - eapply (Hq (i - length ps) (j - length ps)); [lia|done..].
Qed.

Lemma inside_mono left top columns rows left' top' columns' rows' p :
  (left' ≤ left)%N → (left + columns ≤ left' + columns')%N →
  (top' ≤ top)%N → (top + rows ≤ top' + rows')%N →
  inside left top columns rows p → inside left' top' columns' rows' p.
Proof. unfold inside. lia. Qed.

(** * Placing *)

(** [place] covers the rectangle it is given. *)
Definition placed (l : ViewLayout) (left top columns rows : N) (panes : list PaneGeometry.t) : Prop :=
  PaneGeometry.terminal_id <$> panes = terminal_ids l ∧
  Forall (inside left top columns rows) panes ∧ all_apart panes.

Definition placeable (l : ViewLayout) : Prop :=
  ∀ left top columns rows,
    ((minimum_size l).1 ≤ columns)%N → ((minimum_size l).2 ≤ rows)%N →
    (left + columns ≤ u16_MAX)%N → (top + rows ≤ u16_MAX)%N →
    ∃ panes, place l left top columns rows = Ok panes ∧ placed l left top columns rows panes.

Lemma add16_ok a b : (a + b ≤ u16_MAX)%N → add16 a b = Ok (a + b)%N.
Proof. intros Hle. unfold add16. by rewrite decide_True. Qed.

Lemma fmap_nil_iff {A B} (f : A → B) (l : list A) : f <$> l = [] ↔ l = [].
Proof. by destruct l. Qed.

(** The part of the canvas from [offset] on, along the split *)
Definition from_ (axis : SplitAxis) (left top columns rows offset : N) : PaneGeometry.t → Prop :=
  match axis with
  | Horizontal => inside (left + offset) top (columns - offset) rows
  | Vertical => inside left (top + offset) columns (rows - offset)
  end.

Lemma place_children_spec axis children extents left top columns rows offset :
  Forall placeable children →
  Forall2 (λ c e, min_along axis c ≤ e)%N children extents →
  Forall (λ c, along (across axis) (minimum_size c) ≤ along (across axis) (columns, rows))%N children →
  (offset + sum extents + (N.of_nat (length children) - 1) ≤ along axis (columns, rows))%N →
  (left + columns ≤ u16_MAX)%N → (top + rows ≤ u16_MAX)%N →
  ∃ panes,
    place_children (bool_decide (axis = Horizontal)) (place <$> children) extents
      left top columns rows offset = Ok panes ∧
    PaneGeometry.terminal_id <$> panes = mjoin (terminal_ids <$> children) ∧
    Forall (from_ axis left top columns rows offset) panes ∧ all_apart panes.
Proof.
  intros Hp Hext. revert offset Hp.
  induction Hext as [|c e children extents Hc Hext IH]; intros offset Hp Hcross Hsum Hl Ht.
  { exists []. by split_and!. }
  apply Forall_cons in Hp as [Hpc Hp], Hcross as [Hcc Hcross].
  rewrite sum_cons in Hsum. simpl length in Hsum. cbn [place_children fmap list_fmap map].
  change (map place children) with (place <$> children).
  set (len := along axis (columns, rows)) in *.
  assert (Hlen : (len ≤ u16_MAX)%N) by (subst len; destruct axis; simpl; lia).
  (* the first child *)
  assert (∃ panes,
    (if bool_decide (axis = Horizontal)
     then left ← add16 left offset; place c left top e rows
     else top ← add16 top offset; place c left top columns e) = Ok panes ∧
    PaneGeometry.terminal_id <$> panes = terminal_ids c ∧
    Forall (λ p, from_ axis left top columns rows offset p ∧
      ∀ q, from_ axis left top columns rows (offset + e + 1) q → apart p q) panes ∧
    all_apart panes) as (ps & -> & Hids & Hin & Hap).
  { unfold min_along in Hc. destruct axis; simpl along in *.
    - rewrite bool_decide_eq_true_2, add16_ok by (done || lia). cbn [mbind outcome_bind].
      destruct (Hpc (left + offset)%N top e rows) as (ps & E & Hids & Hin & Hap); [lia..|].
      exists ps. split_and!; [done..| |done]. eapply Forall_impl; [exact Hin|]. intros p Hp'.
      unfold from_, inside, apart in *. split; [lia|]. intros q Hq. lia.
    - rewrite bool_decide_eq_false_2, add16_ok by (done || lia). cbn [mbind outcome_bind].
      destruct (Hpc left (top + offset)%N columns e) as (ps & E & Hids & Hin & Hap); [lia..|].
      exists ps. split_and!; [done..| |done]. eapply Forall_impl; [exact Hin|]. intros p Hp'.
      unfold from_, inside, apart in *. split; [lia|]. intros q Hq. lia. }
  cbn [mbind outcome_bind]. rewrite add16_ok by lia. cbn [mbind outcome_bind].
  destruct children as [|c' children].
  { cbn [fmap list_fmap map]. rewrite decide_True by done. cbn [mbind outcome_bind].
    inversion Hext. subst. cbn [place_children mbind outcome_bind].
    exists (ps ++ []). rewrite !app_nil_r. split_and!; [done| | |done].
    - rewrite Hids. cbn. by rewrite app_nil_r.
    - eapply Forall_impl; [exact Hin|]. by intros p [? _]. }
  rewrite decide_False by done. simpl length in Hsum. rewrite add16_ok by lia. cbn [mbind outcome_bind].
  destruct (IH (offset + e + 1)%N Hp Hcross) as (qs & -> & Hids' & Hin' & Hap');
    [simpl length; lia|done..|]. cbn [mbind outcome_bind].
  exists (ps ++ qs). split_and!; [done| | |].
  - rewrite fmap_app, Hids, Hids'. done.
  - apply Forall_app. split; [eapply Forall_impl; [exact Hin|]; by intros p [? _]|].
    eapply Forall_impl; [exact Hin'|]. intros q. subst len.
    destruct axis; simpl in *; unfold inside; lia.
  - apply all_apart_app; [done..|]. intros p q Hp' Hq. rewrite Forall_forall in Hin, Hin'.
    apply Hin in Hp' as [_ Hp']. by apply Hp', Hin'.
Qed.

Lemma place_spec l : wf_layout l → placeable l.
Proof.
  induction l as [id|axis children weights IH] using ViewLayout_ind; intros Hwf.
  { intros left top columns rows Hc Hr _ _. eexists. split; [done|]. split_and!; [done| |].
    - apply Forall_singleton. unfold inside. simpl in *. lia.
    - intros [|i] [|j] p q Hij Hi Hj; simpl in *; try lia; done. }
  intros left top columns rows Hc Hr Hl Ht. cbn [place].
  assert (Hmin : ∀ ax, (along ax (minimum_size (Split axis children weights)) ≤ along ax (columns, rows))%N)
    by (intros []; done).
  assert (Hlen : (along axis (columns, rows) ≤ u16_MAX)%N) by (destruct axis; simpl; lia).
  destruct (split_extents_fills axis children weights (along axis (columns, rows)) Hwf Hlen (Hmin axis))
    as (ext & E & Hfill & Hsum).
  assert ((if bool_decide (axis = Horizontal) then columns else rows) = along axis (columns, rows)) as ->
    by (by destruct axis).
  rewrite E. cbn [mbind outcome_bind].
  apply wf_split_inv in Hwf as (_ & _ & _ & Hcs).
  destruct (place_children_spec axis children ext left top columns rows 0) as (ps & -> & Hids & Hin & Hap);
    [|done| |lia|done..|].
  - rewrite Forall_forall in *. auto.
  - apply Forall_forall. intros c Hin. etrans; [|apply (Hmin (across axis))].
    apply split_minimum_across. by apply list_elem_of_fmap_2.
  - exists ps. split; [done|]. split_and!; [done| |done]. eapply Forall_impl; [exact Hin|].
    intros p. destruct axis; simpl; unfold inside; lia.
Qed.

Definition fits (size : TerminalSize.t) (l : ViewLayout) : Prop :=
  ((minimum_size l).1 ≤ TerminalSize.columns size)%N ∧ ((minimum_size l).2 ≤ TerminalSize.rows size)%N.
#[global] Instance fits_dec size l : Decision (fits size l) := _.

Lemma pane_geometry_spec l size :
  wf_layout l → (TerminalSize.columns size ≤ u16_MAX)%N → (TerminalSize.rows size ≤ u16_MAX)%N →
  if decide (fits size l)
  then ∃ panes, pane_geometry l size = Ok panes ∧
       placed l 0 0 (TerminalSize.columns size) (TerminalSize.rows size) panes
  else pane_geometry l size = Err "view needs at least"%string.
Proof.
  intros Hwf Hc Hr. unfold pane_geometry. case_decide as Hfit.
  - destruct Hfit as [H1 H2]. rewrite !bool_decide_eq_false_2 by lia. simpl.
    apply place_spec; [done|lia..].
  - assert (bool_decide (TerminalSize.columns size < (minimum_size l).1)%N
      || bool_decide (TerminalSize.rows size < (minimum_size l).2)%N = true) as ->; [|done].
    rewrite orb_true_iff, !bool_decide_eq_true. unfold fits in Hfit. lia.
Qed.

(** The daemon scales the canvas's pixels to each pane without failing. *)
Lemma pane_size_ok canvas pane :
  (TerminalSize.pixel_width canvas ≤ u16_MAX)%N → (TerminalSize.pixel_height canvas ≤ u16_MAX)%N →
  inside 0 0 (TerminalSize.columns canvas) (TerminalSize.rows canvas) pane →
  ∃ size, pane_size canvas pane = Ok size ∧
    TerminalSize.columns size = PaneGeometry.columns pane ∧
    TerminalSize.rows size = PaneGeometry.rows pane ∧
    (TerminalSize.pixel_width size ≤ TerminalSize.pixel_width canvas)%N ∧
    (TerminalSize.pixel_height size ≤ TerminalSize.pixel_height canvas)%N.
Proof.
  intros Hw Hh (_ & Hc & _ & Hr & Hc2 & Hr1).
  assert (Hs : ∀ pixels cells total, (pixels ≤ u16_MAX → 0 < total → cells ≤ total →
    scaled pixels cells total = Ok (pixels * cells / total) ∧ pixels * cells / total ≤ pixels)%N).
  { intros pixels cells tot Hp Ht Hle. unfold scaled. rewrite decide_False by lia.
    assert (pixels * cells / tot ≤ pixels)%N by (apply N.Div0.div_le_upper_bound; nia).
    rewrite decide_True by lia. done. }
  destruct (Hs (TerminalSize.pixel_width canvas) (PaneGeometry.columns pane)
    (TerminalSize.columns canvas)) as [E1 L1]; [done|lia..|].
  destruct (Hs (TerminalSize.pixel_height canvas) (PaneGeometry.rows pane)
    (TerminalSize.rows canvas)) as [E2 L2]; [done|lia..|].
  unfold pane_size. rewrite E1. cbn [mbind outcome_bind]. rewrite E2. cbn [mbind outcome_bind].
  eexists. split_and!; try done.
Qed.
