(* ===== verification/Dividers.v ===== *)
(** Moving dividers (ViewLayout::resize_divider, ViewLayout::resize_pane and
    move_boundary): a moved divider ends where it was asked to, no further than its
    neighbours' minima, the terminals stay, and the layout still fits its canvas. *)

From S2P Require Import Prelude.
From S2P Require Import Layout.
From S2P Require Import Topology.
From S2P Require Import LayoutInv.
From stdpp Require Import strings.

Import Layout LayoutExt.

(** * Extents as weights *)

Lemma pointwise_le_sum (l k : list N) :
  Forall2 N.le l k → sum l = sum k → l = k.
Proof.
  intros Hle. assert (Hs : ∀ l k, Forall2 N.le l k → (sum l ≤ sum k)%N).
  { induction 1; rewrite ?sum_cons; [done|lia]. }
  induction Hle as [|x y l k Hxy Hle IH]; [done|]. rewrite !sum_cons. intros E.
  specialize (Hs _ _ Hle). rewrite IH by lia. f_equal. lia.
Qed.

(** Extents used as weights allocate themselves. *)
Lemma split_extents_own axis children ext len :
  0 < length children → Forall wf_layout children →
  (len ≤ u16_MAX)%N → fills axis children len ext →
  split_extents axis children ext len = Ok ext ∧ Forall (λ w, 0 < w ≤ u32_MAX)%N ext.
Proof.
  intros Hne Hwf Hlen [Hmin Hsum].
  assert (Hl : length children = length ext) by by eapply Forall2_length.
  assert (Hmax : (u16_MAX ≤ u32_MAX)%N) by done.
  assert (Hpos : Forall (λ w, 0 < w ≤ u32_MAX)%N ext).
  { apply Forall_lookup. intros i e He.
    destruct (Forall2_lookup_r _ _ _ _ _ Hmin He) as (c & Hc & Hle).
    rewrite Forall_lookup in Hwf. destruct (minimum_at_least c (Hwf _ _ Hc)).
    unfold min_along in Hle. pose proof (sum_lookup_le _ _ _ He). destruct axis; simpl in Hle; lia. }
  split; [|done].
  assert (Hn : (N.of_nat (length children) ≤ u16_MAX)%N).
  { assert (N.of_nat (length ext) ≤ sum ext)%N; [|lia].
    clear -Hpos. induction Hpos as [|x l Hx _ IH]; [done|]. rewrite sum_cons. simpl. lia. }
  set (n := length children) in *. set (minima := min_along axis <$> children).
  assert (Hml : length minima = n) by (subst minima; by rewrite length_fmap).
  assert (Hat : ∀ i, i < n → (at_ minima i ≤ at_ ext i)%N).
  { intros i Hi. destruct (lookup_lt_is_Some_2 children i Hi) as [c Hc].
    destruct (Forall2_lookup_l _ _ _ _ _ Hmin Hc) as (e & He & Hle).
    rewrite (at_lookup _ _ _ He). unfold at_, minima. by rewrite list_lookup_fmap, Hc. }
  assert (Hms : (sum minima ≤ sum ext)%N).
  { rewrite <- (at_seq minima n Hml), <- (at_seq ext n (eq_sym Hl)). apply sum_map_le.
    intros i Hi%elem_of_seq. apply Hat. lia. }
  assert (Hav : (len - (N.of_nat n - 1) = sum ext)%N) by lia.
  rewrite split_extents_weighted by (done || fold minima; lia). fold n minima. rewrite Hav.
  assert (Hnil : seq 0 n ≠ []) by (by destruct n; [lia|]).
  assert (Hseq : ∀ i, i ∈ seq 0 n → i < n) by (intros i Hi%elem_of_seq; lia).
  cbn [allocate]. rewrite decide_False by done.
  change (λ i, default 0%N (ext !! i)) with (at_ ext). rewrite !at_seq by lia.
  change (λ i, default 0%N (minima !! i)) with (at_ minima).
  rewrite (pass_fits ext minima n) by (done || lia || apply NoDup_seq || (rewrite at_seq; lia)).
  cbn [expect mbind outcome_bind].
  rewrite decide_True.
  2: { apply elem_of_nil_inv. intros i [Hlt Hi]%list_elem_of_filter.
       specialize (Hat i (Hseq i Hi)). unfold at_ in Hat. nia. }
  destruct (share_spec ext minima n ltac:(lia) Hml (sum ext) (seq 0 n) (replicate n 0%N))
    as (e & E & Hle & Hse & _ & Hi).
  - by rewrite length_replicate.
  - apply NoDup_seq.
  - intros i Hi. split; [auto|]. apply at_lookup, lookup_replicate_2. auto.
  - done.
  - rewrite at_seq by lia. destruct ext as [|x l]; [simpl in *; lia|]. rewrite sum_cons.
    apply Forall_cons in Hpos as [? _]. lia.
  - rewrite at_seq in E, Hi by lia. rewrite sum_replicate in Hse. rewrite E. cbn [mbind outcome_bind].
    assert (ext = e) as <-.
    { apply pointwise_le_sum; [|lia]. apply Forall2_same_length_lookup_2; [lia|].
      intros i x y Hx Hy. pose proof (lookup_lt_Some _ _ _ Hx).
      destruct (Hi i ltac:(apply elem_of_seq; lia)) as [Hge _].
      rewrite (at_lookup _ _ _ Hx), (at_lookup _ _ _ Hy) in Hge. etrans; [|exact Hge].
      pose proof (sum_lookup_le _ _ _ Hx).
      destruct (decide (sum ext = 0%N)); [replace x with 0%N by lia; apply N.le_0_l|]. rewrite N.mul_comm, N.div_mul by done. done. }
    apply try_map_fits. lia.
Qed.

(** * One divider *)

Definition clampZ (x lo hi : Z) : Z := if decide (x < lo)%Z then lo else if decide (hi < x)%Z then hi else x.

Lemma clamp_clampZ x lo hi : (lo ≤ hi)%Z → clamp x lo hi = Ok (clampZ x lo hi).
Proof. intros H. unfold clamp. by rewrite decide_True. Qed.

Lemma clampZ_within x lo hi : (lo ≤ hi)%Z → (lo ≤ clampZ x lo hi ≤ hi)%Z.
Proof. unfold clampZ. repeat case_decide; lia. Qed.

(** Cells move from the right of boundary [b] to its left. *)
Definition shifted (ext : list N) (b : nat) (d : Z) : list N :=
  <[b + 1 := Z.to_N (Z.of_N (at_ ext (b + 1)) - d)]>
    (<[b := Z.to_N (Z.of_N (at_ ext b) + d)]> ext).

(** How far boundary [b] can move to the left and to the right *)
Definition slack_left (axis : SplitAxis) (children : list ViewLayout) (ext : list N) (b : nat) : Z :=
  (Z.of_N (default 0%N (min_along axis <$> children !! b)) - Z.of_N (at_ ext b))%Z.
Definition slack_right (axis : SplitAxis) (children : list ViewLayout) (ext : list N) (b : nat) : Z :=
  (Z.of_N (at_ ext (b + 1)) - Z.of_N (default 0%N (min_along axis <$> children !! (b + 1)%nat)))%Z.

Lemma sum_shifted ext b d :
  b + 1 < length ext →
  (0 ≤ Z.of_N (at_ ext b) + d)%Z → (0 ≤ Z.of_N (at_ ext (b + 1)) - d)%Z → sum (shifted ext b d) = sum ext.
Proof.
  intros Hb H1 H2. unfold shifted.
  set (e1 := <[b := _]> ext).
  pose proof (sum_insert ext b _ (Z.to_N (Z.of_N (at_ ext b) + d)) (at_Some ext b ltac:(lia))) as S1.
  assert (Hb1 : e1 !! (b + 1) = Some (at_ ext (b + 1))).
  { unfold e1. rewrite list_lookup_insert_ne by lia. apply at_Some. lia. }
  pose proof (sum_insert e1 (b + 1) _ (Z.to_N (Z.of_N (at_ ext (b + 1)) - d)) Hb1) as S2.
  fold e1 in S1. lia.
Qed.

Lemma fills_shifted axis children len ext b d :
  fills axis children len ext → b + 1 < length children →
  (slack_left axis children ext b ≤ d ≤ slack_right axis children ext b)%Z →
  fills axis children len (shifted ext b d).
Proof.
  intros [Hmin Hsum] Hb Hd. pose proof (Forall2_length _ _ _ Hmin) as Hl.
  destruct (lookup_lt_is_Some_2 children b ltac:(lia)) as [c1 Hc1].
  destruct (lookup_lt_is_Some_2 children (b + 1) ltac:(lia)) as [c2 Hc2].
  unfold slack_left, slack_right in Hd. rewrite Hc1, Hc2 in Hd. simpl in Hd.
  split; [|by rewrite sum_shifted by lia].
  apply Forall2_same_length_lookup_2; [unfold shifted; by rewrite !length_insert|].
  intros i c e Hc He. unfold shifted in He.
  destruct (decide (i = b + 1)) as [->|Hi].
  { rewrite list_lookup_insert_eq in He by (rewrite length_insert; lia). simplify_eq. lia. }
  rewrite list_lookup_insert_ne in He by done.
  destruct (decide (i = b)) as [->|Hi'].
  { rewrite list_lookup_insert_eq in He by lia. simplify_eq. lia. }
  rewrite list_lookup_insert_ne in He by done.
  exact (Forall2_lookup_lr _ _ _ _ _ _ Hmin Hc He).
Qed.

Lemma extent_of_ok x : (0 ≤ x ≤ Z.of_N u16_MAX)%Z → extent_of x = Ok (Z.to_N x).
Proof. intros Hx. unfold extent_of. by rewrite decide_True. Qed.

Lemma move_boundary_spec axis children len ext b delta :
  fills axis children len ext → (len ≤ u16_MAX)%N → b + 1 < length children →
  let d := clampZ delta (slack_left axis children ext b) (slack_right axis children ext b) in
  (slack_left axis children ext b ≤ 0 ≤ slack_right axis children ext b)%Z ∧
  move_boundary axis children ext b delta =
    Ok (if decide (d = 0%Z) then None else Some (shifted ext b d)).
Proof.
  intros [Hmin Hsum] Hlen Hb. pose proof (Forall2_length _ _ _ Hmin) as Hl.
  destruct (lookup_lt_is_Some_2 children b ltac:(lia)) as [c1 Hc1].
  destruct (lookup_lt_is_Some_2 children (b + 1) ltac:(lia)) as [c2 Hc2].
  pose proof (at_Some ext b ltac:(lia)) as He1. pose proof (at_Some ext (b + 1) ltac:(lia)) as He2.
  pose proof (Forall2_lookup_lr _ _ _ _ _ _ Hmin Hc1 He1) as Hm1.
  pose proof (Forall2_lookup_lr _ _ _ _ _ _ Hmin Hc2 He2) as Hm2. cbn beta in Hm1, Hm2.
  assert (Hpair : (at_ ext b + at_ ext (b + 1) ≤ sum ext)%N).
  { pose proof (sum_insert ext b _ 0%N He1).
    pose proof (sum_lookup_le (<[b := 0%N]> ext) (b + 1) (at_ ext (b + 1))
      ltac:(by rewrite list_lookup_insert_ne by lia)). lia. }
  unfold slack_left, slack_right, move_boundary. rewrite Hc1, Hc2, He1, He2.
  cbn [expect mbind outcome_bind fmap option_fmap option_map default].
  unfold id. fold (min_along axis c1) (min_along axis c2).
  split; [lia|]. rewrite clamp_clampZ by lia. cbn [mbind outcome_bind].
  set (d := clampZ _ _ _).
  assert (Hd : (Z.of_N (min_along axis c1) - Z.of_N (at_ ext b) ≤ d ≤ Z.of_N (at_ ext (b + 1)) - Z.of_N (min_along axis c2))%Z)
    by (apply clampZ_within; lia).
  case_decide; [done|].
  rewrite !extent_of_ok by lia. cbn [mbind outcome_bind].
  rewrite update_Some by lia. cbn [expect mbind outcome_bind].
  by rewrite update_Some by (rewrite length_insert; lia).
Qed.

(** * Edits of a layout *)

(** An edit keeps the terminals and needs no larger a canvas. *)
Definition edited (l l' : ViewLayout) : Prop :=
  wf_layout l' ∧ terminal_ids l' = terminal_ids l ∧ le2 (minimum_size l') (minimum_size l).

Lemma edited_refl l : wf_layout l → edited l l.
Proof. by split. Qed.

Lemma wf_split_intro axis children weights :
  0 < length children → (N.of_nat (length children) ≤ u16_MAX)%N →
  (weights = [] ∨ weights ≠ [] ∧ length weights = length children ∧
    Forall (λ w, 0 < w ≤ u32_MAX)%N weights) →
  Forall wf_layout children → wf_layout (Split axis children weights).
Proof.
  intros Hne Hn Hw Hcs. constructor; try done; [intros ->; simpl in Hne; lia|]. destruct Hw as [|(_ & ? & ?)]; [by left|by right].
Qed.

Lemma edited_child axis children weights i c c' :
  wf_layout (Split axis children weights) → children !! i = Some c → edited c c' →
  edited (Split axis children weights) (Split axis (<[i := c']> children) weights).
Proof.
  intros (Hne & Hn & Hw & Hcs)%wf_split_inv Hc (Hwf & Hids & Hmin). split_and!.
  - apply wf_split_intro; rewrite ?length_insert; try done. by apply Forall_insert.
  - cbn [terminal_ids]. f_equal. rewrite list_fmap_insert, Hids. apply list_insert_id.
    by rewrite list_lookup_fmap, Hc.
  - cbn [minimum_size]. apply split_minimum_shrinks; [|done]. rewrite list_fmap_insert.
    apply Forall2_shrinks, Forall2_same_length_lookup_2; [by rewrite length_insert|].
    intros j x y Hx Hy. destruct (decide (j = i)) as [->|Hj].
    + rewrite list_lookup_insert_eq in Hx by (rewrite length_fmap; by eapply lookup_lt_Some).
      rewrite list_lookup_fmap, Hc in Hy. by simplify_eq/=.
    + rewrite list_lookup_insert_ne in Hx by done. by simplify_eq.
Qed.

Lemma edited_weights axis children weights len ext :
  wf_layout (Split axis children weights) → (len ≤ u16_MAX)%N → fills axis children len ext →
  edited (Split axis children weights) (Split axis children ext).
Proof.
  intros (Hne & Hn & Hw & Hcs)%wf_split_inv Hlen Hf.
  destruct (split_extents_own axis children ext len Hne Hcs Hlen Hf) as [_ Hpos].
  destruct Hf as [Hmin _]. pose proof (Forall2_length _ _ _ Hmin) as Hl.
  assert (ext ≠ []) by (intros ->; simpl in Hl; lia). split_and!.
  - apply wf_split_intro; [done..| |done]. by right.
  - done.
  - cbn [minimum_size]. apply split_minimum_reweigh; [done|by rewrite length_fmap].
Qed.

(** The boundary move of both operations, as an edit *)
Lemma edited_resized axis children weights len ext b delta :
  wf_layout (Split axis children weights) → (len ≤ u16_MAX)%N →
  fills axis children len ext → b + 1 < length children →
  move_boundary axis children ext b delta ⇓? λ moved,
    let '(l', changed) := resized (Split axis children weights) moved in
    edited (Split axis children weights) l' ∧ (changed = false → l' = Split axis children weights).
Proof.
  intros Hwf Hlen Hf Hb.
  destruct (move_boundary_spec axis children len ext b delta Hf Hlen Hb) as [Hs E].
  cbn zeta in E. rewrite E. case_decide; simpl.
  - split; [by apply edited_refl|done].
  - split; [|done]. eapply edited_weights; [done|done|]. apply fills_shifted; [done..|].
    apply clampZ_within. lia.
Qed.

(** ** resize_divider *)

Definition fits_in (columns rows : N) (l : ViewLayout) : Prop :=
  ((minimum_size l).1 ≤ columns ≤ u16_MAX)%N ∧ ((minimum_size l).2 ≤ rows ≤ u16_MAX)%N.

Definition length_along (axis : SplitAxis) (columns rows : N) : N :=
  if bool_decide (axis = Horizontal) then columns else rows.

(** The extents of a split that fits, and what its children are given *)
Lemma split_fits axis children weights columns rows :
  wf_layout (Split axis children weights) → fits_in columns rows (Split axis children weights) →
  ∃ ext, split_extents axis children weights (length_along axis columns rows) = Ok ext ∧
    fills axis children (length_along axis columns rows) ext ∧
    (length_along axis columns rows ≤ u16_MAX)%N ∧
    ∀ i c e, children !! i = Some c → ext !! i = Some e →
      wf_layout c ∧
      if bool_decide (axis = Horizontal) then fits_in e rows c else fits_in columns e c.
Proof.
  intros Hwf [Hc Hr]. unfold length_along.
  set (len := if bool_decide (axis = Horizontal) then columns else rows).
  assert (Hlen : (len ≤ u16_MAX)%N) by (subst len; destruct axis; simpl; lia).
  destruct (split_extents_fills axis children weights len Hwf Hlen) as (ext & E & Hf).
  { subst len. unfold min_along. destruct axis; simpl; [apply Hc|apply Hr]. }
  exists ext. split_and!; [done..|]. intros i c e Hci Hei. apply wf_split_inv in Hwf as (_ & _ & _ & Hcs).
  split; [by eapply Forall_lookup_1|]. destruct Hf as [Hmin Hsum].
  pose proof (Forall2_lookup_lr _ _ _ _ _ _ Hmin Hci Hei) as Hle. cbn beta in Hle.
  pose proof (sum_lookup_le _ _ _ Hei).
  destruct (split_minimum_child axis weights children c ltac:(by eapply list_elem_of_lookup_2)) as [H1 H2].
  cbn [minimum_size] in Hc, Hr. unfold min_along in Hle. subst len. unfold fits_in.
  destruct axis; simpl in *; lia.
Qed.

Lemma sum16_ok l : (sum l ≤ u16_MAX)%N → sum16 l = Ok (sum l).
Proof.
  induction l as [|x l IH]; [done|]. rewrite sum_cons. intros Hle. cbn [sum16].
  rewrite IH by lia. cbn [mbind outcome_bind]. apply add16_ok. lia.
Qed.

(** A prefix of the extents with its gaps leaves room for the next child. *)
Lemma sum_take_fills axis children len ext i e :
  fills axis children len ext → ext !! i = Some e → (sum (take i ext) + N.of_nat i + e ≤ len)%N.
Proof.
  intros [Hmin Hsum] Hi. pose proof (Forall2_length _ _ _ Hmin). pose proof (lookup_lt_Some _ _ _ Hi).
  rewrite <- (take_drop_middle ext i e Hi), sum_app, sum_cons in Hsum. lia.
Qed.

Definition within16 (bounds : LayoutBounds) : Prop :=
  (bleft bounds + bcolumns bounds ≤ u16_MAX ∧ btop bounds + brows bounds ≤ u16_MAX)%N.

(** The part of the canvas a child of a split is given *)
Definition child_bounds (axis : SplitAxis) (bounds : LayoutBounds) (before extent : N) : LayoutBounds :=
  match axis with
  | Horizontal => Bounds (bleft bounds + before) (btop bounds) extent (brows bounds)
  | Vertical => Bounds (bleft bounds) (btop bounds + before) (bcolumns bounds) extent
  end.

Lemma descend axis children weights ext index path b pos bounds c e :
  let len := length_along axis (bcolumns bounds) (brows bounds) in
  let bounds' := child_bounds axis bounds (sum (take (N.to_nat index) ext) + index) e in
  split_extents axis children weights len = Ok ext → fills axis children len ext →
  (len ≤ u16_MAX)%N → within16 bounds →
  children !! N.to_nat index = Some c → ext !! N.to_nat index = Some e →
  place_divider (index :: path) b pos bounds (Split axis children weights) =
    ('(child, changed) ← place_divider path b pos bounds' c;
     Ok (Split axis (<[N.to_nat index := child]> children) weights, changed)) ∧
  within16 bounds'.
Proof.
  intros len bounds' E Hf Hlen Hb Hc He. subst bounds'.
  pose proof (sum_take_fills _ _ _ _ _ _ Hf He) as Hs.
  cbn [place_divider]. fold (length_along axis (bcolumns bounds) (brows bounds)). fold len.
  rewrite E. cbn [mbind outcome_bind]. rewrite He. cbn [ok_or mbind outcome_bind].
  rewrite sum16_ok by lia. cbn [mbind outcome_bind]. rewrite add16_ok by lia. cbn [mbind outcome_bind].
  rewrite Hc. unfold within16, len, length_along in *.
  destruct axis; simpl in *; rewrite add16_ok by lia; (split; [done|lia]).
Qed.

Lemma place_divider_edits l path b pos bounds :
  wf_layout l → fits_in (bcolumns bounds) (brows bounds) l → within16 bounds →
  place_divider path b pos bounds l ⇓? λ '(l', changed),
    edited l l' ∧ (changed = false → l' = l).
Proof.
  revert path bounds. induction l as [id|axis children weights IH] using ViewLayout_ind;
    intros path bounds Hwf Hfit Hb; [by destruct path|].
  destruct (split_fits _ _ _ _ _ Hwf Hfit) as (ext & E & Hf & Hlen & Hsub).
  assert (Hl : length children = length ext) by (destruct Hf; by eapply Forall2_length).
  assert (Hlb : (length_along axis (bcolumns bounds) (brows bounds) +
    (if bool_decide (axis = Horizontal) then bleft bounds else btop bounds) ≤ u16_MAX)%N).
  { unfold length_along. destruct Hb, (bool_decide _); lia. }
  destruct path as [|index path].
  - (* the divider is here *)
    cbn [place_divider]. fold (length_along axis (bcolumns bounds) (brows bounds)).
    rewrite E. cbn [mbind outcome_bind].
    destruct (bool_decide (length children ≤ b + 1)) eqn:Hbound; [exact I|].
    apply bool_decide_eq_false in Hbound. cbn [fail_if mbind outcome_bind].
    destruct (lookup_lt_is_Some_2 ext (b + 1) ltac:(lia)) as [e He].
    pose proof (sum_take_fills _ _ _ _ _ _ Hf He) as Hs.
    rewrite sum16_ok by lia. cbn [mbind outcome_bind]. rewrite add16_ok by lia. cbn [mbind outcome_bind].
    rewrite add16_ok by lia. cbn [mbind outcome_bind].
    eapply Total_bind; [exact (edited_resized axis children weights _ ext b _ Hwf Hlen Hf ltac:(lia))|].
    intros moved. cbn [Total]. by destruct (resized (Split axis children weights) moved).
  - (* the divider is in a child *)
    destruct (ext !! N.to_nat index) as [e|] eqn:He.
    2: { cbn [place_divider]. fold (length_along axis (bcolumns bounds) (brows bounds)).
         rewrite E. cbn [mbind outcome_bind]. by rewrite He. }
    destruct (lookup_lt_is_Some_2 children (N.to_nat index)) as [c Hc];
      [rewrite Hl; by eapply lookup_lt_Some|].
    destruct (Hsub _ c e Hc He) as [Hwfc Hfc].
    destruct (descend axis children weights ext index path b pos bounds c e E Hf Hlen Hb Hc He) as [-> Hb'].
    rewrite Forall_forall in IH.
    eapply Total_bind; [apply (IH c ltac:(by eapply list_elem_of_lookup_2)); [done|by destruct axis|done]|].
    intros [c' changed] [He' Hch]. simpl. split; [by eapply edited_child|].
    intros Hf'. rewrite Hch, list_insert_id by done. done.
Qed.

(** What every entry point guarantees of the layout it leaves *)
Definition resizes (size : TerminalSize.t) (l : ViewLayout) (result : ViewLayout * bool) : Prop :=
  edited l result.1 ∧ fits size result.1 ∧ (result.2 = false → result.1 = l).

Lemma resizes_intro size l l' (changed : bool) :
  fits size l → edited l l' → (changed = false → l' = l) → resizes size l (l', changed).
Proof.
  intros [Hc Hr] He Hch. split_and!; [done| |done]. destruct He as (_ & _ & [H1 H2]).
  split; simpl; lia.
Qed.

Definition size16 (size : TerminalSize.t) : Prop :=
  (TerminalSize.columns size ≤ u16_MAX ∧ TerminalSize.rows size ≤ u16_MAX)%N.

Lemma resize_divider_resizes l path b pos size :
  wf_layout l → size16 size → resize_divider path b pos size l ⇓? resizes size l.
Proof.
  intros Hwf [Hc Hr]. unfold resize_divider. destruct (bool_decide _); [done|].
  cbn [fail_if mbind outcome_bind]. pose proof (pane_geometry_spec l size Hwf Hc Hr) as Hg.
  case_decide as Hfit; [|by rewrite Hg]. destruct Hg as (panes & -> & _). cbn [mbind outcome_bind].
  eapply Total_mono; [apply place_divider_edits; [done| |]|].
  - destruct Hfit. by split.
  - split; simpl; lia.
  - intros [l' changed] [He Hch]. by apply resizes_intro.
Qed.

(** ** resize_pane *)

Lemma position_lookup {A} (p : A → bool) l i : position p l = Some i → ∃ x, l !! i = Some x ∧ p x = true.
Proof.
  revert i. induction l as [|x l IH]; intros i; simpl; [done|].
  destruct (p x) eqn:Hp; [intros [= <-]; eauto|].
  destruct (position p l) as [j|]; [|done]. intros [= <-]. by apply IH.
Qed.

Lemma move_divider_edits l id direction amount columns rows :
  wf_layout l → fits_in columns rows l →
  move_divider id direction amount l columns rows ⇓? λ moved,
    ∀ l' changed, moved = Some (l', changed) → edited l l' ∧ (changed = false → l' = l).
Proof.
  revert columns rows. induction l as [tid|axis children weights IH] using ViewLayout_ind;
    intros columns rows Hwf Hfit; [done|].
  destruct (split_fits _ _ _ _ _ Hwf Hfit) as (ext & E & Hf & Hlen & Hsub).
  assert (Hl : length children = length ext) by (destruct Hf; by eapply Forall2_length).
  cbn [move_divider]. fold (length_along axis columns rows).
  destruct (position _ children) as [selected|] eqn:Hsel; [|done].
  apply position_lookup in Hsel as (c & Hc & _). cbn [ok_or mbind outcome_bind].
  rewrite E. cbn [mbind outcome_bind].
  pose proof (lookup_lt_Some _ _ _ Hc) as Hlt. rewrite Hl in Hlt.
  destruct (lookup_lt_is_Some_2 ext selected Hlt) as [e He]. rewrite He.
  cbn [expect mbind outcome_bind]. rewrite list_lookup_fmap, Hc. cbn [fmap option_fmap option_map expect].
  cbn [mbind outcome_bind]. destruct (Hsub _ _ _ Hc He) as [Hwfc Hfc].
  rewrite Forall_forall in IH. specialize (IH c ltac:(by eapply list_elem_of_lookup_2)).
  eapply Total_bind with (P := λ moved, ∀ c' changed, moved = Some (c', changed) →
    edited c c' ∧ (changed = false → c' = c)).
  { destruct (bool_decide _); by apply IH. }
  intros [[c' changed]|] Hm.
  - destruct (Hm c' changed eq_refl) as [Hed Hch]. simpl. intros l' ch [= <- <-].
    split; [by eapply edited_child|]. intros Hf'. by rewrite Hch, list_insert_id.
  - destruct (negb _ || bool_decide (length children < 2)) eqn:Hstop; [done|].
    apply orb_false_iff in Hstop as [_ Hn]. apply bool_decide_eq_false in Hn.
    eapply Total_bind;
      [exact (edited_resized axis children weights _ ext (selected `min` (length children - 2)) _
                Hwf Hlen Hf ltac:(lia))|].
    intros moved. cbn [Total]. destruct (resized _ moved) as [l'' ch'].
    intros Hres l' ch [= -> ->]. done.
Qed.

Lemma resize_pane_resizes l id direction amount size :
  wf_layout l → size16 size → resize_pane id direction amount size l ⇓? resizes size l.
Proof.
  intros Hwf [Hc Hr]. unfold resize_pane. destruct (bool_decide _); [done|].
  cbn [fail_if mbind outcome_bind]. destruct (negb _); [done|]. cbn [fail_if mbind outcome_bind].
  pose proof (pane_geometry_spec l size Hwf Hc Hr) as Hg.
  case_decide as Hfit; [|by rewrite Hg]. destruct Hg as (panes & -> & _). cbn [mbind outcome_bind].
  eapply Total_bind; [apply move_divider_edits; [done|destruct Hfit; by split]|].
  intros [[l' changed]|] Hm; simpl.
  - destruct (Hm l' changed eq_refl). by apply resizes_intro.
  - apply resizes_intro; [done|by apply edited_refl|done].
Qed.

(** * Where a divider is *)

(** The cell of a divider, and how far its neighbours' minima let it move: the
    specification the two operations are held against *)
Record divider := Divider { cell : Z; lowest : Z; highest : Z }.

Definition boundary_of (axis : SplitAxis) (children : list ViewLayout) (start : N) (ext : list N)
    (b : nat) : divider :=
  let at_cell := (Z.of_N (start + sum (take (b + 1) ext)) + Z.of_nat b)%Z in
  Divider at_cell (at_cell + slack_left axis children ext b) (at_cell + slack_right axis children ext b).

Fixpoint divider_at (path : list N) (b : nat) (start : N * N) (columns rows : N) (l : ViewLayout) :
    option divider :=
  match l with
  | Terminal _ => None
  | Split axis children weights =>
      match split_extents axis children weights (length_along axis columns rows) with
      | Ok ext =>
          match path with
          | [] =>
              if decide (b + 1 < length children)
              then Some (boundary_of axis children (along axis start) ext b) else None
          | index :: path =>
              let i := N.to_nat index in
              child ← children !! i;
              extent ← ext !! i;
              let before := (sum (take i ext) + index)%N in
              match axis with
              | Horizontal => divider_at path b (start.1 + before, start.2)%N extent rows child
              | Vertical => divider_at path b (start.1, start.2 + before)%N columns extent child
              end
          end
      | _ => None
      end
  end.

(** The split a path leads to has weights of its own. *)
Fixpoint weighted_at (path : list N) (l : ViewLayout) : bool :=
  match l, path with
  | Split _ children _, index :: path =>
      match children !! N.to_nat index with Some child => weighted_at path child | None => false end
  | Split _ _ weights, [] => negb (bool_decide (weights = []))
  | Terminal _, _ => false
  end.

Lemma at_shifted ext b d :
  b + 1 < length ext → (- Z.of_N (at_ ext b) ≤ d ≤ Z.of_N (at_ ext (b + 1)))%Z →
  Z.of_N (at_ (shifted ext b d) b) = (Z.of_N (at_ ext b) + d)%Z ∧
  Z.of_N (at_ (shifted ext b d) (b + 1)) = (Z.of_N (at_ ext (b + 1)) - d)%Z ∧
  Z.of_N (sum (take (b + 1) (shifted ext b d))) = (Z.of_N (sum (take (b + 1) ext)) + d)%Z.
Proof.
  intros Hb Hd. unfold shifted. split_and!.
  - unfold at_ at 1. rewrite list_lookup_insert_ne, list_lookup_insert_eq by lia. simpl. lia.
  - unfold at_ at 1. rewrite list_lookup_insert_eq by (rewrite length_insert; lia). simpl. lia.
  - rewrite take_insert_ge by lia. rewrite (take_insert_lt ext (b + 1) b) by lia.
    pose proof (sum_insert (take (b + 1) ext) b (at_ ext b) (Z.to_N (Z.of_N (at_ ext b) + d))) as Hs.
    rewrite lookup_take_lt in Hs by lia. specialize (Hs (at_Some ext b ltac:(lia))). lia.
Qed.

(** The extents depend on the children's number and minima only. *)
Lemma split_extents_children axis children children' weights len :
  minimum_size <$> children = minimum_size <$> children' →
  split_extents axis children weights len = split_extents axis children' weights len.
Proof.
  intros E. assert (Hl : length children = length children').
  { by rewrite <- (length_fmap minimum_size), E, length_fmap. }
  unfold split_extents. rewrite Hl.
  assert (∀ cs, (λ child, along axis (minimum_size child)) <$> cs = along axis <$> (minimum_size <$> cs)) as Hm
    by (intros; by rewrite <- list_fmap_compose).
  by rewrite !Hm, E.
Qed.

Lemma split_minimum_weights axis w w' sizes :
  w ≠ [] → w' ≠ [] → split_minimum axis w sizes = split_minimum axis w' sizes.
Proof. intros H H'. unfold split_minimum. by rewrite !bool_decide_eq_false_2. Qed.

(** The divider [d] moves to [t]. *)
Definition moved_to (d : divider) (t : Z) : divider := Divider t (lowest d) (highest d).
Definition target (d : divider) (pos : N) : Z := clampZ (Z.of_N pos) (lowest d) (highest d).

Definition starts (axis : SplitAxis) (bounds : LayoutBounds) : N :=
  along axis (bleft bounds, btop bounds).

Lemma boundary_of_shifted axis children start ext b d :
  b + 1 < length ext →
  (slack_left axis children ext b ≤ d ≤ slack_right axis children ext b)%Z →
  boundary_of axis children start (shifted ext b d) b =
    moved_to (boundary_of axis children start ext b) (cell (boundary_of axis children start ext b) + d).
Proof.
  intros Hb Hd.
  assert (Hrange : (- Z.of_N (at_ ext b) ≤ d ≤ Z.of_N (at_ ext (b + 1)))%Z)
    by (unfold slack_left, slack_right in Hd; lia).
  destruct (at_shifted ext b d Hb Hrange) as (A1 & A2 & A3).
  unfold boundary_of, moved_to, slack_left, slack_right. cbn [cell lowest highest].
  rewrite A1, A2. f_equal; lia.
Qed.

(** The move of [move_boundary], against the boundary's cell *)
Lemma move_boundary_target axis children len ext b start (pos : N) :
  fills axis children len ext → (len ≤ u16_MAX)%N → b + 1 < length children →
  let d := boundary_of axis children start ext b in
  (lowest d ≤ cell d ≤ highest d)%Z ∧
  move_boundary axis children ext b (Z.of_N pos - cell d) =
    Ok (if decide (target d pos = cell d) then None else Some (shifted ext b (target d pos - cell d))) ∧
  (slack_left axis children ext b ≤ target d pos - cell d ≤ slack_right axis children ext b)%Z.
Proof.
  intros Hf Hlen Hb d.
  destruct (move_boundary_spec axis children len ext b (Z.of_N pos - cell d) Hf Hlen Hb) as [Hs E].
  cbn zeta in E.
  assert (Ht : clampZ (Z.of_N pos - cell d) (slack_left axis children ext b) (slack_right axis children ext b)
    = (target d pos - cell d)%Z)
    by (unfold d, target, boundary_of, clampZ; cbn [cell lowest highest]; repeat case_decide; lia).
  rewrite Ht in E. split_and!.
  - unfold d, boundary_of. cbn [cell lowest highest]. lia.
  - unfold d, boundary_of. cbn [cell lowest highest]. lia.
  - rewrite E. f_equal. repeat case_decide; try lia; done.
  - rewrite <- Ht. apply clampZ_within. lia.
  - rewrite <- Ht. apply clampZ_within. lia.
Qed.

(** At the split itself *)
Lemma place_divider_here axis children weights b pos bounds :
  let l := Split axis children weights in
  let where_ := divider_at [] b (bleft bounds, btop bounds) (bcolumns bounds) (brows bounds) in
  wf_layout l → fits_in (bcolumns bounds) (brows bounds) l → within16 bounds →
  match where_ l with
  | Some d =>
      ∃ l', place_divider [] b pos bounds l = Ok (l', bool_decide (target d pos ≠ cell d)) ∧
        where_ l' = Some (moved_to d (target d pos)) ∧ (lowest d ≤ cell d ≤ highest d)%Z ∧
        (weights ≠ [] → minimum_size l' = minimum_size l)
  | None => ∃ e, place_divider [] b pos bounds l = Err e
  end.
Proof.
  intros l where_ Hwf Hfit Hb. subst l where_.
  destruct (split_fits _ _ _ _ _ Hwf Hfit) as (ext & E & Hf & Hlen & _).
  assert (Hl : length children = length ext) by (destruct Hf; by eapply Forall2_length).
  cbn [divider_at place_divider].
  fold (length_along axis (bcolumns bounds) (brows bounds)). set (len := length_along _ _ _) in *.
  rewrite E. cbn [mbind outcome_bind]. destruct (decide (b + 1 < length children)) as [Hbound|Hbound].
  2: { rewrite (bool_decide_eq_true_2 (length children ≤ b + 1)) by lia. by eexists. }
  rewrite (bool_decide_eq_false_2 (length children ≤ b + 1)) by lia. cbn [fail_if mbind outcome_bind].
  destruct (lookup_lt_is_Some_2 ext (b + 1) ltac:(lia)) as [e He].
  pose proof (sum_take_fills _ _ _ _ _ _ Hf He) as Hs.
  assert (Hst : (starts axis bounds + len ≤ u16_MAX)%N)
    by (unfold starts, len, length_along; destruct Hb, axis; simpl; lia).
  assert ((if bool_decide (axis = Horizontal) then bleft bounds else btop bounds) = starts axis bounds)
    as -> by by destruct axis.
  fold (starts axis bounds).
  rewrite sum16_ok by lia. cbn [mbind outcome_bind]. rewrite add16_ok by lia. cbn [mbind outcome_bind].
  rewrite add16_ok by lia. cbn [mbind outcome_bind].
  destruct (move_boundary_target axis children len ext b (starts axis bounds) pos Hf Hlen Hbound)
    as (Hcell & Em & Hslack).
  set (d := boundary_of axis children (starts axis bounds) ext b) in *.
  assert (Z.of_N (starts axis bounds + sum (take (b + 1) ext) + N.of_nat b) = cell d) as ->
    by (unfold d, boundary_of; cbn [cell]; lia).
  rewrite Em. cbn [mbind outcome_bind]. destruct (decide (target d pos = cell d)) as [Ht|Ht].
  - exists (Split axis children weights).
    split; [by rewrite (bool_decide_eq_false_2 (target d pos ≠ cell d)) by auto|].
    split_and!; [|lia|lia|done]. cbn iota. fold len (starts axis bounds). rewrite E, decide_True, Ht by done.
    fold d. clearbody d. by destruct d.
  - pose proof Hwf as (Hne & _ & _ & Hcs)%wf_split_inv.
    destruct (split_extents_own axis children (shifted ext b (target d pos - cell d)) len Hne Hcs Hlen)
      as [Eown _]; [by apply fills_shifted|].
    exists (Split axis children (shifted ext b (target d pos - cell d))).
    split; [by rewrite (bool_decide_eq_true_2 (target d pos ≠ cell d)) by done|]. split_and!; [|lia|lia|].
    + cbn iota. fold len (starts axis bounds). rewrite Eown, decide_True, boundary_of_shifted by (done || lia). fold d. do 2 f_equal. lia.
    + intros Hw. cbn [minimum_size]. apply split_minimum_weights; [|done].
      intros Hnil%(f_equal length). unfold shifted in Hnil. rewrite !length_insert in Hnil.
      simpl in Hnil. lia.
Qed.

Lemma divider_at_descend axis children weights ext index path b bounds c e :
  split_extents axis children weights (length_along axis (bcolumns bounds) (brows bounds)) = Ok ext →
  children !! N.to_nat index = Some c → ext !! N.to_nat index = Some e →
  let bounds' := child_bounds axis bounds (sum (take (N.to_nat index) ext) + index) e in
  divider_at (index :: path) b (bleft bounds, btop bounds) (bcolumns bounds) (brows bounds)
      (Split axis children weights) =
    divider_at path b (bleft bounds', btop bounds') (bcolumns bounds') (brows bounds') c.
Proof. intros E Hc He. cbn [divider_at]. rewrite E, Hc. simpl. rewrite He. by destruct axis. Qed.

(** Along a path: the splits above keep their extents, because a split with weights of
    its own keeps its minimum. *)
Lemma place_divider_exact l path b pos bounds :
  let where_ := divider_at path b (bleft bounds, btop bounds) (bcolumns bounds) (brows bounds) in
  wf_layout l → fits_in (bcolumns bounds) (brows bounds) l → within16 bounds →
  path = [] ∨ weighted_at path l = true →
  match where_ l with
  | Some d =>
      ∃ l', place_divider path b pos bounds l = Ok (l', bool_decide (target d pos ≠ cell d)) ∧
        where_ l' = Some (moved_to d (target d pos)) ∧ (lowest d ≤ cell d ≤ highest d)%Z ∧
        (weighted_at path l = true → minimum_size l' = minimum_size l)
  | None => ∃ e, place_divider path b pos bounds l = Err e
  end.
Proof.
  intros where_. subst where_. revert path bounds.
  induction l as [id|axis children weights IH] using ViewLayout_ind;
    intros path bounds Hwf Hfit Hb Hw; [destruct path; by eexists|].
  destruct path as [|index path].
  { pose proof (place_divider_here axis children weights b pos bounds Hwf Hfit Hb) as Hhere.
    cbn zeta in Hhere. destruct (divider_at [] b _ _ _ _) as [d|]; [|done].
    destruct Hhere as (l' & H1 & H2 & H3 & H4). exists l'. split_and!; [done|done|lia|lia|].
    intros Hne. apply H4. cbn [weighted_at] in Hne. by rewrite negb_true_iff, bool_decide_eq_false in Hne. }
  destruct Hw as [|Hw]; [done|]. cbn [weighted_at] in Hw.
  destruct (children !! N.to_nat index) as [c|] eqn:Hc; [|done].
  destruct (split_fits _ _ _ _ _ Hwf Hfit) as (ext & E & Hf & Hlen & Hsub).
  assert (Hl : length children = length ext) by (destruct Hf; by eapply Forall2_length).
  destruct (lookup_lt_is_Some_2 ext (N.to_nat index)) as [e He];
    [rewrite <- Hl; by eapply lookup_lt_Some|].
  destruct (Hsub _ c e Hc He) as [Hwfc Hfc].
  destruct (descend axis children weights ext index path b pos bounds c e E Hf Hlen Hb Hc He) as [-> Hb'].
  pose proof (divider_at_descend axis children weights ext index path b bounds c e E Hc He) as Hat.
  cbn zeta in Hat. rewrite Hat. set (bounds' := child_bounds _ _ _ _) in *. rewrite Forall_forall in IH.
  specialize (IH c ltac:(by eapply list_elem_of_lookup_2) path bounds' Hwfc ltac:(by destruct axis)
    Hb' (or_intror Hw)).
  destruct (divider_at path b (bleft bounds', btop bounds') (bcolumns bounds') (brows bounds') c) as [d|].
  2: { destruct IH as [err ->]. by eexists. }
  destruct IH as (c' & -> & Hat' & Hle & Hmin). cbn [mbind outcome_bind].
  exists (Split axis (<[N.to_nat index := c']> children) weights).
  assert (Hsame : minimum_size <$> <[N.to_nat index := c']> children = minimum_size <$> children).
  { rewrite list_fmap_insert, (Hmin Hw). apply list_insert_id. by rewrite list_lookup_fmap, Hc. }
  split_and!; [done| |lia|lia|intros _; cbn [minimum_size]; by rewrite Hsame].
  rewrite (divider_at_descend axis _ weights ext index path b bounds c' e); [done| |
    by apply list_lookup_insert_eq; eapply lookup_lt_Some|done].
  by rewrite (split_extents_children _ _ children).
Qed.
