(* ===== verification/TopologyInv.v ===== *)
(** What the daemon's layout operations preserve (ctmux/daemon/src/session/topology.rs):
    the terminals of the view, well-formedness, and that the canvas stays large enough. *)

From S2P Require Import Prelude.
From S2P Require Import Layout.
From S2P Require Import Topology.
From S2P Require Import LayoutInv.
From S2P Require Import Dividers.
From stdpp Require Import strings.

Import Layout LayoutExt.

(** * Removing a terminal *)

(** What removing leaves of a layout *)
Definition removes (id : string) (l : ViewLayout) (r : option ViewLayout) : Prop :=
  match r with
  | None => filter (λ t, t ≠ id) (terminal_ids l) = []
  | Some l' => wf_layout l' ∧ terminal_ids l' = filter (λ t, t ≠ id) (terminal_ids l) ∧
               le2 (minimum_size l') (minimum_size l)
  end.

Lemma filter_mjoin {A} (P : A → Prop) `{∀ x, Decision (P x)} (ls : list (list A)) :
  filter P (mjoin ls) = mjoin (filter P <$> ls).
Proof. induction ls as [|l ls IH]; [done|]. csimpl. by rewrite filter_app, IH. Qed.

Lemma fmap_mjoin {A B} (f : A → B) (ls : list (list A)) : f <$> mjoin ls = mjoin (fmap f <$> ls).
Proof. induction ls as [|l ls IH]; [done|]. csimpl. by rewrite fmap_app, IH. Qed.

Lemma keep_children_spec id weights index children :
  (weights = [] ∨ index + length children ≤ length weights) →
  Forall (λ w, 0 < w ≤ u32_MAX)%N weights →
  Forall (λ c, ∃ r, remove_terminal id c = Ok r ∧ removes id c r) children →
  ∃ kept kept_weights,
    keep_children weights index (remove_terminal id <$> children) = Ok (kept, kept_weights) ∧
    Forall wf_layout kept ∧ length kept ≤ length children ∧
    mjoin (terminal_ids <$> kept) = filter (λ t, t ≠ id) (mjoin (terminal_ids <$> children)) ∧
    shrinks (minimum_size <$> kept) (minimum_size <$> children) ∧
    (weights = [] ∧ kept_weights = [] ∨
     weights ≠ [] ∧ length kept_weights = length kept ∧ Forall (λ w, 0 < w ≤ u32_MAX)%N kept_weights).
Proof.
  intros Hw Hpos Hcs. revert index Hw. induction Hcs as [|c cs (r & Er & Hr) Hcs IH]; intros index Hw.
  { exists [], []. split_and!; try done. destruct (decide (weights = [])); [by left|by right]. }
  destruct (IH (S index)) as (kept & ws & E & Hwf & Hlen & Hids & Hsh & Hkw);
    [destruct Hw; [by left|right; simpl in *; lia]|].
  csimpl. rewrite Er. cbn [mbind outcome_bind]. destruct r as [c'|]; simpl in Hr.
  - destruct Hr as (Hwf' & Hids' & Hle).
    destruct (decide (weights = [])) as [Hnil|Hne]; cbn [mbind outcome_bind].
    + change (map ?f ?l) with (f <$> l). rewrite E. cbn [mbind outcome_bind].
      exists (c' :: kept), ([] ++ ws). split_and!; [done|by constructor|simpl; lia| |by constructor|].
      * csimpl. by rewrite filter_app, Hids', Hids.
      * left. destruct Hkw as [[_ ->]|[? _]]; done.
    + destruct Hw as [|Hw]; [done|]. simpl in Hw.
      destruct (lookup_lt_is_Some_2 weights index ltac:(lia)) as [w Hwi]. rewrite Hwi.
      cbn [expect mbind outcome_bind]. rewrite E. cbn [mbind outcome_bind].
      exists (c' :: kept), ([w] ++ ws). split_and!; [done|by constructor|simpl; lia| |by constructor|].
      * csimpl. by rewrite filter_app, Hids', Hids.
      * right. destruct Hkw as [[? _]|(_ & Hl & Hp)]; [done|]. split_and!; [done|simpl; lia|].
        constructor; [|done]. exact (Forall_lookup_1 _ _ _ _ Hpos Hwi).
  - rewrite E. exists kept, ws. split_and!; [done|done|simpl; lia| |by constructor|done].
    csimpl. by rewrite filter_app, Hr, Hids.
Qed.

Lemma remove_terminal_spec id l :
  wf_layout l → ∃ r, remove_terminal id l = Ok r ∧ removes id l r.
Proof.
  induction l as [tid|axis children weights IH] using ViewLayout_ind; intros Hwf.
  { simpl. eexists. split; [done|]. case_decide as Hid; simpl; rewrite filter_cons, filter_nil.
    - rewrite decide_False by (intros ?; done). done.
    - rewrite decide_True by done. done. }
  pose proof Hwf as (Hne & Hn & Hw & Hcs)%wf_split_inv.
  destruct (keep_children_spec id weights 0 children) as (kept & ws & E & Hk & Hlen & Hids & Hsh & Hkw).
  - destruct Hw as [->|(_ & Hl & _)]; [by left|right; lia].
  - destruct Hw as [->|(_ & _ & Hp)]; [constructor|done].
  - rewrite Forall_forall in *. intros c Hc. by apply IH, Hcs.
  - cbn [remove_terminal]. rewrite E. cbn [mbind outcome_bind]. eexists. split; [done|].
    destruct kept as [|c1 [|c2 kept]]; simpl.
    + by rewrite <- Hids.
    + apply Forall_cons in Hk as [Hwf1 _]. split_and!; [done| |].
      * rewrite <- Hids. simpl. by rewrite app_nil_r.
      * etrans; [|apply (split_minimum_shrinks axis weights weights _ _ Hsh); done].
        apply (split_minimum_child axis weights [c1]). left.
    + split_and!; [| |].
      * apply wf_split_intro; simpl in *; [lia|lia| |done].
        destruct Hkw as [[_ ->]|(_ & Hl & Hp)]; [by left|right].
        split_and!; [by intros ->|done|done].
      * by rewrite <- Hids.
      * apply (split_minimum_shrinks axis ws weights _ _ Hsh).
        destruct Hkw as [[-> ->]|(? & Hl & _)]; [done|]. split; [intros ->; simpl in Hl; lia|done].
Qed.

(** * Splitting a terminal *)

Definition split_ids (id new_id : string) (ids : list string) : list string :=
  mjoin ((λ t, if decide (t = id) then [t; new_id] else [t]) <$> ids).

Lemma mjoin_mjoin_fmap {A B} (f : A → list B) (ls : list (list A)) :
  mjoin (f <$> mjoin ls) = mjoin ((λ l, mjoin (f <$> l)) <$> ls).
Proof.
  induction ls as [|l ls IH]; [done|]. csimpl. by rewrite fmap_app, join_app, IH.
Qed.

Lemma split_terminal_ids id new_id axis l :
  terminal_ids (split_terminal id new_id axis l) = split_ids id new_id (terminal_ids l).
Proof.
  unfold split_ids. induction l as [tid|ax children weights IH] using ViewLayout_ind.
  { simpl. by case_decide. }
  cbn [split_terminal terminal_ids]. rewrite mjoin_mjoin_fmap, <- !list_fmap_compose.
  f_equal. apply list_fmap_ext. intros i c Hc. simpl. rewrite Forall_lookup in IH. by apply (IH i).
Qed.

Lemma split_terminal_wf id new_id axis l :
  wf_layout l → wf_layout (split_terminal id new_id axis l).
Proof.
  induction l as [tid|ax children weights IH] using ViewLayout_ind; intros Hwf; simpl.
  - case_decide; [|done]. constructor; [done|done|by left|by repeat constructor].
  - pose proof Hwf as (Hne & Hn & Hw & Hcs)%wf_split_inv.
    apply wf_split_intro; rewrite ?length_fmap; try done.
    apply Forall_fmap. rewrite Forall_forall in *. intros c Hc. simpl. by apply IH, Hcs.
Qed.

(** * Swapping two terminals *)

Definition swap_id (left right id : string) : string :=
  if decide (id = left) then right else if decide (id = right) then left else id.

Lemma swap_id_involutive left right id : swap_id left right (swap_id left right id) = id.
Proof. unfold swap_id. repeat case_decide; congruence. Qed.

Section swap.
Context (left right : string).

Lemma swap_ids l : terminal_ids (swap_terminal_ids left right l) = swap_id left right <$> terminal_ids l.
Proof.
  induction l as [tid|axis children weights IH] using ViewLayout_ind.
  { simpl. unfold swap_id. by repeat case_decide. }
  cbn [swap_terminal_ids terminal_ids]. rewrite fmap_mjoin, <- !list_fmap_compose. f_equal.
  apply list_fmap_ext. intros i c Hc. rewrite Forall_lookup in IH. by apply (IH i).
Qed.

Lemma swap_minimum l : minimum_size (swap_terminal_ids left right l) = minimum_size l.
Proof.
  induction l as [tid|axis children weights IH] using ViewLayout_ind.
  { simpl. by repeat case_decide. }
  cbn [swap_terminal_ids minimum_size]. f_equal. rewrite <- list_fmap_compose.
  apply list_fmap_ext. intros i c Hc. rewrite Forall_lookup in IH. by apply (IH i).
Qed.

Lemma swap_wf l : wf_layout l → wf_layout (swap_terminal_ids left right l).
Proof.
  induction l as [tid|axis children weights IH] using ViewLayout_ind; intros Hwf.
  { simpl. repeat case_decide; constructor. }
  pose proof Hwf as (Hne & Hn & Hw & Hcs)%wf_split_inv. cbn [swap_terminal_ids].
  apply wf_split_intro; rewrite ?length_fmap; try done.
  apply Forall_fmap. rewrite Forall_forall in *. intros c Hc. simpl. by apply IH, Hcs.
Qed.

Lemma swap_swap l : swap_terminal_ids left right (swap_terminal_ids left right l) = l.
Proof.
  induction l as [tid|axis children weights IH] using ViewLayout_ind.
  { simpl. repeat (case_decide; simplify_eq/=); congruence. }
  cbn [swap_terminal_ids]. f_equal. rewrite <- list_fmap_compose.
  transitivity (id <$> children); [|by rewrite list_fmap_id]. apply list_fmap_ext. intros i c Hc. rewrite Forall_lookup in IH. by apply (IH i).
Qed.

(** The pane of a swapped terminal *)
Definition swap_pane (p : PaneGeometry.t) : PaneGeometry.t :=
  PaneGeometry.Mk (swap_id left right (PaneGeometry.terminal_id p)) (PaneGeometry.left p)
    (PaneGeometry.top p) (PaneGeometry.columns p) (PaneGeometry.rows p).

Definition swap_panes (panes : res (list PaneGeometry.t)) : res (list PaneGeometry.t) :=
  panes ← panes; Ok (map swap_pane panes).

Lemma place_children_swap horizontal children extents l t c r offset :
  Forall (λ child, ∀ l t c r, place (swap_terminal_ids left right child) l t c r =
    swap_panes (place child l t c r)) children →
  place_children horizontal (place <$> (swap_terminal_ids left right <$> children)) extents l t c r offset =
    swap_panes (place_children horizontal (place <$> children) extents l t c r offset).
Proof.
  intros Hcs. revert extents offset. induction Hcs as [|child children Hc Hcs IH]; intros [|e extents] offset;
    try done. csimpl.
  assert (Hfirst : (if horizontal
     then left0 ← add16 l offset; place (swap_terminal_ids left right child) left0 t e r
     else top ← add16 t offset; place (swap_terminal_ids left right child) l top c e) =
    swap_panes (if horizontal then left0 ← add16 l offset; place child left0 t e r
     else top ← add16 t offset; place child l top c e)).
  { destruct horizontal; [destruct (add16 l offset)|destruct (add16 t offset)]; try done; apply Hc. }
  rewrite Hfirst. clear Hfirst. unfold swap_panes.
  destruct (if horizontal then _ else _) as [ps| |]; cbn [mbind outcome_bind]; try reflexivity.
  destruct (add16 offset e) as [o| |]; cbn [mbind outcome_bind]; try reflexivity.
  assert (Hnil : (if decide (place <$> (swap_terminal_ids left right <$> children) = []) then Ok o else add16 o 1) =
    (if decide (place <$> children = []) then Ok o else add16 o 1 : res N)) by by destruct children.
  rewrite Hnil. clear Hnil. destruct (if decide _ then _ else _) as [o'| |]; cbn [mbind outcome_bind]; try reflexivity.
  rewrite IH. unfold swap_panes.
  destruct (place_children _ _ _ _ _ _ _ _); cbn [mbind outcome_bind]; try reflexivity.
  by rewrite map_app.
Qed.

Lemma place_swap child l t c r :
  place (swap_terminal_ids left right child) l t c r = swap_panes (place child l t c r).
Proof.
  revert l t c r. induction child as [tid|axis children weights IH] using ViewLayout_ind; intros l t c r.
  { simpl. unfold swap_panes, swap_pane, swap_id. by repeat case_decide. }
  cbn [swap_terminal_ids place].
  rewrite (split_extents_children axis (swap_terminal_ids left right <$> children) children).
  - destruct (split_extents _ _ _ _) as [ext| |]; cbn [mbind outcome_bind]; try reflexivity.
    by apply place_children_swap.
  - rewrite <- list_fmap_compose. apply list_fmap_ext. intros i x _. apply swap_minimum.
Qed.

(** Swapping exchanges the two panes and moves no other. *)
Lemma pane_geometry_swap l size :
  pane_geometry (swap_terminal_ids left right l) size = swap_panes (pane_geometry l size).
Proof.
  unfold pane_geometry, swap_panes. rewrite swap_minimum. destruct (fail_if _ _); [apply place_swap|done|done].
Qed.
End swap.

(** * The limits on a layout *)

Fixpoint nesting (l : ViewLayout) : nat :=
  match l with
  | Terminal _ => 0
  | Split _ children _ => S (max_list (nesting <$> children))
  end.

(** Groups of two to sixty-four, with no weights or a positive one per child *)
Unset Elimination Schemes.
Inductive grouped : ViewLayout → Prop :=
  | grouped_terminal id : grouped (Terminal id)
  | grouped_split axis children weights :
      2 ≤ length children ≤ 64 →
      (weights = [] ∨ length weights = length children ∧ 0%N ∉ weights) →
      Forall grouped children → grouped (Split axis children weights).
Set Elimination Schemes.

Lemma all_ok_Ok (l : list (res ())) : all_ok l = Ok () ↔ Forall (λ r, r = Ok ()) l.
Proof.
  induction l as [|r l IH]; simpl; [done|]. rewrite Forall_cons, <- IH.
  destruct r as [[]| |]; simpl; naive_solver.
Qed.

Lemma max_list_le l n : max_list l ≤ n ↔ Forall (λ x, x ≤ n) l.
Proof. induction l as [|x l IH]; simpl; [split; [done|lia]|]. rewrite Forall_cons, <- IH. lia. Qed.

Lemma weights_ok_spec (weights : list N) n :
  negb (bool_decide (weights = [])) &&
    (negb (bool_decide (length weights = n)) || bool_decide (0%N ∈ weights)) = false ↔
  weights = [] ∨ length weights = n ∧ 0%N ∉ weights.
Proof.
  rewrite andb_false_iff, negb_false_iff, orb_false_iff, negb_false_iff, !bool_decide_eq_true,
    bool_decide_eq_false. tauto.
Qed.

Lemma validate_layout_spec l depth :
  validate_layout l depth = Ok () ↔
  (depth = 0 → length (terminal_ids l) ≤ 64) ∧ depth + nesting l ≤ 16 ∧ grouped l.
Proof.
  revert depth. induction l as [id|axis children weights IH] using ViewLayout_ind; intros depth.
  - cbn [validate_layout nesting]. simpl (length _).
    rewrite (andb_comm (bool_decide (depth = 0))), (bool_decide_eq_false_2 (64 < 1)) by lia.
    simpl. rewrite bind_Ok. setoid_rewrite fail_if_Ok. setoid_rewrite bool_decide_eq_false.
    split; [|intros (_ & ? & _); exists (); split; [lia|done]].
    intros (_ & ? & _). split_and!; [lia|lia|constructor].
  - cbn [validate_layout nesting]. set (ids := terminal_ids _).
    rewrite bind_Ok. setoid_rewrite bind_Ok. setoid_rewrite bind_Ok. setoid_rewrite bind_Ok.
    setoid_rewrite fail_if_Ok. setoid_rewrite weights_ok_spec. setoid_rewrite all_ok_Ok.
    setoid_rewrite orb_false_iff. setoid_rewrite andb_false_iff. setoid_rewrite bool_decide_eq_false.
    setoid_rewrite Forall_fmap.
    assert (Hcs : 0 < length children → Forall ((λ r, r = Ok ()) ∘ (λ c, validate_layout c (S depth))) children ↔
      S depth + max_list (nesting <$> children) ≤ 16 ∧ Forall grouped children).
    { intros Hne. assert (S depth + max_list (nesting <$> children) ≤ 16 ↔
        Forall (λ c, S depth + nesting c ≤ 16) children) as ->.
      { destruct children as [|c0 cs0]; [simpl in Hne; lia|]. set (cs := c0 :: cs0).
        transitivity (max_list (nesting <$> cs) ≤ 16 - S depth ∧ S depth ≤ 16); [lia|].
        rewrite max_list_le, Forall_fmap. split.
        - intros [Hf Hd]. eapply Forall_impl; [exact Hf|]. simpl. lia.
        - intros Hf. pose proof (Forall_inv Hf) as Hd; cbn beta in Hd. split; [|lia]. eapply Forall_impl; [exact Hf|]. simpl. lia. }
      rewrite <- Forall_and. rewrite !Forall_forall. rewrite Forall_forall in IH.
      split; intros Hc c Hin; specialize (Hc c Hin); specialize (IH c Hin (S depth)); simpl in *;
        rewrite IH in *; [tauto|]. destruct Hc. split_and!; [lia|done|done]. }
    split.
    + intros (_ & H1 & _ & H2 & _ & H3 & _ & H4 & H5). rewrite Hcs in H5 by lia.
      split_and!; [lia|lia|]. constructor; [lia|done|tauto].
    + intros (H1 & H2 & H3). inversion H3; subst.
      exists (). split; [destruct (decide (depth = 0)); [right; lia|by left]|].
      exists (). split; [lia|]. exists (). split; [lia|]. exists (). split; [done|].
      apply Hcs; [lia|]. split; [lia|done].
Qed.

Lemma fail_if_total b e : (fail_if b e : res ()) ⇓? λ _, b = false.
Proof. by destruct b. Qed.

Lemma all_ok_total (l : list (res ())) : Forall (λ r, r ⇓? λ _, True) l → all_ok l ⇓? λ _, True.
Proof. induction 1; [done|]. cbn [all_ok]. by eapply Total_bind. Qed.

(** Validation does not panic. *)
Lemma validate_layout_total l depth :
  validate_layout l depth ⇓? λ _, (depth = 0 → length (terminal_ids l) ≤ 64) ∧ depth + nesting l ≤ 16 ∧ grouped l.
Proof.
  assert (Hsafe : validate_layout l depth ⇓? λ _, True).
  { revert depth. induction l as [id|axis children weights IH] using ViewLayout_ind; intros depth;
      cbn [validate_layout]; repeat (eapply Total_bind; [apply fail_if_total|intros _ _]); [done|].
    apply all_ok_total, Forall_fmap. eapply Forall_impl; [exact IH|]. intros c Hc. apply Hc. }
  destruct (validate_layout l depth) as [[]|e|] eqn:E; [|done|done]. by apply validate_layout_spec.
Qed.

(** What the daemon accepts, it can lay out. *)
Fixpoint weights_u32 (l : ViewLayout) : Prop :=
  match l with
  | Terminal _ => True
  | Split _ children weights =>
      Forall (λ w, w ≤ u32_MAX)%N weights ∧ foldr and True (weights_u32 <$> children)
  end.

Lemma foldr_and {A} (P : A → Prop) (l : list A) : foldr and True (P <$> l) ↔ Forall P l.
Proof. induction l as [|x l IH]; csimpl; [done|]. by rewrite Forall_cons, IH. Qed.

Lemma grouped_wf l : grouped l → weights_u32 l → wf_layout l.
Proof.
  induction l as [id|axis children weights IH] using ViewLayout_ind; intros Hg Hu; [constructor|].
  inversion Hg as [|? ? ? Hlen Hw Hcs]; subst. destruct Hu as [Hu Hus].
  rewrite foldr_and in Hus. rewrite Forall_forall in IH, Hcs, Hus.
  apply wf_split_intro; [lia| | |].
  - assert (64 ≤ u16_MAX)%N by done. lia.
  - destruct (decide (weights = [])) as [|Hne]; [by left|right]. destruct Hw as [|[Hl Hz]]; [done|].
    split_and!; [done|done|]. rewrite Forall_forall in *. intros w Hin. specialize (Hu w Hin).
    assert (w ≠ 0%N) by by intros ->. lia.
  - apply Forall_forall. intros c Hc. by apply IH; [|apply Hcs|apply Hus].
Qed.

(** * The weights an arrangement edit keeps *)

(** The splits with weights: where they are, and what the weights are *)
Fixpoint weighted_splits (l : ViewLayout) (path : list nat) : list (list nat * SplitAxis * list N) :=
  match l with
  | Terminal _ => []
  | Split axis children weights =>
      (if decide (weights = []) then [] else [(path, axis, weights)]) ++
      mjoin (imap (λ i (f : list nat → _), f (path ++ [i])) (weighted_splits <$> children))
  end.

Lemma no_weighted_splits l path : has_weights l = false → weighted_splits l path = [].
Proof.
  revert path. induction l as [id|axis children weights IH] using ViewLayout_ind; intros path; [done|].
  cbn [has_weights weighted_splits]. rewrite orb_false_iff, negb_false_iff, bool_decide_eq_true.
  intros [-> Hcs]. rewrite decide_True by done. simpl.
  assert (Hall : ∀ c, c ∈ children → has_weights c = false).
  { intros c Hc. destruct (has_weights c) eqn:E; [|done]. rewrite <- Hcs. symmetry.
    apply existsb_exists. exists c. by rewrite <- list_elem_of_In. }
  enough (Hg : ∀ f : nat → list nat, mjoin (imap (λ i g, g (f i)) (weighted_splits <$> children)) = [])
    by apply (Hg (λ i, path ++ [i])).
  clear Hcs. induction IH as [|c cs Hc _ IHcs]; intros f; [done|]. csimpl.
  rewrite Hc by (apply Hall; left). simpl. apply (IHcs ltac:(intros; apply Hall; by right) (f ∘ S)).
Qed.

(** What an accepted edit is: the new arrangement with the old weights *)
Definition preserves (next previous : ViewLayout) (r : res ViewLayout) : Prop :=
  match r with
  | Ok result => clear_weights result = clear_weights next ∧
                 ∀ path, weighted_splits result path = weighted_splits previous path
  | Err _ => has_weights next || has_weights previous = true
  | Panic => False
  end.

Lemma preserve_children_spec children old :
  length children = length old →
  Forall (λ next, ∀ previous, preserves next previous (preserve_layout_weights next previous)) children →
  match preserve_children (preserve_layout_weights <$> children) old with
  | Ok result => clear_weights <$> result = clear_weights <$> children ∧
      ∀ f : nat → list nat, mjoin (imap (λ i g, g (f i)) (weighted_splits <$> result)) =
                            mjoin (imap (λ i g, g (f i)) (weighted_splits <$> old))
  | Err _ => existsb has_weights children || existsb has_weights old = true
  | Panic => False
  end.
Proof.
  intros Hl Hcs. revert old Hl.
  induction Hcs as [|c cs Hc Hcs IH]; intros [|o os] Hl; simplify_eq/=; [done|].
  specialize (Hc o). specialize (IH os Hl). csimpl. change (map ?f ?l) with (f <$> l) in *.
  destruct (preserve_layout_weights c o) as [r| |]; cbn [mbind outcome_bind]; simpl in Hc; [| |done].
  - destruct (preserve_children _ os) as [rs| |]; cbn [mbind outcome_bind]; [| |done].
    + destruct Hc as [Hc1 Hc2], IH as [IH1 IH2]. csimpl. split; [by rewrite Hc1, IH1|].
      intros f. rewrite Hc2. f_equal. apply (IH2 (f ∘ S)).
    + rewrite !orb_true_iff in *. tauto.
  - rewrite !orb_true_iff in *. tauto.
Qed.

Lemma preserve_layout_weights_spec next previous :
  preserves next previous (preserve_layout_weights next previous).
Proof.
  revert previous. induction next as [id|axis children weights IH] using ViewLayout_ind;
    intros previous.
  - assert (E : preserve_layout_weights (Terminal id) previous =
      if has_weights (Terminal id) || has_weights previous then ambiguous else Ok (Terminal id))
      by by destruct previous.
    rewrite E. destruct (_ || _) eqn:Hw; simpl; [done|]. split; [done|]. intros path.
    symmetry. by apply no_weighted_splits.
  - assert (Hother : preserves (Split axis children weights) previous
      (if has_weights (Split axis children weights) || has_weights previous
       then ambiguous else Ok (Split axis children weights))).
    { destruct (_ || _) eqn:Hw; simpl; [done|]. split; [done|]. intros path.
      apply orb_false_iff in Hw as [Hw1 Hw2]. rewrite (no_weighted_splits previous) by done.
      by apply (no_weighted_splits (Split axis children weights)). }
    destruct previous as [pid|old_axis old_children old_weights]; [exact Hother|].
    cbn [preserve_layout_weights]. case_decide as Hsame; [|exact Hother]. destruct Hsame as [<- Hlen].
    case_decide as Hw.
    { simpl. destruct Hw as [Hw _]. rewrite bool_decide_eq_false_2 by done. done. }
    pose proof (preserve_children_spec children old_children Hlen IH) as Hcs.
    destruct (preserve_children _ _) as [r| |]; cbn [mbind outcome_bind preserves]; [| |done].
    + destruct Hcs as [Hc1 Hc2]. split; [cbn [clear_weights]; by rewrite Hc1|].
      intros path. cbn [weighted_splits]. f_equal. apply (Hc2 (λ i, path ++ [i])).
    + cbn [has_weights]. rewrite !orb_true_iff in *. tauto.
Qed.
