(* ===== verification/Tracking.v ===== *)
(** Change reports (ctmux/avt/src/terminal/dirty_lines.rs): every row whose cells
    change is marked, so a renderer that redraws only the reported rows shows the
    screen as it is.

    The statements here are of partial correctness: that the operations run is
    TerminalInv. *)

From S2P Require Import Prelude.
From S2P Require Import Cells.
From S2P Require Import Lines.
From S2P Require Import Buffers.
From S2P Require Import Functions.
From S2P Require Import Tabs.
From S2P Require Import Terminal.
From S2P Require Import TerminalInv.
From S2P Require Import Parser.
From S2P Require Import ParserInv.
From S2P Require Import Vt.
From S2P Require Import VtInv.

(** * Slices *)

Lemma csub_inv a b n : csub a b = Some n → b ≤ a ∧ n = a - b.
Proof. unfold csub. case_decide; naive_solver. Qed.

Section slices.
Context {A : Type}.
Implicit Types (l : list A).

Lemma modify_frame i f l :
  modify i f l ↠ λ l', length l' = length l ∧ (∀ j, j ≠ i → l' !! j = l !! j) ∧
    ∃ x y, l !! i = Some x ∧ f x = Some y ∧ l' !! i = Some y.
Proof.
  unfold modify. destruct (l !! i) as [x|] eqn:Hx; simpl; [|done].
  destruct (f x) as [y|] eqn:Hy; simpl; [|done].
  split_and!; [len|by intros; rewrite list_lookup_insert_ne|].
  exists x, y. split_and!; [done..|]. apply list_lookup_insert_eq. by eapply lookup_lt_Some.
Qed.

Lemma on_range_frame s e f l :
  (∀ m, f m ↠ λ m', length m' = length m) →
  on_range s e f l ↠ λ l', length l' = length l ∧ ∀ j, j < s ∨ e ≤ j → l' !! j = l !! j.
Proof.
  intros Hf. unfold on_range. case_decide as He; [|done].
  apply (Partial_bind _ _ (λ m', length m' = e - s)).
  - eapply Partial_mono; [apply Hf|]. intros m' ->. len.
  - intros m' Hm. simpl. split; [len|]. intros j [Hj|Hj].
    + rewrite lookup_app_l by len. by rewrite lookup_take_lt.
    + rewrite !lookup_app_r by len. rewrite lookup_drop. f_equal. len.
Qed.
End slices.

(** * Buffers *)

Section buffers.
Context `{UnicodeWidth}.
Implicit Types (b : Buffer.t) (R : nat → Prop) (l : Line.t).

(** The cells on a row of the screen. *)
Definition shown b (row : nat) : option (list Cell.t) := Line.cells <$> Buffer.index b row.

(** The screen is in the buffer. *)
Definition tall b : Prop := Buffer.rows b ≤ length (Buffer.lines b).

(** [b'] shows the same cells as [b] outside the rows [R]. *)
Definition framed R b b' : Prop :=
  Buffer.rows b' = Buffer.rows b ∧ (tall b → tall b') ∧
  ∀ i, ¬ R i → shown b' i = shown b i.

Definition none : nat → Prop := λ _, False.
Definition between (s e : nat) : nat → Prop := λ i, s ≤ i < e.

Lemma framed_refl R b : framed R b b.
Proof. done. Qed.

Lemma framed_trans R b1 b2 b3 : framed R b1 b2 → framed R b2 b3 → framed R b1 b3.
Proof.
  intros (? & ? & Hf1) (? & ? & Hf2). split_and!; [congruence|auto|].
  intros i Hi. by rewrite Hf2, Hf1.
Qed.

Lemma framed_mono R R' b b' : framed R b b' → (∀ i, R i → R' i) → framed R' b b'.
Proof. intros (? & ? & Hf) Hi. split_and!; auto. Qed.

(** Rows of a buffer that keeps its length and its dimensions stay at their index. *)
Lemma framed_lines R b ls :
  length ls = length (Buffer.lines b) →
  (∀ o i, Buffer.view_offset b = Some o → ¬ R i →
     Line.cells <$> ls !! (o + i) = Line.cells <$> Buffer.lines b !! (o + i)) →
  framed R b (Buffer.set_lines ls b).
Proof.
  intros Hl Hf. split_and!; [done|unfold tall; simpl; lia|]. intros i Hi. unfold shown, Buffer.index.
  unfold Buffer.view_offset. simpl. rewrite Hl. fold (Buffer.view_offset b).
  destruct (Buffer.view_offset b) as [o|] eqn:Ho; [|done]. simpl. by apply Hf.
Qed.

Lemma on_row_framed row f b : Buffer.on_row row f b ↠ framed (eq row) b.
Proof.
  unfold Buffer.on_row. apply Partial_bind_eq. intros o Ho.
  eapply Partial_bind; [apply modify_frame|]. intros ls (Hl & Hj & _). simpl.
  apply framed_lines; [done|]. intros o' i Ho' Hi. rewrite Ho in Ho'. injection Ho' as <-.
  rewrite Hj; [done|lia].
Qed.

(** A change of flags only. *)
Lemma on_row_flags row f b :
  (∀ l, f l ↠ λ l', Line.cells l' = Line.cells l) → Buffer.on_row row f b ↠ framed none b.
Proof.
  intros Hf. unfold Buffer.on_row. apply Partial_bind_eq. intros o Ho.
  eapply Partial_bind; [apply modify_frame|]. intros ls (Hl & Hj & x & y & Hx & Hy & Hls). simpl.
  apply framed_lines; [done|]. intros o' i Ho' _. rewrite Ho in Ho'. injection Ho' as <-.
  destruct (decide (i = row)) as [->|]; [|rewrite Hj; [done|lia]].
  rewrite Hls, Hx. simpl. f_equal. by apply (Partial_elim _ _ _ (Hf x)).
Qed.

Lemma unwrap_row_framed row b : Buffer.unwrap_row row b ↠ framed none b.
Proof. by apply on_row_flags. Qed.

Lemma wrap_framed row b : Buffer.wrap b row ↠ framed none b.
Proof. by apply on_row_flags. Qed.

Lemma clear_incoming_wrap_framed row b : Buffer.clear_incoming_wrap b row ↠ framed none b.
Proof.
  unfold Buffer.clear_incoming_wrap. apply Partial_bind_eq. intros o Ho.
  destruct (csub (o + row) 1) as [prev|]; [|done].
  eapply Partial_bind; [apply modify_frame|]. intros ls (Hl & Hj & x & y & Hx & Hy & Hls). simpl.
  apply framed_lines; [done|]. intros o' i _ _.
  destruct (decide (o' + i = prev)) as [->|]; [|by rewrite Hj].
  rewrite Hls, Hx. simpl. by injection Hy as <-.
Qed.

Lemma on_rows_framed s e f b :
  (∀ m, f m ↠ λ m', length m' = length m) → Buffer.on_rows s e f b ↠ framed (between s e) b.
Proof.
  intros Hf. unfold Buffer.on_rows. apply Partial_bind_eq. intros o Ho.
  eapply Partial_bind; [by apply on_range_frame|]. intros ls [Hl Hj]. simpl.
  apply framed_lines; [done|]. intros o' i Ho' Hi. rewrite Ho in Ho'. injection Ho' as <-.
  rewrite Hj; [done|]. unfold between in Hi. lia.
Qed.

Lemma clear_framed s e b p : Buffer.clear b s e p ↠ framed (between s e) b.
Proof. apply on_rows_framed. intros m. simpl. apply length_fmap. Qed.

Lemma framed_print b col row ch p :
  Buffer.print b col row ch p ↠ λ '(b', r), framed (eq row) b b' ∧ (r = None → framed none b b').
Proof.
  unfold Buffer.print. apply Partial_bind_eq. intros o Ho. apply Partial_bind_eq. intros l Hl.
  apply Partial_bind_eq. intros [l' r] Hp. apply Partial_bind_eq. intros ls Hls. simpl.
  apply update_Some_inv in Hls as [Hlt ->]. split.
  - apply framed_lines; [len|]. intros o' i Ho' Hi. rewrite Ho in Ho'. injection Ho' as <-.
    rewrite list_lookup_insert_ne by lia. done.
  - intros ->. assert (l' = l) as ->.
    { unfold Line.print in Hp. repeat (case_match || simplify_option_eq); done. }
    rewrite list_insert_id by done. by destruct b.
Qed.

Lemma shift_right_framed b col row n p : Buffer.shift_right b col row n p ↠ framed (eq row) b.
Proof. unfold Buffer.shift_right. apply Partial_bind_eq. intros k _. apply on_row_framed. Qed.

Lemma delete_framed b col row n p : Buffer.delete b col row n p ↠ framed (eq row) b.
Proof. unfold Buffer.delete. apply Partial_bind_eq. intros k _. apply on_row_framed. Qed.

(** ** Composition *)

Lemma framed_bind R b (m : option Buffer.t) f :
  m ↠ framed R b → (∀ b', Buffer.rows b' = Buffer.rows b → f b' ↠ framed R b') →
  (m ≫= f) ↠ framed R b.
Proof.
  intros Hm Hf. eapply Partial_bind; [exact Hm|]. intros b' Hb.
  eapply Partial_mono; [apply Hf, Hb|]. intros. by eapply framed_trans.
Qed.

Lemma framed_weaken R R' b (m : option Buffer.t) :
  m ↠ framed R b → (∀ i, R i → R' i) → m ↠ framed R' b.
Proof. intros Hm Hi. eapply Partial_mono; [exact Hm|]. intros. by eapply framed_mono. Qed.

(** The rows an erasure is about. *)
Definition erased_rows (rows row : nat) (mode : EraseMode) : nat → Prop :=
  match mode with
  | FromCursorToEndOfView => between row rows
  | FromStartOfViewToCursor => between 0 (row + 1)
  | WholeView => between 0 rows
  | _ => eq row
  end.

Lemma erase_framed b col row mode p :
  row < Buffer.rows b →
  Buffer.erase b col row mode p ↠ framed (erased_rows (Buffer.rows b) row mode) b.
Proof.
  intros Hrow.
  assert (Hw : ∀ R r b, Buffer.clear_incoming_wrap b r ↠ framed R b).
  { intros. eapply framed_weaken; [apply clear_incoming_wrap_framed|done]. }
  assert (Hr : ∀ (R : nat → Prop) f b, R row → Buffer.on_row row f b ↠ framed R b).
  { intros. eapply framed_weaken; [apply on_row_framed|]. by intros ? <-. }
  assert (Hc : ∀ (R : nat → Prop) s e b, (∀ i, s ≤ i < e → R i) → Buffer.clear b s e p ↠ framed R b).
  { intros. eapply framed_weaken; [apply clear_framed|done]. }
  assert (Hu : ∀ R r b, Buffer.unwrap_row r b ↠ framed R b).
  { intros. eapply framed_weaken; [apply unwrap_row_framed|done]. }
  assert (Hid : ∀ R b, Some b ↠ framed R b) by (intros; apply framed_refl).
  destruct mode; simpl erased_rows; unfold Buffer.erase.
  - apply Partial_bind_eq. intros k _. by apply Hr.
  - apply framed_bind; [case_decide; auto|]. intros b1 Hr1.
    apply framed_bind; [apply Hr; unfold between; lia|]. intros b2 Hr2.
    apply Hc. unfold between. lia.
  - apply framed_bind; [auto|]. intros b1 Hr1.
    apply framed_bind; [apply Hr; unfold between; lia|]. intros b2 Hr2.
    apply framed_bind; [case_decide; auto|]. intros b3 Hr3.
    apply Hc. unfold between. lia.
  - apply framed_bind; [auto|]. intros b1 Hr1. apply Hc. unfold between. lia.
  - apply framed_bind; [case_decide; auto|]. intros b1 Hr1. by apply Hr.
  - by apply Hr.
  - apply framed_bind; [auto|]. intros b1 Hr1. by apply Hr.
Qed.

(** ** Scrolling *)

Lemma insert_lines_spec n index line (ls : list Line.t) :
  Buffer.insert_lines n index line ls ↠ λ ls',
    ls' = take index ls ++ replicate n line ++ drop index ls ∧ (0 < n → index ≤ length ls).
Proof.
  revert ls. induction n as [|n IH]; intros ls; simpl; [split; [by rewrite take_drop|lia]|].
  case_decide; simpl; [|done]. eapply Partial_mono; [apply IH|].
  intros ls' [-> _]. split; [|done]. rewrite take_app_le by len.
  rewrite take_take, Nat.min_id. f_equal. rewrite drop_app_ge by len.
  replace (index - length (take index ls)) with 0 by len. simpl.
  change (line :: drop index ls) with ([line] ++ drop index ls).
  by rewrite app_assoc, <- replicate_cons_app.
Qed.

Lemma rotate_left_length {A} n (m : list A) : rotate_left n m ↠ λ m', length m' = length m.
Proof. unfold rotate_left. case_decide; simpl; [len|done]. Qed.

Lemma rotate_right_length {A} n (m : list A) : rotate_right n m ↠ λ m', length m' = length m.
Proof. unfold rotate_right. case_decide; simpl; [len|done]. Qed.

(** Rows pushed up into the scrollback at the top of the screen leave the rows below
    [e] in place: the view moves down with them. *)
Lemma pushed_framed b e n l :
  e ≤ Buffer.rows b → tall b →
  let k := length (Buffer.lines b) - Buffer.rows b in
  framed (between 0 e) b
    (Buffer.set_lines (take (k + e) (Buffer.lines b) ++ replicate n l
                       ++ drop (k + e) (Buffer.lines b)) b).
Proof.
  intros He Hr k. unfold tall in Hr. split_and!; [done|intros _; unfold tall; simpl; rewrite !length_app, length_take, length_drop, length_replicate; lia|]. intros i Hi. unfold between in Hi.
  unfold shown, Buffer.index, Buffer.view_offset. simpl.
  rewrite !length_app, length_replicate, length_take, length_drop.
  rewrite (csub_Some (length _)) by done. rewrite csub_Some by lia. simpl. f_equal.
  rewrite lookup_app_r by len. rewrite lookup_app_r by len. rewrite lookup_drop.
  f_equal. len.
Qed.

Lemma extend_framed b n cols p :
  tall b →
  framed (between 0 (Buffer.rows b)) b (Buffer.extend b n cols p).
Proof.
  intros Hr. unfold tall in Hr. pose proof (pushed_framed b (Buffer.rows b) n (Line.blank cols p)) as Hp.
  simpl in Hp. replace (length (Buffer.lines b) - Buffer.rows b + Buffer.rows b)
    with (length (Buffer.lines b)) in Hp by lia.
  rewrite take_ge, drop_ge, app_nil_r in Hp by (unfold tall in *; lia). by apply Hp.
Qed.

Lemma trim_needed_framed R b b' x : framed R b b' → framed R b (Buffer.set_trim_needed x b').
Proof. done. Qed.

Lemma scroll_up_framed b s e n p :
  s < e ≤ Buffer.rows b → tall b →
  Buffer.scroll_up b s e n p ↠ framed (between s e) b.
Proof.
  intros He Hlen. unfold tall in Hlen. unfold Buffer.scroll_up. apply Partial_bind_eq. intros size Hsize.
  apply csub_inv in Hsize as [_ ->]. do 2 (apply Partial_bind_eq; intros ? _).
  remember (n `min` (e - s)) as k eqn:Hk. assert (k ≤ e - s) as Hks by lia. clear Hk n.
  eapply (Partial_bind _ _ (λ b', framed none b b' ∧ length (Buffer.lines b') = length (Buffer.lines b))).
  { case_decide; [|done]. apply Partial_intro. intros b' E. split.
    - apply (Partial_elim _ _ _ (unwrap_row_framed _ _) E).
    - unfold Buffer.unwrap_row, Buffer.on_row in E. simplify_option_eq.
      match goal with Hm : modify _ _ _ = Some _ |- _ =>
        by apply (Partial_elim _ _ _ (modify_frame _ _ _)) in Hm as (? & _ & _) end. }
  intros b1 [Hb1 Hl1]. destruct (id Hb1) as (Hr1 & Hc1 & _).
  apply (Partial_bind _ _ (framed (between s e) b1)).
  - case_decide; [case_decide|].
    + subst. simpl. apply extend_framed. unfold tall. lia.
    + apply Partial_bind_eq. intros k0 Hk0. apply csub_inv in Hk0 as [_ ->].
      eapply Partial_bind; [apply insert_lines_spec|]. intros ls [-> _]. simpl.
      rewrite <- Hr1 in *. subst s. apply pushed_framed; unfold tall; lia.
    + apply Partial_bind_eq. intros prev Hprev.
      apply framed_bind; [by eapply framed_weaken; [apply unwrap_row_framed|]|]. intros b2 Hr2.
      apply framed_bind; [apply on_rows_framed, rotate_left_length|]. intros b3 Hr3.
      apply Partial_bind_eq. intros from Hfrom. apply csub_inv in Hfrom as [_ ->].
      eapply framed_weaken; [apply clear_framed|]. unfold between. lia.
  - intros b2 Hb2. simpl. apply trim_needed_framed. eapply framed_trans; [|exact Hb2].
    by eapply framed_mono.
Qed.

Lemma scroll_down_framed b s e n p :
  Buffer.scroll_down b s e n p ↠ framed (between s e) b.
Proof.
  unfold Buffer.scroll_down. apply Partial_bind_eq. intros size Hsize.
  apply csub_inv in Hsize as [_ ->].
  assert (Hu : ∀ r b, Buffer.unwrap_row r b ↠ framed (between s e) b).
  { intros. eapply framed_weaken; [apply unwrap_row_framed|done]. }
  apply framed_bind; [apply on_rows_framed, rotate_right_length|]. intros b1 _.
  apply framed_bind; [eapply framed_weaken; [apply clear_framed|unfold between; lia]|]. intros b2 _.
  apply framed_bind.
  { case_decide; [|apply framed_refl]. apply Partial_bind_eq. intros prev _. apply Hu. }
  intros b3 _. apply Partial_bind_eq. intros last _. apply Hu.
Qed.
End buffers.

(** * The terminal *)

Section terminal.
Context `{UnicodeWidth}.
Implicit Types (s : Terminal.t) (b : Buffer.t) (R : nat → Prop).
Import Terminal.

(** Insert mode is not turned on. *)
Definition calm s s' : Prop := insert_mode s = false → insert_mode s' = false.

#[local] Hint Extern 0 (calm _ _) => intros Hcalm; exact Hcalm : core.

(** A row not marked afterwards was not marked before, and shows what it showed. *)
Definition tracked s s' : Prop :=
  (∀ i, dirty_lines s' !! i = Some false →
    dirty_lines s !! i = Some false ∧ shown (buffer s') i = shown (buffer s) i) ∧ calm s s'.

(** Between an edit and the marks that go with it. *)
Definition reframed R s s' : Prop :=
  framed R (buffer s) (buffer s') ∧ dirty_lines s' = dirty_lines s ∧ calm s s'.

(** The bounds the marks and scrolls rely on; see [wf_term]. *)
Definition bounded s : Prop :=
  tall (buffer s) ∧ Buffer.rows (buffer s) = rows s ∧ Cursor.row (cursor s) < rows s ∧
  top_margin s ≤ bottom_margin s < rows s.

#[global] Instance tracked_po : PreOrder tracked.
Proof.
  split; [intros s; split; done|]. intros s1 s2 s3 [Ht1 Hc1] [Ht2 Hc2]. split; [|unfold calm in *; auto].
  intros i Hi. destruct (Ht2 i Hi) as [Hd ->]. destruct (Ht1 i Hd) as [? ->]. done.
Qed.

Lemma tracked_bind s (m : option t) f :
  m ↠ tracked s → (∀ s', m = Some s' → f s' ↠ tracked s') → (m ≫= f) ↠ tracked s.
Proof.
  intros Hm Hf. destruct m as [s'|]; simpl in *; [|done].
  eapply Partial_mono; [by apply Hf|]. intros s2 ?. by etrans.
Qed.

Lemma still_tracked s s' :
  buffer s' = buffer s → dirty_lines s' = dirty_lines s → calm s s' → tracked s s'.
Proof. intros Hb Hd Hc. split; [|done]. intros i. by rewrite Hb, Hd. Qed.

Lemma reframed_none s s' : reframed none s s' → tracked s s'.
Proof. intros [(_ & _ & Hf) [Hd Hc]]. split; [|done]. intros i. rewrite Hd, Hf; auto. Qed.

Lemma reframed_trans R s1 s2 s3 : reframed R s1 s2 → reframed R s2 s3 → reframed R s1 s3.
Proof.
  intros (? & Hd & ?) (? & Hd' & ?). split_and!; [by eapply framed_trans|congruence|].
  unfold calm in *. auto.
Qed.

Lemma reframed_mono R R' s s' : reframed R s s' → (∀ i, R i → R' i) → reframed R' s s'.
Proof. intros [? ?]. split; [by eapply framed_mono|done]. Qed.

(** ** Marking *)

Lemma dirty_add_tracked s s1 row :
  reframed (eq row) s s1 → dirty_add row s1 ↠ tracked s.
Proof.
  intros [(_ & _ & Hf) [Hd Hcalm]]. unfold dirty_add, DirtyLines.add. apply Partial_bind_eq.
  intros d E. apply update_Some_inv in E as [Hlt ->]. simpl. split; [|done]. intros i Hi. simpl in *.
  destruct (decide (i = row)) as [->|Hne].
  - by rewrite list_lookup_insert_eq in Hi.
  - rewrite list_lookup_insert_ne, Hd in Hi by done. split; [done|]. apply Hf. congruence.
Qed.

Lemma fill_true_false st e (d : list bool) :
  fill_range st e true d ↠ λ d', ∀ i, d' !! i = Some false →
    ¬ between st e i ∧ d !! i = Some false.
Proof.
  unfold fill_range, on_range. case_decide as Hb; [|done]. simpl. intros i Hi.
  unfold between. rewrite length_take, length_drop in Hi.
  destruct (decide (i < st)); [|destruct (decide (i < e))].
  - rewrite lookup_app_l, lookup_take_lt in Hi by len. split; [lia|done].
  - rewrite lookup_app_r, lookup_app_l in Hi by len.
    apply lookup_replicate in Hi as [? _]. done.
  - rewrite !lookup_app_r in Hi by len. split; [lia|]. rewrite lookup_drop in Hi.
    rewrite <- Hi. f_equal. len.
Qed.

Lemma dirty_extend_tracked s s1 st e :
  reframed (between st e) s s1 → dirty_extend st e s1 ↠ tracked s.
Proof.
  intros [(_ & _ & Hf) [Hd Hcalm]]. unfold dirty_extend, DirtyLines.extend.
  eapply Partial_bind; [apply fill_true_false|]. intros d Hfill. simpl. split; [|done]. intros i Hi.
  simpl in *. destruct (Hfill i Hi) as [? ?]. rewrite Hd in *. auto.
Qed.

(** After a reflow every row is marked. *)
Lemma dirty_extend_all s0 s st e :
  st = 0 → length (dirty_lines s) ≤ e → calm s0 s → dirty_extend st e s ↠ tracked s0.
Proof.
  intros -> Hl Hc. unfold dirty_extend, DirtyLines.extend.
  eapply Partial_bind; [apply fill_true_false|]. intros d Hfill. simpl. split; [|done]. intros i Hi.
  destruct (Hfill i Hi) as [Hn Hi']. apply lookup_lt_Some in Hi'. unfold between in Hn. lia.
Qed.

(** ** Operations that leave the screen alone *)

Definition same_screen s s' : Prop :=
  buffer s' = buffer s ∧ dirty_lines s' = dirty_lines s ∧ calm s s'.
Definition still s (m : option t) : Prop := m ↠ same_screen s.

Lemma still_ok s m : still s m → m ↠ tracked s.
Proof. intros Hm. eapply Partial_mono; [exact Hm|]. intros s' (? & ? & ?). by apply still_tracked. Qed.

Ltac still :=
  apply Partial_intro; intros ? ?;
  repeat (case_match || simplify_option_eq); done.

Lemma move_cursor_to_col_still col s : still s (move_cursor_to_col col s).
Proof. unfold move_cursor_to_col. still. Qed.

Lemma do_move_cursor_to_row_still row s : still s (do_move_cursor_to_row row s).
Proof. unfold do_move_cursor_to_row. still. Qed.

Lemma move_cursor_to_row_still row s : still s (move_cursor_to_row row s).
Proof.
  unfold move_cursor_to_row. apply Partial_bind_eq. intros bottom _.
  apply do_move_cursor_to_row_still.
Qed.

Lemma move_cursor_to_rel_col_still z s : still s (move_cursor_to_rel_col z s).
Proof. unfold move_cursor_to_rel_col. still. Qed.

Lemma move_cursor_home_still s : still s (move_cursor_home s).
Proof. apply (do_move_cursor_to_row_still _ (set_cursor_col 0 s)). Qed.

Lemma move_cursor_to_next_tab_still n s : still s (move_cursor_to_next_tab n s).
Proof.
  unfold move_cursor_to_next_tab. do 2 (apply Partial_bind_eq; intros ? _).
  apply move_cursor_to_col_still.
Qed.

Lemma move_cursor_to_prev_tab_still n s : still s (move_cursor_to_prev_tab n s).
Proof.
  unfold move_cursor_to_prev_tab. apply Partial_bind_eq; intros ? _.
  apply move_cursor_to_col_still.
Qed.

Lemma cursor_down_still n s : still s (cursor_down n s).
Proof.
  unfold cursor_down. apply Partial_bind_eq; intros ? _. apply do_move_cursor_to_row_still.
Qed.

Lemma cursor_up_still n s : still s (cursor_up n s).
Proof. apply do_move_cursor_to_row_still. Qed.

Lemma still_bind s m f :
  still s m → (∀ s', still s' (f s')) → still s (m ≫= f).
Proof.
  intros Hm Hf. eapply Partial_bind; [exact Hm|]. intros s1 (Hb & Hd & Hc).
  eapply Partial_mono; [apply Hf|]. intros s2 (? & ? & ?). split_and!; [congruence..|]. unfold calm in *. auto.
Qed.

Lemma set_tab_still s : still s (Some (set_tab s)).
Proof. unfold set_tab. by case_decide. Qed.

Lemma for_each_ind {A} (R : t → t → Prop) `{!PreOrder R} (I : t → Prop) (l : list A) f s :
  I s → (∀ x s, I s → f x s ↠ λ s', R s s' ∧ I s') → for_each l f s ↠ λ s', R s s' ∧ I s'.
Proof.
  intros Hs Hf. revert s Hs. induction l as [|x l IH]; intros s Hs; simpl; [by split|].
  eapply Partial_bind; [by apply Hf|]. intros s1 [? ?].
  eapply Partial_mono; [by apply IH|]. intros s2 [? ?]. split; [by etrans|done].
Qed.

#[local] Instance same_screen_po : PreOrder same_screen.
Proof.
  split; [intros s; by split_and!|]. intros s1 s2 s3 (? & ? & ?) (? & ? & ?). split_and!; [congruence..|].
  unfold calm in *; auto.
Qed.

Lemma for_each_still {A} (l : list A) f s :
  (∀ x s, still s (f x s)) → still s (for_each l f s).
Proof.
  intros Hf. eapply Partial_mono; [apply (for_each_ind same_screen (λ _, True)); [done|]|].
  - intros x s' _. eapply Partial_mono; [apply Hf|]. by intros.
  - by intros s' [? _].
Qed.

(** ** Scrolling *)

Lemma scroll_up_in_region_tracked n s :
  tall (buffer s) → top_margin s ≤ bottom_margin s < Buffer.rows (buffer s) →
  scroll_up_in_region n s ↠ λ s', tracked s s' ∧ cursor s' = cursor s.
Proof.
  intros Ht Hm. unfold scroll_up_in_region.
  eapply Partial_bind; [apply scroll_up_framed; [lia|done]|]. intros b Hb.
  apply Partial_intro. intros s' E. split.
  - eapply Partial_elim, E. by apply dirty_extend_tracked.
  - unfold dirty_extend in E. by simplify_option_eq.
Qed.

Lemma scroll_down_in_region_tracked n s : scroll_down_in_region n s ↠ tracked s.
Proof.
  unfold scroll_down_in_region. eapply Partial_bind; [apply scroll_down_framed|].
  intros b Hb. by apply dirty_extend_tracked.
Qed.

Lemma bounded_region s : bounded s → top_margin s ≤ bottom_margin s < Buffer.rows (buffer s).
Proof. intros (_ & -> & _ & ?). done. Qed.

Lemma move_cursor_down_with_scroll_tracked s :
  bounded s → move_cursor_down_with_scroll s ↠ tracked s.
Proof.
  intros Hs. unfold move_cursor_down_with_scroll. case_decide.
  - eapply Partial_mono; [apply scroll_up_in_region_tracked; [apply Hs|by apply bounded_region]|].
    by intros ? [? _].
  - apply Partial_bind_eq. intros ? _.
    case_decide; [apply still_ok, do_move_cursor_to_row_still|simpl; reflexivity].
Qed.

(** ** Printing *)

Lemma buffer_print_reframed col row ch p s :
  buffer_print col row ch p s ↠ λ '(s', r), ∃ b, s' = set_buffer b s ∧
    framed (eq row) (buffer s) b ∧ (r = None → framed none (buffer s) b).
Proof.
  unfold buffer_print. eapply Partial_bind; [apply framed_print|]. intros [b r] [? ?]. simpl. eauto.
Qed.

(** With insert mode and auto-wrap both on, a wide character that does not fit moves
    to the next row after a shift of this one, which may cut a wide character in two
    and is not marked. *)
Definition wraps_cleanly s : Prop := insert_mode s = true → auto_wrap_mode s = false.

Lemma try_print_reframed ch s :
  try_print ch s ↠ λ '(s', r), ∃ b, s' = set_buffer b s ∧
    framed (eq (Cursor.row (cursor s))) (buffer s) b ∧
    (r = NeedsRelocation → insert_mode s = false → framed none (buffer s) b).
Proof.
  unfold try_print. case_decide.
  { simpl. exists (buffer s). split_and!; [by destruct s|done|done]. }
  set (row := Cursor.row (cursor s)).
  apply (Partial_bind _ _ (λ s1, ∃ b, s1 = set_buffer b s ∧ framed (eq row) (buffer s) b ∧
    (insert_mode s = false → b = buffer s))).
  { destruct (insert_mode s).
    - eapply Partial_bind; [apply shift_right_framed|]. intros b Hb. by exists b.
    - simpl. exists (buffer s). split_and!; [by destruct s|done|done]. }
  intros s1 (b & -> & Hb & Hins). eapply Partial_bind; [apply buffer_print_reframed|].
  intros [s2 r] (b2 & -> & Hb2 & Hn). simpl in *. exists b2. split_and!; [done| |].
  - by eapply framed_trans.
  - intros Hr Hi. rewrite (Hins Hi) in *. apply Hn. by destruct r.
Qed.

Lemma set_buffer_reframed_rows R s b : framed R (buffer s) b → reframed R s (set_buffer b s).
Proof. done. Qed.

Lemma wrap_and_print_tracked ch s :
  bounded s → wrap_and_print_at_line_start ch s ↠ λ s',
    dirty_add (Cursor.row (cursor s')) s' ↠ tracked s.
Proof.
  intros Hb. unfold wrap_and_print_at_line_start.
  apply (Partial_bind _ _ (tracked s)).
  - case_decide as Hrow; [|apply Partial_bind_eq; intros last _; case_decide; [|simpl; reflexivity]].
    + eapply Partial_bind; [apply wrap_framed|]. intros b (Hr & Ht & Hf).
      destruct Hb as (Htall & Hrows & _ & Hm).
      eapply Partial_mono; [apply scroll_up_in_region_tracked; simpl; [auto|rewrite Hr, Hrows; done]|].
      intros s1 [Hs1 _]. etrans; [|exact Hs1]. by apply reframed_none.
    + eapply Partial_bind; [apply wrap_framed|]. intros b Hw. simpl. by apply reframed_none.
  - intros s1 Hs1. eapply Partial_bind; [apply buffer_print_reframed|].
    intros [s2 r] (b & -> & Hb2 & _).
    assert (Hmark : ∀ x, dirty_add (Cursor.row (cursor s1)) (set_cursor_col x (set_buffer b s1))
      ↠ tracked s).
    { intros x. eapply Partial_mono; [by apply (dirty_add_tracked s1)|]. intros s3 ?. by etrans. }
    destruct r; apply Hmark.
Qed.

Lemma print_at_line_end_reframed ch s :
  print_at_line_end ch s ↠ λ s', reframed (eq (Cursor.row (cursor s))) s s' ∧
    Cursor.row (cursor s') = Cursor.row (cursor s).
Proof.
  unfold print_at_line_end. set (row := Cursor.row (cursor s)).
  apply (Partial_bind _ _ (λ s1, ∃ b, s1 = set_buffer b s ∧ framed (eq row) (buffer s) b)).
  - case_decide; [|exists (buffer s); split; [by destruct s|done]].
    apply Partial_bind_eq. intros col _. eapply Partial_bind; [apply buffer_print_reframed|].
    intros [s1 r] (b & -> & Hb & _). destruct (_ && _); [|simpl; eauto].
    apply Partial_bind_eq. intros prev _. eapply Partial_bind; [apply buffer_print_reframed|].
    intros [s2 r2] (b2 & -> & Hb2 & _). simpl in *. exists b2. split; [done|].
    by eapply framed_trans.
  - intros s1 (b & -> & Hb). apply Partial_bind_eq. intros last _. simpl. done.
Qed.

Lemma print_tracked ch s :
  bounded s → wraps_cleanly s → print ch s ↠ tracked s.
Proof.
  intros Hb Hw. unfold print. do 2 (apply Partial_bind_eq; intros ? _).
  eapply Partial_bind; [apply try_print_reframed|]. intros [s1 r] (b & -> & Hed & Hn).
  destruct r as [width|].
  - eapply (Partial_bind _ _ (λ s2, reframed (eq (Cursor.row (cursor s))) s s2 ∧
      Cursor.row (cursor s2) = Cursor.row (cursor s))).
    + unfold advance_cursor_after_print. destruct (_ && _); [|done].
      apply Partial_bind_eq. by intros last _.
    + intros s2 [? ->]. by apply dirty_add_tracked.
  - simpl auto_wrap_mode. destruct (auto_wrap_mode s) eqn:Haw.
    + assert (insert_mode s = false) as Hins.
      { destruct (insert_mode s) eqn:E; [|done]. by rewrite Hw in Haw. }
      specialize (Hn eq_refl Hins). eapply Partial_bind; [apply wrap_and_print_tracked|].
      * destruct Hb as (? & ? & ? & ?), Hn as (Hr & Ht & _).
        unfold bounded. simpl. split_and!; auto; (congruence || lia).
      * intros s2 Hs2. eapply Partial_mono; [exact Hs2|]. intros s3 ?.
        etrans; [|done]. by apply reframed_none.
    + eapply Partial_bind; [apply print_at_line_end_reframed|]. intros s2 [Hs2 ->].
      apply dirty_add_tracked. simpl in *. by eapply reframed_trans; [|exact Hs2].
Qed.
End terminal.

(** * Every control function *)

Section functions.
Context `{UnicodeWidth} `{ResizePolicy}.
Implicit Types (s : Terminal.t) (b : Buffer.t).
Import Terminal.

#[local] Hint Extern 0 (calm _ _) => intros Hcalm; exact Hcalm : core.

Lemma wf_bounded s : wf_term s → bounded s.
Proof.
  intros Hs. destruct (wt_dims _ Hs) as [Hd1 Hd2]. pose proof (wc_buffer _ (wt_core _ Hs)) as [Hb _].
  split_and!; [apply (shape_rows _ Hb)|done|apply Hs|apply (wc_margins _ (wt_core _ Hs))..].
Qed.

(** The invariant of a run without the unclean wrap. *)
Definition quiet s : Prop := wf_term s ∧ insert_mode s = false.

Lemma quiet_clean s : quiet s → wraps_cleanly s.
Proof. intros [_ Hi] ?. congruence. Qed.

Lemma reframed_bind R s (m : option Terminal.t) f :
  m ↠ reframed R s → (∀ s', reframed R s s' → f s' ↠ reframed R s') → (m ≫= f) ↠ reframed R s.
Proof.
  intros Hm Hf. eapply Partial_bind; [exact Hm|]. intros s1 Hs1.
  eapply Partial_mono; [by apply Hf|]. intros. by eapply reframed_trans.
Qed.

#[local] Instance reframed_po R : PreOrder (reframed R).
Proof. split; [done|]. intros ? ? ?. apply reframed_trans. Qed.

Lemma for_each_reframed {A} R (l : list A) f s :
  (∀ x s1, cursor s1 = cursor s → f x s1 ↠ λ s', reframed R s1 s' ∧ cursor s' = cursor s1) →
  for_each l f s ↠ λ s', reframed R s s' ∧ cursor s' = cursor s.
Proof.
  intros Hf. eapply Partial_mono; [apply (for_each_ind (reframed R) (λ s1, cursor s1 = cursor s));
    [done|]|by intros ? [? ?]].
  intros x s1 Hc. eapply Partial_mono; [by apply Hf|]. intros s2 [? ?]. split; [done|congruence].
Qed.

Lemma prints_reframed (l : list nat) (row : Terminal.t → nat) ch p s :
  (∀ s', cursor s' = cursor s → row s' = row s) →
  for_each l (λ col s, '(s, _) ← buffer_print col (row s) ch (p s) s; Some s) s ↠ λ s',
    reframed (eq (row s)) s s' ∧ cursor s' = cursor s.
Proof.
  intros Hrow. apply for_each_reframed. intros x s1 Hc. rewrite (Hrow s1 Hc).
  eapply Partial_bind; [apply buffer_print_reframed|].
  intros [s2 r] (b & -> & Hb & _). by split.
Qed.

Lemma decaln_tracked s : decaln s ↠ tracked s.
Proof.
  unfold decaln. eapply Partial_mono; [apply (for_each_ind tracked (λ _, True)); [done|]|by intros ? []].
  intros row s1 _. eapply Partial_mono; [|intros s2 Ht; split; [exact Ht|done]].
  eapply Partial_bind; [apply (prints_reframed _ (λ _, row) _ (λ _, Pen.default)); done|].
  intros s2 [Hs2 _]. by apply dirty_add_tracked.
Qed.

Lemma ich_tracked n s : ich n s ↠ tracked s.
Proof.
  unfold ich. apply tracked_bind.
  { case_decide; [|simpl; reflexivity]. apply Partial_bind_eq. intros last _. simpl.
    by apply still_tracked. }
  intros s1 _. apply Partial_bind_eq. intros room _.
  eapply Partial_bind; [apply shift_right_framed|]. intros b Hb.
  eapply Partial_bind; [apply (prints_reframed _ (λ s, Cursor.row (cursor s)) _ pen)|].
  { by intros s' ->. }
  intros s2 [Hs2 ->].
  apply dirty_add_tracked. eapply reframed_trans; [|exact Hs2]. done.
Qed.

Lemma dch_tracked n s : dch n s ↠ tracked s.
Proof.
  unfold dch. apply tracked_bind.
  { case_decide; [|simpl; reflexivity]. apply Partial_bind_eq. intros last _.
    apply still_ok, move_cursor_to_col_still. }
  intros s1 _.
  eapply Partial_bind; [apply delete_framed|]. intros b Hb. by apply dirty_add_tracked.
Qed.

Lemma buffer_erase_reframed mode s :
  bounded s → buffer_erase mode s ↠ λ s', cursor s' = cursor s ∧ rows s' = rows s ∧
    reframed (erased_rows (rows s) (Cursor.row (cursor s)) mode) s s'.
Proof.
  intros (_ & Hr & Hc & _). unfold buffer_erase.
  eapply Partial_bind; [apply erase_framed; lia|]. intros b Hb. rewrite Hr in Hb. simpl. done.
Qed.

Lemma ed_tracked scope s : bounded s → ed scope s ↠ tracked s.
Proof.
  intros Hb. destruct scope; simpl; try reflexivity;
    (eapply Partial_bind; [by apply buffer_erase_reframed|]; intros s1 (Hc & Hr & Hs1);
     rewrite ?Hc, ?Hr; by apply dirty_extend_tracked).
Qed.

Lemma el_tracked scope s : bounded s → el scope s ↠ tracked s.
Proof.
  intros Hb. unfold el. eapply Partial_bind; [by apply buffer_erase_reframed|].
  intros s1 (Hc & Hr & Hs1). rewrite Hc. apply dirty_add_tracked. by destruct scope.
Qed.

Lemma ech_tracked n s : bounded s → ech n s ↠ tracked s.
Proof.
  intros Hb. unfold ech. eapply Partial_bind; [by apply buffer_erase_reframed|].
  intros s1 (Hc & Hr & Hs1). rewrite Hc. by apply dirty_add_tracked.
Qed.

Lemma il_tracked n s : il n s ↠ tracked s.
Proof.
  unfold il. eapply Partial_bind; [apply scroll_down_framed|].
  intros b Hb. by apply dirty_extend_tracked.
Qed.

Lemma dl_tracked n s : bounded s → dl n s ↠ tracked s.
Proof.
  intros (Ht & Hr & Hc & Hm). unfold dl. eapply Partial_bind.
  - apply scroll_up_framed; [|done]. unfold line_range_end. case_decide; lia.
  - intros b Hb. by apply dirty_extend_tracked.
Qed.

Lemma ri_tracked s : ri s ↠ tracked s.
Proof.
  unfold ri. case_decide; [apply scroll_down_in_region_tracked|].
  case_decide; [|simpl; reflexivity]. apply Partial_bind_eq. intros row _.
  apply still_ok, move_cursor_to_row_still.
Qed.

Lemma su_tracked n s : bounded s → su n s ↠ tracked s.
Proof.
  intros Hb. eapply Partial_mono; [apply scroll_up_in_region_tracked; [apply Hb|by apply bounded_region]|].
  by intros ? [? _].
Qed.

Lemma lf_tracked s : bounded s → lf s ↠ tracked s.
Proof.
  intros Hb. unfold lf. apply tracked_bind; [by apply move_cursor_down_with_scroll_tracked|].
  intros s1 _. simpl. destruct (new_line_mode s1); [by apply still_tracked|reflexivity].
Qed.

Lemma nel_tracked s : bounded s → nel s ↠ tracked s.
Proof.
  intros Hb. unfold nel. apply tracked_bind; [by apply move_cursor_down_with_scroll_tracked|].
  intros s1 _. simpl. by apply still_tracked.
Qed.

Lemma rep_tracked n s : quiet s → rep n s ↠ tracked s.
Proof.
  intros Hs. unfold rep. case_decide; [|simpl; reflexivity]. do 3 (apply Partial_bind_eq; intros ? _).
  eapply Partial_mono; [apply (for_each_ind tracked quiet); [done|]|by intros ? [? _]].
  intros _ s1 Hs1. apply Partial_intro. intros s2 E.
  assert (Ht : tracked s1 s2).
  { eapply Partial_elim, E. by apply print_tracked; [apply wf_bounded, Hs1|apply quiet_clean]. }
  split; [done|]. destruct Hs1 as [Hw Hi]. split.
  - destruct (Safe_elim _ _ (print_Safe s1 (Cell.ch a1) Hw)) as (s3 & E3 & [? _]). congruence.
  - by apply Ht.
Qed.

(** ** Modes and whole-screen changes *)

Lemma reflow_tracked s0 s : calm s0 s → reflow s ↠ tracked s0.
Proof.
  intros Hc. unfold reflow. apply Partial_bind_eq. intros [b [col row]] _.
  eapply Partial_bind; [apply dirty_extend_all; [done| |exact Hc]|].
  - simpl. unfold DirtyLines.resize. by rewrite length_resize_vec.
  - intros s1 Hs1. do 2 (apply Partial_bind_eq; intros ? _). simpl.
    etrans; [exact Hs1|]. by apply still_tracked.
Qed.

Lemma switch_to_alternate_calm s : switch_to_alternate_buffer s ↠ calm s.
Proof.
  unfold switch_to_alternate_buffer. destruct (active_buffer_type s); [|simpl; auto].
  unfold dirty_extend. apply Partial_bind_eq. intros d _. simpl. auto.
Qed.

Lemma switch_to_primary_calm s : switch_to_primary_buffer s ↠ calm s.
Proof.
  unfold switch_to_primary_buffer. destruct (active_buffer_type s); [simpl; auto|].
  unfold dirty_extend. apply Partial_bind_eq. intros d _. simpl. auto.
Qed.

Lemma save_cursor_still s : still s (save_cursor s).
Proof. unfold save_cursor. apply Partial_bind_eq. by intros last _. Qed.

Lemma decset_mode_tracked mode s : decset_mode mode s ↠ tracked s.
Proof.
  destruct mode; simpl; try by apply still_tracked.
  - apply still_ok. apply (move_cursor_home_still (set_origin_mode true s)).
  - eapply Partial_bind; [apply switch_to_alternate_calm|]. apply reflow_tracked.
  - apply still_ok, save_cursor_still.
  - apply tracked_bind; [apply still_ok, save_cursor_still|]. intros s1 _.
    eapply Partial_bind; [apply switch_to_alternate_calm|]. apply reflow_tracked.
Qed.

Lemma decrst_mode_tracked mode s : decrst_mode mode s ↠ tracked s.
Proof.
  destruct mode; simpl; try by apply still_tracked.
  - apply still_ok. apply (move_cursor_home_still (set_origin_mode false s)).
  - eapply Partial_bind; [apply switch_to_primary_calm|]. apply reflow_tracked.
  - eapply Partial_bind; [apply switch_to_primary_calm|]. intros s1 Hs1. by apply reflow_tracked.
Qed.

Lemma for_each_tracked {A} (l : list A) f s :
  (∀ x s, f x s ↠ tracked s) → for_each l f s ↠ tracked s.
Proof.
  intros Hf. eapply Partial_mono; [apply (for_each_ind tracked (λ _, True)); [done|]|by intros ? []].
  intros x s1 _. eapply Partial_mono; [apply Hf|]. by intros.
Qed.

(** [Sm] with the insert mode is the one function that turns it on. *)
Definition no_insert (f : Fun.t) : Prop :=
  match f with
  | Fun.Sm modes => ∀ l, SmallVec.as_slice modes = Some l → AnsiMode.Insert ∉ l
  | _ => True
  end.

Lemma sm_tracked modes s : no_insert (Fun.Sm modes) → sm modes s ↠ tracked s.
Proof.
  intros Hn. unfold sm. apply Partial_bind_eq. intros l Hl. specialize (Hn l Hl). clear Hl.
  revert s. induction l as [|m l IH]; intros s; simpl; [reflexivity|].
  rewrite not_elem_of_cons in Hn. destruct Hn as [Hm Hn].
  eapply Partial_bind; [|intros s1 Hs1; eapply Partial_mono; [by apply IH|]; intros; by etrans].
  destruct m; [done|]. by apply still_tracked.
Qed.

Lemma hard_reset_tracked s : hard_reset s ↠ tracked s.
Proof.
  unfold hard_reset. apply Partial_bind_eq. intros last _. simpl. split; [|done].
  intros i Hi. apply lookup_replicate in Hi as [? _]. done.
Qed.

Lemma modes_tracked (modes : DecModes.t) f s :
  (∀ mode s, f mode s ↠ tracked s) →
  (ms ← SmallVec.as_slice modes; for_each ms f s) ↠ tracked s.
Proof. intros Hf. apply Partial_bind_eq. intros l _. by apply for_each_tracked. Qed.

Lemma pen_ops_tracked (ops : SgrOps.t) s : sgr ops s ↠ tracked s.
Proof.
  unfold sgr. apply Partial_bind_eq. intros l _. apply for_each_tracked. intros op s1.
  by apply still_tracked.
Qed.

Lemma rm_tracked modes s : rm modes s ↠ tracked s.
Proof.
  unfold rm. apply Partial_bind_eq. intros l _. apply for_each_tracked. intros [] s1; simpl.
  - split; [done|]. by intros _.
  - by apply still_tracked.
Qed.

Lemma decstbm_still top bottom s : still s (decstbm top bottom s).
Proof.
  unfold decstbm. do 2 (apply Partial_bind_eq; intros ? _).
  case_decide; [apply (move_cursor_home_still (set_bottom_margin _ (set_top_margin _ s)))|
    apply move_cursor_home_still].
Qed.

Lemma soft_reset_tracked s : soft_reset s ↠ tracked s.
Proof. unfold soft_reset. apply Partial_bind_eq. intros last _. simpl. split; [done|]. by intros _. Qed.

Lemma xtwinops_tracked op s : wf_term s → xtwinops op s ↠ tracked s.
Proof. intros Hs. unfold xtwinops. rewrite (wc_xtwinops _ (wt_core _ Hs)). simpl. reflexivity. Qed.

(** The functions that only move the cursor or set a mode. *)
Lemma moves_still s :
  still s (bs s) ∧ (∀ n, still s (cha n s)) ∧ (∀ n, still s (cnl n s)) ∧ (∀ n, still s (cpl n s)) ∧
  (∀ n, still s (cub n s)) ∧ (∀ row col, still s (cup row col s)) ∧ (∀ n, still s (vpa n s)) ∧
  (∀ c, still s (gzd4 c s)) ∧ (∀ c, still s (g1d4 c s)).
Proof.
  split_and!; intros.
  - unfold bs. case_decide; apply move_cursor_to_rel_col_still.
  - unfold cha. apply Partial_bind_eq. intros ? _. apply move_cursor_to_col_still.
  - apply still_bind; [apply cursor_down_still|]. intros s1. done.
  - apply still_bind; [apply cursor_up_still|]. intros s1. done.
  - apply move_cursor_to_rel_col_still.
  - unfold cup. apply Partial_bind_eq. intros ? _. apply still_bind; [apply move_cursor_to_col_still|].
    intros s1. apply Partial_bind_eq. intros ? _. apply move_cursor_to_row_still.
  - unfold vpa. apply Partial_bind_eq. intros ? _. apply move_cursor_to_row_still.
  - unfold gzd4. apply Partial_bind_eq. by intros ? _.
  - unfold g1d4. apply Partial_bind_eq. by intros ? _.
Qed.

Lemma set_tab_tracked s : tracked s (set_tab s).
Proof. unfold set_tab. by case_decide; apply still_tracked. Qed.

(** Every control function marks what it changes. *)
Lemma execute_tracked f s :
  quiet s → no_insert f → execute f s ↠ tracked s.
Proof.
  intros Hq Hn. pose proof (wf_bounded s (proj1 Hq)) as Hb. pose proof (quiet_clean s Hq) as Hw.
  destruct (moves_still s) as (Hbs & Hcha & Hcnl & Hcpl & Hcub & Hcup & Hvpa & Hg0 & Hg1).
  destruct f; simpl; try (by apply still_tracked);
    auto using ri_tracked, su_tracked, lf_tracked, nel_tracked, rep_tracked, dl_tracked, il_tracked,
      ech_tracked, el_tracked, ed_tracked, dch_tracked, ich_tracked, decaln_tracked, print_tracked,
      scroll_down_in_region_tracked, sm_tracked, hard_reset_tracked, still_ok, save_cursor_still,
      rm_tracked, decstbm_still, soft_reset_tracked, pen_ops_tracked, set_tab_tracked.
  - apply still_ok, move_cursor_to_prev_tab_still.
  - apply still_ok, move_cursor_to_next_tab_still.
  - destruct op; [apply set_tab_tracked|by apply still_tracked..].
  - apply still_ok, cursor_down_still.
  - apply still_ok, move_cursor_to_rel_col_still.
  - apply still_ok, cursor_up_still.
  - apply modes_tracked, decrst_mode_tracked.
  - apply modes_tracked, decset_mode_tracked.
  - apply still_ok, move_cursor_to_next_tab_still.
  - apply scroll_down_in_region_tracked.
  - destruct scope; by apply still_tracked.
  - apply still_ok, cursor_down_still.
  - apply xtwinops_tracked, Hq.
Qed.
End functions.

(** * The emulator *)

(** Feeding characters one by one executes the functions that the parser finds in
    the string, in order. *)
Lemma feed_chars_functions `{UnicodeWidth} cs v :
  Vt.feed_chars cs v =
    '(p, fs) ← Parser.feed_all cs (Vt.parser v);
    s ← for_each fs Terminal.execute (Vt.terminal v);
    Some (Vt.Mk p s).
Proof.
  revert v. induction cs as [|c cs IH]; intros v; simpl; [by destruct v|].
  unfold Vt.feed. destruct (Parser.feed c (Vt.parser v)) as [[p [f|]]|]; simpl; [| |done].
  - destruct (Terminal.execute f (Vt.terminal v)) as [s|] eqn:E; simpl.
    + rewrite IH. simpl. destruct (Parser.feed_all cs p) as [[p' fs]|]; simpl; [|done]. by rewrite E.
    + destruct (Parser.feed_all cs p) as [[p' fs]|]; simpl; [|done]. by rewrite E.
  - rewrite IH. simpl. by destruct (Parser.feed_all cs p) as [[p' fs]|].
Qed.

Section changes.
Context `{UnicodeWidth} `{ResizePolicy}.
Implicit Types (s : Terminal.t) (b : Buffer.t) (v : Vt.t).

Lemma functions_tracked fs s :
  quiet s → Forall Fun.wf fs → Forall no_insert fs →
  for_each fs Terminal.execute s ↠ λ s', tracked s s' ∧ quiet s'.
Proof.
  intros Hs Hw Hn. revert s Hs. induction fs as [|f fs IH]; intros s Hs; simpl; [by split; [reflexivity|]|].
  apply Forall_cons in Hw as [Hf Hw]. apply Forall_cons in Hn as [Hnf Hn].
  apply Partial_bind_eq. intros s1 E.
  pose proof (Partial_elim _ _ _ (execute_tracked f s Hs Hnf) E) as Ht.
  destruct (Safe_elim _ _ (execute_Safe s f tidy_fit (proj1 Hs) Hf)) as (s1' & E' & Hs1 & _).
  assert (s1' = s1) as -> by congruence.
  eapply Partial_mono; [apply IH; [done..|split; [done|apply Ht, Hs]]|].
  intros s2 [Ht2 Hq2]. split; [|done]. by etrans.
Qed.

Lemma to_vec_elem (d : list bool) i : i ∈ DirtyLines.to_vec d ↔ d !! i = Some true.
Proof.
  unfold DirtyLines.to_vec. rewrite list_elem_of_omap. split.
  - intros ([j x] & Hin & Hx). apply list_elem_of_lookup in Hin as [k Hk].
    apply lookup_zip_with_Some in Hk as (j' & x' & [= -> ->] & Hj & Hd).
    apply lookup_seq in Hj as [-> _]. destruct x'; [|done]. by injection Hx as <-.
  - intros Hd. exists (i, true). split; [|done]. apply list_elem_of_lookup. exists i.
    apply lookup_zip_with_Some. exists i, true. split_and!; [done| |done].
    apply lookup_seq. split; [done|]. by eapply lookup_lt_Some.
Qed.

(** Trimming the scrollback does not move the screen. *)
Lemma gc_shown b b' gone i :
  wf_buffer true b → Buffer.gc b = Some (b', gone) → shown b' i = shown b i.
Proof.
  intros Hb E. pose proof (gc_Safe b Hb) as Hgc. rewrite E in Hgc.
  destruct Hgc as ([[Hs' _] (_ & Hr & _)] & Hl & _). destruct Hb as [Hs _].
  pose proof (shape_rows _ Hs) as Hrows. pose proof (shape_rows _ Hs') as Hrows'.
  unfold shown, Buffer.index, Buffer.view_offset. rewrite !csub_Some by lia. simpl.
  rewrite Hl, length_app in *. rewrite lookup_app_r by lia. do 2 f_equal. lia.
Qed.

Lemma feed_str_reports cs v v' ch fs p :
  wf_vt v → Terminal.insert_mode (Vt.terminal v) = false →
  Parser.feed_all cs (Vt.parser v) = Some (p, fs) → Forall no_insert fs →
  Vt.feed_str cs v = Some (v', ch) →
  ∀ i, i < Terminal.rows (Vt.terminal v) → i ∉ Vt.lines ch →
    shown (Terminal.buffer (Vt.terminal v')) i = shown (Terminal.buffer (Vt.terminal v)) i.
Proof.
  intros [Hp Hs] Hi Hfs Hn Hfeed i Hrow Hnot.
  destruct (Safe_elim _ _ (feed_all_Safe cs _ Hp)) as ([p' fs'] & E & _ & Hw).
  rewrite Hfs in E. injection E as <- <-.
  unfold Vt.feed_str in Hfeed. rewrite feed_chars_functions, Hfs in Hfeed. simpl in Hfeed.
  pose proof (functions_tracked fs (Vt.terminal v) (conj Hs Hi) Hw Hn) as Ht.
  assert (Hrun : for_each fs Terminal.execute (Vt.terminal v) ⇓ stepped (Vt.terminal v)).
  { apply for_each_Safe; [by split|]. intros f s1 Hf Hs1. rewrite Forall_forall in Hw.
    eapply Safe_mono; [apply execute_Safe; [done|apply Hs1|by apply Hw]|].
    intros s2 ?. by eapply stepped_trans. }
  destruct (for_each fs Terminal.execute (Vt.terminal v)) as [s|]; [|done]. simpl in *.
  destruct Ht as [[Ht _] [Hq _]], Hrun as (_ & _ & Hrows). unfold Vt.collect_changes in Hfeed.
  simpl in Hfeed. unfold Terminal.gc in Hfeed. simpl in Hfeed.
  destruct (Buffer.gc (Terminal.buffer s)) as [[b gone]|] eqn:Hgc; [|done]. simpl in Hfeed.
  injection Hfeed as <- <-. simpl in *.
  assert (Hd : Terminal.dirty_lines s !! i = Some false).
  { destruct (lookup_lt_is_Some_2 (Terminal.dirty_lines s) i) as [[] Hd]; [| |done].
    - rewrite (wt_dirty _ Hq), Hrows. done.
    - by destruct Hnot; apply to_vec_elem. }
  rewrite (gc_shown _ _ _ _ (wc_buffer _ (wt_core _ Hq)) Hgc). by apply Ht.
Qed.
End changes.
