(* ===== verification/Screens.v ===== *)
(** The two screens (ctmux/avt/src/terminal.rs, buffer.rs): the one not shown is
    left alone by everything but a switch of screens, a resize or a reset, and the
    scrollback never outgrows its limit once changes are collected.

    The statements are of partial correctness, as in Tracking. *)

From S2P Require Import Prelude.
From S2P Require Import Cells.
From S2P Require Import Lines.
From S2P Require Import Buffers.
From S2P Require Import Functions.
From S2P Require Import Tabs.
From S2P Require Import Terminal.
From S2P Require Import TerminalInv.
From S2P Require Import Parser.
From S2P Require Import ParserInv.
From S2P Require Import Vt.
From S2P Require Import VtInv.
From S2P Require Import Tracking.
From S2P Require Import Resizing.
From S2P Require Import Dump.
From S2P Require Import DumpTotal.

Create HintDb grows.

(** * Buffers *)

Section buffers.
Context `{UnicodeWidth}.
Implicit Types (b : Buffer.t).

(** A buffer that has lines added to it asks for a trim. *)
Definition grows b b' : Prop :=
  Buffer.rows b' = Buffer.rows b ∧ Buffer.cols b' = Buffer.cols b ∧
  Buffer.scrollback_limit b' = Buffer.scrollback_limit b ∧
  (Buffer.trim_needed b' = true ∨
   Buffer.trim_needed b' = Buffer.trim_needed b ∧
   length (Buffer.lines b') = length (Buffer.lines b)).

#[global] Instance grows_po : PreOrder grows.
Proof.
  split; [intros b; split_and!; auto|]. intros b1 b2 b3 (? & ? & ? & Ht1) (? & ? & ? & Ht2).
  split_and!; [congruence..|]. destruct Ht2 as [|[-> ->]]; auto.
Qed.

Lemma grows_bind b0 (m : option Buffer.t) f :
  m ↠ grows b0 → (∀ b, grows b0 b → f b ↠ grows b0) → (m ≫= f) ↠ grows b0.
Proof. intros. by eapply Partial_bind. Qed.

Lemma set_lines_grows b0 b ls :
  grows b0 b → length ls = length (Buffer.lines b) → grows b0 (Buffer.set_lines ls b).
Proof. intros Hb Hl. etrans; [exact Hb|]. split_and!; auto. Qed.

Lemma on_row_grows b0 b row f : grows b0 b → Buffer.on_row row f b ↠ grows b0.
Proof.
  intros Hb. unfold Buffer.on_row. apply Partial_bind_eq. intros o _.
  eapply Partial_bind; [apply modify_frame|]. intros ls [Hl _]. by apply set_lines_grows.
Qed.

Lemma on_rows_grows b0 b s e f :
  grows b0 b → (∀ m, f m ↠ λ m', length m' = length m) → Buffer.on_rows s e f b ↠ grows b0.
Proof.
  intros Hb Hf. unfold Buffer.on_rows. apply Partial_bind_eq. intros o _.
  eapply Partial_bind; [by apply on_range_frame|]. intros ls [Hl _]. by apply set_lines_grows.
Qed.

Lemma unwrap_row_grows b0 b row : grows b0 b → Buffer.unwrap_row row b ↠ grows b0.
Proof. apply on_row_grows. Qed.

Lemma wrap_grows b0 b row : grows b0 b → Buffer.wrap b row ↠ grows b0.
Proof. apply on_row_grows. Qed.

Lemma clear_grows b0 b s e p : grows b0 b → Buffer.clear b s e p ↠ grows b0.
Proof. intros Hb. apply on_rows_grows; [done|]. intros m. apply length_fmap. Qed.

Lemma clear_incoming_wrap_grows b0 b row : grows b0 b → Buffer.clear_incoming_wrap b row ↠ grows b0.
Proof.
  intros Hb. unfold Buffer.clear_incoming_wrap. apply Partial_bind_eq. intros o _.
  destruct (csub _ _); [|done]. eapply Partial_bind; [apply modify_frame|].
  intros ls [Hl _]. by apply set_lines_grows.
Qed.

Lemma shift_right_grows b0 b col row n p : grows b0 b → Buffer.shift_right b col row n p ↠ grows b0.
Proof. intros. apply Partial_bind_eq. intros k _. by apply on_row_grows. Qed.

Lemma delete_grows b0 b col row n p : grows b0 b → Buffer.delete b col row n p ↠ grows b0.
Proof. intros. apply Partial_bind_eq. intros k _. by apply on_row_grows. Qed.

Lemma buffer_print_grows b0 b col row ch p :
  grows b0 b → Buffer.print b col row ch p ↠ λ '(b', _), grows b0 b'.
Proof.
  intros Hb. unfold Buffer.print. do 2 (apply Partial_bind_eq; intros ? _).
  apply Partial_bind_eq. intros [l r] _. apply Partial_bind_eq. intros ls Hls.
  apply update_Some_inv in Hls as [_ ->]. simpl. apply set_lines_grows; [done|len].
Qed.

#[local] Hint Resolve unwrap_row_grows clear_grows clear_incoming_wrap_grows on_row_grows : grows.

Lemma erase_grows b0 b col row mode p : grows b0 b → Buffer.erase b col row mode p ↠ grows b0.
Proof.
  intros Hb. assert (Hid : ∀ b, grows b0 b → Some b ↠ grows b0) by done.
  destruct mode; unfold Buffer.erase;
    repeat first
      [ apply Partial_bind_eq; intros ? _; by auto with grows
      | apply grows_bind; [try case_decide; auto with grows|intros ? ?]
      | by auto with grows ].
Qed.

Lemma scroll_up_grows b0 b s e n p : grows b0 b → Buffer.scroll_up b s e n p ↠ grows b0.
Proof.
  intros Hb. unfold Buffer.scroll_up. do 3 (apply Partial_bind_eq; intros ? _).
  apply (Partial_bind _ _ (grows b0)); [case_decide; auto with grows|]. intros b1 Hb1.
  apply (Partial_bind _ _ (λ b2, grows b0 (Buffer.set_trim_needed true b2))); [|done].
  destruct Hb1 as (Hr1 & Hc1 & Hl1 & Ht1). case_decide; [case_decide|].
  - simpl. split_and!; auto.
  - apply Partial_bind_eq. intros k _. apply Partial_bind_eq. intros ls _. simpl. split_and!; auto.
  - apply Partial_bind_eq. intros prev _.
    eapply (Partial_bind _ _ (grows b0)); [apply unwrap_row_grows; by split_and!|]. intros b2 Hb2.
    eapply (Partial_bind _ _ (grows b0)); [apply on_rows_grows; [done|apply rotate_left_length]|].
    intros b3 Hb3. apply Partial_bind_eq. intros from _.
    eapply Partial_mono; [by apply clear_grows|]. intros b4 (? & ? & ? & _). split_and!; auto.
Qed.

Lemma scroll_down_grows b0 b s e n p : grows b0 b → Buffer.scroll_down b s e n p ↠ grows b0.
Proof.
  intros Hb. unfold Buffer.scroll_down. apply Partial_bind_eq. intros size _.
  apply grows_bind; [apply on_rows_grows; [done|apply rotate_right_length]|]. intros b1 Hb1.
  apply grows_bind; [by apply clear_grows|]. intros b2 Hb2.
  apply grows_bind.
  { case_decide; [|done]. apply Partial_bind_eq. intros prev _. by apply unwrap_row_grows. }
  intros b3 Hb3. apply Partial_bind_eq. intros last _. by apply unwrap_row_grows.
Qed.
End buffers.

(** * The terminal *)

Section terminal.
Context `{UnicodeWidth}.
Implicit Types (s : Terminal.t) (b : Buffer.t).
Import Terminal.

(** The other screen and the choice of screen are kept, the shown one edited. *)
Definition evolves s s' : Prop :=
  other_buffer s' = other_buffer s ∧ active_buffer_type s' = active_buffer_type s ∧
  alternate_saved_ctx s' = alternate_saved_ctx s ∧ scrollback_limit s' = scrollback_limit s ∧
  grows (buffer s) (buffer s').

#[global] Instance evolves_po : PreOrder evolves.
Proof.
  split; [intros s; by split_and!|]. intros s1 s2 s3 (? & ? & ? & ? & ?) (? & ? & ? & ? & ?).
  split_and!; [congruence..|by etrans].
Qed.

Lemma set_buffer_evolves s0 s b :
  evolves s0 s → grows (buffer s0) b → evolves s0 (set_buffer b s).
Proof. intros (? & ? & ? & ? & ?) ?. by split_and!. Qed.

Lemma evolves_grows s0 s : evolves s0 s → grows (buffer s0) (buffer s).
Proof. by intros (_ & _ & _ & _ & ?). Qed.

Lemma evolves_buffer_bind s0 s (m : option Buffer.t) (k : Buffer.t → option t) :
  evolves s0 s → m ↠ grows (buffer s0) →
  (∀ b, evolves s0 (set_buffer b s) → k b ↠ evolves s0) → (m ≫= k) ↠ evolves s0.
Proof.
  intros Hs Hm Hk. eapply Partial_bind; [exact Hm|]. intros b Hb.
  apply Hk. by apply set_buffer_evolves.
Qed.

Lemma for_each_evolves {A} (l : list A) f s0 s :
  evolves s0 s → (∀ x s, evolves s0 s → f x s ↠ evolves s0) → for_each l f s ↠ evolves s0.
Proof.
  intros Hs Hf. revert s Hs. induction l as [|x l IH]; intros s Hs; simpl; [done|].
  eapply Partial_bind; [by apply Hf|]. intros s1 Hs1. by apply IH.
Qed.

Lemma buffer_print_evolves s0 s col row ch p :
  evolves s0 s → buffer_print col row ch p s ↠ λ '(s', _), evolves s0 s'.
Proof.
  intros Hs. unfold buffer_print.
  eapply Partial_bind; [apply buffer_print_grows, evolves_grows, Hs|]. intros [b r] Hb. simpl.
  by apply set_buffer_evolves.
Qed.

Lemma dirty_add_evolves s0 s n : evolves s0 s → dirty_add n s ↠ evolves s0.
Proof. intros Hs. unfold dirty_add. apply Partial_bind_eq. by intros d _. Qed.

Lemma dirty_extend_evolves s0 s st e : evolves s0 s → dirty_extend st e s ↠ evolves s0.
Proof. intros Hs. unfold dirty_extend. apply Partial_bind_eq. by intros d _. Qed.
End terminal.

Create HintDb evolves.
#[export] Hint Resolve dirty_add_evolves dirty_extend_evolves evolves_grows unwrap_row_grows
  wrap_grows shift_right_grows delete_grows scroll_up_grows scroll_down_grows erase_grows : evolves.

(** Walk through an operation, one bind or branch at a time. *)
Ltac evolve_step :=
  match goal with
  | |- Partial (match ?x with (_, _) => _ end) _ => destruct x
  | |- Partial (mbind _ (Terminal.buffer_print _ _ _ _ _)) _ =>
      eapply Partial_bind; [by apply buffer_print_evolves|intros [? ?] ?]
  | |- Partial (@mbind option _ Buffer.t _ _ _) _ =>
      eapply evolves_buffer_bind; [eassumption|by auto with evolves|intros ? ?]
  | |- Partial (@mbind option _ Terminal.t _ _ _) (evolves ?s0) =>
      apply (Partial_bind _ _ (evolves s0)); [|intros ? ?]
  | |- Partial (mbind _ _) _ => apply Partial_bind_eq; intros ? _
  | |- Partial (Terminal.for_each _ _ _) _ => apply for_each_evolves; [|intros ? ? ?]
  | |- Partial (if decide _ then _ else _) _ => case_decide
  | |- Partial (if ?b then _ else _) _ => destruct b
  | |- Partial (match ?x with _ => _ end) _ => destruct x
  | |- Partial (Some _) _ => simpl
  | |- evolves _ (match ?x with _ => _ end) => destruct x
  | |- _ => by auto with evolves
  | |- _ => done
  end.
Ltac evolve := repeat evolve_step.

Section functions.
Context `{UnicodeWidth}.
Implicit Types (s : Terminal.t) (b : Buffer.t).
Import Terminal.

Lemma scroll_up_in_region_evolves s0 s n : evolves s0 s → scroll_up_in_region n s ↠ evolves s0.
Proof. intros Hs. unfold scroll_up_in_region. evolve. Qed.

Lemma scroll_down_in_region_evolves s0 s n : evolves s0 s → scroll_down_in_region n s ↠ evolves s0.
Proof. intros Hs. unfold scroll_down_in_region. evolve. Qed.

#[local] Hint Resolve scroll_up_in_region_evolves scroll_down_in_region_evolves : evolves.

Lemma do_move_cursor_to_row_evolves s0 s row : evolves s0 s → do_move_cursor_to_row row s ↠ evolves s0.
Proof. intros Hs. unfold do_move_cursor_to_row. evolve. Qed.

Lemma move_cursor_to_row_evolves s0 s row : evolves s0 s → move_cursor_to_row row s ↠ evolves s0.
Proof.
  intros Hs. apply Partial_bind_eq. intros ? _. by apply do_move_cursor_to_row_evolves.
Qed.

Lemma move_cursor_to_col_evolves s0 s col : evolves s0 s → move_cursor_to_col col s ↠ evolves s0.
Proof. intros Hs. unfold move_cursor_to_col. evolve. Qed.

Lemma move_cursor_to_rel_col_evolves s0 s z : evolves s0 s → move_cursor_to_rel_col z s ↠ evolves s0.
Proof. intros Hs. unfold move_cursor_to_rel_col. evolve. Qed.

Lemma save_cursor_evolves s0 s : evolves s0 s → save_cursor s ↠ evolves s0.
Proof. intros Hs. unfold save_cursor. evolve. Qed.

#[local] Hint Resolve do_move_cursor_to_row_evolves move_cursor_to_row_evolves
  move_cursor_to_col_evolves move_cursor_to_rel_col_evolves save_cursor_evolves : evolves.

Lemma move_cursor_home_evolves s0 s : evolves s0 s → move_cursor_home s ↠ evolves s0.
Proof. intros Hs. by apply do_move_cursor_to_row_evolves. Qed.

Lemma cursor_down_evolves s0 s n : evolves s0 s → cursor_down n s ↠ evolves s0.
Proof. intros Hs. unfold cursor_down. evolve. Qed.

Lemma cursor_up_evolves s0 s n : evolves s0 s → cursor_up n s ↠ evolves s0.
Proof. intros Hs. by apply do_move_cursor_to_row_evolves. Qed.

Lemma next_tab_evolves s0 s n : evolves s0 s → move_cursor_to_next_tab n s ↠ evolves s0.
Proof. intros Hs. unfold move_cursor_to_next_tab. evolve. Qed.

Lemma prev_tab_evolves s0 s n : evolves s0 s → move_cursor_to_prev_tab n s ↠ evolves s0.
Proof. intros Hs. unfold move_cursor_to_prev_tab. evolve. Qed.

Lemma move_down_scroll_evolves s0 s : evolves s0 s → move_cursor_down_with_scroll s ↠ evolves s0.
Proof. intros Hs. unfold move_cursor_down_with_scroll. evolve. Qed.

#[local] Hint Resolve move_cursor_home_evolves cursor_down_evolves cursor_up_evolves
  next_tab_evolves prev_tab_evolves move_down_scroll_evolves : evolves.

Lemma try_print_evolves s0 s ch : evolves s0 s → try_print ch s ↠ λ '(s', _), evolves s0 s'.
Proof.
  intros Hs. unfold try_print. case_decide; [done|].
  apply (Partial_bind _ _ (evolves s0)); [evolve|]. intros s1 Hs1.
  eapply Partial_bind; [by apply buffer_print_evolves|]. by intros [s2 r] ?.
Qed.

Lemma print_evolves s0 s ch : evolves s0 s → print ch s ↠ evolves s0.
Proof.
  intros Hs. unfold print. do 2 (apply Partial_bind_eq; intros ? _).
  eapply Partial_bind; [by apply try_print_evolves|]. intros [s1 r] Hs1.
  apply (Partial_bind _ _ (evolves s0)); [|by auto with evolves].
  destruct r; [unfold advance_cursor_after_print; evolve|].
  destruct (auto_wrap_mode s1); [unfold wrap_and_print_at_line_start|unfold print_at_line_end];
    evolve.
Qed.

#[local] Hint Resolve print_evolves : evolves.

(** The functions that leave the choice of screen alone. *)
Definition no_switch_mode (mode : DecMode.t) : Prop :=
  mode ≠ DecMode.AltScreenBuffer ∧ mode ≠ DecMode.SaveCursorAltScreenBuffer.
Definition no_switch (f : Fun.t) : Prop :=
  match f with
  | Fun.Decset modes | Fun.Decrst modes =>
      ∀ l, SmallVec.as_slice modes = Some l → Forall no_switch_mode l
  | Fun.Ris => False
  | Fun.Xtwinops _ => False
  | _ => True
  end.

Lemma modes_evolve (modes : DecModes.t) f s0 s :
  evolves s0 s → (∀ l, SmallVec.as_slice modes = Some l → Forall no_switch_mode l) →
  (∀ mode s, no_switch_mode mode → evolves s0 s → f mode s ↠ evolves s0) →
  (ms ← SmallVec.as_slice modes; for_each ms f s) ↠ evolves s0.
Proof.
  intros Hs Hl Hf. apply Partial_bind_eq. intros l E. specialize (Hl l E). clear E.
  revert s Hs. induction Hl as [|m l Hm Hl IH]; intros s Hs; simpl; [done|].
  eapply Partial_bind; [by apply Hf|]. intros s1 Hs1. by apply IH.
Qed.

(** A function that does not switch screens keeps the other one. *)
Lemma execute_evolves f s : no_switch f → execute f s ↠ evolves s.
Proof.
  intros Hn. assert (Hs : evolves s s) by done.
  destruct f; simpl;
    unfold bs, cbt, cha, cht, cnl, cpl, ctc, cub, cud, cuf, cup, cuu, dch, decaln, rc, sc, decstbm, decstr,
      dl, ech, ed, el, g1d4, gzd4, ht, hts, ich, il, lf, nel, rep, ri, rm, sd, sgr, sm, su, tbc,
      vpa, vpr, soft_reset, set_tab, buffer_erase.
  all: try (by evolve).
  - apply modes_evolve; [done|exact Hn|]. intros [] s1 [? ?] Hs1; simpl; try done. evolve.
  - apply modes_evolve; [done|exact Hn|]. intros [] s1 [? ?] Hs1; simpl; try done; evolve.
  - do 2 (apply Partial_bind_eq; intros ? _). apply move_cursor_home_evolves. by case_decide.
Qed.
End functions.

(** * The scrollback *)

Section scrollback.
Context `{UnicodeWidth}.
Implicit Types (s : Terminal.t) (b : Buffer.t) (v : Vt.t).
Import Terminal.

Definition within_limit b : Prop :=
  ∀ limit, Buffer.scrollback_limit b = Some limit →
    length (Buffer.lines b) ≤ Buffer.rows b + limit.

(** A buffer over its limit has asked for a trim. *)
Definition trim_ok b : Prop := Buffer.trim_needed b = true ∨ within_limit b.
Definition screens_ok s : Prop := trim_ok (buffer s) ∧ trim_ok (other_buffer s).

Lemma grows_trim_ok b b' : grows b b' → trim_ok b → trim_ok b'.
Proof.
  intros (Hr & _ & Hl & Ht) Hb. destruct Ht as [|[Ht Hlen]]; [by left|].
  destruct Hb as [|Hb]; [left; congruence|]. right. unfold within_limit in *.
  by rewrite Hr, Hl, Hlen.
Qed.

Lemma new_trim_ok cols rows limit p : trim_ok (Buffer.new cols rows limit p).
Proof. right. intros l _. simpl. rewrite length_replicate. lia. Qed.

Lemma resize_rows_trims b new_cols new_rows old_rows cursor :
  Buffer.resize_rows b new_cols new_rows old_rows cursor ↠ λ '(b', _), Buffer.trim_needed b' = true.
Proof. unfold Buffer.resize_rows. apply Partial_bind_eq. by intros [b' row] _. Qed.

Lemma resize_trims b new_cols new_rows cursor :
  Buffer.resize b new_cols new_rows cursor ↠ λ '(b', _), Buffer.trim_needed b' = true.
Proof.
  unfold Buffer.resize. do 2 (apply Partial_bind_eq; intros ? _).
  destruct a0 as [[b' c'] o']. apply resize_rows_trims.
Qed.

Lemma resize_preserving_trims b new_cols new_rows cursor :
  Buffer.resize_preserving_cursor b new_cols new_rows cursor ↠ λ '(b', _),
    Buffer.trim_needed b' = true.
Proof.
  unfold Buffer.resize_preserving_cursor. case_decide; [apply resize_trims|].
  do 2 (apply Partial_bind_eq; intros ? _). destruct a0 as [[b' c'] o']. apply resize_rows_trims.
Qed.

Lemma reflow_screens_ok s : trim_ok (other_buffer s) → reflow s ↠ screens_ok.
Proof.
  intros Ho. unfold reflow.
  apply (Partial_bind _ _ (λ '(b, _), Buffer.trim_needed b = true)).
  { destruct (_ && _); [apply resize_preserving_trims|apply resize_trims]. }
  intros [b [col row]] Hb. apply Partial_bind_eq. intros s1 E. unfold dirty_extend in E.
  apply bind_Some in E as (d & _ & [= <-]). do 2 (apply Partial_bind_eq; intros ? _).
  split; [by left|done].
Qed.

Lemma switch_to_alternate_ok s : screens_ok s → switch_to_alternate_buffer s ↠ screens_ok.
Proof.
  intros [? ?]. unfold switch_to_alternate_buffer. destruct (active_buffer_type s); [|done].
  apply Partial_bind_eq. intros d _. split; [apply new_trim_ok|done].
Qed.

Lemma switch_to_primary_ok s : screens_ok s → switch_to_primary_buffer s ↠ screens_ok.
Proof.
  intros [? ?]. unfold switch_to_primary_buffer. destruct (active_buffer_type s); [done|].
  apply Partial_bind_eq. by intros d _.
Qed.

Lemma evolves_screens_ok s s' : evolves s s' → screens_ok s → screens_ok s'.
Proof. intros (Ho & _ & _ & _ & Hg) [? ?]. split; [by eapply grows_trim_ok|by rewrite Ho]. Qed.

Lemma modes_screens_ok (modes : DecModes.t) f s :
  screens_ok s → (∀ mode s, screens_ok s → f mode s ↠ screens_ok) →
  (ms ← SmallVec.as_slice modes; for_each ms f s) ↠ screens_ok.
Proof.
  intros Hs Hf. apply Partial_bind_eq. intros l _. revert s Hs.
  induction l as [|m l IH]; intros s Hs; simpl; [done|].
  eapply Partial_bind; [by apply Hf|]. intros s1 Hs1. by apply IH.
Qed.

Lemma evolving_mode_ok (m : option t) s : m ↠ evolves s → screens_ok s → m ↠ screens_ok.
Proof. intros Hm Hs. eapply Partial_mono; [exact Hm|]. intros s' ?. by eapply evolves_screens_ok. Qed.

Lemma decset_mode_ok mode s : screens_ok s → decset_mode mode s ↠ screens_ok.
Proof.
  intros Hs. assert (evolves s s) by done. destruct mode; simpl; try done.
  - eapply evolving_mode_ok; [by apply move_cursor_home_evolves|done].
  - eapply Partial_bind; [by apply switch_to_alternate_ok|]. intros s1 [_ ?]. by apply reflow_screens_ok.
  - eapply evolving_mode_ok; [by apply save_cursor_evolves|done].
  - eapply Partial_bind; [eapply evolving_mode_ok; [by apply save_cursor_evolves|done]|].
    intros s1 Hs1. eapply Partial_bind; [by apply switch_to_alternate_ok|].
    intros s2 [_ ?]. by apply reflow_screens_ok.
Qed.

Lemma decrst_mode_ok mode s : screens_ok s → decrst_mode mode s ↠ screens_ok.
Proof.
  intros Hs. assert (evolves s s) by done. destruct mode; simpl; try done.
  - eapply evolving_mode_ok; [by apply move_cursor_home_evolves|done].
  - eapply Partial_bind; [by apply switch_to_primary_ok|]. intros s1 [_ ?]. by apply reflow_screens_ok.
  - eapply Partial_bind; [by apply switch_to_primary_ok|]. intros s1 [_ ?]. by apply reflow_screens_ok.
Qed.

Lemma terminal_resize_ok cols rows s :
  screens_ok s → Terminal.resize cols rows s ↠ λ '(s', _), screens_ok s'.
Proof.
  intros [_ Ho]. unfold Terminal.resize.
  set (r1 := match Nat.compare cols (Terminal.cols s) with Lt => _ | Eq => _ | Gt => _ end).
  assert (other_buffer r1.1 = other_buffer s) as Hr1 by (by subst r1; case_match).
  destruct r1 as [s1 resized]. simpl in Hr1.
  apply (Partial_bind _ _ (λ '(s2, _), other_buffer s2 = other_buffer s)).
  { case_match; [done|..]; apply Partial_bind_eq; by intros bm _. }
  intros [s2 resized2] Hs2. eapply Partial_bind; [apply reflow_screens_ok; simpl; by rewrite Hs2|].
  by intros s3 ?.
Qed.

Lemma execute_screens_ok f s : screens_ok s → execute f s ↠ screens_ok.
Proof.
  intros Hs.
  assert (Hev : no_switch f → execute f s ↠ screens_ok).
  { intros Hn. by eapply evolving_mode_ok; [apply execute_evolves|]. }
  destruct f; try (by apply Hev); simpl.
  - apply modes_screens_ok; [done|apply decrst_mode_ok].
  - apply modes_screens_ok; [done|apply decset_mode_ok].
  - unfold ris, hard_reset. apply Partial_bind_eq. intros last _. simpl.
    split; apply new_trim_ok.
  - unfold xtwinops. destruct (xtwinops_enabled s); [|done]. destruct op.
    eapply Partial_bind; [by apply terminal_resize_ok|]. by intros [s1 r] ?.
Qed.

Lemma functions_screens_ok fs s : screens_ok s → for_each fs execute s ↠ screens_ok.
Proof.
  revert s. induction fs as [|f fs IH]; intros s Hs; simpl; [done|].
  eapply Partial_bind; [by apply execute_screens_ok|]. intros s1 ?. by apply IH.
Qed.

(** Trimming brings the buffer within its limit, and only removes its oldest lines. *)
Lemma gc_within b b' gone :
  wf_buffer true b → trim_ok b → Buffer.gc b = Some (b', gone) →
  within_limit b' ∧ Buffer.lines b = default [] gone ++ Buffer.lines b'.
Proof.
  intros Hb Hok E. pose proof (gc_Safe b Hb) as Hgc. rewrite E in Hgc.
  destruct Hgc as ([_ (_ & Hr & Hl)] & Hlines & Hlim). split; [|done].
  intros limit Hlimit. rewrite Hl in Hlimit. rewrite Hr.
  destruct Hok as [Ht|Hw]; [by apply Hlim|]. specialize (Hw limit Hlimit).
  rewrite Hlines, length_app in Hw. lia.
Qed.

Context `{ResizePolicy}.

Lemma collect_within v v' ch :
  wf_vt v → screens_ok (Vt.terminal v) → Vt.collect_changes v = Some (v', ch) →
  screens_ok (Vt.terminal v') ∧ within_limit (buffer (Vt.terminal v')).
Proof.
  intros [_ Hs] [Hb Ho] E. unfold Vt.collect_changes, Terminal.gc in E. simpl in E.
  destruct (Buffer.gc _) as [[b gone]|] eqn:Hgc; [|done]. injection E as <- <-. simpl.
  destruct (gc_within _ _ _ (wc_buffer _ (wt_core _ Hs)) Hb Hgc) as [Hw _].
  split; [|done]. split; [by right|done].
Qed.

Lemma feed_str_within cs v v' ch :
  wf_vt v → screens_ok (Vt.terminal v) → Vt.feed_str cs v = Some (v', ch) →
  screens_ok (Vt.terminal v') ∧ within_limit (buffer (Vt.terminal v')).
Proof.
  intros Hv Hok E. unfold Vt.feed_str in E.
  apply bind_Some in E as (v1 & Ef & Ec).
  destruct (Safe_elim _ _ (feed_chars_Safe cs v tidy_fit Hv)) as (v1' & E1 & Hv1 & _).
  assert (v1' = v1) as -> by congruence. eapply collect_within; [done| |exact Ec].
  rewrite feed_chars_functions in Ef. apply bind_Some in Ef as ([p fs] & _ & Ef).
  apply bind_Some in Ef as (s & Es & [= <-]). simpl.
  by apply (Partial_elim _ _ _ (functions_screens_ok fs _ Hok) Es).
Qed.

Lemma resize_within cols rows v v' ch :
  wf_vt v → 2 ≤ cols → 1 ≤ rows → resize_ok (Vt.terminal v) cols →
  screens_ok (Vt.terminal v) → Vt.resize cols rows v = Some (v', ch) →
  screens_ok (Vt.terminal v') ∧ within_limit (buffer (Vt.terminal v')).
Proof.
  intros [Hp Hs] Hc Hr Hrok Hok E. unfold Vt.resize in E.
  apply bind_Some in E as ([s1 resized] & Es & Ec).
  destruct (Safe_elim _ _ (resize_terminal_Safe _ _ _ Hs Hc Hr Hrok)) as ([s1' r'] & E1 & Hs1 & _).
  assert (s1' = s1) as -> by congruence.
  pose proof (Partial_elim _ _ _ (terminal_resize_ok cols rows _ Hok) Es).
  by apply (collect_within _ _ _ (conj Hp Hs1 : wf_vt (Vt.Mk (Vt.parser v) s1)) ltac:(done) Ec).
Qed.
End scrollback.

Section emulator.
Context `{UnicodeWidth}.
Implicit Types (v : Vt.t).

Lemma build_screens b v :
  Vt.Builder.build b = Some v →
  screens_ok (Vt.terminal v) ∧ within_limit (Terminal.buffer (Vt.terminal v)).
Proof.
  intros E. unfold Vt.Builder.build in E. apply bind_Some in E as (s & E & [= <-]).
  unfold Terminal.new in E. apply bind_Some in E as (last & _ & [= <-]). simpl.
  split; [split; apply new_trim_ok|]. intros l _. simpl. rewrite length_replicate. lia.
Qed.

Lemma functions_evolve fs s :
  Forall no_switch fs → for_each fs Terminal.execute s ↠ evolves s.
Proof.
  intros Hn. revert s. induction Hn as [|f fs Hf Hn IH]; intros s; simpl; [reflexivity|].
  eapply Partial_bind; [by apply execute_evolves|]. intros s1 Hs1.
  eapply Partial_mono; [apply IH|]. intros s2 Hs2. by etrans.
Qed.

Lemma feed_str_hidden cs v v' ch fs p :
  Parser.feed_all cs (Vt.parser v) = Some (p, fs) → Forall no_switch fs →
  Vt.feed_str cs v = Some (v', ch) →
  Terminal.other_buffer (Vt.terminal v') = Terminal.other_buffer (Vt.terminal v) ∧
  Terminal.active_buffer_type (Vt.terminal v') = Terminal.active_buffer_type (Vt.terminal v) ∧
  Terminal.alternate_saved_ctx (Vt.terminal v') = Terminal.alternate_saved_ctx (Vt.terminal v).
Proof.
  intros Hp Hn E. unfold Vt.feed_str in E. rewrite feed_chars_functions, Hp in E. simpl in E.
  pose proof (functions_evolve fs (Vt.terminal v) Hn) as Hev.
  destruct (for_each fs _ _) as [s|]; [|done]. simpl in *. destruct Hev as (? & ? & ? & _).
  unfold Vt.collect_changes, Terminal.gc in E. simpl in E.
  destruct (Buffer.gc _) as [[b gone]|]; [|done]. by injection E as <- <-.
Qed.
End emulator.

Import Terminal.

(** * Sizes

    Both screens of a terminal keep their size: input changes neither the size of the
    terminal nor makes the screen kept aside larger, so a terminal that starts small
    enough for 16-bit positions stays so, and can always be dumped. *)

Section sizes.
Context `{UnicodeWidth} `{ResizePolicy} `{Upkeep}.
Implicit Types (s : Terminal.t) (v : Vt.t).

(** Input needs more than any resize keeps. *)
Context (Hl : upkeep ≠ Loose).

(** A well-formed terminal whose positions, and those of the screen aside, fit 16 bits *)
Record sized s : Prop := {
  z_wf : wf_term s;
  z_cols : (N.of_nat (cols s) < 65535)%N;
  z_rows : (N.of_nat (rows s) < 65536)%N;
  z_aside : small (other_buffer s) }.

Lemma sized_shown s : sized s → small (buffer s).
Proof. intros [Hw Hc Hr _]. destruct (wt_dims _ Hw) as [Ec Er]. split; congruence. Qed.

Definition keeps_size s s' : Prop := sized s' ∧ cols s' = cols s ∧ rows s' = rows s.

(** A step that stays well formed and keeps the screen aside small keeps the sizes. *)
Lemma stepped_sized s (m : option Terminal.t) : sized s → m ⇓ stepped s →
  m ↠ (λ s', small (other_buffer s')) → m ⇓ keeps_size s.
Proof.
  intros [_ Hc Hr _]. destruct m as [s'|]; simpl; [|done]. intros (Hw & Ec & Er) Ho.
  split_and!; [split; [done|by rewrite Ec|by rewrite Er|done]|done|done].
Qed.

Lemma reflow_aside s : reflow s ↠ λ s', other_buffer s' = other_buffer s.
Proof.
  unfold reflow. apply Partial_bind_eq. intros [b [col row]] _.
  apply Partial_bind_eq. intros s1 Es1. unfold dirty_extend in Es1.
  destruct (DirtyLines.extend _ _ _) as [dirty|]; [|done]. injection Es1 as <-.
  apply Partial_bind_eq. intros c _. apply Partial_bind_eq. by intros r _.
Qed.

Lemma switch_aside s : sized s → (switch_to_alternate_buffer s ↠ λ s', small (other_buffer s')) ∧
  (switch_to_primary_buffer s ↠ λ s', small (other_buffer s')).
Proof.
  intros Hs. pose proof (sized_shown _ Hs). pose proof (z_aside _ Hs).
  unfold switch_to_alternate_buffer, switch_to_primary_buffer.
  destruct (active_buffer_type s); (split; [|]); try done; apply Partial_bind_eq; intros d Ed; done.
Qed.

Lemma evolves_aside s (m : option Terminal.t) : sized s → m ↠ evolves s → m ↠ (λ s', small (other_buffer s')).
Proof. intros Hs. destruct m; [|done]. intros (Eo & _). simpl. rewrite Eo. apply Hs. Qed.

Lemma save_sized s : sized s → save_cursor s ⇓ keeps_size s.
Proof.
  intros Hs. apply stepped_sized; [done|apply save_cursor_Safe; apply Hs|].
  apply (evolves_aside s); [done|by apply save_cursor_evolves].
Qed.

Lemma then_reflow (m : option Terminal.t) : m ↠ (λ s', small (other_buffer s')) →
  (s' ← m; reflow s') ↠ λ s', small (other_buffer s').
Proof.
  intros Hm. eapply Partial_bind; [exact Hm|]. intros s1 Hs1.
  eapply Partial_mono; [apply reflow_aside|]. by intros s2 ->.
Qed.

Lemma decset_mode_sized s mode : sized s → decset_mode mode s ⇓ keeps_size s.
Proof.
  intros Hs. apply stepped_sized; [done|apply decset_mode_Safe, Hs|].
  pose proof (z_aside _ Hs). assert (evolves s s) by done. destruct mode; simpl; try done.
  - apply (evolves_aside s); [done|by apply move_cursor_home_evolves].
  - apply then_reflow. exact (proj1 (switch_aside _ Hs)).
  - apply (evolves_aside s); [done|by apply save_cursor_evolves].
  - destruct (Safe_elim _ _ (save_sized _ Hs)) as (s1 & -> & Hs1 & _). cbn [mbind option_bind].
    apply then_reflow. exact (proj1 (switch_aside _ Hs1)).
Qed.

Lemma decrst_mode_sized s mode : sized s → decrst_mode mode s ⇓ keeps_size s.
Proof.
  intros Hs. apply stepped_sized; [done|apply decrst_mode_Safe; [done|apply Hs]|].
  pose proof (z_aside _ Hs). assert (evolves s s) by done. destruct mode; simpl; try done.
  - apply (evolves_aside s); [done|by apply move_cursor_home_evolves].
  - apply then_reflow. exact (proj2 (switch_aside _ Hs)).
  - eapply Partial_bind; [exact (proj2 (switch_aside _ Hs))|]. intros s1 Hs1.
    eapply Partial_mono; [apply reflow_aside|]. by intros s2 ->.
Qed.

Lemma modes_sized s (modes : DecModes.t) (f : DecMode.t → Terminal.t → option Terminal.t) :
  sized s → is_Some (SmallVec.as_slice modes) → (∀ mode s, sized s → f mode s ⇓ keeps_size s) →
  (ms ← SmallVec.as_slice modes; for_each ms f s) ⇓ keeps_size s.
Proof.
  intros Hs [l ->] Hf. cbn [mbind option_bind].
  assert (∀ s1, keeps_size s s1 → for_each l f s1 ⇓ keeps_size s) as Hall; [|by apply Hall].
  induction l as [|mode l IH]; intros s1 Hk; [done|]. cbn.
  destruct Hk as (Hs1 & Ec & Er).
  eapply Safe_bind; [by apply Hf|]. intros s2 (Hs2 & Ec2 & Er2). apply IH.
  split_and!; [done|congruence|congruence].
Qed.

Lemma execute_sized s f : sized s → Fun.wf f → execute f s ⇓ keeps_size s.
Proof.
  intros Hs Hf.
  assert (no_switch f → execute f s ⇓ keeps_size s) as Hev.
  { intros Hn. apply stepped_sized; [done|apply execute_Safe; [done|apply Hs|done]|].
    apply (evolves_aside s); [done|by apply execute_evolves]. }
  destruct f; try (by apply Hev); simpl in *.
  - apply modes_sized; [done|by eapply slice_Some|]. intros mode s1. apply decrst_mode_sized.
  - apply modes_sized; [done|by eapply slice_Some|]. intros mode s1. apply decset_mode_sized.
  - apply stepped_sized; [done|by apply hard_reset_Safe, Hs|].
    unfold ris, hard_reset. apply Partial_bind_eq. intros last _. simpl. split; simpl; apply Hs.
  - unfold xtwinops. rewrite (wc_xtwinops _ (wt_core _ (z_wf _ Hs))). by split.
Qed.

(** ** The emulator *)

Definition sized_vt v : Prop := wf_parser (Vt.parser v) ∧ sized (Vt.terminal v).

Lemma feed_sized c v : sized_vt v → Vt.feed c v ⇓ λ v', sized_vt v' ∧ Vt.size v' = Vt.size v.
Proof.
  intros [Hp Hs]. unfold Vt.feed.
  eapply Safe_bind; [by apply feed_Safe|]. intros [p [f|]] [[Hp' _] Hf]; [|by split].
  eapply Safe_bind; [apply execute_sized; [done|by apply Hf]|].
  intros s' (Hs' & Hc & Hr). split; [by split|]. unfold Vt.size, Terminal.size. simpl. by rewrite Hc, Hr.
Qed.

Lemma feed_chars_sized cs : ∀ v, sized_vt v → Vt.feed_chars cs v ⇓ λ v', sized_vt v' ∧ Vt.size v' = Vt.size v.
Proof.
  induction cs as [|c cs IH]; intros v Hv; simpl; [by split|].
  eapply Safe_bind; [by apply feed_sized|]. intros v1 [Hv1 Hsz].
  eapply Safe_mono; [by apply IH|]. intros v2 [? ?]. split; [done|congruence].
Qed.

Lemma collect_sized v : sized_vt v → Vt.collect_changes v ⇓ λ '(v', _), sized_vt v' ∧ Vt.size v' = Vt.size v.
Proof.
  intros [Hp Hs]. pose proof (collect_changes_Safe v (conj Hp (z_wf _ Hs))) as Hc.
  assert (Vt.collect_changes v ↠ λ '(v', _), other_buffer (Vt.terminal v') = other_buffer (Vt.terminal v)) as Ho.
  { unfold Vt.collect_changes, Terminal.changes. unfold Terminal.gc. simpl.
    destruct (Buffer.gc _) as [[b gone]|]; simpl; done. }
  destruct (Vt.collect_changes v) as [[v' changes]|]; simpl in *; [|done].
  destruct Hc as [[Hp' Hw'] Hsz]. split; [|done]. split; [done|].
  pose proof Hsz as E. unfold Vt.size, Terminal.size in E. injection E as Ec Er.
  destruct Hs. split; [done|congruence|congruence|by rewrite Ho].
Qed.

Lemma feed_str_sized cs v : sized_vt v → Vt.feed_str cs v ⇓ λ '(v', _), sized_vt v' ∧ Vt.size v' = Vt.size v.
Proof.
  intros Hv. unfold Vt.feed_str. eapply Safe_bind; [by apply feed_chars_sized|].
  intros v1 [Hv1 E]. eapply Safe_mono; [by apply collect_sized|].
  intros [v2 ch] [? ?]. split; [done|congruence].
Qed.

Lemma build_sized b : Vt.Builder.reflow_cursor_line b = reflows →
  2 ≤ (Vt.Builder.size b).1 → 1 ≤ (Vt.Builder.size b).2 →
  (N.of_nat (Vt.Builder.size b).1 < 65535)%N → (N.of_nat (Vt.Builder.size b).2 < 65536)%N →
  Vt.Builder.build b ⇓ λ v, sized_vt v ∧ Vt.size v = Vt.Builder.size b.
Proof.
  intros Hpol Hc Hr Hc16 Hr16. pose proof (build_Safe b Hpol Hc Hr) as Hb.
  assert (Vt.Builder.build b ↠ λ v, small (other_buffer (Vt.terminal v))) as Ho.
  { unfold Vt.Builder.build, Terminal.new. destruct (csub _ 1); simpl; [|done]. by split. }
  destruct (Vt.Builder.build b) as [v|]; simpl in *; [|done].
  destruct Hb as [[Hp Hw] Hsz]. split; [|done]. split; [done|].
  unfold Vt.size, Terminal.size in Hsz. destruct (Vt.Builder.size b). injection Hsz as Ec Er. simpl in *.
  split; [done|congruence|congruence|done].
Qed.

(** A resize changes the size of the shown screen only. *)
Lemma resize_aside cols rows s : Terminal.resize cols rows s ↠ λ '(s', _), other_buffer s' = other_buffer s.
Proof.
  unfold Terminal.resize.
  assert (∀ s1 (resized : bool), other_buffer s1 = other_buffer s →
    ('(s2, resized) ← match Nat.compare rows (Terminal.rows s1) with
       | Eq => Some (s1, resized)
       | Lt | Gt => bottom_margin ← csub rows 1; Some (set_bottom_margin bottom_margin (set_top_margin 0 s1), true)
       end;
     s2 ← reflow (set_rows rows (set_cols cols s2)); Some (s2, resized)) ↠ λ '(s', _), other_buffer s' = other_buffer s) as Hrest.
  { intros s1 resized Eo. eapply (Partial_bind _ _ (λ '(s2, _), other_buffer s2 = other_buffer s)).
    - destruct (Nat.compare _ _); [done| |]; apply Partial_bind_eq; intros n _; exact Eo.
    - intros [s2 r] E2. eapply Partial_bind; [apply reflow_aside|]. intros s3 E3. exact (eq_trans E3 E2). }
  destruct (Nat.compare cols _); by apply Hrest.
Qed.

Lemma resize_sized v cols rows : sized_vt v → 2 ≤ cols → 1 ≤ rows → (N.of_nat cols < 65535)%N → (N.of_nat rows < 65536)%N →
  resize_ok (Vt.terminal v) cols → Vt.resize cols rows v ⇓ λ '(v', _), sized_vt v' ∧ Vt.size v' = (cols, rows).
Proof.
  intros [Hp Hs] Hc Hr Hc16 Hr16 Hok. unfold Vt.resize.
  assert (Terminal.resize cols rows (Vt.terminal v) ⇓ λ '(s', _), sized s' ∧ Terminal.size s' = (cols, rows)) as Hresize.
  { pose proof (resize_terminal_Safe _ cols rows (z_wf _ Hs) Hc Hr Hok) as Hsafe.
    assert (Terminal.resize cols rows (Vt.terminal v) ↠ λ '(s', _), small (other_buffer s')) as Ho.
    { eapply Partial_mono; [apply resize_aside|]. intros [s' r] ->. apply Hs. }
    destruct (Terminal.resize _ _ _) as [[s' r]|]; [|done]. simpl in *. destruct Hsafe as (Hw & Hsz & _).
    unfold Terminal.size in *. injection Hsz as Ec Er. split; [|by rewrite Ec, Er]. split; [done|by rewrite Ec|by rewrite Er|done]. }
  eapply Safe_bind; [exact Hresize|]. intros [s' r] [Hs' Hsz]. eapply Safe_mono; [apply collect_sized; by split|].
  intros [v' c] [Hv' E]. split; [done|]. unfold Vt.size in *. simpl in E. congruence.
Qed.

Lemma dump_sized v : sized_vt v → is_Some (vt_dump v).
Proof. intros [Hp Hs]. apply vt_dump_Safe; [by split; [|apply Hs]|by apply sized_shown|apply Hs]. Qed.
End sizes.
