(* ===== verification/EmulatorTheorems.v ===== *)
(** What is proved of the terminal emulator (ctmux/avt) as a whole: it never
    panics, keeps its invariant, survives checkpoints, and keeps the text of the
    screen when it is resized.  The witnesses run a small emulator. *)

From S2P Require Import Prelude.
From S2P Require Import Cells.
From S2P Require Import Lines.
From S2P Require Import Buffers.
From S2P Require Import Resizing.
From S2P Require Import ReflowText.
From S2P Require Import Functions.
From S2P Require Import Tabs.
From S2P Require Import Terminal.
From S2P Require Import TerminalInv.
From S2P Require Import Parser.
From S2P Require Import ParserInv.
From S2P Require Import Checkpoint.
From S2P Require Import Vt.
From S2P Require Import VtInv.
From S2P Require Import Tracking.
From S2P Require Import Screens.

(** * Runs *)

(** What an owner of an emulator does to it. *)
Inductive Event :=
  | FeedStr (s : list char)
  | ResizeTo (cols rows : nat).

Section runs.
Context `{UnicodeWidth}.

Definition step (e : Event) (v : Vt.t) : option (Vt.t * Vt.Changes) :=
  match e with
  | FeedStr s => Vt.feed_str s v
  | ResizeTo cols rows => Vt.resize cols rows v
  end.

Fixpoint run (es : list Event) (v : Vt.t) : option (Vt.t * list Vt.Changes) :=
  match es with
  | [] => Some (v, [])
  | e :: es => '(v, c) ← step e v; '(v, cs) ← run es v; Some (v, c :: cs)
  end.

(** The sizes the emulator is given: two columns and one row at least. *)
Definition sized (e : Event) : Prop :=
  match e with FeedStr _ => True | ResizeTo cols rows => 2 ≤ cols ∧ 1 ≤ rows end.

Definition size_after (e : Event) (size : nat * nat) : nat * nat :=
  match e with FeedStr _ => size | ResizeTo cols rows => (cols, rows) end.

Lemma step_Safe `{ResizePolicy} e v :
  wf_vt v → sized e →
  (∀ cols rows, e = ResizeTo cols rows → resize_ok (Vt.terminal v) cols) →
  step e v ⇓ λ '(v', _), wf_vt v' ∧ Vt.size v' = size_after e (Vt.size v).
Proof.
  intros Hv He Hok. destruct e as [s|cols rows]; simpl; [by apply feed_str_Safe|].
  destruct He. apply resize_vt_Safe; eauto.
Qed.

Lemma reflowing_resize_ok v cols : wf_vt (H0:=true) v → resize_ok (Vt.terminal v) cols.
Proof. intros [_ Hs]. left. apply (wc_reflows _ (wt_core _ Hs)). Qed.

Lemma run_Safe es v :
  wf_vt (H0:=true) v → Forall sized es →
  run es v ⇓ λ '(v', cs), wf_vt (H0:=true) v' ∧ length cs = length es ∧
    Vt.size v' = foldl (flip size_after) (Vt.size v) es.
Proof.
  revert v. induction es as [|e es IH]; intros v Hv Hes; simpl; [done|].
  apply Forall_cons in Hes as [He Hes].
  eapply Safe_bind; [apply (step_Safe (H0:=true)); [done..|]|].
  { intros. by apply reflowing_resize_ok. }
  intros [v1 c] [Hv1 Hsz]. eapply Safe_bind; [by apply IH|].
  intros [v2 cs] (? & ? & Hsz2). simpl. split_and!; [done|by f_equal|]. by rewrite Hsz2, Hsz.
Qed.

Lemma run_within es v v' cs :
  wf_vt (H0:=true) v → Forall sized es → screens_ok (Vt.terminal v) →
  within_limit (Terminal.buffer (Vt.terminal v)) → run es v = Some (v', cs) →
  within_limit (Terminal.buffer (Vt.terminal v')).
Proof.
  revert v cs. induction es as [|e es IH]; intros v cs Hv Hes Hok Hw E; simpl in E; [by injection E as <- <-|].
  apply Forall_cons in Hes as [He Hes]. apply bind_Some in E as ([v1 c] & E1 & E).
  apply bind_Some in E as ([v2 cs2] & E2 & [= <- <-]).
  assert (wf_vt (H0:=true) v1) as Hv1.
  { destruct (Safe_elim _ _ (step_Safe (H0:=true) e v Hv He
      ltac:(intros; by apply reflowing_resize_ok))) as ([v1' c'] & E' & ? & _).
    by assert (v1' = v1) as -> by congruence. }
  assert (screens_ok (Vt.terminal v1) ∧ within_limit (Terminal.buffer (Vt.terminal v1))) as [? ?].
  { destruct e as [s|cols rows]; simpl in *.
    - by apply (feed_str_within (H0:=true) s v v1 c).
    - destruct He. apply (resize_within (H0:=true) cols rows v v1 c); try done.
      by apply reflowing_resize_ok. }
  by eapply IH.
Qed.
End runs.

(** * An emulator to run *)

(** The widths of a small alphabet: from U+1100 on, characters are wide. *)
#[local] Instance sample_width : UnicodeWidth := λ c,
  if (c <? 32)%N then None else if (c <? 0x1100)%N then Some 1 else Some 2.

Definition sample_builder : Vt.Builder.t := Vt.Builder.Mk (6, 3) (Some 2) true.

(** "ab" and a wide character, "ESC [ 1 m", a wrapped line and a cut-off sequence *)
Definition sample_text : list char :=
  [0x61; 0x62; 0x4e00; 0x1b; 0x5b; 0x31; 0x6d; 0x0d; 0x0a; 0x63; 0x64; 0x65; 0x66; 0x67; 0x68;
   0x69; 0x1b; 0x5b; 0x33]%N.

Definition sample : option Vt.t := v ← Vt.Builder.build sample_builder; Vt.feed_chars sample_text v.

Lemma sample_Safe : sample ⇓ wf_vt (H0:=true).
Proof.
  unfold sample. eapply Safe_bind; [apply (build_Safe (H0:=true)); simpl; [done|lia..]|].
  intros v [Hv _]. eapply Safe_mono; [by apply (feed_chars_Safe (H0:=true))|]. by intros ? [? _].
Qed.

(** * Claims *)

Section claims.
Context `{UnicodeWidth}.

(** C1. An emulator built with at least two columns and one row, and with the
    default resize policy, never panics: any sequence of input strings (any
    characters at all, escape sequences cut anywhere) and of resizes runs to its
    end, leaves the emulator well-formed, and its size is that of the last resize. *)
Theorem run_total b es :
  Vt.Builder.reflow_cursor_line b = true →
  2 ≤ (Vt.Builder.size b).1 → 1 ≤ (Vt.Builder.size b).2 → Forall sized es →
  ∃ v v' cs, Vt.Builder.build b = Some v ∧ run es v = Some (v', cs) ∧
    wf_vt (H0:=true) v' ∧ length cs = length es ∧
    Vt.size v' = foldl (flip size_after) (Vt.Builder.size b) es.
Proof.
  intros Hp Hc Hr Hes.
  destruct (Safe_elim _ _ (build_Safe (H0:=true) b Hp Hc Hr)) as (v & Hb & Hv & Hsz).
  destruct (Safe_elim _ _ (run_Safe es v Hv Hes)) as ([v' cs] & Hrun & Hv' & Hl & Hsz').
  exists v, v', cs. split_and!; try done. by rewrite Hsz', Hsz.
Qed.

(** C16. Exporting a well-formed emulator and restoring it, within limits that hold
    its size, gives back exactly that emulator: screens, scrollback, modes,
    cursors, tab stops, change marks and the state of a half-read sequence. *)
Theorem checkpoint_roundtrip `{ResizePolicy} limits v :
  wf_vt v → fits limits (Vt.terminal v) →
  Vt.from_state_with_limits (Vt.export_state v) limits = Ok v.
Proof. apply vt_restore. Qed.

(** C38. A checkpoint that validation accepts, with the values its Rust types allow,
    restores to a well-formed emulator when what validation leaves open is as the
    emulator itself leaves it ([ordinary]: at least two columns, no tab stop in column zero,
    no escape-driven resize, and the policies of the emulator); any input then runs without
    a panic. *)
Theorem accepted_checkpoint_runs `{ResizePolicy} limits st v s :
  Vt.from_state_with_limits st limits = Ok v →
  typed_parser (Vt.parser v) → typed_term (Vt.terminal v) → ordinary (Vt.terminal v) →
  wf_vt v ∧ ∃ v' ch, Vt.feed_str s v = Some (v', ch) ∧ wf_vt v' ∧ Vt.size v' = Vt.size v.
Proof.
  intros Hok Hp Ht Ho. apply from_state_inv in Hok as [Hvp Hck].
  assert (wf_vt v) as Hv.
  { split; [by apply validated_parser_wf|]. eapply checked_wf_term; [apply Hck, Ht|done..]. }
  split; [done|]. destruct (Safe_elim _ _ (feed_str_Safe s v tidy_fit Hv)) as ([v' ch] & E & ? & ?).
  by exists v', ch.
Qed.

(** Validation of a checkpoint's terminal accepts exactly the terminals whose
    buffers are well formed and of the declared sizes, within the limits, with the
    cursor, margins, saved contexts, character set, change marks and tab stops in
    range. *)
Theorem terminal_validation_exact s limits :
  term_u8 s →
  TerminalState.validate (TerminalState.export_state s) limits = Ok () ↔ checked limits s.
Proof. apply validate_terminal_Ok. Qed.

(** Validation of a checkpoint's row, which looks at each cell and its
    neighbours, accepts exactly the rows of the given width made of narrow cells and
    of whole wide characters: a head, its continuation, in one pen. *)
Theorem row_validation_exact cols l :
  cells_u8 (Line.cells l) →
  LineState.validate cols (LineState.of_line l) = Ok () ↔ wf_line cols l.
Proof. apply validate_line_Ok. Qed.

(** The parser consumes any string: every character has an arm in every state,
    no array access fails, the parameters stay in their bounds, and every function it
    emits is well formed. *)
Theorem parser_total cs p :
  wf_parser p →
  ∃ p' fs, Parser.feed_all cs p = Some (p', fs) ∧ wf_parser p' ∧ Forall Fun.wf fs ∧
    (tidy p → tidy p').
Proof.
  intros Hp. destruct (Safe_elim _ _ (feed_all_Safe cs p Hp)) as ([p' fs] & E & [? ?] & ?).
  by exists p', fs.
Qed.

(** Every control function of the parser runs on a well-formed terminal of
    either resize policy without a panic, and leaves it well formed and of the same
    size. *)
Theorem execute_total `{ResizePolicy} f s :
  wf_term s → Fun.wf f →
  ∃ s', Terminal.execute f s = Some s' ∧ wf_term s' ∧ Terminal.size s' = Terminal.size s.
Proof.
  intros Hs Hf. destruct (Safe_elim _ _ (execute_Safe s f tidy_fit Hs Hf)) as (s' & E & ? & Hc & Hr).
  exists s'. split_and!; [done..|]. unfold Terminal.size. congruence.
Qed.

(** Reflowing rows to a width of two columns or more terminates, yields rows of
    exactly that width whose last one is not wrapped, and keeps, in every logical
    line, every character that is not a space, in order. *)
Theorem reflow_keeps_ink cols ls :
  2 ≤ cols → Forall flowable ls → ends_unwrapped ls →
  ∃ out, Buffer.reflow ls cols = Some out ∧ Forall (wf_line cols) out ∧
    ends_unwrapped out ∧ ink out = ink ls.
Proof.
  intros Hc Hf He.
  destruct (Safe_elim _ _ (Safe_and _ _ _ (reflow_Safe cols ls Hc Hf He)
    (reflow_ink_Safe cols ls Hc Hf He))) as (out & E & (? & ? & _) & ?).
  by exists out.
Qed.

(** Without wide characters the reflow keeps the text of the screen exactly:
    the same logical lines, spaces included up to the trailing ones. *)
Theorem reflow_keeps_text cols ls :
  2 ≤ cols → Forall flowable ls → Forall single_width ls → ends_unwrapped ls →
  ∃ out, Buffer.reflow ls cols = Some out ∧ Buffer.text_go [] out = Buffer.text_go [] ls.
Proof.
  intros Hc Hf Hw He. destruct (Safe_elim _ _ (reflow_text_Safe cols ls Hc Hf Hw He)) as (out & ? & ?).
  by exists out.
Qed.

(** Printing on a row stores the character and, for a wide one, its
    continuation, in the pen; leaves every cell away from the characters it cuts; and
    keeps the row well formed.  It declines, changing nothing, exactly when a wide
    character does not fit in the last column. *)
Theorem print_row cols l col ch p :
  wf_line cols l → col < cols → Pen.wf p →
  ∃ l' r, Line.print l col ch p = Some (l', r) ∧ print_post cols l col ch p (l', r).
Proof.
  intros Hl Hc Hp. destruct (Safe_elim _ _ (Line_print_Safe cols l col ch p Hl Hc Hp))
    as ([l' r] & ? & ?). by exists l', r.
Qed.

(** Resizing a buffer reflows and pads it to the new size: the result is a
    well-formed buffer of that size with the same scrollback limit, with the cursor on
    a row of the screen. *)
Theorem buffer_resize_total b new_cols new_rows cursor :
  wf_buffer true b → 2 ≤ new_cols → 1 ≤ new_rows →
  (new_cols = Buffer.cols b → cursor.2 < Buffer.rows b ∨ cursor.2 < new_rows) →
  ∃ b' cursor', Buffer.resize b new_cols new_rows cursor = Some (b', cursor') ∧
    resize_post (strict := true) new_cols new_rows b (b', cursor') ∧ cursor_kept b new_cols cursor cursor'.
Proof.
  intros Hb Hc Hr Hcur. destruct (Safe_elim _ _ (resize_Safe b new_cols new_rows cursor Hb Hc Hr Hcur (λ _, proj2 Hb eq_refl)))
    as ([b' cursor'] & ? & ? & ?). by exists b', cursor'.
Qed.

(** So does the resize that keeps the cursor's logical line in place, provided
    the unused rows at the bottom do not continue a wrapped row. *)
Theorem buffer_resize_preserving_total b new_cols new_rows cursor :
  wf_buffer true b → 2 ≤ new_cols → 1 ≤ new_rows →
  (new_cols = Buffer.cols b → cursor.2 < Buffer.rows b ∨ cursor.2 < new_rows) →
  (new_cols ≠ Buffer.cols b → sealed (Buffer.lines b)) →
  ∃ b' cursor', Buffer.resize_preserving_cursor b new_cols new_rows cursor = Some (b', cursor') ∧
    resize_post (strict := true) new_cols new_rows b (b', cursor') ∧ cursor_kept b new_cols cursor cursor'.
Proof.
  intros Hb Hc Hr Hcur Hs.
  destruct (Safe_elim _ _ (resize_preserving_cursor_Safe (strict := true) b new_cols new_rows cursor Hb Hc Hr Hcur Hs))
    as ([b' cursor'] & ? & ? & ?). by exists b', cursor'.
Qed.

(** Tab stops stay strictly sorted and inside the screen under every
    operation, setting adds exactly one stop, clearing removes exactly one, and
    narrowing keeps exactly the stops below the new width. *)
Theorem tabs_as_sets cols tabs pos t :
  wf_tabs cols tabs → 0 < pos ≤ cols →
  (wf_tabs cols (Tabs.set pos tabs) ∧ (t ∈ Tabs.set pos tabs ↔ t = pos ∨ t ∈ tabs)) ∧
  (wf_tabs cols (Tabs.unset pos tabs) ∧ (t ∈ Tabs.unset pos tabs ↔ t ≠ pos ∧ t ∈ tabs)) ∧
  (wf_tabs pos (Tabs.contract pos tabs) ∧ (t ∈ Tabs.contract pos tabs ↔ t < pos ∧ t ∈ tabs)).
Proof.
  intros Ht Hpos. pose proof (proj1 Ht) as Hs. split_and!.
  - by apply wf_tabs_set.
  - by apply tabs_set_elem.
  - by apply wf_tabs_unset.
  - by apply tabs_unset_elem.
  - by eapply wf_tabs_contract.
  - by apply tabs_contract_elem.
Qed.

(** C15. Change reports are complete: when insert mode is off and the input does not
    turn it on, every row of the screen that [feed_str] does not list as changed shows
    exactly the cells it showed before. *)
Theorem changes_complete `{ResizePolicy} cs v v' ch fs p :
  wf_vt v → Terminal.insert_mode (Vt.terminal v) = false →
  Parser.feed_all cs (Vt.parser v) = Some (p, fs) → Forall no_insert fs →
  Vt.feed_str cs v = Some (v', ch) →
  ∀ i, i < Terminal.rows (Vt.terminal v) → i ∉ Vt.lines ch →
    shown (Terminal.buffer (Vt.terminal v')) i = shown (Terminal.buffer (Vt.terminal v)) i.
Proof. apply feed_str_reports. Qed.

(** Input that does not switch screens, reset the terminal or resize it leaves
    the hidden screen and its saved cursor exactly as they were: what a program does
    on the alternate screen cannot disturb the primary one, or its scrollback. *)
Theorem hidden_screen_kept cs v v' ch fs p :
  Parser.feed_all cs (Vt.parser v) = Some (p, fs) → Forall no_switch fs →
  Vt.feed_str cs v = Some (v', ch) →
  Terminal.other_buffer (Vt.terminal v') = Terminal.other_buffer (Vt.terminal v) ∧
  Terminal.active_buffer_type (Vt.terminal v') = Terminal.active_buffer_type (Vt.terminal v) ∧
  Terminal.alternate_saved_ctx (Vt.terminal v') = Terminal.alternate_saved_ctx (Vt.terminal v).
Proof. apply feed_str_hidden. Qed.

(** Whatever the input and the resizes, after each of them the screen shown
    holds no more lines than its rows and its scrollback limit. *)
Theorem scrollback_bounded b es v v' cs :
  Vt.Builder.reflow_cursor_line b = true →
  2 ≤ (Vt.Builder.size b).1 → 1 ≤ (Vt.Builder.size b).2 → Forall sized es →
  Vt.Builder.build b = Some v → run es v = Some (v', cs) →
  ∀ limit, Buffer.scrollback_limit (Terminal.buffer (Vt.terminal v')) = Some limit →
    length (Vt.all_lines v') ≤ Buffer.rows (Terminal.buffer (Vt.terminal v')) + limit.
Proof.
  intros Hp Hc Hr Hes Hb Hrun.
  destruct (Safe_elim _ _ (build_Safe (H0:=true) b Hp Hc Hr)) as (v0 & Hb0 & Hv & _).
  assert (v0 = v) as -> by congruence.
  destruct (build_screens b v Hb) as [Hok Hw]. by apply (run_within es v v' cs).
Qed.

(** Feeding a string runs, in order, the functions the parser finds in it: the
    emulator is its parser followed by its terminal. *)
Theorem feed_is_parse_then_execute cs v :
  Vt.feed_chars cs v =
    '(p, fs) ← Parser.feed_all cs (Vt.parser v);
    s ← for_each fs Terminal.execute (Vt.terminal v);
    Some (Vt.Mk p s).
Proof. apply feed_chars_functions. Qed.
End claims.

Lemma run_total_witness :
  ∃ v v' cs, Vt.Builder.build sample_builder = Some v ∧
    run [FeedStr sample_text; ResizeTo 3 2; FeedStr [0x6d]%N; ResizeTo 9 4] v = Some (v', cs) ∧
    Vt.size v' = (9, 4).
Proof.
  destruct (run_total sample_builder
    [FeedStr sample_text; ResizeTo 3 2; FeedStr [0x6d]%N; ResizeTo 9 4])
    as (v & v' & cs & Hb & Hr & _ & _ & Hsz); [reflexivity|simpl; lia..| |].
  { repeat constructor; simpl; lia. }
  exists v, v', cs. split_and!; [exact Hb|exact Hr|exact Hsz].
Defined.

Lemma validated_fits `{UnicodeWidth} limits s :
  term_u8 s → TerminalState.validate (TerminalState.export_state s) limits = Ok () →
  fits limits s.
Proof. intros Hu Hck%validate_terminal_Ok; [|done]. split_and!; apply Hck. Qed.

Lemma checkpoint_roundtrip_witness :
  ∃ v, sample = Some v ∧
    Vt.from_state_with_limits (Vt.export_state v) StateLimits.default = Ok v.
Proof.
  destruct (Safe_elim _ _ sample_Safe) as (v & E & Hv). exists v. split; [exact E|].
  apply (checkpoint_roundtrip (H0:=true)); [exact Hv|]. apply validated_fits.
  - by apply (wf_term_u8 (H0:=true)), Hv.
  - clear Hv. vm_compute in E. injection E as <-. vm_compute. reflexivity.
Defined.

Lemma wf_vt_typed v :
  wf_vt (H0:=true) v →
  typed_term (Vt.terminal v) ∧ typed_parser (Vt.parser v) ∧ ordinary (H0:=true) (Vt.terminal v).
Proof.
  intros [Hp Hs]. pose proof (wt_core _ Hs) as Hc. split_and!.
  - split; [by apply (wf_term_u8 (H0:=true))|apply (wc_charsets _ Hc)].
  - destruct Hp as [? Hf _ _]. split; [done|]. eapply Forall_impl; [exact Hf|].
    by intros q (? & _ & ?).
  - split_and!; [apply Hc| |apply Hc|apply Hc|apply Hc].
    eapply Forall_impl; [apply (wc_tabs _ Hc)|]. simpl. lia.
Qed.

(** A checkpoint of the sample, as the restore sees it. *)
Lemma accepted_checkpoint_runs_witness :
  ∃ v v' ch, sample = Some v ∧
    Vt.from_state_with_limits (Vt.export_state v) StateLimits.default = Ok v ∧
    Vt.feed_str [0x3b; 0x6d; 0x7a]%N v = Some (v', ch) ∧ Vt.size v' = (6, 3).
Proof.
  destruct (Safe_elim _ _ sample_Safe) as (v & E & Hv).
  destruct (wf_vt_typed v Hv) as (Htt & Htp & Ho).
  assert (Hok : Vt.from_state_with_limits (Vt.export_state v) StateLimits.default = Ok v).
  { clear -E. vm_compute in E. injection E as <-. vm_compute. reflexivity. }
  destruct (accepted_checkpoint_runs (H0:=true) _ _ _ [0x3b; 0x6d; 0x7a]%N Hok Htp Htt Ho)
    as (_ & v' & ch & Hf & _ & Hsz).
  exists v, v', ch. split_and!; [exact E|exact Hok|exact Hf|].
  rewrite Hsz. clear -E. vm_compute in E. injection E as <-. reflexivity.
Defined.

(** A row "a", a wide character, two blanks, and one whose wide character is cut. *)
Definition wide_row : Line.t := Line.Mk
  [Cell.Mk 0x61 Single Pen.default; Cell.Mk 0x4e00 WideHead Pen.default;
   Cell.Mk space WideTail Pen.default; Cell.default; Cell.default]%N false.

Lemma wide_row_u8 : cells_u8 (Line.cells wide_row).
Proof. repeat constructor. Qed.

Lemma wide_row_wf : wf_line 5 wide_row.
Proof. apply validate_line_Ok; [apply wide_row_u8|by vm_compute]. Qed.

Lemma row_validation_exact_witness :
  cells_u8 (Line.cells wide_row) ∧
  (LineState.validate 5 (LineState.of_line wide_row) = Ok () ↔ wf_line 5 wide_row).
Proof. split; [apply wide_row_u8|apply row_validation_exact, wide_row_u8]. Defined.

Lemma terminal_validation_exact_witness :
  ∃ v, sample = Some v ∧
    (TerminalState.validate (TerminalState.export_state (Vt.terminal v)) StateLimits.default = Ok ()
     ↔ checked StateLimits.default (Vt.terminal v)).
Proof.
  destruct (Safe_elim _ _ sample_Safe) as (v & E & [_ Hs]). exists v. split; [exact E|].
  apply terminal_validation_exact. by apply (wf_term_u8 (H0:=true)).
Defined.

Lemma parser_total_witness :
  ∃ p' fs, Parser.feed_all sample_text Parser.new = Some (p', fs) ∧ length fs = 13 ∧
    Parser.state p' = CsiParam.
Proof.
  destruct (parser_total sample_text Parser.new wf_parser_new) as (p' & fs & E & _).
  exists p', fs. split; [exact E|]. vm_compute in E. injection E as <- <-. done.
Defined.

Lemma execute_total_witness :
  ∃ v s', sample = Some v ∧ Terminal.execute (Fun.Ed EdScope.All) (Vt.terminal v) = Some s' ∧
    Terminal.size s' = (6, 3).
Proof.
  destruct (Safe_elim _ _ sample_Safe) as (v & E & [_ Hs]).
  destruct (execute_total (H0:=true) (Fun.Ed EdScope.All) (Vt.terminal v) Hs I) as (s' & Hx & _ & Hsz).
  exists v, s'. split_and!; [exact E|exact Hx|]. rewrite Hsz. clear -E. vm_compute in E.
  injection E as <-. reflexivity.
Defined.

(** Two rows of one logical line, with a wide character across the new margin. *)
Definition wrapped_rows : list Line.t := [Line.set_wrapped true wide_row; wide_row].

Lemma wrapped_rows_ok : Forall flowable wrapped_rows ∧ ends_unwrapped wrapped_rows.
Proof.
  split; [|by intros ? [= <-]]. pose proof wide_row_wf as [_ ?].
  repeat constructor; simpl; by try lia.
Qed.

Lemma reflow_keeps_ink_witness :
  ∃ out, Buffer.reflow wrapped_rows 2 = Some out ∧ ink out = [[0x61; 0x4e00; 0x61; 0x4e00]]%N.
Proof.
  destruct wrapped_rows_ok as [Hf He].
  destruct (reflow_keeps_ink 2 wrapped_rows ltac:(lia) Hf He) as (out & E & _ & _ & Hi).
  exists out. split; [exact E|]. rewrite Hi. reflexivity.
Defined.

Definition narrow_rows : list Line.t :=
  [Line.Mk [Cell.Mk 0x61 Single Pen.default; Cell.Mk 0x62 Single Pen.default;
            Cell.default; Cell.Mk 0x63 Single Pen.default]%N true;
   Line.Mk [Cell.Mk 0x64 Single Pen.default; Cell.default; Cell.default; Cell.default]%N false].

Lemma reflow_keeps_text_witness :
  ∃ out, Buffer.reflow narrow_rows 3 = Some out ∧
    Buffer.text_go [] out = [[0x61; 0x62; 0x20; 0x63; 0x64]]%N.
Proof.
  destruct (reflow_keeps_text 3 narrow_rows) as (out & E & Ht); [lia| | | |].
  - repeat constructor; simpl; lia.
  - repeat constructor.
  - by intros ? [= <-].
  - exists out. split; [exact E|]. rewrite Ht. reflexivity.
Defined.

Lemma print_row_witness :
  ∃ l' r, Line.print wide_row 2 0x4e8c Pen.default = Some (l', r) ∧
    print_post 5 wide_row 2 0x4e8c Pen.default (l', r) ∧
    Line.text l' = [0x61; 0x20; 0x4e8c; 0x20]%N.
Proof.
  destruct (print_row 5 wide_row 2 0x4e8c Pen.default wide_row_wf) as (l' & r & E & Hp);
    [lia|apply Pen_wf_default|].
  exists l', r. split_and!; [exact E|exact Hp|]. vm_compute in E. injection E as <- <-. reflexivity.
Defined.

(** Three rows of scrollback and screen, the first two one logical line. *)
Definition sample_buffer : Buffer.t :=
  Buffer.Mk (wrapped_rows ++ [Line.blank 5 Pen.default]) 5 2 (Some 1) false.

Lemma sample_buffer_wf : wf_buffer true sample_buffer.
Proof.
  apply (validate_buffer_Ok _ StateLimits.default); [repeat constructor|by vm_compute].
Qed.

Lemma buffer_resize_total_witness :
  ∃ b' cursor', Buffer.resize sample_buffer 3 3 (1, 0) = Some (b', cursor') ∧
    Buffer.cols b' = 3 ∧ Buffer.rows b' = 3.
Proof.
  destruct (buffer_resize_total sample_buffer 3 3 (1, 0) sample_buffer_wf)
    as (b' & cursor' & E & _ & _); [lia..|simpl; lia|].
  exists b', cursor'. split; [exact E|]. vm_compute in E. injection E as <- <-. done.
Defined.

Lemma buffer_resize_preserving_total_witness :
  ∃ b' cursor', Buffer.resize_preserving_cursor sample_buffer 3 3 (1, 0) = Some (b', cursor') ∧
    Buffer.cols b' = 3 ∧ Buffer.rows b' = 3.
Proof.
  destruct (buffer_resize_preserving_total sample_buffer 3 3 (1, 0) sample_buffer_wf)
    as (b' & cursor' & E & _ & _); [lia|lia|simpl; lia|intros _; by intros ? [= <-]|].
  exists b', cursor'. split; [exact E|]. vm_compute in E. injection E as <- <-. done.
Defined.

Lemma tabs_as_sets_witness : 12 ∈ Tabs.set 12 (Tabs.new 20) ∧ 12 ∉ Tabs.unset 12 (Tabs.set 12 (Tabs.new 20)).
Proof.
  destruct (tabs_as_sets 20 (Tabs.new 20) 12 12) as ((Hs & Hin) & _); [apply wf_tabs_new|lia|].
  destruct (tabs_as_sets 20 (Tabs.set 12 (Tabs.new 20)) 12 12 Hs) as (_ & (_ & Hun) & _); [lia|].
  split; [apply Hin; by left|]. rewrite Hun. tauto.
Defined.

Definition after_sample (cs : list char) : option (Vt.t * Vt.Changes) :=
  v ← Vt.Builder.build sample_builder;
  '(v, _) ← Vt.feed_str [0x61; 0x62; 0x0d; 0x0a; 0x63]%N v; Vt.feed_str cs v.

(** Row 0 is not reported when "x" is printed on row 1, and shows "ab" as before. *)
Lemma changes_complete_witness :
  ∃ v v' ch, (v ← Vt.Builder.build sample_builder;
              Vt.feed_chars [0x61; 0x62; 0x0d; 0x0a; 0x63]%N v) = Some v ∧
    Vt.feed_str [0x78]%N (Vt.Mk (Vt.parser v) (Terminal.changes (Vt.terminal v)).1) = Some (v', ch) ∧
    Vt.lines ch = [1] ∧
    shown (Terminal.buffer (Vt.terminal v')) 0 = shown (Terminal.buffer (Vt.terminal v)) 0.
Proof.
  assert (Hs : (v ← Vt.Builder.build sample_builder;
    Vt.feed_chars [0x61; 0x62; 0x0d; 0x0a; 0x63]%N v) ⇓ wf_vt (H0:=true)).
  { eapply Safe_bind; [apply (build_Safe (H0:=true)); simpl; [done|lia..]|].
    intros v [Hv _]. eapply Safe_mono; [by apply (feed_chars_Safe (H0:=true))|]. by intros ? [? _]. }
  destruct (Safe_elim _ _ Hs) as (v & E & [Hp Ht]). clear Hs.
  set (v1 := Vt.Mk (Vt.parser v) (Terminal.changes (Vt.terminal v)).1).
  assert (Hv1 : wf_vt (H0:=true) v1) by (split; [exact Hp|apply (changes_wf _ Ht)]).
  assert (Hx : ∃ v' ch p, Vt.feed_str [0x78]%N v1 = Some (v', ch) ∧ Vt.lines ch = [1] ∧
    Terminal.insert_mode (Vt.terminal v1) = false ∧ Terminal.rows (Vt.terminal v1) = 3 ∧
    Parser.feed_all [0x78]%N (Vt.parser v1) = Some (p, [Fun.Print 0x78%N])).
  { subst v1. clear -E. vm_compute in E. injection E as <-. do 3 eexists.
    split; [vm_compute; reflexivity|]. split_and!; vm_compute; reflexivity. }
  destruct Hx as (v' & ch & p & Hf & Hl & Hi & Hr & Hpf).
  exists v, v', ch. split_and!; [exact E|exact Hf|exact Hl|].
  apply (changes_complete (H0:=true) [0x78]%N v1 v' ch [Fun.Print 0x78%N] p);
    [exact Hv1|exact Hi|exact Hpf|by repeat constructor|exact Hf|rewrite Hr; lia|].
  rewrite Hl. intros [= ]%list_elem_of_singleton.
Defined.

(** On the alternate screen: entered, then "x" and a cursor movement. *)
Lemma hidden_screen_kept_witness :
  ∃ v v' ch,
    (v ← sample; Vt.feed_chars [0x6d; 0x1b; 0x5b; 0x3f; 0x31; 0x30; 0x34; 0x39; 0x68]%N v) = Some v ∧
    Vt.feed_str [0x78; 0x1b; 0x5b; 0x48]%N v = Some (v', ch) ∧
    Terminal.active_buffer_type (Vt.terminal v') = Alternate ∧
    Terminal.other_buffer (Vt.terminal v') = Terminal.other_buffer (Vt.terminal v).
Proof.
  assert (Hx : ∃ v v' ch p fs,
    (v ← sample; Vt.feed_chars [0x6d; 0x1b; 0x5b; 0x3f; 0x31; 0x30; 0x34; 0x39; 0x68]%N v) = Some v ∧
    Vt.feed_str [0x78; 0x1b; 0x5b; 0x48]%N v = Some (v', ch) ∧
    Terminal.active_buffer_type (Vt.terminal v) = Alternate ∧
    Parser.feed_all [0x78; 0x1b; 0x5b; 0x48]%N (Vt.parser v) = Some (p, fs) ∧
    fs = [Fun.Print 0x78; Fun.Cup 0 0]%N).
  { do 5 eexists. split; [vm_compute; reflexivity|]. split; [vm_compute; reflexivity|].
    split_and!; vm_compute; reflexivity. }
  destruct Hx as (v & v' & ch & p & fs & E & Hf & Ha & Hp & Hfs).
  destruct (hidden_screen_kept [0x78; 0x1b; 0x5b; 0x48]%N v v' ch fs p) as (Ho & Hact & _);
    [exact Hp|rewrite Hfs; by repeat constructor|exact Hf|].
  exists v, v', ch. split_and!; [exact E|exact Hf|rewrite Hact; exact Ha|exact Ho].
Defined.

(** Ten lines on three rows, with a limit of two. *)
Definition ten_lines : list Event :=
  [FeedStr (concat (replicate 9 [0x61; 0x0d; 0x0a]%N)); ResizeTo 4 2].

Lemma scrollback_bounded_witness :
  ∃ v v' cs, Vt.Builder.build sample_builder = Some v ∧
    run ten_lines v = Some (v', cs) ∧
    length (Vt.all_lines v') ≤ 4.
Proof.
  assert (Hx : ∃ v v' cs, Vt.Builder.build sample_builder = Some v ∧
    run ten_lines v = Some (v', cs) ∧
    Buffer.scrollback_limit (Terminal.buffer (Vt.terminal v')) = Some 2 ∧
    Buffer.rows (Terminal.buffer (Vt.terminal v')) = 2).
  { do 3 eexists. split; [vm_compute; reflexivity|]. split; [vm_compute; reflexivity|].
    split; vm_compute; reflexivity. }
  destruct Hx as (v & v' & cs & Hb & Hr & Hl & Hrows). exists v, v', cs.
  split_and!; [exact Hb|exact Hr|].
  pose proof (scrollback_bounded sample_builder ten_lines v v' cs eq_refl ltac:(simpl; lia) ltac:(simpl; lia)
    ltac:(repeat constructor; simpl; lia) Hb Hr 2 Hl) as Hle.
  rewrite Hrows in Hle. exact Hle.
Defined.

(** * Findings *)

(** With insert mode and auto-wrap on, a wide character printed on the second half of
    another one in the last column blanks that one before it moves to the next row,
    and the row it leaves is not reported as changed. *)
Lemma insert_wrap_unreported :
  ∃ v v' ch,
    (v ← Vt.Builder.build sample_builder;
     '(v, _) ← Vt.feed_str [0x61; 0x62; 0x63; 0x64; 0x4e00; 0x1b; 0x5b; 0x34; 0x68; 0x1b;
                            0x5b; 0x31; 0x3b; 0x36; 0x48]%N v; Some v) = Some v ∧
    Vt.feed_str [0x4e00]%N v = Some (v', ch) ∧ Vt.lines ch = [1] ∧
    shown (Terminal.buffer (Vt.terminal v')) 0 ≠ shown (Terminal.buffer (Vt.terminal v)) 0.
Proof.
  do 3 eexists. split; [vm_compute; reflexivity|]. split; [vm_compute; reflexivity|].
  split; [vm_compute; reflexivity|vm_compute; congruence].
Qed.

Definition preserving_builder : Vt.Builder.t := Vt.Builder.Mk (8, 3) (Some 2) false.

(** "x", a line "abcdefgh " that wraps its last space onto a row of its own, and the
    cursor back on the first row. *)
Definition trailing_space : option Vt.t :=
  v ← Vt.Builder.build preserving_builder;
  '(v, _) ← Vt.feed_str [0x78; 0x0d; 0x0a; 0x61; 0x62; 0x63; 0x64; 0x65; 0x66; 0x67; 0x68; 0x20;
                          0x1b; 0x5b; 0x31; 0x3b; 0x32; 0x48]%N v;
  Some v.

(** Keeping the cursor's line in place, a resize to three columns drops "gh" from the
    line below, whose last row is blank but continues a wrapped one; and the
    checkpoint of the result is refused. *)
Lemma preserving_resize_drops_text :
  ∃ v v' ch, trailing_space = Some v ∧ Vt.resize 3 3 v = Some (v', ch) ∧
    Vt.text v = [[0x78]; [0x61; 0x62; 0x63; 0x64; 0x65; 0x66; 0x67; 0x68]]%N ∧
    Vt.scrollback ch = [] ∧ Vt.text v' = [[0x78]; [0x61; 0x62; 0x63; 0x64; 0x65; 0x66]]%N ∧
    is_ok (Vt.from_state (Vt.export_state v)) = true ∧
    is_ok (Vt.from_state (Vt.export_state v')) = false.
Proof.
  do 3 eexists. split; [vm_compute; reflexivity|]. split; [vm_compute; reflexivity|].
  split_and!; vm_compute; reflexivity.
Qed.

(** A wide character cannot be reflowed to one column: the resize panics. *)
Lemma one_column_panics :
  ∃ v, (v ← Vt.Builder.build sample_builder; Vt.feed_chars [0x4e00]%N v) = Some v ∧
    Vt.resize 1 3 v = None.
Proof. eexists. split; [vm_compute; reflexivity|]. vm_compute. reflexivity. Qed.

(** Widening a screen of eight columns to twenty misses the stop at column eight,
    which a screen of twenty columns starts with. *)
Lemma widening_misses_a_stop :
  Tabs.expand 8 20 (Tabs.new 8) = [16] ∧ Tabs.new 20 = [8; 16].
Proof. split; vm_compute; reflexivity. Qed.
