(* ===== verification/DumpTheorems.v ===== *)
(** What printing the state of the emulator as text promises
    (ctmux/avt/src/parser.rs, terminal.rs and vt.rs, [dump]). *)

From S2P Require Import Prelude.
From S2P Require Import Cells.
From S2P Require Import Buffers.
From S2P Require Import Functions.
From S2P Require Import Parser.
From S2P Require Import ParserInv.
From S2P Require Import Terminal.
From S2P Require Import TerminalInv.
From S2P Require Import Vt.
From S2P Require Import VtInv.
From S2P Require Import Dump.
From S2P Require Import DumpInv.
From S2P Require Import DumpResume.
From S2P Require Import DumpTotal.
From S2P Require Import EmulatorTheorems.

Lemma ground_new : ground Parser.new.
Proof. split_and!; [done|apply wf_parser_new|apply tidy_new]. Qed.

(** C26. Printing functions and parsing them are inverse: whatever text the parser read,
    the functions it yielded print as a text from which a fresh parser yields the same
    functions, and after which it is not inside a sequence. *)
Theorem functions_roundtrip cs p fs :
  Parser.feed_all cs Parser.new = Some (p, fs) →
  ∃ s q, dump_functions fs = Some s ∧ Parser.feed_all s Parser.new = Some (q, fs) ∧ Parser.state q = Ground.
Proof.
  intros E. pose proof (feed_all_printable cs Parser.new wf_parser_new) as Hf. rewrite E in Hf.
  destruct (printable_all fs Hf) as (s & Hs & Hread). destruct (Hread _ ground_new) as (q & Eq & Hq & _).
  by exists s, q.
Qed.

(** C25. A printed parser resumes: wherever in a sequence a text ends, the dump of the
    parser makes a fresh parser yield nothing, and from then on the two yield the same
    functions for every continuation. *)
Theorem parser_dump_resumes cs p fs :
  Parser.feed_all cs Parser.new = Some (p, fs) →
  ∃ s q, parser_dump p = Some s ∧ Parser.feed_all s Parser.new = Some (q, []) ∧
    ∀ rest, ∃ p' q' out, Parser.feed_all rest p = Some (p', out) ∧ Parser.feed_all rest q = Some (q', out).
Proof.
  intros E. assert (Hp : settled p) by (eapply settled_all; [apply settled_new|exact E]).
  destruct (dump_reaches p Parser.new Hp ground_new) as (s & q & Hs & Hq & Ha).
  exists s, q. split_and!; [done..|]. intros rest.
  destruct (Safe_elim _ _ (feed_all_Safe rest p (proj1 Hp))) as ([p' out] & Ep & _).
  destruct (alike_feed_all rest p q p' out Ha Ep) as (q' & Eq & _). by exists p', q', out.
Qed.

(** [Vt::dump] always answers: for a well-formed emulator of less than 65535 columns
    and 65536 rows no conversion to [u16], subtraction or lookup on the way panics, on either
    screen, with a pending wrap or a saved cursor. *)
Theorem dump_total `{UnicodeWidth} `{ResizePolicy} v :
  wf_vt v → small (Terminal.buffer (Vt.terminal v)) → small (Terminal.other_buffer (Vt.terminal v)) →
  ∃ s, vt_dump v = Some s.
Proof. intros. by apply vt_dump_Safe. Qed.

(** The bound on the columns is exact: in a terminal of 65535 columns a row that is written
    to its end leaves the cursor in column 65535, whose number on screen no longer fits a
    [u16], and the dump panics. *)
Lemma sequence_None l : None ∈ l → sequence l = None.
Proof.
  intros Hin. induction l as [|[funs|] l IH]; cbn; [by apply elem_of_nil in Hin| |done].
  apply elem_of_cons in Hin as [|Hin]; [done|]. by rewrite (IH Hin).
Qed.

Lemma widest_dump_panics `{UnicodeWidth} `{ResizePolicy} v :
  (65535 ≤ N.of_nat (Cursor.col (Terminal.cursor (Vt.terminal v))))%N → Terminal.origin_mode (Vt.terminal v) = false →
  vt_dump v = None.
Proof.
  intros Hcol Ho. assert (dump_cursor (Vt.terminal v) = None) as Hc.
  { unfold dump_cursor, cup_at. rewrite Ho. assert (to_u16 (Cursor.col (Terminal.cursor (Vt.terminal v)) + 1) = None) as -> by (unfold to_u16; rewrite decide_False; [done|lia]). by destruct (to_u16 _). }
  unfold vt_dump, terminal_dump. case_match. rewrite Hc.
  rewrite sequence_None; [done|]. by do 10 right; left.
Qed.

(** * At concrete inputs *)

(** A coloured title that breaks off in the parameters of the next sequence *)
Definition broken_off : list char :=
  [0x1b; 0x5b; 0x33; 0x38; 0x3b; 0x35; 0x3b; 0x39; 0x6d; 0x61; 0x4e00; 0x1b; 0x5b; 0x3f; 0x37; 0x3b; 0x32]%N.

Lemma functions_roundtrip_witness : ∃ p fs s q, Parser.feed_all broken_off Parser.new = Some (p, fs) ∧
  length fs = 3 ∧ dump_functions fs = Some s ∧ Parser.feed_all s Parser.new = Some (q, fs).
Proof.
  destruct (Parser.feed_all broken_off Parser.new) as [[p fs]|] eqn:E; [|by vm_compute in E].
  destruct (functions_roundtrip broken_off p fs E) as (s & q & Hs & Hq & _).
  exists p, fs, s, q. split_and!; [done| |done..]. vm_compute in E. by injection E as <- <-.
Defined.

Lemma parser_dump_resumes_witness : ∃ p fs q s, Parser.feed_all broken_off Parser.new = Some (p, fs) ∧
  parser_dump p = Some [0x9b; 0x3f; 0x37; 0x3b; 0x32]%N ∧ Parser.feed_all s Parser.new = Some (q, []) ∧
  Parser.state q = CsiParam.
Proof.
  destruct (Parser.feed_all broken_off Parser.new) as [[p fs]|] eqn:E; [|by vm_compute in E].
  destruct (parser_dump_resumes broken_off p fs E) as (s & q & Hs & Hq & _).
  exists p, fs, q, s. assert (Hs' : parser_dump p = Some [0x9b; 0x3f; 0x37; 0x3b; 0x32]%N)
    by (vm_compute in E; injection E as <- <-; reflexivity).
  split_and!; [done..|]. rewrite Hs' in Hs. injection Hs as <-. vm_compute in Hq. by injection Hq as <-.
Defined.

(** The sample emulator stopped inside a sequence, with wide and coloured cells. *)
Lemma dump_total_witness : ∃ v s, sample = Some v ∧ vt_dump v = Some s ∧ length s = 46.
Proof.
  destruct (Safe_elim _ _ sample_Safe) as (v & E & Hv).
  assert (Hsmall : small (Terminal.buffer (Vt.terminal v)) ∧ small (Terminal.other_buffer (Vt.terminal v))).
  { clear -E. vm_compute in E. injection E as <-. done. }
  destruct (dump_total (H0:=true) v Hv (proj1 Hsmall) (proj2 Hsmall)) as (s & Hs).
  exists v, s. split_and!; [exact E|exact Hs|]. clear -E Hs. vm_compute in E. injection E as <-.
  vm_compute in Hs. injection Hs as <-. done.
Defined.
