(* ===== verification/LayoutTheorems.v ===== *)
(** The properties of the multiplexer's layouts, with concrete layouts that show the
    hypotheses can hold. *)

From S2P Require Import Prelude.
From S2P Require Import Layout.
From S2P Require Import Topology.
From S2P Require Import LayoutInv.
From S2P Require Import Dividers.
From S2P Require Import TopologyInv.
From stdpp Require Import strings.

Import Layout LayoutExt.

(** * Sample layouts *)

Definition canvas (columns rows : N) : TerminalSize.t := TerminalSize.Mk columns rows 800 600.

(** Two panes side by side, the right one over a third *)
Definition nested : ViewLayout :=
  Split Horizontal [Terminal "a"; Split Vertical [Terminal "b"; Terminal "c"] [3; 1]%N] [].

Lemma nested_wf : wf_layout nested.
Proof.
  repeat (first [constructor | by right | by left | done | right; split]); vm_compute; done.
Defined.

(** * Laying out *)

(** C9. A well-formed layout is laid out exactly when the canvas has its minimum size;
    the panes are then the view's terminals in order, inside the canvas, at least two
    columns by one row each, and each is wholly left of or above every later one with a
    gap cell between them.  No other error and no overflow happens. *)
Theorem pane_geometry_tiles (l : ViewLayout) (size : TerminalSize.t)
    (Hwf : wf_layout l) (Hsize : size16 size) :
  if decide (fits size l)
  then ∃ panes, pane_geometry l size = Ok panes ∧
       PaneGeometry.terminal_id <$> panes = terminal_ids l ∧
       Forall (inside 0 0 (TerminalSize.columns size) (TerminalSize.rows size)) panes ∧
       all_apart panes
  else pane_geometry l size = Err "view needs at least"%string.
Proof. destruct Hsize. by apply pane_geometry_spec. Qed.

Lemma pane_geometry_tiles_witness :
  ∃ panes, pane_geometry nested (canvas 10 5) = Ok panes ∧ all_apart panes.
Proof.
  pose proof (pane_geometry_tiles nested (canvas 10 5) nested_wf ltac:(by split)) as H.
  rewrite decide_True in H by (vm_compute; done).
  destruct H as (panes & E & _ & _ & Ha). by exists panes.
Defined.

(** C39. The extents of a split fill its length, gaps included, and give every child at
    least its minimum, whatever the weights: the largest-remainder loop ends within one
    pass per child, and none of its sums or products leaves 64 bits. *)
Theorem split_extents_fill (axis : SplitAxis) (children : list ViewLayout) (weights : list N) (len : N)
    (Hwf : wf_layout (Split axis children weights)) (Hlen : (len ≤ u16_MAX)%N)
    (Hmin : (min_along axis (Split axis children weights) ≤ len)%N) :
  ∃ extents, split_extents axis children weights len = Ok extents ∧
    Forall2 (λ c e, min_along axis c ≤ e)%N children extents ∧
    (sum extents + (N.of_nat (length children) - 1) = len)%N.
Proof. by apply split_extents_fills. Qed.

Lemma split_extents_fill_witness :
  ∃ extents, split_extents Vertical [Terminal "b"; Terminal "c"] [30; 1]%N 9 = Ok extents ∧ extents = [7; 1]%N.
Proof.
  destruct (split_extents_fill Vertical [Terminal "b"; Terminal "c"] [30; 1]%N 9) as (ext & E & _).
  - repeat (first [constructor | by right | by left | done | right; split]); vm_compute; done.
  - vm_compute; done.
  - vm_compute; done.
  - exists ext. split; [done|]. vm_compute in E. by injection E.
Defined.

(** Extents are a fixed point of their own weights: a split whose weights are the
    extents of a layout gets those extents again, which is why a moved divider stays. *)
Theorem extents_are_fixed_point (axis : SplitAxis) (children : list ViewLayout) (extents : list N) (len : N)
    (Hne : 0 < length children) (Hwf : Forall wf_layout children) (Hlen : (len ≤ u16_MAX)%N)
    (Hfill : fills axis children len extents) :
  split_extents axis children extents len = Ok extents.
Proof. by apply split_extents_own. Qed.

Lemma extents_are_fixed_point_witness :
  split_extents Horizontal [Terminal "b"; Terminal "c"] [3; 6]%N 10 = Ok [3; 6]%N.
Proof.
  apply extents_are_fixed_point.
  - simpl. lia.
  - repeat constructor.
  - vm_compute; done.
  - split; [|done]. repeat constructor; vm_compute; done.
Defined.

(** The daemon gives each pane's terminal the pane's cells and a share of the
    canvas's pixels; the divisions and conversions it expects to succeed do. *)
Theorem pane_sizes_total (l : ViewLayout) (size : TerminalSize.t) (panes : list PaneGeometry.t)
    (Hwf : wf_layout l) (Hsize : size16 size)
    (Hpixels : (TerminalSize.pixel_width size ≤ u16_MAX ∧ TerminalSize.pixel_height size ≤ u16_MAX)%N)
    (Hpanes : pane_geometry l size = Ok panes) :
  Forall (λ pane, ∃ s, pane_size size pane = Ok s ∧
    TerminalSize.columns s = PaneGeometry.columns pane ∧ TerminalSize.rows s = PaneGeometry.rows pane ∧
    (TerminalSize.pixel_width s ≤ TerminalSize.pixel_width size)%N ∧
    (TerminalSize.pixel_height s ≤ TerminalSize.pixel_height size)%N) panes.
Proof.
  destruct Hsize as [Hc Hr]. pose proof (pane_geometry_spec l size Hwf Hc Hr) as H.
  case_decide; [|by rewrite H in Hpanes]. destruct H as (panes' & E & _ & Hin & _).
  rewrite E in Hpanes. injection Hpanes as ->. eapply Forall_impl; [exact Hin|].
  intros pane Hp. destruct Hpixels. by apply pane_size_ok.
Qed.

Lemma pane_sizes_total_witness :
  Forall (λ pane, ∃ s, pane_size (canvas 10 5) pane = Ok s)
    [PaneGeometry.Mk "a" 0 0 5 5; PaneGeometry.Mk "b" 6 0 4 3; PaneGeometry.Mk "c" 6 4 4 1].
Proof.
  eapply Forall_impl.
  - refine (pane_sizes_total nested (canvas 10 5) _ nested_wf _ _ _).
    + by split.
    + by split.
    + vm_compute. reflexivity.
  - intros pane (s & E & _). by exists s.
Defined.

(** * Dividers *)

(** C11. A dragged divider goes to the requested cell, clamped to what the minima of its
    two neighbours leave, and reports whether it moved; it fails exactly when the path
    leads to no divider.  This holds for a divider of the root split, and for one whose
    split already has weights of its own; the first drag in a nested split without weights
    can move its parent's divider ([nested_drag_moves_parent]). *)
Theorem divider_goes_where_asked (l : ViewLayout) (path : list N) (b pos : N) (size : TerminalSize.t)
    (Hwf : wf_layout l) (Hsize : size16 size) (Hfit : fits size l) (Hpath : length path ≤ 16)
    (Hown : path = [] ∨ weighted_at path l = true) :
  let at_ := divider_at path (N.to_nat b) (0, 0)%N (TerminalSize.columns size) (TerminalSize.rows size) in
  match at_ l with
  | Some d => ∃ l', resize_divider path b pos size l = Ok (l', bool_decide (target d pos ≠ cell d)) ∧
                    at_ l' = Some (moved_to d (target d pos)) ∧ (lowest d ≤ cell d ≤ highest d)%Z
  | None => ∃ e, resize_divider path b pos size l = Err e
  end.
Proof.
  intros at_. destruct Hsize as [Hc Hr]. pose proof (pane_geometry_spec l size Hwf Hc Hr) as Hg.
  rewrite decide_True in Hg by done. destruct Hg as (panes & E & _).
  unfold resize_divider. rewrite bool_decide_eq_false_2, E by lia. cbn [fail_if mbind outcome_bind].
  destruct Hfit as [Hf1 Hf2].
  pose proof (place_divider_exact l path (N.to_nat b) pos
    (Bounds 0 0 (TerminalSize.columns size) (TerminalSize.rows size)) Hwf
    ltac:(split; simpl; lia) ltac:(split; simpl; lia) Hown) as Hd.
  cbn zeta in Hd. cbn [bleft btop bcolumns brows] in Hd. subst at_. cbn beta.
  destruct (divider_at _ _ _ _ _ _) as [d|]; [|done].
  destruct Hd as (l' & H1 & H2 & H3 & _). by exists l'.
Qed.

Lemma divider_goes_where_asked_witness :
  ∃ l', resize_divider [1]%N 0 2 (canvas 10 9) nested = Ok (l', true) ∧
        divider_at [1]%N 0 (0, 0)%N 10 9 l' = Some (Divider 2 1 7).
Proof.
  pose proof (divider_goes_where_asked nested [1]%N 0 2 (canvas 10 9) nested_wf ltac:(by split)
    ltac:(by vm_compute) ltac:(simpl; lia) ltac:(by right)) as H.
  destruct H as (l' & H1 & H2 & _). exists l'. split; [exact H1|exact H2].
Defined.

(** Dragging a divider never panics; what it leaves is a well-formed layout of the
    same terminals that still fits the canvas and needs no larger a one, and a layout
    reported unchanged is unchanged. *)
Theorem resize_divider_total (l : ViewLayout) (path : list N) (b pos : N) (size : TerminalSize.t)
    (Hwf : wf_layout l) (Hsize : size16 size) :
  resize_divider path b pos size l ⇓? λ '(l', changed),
    wf_layout l' ∧ terminal_ids l' = terminal_ids l ∧ le2 (minimum_size l') (minimum_size l) ∧
    fits size l' ∧ (changed = false → l' = l).
Proof.
  eapply Total_mono; [by apply resize_divider_resizes|].
  intros [l' changed] ((? & ? & ?) & ? & ?). done.
Qed.

Lemma resize_divider_total_witness :
  ∃ l', resize_divider [] 0 8 (canvas 10 5) nested = Ok (l', true) ∧ terminal_ids l' = ["a"; "b"; "c"].
Proof.
  pose proof (resize_divider_total nested [] 0 8 (canvas 10 5) nested_wf ltac:(by split)) as H.
  destruct (resize_divider [] 0 8 (canvas 10 5) nested) as [[l' ch]| |] eqn:E.
  - exists l'. destruct H as (_ & -> & _). split; [|done]. vm_compute in E. by injection E as <- <-.
  - vm_compute in E. done.
  - vm_compute in E. done.
Defined.

(** Resizing a pane from the keyboard never panics either, and keeps the same. *)
Theorem resize_pane_total (l : ViewLayout) (id : string) (direction : ResizeDirection) (amount : N)
    (size : TerminalSize.t) (Hwf : wf_layout l) (Hsize : size16 size) :
  resize_pane id direction amount size l ⇓? λ '(l', changed),
    wf_layout l' ∧ terminal_ids l' = terminal_ids l ∧ le2 (minimum_size l') (minimum_size l) ∧
    fits size l' ∧ (changed = false → l' = l).
Proof.
  eapply Total_mono; [by apply resize_pane_resizes|].
  intros [l' changed] ((? & ? & ?) & ? & ?). done.
Qed.

Lemma resize_pane_total_witness :
  ∃ l', resize_pane "b" Up 1 (canvas 10 9) nested = Ok (l', true) ∧ terminal_ids l' = ["a"; "b"; "c"].
Proof.
  pose proof (resize_pane_total nested "b" Up 1 (canvas 10 9) nested_wf ltac:(by split)) as H.
  destruct (resize_pane "b" Up 1 (canvas 10 9) nested) as [[l' ch]| |] eqn:E.
  - exists l'. destruct H as (_ & -> & _). split; [|done]. vm_compute in E. by injection E as <- <-.
  - vm_compute in E. done.
  - vm_compute in E. done.
Defined.

(** The first drag inside a split without weights gives it weights, which can lower its
    minimum: a parent that had clamped it then shares out the difference, and the
    divider of the parent moves too, from column 11 to column 8. *)
Lemma nested_drag_moves_parent :
  let l := Split Horizontal
             [Split Horizontal [Terminal "a"; Split Horizontal [Terminal "b"; Terminal "c"] []] [];
              Terminal "d"] [1; 100]%N in
  divider_at [] 0 (0, 0)%N 60 9 l = Some (Divider 11 11 57) ∧
  ∃ l', resize_divider [0]%N 0 2 (canvas 60 9) l = Ok (l', true) ∧
        divider_at [] 0 (0, 0)%N 60 9 l' = Some (Divider 8 8 57).
Proof. split; [reflexivity|]. eexists. split; reflexivity. Qed.

(** * Topology *)

(** Removing a terminal from a view always succeeds, leaves the other terminals in
    order in a well-formed layout, and never raises the minimum size: the view still
    fits its canvas.  Nothing is left exactly when the view had no other terminal. *)
Theorem remove_terminal_fits (id : string) (l : ViewLayout) (Hwf : wf_layout l) :
  ∃ r, remove_terminal id l = Ok r ∧
    match r with
    | None => filter (λ t, t ≠ id) (terminal_ids l) = []
    | Some l' => wf_layout l' ∧ terminal_ids l' = filter (λ t, t ≠ id) (terminal_ids l) ∧
        ∀ size, fits size l → fits size l'
    end.
Proof.
  destruct (remove_terminal_spec id l Hwf) as (r & E & Hr). exists r. split; [done|].
  destruct r as [l'|]; [|done]. destruct Hr as (? & ? & [H1 H2]). split_and!; [done..|].
  intros size [? ?]. split; lia.
Qed.

Lemma remove_terminal_fits_witness :
  remove_terminal "b" nested = Ok (Some (Split Horizontal [Terminal "a"; Terminal "c"] [])).
Proof.
  destruct (remove_terminal_fits "b" nested nested_wf) as (r & E & _).
  vm_compute in E. injection E as <-. vm_compute. reflexivity.
Defined.

(** Swapping two panes exchanges their terminals and nothing else: every pane keeps
    its place, and swapping again restores the layout. *)
Theorem swap_exchanges_panes (left right : string) (l : ViewLayout) (size : TerminalSize.t) :
  pane_geometry (swap_terminal_ids left right l) size =
    (panes ← pane_geometry l size; Ok (map (swap_pane left right) panes)) ∧
  terminal_ids (swap_terminal_ids left right l) = swap_id left right <$> terminal_ids l ∧
  swap_terminal_ids left right (swap_terminal_ids left right l) = l.
Proof. split_and!; [apply pane_geometry_swap|apply swap_ids|apply swap_swap]. Qed.

(** A layout from a client is accepted exactly when it has at most 64 terminals,
    splits nested at most 16 deep, and two to 64 children in each split with no weights
    or one positive weight per child. *)
Theorem validate_layout_exact (l : ViewLayout) :
  validate_layout l 0 = Ok () ↔ length (terminal_ids l) ≤ 64 ∧ nesting l ≤ 16 ∧ grouped l.
Proof. rewrite validate_layout_spec. simpl. naive_solver. Qed.

(** An arrangement edit cannot change the split weights: what is accepted is the
    client's arrangement with, at every position, the weights the view had; it is
    refused only when one of the two layouts has weights, and never panics. *)
Theorem edits_keep_weights (next previous : ViewLayout) :
  match preserve_layout_weights next previous with
  | Ok result => clear_weights result = clear_weights next ∧
                 ∀ path, weighted_splits result path = weighted_splits previous path
  | Err _ => has_weights next || has_weights previous = true
  | Panic => False
  end.
Proof. apply preserve_layout_weights_spec. Qed.
