(* ===== verification/Leases.v ===== *)
(** Attachment leases of a terminal session (AttachmentLeaseRegistry of
    ctmux/core/src/lib.rs): who may type and who may change the layout.  A lease is
    never stolen: only its owner, by releasing it or by detaching, makes it free.

    [&mut self] methods return their result and the new registry. *)

From S2P Require Import Prelude.
From stdpp Require Import strings.

Inductive LeaseKind := Input | LayoutLease.
#[global] Instance LeaseKind_eq_dec : EqDecision LeaseKind.
Proof. solve_decision. Defined.

Module LeaseStatus.
Record t := Mk { held : bool; owned_by_client : bool }.
End LeaseStatus.

Module AttachmentLeases.
Record t := Mk { input : LeaseStatus.t; layout : LeaseStatus.t }.
End AttachmentLeases.

Module LeaseRegistry.
Record t := Mk { input_owner : option string; layout_owner : option string }.
#[global] Instance eq_dec : EqDecision t.
Proof. solve_decision. Defined.

Definition default : t := Mk None None.

Definition lease_owner (r : t) (lease : LeaseKind) : option string :=
  match lease with Input => input_owner r | LayoutLease => layout_owner r end.

(** [*self.lease_owner_mut(lease) = owner] *)
Definition set_owner (r : t) (lease : LeaseKind) (owner : option string) : t :=
  match lease with
  | Input => Mk owner (layout_owner r)
  | LayoutLease => Mk (input_owner r) owner
  end.

Definition release_owned_lease (owner : option string) (attachment_id : string) : option string :=
  if decide (owner = Some attachment_id) then None else owner.

Definition status (r : t) (attachment_id : string) (lease : LeaseKind) : LeaseStatus.t :=
  let owner := lease_owner r lease in
  LeaseStatus.Mk (bool_decide (is_Some owner)) (bool_decide (owner = Some attachment_id)).

Definition attachment_leases (r : t) (attachment_id : string) : AttachmentLeases.t :=
  AttachmentLeases.Mk (status r attachment_id Input) (status r attachment_id LayoutLease).

Definition request_initial (r : t) (attachment_id : string) (request_input request_layout : bool) :
    AttachmentLeases.t * t :=
  let r := if request_input && bool_decide (input_owner r = None)
           then set_owner r Input (Some attachment_id) else r in
  let r := if request_layout && bool_decide (layout_owner r = None)
           then set_owner r LayoutLease (Some attachment_id) else r in
  (attachment_leases r attachment_id, r).

Definition acquire (r : t) (attachment_id : string) (lease : LeaseKind) : LeaseStatus.t * t :=
  let owner := lease_owner r lease in
  let r := if bool_decide (owner = None) || bool_decide (owner = Some attachment_id)
           then set_owner r lease (Some attachment_id) else r in
  (status r attachment_id lease, r).

Definition release (r : t) (attachment_id : string) (lease : LeaseKind) : LeaseStatus.t * t :=
  let r := set_owner r lease (release_owned_lease (lease_owner r lease) attachment_id) in
  (status r attachment_id lease, r).

Definition release_attachment (r : t) (attachment_id : string) : t :=
  Mk (release_owned_lease (input_owner r) attachment_id)
     (release_owned_lease (layout_owner r) attachment_id).
End LeaseRegistry.

(** * Runs of operations *)

Inductive LeaseEvent :=
  | RequestInitial (a : string) (input layout : bool)
  | Acquire (a : string) (lease : LeaseKind)
  | Release (a : string) (lease : LeaseKind)
  | ReleaseAttachment (a : string).

#[global] Instance LeaseEvent_eq_dec : EqDecision LeaseEvent.
Proof. solve_decision. Defined.

Definition lease_step (r : LeaseRegistry.t) (e : LeaseEvent) : LeaseRegistry.t :=
  match e with
  | RequestInitial a i l => (LeaseRegistry.request_initial r a i l).2
  | Acquire a k => (LeaseRegistry.acquire r a k).2
  | Release a k => (LeaseRegistry.release r a k).2
  | ReleaseAttachment a => LeaseRegistry.release_attachment r a
  end.

Definition lease_run (r : LeaseRegistry.t) (events : list LeaseEvent) : LeaseRegistry.t :=
  foldl lease_step r events.

(** The events by which [a] gives up lease [k] *)
Definition gives_up (a : string) (k : LeaseKind) (e : LeaseEvent) : Prop :=
  e = Release a k ∨ e = ReleaseAttachment a.

#[global] Instance gives_up_dec a k e : Decision (gives_up a k e).
Proof. unfold gives_up. apply _. Defined.

(** The events by which [a] asks for lease [k] *)
Definition claims (a : string) (k : LeaseKind) (e : LeaseEvent) : Prop :=
  e = Acquire a k ∨ ∃ i l, e = RequestInitial a i l ∧
    match k with Input => i = true | LayoutLease => l = true end.

Section leases.
Implicit Types (r : LeaseRegistry.t) (a b : string) (k : LeaseKind) (e : LeaseEvent).

Lemma owner_set r k k' o :
  LeaseRegistry.lease_owner (LeaseRegistry.set_owner r k o) k' =
    if decide (k = k') then o else LeaseRegistry.lease_owner r k'.
Proof. by destruct k, k'. Qed.

(** What a step does to the owner of a lease *)
Lemma lease_step_owner r e k a :
  LeaseRegistry.lease_owner (lease_step r e) k = Some a →
  LeaseRegistry.lease_owner r k = Some a ∧ ¬ gives_up a k e ∨
  LeaseRegistry.lease_owner r k = None ∧ claims a k e.
Proof.
  destruct e as [b i l|b k'|b k'|b]; unfold gives_up, claims.
  - unfold lease_step, LeaseRegistry.request_initial. intros Hr.
    assert (Hcase : LeaseRegistry.lease_owner r k = Some a ∨
      LeaseRegistry.lease_owner r k = None ∧ b = a ∧
      match k with Input => i = true | LayoutLease => l = true end).
    { destruct r as [io lo], i, l, k; simpl in *; repeat case_bool_decide; simpl in *; naive_solver. }
    destruct Hcase as [Ho|(Ho & -> & Hk)]; [left|right].
    + split; [done|]. naive_solver.
    + split; [done|]. right. by exists i, l.
  - unfold lease_step, LeaseRegistry.acquire.
    destruct (bool_decide _ || bool_decide _) eqn:E; cbn [snd]; [|intros Ho; left; naive_solver].
    rewrite owner_set. destruct (decide (k' = k)) as [->|Hk]; intros Ho; [|left; naive_solver].
    injection Ho as ->. rewrite orb_true_iff, !bool_decide_eq_true in E.
    destruct E as [E|E]; [right|left]; naive_solver.
  - unfold lease_step, LeaseRegistry.release. cbn [snd]. rewrite owner_set.
    unfold LeaseRegistry.release_owned_lease.
    destruct (decide (k' = k)) as [->|Hk]; [case_decide as Hb|]; intros Ho; simplify_eq; left; naive_solver.
  - unfold lease_step, LeaseRegistry.release_attachment, LeaseRegistry.release_owned_lease.
    destruct r as [io lo], k; simpl; case_decide; intros Ho; left; naive_solver.
Qed.

(** An owner keeps its lease until it gives it up. *)
Lemma lease_kept r events k a :
  LeaseRegistry.lease_owner r k = Some a → Forall (λ e, ¬ gives_up a k e) events →
  LeaseRegistry.lease_owner (lease_run r events) k = Some a.
Proof.
  intros Ho Hall. revert r Ho. induction Hall as [|e events He Hall IH]; intros r Ho; [done|].
  apply IH. unfold gives_up in He.
  destruct e as [b i l|b k'|b k'|b].
  - unfold lease_step, LeaseRegistry.request_initial.
    destruct r as [io lo], i, l, k; simpl in *; subst; simpl; repeat case_bool_decide; simpl; done.
  - unfold lease_step, LeaseRegistry.acquire. destruct (bool_decide _ || bool_decide _) eqn:E; [|exact Ho].
    cbn [snd]. rewrite owner_set. destruct (decide (k' = k)) as [->|Hk]; [|done].
    rewrite orb_true_iff, !bool_decide_eq_true, Ho in E. destruct E; congruence.
  - unfold lease_step, LeaseRegistry.release. cbn [snd]. rewrite owner_set.
    destruct (decide (k' = k)) as [->|Hk]; [|done]. unfold LeaseRegistry.release_owned_lease. rewrite Ho.
    case_decide; [|done]. simplify_eq. exfalso. by apply He; left.
  - unfold lease_step, LeaseRegistry.release_attachment, LeaseRegistry.release_owned_lease.
    assert (b ≠ a) by (intros ->; apply He; by right).
    destruct r, k; simpl in *; subst; by rewrite decide_False by congruence.
Qed.

(** When a lease has changed hands, its old owner gave it up. *)
Lemma lease_given_up r events k a :
  LeaseRegistry.lease_owner r k = Some a → LeaseRegistry.lease_owner (lease_run r events) k ≠ Some a →
  Exists (gives_up a k) events.
Proof.
  intros Ho Hn. destruct (decide (Exists (gives_up a k) events)) as [|Hne]; [done|].
  exfalso. apply Hn. apply lease_kept; [done|]. by apply Forall_Exists_neg.
Qed.
End leases.
