(* ===== verification/Journal.v ===== *)
(** The output journal of a terminal (OutputJournal of ctmux/core/src/lib.rs): the
    last bytes of an output stream, kept as chunks at their byte sequence.  It refines
    the stream itself: what it replays is exactly the end of everything appended.

    Sequences are [u64] values in [N], whose additions are checked; sizes are [usize]
    values in [nat]. *)

From S2P Require Import Prelude.
From S2P Require Import Layout.
From Stdlib Require Import Init.Byte.

Definition add64 (a b : N) : option N := if decide (a + b ≤ u64_MAX)%N then Some (a + b)%N else None.

Module OutputChunk.
Record t := Mk { sequence_start : N; data : list byte }.

Definition sequence_end (c : t) : option N := add64 (sequence_start c) (N.of_nat (length (data c))).
End OutputChunk.

Module JournalSnapshot.
Record t := Mk { earliest_sequence : N; next_sequence : N; replay_from : N; history_gap : bool;
                 chunks : list OutputChunk.t }.
End JournalSnapshot.

Inductive JournalError := SequenceAhead (requested next : N).

(** [usize::try_from] of a [u64] does not fail where [usize] has 64 bits. *)
Definition slice_chunk_from (chunk : OutputChunk.t) (sequence : N) : option (option OutputChunk.t) :=
  e ← OutputChunk.sequence_end chunk;
  if decide (e ≤ sequence)%N then Some None
  else if decide (sequence ≤ OutputChunk.sequence_start chunk)%N then Some (Some chunk)
  else
    let offset := N.to_nat (sequence - OutputChunk.sequence_start chunk) in
    if decide (offset ≤ length (OutputChunk.data chunk))
    then Some (Some (OutputChunk.Mk sequence (drop offset (OutputChunk.data chunk))))
    else None.

(** [filter_map] over the chunks *)
Fixpoint slice_chunks (chunks : list OutputChunk.t) (sequence : N) : option (list OutputChunk.t) :=
  match chunks with
  | [] => Some []
  | chunk :: chunks =>
      sliced ← slice_chunk_from chunk sequence;
      rest ← slice_chunks chunks sequence;
      Some (match sliced with Some chunk => chunk :: rest | None => rest end)
  end.

Module OutputJournal.
Record t := Mk { capacity_bytes : nat; retained_bytes : nat; next_sequence : N;
                 chunks : list OutputChunk.t }.

Definition new (capacity_bytes : nat) : t := Mk (capacity_bytes `max` 1) 0 0 [].

Definition earliest_sequence (j : t) : N :=
  match chunks j with [] => next_sequence j | chunk :: _ => OutputChunk.sequence_start chunk end.

(** The loop of [enforce_capacity]: every turn but the last removes a chunk. *)
Fixpoint enforce_go (fuel capacity retained : nat) (chunks : list OutputChunk.t) :
    option (nat * list OutputChunk.t) :=
  match fuel with
  | 0 => None
  | S fuel =>
      if decide (retained ≤ capacity) then Some (retained, chunks) else
      let excess := retained - capacity in
      match chunks with
      | [] => Some (0, [])
      | front :: rest =>
          if decide (length (OutputChunk.data front) ≤ excess)
          then enforce_go fuel capacity (retained - length (OutputChunk.data front)) rest
          else
            start ← add64 (OutputChunk.sequence_start front) (N.of_nat excess);
            enforce_go fuel capacity (retained - excess)
              (OutputChunk.Mk start (drop excess (OutputChunk.data front)) :: rest)
      end
  end.

Definition enforce_capacity (j : t) : option t :=
  '(retained, chunks) ← enforce_go (S (S (length (chunks j)))) (capacity_bytes j) (retained_bytes j)
                          (chunks j);
  Some (Mk (capacity_bytes j) retained (next_sequence j) chunks).

Definition append (j : t) (data : list byte) : option (option OutputChunk.t * t) :=
  if decide (data = []) then Some (None, j) else
  let live_chunk := OutputChunk.Mk (next_sequence j) data in
  next ← OutputChunk.sequence_end live_chunk;
  j ← enforce_capacity (Mk (capacity_bytes j) (retained_bytes j + length data) next
                           (chunks j ++ [live_chunk]));
  Some (Some live_chunk, j).

Definition snapshot_from (j : t) (requested : option N) :
    option (JournalError + JournalSnapshot.t) :=
  let ahead := match requested with Some s => bool_decide (next_sequence j < s)%N | None => false end in
  if ahead then Some (inl (SequenceAhead (default 0%N requested) (next_sequence j))) else
  let earliest := earliest_sequence j in
  let requested_sequence := default earliest requested in
  let replay_from := (requested_sequence `max` earliest)%N in
  chunks ← slice_chunks (chunks j) replay_from;
  Some (inr (JournalSnapshot.Mk earliest (next_sequence j) replay_from
               (bool_decide (requested_sequence < earliest)%N) chunks)).
End OutputJournal.
Import OutputJournal.

(** * The stream a journal stands for *)

(** Chunks that follow each other from [start] and hold [bytes] *)
Fixpoint spells (start : N) (bytes : list byte) (chunks : list OutputChunk.t) : Prop :=
  match chunks with
  | [] => bytes = []
  | chunk :: chunks =>
      OutputChunk.sequence_start chunk = start ∧ OutputChunk.data chunk ≠ [] ∧
      ∃ rest, bytes = OutputChunk.data chunk ++ rest ∧
              spells (start + N.of_nat (length (OutputChunk.data chunk))) rest chunks
  end.

(** The journal of everything in [stream] *)
Record journal_of (capacity : nat) (stream : list byte) (j : t) : Prop := {
  j_capacity : capacity_bytes j = capacity `max` 1;
  j_next : next_sequence j = N.of_nat (length stream);
  j_fits : (N.of_nat (length stream) ≤ u64_MAX)%N;
  j_retained : retained_bytes j = length stream `min` (capacity `max` 1);
  j_chunks : spells (N.of_nat (length stream - retained_bytes j))
               (drop (length stream - retained_bytes j) stream) (chunks j);
}.

Lemma spells_app start bytes bytes' cs c :
  spells start bytes cs →
  OutputChunk.sequence_start c = (start + N.of_nat (length bytes))%N → OutputChunk.data c = bytes' →
  bytes' ≠ [] → spells start (bytes ++ bytes') (cs ++ [c]).
Proof.
  revert start bytes. induction cs as [|c' cs IH]; intros start bytes Hs Hc Hd Hne.
  { simpl in *. subst. split_and!; [simpl in Hc; lia|done|]. exists []. by rewrite app_nil_r. }
  destruct Hs as (Hst & Hcne & rest & -> & Hs). split_and!; [done|done|].
  exists (rest ++ bytes'). rewrite <- app_assoc. split; [done|].
  apply IH; [done| |done|done]. rewrite Hc, length_app. lia.
Qed.

Lemma spells_length start bytes cs : spells start bytes cs → (bytes = [] ↔ cs = []).
Proof.
  destruct cs as [|c cs]; simpl; [done|]. intros (_ & Hne & rest & -> & _). split; [|done].
  by intros [? _]%app_nil.
Qed.

Lemma add64_Some a b : (a + b ≤ u64_MAX)%N → add64 a b = Some (a + b)%N.
Proof. intros Hle. unfold add64. by rewrite decide_True. Qed.

(** The eviction loop drops exactly the excess, from the front. *)
Lemma enforce_go_spec fuel capacity start bytes cs :
  1 ≤ capacity → spells start bytes cs → length cs + 1 < fuel →
  (start + N.of_nat (length bytes) ≤ u64_MAX)%N →
  let excess := length bytes - capacity in
  enforce_go fuel capacity (length bytes) cs ⇓ λ '(retained, cs'),
    retained = length bytes `min` capacity ∧ spells (start + N.of_nat excess) (drop excess bytes) cs'.
Proof.
  intros Hcap Hs. revert start bytes cs Hs.
  induction fuel as [|fuel IH]; intros start bytes cs Hs Hf Hfit excess; [lia|]. cbn [enforce_go].
  case_decide as Hle.
  { simpl. split; [lia|]. subst excess. replace (length bytes - capacity) with 0 by lia.
    by rewrite N.add_0_r, drop_0. }
  fold excess. assert (excess = length bytes - capacity) by done. clearbody excess.
  destruct cs as [|c cs]; simpl in Hs; [subst; simpl in *; lia|].
  destruct Hs as (<- & Hne & rest & -> & Hs). rewrite length_app in *. simpl in Hf. case_decide as Hc.
  - replace (_ + _ - _) with (length rest) by lia.
    eapply Safe_mono; [apply (IH _ _ _ Hs); lia|]. intros [retained cs'] [H1 H2]. split; [lia|].
    rewrite drop_app_ge by lia. replace (length rest - capacity) with
      (excess - length (OutputChunk.data c)) in H2 by lia.
    replace (OutputChunk.sequence_start c + N.of_nat excess)%N with
      (OutputChunk.sequence_start c + N.of_nat (length (OutputChunk.data c)) +
       N.of_nat (excess - length (OutputChunk.data c)))%N by lia. done.
  - rewrite add64_Some by lia. cbn [mbind option_bind].
    set (c' := OutputChunk.Mk _ _).
    assert (Hs' : spells (OutputChunk.sequence_start c + N.of_nat excess)
      (drop excess (OutputChunk.data c) ++ rest) (c' :: cs)).
    { split_and!; [done| |].
      - intros Hnil%(f_equal length). cbn [c' OutputChunk.data] in Hnil. rewrite length_drop in Hnil.
        simpl in Hnil. lia.
      - exists rest. split; [done|]. cbn [c' OutputChunk.data]. rewrite length_drop.
        by replace (_ + _ + _)%N with
          (OutputChunk.sequence_start c + N.of_nat (length (OutputChunk.data c)))%N by lia. }
    destruct fuel as [|fuel]; [lia|]. cbn [enforce_go]. rewrite decide_True by lia.
    simpl. split; [lia|]. rewrite drop_app_le by lia. done.
Qed.

Lemma new_journal capacity : journal_of capacity [] (new capacity).
Proof. split; done. Qed.

Lemma append_journal capacity stream j data :
  journal_of capacity stream j → (N.of_nat (length (stream ++ data)) ≤ u64_MAX)%N →
  append j data ⇓ λ '(chunk, j'),
    journal_of capacity (stream ++ data) j' ∧
    chunk = if decide (data = []) then None
            else Some (OutputChunk.Mk (N.of_nat (length stream)) data).
Proof.
  intros [Hcap Hnext Hfit Hret Hcs] Hlen. unfold append. rewrite length_app in Hlen.
  case_decide as Hd; [subst; rewrite app_nil_r; by split|].
  unfold OutputChunk.sequence_end. cbn [OutputChunk.sequence_start OutputChunk.data].
  rewrite Hnext, add64_Some by lia. cbn [mbind option_bind].
  unfold enforce_capacity. cbn [capacity_bytes retained_bytes next_sequence chunks].
  set (kept := drop (length stream - retained_bytes j) stream) in *.
  assert (Hkept : length kept = retained_bytes j) by (unfold kept; rewrite length_drop; lia).
  set (live := OutputChunk.Mk (N.of_nat (length stream)) data).
  assert (Hspell : spells (N.of_nat (length stream - retained_bytes j)) (kept ++ data) (chunks j ++ [live])).
  { apply spells_app; [done| |done|done]. rewrite Hkept. unfold live. simpl. lia. }
  replace (retained_bytes j + length data) with (length (kept ++ data)) by (rewrite length_app; lia).
  pose proof (enforce_go_spec (S (S (length (chunks j ++ [live])))) (capacity_bytes j) _ _ _
    ltac:(lia) Hspell ltac:(lia) ltac:(rewrite length_app; lia)) as He. cbn zeta in He.
  destruct (enforce_go _ _ _ _) as [[retained cs']|]; [|done]. simpl in He |- *.
  destruct He as [Hr Hs]. split; [|done]. rewrite length_app in Hr, Hs.
  assert (Hr' : retained = length (stream ++ data) `min` (capacity `max` 1)) by (rewrite length_app; lia).
  split; cbn [capacity_bytes retained_bytes next_sequence chunks]; rewrite ?length_app in *; [done|lia|lia|done|].
  unfold kept in Hs. rewrite <- drop_app_le, drop_drop in Hs by lia.
  replace (length stream - retained_bytes j + (length (drop (length stream - retained_bytes j) stream) +
    length data - capacity_bytes j)) with (length stream + length data - retained) in Hs
    by (fold kept; lia).
  replace (N.of_nat (length stream - retained_bytes j) + _)%N with
    (N.of_nat (length stream + length data - retained)) in Hs by (fold kept; lia).
  exact Hs.
Qed.

(** Slicing keeps exactly the bytes from the sequence on. *)
Lemma slice_chunks_spec start bytes cs sequence :
  spells start bytes cs → (start + N.of_nat (length bytes) ≤ u64_MAX)%N →
  slice_chunks cs sequence ⇓
    spells (start `max` sequence)%N (drop (N.to_nat (sequence - start)) bytes).
Proof.
  revert start bytes. induction cs as [|c cs IH]; intros start bytes Hs Hfit.
  { simpl in *. subst. by rewrite drop_nil. }
  destruct Hs as (<- & Hne & rest & -> & Hs). rewrite length_app in Hfit.
  cbn [slice_chunks]. unfold slice_chunk_from, OutputChunk.sequence_end.
  set (s := OutputChunk.sequence_start c) in *. set (d := OutputChunk.data c) in *.
  rewrite add64_Some by lia. cbn [mbind option_bind].
  destruct (Safe_elim _ _ (IH _ _ Hs ltac:(lia))) as (cs' & E & Hcs').
  destruct (decide (s + N.of_nat (length d) ≤ sequence)%N).
  - cbn [mbind option_bind]. rewrite E. simpl. rewrite drop_app_ge by lia.
    replace (s `max` sequence)%N with ((s + N.of_nat (length d)) `max` sequence)%N by lia.
    by replace (N.to_nat (sequence - s) - length d) with (N.to_nat (sequence - (s + N.of_nat (length d)))) by lia.
  - replace ((s + N.of_nat (length d)) `max` sequence)%N with (s + N.of_nat (length d))%N in Hcs' by lia.
    replace (N.to_nat (sequence - (s + N.of_nat (length d)))) with 0 in Hcs' by lia. rewrite drop_0 in Hcs'.
    destruct (decide (sequence ≤ s)%N).
    + cbn [mbind option_bind]. rewrite E. simpl.
      replace (N.to_nat (sequence - s)) with 0 by lia. rewrite drop_0.
      replace (s `max` sequence)%N with s by lia. split_and!; [done|done|]. by exists rest.
    + rewrite decide_True by lia. cbn [mbind option_bind]. rewrite E. simpl.
      replace (s `max` sequence)%N with sequence by lia. rewrite drop_app_le by lia. split_and!; [done| |].
      * intros Hnil%(f_equal length). rewrite length_drop in Hnil. simpl in Hnil. lia.
      * exists rest. split; [done|]. rewrite length_drop.
        by replace (sequence + N.of_nat (length d - N.to_nat (sequence - s)))%N with
          (s + N.of_nat (length d))%N by lia.
Qed.

Lemma earliest_spec capacity stream j :
  journal_of capacity stream j → earliest_sequence j = N.of_nat (length stream - retained_bytes j).
Proof.
  intros [Hcap Hnext Hfit Hret Hcs]. unfold earliest_sequence.
  destruct (chunks j) as [|c cs]; simpl in Hcs.
  - apply (f_equal length) in Hcs. rewrite length_drop in Hcs. simpl in Hcs. lia.
  - by destruct Hcs as (-> & _).
Qed.

(** What a snapshot holds of the stream *)
Definition snapshot_of (capacity : nat) (stream : list byte) (requested : option N)
    (r : JournalError + JournalSnapshot.t) : Prop :=
  let earliest := length stream - length stream `min` (capacity `max` 1) in
  match r with
  | inl (SequenceAhead s next) =>
      requested = Some s ∧ next = N.of_nat (length stream) ∧ (next < s)%N
  | inr snapshot =>
      let from := default (N.of_nat earliest) requested in
      (from ≤ N.of_nat (length stream))%N ∧
      JournalSnapshot.earliest_sequence snapshot = N.of_nat earliest ∧
      JournalSnapshot.next_sequence snapshot = N.of_nat (length stream) ∧
      JournalSnapshot.replay_from snapshot = (from `max` N.of_nat earliest)%N ∧
      JournalSnapshot.history_gap snapshot = bool_decide (from < N.of_nat earliest)%N ∧
      spells (from `max` N.of_nat earliest) (drop (N.to_nat (from `max` N.of_nat earliest)) stream)
        (JournalSnapshot.chunks snapshot)
  end.

Lemma snapshot_from_spec capacity stream j requested :
  journal_of capacity stream j → snapshot_from j requested ⇓ snapshot_of capacity stream requested.
Proof.
  intros Hj. pose proof (earliest_spec _ _ _ Hj) as He. destruct Hj as [Hcap Hnext Hfit Hret Hcs].
  unfold snapshot_from. rewrite Hnext.
  destruct (match requested with Some s => _ | None => false end) eqn:Hahead.
  { destruct requested as [s|]; [|done]. apply bool_decide_eq_true in Hahead. done. }
  assert (Hfrom : (default (earliest_sequence j) requested ≤ N.of_nat (length stream))%N).
  { destruct requested as [s|]; simpl; [|rewrite He; lia]. apply bool_decide_eq_false in Hahead.
    unfold id. lia. }
  rewrite He in *. set (from := default _ requested) in *.
  eapply Safe_bind; [apply (slice_chunks_spec _ _ _ _ Hcs); rewrite length_drop; lia|].
  intros cs Hspell. simpl. fold from. rewrite <- Hret. fold from. split_and!; [done..|].
  rewrite drop_drop in Hspell. revert Hspell.
  replace (N.of_nat (length stream - retained_bytes j) `max` (from `max` N.of_nat (length stream - retained_bytes j)))%N
    with (from `max` N.of_nat (length stream - retained_bytes j))%N by lia.
  by replace (length stream - retained_bytes j + N.to_nat _) with
    (N.to_nat (from `max` N.of_nat (length stream - retained_bytes j)))%N by lia.
Qed.

(** * A journal fed with a sequence of outputs *)

Definition append_all (j : t) (outputs : list (list byte)) : option t :=
  foldl (λ acc data, j ← acc; '(_, j) ← append j data; Some j) (Some j) outputs.

Lemma append_all_journal capacity stream j outputs :
  journal_of capacity stream j → (N.of_nat (length (stream ++ mjoin outputs)) ≤ u64_MAX)%N →
  append_all j outputs ⇓ journal_of capacity (stream ++ mjoin outputs).
Proof.
  unfold append_all. revert stream j. induction outputs as [|data outputs IH]; intros stream j Hj Hfit.
  { simpl. by rewrite app_nil_r. }
  cbn [foldl mbind option_bind]. change (mjoin (data :: outputs)) with (data ++ mjoin outputs) in *.
  rewrite app_assoc in *.
  destruct (Safe_elim _ _ (append_journal capacity stream j data Hj ltac:(rewrite (length_app (stream ++ data)) in Hfit; lia)))
    as ([c j'] & E & Hj' & _). rewrite E. cbn [mbind option_bind]. by apply IH.
Qed.
