(* ===== verification/Utf8.v ===== *)
(** UTF-8, as [std::str::from_utf8] and [char::encode_utf8] have it: a reader that looks at
    one character at a time, what the validator reports of a byte string, and the reading
    with replacement characters that the daemon makes of it.  Bytes are numbers below 256,
    characters are scalar values. *)

From S2P Require Import Prelude.
From S2P Require Import Cells.

Definition within_range (lo hi c : N) : bool := (lo <=? c)%N && (c <=? hi)%N.
Definition is_continuation : N → bool := within_range 0x80 0xbf.

(** The Unicode scalar values, the values of a [char] *)
Definition is_scalar (c : N) : bool := within_range 0 0xd7ff c || within_range 0xe000 0x10ffff c.

(** * One character *)

(** The bytes after the first one, by the first one: [None] when it cannot begin a
    character; the range of the second byte depends on the first. *)
Definition follows (first : N) : option (list (N → bool)) :=
  if (first <? 0x80)%N then Some []
  else if within_range 0xc2 0xdf first then Some [is_continuation]
  else if (first =? 0xe0)%N then Some [within_range 0xa0 0xbf; is_continuation]
  else if (first =? 0xed)%N then Some [within_range 0x80 0x9f; is_continuation]
  else if within_range 0xe1 0xef first then Some [is_continuation; is_continuation]
  else if (first =? 0xf0)%N then Some [within_range 0x90 0xbf; is_continuation; is_continuation]
  else if (first =? 0xf4)%N then Some [within_range 0x80 0x8f; is_continuation; is_continuation]
  else if within_range 0xf1 0xf3 first then Some [is_continuation; is_continuation; is_continuation]
  else None.

(** The bits of the first byte that belong to the character *)
Definition lead_bits (first : N) : N :=
  if (first <? 0x80)%N then first
  else if (first <? 0xe0)%N then N.land first 0x1f
  else if (first <? 0xf0)%N then N.land first 0x0f
  else N.land first 0x07.

Inductive Reading :=
  | Char (c : char) (rest : list N)
  | Malformed (error_len : nat) (rest : list N)
  | Incomplete.

(** Reading the bytes that must follow, [read] bytes into the character *)
Fixpoint read_rest (tests : list (N → bool)) (bits : N) (read : nat) (s : list N) : Reading :=
  match tests with
  | [] => Char bits s
  | test :: tests =>
      match s with
      | [] => Incomplete
      | b :: s' =>
          if test b then read_rest tests (64 * bits + N.land b 0x3f) (S read) s'
          else Malformed read s
      end
  end.

Definition read_char (s : list N) : Reading :=
  match s with
  | [] => Incomplete
  | first :: s =>
      match follows first with
      | Some tests => read_rest tests (lead_bits first) 1 s
      | None => Malformed 1 s
      end
  end.

(** * The validator *)

(** [valid_up_to] and [error_len]; the characters are those of the valid prefix. *)
Inductive Utf8Result :=
  | ValidUtf8 (characters : list char)
  | InvalidUtf8 (characters : list char) (valid_up_to : nat) (error_len : option nat).

Fixpoint from_utf8_go (fuel : nat) (s : list N) (position : nat) (characters : list char) : Utf8Result :=
  match fuel with
  | 0 => ValidUtf8 characters
  | S fuel =>
      match s with
      | [] => ValidUtf8 characters
      | _ =>
          match read_char s with
          | Char c rest => from_utf8_go fuel rest (position + (length s - length rest)) (characters ++ [c])
          | Malformed n _ => InvalidUtf8 characters position (Some n)
          | Incomplete => InvalidUtf8 characters position None
          end
      end
  end.

Definition from_utf8 (s : list N) : Utf8Result := from_utf8_go (length s) s 0 [].

(** * Encoding *)

(** [char::encode_utf8] *)
Definition encode (c : char) : list N :=
  if (c <? 0x80)%N then [c]
  else if (c <? 0x800)%N then [0xc0 + c / 64; 0x80 + c mod 64]%N
  else if (c <? 0x10000)%N then [0xe0 + c / 4096; 0x80 + c / 64 mod 64; 0x80 + c mod 64]%N
  else [0xf0 + c / 262144; 0x80 + c / 4096 mod 64; 0x80 + c / 64 mod 64; 0x80 + c mod 64]%N.

Definition encode_all (s : list char) : list N := mjoin (encode <$> s).

(** * Reading with replacement characters *)

Definition REPLACEMENT : char := 0xfffd%N.

(** The characters of a byte string, each maximal malformed part read as one replacement
    character, and the unfinished character at its end *)
Fixpoint lossy_go (fuel : nat) (s : list N) : list char * list N :=
  match fuel with
  | 0 => ([], s)
  | S fuel =>
      match read_char s with
      | Char c rest => let '(cs, p) := lossy_go fuel rest in (c :: cs, p)
      | Malformed _ rest => let '(cs, p) := lossy_go fuel rest in (REPLACEMENT :: cs, p)
      | Incomplete => ([], s)
      end
  end.
Definition lossy (s : list N) : list char * list N := lossy_go (length s) s.

(** * What a reading leaves *)

Lemma read_rest_app tests : ∀ bits read s t,
  read_rest tests bits read (s ++ t) =
  match read_rest tests bits read s with
  | Char c rest => Char c (rest ++ t)
  | Malformed n rest => Malformed n (rest ++ t)
  | Incomplete => read_rest tests bits read (s ++ t)
  end.
Proof.
  induction tests as [|test tests IH]; intros bits read s t; [done|]. destruct s as [|b s]; [done|].
  cbn [read_rest app]. destruct (test b); [apply IH|done].
Qed.

(** A character that was read is read the same when more bytes follow. *)
Lemma read_char_app s t :
  read_char (s ++ t) =
  match read_char s with
  | Char c rest => Char c (rest ++ t)
  | Malformed n rest => Malformed n (rest ++ t)
  | Incomplete => read_char (s ++ t)
  end.
Proof.
  destruct s as [|first s]; [done|]. cbn [read_char app]. destruct (follows first) as [tests|]; [|done].
  apply read_rest_app.
Qed.

Lemma read_rest_drops tests : ∀ bits read s,
  match read_rest tests bits read s with
  | Char _ rest => length tests ≤ length s ∧ rest = drop (length tests) s
  | Malformed n rest => read ≤ n ∧ n - read < length s ∧ rest = drop (n - read) s
  | Incomplete => length s < length tests
  end.
Proof.
  induction tests as [|test tests IH]; intros bits read s; cbn [read_rest length]; [by split; [lia|]|].
  destruct s as [|b s]; cbn [length]; [lia|]. destruct (test b); [|by rewrite Nat.sub_diag; split_and!; [lia..|]].
  specialize (IH (64 * bits + N.land b 0x3f)%N (S read) s). destruct (read_rest _ _ _ _) as [c rest|n rest|].
  - destruct IH as [Hl ->]. split; [lia|done].
  - destruct IH as (Hn & Hl & ->). split_and!; [lia..|]. by replace (n - read) with (S (n - S read)) by lia.
  - lia.
Qed.

Lemma follows_short first tests : follows first = Some tests → length tests ≤ 3.
Proof. unfold follows. intros E. repeat case_match; simplify_eq; cbn; lia. Qed.

(** Reading shortens the string, or there are too few bytes for one character. *)
Lemma read_char_drops s :
  match read_char s with
  | Char _ rest => length rest < length s ∧ rest = drop (length s - length rest) s
  | Malformed n rest => 1 ≤ n ∧ n ≤ length s ∧ rest = drop n s
  | Incomplete => length s ≤ 3
  end.
Proof.
  destruct s as [|first s]; cbn [read_char length]; [lia|]. destruct (follows first) as [tests|] eqn:Ef.
  - pose proof (read_rest_drops tests (lead_bits first) 1 s) as Hd. pose proof (follows_short _ _ Ef).
    destruct (read_rest _ _ _ _) as [c rest|n rest|].
    + destruct Hd as [Hl ->]. rewrite length_drop. split; [lia|].
      replace (S (length s) - (length s - length tests)) with (S (length tests)) by lia. done.
    + destruct Hd as (Hn & Hl & ->). split_and!; [lia..|]. by replace n with (S (n - 1)) at 2 by lia.
    + lia.
  - split_and!; [lia..|done].
Qed.

(** * Reading in pieces *)

Lemma lossy_go_fuel n : ∀ m s, length s ≤ n → length s ≤ m → lossy_go n s = lossy_go m s.
Proof.
  induction n as [|n IH]; intros m s Hn Hm.
  { destruct s; [|cbn in Hn; lia]. by destruct m. }
  destruct m as [|m]; [destruct s; [done|cbn in Hm; lia]|]. cbn [lossy_go]. pose proof (read_char_drops s) as Hd.
  destruct (read_char s) as [c rest|k rest|]; [| |done].
  - rewrite (IH m rest) by lia. done.
  - destruct Hd as (Hk & Hl & ->). rewrite (IH m); [done|rewrite length_drop; lia..].
Qed.

(** The equations of [lossy] *)
Lemma lossy_unfold s : lossy s =
  match read_char s with
  | Char c rest => let '(cs, p) := lossy rest in (c :: cs, p)
  | Malformed _ rest => let '(cs, p) := lossy rest in (REPLACEMENT :: cs, p)
  | Incomplete => ([], s)
  end.
Proof.
  unfold lossy at 1. destruct s as [|b s]; [done|]. cbn [length lossy_go]. pose proof (read_char_drops (b :: s)) as Hd.
  destruct (read_char (b :: s)) as [c rest|k rest|]; [| |done]; cbn [length] in Hd.
  - by rewrite (lossy_go_fuel _ (length rest)) by lia.
  - destruct Hd as (Hk & Hl & E). assert (length rest ≤ length s) by (rewrite E, length_drop; cbn; lia).
    by rewrite (lossy_go_fuel _ (length rest)) by lia.
Qed.

(** Reading shorter and shorter strings *)
Lemma reading_ind (P : list N → Prop) :
  (∀ s, (∀ c rest, read_char s = Char c rest → P rest) → (∀ k rest, read_char s = Malformed k rest → P rest) → P s) →
  ∀ s, P s.
Proof.
  intros IH s. remember (length s) as n eqn:En. revert s En. induction n as [n Hn] using lt_wf_ind. intros s ->.
  apply IH; [intros c rest E|intros k rest E]; pose proof (read_char_drops s) as Hd; rewrite E in Hd.
  - by eapply Hn; [apply Hd|].
  - destruct Hd as (Hk & Hl & ->). eapply Hn; [|reflexivity]. rewrite length_drop. lia.
Qed.

(** Bytes that arrive in two pieces read as they do in one. *)
Lemma lossy_app s t :
  lossy (s ++ t) = let '(cs, p) := lossy s in let '(cs', p') := lossy (p ++ t) in (cs ++ cs', p').
Proof.
  induction s as [s IHc IHm] using reading_ind. rewrite (lossy_unfold (s ++ t)), (lossy_unfold s), read_char_app.
  destruct (read_char s) as [c rest|k rest|] eqn:E.
  - rewrite (IHc c rest eq_refl). destruct (lossy rest) as [cs p]. by destruct (lossy (p ++ t)).
  - rewrite (IHm k rest eq_refl). destruct (lossy rest) as [cs p]. by destruct (lossy (p ++ t)).
  - rewrite <- lossy_unfold. by destruct (lossy (s ++ t)).
Qed.

(** What is left is the beginning of one character. *)
Lemma lossy_rest s : read_char (lossy s).2 = Incomplete ∧ length (lossy s).2 ≤ 3.
Proof.
  induction s as [s IHc IHm] using reading_ind. rewrite lossy_unfold. destruct (read_char s) as [c rest|k rest|] eqn:E.
  - specialize (IHc c rest eq_refl). by destruct (lossy rest).
  - specialize (IHm k rest eq_refl). by destruct (lossy rest).
  - pose proof (read_char_drops s) as Hd. by rewrite E in Hd.
Qed.

Lemma lossy_nil : lossy [] = ([], []).
Proof. done. Qed.

(** * The validator reads the same characters *)

(** What [from_utf8] reports of [s], read after [position] bytes and [cs] characters *)
Lemma from_utf8_go_reads s : ∀ fuel position cs, length s ≤ fuel →
  match from_utf8_go fuel s position cs with
  | ValidUtf8 ds => ∃ es, ds = cs ++ es ∧ lossy s = (es, [])
  | InvalidUtf8 ds up error_len => ∃ es n, ds = cs ++ es ∧ up = position + n ∧ n < length s ∧
      (length es = 0 ↔ n = 0) ∧
      lossy s = (let '(fs, p) := lossy (drop n s) in (es ++ fs, p)) ∧
      match error_len with
      | Some k => ∃ rest, read_char (drop n s) = Malformed k rest
      | None => read_char (drop n s) = Incomplete
      end
  end.
Proof.
  induction s as [s IHc _] using reading_ind. intros fuel position cs Hl.
  destruct s as [|b s]; [destruct fuel; cbn; by exists []; rewrite app_nil_r|].
  destruct fuel as [|fuel]; [cbn in Hl; lia|]. cbn [from_utf8_go]. assert (Hpos : 0 < length (b :: s)) by (cbn; lia). set (s' := b :: s) in *.
  pose proof (read_char_drops s') as Hd. destruct (read_char s') as [c rest|k rest|] eqn:E.
  - destruct Hd as [Hlt Hdrop]. cbn [length] in Hl. specialize (IHc c rest eq_refl fuel (position + (length s' - length rest)) (cs ++ [c])).
    specialize (IHc ltac:(lia)).
    assert (El : lossy s' = let '(cs, p) := lossy rest in (c :: cs, p)) by (rewrite lossy_unfold, E; done).
    destruct (from_utf8_go fuel rest _ _) as [ds|ds up error_len].
    + destruct IHc as (es & -> & Ees). exists (c :: es). rewrite <- app_assoc. split; [done|]. by rewrite El, Ees.
    + destruct IHc as (es & n & -> & -> & Hn & _ & Ees & Herr).
      assert (Edrop : drop (length s' - length rest + n) s' = drop n rest) by (rewrite Hdrop at 2; by rewrite drop_drop).
      exists (c :: es), (length s' - length rest + n). split_and!; [by rewrite <- app_assoc|lia|lia| | |].
      * split; [done|lia].
      * rewrite El, Edrop, Ees. by destruct (lossy (drop n rest)).
      * by rewrite Edrop.
  - exists [], 0. rewrite app_nil_r, drop_0. split_and!; [done|lia|done|done| |by exists rest].
    by destruct (lossy s').
  - exists [], 0. rewrite app_nil_r, drop_0. split_and!; [done|lia|done|done| |done].
    by destruct (lossy s').
Qed.

Lemma from_utf8_reads s :
  match from_utf8 s with
  | ValidUtf8 cs => lossy s = (cs, [])
  | InvalidUtf8 cs n error_len => n < length s ∧ (length cs = 0 ↔ n = 0) ∧
      lossy s = (let '(fs, p) := lossy (drop n s) in (cs ++ fs, p)) ∧
      match error_len with
      | Some k => ∃ rest, read_char (drop n s) = Malformed k rest
      | None => read_char (drop n s) = Incomplete
      end
  end.
Proof.
  pose proof (from_utf8_go_reads s (length s) 0 [] (le_n _)) as Hg. unfold from_utf8.
  destruct (from_utf8_go _ _ _ _) as [cs|cs n error_len].
  - by destruct Hg as (es & -> & E).
  - destruct Hg as (es & n' & -> & -> & Hn & H0 & E & Herr). by split_and!.
Qed.

(** * Encoded characters are read back *)

Lemma land_ones_add k q m : (q < 2 ^ k)%N → N.land (m * 2 ^ k + q) (N.ones k) = q.
Proof. intros Hq. rewrite N.land_ones, N.add_comm, N.Div0.mod_add. by apply N.mod_small. Qed.

Lemma within_true lo hi c : within_range lo hi c = true ↔ (lo ≤ c ≤ hi)%N.
Proof. unfold within_range. rewrite andb_true_iff, !N.leb_le. lia. Qed.

Lemma within_false lo hi c : within_range lo hi c = false ↔ (c < lo ∨ hi < c)%N.
Proof. unfold within_range. rewrite andb_false_iff, !N.leb_gt. lia. Qed.

(** A byte that continues a character adds its six bits. *)
Lemma read_rest_step test tests bits read d s : (d < 64)%N → test (0x80 + d)%N = true →
  read_rest (test :: tests) bits read ((0x80 + d)%N :: s) = read_rest tests (64 * bits + d) (S read) s.
Proof.
  intros Hd Ht. cbn [read_rest]. rewrite Ht. change 0x3f%N with (N.ones 6).
  change 0x80%N with (2 * 2 ^ 6)%N. by rewrite land_ones_add by (cbn; lia).
Qed.

Lemma continuation_ok d : (d < 64)%N → is_continuation (0x80 + d) = true.
Proof. intros Hd. apply within_true. lia. Qed.

(** The tests a first byte asks for, and the bits it carries *)
Lemma lead_two q : (2 ≤ q < 32)%N → follows (0xc0 + q) = Some [is_continuation] ∧ lead_bits (0xc0 + q) = q.
Proof.
  intros Hq. unfold follows, lead_bits. rewrite (proj2 (N.ltb_ge (0xc0 + q) 0x80)) by lia.
  rewrite (proj2 (within_true 0xc2 0xdf _)) by lia. rewrite (proj2 (N.ltb_lt (0xc0 + q) 0xe0)) by lia. split; [done|].
  change 0x1f%N with (N.ones 5). change 0xc0%N with (6 * 2 ^ 5)%N. by rewrite land_ones_add by (cbn; lia).
Qed.

Lemma lead_three q m : (q < 16)%N → (m < 64)%N → (q = 0 → 32 ≤ m)%N → (q = 13 → m < 32)%N →
  ∃ test, follows (0xe0 + q) = Some [test; is_continuation] ∧ test (0x80 + m)%N = true ∧ lead_bits (0xe0 + q) = q.
Proof.
  intros Hq Hm H0 H13. unfold follows, lead_bits.
  rewrite (proj2 (N.ltb_ge (0xe0 + q) 0x80)), (proj2 (within_false 0xc2 0xdf _)), (proj2 (N.ltb_ge (0xe0 + q) 0xe0)),
    (proj2 (N.ltb_lt (0xe0 + q) 0xf0)) by lia.
  assert (Hbits : N.land (0xe0 + q) 0xf = q).
  { change 0xf%N with (N.ones 4). change 0xe0%N with (14 * 2 ^ 4)%N. by rewrite land_ones_add by (cbn; lia). }
  destruct (N.eqb_spec (0xe0 + q) 0xe0); [|destruct (N.eqb_spec (0xe0 + q) 0xed)].
  - exists (within_range 0xa0 0xbf). split_and!; [done| |done]. apply within_true. lia.
  - exists (within_range 0x80 0x9f). split_and!; [done| |done]. apply within_true. lia.
  - rewrite (proj2 (within_true 0xe1 0xef _)) by lia. exists is_continuation. split_and!; [done| |done]. by apply continuation_ok.
Qed.

Lemma lead_four q m : (q < 5)%N → (m < 64)%N → (q = 0 → 16 ≤ m)%N → (q = 4 → m < 16)%N →
  ∃ test, follows (0xf0 + q) = Some [test; is_continuation; is_continuation] ∧ test (0x80 + m)%N = true ∧
    lead_bits (0xf0 + q) = q.
Proof.
  intros Hq Hm H0 H4. unfold follows, lead_bits.
  rewrite (proj2 (N.ltb_ge (0xf0 + q) 0x80)), (proj2 (within_false 0xc2 0xdf _)), (proj2 (N.ltb_ge (0xf0 + q) 0xe0)),
    (proj2 (N.ltb_ge (0xf0 + q) 0xf0)), (proj2 (N.eqb_neq (0xf0 + q) 0xe0)), (proj2 (N.eqb_neq (0xf0 + q) 0xed)),
    (proj2 (within_false 0xe1 0xef _)) by lia.
  assert (Hbits : N.land (0xf0 + q) 7 = q).
  { change 7%N with (N.ones 3). change 0xf0%N with (30 * 2 ^ 3)%N. by rewrite land_ones_add by (cbn; lia). }
  destruct (N.eqb_spec (0xf0 + q) 0xf0); [|destruct (N.eqb_spec (0xf0 + q) 0xf4)].
  - exists (within_range 0x90 0xbf). split_and!; [done| |done]. apply within_true. lia.
  - exists (within_range 0x80 0x8f). split_and!; [done| |done]. apply within_true. lia.
  - rewrite (proj2 (within_true 0xf1 0xf3 _)) by lia. exists is_continuation. split_and!; [done| |done]. by apply continuation_ok.
Qed.

Lemma read_encoded c s : is_scalar c = true → read_char (encode c ++ s) = Char c s.
Proof.
  intros Hc%orb_true_iff. rewrite !within_true in Hc. unfold encode.
  pose proof (N.div_mod c 64 ltac:(lia)) as E1. pose proof (N.mod_lt c 64 ltac:(lia)) as L1.
  set (l := (c mod 64)%N) in *. set (h := (c / 64)%N) in *.
  destruct (N.ltb_spec c 0x80); [|destruct (N.ltb_spec c 0x800); [|destruct (N.ltb_spec c 0x10000)]].
  - cbn [app read_char]. unfold follows, lead_bits. by rewrite (proj2 (N.ltb_lt c 0x80)) by lia.
  - cbn [app read_char]. destruct (lead_two h ltac:(lia)) as [-> ->].
    rewrite read_rest_step by (try apply continuation_ok; lia). cbn [read_rest]. f_equal. lia.
  - pose proof (N.div_mod h 64 ltac:(lia)) as E2. pose proof (N.mod_lt h 64 ltac:(lia)) as L2.
    assert (Eq : (c / 4096 = h / 64)%N) by (unfold h; rewrite N.Div0.div_div; done). rewrite Eq.
    set (m := (h mod 64)%N) in *. set (q := (h / 64)%N) in *. clearbody l m q h.
    cbn [app read_char]. destruct (lead_three q m) as (test & -> & Ht & ->); [lia..|].
    rewrite read_rest_step by (try done; lia). rewrite read_rest_step by (try apply continuation_ok; lia).
    cbn [read_rest]. f_equal. lia.
  - pose proof (N.div_mod h 64 ltac:(lia)) as E2. pose proof (N.mod_lt h 64 ltac:(lia)) as L2.
    assert (Eq : (c / 4096 = h / 64)%N) by (unfold h; rewrite N.Div0.div_div; done). rewrite Eq.
    set (m := (h mod 64)%N) in *. set (g := (h / 64)%N) in *.
    pose proof (N.div_mod g 64 ltac:(lia)) as E3. pose proof (N.mod_lt g 64 ltac:(lia)) as L3.
    assert (Eq' : (c / 262144 = g / 64)%N) by (unfold g, h; rewrite !N.Div0.div_div; done). rewrite Eq'.
    set (k := (g mod 64)%N) in *. set (q := (g / 64)%N) in *. clearbody l m k q g h.
    cbn [app read_char]. destruct (lead_four q k) as (test & -> & Ht & ->); [lia..|].
    rewrite read_rest_step by (try done; lia). rewrite !read_rest_step by (try apply continuation_ok; lia).
    cbn [read_rest]. f_equal. lia.
Qed.

Lemma encode_all_app a b : encode_all (a ++ b) = encode_all a ++ encode_all b.
Proof. unfold encode_all. by rewrite fmap_app, join_app. Qed.

Lemma lossy_encoded cs : Forall (λ c, is_scalar c = true) cs → lossy (encode_all cs) = (cs, []).
Proof.
  induction 1 as [|c cs Hc _ IH]; [done|]. change (encode_all (c :: cs)) with (encode c ++ encode_all cs).
  by rewrite lossy_unfold, read_encoded, IH.
Qed.
