(* ===== verification/Observers.v ===== *)
(** Observers of application output that the screen emulator does not cover
    (ctmux/core/src/mouse.rs, alternate_screen.rs and their state.rs): the input modes
    an application asks for, and the alternate-screen hint.  Both are bounded parsers
    that are checkpointed, in the middle of a control sequence too.

    A [char] is the [N] of its scalar value, a [String] the list of its characters, a
    byte an [N] below 256. *)

From S2P Require Import Prelude.
From S2P Require Import Cells.
From Stdlib Require Import NArith.
From stdpp Require Import strings.

(** * Text *)

Definition rng (a b c : N) : bool := bool_decide (a ≤ c)%N && bool_decide (c ≤ b)%N.
Definition is_digit (c : N) : bool := rng 48 57 c.

(** [char::is_ascii_control] *)
Definition is_ascii_control (c : char) : bool := rng 0 31 c || bool_decide (c = 127%N).

(** [str::len]: the bytes of the UTF-8 encoding *)
Definition utf8_len (c : char) : nat :=
  if bool_decide (c < 128)%N then 1 else if bool_decide (c < 2048)%N then 2
  else if bool_decide (c < 65536)%N then 3 else 4.
Definition str_len (s : list char) : nat := sum_list (utf8_len <$> s).

Definition digits_value (s : list N) : N := foldl (λ acc d, acc * 10 + (d - 48))%N 0%N s.

(** [str::parse::<u16>]: an optional plus sign, then decimal digits *)
Definition parse_u16 (s : list N) : option N :=
  let digits := match s with 43%N :: rest => rest | _ => s end in
  if bool_decide (digits = []) then None
  else if forallb is_digit digits && bool_decide (digits_value digits ≤ 65535)%N
  then Some (digits_value digits) else None.

(** [str::split] and [slice::split] at a separator: one part more than separators *)
Fixpoint split_on (sep : N) (s : list N) : list (list N) :=
  match s with
  | [] => [[]]
  | c :: s =>
      if decide (c = sep) then [] :: split_on sep s
      else match split_on sep s with
           | part :: parts => (c :: part) :: parts
           | [] => [[c]]
           end
  end.

(** [u16::to_string] *)
Fixpoint to_string_go (fuel : nat) (n : N) (acc : list char) : list char :=
  match fuel with
  | 0 => acc
  | S fuel =>
      let acc := (48 + n `mod` 10)%N :: acc in
      if decide (n / 10 = 0)%N then acc else to_string_go fuel (n / 10) acc
  end.
Definition to_string (n : N) : list char := to_string_go 20 n [].

Fixpoint join (sep : list char) (parts : list (list char)) : list char :=
  match parts with
  | [] => []
  | [part] => part
  | part :: parts => part ++ sep ++ join sep parts
  end.

Definition semicolon : N := 59.
Definition str (s : string) : list char := (λ c, Ascii.N_of_ascii c) <$> String.list_ascii_of_string s.

(** * Versions of private checkpoints *)

Inductive ObserverStateError :=
  | UnsupportedVersion (component : string) (version : N)
  | InvalidState (message : string).

Definition observer_version (component : string) (actual expected : N) :
    outcome ObserverStateError () :=
  fail_if (negb (bool_decide (actual = expected))) (UnsupportedVersion component actual).

(** * Input modes *)

Inductive MouseTracking := TrackNone | Buttons | Drag | Any.
#[global] Instance MouseTracking_eq_dec : EqDecision MouseTracking.
Proof. solve_decision. Defined.

Inductive MouseEncoding := Legacy | Utf8 | Sgr | Urxvt | SgrPixels.

Inductive ModifyOtherKeys := KeysOff | Mode1 | Mode2.
#[global] Instance ModifyOtherKeys_eq_dec : EqDecision ModifyOtherKeys.
Proof. solve_decision. Defined.

Definition key_level (k : ModifyOtherKeys) : N :=
  match k with KeysOff => 0 | Mode1 => 1 | Mode2 => 2 end.

Definition UTF8 : N := 1.
Definition SGR : N := 2.
Definition URXVT : N := 4.
Definition SGR_PIXELS : N := 8.
Definition MAX_CSI_PARAMETER_BYTES : nat := 64.

Module MouseModes.
Record t := Mk { tracking : MouseTracking; encodings : N }.
#[global] Instance eq_dec : EqDecision t.
Proof. solve_decision. Defined.

Definition default : t := Mk TrackNone 0.
Definition enabled (m : t) : bool := negb (bool_decide (tracking m = TrackNone)).
Definition encoding (m : t) : MouseEncoding :=
  if negb (bool_decide (N.land (encodings m) SGR_PIXELS = 0)%N) then SgrPixels
  else if negb (bool_decide (N.land (encodings m) SGR = 0)%N) then Sgr
  else if negb (bool_decide (N.land (encodings m) URXVT = 0)%N) then Urxvt
  else if negb (bool_decide (N.land (encodings m) UTF8 = 0)%N) then Utf8
  else Legacy.
End MouseModes.

Module Control.
Inductive t := Ground | Escape | Csi (parameters : list char) | IgnoreCsi | Text (osc : bool).
#[global] Instance eq_dec : EqDecision t.
Proof. solve_decision. Defined.
End Control.

Module InputModes.
Record t := Mk {
  mouse : MouseModes.t;
  bracketed_paste : bool;
  modify_other_keys : ModifyOtherKeys;
  control : Control.t;
}.
#[global] Instance eq_dec : EqDecision t.
Proof. solve_decision. Defined.

Definition default : t := Mk MouseModes.default false KeysOff Control.Ground.

Definition set_control (c : Control.t) (m : t) : t :=
  Mk (mouse m) (bracketed_paste m) (modify_other_keys m) c.
Definition set_keys (k : ModifyOtherKeys) (m : t) : t :=
  Mk (mouse m) (bracketed_paste m) k (control m).
Definition set_paste (b : bool) (m : t) : t :=
  Mk (mouse m) b (modify_other_keys m) (control m).
Definition set_tracking (tr : MouseTracking) (m : t) : t :=
  Mk (MouseModes.Mk tr (MouseModes.encodings (mouse m))) (bracketed_paste m)
     (modify_other_keys m) (control m).

(** [encodings |= encoding] and [encodings &= !encoding] on a [u8] *)
Definition encoding (e : N) (enabled : bool) (m : t) : t :=
  let encodings := MouseModes.encodings (mouse m) in
  let encodings := if enabled then N.lor encodings e else N.land encodings (N.lxor 255 e) in
  Mk (MouseModes.Mk (MouseModes.tracking (mouse m)) encodings) (bracketed_paste m)
     (modify_other_keys m) (control m).

Definition private_mode (enabled : bool) (m : t) (mode : N) : t :=
  match mode with
  | 1000 | 1002 | 1003 =>
      set_tracking (match enabled, mode with
                    | true, 1000 => Buttons
                    | true, 1002 => Drag
                    | true, 1003 => Any
                    | _, _ => TrackNone
                    end) m
  | 1001 => if enabled then m else set_tracking TrackNone m
  | 1005 => encoding UTF8 enabled m
  | 1006 => encoding SGR enabled m
  | 1015 => encoding URXVT enabled m
  | 1016 => encoding SGR_PIXELS enabled m
  | 2004 => set_paste enabled m
  | _ => m
  end%N.

(** [parameters.strip_prefix(c)] *)
Definition strip_prefix (c : char) (parameters : list char) : option (list char) :=
  match parameters with
  | d :: rest => if decide (d = c) then Some rest else None
  | [] => None
  end.

(** [collect::<Result<Vec<_>, _>>] *)
Fixpoint collect {A} (l : list (option A)) : option (list A) :=
  match l with [] => Some [] | x :: l => y ← x; ys ← collect l; Some (y :: ys) end.

Definition private_modes (parameters : list char) (enabled : bool) (m : t) : t :=
  match strip_prefix 63 parameters with
  | None => m
  | Some parameters =>
      match collect (parse_u16 <$> split_on semicolon parameters) with
      | None => m
      | Some modes => foldl (private_mode enabled) m modes
      end
  end.

Definition keyboard_modes (parameters : list char) (final_byte : char) (m : t) : t :=
  match strip_prefix 62 parameters with
  | None => m
  | Some parameters =>
      if bool_decide (parameters = []) && bool_decide (final_byte = 109%N) then set_keys KeysOff m else
      let values := split_on semicolon parameters in
      if negb (bool_decide (mbind parse_u16 (values !! 0) = Some 4%N)) then m
      else if bool_decide (is_Some (values !! 2)) then m
      else
        match decide (final_byte = 109%N), values !! 1 with
        | left _, None | left _, Some [] => set_keys KeysOff m
        | left _, Some value =>
            match parse_u16 value with
            | Some 0%N => set_keys KeysOff m
            | Some 1%N => set_keys Mode1 m
            | Some 2%N => set_keys Mode2 m
            | _ => m
            end
        | right _, None => if decide (final_byte = 110%N) then set_keys KeysOff m else m
        | right _, Some _ => m
        end
  end.

(** The controls that interrupt whatever is being parsed *)
Definition interrupt (ch : char) : option Control.t :=
  if bool_decide (ch = 0x18%N) || bool_decide (ch = 0x1a%N) || rng 0x80 0x8f ch || rng 0x91 0x97 ch ||
     bool_decide (ch = 0x99%N) || bool_decide (ch = 0x9a%N) || bool_decide (ch = 0x9c%N)
  then Some Control.Ground
  else if bool_decide (ch = 0x1b%N) then Some Control.Escape
  else if bool_decide (ch = 0x9b%N) then Some (Control.Csi [])
  else if bool_decide (ch = 0x9d%N) then Some (Control.Text true)
  else if bool_decide (ch = 0x90%N) || bool_decide (ch = 0x98%N) || bool_decide (ch = 0x9e%N) ||
          bool_decide (ch = 0x9f%N) then Some (Control.Text false)
  else None.

(** The control is taken ([Ground] is left) before it is matched on. *)
Definition feed (ch : char) (m : t) : bool * t :=
  match interrupt ch with
  | Some c => (false, set_control c m)
  | None =>
      let taken := set_control Control.Ground m in
      match control m with
      | Control.Text osc =>
          (false, if osc && bool_decide (ch = 7%N) then set_control Control.Ground m else m)
      | Control.Escape =>
          (false,
           if decide (ch = 91%N) then set_control (Control.Csi []) m
           else if decide (ch = 93%N) then set_control (Control.Text true) m
           else if bool_decide (ch = 80%N) || bool_decide (ch = 88%N) || bool_decide (ch = 94%N) ||
                   bool_decide (ch = 95%N) then set_control (Control.Text false) m
           else if decide (ch = 99%N) then default
           else if is_ascii_control ch then set_control Control.Escape m
           else taken)
      | Control.Csi parameters =>
          if rng 64 126 ch || bool_decide (0x9f < ch)%N then
            if bool_decide (ch = 109%N) && bool_decide (parameters = [63; 52]%N) then (true, taken)
            else (false,
              if bool_decide (ch = 104%N) || bool_decide (ch = 108%N)
              then private_modes parameters (bool_decide (ch = 104%N)) taken
              else if bool_decide (ch = 109%N) || bool_decide (ch = 110%N)
              then keyboard_modes parameters ch taken
              else taken)
          else (false,
            if is_ascii_control ch then set_control (Control.Csi parameters) m
            else if rng 32 63 ch && bool_decide (str_len parameters < MAX_CSI_PARAMETER_BYTES)
            then set_control (Control.Csi (parameters ++ [ch])) m
            else set_control Control.IgnoreCsi m)
      | Control.IgnoreCsi =>
          (false, if negb (rng 64 126 ch) && bool_decide (ch ≤ 0x9f)%N
                  then set_control Control.IgnoreCsi m else taken)
      | Control.Ground => (false, taken)
      end
  end.

Definition feed_all (s : list char) (m : t) : t := foldl (λ m c, (feed c m).2) m s.

Definition restore_sequences (m : t) : list char :=
  let modes :=
    (match MouseModes.tracking (mouse m) with
     | TrackNone => [] | Buttons => [1000] | Drag => [1002] | Any => [1003]
     end%N) ++
    omap (λ '(mode, bit), if bool_decide (N.land (MouseModes.encodings (mouse m)) bit = 0)%N
                          then None else Some mode)
      [(1005, UTF8); (1006, SGR); (1015, URXVT); (1016, SGR_PIXELS)]%N ++
    (if bracketed_paste m then [2004%N] else []) in
  if decide (modes = []) then []
  else [0x1b; 91; 63]%N ++ join [semicolon] (to_string <$> modes) ++ [104%N].

Definition restore_keyboard_sequence (m : t) : list char :=
  [0x1b; 91; 62; 52; 59]%N ++ to_string (key_level (modify_other_keys m)) ++ [109%N].
End InputModes.

(** ** Checkpoints of the input modes *)

Definition INPUT_MODES_STATE_VERSION : N := 1.

Module InputModesState.
Record t := Mk {
  version : N;
  mouse_tracking : MouseTracking;
  mouse_encodings : N;
  bracketed_paste : bool;
  modify_other_keys : ModifyOtherKeys;
  control : Control.t;
}.

Definition validate (s : t) : outcome ObserverStateError () :=
  _ ← observer_version "input modes" (version s) INPUT_MODES_STATE_VERSION;
  _ ← fail_if (negb (bool_decide (N.land (mouse_encodings s) (N.lxor 255 15) = 0)%N))
        (InvalidState "unknown mouse encoding bits");
  fail_if (match control s with
           | Control.Csi parameters =>
               bool_decide (MAX_CSI_PARAMETER_BYTES < str_len parameters) ||
               negb (forallb (rng 32 63) parameters)
           | _ => false
           end) (InvalidState "input mode CSI prefix").

Definition export_state (m : InputModes.t) : t :=
  Mk INPUT_MODES_STATE_VERSION (MouseModes.tracking (InputModes.mouse m))
     (MouseModes.encodings (InputModes.mouse m)) (InputModes.bracketed_paste m)
     (InputModes.modify_other_keys m) (InputModes.control m).

Definition from_state (s : t) : outcome ObserverStateError InputModes.t :=
  _ ← validate s;
  Ok (InputModes.Mk (MouseModes.Mk (mouse_tracking s) (mouse_encodings s)) (bracketed_paste s)
        (modify_other_keys s) (control s)).
End InputModesState.

(** * Alternate screen *)

Inductive TuiHint := Unknown | Inline | AlternateScreen.
#[global] Instance TuiHint_eq_dec : EqDecision TuiHint.
Proof. solve_decision. Defined.

Definition MAX_CSI_PREFIX_BYTES : nat := 64.

Module CsiObserver.
Inductive t := Ground | Escape | Csi (bytes : list N).
#[global] Instance eq_dec : EqDecision t.
Proof. solve_decision. Defined.

(** Bytes that are not UTF-8 are no digits either. *)
Definition alternate_screen_transition (sequence : list N) : option (bool * N) :=
  final_byte ← last sequence;
  let parameters := take (length sequence - 1) sequence in
  if negb (bool_decide (final_byte = 104%N) || bool_decide (final_byte = 108%N)) then None else
  match parameters with
  | 63%N :: parameters =>
      let modes := foldl (λ modes parameter,
        N.lor modes (match parameter with 47 => 1 | 1047 => 2 | 1049 => 4 | _ => 0 end%N))
        0%N (omap parse_u16 (split_on semicolon parameters)) in
      if bool_decide (modes = 0%N) then None else Some (bool_decide (final_byte = 104%N), modes)
  | _ => None
  end.

Definition feed (state : t) (byte : N) : option (bool * N) * t :=
  match state with
  | Ground => (None, if decide (byte = 0x1b%N) then Escape else Ground)
  | Escape =>
      (None, if decide (byte = 91%N) then Csi [] else if decide (byte = 0x1b%N) then Escape else Ground)
  | Csi bytes =>
      if decide (byte = 0x1b%N) then (None, Escape) else
      let bytes := bytes ++ [byte] in
      if rng 0x40 0x7e byte then (alternate_screen_transition bytes, Ground)
      else (None, if bool_decide (MAX_CSI_PREFIX_BYTES < length bytes) then Ground else Csi bytes)
  end.
End CsiObserver.

Module AlternateScreenTracker.
Record t := Mk { parser : CsiObserver.t; active_modes : N; tui_hint : TuiHint }.
#[global] Instance eq_dec : EqDecision t.
Proof. solve_decision. Defined.

Definition default : t := Mk CsiObserver.Ground 0 Unknown.

Definition reset (a : t) : option TuiHint * t :=
  (if bool_decide (tui_hint a = Inline) then None else Some Inline, Mk CsiObserver.Ground 0 Inline).

(** The loop of [observe] over the bytes *)
Definition observe_byte (acc : CsiObserver.t * N * TuiHint) (byte : N) : CsiObserver.t * N * TuiHint :=
  let '(parser, active, next_hint) := acc in
  match CsiObserver.feed parser byte with
  | (None, parser) => (parser, active, next_hint)
  | (Some (enable, modes), parser) =>
      let active := if enable : bool then N.lor active modes else N.land active (N.lxor 255 modes) in
      (parser, active, if decide (active = 0%N) then Inline else AlternateScreen)
  end.

Definition observe (data : list N) (a : t) : option TuiHint * t :=
  if decide (data = []) then (None, a) else
  let start := if decide (tui_hint a = Unknown) then Inline else tui_hint a in
  let '(parser, active, next_hint) := foldl observe_byte (parser a, active_modes a, start) data in
  (if decide (next_hint = tui_hint a) then None else Some next_hint, Mk parser active next_hint).
End AlternateScreenTracker.

Definition ALTERNATE_SCREEN_STATE_VERSION : N := 1.

Module AlternateScreenState.
Record t := Mk { version : N; parser : CsiObserver.t; active_modes : N; tui_hint : TuiHint }.

Definition validate (s : t) : outcome ObserverStateError () :=
  _ ← observer_version "alternate screen" (version s) ALTERNATE_SCREEN_STATE_VERSION;
  _ ← fail_if (negb (bool_decide (N.land (active_modes s) (N.lxor 255 7) = 0)%N))
        (InvalidState "unknown alternate-screen mode bits");
  _ ← fail_if (xorb (negb (bool_decide (active_modes s = 0%N))) (bool_decide (tui_hint s = AlternateScreen)))
        (InvalidState "inconsistent alternate-screen hint");
  _ ← fail_if (bool_decide (tui_hint s = Unknown) && negb (bool_decide (parser s = CsiObserver.Ground)))
        (InvalidState "unknown hint with consumed control bytes");
  fail_if (match parser s with
           | CsiObserver.Csi bytes =>
               bool_decide (MAX_CSI_PREFIX_BYTES < length bytes) ||
               existsb (λ b, bool_decide (b = 0x1b%N) || rng 0x40 0x7e b) bytes
           | _ => false
           end) (InvalidState "alternate-screen CSI prefix").

Definition export_state (a : AlternateScreenTracker.t) : t :=
  Mk ALTERNATE_SCREEN_STATE_VERSION (AlternateScreenTracker.parser a)
     (AlternateScreenTracker.active_modes a) (AlternateScreenTracker.tui_hint a).

Definition from_state (s : t) : outcome ObserverStateError AlternateScreenTracker.t :=
  _ ← validate s;
  Ok (AlternateScreenTracker.Mk (parser s) (active_modes s) (tui_hint s)).
End AlternateScreenState.
