(* ===== verification/ObserversInv.v ===== *)
(** The observers stay within the bounds their checkpoints are validated against,
    resume exactly, and see the same in any chunks. *)

From S2P Require Import Prelude.
From S2P Require Import Cells.
From S2P Require Import Observers.
From Stdlib Require Import NArith.
From stdpp Require Import strings.

(** * Input modes *)

Definition wf_control (c : Control.t) : Prop :=
  match c with
  | Control.Csi parameters =>
      length parameters ≤ MAX_CSI_PARAMETER_BYTES ∧ Forall (λ ch, rng 32 63 ch = true) parameters
  | _ => True
  end.

Record wf_modes (m : InputModes.t) : Prop := {
  wf_encodings : (MouseModes.encodings (InputModes.mouse m) < 16)%N;
  wf_modes_control : wf_control (InputModes.control m);
}.

Lemma rng_ascii c : rng 32 63 c = true → utf8_len c = 1.
Proof.
  unfold rng, utf8_len. rewrite andb_true_iff, !bool_decide_eq_true. intros [H1 H2].
  by rewrite bool_decide_eq_true_2 by lia.
Qed.

Lemma str_len_ascii s : Forall (λ ch, rng 32 63 ch = true) s → str_len s = length s.
Proof.
  unfold str_len. induction 1 as [|c s Hc Hs IH]; [done|]. csimpl. by rewrite rng_ascii, IH.
Qed.

(** A bound on a few bits is a finite check. *)
(** A property of all numbers below a bound, checked one by one *)
Lemma below_bound k (P : N → bool) :
  forallb P (N.of_nat <$> seq 0 k) = true → ∀ n, (n < N.of_nat k)%N → P n = true.
Proof.
  rewrite forallb_forall. intros HP n Hn. apply HP. apply list_elem_of_In, list_elem_of_fmap.
  exists (N.to_nat n). split; [lia|]. apply elem_of_seq. lia.
Qed.

Lemma mask_16 n : (n < 256)%N → N.land n (N.lxor 255 15) = 0%N ↔ (n < 16)%N.
Proof.
  intros Hn. rewrite <- (bool_decide_eq_true (N.land n _ = 0%N)), <- (bool_decide_eq_true (n < 16)%N).
  enough (bool_decide (N.land n (N.lxor 255 15) = 0%N) = bool_decide (n < 16)%N) as -> by done.
  apply (bool_decide_eq_true (_ = _)).
  assert (Hall : forallb (λ n, bool_decide (bool_decide (N.land n (N.lxor 255 15) = 0%N) =
    bool_decide (n < 16)%N)) (N.of_nat <$> seq 0 256) = true) by (vm_compute; done).
  rewrite forallb_forall in Hall. apply Hall, list_elem_of_In, list_elem_of_fmap.
  exists (N.to_nat n). split; [lia|]. apply elem_of_seq. lia.
Qed.

Section modes.
Implicit Types (m : InputModes.t) (ch : char).

Lemma wf_set_control c m : wf_modes m → wf_control c → wf_modes (InputModes.set_control c m).
Proof. intros [He _] Hc. by split. Qed.

Lemma wf_encoding e (enabled : bool) m :
  (e = UTF8 ∨ e = SGR ∨ e = URXVT ∨ e = SGR_PIXELS) → wf_modes m → wf_modes (InputModes.encoding e enabled m).
Proof.
  intros He [Hm Hc]. split; [|done]. unfold InputModes.encoding. simpl.
  revert Hm. generalize (MouseModes.encodings (InputModes.mouse m)) as n. intros n Hn.
  pose proof (below_bound 16 (λ n, bool_decide ((if enabled then N.lor n e else N.land n (N.lxor 255 e)) < 16)%N)) as Hb.
  rewrite <- (bool_decide_eq_true (_ < 16)%N). apply (Hb ltac:(by destruct He as [->|[->|[->| ->]]], enabled; vm_compute)).
  done.
Qed.

Lemma wf_private_mode enabled m mode : wf_modes m → wf_modes (InputModes.private_mode enabled m mode).
Proof.
  intros Hm. unfold InputModes.private_mode.
  repeat case_match; try done; try (apply wf_encoding; [unfold UTF8, SGR, URXVT, SGR_PIXELS; naive_solver|done]);
    (destruct Hm; by split).
Qed.

Lemma wf_private_modes parameters enabled m :
  wf_modes m → wf_modes (InputModes.private_modes parameters enabled m).
Proof.
  intros Hm. unfold InputModes.private_modes. destruct (InputModes.strip_prefix _ _); [|done].
  destruct (InputModes.collect _) as [modes|]; [|done].
  revert m Hm. induction modes as [|mode modes IH]; intros m Hm; [done|]. by apply IH, wf_private_mode.
Qed.

Lemma wf_keyboard_modes parameters final m :
  wf_modes m → wf_modes (InputModes.keyboard_modes parameters final m).
Proof.
  intros Hm. assert (Hk : ∀ k, wf_modes (InputModes.set_keys k m)) by (intros k; destruct Hm; by split).
  unfold InputModes.keyboard_modes. repeat case_match; auto.
Qed.

Lemma wf_interrupt ch c : InputModes.interrupt ch = Some c → wf_control c.
Proof.
  unfold InputModes.interrupt. intros H. repeat case_match; simplify_eq; simpl; try done.
  split; [lia|constructor].
Qed.

Lemma wf_feed ch m : wf_modes m → wf_modes (InputModes.feed ch m).2.
Proof.
  intros Hm. unfold InputModes.feed. destruct (InputModes.interrupt ch) as [c|] eqn:Hi.
  { apply wf_set_control; [done|by eapply wf_interrupt]. }
  assert (Ht : wf_modes (InputModes.set_control Control.Ground m)) by by apply wf_set_control.
  assert (Hs : ∀ c, wf_control c → wf_modes (InputModes.set_control c m)) by (intros; by apply wf_set_control).
  destruct (InputModes.control m) as [| |parameters| |osc] eqn:Hc; cbn [snd]; try done.
  - repeat case_match;
      solve [auto | by apply Hs | apply Hs; simpl; split; [lia|constructor] | split; [vm_compute; done|done]].
  - assert (Hpar : wf_control (Control.Csi parameters)) by (rewrite <- Hc; apply Hm).
    destruct (rng 64 126 ch || _); [destruct (_ && _); [done|]; cbn [snd]|cbn [snd]].
    + destruct (_ || _); [by apply wf_private_modes|]. destruct (_ || _); [by apply wf_keyboard_modes|done].
    + destruct (is_ascii_control ch); [by apply Hs|].
      destruct (rng 32 63 ch) eqn:Hr; [|by apply Hs]. cbn [andb].
      case_bool_decide as Hlen; [|by apply Hs]. apply Hs. destruct Hpar as [Hl Hp].
      rewrite str_len_ascii in Hlen by done. simpl. rewrite length_app. simpl.
      split; [lia|]. apply Forall_app. by split; [|constructor].
  - destruct (_ && _); [by apply Hs|done].
  - destruct (_ && _); [by apply Hs|done].
Qed.

Lemma wf_feed_all s m : wf_modes m → wf_modes (InputModes.feed_all s m).
Proof.
  unfold InputModes.feed_all. revert m. induction s as [|c s IH]; intros m Hm; [done|]. by apply IH, wf_feed.
Qed.

(** Validation accepts exactly the modes the observer can be in. *)
Lemma validate_modes_spec (s : InputModesState.t) :
  (InputModesState.mouse_encodings s < 256)%N →
  InputModesState.from_state s =
    if decide (InputModesState.version s = INPUT_MODES_STATE_VERSION) then
      if decide (InputModesState.mouse_encodings s < 16)%N then
        match InputModesState.control s with
        | Control.Csi parameters =>
            if decide (length parameters ≤ MAX_CSI_PARAMETER_BYTES ∧ Forall (λ ch, rng 32 63 ch = true) parameters)
            then Ok (InputModes.Mk (MouseModes.Mk (InputModesState.mouse_tracking s) (InputModesState.mouse_encodings s))
                       (InputModesState.bracketed_paste s) (InputModesState.modify_other_keys s)
                       (InputModesState.control s))
            else Err (InvalidState "input mode CSI prefix")
        | _ => Ok (InputModes.Mk (MouseModes.Mk (InputModesState.mouse_tracking s) (InputModesState.mouse_encodings s))
                     (InputModesState.bracketed_paste s) (InputModesState.modify_other_keys s)
                     (InputModesState.control s))
        end
      else Err (InvalidState "unknown mouse encoding bits")
    else Err (UnsupportedVersion "input modes" (InputModesState.version s)).
Proof.
  intros H256. unfold InputModesState.from_state, InputModesState.validate, observer_version.
  destruct (decide (InputModesState.version s = _)) as [Hv|Hv].
  2: { by rewrite (bool_decide_eq_false_2 (InputModesState.version s = _)). }
  rewrite (bool_decide_eq_true_2 (InputModesState.version s = _)) by done.
  cbn [negb fail_if mbind outcome_bind]. rewrite (bool_decide_ext _ _ (mask_16 _ H256)).
  destruct (decide (InputModesState.mouse_encodings s < 16)%N) as [He|He].
  2: { by rewrite (bool_decide_eq_false_2 (InputModesState.mouse_encodings s < 16)%N). }
  rewrite (bool_decide_eq_true_2 (InputModesState.mouse_encodings s < 16)%N) by done. cbn [negb fail_if mbind outcome_bind].
  destruct (InputModesState.control s) as [| |parameters| |]; try done.
  destruct (forallb (rng 32 63) parameters) eqn:Hf.
  - assert (Hp : Forall (λ ch, rng 32 63 ch = true) parameters).
    { apply Forall_forall. intros c Hin%list_elem_of_In. rewrite forallb_forall in Hf. by apply Hf. }
    rewrite str_len_ascii, orb_false_r by done. case_decide as Hd.
    + by rewrite bool_decide_eq_false_2 by lia.
    + rewrite bool_decide_eq_true_2; [done|]. assert (¬ length parameters ≤ MAX_CSI_PARAMETER_BYTES) by tauto. lia.
  - rewrite orb_true_r. case_decide as Hd; [|done]. exfalso. destruct Hd as [_ Hp].
    assert (forallb (rng 32 63) parameters = true) as Ht; [|by rewrite Ht in Hf].
    apply forallb_forall. intros c Hin%list_elem_of_In. rewrite Forall_forall in Hp. by apply Hp.
Qed.

Lemma modes_roundtrip m : wf_modes m → InputModesState.from_state (InputModesState.export_state m) = Ok m.
Proof.
  intros [He Hc]. rewrite validate_modes_spec by (simpl; lia). simpl. rewrite decide_True by done.
  destruct m as [[tr en] bp mk c]. simpl in *. destruct c; try done. by rewrite decide_True.
Qed.

(** ** Restoring by control sequences *)

Definition all_modes : list InputModes.t :=
  tr ← [TrackNone; Buttons; Drag; Any]; en ← N.of_nat <$> seq 0 16; bp ← [false; true];
  mk ← [KeysOff; Mode1; Mode2]; [InputModes.Mk (MouseModes.Mk tr en) bp mk Control.Ground].

Lemma all_modes_complete m : wf_modes m → InputModes.set_control Control.Ground m ∈ all_modes.
Proof.
  intros [He _]. destruct m as [[tr en] bp mk c]. simpl in He. unfold all_modes, InputModes.set_control.
  cbn [InputModes.mouse InputModes.bracketed_paste InputModes.modify_other_keys].
  apply list_elem_of_bind. exists tr. split; [|destruct tr; set_solver].
  apply list_elem_of_bind. exists en. split.
  2: { apply list_elem_of_fmap. exists (N.to_nat en). split; [lia|]. apply elem_of_seq. lia. }
  apply list_elem_of_bind. exists bp. split; [|destruct bp; set_solver].
  apply list_elem_of_bind. exists mk. split; [set_solver|destruct mk; set_solver].
Qed.

Definition restores (m : InputModes.t) : bool :=
  bool_decide (InputModes.feed_all (InputModes.restore_keyboard_sequence m ++ InputModes.restore_sequences m)
                 InputModes.default = m).

Lemma all_modes_restore : forallb restores all_modes = true.
Proof. vm_compute. reflexivity. Qed.

Lemma restore_modes m :
  wf_modes m →
  InputModes.feed_all (InputModes.restore_keyboard_sequence m ++ InputModes.restore_sequences m)
    InputModes.default = InputModes.set_control Control.Ground m.
Proof.
  intros Hm. pose proof (all_modes_complete m Hm) as Hin.
  pose proof all_modes_restore as Hall. rewrite forallb_forall in Hall.
  apply list_elem_of_In in Hin. specialize (Hall _ Hin). unfold restores in Hall.
  apply bool_decide_eq_true in Hall. exact Hall.
Qed.

(** ** What a string sequence cannot do *)

Definition same_modes m m' : Prop :=
  InputModes.mouse m = InputModes.mouse m' ∧ InputModes.bracketed_paste m = InputModes.bracketed_paste m' ∧
  InputModes.modify_other_keys m = InputModes.modify_other_keys m'.

Lemma feed_text s m osc :
  InputModes.control m = Control.Text osc →
  Forall (λ ch, InputModes.interrupt ch = None ∧ ch ≠ 7%N) s →
  InputModes.feed_all s m = m.
Proof.
  unfold InputModes.feed_all. intros Hc Hs. induction Hs as [|ch s [Hi H7] Hs IH]; [done|]. cbn [foldl].
  assert ((InputModes.feed ch m).2 = m) as ->; [|done].
  unfold InputModes.feed. rewrite Hi, Hc. rewrite bool_decide_eq_false_2, andb_false_r by done. done.
Qed.
End modes.

(** * Alternate screen *)

Definition wf_observer (c : CsiObserver.t) : Prop :=
  match c with
  | CsiObserver.Csi bytes =>
      length bytes ≤ MAX_CSI_PREFIX_BYTES ∧ Forall (λ b, b ≠ 0x1b%N ∧ rng 0x40 0x7e b = false) bytes
  | _ => True
  end.

Record wf_tracker (a : AlternateScreenTracker.t) : Prop := {
  wf_active : (AlternateScreenTracker.active_modes a < 8)%N;
  wf_hint : AlternateScreenTracker.active_modes a ≠ 0%N ↔
            AlternateScreenTracker.tui_hint a = AlternateScreen;
  wf_unknown : AlternateScreenTracker.tui_hint a = Unknown →
               AlternateScreenTracker.parser a = CsiObserver.Ground;
  wf_parser : wf_observer (AlternateScreenTracker.parser a);
}.

(** Three bits are closed under the updates of the mode bits. *)
Lemma bits_8 a b : (a < 8)%N → (b < 8)%N → (N.lor a b < 8 ∧ N.land a (N.lxor 255 b) < 8)%N.
Proof.
  intros Ha Hb.
  set (ok := λ a b, bool_decide (N.lor a b < 8 ∧ N.land a (N.lxor 255 b) < 8)%N).
  assert (Hall : ∀ a, (a < 8)%N → forallb (ok a) (N.of_nat <$> seq 0 8) = true)
    by (apply (below_bound 8 (λ a, forallb (ok a) _)); vm_compute; reflexivity).
  pose proof (below_bound 8 _ (Hall a Ha) b Hb) as H'. by apply bool_decide_eq_true in H'.
Qed.

Lemma mode_fold ps z :
  (z < 8)%N →
  (foldl (λ modes parameter,
     N.lor modes (match parameter with 47 => 1 | 1047 => 2 | 1049 => 4 | _ => 0 end%N)) z ps < 8)%N.
Proof.
  revert z. induction ps as [|p ps IH]; intros z Hz; [done|]. cbn [foldl]. apply IH.
  apply bits_8; [done|]. by repeat case_match.
Qed.

Lemma transition_bits sequence enable modes :
  CsiObserver.alternate_screen_transition sequence = Some (enable, modes) → (modes < 8)%N.
Proof.
  unfold CsiObserver.alternate_screen_transition. destruct (last sequence) as [final|]; [|done].
  cbn [mbind option_bind]. destruct (negb _); [done|]. repeat (case_match; try done).
  all: intros [= _ <-]; by apply mode_fold.
Qed.

Lemma wf_observer_feed c byte : wf_observer c → wf_observer (CsiObserver.feed c byte).2.
Proof.
  intros Hc. unfold CsiObserver.feed. destruct c as [| |bytes]; simpl.
  - by case_decide.
  - case_decide; [simpl; split; [lia|constructor]|]. by case_decide.
  - case_decide; [done|]. destruct (rng _ _ byte) eqn:Hr; [done|]. simpl.
    case_bool_decide as Hl; [done|]. simpl. destruct Hc as [_ Hf]. split; [lia|].
    apply Forall_app. split; [done|]. by constructor.
Qed.

Section tracker.
Implicit Types (a : AlternateScreenTracker.t) (data : list N).

(** The state [observe_byte] threads through, as the tracker it becomes *)
Definition wf_acc (acc : CsiObserver.t * N * TuiHint) : Prop :=
  wf_observer acc.1.1 ∧ (acc.1.2 < 8)%N ∧ acc.2 ≠ Unknown ∧ (acc.1.2 ≠ 0%N ↔ acc.2 = AlternateScreen).

Lemma wf_observe_byte acc byte : wf_acc acc → wf_acc (AlternateScreenTracker.observe_byte acc byte).
Proof.
  destruct acc as [[p active] hint]. intros (Hp & Ha & Hu & Hh). simpl in *.
  pose proof (wf_observer_feed p byte Hp) as Hp'. destruct (CsiObserver.feed p byte) as [[[enable modes]|] p'] eqn:E;
    [|by split_and!]. simpl in Hp'.
  assert (Hm : (modes < 8)%N).
  { unfold CsiObserver.feed in E. destruct p as [| |bytes]; repeat case_match; simplify_eq.
    by eapply transition_bits. }
  destruct (bits_8 active modes Ha Hm) as [H1 H2].
  split_and!; simpl; [done|by destruct enable|by case_decide|]. case_decide; split; done.
Qed.

Lemma wf_observe_bytes acc data : wf_acc acc → wf_acc (foldl AlternateScreenTracker.observe_byte acc data).
Proof. revert acc. induction data as [|b data IH]; intros acc Hacc; [done|]. by apply IH, wf_observe_byte. Qed.

Lemma wf_observe data a : wf_tracker a → wf_tracker (AlternateScreenTracker.observe data a).2.
Proof.
  intros [Ha Hh Hu Hp]. unfold AlternateScreenTracker.observe. case_decide as Hd; [done|].
  set (start := if decide _ then _ else _).
  assert (Hacc : wf_acc (AlternateScreenTracker.parser a, AlternateScreenTracker.active_modes a, start)).
  { unfold start. split_and!; simpl; [done|done|by case_decide|].
    case_decide as Hun; [|done]. rewrite Hun in Hh. destruct Hh. split; [naive_solver|done]. }
  pose proof (wf_observe_bytes _ data Hacc) as H.
  destruct (foldl _ _ data) as [[p active] hint]. destruct H as (H1 & H2 & H3 & H4). simpl in *.
  by split.
Qed.

(** What is observed does not depend on how the output is cut. *)
Lemma observe_app data data' a :
  (AlternateScreenTracker.observe (data ++ data') a).2 =
  (AlternateScreenTracker.observe data' (AlternateScreenTracker.observe data a).2).2.
Proof.
  unfold AlternateScreenTracker.observe at 3. destruct (decide (data = [])) as [->|Hd]; [done|].
  unfold AlternateScreenTracker.observe. rewrite (decide_False (P := data ++ data' = []))
    by (intros [? _]%app_nil; done). rewrite foldl_app.
  set (start := if decide _ then _ else _).
  assert (Hs : start ≠ Unknown) by (unfold start; by case_decide).
  assert (Hall : ∀ acc, acc.2 ≠ Unknown → (foldl AlternateScreenTracker.observe_byte acc data).2 ≠ Unknown).
  { clear. induction data as [|b data IH]; intros acc Ha; [done|]. cbn [foldl]. apply IH.
    destruct acc as [[p active] hint]. simpl in *.
    destruct (CsiObserver.feed p b) as [[[enable modes]|] p']; simpl; [by case_decide|done]. }
  specialize (Hall (AlternateScreenTracker.parser a, AlternateScreenTracker.active_modes a, start) Hs).
  destruct (foldl _ _ data) as [[p active] hint]. simpl in Hall. cbn [snd AlternateScreenTracker.tui_hint
    AlternateScreenTracker.parser AlternateScreenTracker.active_modes].
  rewrite (decide_False (P := hint = Unknown)) by done.
  destruct (decide (data' = [])) as [->|Hd']; [done|]. by destruct (foldl _ _ data') as [[p' active'] hint'].
Qed.

Lemma mask_8 n : (n < 8)%N → N.land n (N.lxor 255 7) = 0%N.
Proof.
  intros Hn. apply N.eqb_eq. by apply (below_bound 8 (λ n, N.land n (N.lxor 255 7) =? 0)%N).
Qed.

Lemma tracker_roundtrip a :
  wf_tracker a → AlternateScreenState.from_state (AlternateScreenState.export_state a) = Ok a.
Proof.
  intros [Ha Hh Hu Hp]. destruct a as [p active hint]. simpl in *.
  unfold AlternateScreenState.from_state, AlternateScreenState.validate, AlternateScreenState.export_state. simpl.
  rewrite (mask_8 active Ha), (bool_decide_eq_true_2 (0 = 0)%N) by done. cbn [negb fail_if mbind outcome_bind].
  assert (xorb (negb (bool_decide (active = 0%N))) (bool_decide (hint = AlternateScreen)) = false) as ->.
  { repeat case_bool_decide; simpl; tauto. }
  cbn [fail_if mbind outcome_bind].
  assert (bool_decide (hint = Unknown) && negb (bool_decide (p = CsiObserver.Ground)) = false) as ->.
  { repeat case_bool_decide; simpl; tauto. }
  cbn [fail_if mbind outcome_bind]. destruct p as [| |bytes]; try done. destruct Hp as [Hl Hf].
  rewrite (bool_decide_eq_false_2 (MAX_CSI_PREFIX_BYTES < length bytes)) by lia. simpl.
  assert (existsb (λ b, bool_decide (b = 0x1b%N) || rng 0x40 0x7e b) bytes = false) as ->; [|done].
  clear -Hf. induction Hf as [|b bytes [H1 H2] Hf IH]; [done|]. simpl. rewrite IH, H2.
  by rewrite bool_decide_eq_false_2.
Qed.
End tracker.
