(* ===== verification/History.v ===== *)
(** Literal history rows with their styles (ctmux/core/src/history.rs and
    ctmux/proto/src/history_style.rs): how a row of the screen becomes text and style
    spans, what is accepted back, and that nothing of the cells' looks is lost.

    [u8] and [u32] values are [N]; the conversions and additions that can fail in the
    code are checked. *)

From S2P Require Import Prelude.
From S2P Require Import Cells.
From S2P Require Import Lines.
From S2P Require Import Layout.
From S2P Require Import Observers.
From Stdlib Require Import NArith.
From stdpp Require Import strings.

Inductive TerminalColor :=
  | ColorIndexed (index : N)
  | ColorRgb (red green blue : N).
#[global] Instance TerminalColor_eq_dec : EqDecision TerminalColor.
Proof. solve_decision. Defined.

Module TerminalStyle.
Record t := Mk {
  foreground : option TerminalColor; background : option TerminalColor;
  bold : bool; faint : bool; italic : bool; underline : bool;
  strikethrough : bool; blink : bool; inverse : bool;
}.
#[global] Instance eq_dec : EqDecision t.
Proof. solve_decision. Defined.

Definition default : t := Mk None None false false false false false false false.

Definition color_codes (selector : list char) (color : TerminalColor) : list char :=
  match color with
  | ColorIndexed index => selector ++ str ";5;" ++ to_string index
  | ColorRgb red green blue =>
      selector ++ str ";2;" ++ to_string red ++ str ";" ++ to_string green ++ str ";" ++ to_string blue
  end.

Definition sgr (s : t) : list char :=
  let codes :=
    [str "0"] ++
    omap (λ '(enabled, code), if enabled : bool then Some (str code) else None)
      [(bold s, "1"); (faint s, "2"); (italic s, "3"); (underline s, "4"); (blink s, "5");
       (inverse s, "7"); (strikethrough s, "9")]%string ++
    omap (λ '(color, selector), color_codes (str selector) <$> (color : option TerminalColor))
      [(foreground s, "38"); (background s, "48")]%string in
  [0x1b; 91]%N ++ Observers.join (str ";") codes ++ str "m".
End TerminalStyle.

Module StyleSpan.
Record t := Mk { start : N; length : N; style : TerminalStyle.t }.
#[global] Instance eq_dec : EqDecision t.
Proof. solve_decision. Defined.
End StyleSpan.

Module HistoryRow.
Record t := Mk { text : list char; wrapped : bool; styles : list StyleSpan.t }.
#[global] Instance eq_dec : EqDecision t.
Proof. solve_decision. Defined.
End HistoryRow.

(** * Capturing *)

Definition color (value : Color.t) : TerminalColor :=
  match value with
  | Color.Indexed index => ColorIndexed index
  | Color.RGB r g b => ColorRgb r g b
  end.

Definition style (pen : Pen.t) : TerminalStyle.t :=
  TerminalStyle.Mk (color <$> Pen.foreground pen) (color <$> Pen.background pen)
    (Pen.is_bold pen) (Pen.is_faint pen) (Pen.is_italic pen) (Pen.is_underline pen)
    (Pen.is_strikethrough pen) (Pen.is_blink pen) (Pen.is_inverse pen).

Definition add32 (a b : N) : option N := if decide (a + b ≤ u32_MAX)%N then Some (a + b)%N else None.

(** One turn of the loop of [capture_row]; the spans in reverse, the last one first *)
Definition capture_cell (row : list char * list StyleSpan.t) (offset : nat) (cell : Cell.t) :
    option (list char * list StyleSpan.t) :=
  let '(text, styles) := row in
  let text := text ++ [Cell.ch cell] in
  if Pen.is_default (Cell.pen cell) then Some (text, styles) else
  if decide (N.of_nat offset ≤ u32_MAX)%N then
    let start := N.of_nat offset in
    let cell_style := style (Cell.pen cell) in
    match styles with
    | previous :: rest =>
        previous_end ← add32 (StyleSpan.start previous) (StyleSpan.length previous);
        if decide (previous_end = start ∧ StyleSpan.style previous = cell_style) then
          length ← add32 (StyleSpan.length previous) 1;
          Some (text, StyleSpan.Mk (StyleSpan.start previous) length (StyleSpan.style previous) :: rest)
        else Some (text, StyleSpan.Mk start 1 cell_style :: styles)
    | [] => Some (text, [StyleSpan.Mk start 1 cell_style])
    end
  else None.

Fixpoint capture_cells (row : list char * list StyleSpan.t) (offset : nat) (cells : list Cell.t) :
    option (list char * list StyleSpan.t) :=
  match cells with
  | [] => Some row
  | cell :: cells => row ← capture_cell row offset cell; capture_cells row (S offset) cells
  end.

Definition visible (line : Line.t) : list Cell.t :=
  filter (λ cell, (0 < Cell.width cell)%N) (Line.cells line).

Definition capture_row (line : Line.t) (wrapped : bool) : option HistoryRow.t :=
  '(text, styles) ← capture_cells ([], []) 0 (visible line);
  Some (HistoryRow.Mk text wrapped (reverse styles)).

(** * Validating and replaying *)

(** [char::is_control] *)
Definition is_control (c : char) : bool := rng 0 31 c || rng 127 159 c.

Fixpoint validate_spans (length previous_end : N) (styles : list StyleSpan.t) : outcome string () :=
  match styles with
  | [] => Ok ()
  | span :: styles =>
      match add32 (StyleSpan.start span) (StyleSpan.length span) with
      | None => Err "history style range overflows"%string
      | Some end_ =>
          _ ← fail_if (bool_decide (StyleSpan.length span = 0%N) ||
                       bool_decide (StyleSpan.start span < previous_end)%N ||
                       bool_decide (length < end_)%N)
                "history style range is outside its row or overlaps"%string;
          validate_spans length end_ styles
      end
  end.

Definition validate_history_row (row : HistoryRow.t) : outcome string () :=
  _ ← fail_if (existsb is_control (HistoryRow.text row))
        "history row contains terminal control characters"%string;
  _ ← fail_if (bool_decide (u32_MAX < N.of_nat (length (HistoryRow.text row)))%N)
        "history row exceeds its character bound"%string;
  validate_spans (N.of_nat (length (HistoryRow.text row))) 0 (HistoryRow.styles row).

Definition reset : list char := [0x1b; 91; 48; 109]%N.

(** The loop over the spans; [characters] is what the iterator has left. *)
Fixpoint ansi_spans (characters : list char) (position : N) (styles : list StyleSpan.t) :
    outcome string (list char) :=
  match styles with
  | [] => Ok characters
  | span :: styles =>
      gap ← expect (if decide (position ≤ StyleSpan.start span)%N
                    then Some (StyleSpan.start span - position)%N else None);
      end_ ← expect (add32 (StyleSpan.start span) (StyleSpan.length span));
      let gap := N.to_nat gap in
      let len := N.to_nat (StyleSpan.length span) in
      rest ← ansi_spans (drop len (drop gap characters)) end_ styles;
      Ok (take gap characters ++ TerminalStyle.sgr (StyleSpan.style span) ++
          take len (drop gap characters) ++ reset ++ rest)
  end.

Definition row_ansi (row : HistoryRow.t) : outcome string (list char) :=
  _ ← validate_history_row row;
  if decide (HistoryRow.styles row = []) then Ok (HistoryRow.text row) else
  rest ← ansi_spans (HistoryRow.text row) 0 (HistoryRow.styles row);
  Ok (reset ++ rest).

Definition pen_color (c : TerminalColor) : Color.t :=
  match c with
  | ColorIndexed index => Color.Indexed index
  | ColorRgb red green blue => Color.RGB red green blue
  end.

Definition style_pen (s : TerminalStyle.t) : Pen.t :=
  let set (b : bool) (f : Pen.t → Pen.t) (p : Pen.t) := if b then f p else p in
  set (TerminalStyle.inverse s) Pen.set_inverse
  (set (TerminalStyle.blink s) Pen.set_blink
  (set (TerminalStyle.strikethrough s) Pen.set_strikethrough
  (set (TerminalStyle.underline s) Pen.set_underline
  (set (TerminalStyle.italic s) Pen.set_italic
  (set (TerminalStyle.faint s) Pen.set_faint
  (set (TerminalStyle.bold s) Pen.set_bold
  (Pen.set_background (Pen.set_foreground Pen.default (pen_color <$> TerminalStyle.foreground s))
     (pen_color <$> TerminalStyle.background s)))))))).
