(* ===== verification/HistoryInv.v ===== *)
(** A captured history row is always accepted back and replayable, and its spans hold
    exactly the look of every visible cell. *)

From S2P Require Import Prelude.
From S2P Require Import Cells.
From S2P Require Import Lines.
From S2P Require Import Layout.
From S2P Require Import Observers.
From S2P Require Import History.
From Stdlib Require Import NArith.
From stdpp Require Import strings.

(** * Pens and styles *)

Lemma pen_color_color (o : option Color.t) : pen_color <$> (color <$> o) = o.
Proof. by destruct o as [[|]|]. Qed.

Lemma style_pen_style (p : Pen.t) : Pen.wf p → style_pen (style p) = p.
Proof.
  intros Hwf. destruct p as [fg bg i a]. unfold Pen.wf in Hwf. simpl in Hwf.
  assert (Hall : Forall (λ a, style_pen (style (Pen.Mk fg bg i a)) = Pen.Mk fg bg i a)
    (N.of_nat <$> seq 0 32)).
  { unfold style, style_pen. cbn [Pen.foreground Pen.background TerminalStyle.foreground
      TerminalStyle.background]. rewrite !pen_color_color. clear Hwf.
    destruct i; repeat constructor. }
  rewrite Forall_forall in Hall. apply Hall, list_elem_of_fmap.
  exists (N.to_nat a). split; [lia|]. apply elem_of_seq. lia.
Qed.

Lemma is_default_style (p : Pen.t) : Pen.is_default p = true → style p = TerminalStyle.default.
Proof.
  unfold Pen.is_default, style, TerminalStyle.default.
  rewrite !andb_true_iff, !negb_true_iff, !bool_decide_eq_true.
  intros [[[[[[[Hf Hb] Hi] H1] H2] H3] H4] H5].
  unfold Pen.is_bold, Pen.is_faint. by rewrite Hf, Hb, Hi, H1, H2, H3, H4, H5.
Qed.

(** * Spans as a look per character *)

(** The style of each of [n] characters from [position] on *)
Definition look (styles : list StyleSpan.t) (i : N) : TerminalStyle.t :=
  match list_find (λ span, (StyleSpan.start span ≤ i < StyleSpan.start span + StyleSpan.length span)%N) styles with
  | Some (_, span) => StyleSpan.style span
  | None => TerminalStyle.default
  end.

(** Ordered spans, last one first, that end by [bound] *)
Fixpoint stacked (bound : N) (styles : list StyleSpan.t) : Prop :=
  match styles with
  | [] => True
  | span :: styles =>
      (0 < StyleSpan.length span)%N ∧ (StyleSpan.start span + StyleSpan.length span ≤ bound)%N ∧
      stacked (StyleSpan.start span) styles
  end.

Lemma stacked_mono bound bound' styles : (bound ≤ bound')%N → stacked bound styles → stacked bound' styles.
Proof. destruct styles as [|s styles]; [done|]. simpl. intros ? (? & ? & ?). split_and!; [done|lia|done]. Qed.

Lemma look_nil i : look [] i = TerminalStyle.default.
Proof. done. Qed.

Lemma look_cons span styles i :
  look (span :: styles) i =
    if decide (StyleSpan.start span ≤ i < StyleSpan.start span + StyleSpan.length span)%N
    then StyleSpan.style span else look styles i.
Proof. unfold look. simpl. case_decide; [done|]. by destruct (list_find _ styles) as [[]|]. Qed.

Lemma look_beyond bound styles i : stacked bound styles → (bound ≤ i)%N → look styles i = TerminalStyle.default.
Proof.
  revert bound. induction styles as [|s styles IH]; intros bound Hs Hi; [done|].
  destruct Hs as (H1 & H2 & H3). rewrite look_cons, decide_False by lia. apply (IH _ H3). lia.
Qed.

Lemma add32_Some a b : (a + b ≤ u32_MAX)%N → add32 a b = Some (a + b)%N.
Proof. intros H. unfold add32. by rewrite decide_True. Qed.

(** What the loop has captured of the cells so far *)
Record captured (cells : list Cell.t) (row : list char * list StyleSpan.t) : Prop := {
  cap_text : row.1 = Cell.ch <$> cells;
  cap_stacked : stacked (N.of_nat (length cells)) row.2;
  cap_look : ∀ i cell, cells !! i = Some cell → look row.2 (N.of_nat i) = style (Cell.pen cell);
}.

Lemma capture_cell_spec cells row cell :
  (N.of_nat (length cells) < u32_MAX)%N → captured cells row →
  capture_cell row (length cells) cell ⇓ captured (cells ++ [cell]).
Proof.
  intros Hlen [Ht Hs Hl]. destruct row as [text styles]. simpl in *. subst text.
  assert (Hlook : ∀ styles', (∀ i, (i < N.of_nat (length cells))%N → look styles' i = look styles i) →
    look styles' (N.of_nat (length cells)) = style (Cell.pen cell) →
    ∀ i c, (cells ++ [cell]) !! i = Some c → look styles' (N.of_nat i) = style (Cell.pen c)).
  { intros styles' Hold Hnew i c Hi. apply lookup_app_Some in Hi as [Hi|[Hge Hi]].
    - rewrite Hold; [by apply Hl|]. apply lookup_lt_Some in Hi. lia.
    - destruct (i - length cells) as [|k] eqn:Ek; [|done]. simpl in Hi. injection Hi as <-.
      by replace i with (length cells) by lia. }
  assert (Hst : stacked (N.of_nat (length (cells ++ [cell]))) styles)
    by (eapply stacked_mono; [|exact Hs]; rewrite length_app; lia).
  destruct (Pen.is_default (Cell.pen cell)) eqn:Hd.
  { split; simpl; [by rewrite fmap_app|done|]. apply Hlook; [done|].
    rewrite (look_beyond _ _ _ Hs), is_default_style by (done || lia). done. }
  rewrite decide_True by lia. set (here := N.of_nat (length cells)) in *.
  assert (Hfresh : captured (cells ++ [cell])
    ((Cell.ch <$> cells) ++ [Cell.ch cell], StyleSpan.Mk here 1 (style (Cell.pen cell)) :: styles)).
  { split; simpl; [by rewrite fmap_app| |].
    - rewrite length_app. simpl. split_and!; [lia|lia|done].
    - apply Hlook; [|rewrite look_cons; simpl; by rewrite decide_True by lia].
      intros i Hi. rewrite look_cons. simpl. by rewrite decide_False by lia. }
  destruct styles as [|prev rest]; [exact Hfresh|]. destruct Hs as (H1 & H2 & H3).
  rewrite (add32_Some (StyleSpan.start prev)), (add32_Some (StyleSpan.length prev) 1) by lia.
  cbn [mbind option_bind]. case_decide as Hsame; [|exact Hfresh]. destruct Hsame as [Hend Hstyle].
  split; simpl; [by rewrite fmap_app| |].
  - rewrite length_app. simpl. split_and!; [lia|lia|done].
  - apply Hlook.
    + intros i Hi. rewrite !look_cons. simpl. by repeat case_decide; try lia.
    + rewrite look_cons. simpl. by rewrite decide_True by lia.
Qed.

Lemma capture_cells_spec cells more row :
  (N.of_nat (length (cells ++ more)) ≤ u32_MAX)%N → captured cells row →
  capture_cells row (length cells) more ⇓ captured (cells ++ more).
Proof.
  revert cells row. induction more as [|cell more IH]; intros cells row Hlen Hc.
  { simpl. by rewrite app_nil_r. }
  cbn [capture_cells]. rewrite length_app in Hlen. simpl in Hlen.
  eapply Safe_bind; [apply capture_cell_spec; [lia|done]|]. intros row' Hc'.
  replace (S (length cells)) with (length (cells ++ [cell])) by (rewrite length_app; simpl; lia).
  replace (cells ++ cell :: more) with ((cells ++ [cell]) ++ more) by (by rewrite <- app_assoc).
  apply IH; [|done]. rewrite !length_app. simpl. lia.
Qed.

(** ** Validation and replay *)

Lemma validate_mono len p p' styles :
  (p ≤ p')%N → validate_spans len p' styles = Ok () → validate_spans len p styles = Ok ().
Proof.
  intros Hp. destruct styles as [|s styles]; [done|]. simpl.
  destruct (add32 _ _) as [e|]; [|done].
  rewrite !bind_Ok. setoid_rewrite fail_if_Ok. setoid_rewrite orb_false_iff. setoid_rewrite orb_false_iff.
  setoid_rewrite bool_decide_eq_false. intros (u & [[H1 H2] H3] & H4). exists u. split_and!; [done|lia|done|done].
Qed.

Lemma validate_stacked len bound styles later :
  (bound ≤ len)%N → (len ≤ u32_MAX)%N → stacked bound styles →
  validate_spans len bound later = Ok () →
  validate_spans len 0 (reverse styles ++ later) = Ok ().
Proof.
  revert bound later. induction styles as [|s styles IH]; intros bound later Hb Hlen Hs Hv.
  { simpl. eapply validate_mono; [|exact Hv]. lia. }
  destruct Hs as (H1 & H2 & H3). rewrite reverse_cons, <- app_assoc. simpl.
  apply (IH (StyleSpan.start s)); [lia|done|done|]. simpl.
  rewrite add32_Some by lia.
  rewrite !bool_decide_eq_false_2 by lia. simpl. eapply validate_mono; [|exact Hv]. lia.
Qed.

Lemma look_app l k i :
  (∀ span, span ∈ l → ¬ (StyleSpan.start span ≤ i < StyleSpan.start span + StyleSpan.length span)%N) →
  look (l ++ k) i = look k i.
Proof.
  induction l as [|s l IH]; intros Hl; [done|]. simpl. rewrite look_cons, decide_False by (apply Hl; left).
  apply IH. intros. apply Hl. by right.
Qed.

Lemma stacked_elem bound styles span :
  stacked bound styles → span ∈ styles → (StyleSpan.start span + StyleSpan.length span ≤ bound)%N.
Proof.
  revert bound. induction styles as [|s styles IH]; intros bound Hs Hin; [by apply elem_of_nil in Hin|].
  destruct Hs as (H1 & H2 & H3). apply elem_of_cons in Hin as [->|Hin]; [done|].
  specialize (IH _ H3 Hin). lia.
Qed.

Lemma look_snoc l s i :
  ¬ (StyleSpan.start s ≤ i < StyleSpan.start s + StyleSpan.length s)%N → look (l ++ [s]) i = look l i.
Proof.
  intros Hs. induction l as [|s' l IH]; simpl; [by rewrite look_cons, decide_False|].
  rewrite !look_cons. by case_decide.
Qed.

Lemma look_reverse bound styles i : stacked bound styles → look (reverse styles) i = look styles i.
Proof.
  revert bound. induction styles as [|s styles IH]; intros bound Hs; [done|].
  destruct Hs as (H1 & H2 & H3). rewrite reverse_cons, look_cons. case_decide as Hi.
  - rewrite look_app; [by rewrite look_cons, decide_True|].
    intros span Hin. rewrite elem_of_reverse in Hin. pose proof (stacked_elem _ _ _ H3 Hin). lia.
  - rewrite look_snoc by done. by eapply IH.
Qed.

(** What a captured row says of the cells *)
Lemma capture_row_spec line w :
  (N.of_nat (length (visible line)) ≤ u32_MAX)%N →
  capture_row line w ⇓ λ row,
    HistoryRow.wrapped row = w ∧ HistoryRow.text row = Cell.ch <$> visible line ∧
    validate_spans (N.of_nat (length (HistoryRow.text row))) 0 (HistoryRow.styles row) = Ok () ∧
    ∀ i cell, visible line !! i = Some cell → look (HistoryRow.styles row) (N.of_nat i) = style (Cell.pen cell).
Proof.
  intros Hlen. unfold capture_row.
  eapply Safe_bind; [apply (capture_cells_spec [] (visible line) ([], []))|].
  - done.
  - split; [done|done|]. intros i cell Hi. by rewrite lookup_nil in Hi.
  - intros [text styles] [Ht Hs Hl]. simpl in *. subst text. rewrite length_fmap.
    split_and!; [done|done| |].
    + rewrite <- (app_nil_r (reverse styles)). by eapply validate_stacked.
    + intros i cell Hi. rewrite (look_reverse _ _ _ Hs). by apply Hl.
Qed.

(** Accepted spans never run out of order in the replay loop. *)
Lemma ansi_spans_ok len p styles characters :
  validate_spans len p styles = Ok () → ∃ ansi, ansi_spans characters p styles = Ok ansi.
Proof.
  revert p characters. induction styles as [|s styles IH]; intros p characters Hv; [by eexists|].
  simpl in Hv. destruct (add32 _ _) as [e|] eqn:He; [|done].
  rewrite bind_Ok in Hv. destruct Hv as (u & Hb & Hv).
  rewrite fail_if_Ok, !orb_false_iff, !bool_decide_eq_false in Hb. destruct Hb as [[H1 H2] H3].
  cbn [ansi_spans]. rewrite decide_True by lia. rewrite He. cbn [expect mbind outcome_bind].
  destruct (IH e (drop (N.to_nat (StyleSpan.length s))
    (drop (N.to_nat (StyleSpan.start s - p)) characters)) Hv) as [ansi ->]. by eexists.
Qed.

Lemma row_ansi_ok row :
  validate_history_row row = Ok () → ∃ ansi, row_ansi row = Ok ansi.
Proof.
  intros Hv. unfold row_ansi. rewrite Hv. cbn [mbind outcome_bind].
  case_decide as Hs; [by eexists|]. unfold validate_history_row in Hv.
  rewrite bind_Ok in Hv. destruct Hv as (u & _ & Hv). rewrite bind_Ok in Hv. destruct Hv as (u' & _ & Hv).
  destruct (ansi_spans_ok _ _ _ (HistoryRow.text row) Hv) as [ansi ->]. by eexists.
Qed.

Lemma capture_row_valid line w :
  (N.of_nat (length (visible line)) ≤ u32_MAX)%N →
  Forall (λ cell, is_control (Cell.ch cell) = false) (visible line) →
  capture_row line w ⇓ λ row, validate_history_row row = Ok ().
Proof.
  intros Hlen Hc. eapply Safe_mono; [by apply capture_row_spec|].
  intros row (_ & Ht & Hv & _). unfold validate_history_row.
  assert (existsb is_control (HistoryRow.text row) = false) as ->.
  { rewrite Ht. clear -Hc. induction Hc as [|c l Hc _ IH]; [done|]. csimpl. by rewrite Hc, IH. }
  cbn [fail_if mbind outcome_bind].
  rewrite bool_decide_eq_false_2 by (rewrite Ht, length_fmap; lia). exact Hv.
Qed.
