(* ===== verification/Retention.v ===== *)
(** The history a terminal retains above its screen: physical rows and the logical lines
    made of them (normalize_history_rows and retained_history_text_bytes of
    ctmux/proto/src/lib.rs, PhysicalHistory of ctmux/daemon/src/history_snapshot.rs), and
    the bounded window of lines clients are shown (TerminalHistory of
    ctmux/daemon/src/session.rs).  Byte counts are [N]: memory bounds them far below the
    machine width.  The encodings PhysicalHistory caches are in [Paging]. *)

From S2P Require Import Prelude.
From S2P Require Import Cells.
From S2P Require Import Lines.
From S2P Require Import Buffers.
From S2P Require Import Layout.
From S2P Require Import Journal.
From S2P Require Import Observers.
From S2P Require Import History.
From stdpp Require Import strings.

Definition byte_len (s : list char) : N := N.of_nat (str_len s).

(** The bytes of lines, each with its line feed *)
Definition lines_bytes (lines : list (list char)) : N := foldr (λ l n, byte_len l + 1 + n)%N 0%N lines.

Definition saturating_add64 (a b : N) : N := ((a + b) `min` u64_MAX)%N.

Definition MAX_NORMALIZED_HISTORY_BYTES : N := 4 * 1024 * 1024.

(** * Physical rows *)

(** [while retained_bytes > MAX { if let Some(old) = lines.pop_front() { .. } }], which
    would not end on an empty deque *)
Fixpoint evict_lines (lines : list (list char)) (retained_bytes : N) : option (list (list char) * N) :=
  if decide (MAX_NORMALIZED_HISTORY_BYTES < retained_bytes)%N then
    match lines with
    | [] => None
    | old :: lines =>
        if decide (byte_len old + 1 ≤ retained_bytes)%N
        then evict_lines lines (retained_bytes - (byte_len old + 1)) else None
    end
  else Some (lines, retained_bytes).

Fixpoint normalize_go (rows : list HistoryRow.t) (pending : list char) (lines : list (list char))
    (retained_bytes : N) : option (list (list char)) :=
  match rows with
  | [] => Some lines
  | row :: rows =>
      let pending := pending ++ HistoryRow.text row in
      if HistoryRow.wrapped row then normalize_go rows pending lines retained_bytes
      else
        let line := trim_end pending in
        '(lines, retained_bytes) ← evict_lines (lines ++ [line]) (retained_bytes + (byte_len line + 1));
        normalize_go rows [] lines retained_bytes
  end.
Definition normalize_history_rows (rows : list HistoryRow.t) : option (list (list char)) :=
  normalize_go rows [] [] 0.

Fixpoint retained_go (rows : list HistoryRow.t) (pending : list char) (bytes : N) : N :=
  match rows with
  | [] => bytes
  | row :: rows =>
      let pending := pending ++ HistoryRow.text row in
      if HistoryRow.wrapped row then retained_go rows pending bytes
      else retained_go rows [] (saturating_add64 bytes (byte_len (trim_end pending) + 1))
  end.
Definition retained_history_text_bytes (rows : list HistoryRow.t) : N := retained_go rows [] 0.

Module PhysicalHistory.
Record t := Mk { rows : list HistoryRow.t; lines : list (list char); retained_text_bytes : N }.

Definition new (rows : list HistoryRow.t) : option t :=
  lines ← normalize_history_rows rows; Some (Mk rows lines (retained_history_text_bytes rows)).
Definition empty : t := Mk [] [] 0.

(** [Arc]s are compared by their rows, and a kept one keeps its lines. *)
Definition replace (current : t) (new_rows : list HistoryRow.t) : option t :=
  if decide (rows current = new_rows) then Some current else new new_rows.
End PhysicalHistory.

(** * The window of lines *)

Definition TERMINAL_HISTORY_FORMAT : string := "ctmux_logical_lines".
Definition TERMINAL_HISTORY_FORMAT_VERSION : N := 1.

Module HistorySnapshot.
Record t := Mk {
  format : string; format_version : N; sequence : N; generation : N; revision : N;
  retained_bytes : N; truncated : bool; lines : list (list char) }.
End HistorySnapshot.

Module TerminalHistory.
Record t := Mk {
  generation : N; revision : N; capacity_bytes : N; retained_bytes : N; truncated : bool;
  lines : list (list char) }.

#[global] Instance eq_dec : EqDecision t.
Proof. solve_decision. Defined.

Definition new (capacity_bytes : N) : t := Mk 0 0 (capacity_bytes `max` 1) 0 false [].

(** The loop of [replace]: the lines from [first_line] on, their bytes, and whether any
    was dropped; indexing past the last line panics. *)
Fixpoint evict (capacity_bytes : N) (lines : list (list char)) (retained_bytes : N) (truncated : bool) :
    option (list (list char) * N * bool) :=
  if decide (capacity_bytes < retained_bytes)%N then
    match lines with
    | [] => None
    | line :: lines => evict capacity_bytes lines (retained_bytes - (byte_len line + 1)) true
    end
  else Some (lines, retained_bytes, truncated).

Definition replace (lines' : list (list char)) (source_truncated : bool) (h : t) : option t :=
  '(retained, bytes, cut) ← evict (capacity_bytes h) lines' (lines_bytes lines') (truncated h || source_truncated);
  if bool_decide (lines h = retained) && bool_decide (truncated h = cut) then Some h
  else
    revision ← add64 (revision h) 1;
    Some (Mk (generation h) revision (capacity_bytes h) bytes cut retained).

Definition clear (h : t) : option t :=
  generation ← add64 (generation h) 1;
  revision ← add64 (revision h) 1;
  Some (Mk generation revision (capacity_bytes h) 0 false []).

Definition snapshot (sequence : N) (h : t) : option HistorySnapshot.t :=
  if decide (retained_bytes h ≤ u64_MAX)%N then
    Some (HistorySnapshot.Mk TERMINAL_HISTORY_FORMAT TERMINAL_HISTORY_FORMAT_VERSION sequence
            (generation h) (revision h) (retained_bytes h) (truncated h) (lines h))
  else None.
End TerminalHistory.

(** * Logical lines *)

(** The complete lines of physical rows, after the beginning [pending] of one *)
Fixpoint complete_lines (rows : list HistoryRow.t) (pending : list char) : list (list char) :=
  match rows with
  | [] => []
  | row :: rows =>
      let pending := pending ++ HistoryRow.text row in
      if HistoryRow.wrapped row then complete_lines rows pending
      else trim_end pending :: complete_lines rows []
  end.

Lemma lines_bytes_cons l lines : lines_bytes (l :: lines) = (byte_len l + 1 + lines_bytes lines)%N.
Proof. done. Qed.

Lemma lines_bytes_app a b : lines_bytes (a ++ b) = (lines_bytes a + lines_bytes b)%N.
Proof.
  induction a as [|l a IH]; [done|]. change ((l :: a) ++ b) with (l :: (a ++ b)). rewrite !lines_bytes_cons, IH. lia.
Qed.

(** [k] lines at the front must go for the rest to take at most [bound] bytes. *)
Definition keeps_suffix (bound : N) (lines : list (list char)) (k : nat) : Prop :=
  (lines_bytes (drop k lines) ≤ bound)%N ∧ ∀ j, j < k → (bound < lines_bytes (drop j lines))%N.

Lemma keeps_suffix_cons bound l lines k : (bound < lines_bytes (l :: lines))%N →
  keeps_suffix bound lines k → keeps_suffix bound (l :: lines) (S k).
Proof. intros Hb [Hk Hj]. split; [done|]. intros [|j] Hlt; [done|]. apply Hj. lia. Qed.

Lemma keeps_suffix_le bound lines k : keeps_suffix bound lines k → k ≤ length lines.
Proof.
  intros [_ Hj]. destruct (decide (k ≤ length lines)); [done|]. specialize (Hj (length lines) ltac:(lia)).
  rewrite drop_all in Hj. cbn in Hj. lia.
Qed.

Lemma keeps_suffix_unique bound lines k k' : keeps_suffix bound lines k → keeps_suffix bound lines k' → k = k'.
Proof.
  intros [H1 H2] [H3 H4]. destruct (decide (k < k')); [specialize (H4 k ltac:(lia)); lia|].
  destruct (decide (k' < k)); [specialize (H2 k' ltac:(lia)); lia|lia].
Qed.

Lemma lines_bytes_drop lines i j : i ≤ j → (lines_bytes (drop j lines) ≤ lines_bytes (drop i lines))%N.
Proof.
  intros Hij. rewrite <- (take_drop (j - i) (drop i lines)), drop_drop, lines_bytes_app.
  replace (i + (j - i)) with j by lia. lia.
Qed.

(** One window over another is the smaller of them. *)
Lemma keeps_suffix_compose b b' lines k k' : keeps_suffix b lines k → keeps_suffix b' (drop k lines) k' →
  keeps_suffix (b `min` b')%N lines (k + k').
Proof.
  intros [H1 H2] [H3 H4]. rewrite drop_drop in H3. pose proof (lines_bytes_drop lines k (k + k') ltac:(lia)).
  split; [lia|]. intros j Hj. destruct (decide (j < k)).
  - specialize (H2 j ltac:(lia)). lia.
  - specialize (H4 (j - k) ltac:(lia)). rewrite drop_drop in H4. replace (k + (j - k)) with j in H4 by lia. lia.
Qed.

(** * Eviction keeps the longest suffix that fits *)

Lemma evict_lines_keeps lines :
  evict_lines lines (lines_bytes lines) ⇓ λ '(kept, bytes), bytes = lines_bytes kept ∧
    ∃ k, keeps_suffix MAX_NORMALIZED_HISTORY_BYTES lines k ∧ kept = drop k lines.
Proof.
  induction lines as [|l lines IH]; cbn [evict_lines]; rewrite ?lines_bytes_cons.
  { split; [done|]. exists 0. split; [|done]. split; [by apply N.le_0_l|lia]. }
  case_decide as Hd.
  - rewrite decide_True by lia. replace (byte_len l + 1 + lines_bytes lines - (byte_len l + 1))%N with (lines_bytes lines) by lia.
    eapply Safe_mono; [exact IH|]. intros [kept bytes] (Hb & k & Hk & ->). split; [done|].
    exists (S k). split; [by apply keeps_suffix_cons|done].
  - split; [done|]. exists 0. split; [|done]. split; [rewrite drop_0, lines_bytes_cons; lia|lia].
Qed.

Lemma evict_keeps bound lines : ∀ cut,
  TerminalHistory.evict bound lines (lines_bytes lines) cut ⇓ λ '(kept, bytes, cut'), bytes = lines_bytes kept ∧
    ∃ k, keeps_suffix bound lines k ∧ kept = drop k lines ∧ cut' = cut || bool_decide (0 < k).
Proof.
  induction lines as [|l lines IH]; intros cut; cbn [TerminalHistory.evict]; rewrite ?lines_bytes_cons.
  { rewrite decide_False by (cbn; lia). split; [done|]. exists 0. split_and!; [|done|by rewrite orb_false_r]. split; [by apply N.le_0_l|lia]. }
  case_decide as Hd.
  - replace (byte_len l + 1 + lines_bytes lines - (byte_len l + 1))%N with (lines_bytes lines) by lia.
    eapply Safe_mono; [apply IH|]. intros [[kept bytes] cut'] (Hb & k & Hk & -> & ->). split; [done|].
    exists (S k). split_and!; [by apply keeps_suffix_cons|done|]. rewrite (bool_decide_true (0 < S k)) by lia.
    by rewrite orb_true_r.
  - split; [done|]. exists 0. split_and!; [|done|by rewrite orb_false_r]. split; [rewrite drop_0, lines_bytes_cons; lia|lia].
Qed.

(** A window of lines: the longest suffix of the lines offered that fits its capacity *)
Lemma replace_keeps lines cut h : (TerminalHistory.revision h < u64_MAX)%N →
  TerminalHistory.retained_bytes h = lines_bytes (TerminalHistory.lines h) →
  TerminalHistory.replace lines cut h ⇓ λ h', ∃ k,
    keeps_suffix (TerminalHistory.capacity_bytes h) lines k ∧
    TerminalHistory.lines h' = drop k lines ∧
    TerminalHistory.retained_bytes h' = lines_bytes (drop k lines) ∧
    TerminalHistory.truncated h' = TerminalHistory.truncated h || cut || bool_decide (0 < k) ∧
    TerminalHistory.capacity_bytes h' = TerminalHistory.capacity_bytes h ∧
    TerminalHistory.generation h' = TerminalHistory.generation h ∧
    TerminalHistory.revision h' = (TerminalHistory.revision h + if decide (h' = h) then 0 else 1)%N ∧
    (h' = h ↔ TerminalHistory.lines h = TerminalHistory.lines h' ∧ TerminalHistory.truncated h = TerminalHistory.truncated h').
Proof.
  intros Hrev Hbytes. unfold TerminalHistory.replace. eapply Safe_bind; [apply evict_keeps|].
  intros [[kept bytes] cut'] (-> & k & Hk & -> & ->). destruct (bool_decide _ && bool_decide _) eqn:E.
  - apply andb_true_iff in E as [El%bool_decide_eq_true Et%bool_decide_eq_true]. exists k.
    rewrite decide_True by done. split_and!; [done|done|by rewrite Hbytes, El|done..|lia|done].
  - rewrite add64_Some by lia. exists k. cbn.
    assert (Hne : TerminalHistory.Mk (TerminalHistory.generation h) (TerminalHistory.revision h + 1)
      (TerminalHistory.capacity_bytes h) (lines_bytes (drop k lines))
      (TerminalHistory.truncated h || cut || bool_decide (0 < k)) (drop k lines) ≠ h).
    { intros Heq. apply (f_equal TerminalHistory.revision) in Heq. cbn in Heq. lia. }
    rewrite decide_False by done. split_and!; try done. split; [done|]. intros [El Et].
    apply andb_false_iff in E as [E%bool_decide_eq_false|E%bool_decide_eq_false]; done.
Qed.

(** ** Physical rows *)

(** Once lines were dropped, more lines at the end only drop more. *)
Lemma keeps_suffix_grow bound lines l k j : keeps_suffix bound lines k →
  keeps_suffix bound (drop k lines ++ [l]) j → keeps_suffix bound (lines ++ [l]) (k + j).
Proof.
  intros Hk [Hj1 Hj2]. pose proof (keeps_suffix_le _ _ _ Hk) as Hle. destruct Hk as [_ Hk2].
  assert (Hd : ∀ i, drop (k + i) (lines ++ [l]) = drop i (drop k lines ++ [l])).
  { intros i. rewrite <- drop_drop. by rewrite (drop_app_le lines) by lia. }
  split; [by rewrite Hd|]. intros i Hi. destruct (decide (i < k)).
  - rewrite drop_app_le, lines_bytes_app by lia. specialize (Hk2 i ltac:(lia)). lia.
  - replace i with (k + (i - k)) by lia. rewrite Hd. apply Hj2. lia.
Qed.

Lemma normalize_go_keeps rows : ∀ pending lines k, keeps_suffix MAX_NORMALIZED_HISTORY_BYTES lines k →
  normalize_go rows pending (drop k lines) (lines_bytes (drop k lines)) ⇓ λ lines',
    ∃ k', keeps_suffix MAX_NORMALIZED_HISTORY_BYTES (lines ++ complete_lines rows pending) k' ∧
          lines' = drop k' (lines ++ complete_lines rows pending).
Proof.
  induction rows as [|row rows IH]; intros pending lines k Hk; cbn [normalize_go complete_lines].
  { exists k. by rewrite app_nil_r. }
  destruct (HistoryRow.wrapped row); [by apply IH|]. cbv zeta. set (l := trim_end _).
  assert (Hb : (lines_bytes (drop k lines) + (byte_len l + 1))%N = lines_bytes (drop k lines ++ [l])).
  { rewrite lines_bytes_app. cbn. lia. }
  rewrite Hb. eapply Safe_bind; [apply evict_lines_keeps|]. intros [kept bytes] (-> & j & Hj & ->).
  pose proof (keeps_suffix_grow _ _ _ _ _ Hk Hj) as Hkj.
  assert (Hd : drop j (drop k lines ++ [l]) = drop (k + j) (lines ++ [l])).
  { pose proof (keeps_suffix_le _ _ _ Hk). rewrite <- drop_drop. by rewrite (drop_app_le lines) by lia. }
  rewrite Hd. eapply Safe_mono; [by apply IH|]. intros lines'.
  change (lines ++ l :: complete_lines rows []) with (lines ++ [l] ++ complete_lines rows []).
  by rewrite <- app_assoc.
Qed.

(** The normalized lines are the longest suffix of the complete lines that fits. *)
Lemma normalize_keeps rows : normalize_history_rows rows ⇓ λ lines, ∃ k,
  keeps_suffix MAX_NORMALIZED_HISTORY_BYTES (complete_lines rows []) k ∧ lines = drop k (complete_lines rows []).
Proof. apply (normalize_go_keeps rows [] [] 0). split; [by apply N.le_0_l|lia]. Qed.

Lemma physical_new_total rows : PhysicalHistory.new rows ⇓ λ p, PhysicalHistory.rows p = rows.
Proof. unfold PhysicalHistory.new. eapply Safe_bind; [apply normalize_keeps|]. done. Qed.

(** The lines of physical rows are theirs. *)
Definition physical_ok (p : PhysicalHistory.t) : Prop :=
  normalize_history_rows (PhysicalHistory.rows p) = Some (PhysicalHistory.lines p).

Lemma physical_replace_ok current rows : physical_ok current → PhysicalHistory.replace current rows ↠ physical_ok.
Proof.
  intros Hok. unfold PhysicalHistory.replace. case_decide; [done|]. unfold PhysicalHistory.new.
  apply Partial_bind_eq. intros lines E. done.
Qed.

Lemma physical_replace_rows current rows : PhysicalHistory.replace current rows ↠ λ p, PhysicalHistory.rows p = rows.
Proof.
  unfold PhysicalHistory.replace. case_decide; [done|]. unfold PhysicalHistory.new.
  apply Partial_bind_eq. by intros lines E.
Qed.

Lemma physical_replace_total current rows : PhysicalHistory.replace current rows ⇓ λ p, PhysicalHistory.rows p = rows.
Proof. unfold PhysicalHistory.replace. case_decide; [done|apply physical_new_total]. Qed.

Lemma retained_go_counts rows : ∀ pending bytes, (bytes ≤ u64_MAX)%N →
  retained_go rows pending bytes = ((bytes + lines_bytes (complete_lines rows pending)) `min` u64_MAX)%N.
Proof.
  induction rows as [|row rows IH]; intros pending bytes Hb; cbn [retained_go complete_lines].
  { change (lines_bytes []) with 0%N. lia. }
  destruct (HistoryRow.wrapped row); [by apply IH|]. rewrite IH by (unfold saturating_add64; lia).
  rewrite lines_bytes_cons. unfold saturating_add64. lia.
Qed.

(** What the window of lines shows of physical rows *)
Lemma window_of_rows rows cut h : (TerminalHistory.revision h < u64_MAX)%N →
  TerminalHistory.retained_bytes h = lines_bytes (TerminalHistory.lines h) →
  (p ← PhysicalHistory.new rows; TerminalHistory.replace (PhysicalHistory.lines p) cut h) ⇓ λ h', ∃ k,
    keeps_suffix (MAX_NORMALIZED_HISTORY_BYTES `min` TerminalHistory.capacity_bytes h)%N (complete_lines rows []) k ∧
    TerminalHistory.lines h' = drop k (complete_lines rows []) ∧
    TerminalHistory.retained_bytes h' = lines_bytes (TerminalHistory.lines h') ∧
    TerminalHistory.generation h' = TerminalHistory.generation h ∧
    (h' ≠ h → TerminalHistory.revision h' = TerminalHistory.revision h + 1)%N ∧
    (TerminalHistory.lines h = TerminalHistory.lines h' → TerminalHistory.truncated h = TerminalHistory.truncated h' → h' = h).
Proof.
  intros Hrev Hbytes. unfold PhysicalHistory.new. eapply Safe_bind_assoc; [apply normalize_keeps|].
  intros lines (k & Hk & ->). cbn [mbind option_bind PhysicalHistory.lines].
  eapply Safe_mono; [by apply replace_keeps|]. intros h' (k' & Hk' & -> & -> & _ & _ & Eg & Er & Heq).
  exists (k + k'). rewrite drop_drop. split_and!; try done.
  - by apply keeps_suffix_compose.
  - intros Hne. rewrite Er. by case_decide.
  - intros El Et. apply Heq. by rewrite drop_drop.
Qed.
