(* ===== verification/ShellState.v ===== *)
(** What the daemon knows about the shell of a terminal (ShellState and its parts, and
    is_valid_running_command, of ctmux/proto/src/lib.rs): the metadata rules every
    published state obeys and the filter for one viewer.  Texts are lists of characters;
    [str::len] counts the bytes of their encoding. *)

From S2P Require Import Prelude.
From S2P Require Import Cells.
From S2P Require Import Observers.
From S2P Require Import History.

Definition MAX_RUNNING_COMMAND_BYTES : nat := 256.

Inductive ShellType := Bash | Fish | Pwsh | Zsh | Cmd | Sh | UnknownShell.
#[global] Instance ShellType_eq_dec : EqDecision ShellType.
Proof. solve_decision. Defined.

Module ShellCapabilities.
Record t := Mk {
  reports_cwd : bool; reports_command_line : bool; reports_cursor : bool;
  reports_prompt_phase : bool; reports_running_command : bool }.
#[global] Instance eq_dec : EqDecision t.
Proof. solve_decision. Defined.
Definition default : t := Mk false false false false false.
End ShellCapabilities.

Module ShellDescriptor.
Record t := Mk { shell_type : ShellType; integration_version : option N; capabilities : ShellCapabilities.t }.
#[global] Instance eq_dec : EqDecision t.
Proof. solve_decision. Defined.
Definition default : t := Mk UnknownShell None ShellCapabilities.default.
End ShellDescriptor.

Inductive PromptPhase := PhaseUnknown | AtPrompt | Editing | Running.
#[global] Instance PromptPhase_eq_dec : EqDecision PromptPhase.
Proof. solve_decision. Defined.

Module CommandLine.
Record t := Mk { text : list char; cursor_scalar_offset : option N }.
#[global] Instance eq_dec : EqDecision t.
Proof. solve_decision. Defined.

(** A [u32] always fits a [usize]. *)
Definition has_valid_cursor (c : t) : bool :=
  match cursor_scalar_offset c with
  | None => true
  | Some offset => bool_decide (offset ≤ N.of_nat (length (text c)))%N
  end.
End CommandLine.

Inductive CwdSource := ShellIntegration | Process.
#[global] Instance CwdSource_eq_dec : EqDecision CwdSource.
Proof. solve_decision. Defined.

Inductive ForegroundProcess :=
  | ForegroundUnknown
  | ForegroundShell
  | ForegroundChild (pid : N) (name : option (list char)).
#[global] Instance ForegroundProcess_eq_dec : EqDecision ForegroundProcess.
Proof. solve_decision. Defined.

Module ShellProcessState.
Record t := Mk { pid : N; name : option (list char); foreground : ForegroundProcess }.
#[global] Instance eq_dec : EqDecision t.
Proof. solve_decision. Defined.
End ShellProcessState.

(** Bounded, not empty, and without control characters *)
Definition is_valid_running_command (command : list char) : bool :=
  negb (bool_decide (command = [])) && bool_decide (str_len command ≤ MAX_RUNNING_COMMAND_BYTES) &&
  negb (existsb is_control command).

(** [name.as_deref().is_none_or(is_valid_running_command)] *)
Definition valid_name (name : option (list char)) : bool :=
  match name with None => true | Some name => is_valid_running_command name end.

Module ShellState.
Record t := Mk {
  revision : N; observed_sequence : N; shell : ShellDescriptor.t;
  cwd : option (list char); cwd_source : option CwdSource; process : option ShellProcessState.t;
  cwd_display : option (list char); prompt_phase : PromptPhase;
  command_line_redacted : bool; current_command_line : option CommandLine.t;
  running_command_redacted : bool; running_command : option (list char);
  tui_hint : TuiHint }.
#[global] Instance eq_dec : EqDecision t.
Proof. solve_decision. Defined.

Definition default : t :=
  Mk 0 0 ShellDescriptor.default None None None None PhaseUnknown false None false None Unknown.

Definition displayed_cwd (s : t) : option (list char) :=
  match cwd_display s with Some path => Some path | None => cwd s end.

Definition has_valid_command_line (s : t) : bool :=
  match current_command_line s with
  | Some line =>
      negb (command_line_redacted s) &&
      match prompt_phase s with AtPrompt | Editing => true | _ => false end &&
      CommandLine.has_valid_cursor line
  | None => true
  end.

Definition has_valid_running_command (s : t) : bool :=
  match running_command s with
  | Some command =>
      negb (running_command_redacted s) &&
      ShellCapabilities.reports_running_command (ShellDescriptor.capabilities (shell s)) &&
      bool_decide (prompt_phase s = Running) && is_valid_running_command command
  | None => true
  end.

Definition valid_process (process : option ShellProcessState.t) : bool :=
  match process with
  | None => true
  | Some p =>
      bool_decide (0 < ShellProcessState.pid p)%N && valid_name (ShellProcessState.name p) &&
      match ShellProcessState.foreground p with
      | ForegroundUnknown | ForegroundShell => true
      | ForegroundChild pid name =>
          bool_decide (0 < pid)%N && negb (bool_decide (pid = ShellProcessState.pid p)) && valid_name name
      end
  end.

Definition has_valid_metadata (s : t) : bool :=
  has_valid_command_line s && has_valid_running_command s && valid_process (process s) &&
  (bool_decide (is_Some (cwd s)) || bool_decide (cwd_source s = None)).

Definition filtered_for_visibility (may_view_command_line may_view_running_command : bool) (s : t) : t :=
  let hide_line := negb may_view_command_line && bool_decide (is_Some (current_command_line s)) in
  let hide_command := negb may_view_running_command && bool_decide (is_Some (running_command s)) in
  Mk (revision s) (observed_sequence s) (shell s) (cwd s) (cwd_source s) (process s) (cwd_display s)
     (prompt_phase s)
     hide_line (if hide_line then None else current_command_line s)
     hide_command (if hide_command then None else running_command s)
     (tui_hint s).
End ShellState.

(** * Filtering *)

Section filtering.
Implicit Types (s : ShellState.t).
Import ShellState.

Lemma filtered_valid line command s : has_valid_metadata s = true →
  has_valid_metadata (filtered_for_visibility line command s) = true.
Proof.
  unfold has_valid_metadata. rewrite !andb_true_iff. intros [[[Hl Hc] Hp] Hs]. split_and!; [| |done|done].
  - revert Hl. unfold has_valid_command_line, filtered_for_visibility. cbn -[CommandLine.has_valid_cursor].
    destruct (current_command_line s) as [l|]; [|by rewrite andb_false_r].
    rewrite !andb_true_iff. intros [[_ Hph] Hcur]. destruct line; cbn -[CommandLine.has_valid_cursor]; [by rewrite Hph, Hcur|done].
  - revert Hc. unfold has_valid_running_command, filtered_for_visibility. cbn -[is_valid_running_command].
    destruct (running_command s) as [c|]; [|by rewrite andb_false_r].
    rewrite !andb_true_iff. intros [[[_ Hcap] Hph] Hok]. destruct command; cbn -[is_valid_running_command]; [by rewrite Hcap, Hph, Hok|done].
Qed.
End filtering.
