(* ===== verification/ShellReports.v ===== *)
(** Reports of the shell integration (RecordParser, parse_report and its helpers of
    ctmux/daemon/src/shell_reporter.rs): records of nine fields, each ended by a zero byte,
    read from a pipe in arbitrary pieces.  A record with too long a field, or too long
    altogether, is skipped to its end.

    Records of shell reports are read whatever pieces they arrive in, one that is too long
    costs nothing but itself, and every report obeys the rules of the state it enters. *)

From S2P Require Import Prelude.
From S2P Require Import Cells.
From S2P Require Import Utf8.
From S2P Require Import Observers.
From S2P Require Import ShellState.
From stdpp Require Import strings.

Definition REPORT_MAGIC_V1 : list char := str "ctmux-shell-v1".
Definition REPORT_MAGIC_V2 : list char := str "ctmux-shell-v2".
Definition REPORT_FIELD_COUNT : nat := 9.
Definition MAX_FIELD_BYTES : nat := 4 * 1024.
Definition MAX_RECORD_BYTES : N := 16 * 1024.
Definition MAX_COMMAND_LINE_BYTES : nat := 4 * 1024.

Module ShellReport.
Record t := Mk {
  shell : ShellDescriptor.t; cwd : option (list char); prompt_phase : PromptPhase;
  current_command_line : option CommandLine.t; running_command : option (list char) }.
End ShellReport.

(** * Fields *)

(** [std::str::from_utf8(bytes).ok()] *)
Definition utf8_ok (bytes : list N) : option (list char) :=
  match from_utf8 bytes with ValidUtf8 cs => Some cs | InvalidUtf8 _ _ _ => None end.

(** [str::parse] to an unsigned integer of at most [bound] *)
Definition parse_unsigned (bound : N) (s : list char) : option N :=
  let digits := match s with 43%N :: rest => rest | _ => s end in
  if bool_decide (digits = []) then None
  else if forallb is_digit digits && bool_decide (digits_value digits ≤ bound)%N
  then Some (digits_value digits) else None.

(** Absent when empty; [None] is an error. *)
Definition parse_optional (bound : N) (value : list char) : option (option N) :=
  if bool_decide (value = []) then Some None
  else n ← parse_unsigned bound value; Some (Some n).
Definition parse_optional_u16 : list char → option (option N) := parse_optional 65535.
Definition parse_optional_u32 : list char → option (option N) := parse_optional 4294967295.

Definition parse_optional_text (value : list char) : option (list char) :=
  if bool_decide (value = []) then None else Some value.

(** [match value { "a" => Some(x), .. }] *)
Fixpoint keyword {A} (table : list (string * A)) (value : list char) : option A :=
  match table with
  | [] => None
  | (word, x) :: table => if bool_decide (value = str word) then Some x else keyword table value
  end.

Definition parse_shell_type : list char → option ShellType :=
  keyword [("bash", Bash); ("fish", Fish); ("pwsh", Pwsh); ("zsh", Zsh); ("cmd", Cmd); ("sh", Sh);
           ("unknown", UnknownShell)]%string.

Definition parse_prompt_phase : list char → option PromptPhase :=
  keyword [("unknown", PhaseUnknown); ("at_prompt", AtPrompt); ("editing", Editing); ("running", Running)]%string.

Section capabilities.
Import ShellCapabilities.

(** Setting one capability; naming it twice is an error. *)
Definition report_capability (capability : list char) (c : ShellCapabilities.t) : option ShellCapabilities.t :=
  let once reported c := if reported : bool then None else Some c in
  if bool_decide (capability = str "cwd") then
    once (reports_cwd c) (Mk true (reports_command_line c) (reports_cursor c) (reports_prompt_phase c) (reports_running_command c))
  else if bool_decide (capability = str "command_line") then
    once (reports_command_line c) (Mk (reports_cwd c) true (reports_cursor c) (reports_prompt_phase c) (reports_running_command c))
  else if bool_decide (capability = str "cursor") then
    once (reports_cursor c) (Mk (reports_cwd c) (reports_command_line c) true (reports_prompt_phase c) (reports_running_command c))
  else if bool_decide (capability = str "prompt_phase") then
    once (reports_prompt_phase c) (Mk (reports_cwd c) (reports_command_line c) (reports_cursor c) true (reports_running_command c))
  else if bool_decide (capability = str "running_command") then
    once (reports_running_command c) (Mk (reports_cwd c) (reports_command_line c) (reports_cursor c) (reports_prompt_phase c) true)
  else None.

Fixpoint report_capabilities (parts : list (list char)) (c : ShellCapabilities.t) : option ShellCapabilities.t :=
  match parts with
  | [] => Some c
  | part :: parts => c ← report_capability part c; report_capabilities parts c
  end.

Definition parse_capabilities (value : list char) : option ShellCapabilities.t :=
  if bool_decide (value = []) then Some default else report_capabilities (split_on 44 value) default.
End capabilities.

(** * The active text *)

Definition parse_absent_active_text (present text cursor : list char) : bool :=
  bool_decide (present = str "0") && bool_decide (text = []) && bool_decide (cursor = []).

(** [Some None] is [ActiveText::Absent]. *)
Definition parse_command_line (present text cursor : list char) : option (option CommandLine.t) :=
  if bool_decide (present = str "0") then
    if parse_absent_active_text present text cursor then Some None else None
  else if bool_decide (present = str "1") then
    if decide (MAX_COMMAND_LINE_BYTES < str_len text) then None else
    offset ← parse_optional_u32 cursor;
    let line := CommandLine.Mk text offset in
    if CommandLine.has_valid_cursor line then Some (Some line) else None
  else None.

Definition parse_running_command (present text cursor : list char) : option (option (list char)) :=
  if bool_decide (present = str "0") then
    if parse_absent_active_text present text cursor then Some None else None
  else if bool_decide (present = str "1") && bool_decide (cursor = []) then
    Some (if is_valid_running_command text then Some text else None)
  else None.

Inductive ShellReportFormat := V1 | V2.
#[global] Instance ShellReportFormat_eq_dec : EqDecision ShellReportFormat.
Proof. solve_decision. Defined.

Definition parse_format (magic : list char) : option ShellReportFormat :=
  if bool_decide (magic = REPORT_MAGIC_V1) then Some V1
  else if bool_decide (magic = REPORT_MAGIC_V2) then Some V2 else None.

(** The command line and the running command *)
Definition parse_active (format : ShellReportFormat) (phase : PromptPhase) (present text cursor : list char) :
    option (option CommandLine.t * option (list char)) :=
  match format with
  | V1 => line ← parse_command_line present text cursor; Some (line, None)
  | V2 =>
      match phase with
      | AtPrompt | Editing => line ← parse_command_line present text cursor; Some (line, None)
      | Running => command ← parse_running_command present text cursor; Some (None, command)
      | PhaseUnknown => if parse_absent_active_text present text cursor then Some (None, None) else None
      end
  end.

(** What is reported without the capability to report it *)
Definition unadvertised (format : ShellReportFormat) (c : ShellCapabilities.t) (cwd : option (list char))
    (phase : PromptPhase) (line : option CommandLine.t) (present : list char) : bool :=
  bool_decide (is_Some cwd) && negb (ShellCapabilities.reports_cwd c)
  || bool_decide (is_Some line) && negb (ShellCapabilities.reports_command_line c)
  || bool_decide (is_Some (line ≫= CommandLine.cursor_scalar_offset)) && negb (ShellCapabilities.reports_cursor c)
  || bool_decide (format = V2) && bool_decide (phase = Running) && bool_decide (present = str "1")
     && negb (ShellCapabilities.reports_running_command c)
  || negb (bool_decide (phase = PhaseUnknown)) && negb (ShellCapabilities.reports_prompt_phase c).

Definition parse_report (fields : list (list N)) : option ShellReport.t :=
  match fields with
  | [magic; shell_type; integration_version; capabilities; cwd; prompt_phase; present; text; cursor] =>
      format ← utf8_ok magic ≫= parse_format;
      shell_type ← utf8_ok shell_type ≫= parse_shell_type;
      integration_version ← utf8_ok integration_version ≫= parse_optional_u16;
      capabilities ← utf8_ok capabilities ≫= parse_capabilities;
      cwd ← parse_optional_text <$> utf8_ok cwd;
      phase ← utf8_ok prompt_phase ≫= parse_prompt_phase;
      present ← utf8_ok present;
      text ← utf8_ok text;
      cursor ← utf8_ok cursor;
      '(line, command) ← parse_active format phase present text cursor;
      if unadvertised format capabilities cwd phase line present then None
      else Some (ShellReport.Mk (ShellDescriptor.Mk shell_type integration_version capabilities) cwd phase line command)
  | _ => None
  end.

(** * Records *)

Module RecordParser.
Record t := Mk {
  fields : list (list N); field : list N; record_bytes : N; discard_delimiters_remaining : option nat }.
Definition default : t := Mk [] [] 0 None.

Definition complete_field (p : t) : option ShellReport.t * t :=
  let fields := fields p ++ [field p] in
  if decide (length fields = REPORT_FIELD_COUNT)
  then (parse_report fields, Mk [] [] 0 (discard_delimiters_remaining p))
  else (None, Mk fields [] (record_bytes p) (discard_delimiters_remaining p)).

Definition discard_record (p : t) : t := Mk [] [] 0 (Some (REPORT_FIELD_COUNT - length (fields p))).

Definition discard_byte (byte : N) (p : t) : t :=
  if decide (byte ≠ 0)%N then p else
  match discard_delimiters_remaining p with
  | None => p
  | Some remaining =>
      Mk (fields p) (field p) (record_bytes p) (if decide (remaining ≤ 1) then None else Some (remaining - 1))
  end.

Definition push_byte (byte : N) (p : t) : option ShellReport.t * t :=
  if decide (is_Some (discard_delimiters_remaining p)) then (None, discard_byte byte p)
  else if decide (byte = 0)%N then complete_field p
  else if decide (MAX_FIELD_BYTES ≤ length (field p) ∨ (MAX_RECORD_BYTES ≤ record_bytes p)%N) then (None, discard_record p)
  else (None, Mk (fields p) (field p ++ [byte]) (record_bytes p + 1) (discard_delimiters_remaining p)).

(** The reports [on_report] is given, in order *)
Fixpoint push (bytes : list N) (p : t) : list ShellReport.t * t :=
  match bytes with
  | [] => ([], p)
  | byte :: bytes =>
      let '(report, p) := push_byte byte p in
      let '(reports, p) := push bytes p in
      (option_list report ++ reports, p)
  end.
End RecordParser.

Import RecordParser.

Lemma push_app a b p :
  push (a ++ b) p = let '(rs, p) := push a p in let '(rs', p) := push b p in (rs ++ rs', p).
Proof.
  revert p. induction a as [|byte a IH]; intros p; cbn [push app]; [by destruct (push b p)|].
  destruct (push_byte byte p) as [r p1]. rewrite IH. destruct (push a p1) as [rs p2]. destruct (push b p2) as [rs' p3].
  by rewrite app_assoc.
Qed.

(** * Records as lists of fields *)

(** The bytes of fields, each ended by a zero *)
Definition spell (fields : list (list N)) : list N := mjoin ((λ f, f ++ [0%N]) <$> fields).

Definition zero_free (field : list N) : Prop := Forall (λ b, b ≠ 0%N) field.

Record well_delimited (record : list (list N)) : Prop := {
  wd_count : length record = REPORT_FIELD_COUNT;
  wd_fields : Forall zero_free record }.

Fixpoint fits (n : N) (fields : list (list N)) : bool :=
  match fields with
  | [] => true
  | f :: fields =>
      bool_decide (length f ≤ MAX_FIELD_BYTES) && bool_decide (f = [] ∨ (n + N.of_nat (length f) ≤ MAX_RECORD_BYTES)%N) &&
      fits (n + N.of_nat (length f)) fields
  end.

(** What one record reports *)
Definition report_of (record : list (list N)) : option ShellReport.t :=
  if fits 0 record then parse_report record else None.

Lemma push_bytes f : zero_free f → ∀ fs pre n,
  length (pre ++ f) ≤ MAX_FIELD_BYTES → f = [] ∨ (n + N.of_nat (length f) ≤ MAX_RECORD_BYTES)%N →
  push f (Mk fs pre n None) = ([], Mk fs (pre ++ f) (n + N.of_nat (length f)) None).
Proof.
  induction 1 as [|b f Hb _ IH]; intros fs pre n Hl Hn; cbn [push]; [by rewrite app_nil_r, N.add_0_r|].
  rewrite length_app in Hl. cbn [length] in *. destruct Hn as [|Hn]; [done|].
  unfold push_byte. cbn [discard_delimiters_remaining field record_bytes fields].
  rewrite decide_False by (by intros []). rewrite decide_False by done. rewrite decide_False by lia.
  rewrite IH; [|rewrite !length_app; cbn [length]; lia|right; lia]. cbn. rewrite <- app_assoc. f_equal. f_equal. lia.
Qed.

(** Inside a record to be skipped only zeros count. *)
Lemma push_skipped f : zero_free f → ∀ r, push f (Mk [] [] 0 (Some r)) = ([], Mk [] [] 0 (Some r)).
Proof.
  induction 1 as [|b f Hb _ IH]; intros r; [done|]. cbn [push]. unfold push_byte.
  cbn [discard_delimiters_remaining]. rewrite decide_True by done. unfold discard_byte. rewrite decide_True by done.
  by rewrite IH.
Qed.

Lemma push_skip fields : Forall zero_free fields → fields ≠ [] →
  push (spell fields) (Mk [] [] 0 (Some (length fields))) = ([], default).
Proof.
  induction 1 as [|f fields Hf _ IH]; intros Hne; [done|]. change (spell (f :: fields)) with ((f ++ [0%N]) ++ spell fields).
  rewrite push_app, push_app, push_skipped by done. cbn [push]. unfold push_byte.
  cbn [discard_delimiters_remaining]. rewrite decide_True by done. unfold discard_byte.
  rewrite decide_False by (by intros ?). cbn [length RecordParser.fields field record_bytes discard_delimiters_remaining].
  destruct fields as [|f' fields]; [done|]. rewrite decide_False by (cbn; lia).
  replace (S (length (f' :: fields)) - 1) with (length (f' :: fields)) by lia.
  by rewrite IH.
Qed.

(** A field that is too long turns the rest of the record into bytes to skip. *)
Lemma push_too_long f fs n : zero_free f → ∀ pre, length pre ≤ MAX_FIELD_BYTES →
  ¬ (length (pre ++ f) ≤ MAX_FIELD_BYTES ∧ (f = [] ∨ (n + N.of_nat (length f) ≤ MAX_RECORD_BYTES)%N)) →
  push f (Mk fs pre n None) = ([], Mk [] [] 0 (Some (REPORT_FIELD_COUNT - length fs))).
Proof.
  intros Hf. revert n. induction Hf as [|b f Hb Hf IH]; intros n pre Hpre Hlong.
  { exfalso. apply Hlong. rewrite app_nil_r. auto. }
  cbn [push]. unfold push_byte. cbn [discard_delimiters_remaining field record_bytes fields].
  rewrite decide_False by (by intros []). rewrite decide_False by done. case_decide as Hd.
  - unfold discard_record. cbn [fields]. by rewrite push_skipped.
  - assert (length pre < MAX_FIELD_BYTES ∧ (n < MAX_RECORD_BYTES)%N) as [Hd1 Hd2] by lia. rewrite IH; [done|rewrite length_app; cbn [length]; lia|].
    rewrite length_app in Hlong |- *. rewrite length_app. cbn [length] in *.
    intros [Hl Hn]. apply Hlong. split; [lia|]. right. destruct Hn as [->|Hn]; cbn [length] in *; lia.
Qed.

(** The rest of a record, [fs] and [n] bytes into it *)
Lemma push_fields fields : Forall zero_free fields → ∀ fs n, fields ≠ [] →
  length fs + length fields = REPORT_FIELD_COUNT →
  push (spell fields) (Mk fs [] n None) =
    (option_list (if fits n fields then parse_report (fs ++ fields) else None), default).
Proof.
  induction 1 as [|f fields Hf Hfs IH]; intros fs n Hne Hlen; [done|].
  change (spell (f :: fields)) with ((f ++ [0%N]) ++ spell fields). cbn [fits].
  destruct (bool_decide (length f ≤ MAX_FIELD_BYTES) && bool_decide (f = [] ∨ (n + N.of_nat (length f) ≤ MAX_RECORD_BYTES)%N)) eqn:E.
  - apply andb_true_iff in E as [E1%bool_decide_eq_true E2%bool_decide_eq_true]. cbn [andb].
    rewrite push_app, push_app, (push_bytes f Hf) by done. cbn [push app]. unfold push_byte.
    cbn [discard_delimiters_remaining]. rewrite decide_False by (by intros []). rewrite decide_True by done.
    unfold complete_field. cbn [RecordParser.fields field record_bytes discard_delimiters_remaining].
    destruct fields as [|f' fields].
    + rewrite decide_True by (rewrite length_app; cbn in *; lia). cbn [fits spell]. cbn. by rewrite !app_nil_r.
    + rewrite decide_False by (rewrite length_app; cbn in *; lia).
      rewrite IH; [|done|rewrite length_app; cbn in *; lia]. by rewrite <- (app_assoc fs).
  - rewrite push_app, push_app. rewrite (push_too_long f fs n Hf []); [|apply Nat.le_0_l|].
    2:{ cbn [app]. intros [H1 H2]. apply andb_false_iff in E as [E%bool_decide_eq_false|E%bool_decide_eq_false]; done. }
    cbn [push]. unfold push_byte. cbn [discard_delimiters_remaining]. rewrite decide_True by done.
    unfold discard_byte. rewrite decide_False by (by intros ?).
    cbn [RecordParser.fields field record_bytes discard_delimiters_remaining andb option_list].
    cbn [length] in Hlen. destruct fields as [|f' fields].
    + rewrite decide_True by (cbn [length] in Hlen; lia). done.
    + rewrite decide_False by (cbn [length] in *; lia).
      replace (REPORT_FIELD_COUNT - length fs - 1) with (length (f' :: fields)) by (cbn [length] in *; lia).
      by rewrite push_skip.
Qed.

(** Any number of records, in pieces or not, are read one by one. *)
Lemma push_records records : Forall well_delimited records →
  push (mjoin (spell <$> records)) default = (omap report_of records, default).
Proof.
  induction 1 as [|record records [Hc Hf] _ IH]; [done|].
  change (mjoin (spell <$> record :: records)) with (spell record ++ mjoin (spell <$> records)).
  rewrite push_app. unfold default at 1. rewrite push_fields; [|done|by intros ->|done]. rewrite IH.
  unfold report_of at 2. cbn [app omap list_omap]. fold (report_of record).
  change (if fits 0 record then parse_report record else None) with (report_of record).
  by destruct (report_of record).
Qed.

(** The reads of a report pipe, one after another *)
Fixpoint push_all (reads : list (list N)) (p : t) : list ShellReport.t * t :=
  match reads with
  | [] => ([], p)
  | bytes :: reads =>
      let '(reports, p) := push bytes p in
      let '(reports', p) := push_all reads p in
      (reports ++ reports', p)
  end.

Lemma push_all_join reads : ∀ p, push_all reads p = push (mjoin reads) p.
Proof.
  induction reads as [|bytes reads IH]; intros p; [done|]. cbn [push_all].
  change (mjoin (bytes :: reads)) with (bytes ++ mjoin reads). rewrite push_app.
  destruct (push bytes p) as [reports p1]. by rewrite IH.
Qed.
