(* ===== verification/LiveTerminal.v ===== *)
(** The state of a terminal in the daemon (TerminalState and GeometryCheckpoint of
    ctmux/daemon/src/session.rs; the module is called [LiveTerminal] because the emulator's
    checkpoint has a [TerminalState] too): what output, resizes and shell reports do to it.

    [feed_terminal_bytes_inner] decodes the bytes of the process, drives the emulator and
    the observers character by character, follows switches of the alternate screen and
    clears the retained history; [refresh_checkpoint] captures the screen as text with the
    history above it.  [None] is a panic.  The text a home directory is abbreviated to is
    an argument: it depends on the environment and on the paths of the platform. *)

From S2P Require Import Prelude.
From S2P Require Import Cells.
From S2P Require Import Lines.
From S2P Require Import Buffers.
From S2P Require Import Functions.
From S2P Require Import Terminal.
From S2P Require Import Parser.
From S2P Require Import Vt.
From S2P Require Import Dump.
From S2P Require Import Layout.
From S2P Require Import Journal.
From S2P Require Import Utf8.
From S2P Require Import Observers.
From S2P Require Import History.
From S2P Require Import Retention.
From S2P Require Import ShellState.
From S2P Require Import ShellReports.
From Stdlib Require Import Init.Byte Strings.Byte.
From stdpp Require Import strings.

Definition TERMINAL_SCROLLBACK_MAX_ROWS : N := 10000.
Definition TERMINAL_SCROLLBACK_MAX_CELLS : N := 1000000.
Definition TERMINAL_FEED_CELL_BUDGET : N := 16 * 1024.
Definition TERMINAL_HISTORY_CAPACITY_BYTES : N := 4 * 1024 * 1024.
Definition TERMINAL_CHECKPOINT_FORMAT : string := "ctmux_vt_state".
Definition TERMINAL_CHECKPOINT_FORMAT_VERSION : N := 1.

Module TerminalCheckpoint.
Record t := Mk {
  format : string; format_version : N; sequence : N; terminal_size : TerminalSize.t;
  payload : list N; input_prefix : list N }.
End TerminalCheckpoint.

Module HistoryStatisticsCache.
Record t := Mk { sequence : N; geometry_revision : N; history_generation : N; retained_bytes : N }.
End HistoryStatisticsCache.

Module GeometryCheckpoint.
Record t := Mk {
  checkpoint : TerminalCheckpoint.t; checkpoint_keyboard_prefix_bytes : nat;
  history : HistorySnapshot.t; history_rows : PhysicalHistory.t; geometry_revision : N }.
End GeometryCheckpoint.

Module LiveTerminal.
Record t := Mk {
  terminal : Vt.t;
  input_modes : InputModes.t;
  history_control_parser : Parser.t;
  history_clear_pending : bool;
  history_alternate_screen : bool;
  primary_reflow_pending : bool;
  primary_history_rows : PhysicalHistory.t;
  history_statistics : option HistoryStatisticsCache.t;
  history : TerminalHistory.t;
  checkpoint_history : HistorySnapshot.t;
  checkpoint_history_rows : PhysicalHistory.t;
  pending_input : list N;
  journal : OutputJournal.t;
  checkpoint : TerminalCheckpoint.t;
  checkpoint_keyboard_prefix_bytes : nat;
  checkpoint_geometry_revision : N;
  terminal_size : TerminalSize.t;
  geometry_revision : N;
  last_geometry_change_sequence : option N;
  last_geometry_checkpoint : option GeometryCheckpoint.t;
  shell_state : ShellState.t;
  native_cwd : option (list char);
  reported_cwd : option (list char);
  alternate_screen : AlternateScreenTracker.t }.

Definition set_terminal (x : Vt.t) (s : t) : t :=
  Mk x (input_modes s) (history_control_parser s) (history_clear_pending s)
     (history_alternate_screen s) (primary_reflow_pending s) (primary_history_rows s) (history_statistics s)
     (history s) (checkpoint_history s) (checkpoint_history_rows s) (pending_input s)
     (journal s) (checkpoint s) (checkpoint_keyboard_prefix_bytes s) (checkpoint_geometry_revision s)
     (terminal_size s) (geometry_revision s) (last_geometry_change_sequence s) (last_geometry_checkpoint s)
     (shell_state s) (native_cwd s) (reported_cwd s) (alternate_screen s).
Definition set_input_modes (x : InputModes.t) (s : t) : t :=
  Mk (terminal s) x (history_control_parser s) (history_clear_pending s)
     (history_alternate_screen s) (primary_reflow_pending s) (primary_history_rows s) (history_statistics s)
     (history s) (checkpoint_history s) (checkpoint_history_rows s) (pending_input s)
     (journal s) (checkpoint s) (checkpoint_keyboard_prefix_bytes s) (checkpoint_geometry_revision s)
     (terminal_size s) (geometry_revision s) (last_geometry_change_sequence s) (last_geometry_checkpoint s)
     (shell_state s) (native_cwd s) (reported_cwd s) (alternate_screen s).
Definition set_history_control_parser (x : Parser.t) (s : t) : t :=
  Mk (terminal s) (input_modes s) x (history_clear_pending s)
     (history_alternate_screen s) (primary_reflow_pending s) (primary_history_rows s) (history_statistics s)
     (history s) (checkpoint_history s) (checkpoint_history_rows s) (pending_input s)
     (journal s) (checkpoint s) (checkpoint_keyboard_prefix_bytes s) (checkpoint_geometry_revision s)
     (terminal_size s) (geometry_revision s) (last_geometry_change_sequence s) (last_geometry_checkpoint s)
     (shell_state s) (native_cwd s) (reported_cwd s) (alternate_screen s).
Definition set_history_clear_pending (x : bool) (s : t) : t :=
  Mk (terminal s) (input_modes s) (history_control_parser s) x
     (history_alternate_screen s) (primary_reflow_pending s) (primary_history_rows s) (history_statistics s)
     (history s) (checkpoint_history s) (checkpoint_history_rows s) (pending_input s)
     (journal s) (checkpoint s) (checkpoint_keyboard_prefix_bytes s) (checkpoint_geometry_revision s)
     (terminal_size s) (geometry_revision s) (last_geometry_change_sequence s) (last_geometry_checkpoint s)
     (shell_state s) (native_cwd s) (reported_cwd s) (alternate_screen s).
Definition set_history_alternate_screen (x : bool) (s : t) : t :=
  Mk (terminal s) (input_modes s) (history_control_parser s) (history_clear_pending s)
     x (primary_reflow_pending s) (primary_history_rows s) (history_statistics s)
     (history s) (checkpoint_history s) (checkpoint_history_rows s) (pending_input s)
     (journal s) (checkpoint s) (checkpoint_keyboard_prefix_bytes s) (checkpoint_geometry_revision s)
     (terminal_size s) (geometry_revision s) (last_geometry_change_sequence s) (last_geometry_checkpoint s)
     (shell_state s) (native_cwd s) (reported_cwd s) (alternate_screen s).
Definition set_primary_reflow_pending (x : bool) (s : t) : t :=
  Mk (terminal s) (input_modes s) (history_control_parser s) (history_clear_pending s)
     (history_alternate_screen s) x (primary_history_rows s) (history_statistics s)
     (history s) (checkpoint_history s) (checkpoint_history_rows s) (pending_input s)
     (journal s) (checkpoint s) (checkpoint_keyboard_prefix_bytes s) (checkpoint_geometry_revision s)
     (terminal_size s) (geometry_revision s) (last_geometry_change_sequence s) (last_geometry_checkpoint s)
     (shell_state s) (native_cwd s) (reported_cwd s) (alternate_screen s).
Definition set_primary_history_rows (x : PhysicalHistory.t) (s : t) : t :=
  Mk (terminal s) (input_modes s) (history_control_parser s) (history_clear_pending s)
     (history_alternate_screen s) (primary_reflow_pending s) x (history_statistics s)
     (history s) (checkpoint_history s) (checkpoint_history_rows s) (pending_input s)
     (journal s) (checkpoint s) (checkpoint_keyboard_prefix_bytes s) (checkpoint_geometry_revision s)
     (terminal_size s) (geometry_revision s) (last_geometry_change_sequence s) (last_geometry_checkpoint s)
     (shell_state s) (native_cwd s) (reported_cwd s) (alternate_screen s).
Definition set_history_statistics (x : option HistoryStatisticsCache.t) (s : t) : t :=
  Mk (terminal s) (input_modes s) (history_control_parser s) (history_clear_pending s)
     (history_alternate_screen s) (primary_reflow_pending s) (primary_history_rows s) x
     (history s) (checkpoint_history s) (checkpoint_history_rows s) (pending_input s)
     (journal s) (checkpoint s) (checkpoint_keyboard_prefix_bytes s) (checkpoint_geometry_revision s)
     (terminal_size s) (geometry_revision s) (last_geometry_change_sequence s) (last_geometry_checkpoint s)
     (shell_state s) (native_cwd s) (reported_cwd s) (alternate_screen s).
Definition set_history (x : TerminalHistory.t) (s : t) : t :=
  Mk (terminal s) (input_modes s) (history_control_parser s) (history_clear_pending s)
     (history_alternate_screen s) (primary_reflow_pending s) (primary_history_rows s) (history_statistics s)
     x (checkpoint_history s) (checkpoint_history_rows s) (pending_input s)
     (journal s) (checkpoint s) (checkpoint_keyboard_prefix_bytes s) (checkpoint_geometry_revision s)
     (terminal_size s) (geometry_revision s) (last_geometry_change_sequence s) (last_geometry_checkpoint s)
     (shell_state s) (native_cwd s) (reported_cwd s) (alternate_screen s).
Definition set_pending_input (x : list N) (s : t) : t :=
  Mk (terminal s) (input_modes s) (history_control_parser s) (history_clear_pending s)
     (history_alternate_screen s) (primary_reflow_pending s) (primary_history_rows s) (history_statistics s)
     (history s) (checkpoint_history s) (checkpoint_history_rows s) x
     (journal s) (checkpoint s) (checkpoint_keyboard_prefix_bytes s) (checkpoint_geometry_revision s)
     (terminal_size s) (geometry_revision s) (last_geometry_change_sequence s) (last_geometry_checkpoint s)
     (shell_state s) (native_cwd s) (reported_cwd s) (alternate_screen s).
Definition set_journal (x : OutputJournal.t) (s : t) : t :=
  Mk (terminal s) (input_modes s) (history_control_parser s) (history_clear_pending s)
     (history_alternate_screen s) (primary_reflow_pending s) (primary_history_rows s) (history_statistics s)
     (history s) (checkpoint_history s) (checkpoint_history_rows s) (pending_input s)
     x (checkpoint s) (checkpoint_keyboard_prefix_bytes s) (checkpoint_geometry_revision s)
     (terminal_size s) (geometry_revision s) (last_geometry_change_sequence s) (last_geometry_checkpoint s)
     (shell_state s) (native_cwd s) (reported_cwd s) (alternate_screen s).
Definition set_terminal_size (x : TerminalSize.t) (s : t) : t :=
  Mk (terminal s) (input_modes s) (history_control_parser s) (history_clear_pending s)
     (history_alternate_screen s) (primary_reflow_pending s) (primary_history_rows s) (history_statistics s)
     (history s) (checkpoint_history s) (checkpoint_history_rows s) (pending_input s)
     (journal s) (checkpoint s) (checkpoint_keyboard_prefix_bytes s) (checkpoint_geometry_revision s)
     x (geometry_revision s) (last_geometry_change_sequence s) (last_geometry_checkpoint s)
     (shell_state s) (native_cwd s) (reported_cwd s) (alternate_screen s).
Definition set_geometry_revision (x : N) (s : t) : t :=
  Mk (terminal s) (input_modes s) (history_control_parser s) (history_clear_pending s)
     (history_alternate_screen s) (primary_reflow_pending s) (primary_history_rows s) (history_statistics s)
     (history s) (checkpoint_history s) (checkpoint_history_rows s) (pending_input s)
     (journal s) (checkpoint s) (checkpoint_keyboard_prefix_bytes s) (checkpoint_geometry_revision s)
     (terminal_size s) x (last_geometry_change_sequence s) (last_geometry_checkpoint s)
     (shell_state s) (native_cwd s) (reported_cwd s) (alternate_screen s).
Definition set_last_geometry_change_sequence (x : option N) (s : t) : t :=
  Mk (terminal s) (input_modes s) (history_control_parser s) (history_clear_pending s)
     (history_alternate_screen s) (primary_reflow_pending s) (primary_history_rows s) (history_statistics s)
     (history s) (checkpoint_history s) (checkpoint_history_rows s) (pending_input s)
     (journal s) (checkpoint s) (checkpoint_keyboard_prefix_bytes s) (checkpoint_geometry_revision s)
     (terminal_size s) (geometry_revision s) x (last_geometry_checkpoint s)
     (shell_state s) (native_cwd s) (reported_cwd s) (alternate_screen s).
Definition set_last_geometry_checkpoint (x : option GeometryCheckpoint.t) (s : t) : t :=
  Mk (terminal s) (input_modes s) (history_control_parser s) (history_clear_pending s)
     (history_alternate_screen s) (primary_reflow_pending s) (primary_history_rows s) (history_statistics s)
     (history s) (checkpoint_history s) (checkpoint_history_rows s) (pending_input s)
     (journal s) (checkpoint s) (checkpoint_keyboard_prefix_bytes s) (checkpoint_geometry_revision s)
     (terminal_size s) (geometry_revision s) (last_geometry_change_sequence s) x
     (shell_state s) (native_cwd s) (reported_cwd s) (alternate_screen s).
Definition set_shell_state (x : ShellState.t) (s : t) : t :=
  Mk (terminal s) (input_modes s) (history_control_parser s) (history_clear_pending s)
     (history_alternate_screen s) (primary_reflow_pending s) (primary_history_rows s) (history_statistics s)
     (history s) (checkpoint_history s) (checkpoint_history_rows s) (pending_input s)
     (journal s) (checkpoint s) (checkpoint_keyboard_prefix_bytes s) (checkpoint_geometry_revision s)
     (terminal_size s) (geometry_revision s) (last_geometry_change_sequence s) (last_geometry_checkpoint s)
     x (native_cwd s) (reported_cwd s) (alternate_screen s).
Definition set_alternate_screen (x : AlternateScreenTracker.t) (s : t) : t :=
  Mk (terminal s) (input_modes s) (history_control_parser s) (history_clear_pending s)
     (history_alternate_screen s) (primary_reflow_pending s) (primary_history_rows s) (history_statistics s)
     (history s) (checkpoint_history s) (checkpoint_history_rows s) (pending_input s)
     (journal s) (checkpoint s) (checkpoint_keyboard_prefix_bytes s) (checkpoint_geometry_revision s)
     (terminal_size s) (geometry_revision s) (last_geometry_change_sequence s) (last_geometry_checkpoint s)
     (shell_state s) (native_cwd s) (reported_cwd s) x.
(** What [refresh_checkpoint] stores *)
Definition set_captured (c : TerminalCheckpoint.t) (prefix : nat) (h : HistorySnapshot.t) (rows : PhysicalHistory.t) (rev : N) (s : t) : t :=
  Mk (terminal s) (input_modes s) (history_control_parser s) (history_clear_pending s)
     (history_alternate_screen s) (primary_reflow_pending s) (primary_history_rows s) (history_statistics s)
     (history s) h rows (pending_input s)
     (journal s) c prefix rev
     (terminal_size s) (geometry_revision s) (last_geometry_change_sequence s) (last_geometry_checkpoint s)
     (shell_state s) (native_cwd s) (reported_cwd s) (alternate_screen s).
Definition set_cwds (native reported : option (list char)) (s : t) : t :=
  Mk (terminal s) (input_modes s) (history_control_parser s) (history_clear_pending s)
     (history_alternate_screen s) (primary_reflow_pending s) (primary_history_rows s) (history_statistics s)
     (history s) (checkpoint_history s) (checkpoint_history_rows s) (pending_input s)
     (journal s) (checkpoint s) (checkpoint_keyboard_prefix_bytes s) (checkpoint_geometry_revision s)
     (terminal_size s) (geometry_revision s) (last_geometry_change_sequence s) (last_geometry_checkpoint s)
     (shell_state s) native reported (alternate_screen s).
End LiveTerminal.
Import LiveTerminal.

Section live.
Context `{UnicodeWidth}.
Implicit Types (s : LiveTerminal.t) (size : TerminalSize.t) (ch : char) (hint : option TuiHint).

Definition columns_of size : nat := N.to_nat (TerminalSize.columns size).
Definition rows_of size : nat := N.to_nat (TerminalSize.rows size).

(** * Emulators *)

Definition terminal_scrollback_rows size : nat :=
  N.to_nat (TERMINAL_SCROLLBACK_MAX_ROWS `min` (TERMINAL_SCROLLBACK_MAX_CELLS / (TerminalSize.columns size `max` 1)))%N.

Definition terminal_emulator size : option Vt.t :=
  Vt.Builder.build (Vt.Builder.Mk (columns_of size, rows_of size) (Some (terminal_scrollback_rows size)) false).

(** * History *)

(** [terminal.lines().skip(history_rows - retained_rows).take(retained_rows)] *)
Definition history_lines s : nat * list Line.t :=
  let lines := Vt.all_lines (terminal s) in
  let history_rows := length lines - rows_of (terminal_size s) in
  let retained_rows := history_rows `min` terminal_scrollback_rows (terminal_size s) in
  (history_rows, take retained_rows (drop (history_rows - retained_rows) lines)).

(** A row continues when the unwrapper holds it back. *)
Fixpoint capture_rows (lines : list Line.t) (unwrapper : TextUnwrapper.t) : option (list HistoryRow.t) :=
  match lines with
  | [] => Some []
  | line :: lines =>
      let '(unwrapper, complete) := TextUnwrapper.push line unwrapper in
      row ← capture_row line (bool_decide (complete = None));
      rows ← capture_rows lines unwrapper;
      Some (row :: rows)
  end.

Definition refresh_history s : option LiveTerminal.t :=
  let limit := terminal_scrollback_rows (terminal_size s) in
  if history_alternate_screen s then
    let rows := PhysicalHistory.rows (primary_history_rows s) in
    if decide (limit < length rows) then
      physical ← PhysicalHistory.replace (primary_history_rows s) (drop (length rows - limit) rows);
      history ← TerminalHistory.replace (PhysicalHistory.lines physical) true (history s);
      Some (set_history history (set_primary_history_rows physical s))
    else Some s
  else
    let '(history_rows, lines) := history_lines s in
    let source_truncated := bool_decide (limit ≤ history_rows) in
    rows ← capture_rows lines TextUnwrapper.new;
    physical ← PhysicalHistory.replace (primary_history_rows s) rows;
    history ← TerminalHistory.replace (PhysicalHistory.lines physical) source_truncated (history s);
    Some (set_history history (set_primary_history_rows physical s)).

(** * Checkpoints *)

Definition refresh_checkpoint s : option LiveTerminal.t :=
  s ← refresh_history s;
  let keyboard := InputModes.restore_keyboard_sequence (input_modes s) in
  dump ← vt_dump (terminal s);
  let payload := encode_all (keyboard ++ InputModes.restore_sequences (input_modes s) ++ dump) in
  let checkpoint := TerminalCheckpoint.Mk TERMINAL_CHECKPOINT_FORMAT TERMINAL_CHECKPOINT_FORMAT_VERSION
    (OutputJournal.next_sequence (journal s)) (terminal_size s) payload (pending_input s) in
  history ← TerminalHistory.snapshot (TerminalCheckpoint.sequence checkpoint) (history s);
  Some (set_captured checkpoint (length (encode_all keyboard)) history (primary_history_rows s)
          (geometry_revision s) s).

(** The checkpoint just taken, kept as the one of the newest geometry *)
Definition geometry_boundary s : LiveTerminal.t :=
  set_last_geometry_checkpoint
    (Some (GeometryCheckpoint.Mk (checkpoint s) (checkpoint_keyboard_prefix_bytes s) (checkpoint_history s)
             (checkpoint_history_rows s) (geometry_revision s)))
    (set_last_geometry_change_sequence (Some (OutputJournal.next_sequence (journal s))) s).

(** [TerminalState::new] *)
Definition new size (journal_capacity_bytes : nat) (history_capacity_bytes : N) : option LiveTerminal.t :=
  let history := TerminalHistory.new history_capacity_bytes in
  emulator ← terminal_emulator size;
  snapshot ← TerminalHistory.snapshot 0 history;
  refresh_checkpoint
    (Mk emulator InputModes.default Parser.new false false false PhysicalHistory.empty None history snapshot
       PhysicalHistory.empty [] (OutputJournal.new journal_capacity_bytes)
       (TerminalCheckpoint.Mk TERMINAL_CHECKPOINT_FORMAT TERMINAL_CHECKPOINT_FORMAT_VERSION 0 size [] [])
       0 0 size 0 None None ShellState.default None None AlternateScreenTracker.default).

(** * Output *)

(** Replaying the dump of the screen into a fresh emulator drops the rows above it. *)
Definition apply_pending_history_clear s : option LiveTerminal.t :=
  if negb (history_clear_pending s) || history_alternate_screen s then Some s else
  payload ← vt_dump (terminal s);
  replacement ← terminal_emulator (terminal_size s);
  '(replacement, _) ← Vt.feed_str payload replacement;
  Some (set_history_clear_pending false (set_terminal replacement s)).

(** What a completed function tells about the history: [Some reset] when it clears the
    saved lines, with the terminal already reset or not. *)
Definition history_action (function : option Fun.t) s : option (option bool * LiveTerminal.t) :=
  match function with
  | Some (Fun.Decset _ as f) | Some (Fun.Decrst _ as f) =>
      probe ← Terminal.new 2 1 (Some 0);
      probe ← (if history_alternate_screen s
               then modes ← SmallVec.from_vec MODES_INLINE_CAP DecMode.CursorKeys [DecMode.AltScreenBuffer]; Terminal.execute (Fun.Decset modes) probe
               else Some probe);
      probe ← Terminal.execute f probe;
      let alternate := bool_decide (Terminal.active_buffer_type probe = Alternate) in
      s ← (if alternate && negb (history_alternate_screen s) then refresh_history s else Some s);
      Some (None, set_history_alternate_screen alternate s)
  | Some (Fun.Ed EdScope.SavedLines) => Some (Some false, s)
  | Some Fun.Ris => Some (Some true, s)
  | _ => Some (None, s)
  end.

(** [a.or(b)] *)
Definition or_else hint hint' : option TuiHint := match hint with Some _ => hint | None => hint' end.

Definition feed_terminal_character ch s : option (option TuiHint * LiveTerminal.t) :=
  let s := set_input_modes (InputModes.feed ch (input_modes s)).2 s in
  let '(hint, tracker) := AlternateScreenTracker.observe (encode ch) (alternate_screen s) in
  let s := set_alternate_screen tracker s in
  '(parser, function) ← Parser.feed ch (history_control_parser s);
  '(action, s) ← history_action function (set_history_control_parser parser s);
  emulator ← Vt.feed ch (terminal s);
  let s := set_terminal emulator s in
  match action with
  | None => s ← apply_pending_history_clear s; Some (hint, s)
  | Some terminal_already_reset =>
      history ← TerminalHistory.clear (history s);
      physical ← PhysicalHistory.replace (primary_history_rows s) [];
      let s := set_primary_history_rows physical (set_history history s) in
      if terminal_already_reset : bool then
        let s := set_history_clear_pending false (set_history_alternate_screen false s) in
        let '(reset, tracker) := AlternateScreenTracker.reset (alternate_screen s) in
        Some (or_else reset hint, set_alternate_screen tracker s)
      else
        s ← apply_pending_history_clear (set_history_clear_pending true s);
        Some (hint, s)
  end.

(** [terminal.terminal.feed_str("")] *)
Definition collect_garbage s : option LiveTerminal.t :=
  '(emulator, _) ← Vt.feed_str [] (terminal s); Some (set_terminal emulator s).

Fixpoint feed_text_go (gc_interval index : nat) (text : list char) hint s : option (option TuiHint * LiveTerminal.t) :=
  match text with
  | [] => Some (hint, s)
  | ch :: text =>
      '(hint', s) ← feed_terminal_character ch s;
      s ← (if decide ((index + 1) mod gc_interval = 0) then collect_garbage s else Some s);
      feed_text_go gc_interval (index + 1) text (or_else hint' hint) s
  end.

Definition feed_terminal_text (text : list char) s : option (option TuiHint * LiveTerminal.t) :=
  let gc_interval := N.to_nat (TERMINAL_FEED_CELL_BUDGET / (TerminalSize.columns (terminal_size s) `max` 1))%N `max` 1 in
  '(hint, s) ← feed_text_go gc_interval 0 text None s;
  s ← collect_garbage s;
  Some (hint, s).

(** The loop of [feed_terminal_bytes_inner]: every pass but the last shortens the input. *)
Fixpoint feed_bytes_go (fuel : nat) hint s : option (option TuiHint * LiveTerminal.t) :=
  match fuel with
  | 0 => None
  | S fuel =>
      match from_utf8 (pending_input s) with
      | ValidUtf8 valid =>
          '(hint', s) ← feed_terminal_text valid s;
          Some (or_else hint' hint, set_pending_input [] s)
      | InvalidUtf8 valid valid_up_to error_len =>
          if decide (0 < valid_up_to) then
            '(hint', s) ← feed_terminal_text valid s;
            feed_bytes_go fuel (or_else hint' hint) (set_pending_input (drop valid_up_to (pending_input s)) s)
          else
            match error_len with
            | None => Some (hint, s)
            | Some invalid_length =>
                '(hint', s) ← feed_terminal_character REPLACEMENT s;
                feed_bytes_go fuel (or_else hint' hint) (set_pending_input (drop invalid_length (pending_input s)) s)
            end
      end
  end.

Definition feed_terminal_output (data : list N) s : option (option TuiHint * LiveTerminal.t) :=
  let s := set_pending_input (pending_input s ++ data) (set_history_statistics None s) in
  feed_bytes_go (S (length (pending_input s))) None s.
End live.

(** * Shell metadata *)

(** [display_working_directory]: a path with the home directory abbreviated *)
Class HomeDirectory := display_working_directory : list char → list char.

(** An observation of the process of the shell; its path is absent when it is not text. *)
Module ProcessSnapshot.
Record t := Mk {
  shell_pid : N; shell_name : option (list char); cwd : option (list char); foreground : ForegroundProcess }.
End ProcessSnapshot.

Section shell.
Context `{HomeDirectory}.
Implicit Types (s : LiveTerminal.t) (state : ShellState.t).

Definition revise_shell_state s : option (ShellState.t * LiveTerminal.t) :=
  let state := shell_state s in
  revision ← add64 (ShellState.revision state) 1;
  let state := ShellState.Mk revision (OutputJournal.next_sequence (journal s)) (ShellState.shell state)
    (ShellState.cwd state) (ShellState.cwd_source state) (ShellState.process state) (ShellState.cwd_display state)
    (ShellState.prompt_phase state) (ShellState.command_line_redacted state) (ShellState.current_command_line state)
    (ShellState.running_command_redacted state) (ShellState.running_command state) (ShellState.tui_hint state) in
  Some (state, set_shell_state state s).

(** The working directory the shell reports, or else the one the system shows *)
Definition observed_cwd (reported native : option (list char)) : option (list char) * option CwdSource :=
  match reported, native with
  | Some cwd, _ => (Some cwd, Some ShellIntegration)
  | None, Some cwd => (Some cwd, Some Process)
  | None, None => (None, None)
  end.

Definition set_observed_cwd (reported native : option (list char)) state : ShellState.t :=
  let '(cwd, source) := observed_cwd reported native in
  ShellState.Mk (ShellState.revision state) (ShellState.observed_sequence state) (ShellState.shell state)
    cwd source (ShellState.process state) (display_working_directory <$> cwd)
    (ShellState.prompt_phase state) (ShellState.command_line_redacted state) (ShellState.current_command_line state)
    (ShellState.running_command_redacted state) (ShellState.running_command state) (ShellState.tui_hint state).

(** A changed state is stored and published. *)
Definition change_shell_state (candidate : ShellState.t) s : option (option ShellState.t * LiveTerminal.t) :=
  if decide (candidate = shell_state s) then Some (None, s)
  else '(state, s) ← revise_shell_state (set_shell_state candidate s); Some (Some state, s).

Definition apply_shell_report_to_terminal (report : ShellReport.t) s :
    option (option ShellState.t * LiveTerminal.t) :=
  let '(line, command) :=
    match ShellReport.prompt_phase report with
    | AtPrompt | Editing => (ShellReport.current_command_line report, None)
    | Running => (None, ShellReport.running_command report)
    | PhaseUnknown => (None, None)
    end in
  let state := shell_state s in
  let candidate := set_observed_cwd (ShellReport.cwd report) (native_cwd s) state in
  let candidate := ShellState.Mk (ShellState.revision state) (ShellState.observed_sequence state)
    (ShellReport.shell report) (ShellState.cwd candidate) (ShellState.cwd_source candidate)
    (ShellState.process state) (ShellState.cwd_display candidate)
    (ShellReport.prompt_phase report) false line false command (ShellState.tui_hint state) in
  if negb (ShellState.has_valid_metadata candidate) then Some (None, s)
  else change_shell_state candidate (set_cwds (native_cwd s) (ShellReport.cwd report) s).

Definition apply_process_observation_to_terminal (observation : option ProcessSnapshot.t) s :
    option (option ShellState.t * LiveTerminal.t) :=
  let state := shell_state s in
  let native := observation ≫= ProcessSnapshot.cwd in
  let process := (λ o, ShellProcessState.Mk (ProcessSnapshot.shell_pid o) (ProcessSnapshot.shell_name o)
    (ProcessSnapshot.foreground o)) <$> observation in
  let candidate := ShellState.Mk (ShellState.revision state) (ShellState.observed_sequence state)
    (ShellState.shell state) (ShellState.cwd state) (ShellState.cwd_source state) process (ShellState.cwd_display state)
    (ShellState.prompt_phase state) (ShellState.command_line_redacted state) (ShellState.current_command_line state)
    (ShellState.running_command_redacted state) (ShellState.running_command state) (ShellState.tui_hint state) in
  let candidate := set_observed_cwd (reported_cwd s) native candidate in
  if negb (ShellState.has_valid_metadata candidate) then Some (None, s)
  else change_shell_state candidate (set_cwds native (reported_cwd s) s).

(** What [publish_ended] does to the state: nothing of the command or process is left. *)
Definition end_shell_state s : option (option ShellState.t * LiveTerminal.t) :=
  let state := shell_state s in
  if bool_decide (ShellState.current_command_line state = None) &&
     bool_decide (ShellState.running_command state = None) &&
     bool_decide (ShellState.process state = None) && bool_decide (ShellState.prompt_phase state = PhaseUnknown)
  then Some (None, s)
  else
    let state := ShellState.Mk (ShellState.revision state) (ShellState.observed_sequence state)
      (ShellState.shell state) (ShellState.cwd state) (ShellState.cwd_source state) None (ShellState.cwd_display state)
      PhaseUnknown false None false None (ShellState.tui_hint state) in
    '(state, s) ← revise_shell_state (set_shell_state state s);
    Some (Some state, s).

Definition shell_state_for_visibility (may_view_command_line may_view_running_command : bool) s : ShellState.t :=
  ShellState.filtered_for_visibility may_view_command_line may_view_running_command (shell_state s).
End shell.

(** * Publishing *)

Inductive SessionEvent :=
  | Output
  | PtyGeometryChanged (terminal_size : TerminalSize.t) (observed_sequence geometry_revision : N)
  | Ended (exit_code : option N).

Section publishing.
Context `{UnicodeWidth}.
Implicit Types (s : LiveTerminal.t) (size : TerminalSize.t).

Definition refresh_checkpoint_after_output (previous_history_generation checkpoint_interval_bytes : N) s :
    option LiveTerminal.t :=
  let next := OutputJournal.next_sequence (journal s) in
  let checkpoint_is_stale :=
    bool_decide (TerminalCheckpoint.sequence (checkpoint s) < OutputJournal.earliest_sequence (journal s))%N in
  let checkpoint_is_due :=
    bool_decide (checkpoint_interval_bytes ≤ next - TerminalCheckpoint.sequence (checkpoint s))%N in
  let history_was_cleared :=
    negb (bool_decide (previous_history_generation = TerminalHistory.generation (history s))) in
  let primary_reflowed := primary_reflow_pending s && negb (history_alternate_screen s) in
  let replacement_required := history_was_cleared || primary_reflowed in
  s ← (if replacement_required
       then revision ← add64 (geometry_revision s) 1; Some (set_geometry_revision revision s) else Some s);
  s ← (if checkpoint_is_stale || checkpoint_is_due || replacement_required then refresh_checkpoint s else Some s);
  Some (if replacement_required
        then geometry_boundary
               (set_primary_reflow_pending (primary_reflow_pending s && history_alternate_screen s) s)
        else s).

Definition set_tui_hint (hint : TuiHint) s : LiveTerminal.t :=
  let state := shell_state s in
  set_shell_state
    (ShellState.Mk (ShellState.revision state) (ShellState.observed_sequence state) (ShellState.shell state)
       (ShellState.cwd state) (ShellState.cwd_source state) (ShellState.process state) (ShellState.cwd_display state)
       (ShellState.prompt_phase state) (ShellState.command_line_redacted state) (ShellState.current_command_line state)
       (ShellState.running_command_redacted state) (ShellState.running_command state) hint) s.

(** [append_output]: the events sent and the shell state published *)
Definition append_output (checkpoint_interval_bytes : N) (data : list byte) s :
    option (list SessionEvent * option ShellState.t * LiveTerminal.t) :=
  let history_generation := TerminalHistory.generation (history s) in
  '(hint, s) ← feed_terminal_output (Byte.to_N <$> data) s;
  '(chunk, journal) ← OutputJournal.append (journal s) data;
  let s := set_journal journal s in
  '(published, s) ← match hint with
                    | Some hint =>
                        if decide (ShellState.tui_hint (shell_state s) = hint) then Some (None, s)
                        else '(state, s) ← revise_shell_state (set_tui_hint hint s); Some (Some state, s)
                    | None => Some (None, s)
                    end;
  s ← refresh_checkpoint_after_output history_generation checkpoint_interval_bytes s;
  Some (match chunk with Some _ => [Output] | None => [] end, published, s).

(** What [resize_pty] does once the PTY has accepted the size *)
Definition resize_live size s : option (list SessionEvent * LiveTerminal.t) :=
  if decide (terminal_size s = size) then Some ([], s) else
  let s := set_primary_reflow_pending (primary_reflow_pending s || history_alternate_screen s) s in
  '(emulator, _) ← Vt.resize (columns_of size) (rows_of size) (terminal s);
  revision ← add64 (geometry_revision s) 1;
  s ← refresh_checkpoint (set_geometry_revision revision (set_terminal_size size (set_terminal emulator s)));
  let s := geometry_boundary s in
  Some ([PtyGeometryChanged size (OutputJournal.next_sequence (journal s)) (geometry_revision s)], s).

(** * Statistics *)

Definition fresh_retained_bytes s : N :=
  if history_alternate_screen s then PhysicalHistory.retained_text_bytes (primary_history_rows s)
  else
    foldl saturating_add64 0%N
      ((λ line, byte_len (trim_end line) + 1)%N <$> (TextUnwrapper.push_all (history_lines s).2 TextUnwrapper.new).2).

Definition retained_history_statistics s : N * LiveTerminal.t :=
  let sequence := OutputJournal.next_sequence (journal s) in
  let count :=
    let bytes := fresh_retained_bytes s in
    (bytes, set_history_statistics
       (Some (HistoryStatisticsCache.Mk sequence (geometry_revision s) (TerminalHistory.generation (history s)) bytes)) s) in
  match history_statistics s with
  | Some cached =>
      if bool_decide (HistoryStatisticsCache.sequence cached = sequence) &&
         bool_decide (HistoryStatisticsCache.geometry_revision cached = geometry_revision s) &&
         bool_decide (HistoryStatisticsCache.history_generation cached = TerminalHistory.generation (history s))
      then (HistoryStatisticsCache.retained_bytes cached, s) else count
  | None => count
  end.
End publishing.
