(* ===== verification/CoreTheorems.v ===== *)
(** The properties of the multiplexer's portable state (ctmux/core): leases, the output
    journal, the observers of application output and literal history rows. *)

From S2P Require Import Prelude.
From S2P Require Import Cells.
From S2P Require Import Lines.
From S2P Require Import Layout.
From S2P Require Import Leases.
From S2P Require Import Journal.
From S2P Require Import Observers.
From S2P Require Import ObserversInv.
From S2P Require Import History.
From S2P Require Import HistoryInv.
From Stdlib Require Import NArith.
From Stdlib Require Import Init.Byte.
From stdpp Require Import strings.

(** * Leases *)

(** A lease is never stolen: whoever owns one keeps it through every operation of
    every attachment until it releases that lease or detaches, and whoever gets one
    asked for it while it was free. *)
Theorem lease_never_stolen (r : LeaseRegistry.t) (events : list LeaseEvent) (k : LeaseKind) :
  (∀ a, LeaseRegistry.lease_owner r k = Some a → ¬ Exists (gives_up a k) events →
        LeaseRegistry.lease_owner (lease_run r events) k = Some a) ∧
  (∀ a e, LeaseRegistry.lease_owner (lease_step r e) k = Some a →
          LeaseRegistry.lease_owner r k = Some a ∨
          LeaseRegistry.lease_owner r k = None ∧ claims a k e).
Proof.
  split.
  - intros a Ho Hn. apply lease_kept; [done|]. by apply Forall_Exists_neg.
  - intros a e He. destruct (lease_step_owner r e k a He) as [[? _]|]; [by left|by right].
Qed.

(** * Output *)

(** C8. A journal stands for the output stream it was fed: whatever the chunks, it
    retains exactly the last bytes that fit its capacity, and a snapshot from a sequence
    is refused when the sequence is ahead of the stream, and otherwise holds, in
    contiguous non-empty chunks, exactly the stream from that sequence or from the oldest
    byte retained, saying whether there is a gap. *)
Theorem journal_refines_stream (capacity : nat) (outputs : list (list byte)) (requested : option N)
    (Hlen : (N.of_nat (length (mjoin outputs)) ≤ u64_MAX)%N) :
  (j ← append_all (OutputJournal.new capacity) outputs; OutputJournal.snapshot_from j requested)
    ⇓ snapshot_of capacity (mjoin outputs) requested.
Proof.
  eapply Safe_bind; [apply (append_all_journal capacity [] _ outputs (new_journal capacity) Hlen)|].
  intros j Hj. by apply snapshot_from_spec.
Qed.

Lemma journal_refines_stream_witness :
  (j ← append_all (OutputJournal.new 5) [[x61; x62; x63]; []; [x64; x65; x66; x67]];
   OutputJournal.snapshot_from j (Some 1%N)) =
    Some (inr (JournalSnapshot.Mk 2 7 2 true
                 [OutputChunk.Mk 2 [x63]; OutputChunk.Mk 3 [x64; x65; x66; x67]])).
Proof.
  destruct (Safe_elim _ _ (journal_refines_stream 5 [[x61; x62; x63]; []; [x64; x65; x66; x67]] (Some 1%N)
    ltac:(vm_compute; done))) as (snapshot & E & _).
  transitivity (Some snapshot); [exact E|]. vm_compute in E. injection E as <-. reflexivity.
Defined.

(** * Observers *)

(** Whatever the application prints, the input-mode observer can be checkpointed
    and the checkpoint is accepted and restores it exactly, unfinished control sequence
    included; the prefix it keeps is at most 64 characters long. *)
Theorem input_modes_checkpoint (output : list char) :
  let m := InputModes.feed_all output InputModes.default in
  InputModesState.from_state (InputModesState.export_state m) = Ok m ∧
  match InputModes.control m with
  | Control.Csi parameters => length parameters ≤ MAX_CSI_PARAMETER_BYTES
  | _ => True
  end.
Proof.
  cbn zeta. pose proof (wf_feed_all output InputModes.default ltac:(split; [vm_compute|]; done)) as Hm.
  split; [by apply modes_roundtrip|]. destruct Hm as [_ Hc].
  destruct (InputModes.control _); try done. by destruct Hc.
Qed.

(** The control sequences the daemon prepends to a screen checkpoint restore every
    input mode: fed to a fresh observer they give the modes of any observer, with no
    control sequence left open. *)
Theorem restore_sequences_restore (output : list char) :
  let m := InputModes.feed_all output InputModes.default in
  InputModes.feed_all (InputModes.restore_keyboard_sequence m ++ InputModes.restore_sequences m)
    InputModes.default = InputModes.set_control Control.Ground m.
Proof.
  cbn zeta. apply restore_modes, wf_feed_all. split; [vm_compute|]; done.
Qed.

(** The alternate-screen observer sees the same in any chunks of the output, and at
    every point its checkpoint is accepted and restores it exactly. *)
Theorem alternate_screen_observer (chunks : list (list N)) :
  let observe_all := foldl (λ a data, (AlternateScreenTracker.observe data a).2) in
  let a := observe_all AlternateScreenTracker.default chunks in
  a = (AlternateScreenTracker.observe (mjoin chunks) AlternateScreenTracker.default).2 ∧
  AlternateScreenState.from_state (AlternateScreenState.export_state a) = Ok a.
Proof.
  cbn zeta. assert (Hall : ∀ a, wf_tracker a →
    foldl (λ a data, (AlternateScreenTracker.observe data a).2) a chunks =
      (AlternateScreenTracker.observe (mjoin chunks) a).2 ∧
    wf_tracker (foldl (λ a data, (AlternateScreenTracker.observe data a).2) a chunks)).
  { induction chunks as [|c chunks IH]; intros a Ha; [done|]. cbn [foldl].
    destruct (IH (AlternateScreenTracker.observe c a).2) as [IH1 IH2]; [by apply wf_observe|].
    split; [|done]. rewrite IH1. symmetry. apply observe_app. }
  destruct (Hall AlternateScreenTracker.default) as [H1 H2].
  { by split. }
  split; [done|by apply tracker_roundtrip].
Qed.

(** * History rows *)

(** Capturing a row of the screen keeps everything visible: the text is the
    characters of the visible cells and the spans give each of them its pen back; a row
    of printable characters is accepted by the validation and can be replayed. *)
Theorem history_row_keeps_look (line : Line.t) (wrapped : bool)
    (Hlen : (N.of_nat (length (visible line)) ≤ u32_MAX)%N)
    (Hpens : Forall (λ cell, Pen.wf (Cell.pen cell)) (Line.cells line))
    (Hprint : Forall (λ cell, is_control (Cell.ch cell) = false) (Line.cells line)) :
  capture_row line wrapped ⇓ λ row,
    HistoryRow.text row = Cell.ch <$> visible line ∧
    (∀ i cell, visible line !! i = Some cell →
               style_pen (look (HistoryRow.styles row) (N.of_nat i)) = Cell.pen cell) ∧
    validate_history_row row = Ok () ∧ is_ok (row_ansi row) = true.
Proof.
  assert (Hsub : ∀ P : Cell.t → Prop, Forall P (Line.cells line) → Forall P (visible line)).
  { intros P HP. rewrite Forall_forall in *. intros c Hc. apply HP.
    unfold visible in Hc. by apply list_elem_of_filter in Hc as [_ ?]. }
  pose proof (Hsub _ Hpens) as Hp. rewrite Forall_forall in Hp.
  pose proof (capture_row_valid line wrapped Hlen (Hsub _ Hprint)) as Hv.
  destruct (Safe_elim _ _ (capture_row_spec line wrapped Hlen)) as (row & E & _ & Ht & _ & Hl).
  rewrite E in *. simpl in *. split_and!; [done| |done|].
  - intros i cell Hi. rewrite (Hl i cell Hi). apply style_pen_style, Hp. by eapply list_elem_of_lookup_2.
  - by destruct (row_ansi_ok row Hv) as [ansi ->].
Qed.

Definition red : Pen.t := Pen.set_bold (Pen.set_foreground Pen.default (Some (Color.Indexed 1))).

Lemma history_row_keeps_look_witness :
  capture_row (Line.Mk [Cell.Mk 65 Single red; Cell.Mk 66 Single red; Cell.Mk 32 Single Pen.default] false) false
    ⇓ λ row, HistoryRow.styles row = [StyleSpan.Mk 0 2 (style red)] ∧ validate_history_row row = Ok ().
Proof.
  destruct (Safe_elim _ _ (history_row_keeps_look
    (Line.Mk [Cell.Mk 65 Single red; Cell.Mk 66 Single red; Cell.Mk 32 Single Pen.default] false) false
    ltac:(vm_compute; done) ltac:(repeat constructor) ltac:(repeat constructor))) as (row & E & _ & _ & Hv & _).
  vm_compute in E. injection E as <-. split; [vm_compute; done|exact Hv].
Defined.
