(* ===== verification/Sessions.v ===== *)
(** The session registry of the multiplexer's daemon (ctmux/daemon/src/session.rs and
    session/topology.rs): sessions, each with one view of terminals, and the operations
    that create, rearrange, resize, zoom, rename, merge and end them.

    Every operation runs under the registry's lock: it is an [action], a function from
    the registry to its result and the registry it leaves, on errors too (the code does
    not roll back unless it says so).  A [HashMap] is a [gmap].  Terminals are shared
    ([Arc<Terminal>]) and outlive their registration: they live in a store, the map of
    the registry is the set of those listed, and [self] is a terminal of the store.
    Clocks, random identifiers and the replies of the operating system's terminals are
    arguments or part of the state. *)

From S2P Require Import Prelude.
From S2P Require Import Layout.
From S2P Require Import Topology.
From S2P Require Import Leases.
From stdpp Require Import strings gmap pretty sorting.

(** * Errors *)

(** [SessionControlError] and [SessionManagerError]; an error of the operating system or of
    the shell reporter is its text *)
Inductive SessionControlError :=
  | ControlInvalidView (message : string)
  | InputLeaseRequired
  | LayoutLeaseRequired
  | ControlIo (message : string)
  | ControlPty (message : string).

Inductive SessionManagerError :=
  | InvalidView (message : string)
  | InvalidName (message : string)
  | AlreadyExists (name : string)
  | AutomaticNameExhausted
  | NotFound (selector : string)
  | Pty (message : string)
  | Spawn (message : string)
  | ShellReporterFailed (message : string)
  | ReaderThread (message : string)
  | WaiterThread (message : string).

Inductive PaneMoveError :=
  | Control (error : SessionControlError)
  | Manager (error : SessionManagerError).

#[global] Instance control_error_eq_dec : EqDecision SessionControlError.
Proof. solve_decision. Defined.
#[global] Instance manager_error_eq_dec : EqDecision SessionManagerError.
Proof. solve_decision. Defined.
#[global] Instance move_error_eq_dec : EqDecision PaneMoveError.
Proof. solve_decision. Defined.

(** [Display], as [to_string] uses it *)
Definition display_control (e : SessionControlError) : string :=
  match e with
  | ControlInvalidView m => "invalid view operation: " +:+ m
  | InputLeaseRequired => "this attachment does not own the session input lease"
  | LayoutLeaseRequired => "this attachment does not own the session layout lease"
  | ControlIo m => "I/O error: " +:+ m
  | ControlPty m => "PTY error: " +:+ m
  end.

Definition display_manager (e : SessionManagerError) : string :=
  match e with
  | InvalidView m => "invalid view operation: " +:+ m
  | InvalidName m => "invalid session name: " +:+ m
  | AlreadyExists n => "a session named '" +:+ n +:+ "' already exists"
  | AutomaticNameExhausted => "automatic session name sequence is exhausted"
  | NotFound s => "session '" +:+ s +:+ "' was not found"
  | Pty m => "could not create PTY: " +:+ m
  | Spawn m => "could not spawn child process: " +:+ m
  | ShellReporterFailed m => m
  | ReaderThread m => "could not start PTY reader thread: " +:+ m
  | WaiterThread m => "could not start child waiter thread: " +:+ m
  end.

(** [Result::map_err] *)
Definition map_err {E F A} (f : E → F) (m : outcome E A) : outcome F A :=
  match m with Ok a => Ok a | Err e => Err (f e) | Panic => Panic end.

(** [revision += 1] on a [u64], as a debug build checks it *)
Definition succ64 (n : N) : option N := if decide (n < u64_MAX)%N then Some (n + 1)%N else None.

(** * State *)

Module TerminalOwner.
Record t := Mk { created_at_ms : N; session_id : string; view_id : string; name : string }.
#[global] Instance eq_dec : EqDecision t.
Proof. solve_decision. Defined.
End TerminalOwner.

Module ClientIdentity.
Record t := Mk { instance_id : string; client_name : string; client_version : string;
                 device_name : option string }.
End ClientIdentity.

Inductive AttachmentPeer :=
  | Process (identity : ClientIdentity.t)
  | Legacy (name version : string).

(** [superseded] is the last generation sent on the watch channel. *)
Module AttachmentRecord.
Record t := Mk { attachment_id : string; peer : AttachmentPeer; generation : N;
                 connected : bool; superseded : N }.
End AttachmentRecord.

Inductive SessionLifecycle := Running | Ended (exit_code : option N).
#[global] Instance lifecycle_eq_dec : EqDecision SessionLifecycle.
Proof. solve_decision. Defined.

Module TerminalInfo.
Record t := Mk { terminal_id : string; name : string; created_at_ms : N; next_sequence : N;
                 terminal_size : TerminalSize.t }.
End TerminalInfo.

Module SessionInfo.
Record t := Mk { session_id : string; view_id : string; terminal_id : string; name : string;
                 created_at_ms : N; next_sequence : N; terminal_size : TerminalSize.t }.
End SessionInfo.

Module ViewInfo.
Record t := Mk { session_name : string; view_id : string; session_id : string; revision : N;
                 canvas_size : TerminalSize.t; panes : list PaneGeometry.t;
                 zoomed_terminal_id : option string; layout : ViewLayout;
                 terminals : list TerminalInfo.t }.
End ViewInfo.

Module View.
Record t := Mk { id : string; revision : N; layout : ViewLayout; canvas_size : TerminalSize.t;
                 zoomed_terminal_id : option string; leases : LeaseRegistry.t }.

Definition set_leases (l : LeaseRegistry.t) (v : t) : t :=
  Mk (id v) (revision v) (layout v) (canvas_size v) (zoomed_terminal_id v) l.

(** [view.layout = layout; view.zoomed_terminal_id = zoom; view.revision = revision] *)
Definition arrange (l : ViewLayout) (zoom : option string) (rev : N) (v : t) : t :=
  Mk (id v) rev l (canvas_size v) zoom (leases v).

(** [view.canvas_size = size; view.revision = revision] *)
Definition set_canvas (size : TerminalSize.t) (rev : N) (v : t) : t :=
  Mk (id v) rev (layout v) size (zoomed_terminal_id v) (leases v).
End View.

Module Session.
Record t := Mk { closing : bool; id : string; name : string; view : View.t }.
Definition set_view (f : View.t → View.t) (s : t) : t := Mk (closing s) (id s) (name s) (f (view s)).
End Session.

(** What the registry needs of a terminal's emulator, history and journal: the state of
    [TerminalState], made for a size; what [resize_pty] does to it once the PTY has
    accepted a different size, which may panic; [journal.next_sequence()]. *)
Class Screen (St : Type) := {
  screen_size : St → TerminalSize.t;
  screen_sequence : St → N;
  screen_resize : TerminalSize.t → St → option St;
}.

(** A [Terminal].  [master] is the PTY: [None] once taken, otherwise what the operating
    system will answer to the next requests to resize it, an error message or nothing;
    when it has answered them all it accepts every size.  [view_updates] is the last view
    sent on its watch channel and [layout_lease_updates] counts the invalidations. *)
Module SessionTerminal.
Record t (St : Type) := Mk {
  managed : bool; owner : TerminalOwner.t; id : string; name : string; created_at_ms : N;
  state : St; leases : LeaseRegistry.t; attachments : gmap string AttachmentRecord.t;
  master : option (list (option string)); lifecycle : SessionLifecycle;
  view_updates : option ViewInfo.t; layout_lease_updates : nat }.
Arguments Mk {St}. Arguments managed {St}. Arguments owner {St}. Arguments id {St}.
Arguments name {St}. Arguments created_at_ms {St}. Arguments state {St}. Arguments leases {St}.
Arguments attachments {St}. Arguments master {St}. Arguments lifecycle {St}.
Arguments view_updates {St}. Arguments layout_lease_updates {St}.

Section setters.
Context {St : Type}.
Implicit Types (t : t St).
Definition set_owner (o : TerminalOwner.t) t :=
  Mk (managed t) o (id t) (name t) (created_at_ms t) (state t) (leases t) (attachments t)
     (master t) (lifecycle t) (view_updates t) (layout_lease_updates t).
Definition set_screen (s : St) (m : option (list (option string))) t :=
  Mk (managed t) (owner t) (id t) (name t) (created_at_ms t) s (leases t) (attachments t)
     m (lifecycle t) (view_updates t) (layout_lease_updates t).
Definition set_attachments (l : LeaseRegistry.t) (a : gmap string AttachmentRecord.t) t :=
  Mk (managed t) (owner t) (id t) (name t) (created_at_ms t) (state t) l a
     (master t) (lifecycle t) (view_updates t) (layout_lease_updates t).
Definition set_lifecycle (l : SessionLifecycle) t :=
  Mk (managed t) (owner t) (id t) (name t) (created_at_ms t) (state t) (leases t) (attachments t)
     (master t) l (view_updates t) (layout_lease_updates t).
Definition set_updates (v : option ViewInfo.t) (n : nat) t :=
  Mk (managed t) (owner t) (id t) (name t) (created_at_ms t) (state t) (leases t) (attachments t)
     (master t) (lifecycle t) v n.
End setters.
End SessionTerminal.

(** [store] holds every terminal that is still shared; [terminals] are the identifiers of
    those in the registry's map, whose key is the terminal's identifier. *)
Module SessionRegistry.
Record t (St : Type) := Mk {
  store : gmap string (SessionTerminal.t St); terminals : gset string;
  sessions : gmap string Session.t; pending_names : gset string; next_automatic_name : option N }.
Arguments Mk {St}. Arguments store {St}. Arguments terminals {St}. Arguments sessions {St}.
Arguments pending_names {St}. Arguments next_automatic_name {St}.

Definition default {St} : t St := Mk ∅ ∅ ∅ ∅ (Some 1%N).
End SessionRegistry.
Import SessionRegistry (store, terminals, sessions, pending_names, next_automatic_name).

(** * Actions *)

Definition action (St E A : Type) : Type :=
  SessionRegistry.t St → outcome E A * SessionRegistry.t St.

#[export] Instance action_ret {St E} : MRet (action St E) := λ _ a r, (Ok a, r).
#[export] Instance action_bind {St E} : MBind (action St E) := λ _ _ f m r,
  match m r with
  | (Ok a, r) => f a r
  | (Err e, r) => (Err e, r)
  | (Panic, r) => (Panic, r)
  end.

Section actions.
Context {St E : Type}.

Definition lift {A} (m : outcome E A) : action St E A := λ r, (m, r).

(** Reading the registry, in a way that may fail *)
Definition reading {A} (f : SessionRegistry.t St → outcome E A) : action St E A := λ r, (f r, r).

Definition on_store (f : gmap string (SessionTerminal.t St) → gmap string (SessionTerminal.t St)) :
    action St E () := λ r,
  (Ok (), SessionRegistry.Mk (f (store r)) (terminals r) (sessions r) (pending_names r)
            (next_automatic_name r)).

Definition on_terminals (f : gset string → gset string) : action St E () := λ r,
  (Ok (), SessionRegistry.Mk (store r) (f (terminals r)) (sessions r) (pending_names r)
            (next_automatic_name r)).

Definition on_sessions (f : gmap string Session.t → gmap string Session.t) : action St E () := λ r,
  (Ok (), SessionRegistry.Mk (store r) (terminals r) (f (sessions r)) (pending_names r)
            (next_automatic_name r)).

Definition on_names (f : gset string → gset string) : action St E () := λ r,
  (Ok (), SessionRegistry.Mk (store r) (terminals r) (sessions r) (f (pending_names r))
            (next_automatic_name r)).

Definition set_next_name (n : option N) : action St E () := λ r,
  (Ok (), SessionRegistry.Mk (store r) (terminals r) (sessions r) (pending_names r) n).

(** [registry.sessions.get_mut(id).expect(..).view] changed by [f] *)
Definition on_view (sid : string) (f : View.t → outcome E View.t) : action St E () :=
  session ← reading (λ r, expect (sessions r !! sid));
  view ← lift (f (Session.view session));
  on_sessions (<[sid := Session.set_view (λ _, view) session]>).

(** The result of an action that the caller looks at *)
Definition attempt {F A} (m : action St F A) : action St E (outcome F A) := λ r,
  match m r with
  | (Panic, r) => (Panic, r)
  | (result, r) => (Ok result, r)
  end.

(** A [for] loop with the loop body's early returns *)
Fixpoint each {A} (f : A → action St E ()) (l : list A) : action St E () :=
  match l with [] => mret () | x :: l => _ ← f x; each f l end.
End actions.

(** [?] with a conversion of the error *)
Definition mapping {St E F A} (f : E → F) (m : action St E A) : action St F A := λ r,
  let '(result, r) := m r in (map_err f result, r).

(** * Reading the registry *)

Section reads.
Context {St : Type} `{Screen St}.
Implicit Types (r : SessionRegistry.t St) (t : SessionTerminal.t St).

(** [registry.terminals.get(id)] *)
Definition listed r (id : string) : option (SessionTerminal.t St) :=
  if decide (id ∈ terminals r) then store r !! id else None.

(** [self], [registry.terminals[id]] and [registry.sessions[id]] *)
Definition shared {E} r (self : string) : outcome E (SessionTerminal.t St) := expect (store r !! self).
Definition terminal {E} r (id : string) : outcome E (SessionTerminal.t St) := expect (listed r id).
Definition session {E} r (id : string) : outcome E Session.t := expect (sessions r !! id).

Definition info t : SessionInfo.t :=
  let owner := SessionTerminal.owner t in
  SessionInfo.Mk (TerminalOwner.session_id owner) (TerminalOwner.view_id owner) (SessionTerminal.id t)
    (TerminalOwner.name owner) (TerminalOwner.created_at_ms owner)
    (screen_sequence (SessionTerminal.state t)) (screen_size (SessionTerminal.state t)).

Definition terminal_size t : TerminalSize.t := SessionInfo.terminal_size (info t).

(** The first session with a property, in the map's order *)
Definition find_session (p : Session.t → bool) r : option Session.t :=
  snd <$> head (filter (λ kv, Is_true (p kv.2)) (map_to_list (sessions r))).

Definition root r (selector : string) : outcome SessionManagerError Session.t :=
  ok_or (match sessions r !! selector with
         | Some s => Some s
         | None => find_session (λ s, bool_decide (Session.name s = selector)) r
         end) (NotFound selector).

Definition terminal_info t : TerminalInfo.t :=
  TerminalInfo.Mk (SessionTerminal.id t) (SessionTerminal.name t) (SessionTerminal.created_at_ms t)
    (SessionInfo.next_sequence (info t)) (SessionInfo.terminal_size (info t)).

Definition view_info r (selector : string) : outcome SessionManagerError ViewInfo.t :=
  s ← root r selector;
  let v := Session.view s in
  panes ← map_err InvalidView (Layout.pane_geometry (View.layout v) (View.canvas_size v));
  Ok (ViewInfo.Mk (Session.name s) (View.id v) (Session.id s) (View.revision v)
        (View.canvas_size v) panes (View.zoomed_terminal_id v) (View.layout v)
        (terminal_info <$> omap (listed r) (LayoutExt.terminal_ids (View.layout v)))).

(** Whether a session has the name, or one that is being created *)
Definition name_taken r (name : string) : bool :=
  bool_decide (name ∈ pending_names r) ||
  bool_decide (is_Some (find_session (λ s, bool_decide (Session.name s = name)) r)).

Definition running_movable_terminal r (id : string) : outcome SessionControlError () :=
  t ← ok_or (listed r id) (ControlInvalidView "pane no longer exists");
  _ ← fail_if (SessionTerminal.managed t) (ControlInvalidView "managed task terminals cannot be moved");
  fail_if (negb (bool_decide (SessionTerminal.lifecycle t = Running)))
    (ControlInvalidView "pane has ended").

(** [root.view.leases.status(attachment_id, LeaseKind::Layout).owned_by_client] *)
Definition owns_layout (v : View.t) (attachment_id : string) : bool :=
  LeaseStatus.owned_by_client (LeaseRegistry.status (View.leases v) attachment_id Leases.LayoutLease).
End reads.

(** * Resizing terminals and publishing views *)

Section resizing.
Context {St : Type} `{Screen St}.

(** The PTY's answer to a request to resize it *)
Definition pty_answer (master : option (list (option string))) :
    outcome SessionControlError () * option (list (option string)) :=
  match master with
  | None => (Err (ControlPty "terminal has closed"), None)
  | Some [] => (Ok (), Some [])
  | Some (None :: replies) => (Ok (), Some replies)
  | Some (Some message :: replies) => (Err (ControlPty message), Some replies)
  end.

Definition resize_pty (size : TerminalSize.t) (t : SessionTerminal.t St) :
    outcome SessionControlError () * SessionTerminal.t St :=
  let '(answer, master) := pty_answer (SessionTerminal.master t) in
  let state := SessionTerminal.state t in
  match answer with
  | Ok _ =>
      if decide (screen_size state = size) then (Ok (), SessionTerminal.set_screen state master t)
      else match screen_resize size state with
           | Some state => (Ok (), SessionTerminal.set_screen state master t)
           | None => (Panic, SessionTerminal.set_screen state master t)
           end
  | error => (error, SessionTerminal.set_screen state master t)
  end.

(** [terminal.resize_pty(size)] of a shared terminal *)
Definition resize_terminal (id : string) (size : TerminalSize.t) : action St SessionControlError () := λ r,
  match store r !! id with
  | None => (Panic, r)
  | Some t =>
      let '(result, t) := resize_pty size t in
      (result, (on_store (E := SessionControlError) <[id := t]> r).2)
  end.

Definition publish_layout_leases {E} (id : string) : action St E () :=
  session ← reading (λ r, Ok (sessions r !! id));
  match session with
  | None => mret ()
  | Some root =>
      terminals ← reading (λ r, Ok (filter (λ id, is_Some (listed r id))
                     (LayoutExt.terminal_ids (View.layout (Session.view root)))));
      each (λ id, on_store (alter (λ t, SessionTerminal.set_updates (SessionTerminal.view_updates t)
                              (S (SessionTerminal.layout_lease_updates t)) t) id)) terminals
  end.

(** [send_if_modified] *)
Definition send_view (view : ViewInfo.t) (t : SessionTerminal.t St) : SessionTerminal.t St :=
  match SessionTerminal.view_updates t with
  | Some previous =>
      if bool_decide (ViewInfo.view_id previous = ViewInfo.view_id view) &&
         bool_decide (ViewInfo.revision previous = ViewInfo.revision view) &&
         bool_decide (ViewInfo.session_name previous = ViewInfo.session_name view)
      then t
      else SessionTerminal.set_updates (Some view) (SessionTerminal.layout_lease_updates t) t
  | None => SessionTerminal.set_updates (Some view) (SessionTerminal.layout_lease_updates t) t
  end.

Definition publish_view {E} (id : string) : action St E () :=
  view ← attempt (F := SessionManagerError) (reading (λ r, view_info r id));
  match view with
  | Ok view =>
      _ ← each (λ ti, on_store (alter (send_view view) (TerminalInfo.terminal_id ti)))
            (ViewInfo.terminals view);
      publish_layout_leases id
  | _ => mret ()
  end.

Definition resize_view (id : string) (size : TerminalSize.t) : action St SessionControlError () :=
  root ← reading (λ r, session r id);
  let view := Session.view root in
  panes ← lift (match View.zoomed_terminal_id view with
                | Some terminal_id =>
                    Ok [PaneGeometry.Mk terminal_id 0 0 (TerminalSize.columns size) (TerminalSize.rows size)]
                | None => map_err ControlPty (Layout.pane_geometry (View.layout view) size)
                end);
  _ ← each (λ pane,
        terminal ← reading (λ r, Ok (listed r (PaneGeometry.terminal_id pane)));
        match terminal with
        | None => mret ()
        | Some _ =>
            pane_size ← lift (map_err ControlPty (pane_size size pane));
            resize_terminal (PaneGeometry.terminal_id pane) pane_size
        end) panes;
  _ ← on_view id (λ v,
        if decide (View.canvas_size v = size) then Ok v
        else revision ← expect (succ64 (View.revision v)); Ok (View.set_canvas size revision v));
  publish_view id.

Definition reflow_view (id : string) : action St SessionControlError () :=
  session ← reading (λ r, Ok (sessions r !! id));
  match session with
  | None => mret ()
  | Some root => resize_view id (View.canvas_size (Session.view root))
  end.

Definition capture_view_geometry {E} (id : string) : action St E (list (string * TerminalSize.t)) :=
  reading (λ r,
    root ← session r id;
    foldr (λ id acc, t ← terminal r id; l ← acc; Ok ((id, terminal_size t) :: l)) (Ok [])
      (LayoutExt.terminal_ids (View.layout (Session.view root)))).

(** The results of the requests to restore a size are ignored. *)
Definition restore_view_geometry {E} (id : string) (geometry : list (string * TerminalSize.t)) :
    action St E () :=
  _ ← each (λ '(id, size),
        _ ← attempt (F := SessionControlError) (resize_terminal id size); mret ()) geometry;
  publish_view id.

(** Changing the arrangement of a view, then its terminals: when one of them cannot be
    resized, the view and the terminals get back what they had. *)
Definition rearrange (sid : string) (layout : ViewLayout) (zoom : option string)
    (geometry : list (string * TerminalSize.t)) : action St SessionControlError () :=
  root ← reading (λ r, session r sid);
  let old := Session.view root in
  _ ← on_view sid (λ v, revision ← expect (succ64 (View.revision v));
                        Ok (View.arrange layout zoom revision v));
  result ← attempt (reflow_view sid);
  match result with
  | Err error =>
      _ ← on_view sid (λ v,
            Ok (View.arrange (View.layout old) (View.zoomed_terminal_id old) (View.revision old) v));
      _ ← restore_view_geometry sid geometry;
      lift (Err error)
  | _ => mret ()
  end.
End resizing.

(** * Operations on an attached terminal *)

Module PaneTarget.
Record t := Mk { session_id : string; view_id : string; expected_revision : N; terminal_id : string }.
End PaneTarget.

Module DividerResize.
Record t := Mk { view_id : string; expected_revision : N; split_path : list N; boundary : N;
                 position : N }.
End DividerResize.

Section control.
Context {St : Type} `{Screen St}.
Implicit Types (r : SessionRegistry.t St).

(** [lock(&self.owner).session_id] of the terminal an operation is called on *)
Definition owner_of r (self : string) : outcome SessionControlError string :=
  (λ t, TerminalOwner.session_id (SessionTerminal.owner t)) <$> shared r self.

Definition attached_pane_target (self attachment_id : string) (target : PaneTarget.t) r :
    outcome SessionControlError Session.t :=
  owner ← owner_of r self;
  root ← ok_or (sessions r !! owner) (ControlInvalidView "view has closed");
  let view := Session.view root in
  _ ← fail_if (negb (owns_layout view attachment_id)) LayoutLeaseRequired;
  _ ← fail_if (Session.closing root) (ControlInvalidView "session is terminating");
  _ ← fail_if (negb (bool_decide (PaneTarget.session_id target = Session.id root)) ||
               negb (bool_decide (PaneTarget.view_id target = View.id view)) ||
               negb (bool_decide (PaneTarget.expected_revision target = View.revision view)))
        (ControlInvalidView "view changed; reload before moving panes");
  _ ← fail_if (negb (bool_decide (PaneTarget.terminal_id target ∈ LayoutExt.terminal_ids (View.layout view))))
        (ControlInvalidView "pane must belong to the attached view");
  _ ← running_movable_terminal r (PaneTarget.terminal_id target);
  Ok root.

(** The owned, open view that [self] is attached to *)
Definition controlled_view (self attachment_id : string) r : outcome SessionControlError (string * Session.t) :=
  owner ← owner_of r self;
  root ← ok_or (sessions r !! owner) (ControlInvalidView "view has closed");
  _ ← fail_if (negb (owns_layout (Session.view root) attachment_id)) LayoutLeaseRequired;
  _ ← fail_if (Session.closing root) (ControlInvalidView "session is terminating");
  Ok (owner, root).

Definition current_view (owner : string) : action St SessionControlError ViewInfo.t :=
  reading (λ r, map_err (λ e, ControlInvalidView (display_manager e)) (view_info r owner)).

Definition resize_inner (self attachment_id : string) (size : TerminalSize.t) :
    action St SessionControlError () :=
  owner ← reading (λ r, owner_of r self);
  root ← reading (λ r, ok_or (sessions r !! owner) (ControlPty "view has closed"));
  let view := Session.view root in
  _ ← lift (fail_if (negb (owns_layout view attachment_id)) LayoutLeaseRequired);
  let minimum := Layout.minimum_size (View.layout view) in
  _ ← lift (fail_if (bool_decide (u16_MAX < minimum.1)%N) (ControlPty "view is too wide"));
  _ ← lift (fail_if (bool_decide (u16_MAX < minimum.2)%N) (ControlPty "view is too tall"));
  resize_view owner
    (TerminalSize.Mk (TerminalSize.columns size `max` minimum.1) (TerminalSize.rows size `max` minimum.2)
       (TerminalSize.pixel_width size) (TerminalSize.pixel_height size)).

Definition resize_layout (self attachment_id : string)
    (change : View.t → SessionRegistry.t St → outcome SessionControlError (ViewLayout * bool)) :
    action St SessionControlError ViewInfo.t :=
  '(owner, root) ← reading (controlled_view self attachment_id);
  '(layout, changed) ← reading (change (Session.view root));
  if negb changed then current_view owner else
  geometry ← capture_view_geometry owner;
  _ ← rearrange owner layout None geometry;
  current_view owner.

Definition lifecycle_running r (id : string) : outcome SessionControlError bool :=
  (λ t, bool_decide (SessionTerminal.lifecycle t = Running)) <$> terminal r id.

Definition resize_pane_inner (self attachment_id terminal_id : string) (direction : ResizeDirection)
    (amount : N) : action St SessionControlError ViewInfo.t :=
  resize_layout self attachment_id (λ view r,
    _ ← fail_if (negb (bool_decide (terminal_id ∈ LayoutExt.terminal_ids (View.layout view))))
          (ControlInvalidView "resize terminal must belong to the attached view");
    running ← lifecycle_running r terminal_id;
    _ ← fail_if (negb running) (ControlInvalidView "resize terminal has ended");
    map_err ControlInvalidView
      (Layout.resize_pane terminal_id direction amount (View.canvas_size view) (View.layout view))).

Definition resize_divider_inner (self attachment_id : string) (divider : DividerResize.t) :
    action St SessionControlError ViewInfo.t :=
  resize_layout self attachment_id (λ view _,
    _ ← fail_if (negb (bool_decide (View.id view = DividerResize.view_id divider)) ||
                 negb (bool_decide (View.revision view = DividerResize.expected_revision divider)))
          (ControlInvalidView "view changed; reload before dragging a divider");
    map_err ControlInvalidView
      (Layout.resize_divider (DividerResize.split_path divider) (DividerResize.boundary divider)
         (DividerResize.position divider) (View.canvas_size view) (View.layout view))).

Definition swap_pane_inner (self attachment_id : string) (target : PaneTarget.t) (previous : bool) :
    action St SessionControlError ViewInfo.t :=
  resize_layout self attachment_id (λ view r,
    _ ← attached_pane_target self attachment_id target r;
    let ids := LayoutExt.terminal_ids (View.layout view) in
    _ ← fail_if (bool_decide (length ids < 2)) (ControlInvalidView "session has only one pane");
    index ← expect (Layout.position (λ id, bool_decide (id = PaneTarget.terminal_id target)) ids);
    other ← expect (ids !! adjacent previous index (length ids));
    _ ← running_movable_terminal r other;
    Ok (swap_terminal_ids (PaneTarget.terminal_id target) other (View.layout view), true)).

Definition set_view_zoom_inner (self attachment_id : string) (terminal_id : option string) :
    action St SessionControlError ViewInfo.t :=
  '(owner, root) ← reading (controlled_view self attachment_id);
  let view := Session.view root in
  _ ← (match terminal_id with
       | None => mret ()
       | Some id =>
           _ ← lift (fail_if (negb (bool_decide (id ∈ LayoutExt.terminal_ids (View.layout view))))
                 (ControlInvalidView "zoom terminal must belong to the attached view"));
           running ← reading (λ r, lifecycle_running r id);
           lift (fail_if (negb running) (ControlInvalidView "zoom terminal has ended"))
       end);
  if decide (View.zoomed_terminal_id view = terminal_id) then current_view owner else
  geometry ← capture_view_geometry owner;
  _ ← (match View.zoomed_terminal_id view, terminal_id with
       | Some previous, Some _ =>
           panes ← lift (map_err ControlInvalidView
                     (Layout.pane_geometry (View.layout view) (View.canvas_size view)));
           pane ← lift (expect (head (filter (λ pane, PaneGeometry.terminal_id pane = previous) panes)));
           _ ← reading (λ r, terminal r previous);
           size ← lift (map_err ControlPty (pane_size (View.canvas_size view) pane));
           resize_terminal previous size
       | _, _ => mret ()
       end);
  _ ← rearrange owner (View.layout view) terminal_id geometry;
  current_view owner.
End control.

(** * Names *)

Section names.
Context {St : Type} `{Screen St}.
Implicit Types (r : SessionRegistry.t St).

Definition is_ascii_alphanumeric (c : Ascii.ascii) : bool :=
  let n := Ascii.N_of_ascii c in
  (bool_decide (48 ≤ n ≤ 57) || bool_decide (65 ≤ n ≤ 90) || bool_decide (97 ≤ n ≤ 122))%N.

(** Names are bytes; [-], [_] and [.] are 45, 95 and 46. *)
Definition validate_session_name (name : string) : outcome string () :=
  _ ← fail_if (bool_decide (name = "") || bool_decide (64 < String.length name))
        "session names must contain between 1 and 64 bytes";
  fail_if (negb (forallb (λ c, is_ascii_alphanumeric c ||
                   bool_decide (Ascii.N_of_ascii c ∈ [45; 95; 46]%N))
             (String.list_ascii_of_string name)))
    "session names may contain only ASCII letters, digits, '-', '_', and '.'".

(** [NameReservation::acquire]: one critical section *)
Definition acquire_name (name : string) : action St SessionManagerError string :=
  _ ← reading (λ r, fail_if (name_taken r name) (AlreadyExists name));
  _ ← on_names (λ names, {[name]} ∪ names);
  mret name.

(** The loop of [NameReservation::acquire_automatic], one critical section *)
Fixpoint acquire_automatic_go (fuel : nat) : action St SessionManagerError string :=
  match fuel with
  | 0 => lift Panic
  | S fuel =>
      sequence ← reading (λ r, ok_or (next_automatic_name r) AutomaticNameExhausted);
      _ ← set_next_name (succ64 sequence);
      let candidate := "session-" +:+ pretty sequence in
      taken ← reading (λ r, Ok (name_taken r candidate));
      if taken : bool then acquire_automatic_go fuel
      else _ ← on_names (λ names, {[candidate]} ∪ names); mret candidate
  end.

(** Every candidate is new, so the loop passes over a taken name at most once. *)
Definition acquire_automatic : action St SessionManagerError string := λ r,
  acquire_automatic_go (S (size (sessions r) + size (pending_names r))) r.

Definition reserve_name (requested_name : option string) : action St SessionManagerError string :=
  match requested_name with
  | Some name => _ ← lift (map_err InvalidName (validate_session_name name)); acquire_name name
  | None => acquire_automatic
  end.

(** [Drop for NameReservation] while it is active *)
Definition drop_reservation {E} (name : string) : action St E () := on_names (λ names, names ∖ {[name]}).

(** An operation that holds a reservation while it works: when it fails the reservation is
    dropped; when it succeeds it has consumed the name itself. *)
Definition reserving {E A} (wrap : SessionManagerError → E) (requested_name : option string)
    (body : string → action St E A) : action St E A :=
  name ← mapping wrap (reserve_name requested_name);
  result ← attempt (body name);
  match result with
  | Err error => _ ← drop_reservation name; lift (Err error)
  | result => lift result
  end.
End names.

(** * Operations on sessions *)

Section manager.
Context {St : Type} `{Screen St}.
Implicit Types (r : SessionRegistry.t St).

Definition plan_split (target_id new_id : string) (axis : SplitAxis) r :
    outcome SessionManagerError (TerminalOwner.t * ViewLayout) :=
  target ← ok_or (listed r target_id) (NotFound target_id);
  _ ← fail_if (SessionTerminal.managed target) (InvalidView "managed task terminals cannot be split");
  let owner := SessionTerminal.owner target in
  root ← session r (TerminalOwner.session_id owner);
  _ ← fail_if (Session.closing root) (InvalidView "session is terminating");
  let layout := LayoutExt.split_terminal target_id new_id axis (View.layout (Session.view root)) in
  _ ← map_err InvalidView (validate_layout layout 0);
  _ ← map_err InvalidView (Layout.pane_geometry layout (View.canvas_size (Session.view root)));
  Ok (owner, layout).

(** [root.view.layout = layout; root.view.zoomed_terminal_id = None; root.view.revision += 1] *)
Definition replace_layout {E} (sid : string) (layout : ViewLayout) : action St E () :=
  on_view sid (λ v, revision ← expect (succ64 (View.revision v)); Ok (View.arrange layout None revision v)).

Definition new_session (owner : TerminalOwner.t) (size : TerminalSize.t) (terminal_id : string) : Session.t :=
  Session.Mk false (TerminalOwner.session_id owner) (TerminalOwner.name owner)
    (View.Mk (TerminalOwner.view_id owner) 0 (Terminal terminal_id) size None LeaseRegistry.default).

Definition insert_session {E} (s : Session.t) : action St E () := on_sessions <[Session.id s := s]>.

(** [registry.terminals.insert(id, terminal)] of a shared terminal *)
Definition insert_terminal {E} (id : string) : action St E () := on_terminals (λ ids, {[id]} ∪ ids).

(** A change of a shared terminal *)
Definition on_terminal {E} (id : string) (f : SessionTerminal.t St → SessionTerminal.t St) : action St E () :=
  t ← reading (λ r, shared r id); on_store <[id := f t]>.

(** [NameReservation::commit] *)
Definition commit (name session_id : string)
    (placement : option (string * SplitAxis)) : action St SessionManagerError () :=
  _ ← drop_reservation name;
  match placement with
  | Some (target_id, axis) =>
      '(owner, layout) ← reading (plan_split target_id session_id axis);
      _ ← replace_layout (TerminalOwner.session_id owner) layout;
      _ ← on_terminal session_id (SessionTerminal.set_owner owner);
      _ ← insert_terminal session_id;
      mapping (λ e, Pty (display_control e)) (reflow_view (TerminalOwner.session_id owner))
  | None =>
      t ← reading (λ r, shared r session_id);
      let owner := SessionTerminal.owner t in
      _ ← insert_session (Session.Mk false (TerminalOwner.session_id owner) name
            (View.Mk (TerminalOwner.view_id owner) 0 (Terminal session_id) (terminal_size t)
               None LeaseRegistry.default));
      insert_terminal session_id
  end.

Definition detach_terminal {E} (id : string) : action St E () :=
  terminal ← reading (λ r, Ok (listed r id));
  match terminal with
  | None => mret ()
  | Some t =>
      let owner_id := TerminalOwner.session_id (SessionTerminal.owner t) in
      root ← reading (λ r, Ok (sessions r !! owner_id));
      _ ← (match root with
           | None => mret ()
           | Some root =>
               let view := Session.view root in
               layout ← lift (match LayoutExt.remove_terminal id (View.layout view) with
                              | Ok layout => Ok layout | _ => Panic end);
               match layout with
               | Some layout =>
                   _ ← on_view owner_id (λ v,
                         Ok (View.set_leases (foldr (λ record leases,
                               LeaseRegistry.release_attachment leases (AttachmentRecord.attachment_id record))
                               (View.leases v) (map_to_list (SessionTerminal.attachments t)).*2) v));
                   replace_layout owner_id layout
               | None => on_sessions (delete owner_id)
               end
           end);
      _ ← publish_layout_leases owner_id;
      _ ← attempt (reflow_view owner_id);
      mret ()
  end.

Definition remove_terminal {E} (id : string) : action St E () :=
  _ ← detach_terminal id; on_terminals (λ ids, ids ∖ {[id]}).

Definition session_view (selector : string) : action St SessionManagerError ViewInfo.t :=
  reading (λ r, view_info r selector).

(** [if test { return Ok(..) }]: the first terminal's information *)
Definition first_info (ids : list string) : action St SessionManagerError SessionInfo.t :=
  reading (λ r, id ← expect (ids !! 0); t ← terminal r id; Ok (info t)).

Fixpoint any_managed r (ids : list string) : outcome SessionManagerError bool :=
  match ids with
  | [] => Ok false
  | id :: ids => t ← terminal r id; if SessionTerminal.managed t then Ok true else any_managed r ids
  end.

Definition rename_owner (name : string) (t : SessionTerminal.t St) : SessionTerminal.t St :=
  let o := SessionTerminal.owner t in
  SessionTerminal.set_owner (TerminalOwner.Mk (TerminalOwner.created_at_ms o) (TerminalOwner.session_id o)
    (TerminalOwner.view_id o) name) t.

(** The same of a terminal of the registry *)
Definition on_listed {E} (id : string) (f : SessionTerminal.t St → SessionTerminal.t St) : action St E () :=
  _ ← reading (λ r, terminal r id); on_terminal id f.

Definition rename_inner (selector name : string) : action St SessionManagerError SessionInfo.t :=
  _ ← lift (map_err InvalidName (validate_session_name name));
  root ← reading (λ r, root r selector);
  _ ← lift (fail_if (Session.closing root) (InvalidView "session is terminating"));
  let root_id := Session.id root in
  let terminal_ids := LayoutExt.terminal_ids (View.layout (Session.view root)) in
  managed ← reading (λ r, any_managed r terminal_ids);
  _ ← lift (fail_if managed (InvalidView "managed task sessions cannot be renamed"));
  current ← reading (λ r, session r root_id);
  if decide (Session.name current = name) then first_info terminal_ids else
  _ ← reading (λ r, fail_if (bool_decide (name ∈ pending_names r) ||
        bool_decide (is_Some (find_session (λ s, negb (bool_decide (Session.id s = root_id)) &&
                                                 bool_decide (Session.name s = name)) r)))
        (AlreadyExists name));
  root ← reading (λ r, session r root_id);
  _ ← on_sessions <[root_id := Session.Mk (Session.closing root) (Session.id root) name (Session.view root)]>;
  _ ← on_view root_id (λ v, revision ← expect (succ64 (View.revision v));
        Ok (View.arrange (View.layout v) (View.zoomed_terminal_id v) revision v));
  _ ← each (λ id, on_listed id (rename_owner name)) terminal_ids;
  _ ← publish_view root_id;
  first_info terminal_ids.

Definition update_view_inner (selector : string) (expected_revision : N) (layout : ViewLayout) :
    action St SessionManagerError ViewInfo.t :=
  _ ← lift (map_err InvalidView (validate_layout layout 0));
  root ← reading (λ r, root r selector);
  let view := Session.view root in
  _ ← lift (fail_if (negb (bool_decide (View.revision view = expected_revision)))
        (InvalidView "view changed; reload before editing"));
  layout ← lift (map_err InvalidView (preserve_layout_weights layout (View.layout view)));
  let expected : gset string := list_to_set (LayoutExt.terminal_ids (View.layout view)) in
  let ids := LayoutExt.terminal_ids layout in
  _ ← lift (fail_if (negb (bool_decide (length ids = size expected)) ||
             negb (bool_decide (size (list_to_set ids : gset string) = length ids)) ||
             existsb (λ id, negb (bool_decide (id ∈ expected))) ids)
        (InvalidView "layout must contain each owned terminal exactly once"));
  _ ← lift (map_err InvalidView (Layout.pane_geometry layout (View.canvas_size view)));
  let id := Session.id root in
  _ ← replace_layout id layout;
  _ ← mapping (λ e, Pty (display_control e)) (reflow_view id);
  reading (λ r, view_info r id).

(** The critical section of [promote_terminal_inner]; [session_id], [view_id] and [now] are
    the new identifiers and the time. *)
Definition promote_section (name session_id view_id : string) (now : N) (terminal_id : string) :
    action St SessionManagerError ViewInfo.t :=
  t ← reading (λ r, ok_or (listed r terminal_id) (NotFound terminal_id));
  _ ← lift (fail_if (SessionTerminal.managed t) (InvalidView "managed task terminals cannot be moved"));
  let old_owner := SessionTerminal.owner t in
  old ← reading (λ r, session r (TerminalOwner.session_id old_owner));
  _ ← lift (fail_if (Session.closing old) (InvalidView "session is terminating"));
  _ ← lift (fail_if (bool_decide (length (LayoutExt.terminal_ids (View.layout (Session.view old))) = 1))
        (InvalidView "terminal is already the only terminal in its session"));
  _ ← detach_terminal terminal_id;
  let owner := TerminalOwner.Mk now session_id view_id name in
  _ ← on_terminal terminal_id (SessionTerminal.set_owner owner);
  t ← reading (λ r, shared r terminal_id);
  _ ← insert_session (new_session owner (terminal_size t) terminal_id);
  _ ← drop_reservation name;
  _ ← publish_layout_leases session_id;
  _ ← publish_view session_id;
  reading (λ r, view_info r session_id).

Definition promote_terminal_inner (terminal_id : string) (name : option string)
    (session_id view_id : string) (now : N) : action St SessionManagerError ViewInfo.t :=
  reserving id name (λ name, promote_section name session_id view_id now terminal_id).

(** The critical section of [break_pane_inner] *)
Definition break_section (self attachment_id : string) (target : PaneTarget.t)
    (name session_id view_id : string) (now : N) : action St PaneMoveError (ViewInfo.t * ViewInfo.t) :=
  let terminal_id := PaneTarget.terminal_id target in
  root ← mapping Control (reading (attached_pane_target self attachment_id target));
  let view := Session.view root in
  _ ← lift (fail_if (bool_decide (length (LayoutExt.terminal_ids (View.layout view)) < 2))
        (Control (ControlInvalidView "session has only one pane")));
  let source_id := Session.id root in
  remaining ← lift (match LayoutExt.remove_terminal terminal_id (View.layout view) with
                    | Ok (Some layout) => Ok layout | _ => Panic end);
  _ ← lift (map_err (λ e, Control (ControlInvalidView e))
        (Layout.pane_geometry remaining (View.canvas_size view)));
  geometry ← capture_view_geometry source_id;
  _ ← mapping Control (rearrange source_id remaining None geometry);
  t ← reading (λ r, terminal r terminal_id);
  _ ← on_view source_id (λ v,
        Ok (View.set_leases (foldr (λ record leases,
              LeaseRegistry.release_attachment leases (AttachmentRecord.attachment_id record))
              (View.leases v) (map_to_list (SessionTerminal.attachments t)).*2) v));
  let owner := TerminalOwner.Mk now session_id view_id name in
  _ ← on_terminal terminal_id (SessionTerminal.set_owner owner);
  t ← reading (λ r, shared r terminal_id);
  _ ← insert_session (new_session owner (terminal_size t) terminal_id);
  _ ← drop_reservation name;
  _ ← publish_view source_id;
  _ ← publish_view session_id;
  mapping Manager (reading (λ r, v ← view_info r session_id; s ← view_info r source_id; Ok (v, s))).

Definition break_pane_inner (self attachment_id : string) (target : PaneTarget.t) (name : option string)
    (session_id view_id : string) (now : N) : action St PaneMoveError (ViewInfo.t * ViewInfo.t) :=
  reserving Manager name (λ name, break_section self attachment_id target name session_id view_id now).

(** A session that may be merged: not terminating and of no managed terminal *)
Definition mergeable r (id : string) : outcome SessionManagerError () :=
  s ← session r id;
  _ ← fail_if (Session.closing s) (InvalidView "session is terminating");
  managed ← any_managed r (LayoutExt.terminal_ids (View.layout (Session.view s)));
  fail_if managed (InvalidView "managed task sessions cannot be merged").

Definition merge_sessions_inner (source destination : string) : action St SessionManagerError ViewInfo.t :=
  source_root ← reading (λ r, root r source);
  destination_root ← reading (λ r, root r destination);
  let source_id := Session.id source_root in
  let destination_id := Session.id destination_root in
  _ ← lift (fail_if (bool_decide (source_id = destination_id))
        (InvalidView "cannot merge a session into itself"));
  _ ← reading (λ r, mergeable r source_id);
  _ ← reading (λ r, mergeable r destination_id);
  d ← reading (λ r, session r destination_id);
  s ← reading (λ r, session r source_id);
  let merged_layout := Split Horizontal [View.layout (Session.view d); View.layout (Session.view s)] [] in
  _ ← lift (map_err InvalidView (validate_layout merged_layout 0));
  _ ← lift (map_err InvalidView (Layout.pane_geometry merged_layout (View.canvas_size (Session.view d))));
  _ ← on_sessions (delete source_id);
  first ← lift (map_err InvalidView (LayoutExt.first_terminal (View.layout (Session.view d))));
  first ← reading (λ r, terminal r first);
  let owner := TerminalOwner.Mk (TerminalOwner.created_at_ms (SessionTerminal.owner first))
                 (Session.id d) (View.id (Session.view d)) (Session.name d) in
  _ ← replace_layout destination_id merged_layout;
  _ ← each (λ id, on_listed id (SessionTerminal.set_owner owner))
        (LayoutExt.terminal_ids (View.layout (Session.view s)));
  _ ← publish_layout_leases destination_id;
  _ ← mapping (λ e, Pty (display_control e)) (reflow_view destination_id);
  reading (λ r, view_info r destination_id).

(** The terminals of the session, which is closed to further changes *)
Definition begin_termination_inner (selector : string) : action St SessionManagerError (list string) :=
  root_ ← reading (λ r, root r selector);
  let root_id := Session.id root_ in
  root ← reading (λ r, session r root_id);
  _ ← on_sessions <[root_id := Session.Mk true (Session.id root) (Session.name root) (Session.view root)]>;
  let ids := LayoutExt.terminal_ids (View.layout (Session.view root)) in
  reading (λ r, Ok (filter (λ id, is_Some (listed r id)) ids)).

(** [SessionManager::resolve]: the terminal a selector opens *)
Definition resolve (selector : string) : action St SessionManagerError (SessionTerminal.t St) :=
  reading (λ r,
    match listed r selector with
    | Some t => Ok t
    | None =>
        s ← root r selector;
        first ← map_err InvalidView (LayoutExt.first_terminal (View.layout (Session.view s)));
        ok_or (listed r first) (NotFound selector)
    end).
End manager.

(** * Creating a terminal *)

(** A started process: its emulator, its PTY, and whether the threads that read from it and
    wait for it start *)
Module Spawned.
Record t (St : Type) := Mk { state : St; master : list (option string); workers : SessionManagerError + () }.
Arguments Mk {St}. Arguments state {St}. Arguments master {St}. Arguments workers {St}.
End Spawned.

Section create.
Context {St : Type} `{Screen St}.
Implicit Types (r : SessionRegistry.t St).

(** [Arc::new(Terminal { .. })] for a started process: its identifiers and times, the name
    reserved for it, its emulator and its PTY *)
Definition new_terminal (is_managed : bool) (name id session_id view_id : string) (now : N) (state : St)
    (pty : list (option string)) : SessionTerminal.t St :=
  SessionTerminal.Mk is_managed (TerminalOwner.Mk now session_id view_id name) id name now state
    LeaseRegistry.default ∅ (Some pty) Running None 0.

(** [create_terminal_inner]: [spawned] is the process started, or why it did not start.  When
    its threads do not start once it is registered, the request fails and it stays. *)
Definition create_terminal (requested_name : option string) (placement : option (string * SplitAxis))
    (is_managed : bool) (id session_id view_id : string) (now : N)
    (spawned : outcome SessionManagerError (Spawned.t St)) :
    action St SessionManagerError (SessionTerminal.t St) :=
  _ ← (match placement with
       | Some (target_id, axis) => _ ← reading (plan_split target_id id axis); mret ()
       | None => mret ()
       end);
  name ← reserve_name requested_name;
  result ← attempt (
    spawned ← lift spawned;
    _ ← on_store <[id := new_terminal is_managed name id session_id view_id now (Spawned.state spawned) (Spawned.master spawned)]>;
    committed ← attempt (commit name id placement);
    match committed, Spawned.workers spawned with
    | Err error, inr () => lift (Err error)
    | Err _, inl error => lift (Err error)
    | _, workers => mret workers
    end);
  match result with
  | Err error => _ ← drop_reservation name; lift (Err error)
  | Ok (inl error) => lift (Err error)
  | _ => reading (λ r, shared r id)
  end.

(** [SessionManager::split_terminal], which resolves its target first *)
Definition split_terminal_inner (terminal_id : string) (axis : SplitAxis) (id session_id view_id : string)
    (now : N) (spawned : outcome SessionManagerError (Spawned.t St)) :
    action St SessionManagerError (SessionTerminal.t St) :=
  _ ← resolve terminal_id;
  create_terminal None (Some (terminal_id, axis)) false id session_id view_id now spawned.

(** [publish_ended] and the rest of the thread that waits for the process *)
Definition process_ended {E} (id : string) (exit_code : option N) : action St E () :=
  _ ← on_terminal id (λ t,
        if decide (SessionTerminal.lifecycle t = Running)
        then SessionTerminal.set_lifecycle (Ended exit_code) t else t);
  remove_terminal id.

(** [SessionManager::list]: the sessions by age, then by name *)
Definition older (a b : SessionInfo.t) : Prop :=
  (SessionInfo.created_at_ms a < SessionInfo.created_at_ms b)%N ∨
  SessionInfo.created_at_ms a = SessionInfo.created_at_ms b ∧
  String.leb (SessionInfo.name a) (SessionInfo.name b) = true.
#[global] Instance older_dec a b : Decision (older a b).
Proof. unfold older. apply _. Defined.

Definition list_sessions r : outcome SessionManagerError (list SessionInfo.t) :=
  rows ← foldr (λ kv acc,
            first ← map_err InvalidView (LayoutExt.first_terminal (View.layout (Session.view kv.2)));
            rows ← acc;
            Ok (match listed r first with Some t => info t :: rows | None => rows end))
          (Ok []) (map_to_list (sessions r));
  Ok (merge_sort older rows).
End create.
