(* ===== verification/Attachments.v ===== *)
(** Attachments of clients to terminals (ctmux/daemon/src/session.rs,
    [create_attachment_inner] to [release_lease_inner]): registering, losing and resuming
    a connection, and the leases attachments hold.

    An operation takes several locks one after another.  Each critical section is an
    action of its own here, and the operation their composition, so that other
    operations can be placed between them. *)

From S2P Require Import Prelude.
From S2P Require Import Layout.
From S2P Require Import Topology.
From S2P Require Import Leases.
From S2P Require Import Sessions.
From stdpp Require Import strings gmap.

Module AttachmentRegistration.
Record t := Mk { attachment_id : string; attachment_token : string; generation : N;
                 leases : AttachmentLeases.t }.
End AttachmentRegistration.

(** [LeaseStatus::default] *)
Definition no_lease : LeaseStatus.t := LeaseStatus.Mk false false.

Section attachments.
Context {St : Type} `{Screen St}.
Implicit Types (r : SessionRegistry.t St) (t : SessionTerminal.t St).

(** ** Critical sections *)

Definition with_view_leases {E T} (self : string) (default : T) (f : LeaseRegistry.t → T) :
    action St E T :=
  t ← reading (λ r, shared r self);
  reading (λ r, Ok (match SessionRegistry.sessions r !! TerminalOwner.session_id (SessionTerminal.owner t) with
                    | Some root => f (View.leases (Session.view root))
                    | None => default
                    end)).

Definition change_view_leases {E T} (self : string) (default : T)
    (f : LeaseRegistry.t → T * LeaseRegistry.t) : action St E T :=
  t ← reading (λ r, shared r self);
  let owner := TerminalOwner.session_id (SessionTerminal.owner t) in
  root ← reading (λ r, Ok (SessionRegistry.sessions r !! owner));
  result ← (match root with
            | None => mret default
            | Some root =>
                let '(result, leases) := f (View.leases (Session.view root)) in
                _ ← on_sessions <[owner := Session.set_view (View.set_leases leases) root]>;
                mret result
            end);
  _ ← publish_layout_leases owner;
  mret result.

(** [lock(&self.leases)] *)
Definition change_leases {E T} (self : string) (f : LeaseRegistry.t → T * LeaseRegistry.t) : action St E T :=
  t ← reading (λ r, shared r self);
  let '(result, leases) := f (SessionTerminal.leases t) in
  _ ← on_store <[self := SessionTerminal.set_attachments leases (SessionTerminal.attachments t) t]>;
  mret result.

(** [lock(&self.attachments)] *)
Definition change_attachments {E T} (self : string)
    (f : gmap string AttachmentRecord.t → T * gmap string AttachmentRecord.t) : action St E T :=
  t ← reading (λ r, shared r self);
  let '(result, attachments) := f (SessionTerminal.attachments t) in
  _ ← on_store <[self := SessionTerminal.set_attachments (SessionTerminal.leases t) attachments t]>;
  mret result.

(** The first of the random candidates that is not in use *)
Fixpoint pick_token (candidates : list string) (attachments : gmap string AttachmentRecord.t) :
    option string :=
  match candidates with
  | [] => None
  | candidate :: candidates =>
      if decide (is_Some (attachments !! candidate)) then pick_token candidates attachments
      else Some candidate
  end.

(** A new record under the first candidate that is not in use; the answer is its token. *)
Definition enroll (attachment_id : string) (candidates : list string) (peer : AttachmentPeer)
    (attachments : gmap string AttachmentRecord.t) : option string * gmap string AttachmentRecord.t :=
  match pick_token candidates attachments with
  | None => (None, attachments)
  | Some token =>
      (Some token, <[token := AttachmentRecord.Mk attachment_id peer 0 true 0]> attachments)
  end.

Definition register {E} (self attachment_id : string) (candidates : list string) (peer : AttachmentPeer) :
    action St E string :=
  token ← change_attachments self (enroll attachment_id candidates peer);
  lift (expect token).

(** Rebinding: the identifier and the new generation *)
Definition rebind (token : string) (peer : option AttachmentPeer)
    (attachments : gmap string AttachmentRecord.t) :
    option (string * N) * gmap string AttachmentRecord.t :=
  match attachments !! token with
  | None => (None, attachments)
  | Some record =>
      match succ64 (AttachmentRecord.generation record) with
      | None => (None, attachments)
      | Some generation =>
          (Some (AttachmentRecord.attachment_id record, generation),
           <[token := AttachmentRecord.Mk (AttachmentRecord.attachment_id record)
               (default (AttachmentRecord.peer record) peer) generation true generation]> attachments)
      end
  end.

Definition suspend (token : string) (generation : N) (attachments : gmap string AttachmentRecord.t) :
    bool * gmap string AttachmentRecord.t :=
  match attachments !! token with
  | None => (false, attachments)
  | Some record =>
      if negb (bool_decide (AttachmentRecord.generation record = generation)) ||
         negb (AttachmentRecord.connected record) then (false, attachments)
      else (true, <[token := AttachmentRecord.Mk (AttachmentRecord.attachment_id record)
              (AttachmentRecord.peer record) (AttachmentRecord.generation record) false
              (AttachmentRecord.superseded record)]> attachments)
  end.

(** Removing a record: of a lost connection when its grace period ends ([expire]), or of
    the current one when the client detaches *)
Definition drop_record (expire : bool) (token : string) (generation : N)
    (attachments : gmap string AttachmentRecord.t) : option string * gmap string AttachmentRecord.t :=
  match attachments !! token with
  | None => (None, attachments)
  | Some record =>
      if negb (bool_decide (AttachmentRecord.generation record = generation)) ||
         (expire && AttachmentRecord.connected record) then (None, attachments)
      else (Some (AttachmentRecord.attachment_id record), delete token attachments)
  end.

Definition release_input {E} (self attachment_id : string) : action St E () :=
  change_leases self (λ leases, ((), LeaseRegistry.release_attachment leases attachment_id)).

Definition release_layout {E} (self attachment_id : string) : action St E () :=
  change_view_leases self () (λ leases, ((), LeaseRegistry.release_attachment leases attachment_id)).

(** ** Operations *)

Definition create_attachment_inner {E} (self attachment_id : string) (candidates : list string)
    (request_input_lease request_layout_lease : bool) (peer : AttachmentPeer) :
    action St E AttachmentRegistration.t :=
  token ← register self attachment_id candidates peer;
  leases ← change_leases self (λ leases,
             LeaseRegistry.request_initial leases attachment_id request_input_lease false);
  layout ← change_view_leases self no_lease (λ leases,
             let '(granted, leases) :=
               LeaseRegistry.request_initial leases attachment_id false request_layout_lease in
             (AttachmentLeases.layout granted, leases));
  mret (AttachmentRegistration.Mk attachment_id token 0
          (AttachmentLeases.Mk (AttachmentLeases.input leases) layout)).

Definition resume_attachment_inner {E} (self token : string) (peer : option AttachmentPeer) :
    action St E (option AttachmentRegistration.t) :=
  rebound ← change_attachments self (rebind token peer);
  match rebound with
  | None => mret None
  | Some (attachment_id, generation) =>
      input ← change_leases self (λ leases, (LeaseRegistry.status leases attachment_id Input, leases));
      layout ← with_view_leases self no_lease (λ leases, LeaseRegistry.status leases attachment_id LayoutLease);
      mret (Some (AttachmentRegistration.Mk attachment_id token generation
                    (AttachmentLeases.Mk input layout)))
  end.

Definition suspend_attachment_inner {E} (self token : string) (generation : N) : action St E bool :=
  change_attachments self (suspend token generation).

Definition leave {E} (expire : bool) (self token : string) (generation : N) : action St E bool :=
  dropped ← change_attachments self (drop_record expire token generation);
  match dropped with
  | None => mret false
  | Some attachment_id =>
      _ ← release_input self attachment_id;
      _ ← release_layout self attachment_id;
      mret true
  end.

Definition expire_attachment_inner {E} : string → string → N → action St E bool := leave true.
Definition close_attachment_inner {E} : string → string → N → action St E bool := leave false.

Definition acquire_lease_inner {E} (self attachment_id : string) (lease : LeaseKind) :
    action St E LeaseStatus.t :=
  if decide (lease = LayoutLease)
  then change_view_leases self no_lease (λ leases, LeaseRegistry.acquire leases attachment_id lease)
  else change_leases self (λ leases, LeaseRegistry.acquire leases attachment_id lease).

Definition release_lease_inner {E} (self attachment_id : string) (lease : LeaseKind) :
    action St E LeaseStatus.t :=
  if decide (lease = LayoutLease)
  then change_view_leases self no_lease (λ leases, LeaseRegistry.release leases attachment_id lease)
  else change_leases self (λ leases, LeaseRegistry.release leases attachment_id lease).

Definition owns_input_lease t (attachment_id : string) : bool :=
  LeaseStatus.owned_by_client (LeaseRegistry.status (SessionTerminal.leases t) attachment_id Input).

(** [write_input] up to the write itself *)
Definition write_input (self attachment_id : string) : action St SessionControlError () :=
  t ← reading (λ r, shared r self);
  lift (fail_if (negb (owns_input_lease t attachment_id)) InputLeaseRequired).
End attachments.
