(* ===== verification/Delivery.v ===== *)
(** What an attachment is given of a terminal (snapshot_for_attach, snapshot_for_delivery
    and fresh_snapshot of ctmux/daemon/src/session.rs): the raw output from a sequence on,
    and a checkpoint when the journal no longer holds that output or when the client would
    otherwise read past a change of size it has not been told of.

    What the journal, the checkpoints and the geometry of a terminal have to do with each
    other, and that every operation keeps it: the latest checkpoint lies inside the
    retained output and was taken at the current geometry, and the one kept for the newest
    change of size was taken exactly at that change.  From this follows what
    [snapshot_for_delivery] returns. *)

From S2P Require Import Prelude.
From S2P Require Import Cells.
From S2P Require Import Terminal.
From S2P Require Import Parser.
From S2P Require Import Vt.
From S2P Require Import Dump.
From S2P Require Import Layout.
From S2P Require Import Journal.
From S2P Require Import Utf8.
From S2P Require Import Observers.
From S2P Require Import History.
From S2P Require Import Retention.
From S2P Require Import ShellState.
From S2P Require Import ShellReports.
From S2P Require Import LiveTerminal.
From S2P Require Import Sessions.
From stdpp Require Import strings.
From Stdlib Require Import Init.Byte.

Module AttachSnapshot.
Record t := Mk {
  session : SessionInfo.t; checkpoint : option TerminalCheckpoint.t; checkpoint_keyboard_prefix_bytes : nat;
  checkpoint_geometry_revision : option N; journal : JournalSnapshot.t; history_gap : bool;
  history : option HistorySnapshot.t; history_rows : option PhysicalHistory.t; scrollback_limit : N;
  shell_state : ShellState.t }.
End AttachSnapshot.

Section delivery.
Context `{UnicodeWidth}.
Implicit Types (s : LiveTerminal.t) (owner : TerminalOwner.t).

(** The latest checkpoint with what was captured beside it *)
Definition captured s : GeometryCheckpoint.t :=
  GeometryCheckpoint.Mk (LiveTerminal.checkpoint s) (LiveTerminal.checkpoint_keyboard_prefix_bytes s)
    (LiveTerminal.checkpoint_history s) (LiveTerminal.checkpoint_history_rows s)
    (LiveTerminal.checkpoint_geometry_revision s).

(** The client would read past a change of size it does not know. *)
Definition geometry_checkpoint_required (requested revision : option N) s : bool :=
  match revision with None => true | Some revision => bool_decide (revision < LiveTerminal.geometry_revision s)%N end &&
  match requested, LiveTerminal.last_geometry_change_sequence s with
  | Some sequence, Some boundary => bool_decide (sequence ≤ boundary)%N
  | _, _ => false
  end.

Definition chosen_checkpoint (requested revision : option N) s : option GeometryCheckpoint.t :=
  let earliest_sequence := OutputJournal.earliest_sequence (LiveTerminal.journal s) in
  if match requested with None => true | Some sequence => bool_decide (sequence < earliest_sequence)%N end
  then Some (captured s)
  else if geometry_checkpoint_required requested revision s then
    Some (match LiveTerminal.last_geometry_checkpoint s with
          | Some kept =>
              if decide (earliest_sequence ≤ TerminalCheckpoint.sequence (GeometryCheckpoint.checkpoint kept))%N
              then kept else captured s
          | None => captured s
          end)
  else None.

Definition snapshot_for_delivery owner (terminal_id : string) (requested revision : option N) s :
    option (JournalError + AttachSnapshot.t) :=
  let journal := LiveTerminal.journal s in
  let next := OutputJournal.next_sequence journal in
  if match requested with Some sequence => bool_decide (next < sequence)%N | None => false end
  then Some (inl (SequenceAhead (default 0%N requested) next)) else
  let chosen := chosen_checkpoint requested revision s in
  let replay_from :=
    match chosen with
    | Some c => TerminalCheckpoint.sequence (GeometryCheckpoint.checkpoint c)
    | None => default (OutputJournal.earliest_sequence journal) requested
    end in
  snapshot ← OutputJournal.snapshot_from journal (Some replay_from);
  match snapshot with
  | inl error => Some (inl error)
  | inr snapshot =>
      let history_gap :=
        match requested with
        | Some sequence => bool_decide (sequence < JournalSnapshot.replay_from snapshot)%N
        | None => false
        end || match chosen with
               | Some c => HistorySnapshot.truncated (GeometryCheckpoint.history c)
               | None => false
               end in
      let snapshot_size :=
        match chosen with
        | Some c => TerminalCheckpoint.terminal_size (GeometryCheckpoint.checkpoint c)
        | None => LiveTerminal.terminal_size s
        end in
      Some (inr (AttachSnapshot.Mk
        (SessionInfo.Mk (TerminalOwner.session_id owner) (TerminalOwner.view_id owner) terminal_id
           (TerminalOwner.name owner) (TerminalOwner.created_at_ms owner) next (LiveTerminal.terminal_size s))
        (GeometryCheckpoint.checkpoint <$> chosen)
        (from_option GeometryCheckpoint.checkpoint_keyboard_prefix_bytes 0 chosen)
        (GeometryCheckpoint.geometry_revision <$> chosen) snapshot history_gap
        (GeometryCheckpoint.history <$> chosen) (GeometryCheckpoint.history_rows <$> chosen)
        (N.of_nat (terminal_scrollback_rows snapshot_size)) (LiveTerminal.shell_state s)))
  end.

Definition fresh_snapshot owner (terminal_id : string) s :
    option ((JournalError + AttachSnapshot.t) * LiveTerminal.t) :=
  s ← refresh_checkpoint s;
  snapshot ← snapshot_for_delivery owner terminal_id None None s;
  Some (snapshot, s).

Definition snapshot_for_attach owner (terminal_id : string) (requested : option N) s :
    option ((JournalError + AttachSnapshot.t) * LiveTerminal.t) :=
  match requested with
  | None => fresh_snapshot owner terminal_id s
  | Some _ => snapshot ← snapshot_for_delivery owner terminal_id requested None s; Some (snapshot, s)
  end.
End delivery.

Import LiveTerminal.

(** [step x with pat] enters the continuation of a bind whose first part satisfies [x]. *)
Tactic Notation "part" uconstr(H) := eapply Partial_bind; [eapply H | simpl].
Ltac part_any a E := apply Partial_bind_eq; intros a E.

Section same.
Context `{UnicodeWidth}.
Implicit Types (s : LiveTerminal.t) (data : list byte).

(** Everything a delivery reads, but for the emulator's history *)
Record same_window s s' : Prop := {
  same_journal : journal s' = journal s;
  same_size : terminal_size s' = terminal_size s;
  same_revision : geometry_revision s' = geometry_revision s;
  same_boundary : last_geometry_change_sequence s' = last_geometry_change_sequence s;
  same_kept : last_geometry_checkpoint s' = last_geometry_checkpoint s;
  same_captured : captured s' = captured s;
  same_physical : physical_ok (primary_history_rows s) → physical_ok (primary_history_rows s') }.

Lemma window_refl s : same_window s s.
Proof. by split. Qed.

Lemma window_trans s1 s2 s3 : same_window s1 s2 → same_window s2 s3 → same_window s1 s3.
Proof. intros [] []. split; first [congruence|by auto]. Qed.

(** Nor is the state of the shell changed. *)
Definition untouched s s' : Prop := same_window s s' ∧ shell_state s' = shell_state s.

Lemma untouched_refl s : untouched s s.
Proof. split; [apply window_refl|done]. Qed.

Lemma untouched_trans s1 s2 s3 : untouched s1 s2 → untouched s2 s3 → untouched s1 s3.
Proof. intros [H12 ?] [H23 ?]. split; [exact (window_trans _ _ _ H12 H23)|congruence]. Qed.

Ltac same := split; [split; try reflexivity; by auto|reflexivity].

(** New physical rows are consistent. *)
Lemma replaced current rows p s : PhysicalHistory.replace current rows = Some p → primary_history_rows s = current →
  physical_ok (primary_history_rows s) → physical_ok p.
Proof. intros E <- Hok. exact (Partial_elim _ _ _ (physical_replace_ok _ rows Hok) E). Qed.
#[local] Hint Extern 1 (physical_ok _) => (eapply replaced; [eassumption|reflexivity|assumption]) : core.

Lemma refresh_history_same s : refresh_history s ↠ untouched s.
Proof.
  unfold refresh_history. destruct (history_alternate_screen s).
  - case_decide; [|apply untouched_refl]. part_any p Ep. part_any h Eh. same.
  - destruct (history_lines s) as [n lines]. part_any r Er. part_any p Ep. part_any h Eh. same.
Qed.

Lemma apply_clear_same s : apply_pending_history_clear s ↠ untouched s.
Proof.
  unfold apply_pending_history_clear. destruct (_ || _); [apply untouched_refl|].
  part_any p Ep. part_any r Er. part_any v Ev. destruct v. same.
Qed.

Lemma history_action_same function s : history_action function s ↠ λ '(_, s'), untouched s s'.
Proof.
  unfold history_action.
  destruct function as [f|]; [|apply untouched_refl].
  destruct f; try apply untouched_refl.
  all: try (destruct scope; apply untouched_refl).
  all: part_any probe Ep; part_any probe2 Ep2; part_any probe3 Ep3.
  all: destruct (_ && _); [|same].
  all: eapply Partial_bind; [apply refresh_history_same|]; intros s' Hs; simpl.
  all: eapply untouched_trans; [exact Hs|same].
Qed.

Lemma feed_character_same ch s : feed_terminal_character ch s ↠ λ '(_, s'), untouched s s'.
Proof.
  unfold feed_terminal_character.
  destruct (AlternateScreenTracker.observe _ _) as [hint tracker].
  part_any pf Epf. destruct pf as [parser function].
  eapply Partial_bind; [apply history_action_same|]. intros [action s1] H1. simpl.
  part_any emulator Ee.
  assert (untouched s s1) as Hs by (eapply untouched_trans; [|exact H1]; same).
  destruct action as [[]|].
  - part_any h Eh. part_any p Ep.
    eapply untouched_trans; [exact Hs|same].
  - part_any h Eh. part_any p Ep. eapply Partial_bind; [apply apply_clear_same|]. intros s2 H2. simpl.
    eapply untouched_trans; [exact Hs|]. eapply untouched_trans; [|exact H2]. same.
  - eapply Partial_bind; [apply apply_clear_same|]. intros s2 H2. simpl.
    eapply untouched_trans; [exact Hs|]. eapply untouched_trans; [|exact H2]. same.
Qed.

Lemma collect_garbage_same s : collect_garbage s ↠ untouched s.
Proof. unfold collect_garbage. part_any v Ev. destruct v. same. Qed.

Lemma feed_text_go_same gc text : ∀ index hint s, feed_text_go gc index text hint s ↠ λ '(_, s'), untouched s s'.
Proof.
  induction text as [|ch text IH]; intros index hint s; [apply untouched_refl|]. cbn [feed_text_go].
  eapply Partial_bind; [apply feed_character_same|]. intros [hint' s1] H1. simpl.
  eapply (Partial_bind _ _ (untouched s1)).
  - case_decide; [apply collect_garbage_same|apply untouched_refl].
  - intros s2 H2. eapply Partial_mono; [apply IH|]. intros [h s3] H3.
    eapply untouched_trans; [exact H1|]. by eapply untouched_trans.
Qed.

Lemma feed_text_same text s : feed_terminal_text text s ↠ λ '(_, s'), untouched s s'.
Proof.
  unfold feed_terminal_text. eapply Partial_bind; [apply feed_text_go_same|]. intros [hint s1] H1. simpl.
  eapply Partial_bind; [apply collect_garbage_same|]. intros s2 H2. simpl. by eapply untouched_trans.
Qed.

Lemma feed_bytes_go_same fuel : ∀ hint s, feed_bytes_go fuel hint s ↠ λ '(_, s'), untouched s s'.
Proof.
  induction fuel as [|fuel IH]; intros hint s; [done|]. cbn [feed_bytes_go].
  destruct (from_utf8 _) as [valid|valid up_to error_len].
  - eapply Partial_bind; [apply feed_text_same|]. intros [hint' s1] H1. simpl.
    eapply untouched_trans; [exact H1|same].
  - case_decide; [|destruct error_len as [n|]; [|apply untouched_refl]].
    all: eapply Partial_bind; [first [apply feed_text_same|apply feed_character_same]|]; intros [hint' s1] H1; simpl.
    all: eapply Partial_mono; [apply IH|]; intros [h s2] H2.
    all: eapply untouched_trans; [exact H1|]; eapply untouched_trans; [|exact H2]; same.
Qed.

Lemma feed_output_same bytes s : feed_terminal_output bytes s ↠ λ '(_, s'), untouched s s'.
Proof.
  unfold feed_terminal_output. eapply Partial_mono; [apply feed_bytes_go_same|].
  intros [h s2] H2. eapply untouched_trans; [|exact H2]. same.
Qed.
End same.

Section window.
Context `{UnicodeWidth}.
Implicit Types (s : LiveTerminal.t) (c : GeometryCheckpoint.t) (stream data : list byte).

Definition sequence_of c : N := TerminalCheckpoint.sequence (GeometryCheckpoint.checkpoint c).

(** What a checkpoint holds: a keyboard preamble, the other input modes and the dump of an
    emulator, as UTF-8, with the history of the same moment. *)
Record captured_ok c : Prop := {
  captured_payload : ∃ modes emulator dump, vt_dump emulator = Some dump ∧
    TerminalCheckpoint.payload (GeometryCheckpoint.checkpoint c) =
      encode_all (InputModes.restore_keyboard_sequence modes ++ InputModes.restore_sequences modes ++ dump) ∧
    GeometryCheckpoint.checkpoint_keyboard_prefix_bytes c =
      length (encode_all (InputModes.restore_keyboard_sequence modes));
  captured_history : HistorySnapshot.sequence (GeometryCheckpoint.history c) = sequence_of c;
  captured_formats :
    TerminalCheckpoint.format (GeometryCheckpoint.checkpoint c) = TERMINAL_CHECKPOINT_FORMAT ∧
    TerminalCheckpoint.format_version (GeometryCheckpoint.checkpoint c) = TERMINAL_CHECKPOINT_FORMAT_VERSION ∧
    HistorySnapshot.format (GeometryCheckpoint.history c) = TERMINAL_HISTORY_FORMAT ∧
    HistorySnapshot.format_version (GeometryCheckpoint.history c) = TERMINAL_HISTORY_FORMAT_VERSION;
  captured_physical : physical_ok (GeometryCheckpoint.history_rows c);
  captured_limit : length (PhysicalHistory.rows (GeometryCheckpoint.history_rows c)) ≤
    terminal_scrollback_rows (TerminalCheckpoint.terminal_size (GeometryCheckpoint.checkpoint c)) }.

Record window_ok (capacity : nat) stream s : Prop := {
  w_journal : journal_of capacity stream (journal s);
  w_captured : captured_ok (captured s);
  w_physical : physical_ok (primary_history_rows s);
  w_retained : (OutputJournal.earliest_sequence (journal s) ≤ sequence_of (captured s))%N;
  w_past : (sequence_of (captured s) ≤ N.of_nat (length stream))%N;
  w_size : TerminalCheckpoint.terminal_size (checkpoint s) = terminal_size s;
  w_revision : checkpoint_geometry_revision s = geometry_revision s;
  w_boundary : match last_geometry_change_sequence s, last_geometry_checkpoint s with
    | None, None => True
    | Some boundary, Some kept =>
        sequence_of kept = boundary ∧ (boundary ≤ sequence_of (captured s))%N ∧
        GeometryCheckpoint.geometry_revision kept = geometry_revision s ∧ captured_ok kept
    | _, _ => False
    end }.

Lemma capture_rows_length lines : ∀ unwrapper, capture_rows lines unwrapper ↠ λ rows, length rows = length lines.
Proof.
  induction lines as [|line lines IH]; intros unwrapper; [done|]. cbn [capture_rows].
  destruct (TextUnwrapper.push _ _) as [u complete]. part_any row Er.
  eapply Partial_bind; [apply IH|]. intros rows Hr. simpl. by rewrite Hr.
Qed.

(** The rows retained are at most as many as the size allows. *)
Lemma refresh_history_limit s : refresh_history s ↠ λ s',
  length (PhysicalHistory.rows (primary_history_rows s')) ≤ terminal_scrollback_rows (terminal_size s).
Proof.
  unfold refresh_history. destruct (history_alternate_screen s).
  - case_decide as Hle; [|simpl; lia]. eapply Partial_bind; [apply physical_replace_rows|]. intros p Ep.
    part_any h Eh. simpl. rewrite Ep, length_drop. lia.
  - destruct (history_lines s) as [n lines] eqn:El.
    eapply Partial_bind; [apply capture_rows_length|]. intros rows Hr.
    eapply Partial_bind; [apply physical_replace_rows|]. intros p Ep.
    part_any h Eh. simpl. rewrite Ep, Hr. unfold history_lines in El. injection El as _ <-.
    rewrite length_take. lia.
Qed.

(** A captured checkpoint is at the end of the output. *)
Lemma refresh_checkpoint_captures s : refresh_checkpoint s ↠ λ s',
  (physical_ok (primary_history_rows s) → captured_ok (captured s') ∧ physical_ok (primary_history_rows s')) ∧
  sequence_of (captured s') = OutputJournal.next_sequence (journal s) ∧
  checkpoint_geometry_revision s' = geometry_revision s ∧
  TerminalCheckpoint.terminal_size (checkpoint s') = terminal_size s ∧
  journal s' = journal s ∧ terminal_size s' = terminal_size s ∧ geometry_revision s' = geometry_revision s ∧
  last_geometry_change_sequence s' = last_geometry_change_sequence s ∧
  last_geometry_checkpoint s' = last_geometry_checkpoint s.
Proof.
  unfold refresh_checkpoint. eapply Partial_bind; [apply Partial_and; [apply refresh_history_same|apply refresh_history_limit]|].
  intros s1 [[[] _] Hlimit].
  simpl. part_any dump Ed. part_any h Eh. simpl.
  unfold sequence_of, captured. cbn. split_and!; try congruence. intros Hok.
  unfold TerminalHistory.snapshot in Eh. case_decide; [|done]. injection Eh as <-.
  split; [|by auto]. split; [cbn; by eauto 10|done|done|by apply same_physical0|].
  cbn. by rewrite same_size0.
Qed.

Lemma encode_prefix c : captured_ok c →
  GeometryCheckpoint.checkpoint_keyboard_prefix_bytes c ≤
  length (TerminalCheckpoint.payload (GeometryCheckpoint.checkpoint c)).
Proof.
  intros [(modes & v & dump & _ & -> & ->) _ _ _ _]. rewrite encode_all_app, length_app. lia.
Qed.

Lemma earliest_le_next capacity stream j : journal_of capacity stream j →
  (OutputJournal.earliest_sequence j ≤ OutputJournal.next_sequence j)%N ∧
  OutputJournal.next_sequence j = N.of_nat (length stream).
Proof. intros Hj. rewrite (earliest_spec _ _ _ Hj). destruct Hj as [_ -> _ _ _]. lia. Qed.

Lemma window_same capacity stream s s' : same_window s s' → window_ok capacity stream s →
  window_ok capacity stream s'.
Proof.
  intros [Ej Es Eg Eb Ek Ec Ep] [].
  assert (checkpoint s' = checkpoint s ∧ checkpoint_geometry_revision s' = checkpoint_geometry_revision s) as [E1 E2].
  { unfold captured in Ec. injection Ec. auto. }
  split; rewrite ?Ec, ?Ej, ?Es, ?Eg, ?Eb, ?Ek, ?E1, ?E2; auto.
Qed.

Lemma refresh_checkpoint_window capacity stream s : journal_of capacity stream (journal s) →
  physical_ok (primary_history_rows s) →
  match last_geometry_change_sequence s, last_geometry_checkpoint s with
  | None, None => True
  | Some boundary, Some kept => sequence_of kept = boundary ∧ (boundary ≤ N.of_nat (length stream))%N ∧
      GeometryCheckpoint.geometry_revision kept = geometry_revision s ∧ captured_ok kept
  | _, _ => False
  end → refresh_checkpoint s ↠ window_ok capacity stream.
Proof.
  intros Hj Hph Hb. eapply Partial_mono; [apply refresh_checkpoint_captures|].
  intros s' ([Hc Hph']%(λ H, H Hph) & Hs & Er & Es & Ej & Esz & Eg & Eb & Ek).
  destruct (earliest_le_next _ _ _ Hj) as [He Hn].
  split; [by rewrite Ej|done|done|rewrite Ej; lia|lia|congruence|congruence|].
  rewrite Eb, Ek, Eg, Hs, Hn. done.
Qed.

(** A checkpoint taken for a change of geometry is kept as the one at its boundary. *)
Lemma refresh_boundary_window capacity stream s : journal_of capacity stream (journal s) →
  physical_ok (primary_history_rows s) →
  refresh_checkpoint s ↠ λ s', window_ok capacity stream (geometry_boundary s') ∧
    last_geometry_change_sequence (geometry_boundary s') = Some (N.of_nat (length stream)) ∧
    geometry_revision s' = geometry_revision s.
Proof.
  intros Hj Hph. eapply Partial_mono; [apply refresh_checkpoint_captures|].
  intros s' ([Hc Hph']%(λ H, H Hph) & Hs & Er & Es & Ej & Esz & Eg & _).
  destruct (earliest_le_next _ _ _ Hj) as [He Hn].
  assert (captured (geometry_boundary s') = captured s') as Ec by done.
  split; [|by cbn; rewrite Ej, Hn].
  split; rewrite ?Ec; cbn; rewrite ?Ej, ?Hn; try done; try congruence; try lia.
  split_and!; [by rewrite <- Hn, <- Hs|lia|done|].
  destruct Hc as [Hp Hh Hf Hr Hl]. split; [exact Hp|exact Hh|exact Hf|exact Hr|exact Hl].
Qed.

Lemma new_window size capacity history_capacity :
  new size capacity history_capacity ↠ λ s, window_ok capacity [] s ∧ geometry_revision s = 0%N ∧
    last_geometry_change_sequence s = None.
Proof.
  unfold new. part_any v Ev. part_any h Eh. apply Partial_intro. intros s Es.
  match type of Es with refresh_checkpoint ?x = _ =>
    pose proof (Partial_elim _ _ _ (refresh_checkpoint_captures x) Es) as Hc end.
  destruct Hc as (_ & _ & _ & _ & _ & _ & Eg & Eb & _).
  split; [|by rewrite Eg, Eb].
  eapply Partial_elim; [|exact Es]. apply refresh_checkpoint_window; [apply new_journal|done|done].
Qed.

(** * Operations

    Output makes the stream longer; a change of geometry is placed where the stream ends. *)

Record advances s stream s' stream' : Prop := {
  a_stream : stream `prefix_of` stream';
  a_geometry :
    (geometry_revision s' = geometry_revision s ∧
     last_geometry_change_sequence s' = last_geometry_change_sequence s) ∨
    (geometry_revision s' = (geometry_revision s + 1)%N ∧
     last_geometry_change_sequence s' = Some (N.of_nat (length stream'))) }.

Lemma append_journal_partial capacity stream j data : journal_of capacity stream j →
  OutputJournal.append j data ↠ λ '(chunk, j'), journal_of capacity (stream ++ data) j' ∧
    chunk = if decide (data = []) then None else Some (OutputChunk.Mk (N.of_nat (length stream)) data).
Proof.
  intros Hj. destruct (decide (N.of_nat (length (stream ++ data)) ≤ u64_MAX)%N) as [Hle|Hgt].
  { destruct (Safe_elim _ _ (append_journal capacity stream j data Hj Hle)) as (r & -> & Hr). exact Hr. }
  unfold OutputJournal.append. destruct Hj as [_ Hn Hf _ _]. rewrite length_app in Hgt.
  case_decide as Hd; [subst; simpl in Hgt; lia|].
  unfold OutputChunk.sequence_end, add64. cbn [OutputChunk.sequence_start OutputChunk.data].
  rewrite Hn. case_decide; [lia|done].
Qed.

Lemma add64_plus a b : add64 a b ↠ λ r, r = (a + b)%N.
Proof. unfold add64. by case_decide. Qed.

Lemma after_output_window capacity stream data generation interval s s0 : window_ok capacity stream s0 →
  same_window s0 (set_journal (journal s0) s) →
  journal_of capacity (stream ++ data) (journal s) →
  refresh_checkpoint_after_output generation interval s ↠ λ s',
    window_ok capacity (stream ++ data) s' ∧ advances s0 stream s' (stream ++ data).
Proof.
  intros Hw Hsame Hj. unfold refresh_checkpoint_after_output.
  pose proof (same_physical _ _ Hsame (w_physical _ _ _ Hw) : physical_ok (primary_history_rows s)) as Hph.
  destruct (_ || (primary_reflow_pending s && _)) eqn:Hreq.
  - eapply Partial_bind with (P := λ s', journal s' = journal s ∧ geometry_revision s' = (geometry_revision s + 1)%N ∧
      primary_history_rows s' = primary_history_rows s).
    { eapply Partial_bind; [apply add64_plus|]. intros rev ->. done. }
    intros s1 (Ej & Eg & Ep). rewrite orb_true_r.
    eapply Partial_bind; [apply (refresh_boundary_window capacity (stream ++ data)); rewrite ?Ej, ?Ep; done|].
    intros s2 (Hw2 & Hb2 & Eg2). simpl. split.
    + destruct Hw2. split; done.
    + split; [by apply prefix_app_r|]. right. split; [|exact Hb2].
      cbn. rewrite Eg2, Eg. by rewrite (same_revision _ _ Hsame : geometry_revision s = _).
  - cbn [mbind option_bind]. rewrite orb_false_r.
    assert (Hgeo : ∀ s', geometry_revision s' = geometry_revision s →
      last_geometry_change_sequence s' = last_geometry_change_sequence s → advances s0 stream s' (stream ++ data)).
    { intros s' E1 E2. split; [by apply prefix_app_r|]. left.
      rewrite E1, E2. split; [exact (same_revision _ _ Hsame)|exact (same_boundary _ _ Hsame)]. }
    destruct Hw as [Hj0 Hc _ Hr Hp Hsz Hrev Hb].
    destruct Hsame as [_ E5 E6 E7 E8 Ec _]. cbn in E5, E6, E7, E8. change (captured s = captured s0) in Ec.
    assert (checkpoint s = checkpoint s0 ∧ checkpoint_geometry_revision s = checkpoint_geometry_revision s0) as [E2 E4].
    { unfold captured in Ec. injection Ec. auto. }
    destruct (earliest_le_next _ _ _ Hj) as [He Hn]. rewrite length_app in Hn.
    destruct (bool_decide (_ < OutputJournal.earliest_sequence _)%N || _) eqn:Hdue.
    + eapply Partial_bind with (P := λ s', window_ok capacity (stream ++ data) s' ∧ advances s0 stream s' (stream ++ data));
        [|done].
      apply Partial_intro. intros s' Es'.
      pose proof (Partial_elim _ _ _ (refresh_checkpoint_captures s) Es') as (_ & _ & _ & _ & _ & _ & Eg & Eb & _).
      split; [|by apply Hgeo].
      eapply Partial_elim; [|exact Es']. apply refresh_checkpoint_window; [done|done|].
      rewrite E7, E8, E6. destruct (last_geometry_change_sequence s0), (last_geometry_checkpoint s0); try done.
      destruct Hb as (? & ? & ? & ?). rewrite length_app. split_and!; [done|lia|done|done].
    + cbn [mbind option_bind Partial]. split; [|by apply Hgeo].
      apply orb_false_iff in Hdue as [Hstale%bool_decide_eq_false _].
      split; rewrite ?Ec, ?E2, ?E4, ?E5, ?E6, ?E7, ?E8; try done.
      * unfold sequence_of, captured. cbn. rewrite <- E2. lia.
      * rewrite length_app. lia.
Qed.

Lemma revise_same s : revise_shell_state s ↠ λ '(_, s'), same_window s s'.
Proof. unfold revise_shell_state. part_any r Er. by split. Qed.

Lemma append_output_window capacity stream interval data s : window_ok capacity stream s →
  append_output interval data s ↠ λ '(events, _, s'),
    window_ok capacity (stream ++ data) s' ∧ advances s stream s' (stream ++ data) ∧
    (events = [] ↔ data = []).
Proof.
  intros Hw. unfold append_output.
  eapply Partial_bind; [apply feed_output_same|]. intros [hint s1] [H1 _]. simpl.
  eapply Partial_bind.
  { apply (append_journal_partial capacity stream). rewrite (same_journal _ _ H1). apply Hw. }
  intros [chunk j] [Hj Hchunk]. simpl.
  eapply (Partial_bind _ _ (λ '(_, s2), same_window (set_journal j s1) s2)).
  { clear Hchunk Hj. destruct hint as [hint|]; [|apply window_refl]. case_decide; [apply window_refl|].
    eapply Partial_bind; [apply revise_same|]. intros [state s2] H2. simpl. eapply window_trans; [|exact H2]. by split. }
  intros [published s2] H2. simpl.
  eapply Partial_bind.
  { apply (after_output_window capacity stream data _ _ _ s Hw).
    - destruct H1, H2. split; cbn in *; try done; first [etransitivity; eassumption|by auto].
    - by rewrite (same_journal _ _ H2). }
  intros s3 [Hw3 Ha3]. simpl. split_and!; [done|done|]. subst chunk. by case_decide.
Qed.

Lemma resize_live_window capacity stream size s : window_ok capacity stream s →
  resize_live size s ↠ λ '(events, s'),
    window_ok capacity stream s' ∧ advances s stream s' stream ∧
    events = if decide (terminal_size s = size) then []
             else [PtyGeometryChanged size (N.of_nat (length stream)) (geometry_revision s')].
Proof.
  intros Hw. unfold resize_live. case_decide as Hsz.
  { simpl. split_and!; [done| |done]. split; [done|by left]. }
  part_any v Ev. destruct v as [emulator changes].
  eapply Partial_bind; [apply add64_plus|]. intros revision ->.
  eapply Partial_bind; [apply (refresh_boundary_window capacity stream); apply Hw|].
  intros s1 (Hw1 & Hb1 & Eg1). simpl. destruct (earliest_le_next _ _ _ (w_journal _ _ _ Hw1)) as [_ Hn].
  change (journal (geometry_boundary s1)) with (journal s1) in Hn. split_and!; [done| |by rewrite Hn].
  split; [done|]. right. split; [|done]. cbn. by rewrite Eg1.
Qed.

Lemma change_same candidate s : change_shell_state candidate s ↠ λ '(_, s'), same_window s s'.
Proof.
  unfold change_shell_state. case_decide; [apply window_refl|].
  eapply Partial_bind; [apply revise_same|]. intros [state s2] H2. eapply window_trans; [|exact H2]. by split.
Qed.

Lemma report_same `{HomeDirectory} report s : apply_shell_report_to_terminal report s ↠ λ '(_, s'), same_window s s'.
Proof.
  unfold apply_shell_report_to_terminal. destruct (ShellReport.prompt_phase report).
  all: destruct (negb _); [apply window_refl|]; eapply Partial_mono; [apply change_same|].
  all: intros [state s2] H2; eapply window_trans; [|exact H2]; by split.
Qed.

Lemma observation_same `{HomeDirectory} observation s :
  apply_process_observation_to_terminal observation s ↠ λ '(_, s'), same_window s s'.
Proof.
  unfold apply_process_observation_to_terminal. destruct (negb _); [apply window_refl|].
  eapply Partial_mono; [apply change_same|]. intros [state s2] H2. eapply window_trans; [|exact H2]. by split.
Qed.

Lemma end_same s : end_shell_state s ↠ λ '(_, s'), same_window s s'.
Proof.
  unfold end_shell_state. destruct (_ && _); [apply window_refl|].
  eapply Partial_bind; [apply revise_same|]. intros [state s2] H2. simpl. eapply window_trans; [|exact H2]. by split.
Qed.
End window.

(** * What is delivered *)

Section delivered.
Context `{UnicodeWidth}.
Implicit Types (s : LiveTerminal.t) (c : GeometryCheckpoint.t) (stream : list byte) (requested revision : option N).

Definition replay_of (a : AttachSnapshot.t) : N := JournalSnapshot.replay_from (AttachSnapshot.journal a).

(** Whoever reads from [q] on is past the last change of size, or knows it. *)
Definition knows_size s revision (q : N) : Prop :=
  ∀ boundary, last_geometry_change_sequence s = Some boundary →
    (boundary < q)%N ∨ ∃ known, revision = Some known ∧ (geometry_revision s ≤ known)%N.

Lemma not_required q revision s : geometry_checkpoint_required (Some q) revision s = false → knows_size s revision q.
Proof.
  unfold geometry_checkpoint_required, knows_size. intros [Hrev|Hb]%andb_false_iff boundary E.
  - right. destruct revision as [known|]; [|done]. apply bool_decide_eq_false in Hrev. exists known. split; [done|lia].
  - left. rewrite E in Hb. apply bool_decide_eq_false in Hb. lia.
Qed.

(** The output of a snapshot is the stream from its replay point on; with a checkpoint, it
    is the checkpoint's place, and without one the place that was asked for. *)
Record delivers stream s requested revision (a : AttachSnapshot.t) : Prop := {
  d_ahead : ∀ q, requested = Some q → (q ≤ replay_of a)%N;
  d_earliest : (OutputJournal.earliest_sequence (journal s) ≤ replay_of a)%N;
  d_next : (replay_of a ≤ N.of_nat (length stream))%N;
  d_info : SessionInfo.next_sequence (AttachSnapshot.session a) = N.of_nat (length stream);
  d_chunks : spells (replay_of a) (drop (N.to_nat (replay_of a)) stream) (JournalSnapshot.chunks (AttachSnapshot.journal a));
  d_checkpoint : match AttachSnapshot.checkpoint a with
    | Some checkpoint =>
        ∃ c, GeometryCheckpoint.checkpoint c = checkpoint ∧ captured_ok c ∧
        TerminalCheckpoint.sequence checkpoint = replay_of a ∧
        AttachSnapshot.checkpoint_keyboard_prefix_bytes a = GeometryCheckpoint.checkpoint_keyboard_prefix_bytes c ∧
        AttachSnapshot.checkpoint_geometry_revision a = Some (geometry_revision s) ∧
        (∀ boundary, last_geometry_change_sequence s = Some boundary → (boundary ≤ replay_of a)%N) ∧
        AttachSnapshot.history a = Some (GeometryCheckpoint.history c) ∧
        AttachSnapshot.history_rows a = Some (GeometryCheckpoint.history_rows c) ∧
        AttachSnapshot.scrollback_limit a = N.of_nat (terminal_scrollback_rows (TerminalCheckpoint.terminal_size checkpoint))
    | None =>
        requested = Some (replay_of a) ∧ AttachSnapshot.checkpoint_geometry_revision a = None ∧
        AttachSnapshot.history a = None ∧
        (∀ q, requested = Some q → knows_size s revision q)
    end }.

Lemma chosen_spec capacity stream requested revision s : window_ok capacity stream s →
  match chosen_checkpoint requested revision s with
  | Some c => captured_ok c ∧ GeometryCheckpoint.geometry_revision c = geometry_revision s ∧
      (∀ boundary, last_geometry_change_sequence s = Some boundary → (boundary ≤ sequence_of c)%N) ∧
      (OutputJournal.earliest_sequence (journal s) ≤ sequence_of c ≤ N.of_nat (length stream))%N ∧
      (∀ q, requested = Some q → (q ≤ N.of_nat (length stream))%N → (q ≤ sequence_of c)%N)
  | None => ∃ q, requested = Some q ∧ (OutputJournal.earliest_sequence (journal s) ≤ q)%N ∧
      geometry_checkpoint_required requested revision s = false
  end.
Proof.
  intros [Hj Hc _ Hr Hp Hsz Hrev Hb]. unfold chosen_checkpoint.
  assert (∀ boundary, last_geometry_change_sequence s = Some boundary → (boundary ≤ sequence_of (captured s))%N) as Hlast.
  { intros boundary E. rewrite E in Hb. destruct (last_geometry_checkpoint s); [|done]. by destruct Hb as (_ & ? & _). }
  destruct requested as [q|].
  2:{ split_and!; try done. }
  destruct (bool_decide (q < _)%N) eqn:Hq.
  { apply bool_decide_eq_true in Hq. split_and!; try done. intros ? [= <-] _. lia. }
  apply bool_decide_eq_false in Hq.
  destruct (geometry_checkpoint_required (Some q) revision s) eqn:Hreq.
  - unfold geometry_checkpoint_required in Hreq. apply andb_true_iff in Hreq as [_ Hb'].
    destruct (last_geometry_change_sequence s) as [boundary|]; [|done].
    apply bool_decide_eq_true in Hb'.
    destruct (last_geometry_checkpoint s) as [kept|]; [|done]. destruct Hb as (Hs & Hle & Hg & Hk).
    rewrite decide_True by (unfold sequence_of in Hs; lia).
    split_and!; [done|done|intros ? [= <-]; lia|lia|lia|]. intros ? [= <-] _. lia.
  - exists q. split_and!; [done|lia|done].
Qed.

Lemma snapshot_delivers capacity stream owner terminal_id requested revision s : window_ok capacity stream s →
  snapshot_for_delivery owner terminal_id requested revision s ⇓ λ r,
    match r with
    | inl (SequenceAhead q next) => requested = Some q ∧ next = N.of_nat (length stream) ∧ (next < q)%N
    | inr a => delivers stream s requested revision a
    end.
Proof.
  intros Hw. destruct (earliest_le_next _ _ _ (w_journal _ _ _ Hw)) as [He Hn].
  unfold snapshot_for_delivery. rewrite Hn.
  destruct (match requested with Some s => _ | None => false end) eqn:Hahead.
  { destruct requested as [q|]; [|done]. apply bool_decide_eq_true in Hahead. done. }
  assert (Hq : ∀ q, requested = Some q → (q ≤ N.of_nat (length stream))%N).
  { intros q ->. apply bool_decide_eq_false in Hahead. lia. }
  pose proof (chosen_spec capacity stream requested revision s Hw) as Hc.
  set (from := match chosen_checkpoint requested revision s with
    | Some c => TerminalCheckpoint.sequence (GeometryCheckpoint.checkpoint c)
    | None => default (OutputJournal.earliest_sequence (journal s)) requested end).
  assert (Hfrom : (OutputJournal.earliest_sequence (journal s) ≤ from ≤ N.of_nat (length stream))%N).
  { unfold from. destruct (chosen_checkpoint requested revision s); [by destruct Hc as (_ & _ & _ & ? & _)|].
    destruct Hc as (q & -> & Hle & _). simpl. split; [done|by apply Hq]. }
  eapply Safe_bind; [apply (snapshot_from_spec capacity stream); apply Hw|].
  pose proof (earliest_spec _ _ _ (w_journal _ _ _ Hw)) as Hearl.
  rewrite (j_retained _ _ _ (w_journal _ _ _ Hw)) in Hearl.
  intros [[q n]|snapshot] Hs; simpl in Hs |- *.
  { destruct Hs as ([= <-] & -> & Hlt). lia. }
  destruct Hs as (_ & _ & _ & Hreplay & _ & Hspell). unfold id in *. rewrite <- Hearl in *.
  replace (from `max` OutputJournal.earliest_sequence (journal s))%N with from in * by lia.
  split; unfold replay_of; cbn; rewrite ?Hreplay; try done; try lia.
  - intros q E. unfold from. destruct (chosen_checkpoint requested revision s) as [c|].
    + destruct Hc as (_ & _ & _ & _ & Hqc). apply Hqc; [done|by apply Hq].
    + destruct Hc as (q' & -> & _). injection E as ->. done.
  - unfold from. destruct (chosen_checkpoint requested revision s) as [c|]; simpl.
    + exists c. destruct Hc as (Hc & <- & Hlast & _). done.
    + destruct Hc as (q & -> & _ & Hgeo). split_and!; try done. intros ? [= <-]. by apply not_required.
Qed.
Lemma delivery_checkpoint owner terminal_id requested revision s snapshot :
  snapshot_for_delivery owner terminal_id requested revision s = Some (inr snapshot) →
  AttachSnapshot.checkpoint snapshot = GeometryCheckpoint.checkpoint <$> chosen_checkpoint requested revision s ∧
  AttachSnapshot.history snapshot = GeometryCheckpoint.history <$> chosen_checkpoint requested revision s ∧
  AttachSnapshot.history_rows snapshot = GeometryCheckpoint.history_rows <$> chosen_checkpoint requested revision s ∧
  AttachSnapshot.checkpoint_geometry_revision snapshot = GeometryCheckpoint.geometry_revision <$> chosen_checkpoint requested revision s ∧
  AttachSnapshot.checkpoint_keyboard_prefix_bytes snapshot =
    from_option GeometryCheckpoint.checkpoint_keyboard_prefix_bytes 0 (chosen_checkpoint requested revision s) ∧
  AttachSnapshot.scrollback_limit snapshot = N.of_nat (terminal_scrollback_rows
    match chosen_checkpoint requested revision s with
    | Some c => TerminalCheckpoint.terminal_size (GeometryCheckpoint.checkpoint c)
    | None => terminal_size s end).
Proof.
  unfold snapshot_for_delivery. destruct (match requested with Some _ => _ | None => _ end); [done|].
  destruct (OutputJournal.snapshot_from _ _) as [[e|j]|]; [done| |done]. intros [= <-]. done.
Qed.

(** A fresh checkpoint is at the end of the output. *)
Lemma fresh_at_end capacity stream owner terminal_id s s' snapshot : window_ok capacity stream s →
  window_ok capacity stream s' → refresh_checkpoint s = Some s' →
  snapshot_for_delivery owner terminal_id None None s' = Some (inr snapshot) →
  replay_of snapshot = N.of_nat (length stream).
Proof.
  intros Hw Hw' Es Ed. destruct (Partial_elim _ _ _ (refresh_checkpoint_captures s) Es) as (_ & Hs & _).
  destruct (earliest_le_next _ _ _ (w_journal _ _ _ Hw)) as [_ Hn]. rewrite Hn in Hs.
  pose proof (snapshot_delivers capacity stream owner terminal_id None None s' Hw') as Hd. rewrite Ed in Hd. simpl in Hd.
  pose proof (d_checkpoint _ _ _ _ _ Hd) as Hc. destruct (delivery_checkpoint _ _ _ _ _ _ Ed) as (Ec & _).
  change (chosen_checkpoint None None s') with (Some (captured s')) in Ec. simpl in Ec. rewrite Ec in Hc.
  destruct Hc as (_ & _ & _ & Hseq & _). rewrite <- Hseq. exact Hs.
Qed.
End delivered.
