(* ===== verification/LiveRuns.v ===== *)
(** Runs of a terminal: every state it can reach keeps its invariant and a valid published
    state, and on a screen of sensible size whatever is read from the process is taken in
    without a panic. *)

From S2P Require Import Prelude.
From S2P Require Import Cells.
From S2P Require Import Lines.
From S2P Require Import Buffers.
From S2P Require Import Resizing.
From S2P Require Import Functions.
From S2P Require Import Terminal.
From S2P Require Import TerminalInv.
From S2P Require Import Screens.
From S2P Require Import Parser.
From S2P Require Import ParserInv.
From S2P Require Import Vt.
From S2P Require Import Dump.
From S2P Require Import VtInv.
From S2P Require Import DumpTotal.
From S2P Require Import Layout.
From S2P Require Import Journal.
From S2P Require Import Utf8.
From S2P Require Import Observers.
From S2P Require Import History.
From S2P Require Import HistoryInv.
From S2P Require Import Retention.
From S2P Require Import ShellState.
From S2P Require Import ShellReports.
From S2P Require Import LiveTerminal.
From S2P Require Import Sessions.
From S2P Require Import Delivery.
From Stdlib Require Import Init.Byte.
From stdpp Require Import strings.
From Stdlib Require Import Init.Byte Strings.Byte.

Import LiveTerminal.

Section lives.
Context `{UnicodeWidth, HomeDirectory}.
Context (size : TerminalSize.t) (capacity : nat) (history_capacity : N).
Implicit Types (s : LiveTerminal.t) (stream : list byte).

(** A state a terminal can be in, with the output so far *)
Inductive life : list byte → LiveTerminal.t → Prop :=
  | life_new s : new size capacity history_capacity = Some s → life [] s
  | life_output stream interval data s events published s' : life stream s →
      append_output interval data s = Some (events, published, s') → life (stream ++ data) s'
  | life_resize stream to s events s' : life stream s → resize_live to s = Some (events, s') → life stream s'
  | life_report stream report s published s' : life stream s →
      apply_shell_report_to_terminal report s = Some (published, s') → life stream s'
  | life_observation stream observation s published s' : life stream s →
      apply_process_observation_to_terminal observation s = Some (published, s') → life stream s'
  | life_checkpoint stream s s' : life stream s → refresh_checkpoint s = Some s' → life stream s'
  | life_end stream s published s' : life stream s → end_shell_state s = Some (published, s') → life stream s'.

(** ** Deliveries *)

Lemma refresh_session s stream : window_ok capacity stream s → refresh_checkpoint s ↠ λ s',
  window_ok capacity stream s' ∧ geometry_revision s' = geometry_revision s ∧
  last_geometry_change_sequence s' = last_geometry_change_sequence s.
Proof.
  intros Hw. apply Partial_intro. intros s' Es.
  destruct (Partial_elim _ _ _ (refresh_checkpoint_captures s) Es) as (_ & _ & _ & _ & _ & _ & Eg & Eb & _).
  split; [|done]. eapply Partial_elim; [|exact Es]. apply refresh_checkpoint_window; [apply Hw|apply Hw|].
  pose proof (w_boundary _ _ _ Hw) as Hbd. pose proof (w_past _ _ _ Hw).
  destruct (last_geometry_change_sequence s), (last_geometry_checkpoint s); try done.
  destruct Hbd as (? & ? & ? & ?). split_and!; [done|lia|done|done].
Qed.

Lemma life_window stream s : life stream s → window_ok capacity stream s.
Proof.
  induction 1 as [s E|stream interval data s events published s' _ IH E|stream to s events s' _ IH E
    |stream report s published s' _ IH E|stream observation s published s' _ IH E|stream s s' _ IH E|stream s published s' _ IH E].
  - by destruct (Partial_elim _ _ _ (new_window _ _ _) E).
  - by destruct (Partial_elim _ _ _ (append_output_window _ _ interval data s IH) E).
  - by destruct (Partial_elim _ _ _ (resize_live_window _ _ to s IH) E).
  - exact (window_same _ _ _ _ (Partial_elim _ _ _ (report_same report s) E) IH).
  - exact (window_same _ _ _ _ (Partial_elim _ _ _ (observation_same observation s) E) IH).
  - by destruct (Partial_elim _ _ _ (refresh_session s stream IH) E).
  - exact (window_same _ _ _ _ (Partial_elim _ _ _ (end_same s) E) IH).
Qed.

(** ** The state of the shell *)

(** The same metadata, whatever the revision and the hint *)
Definition same_metadata (a b : ShellState.t) : Prop :=
  ShellState.has_valid_metadata b = ShellState.has_valid_metadata a.

Lemma revise_metadata s : revise_shell_state s ↠ λ '(_, s'), same_metadata (shell_state s) (shell_state s') ∧
  ShellState.revision (shell_state s') = (ShellState.revision (shell_state s) + 1)%N.
Proof.
  unfold revise_shell_state. eapply Partial_bind; [apply add64_plus|]. intros r ->. done.
Qed.

(** Every operation publishes valid metadata, and never an older revision. *)
Definition shell_kept s s' : Prop :=
  (ShellState.has_valid_metadata (shell_state s) = true → ShellState.has_valid_metadata (shell_state s') = true) ∧
  (ShellState.revision (shell_state s) ≤ ShellState.revision (shell_state s'))%N ∧
  (ShellState.revision (shell_state s) = ShellState.revision (shell_state s') → shell_state s = shell_state s').

Lemma shell_kept_same s s' : shell_state s' = shell_state s → shell_kept s s'.
Proof. unfold shell_kept. intros ->. done. Qed.

Lemma refresh_checkpoint_shell s : refresh_checkpoint s ↠ λ s', shell_state s' = shell_state s.
Proof.
  unfold refresh_checkpoint. eapply Partial_bind; [apply refresh_history_same|]. intros s1 [_ Es].
  part_any dump Ed. part_any h Eh. exact Es.
Qed.

Lemma change_shell candidate s : ShellState.has_valid_metadata candidate = true →
  ShellState.revision candidate = ShellState.revision (shell_state s) →
  change_shell_state candidate s ↠ λ '(_, s'), shell_kept s s'.
Proof.
  intros Hv Hr. unfold change_shell_state. case_decide; [by apply shell_kept_same|].
  eapply Partial_bind; [apply revise_metadata|]. intros [state s'] [Hm Hrev]. simpl in *.
  unfold same_metadata in Hm. cbn [shell_state set_shell_state] in Hm, Hrev. split_and!; [congruence|lia|lia].
Qed.

Lemma report_shell report s : apply_shell_report_to_terminal report s ↠ λ '(_, s'), shell_kept s s'.
Proof.
  unfold apply_shell_report_to_terminal. destruct (ShellReport.prompt_phase report).
  all: destruct (negb _) eqn:E; [by apply shell_kept_same|apply negb_false_iff in E].
  all: apply (change_shell _ (set_cwds _ _ s)); [exact E|done].
Qed.

Lemma observation_shell observation s : apply_process_observation_to_terminal observation s ↠ λ '(_, s'), shell_kept s s'.
Proof.
  unfold apply_process_observation_to_terminal. destruct (negb _) eqn:E; [by apply shell_kept_same|apply negb_false_iff in E].
  apply (change_shell _ (set_cwds _ _ s)); [exact E|]. unfold set_observed_cwd. by destruct (observed_cwd _ _).
Qed.

Lemma end_shell s : end_shell_state s ↠ λ '(_, s'), shell_kept s s'.
Proof.
  unfold end_shell_state. destruct (_ && _); [by apply shell_kept_same|].
  eapply Partial_bind; [apply revise_metadata|]. intros [state s'] [Hm Hrev]. simpl in *.
  unfold same_metadata in Hm. cbn [shell_state set_shell_state] in Hm, Hrev. split_and!; [|cbn in Hrev; lia|cbn in Hrev; lia].
  rewrite Hm. unfold ShellState.has_valid_metadata. rewrite !andb_true_iff. cbn. by intros [_ ?].
Qed.

Lemma append_output_shell interval data s : append_output interval data s ↠ λ '(_, _, s'), shell_kept s s'.
Proof.
  unfold append_output. eapply Partial_bind; [apply feed_output_same|]. intros [hint s1] [_ E1]. simpl.
  part_any r Er. destruct r as [chunk j].
  eapply (Partial_bind _ _ (λ '(_, s2), shell_kept s s2)).
  { destruct hint as [hint|]; [|by apply shell_kept_same]. case_decide; [by apply shell_kept_same|].
    eapply Partial_bind; [apply revise_metadata|]. intros [state s2] [Hm Hrev]. simpl in *.
    unfold same_metadata in Hm. cbn [shell_state set_shell_state set_tui_hint set_journal] in Hm, Hrev. rewrite E1 in Hm, Hrev.
    split_and!; [|cbn in Hrev; lia|cbn in Hrev; lia]. rewrite Hm. done. }
  intros [published s2] H2. simpl.
  eapply (Partial_bind _ _ (λ s3, shell_state s3 = shell_state s2)).
  { unfold refresh_checkpoint_after_output.
    eapply (Partial_bind _ _ (λ s3, shell_state s3 = shell_state s2)); [destruct (_ || _); [by part_any r Er'|done]|].
    intros s3 E3. eapply (Partial_bind _ _ (λ s4, shell_state s4 = shell_state s3)); [destruct (_ || _ || _); [apply refresh_checkpoint_shell|done]|].
    intros s4 E4. simpl. by destruct (_ || _); simpl; rewrite E4. }
  intros s3 E3. simpl. unfold shell_kept in *. by rewrite E3.
Qed.

Lemma resize_shell to s : resize_live to s ↠ λ '(_, s'), shell_kept s s'.
Proof.
  unfold resize_live. case_decide; [by apply shell_kept_same|]. part_any v Ev. destruct v as [v c]. part_any r Er.
  eapply Partial_bind; [apply refresh_checkpoint_shell|]. intros s' E. simpl. by apply shell_kept_same.
Qed.

Lemma new_shell : new size capacity history_capacity ↠ λ s, shell_state s = ShellState.default.
Proof. unfold new. part_any v Ev. part_any h Eh. exact (refresh_checkpoint_shell _). Qed.

Lemma life_shell stream s : life stream s → ShellState.has_valid_metadata (shell_state s) = true.
Proof.
  induction 1 as [s E|stream interval data s events published s' _ IH E|stream to s events s' _ IH E
    |stream report s published s' _ IH E|stream observation s published s' _ IH E|stream s s' _ IH E|stream s published s' _ IH E].
  - by rewrite (Partial_elim _ _ _ new_shell E).
  - by apply (Partial_elim _ _ _ (append_output_shell interval data s) E).
  - by apply (Partial_elim _ _ _ (resize_shell to s) E).
  - by apply (Partial_elim _ _ _ (report_shell report s) E).
  - by apply (Partial_elim _ _ _ (observation_shell observation s) E).
  - by rewrite (Partial_elim _ _ _ (refresh_checkpoint_shell s) E).
  - by apply (Partial_elim _ _ _ (end_shell s) E).
Qed.
End lives.

Import LiveTerminal.

(** * Decoding *)

Section decoding.
Context `{UnicodeWidth}.
Implicit Types (s : LiveTerminal.t) (ch : char).

(** What the bytes of the process drive besides the emulator *)
Record Decoder := MkDecoder {
  d_modes : InputModes.t; d_parser : Parser.t; d_tracker : AlternateScreenTracker.t }.

Definition decoder s : Decoder := MkDecoder (input_modes s) (history_control_parser s) (alternate_screen s).

(** A full reset takes back the private modes the tracker counts. *)
Definition tracked (function : option Fun.t) (tracker : AlternateScreenTracker.t) : AlternateScreenTracker.t :=
  match function with Some Fun.Ris => (AlternateScreenTracker.reset tracker).2 | _ => tracker end.

Definition decode_char ch (d : Decoder) : option Decoder :=
  '(parser, function) ← Parser.feed ch (d_parser d);
  let tracker := (AlternateScreenTracker.observe (encode ch) (d_tracker d)).2 in
  Some (MkDecoder (InputModes.feed ch (d_modes d)).2 parser
          (tracked function tracker)).

Fixpoint decode (cs : list char) (d : Decoder) : option Decoder :=
  match cs with
  | [] => Some d
  | ch :: cs => d ← decode_char ch d; decode cs d
  end.

Lemma decode_app a b d : decode (a ++ b) d = d ← decode a d; decode b d.
Proof. revert d. induction a as [|c a IH]; intros d; [done|]. simpl. destruct (decode_char c d); [apply IH|done]. Qed.

(** The decoder and the undecoded bytes are left alone. *)
Definition same_decoder s s' : Prop := decoder s' = decoder s ∧ pending_input s' = pending_input s.

Lemma same_decoder_trans s1 s2 s3 : same_decoder s1 s2 → same_decoder s2 s3 → same_decoder s1 s3.
Proof. intros [] []. split; congruence. Qed.

Lemma refresh_history_decoder s : refresh_history s ↠ same_decoder s.
Proof.
  unfold refresh_history. destruct (history_alternate_screen s).
  - case_decide; [|done]. part_any p Ep. part_any h Eh. done.
  - destruct (history_lines s) as [n lines]. part_any r Er. part_any p Ep. part_any h Eh. done.
Qed.

Lemma apply_clear_decoder s : apply_pending_history_clear s ↠ same_decoder s.
Proof.
  unfold apply_pending_history_clear. destruct (_ || _); [done|].
  part_any p Ep. part_any r Er. part_any v Ev. by destruct v.
Qed.

Lemma history_action_decoder function s : history_action function s ↠ λ '(action, s'), same_decoder s s' ∧
  (action = Some true ↔ function = Some Fun.Ris).
Proof.
  unfold history_action. destruct function as [f|]; [|done].
  destruct f; try done; [| |by destruct scope].
  all: part_any probe Ep; part_any probe2 Ep2; part_any probe3 Ep3.
  all: destruct (_ && _); [|done].
  all: eapply Partial_bind; [apply refresh_history_decoder|]; by intros s' [? ?].
Qed.

Lemma feed_character_decodes ch s : feed_terminal_character ch s ↠ λ '(_, s'),
  decode_char ch (decoder s) = Some (decoder s') ∧ pending_input s' = pending_input s.
Proof.
  unfold feed_terminal_character, decode_char. cbn [d_parser d_modes d_tracker decoder].
  destruct (AlternateScreenTracker.observe _ _) as [hint tracker] eqn:Eo.
  part_any pf Epf. destruct pf as [parser function].
  cbn [set_alternate_screen set_input_modes history_control_parser] in Epf. rewrite Epf. cbn [mbind option_bind].
  eapply Partial_bind; [apply history_action_decoder|]. intros [action s1] [[Hd Hp] Ha]. cbn [fst snd].
  part_any emulator Ee.
  assert (tracked function tracker =
    if bool_decide (action = Some true) then (AlternateScreenTracker.reset tracker).2 else tracker) as ->.
  { destruct (decide (action = Some true)) as [E|E].
    - rewrite bool_decide_eq_true_2 by done. unfold tracked. by rewrite (proj1 Ha E).
    - rewrite bool_decide_eq_false_2 by done. destruct function as [f|]; [|done]. destruct f; try done.
      by destruct E, Ha as [_ ->]. }
  injection Hd as Em Eparser Et. cbn [set_history_control_parser set_alternate_screen set_input_modes pending_input] in Hp.
  cbn [set_history_control_parser set_alternate_screen set_input_modes input_modes history_control_parser alternate_screen] in Em, Eparser, Et.
  rewrite <- Em, <- Eparser, <- Et, <- Hp. clear.
  destruct action as [[]|]; cbn beta iota.
  - part_any h Eh. part_any p Ep. done.
  - part_any h Eh. part_any p Ep. eapply Partial_bind; [apply apply_clear_decoder|]. intros s2 [Hd2 Hp2].
    injection Hd2 as Em Eparser Et. split; [|exact Hp2]. unfold decoder. rewrite Em, Eparser, Et. done.
  - eapply Partial_bind; [apply apply_clear_decoder|]. intros s2 [Hd2 Hp2].
    injection Hd2 as Em Eparser Et. split; [|exact Hp2]. unfold decoder. rewrite Em, Eparser, Et. done.
Qed.

Lemma collect_garbage_decoder s : collect_garbage s ↠ same_decoder s.
Proof. unfold collect_garbage. part_any v Ev. by destruct v. Qed.

Lemma feed_text_decodes gc text : ∀ index hint s, feed_text_go gc index text hint s ↠ λ '(_, s'),
  decode text (decoder s) = Some (decoder s') ∧ pending_input s' = pending_input s.
Proof.
  induction text as [|ch text IH]; intros index hint s; [done|]. cbn [feed_text_go decode].
  eapply Partial_bind; [apply feed_character_decodes|]. intros [hint' s1] [-> Hp1]. cbn [mbind option_bind].
  eapply (Partial_bind _ _ (same_decoder s1)).
  - case_decide; [apply collect_garbage_decoder|done].
  - intros s2 [Hd2 Hp2]. eapply Partial_mono; [apply IH|]. intros [h s3] [Hd3 Hp3].
    rewrite Hd2 in Hd3. split; [done|congruence].
Qed.

Lemma feed_terminal_text_decodes text s : feed_terminal_text text s ↠ λ '(_, s'),
  decode text (decoder s) = Some (decoder s') ∧ pending_input s' = pending_input s.
Proof.
  unfold feed_terminal_text. eapply Partial_bind; [apply feed_text_decodes|]. intros [hint s1] [Hd1 Hp1]. simpl.
  eapply Partial_bind; [apply collect_garbage_decoder|]. intros s2 [Hd2 Hp2]. simpl.
  split; [by rewrite Hd2|congruence].
Qed.

Lemma feed_bytes_decodes fuel : ∀ hint s, feed_bytes_go fuel hint s ↠ λ '(_, s'),
  decode (lossy (pending_input s)).1 (decoder s) = Some (decoder s') ∧ pending_input s' = (lossy (pending_input s)).2.
Proof.
  induction fuel as [|fuel IH]; intros hint s; [done|]. cbn [feed_bytes_go].
  pose proof (from_utf8_reads (pending_input s)) as Hr.
  destruct (from_utf8 _) as [valid|valid up_to error_len].
  - rewrite Hr. eapply Partial_bind; [apply feed_terminal_text_decodes|]. intros [hint' s1] [Hd1 _]. by split.
  - destruct Hr as (Hn & Hzero & Hl & Herr).
    assert (∀ cs s1, decode cs (decoder s) = Some (decoder s1) →
      lossy (pending_input s) = (cs ++ (lossy (drop up_to (pending_input s))).1, (lossy (drop up_to (pending_input s))).2) →
      ∀ hint1, feed_bytes_go fuel hint1 (set_pending_input (drop up_to (pending_input s)) s1) ↠ λ '(_, s'),
        decode (lossy (pending_input s)).1 (decoder s) = Some (decoder s') ∧ pending_input s' = (lossy (pending_input s)).2) as Hnext.
    { intros cs s1 Hd1 El hint1. eapply Partial_mono; [apply IH|]. intros [h s2] [Hd2 Hp2].
      cbn [pending_input set_pending_input] in Hd2, Hp2. rewrite El. cbn [fst snd]. rewrite decode_app, Hd1. by split. }
    case_decide as Hup.
    + eapply Partial_bind; [apply feed_terminal_text_decodes|]. intros [hint' s1] [Hd1 Hp1]. rewrite Hp1.
      apply (Hnext valid); [done|]. rewrite Hl. by destruct (lossy (drop up_to (pending_input s))).
    + assert (up_to = 0) as -> by lia. rewrite drop_0 in *. destruct error_len as [n|].
      * destruct Herr as [rest Em]. pose proof (read_char_drops (pending_input s)) as Hdrops. rewrite Em in Hdrops.
        destruct Hdrops as (Hpos & Hle & Erest).
        eapply Partial_bind; [apply feed_character_decodes|]. intros [hint' s1] [Hd1 Hp1]. rewrite Hp1.
        eapply Partial_mono; [apply IH|]. intros [h s2] [Hd2 Hp2].
        cbn [pending_input set_pending_input] in Hd2, Hp2. rewrite (lossy_unfold (pending_input s)), Em, Erest.
        destruct (lossy (drop n (pending_input s))) as [fs p]. cbn [fst snd decode] in *. rewrite Hd1. by split.
      * rewrite lossy_unfold, Herr. done.
Qed.

(** Decoding the bytes of a read is reading them after those left over. *)
Lemma feed_output_decodes data s : feed_terminal_output data s ↠ λ '(_, s'),
  decode (lossy (pending_input s ++ data)).1 (decoder s) = Some (decoder s') ∧
  pending_input s' = (lossy (pending_input s ++ data)).2.
Proof. unfold feed_terminal_output. eapply Partial_mono; [apply feed_bytes_decodes|]. by intros [h s']. Qed.
End decoding.

(** * No panics *)

#[export] Instance daemon_policy : ResizePolicy := false.

Section total.
Context `{UnicodeWidth} `{Upkeep} (Hlevel : upkeep ≠ Loose).
Implicit Types (s : LiveTerminal.t) (ch : char) (k : N).

Definition history_ok (h : TerminalHistory.t) : Prop :=
  TerminalHistory.retained_bytes h = lines_bytes (TerminalHistory.lines h) ∧
  (TerminalHistory.retained_bytes h ≤ TerminalHistory.capacity_bytes h ≤ u64_MAX)%N.

Record live_ok s : Prop := {
  l_terminal : sized_vt (terminal s);
  l_size : Vt.size (terminal s) = (columns_of (terminal_size s), rows_of (terminal_size s));
  l_parser : wf_parser (history_control_parser s);
  l_history : history_ok (history s) }.

(** The counters of the history can be raised [k] more times. *)
Definition room k s : Prop :=
  (TerminalHistory.revision (history s) + k ≤ u64_MAX)%N ∧ (TerminalHistory.generation (history s) + k ≤ u64_MAX)%N.

Definition ready k s : Prop := live_ok s ∧ room k s.

Lemma ready_le k j s : (j ≤ k)%N → ready k s → ready j s.
Proof. intros Hle [Hl [Hr Hg]]. split; [done|]. split; lia. Qed.

(** ** History *)

Lemma visible_short line : length (visible line) ≤ length (Line.cells line).
Proof. unfold visible. apply length_filter. Qed.

Lemma capture_rows_total lines : ∀ unwrapper, Forall (λ l, (N.of_nat (length (Line.cells l)) < 65535)%N) lines →
  capture_rows lines unwrapper ⇓ λ _, True.
Proof.
  induction lines as [|l lines IH]; intros unwrapper Hf; [done|]. cbn [capture_rows].
  apply Forall_cons in Hf as [Hl Hf]. destruct (TextUnwrapper.push l unwrapper) as [u complete].
  eapply Safe_bind.
  { apply capture_row_spec. pose proof (visible_short l). unfold u32_MAX. lia. }
  intros row _. simpl. eapply Safe_bind; [by apply IH|]. by intros rows _.
Qed.

Lemma history_lines_short s : live_ok s → Forall (λ l, (N.of_nat (length (Line.cells l)) < 65535)%N) (history_lines s).2.
Proof.
  intros [[_ Hs] _ _ _]. unfold history_lines. simpl. apply Forall_take, Forall_drop.
  pose proof (wc_buffer _ (wt_core _ (z_wf _ Hs))) as [[_ _ Hl] _].
  eapply Forall_impl; [exact Hl|]. intros l [Hlen _]. rewrite Hlen.
  destruct (sized_shown _ Hs) as [Hc _]. exact Hc.
Qed.

Lemma replace_ready lines cut h : history_ok h → (TerminalHistory.revision h < u64_MAX)%N →
  TerminalHistory.replace lines cut h ⇓ λ h', history_ok h' ∧
    (TerminalHistory.revision h' ≤ TerminalHistory.revision h + 1)%N ∧
    TerminalHistory.generation h' = TerminalHistory.generation h.
Proof.
  intros [Hb Hc] Hr. eapply Safe_mono; [by apply replace_keeps|].
  intros h' (n & [Hn _] & El & Eb & _ & Ec & Eg & Er & _). split_and!.
  - unfold history_ok. rewrite El, Eb, Ec. split; [done|]. lia.
  - rewrite Er. case_decide; lia.
  - done.
Qed.

Lemma refresh_history_ready k s : ready (1 + k) s → refresh_history s ⇓ ready k.
Proof.
  intros [Hl [Hr Hg]]. unfold refresh_history.
  assert (∀ physical cut, (h ← TerminalHistory.replace (PhysicalHistory.lines physical) cut (history s);
    Some (set_history h (set_primary_history_rows physical s))) ⇓ ready k) as Hreplace.
  { intros physical cut. eapply Safe_bind; [apply replace_ready; [apply Hl|lia]|].
    intros h (Hh & Hrev & Hgen). destruct Hl. split; [by split|]. split; cbn; lia. }
  destruct (history_alternate_screen s).
  - case_decide; [|apply (ready_le (1 + k)); [lia|by split]].
    eapply Safe_bind; [apply physical_replace_total|]. intros physical _. apply Hreplace.
  - pose proof (history_lines_short s Hl) as Hshort. destruct (history_lines s) as [n lines].
    eapply Safe_bind; [by apply capture_rows_total|]. intros rows _.
    eapply Safe_bind; [apply physical_replace_total|]. intros physical _. apply Hreplace.
Qed.

Lemma clear_ready k s : ready (1 + k) s → TerminalHistory.clear (history s) ⇓ λ h,
  history_ok h ∧ (TerminalHistory.revision h + k ≤ u64_MAX)%N ∧ (TerminalHistory.generation h + k ≤ u64_MAX)%N.
Proof.
  intros [[_ _ _ [Hb Hc]] [Hr Hg]]. unfold TerminalHistory.clear. rewrite !add64_Some by lia. simpl.
  split_and!; [|lia|lia]. split; [done|]. cbn. lia.
Qed.

(** ** Characters *)

Lemma emulator_ready s : live_ok s → terminal_emulator (terminal_size s) ⇓ λ v,
  sized_vt v ∧ Vt.size v = (columns_of (terminal_size s), rows_of (terminal_size s)).
Proof.
  intros [[_ Hs] Hsz _ _]. unfold terminal_emulator.
  pose proof (z_wf _ Hs) as Hw. pose proof (wc_cols _ (wt_core _ Hw)). pose proof (wc_rows _ (wt_core _ Hw)).
  destruct Hs as [_ Hc Hr _]. unfold Vt.size, Terminal.size in Hsz. injection Hsz as Ec Er. rewrite <- Ec, <- Er.
  apply build_sized; cbn [Vt.Builder.size Vt.Builder.reflow_cursor_line fst snd]; done.
Qed.

Lemma apply_clear_ready k s : ready k s → apply_pending_history_clear s ⇓ ready k.
Proof.
  intros [Hl Hr]. unfold apply_pending_history_clear. destruct (_ || _); [by split|].
  destruct (dump_sized _ (l_terminal _ Hl)) as [payload ->]. cbn [mbind option_bind].
  eapply Safe_bind; [by apply emulator_ready|]. intros v [Hv Hsz].
  eapply Safe_bind; [by apply (feed_str_sized Hlevel)|]. intros [v' c] [Hv' Hsz']. simpl.
  destruct Hl. split; [split; cbn; [done|congruence|done|done]|done].
Qed.

(** The terminal a change of modes is tried on *)
Definition probe_of (alternate : bool) (f : Fun.t) : option Terminal.t :=
  probe ← Terminal.new 2 1 (Some 0);
  probe ← (if alternate
           then modes ← SmallVec.from_vec MODES_INLINE_CAP DecMode.CursorKeys [DecMode.AltScreenBuffer];
                Terminal.execute (Fun.Decset modes) probe
           else Some probe);
  Terminal.execute f probe.

Lemma probe_total alternate f : Fun.wf f → probe_of alternate f ⇓ λ _, True.
Proof.
  intros Hf. unfold probe_of.
  destruct (Safe_elim _ _ (TerminalInv.new_Safe (H0 := true) (H1 := Tidy) 2 1 (Some 0) eq_refl ltac:(lia) ltac:(lia))) as (probe & -> & Hprobe & _).
  cbn [mbind option_bind]. eapply (Safe_bind _ _ (wf_term (H0 := true) (H1 := Tidy))).
  - destruct alternate; [|exact Hprobe].
    destruct (Safe_elim _ _ (SmallVec.from_vec_repr MODES_INLINE_CAP DecMode.CursorKeys [DecMode.AltScreenBuffer])) as (modes & -> & Hm & _).
    cbn [mbind option_bind]. eapply Safe_mono; [by apply (execute_Safe (H0 := true) (H1 := Tidy))|]. by intros p [? _].
  - intros probe2 Hprobe2. eapply Safe_mono; [by apply (execute_Safe (H0 := true) (H1 := Tidy))|done].
Qed.

Lemma history_action_ready k function s : ready (2 + k) s → (∀ f, function = Some f → Fun.wf f) →
  history_action function s ⇓ λ '(_, s'), ready (1 + k) s'.
Proof.
  intros Hs Hf. assert (ready (1 + k) s) as Hk by (apply (ready_le (2 + k)); [lia|done]).
  unfold history_action. destruct function as [f|]; [|done]. specialize (Hf f eq_refl).
  assert (∀ probe, (s' ← (if bool_decide (Terminal.active_buffer_type probe = Alternate) && negb (history_alternate_screen s)
       then refresh_history s else Some s);
     Some (None (A := bool), set_history_alternate_screen (bool_decide (Terminal.active_buffer_type probe = Alternate)) s'))
     ⇓ λ '(_, s'), ready (1 + k) s') as Hrest.
  { intros probe. eapply (Safe_bind _ _ (ready (1 + k))).
    - destruct (_ && _); [|exact Hk]. apply refresh_history_ready.
      by replace (1 + (1 + k))%N with (2 + k)%N by lia.
    - intros s' [[] Hr]. split; [by split|exact Hr]. }
  destruct f; try done; [| |by destruct scope].
  - destruct (Safe_elim _ _ (probe_total (history_alternate_screen s) (Fun.Decrst modes) Hf)) as (probe & E & _).
    unfold probe_of in E. destruct (Terminal.new 2 1 (Some 0)) as [p1|]; [|done]. cbn [mbind option_bind] in E |- *.
    destruct (if history_alternate_screen s then _ else _) as [p2|]; [|done]. cbn [mbind option_bind] in E |- *.
    rewrite E. apply Hrest.
  - destruct (Safe_elim _ _ (probe_total (history_alternate_screen s) (Fun.Decset modes) Hf)) as (probe & E & _).
    unfold probe_of in E. destruct (Terminal.new 2 1 (Some 0)) as [p1|]; [|done]. cbn [mbind option_bind] in E |- *.
    destruct (if history_alternate_screen s then _ else _) as [p2|]; [|done]. cbn [mbind option_bind] in E |- *.
    rewrite E. apply Hrest.
Qed.

Lemma set_terminal_ready k v s : ready k s → sized_vt v → Vt.size v = Vt.size (terminal s) → ready k (set_terminal v s).
Proof. intros [[] Hr] Hv Hsz. split; [split; cbn; [done|congruence|done|done]|exact Hr]. Qed.

Lemma feed_character_ready k ch s : ready (2 + k) s → feed_terminal_character ch s ⇓ λ '(_, s'), ready k s'.
Proof.
  intros Hs. unfold feed_terminal_character. destruct (AlternateScreenTracker.observe _ _) as [hint tracker].
  eapply Safe_bind; [apply feed_Safe; apply Hs|]. intros [parser function] [[Hp _] Hf].
  eapply Safe_bind.
  { apply (history_action_ready k); [|intros f ->; by apply Hf].
    destruct Hs as [[] Hr]. split; [by split|exact Hr]. }
  intros [action s1] Hs1.
  eapply Safe_bind; [apply (feed_sized Hlevel); apply Hs1|]. intros v [Hv Hsz].
  pose proof (set_terminal_ready _ _ _ Hs1 Hv Hsz) as Hs2. cbn beta iota zeta.
  set (s2 := set_terminal v s1) in *.
  assert (∀ h physical, history_ok h → (TerminalHistory.revision h + k ≤ u64_MAX)%N → (TerminalHistory.generation h + k ≤ u64_MAX)%N →
    ready k (set_primary_history_rows physical (set_history h s2))) as Hcleared.
  { intros h physical Hh Hr Hg. destruct Hs2 as [[] _]. split; [by split|]. by split. }
  destruct action as [reset|].
  - eapply Safe_bind; [by apply (clear_ready k)|]. intros h (Hh & Hr & Hg).
    eapply Safe_bind; [apply physical_replace_total|]. intros physical _.
    specialize (Hcleared h physical Hh Hr Hg). destruct reset.
    + destruct (AlternateScreenTracker.reset _) as [r t]. destruct Hcleared as [[] Hroom]. split; [by split|exact Hroom].
    + eapply Safe_bind; [apply (apply_clear_ready k)|by intros s3 Hs3].
      destruct Hcleared as [[] Hroom]. split; [by split|exact Hroom].
  - eapply Safe_bind; [apply (apply_clear_ready k)|by intros s3 Hs3]. apply (ready_le (1 + k)); [lia|done].
Qed.

Lemma collect_garbage_ready k s : ready k s → collect_garbage s ⇓ ready k.
Proof.
  intros Hs. unfold collect_garbage. eapply Safe_bind; [apply (feed_str_sized Hlevel); apply Hs|].
  intros [v c] [Hv Hsz]. by apply set_terminal_ready.
Qed.

Lemma feed_text_ready gc text : ∀ k index hint s, ready (2 * N.of_nat (length text) + k) s →
  feed_text_go gc index text hint s ⇓ λ '(_, s'), ready k s'.
Proof.
  induction text as [|ch text IH]; intros k index hint s Hs.
  { cbn. apply (ready_le (2 * N.of_nat 0 + k)); [lia|done]. }
  cbn [feed_text_go]. eapply Safe_bind.
  { apply (feed_character_ready (2 * N.of_nat (length text) + k)). eapply ready_le; [|exact Hs]. cbn [length]. lia. }
  intros [hint' s1] Hs1. eapply (Safe_bind _ _ (ready (2 * N.of_nat (length text) + k))).
  - case_decide; [by apply collect_garbage_ready|exact Hs1].
  - intros s2 Hs2. by apply IH.
Qed.

Lemma feed_terminal_text_ready text k s : ready (2 * N.of_nat (length text) + k) s →
  feed_terminal_text text s ⇓ λ '(_, s'), ready k s'.
Proof.
  intros Hs. unfold feed_terminal_text. eapply Safe_bind; [by apply (feed_text_ready _ _ k)|].
  intros [hint s1] Hs1. eapply Safe_bind; [by apply collect_garbage_ready|]. by intros s2 Hs2.
Qed.

(** ** Bytes *)

Lemma set_pending_ready k p s : ready k s → ready k (set_pending_input p s).
Proof. intros [[] Hr]. split; [by split|exact Hr]. Qed.

Lemma lossy_length (bytes : list N) : length (lossy bytes).1 + length (lossy bytes).2 ≤ length bytes.
Proof.
  induction bytes as [s IHc IHm] using reading_ind. rewrite lossy_unfold.
  pose proof (read_char_drops s) as Hd. destruct (read_char s) as [c rest|j rest|] eqn:E.
  - specialize (IHc c rest eq_refl). destruct (lossy rest). simpl in *. lia.
  - specialize (IHm j rest eq_refl). destruct Hd as (H1 & H2 & H3). assert (length rest = length s - j) by (rewrite H3; apply length_drop).
    destruct (lossy rest). simpl in *. lia.
  - simpl. lia.
Qed.

Lemma feed_bytes_ready fuel : ∀ k hint s, length (pending_input s) < fuel →
  ready (2 * N.of_nat (length (lossy (pending_input s)).1) + k) s →
  feed_bytes_go fuel hint s ⇓ λ '(_, s'), ready k s'.
Proof.
  induction fuel as [|fuel IH]; intros k hint s Hfuel Hs; [lia|]. cbn [feed_bytes_go].
  pose proof (from_utf8_reads (pending_input s)) as Hr.
  destruct (from_utf8 _) as [valid|valid up_to error_len].
  - rewrite Hr in Hs. cbn [fst] in Hs. eapply Safe_bind; [by apply (feed_terminal_text_ready _ k)|].
    intros [hint' s1] Hs1. by apply set_pending_ready.
  - destruct Hr as (Hn & Hzero & Hl & Herr). case_decide as Hup.
    + destruct (lossy (drop up_to (pending_input s))) as [fs p] eqn:El. rewrite Hl in Hs. cbn [fst] in Hs.
      rewrite length_app in Hs.
      eapply Safe_bind_partial.
      * apply (feed_terminal_text_ready valid (2 * N.of_nat (length fs) + k)). eapply ready_le; [|exact Hs]. lia.
      * apply feed_terminal_text_decodes.
      * intros [hint' s1] Hs1 [_ Hp1]. apply IH.
        -- cbn [set_pending_input pending_input]. rewrite Hp1, length_drop. lia.
        -- cbn [set_pending_input pending_input]. rewrite Hp1, El. by apply set_pending_ready.
    + assert (up_to = 0) as -> by lia. rewrite drop_0 in *. destruct error_len as [n|].
      * destruct Herr as [rest Em]. pose proof (read_char_drops (pending_input s)) as Hdrops. rewrite Em in Hdrops.
        destruct Hdrops as (Hpos & Hle & Erest). rewrite (lossy_unfold (pending_input s)), Em, Erest in Hs.
        destruct (lossy (drop n (pending_input s))) as [fs p] eqn:El. cbn [fst length] in Hs.
        eapply Safe_bind_partial.
        -- apply (feed_character_ready (2 * N.of_nat (length fs) + k)). eapply ready_le; [|exact Hs]. lia.
        -- apply feed_character_decodes.
        -- intros [hint' s1] Hs1 [_ Hp1]. apply IH.
           ++ cbn [set_pending_input pending_input]. rewrite Hp1, length_drop. lia.
           ++ cbn [set_pending_input pending_input]. rewrite Hp1, El. by apply set_pending_ready.
      * apply (ready_le (2 * N.of_nat (length (lossy (pending_input s)).1) + k)); [lia|done].
Qed.

Lemma feed_output_ready k data s :
  ready (2 * N.of_nat (length (lossy (pending_input s ++ data)).1) + k) s →
  feed_terminal_output data s ⇓ λ '(_, s'), ready k s'.
Proof.
  intros Hs. unfold feed_terminal_output. apply feed_bytes_ready; [lia|].
  cbn [set_pending_input set_history_statistics pending_input].
  apply set_pending_ready. destruct Hs as [[] Hr]. split; [by split|exact Hr].
Qed.

(** ** Checkpoints and publishing *)

Lemma refresh_checkpoint_ready k s : ready (1 + k) s → refresh_checkpoint s ⇓ ready k.
Proof.
  intros Hs. unfold refresh_checkpoint. eapply Safe_bind; [by apply refresh_history_ready|]. intros s1 [Hl Hr].
  cbv zeta. destruct (dump_sized _ (l_terminal _ Hl)) as [payload ->]. cbn [mbind option_bind].
  unfold TerminalHistory.snapshot. pose proof (l_history _ Hl) as [Hb Hc]. rewrite decide_True by lia. cbn [mbind option_bind].
  destruct Hl. split; [by split|exact Hr].
Qed.

Lemma refresh_checkpoint_rest s : refresh_checkpoint s ↠ λ s', terminal_size s' = terminal_size s ∧
  shell_state s' = shell_state s ∧ same_decoder s s' ∧ geometry_revision s' = geometry_revision s.
Proof.
  unfold refresh_checkpoint. apply Partial_bind_eq. intros s2 E2.
  pose proof (Partial_elim _ _ _ (refresh_history_same s) E2) as [[] Hsh].
  pose proof (Partial_elim _ _ _ (refresh_history_decoder s) E2) as Hd.
  part_any dump Edump. part_any h Eh. done.
Qed.

(** Room for what [k] reads of [n] bytes together can do to the counters *)
Definition output_room (n : nat) (k : N) s : Prop :=
  room (2 * N.of_nat (length (pending_input s) + n) + k) s ∧ (geometry_revision s + k ≤ u64_MAX)%N ∧
  (ShellState.revision (shell_state s) + k ≤ u64_MAX)%N.

Definition initial_decoder : Decoder := MkDecoder InputModes.default Parser.new AlternateScreenTracker.default.

Lemma new_ready size capacity history_capacity n k : (2 ≤ TerminalSize.columns size < 65535)%N →
  (1 ≤ TerminalSize.rows size < 65536)%N → (1 ≤ history_capacity ≤ u64_MAX)%N →
  (2 * N.of_nat n + k < u64_MAX)%N →
  new size capacity history_capacity ⇓ λ s, live_ok s ∧ output_room n k s ∧ terminal_size s = size ∧
    decoder s = initial_decoder ∧ pending_input s = [].
Proof.
  intros Hc Hr Hh Hroom. unfold new.
  assert (terminal_emulator size ⇓ λ v, sized_vt v ∧ Vt.size v = (columns_of size, rows_of size)) as Hv.
  { unfold terminal_emulator. apply build_sized; cbn [Vt.Builder.size Vt.Builder.reflow_cursor_line fst snd]; [done|..];
      unfold columns_of, rows_of; lia. }
  destruct (Safe_elim _ _ Hv) as (v & -> & Hw & Hsz). cbn [mbind option_bind].
  unfold TerminalHistory.snapshot at 1. rewrite decide_True by (cbn; lia). cbn [mbind option_bind].
  eapply Safe_mono; [eapply Safe_partial; [apply (refresh_checkpoint_ready (2 * N.of_nat n + k))|apply refresh_checkpoint_rest]|].
  - split; [split|]; cbn [terminal terminal_size history_control_parser history]; [done|done|apply wf_parser_new| |].
    + split; [done|]. cbn. lia.
    + split; cbn; lia.
  - intros s [[Hl Hs] (Esz & Esh & [Ed Ep] & Eg)]. cbn [shell_state terminal_size geometry_revision pending_input] in Esz, Esh, Eg, Ep.
    unfold output_room. rewrite Esh, Eg, Ep. split_and!; [done|exact Hs|lia|cbn; lia|by rewrite Esz|by rewrite Ed|done].
Qed.

Lemma after_output_ready generation interval k s : ready (1 + k) s → (geometry_revision s < u64_MAX)%N →
  refresh_checkpoint_after_output generation interval s ⇓ ready k.
Proof.
  intros Hs Hg. unfold refresh_checkpoint_after_output.
  eapply (Safe_bind _ _ (ready (1 + k))).
  { destruct (_ || _); [|exact Hs]. rewrite add64_Some by lia. cbn [mbind option_bind].
    destruct Hs as [[] Hr]. split; [by split|exact Hr]. }
  intros s1 Hs1. eapply (Safe_bind _ _ (ready k)).
  { destruct (_ || _ || _); [by apply refresh_checkpoint_ready|]. apply (ready_le (1 + k)); [lia|done]. }
  intros s2 Hs2. simpl. destruct (_ || _); [|exact Hs2]. destruct Hs2 as [[] Hr]. split; [by split|exact Hr].
Qed.

(** What else of a state the end of [append_output] changes *)
Lemma after_output_rest generation interval s :
  refresh_checkpoint_after_output generation interval s ↠ λ s', terminal_size s' = terminal_size s ∧
    shell_state s' = shell_state s ∧ same_decoder s s' ∧
    (geometry_revision s' ≤ geometry_revision s + 1)%N.
Proof.
  unfold refresh_checkpoint_after_output.
  eapply (Partial_bind _ _ (λ s1, terminal_size s1 = terminal_size s ∧ shell_state s1 = shell_state s ∧ same_decoder s s1 ∧
    (geometry_revision s1 ≤ geometry_revision s + 1)%N)).
  { destruct (_ || _); [|split_and!; [done..|lia]].
    eapply Partial_bind; [apply add64_plus|]. intros r ->. split_and!; [done..|cbn; lia]. }
  intros s1 (E1 & Es1 & Ed1 & Eg1). eapply (Partial_bind _ _ (λ s2, terminal_size s2 = terminal_size s1 ∧
    shell_state s2 = shell_state s1 ∧ same_decoder s1 s2 ∧ geometry_revision s2 = geometry_revision s1)).
  { destruct (_ || _ || _); [apply refresh_checkpoint_rest|done]. }
  intros s2 (E2 & Es2 & Ed2 & Eg2). cbn [Partial mret option_ret].
  assert (∀ s', terminal_size s' = terminal_size s2 → shell_state s' = shell_state s2 → same_decoder s2 s' →
    geometry_revision s' = geometry_revision s2 → terminal_size s' = terminal_size s ∧
    shell_state s' = shell_state s ∧ same_decoder s s' ∧ (geometry_revision s' ≤ geometry_revision s + 1)%N) as Hend.
  { intros s' -> -> Hd ->. split_and!; [congruence..| |lia].
    eapply same_decoder_trans; [exact Ed1|]. by eapply same_decoder_trans. }
  destruct (_ || _); by apply Hend.
Qed.

(** One call of [append_output] from a state with room for it and for more *)
Lemma append_output_ready capacity stream interval data n k s : live_ok s → output_room (length data + n) (1 + k) s →
  journal_of capacity stream (journal s) → (N.of_nat (length (stream ++ data)) ≤ u64_MAX)%N →
  append_output interval data s ⇓ λ '(_, _, s'), live_ok s' ∧ output_room n k s' ∧
    terminal_size s' = terminal_size s ∧
    decode (lossy (pending_input s ++ (Byte.to_N <$> data))).1 (decoder s) = Some (decoder s') ∧
    pending_input s' = (lossy (pending_input s ++ (Byte.to_N <$> data))).2.
Proof.
  intros Hl (Hr & Hg & Hsh) Hj Hfit. unfold append_output.
  set (bytes := Byte.to_N <$> data). set (rest := (lossy (pending_input s ++ bytes)).2).
  eapply (Safe_bind_partial _ _ (ready (2 * N.of_nat (length rest + n) + (1 + k)) ∘ snd)).
  { eapply Safe_mono; [apply feed_output_ready|by intros []].
    pose proof (lossy_length (pending_input s ++ bytes)) as Hll. fold rest in Hll.
    eapply ready_le; [|exact (conj Hl Hr)]. unfold bytes in *. rewrite length_app, length_fmap in Hll. lia. }
  { exact (Partial_and _ _ _ (feed_output_same _ s) (feed_output_decodes _ s)). }
  intros [hint s1] Hs1 [[Hw1 Esh1] [Hd1 Hp1]]. fold bytes in Hp1. fold rest in Hp1. cbn in Hs1.
  eapply Safe_bind; [apply (append_journal capacity stream); [by rewrite (same_journal _ _ Hw1)|done]|].
  intros [chunk j] [Hj' _]. cbv zeta.
  set (kept s2 := ready (2 * N.of_nat (length rest + n) + (1 + k)) s2 ∧ geometry_revision s2 = geometry_revision s ∧
    terminal_size s2 = terminal_size s ∧ decoder s2 = decoder s1 ∧ pending_input s2 = rest ∧
    (ShellState.revision (shell_state s2) ≤ ShellState.revision (shell_state s) + 1)%N).
  assert (kept (set_journal j s1)) as Hs2.
  { split_and!; [destruct Hs1 as [[] ?]; split; [by split|done]|apply Hw1|apply Hw1|done|done|cbn; rewrite Esh1; lia]. }
  eapply (Safe_bind _ _ (kept ∘ snd)).
  { destruct hint as [hint|]; [|exact Hs2]. case_decide; [exact Hs2|].
    unfold revise_shell_state. cbn [shell_state set_tui_hint set_shell_state set_journal ShellState.revision].
    rewrite Esh1, add64_Some by lia. cbn [mbind option_bind]. destruct Hs2 as ([[] ?] & ? & ? & ? & ? & _).
    split_and!; [split; [by split|done]|done|done|done|done|]. cbn. lia. }
  intros [published s2] (Hs2' & Eg & Esz & Ed2 & Ep2 & Hsh2). cbn [snd] in Hs2', Eg, Esz, Ed2, Ep2, Hsh2.
  eapply Safe_bind_partial.
  - apply (after_output_ready _ _ (2 * N.of_nat (length rest + n) + k)); [|lia].
    eapply ready_le; [|exact Hs2']. lia.
  - apply (after_output_rest _ _ s2).
  - intros s3 [Hl3 Hr3] (Esz3 & Esh3 & [Ed3 Ep3] & Eg3). simpl. rewrite Ep3, Ed3, Ed2, Ep2.
    unfold output_room. rewrite Esh3, Ep3, Ep2. split_and!; [done|done|lia|lia|congruence|done|done].
Qed.

(** The reads of a process, one after another *)
Fixpoint append_outputs (interval : N) (outputs : list (list byte)) s : option LiveTerminal.t :=
  match outputs with
  | [] => Some s
  | data :: outputs => '(_, _, s) ← append_output interval data s; append_outputs interval outputs s
  end.

(** What the bytes [data] do to the decoder and to the bytes left over *)
Definition decoded (data : list byte) s s' : Prop :=
  let '(cs, rest) := lossy (pending_input s ++ (Byte.to_N <$> data)) in
  decode cs (decoder s) = Some (decoder s') ∧ pending_input s' = rest.

Lemma decoded_app data data' s s' s'' : decoded data s s' → decoded data' s' s'' → decoded (data ++ data') s s''.
Proof.
  unfold decoded. rewrite fmap_app, app_assoc, (lossy_app (_ ++ _) (Byte.to_N <$> data')).
  destruct (lossy (pending_input s ++ (Byte.to_N <$> data))) as [cs rest]. intros [Hd ->].
  destruct (lossy (rest ++ (Byte.to_N <$> data'))) as [cs' rest']. intros [Hd' -> ]. by rewrite decode_app, Hd.
Qed.

Lemma append_outputs_ready capacity interval outputs k : ∀ stream s, live_ok s →
  output_room (length (mjoin outputs)) (N.of_nat (length outputs) + k) s → window_ok capacity stream s →
  (N.of_nat (length (stream ++ mjoin outputs)) ≤ u64_MAX)%N → lossy (pending_input s) = ([], pending_input s) →
  append_outputs interval outputs s ⇓ λ s', live_ok s' ∧ output_room 0 k s' ∧ terminal_size s' = terminal_size s ∧
    window_ok capacity (stream ++ mjoin outputs) s' ∧ decoded (mjoin outputs) s s'.
Proof.
  induction outputs as [|data outputs IH]; intros stream s Hl Hroom Hw Hfit Hp.
  { cbn [append_outputs mjoin list_join]. rewrite app_nil_r. split_and!; try done.
    unfold decoded. cbn. rewrite app_nil_r, Hp. done. }
  cbn [append_outputs]. change (mjoin (data :: outputs)) with (data ++ mjoin outputs) in *.
  rewrite length_app in Hroom. rewrite app_assoc in Hfit |- *.
  eapply Safe_bind_partial.
  - apply (append_output_ready capacity stream interval data (length (mjoin outputs)) (N.of_nat (length outputs) + k)); [done| |apply Hw|].
    + replace (1 + (N.of_nat (length outputs) + k))%N with (N.of_nat (length (data :: outputs)) + k)%N by (cbn [length]; lia). done.
    + rewrite length_app in Hfit. lia.
  - by apply append_output_window.
  - intros [[events published] s1] (Hl1 & Hroom1 & Esz1 & Hd1 & Hp1) (Hw1 & _ & _).
    assert (lossy (pending_input s1) = ([], pending_input s1)) as Hpend by (rewrite lossy_unfold, Hp1; destruct (lossy_rest (pending_input s ++ (Byte.to_N <$> data))) as [-> _]; done).
    eapply Safe_mono; [by apply IH|]. intros s2 (Hl2 & Hroom2 & Esz2 & Hw2 & Hd2).
    split_and!; [done|done|congruence|done|]. eapply decoded_app; [|exact Hd2].
    unfold decoded. by destruct (lossy (pending_input s ++ (Byte.to_N <$> data))).
Qed.
End total.
