(* ===== verification/Protocol.v ===== *)
(** Published protocol contracts (ctl-core/src/protocol.rs) and those of ctmux
    (ctmux/proto/src/lib.rs): versions and their text, the offers peers make each other,
    the contract two peers agree on, and what each ctmux contract supports.

    Versions print and parse back, and only in one way; two peers with valid offers agree
    on one contract, the newest they share. *)

From S2P Require Import Prelude.
From S2P Require Import Cells.
From S2P Require Import Layout.
From S2P Require Import Observers.
From stdpp Require Import strings.

Definition MAX_SUPPORTED_VERSIONS : nat := 128.

Module ProtocolVersion.
Record t := Mk { major : N; minor : N; build : N }.

#[global] Instance eq_dec : EqDecision t.
Proof. solve_decision. Defined.

Definition is_valid (v : t) : bool := negb (major v =? 0)%N.

(** The derived [Ord]: the fields in order *)
Definition cmp (v w : t) : comparison :=
  match (major v ?= major w)%N with
  | Eq => match (minor v ?= minor w)%N with Eq => (build v ?= build w)%N | c => c end
  | c => c
  end.
Definition le (v w : t) : bool := match cmp v w with Gt => false | _ => true end.

Definition to_string (v : t) : list char :=
  Observers.to_string (major v) ++ [0x2e]%N ++ Observers.to_string (minor v) ++ [0x2e]%N ++ Observers.to_string (build v).

(** A part is a 16-bit number without leading zeros. *)
Definition parse_part (value : list char) : option N :=
  if bool_decide (value = []) || (bool_decide (1 < length value) && bool_decide (head value = Some 0x30%N))
     || negb (forallb is_digit value)
  then None else parse_u16 value.

Definition from_str (value : list char) : option t :=
  if bool_decide (17 < str_len value) then None else
  match split_on 0x2e%N value with
  | a :: b :: c :: rest =>
      major ← parse_part a; minor ← parse_part b; build ← parse_part c;
      let version := Mk major minor build in
      if negb (bool_decide (rest = [])) || negb (is_valid version) then None else Some version
  | _ => None
  end.
End ProtocolVersion.

(** * Offers *)

Section offers.
Implicit Types (v : ProtocolVersion.t) (versions supported local : list ProtocolVersion.t).

Definition compatible v w : bool :=
  bool_decide (ProtocolVersion.cmp w v = (ProtocolVersion.build w ?= ProtocolVersion.build v)%N) &&
  negb (ProtocolVersion.build w =? ProtocolVersion.build v)%N.

(** The loop of [valid_versions], after the versions [earlier] *)
Fixpoint valid_versions_go (first : ProtocolVersion.t) (earlier versions : list ProtocolVersion.t) : bool :=
  match versions with
  | [] => true
  | v :: versions =>
      ProtocolVersion.is_valid v && (ProtocolVersion.major v =? ProtocolVersion.major first)%N &&
      forallb (λ e, compatible e v) earlier && valid_versions_go first (earlier ++ [v]) versions
  end.

Definition valid_versions versions : bool :=
  match versions with
  | [] => false
  | first :: _ => bool_decide (length versions ≤ MAX_SUPPORTED_VERSIONS) && valid_versions_go first [] versions
  end.

Definition valid_offer (build : N) v supported : bool :=
  ProtocolVersion.is_valid v && (ProtocolVersion.build v <=? build)%N && valid_versions supported &&
  bool_decide (v ∈ supported) &&
  forallb (λ candidate, (ProtocolVersion.major candidate =? ProtocolVersion.major v)%N &&
             ProtocolVersion.le candidate v && (ProtocolVersion.build candidate <=? build)%N) supported.

(** [Iterator::max], the last of equal ones *)
Definition max_version versions : option ProtocolVersion.t :=
  foldl (λ best v, match best with
                   | Some b => if ProtocolVersion.le b v then Some v else Some b
                   | None => Some v
                   end) None versions.

Definition negotiate_versions supported local : option ProtocolVersion.t :=
  if valid_versions local then max_version (filter (λ v, v ∈ supported) local) else None.
End offers.

Module ProtocolOffer.
Record t := Mk { build : N; version : ProtocolVersion.t; supported_versions : list ProtocolVersion.t }.

Definition new (build : N) (version : ProtocolVersion.t) (supported : list ProtocolVersion.t) : t :=
  Mk build version supported.

Definition is_valid (o : t) : bool := valid_offer (build o) (version o) (supported_versions o).

Definition negotiate (o : t) (local : list ProtocolVersion.t) : option ProtocolVersion.t :=
  if is_valid o then negotiate_versions (supported_versions o) local else None.

Definition accepts (o : t) (selected : ProtocolVersion.t) : bool :=
  is_valid o && bool_decide (selected ∈ supported_versions o).
End ProtocolOffer.

(** * The contracts of ctmux *)

Definition PROTOCOL_BUILD : N := 23.
Definition CONTRACT_V1_0_13 : ProtocolVersion.t := ProtocolVersion.Mk 1 0 13.
Definition CONTRACT_V1_1_14 : ProtocolVersion.t := ProtocolVersion.Mk 1 1 14.
Definition CONTRACT_V1_1_15 : ProtocolVersion.t := ProtocolVersion.Mk 1 1 15.
Definition CONTRACT_V1_1_16 : ProtocolVersion.t := ProtocolVersion.Mk 1 1 16.
Definition CONTRACT_V1_1_17 : ProtocolVersion.t := ProtocolVersion.Mk 1 1 17.
Definition CONTRACT_V1_1_18 : ProtocolVersion.t := ProtocolVersion.Mk 1 1 18.
Definition CONTRACT_V1_1_19 : ProtocolVersion.t := ProtocolVersion.Mk 1 1 19.
Definition CONTRACT_V1_1_20 : ProtocolVersion.t := ProtocolVersion.Mk 1 1 20.
Definition CONTRACT_V1_2_21 : ProtocolVersion.t := ProtocolVersion.Mk 1 2 21.
Definition CONTRACT_V1_2_22 : ProtocolVersion.t := ProtocolVersion.Mk 1 2 22.
Definition CONTRACT_V1_3_23 : ProtocolVersion.t := ProtocolVersion.Mk 1 3 23.
Definition PROTOCOL_VERSION : ProtocolVersion.t := CONTRACT_V1_3_23.
Definition SUPPORTED_PROTOCOL_VERSIONS : list ProtocolVersion.t :=
  [CONTRACT_V1_0_13; CONTRACT_V1_1_14; CONTRACT_V1_1_15; CONTRACT_V1_1_16; CONTRACT_V1_1_17; CONTRACT_V1_1_18;
   CONTRACT_V1_1_19; CONTRACT_V1_1_20; CONTRACT_V1_2_21; CONTRACT_V1_2_22; CONTRACT_V1_3_23].

Definition supports_view_zoom (v : ProtocolVersion.t) : bool :=
  bool_decide (v ∈ [CONTRACT_V1_1_15; CONTRACT_V1_1_16; CONTRACT_V1_1_17; CONTRACT_V1_1_18; CONTRACT_V1_1_19;
                    CONTRACT_V1_1_20; CONTRACT_V1_2_21; CONTRACT_V1_2_22; CONTRACT_V1_3_23]).
Definition supports_pane_resize (v : ProtocolVersion.t) : bool :=
  bool_decide (v ∈ [CONTRACT_V1_1_16; CONTRACT_V1_1_17; CONTRACT_V1_1_18; CONTRACT_V1_1_19; CONTRACT_V1_1_20;
                    CONTRACT_V1_2_21; CONTRACT_V1_2_22; CONTRACT_V1_3_23]).
Definition supports_divider_resize (v : ProtocolVersion.t) : bool :=
  bool_decide (v ∈ [CONTRACT_V1_1_17; CONTRACT_V1_1_18; CONTRACT_V1_1_19; CONTRACT_V1_1_20; CONTRACT_V1_2_21;
                    CONTRACT_V1_2_22; CONTRACT_V1_3_23]).
Definition supports_layout_lease_notifications (v : ProtocolVersion.t) : bool :=
  bool_decide (v ∈ [CONTRACT_V1_1_17; CONTRACT_V1_1_18; CONTRACT_V1_1_19; CONTRACT_V1_1_20; CONTRACT_V1_2_21;
                    CONTRACT_V1_2_22; CONTRACT_V1_3_23]).
Definition supports_extended_keys (v : ProtocolVersion.t) : bool :=
  bool_decide (v ∈ [CONTRACT_V1_1_18; CONTRACT_V1_1_19; CONTRACT_V1_1_20; CONTRACT_V1_2_21; CONTRACT_V1_2_22;
                    CONTRACT_V1_3_23]).
Definition supports_pane_moves (v : ProtocolVersion.t) : bool :=
  bool_decide (v ∈ [CONTRACT_V1_1_19; CONTRACT_V1_1_20; CONTRACT_V1_2_21; CONTRACT_V1_2_22; CONTRACT_V1_3_23]).
Definition supports_session_rename (v : ProtocolVersion.t) : bool :=
  bool_decide (v ∈ [CONTRACT_V1_1_20; CONTRACT_V1_2_21; CONTRACT_V1_2_22; CONTRACT_V1_3_23]).
Definition supports_styled_history (v : ProtocolVersion.t) : bool :=
  bool_decide (v ∈ [CONTRACT_V1_2_21; CONTRACT_V1_2_22; CONTRACT_V1_3_23]).
Definition supports_session_statistics (v : ProtocolVersion.t) : bool :=
  bool_decide (v ∈ [CONTRACT_V1_2_22; CONTRACT_V1_3_23]).
Definition supports_client_presence (v : ProtocolVersion.t) : bool :=
  bool_decide (v ∈ [CONTRACT_V1_3_23]).

Definition protocol_offer : ProtocolOffer.t :=
  ProtocolOffer.new PROTOCOL_BUILD PROTOCOL_VERSION SUPPORTED_PROTOCOL_VERSIONS.

(** * Decimal numbers without leading zeros *)

Definition canonical (s : list char) : Prop :=
  s ≠ [] ∧ Forall (λ c, is_digit c = true) s ∧ (1 < length s → head s ≠ Some 48%N).

Lemma digits_value_snoc s c : digits_value (s ++ [c]) = (digits_value s * 10 + (c - 48))%N.
Proof. unfold digits_value. by rewrite foldl_app. Qed.

Lemma is_digit_iff c : is_digit c = true ↔ (48 ≤ c ≤ 57)%N.
Proof. unfold is_digit, rng. rewrite ?andb_true_iff, ?bool_decide_eq_true. lia. Qed.

Lemma digits_value_pos s : Forall (λ c, is_digit c = true) s → s ≠ [] → head s ≠ Some 48%N → (0 < digits_value s)%N.
Proof.
  intros Hf Hne Hh. induction s as [|c s IH] using rev_ind; [done|]. rewrite digits_value_snoc.
  apply Forall_app in Hf as [Hf Hc%Forall_inv]. apply is_digit_iff in Hc.
  destruct s as [|d s]; [|assert (0 < digits_value (d :: s))%N by (apply IH; done); lia].
  simpl in Hh. cbn. assert (c ≠ 48%N) by congruence. lia.
Qed.

Lemma canonical_snoc s c : canonical (s ++ [c]) → s = [] ∨ (canonical s ∧ (0 < digits_value s)%N).
Proof.
  intros (_ & Hf & Hh). destruct s as [|d s]; [by left|right].
  apply Forall_app in Hf as [Hf _].
  assert (head (d :: s) ≠ Some 48%N) as Hd by (apply Hh; rewrite length_app; simpl; lia).
  split; [split_and!; [done|done|by intros _]|by apply digits_value_pos].
Qed.

Lemma canonical_unique s : ∀ s', canonical s → canonical s' → digits_value s = digits_value s' → s = s'.
Proof.
  induction s as [|c s IH] using rev_ind; intros s' Hs Hs' Hv; [by destruct Hs|].
  destruct s' as [|c' s' _] using rev_ind; [by destruct Hs'|].
  rewrite !digits_value_snoc in Hv.
  assert ((48 ≤ c ≤ 57)%N ∧ (48 ≤ c' ≤ 57)%N) as [Hc Hc'].
  { destruct Hs as (_ & Hf & _), Hs' as (_ & Hf' & _). apply Forall_app in Hf as [_ Hf%Forall_inv], Hf' as [_ Hf'%Forall_inv].
    by apply is_digit_iff in Hf, Hf'. }
  assert (digits_value s = digits_value s' ∧ c = c') as [Hv' ->] by lia. f_equal.
  destruct (canonical_snoc _ _ Hs) as [->|[Hcs Hp]], (canonical_snoc _ _ Hs') as [->|[Hcs' Hp']].
  - done.
  - change (digits_value []) with 0%N in Hv'. lia.
  - change (digits_value []) with 0%N in Hv'. lia.
  - by apply IH.
Qed.

Lemma to_string_go_canonical fuel : ∀ n acc, (n < 10 ^ N.of_nat fuel)%N → fuel ≠ 0 →
  ∃ ds, to_string_go fuel n acc = ds ++ acc ∧ canonical ds ∧ digits_value ds = n.
Proof.
  induction fuel as [|fuel IH]; intros n acc Hn Hf; [done|]. cbn [to_string_go].
  pose proof (N.div_mod' n 10) as Hdm. pose proof (N.mod_lt n 10 ltac:(lia)) as Hm.
  generalize dependent (n `mod` 10)%N. intros m Hdm Hm. set (d := (48 + m)%N).
  assert (is_digit d = true) as Hd by (apply is_digit_iff; unfold d; lia).
  case_decide as Hz.
  - exists [d]. split_and!; [done|split_and!; [done|by constructor|intros Hl; simpl in Hl; lia]|]. cbn [digits_value foldl]. unfold d. lia.
  - rewrite Nat2N.inj_succ, N.pow_succ_r' in Hn.
    destruct (IH (n / 10)%N (d :: acc)) as (ds & -> & (Hne & Hds & Hh) & Hv).
    { apply N.Div0.div_lt_upper_bound. lia. }
    { intros ->. change (10 ^ N.of_nat 0)%N with 1%N in Hn. apply Hz, N.div_small. lia. }
    exists (ds ++ [d]). rewrite <- app_assoc. split_and!; [done|split_and!|].
    + by destruct ds.
    + apply Forall_app. auto.
    + intros _. destruct ds as [|x ds]; [done|]. simpl in Hh |- *. intros [= ->].
      destruct ds as [|y ds]; [|apply Hh; simpl; [lia|done]]. cbn in Hv. lia.
    + rewrite digits_value_snoc, Hv. unfold d. lia.
Qed.

Lemma to_string_canonical n : (n < 65536)%N → canonical (to_string n) ∧ digits_value (to_string n) = n.
Proof.
  intros Hn. assert (n < 10 ^ N.of_nat 20)%N as Hb.
  { eapply N.lt_le_trans; [exact Hn|]. by apply N.leb_le. }
  destruct (to_string_go_canonical 20 n [] Hb ltac:(done)) as (ds & E & Hc & Hv).
  rewrite app_nil_r in E. change (to_string n = ds) in E. by rewrite E.
Qed.

Lemma parse_u16_digits s : Forall (λ c, is_digit c = true) s →
  parse_u16 s = if bool_decide (s = []) then None
                else if bool_decide (digits_value s ≤ 65535)%N then Some (digits_value s) else None.
Proof.
  intros Hf. unfold parse_u16.
  assert (match s with 43%N :: rest => rest | _ => s end = s) as ->.
  { destruct s as [|c s]; [done|]. apply Forall_inv, is_digit_iff in Hf.
    destruct c as [|p]; [done|]. do 6 (destruct p as [p|p|]; try done). lia. }
  assert (forallb is_digit s = true) as ->; [|done].
  apply forallb_forall. intros x Hx%list_elem_of_In. by apply (proj1 (Forall_forall _ _) Hf).
Qed.

Lemma parse_part_iff s n : ProtocolVersion.parse_part s = Some n ↔ canonical s ∧ digits_value s = n ∧ (n < 65536)%N.
Proof.
  unfold ProtocolVersion.parse_part, canonical.
  destruct (decide (s = [])) as [->|Hne]; [split; [done|by intros ((? & _) & _)]|].
  rewrite (bool_decide_eq_false_2 (s = [])) by done. cbn [orb].
  destruct (bool_decide (1 < length s) && bool_decide (head s = Some 48%N)) eqn:Hz.
  { apply andb_true_iff in Hz as [Hl%bool_decide_eq_true Hh%bool_decide_eq_true]. cbn [orb].
    split; [done|]. intros ((_ & _ & Hc) & _). by destruct (Hc Hl). }
  assert (1 < length s → head s ≠ Some 48%N) as Hh.
  { intros Hl Hh. by rewrite !bool_decide_eq_true_2 in Hz. }
  cbn [orb]. destruct (forallb is_digit s) eqn:Hd; cbn [negb].
  2:{ split; [done|]. intros ((_ & Hf & _) & _). exfalso. apply (eq_true_false_abs _ (proj2 (forallb_forall _ _)
        (λ x Hx, proj1 (Forall_forall _ _) Hf x (proj2 (list_elem_of_In _ _) Hx))) Hd). }
  assert (Forall (λ x, is_digit x = true) s) as Hf.
  { apply Forall_forall. intros x Hx%list_elem_of_In. by apply (proj1 (forallb_forall _ _) Hd). }
  rewrite parse_u16_digits by done. rewrite bool_decide_eq_false_2 by done.
  destruct (decide (digits_value s ≤ 65535)%N) as [Hle|Hgt].
  - rewrite bool_decide_eq_true_2 by done. split; [intros [= <-]; split_and!; [done..|lia]|by intros (_ & -> & _)].
  - rewrite bool_decide_eq_false_2 by done. split; [done|]. intros (_ & <- & ?). lia.
Qed.

(** * Splitting at dots *)

Lemma split_on_free sep s : sep ∉ s → split_on sep s = [s].
Proof.
  induction s as [|c s IH]; [done|]. intros [Hc Hs]%not_elem_of_cons. cbn [split_on].
  rewrite decide_False, IH by done. done.
Qed.

Lemma split_on_app sep s t : sep ∉ s → split_on sep (s ++ sep :: t) = s :: split_on sep t.
Proof.
  induction s as [|c s IH]; [intros _; cbn [app split_on]; by rewrite decide_True|].
  intros [Hc Hs]%not_elem_of_cons. cbn [app split_on]. rewrite decide_False, IH by done. done.
Qed.

Lemma split_on_nonempty sep s : split_on sep s ≠ [].
Proof. destruct s as [|c s]; simpl; [done|]. case_decide; [done|]. by destruct (split_on sep s). Qed.

(** A text is its parts with separators between them. *)
Fixpoint glue (sep : N) (parts : list (list N)) : list N :=
  match parts with
  | [] => []
  | [part] => part
  | part :: parts => part ++ sep :: glue sep parts
  end.

Lemma glue_split sep s : glue sep (split_on sep s) = s.
Proof.
  induction s as [|c s IH]; [done|]. simpl. case_decide as Hc.
  - subst c. pose proof (split_on_nonempty sep s). destruct (split_on sep s); [done|]. simpl in IH |- *. by rewrite IH.
  - pose proof (split_on_nonempty sep s). destruct (split_on sep s) as [|part parts]; [done|].
    destruct parts; simpl in IH |- *; by rewrite IH.
Qed.

Lemma canonical_no_dot s : canonical s → 46%N ∉ s.
Proof. intros (_ & Hf & _) Hin. apply (proj1 (Forall_forall _ _) Hf) in Hin. apply is_digit_iff in Hin. lia. Qed.

Lemma canonical_str_len s : canonical s → str_len s = length s.
Proof.
  intros (_ & Hf & _). unfold str_len. induction Hf as [|c s Hc _ IH]; [done|].
  cbn. apply is_digit_iff in Hc. unfold utf8_len at 1. rewrite bool_decide_eq_true_2 by lia.
  f_equal. exact IH.
Qed.

(** Numbers below 65536 have at most five digits. *)
Lemma canonical_short s : canonical s → (digits_value s < 65536)%N → length s ≤ 5.
Proof.
  intros Hc Hv. destruct (decide (length s ≤ 5)) as [|Hlen]; [done|exfalso].
  assert (∀ s, canonical s → 2 ≤ length s → (10 ^ N.of_nat (length s - 1) ≤ digits_value s)%N) as Hpow.
  { clear. intros s. induction s as [|c s IH] using rev_ind; [simpl; lia|]. intros Hs Hlen.
    rewrite length_app in Hlen |- *. rewrite digits_value_snoc. cbn [length] in *.
    destruct (canonical_snoc _ _ Hs) as [->|[Hcs Hp]]; [simpl in Hlen; lia|].
    destruct (decide (length s = 1)) as [E|]; [rewrite E; change (10 ^ N.of_nat (1 + 1 - 1))%N with 10%N; lia|].
    specialize (IH Hcs ltac:(lia)). replace (length s + 1 - 1) with (S (length s - 1)) by lia.
    rewrite Nat2N.inj_succ, N.pow_succ_r'. lia. }
  specialize (Hpow s Hc ltac:(lia)).
  assert (10 ^ 5 ≤ 10 ^ N.of_nat (length s - 1))%N as H5 by (apply N.pow_le_mono_r; lia).
  change (10 ^ 5)%N with 100000%N in H5. lia.
Qed.

(** * Versions and their text *)

Definition version_ok (v : ProtocolVersion.t) : Prop :=
  (0 < ProtocolVersion.major v < 65536)%N ∧ (ProtocolVersion.minor v < 65536)%N ∧ (ProtocolVersion.build v < 65536)%N.

Lemma str_len_app a b : str_len (a ++ b) = str_len a + str_len b.
Proof. unfold str_len. by rewrite fmap_app, sum_list_with_app. Qed.

Lemma from_str_iff value v : ProtocolVersion.from_str value = Some v ↔ version_ok v ∧ value = ProtocolVersion.to_string v.
Proof.
  assert (∀ n, (n < 65536)%N → ProtocolVersion.parse_part (Observers.to_string n) = Some n) as Hparse.
  { intros n Hn. apply parse_part_iff. destruct (to_string_canonical n Hn). done. }
  assert (∀ s n, ProtocolVersion.parse_part s = Some n → (n < 65536)%N ∧ s = Observers.to_string n) as Hback.
  { intros s n (Hc & Hv & Hn)%parse_part_iff. split; [done|]. destruct (to_string_canonical n Hn) as [Hc' Hv'].
    apply canonical_unique; congruence. }
  unfold ProtocolVersion.from_str. split.
  - case_bool_decide; [done|]. pose proof (glue_split 46%N value) as Hglue.
    destruct (split_on 46%N value) as [|a [|b [|c rest]]]; try done. intros Hv.
    destruct (ProtocolVersion.parse_part a) as [major|] eqn:Ea; [|done].
    destruct (ProtocolVersion.parse_part b) as [minor|] eqn:Eb; [|done].
    destruct (ProtocolVersion.parse_part c) as [build|] eqn:Ec; [|done]. simpl in Hv.
    apply Hback in Ea as [Hma ->], Eb as [Hmi ->], Ec as [Hb ->].
    case_bool_decide as Hrest; [|done]. subst rest. cbn [negb orb] in Hv. unfold ProtocolVersion.is_valid in Hv. cbn [ProtocolVersion.major] in Hv.
    destruct (N.eqb_spec major 0) as [|Hz]; [done|]. injection Hv as <-.
    split; [split_and!; cbn; lia|by rewrite <- Hglue].
  - destruct v as [major minor build]. intros [(Hma & Hmi & Hb) ->]. cbn in Hma, Hmi, Hb.
    destruct (to_string_canonical major ltac:(lia)) as [Ca Va], (to_string_canonical minor Hmi) as [Cb Vb],
      (to_string_canonical build Hb) as [Cc Vc].
    pose proof (canonical_short _ Ca ltac:(lia)). pose proof (canonical_short _ Cb ltac:(lia)).
    pose proof (canonical_short _ Cc ltac:(lia)).
    unfold ProtocolVersion.to_string. cbn [ProtocolVersion.major ProtocolVersion.minor ProtocolVersion.build].
    rewrite bool_decide_eq_false_2.
    2:{ rewrite !str_len_app, (canonical_str_len _ Ca), (canonical_str_len _ Cb), (canonical_str_len _ Cc). change (str_len [46%N]) with 1. lia. }
    cbn [app]. rewrite split_on_app by by apply canonical_no_dot.
    rewrite split_on_app by by apply canonical_no_dot. rewrite split_on_free by by apply canonical_no_dot.
    rewrite !Hparse by lia. cbn [mbind option_bind].
    unfold ProtocolVersion.is_valid. cbn [ProtocolVersion.major]. destruct (N.eqb_spec major 0); [lia|done].
Qed.

(** * Negotiation *)

Section negotiation.
Implicit Types (v w : ProtocolVersion.t) (versions supported local : list ProtocolVersion.t).

Lemma cmp_eq v w : ProtocolVersion.cmp v w = Eq ↔ v = w.
Proof.
  destruct v as [a b c], w as [a' b' c']. unfold ProtocolVersion.cmp. cbn.
  destruct (N.compare_spec a a'), (N.compare_spec b b'), (N.compare_spec c c'); split; intros E;
    try done; try (injection E; lia); subst; done.
Qed.

Lemma le_iff v w : ProtocolVersion.le v w = true ↔
  (ProtocolVersion.major v < ProtocolVersion.major w ∨
   (ProtocolVersion.major v = ProtocolVersion.major w ∧
    (ProtocolVersion.minor v < ProtocolVersion.minor w ∨
     (ProtocolVersion.minor v = ProtocolVersion.minor w ∧ ProtocolVersion.build v ≤ ProtocolVersion.build w))))%N.
Proof.
  unfold ProtocolVersion.le, ProtocolVersion.cmp.
  destruct (N.compare_spec (ProtocolVersion.major v) (ProtocolVersion.major w)),
    (N.compare_spec (ProtocolVersion.minor v) (ProtocolVersion.minor w)),
    (N.compare_spec (ProtocolVersion.build v) (ProtocolVersion.build w)); split; intros; try done; lia.
Qed.

Lemma le_refl v : ProtocolVersion.le v v = true.
Proof. apply le_iff. lia. Qed.

Lemma le_trans u v w : ProtocolVersion.le u v = true → ProtocolVersion.le v w = true → ProtocolVersion.le u w = true.
Proof. rewrite !le_iff. lia. Qed.

Lemma le_total v w : ProtocolVersion.le v w = false → ProtocolVersion.le w v = true.
Proof. intros Hf. apply le_iff. apply not_true_iff_false in Hf. rewrite le_iff in Hf. lia. Qed.

Lemma le_antisym v w : ProtocolVersion.le v w = true → ProtocolVersion.le w v = true → v = w.
Proof. rewrite !le_iff. destruct v, w; cbn. intros. f_equal; lia. Qed.

(** The largest of a list *)
Definition is_max versions v : Prop := v ∈ versions ∧ ∀ w, w ∈ versions → ProtocolVersion.le w v = true.

Lemma max_version_spec versions : match max_version versions with
  | Some v => is_max versions v
  | None => versions = []
  end.
Proof.
  unfold max_version. induction versions as [|w versions IH] using rev_ind; [done|].
  rewrite foldl_app. cbn [foldl]. destruct (foldl _ None versions) as [b|].
  - destruct IH as [Hin Hmax]. destruct (ProtocolVersion.le b w) eqn:Hle.
    + split; [set_solver|]. intros x [Hx| ->%list_elem_of_singleton]%elem_of_app; [|apply le_refl].
      eapply le_trans; [by apply Hmax|done].
    + split; [set_solver|]. intros x [Hx| ->%list_elem_of_singleton]%elem_of_app; [by apply Hmax|by apply le_total].
  - subst. split; [set_solver|]. intros x Hx. simpl in Hx. apply list_elem_of_singleton in Hx as ->. apply le_refl.
Qed.

Lemma is_max_unique versions v w : is_max versions v → is_max versions w → v = w.
Proof. intros [Hv Hmv] [Hw Hmw]. apply le_antisym; auto. Qed.

Lemma negotiate_versions_spec supported local v : negotiate_versions supported local = Some v ↔
  valid_versions local = true ∧ v ∈ supported ∧ v ∈ local ∧
  ∀ w, w ∈ supported → w ∈ local → ProtocolVersion.le w v = true.
Proof.
  unfold negotiate_versions. destruct (valid_versions local); [|split; [done|by intros []]].
  pose proof (max_version_spec (filter (λ w, w ∈ supported) local)) as Hmax.
  assert (is_max (filter (λ w, w ∈ supported) local) v ↔ v ∈ supported ∧ v ∈ local ∧
    ∀ w, w ∈ supported → w ∈ local → ProtocolVersion.le w v = true) as Hiff.
  { unfold is_max. rewrite list_elem_of_filter. split.
    - intros [[? ?] Hle]. split_and!; [done..|]. intros w ? ?. apply Hle. by apply list_elem_of_filter.
    - intros (? & ? & Hle). split; [done|]. intros w [? ?]%list_elem_of_filter. auto. }
  split.
  - intros E. rewrite E in Hmax. apply Hiff in Hmax. done.
  - intros [_ Hv%Hiff]. destruct (max_version _) as [w|].
    + f_equal. by eapply is_max_unique.
    + rewrite Hmax in Hv. destruct Hv as [Hv _]. by apply elem_of_nil in Hv.
Qed.
End negotiation.
