(* ===== verification/Messages.v ===== *)
(** The messages between a client of ctmux and its daemon (ClientMessage, ServerMessage,
    OpeningRequest and the types only they use, of ctmux/proto/src/lib.rs; ProtocolInfo and
    ComponentBuildInfo of ctl-core/src/component.rs).  Their encoding is derived by serde. *)

From S2P Require Import Prelude.
From S2P Require Import Cells.
From S2P Require Import Layout.
From S2P Require Import Observers.
From S2P Require Import History.
From S2P Require Import Leases.
From S2P Require Import Retention.
From S2P Require Import ShellState.
From S2P Require Import LiveTerminal.
From S2P Require Import Sessions.
From S2P Require Import Protocol.
From stdpp Require Import strings.
From Stdlib Require Import Init.Byte.

Module ErrorCode.
Inductive t :=
  | InvalidRequest | InvalidSessionName | ProtocolVersionMismatch | SequenceAhead | SessionAlreadyExists
  | SessionNotFound | AttachmentResumeRejected | InputLeaseRequired | LayoutLeaseRequired | Internal.
#[global] Instance eq_dec : EqDecision t.
Proof. solve_decision. Defined.
End ErrorCode.

Module TerminalHistoryManifest.
Record t := Mk {
  snapshot_id : string; sequence : N; generation : N; revision : N; total_rows : N; total_bytes : N;
  total_lines : N; first_line : N; truncated : bool; content_hash : string; scrollback_limit : N }.
End TerminalHistoryManifest.

Module HistoryRequest.
Record t := Mk { snapshot_id : string; offset : N; max_bytes : N }.
End HistoryRequest.

Module CommandSpec.
Record t := Mk { program : string; arguments : list string }.
End CommandSpec.

Module SessionViewer.
Record t := Mk { identity : ClientIdentity.t; legacy : bool; connected_attachments : nat; reconnecting_attachments : nat }.
End SessionViewer.

Module SessionUsage.
Record t := Mk { session : SessionInfo.t; clients : option (list SessionViewer.t) }.

(** Nobody is connected; unknown when the daemon does not tell. *)
Definition unused (u : t) : option bool :=
  forallb (λ client, SessionViewer.connected_attachments client =? 0) <$> clients u.
End SessionUsage.

Module SessionHistoryStatistics.
Record t := Mk { session_id : string; retained_bytes : N }.
End SessionHistoryStatistics.

(** Every byte of the string satisfies [f]. *)
Definition string_all (f : Ascii.ascii → bool) (s : string) : bool := forallb f (String.list_ascii_of_string s).

(** [u8::is_ascii_hexdigit] *)
Definition is_ascii_hexdigit (c : Ascii.ascii) : bool :=
  let n := Ascii.N_of_ascii c in
  ((48 <=? n) && (n <=? 57) || (97 <=? n) && (n <=? 102) || (65 <=? n) && (n <=? 70))%N.

Module ComponentBuildInfo.
Record t := Mk { version : list char; source_revision : option string; source_fingerprint : string; dirty : bool }.

Definition is_valid (b : t) : bool :=
  negb (bool_decide (version b = [])) && bool_decide (str_len (version b) ≤ 256) &&
  negb (existsb is_control (version b)) &&
  (String.length (source_fingerprint b) =? 64)%nat && string_all is_ascii_hexdigit (source_fingerprint b) &&
  match source_revision b with
  | None => true
  | Some revision =>
      ((String.length revision =? 40)%nat || (String.length revision =? 64)%nat) && string_all is_ascii_hexdigit revision
  end.
End ComponentBuildInfo.

Module ProtocolInfo.
Record t := Mk { name : string; build : N; version : ProtocolVersion.t; supported_versions : list ProtocolVersion.t }.

Definition new (name : string) (build : N) (version : ProtocolVersion.t) (supported : list ProtocolVersion.t) : t :=
  Mk name build version supported.

Definition is_valid (p : t) : bool :=
  negb (bool_decide (name p = ""%string)) && (String.length (name p) <=? 128)%nat &&
  string_all (λ c, is_ascii_alphanumeric c || bool_decide (Ascii.N_of_ascii c ∈ [45; 95; 46]%N)) (name p) &&
  valid_offer (build p) (version p) (supported_versions p).

Definition supports (p : t) (selected : ProtocolVersion.t) : bool :=
  is_valid p && bool_decide (selected ∈ supported_versions p).

Definition negotiate (p : t) (local : list ProtocolVersion.t) : option ProtocolVersion.t :=
  if is_valid p then negotiate_versions (supported_versions p) local else None.
End ProtocolInfo.

(** No two protocols have one name; [earlier] are those before. *)
Fixpoint distinct_names (earlier protocols : list ProtocolInfo.t) : bool :=
  match protocols with
  | [] => true
  | p :: protocols =>
      ProtocolInfo.is_valid p &&
      negb (existsb (λ e, bool_decide (ProtocolInfo.name e = ProtocolInfo.name p)) earlier) &&
      distinct_names (earlier ++ [p]) protocols
  end.
Definition protocols_are_valid (protocols : list ProtocolInfo.t) : bool :=
  bool_decide (length protocols ≤ 128) && distinct_names [] protocols.

Definition same_protocol (entry observed : ProtocolInfo.t) : bool :=
  bool_decide (ProtocolInfo.name entry = ProtocolInfo.name observed) &&
  bool_decide (ProtocolInfo.build entry = ProtocolInfo.build observed) &&
  bool_decide (ProtocolInfo.version entry = ProtocolInfo.version observed) &&
  bool_decide (length (ProtocolInfo.supported_versions entry) = length (ProtocolInfo.supported_versions observed)) &&
  forallb (λ v, bool_decide (v ∈ ProtocolInfo.supported_versions observed)) (ProtocolInfo.supported_versions entry).
Definition protocols_match (left right : list ProtocolInfo.t) : bool :=
  protocols_are_valid left && protocols_are_valid right && bool_decide (length left = length right) &&
  forallb (λ entry, existsb (same_protocol entry) right) left.

Inductive PaneResizeOutcome :=
  | ResizeApplied (view : ViewInfo.t)
  | ResizeRejected (code : ErrorCode.t) (message : string).

Inductive PaneMoveOutcome :=
  | Swapped (view : ViewInfo.t)
  | Promoted (view source_view : ViewInfo.t)
  | MoveRejected (code : ErrorCode.t) (message : string).

Module ClientMessage.
Inductive t :=
  | Handshake (protocol : ProtocolOffer.t) (client_name client_version : string)
  | CreateSession (name : option string) (command : option CommandSpec.t) (working_directory : option string)
      (terminal_size : TerminalSize.t)
  | ListSessions
  | ListSessionClients
  | RenameSession (session name : string)
  | GetView (session : string)
  | SplitTerminal (terminal_id : string) (axis : SplitAxis) (command : option CommandSpec.t)
      (working_directory : option string) (terminal_size : TerminalSize.t)
  | UpdateView (session : string) (expected_revision : N) (layout : ViewLayout)
  | SetViewZoom (terminal_id : option string)
  | ResizePane (request_id terminal_id : string) (direction : ResizeDirection) (amount : N)
  | ResizeDivider (request_id : string) (divider : DividerResize.t)
  | SwapPane (request_id : string) (target : PaneTarget.t) (previous : bool)
  | BreakPane (request_id : string) (target : PaneTarget.t) (name : option string)
  | PromoteTerminal (terminal_id : string) (name : option string)
  | MergeSessions (source destination : string)
  | KillTerminal (terminal_id : string)
  | GetShellState (session : string)
  | AttachSession (session : string) (resume_from : option N) (terminal_size : TerminalSize.t)
      (request_input_lease request_layout_lease request_command_line request_running_command : bool)
      (presentation_window_bytes : N)
  | ResumeAttachment (session attachment_token : string) (resume_from : option N) (terminal_size : TerminalSize.t)
      (request_command_line request_running_command : bool) (presentation_window_bytes : N)
  | KillSession (session : string)
  | Input (data : list byte)
  | Resize (terminal_size : TerminalSize.t)
  | AcquireLease (lease : LeaseKind)
  | ReleaseLease (lease : LeaseKind)
  | Heartbeat (nonce : N)
  | PresentationApplied (sequence : N)
  | HistoryRequest (request : HistoryRequest.t)
  | RequestCheckpoint
  | Detach.
End ClientMessage.

Module ServerMessage.
Inductive t :=
  | PaneMoveResult (request_id : string) (outcome : PaneMoveOutcome)
  | PaneResizeResult (request_id : string) (outcome : PaneResizeOutcome)
  | HandshakeAccepted (protocol_version : ProtocolVersion.t) (protocols : list ProtocolInfo.t) (server_version : string)
      (build : option ComponentBuildInfo.t) (heartbeat_interval_ms attachment_liveness_timeout_ms : N)
  | ViewSnapshot (view : ViewInfo.t)
  | SessionCreated (session : SessionInfo.t)
  | SessionRenamed (session : SessionInfo.t)
  | SessionList (sessions : list SessionInfo.t)
  | SessionClients (sessions : list SessionUsage.t)
  | ShellStateResponse (session : SessionInfo.t) (shell_state : ShellState.t)
  | Attached (attachment_token : string) (session : SessionInfo.t) (earliest_sequence next_sequence replay_from : N)
      (history_gap : bool) (checkpoint : option TerminalCheckpoint.t) (history : option HistorySnapshot.t)
      (history_manifest : option TerminalHistoryManifest.t) (terminal_size_mismatch : bool)
      (leases : AttachmentLeases.t) (shell_state : ShellState.t)
  | Detached
  | LeaseStatus (lease : LeaseKind) (status : LeaseStatus.t) (notification : bool)
  | HeartbeatAck (nonce : N) (session_history : option SessionHistoryStatistics.t)
  | ShellStateChanged (state : ShellState.t)
  | PtyGeometryChanged (terminal_size : TerminalSize.t) (observed_sequence : N)
  | Checkpoint (checkpoint : TerminalCheckpoint.t) (history : HistorySnapshot.t)
      (history_manifest : option TerminalHistoryManifest.t) (history_gap : bool)
  | HistoryPage (snapshot_id : string) (offset : N) (data : list byte) (next_offset : option N)
  | HistorySnapshotExpired (snapshot_id : string)
  | Output (sequence_start sequence_end : N) (data : list byte)
  | SessionEnded (session_id : string) (exit_code : option N)
  | Success
  | Error (code : ErrorCode.t) (message : string).
End ServerMessage.

(** The first frame of a request, with who makes it where the contract has that *)
Module OpeningRequest.
Record t := Mk { request : ClientMessage.t; client_identity : option ClientIdentity.t }.
End OpeningRequest.

(** What a component says of itself *)
Module ComponentInfo.
Record t := Mk { build : ComponentBuildInfo.t; protocols : list ProtocolInfo.t }.

Definition is_valid (c : t) : bool := ComponentBuildInfo.is_valid (build c) && protocols_are_valid (protocols c).
End ComponentInfo.
