(* ===== verification/Presence.v ===== *)
(** Who is connected (ctl-core/src/presence.rs and ctmux/daemon/src/session/presence.rs):
    the labels a client reports of itself, bounded and without terminal controls, and the
    clients the daemon counts on a session.

    A [String] is UTF-8, so a [string] here is its bytes; [chars] and [of_chars] go between
    it and its characters.  A [BTreeMap] is an association list in the order of its keys;
    a [HashMap] is read in the order of [map_to_list]. *)

From S2P Require Import Prelude.
From S2P Require Import Cells.
From S2P Require Import Buffers.
From S2P Require Import Layout.
From S2P Require Import Topology.
From S2P Require Import Utf8.
From S2P Require Import Observers.
From S2P Require Import Sessions.
From S2P Require Import Protocol.
From S2P Require Import Messages.
From stdpp Require Import strings gmap sorting.
From Stdlib Require Import Ascii OrderedTypeEx.

(** * Labels *)

Definition chars (s : string) : list char := (lossy (str s)).1.
Definition of_chars (cs : list char) : string := String.string_of_list_ascii (ascii_of_N <$> encode_all cs).

(** [char::is_control], the Unicode category Cc *)
Definition is_control (c : char) : bool := rng 0 31 c || rng 127 159 c.

(** [str::trim] *)
Fixpoint trim_start (s : list char) : list char :=
  match s with
  | [] => []
  | c :: rest => if is_whitespace c then trim_start rest else s
  end.
Definition trim (s : list char) : list char := trim_end (trim_start s).

Definition valid_label (value : list char) (limit : nat) : bool :=
  negb (bool_decide (trim value = [])) && (str_len value <=? limit) && negb (existsb is_control value).

Definition validate_identity (identity : ClientIdentity.t) : bool :=
  valid_label (chars (ClientIdentity.instance_id identity)) 128 &&
  valid_label (chars (ClientIdentity.client_name identity)) 64 &&
  valid_label (chars (ClientIdentity.client_version identity)) 64 &&
  match ClientIdentity.device_name identity with None => true | Some value => valid_label (chars value) 128 end.

(** [char::escape_default] *)
Definition hex_digit (d : N) : char := (if d <? 10 then 48 + d else 87 + d)%N.
Fixpoint hex_go (fuel : nat) (n : N) (digits : list char) : list char :=
  match fuel with
  | 0 => digits
  | S fuel => let digits := hex_digit (n mod 16) :: digits in
              if (n / 16 =? 0)%N then digits else hex_go fuel (n / 16) digits
  end.
Definition escape_default (c : char) : list char :=
  if (c =? 9)%N then str "\t" else if (c =? 13)%N then str "\r" else if (c =? 10)%N then str "\n"
  else if (c =? 39)%N || (c =? 34)%N || (c =? 92)%N then [92%N; c]
  else if rng 32 126 c then [c]
  else str "\u{" ++ hex_go 6 c [] ++ str "}".

(** Directions, and separators of lines *)
Definition is_directive (c : char) : bool :=
  (c =? 0x61c)%N || rng 0x200e 0x200f c || rng 0x2028 0x202e c || rng 0x2066 0x2069 c.

Definition display_label (value : list char) : list char :=
  mjoin ((λ c, if is_control c || is_directive c then escape_default c else [c]) <$> value).

(** The loop of [bounded_label] *)
Fixpoint bounded_go (limit : nat) (characters result : list char) : list char :=
  match characters with
  | [] => result
  | c :: characters =>
      if decide (limit < str_len result + utf8_len c) then result else bounded_go limit characters (result ++ [c])
  end.

Definition bounded_label (value : list char) (limit : nat) : option (list char) :=
  let result := bounded_go limit (filter (λ c, is_control c = false) (trim value)) [] in
  if decide (trim result = []) then None else Some result.

(** [local_identity], given the identifier drawn for the process and the name of the device *)
Definition local_identity (instance_id : string) (device_name : option string) (client_name client_version : list char) :
    ClientIdentity.t :=
  ClientIdentity.Mk instance_id
    (of_chars (default (str "ctl-client") (bounded_label client_name 64)))
    (of_chars (default (str "unknown") (bounded_label client_version 64)))
    device_name.

(** * The clients of a session *)

(** [AttachmentPeer::legacy] *)
Definition legacy_peer (name version : string) : AttachmentPeer :=
  Legacy (of_chars (default (str "unknown") (bounded_label (chars name) 64)))
         (of_chars (default (str "unknown") (bounded_label (chars version) 64))).

Definition viewer (id : string) (peer : AttachmentPeer) : SessionViewer.t :=
  match peer with
  | Process identity => SessionViewer.Mk identity false 0 0
  | Legacy name version => SessionViewer.Mk (ClientIdentity.Mk id name version None) true 0 0
  end.

(** The order of the keys: the flag, then the bytes of the identifier *)
Definition key_lt (a b : bool * string) : bool :=
  match a.1, b.1 with
  | false, true => true
  | true, false => false
  | _, _ => match String.compare a.2 b.2 with Lt => true | _ => false end
  end.

(** [viewers.entry(key).or_insert(new)], changed by [f] *)
Fixpoint entry_or_insert (key : bool * string) (new : SessionViewer.t) (f : SessionViewer.t → SessionViewer.t)
    (viewers : list ((bool * string) * SessionViewer.t)) : list ((bool * string) * SessionViewer.t) :=
  match viewers with
  | [] => [(key, f new)]
  | (k, v) :: rest =>
      if decide (k = key) then (k, f v) :: rest
      else if key_lt key k then (key, f new) :: viewers
      else (k, v) :: entry_or_insert key new f rest
  end.

Definition count_connection (connected : bool) (v : SessionViewer.t) : SessionViewer.t :=
  if connected
  then SessionViewer.Mk (SessionViewer.identity v) (SessionViewer.legacy v)
         (S (SessionViewer.connected_attachments v)) (SessionViewer.reconnecting_attachments v)
  else SessionViewer.Mk (SessionViewer.identity v) (SessionViewer.legacy v)
         (SessionViewer.connected_attachments v) (S (SessionViewer.reconnecting_attachments v)).

Definition observe (viewers : list ((bool * string) * SessionViewer.t)) (record : AttachmentRecord.t) :
    list ((bool * string) * SessionViewer.t) :=
  let v := viewer (AttachmentRecord.attachment_id record) (AttachmentRecord.peer record) in
  let key := (SessionViewer.legacy v, ClientIdentity.instance_id (SessionViewer.identity v)) in
  entry_or_insert key v (count_connection (AttachmentRecord.connected record)) viewers.

Section rows.
Context {St : Type} `{Screen St}.
Implicit Types (r : SessionRegistry.t St).

(** The attachments of the terminals in a session's layout *)
Definition session_records r (s : Session.t) : list AttachmentRecord.t :=
  terminal ← omap (listed r) (LayoutExt.terminal_ids (View.layout (Session.view s)));
  (map_to_list (SessionTerminal.attachments terminal)).*2.

Definition session_viewers r (s : Session.t) : list SessionViewer.t :=
  (foldl observe [] (session_records r s)).*2.

(** A row before a row: by age, then by name *)
Definition older_row (a b : SessionUsage.t) : Prop := older (SessionUsage.session a) (SessionUsage.session b).
#[global] Instance older_row_dec a b : Decision (older_row a b).
Proof. unfold older_row. apply _. Defined.

Definition session_rows {E} (include_clients : bool) r : outcome E (list SessionUsage.t) :=
  rows ← foldr (λ kv acc,
            first ← match LayoutExt.first_terminal (View.layout (Session.view kv.2)) with Ok id => Ok id | _ => Panic end;
            rows ← acc;
            Ok (match listed r first with
                | Some t => SessionUsage.Mk (info t) (if include_clients then Some (session_viewers r kv.2) else None) :: rows
                | None => rows
                end))
          (Ok []) (map_to_list (SessionRegistry.sessions r));
  Ok (merge_sort older_row rows).
End rows.

(** * Labels are what they are checked for *)

Lemma trim_start_suffix s : trim_start s `suffix_of` s.
Proof. induction s as [|c s IH]; cbn; [done|]. destruct (is_whitespace c); [by apply suffix_cons_r|done]. Qed.

Lemma bounded_go_spec limit characters : ∀ result, str_len result ≤ limit →
  str_len (bounded_go limit characters result) ≤ limit ∧
  ∃ k, bounded_go limit characters result = result ++ take k characters.
Proof.
  induction characters as [|c characters IH]; intros result Hr; cbn [bounded_go].
  { split; [done|]. exists 0. by rewrite app_nil_r. }
  case_decide as Hc; [split; [done|]; exists 0; by rewrite app_nil_r|].
  destruct (IH (result ++ [c])) as [Hle (k & Hk)].
  { rewrite str_len_app. cbn. lia. }
  split; [done|]. exists (S k). by rewrite Hk, <- app_assoc.
Qed.

(** ** Characters of a string *)

Lemma land_sub b k m mask : mask = N.ones k → (m * 2 ^ k ≤ b < m * 2 ^ k + 2 ^ k)%N → N.land b mask = (b - m * 2 ^ k)%N.
Proof. intros -> Hb. rewrite <- (land_ones_add k (b - m * 2 ^ k) m) by lia. f_equal. lia. Qed.

Lemma continuation_bits b lo hi : (0x80 ≤ lo)%N → (hi ≤ 0xbf)%N → within_range lo hi b = true →
  N.land b 0x3f = (b - 0x80)%N ∧ (lo ≤ b ≤ hi)%N.
Proof. rewrite within_true. intros. split; [|done]. apply (land_sub b 6 2 63 eq_refl). cbn. lia. Qed.

Ltac next_byte s :=
  destruct s as [|?b s]; [done|]; cbn [read_rest];
  match goal with |- context [if ?test ?b then _ else _] =>
    let E := fresh "E" in destruct (test b) eqn:E; [|done]; unfold is_continuation in E; apply continuation_bits in E as [-> E]; [|lia|lia]
  end.

Lemma read_char_scalar s c rest : read_char s = Char c rest → is_scalar c = true.
Proof.
  destruct s as [|first s]; [done|]. cbn [read_char]. unfold follows.
  assert (∀ c, (c ≤ 0xd7ff ∨ 0xe000 ≤ c ≤ 0x10ffff)%N → is_scalar c = true) as Hscalar.
  { intros x Hx. unfold is_scalar. apply orb_true_iff. rewrite !within_true. lia. }
  unfold lead_bits. destruct (N.ltb_spec first 0x80).
  { cbn. intros [= <- _]. apply Hscalar. lia. }
  destruct (within_range 0xc2 0xdf first) eqn:E1.
  { apply within_true in E1. rewrite (proj2 (N.ltb_lt first 0xe0)) by lia. rewrite (land_sub first 5 6 31 eq_refl) by (cbn; lia).
    next_byte s. intros [= <- _]. apply Hscalar. cbn. lia. }
  assert (∀ lo hi, (0x80 ≤ lo)%N → (hi ≤ 0xbf)%N → (first = 0xed → hi ≤ 0x9f)%N → (0xe0 ≤ first < 0xf0)%N →
    read_rest [within_range lo hi; is_continuation]
      (if (first <? 0xe0)%N then N.land first 31 else if (first <? 0xf0)%N then N.land first 15 else N.land first 7) 1 s = Char c rest →
    is_scalar c = true) as Hthree.
  { intros lo hi Hlo Hhi Hed Hf. rewrite (proj2 (N.ltb_ge first 0xe0)), (proj2 (N.ltb_lt first 0xf0)) by lia.
    rewrite (land_sub first 4 14 15 eq_refl) by (cbn; lia). next_byte s. next_byte s. intros [= <- _]. apply Hscalar. cbn. lia. }
  assert (∀ lo hi, (0x80 ≤ lo)%N → (hi ≤ 0xbf)%N → (first = 0xf4 → hi ≤ 0x8f)%N → (first = 0xf0 → 0x90 ≤ lo)%N → (0xf0 ≤ first ≤ 0xf4)%N →
    read_rest [within_range lo hi; is_continuation; is_continuation]
      (if (first <? 0xe0)%N then N.land first 31 else if (first <? 0xf0)%N then N.land first 15 else N.land first 7) 1 s = Char c rest →
    is_scalar c = true) as Hfour.
  { intros lo hi Hlo Hhi Hf4 Hf0 Hf. rewrite (proj2 (N.ltb_ge first 0xe0)), (proj2 (N.ltb_ge first 0xf0)) by lia.
    rewrite (land_sub first 3 30 7 eq_refl) by (cbn; lia). next_byte s. next_byte s. next_byte s. intros [= <- _]. apply Hscalar. cbn. lia. }
  destruct (N.eqb_spec first 0xe0); [apply Hthree; lia|].
  destruct (N.eqb_spec first 0xed); [apply Hthree; lia|].
  destruct (within_range 0xe1 0xef first) eqn:E2; [apply within_true in E2; apply (Hthree 0x80 0xbf)%N; lia|].
  destruct (N.eqb_spec first 0xf0); [apply Hfour; lia|].
  destruct (N.eqb_spec first 0xf4); [apply Hfour; lia|].
  destruct (within_range 0xf1 0xf3 first) eqn:E3; [apply within_true in E3; apply (Hfour 0x80 0xbf)%N; lia|done].
Qed.

Definition scalars (cs : list char) : Prop := Forall (λ c, is_scalar c = true) cs.

Lemma lossy_scalars fuel : ∀ s, scalars (lossy_go fuel s).1.
Proof.
  induction fuel as [|fuel IH]; intros s; cbn [lossy_go]; [constructor|].
  destruct (read_char s) as [c rest|n rest|] eqn:E; [| |constructor].
  all: specialize (IH rest); destruct (lossy_go fuel rest) as [cs p]; constructor; [|done].
  - by eapply read_char_scalar.
  - done.
Qed.

Lemma encode_bytes c : is_scalar c = true → Forall (λ b, b < 256)%N (Utf8.encode c).
Proof.
  intros Hc%orb_true_iff. rewrite !within_true in Hc. unfold Utf8.encode.
  pose proof (N.mod_lt c 64 ltac:(lia)). pose proof (N.mod_lt (c / 64) 64 ltac:(lia)). pose proof (N.mod_lt (c / 4096) 64 ltac:(lia)).
  destruct (N.ltb_spec c 0x80); [|destruct (N.ltb_spec c 0x800); [|destruct (N.ltb_spec c 0x10000)]]; repeat constructor; try lia.
  - assert (c / 64 < 32)%N by (apply N.Div0.div_lt_upper_bound; lia). lia.
  - assert (c / 4096 < 16)%N by (apply N.Div0.div_lt_upper_bound; lia). lia.
  - assert (c / 262144 < 5)%N by (apply N.Div0.div_lt_upper_bound; lia). lia.
Qed.

Lemma chars_of_chars cs : scalars cs → chars (of_chars cs) = cs.
Proof.
  intros Hcs. unfold chars, of_chars, str. rewrite String.list_ascii_of_string_of_list_ascii.
  replace ((λ a, N_of_ascii a) <$> (ascii_of_N <$> encode_all cs)) with (encode_all cs); [by rewrite lossy_encoded|].
  assert (Forall (λ b, b < 256)%N (encode_all cs)) as Hb.
  { unfold encode_all. induction Hcs as [|c cs Hc _ IH]; [constructor|]. apply Forall_app. split; [by apply encode_bytes|done]. }
  induction Hb as [|b bytes Hb _ IH]; [done|]. cbn. by rewrite N_ascii_embedding, <- IH.
Qed.

(** ** Bounded labels *)

Lemma trim_sub s : ∀ c, c ∈ trim s → c ∈ s.
Proof.
  unfold trim, trim_end. intros c Hc. apply elem_of_take in Hc as (i & Hi & _). apply list_elem_of_lookup_2 in Hi.
  destruct (trim_start_suffix s) as [k ->]. set_solver.
Qed.

Lemma bounded_label_valid value limit label : bounded_label value limit = Some label → valid_label label limit = true.
Proof.
  unfold bounded_label. set (kept := filter _ _).
  destruct (bounded_go_spec limit kept [] (Nat.le_0_l _)) as [Hle (k & Hk)]. case_decide as Ht; [done|].
  intros [= <-]. unfold valid_label. rewrite bool_decide_eq_false_2 by done. rewrite (proj2 (Nat.leb_le _ _)) by done.
  cbn [negb andb]. apply negb_true_iff, not_true_is_false. intros (c & Hc & Hctl)%existsb_exists.
  apply list_elem_of_In in Hc. rewrite Hk in Hc. cbn in Hc. apply elem_of_take in Hc as (i & Hi & _).
  apply list_elem_of_lookup_2, list_elem_of_filter in Hi as [Hi _]. congruence.
Qed.

Lemma bounded_label_scalars value limit label : scalars value → bounded_label value limit = Some label → scalars label.
Proof.
  intros Hv. unfold bounded_label. set (kept := filter _ _). case_decide; [done|]. intros [= <-].
  destruct (bounded_go_spec limit kept [] (Nat.le_0_l _)) as [_ (k & ->)]. cbn.
  apply Forall_take, Forall_forall. intros c Hc. apply list_elem_of_filter in Hc as [_ Hc%trim_sub].
  by eapply Forall_forall in Hv.
Qed.

(** The label kept or else the default, as a string *)
Lemma kept_label_valid value other limit : scalars value → scalars other → valid_label other limit = true →
  valid_label (chars (of_chars (default other (bounded_label value limit)))) limit = true.
Proof.
  intros Hv Ho Hother. destruct (bounded_label value limit) as [label|] eqn:E; unfold from_option, id.
  - rewrite chars_of_chars by (by apply (bounded_label_scalars value limit)). by eapply bounded_label_valid.
  - by rewrite chars_of_chars.
Qed.

(** What the daemon records of a client: an identity that was validated, or labels of its
    own making *)
Definition peer_ok (peer : AttachmentPeer) : Prop :=
  match peer with
  | Process identity => validate_identity identity = true
  | Legacy name version => valid_label (chars name) 64 = true ∧ valid_label (chars version) 64 = true
  end.

Lemma legacy_peer_ok name version : peer_ok (legacy_peer name version).
Proof.
  assert (scalars (str "unknown")) by (repeat (apply Forall_cons_2; [reflexivity|]); apply Forall_nil_2).
  split; (apply kept_label_valid; [apply lossy_scalars|done|reflexivity]).
Qed.

(** ** What is displayed *)

Definition plain (c : char) : Prop := is_control c = false ∧ is_directive c = false.

Lemma hex_plain fuel : ∀ n digits, Forall plain digits → Forall plain (hex_go fuel n digits).
Proof.
  assert (∀ d, (d < 16)%N → plain (hex_digit d)) as Hd.
  { intros d Hd. unfold plain, is_control, is_directive, hex_digit, rng.
    rewrite !orb_false_iff, !andb_false_iff, !bool_decide_eq_false, N.eqb_neq. destruct (N.ltb_spec d 10); lia. }
  induction fuel as [|fuel IH]; intros n digits Hs; cbn [hex_go]; [done|].
  assert (Forall plain (hex_digit (n mod 16) :: digits)) by (constructor; [apply Hd, N.mod_lt; lia|done]).
  destruct (_ =? _)%N; [done|by apply IH].
Qed.

Lemma display_label_plain value : Forall plain (display_label value).
Proof.
  unfold display_label. apply Forall_forall. intros c (l & Hc & Hl)%list_elem_of_join.
  apply list_elem_of_fmap in Hl as (x & -> & _). destruct (is_control x || is_directive x) eqn:E.
  2:{ apply list_elem_of_singleton in Hc as ->. by apply orb_false_iff in E. }
  revert c Hc. apply Forall_forall. unfold escape_default.
  destruct (x =? 9)%N; [repeat constructor|]. destruct (x =? 13)%N; [repeat constructor|]. destruct (x =? 10)%N; [repeat constructor|].
  assert (is_control x = false ∧ is_directive x = false → False) as Hx.
  { intros [E1 E2]. by rewrite E1, E2 in E. }
  assert (rng 32 126 x = true → False) as Hprint.
  { intros Hp. apply Hx. unfold is_control, is_directive, rng in *. rewrite !orb_false_iff, !andb_false_iff, !bool_decide_eq_false, N.eqb_neq.
    apply andb_true_iff in Hp as [Hp1%bool_decide_eq_true Hp2%bool_decide_eq_true]. lia. }
  destruct ((x =? 39)%N || (x =? 34)%N || (x =? 92)%N) eqn:Eq.
  { exfalso. rewrite !orb_true_iff, !N.eqb_eq in Eq. apply Hprint. unfold rng.
    rewrite !bool_decide_eq_true_2; [done|lia|lia]. }
  destruct (rng 32 126 x) eqn:Ep; [by destruct Hprint|].
  apply Forall_app. split; [repeat constructor|]. apply Forall_app. split; [apply hex_plain; constructor|repeat constructor].
Qed.

(** ** Clients of a session *)

Lemma key_lt_trans a b c : key_lt a b = true → key_lt b c = true → key_lt a c = true.
Proof.
  assert (∀ s t, match String.compare s t with Lt => true | _ => false end = true ↔ String_as_OT.lt s t) as Hlt.
  { intros s t. rewrite <- String_as_OT.cmp_lt. unfold String_as_OT.cmp. by destruct (String.compare s t). }
  destruct a as [[] s], b as [[] t], c as [[] u]; cbn; rewrite ?Hlt; try done; apply String_as_OT.lt_trans.
Qed.

Lemma key_lt_irrefl a : key_lt a a = false.
Proof.
  destruct a as [[] s]; cbn; destruct (String.compare s s) eqn:E; try done;
    apply String_as_OT.cmp_lt, String_as_OT.lt_not_eq in E; by destruct E.
Qed.

Lemma key_lt_total a b : a ≠ b → key_lt a b = false → key_lt b a = true.
Proof.
  destruct a as [x s], b as [y t]. intros Hne. unfold key_lt. cbn.
  assert ((match String.compare s t with Lt => true | _ => false end) = false → s ≠ t →
          (match String.compare t s with Lt => true | _ => false end) = true) as Hs.
  { rewrite (String.compare_antisym t s). intros H Hst. destruct (String.compare s t) eqn:E; try done.
    by apply String.compare_eq_iff in E. }
  destruct x, y; try done; intros H; apply Hs; congruence.
Qed.

Notation viewer_map := (list ((bool * string) * SessionViewer.t)) (only parsing).

(** The keys ascend. *)
Fixpoint ascending (m : viewer_map) : Prop :=
  match m with
  | [] => True
  | (k, _) :: rest => Forall (λ kv, key_lt k kv.1 = true) rest ∧ ascending rest
  end.

Fixpoint at_key (k : bool * string) (m : viewer_map) : option SessionViewer.t :=
  match m with
  | [] => None
  | (k', v) :: rest => if decide (k' = k) then Some v else at_key k rest
  end.

Lemma at_key_below k m : Forall (λ kv, key_lt k kv.1 = true) m → at_key k m = None.
Proof.
  induction 1 as [|[k' v] m Hk _ IH]; [done|]. cbn in *. rewrite decide_False; [done|]. intros ->. by rewrite key_lt_irrefl in Hk.
Qed.

Lemma entry_keeps P key new f m : Forall (λ kv, P kv.1) m → P key → Forall (λ kv, P kv.1) (entry_or_insert key new f m).
Proof.
  intros Hm Hk. induction Hm as [|[k v] m Hkv Hm IH]; cbn [entry_or_insert]; [by repeat constructor|].
  case_decide; [by constructor|]. destruct (key_lt key k); by repeat constructor.
Qed.

Lemma entry_spec key new f m : ascending m → ascending (entry_or_insert key new f m) ∧
  ∀ k, at_key k (entry_or_insert key new f m) = if decide (key = k) then Some (f (default new (at_key key m))) else at_key k m.
Proof.
  induction m as [|[k0 v] m IH]; cbn [entry_or_insert ascending at_key].
  { intros _. split; [by repeat constructor|]. intros k. cbn. by case_decide. }
  intros [Hk0 Hm]. case_decide as E.
  { subst k0. split; [done|]. intros k. cbn. by case_decide. }
  destruct (key_lt key k0) eqn:Hlt.
  - assert (Forall (λ kv, key_lt key kv.1 = true) m).
    { eapply Forall_impl; [exact Hk0|]. intros kv. by apply key_lt_trans. }
    split; [by repeat constructor|]. intros k. cbn. rewrite (at_key_below key m) by done. by case_decide.
  - destruct (IH Hm) as [Hasc Hat]. split.
    + split; [|done]. apply (entry_keeps (λ k, key_lt k0 k = true)); [done|]. by apply key_lt_total.
    + intros k. cbn. rewrite Hat. case_decide; [|done]. subst k0. by rewrite decide_False by congruence.
Qed.

Definition key_of (record : AttachmentRecord.t) : bool * string :=
  let v := viewer (AttachmentRecord.attachment_id record) (AttachmentRecord.peer record) in
  (SessionViewer.legacy v, ClientIdentity.instance_id (SessionViewer.identity v)).

Definition number (key : bool * string) (connected : bool) (records : list AttachmentRecord.t) : nat :=
  length (filter (λ record, key_of record = key ∧ AttachmentRecord.connected record = connected) records).

Lemma number_snoc key connected records record : number key connected (records ++ [record]) =
  number key connected records + (if decide (key_of record = key ∧ AttachmentRecord.connected record = connected) then 1 else 0).
Proof. unfold number. rewrite filter_app, length_app. f_equal. rewrite filter_cons. by case_decide. Qed.

(** The viewer found at a key counts the records of that key. *)
Definition counts (key : bool * string) (records : list AttachmentRecord.t) (v : option SessionViewer.t) : Prop :=
  match v with
  | None => number key true records = 0 ∧ number key false records = 0
  | Some v => (SessionViewer.legacy v, ClientIdentity.instance_id (SessionViewer.identity v)) = key ∧
      SessionViewer.connected_attachments v = number key true records ∧
      SessionViewer.reconnecting_attachments v = number key false records ∧
      0 < number key true records + number key false records
  end.

Lemma observe_all records : ascending (foldl observe [] records) ∧
  ∀ key, counts key records (at_key key (foldl observe [] records)).
Proof.
  induction records as [|record records [Hasc Hc]] using rev_ind; [by split|].
  rewrite foldl_app. cbn [foldl]. unfold observe at 1 3. fold (key_of record).
  set (m := foldl observe [] records) in *. set (new := viewer _ _).
  destruct (entry_spec (key_of record) new (count_connection (AttachmentRecord.connected record)) m Hasc) as [Hasc' Hat].
  split; [exact Hasc'|]. intros key. rewrite Hat. specialize (Hc key). case_decide as Hk.
  2:{ destruct (at_key key m); cbn in *; rewrite !number_snoc, !(decide_False (P := key_of record = key ∧ _)) by tauto;
        rewrite ?Nat.add_0_r; tauto. }
  subst key. assert (∀ b, number (key_of record) b (records ++ [record]) =
    number (key_of record) b records + (if decide (AttachmentRecord.connected record = b) then 1 else 0)) as Hn.
  { intros b. rewrite number_snoc. f_equal. repeat case_decide; tauto. }
  unfold counts. rewrite !Hn. destruct (at_key (key_of record) m) as [v|]; cbn [from_option id default] in *;
    unfold counts in Hc; unfold count_connection; destruct (AttachmentRecord.connected record); cbn.
  all: try (destruct Hc as (E & H1 & H2 & H3)); try (destruct Hc as [H1 H2]); rewrite ?H1, ?H2; split_and!; try done.
  all: repeat case_decide; try done; try lia.
  all: unfold new, viewer; destruct (AttachmentRecord.peer record); cbn; lia.
Qed.

Lemma at_key_elem m : ascending m → ∀ k v, (k, v) ∈ m ↔ at_key k m = Some v.
Proof.
  induction m as [|[k0 v0] m IH]; cbn [ascending at_key]; [set_solver|]. intros [Hk0 Hm] k v. rewrite elem_of_cons, IH by done.
  case_decide as E; [subst k0|naive_solver]. rewrite (at_key_below k m) by done. naive_solver.
Qed.

Lemma ascending_sorted m : ascending m → StronglySorted (λ a b, key_lt a b = true) m.*1.
Proof.
  induction m as [|[k v] m IH]; cbn [ascending]; [constructor|]. intros [Hk Hm]. cbn. constructor; [auto|].
  by apply Forall_fmap.
Qed.

(** What a client is called comes from one of its attachments. *)
Lemma entry_from (P : SessionViewer.t → Prop) key new f m : (∀ v, P v → P (f v)) → P new → Forall (λ kv, P kv.2) m →
  Forall (λ kv, P kv.2) (entry_or_insert key new f m).
Proof.
  intros Hf Hn. pose proof (Hf _ Hn) as Hn'. induction 1 as [|[k v] m Hv Hm IH]; cbn [entry_or_insert].
  { constructor; [done|constructor]. }
  case_decide; [constructor; [by apply Hf|done]|]. destruct (key_lt key k); repeat (constructor; [done|]); done.
Qed.

Definition viewer_key (v : SessionViewer.t) : bool * string :=
  (SessionViewer.legacy v, ClientIdentity.instance_id (SessionViewer.identity v)).

Lemma observed_from (P : SessionViewer.t → Prop) records :
  (∀ connected v, P v → P (count_connection connected v)) →
  Forall (λ record, P (viewer (AttachmentRecord.attachment_id record) (AttachmentRecord.peer record))) records →
  Forall (λ kv, P kv.2) (foldl observe [] records).
Proof.
  intros Hf. induction records as [|record records IH] using rev_ind; [constructor|]. intros [Hr Hx%Forall_inv]%Forall_app.
  rewrite foldl_app. cbn [foldl]. unfold observe. apply entry_from; [intros v; apply Hf|done|by apply IH].
Qed.
