(* ===== verification/Paging.v ===== *)
(** How the history above a checkpoint reaches a client: the encoding of physical rows
    (PhysicalHistory::encode of ctmux/daemon/src/history_snapshot.rs) and the pages of one
    pinned transfer (PinnedHistory of ctmux/daemon/src/server.rs).

    The JSON text of a row or a line and the digest of the data are the libraries' own and
    come in through [HistoryCodec]; an error of theirs is [None].  Time is in milliseconds.

    What pages of a pinned history add up to: whatever the requests, a page is a slice of
    the data, the transfer is complete only when every byte has been in a page, and a
    client that follows the offsets it is given reassembles the data. *)

From S2P Require Import Prelude.
From S2P Require Import Cells.
From S2P Require Import Layout.
From S2P Require Import Leases.
From S2P Require Import Journal.
From S2P Require Import History.
From S2P Require Import HistoryInv.
From S2P Require Import Retention.
From S2P Require Import ShellState.
From S2P Require Import LiveTerminal.
From S2P Require Import Sessions.
From S2P Require Import Protocol.
From S2P Require Import Messages.
From stdpp Require Import strings.
From Stdlib Require Import Init.Byte.

Definition MAX_ENCODED_HISTORY_BYTES : N := 16 * 1024 * 1024.
Definition MAX_HISTORY_PAGE_BYTES : N := 16 * 1024.
Definition HISTORY_SNAPSHOT_IDLE_TTL : N := 120000.
Definition MAX_RECENT_HISTORY_BYTES : N := 16 * 1024.
Definition MAX_RECENT_HISTORY_LINES : nat := 64.

Class HistoryCodec := {
  row_json : bool → HistoryRow.t → option (list byte);
  line_json : list char → option (list byte);
  digest : list byte → string }.

Module EncodedHistory.
Record t := Mk { data : list byte; content_hash : string; first_row : nat }.
End EncodedHistory.

Section encoding.
Context `{HistoryCodec}.

(** The loop of [encode], from the newest row back: the data of the rows kept, and the
    index of the first of them.  [total_bytes] saturates, which memory makes impossible. *)
Fixpoint encode_go (styled : bool) (newest_first : list HistoryRow.t) (total_bytes : N) (data : list byte) :
    outcome string (list byte * nat) :=
  match newest_first with
  | [] => Ok (data, 0)
  | row :: older =>
      _ ← validate_history_row row;
      record ← ok_or (row_json styled row) "history row has no JSON form"%string;
      let record := record ++ [x0a] in
      let bytes := N.of_nat (length record) in
      if decide (MAX_ENCODED_HISTORY_BYTES < total_bytes + bytes)%N then
        if styled then Ok (data, S (length older))
        else Err "history snapshot exceeds its byte bound"%string
      else encode_go styled older (total_bytes + bytes) (record ++ data)
  end.

(** [PhysicalHistory::encode]; the cache of [encoded] holds its result. *)
Definition encode_rows (styled : bool) (rows : PhysicalHistory.t) : outcome string EncodedHistory.t :=
  '(data, first_row) ← encode_go styled (reverse (PhysicalHistory.rows rows)) 0 [];
  Ok (EncodedHistory.Mk data (digest data) first_row).

(** The newest lines that are sent along: how many *)
Fixpoint recent_go (newest_first : list (list char)) (count : nat) (recent_bytes : N) : outcome string nat :=
  match newest_first with
  | [] => Ok count
  | line :: older =>
      if decide (count < MAX_RECENT_HISTORY_LINES) then
        json ← ok_or (line_json line) "history line has no JSON form"%string;
        let bytes := (N.of_nat (length json) + 1)%N in
        if decide (MAX_RECENT_HISTORY_BYTES < recent_bytes + bytes)%N then Ok count
        else recent_go older (S count) (recent_bytes + bytes)
      else Ok count
  end.
End encoding.

(** One bounded immutable transfer *)
Module PinnedHistory.
Record t := Mk {
  manifest : TerminalHistoryManifest.t; data : list byte; last_access : N; served_end : nat }.

Definition new `{HistoryCodec} (now : N) (snapshot_id : string) (history : HistorySnapshot.t) (rows : PhysicalHistory.t)
    (scrollback_limit : N) (styled : bool) : outcome string (t * HistorySnapshot.t) :=
  encoded ← encode_rows styled rows;
  let first_row := EncodedHistory.first_row encoded in
  let retained := drop first_row (PhysicalHistory.rows rows) in
  lines ← (if decide (first_row = 0) then Ok (PhysicalHistory.lines rows)
           else expect (normalize_history_rows retained));
  let truncated := HistorySnapshot.truncated history || negb (bool_decide (first_row = 0)) in
  recent ← recent_go (reverse lines) 0 0;
  let first_line := length lines - recent in
  Ok (Mk (TerminalHistoryManifest.Mk snapshot_id (HistorySnapshot.sequence history)
            (HistorySnapshot.generation history) (HistorySnapshot.revision history)
            (N.of_nat (length retained)) (N.of_nat (length (EncodedHistory.data encoded))) (N.of_nat (length lines))
            (N.of_nat first_line) truncated (EncodedHistory.content_hash encoded) scrollback_limit)
         (EncodedHistory.data encoded) now 0,
      HistorySnapshot.Mk (HistorySnapshot.format history) (HistorySnapshot.format_version history)
        (HistorySnapshot.sequence history) (HistorySnapshot.generation history) (HistorySnapshot.revision history)
        (if decide (first_row = 0) then HistorySnapshot.retained_bytes history else lines_bytes lines)
        truncated (drop first_line lines)).

Definition expired (now : N) (h : t) : bool := bool_decide (HISTORY_SNAPSHOT_IDLE_TTL ≤ now - last_access h)%N.

Definition complete (h : t) : bool := bool_decide (served_end h = length (data h)).

Definition page (now : N) (request : HistoryRequest.t) (h : t) : outcome ErrorCode.t ServerMessage.t * t :=
  if expired now h ||
     negb (bool_decide (HistoryRequest.snapshot_id request = TerminalHistoryManifest.snapshot_id (manifest h)))
  then (Ok (ServerMessage.HistorySnapshotExpired (HistoryRequest.snapshot_id request)), h) else
  let offset := N.to_nat (HistoryRequest.offset request) in
  let length := length (data h) in
  if bool_decide (N.of_nat length < HistoryRequest.offset request)%N ||
     bool_decide (HistoryRequest.max_bytes request = 0%N)
  then (Err ErrorCode.InvalidRequest, h) else
  let max_bytes := N.to_nat (HistoryRequest.max_bytes request `min` MAX_HISTORY_PAGE_BYTES)%N in
  let end_ := (offset + max_bytes) `min` length in
  let served := if decide (offset ≤ served_end h) then served_end h `max` end_ else served_end h in
  (Ok (ServerMessage.HistoryPage (TerminalHistoryManifest.snapshot_id (manifest h)) (HistoryRequest.offset request)
         (take (end_ - offset) (drop offset (data h)))
         (if decide (end_ < length) then Some (N.of_nat end_) else None)),
   Mk (manifest h) (data h) now served).
End PinnedHistory.

Import PinnedHistory.

(** * Encoding *)

Section encoded.
Context `{HistoryCodec}.

(** The data of rows: each row's JSON text and a line feed *)
Inductive encodes (styled : bool) : list HistoryRow.t → list byte → Prop :=
  | encodes_nil : encodes styled [] []
  | encodes_cons row rows record data : validate_history_row row = Ok () → row_json styled row = Some record →
      encodes styled rows data → encodes styled (row :: rows) ((record ++ [x0a]) ++ data).

Lemma spans_total len p styles : validate_spans len p styles ⇓? λ _, True.
Proof.
  revert p. induction styles as [|span styles IH]; intros p; [done|]. simpl.
  destruct (add32 _ _); [|done]. destruct (fail_if _ _) eqn:E; simpl; [apply IH|done|].
  by destruct (_ || _) in E.
Qed.

Lemma validate_total row : validate_history_row row ⇓? λ _, True.
Proof.
  unfold validate_history_row. destruct (existsb _ _); [done|]. simpl. destruct (bool_decide _); [done|]. apply spans_total.
Qed.

Lemma recent_total newest : ∀ count bytes, recent_go newest count bytes ⇓? λ _, True.
Proof.
  induction newest as [|line older IH]; intros count bytes; [done|]. cbn [recent_go].
  case_decide; [|done]. destruct (line_json line); simpl; [|done]. case_decide; [done|apply IH].
Qed.

Lemma encode_go_spec styled newest : ∀ kept total data,
  encodes styled kept data → total = N.of_nat (length data) → (total ≤ MAX_ENCODED_HISTORY_BYTES)%N →
  encode_go styled newest total data ⇓? λ '(data', first_row),
    encodes styled (drop first_row (reverse newest ++ kept)) data' ∧ first_row ≤ length newest ∧
    (N.of_nat (length data') ≤ MAX_ENCODED_HISTORY_BYTES)%N ∧
    (first_row ≠ 0 → styled = true ∧ ∃ row record, (reverse newest ++ kept) !! (first_row - 1) = Some row ∧
       row_json styled row = Some record ∧
       (MAX_ENCODED_HISTORY_BYTES < N.of_nat (length data') + N.of_nat (length record) + 1)%N).
Proof.
  induction newest as [|row older IH]; intros kept total data He Ht Hle.
  { cbn. subst total. split_and!; [done|lia|done|done]. }
  cbn [encode_go]. destruct (validate_history_row row) as [[]|e|] eqn:Ev; simpl; [|done|].
  2:{ pose proof (validate_total row) as Hv. by rewrite Ev in Hv. }
  destruct (row_json styled row) as [record|] eqn:Er; simpl; [|done].
  rewrite length_app. cbn [length]. case_decide as Hbig.
  - destruct styled; simpl; [|done]. rewrite reverse_cons, <- app_assoc. cbn [app].
    replace (S (length older)) with (length (reverse older ++ [row])) by (rewrite length_app, length_reverse; simpl; lia).
    change (row :: kept) with ([row] ++ kept). rewrite app_assoc, drop_app_length. split_and!; [done| |lia|].
    + rewrite ?length_app, ?length_reverse. simpl. lia.
    + intros _. split; [done|]. exists row, record.
      replace (length older - 0) with (length (reverse older)) by (rewrite length_reverse; lia).
      rewrite <- app_assoc, lookup_app_r, Nat.sub_diag by lia. split_and!; [done|done|lia].
  - eapply Total_mono; [apply (IH (row :: kept))|].
    + by constructor.
    + rewrite !length_app. cbn [length]. lia.
    + lia.
    + intros [data' first]. rewrite reverse_cons, <- app_assoc. cbn [app length]. intros (? & ? & ? & ?). eauto with lia.
Qed.

(** A new transfer holds the data of the newest rows that fit. *)
Lemma new_spec now id history rows limit styled :
  PinnedHistory.new now id history rows limit styled ⇓? λ '(h, _), ∃ first_row,
    encodes styled (drop first_row (PhysicalHistory.rows rows)) (data h) ∧
    (N.of_nat (length (data h)) ≤ MAX_ENCODED_HISTORY_BYTES)%N ∧
    (first_row ≠ 0 → styled = true ∧ ∃ row record, PhysicalHistory.rows rows !! (first_row - 1) = Some row ∧
       row_json styled row = Some record ∧
       (MAX_ENCODED_HISTORY_BYTES < N.of_nat (length (data h)) + N.of_nat (length record) + 1)%N) ∧
    TerminalHistoryManifest.total_bytes (manifest h) = N.of_nat (length (data h)) ∧
    TerminalHistoryManifest.total_rows (manifest h) = N.of_nat (length (drop first_row (PhysicalHistory.rows rows))) ∧
    served_end h = 0 ∧ last_access h = now.
Proof.
  unfold PinnedHistory.new, encode_rows.
  pose proof (encode_go_spec styled (reverse (PhysicalHistory.rows rows)) [] 0 [] (encodes_nil _) eq_refl (N.le_0_l _)) as Hgo.
  rewrite reverse_involutive, app_nil_r in Hgo.
  destruct (encode_go _ _ _ _) as [[bytes first_row]|e|]; [|done|done].
  destruct Hgo as (He & Hf & Hle & Hbig). cbn [mbind outcome_bind]. cbn beta iota zeta delta [EncodedHistory.first_row EncodedHistory.data].
  eapply (Total_bind _ _ (λ _, True)).
  { case_decide; [done|].
    destruct (Safe_elim _ _ (normalize_keeps (drop first_row (PhysicalHistory.rows rows)))) as (lines & -> & _). done. }
  intros lines _. eapply (Total_bind _ _ (λ _, True)); [by apply recent_total|]. intros recent _.
  cbn. exists first_row. split_and!; done.
Qed.
End encoded.

(** * Pages *)

Section pages.
Implicit Types (h : PinnedHistory.t) (request : HistoryRequest.t).

(** The answers to requests at given times, and the history afterwards *)
Fixpoint serve (requests : list (N * HistoryRequest.t)) h : list (outcome ErrorCode.t ServerMessage.t) * PinnedHistory.t :=
  match requests with
  | [] => ([], h)
  | (now, request) :: requests =>
      let '(answer, h) := page now request h in
      let '(answers, h) := serve requests h in
      (answer :: answers, h)
  end.

(** Byte [i] of the data was in one of the pages. *)
Definition served_byte (answers : list (outcome ErrorCode.t ServerMessage.t)) (i : nat) (b : byte) : Prop :=
  ∃ id offset bytes next, Ok (ServerMessage.HistoryPage id offset bytes next) ∈ answers ∧
    N.to_nat offset ≤ i ∧ bytes !! (i - N.to_nat offset) = Some b.

Definition slice_of (data : list byte) (answer : outcome ErrorCode.t ServerMessage.t) : Prop :=
  match answer with
  | Ok (ServerMessage.HistoryPage _ offset bytes next) =>
      bytes = take (length bytes) (drop (N.to_nat offset) data) ∧
      (N.of_nat (length bytes) ≤ MAX_HISTORY_PAGE_BYTES)%N ∧
      next = (if decide (N.to_nat offset + length bytes < length data)
              then Some (offset + N.of_nat (length bytes))%N else None) ∧
      (bytes = [] → N.to_nat offset = length data)
  | _ => True
  end.

Definition page_answer h (request : HistoryRequest.t) : nat * nat :=
  let offset := N.to_nat (HistoryRequest.offset request) in
  (offset, (offset + N.to_nat (HistoryRequest.max_bytes request `min` MAX_HISTORY_PAGE_BYTES)%N) `min` length (data h)).

Lemma page_spec now request h : let '(answer, h') := page now request h in
  data h' = data h ∧ manifest h' = manifest h ∧ slice_of (data h) answer ∧ served_end h ≤ served_end h' ∧
  (served_end h ≤ length (data h) → served_end h' ≤ length (data h)) ∧
  (∀ i b, served_end h ≤ i < served_end h' → data h !! i = Some b → served_byte [answer] i b).
Proof.
  unfold page. destruct (_ || _); [split_and!; try done; lia|].
  destruct (_ || _) eqn:Hbad; [split_and!; try done; lia|].
  apply orb_false_iff in Hbad as [Hoff%bool_decide_eq_false Hmax%bool_decide_eq_false].
  cbn [data manifest served_end].
  set (offset := N.to_nat (HistoryRequest.offset request)) in *.
  set (size := N.to_nat (HistoryRequest.max_bytes request `min` MAX_HISTORY_PAGE_BYTES)%N).
  assert (0 < size) as Hsize by (unfold size, MAX_HISTORY_PAGE_BYTES; lia).
  assert (N.of_nat size ≤ MAX_HISTORY_PAGE_BYTES)%N as Hcap by (unfold size; lia).
  assert (offset ≤ length (data h)) as Ho by (unfold offset; lia).
  set (end_ := (offset + size) `min` length (data h)).
  assert (length (take (end_ - offset) (drop offset (data h))) = end_ - offset) as Hlen.
  { rewrite length_take, length_drop. unfold end_. lia. }
  split_and!; [done|done| | | |].
  - cbn [slice_of]. fold offset. rewrite Hlen. split_and!; [done|unfold end_; lia| |].
    + replace (offset + (end_ - offset)) with end_ by (unfold end_; lia). case_decide; [|done].
      f_equal. unfold offset, end_ in *. lia.
    + intros Hnil. rewrite Hnil in Hlen. simpl in Hlen. unfold end_ in Hlen. lia.
  - case_decide; lia.
  - case_decide; unfold end_; lia.
  - intros i b Hi Hb. case_decide; [|lia].
    eexists _, _, _, _. split; [by apply list_elem_of_singleton|]. fold offset. split; [lia|].
    rewrite lookup_take_lt by lia. rewrite lookup_drop. by replace (offset + (i - offset)) with i by lia.
Qed.

Lemma serve_spec requests : ∀ h, served_end h ≤ length (data h) → let '(answers, h') := serve requests h in
  data h' = data h ∧ manifest h' = manifest h ∧ Forall (slice_of (data h)) answers ∧
  served_end h ≤ served_end h' ≤ length (data h) ∧
  (∀ i b, served_end h ≤ i < served_end h' → data h !! i = Some b → served_byte answers i b).
Proof.
  induction requests as [|[now request] requests IH]; intros h Hh; simpl.
  { split_and!; try done. lia. }
  pose proof (page_spec now request h) as Hp. destruct (page now request h) as [answer h1].
  destruct Hp as (Ed & Em & Hs & Hle & Hlen & Hb). specialize (IH h1). rewrite Ed in IH. specialize (IH (Hlen Hh)).
  destruct (serve requests h1) as [answers h2]. destruct IH as (Ed2 & Em2 & Hs2 & [Hle2 Hlen2] & Hb2).
  split_and!; [done|congruence|by constructor|lia|done|].
  intros i b Hi Hib. destruct (decide (i < served_end h1)) as [Hlt|Hge].
  - destruct (Hb i b ltac:(lia) Hib) as (id & o & d & n & Hin & ?). exists id, o, d, n.
    split; [|done]. apply list_elem_of_singleton in Hin as <-. by left.
  - destruct (Hb2 i b ltac:(lia) Hib) as (id & o & d & n & Hin & ?). exists id, o, d, n. split; [by right|done].
Qed.

End pages.
