(* ===== verification/FlowControl.v ===== *)
(** Sending a terminal's output to an attachment (LiveAttachment and AttachmentDriver of
    ctmux/daemon/src/server.rs): output frames within a window of bytes the client has not
    acknowledged, checkpoints in place of output it cannot follow, and pages of history.

    The connection is an argument: [write_frame] tells from what was sent before whether
    the next message is written, is too late for the deadline, or fails; [new_id] is the
    identifier drawn for a pinned history.  [wire] records the messages written.  The lease
    table's answer to [owns_input_lease] and the time are fields the environment changes.
    Metadata (views, leases) and the other requests of a client leave this state alone: they
    are behind the interface [AttachInput], which the requests of ServerAttach keep (RequestTheorems). *)

From S2P Require Import Prelude.
From S2P Require Import Cells.
From S2P Require Import Layout.
From S2P Require Import Journal.
From S2P Require Import History.
From S2P Require Import Retention.
From S2P Require Import ShellState.
From S2P Require Import LiveTerminal.
From S2P Require Import Leases.
From S2P Require Import Sessions.
From S2P Require Import Delivery.
From S2P Require Import Protocol.
From S2P Require Import Messages.
From S2P Require Import Paging.
From stdpp Require Import strings.
From Stdlib Require Import Init.Byte.

Definition MAX_PRESENTATION_WINDOW_BYTES : N := 8 * 1024 * 1024.
Definition MIN_OUTPUT_FRAME_CHARGE_BYTES : N := 4 * 1024.
Definition MAX_OUTPUT_FRAME_BYTES : N := 64 * 1024.

Inductive WriteResult := Written | TimedOut | WriteFailed.

Class Connection := {
  write_frame : list ServerMessage.t → ServerMessage.t → WriteResult;
  new_id : list ServerMessage.t → string }.

(** Messages that say nothing of the output *)
Definition quiet (message : ServerMessage.t) : Prop :=
  match message with
  | ServerMessage.Attached _ _ _ _ _ _ _ _ _ _ _ _ | ServerMessage.Checkpoint _ _ _ _ | ServerMessage.Output _ _ _
  | ServerMessage.PtyGeometryChanged _ _ => False
  | _ => True
  end.

(** What an attachment promises of its other requests (keys, sizes, leases, heartbeats and
    layout edits): at most one message in reply, and never output out of turn. *)
Class AttachInput := {
  input_reply : list ServerMessage.t → ClientMessage.t → option ServerMessage.t;
  input_reply_quiet messages message reply : input_reply messages message = Some reply → quiet reply }.

Definition renews_attachment_liveness (message : ClientMessage.t) : bool :=
  match message with
  | ClientMessage.Input _ | ClientMessage.Resize _ | ClientMessage.SetViewZoom _ | ClientMessage.ResizePane _ _ _ _
  | ClientMessage.ResizeDivider _ _ | ClientMessage.SwapPane _ _ _ | ClientMessage.BreakPane _ _ _
  | ClientMessage.AcquireLease _ | ClientMessage.ReleaseLease _ | ClientMessage.Heartbeat _
  | ClientMessage.HistoryRequest _ | ClientMessage.RequestCheckpoint | ClientMessage.Detach => true
  | _ => false
  end.

Inductive ConnectionError := JournalFailed (e : JournalError) | HistoryFailed (e : string) | CodecFailed.

Module OutputDelivery.
Record t := Mk { sequence_end : N; charge_bytes : N }.
End OutputDelivery.

Module LiveAttachment.
Record t := Mk {
  protocol_version : ProtocolVersion.t; sent_sequence : N; checkpoint_geometry_revision : option N;
  shell_state_revision : N; presentation_window_bytes : N; applied_sequence : option N;
  in_flight_output : list OutputDelivery.t; in_flight_charge_bytes : N;
  request_command_line : bool; request_running_command : bool;
  pinned_history : option PinnedHistory.t; pending_history : option HistoryRequest.t; pending_checkpoint : bool }.

Definition set_progress (applied : option N) (in_flight : list OutputDelivery.t) (charge : N) (a : t) : t :=
  Mk (protocol_version a) (sent_sequence a) (checkpoint_geometry_revision a) (shell_state_revision a)
     (presentation_window_bytes a) applied in_flight charge (request_command_line a) (request_running_command a)
     (pinned_history a) (pending_history a) (pending_checkpoint a).
Definition set_pending_checkpoint (x : bool) (a : t) : t :=
  Mk (protocol_version a) (sent_sequence a) (checkpoint_geometry_revision a) (shell_state_revision a)
     (presentation_window_bytes a) (applied_sequence a) (in_flight_output a) (in_flight_charge_bytes a)
     (request_command_line a) (request_running_command a) (pinned_history a) (pending_history a) x.
Definition set_history (pinned : option PinnedHistory.t) (pending : option HistoryRequest.t) (a : t) : t :=
  Mk (protocol_version a) (sent_sequence a) (checkpoint_geometry_revision a) (shell_state_revision a)
     (presentation_window_bytes a) (applied_sequence a) (in_flight_output a) (in_flight_charge_bytes a)
     (request_command_line a) (request_running_command a) pinned pending (pending_checkpoint a).
Definition set_shell_revision (x : N) (a : t) : t :=
  Mk (protocol_version a) (sent_sequence a) (checkpoint_geometry_revision a) x
     (presentation_window_bytes a) (applied_sequence a) (in_flight_output a) (in_flight_charge_bytes a)
     (request_command_line a) (request_running_command a) (pinned_history a) (pending_history a) (pending_checkpoint a).
(** An output frame was written. *)
Definition sent_frame (sequence_end charge : N) (a : t) : t :=
  Mk (protocol_version a) sequence_end (checkpoint_geometry_revision a) (shell_state_revision a)
     (presentation_window_bytes a) (applied_sequence a)
     (in_flight_output a ++ [OutputDelivery.Mk sequence_end charge]) (in_flight_charge_bytes a + charge)%N
     (request_command_line a) (request_running_command a) (pinned_history a) (pending_history a) (pending_checkpoint a).
(** A checkpoint was written. *)
Definition sent_checkpoint (sequence : N) (pinned : option PinnedHistory.t) (revision : option N) (a : t) : t :=
  Mk (protocol_version a) sequence revision (shell_state_revision a)
     (presentation_window_bytes a) None (in_flight_output a) (in_flight_charge_bytes a)
     (request_command_line a) (request_running_command a) pinned None (pending_checkpoint a).
End LiveAttachment.
Import LiveAttachment.

Module PendingSessionEnd.
Record t := Mk { exit_code : option N; final_sequence : N }.
End PendingSessionEnd.

Module Driver.
Record t := Mk {
  attachment : LiveAttachment.t; session : LiveTerminal.t; attachment_liveness_timeout : N; deadline : N;
  pending_session_end : option PendingSessionEnd.t; now : N; owns_input : bool; wire : list ServerMessage.t }.

Definition set_attachment (x : LiveAttachment.t) (d : t) : t :=
  Mk x (session d) (attachment_liveness_timeout d) (deadline d) (pending_session_end d) (now d) (owns_input d) (wire d).
Definition set_session (x : LiveTerminal.t) (d : t) : t :=
  Mk (attachment d) x (attachment_liveness_timeout d) (deadline d) (pending_session_end d) (now d) (owns_input d) (wire d).
Definition set_deadline (x : N) (d : t) : t :=
  Mk (attachment d) (session d) (attachment_liveness_timeout d) x (pending_session_end d) (now d) (owns_input d) (wire d).
Definition set_pending_session_end (x : option PendingSessionEnd.t) (d : t) : t :=
  Mk (attachment d) (session d) (attachment_liveness_timeout d) (deadline d) x (now d) (owns_input d) (wire d).
Definition set_environment (time : N) (owns : bool) (d : t) : t :=
  Mk (attachment d) (session d) (attachment_liveness_timeout d) (deadline d) (pending_session_end d) time owns (wire d).
Definition set_wire (x : list ServerMessage.t) (d : t) : t :=
  Mk (attachment d) (session d) (attachment_liveness_timeout d) (deadline d) (pending_session_end d) (now d) (owns_input d) x.
End Driver.
Import Driver.

(** * Frames *)

Definition output_frame_charge (data_len : nat) (presentation_window_bytes : N) : N :=
  (N.of_nat data_len `max` (presentation_window_bytes `min` MIN_OUTPUT_FRAME_CHARGE_BYTES))%N.

Definition chunk_after (chunk : OutputChunk.t) (sequence : N) : option (option OutputChunk.t) :=
  e ← OutputChunk.sequence_end chunk;
  if decide (e ≤ sequence)%N then Some None
  else if decide (sequence ≤ OutputChunk.sequence_start chunk)%N then Some (Some chunk)
  else
    let offset := N.to_nat (sequence - OutputChunk.sequence_start chunk) in
    if decide (offset ≤ length (OutputChunk.data chunk))
    then Some (Some (OutputChunk.Mk sequence (drop offset (OutputChunk.data chunk)))) else None.

Fixpoint coalesce_go (chunks : list OutputChunk.t) (next_sequence : N) (max_bytes : nat) (data : list byte) :
    option (list byte) :=
  match chunks with
  | [] => Some data
  | chunk :: chunks =>
      after ← chunk_after chunk next_sequence;
      match after with
      | None => coalesce_go chunks next_sequence max_bytes data
      | Some chunk =>
          if negb (bool_decide (OutputChunk.sequence_start chunk = next_sequence)) then Some data else
          remaining ← csub max_bytes (length data);
          let take_ := remaining `min` length (OutputChunk.data chunk) in
          next_sequence ← add64 next_sequence (N.of_nat take_);
          let data := data ++ take take_ (OutputChunk.data chunk) in
          if decide (length data = max_bytes) then Some data
          else coalesce_go chunks next_sequence max_bytes data
      end
  end.

Definition coalesce_output_chunks (chunks : list OutputChunk.t) (sequence : N) (max_bytes : nat) :
    option (option OutputChunk.t) :=
  if decide (max_bytes = 0) then Some None else
  data ← coalesce_go chunks sequence max_bytes [];
  Some (if decide (data = []) then None else Some (OutputChunk.Mk sequence data)).

(** * Acknowledgements *)

Fixpoint pop_delivered (sequence : N) (in_flight : list OutputDelivery.t) (charge : N) :
    list OutputDelivery.t * N :=
  match in_flight with
  | delivery :: rest =>
      if decide (OutputDelivery.sequence_end delivery ≤ sequence)%N
      then pop_delivered sequence rest (charge - OutputDelivery.charge_bytes delivery)
      else (in_flight, charge)
  | [] => ([], charge)
  end.

Definition accept_presentation_progress (sequence : N) (a : LiveAttachment.t) : outcome string LiveAttachment.t :=
  let accept :=
    let '(in_flight, charge) := pop_delivered sequence (in_flight_output a) (in_flight_charge_bytes a) in
    Ok (set_progress (Some sequence) in_flight charge a) in
  if decide (sent_sequence a < sequence)%N then Err "presentation acknowledgement is ahead of sent output"%string else
  match applied_sequence a with
  | Some applied =>
      if decide (sequence < applied)%N then Err "presentation acknowledgement regressed"%string
      else if decide (sequence = applied) then Ok a
      else if negb (existsb (λ delivery, bool_decide (OutputDelivery.sequence_end delivery = sequence)) (in_flight_output a))
      then Err "presentation acknowledgement is not an output frame boundary"%string
      else accept
  | None =>
      if negb (bool_decide (sequence = sent_sequence a)) || negb (bool_decide (in_flight_output a = []))
      then Err "presentation acknowledgement does not match the pending checkpoint"%string
      else accept
  end.

Definition geometry_event_is_stale (checkpoint_geometry_revision : option N)
    (sent_sequence observed_sequence geometry_revision : N) : bool :=
  match checkpoint_geometry_revision with Some known => bool_decide (geometry_revision ≤ known)%N | None => false end ||
  bool_decide (observed_sequence < sent_sequence)%N.

(** * Checkpoints *)

(** [payload.drain(..prefix_bytes)] panics past the end. *)
Definition project_checkpoint_for_contract (version : ProtocolVersion.t) (a : AttachSnapshot.t) :
    option AttachSnapshot.t :=
  if supports_extended_keys version then Some a else
  let prefix_bytes := AttachSnapshot.checkpoint_keyboard_prefix_bytes a in
  checkpoint ← match AttachSnapshot.checkpoint a with
               | Some c =>
                   if decide (prefix_bytes ≤ length (TerminalCheckpoint.payload c)) then
                     Some (Some (TerminalCheckpoint.Mk (TerminalCheckpoint.format c) (TerminalCheckpoint.format_version c)
                       (TerminalCheckpoint.sequence c) (TerminalCheckpoint.terminal_size c)
                       (drop prefix_bytes (TerminalCheckpoint.payload c)) (TerminalCheckpoint.input_prefix c)))
                   else None
               | None => Some None
               end;
  Some (AttachSnapshot.Mk (AttachSnapshot.session a) checkpoint 0 (AttachSnapshot.checkpoint_geometry_revision a)
          (AttachSnapshot.journal a) (AttachSnapshot.history_gap a) (AttachSnapshot.history a)
          (AttachSnapshot.history_rows a) (AttachSnapshot.scrollback_limit a) (AttachSnapshot.shell_state a)).

Definition with_history (history : option HistorySnapshot.t) (a : AttachSnapshot.t) : AttachSnapshot.t :=
  AttachSnapshot.Mk (AttachSnapshot.session a) (AttachSnapshot.checkpoint a)
    (AttachSnapshot.checkpoint_keyboard_prefix_bytes a) (AttachSnapshot.checkpoint_geometry_revision a)
    (AttachSnapshot.journal a) (AttachSnapshot.history_gap a) history (AttachSnapshot.history_rows a)
    (AttachSnapshot.scrollback_limit a) (AttachSnapshot.shell_state a).

Definition map_error {E E' A} (f : E → E') (m : outcome E A) : outcome E' A :=
  match m with Ok a => Ok a | Err e => Err (f e) | Panic => Panic end.

Definition pin_snapshot_history `{HistoryCodec} (now : N) (snapshot_id : string) (version : ProtocolVersion.t)
    (a : AttachSnapshot.t) : outcome ConnectionError (option PinnedHistory.t * AttachSnapshot.t) :=
  a ← expect (project_checkpoint_for_contract version a);
  if decide (version = CONTRACT_V1_0_13) then Ok (None, a) else
  match AttachSnapshot.history a with
  | None => Ok (None, a)
  | Some history =>
      let rows := default PhysicalHistory.empty (AttachSnapshot.history_rows a) in
      '(pinned, recent) ← map_error HistoryFailed
        (PinnedHistory.new now snapshot_id history rows (AttachSnapshot.scrollback_limit a)
           (supports_styled_history version));
      Ok (Some pinned, with_history (Some recent) a)
  end.

(** A lookup in the journal, whose error ends the connection *)
Definition journal_result {A} (m : option (JournalError + A)) : outcome ConnectionError A :=
  match m with Some (inr a) => Ok a | Some (inl e) => Err (JournalFailed e) | None => Panic end.

Section driver.
Context `{UnicodeWidth, HistoryCodec, Connection, AttachInput}.
Context (owner : TerminalOwner.t) (terminal_id : string).
Implicit Types (d : Driver.t).

Definition write_before_deadline (message : ServerMessage.t) d : outcome ConnectionError (bool * Driver.t) :=
  match write_frame (wire d) message with
  | Written => Ok (true, set_wire (wire d ++ [message]) d)
  | TimedOut => Ok (false, d)
  | WriteFailed => Err CodecFailed
  end.

Definition send_checkpoint (snapshot : AttachSnapshot.t) d : outcome ConnectionError (bool * Driver.t) :=
  '(pinned, snapshot) ← pin_snapshot_history (now d) (new_id (wire d)) (protocol_version (attachment d)) snapshot;
  checkpoint ← expect (AttachSnapshot.checkpoint snapshot);
  history ← expect (AttachSnapshot.history snapshot);
  '(written, d) ← write_before_deadline
    (ServerMessage.Checkpoint checkpoint history (PinnedHistory.manifest <$> pinned) (AttachSnapshot.history_gap snapshot)) d;
  if written : bool then
    Ok (true, set_attachment
      (sent_checkpoint (TerminalCheckpoint.sequence checkpoint) pinned
         (AttachSnapshot.checkpoint_geometry_revision snapshot) (attachment d)) d)
  else Ok (false, d).

(** One turn of the loop of [send_available_output]: [None] goes round again. *)
Definition send_pass d : outcome ConnectionError (option bool * Driver.t) :=
  let a := attachment d in
  let available_bytes := (presentation_window_bytes a - in_flight_charge_bytes a)%N in
  if decide (available_bytes = 0%N) then Ok (Some true, d) else
  snapshot ← journal_result (snapshot_for_delivery owner terminal_id (Some (sent_sequence a))
                               (checkpoint_geometry_revision a) (session d));
  match AttachSnapshot.checkpoint snapshot with
  | Some _ =>
      if decide (in_flight_output a = []) then
        '(written, d) ← send_checkpoint snapshot d; Ok (Some written, d)
      else Ok (Some true, d)
  | None =>
      let frame_limit := N.to_nat (available_bytes `min` MAX_OUTPUT_FRAME_BYTES)%N in
      chunk ← expect (coalesce_output_chunks (JournalSnapshot.chunks (AttachSnapshot.journal snapshot))
                        (sent_sequence a) frame_limit);
      match chunk with
      | None => Ok (Some true, d)
      | Some chunk =>
          sequence_end ← expect (OutputChunk.sequence_end chunk);
          let charge_bytes := output_frame_charge (length (OutputChunk.data chunk)) (presentation_window_bytes a) in
          if decide (available_bytes < charge_bytes)%N then Ok (Some true, d) else
          '(written, d) ← write_before_deadline
            (ServerMessage.Output (OutputChunk.sequence_start chunk) sequence_end (OutputChunk.data chunk)) d;
          if written : bool
          then Ok (None, set_attachment (sent_frame sequence_end charge_bytes (attachment d)) d)
          else Ok (Some false, d)
      end
  end.

Fixpoint send_loop (fuel : nat) d : outcome ConnectionError (bool * Driver.t) :=
  match fuel with
  | 0 => Panic
  | S fuel =>
      '(result, d) ← send_pass d;
      match result with Some result => Ok (result, d) | None => send_loop fuel d end
  end.

(** Every turn but the last sends at least one byte. *)
Definition unsent d : nat :=
  N.to_nat (OutputJournal.next_sequence (LiveTerminal.journal (session d)) - sent_sequence (attachment d)).

Definition send_available_output d : outcome ConnectionError (bool * Driver.t) :=
  let a := attachment d in
  if decide (applied_sequence a = None) then Ok (true, d)
  else if pending_checkpoint a && bool_decide (in_flight_output a = []) then
    '(snapshot, terminal) ← expect (fresh_snapshot owner terminal_id (session d));
    snapshot ← journal_result (Some snapshot);
    send_checkpoint snapshot (set_attachment (set_pending_checkpoint false a) (set_session terminal d))
  else send_loop (S (unsent d)) d.

Definition renew_liveness d : Driver.t :=
  if decide (pending_session_end d = None) then set_deadline (now d + attachment_liveness_timeout d)%N d else d.

Definition write_shell_state_snapshot (state : ShellState.t) (force : bool) d : outcome ConnectionError (bool * Driver.t) :=
  let last_revision := shell_state_revision (attachment d) in
  if negb force && bool_decide (ShellState.revision state ≤ last_revision)%N then Ok (true, d) else
  write_before_deadline (ServerMessage.ShellStateChanged state)
    (set_attachment (set_shell_revision (last_revision `max` ShellState.revision state)%N (attachment d)) d).

Definition visible_shell_state d : ShellState.t :=
  shell_state_for_visibility (request_command_line (attachment d) && owns_input d)
    (request_running_command (attachment d) && owns_input d) (session d).

Definition process_geometry_change (terminal_size : TerminalSize.t) (observed_sequence geometry_revision : N) d :
    outcome ConnectionError (bool * Driver.t) :=
  if geometry_event_is_stale (checkpoint_geometry_revision (attachment d)) (sent_sequence (attachment d))
       observed_sequence geometry_revision
  then Ok (true, d)
  else send_available_output d.

(** What the receiver of events yields *)
Inductive Received := Event (event : SessionEvent) | Lagged | Closed.

Definition process_session_event (event : Received) d : outcome ConnectionError (bool * Driver.t) :=
  match event with
  | Event Output => send_available_output d
  | Event (PtyGeometryChanged size observed revision) => process_geometry_change size observed revision d
  | Event (LiveTerminal.Ended exit_code) =>
      send_available_output
        (set_pending_session_end
           (Some (PendingSessionEnd.Mk exit_code (OutputJournal.next_sequence (LiveTerminal.journal (session d))))) d)
  | Lagged =>
      '(connected, d) ← send_available_output d;
      if connected : bool then write_shell_state_snapshot (visible_shell_state d) true d else Ok (false, d)
  | Closed => Ok (false, d)
  end.

(** The update is the state the terminal published last. *)
Definition process_shell_state_update d : outcome ConnectionError (bool * Driver.t) :=
  if bool_decide (ShellState.revision (LiveTerminal.shell_state (session d)) ≤ shell_state_revision (attachment d))%N
  then Ok (true, d) else write_shell_state_snapshot (visible_shell_state d) false d.

Definition write_error (text : string) d : outcome ConnectionError (bool * Driver.t) :=
  write_before_deadline (ServerMessage.Error ErrorCode.InvalidRequest text) d.

(** What the terminal, the registry and the lease table make of the message is the
    interface [AttachInput]. *)
Definition forward_message (message : ClientMessage.t) d : outcome ConnectionError (bool * Driver.t) :=
  match input_reply (wire d) message with
  | Some reply => write_before_deadline reply d
  | None => Ok (true, d)
  end.

Definition process_client_message (message : ClientMessage.t) d : outcome ConnectionError (bool * Driver.t) :=
  if decide (deadline d ≤ now d)%N then Ok (false, d) else
  match message with
  | ClientMessage.PresentationApplied sequence =>
      match accept_presentation_progress sequence (attachment d) with
      | Err text => write_error text d
      | Ok a => send_available_output (renew_liveness (set_attachment a d))
      | Panic => Panic
      end
  | ClientMessage.RequestCheckpoint =>
      if decide (protocol_version (attachment d) = CONTRACT_V1_0_13)
      then write_error "paged history requires contract 1.1.14" d
      else send_available_output (renew_liveness (set_attachment (set_pending_checkpoint true (attachment d)) d))
  | ClientMessage.HistoryRequest request =>
      if decide (protocol_version (attachment d) = CONTRACT_V1_0_13)
      then write_error "paged history requires contract 1.1.14" d
      else
        let d := renew_liveness d in
        match pending_history (attachment d) with
        | Some _ => write_error "only one history page request may be pending" d
        | None => Ok (true, set_attachment (set_history (pinned_history (attachment d)) (Some request) (attachment d)) d)
        end
  | ClientMessage.Detach => Ok (false, renew_liveness d)
  | message => forward_message message (if renews_attachment_liveness message then renew_liveness d else d)
  end.

Definition send_history_page d : outcome ConnectionError (bool * Driver.t) :=
  match pending_history (attachment d) with
  | None => Ok (true, d)
  | Some request =>
      let '(response, pinned) :=
        match pinned_history (attachment d) with
        | None => (Ok (ServerMessage.HistorySnapshotExpired (HistoryRequest.snapshot_id request)), None)
        | Some pinned => let '(r, pinned) := PinnedHistory.page (now d) request pinned in (r, Some pinned)
        end in
      let d := set_attachment (set_history pinned None (attachment d)) d in
      message ← match response with
                | Ok message => Ok message
                | Err code => Ok (ServerMessage.Error code "invalid history page offset or size")
                | Panic => Panic
                end;
      write_before_deadline message d
  end.

(** The turn of the driver's loop that serves a page, and the one that drops an expired history *)
Definition serve_history d : outcome ConnectionError (bool * Driver.t) :=
  '(connected, d) ← send_available_output d;
  if connected : bool then send_history_page d else Ok (false, d).

Definition drop_expired_history d : Driver.t :=
  match pinned_history (attachment d) with
  | Some pinned =>
      if PinnedHistory.expired (now d) pinned
      then set_attachment (set_history None (pending_history (attachment d)) (attachment d)) d else d
  | None => d
  end.

(** [true] ends the attachment. *)
Definition send_session_end_if_drained d : outcome ConnectionError (bool * Driver.t) :=
  match pending_session_end d with
  | None => Ok (false, d)
  | Some ended =>
      if decide (sent_sequence (attachment d) < PendingSessionEnd.final_sequence ended)%N then Ok (false, d)
      else if match pinned_history (attachment d) with
              | Some history => negb (PinnedHistory.complete history) && negb (PinnedHistory.expired (now d) history)
              | None => false
              end then Ok (false, d)
      else
        '(written, d) ← write_shell_state_snapshot (visible_shell_state d) false d;
        if written : bool then
          '(_, d) ← write_before_deadline (ServerMessage.SessionEnded (TerminalOwner.session_id owner) (PendingSessionEnd.exit_code ended)) d;
          Ok (true, d)
        else Ok (true, d)
  end.
End driver.

(** * Attaching *)

Definition valid_presentation_window (window_bytes : N) : bool :=
  bool_decide (1 ≤ window_bytes)%N && bool_decide (window_bytes ≤ MAX_PRESENTATION_WINDOW_BYTES)%N.

Module AttachParameters.
Record t := Mk {
  protocol_version : ProtocolVersion.t; resume_from : option N; client_terminal_size : TerminalSize.t;
  request_command_line : bool; request_running_command : bool; presentation_window_bytes : N;
  attachment_liveness_timeout : N }.
End AttachParameters.

Section attaching.
Context `{UnicodeWidth, HistoryCodec, Connection}.
Context (owner : TerminalOwner.t) (terminal_id : string).

(** [handle_attach] from the initial snapshot to the loop of [drive_attachment]; [None]
    when the client gets an error or no answer in time instead. *)
Definition start_attachment (time : N) (token : string) (leases : AttachmentLeases.t) (request : AttachParameters.t)
    (s : LiveTerminal.t) : outcome ConnectionError (option Driver.t) :=
  '(snapshot, s) ← expect (snapshot_for_attach owner terminal_id (AttachParameters.resume_from request) s);
  match snapshot with
  | inl _ => Ok None
  | inr snapshot =>
      let owns_input := LeaseStatus.owned_by_client (AttachmentLeases.input leases) in
      let shell_state := ShellState.filtered_for_visibility
        (AttachParameters.request_command_line request && owns_input)
        (AttachParameters.request_running_command request && owns_input) (AttachSnapshot.shell_state snapshot) in
      let revision := AttachSnapshot.checkpoint_geometry_revision snapshot in
      let sent_sequence := JournalSnapshot.replay_from (AttachSnapshot.journal snapshot) in
      let applied_sequence := match AttachSnapshot.checkpoint snapshot with Some _ => None | None => Some sent_sequence end in
      '(pinned, snapshot) ← pin_snapshot_history time (new_id []) (AttachParameters.protocol_version request) snapshot;
      let journal := AttachSnapshot.journal snapshot in
      let attached := ServerMessage.Attached token (AttachSnapshot.session snapshot) (JournalSnapshot.earliest_sequence journal)
        (JournalSnapshot.next_sequence journal) (JournalSnapshot.replay_from journal) (AttachSnapshot.history_gap snapshot)
        (AttachSnapshot.checkpoint snapshot) (AttachSnapshot.history snapshot) (PinnedHistory.manifest <$> pinned)
        (negb (bool_decide (SessionInfo.terminal_size (AttachSnapshot.session snapshot) =
                            AttachParameters.client_terminal_size request))) leases shell_state in
      let d := Driver.Mk
        (LiveAttachment.Mk (AttachParameters.protocol_version request) sent_sequence revision
           (ShellState.revision shell_state) (AttachParameters.presentation_window_bytes request) applied_sequence [] 0
           (AttachParameters.request_command_line request) (AttachParameters.request_running_command request)
           pinned None false)
        s (AttachParameters.attachment_liveness_timeout request)
        (time + AttachParameters.attachment_liveness_timeout request)%N None time owns_input [] in
      '(written, d) ← write_before_deadline attached d;
      Ok (if written : bool then Some d else None)
  end.
End attaching.
