(* ===== verification/Requests.v ===== *)
(** The requests the daemon serves (ctmux/daemon/src/server.rs, session.rs' managed runs):
    the handshake, the first request of a connection, what an attachment asks for, and the
    local-control endpoint with its cooperative restart.

    A handler is a function of the daemon's state: the registry, the managed runs, whether
    the daemon is draining, and the terminals whose processes it has told to end.  Its
    result is what is written to the connection; writing is the transport's.  What the
    operating system answers, new identifiers and the clock come in [Surroundings]; a
    panic of a blocking task ends the connection and is [Panic] here.

    Identifiers of tasks and runs are parsed by the crate uuid: [UuidText]. *)

From S2P Require Import Prelude.
From S2P Require Import Layout.
From S2P Require Import Topology.
From S2P Require Import Leases.
From S2P Require Import ShellState.
From S2P Require Import Sessions.
From S2P Require Import Attachments.
From S2P Require Import Protocol.
From S2P Require Import Messages.
From S2P Require Import Presence.
From S2P Require Import FlowControl.
From stdpp Require Import strings gmap pretty.
From Stdlib Require Import Init.Byte.

(** * Errors *)

Definition session_manager_error_code (e : SessionManagerError) : ErrorCode.t :=
  match e with
  | InvalidView _ => ErrorCode.InvalidRequest
  | InvalidName _ => ErrorCode.InvalidSessionName
  | AlreadyExists _ => ErrorCode.SessionAlreadyExists
  | NotFound _ => ErrorCode.SessionNotFound
  | AutomaticNameExhausted | Pty _ | Spawn _ | ShellReporterFailed _ | ReaderThread _ | WaiterThread _ => ErrorCode.Internal
  end.

Definition control_error_code (e : SessionControlError) : ErrorCode.t :=
  match e with
  | ControlInvalidView _ => ErrorCode.InvalidRequest
  | InputLeaseRequired => ErrorCode.InputLeaseRequired
  | LayoutLeaseRequired => ErrorCode.LayoutLeaseRequired
  | ControlIo _ | ControlPty _ => ErrorCode.Internal
  end.

Definition session_manager_error (e : SessionManagerError) : ServerMessage.t :=
  ServerMessage.Error (session_manager_error_code e) (display_manager e).
Definition control_error (e : SessionControlError) : ServerMessage.t :=
  ServerMessage.Error (control_error_code e) (display_control e).
Definition invalid_request (text : string) : ServerMessage.t := ServerMessage.Error ErrorCode.InvalidRequest text.

Definition DAEMON_DRAINING_MESSAGE : string := "ctmuxd is draining for a cooperative restart".
Definition draining_error : ServerMessage.t := invalid_request DAEMON_DRAINING_MESSAGE.

(** * The daemon *)

(** [managed] is [None] for a run that was retired, otherwise its terminal.  [draining] is
    the state of the restart coordinator and [cancelled] its two shutdown flags, which are
    only raised together; [killed] records the terminals whose processes were told to end and
    [typed] what attachments wrote to terminals. *)
Module Daemon.
Record t (St U : Type) `{Countable U} := Mk {
  registry : SessionRegistry.t St; managed : gmap (U * U) (option string); draining : bool; cancelled : bool;
  ever_had_session : bool; killed : list string;
  typed : list (string * string * list byte) }.
Arguments Mk {St U _ _}. Arguments registry {St U _ _}. Arguments managed {St U _ _}. Arguments draining {St U _ _}.
Arguments cancelled {St U _ _}. Arguments ever_had_session {St U _ _}. Arguments killed {St U _ _}.
Arguments typed {St U _ _}.

(** A daemon that just started *)
Definition new {St U} `{Countable U} : t St U := Mk SessionRegistry.default ∅ false false false [] [].
End Daemon.

Definition handler (St U : Type) `{Countable U} (A : Type) : Type := Daemon.t St U → outcome Empty_set A * Daemon.t St U.

#[export] Instance handler_ret {St U} `{Countable U} : MRet (handler St U) := λ _ a d, (Ok a, d).
#[export] Instance handler_bind {St U} `{Countable U} : MBind (handler St U) := λ _ _ f m d,
  match m d with
  | (Ok a, d) => f a d
  | (Err e, d) => (Err e, d)
  | (Panic, d) => (Panic, d)
  end.

(** The identifiers of the crate uuid: parsing, which may fail with a text, and the form
    without hyphens *)
Class UuidText (U : Type) := { parse_str : string → string + U; simple : U → string }.

(** What comes from outside with a request: new identifiers and the time, how starting a
    process, asking one to end and writing its input turn out, the directory a terminal was
    started in, the identifier of an attachment and random candidates for its token *)
Module Surroundings.
Record t (St : Type) := Mk {
  terminal_id : string; session_id : string; view_id : string; now : N;
  spawn : option CommandSpec.t → option string → TerminalSize.t → outcome SessionManagerError (Spawned.t St);
  kill : string → SessionControlError + (); write : string → list byte → SessionControlError + ();
  initial_working_directory : string → option string;
  attachment_id : string; tokens : list string }.
Arguments Mk {St}. Arguments terminal_id {St}. Arguments session_id {St}. Arguments view_id {St}. Arguments now {St}.
Arguments spawn {St}. Arguments kill {St}. Arguments write {St}. Arguments initial_working_directory {St}.
Arguments attachment_id {St}. Arguments tokens {St}.
End Surroundings.

(** What is asked of a terminal's state besides [Screen]: the shell's state, the bytes of
    history it retains, which are kept for the next time, a new revision of the shell's
    state, when there is something to hide, and what the end of the process leaves of it;
    and what happens to the state without a request, such as output *)
Class Inspection (St : Type) := {
  screen_shell : St → ShellState.t;
  screen_statistics : St → N * St;
  screen_refresh_shell : St → option St;
  screen_end_shell : St → option St;
  screen_change : Type;
  screen_apply : screen_change → St → option St;
}.

Section operations.
Context {St U : Type} `{Countable U} `{Screen St}.

Definition set_registry (x : SessionRegistry.t St) (d : Daemon.t St U) : Daemon.t St U :=
  Daemon.Mk x (Daemon.managed d) (Daemon.draining d) (Daemon.cancelled d) (Daemon.ever_had_session d) (Daemon.killed d) (Daemon.typed d).
Definition set_managed (x : gmap (U * U) (option string)) (d : Daemon.t St U) : Daemon.t St U :=
  Daemon.Mk (Daemon.registry d) x (Daemon.draining d) (Daemon.cancelled d) (Daemon.ever_had_session d) (Daemon.killed d) (Daemon.typed d).
Definition set_draining (x : bool) (d : Daemon.t St U) : Daemon.t St U :=
  Daemon.Mk (Daemon.registry d) (Daemon.managed d) x (Daemon.cancelled d) (Daemon.ever_had_session d) (Daemon.killed d) (Daemon.typed d).
Definition set_cancelled (x : bool) (d : Daemon.t St U) : Daemon.t St U :=
  Daemon.Mk (Daemon.registry d) (Daemon.managed d) (Daemon.draining d) x (Daemon.ever_had_session d) (Daemon.killed d) (Daemon.typed d).
Definition set_ever_had_session (x : bool) (d : Daemon.t St U) : Daemon.t St U :=
  Daemon.Mk (Daemon.registry d) (Daemon.managed d) (Daemon.draining d) (Daemon.cancelled d) x (Daemon.killed d) (Daemon.typed d).
Definition set_killed (x : list string) (d : Daemon.t St U) : Daemon.t St U :=
  Daemon.Mk (Daemon.registry d) (Daemon.managed d) (Daemon.draining d) (Daemon.cancelled d) (Daemon.ever_had_session d) x (Daemon.typed d).
Definition set_typed (x : list (string * string * list byte)) (d : Daemon.t St U) : Daemon.t St U :=
  Daemon.Mk (Daemon.registry d) (Daemon.managed d) (Daemon.draining d) (Daemon.cancelled d) (Daemon.ever_had_session d) (Daemon.killed d) x.

(** An operation of the registry, its error as a value *)
Definition registry_op {E A} (m : action St E A) : handler St U (E + A) := λ d,
  match m (Daemon.registry d) with
  | (Ok a, r) => (Ok (inr a), set_registry r d)
  | (Err e, r) => (Ok (inl e), set_registry r d)
  | (Panic, r) => (Panic, set_registry r d)
  end.

(** [RestartCoordinator::run_while_accepting] *)
Definition run_while_accepting {A} (operation : handler St U A) : handler St U (option A) := λ d,
  if Daemon.draining d then (Ok None, d) else (a ← operation; mret (Some a)) d.

(** Changing the daemon's own state *)
Definition daemon_op (f : Daemon.t St U → Daemon.t St U) : handler St U () := λ d, (Ok (), f d).
Definition asking {A} (f : Daemon.t St U → A) : handler St U A := λ d, (Ok (f d), d).

(** [create_terminal], which notes that there was a session *)
Definition creating (m : action St SessionManagerError (SessionTerminal.t St)) :
    handler St U (SessionManagerError + SessionTerminal.t St) :=
  created ← registry_op m;
  match created with
  | inr _ => _ ← daemon_op (set_ever_had_session true); mret created
  | inl _ => mret created
  end.

(** [Terminal::kill] *)
Definition kill_terminal (env : Surroundings.t St) (id : string) : handler St U (SessionControlError + ()) := λ d,
  match Surroundings.kill env id with
  | inr () => (Ok (inr ()), set_killed (Daemon.killed d ++ [id]) d)
  | inl e => (Ok (inl e), d)
  end.

(** [try_for_each] over terminals *)
Fixpoint kill_terminals (env : Surroundings.t St) (ids : list string) : handler St U (SessionControlError + ()) :=
  match ids with
  | [] => mret (inr ())
  | id :: ids =>
      result ← kill_terminal env id;
      match result with inl e => mret (inl e) | inr () => kill_terminals env ids end
  end.
End operations.

(** * One-shot requests *)

(** What a contract shows of a view *)
Definition view_for_contract (view : ViewInfo.t) (protocol_version : ProtocolVersion.t) : ViewInfo.t :=
  ViewInfo.Mk (ViewInfo.session_name view) (ViewInfo.view_id view) (ViewInfo.session_id view) (ViewInfo.revision view)
    (ViewInfo.canvas_size view) (ViewInfo.panes view)
    (if supports_view_zoom protocol_version then ViewInfo.zoomed_terminal_id view else None)
    (if supports_pane_resize protocol_version then ViewInfo.layout view else Layout.clear_weights (ViewInfo.layout view))
    (ViewInfo.terminals view).

Definition view_result (result : SessionManagerError + ViewInfo.t) (protocol_version : ProtocolVersion.t) : ServerMessage.t :=
  match result with
  | inl e => session_manager_error e
  | inr view => ServerMessage.ViewSnapshot (view_for_contract view protocol_version)
  end.

(** A reply to a request that the daemon may be too late for *)
Definition unless_draining {A} (reply : A → ServerMessage.t) (result : option A) : ServerMessage.t :=
  match result with Some a => reply a | None => draining_error end.

Section requests.
Context {St U : Type} `{Countable U} `{Screen St} `{!Inspection St}.
Context (env : Surroundings.t St) (protocol_version : ProtocolVersion.t).
Notation handler := (handler St U).
Notation registry_op := (registry_op (U := U)).
Notation creating := (creating (U := U)).
Notation kill_terminal := (kill_terminal (U := U)).
Notation kill_terminals := (kill_terminals (U := U)).

Definition shell_state_for_inspection (t : SessionTerminal.t St) : ShellState.t :=
  ShellState.filtered_for_visibility false false (screen_shell (SessionTerminal.state t)).

Definition handle_rename_session_request (session name : string) : handler ServerMessage.t :=
  if negb (supports_session_rename protocol_version) then mret (invalid_request "session rename requires contract 1.1.20") else
  renamed ← run_while_accepting (registry_op (rename_inner session name));
  mret (unless_draining (λ result, match result with
    | inr session => ServerMessage.SessionRenamed session
    | inl e => session_manager_error e
    end) renamed).

(** [SessionManager::split_terminal]: a directory is the one asked for, the shell's, or the
    one the pane was started in *)
Definition split_terminal (terminal_id : string) (axis : SplitAxis) (command : option CommandSpec.t)
    (working_directory : option string) (terminal_size : TerminalSize.t) : action St SessionManagerError (SessionTerminal.t St) :=
  source ← resolve terminal_id;
  let working_directory :=
    match working_directory with
    | Some directory => Some directory
    | None =>
        match ShellState.cwd (shell_state_for_inspection source) with
        | Some directory => Some (of_chars directory)
        | None => Surroundings.initial_working_directory env (SessionTerminal.id source)
        end
    end in
  create_terminal None (Some (terminal_id, axis)) false (Surroundings.terminal_id env) (Surroundings.session_id env)
    (Surroundings.view_id env) (Surroundings.now env) (Surroundings.spawn env command working_directory terminal_size).

Definition handle_view_request (request : ClientMessage.t) : handler ServerMessage.t :=
  match request with
  | ClientMessage.GetView session =>
      view ← registry_op (session_view session);
      mret (view_result view protocol_version)
  | ClientMessage.UpdateView session expected_revision layout =>
      if negb (supports_pane_resize protocol_version) && Layout.has_weights layout
      then mret (invalid_request "split weights require contract 1.1.16") else
      view ← registry_op (update_view_inner session expected_revision layout);
      mret (view_result view protocol_version)
  | ClientMessage.PromoteTerminal terminal_id name =>
      view ← registry_op (promote_terminal_inner terminal_id name (Surroundings.session_id env)
                            (Surroundings.view_id env) (Surroundings.now env));
      mret (view_result view protocol_version)
  | ClientMessage.MergeSessions source destination =>
      view ← registry_op (merge_sessions_inner source destination);
      mret (view_result view protocol_version)
  | ClientMessage.SplitTerminal terminal_id axis command working_directory terminal_size =>
      result ← run_while_accepting (
        created ← creating (split_terminal terminal_id axis command working_directory terminal_size);
        match created with
        | inr terminal => registry_op (session_view (SessionInfo.session_id (info terminal)))
        | inl error => mret (inl error)
        end);
      mret (view_result (default (inl (InvalidView DAEMON_DRAINING_MESSAGE)) result) protocol_version)
  | ClientMessage.KillTerminal terminal_id =>
      resolved ← registry_op (resolve terminal_id);
      match resolved with
      | inr terminal =>
          if decide (SessionInfo.terminal_id (info terminal) = terminal_id) then
            result ← kill_terminal env (SessionTerminal.id terminal);
            mret match result with inr () => ServerMessage.Success | inl e => control_error e end
          else mret (invalid_request "expected a terminal ID")
      | inl e => mret (session_manager_error e)
      end
  | _ => mret (invalid_request "this message is valid only after attaching to a session")
  end.

Definition handle_shell_state_request (session : string) : handler ServerMessage.t :=
  resolved ← registry_op (resolve session);
  mret match resolved with
       | inr session => ServerMessage.ShellStateResponse (info session) (shell_state_for_inspection session)
       | inl e => session_manager_error e
       end.

(** A list of the sessions, which has no error *)
Definition listed_sessions (include_clients : bool) : handler (list SessionUsage.t) := λ d,
  (session_rows include_clients (Daemon.registry d), d).

Definition handle_session_request (request : ClientMessage.t) : handler ServerMessage.t :=
  match request with
  | ClientMessage.ListSessionClients =>
      if supports_client_presence protocol_version then
        sessions ← listed_sessions true;
        mret (ServerMessage.SessionClients sessions)
      else mret (invalid_request "client presence requires contract 1.3.23")
  | ClientMessage.ListSessions =>
      sessions ← listed_sessions false;
      mret (ServerMessage.SessionList (SessionUsage.session <$> sessions))
  | ClientMessage.RenameSession session name => handle_rename_session_request session name
  | ClientMessage.GetShellState session => handle_shell_state_request session
  | request => handle_view_request request
  end.

Definition handle_kill_session_request (session : string) : handler ServerMessage.t :=
  result ← registry_op (begin_termination_inner session);
  match result with
  | inr terminals =>
      result ← kill_terminals env terminals;
      mret match result with inr () => ServerMessage.Success | inl e => control_error e end
  | inl e => mret (session_manager_error e)
  end.

Definition handle_create_session_request (name : option string) (command : option CommandSpec.t)
    (working_directory : option string) (terminal_size : TerminalSize.t) : handler ServerMessage.t :=
  result ← run_while_accepting (creating (
    create_terminal name None false (Surroundings.terminal_id env) (Surroundings.session_id env)
      (Surroundings.view_id env) (Surroundings.now env) (Surroundings.spawn env command working_directory terminal_size)));
  mret (unless_draining (λ result, match result with
    | inr session => ServerMessage.SessionCreated (info session)
    | inl e => session_manager_error e
    end) result).
End requests.

(** * Attaching: admission *)

(** [Debug], as the texts of errors use it *)
Definition debug_list (l : list string) : string := "[" +:+ String.concat ", " l +:+ "]".
Definition debug_version (v : ProtocolVersion.t) : string :=
  "ProtocolVersion { major: " +:+ pretty (ProtocolVersion.major v) +:+ ", minor: " +:+ pretty (ProtocolVersion.minor v)
    +:+ ", build: " +:+ pretty (ProtocolVersion.build v) +:+ " }".
Definition debug_exit_code (exit_code : option N) : string :=
  match exit_code with Some code => "Some(" +:+ pretty code +:+ ")" | None => "None" end.

(** [PreparedAttachment] of a terminal, with what the request asks for.  The receivers it
    holds are the driver's. *)
Module PreparedAttachment.
Record t := Mk {
  session : string; registration : AttachmentRegistration.t; resumed : bool; request : AttachParameters.t }.
End PreparedAttachment.

Inductive ResumePreparationError := ResumeEnded (exit_code : option N) | Rejected.

Definition already_ended (session : string) (exit_code : option N) : ServerMessage.t :=
  ServerMessage.Error ErrorCode.SessionNotFound
    ("session '" +:+ session +:+ "' has already ended (exit code " +:+ debug_exit_code exit_code +:+ ")").

Section admission.
Context {St U : Type} `{Countable U} `{Screen St} (env : Surroundings.t St).
Notation handler := (handler St U).
Notation registry_op := (registry_op (U := U)).

(** [reject_invalid_presentation_window] *)
Definition invalid_window : ServerMessage.t :=
  invalid_request "presentation_window_bytes must be between 1 and 8388608".

(** [subscribe_events]: the error is the exit code *)
Definition subscribe_events (self : string) : action St (option N) () :=
  t ← reading (λ r, shared r self);
  match SessionTerminal.lifecycle t with Running => mret () | Ended exit_code => lift (Err exit_code) end.

Definition prepare_attachment (self : string) (peer : AttachmentPeer) (request_input_lease request_layout_lease : bool)
    (request : AttachParameters.t) : action St (option N) PreparedAttachment.t :=
  _ ← subscribe_events self;
  registration ← create_attachment_inner self (Surroundings.attachment_id env) (Surroundings.tokens env)
                   request_input_lease request_layout_lease peer;
  mret (PreparedAttachment.Mk self registration false request).

Definition prepare_resumed_attachment (self attachment_token : string) (peer : AttachmentPeer)
    (request : AttachParameters.t) : action St ResumePreparationError PreparedAttachment.t :=
  _ ← mapping ResumeEnded (subscribe_events self);
  registration ← resume_attachment_inner self attachment_token (Some peer);
  registration ← lift (ok_or registration Rejected);
  mret (PreparedAttachment.Mk self registration true request).

(** [sessions.resolve(..).map(..)] under the restart gate *)
Definition resolve_and {E A} (session : string) (prepare : string → action St E A) :
    handler (option (SessionManagerError + (E + A))) :=
  run_while_accepting (
    resolved ← registry_op (resolve session);
    match resolved with
    | inl error => mret (inl error)
    | inr terminal => prepared ← registry_op (prepare (SessionTerminal.id terminal)); mret (inr prepared)
    end).

Definition handle_new_attachment_request (session : string) (peer : AttachmentPeer)
    (request_input_lease request_layout_lease : bool) (request : AttachParameters.t) :
    handler (ServerMessage.t + PreparedAttachment.t) :=
  if negb (valid_presentation_window (AttachParameters.presentation_window_bytes request)) then mret (inl invalid_window) else
  prepared ← resolve_and session (λ self, prepare_attachment self peer request_input_lease request_layout_lease request);
  mret match prepared with
       | Some (inr (inr attachment)) => inr attachment
       | Some (inr (inl exit_code)) => inl (already_ended session exit_code)
       | Some (inl error) => inl (session_manager_error error)
       | None => inl draining_error
       end.

Definition handle_resume_attachment_request (session attachment_token : string) (peer : AttachmentPeer)
    (request : AttachParameters.t) : handler (ServerMessage.t + PreparedAttachment.t) :=
  if negb (valid_presentation_window (AttachParameters.presentation_window_bytes request)) then mret (inl invalid_window) else
  prepared ← resolve_and session (λ self, prepare_resumed_attachment self attachment_token peer request);
  mret match prepared with
       | Some (inr (inr attachment)) => inr attachment
       | Some (inr (inl (ResumeEnded exit_code))) => inl (already_ended session exit_code)
       | Some (inr (inl Rejected)) =>
           inl (ServerMessage.Error ErrorCode.AttachmentResumeRejected "the attachment reconnect token is invalid or expired")
       | Some (inl error) => inl (session_manager_error error)
       | None => inl draining_error
       end.
End admission.

(** * A connection *)

(** [AttachmentLiveness], in milliseconds *)
Module AttachmentLiveness.
Record t := Mk { timeout : N; heartbeat_interval : N }.
End AttachmentLiveness.

(** What the daemon tells of itself: the version of its package, its build, and the
    identifier its session manager drew *)
Module DaemonIdentity.
Record t := Mk { server_version : string; build_info : ComponentBuildInfo.t; instance_id : string }.
End DaemonIdentity.

Definition LOCAL_CONTROL_PROTOCOL_BUILD : N := 1.
Definition LOCAL_CONTROL_PROTOCOL_VERSION : ProtocolVersion.t := ProtocolVersion.Mk 1 0 1.
Definition LOCAL_CONTROL_SUPPORTED_PROTOCOL_VERSIONS : list ProtocolVersion.t := [LOCAL_CONTROL_PROTOCOL_VERSION].
Definition local_control_protocol_info : ProtocolInfo.t :=
  ProtocolInfo.new "ctmux_control" LOCAL_CONTROL_PROTOCOL_BUILD LOCAL_CONTROL_PROTOCOL_VERSION
    LOCAL_CONTROL_SUPPORTED_PROTOCOL_VERSIONS.
Definition protocol_info : ProtocolInfo.t :=
  ProtocolInfo.new "ctmux" PROTOCOL_BUILD PROTOCOL_VERSION SUPPORTED_PROTOCOL_VERSIONS.

(** The reply to the first message, and what was agreed *)
Definition accept_handshake (daemon : DaemonIdentity.t) (liveness : AttachmentLiveness.t) (first : ClientMessage.t) :
    ServerMessage.t * option (ProtocolVersion.t * AttachmentPeer) :=
  match first with
  | ClientMessage.Handshake protocol client_name client_version =>
      match ProtocolOffer.negotiate protocol SUPPORTED_PROTOCOL_VERSIONS with
      | None =>
          (ServerMessage.Error ErrorCode.ProtocolVersionMismatch
             ("client offered protocol contracts " +:+ debug_list (debug_version <$> ProtocolOffer.supported_versions protocol)
              +:+ "; this daemon supports " +:+ debug_list (debug_version <$> SUPPORTED_PROTOCOL_VERSIONS)), None)
      | Some protocol_version =>
          (ServerMessage.HandshakeAccepted protocol_version [protocol_info; local_control_protocol_info]
             (DaemonIdentity.server_version daemon) (Some (DaemonIdentity.build_info daemon))
             (AttachmentLiveness.heartbeat_interval liveness) (AttachmentLiveness.timeout liveness),
           Some (protocol_version, legacy_peer client_name client_version))
      end
  | _ => (invalid_request "the first message must be a handshake", None)
  end.

Definition attaches (request : ClientMessage.t) : bool :=
  match request with
  | ClientMessage.AttachSession _ _ _ _ _ _ _ _ | ClientMessage.ResumeAttachment _ _ _ _ _ _ _ => true
  | _ => false
  end.

Definition read_opening_request (opening : OpeningRequest.t) (protocol_version : ProtocolVersion.t) (legacy : AttachmentPeer) :
    ServerMessage.t + (ClientMessage.t * AttachmentPeer) :=
  let request := OpeningRequest.request opening in
  match OpeningRequest.client_identity opening with
  | Some identity =>
      if negb (supports_client_presence protocol_version) || negb (attaches request) || negb (validate_identity identity)
      then inl (invalid_request "invalid or unsupported attachment client identity")
      else inr (request, Process identity)
  | None => inr (request, legacy)
  end.

Section connection.
Context {St U : Type} `{Countable U} `{Screen St} `{!Inspection St}.
Context (env : Surroundings.t St) (daemon : DaemonIdentity.t) (liveness : AttachmentLiveness.t).
Notation handler := (handler St U).

(** A request that is answered at once *)
Definition replying (m : handler ServerMessage.t) : handler (ServerMessage.t + PreparedAttachment.t) :=
  reply ← m; mret (inl reply).

(** [handle_request] after its first frame was read: a reply, or an attachment to drive *)
Definition handle_opening (protocol_version : ProtocolVersion.t) (peer : AttachmentPeer) (request : ClientMessage.t) :
    handler (ServerMessage.t + PreparedAttachment.t) :=
  match request with
  | ClientMessage.CreateSession name command working_directory terminal_size =>
      replying $ handle_create_session_request env name command working_directory terminal_size
  | ClientMessage.AttachSession session resume_from terminal_size request_input_lease request_layout_lease
      request_command_line request_running_command presentation_window_bytes =>
      handle_new_attachment_request env session peer request_input_lease request_layout_lease
        (AttachParameters.Mk protocol_version resume_from terminal_size request_command_line request_running_command
           presentation_window_bytes (AttachmentLiveness.timeout liveness))
  | ClientMessage.ResumeAttachment session attachment_token resume_from terminal_size request_command_line
      request_running_command presentation_window_bytes =>
      handle_resume_attachment_request session attachment_token peer
        (AttachParameters.Mk protocol_version resume_from terminal_size request_command_line request_running_command
           presentation_window_bytes (AttachmentLiveness.timeout liveness))
  | ClientMessage.KillSession session => replying $ handle_kill_session_request env session
  | request => replying $ handle_session_request env protocol_version request
  end.

Definition handle_request (protocol_version : ProtocolVersion.t) (legacy : AttachmentPeer) (opening : option OpeningRequest.t) :
    handler (list ServerMessage.t * option PreparedAttachment.t) :=
  match opening with
  | None => mret ([], None)
  | Some opening =>
      match read_opening_request opening protocol_version legacy with
      | inl error => mret ([error], None)
      | inr (request, peer) =>
          outcome ← handle_opening protocol_version peer request;
          mret match outcome with inl reply => ([reply], None) | inr attachment => ([], Some attachment) end
      end
  end.

(** The frames read, [None] at the end of the stream, and the replies written *)
Definition handle_active_connection (first : option ClientMessage.t) (opening : option OpeningRequest.t) :
    handler (list ServerMessage.t * option PreparedAttachment.t) :=
  match first with
  | None => mret ([], None)
  | Some first =>
      match accept_handshake daemon liveness first with
      | (reply, None) => mret ([reply], None)
      | (reply, Some (protocol_version, legacy)) =>
          '(replies, attachment) ← handle_request protocol_version legacy opening;
          mret (reply :: replies, attachment)
      end
  end.

(** Nothing is read once a restart has cancelled the connections. *)
Definition unless_cancelled {A} (nothing : A) (m : handler A) : handler A := λ d,
  if Daemon.cancelled d then (Ok nothing, d) else m d.

Definition handle_connection (first : option ClientMessage.t) (opening : option OpeningRequest.t) :
    handler (list ServerMessage.t * option PreparedAttachment.t) :=
  unless_cancelled ([], None) (handle_active_connection first opening).
End connection.

(** * Local control *)

Inductive ManagedOperation :=
  | Start (command : CommandSpec.t) (working_directory : option string)
  | Status
  | Stop
  | Release.

Module ManagedSessionInfo.
Record t := Mk { session_id : string; running : bool; exit_code : option N }.
End ManagedSessionInfo.

Module LocalControlErrorCode.
Inductive t := InvalidRequest | ProtocolVersionMismatch | RestartUnsupported | RestartInProgress | Internal.
End LocalControlErrorCode.

Module LocalControlClientMessage.
Inductive t :=
  | Handshake (protocol : ProtocolOffer.t)
  | RestartDaemon
  | ManageSession (expected_instance : option string) (task_id run_id : string) (operation : ManagedOperation).
End LocalControlClientMessage.

Module LocalControlServerMessage.
Inductive t :=
  | ManagedSession (instance_id : string) (session : option ManagedSessionInfo.t)
  | HandshakeAccepted (protocol_version : ProtocolVersion.t) (protocols : list ProtocolInfo.t) (restart_supported : bool)
      (build : option ComponentBuildInfo.t) (data_protocol_version : option ProtocolVersion.t)
      (managed_sessions_supported : bool)
  | RestartAccepted (terminated_sessions : N)
  | Error (code : LocalControlErrorCode.t) (message : string).
End LocalControlServerMessage.

Definition MAX_MANAGED_RUNS : nat := 4096.
Definition default_terminal_size : TerminalSize.t := TerminalSize.Mk 80 24 0 0.

Inductive RestartCoordinatorError := AlreadyDraining | SessionCountOverflow | Termination (error : SessionControlError).
Definition display_restart_error (e : RestartCoordinatorError) : string :=
  match e with
  | AlreadyDraining => "a cooperative restart is already in progress"
  | SessionCountOverflow => "too many sessions to report a cooperative restart result"
  | Termination error => "could not terminate a session during cooperative restart: " +:+ display_control error
  end.

Section local_control.
Context {St U : Type} `{Countable U} `{Screen St} `{!UuidText U}.
Context (env : Surroundings.t St) (daemon : DaemonIdentity.t).
Notation handler := (handler St U).
Notation creating := (creating (U := U)).
Notation registry_op := (registry_op (U := U)).
Notation kill_terminal := (kill_terminal (U := U)).
Notation kill_terminals := (kill_terminals (U := U)).
Notation daemon_op := (daemon_op (St := St) (U := U)).
Notation asking := (asking (St := St) (U := U)).

Definition shared_lifecycle (id : string) : handler (Empty_set + SessionLifecycle) :=
  registry_op (t ← reading (λ r, shared r id); mret (SessionTerminal.lifecycle t)).

Definition managed_info (id : string) : action St Empty_set ManagedSessionInfo.t :=
  t ← reading (λ r, shared r id);
  let session_id := TerminalOwner.session_id (SessionTerminal.owner t) in
  mret match SessionTerminal.lifecycle t with
       | Running => ManagedSessionInfo.Mk session_id true None
       | Ended exit_code => ManagedSessionInfo.Mk session_id false exit_code
       end.

Definition retain (key : U * U) (run : option string) : handler () :=
  daemon_op (λ d, set_managed (<[key := run]> (Daemon.managed d)) d).

(** The operation itself: [None], or why it failed *)
Definition manage_run (key : U * U) (run : option (option string)) (operation : ManagedOperation) : handler (option string) :=
  match operation with
  | Start command working_directory =>
      match run with
      | None =>
          created ← creating (create_terminal (Some ("task-" +:+ simple key.2)) None true (Surroundings.terminal_id env)
            (Surroundings.session_id env) (Surroundings.view_id env) (Surroundings.now env)
            (Surroundings.spawn env (Some command) working_directory default_terminal_size));
          match created with
          | inr terminal => _ ← retain key (Some (SessionTerminal.id terminal)); mret None
          | inl error => mret (Some (display_manager error))
          end
      | Some None => mret (Some "this managed run has already been retired"%string)
      | Some (Some _) => mret None
      end
  | Stop =>
      match run with
      | Some (Some id) =>
          lifecycle ← shared_lifecycle id;
          match lifecycle with
          | inr Running =>
              killed ← kill_terminal env id;
              mret match killed with inr () => None | inl error => Some (display_control error) end
          | _ => mret None
          end
      | _ => _ ← retain key None; mret None
      end
  | Release =>
      match run with
      | Some (Some id) =>
          lifecycle ← shared_lifecycle id;
          match lifecycle with
          | inr Running => mret (Some "stop a managed session before releasing its outcome"%string)
          | _ => _ ← retain key None; mret None
          end
      | _ => _ ← retain key None; mret None
      end
  | Status => mret None
  end.

(** What is known of a run *)
Definition run_outcome (key : U * U) : handler (option ManagedSessionInfo.t) :=
  managed ← asking Daemon.managed;
  match mjoin (managed !! key) with
  | None => mret None
  | Some id =>
      info ← registry_op (managed_info id);
      mret match info with inr info => Some info | inl e => match e : Empty_set with end end
  end.

Definition is_status (operation : ManagedOperation) : bool := match operation with Status => true | _ => false end.

Definition manage (expected_instance : option string) (task_id run_id : string) (operation : ManagedOperation) :
    handler (string + LocalControlServerMessage.t) :=
  let instance_id := DaemonIdentity.instance_id daemon in
  if match expected_instance with Some id => negb (bool_decide (id = instance_id)) | None => false end
  then mret (inl "ctmuxd instance changed"%string) else
  match parse_str task_id, parse_str run_id with
  | inl error, _ => mret (inl error)
  | inr _, inl error => mret (inl error)
  | inr task_uuid, inr run_uuid =>
      if negb (is_status operation) && bool_decide (expected_instance = None)
      then mret (inl "mutations require a pinned ctmuxd instance"%string) else
      let key := (task_uuid, run_uuid) in
      managed ← asking Daemon.managed;
      if bool_decide (managed !! key = None) && negb (is_status operation) && (MAX_MANAGED_RUNS <=? size managed)
      then mret (inl "managed run capacity reached; restart ctmuxd after stopping tasks"%string) else
      failed ← manage_run key (managed !! key) operation;
      match failed with
      | Some error => mret (inl error)
      | None =>
          session ← run_outcome key;
          mret (inr (LocalControlServerMessage.ManagedSession instance_id session))
      end
  end.

Definition snapshot_for_cooperative_restart (d : Daemon.t St U) : list string :=
  elements (SessionRegistry.terminals (Daemon.registry d)).

Definition begin_cooperative_restart : handler (RestartCoordinatorError + N) :=
  draining ← asking Daemon.draining;
  if draining : bool then mret (inl AlreadyDraining) else
  targets ← asking snapshot_for_cooperative_restart;
  if decide (u32_MAX < N.of_nat (length targets))%N then mret (inl SessionCountOverflow) else
  _ ← daemon_op (set_draining true);
  termination_result ← kill_terminals env targets;
  match termination_result with
  | inl error => _ ← daemon_op (set_draining false); mret (inl (Termination error))
  | inr () => _ ← daemon_op (set_managed ∅); mret (inr (N.of_nat (length targets)))
  end.

Definition accept_local_control_handshake (handshake : LocalControlClientMessage.t) : bool * LocalControlServerMessage.t :=
  match handshake with
  | LocalControlClientMessage.Handshake protocol =>
      match ProtocolOffer.negotiate protocol LOCAL_CONTROL_SUPPORTED_PROTOCOL_VERSIONS with
      | None =>
          (false, LocalControlServerMessage.Error LocalControlErrorCode.ProtocolVersionMismatch
             ("local-control client offered " +:+ debug_list (debug_version <$> ProtocolOffer.supported_versions protocol)
              +:+ "; this daemon supports " +:+ debug_list (debug_version <$> LOCAL_CONTROL_SUPPORTED_PROTOCOL_VERSIONS)))
      | Some protocol_version =>
          (true, LocalControlServerMessage.HandshakeAccepted protocol_version [protocol_info; local_control_protocol_info] true
             (Some (DaemonIdentity.build_info daemon)) (Some PROTOCOL_VERSION) true)
      end
  | _ => (false, LocalControlServerMessage.Error LocalControlErrorCode.InvalidRequest
            "the first local-control message must be a handshake")
  end.

(** The request after the handshake.  A restart that was accepted cancels the connections
    after its acknowledgement was attempted. *)
Definition handle_local_control_request (request : LocalControlClientMessage.t) : handler LocalControlServerMessage.t :=
  match request with
  | LocalControlClientMessage.ManageSession expected_instance task_id run_id operation =>
      result ← run_while_accepting (manage expected_instance task_id run_id operation);
      mret match result with
           | Some (inr response) => response
           | Some (inl message) => LocalControlServerMessage.Error LocalControlErrorCode.InvalidRequest message
           | None => LocalControlServerMessage.Error LocalControlErrorCode.RestartInProgress DAEMON_DRAINING_MESSAGE
           end
  | LocalControlClientMessage.RestartDaemon =>
      result ← begin_cooperative_restart;
      match result with
      | inr terminated_sessions =>
          _ ← daemon_op (set_cancelled true);
          mret (LocalControlServerMessage.RestartAccepted terminated_sessions)
      | inl AlreadyDraining =>
          mret (LocalControlServerMessage.Error LocalControlErrorCode.RestartInProgress
                  "ctmuxd is already draining for a cooperative restart")
      | inl error => mret (LocalControlServerMessage.Error LocalControlErrorCode.Internal (display_restart_error error))
      end
  | LocalControlClientMessage.Handshake _ =>
      mret (LocalControlServerMessage.Error LocalControlErrorCode.InvalidRequest
              "expected a local-control operation after handshake")
  end.

Definition handle_local_control_connection (first second : option LocalControlClientMessage.t) :
    handler (list LocalControlServerMessage.t) :=
  unless_cancelled [] (
    match first with
    | None => mret []
    | Some handshake =>
        let '(accepted, reply) := accept_local_control_handshake handshake in
        match second with
        | Some request =>
            if accepted then response ← handle_local_control_request request; mret [reply; response] else mret [reply]
        | None => mret [reply]
        end
    end).
End local_control.

(** * The end of the daemon *)

Section ending.
Context {St U : Type} `{Countable U} `{Screen St}.
Implicit Types (d : Daemon.t St U).

(** [session_count]: the terminals registered, and those ended whose outcome is retained *)
Definition retained d : list string :=
  filter (λ id, id ∉ SessionRegistry.terminals (Daemon.registry d)) (omap snd (map_to_list (Daemon.managed d))).
Definition session_count d : nat := size (SessionRegistry.terminals (Daemon.registry d)) + length (retained d).

(** When the main loop returns, given the number of open connections *)
Definition finished (connections : nat) d : bool :=
  (Daemon.ever_had_session d || Daemon.draining d) && (session_count d =? 0) && (connections =? 0).
End ending.
