(* ===== verification/ServerAttach.v ===== *)
(** Attached connections (handle_attach, AttachmentGuard and the requests of an attached
    client, of ctmux/daemon/src/server.rs; session_history_statistics of session.rs): how an
    admitted attachment begins and ends, and what its client may ask for.

    The registry's terminals are [LiveTerminal]s where an attachment begins; the requests of
    an attached client do not depend on it. *)

From S2P Require Import Prelude.
From S2P Require Import Cells.
From S2P Require Import Layout.
From S2P Require Import Topology.
From S2P Require Import Leases.
From S2P Require Import Journal.
From S2P Require Import Retention.
From S2P Require Import ShellState.
From S2P Require Import ShellReports.
From S2P Require Import LiveTerminal.
From S2P Require Import Sessions.
From S2P Require Import Attachments.
From S2P Require Import Delivery.
From S2P Require Import Protocol.
From S2P Require Import Messages.
From S2P Require Import Paging.
From S2P Require Import FlowControl.
From S2P Require Import Requests.
From stdpp Require Import strings gmap pretty.
From Stdlib Require Import Init.Byte.

(** * The requests of an attached client *)

Definition MAX_PANE_RESIZE_REQUEST_ID_BYTES : nat := 256.
Definition MAX_PANE_MOVE_REQUEST_ID_BYTES : nat := 256.

Definition valid_request_id (limit : nat) (request_id : string) : bool :=
  negb (bool_decide (request_id = "")) && (String.length request_id <=? limit).

Definition move_error_code (e : PaneMoveError) : ErrorCode.t :=
  match e with Control e => control_error_code e | Manager e => session_manager_error_code e end.
Definition display_move (e : PaneMoveError) : string :=
  match e with Control e => display_control e | Manager e => display_manager e end.

(** What identifies the attachment to the daemon, and what it may be shown *)
Module Attached.
Record t := Mk {
  self : string; attachment_id : string; protocol_version : ProtocolVersion.t;
  request_command_line : bool; request_running_command : bool }.
End Attached.

Inductive PaneResizeAction :=
  | PaneAction (terminal_id : string) (direction : ResizeDirection) (amount : N)
  | DividerAction (divider : DividerResize.t).

Inductive PaneMoveAction := Swap (previous : bool) | Break (name : option string).

Section attached.
Context {St U : Type} `{Countable U} `{Screen St} `{!Inspection St}.
Context (env : Surroundings.t St) (a : Attached.t).
Notation handler := (handler St U).
Notation safe_op := (registry_op (U := U) (E := Empty_set)).
Notation registry_op := (registry_op (U := U)).

Definition self := Attached.self a.
Definition attachment_id := Attached.attachment_id a.
Definition protocol_version := Attached.protocol_version a.

(** A change of the state of a shared terminal, which may panic *)
Definition on_screen {E T} (id : string) (f : St → option (T * St)) : action St E T :=
  t ← reading (λ r, shared r id);
  '(result, state) ← lift (expect (f (SessionTerminal.state t)));
  _ ← on_store <[id := SessionTerminal.set_screen state (SessionTerminal.master t) t]>;
  mret result.

(** The terminals of a session's layout that are registered, each counted; the sizes are
    kept for the next time *)
Fixpoint count_history {E} (ids : list string) (retained_bytes : N) : action St E N :=
  match ids with
  | [] => mret retained_bytes
  | id :: ids =>
      bytes ← on_screen id (λ s, Some (screen_statistics s));
      count_history ids (saturating_add64 retained_bytes bytes)
  end.

Definition session_history_statistics {E} : action St E (option SessionHistoryStatistics.t) :=
  t ← reading (λ r, shared r self);
  let session_id := TerminalOwner.session_id (SessionTerminal.owner t) in
  root ← reading (λ r, Ok (SessionRegistry.sessions r !! session_id));
  match root with
  | None => mret None
  | Some root =>
      ids ← reading (λ r, Ok (filter (λ id, is_Some (listed r id)) (LayoutExt.terminal_ids (View.layout (Session.view root)))));
      retained_bytes ← count_history ids 0;
      mret (Some (SessionHistoryStatistics.Mk session_id retained_bytes))
  end.

(** [Terminal::write_input] *)
Definition type_input (data : list byte) : handler (SessionControlError + ()) :=
  allowed ← registry_op (write_input self attachment_id);
  match allowed with
  | inl error => mret (inl error)
  | inr () =>
      match Surroundings.write env self data with
      | inr () => _ ← daemon_op (λ d, set_typed (Daemon.typed d ++ [(self, attachment_id, data)]) d); mret (inr ())
      | inl error => mret (inl error)
      end
  end.

(** An error in reply, or nothing *)
Definition silent (result : SessionControlError + ()) : option ServerMessage.t :=
  match result with inl error => Some (control_error error) | inr () => None end.

Definition process_view_zoom (terminal_id : option string) : handler ServerMessage.t :=
  if negb (supports_view_zoom protocol_version) then mret (invalid_request "view zoom requires contract 1.1.15") else
  result ← registry_op (set_view_zoom_inner self attachment_id terminal_id);
  mret match result with
       | inr view => ServerMessage.ViewSnapshot (view_for_contract view protocol_version)
       | inl error => control_error error
       end.

Definition pane_resize (action : PaneResizeAction) : handler (SessionControlError + ViewInfo.t) :=
  match action with
  | PaneAction terminal_id direction amount => registry_op (resize_pane_inner self attachment_id terminal_id direction amount)
  | DividerAction divider => registry_op (resize_divider_inner self attachment_id divider)
  end.

Definition is_divider (action : PaneResizeAction) : bool :=
  match action with DividerAction _ => true | PaneAction _ _ _ => false end.

Definition process_pane_resize (request_id : string) (action : PaneResizeAction) : handler ServerMessage.t :=
  if negb (supports_pane_resize protocol_version) then mret (invalid_request "pane resize requires contract 1.1.16") else
  if is_divider action && negb (supports_divider_resize protocol_version)
  then mret (ServerMessage.PaneResizeResult request_id
               (ResizeRejected ErrorCode.InvalidRequest "divider resize requires contract 1.1.17"))
  else if negb (valid_request_id MAX_PANE_RESIZE_REQUEST_ID_BYTES request_id)
  then mret (ServerMessage.PaneResizeResult request_id
               (ResizeRejected ErrorCode.InvalidRequest "pane resize request_id must contain 1 to 256 bytes"))
  else
    result ← pane_resize action;
    mret (ServerMessage.PaneResizeResult request_id
            match result with
            | inr view => ResizeApplied view
            | inl error => ResizeRejected (control_error_code error) (display_control error)
            end).

Definition pane_move (target : PaneTarget.t) (action : PaneMoveAction) : handler (PaneMoveError + PaneMoveOutcome) :=
  match action with
  | Swap previous => registry_op (view ← mapping Control (swap_pane_inner self attachment_id target previous); mret (Swapped view))
  | Break name =>
      registry_op (
        '(view, source_view) ← break_pane_inner self attachment_id target name (Surroundings.session_id env)
                                 (Surroundings.view_id env) (Surroundings.now env);
        mret (Promoted view source_view))
  end.

Definition process_pane_move (request_id : string) (target : PaneTarget.t) (action : PaneMoveAction) : handler ServerMessage.t :=
  if negb (supports_pane_moves protocol_version) then mret (invalid_request "pane moves require contract 1.1.19") else
  if negb (valid_request_id MAX_PANE_MOVE_REQUEST_ID_BYTES request_id)
  then mret (ServerMessage.PaneMoveResult request_id
               (MoveRejected ErrorCode.InvalidRequest "pane move request_id must contain 1 to 256 bytes"))
  else
    result ← pane_move target action;
    mret (ServerMessage.PaneMoveResult request_id
            match result with
            | inr outcome => outcome
            | inl error => MoveRejected (move_error_code error) (display_move error)
            end).

(** A lease changes hands only by a direct request; who may see the command line is then
    told anew *)
Definition process_lease_change (lease : LeaseKind) (acquire : bool) : handler ServerMessage.t :=
  owned ← safe_op (reading (λ r, t ← shared r self; Ok (owns_input_lease t attachment_id)));
  let previously_owned_input := bool_decide (lease = Input) && match owned with inr owned => owned | inl _ => false end in
  status ← safe_op (
    if acquire then acquire_lease_inner self attachment_id lease else release_lease_inner self attachment_id lease);
  let status := match status with inr status => status | inl e => match e : Empty_set with end end in
  _ ← (if bool_decide (lease = Input) && (Attached.request_command_line a || Attached.request_running_command a) &&
          negb (eqb previously_owned_input (LeaseStatus.owned_by_client status))
       then safe_op (on_screen self (λ s, s ← screen_refresh_shell s; Some ((), s)))
       else mret (inr ()));
  mret (ServerMessage.LeaseStatus lease status false).

(** What the messages of an attached client do that are not about its output: the reply, if
    there is one.  [Detach] and the messages about output are the driver's. *)
Definition process_attach_input (message : ClientMessage.t) : handler (option ServerMessage.t) :=
  match message with
  | ClientMessage.AcquireLease lease => reply ← process_lease_change lease true; mret (Some reply)
  | ClientMessage.ReleaseLease lease => reply ← process_lease_change lease false; mret (Some reply)
  | ClientMessage.Input data => result ← type_input data; mret (silent result)
  | ClientMessage.Resize terminal_size =>
      result ← registry_op (resize_inner self attachment_id terminal_size); mret (silent result)
  | ClientMessage.SetViewZoom terminal_id => reply ← process_view_zoom terminal_id; mret (Some reply)
  | ClientMessage.ResizePane request_id terminal_id direction amount =>
      reply ← process_pane_resize request_id (PaneAction terminal_id direction amount); mret (Some reply)
  | ClientMessage.ResizeDivider request_id divider =>
      reply ← process_pane_resize request_id (DividerAction divider); mret (Some reply)
  | ClientMessage.SwapPane request_id target previous =>
      reply ← process_pane_move request_id target (Swap previous); mret (Some reply)
  | ClientMessage.BreakPane request_id target name =>
      reply ← process_pane_move request_id target (Break name); mret (Some reply)
  | ClientMessage.Heartbeat nonce =>
      if supports_session_statistics protocol_version then
        session_history ← safe_op session_history_statistics;
        mret (Some (ServerMessage.HeartbeatAck nonce (match session_history with inr h => h | inl _ => None end)))
      else mret (Some (ServerMessage.HeartbeatAck nonce None))
  | ClientMessage.Detach => mret None
  | _ => mret (Some (invalid_request
           "only input, resize, pane moves, zoom, lease control, and detach are valid while attached"))
  end.

(** ** Metadata *)

(** [send_view_update]: the view published last *)
Definition send_view_update (t : SessionTerminal.t St) : option ServerMessage.t :=
  (λ view, ServerMessage.ViewSnapshot (view_for_contract view protocol_version)) <$> SessionTerminal.view_updates t.

(** [send_layout_lease_update]: nothing when the client knows the status *)
Definition send_layout_lease_update (known : LeaseStatus.t) {E} : action St E (option ServerMessage.t) :=
  status ← with_view_leases self no_lease (λ leases, LeaseRegistry.status leases attachment_id LayoutLease);
  mret (if bool_decide (LeaseStatus.held status = LeaseStatus.held known) &&
           bool_decide (LeaseStatus.owned_by_client status = LeaseStatus.owned_by_client known)
        then None else Some (ServerMessage.LeaseStatus LayoutLease status true)).

(** [send_pending_metadata], given whether the receivers of views and of layout leases have
    something new *)
Definition send_pending_metadata (new_view new_layout_lease : bool) (known : LeaseStatus.t) {E} :
    action St E (list ServerMessage.t) :=
  t ← reading (λ r, shared r self);
  lease ← (if supports_layout_lease_notifications protocol_version && new_layout_lease
           then send_layout_lease_update known else mret None);
  mret ((if supports_view_zoom protocol_version && new_view then option_list (send_view_update t) else []) ++ option_list lease).
End attached.

(** * The guard of an attachment *)

(** [reconnect_grace] is only the delay of the timer that expires a lost attachment. *)
Module AttachmentGuard.
Record t := Mk { session : string; attachment_token : string; generation : N; preserve_on_drop : bool; active : bool }.
End AttachmentGuard.

Inductive AttachmentExit := Detached | Disconnected | Superseded.

Section guards.
Context {St : Type} `{Screen St}.
Implicit Types (guard : AttachmentGuard.t).

Definition guard_of (attachment : PreparedAttachment.t) : AttachmentGuard.t :=
  let registration := PreparedAttachment.registration attachment in
  AttachmentGuard.Mk (PreparedAttachment.session attachment) (AttachmentRegistration.attachment_token registration)
    (AttachmentRegistration.generation registration) (PreparedAttachment.resumed attachment) true.

(** [attachment_guard.preserve_on_drop = true] *)
Definition preserve guard : AttachmentGuard.t :=
  AttachmentGuard.Mk (AttachmentGuard.session guard) (AttachmentGuard.attachment_token guard)
    (AttachmentGuard.generation guard) true (AttachmentGuard.active guard).

Definition close_now {E} guard : action St E AttachmentGuard.t :=
  if AttachmentGuard.active guard then
    _ ← close_attachment_inner (AttachmentGuard.session guard) (AttachmentGuard.attachment_token guard) (AttachmentGuard.generation guard);
    mret (AttachmentGuard.Mk (AttachmentGuard.session guard) (AttachmentGuard.attachment_token guard)
            (AttachmentGuard.generation guard) (AttachmentGuard.preserve_on_drop guard) false)
  else mret guard.

(** [Drop]: whether a timer was started that will expire the attachment *)
Definition drop_guard {E} guard : action St E bool :=
  if negb (AttachmentGuard.active guard) then mret false else
  if negb (AttachmentGuard.preserve_on_drop guard) then
    _ ← close_attachment_inner (AttachmentGuard.session guard) (AttachmentGuard.attachment_token guard) (AttachmentGuard.generation guard);
    mret false
  else suspend_attachment_inner (AttachmentGuard.session guard) (AttachmentGuard.attachment_token guard) (AttachmentGuard.generation guard).

(** The end of [handle_attach] once the driver has left its loop *)
Definition end_attachment {E} guard (exit : AttachmentExit) : action St E bool :=
  match exit with
  | Detached => guard ← close_now guard; drop_guard guard
  | Disconnected | Superseded => drop_guard guard
  end.
End guards.

(** * The beginning of an attachment *)

Section live.

#[export] Instance live_screen : Screen LiveTerminal.t := {|
  screen_size := LiveTerminal.terminal_size;
  screen_sequence s := OutputJournal.next_sequence (LiveTerminal.journal s);
  screen_resize size s := snd <$> resize_live size s;
|}.

(** [refresh_shell_state_for_visibility] *)
Definition refresh_shell_state_for_visibility (s : LiveTerminal.t) : option LiveTerminal.t :=
  let state := LiveTerminal.shell_state s in
  if bool_decide (ShellState.current_command_line state = None) && bool_decide (ShellState.running_command state = None)
  then Some s else snd <$> revise_shell_state s.

(** What happens to a terminal without a request: output of its process, a report of its
    shell, an observation of its processes, and the snapshot that an attachment begins with *)
Inductive LiveChange :=
  | Outputs (checkpoint_interval_bytes : N) (data : list byte)
  | Reports (report : ShellReport.t)
  | Observes (observation : option ProcessSnapshot.t)
  | Snapshots (owner : TerminalOwner.t) (terminal_id : string) (requested : option N).

Context `{UnicodeWidth, HomeDirectory}.

Definition apply_change (change : LiveChange) (s : LiveTerminal.t) : option LiveTerminal.t :=
  match change with
  | Outputs interval data => snd <$> append_output interval data s
  | Reports report => snd <$> apply_shell_report_to_terminal report s
  | Observes observation => snd <$> apply_process_observation_to_terminal observation s
  | Snapshots owner terminal_id requested => snd <$> snapshot_for_attach owner terminal_id requested s
  end.

#[export] Instance live_inspection : Inspection LiveTerminal.t := {|
  screen_shell := LiveTerminal.shell_state;
  screen_statistics := retained_history_statistics;
  screen_refresh_shell := refresh_shell_state_for_visibility;
  screen_end_shell s := snd <$> end_shell_state s;
  screen_apply := apply_change;
|}.
End live.

Definition journal_error (e : JournalError) : ServerMessage.t :=
  match e with
  | SequenceAhead requested next =>
      ServerMessage.Error ErrorCode.SequenceAhead
        ("requested sequence " +:+ pretty requested +:+ " is ahead of the next sequence " +:+ pretty next)
  end.

(** How the beginning of an attachment turned out: a driver is running, with its guard, or
    the connection ended, with or without a last message *)
Inductive Beginning := Attaching (guard : AttachmentGuard.t) (driver : Driver.t) | NotAttached (last : option ServerMessage.t).

Section beginning.
Context `{HistoryCodec, Connection}.
Notation St := LiveTerminal.t.

(** [apply_initial_resize]: [None] when the attachment may go on, otherwise the message of
    the error *)
Definition apply_initial_resize {E} (attachment : PreparedAttachment.t) : action St E (option ServerMessage.t) :=
  let registration := PreparedAttachment.registration attachment in
  if LeaseStatus.owned_by_client (AttachmentLeases.layout (AttachmentRegistration.leases registration)) then
    result ← attempt (resize_inner (PreparedAttachment.session attachment) (AttachmentRegistration.attachment_id registration)
                        (AttachParameters.client_terminal_size (PreparedAttachment.request attachment)));
    mret match result with Err error => Some (control_error error) | _ => None end
  else mret None.

(** The blocking task that takes the snapshot *)
Definition initial_snapshot {E} (attachment : PreparedAttachment.t) : action St E (JournalError + AttachSnapshot.t) :=
  let self := PreparedAttachment.session attachment in
  t ← reading (λ r, shared r self);
  on_screen self (snapshot_for_attach (SessionTerminal.owner t) (SessionTerminal.id t)
                    (AttachParameters.resume_from (PreparedAttachment.request attachment))).

(** From the snapshot to the first message; what the snapshot did to the terminal stays,
    however that ends *)
Definition take_initial_snapshot {E} (time : N) (attachment : PreparedAttachment.t) :
    action St E (Beginning + Driver.t) :=
  let self := PreparedAttachment.session attachment in
  let registration := PreparedAttachment.registration attachment in
  let request := PreparedAttachment.request attachment in
  t ← reading (λ r, shared r self);
  let owner := SessionTerminal.owner t in
  snapshot ← initial_snapshot attachment;
  match snapshot with
  | inl error => mret (inl (NotAttached (Some (journal_error error))))
  | inr _ =>
      match start_attachment owner (SessionTerminal.id t) time (AttachmentRegistration.attachment_token registration)
              (AttachmentRegistration.leases registration) request (SessionTerminal.state t) with
      | Ok (Some driver) => mret (inr driver)
      | Ok None | Err _ => mret (inl (NotAttached None))
      | Panic => lift Panic
      end
  end.

(** [handle_attach] up to the driver's loop.  [in_time] tells whether the resize and the
    snapshot were ready before the deadline for the initial delivery; one that is too late
    still takes place. *)
Definition handle_attach {E} (time : N) (in_time : bool * bool) (attachment : PreparedAttachment.t) : action St E Beginning :=
  let guard := guard_of attachment in
  refused ← apply_initial_resize attachment;
  match refused, in_time.1 with
  | None, true =>
      if in_time.2 : bool then
        begun ← take_initial_snapshot time attachment;
        match begun with
        | inr driver => mret (Attaching (preserve guard) driver)
        | inl ended => _ ← drop_guard guard; mret ended
        end
      else
        _ ← initial_snapshot attachment; _ ← drop_guard guard; mret (NotAttached None)
  | Some message, true => _ ← drop_guard guard; mret (NotAttached (Some message))
  | _, false => _ ← drop_guard guard; mret (NotAttached None)
  end.
End beginning.
