(* ===== verification/Client.v ===== *)
(** What a client of ctmux knows of its attachment, and what it may ask for
    (ctmux/client/src/lib.rs): the handshake and the answer to an attach request, the state
    an attachment controller shares with its presentation, the commands a presentation may
    queue, the events it is given and the acknowledgements it returns.

    [Arc<RwLock<_>>] and atomics are the values they hold: the controller writes them and
    others only read.  The statistics of metrics.rs are not modelled.  Durations are in
    milliseconds, and an error keeps the message whose debug text the code formats. *)

From S2P Require Import Prelude.
From S2P Require Import Cells.
From S2P Require Import Layout.
From S2P Require Import History.
From S2P Require Import Leases.
From S2P Require Import Retention.
From S2P Require Import ShellState.
From S2P Require Import LiveTerminal.
From S2P Require Import Sessions.
From S2P Require Import Protocol.
From S2P Require Import Messages.
From stdpp Require Import strings.
From Stdlib Require Import Init.Byte.

(** * Errors *)

Inductive AttachmentCommandError :=
  | CmdInputLeaseRequired | CmdLayoutLeaseRequired | CheckpointRecoveryUnavailable | ViewZoomUnavailable
  | PaneResizeUnavailable | DividerResizeUnavailable | PaneMoveUnavailable | CmdClosed.

Module ClientError.
Inductive t :=
  | Codec | Io | UnexpectedEof
  | InvalidAttachmentLiveness (heartbeat_interval_ms attachment_liveness_timeout_ms : N)
  | InvalidAttachmentQueueCapacity (command_queue_capacity event_queue_capacity : nat)
  | AttachmentControllerAlreadyRun
  | Server (code : ErrorCode.t) (message : string)
  | UnsupportedOperation (operation : string) (protocol_version : ProtocolVersion.t)
  | AttachmentCommand (error : AttachmentCommandError)
  | UnsupportedCheckpoint (format : string) (format_version : N)
  | CheckpointHistoryPresenceMismatch
  | UnsupportedTerminalHistory (format : string) (format_version : N)
  | InvalidTerminalHistorySequence (checkpoint_sequence history_sequence : N)
  | InvalidHistorySnapshot (message : string)
  | InvalidInitialCheckpointSequence (checkpoint_sequence replay_from : N)
  | InvalidOutputSequence (expected_sequence sequence_start sequence_end : N) (data_len : nat)
  | StaleCheckpoint (checkpoint_sequence previous_sequence : N)
  | GeometryAheadOfOutput (expected_sequence observed_sequence : N)
  | UnexpectedPresentationAcknowledgement (expected actual : string)
  | UnexpectedResponse (expected : string) (actual : ServerMessage.t).
End ClientError.

Definition unexpected {A} (expected : string) (response : ServerMessage.t) : outcome ClientError.t A :=
  Err (ClientError.UnexpectedResponse expected response).

(** * The handshake *)

Module AttachmentLiveness.
Record t := Mk { heartbeat_interval : N; peer_timeout : N }.
End AttachmentLiveness.

Module HandshakeInfo.
Record t := Mk {
  server_version : string; protocol_version : ProtocolVersion.t; protocols : list ProtocolInfo.t;
  build : option ComponentBuildInfo.t; attachment_liveness : AttachmentLiveness.t }.
End HandshakeInfo.

Definition attachment_liveness (heartbeat_interval_ms attachment_liveness_timeout_ms : N) :
    outcome ClientError.t AttachmentLiveness.t :=
  _ ← fail_if ((heartbeat_interval_ms =? 0) || (attachment_liveness_timeout_ms =? 0) ||
               (attachment_liveness_timeout_ms <=? heartbeat_interval_ms))%N
        (ClientError.InvalidAttachmentLiveness heartbeat_interval_ms attachment_liveness_timeout_ms);
  Ok (AttachmentLiveness.Mk heartbeat_interval_ms attachment_liveness_timeout_ms).

(** [read_response]: what the connection yields next, [None] when it is closed *)
Definition read_response (frame : option ServerMessage.t) : outcome ClientError.t ServerMessage.t :=
  match frame with
  | Some (ServerMessage.Error code message) => Err (ClientError.Server code message)
  | Some message => Ok message
  | None => Err ClientError.UnexpectedEof
  end.

(** What [handshake] makes of the daemon's frame *)
Definition handshake (frame : option ServerMessage.t) : outcome ClientError.t HandshakeInfo.t :=
  response ← read_response frame;
  match response with
  | ServerMessage.HandshakeAccepted protocol_version protocols server_version build heartbeat_interval_ms
      attachment_liveness_timeout_ms =>
      if ProtocolOffer.accepts protocol_offer protocol_version && protocols_are_valid protocols &&
         existsb (λ protocol, bool_decide (ProtocolInfo.name protocol = "ctmux"%string) &&
                              ProtocolInfo.supports protocol protocol_version) protocols
      then
        liveness ← attachment_liveness heartbeat_interval_ms attachment_liveness_timeout_ms;
        Ok (HandshakeInfo.Mk server_version protocol_version protocols build liveness)
      else unexpected "handshake_accepted" response
  | response => unexpected "handshake_accepted" response
  end.

(** * The latest state of the shell *)

Module ShellStateCache.
Definition t : Type := ShellState.t.

Definition new (initial_state : ShellState.t) : t := initial_state.
Definition snapshot (cache : t) : ShellState.t := cache.

Definition apply_if_newer (state : ShellState.t) (cache : t) : bool * t :=
  if decide (ShellState.revision state ≤ ShellState.revision cache)%N then (false, cache) else (true, state).
End ShellStateCache.

(** * The attachment *)

Module AttachedSession.
Record t := Mk {
  handshake_info : HandshakeInfo.t; attachment_token : string; session : SessionInfo.t; replay_from : N;
  history_gap : bool; checkpoint : option TerminalCheckpoint.t; history : option HistorySnapshot.t;
  history_manifest : option TerminalHistoryManifest.t; terminal_size_mismatch : bool;
  leases : AttachmentLeases.t; shell_state : ShellState.t; liveness : AttachmentLiveness.t;
  shell_state_cache : ShellStateCache.t }.
End AttachedSession.

Module AttachRequest.
Record t := Mk {
  session : string; resume_from : option N; terminal_size : TerminalSize.t;
  request_input_lease : bool; request_layout_lease : bool; request_command_line : bool;
  request_running_command : bool; presentation_window_bytes : N }.
End AttachRequest.

(** The message [begin_attach] sends *)
Definition begin_attach (r : AttachRequest.t) : ClientMessage.t :=
  ClientMessage.AttachSession (AttachRequest.session r) (AttachRequest.resume_from r) (AttachRequest.terminal_size r)
    (AttachRequest.request_input_lease r) (AttachRequest.request_layout_lease r) (AttachRequest.request_command_line r)
    (AttachRequest.request_running_command r) (AttachRequest.presentation_window_bytes r).

(** The message [resume_attach] sends *)
Definition resume_attach (attachment_token : string) (r : AttachRequest.t) : ClientMessage.t :=
  ClientMessage.ResumeAttachment (AttachRequest.session r) attachment_token (AttachRequest.resume_from r)
    (AttachRequest.terminal_size r) (AttachRequest.request_command_line r) (AttachRequest.request_running_command r)
    (AttachRequest.presentation_window_bytes r).

(** [begin_attachment]: the request it sends once it has the contract, and what it makes of
    the answer; [local_identity] is what ctl-core's presence reports of this process. *)
Definition opening_request (local_identity : ClientIdentity.t) (handshake : HandshakeInfo.t) (message : ClientMessage.t) :
    OpeningRequest.t :=
  OpeningRequest.Mk message
    (if supports_client_presence (HandshakeInfo.protocol_version handshake) then Some local_identity else None).

Definition begin_attachment (handshake : HandshakeInfo.t) (frame : option ServerMessage.t) :
    outcome ClientError.t AttachedSession.t :=
  response ← read_response frame;
  match response with
  | ServerMessage.Attached attachment_token session _ _ replay_from history_gap checkpoint history history_manifest
      terminal_size_mismatch leases shell_state =>
      Ok (AttachedSession.Mk handshake attachment_token session replay_from history_gap checkpoint history
            history_manifest terminal_size_mismatch leases shell_state (HandshakeInfo.attachment_liveness handshake)
            (ShellStateCache.new shell_state))
  | response => unexpected "attached" response
  end.

Module AttachmentState.
Record t := Mk {
  received_sequence : N; resume_sequence : option N; leases : AttachmentLeases.t; terminal_size : TerminalSize.t;
  shell_state_cache : ShellStateCache.t }.

Definition from_attached (a : AttachedSession.t) : t :=
  Mk (AttachedSession.replay_from a)
     (match AttachedSession.checkpoint a with None => Some (AttachedSession.replay_from a) | Some _ => None end)
     (AttachedSession.leases a)
     (match AttachedSession.checkpoint a with
      | None => SessionInfo.terminal_size (AttachedSession.session a)
      | Some checkpoint => TerminalCheckpoint.terminal_size checkpoint
      end)
     (AttachedSession.shell_state_cache a).

Definition next_sequence (s : t) : option N := resume_sequence s.

Definition set_leases (leases : AttachmentLeases.t) (s : t) : t :=
  Mk (received_sequence s) (resume_sequence s) leases (terminal_size s) (shell_state_cache s).
Definition set_lease (lease : LeaseKind) (status : LeaseStatus.t) (s : t) : t :=
  set_leases match lease with
             | Input => AttachmentLeases.Mk status (AttachmentLeases.layout (leases s))
             | LayoutLease => AttachmentLeases.Mk (AttachmentLeases.input (leases s)) status
             end s.
Definition lease_status (lease : LeaseKind) (s : t) : LeaseStatus.t :=
  match lease with Input => AttachmentLeases.input (leases s) | LayoutLease => AttachmentLeases.layout (leases s) end.
Definition mark_lease_not_owned (lease : LeaseKind) (s : t) : t :=
  set_lease lease (LeaseStatus.Mk (LeaseStatus.held (lease_status lease s)) false) s.
Definition set_terminal_size (terminal_size : TerminalSize.t) (s : t) : t :=
  Mk (received_sequence s) (resume_sequence s) (leases s) terminal_size (shell_state_cache s).
Definition set_received_sequence (received_sequence : N) (s : t) : t :=
  Mk received_sequence (resume_sequence s) (leases s) (terminal_size s) (shell_state_cache s).
Definition set_resume_sequence (resume_sequence : option N) (s : t) : t :=
  Mk (received_sequence s) resume_sequence (leases s) (terminal_size s) (shell_state_cache s).
Definition set_shell_state_cache (cache : ShellStateCache.t) (s : t) : t :=
  Mk (received_sequence s) (resume_sequence s) (leases s) (terminal_size s) cache.
End AttachmentState.

(** * Commands *)

Module AttachmentCommand.
Inductive t :=
  | Input (data : list byte)
  | Resize (terminal_size : TerminalSize.t)
  | SetViewZoom (terminal_id : option string)
  | ResizePane (terminal_id : string) (direction : ResizeDirection) (amount : N) (request_id : string)
  | ResizeDivider (divider : DividerResize.t) (request_id : string)
  | SwapPane (target : PaneTarget.t) (previous : bool) (request_id : string)
  | BreakPane (target : PaneTarget.t) (name : option string) (request_id : string)
  | AcquireLease (lease : LeaseKind)
  | ReleaseLease (lease : LeaseKind)
  | RequestCheckpoint
  | Detach.
End AttachmentCommand.

(** The methods of [AttachmentControl]: the command each queues, or why it does not.  A
    closed controller would make each of them fail with [CmdClosed] instead. *)
Section control.
Context (protocol_version : ProtocolVersion.t) (state : AttachmentState.t).

Definition owns (lease : LeaseKind) : bool := LeaseStatus.owned_by_client (AttachmentState.lease_status lease state).

Definition input (data : list byte) : outcome AttachmentCommandError AttachmentCommand.t :=
  _ ← fail_if (negb (owns Input)) CmdInputLeaseRequired; Ok (AttachmentCommand.Input data).

Definition resize (terminal_size : TerminalSize.t) : outcome AttachmentCommandError AttachmentCommand.t :=
  _ ← fail_if (negb (owns LayoutLease)) CmdLayoutLeaseRequired; Ok (AttachmentCommand.Resize terminal_size).

Definition set_view_zoom (terminal_id : option string) : outcome AttachmentCommandError AttachmentCommand.t :=
  _ ← fail_if (negb (supports_view_zoom protocol_version)) ViewZoomUnavailable;
  _ ← fail_if (negb (owns LayoutLease)) CmdLayoutLeaseRequired;
  Ok (AttachmentCommand.SetViewZoom terminal_id).

Definition check_pane_move : outcome AttachmentCommandError () :=
  _ ← fail_if (negb (supports_pane_moves protocol_version)) PaneMoveUnavailable;
  fail_if (negb (owns LayoutLease)) CmdLayoutLeaseRequired.

Definition swap_pane (target : PaneTarget.t) (previous : bool) (request_id : string) :
    outcome AttachmentCommandError AttachmentCommand.t :=
  _ ← check_pane_move; Ok (AttachmentCommand.SwapPane target previous request_id).

Definition break_pane (target : PaneTarget.t) (name : option string) (request_id : string) :
    outcome AttachmentCommandError AttachmentCommand.t :=
  _ ← check_pane_move; Ok (AttachmentCommand.BreakPane target name request_id).

Definition resize_pane (terminal_id : string) (direction : ResizeDirection) (amount : N) (request_id : string) :
    outcome AttachmentCommandError AttachmentCommand.t :=
  _ ← fail_if (negb (supports_pane_resize protocol_version)) PaneResizeUnavailable;
  _ ← fail_if (negb (owns LayoutLease)) CmdLayoutLeaseRequired;
  Ok (AttachmentCommand.ResizePane terminal_id direction amount request_id).

Definition resize_divider (divider : DividerResize.t) (request_id : string) :
    outcome AttachmentCommandError AttachmentCommand.t :=
  _ ← fail_if (negb (supports_divider_resize protocol_version)) DividerResizeUnavailable;
  _ ← fail_if (negb (owns LayoutLease)) CmdLayoutLeaseRequired;
  Ok (AttachmentCommand.ResizeDivider divider request_id).

Definition request_lease (lease : LeaseKind) : outcome AttachmentCommandError AttachmentCommand.t :=
  Ok (AttachmentCommand.AcquireLease lease).
Definition release_lease (lease : LeaseKind) : outcome AttachmentCommandError AttachmentCommand.t :=
  Ok (AttachmentCommand.ReleaseLease lease).
Definition detach : outcome AttachmentCommandError AttachmentCommand.t := Ok AttachmentCommand.Detach.

Definition request_checkpoint : outcome AttachmentCommandError AttachmentCommand.t :=
  _ ← fail_if (bool_decide (protocol_version = CONTRACT_V1_0_13)) CheckpointRecoveryUnavailable;
  Ok AttachmentCommand.RequestCheckpoint.
End control.

(** [send_attachment_command]; the writer stops before it would convert a [Detach]. *)
Definition command_message (command : AttachmentCommand.t) : option ClientMessage.t :=
  match command with
  | AttachmentCommand.Input data => Some (ClientMessage.Input data)
  | AttachmentCommand.Resize terminal_size => Some (ClientMessage.Resize terminal_size)
  | AttachmentCommand.SetViewZoom terminal_id => Some (ClientMessage.SetViewZoom terminal_id)
  | AttachmentCommand.ResizePane terminal_id direction amount request_id =>
      Some (ClientMessage.ResizePane request_id terminal_id direction amount)
  | AttachmentCommand.ResizeDivider divider request_id => Some (ClientMessage.ResizeDivider request_id divider)
  | AttachmentCommand.SwapPane target previous request_id => Some (ClientMessage.SwapPane request_id target previous)
  | AttachmentCommand.BreakPane target name request_id => Some (ClientMessage.BreakPane request_id target name)
  | AttachmentCommand.AcquireLease lease => Some (ClientMessage.AcquireLease lease)
  | AttachmentCommand.ReleaseLease lease => Some (ClientMessage.ReleaseLease lease)
  | AttachmentCommand.RequestCheckpoint => Some ClientMessage.RequestCheckpoint
  | AttachmentCommand.Detach => None
  end.

(** * Events and acknowledgements *)

Inductive AttachExitReason := ExitDetached | ExitConnectionClosed | ExitSessionEnded (exit_code : option N).

Module AttachExit.
Record t := Mk { reason : AttachExitReason; next_sequence : option N; received_sequence : N }.
End AttachExit.

Module AttachmentEvent.
Inductive t :=
  | Checkpoint (checkpoint : TerminalCheckpoint.t) (history : HistorySnapshot.t)
      (history_manifest : option TerminalHistoryManifest.t) (history_gap : bool)
  | HistorySynced (snapshot_id : string) (checkpoint : TerminalCheckpoint.t) (history : HistorySnapshot.t)
      (rows : list HistoryRow.t) (scrollback_limit : N) (history_gap : bool)
  | Output (sequence_start sequence_end : N) (data : list byte)
  | PtyGeometryChanged (terminal_size : TerminalSize.t) (observed_sequence : N)
  | ViewChanged (view : ViewInfo.t)
  | PaneResizeResult (request_id : string) (outcome : PaneResizeOutcome)
  | PaneMoveResult (request_id : string) (outcome : PaneMoveOutcome)
  | LeaseStatus (lease : LeaseKind) (status : LeaseStatus.t) (notification : bool)
  | ShellStateChanged (state : ShellState.t)
  | HeartbeatAck (nonce : N)
  | ServerError (code : ErrorCode.t) (message : string)
  | SessionEnded (session_id : string) (exit_code : option N)
  | Exited (exit : AttachExit.t).
End AttachmentEvent.

Module PresentationAck.
Inductive t :=
  | Output (sequence_end : N) | Checkpoint (sequence : N) | CheckpointIncompatible (sequence : N)
  | Geometry (observed_sequence : N) | GeometryIncompatible (observed_sequence : N).
End PresentationAck.

Module PendingPresentation.
Inductive t := Output (sequence_end : N) | Checkpoint (sequence : N) | Geometry (observed_sequence : N).
#[global] Instance eq_dec : EqDecision t.
Proof. solve_decision. Defined.
End PendingPresentation.

Definition pending_presentation_name (pending : PendingPresentation.t) : string :=
  match pending with
  | PendingPresentation.Output _ => "output"
  | PendingPresentation.Checkpoint _ => "checkpoint"
  | PendingPresentation.Geometry _ => "pty geometry"
  end.

Definition presentation_acknowledgement_name (acknowledgement : PresentationAck.t) : string :=
  match acknowledgement with
  | PresentationAck.Output _ => "output acknowledgement"
  | PresentationAck.Checkpoint _ => "checkpoint acknowledgement"
  | PresentationAck.CheckpointIncompatible _ => "incompatible checkpoint acknowledgement"
  | PresentationAck.Geometry _ => "pty geometry acknowledgement"
  | PresentationAck.GeometryIncompatible _ => "incompatible pty geometry acknowledgement"
  end.

Module AttachmentControllerOptions.
Record t := Mk {
  renderer_starts_compatible : bool; reacquire_input_lease : bool; reacquire_layout_lease : bool;
  resize_after_layout_reacquire : option TerminalSize.t; command_queue_capacity : nat; event_queue_capacity : nat }.

Definition default : t := Mk true false false None 64 128.
End AttachmentControllerOptions.

(** * Checkpoints *)

Definition checkpoint_is_supported (c : TerminalCheckpoint.t) : bool :=
  bool_decide (TerminalCheckpoint.format c = TERMINAL_CHECKPOINT_FORMAT) &&
  bool_decide (TerminalCheckpoint.format_version c = TERMINAL_CHECKPOINT_FORMAT_VERSION).

Definition history_is_supported (h : HistorySnapshot.t) : bool :=
  bool_decide (HistorySnapshot.format h = TERMINAL_HISTORY_FORMAT) &&
  bool_decide (HistorySnapshot.format_version h = TERMINAL_HISTORY_FORMAT_VERSION).

Definition validate_checkpoint (c : TerminalCheckpoint.t) : outcome ClientError.t () :=
  fail_if (negb (checkpoint_is_supported c))
    (ClientError.UnsupportedCheckpoint (TerminalCheckpoint.format c) (TerminalCheckpoint.format_version c)).

Definition validate_checkpoint_bundle (c : TerminalCheckpoint.t) (h : HistorySnapshot.t) : outcome ClientError.t () :=
  _ ← validate_checkpoint c;
  _ ← fail_if (negb (history_is_supported h))
        (ClientError.UnsupportedTerminalHistory (HistorySnapshot.format h) (HistorySnapshot.format_version h));
  fail_if (negb (bool_decide (HistorySnapshot.sequence h = TerminalCheckpoint.sequence c)))
    (ClientError.InvalidTerminalHistorySequence (TerminalCheckpoint.sequence c) (HistorySnapshot.sequence h)).

(** [terminal_grid_matches] *)
Definition terminal_grid_matches (left right : TerminalSize.t) : bool :=
  bool_decide (TerminalSize.columns left = TerminalSize.columns right) &&
  bool_decide (TerminalSize.rows left = TerminalSize.rows right).
