(* ===== verification/HistorySync.v ===== *)
(** The client's end of a history transfer (HistoryTransfer of
    ctmux/client/src/history_sync.rs): pages are assembled in order, and the whole is
    checked against its manifest before any of it is shown.

    Parsing the JSON text of a row is serde's and comes in through [RowParser]; the digest
    is that of [HistoryCodec].  [self.bytes.len() as u64] cannot wrap.

    Both ends of a history transfer together: the client that asks for page after page
    accepts every page the daemon serves, and what it assembles is the rows and the lines
    the daemon pinned. *)

From S2P Require Import Prelude.
From S2P Require Import Cells.
From S2P Require Import Layout.
From S2P Require Import Journal.
From S2P Require Import Observers.
From S2P Require Import History.
From S2P Require Import Retention.
From S2P Require Import LiveTerminal.
From S2P Require Import Messages.
From S2P Require Import Paging.
From S2P Require Import Client.
From stdpp Require Import strings.
From Stdlib Require Import Init.Byte.

(** [serde_json::from_slice], an error as its text *)
Class RowParser := { parse_row : list byte → outcome string HistoryRow.t }.

#[global] Instance byte_eq_dec : EqDecision byte := Byte.byte_eq_dec.

(** [slice::split_inclusive] at line feeds: every part ends with one, but perhaps the last,
    and none is empty. *)
Fixpoint split_inclusive (record bytes : list byte) : list (list byte) :=
  match bytes with
  | [] => if decide (record = []) then [] else [record]
  | b :: bytes =>
      if decide (b = x0a) then (record ++ [b]) :: split_inclusive [] bytes else split_inclusive (record ++ [b]) bytes
  end.

Definition invalid {A} (message : string) : outcome ClientError.t A := Err (ClientError.InvalidHistorySnapshot message).

Module HistoryTransfer.
Record t := Mk {
  manifest : TerminalHistoryManifest.t; checkpoint : TerminalCheckpoint.t; history : HistorySnapshot.t;
  history_gap : bool; bytes : list byte }.

Definition new (manifest : TerminalHistoryManifest.t) (checkpoint : TerminalCheckpoint.t) (history : HistorySnapshot.t)
    (history_gap : bool) : outcome ClientError.t t :=
  if bool_decide (TerminalHistoryManifest.snapshot_id manifest = ""%string)
     || negb (bool_decide (TerminalHistoryManifest.sequence manifest = TerminalCheckpoint.sequence checkpoint))
     || negb (bool_decide (TerminalHistoryManifest.generation manifest = HistorySnapshot.generation history))
     || negb (bool_decide (TerminalHistoryManifest.revision manifest = HistorySnapshot.revision history))
     || bool_decide (MAX_ENCODED_HISTORY_BYTES < TerminalHistoryManifest.total_bytes manifest)%N
     || bool_decide (TerminalHistoryManifest.scrollback_limit manifest < TerminalHistoryManifest.total_rows manifest)%N
     || bool_decide (10000 < TerminalHistoryManifest.scrollback_limit manifest)%N
     || negb (bool_decide (add64 (TerminalHistoryManifest.first_line manifest) (N.of_nat (length (HistorySnapshot.lines history)))
                           = Some (TerminalHistoryManifest.total_lines manifest)))
     || negb (String.length (TerminalHistoryManifest.content_hash manifest) =? 64)%nat
     || negb (string_all is_ascii_hexdigit (TerminalHistoryManifest.content_hash manifest))
  then invalid "history manifest does not match its checkpoint"
  else Ok (Mk manifest checkpoint history history_gap []).

Definition snapshot_id (x : t) : string := TerminalHistoryManifest.snapshot_id (manifest x).
Definition sequence (x : t) : N := TerminalCheckpoint.sequence (checkpoint x).

Definition request (x : t) : ClientMessage.t :=
  ClientMessage.HistoryRequest (HistoryRequest.Mk (snapshot_id x) (N.of_nat (length (bytes x))) MAX_HISTORY_PAGE_BYTES).

Definition is_complete (x : t) : bool :=
  bool_decide (N.of_nat (length (bytes x)) = TerminalHistoryManifest.total_bytes (manifest x)).

Definition accept_page (offset : N) (data : list byte) (next_offset : option N) (x : t) : outcome ClientError.t t :=
  let total_bytes := TerminalHistoryManifest.total_bytes (manifest x) in
  let end_ := add64 offset (N.of_nat (length data)) in
  if negb (bool_decide (offset = N.of_nat (length (bytes x))))
     || bool_decide (MAX_HISTORY_PAGE_BYTES < N.of_nat (length data))%N
     || match end_ with None => true | Some end_ => bool_decide (total_bytes < end_)%N end
     || (bool_decide (data = []) && negb (is_complete x))
     || negb (bool_decide (next_offset = (end_ ← end_; if decide (end_ < total_bytes)%N then Some end_ else None)))
  then invalid "history page is outside its requested snapshot range"
  else Ok (Mk (manifest x) (checkpoint x) (history x) (history_gap x) (bytes x ++ data)).

Section finish.
Context `{HistoryCodec, RowParser}.

Definition from_text {A} (m : outcome string A) : outcome ClientError.t A :=
  match m with Ok a => Ok a | Err text => Err (ClientError.InvalidHistorySnapshot text) | Panic => Panic end.

(** One turn of the loop over the records *)
Definition finish_record (record : list byte) : outcome ClientError.t HistoryRow.t :=
  if negb (bool_decide (last record = Some x0a)) then invalid "history snapshot contains an incomplete record" else
  row ← from_text (parse_row (take (length record - 1) record));
  _ ← from_text (validate_history_row row);
  Ok row.

Fixpoint finish_records (records : list (list byte)) : outcome ClientError.t (list HistoryRow.t) :=
  match records with
  | [] => Ok []
  | record :: records => row ← finish_record record; rows ← finish_records records; Ok (row :: rows)
  end.

Definition finish (x : t) : outcome ClientError.t AttachmentEvent.t :=
  let m := manifest x in
  if negb (is_complete x) || negb (bool_decide (digest (bytes x) = TerminalHistoryManifest.content_hash m))
  then invalid "history snapshot checksum does not match" else
  rows ← finish_records (split_inclusive [] (bytes x));
  if negb (bool_decide (N.of_nat (length rows) = TerminalHistoryManifest.total_rows m))
  then invalid "history snapshot row count does not match" else
  lines ← expect (normalize_history_rows rows);
  if negb (bool_decide (N.of_nat (length lines) = TerminalHistoryManifest.total_lines m))
  then invalid "history snapshot line count does not match" else
  let h := history x in
  Ok (AttachmentEvent.HistorySynced (TerminalHistoryManifest.snapshot_id m) (checkpoint x)
        (HistorySnapshot.Mk (HistorySnapshot.format h) (HistorySnapshot.format_version h) (HistorySnapshot.sequence h)
           (HistorySnapshot.generation h) (HistorySnapshot.revision h) (lines_bytes lines)
           (TerminalHistoryManifest.truncated m) lines)
        rows (TerminalHistoryManifest.scrollback_limit m)
        (history_gap x || TerminalHistoryManifest.truncated m)).
End finish.
End HistoryTransfer.

(** A row as a contract without styles has it *)
Definition sent_row (styled : bool) (row : HistoryRow.t) : HistoryRow.t :=
  if styled then row else HistoryRow.Mk (HistoryRow.text row) (HistoryRow.wrapped row) [].

(** What is asked of the JSON library and the digest: a row is read back from its text,
    which is one line, and a digest is 64 hexadecimal digits. *)
Class CodecLaws `{HistoryCodec, RowParser} : Prop := {
  row_json_parses styled row record : row_json styled row = Some record → parse_row record = Ok (sent_row styled row);
  row_json_one_line styled row record : row_json styled row = Some record → x0a ∉ record;
  digest_length data : String.length (digest data) = 64%nat;
  digest_hex data : string_all is_ascii_hexdigit (digest data) = true }.

(** * Records *)

Lemma split_record record rest bytes : x0a ∉ bytes →
  split_inclusive record (bytes ++ x0a :: rest) = (record ++ bytes ++ [x0a]) :: split_inclusive [] rest.
Proof.
  revert record. induction bytes as [|b bytes IH]; intros record Hb; cbn [app split_inclusive].
  { by rewrite decide_True. }
  rewrite decide_False by (intros ->; apply Hb; left). rewrite IH by (intros Hin; apply Hb; by right).
  by rewrite <- app_assoc.
Qed.

Lemma sent_row_valid styled row : validate_history_row row = Ok () → validate_history_row (sent_row styled row) = Ok ().
Proof.
  destruct styled; [done|]. unfold validate_history_row, sent_row. cbn.
  destruct (existsb _ _); [done|]. simpl. by destruct (bool_decide _).
Qed.

Lemma normalize_sent styled rows : ∀ pending lines bytes,
  normalize_go (sent_row styled <$> rows) pending lines bytes = normalize_go rows pending lines bytes.
Proof.
  destruct styled; [by rewrite list_fmap_id|].
  induction rows as [|row rows IH]; intros pending lines bytes; [done|]. cbn.
  destruct (HistoryRow.wrapped row); [apply IH|].
  destruct (evict_lines _ _) as [[l b]|]; [apply IH|done].
Qed.

Section sync.
Context `{CodecLaws}.

(** The data of rows reads back as the rows. *)
Lemma finish_encoded styled rows data : encodes styled rows data →
  HistoryTransfer.finish_records (split_inclusive [] data) = Ok (sent_row styled <$> rows).
Proof.
  induction 1 as [|row rows record data Hv Hj _ IH]; [done|].
  rewrite <- app_assoc. cbn [app]. rewrite split_record by (by eapply row_json_one_line).
  cbn [app HistoryTransfer.finish_records]. unfold HistoryTransfer.finish_record.
  rewrite last_snoc, bool_decide_eq_true_2 by done. cbn [negb].
  rewrite length_app. cbn [length]. rewrite Nat.add_sub, take_app_length.
  erewrite row_json_parses by done. cbn [HistoryTransfer.from_text mbind outcome_bind].
  rewrite sent_row_valid by done. cbn. by rewrite IH.
Qed.

(** * A new transfer *)

Lemma recent_bound newest : ∀ count bytes, recent_go newest count bytes ⇓? λ n, n ≤ count + length newest.
Proof.
  induction newest as [|line older IH]; intros count bytes; cbn [recent_go]; [simpl; lia|].
  case_decide; [|simpl; lia]. destruct (line_json line); simpl; [|done]. case_decide; [simpl; lia|].
  eapply Total_mono; [apply IH|]. simpl. intros; lia.
Qed.

Lemma complete_lines_length rows : ∀ pending, length (complete_lines rows pending) ≤ length rows.
Proof.
  induction rows as [|row rows IH]; intros pending; [simpl; lia|]. cbn [complete_lines length].
  destruct (HistoryRow.wrapped row); [etrans; [apply IH|lia]|]. cbn [length]. specialize (IH []). lia.
Qed.

Lemma normalize_length rows lines : normalize_history_rows rows = Some lines → length lines ≤ length rows.
Proof.
  intros Hn. pose proof (normalize_keeps rows) as Hk. rewrite Hn in Hk. destruct Hk as (k & _ & ->).
  rewrite length_drop. pose proof (complete_lines_length rows []). lia.
Qed.

(** What a new transfer announces and the lines it sends along *)
Lemma new_announces now id history rows limit styled h recent :
  normalize_history_rows (PhysicalHistory.rows rows) = Some (PhysicalHistory.lines rows) →
  PinnedHistory.new now id history rows limit styled = Ok (h, recent) →
  ∃ first_row lines count,
    encodes styled (drop first_row (PhysicalHistory.rows rows)) (PinnedHistory.data h) ∧
    (N.of_nat (length (PinnedHistory.data h)) ≤ MAX_ENCODED_HISTORY_BYTES)%N ∧
    normalize_history_rows (drop first_row (PhysicalHistory.rows rows)) = Some lines ∧ count ≤ length lines ∧
    PinnedHistory.manifest h = TerminalHistoryManifest.Mk id (HistorySnapshot.sequence history)
      (HistorySnapshot.generation history) (HistorySnapshot.revision history)
      (N.of_nat (length (drop first_row (PhysicalHistory.rows rows)))) (N.of_nat (length (PinnedHistory.data h)))
      (N.of_nat (length lines)) (N.of_nat (length lines - count)) (HistorySnapshot.truncated recent)
      (digest (PinnedHistory.data h)) limit ∧
    PinnedHistory.served_end h = 0 ∧ PinnedHistory.last_access h = now ∧
    HistorySnapshot.lines recent = drop (length lines - count) lines ∧
    HistorySnapshot.format recent = HistorySnapshot.format history ∧
    HistorySnapshot.format_version recent = HistorySnapshot.format_version history ∧
    HistorySnapshot.sequence recent = HistorySnapshot.sequence history ∧
    HistorySnapshot.generation recent = HistorySnapshot.generation history ∧
    HistorySnapshot.revision recent = HistorySnapshot.revision history ∧
    (first_row ≠ 0 → styled = true ∧ ∃ row record, PhysicalHistory.rows rows !! (first_row - 1) = Some row ∧
       row_json styled row = Some record ∧
       (MAX_ENCODED_HISTORY_BYTES < N.of_nat (length (PinnedHistory.data h)) + N.of_nat (length record) + 1)%N).
Proof.
  intros Hlines. unfold PinnedHistory.new, encode_rows.
  pose proof (encode_go_spec styled (reverse (PhysicalHistory.rows rows)) [] 0 [] (encodes_nil _) eq_refl (N.le_0_l _)) as Hgo.
  rewrite reverse_involutive, app_nil_r in Hgo.
  destruct (encode_go _ _ _ _) as [[bytes first_row]|e|]; [|done|done].
  destruct Hgo as (He & _ & Hle & Hbig). cbn [mbind outcome_bind EncodedHistory.first_row EncodedHistory.data EncodedHistory.content_hash].
  assert (∃ lines, normalize_history_rows (drop first_row (PhysicalHistory.rows rows)) = Some lines ∧
    (if decide (first_row = 0) then Ok (PhysicalHistory.lines rows)
     else expect (normalize_history_rows (drop first_row (PhysicalHistory.rows rows)))) = (Ok lines : outcome string _))
    as (lines & Hn & ->).
  { case_decide as E.
    - subst. rewrite drop_0. by eexists.
    - destruct (Safe_elim _ _ (normalize_keeps (drop first_row (PhysicalHistory.rows rows)))) as (lines & -> & _). by eexists. }
  cbn [mbind outcome_bind]. pose proof (recent_bound (reverse lines) 0 0) as Hr.
  destruct (recent_go _ _ _) as [count|e|]; [|done|done]. rewrite length_reverse in Hr. simpl in Hr.
  cbn. intros [= <- <-]. exists first_row, lines, count. by split_and!.
Qed.

(** The client takes on a transfer of at most the rows a terminal may keep. *)
Lemma new_transfer now id history rows limit styled h recent checkpoint gap :
  normalize_history_rows (PhysicalHistory.rows rows) = Some (PhysicalHistory.lines rows) →
  PinnedHistory.new now id history rows limit styled = Ok (h, recent) →
  id ≠ ""%string → TerminalCheckpoint.sequence checkpoint = HistorySnapshot.sequence history →
  (N.of_nat (length (PhysicalHistory.rows rows)) ≤ limit ≤ 10000)%N →
  HistoryTransfer.new (PinnedHistory.manifest h) checkpoint recent gap =
    Ok (HistoryTransfer.Mk (PinnedHistory.manifest h) checkpoint recent gap []).
Proof.
  intros Hl Hnew Hid Hseq Hlimit.
  destruct (new_announces _ _ _ _ _ _ _ _ Hl Hnew) as (first & lines & count & _ & Hle & Hn & Hc & Hm & _ & _ & Hlines & _ & _ & _ & Hg & Hr & _).
  pose proof (normalize_length _ _ Hn) as Hlen. rewrite length_drop in Hlen.
  unfold HistoryTransfer.new. rewrite Hm. cbn -[string_all].
  rewrite bool_decide_eq_false_2 by done. rewrite bool_decide_eq_true_2 by done.
  rewrite (bool_decide_eq_true_2 (HistorySnapshot.generation _ = _)) by done.
  rewrite (bool_decide_eq_true_2 (HistorySnapshot.revision _ = _)) by done.
  rewrite bool_decide_eq_false_2 by lia. rewrite bool_decide_eq_false_2 by (rewrite length_drop; lia).
  rewrite bool_decide_eq_false_2 by lia. rewrite Hlines, length_drop.
  rewrite add64_Some by (unfold u64_MAX; lia). rewrite bool_decide_eq_true_2 by (f_equal; lia).
  by rewrite digest_length, digest_hex.
Qed.

(** * The exchange *)

Section exchange.
Context (times : nat → N).

(** The client asks for the next page until it has them all; [times k] is when the daemon
    serves its [k]-th request. *)
Fixpoint exchange (fuel k : nat) (x : HistoryTransfer.t) (h : PinnedHistory.t) :
    option (HistoryTransfer.t * PinnedHistory.t) :=
  if HistoryTransfer.is_complete x then Some (x, h) else
  match fuel, HistoryTransfer.request x with
  | S fuel, ClientMessage.HistoryRequest request =>
      match PinnedHistory.page (times k) request h with
      | (Ok (ServerMessage.HistoryPage id offset data next_offset), h) =>
          if negb (bool_decide (id = HistoryTransfer.snapshot_id x)) then None else
          match HistoryTransfer.accept_page offset data next_offset x with
          | Ok x => exchange fuel (S k) x h
          | _ => None
          end
      | _ => None
      end
  | _, _ => None
  end.

Lemma exchange_spec fuel : ∀ k x h,
  (∀ j, k ≤ j → (times (S j) - times j < HISTORY_SNAPSHOT_IDLE_TTL)%N) →
  (times k - PinnedHistory.last_access h < HISTORY_SNAPSHOT_IDLE_TTL)%N →
  HistoryTransfer.manifest x = PinnedHistory.manifest h →
  TerminalHistoryManifest.total_bytes (PinnedHistory.manifest h) = N.of_nat (length (PinnedHistory.data h)) →
  (N.of_nat (length (PinnedHistory.data h)) ≤ MAX_ENCODED_HISTORY_BYTES)%N →
  HistoryTransfer.bytes x = take (PinnedHistory.served_end h) (PinnedHistory.data h) →
  PinnedHistory.served_end h ≤ length (PinnedHistory.data h) →
  length (PinnedHistory.data h) - PinnedHistory.served_end h < fuel →
  exchange fuel k x h ⇓ λ '(x', h'),
    x' = HistoryTransfer.Mk (HistoryTransfer.manifest x) (HistoryTransfer.checkpoint x) (HistoryTransfer.history x)
           (HistoryTransfer.history_gap x) (PinnedHistory.data h) ∧
    PinnedHistory.complete h' = true.
Proof.
  induction fuel as [|fuel IH]; intros k x h Htimes Hnow Hm Ht Hmax Hb Hend Hfuel; [lia|]. cbn [exchange].
  assert (length (HistoryTransfer.bytes x) = PinnedHistory.served_end h) as Hlen by (rewrite Hb, length_take; lia).
  unfold HistoryTransfer.is_complete at 1. rewrite Hlen, Hm, Ht. case_bool_decide as Hdone.
  { split.
    - destruct x as [m c hs g b]. cbn in *. f_equal; [done|]. rewrite Hb. apply take_ge. lia.
    - apply bool_decide_eq_true. lia. }
  unfold HistoryTransfer.request, HistoryTransfer.snapshot_id. rewrite Hlen, Hm. unfold PinnedHistory.page at 1.
  unfold PinnedHistory.expired. cbn [HistoryRequest.snapshot_id HistoryRequest.offset HistoryRequest.max_bytes].
  rewrite bool_decide_eq_false_2 by lia. rewrite bool_decide_eq_true_2 by done. cbn [negb orb].
  rewrite bool_decide_eq_false_2 by lia. rewrite bool_decide_eq_false_2 by done. cbn [negb orb].
  rewrite Nat2N.id, (decide_True (P := _ ≤ _)) by lia.
  rewrite N.min_id. set (size := N.to_nat MAX_HISTORY_PAGE_BYTES).
  assert (N.of_nat size = MAX_HISTORY_PAGE_BYTES) as Hsize by (unfold size; apply N2Nat.id).
  assert (0 < size) as Hpos by (unfold MAX_HISTORY_PAGE_BYTES in Hsize; lia). clearbody size.
  set (end_ := (PinnedHistory.served_end h + size) `min` length (PinnedHistory.data h)).
  set (page := take (end_ - PinnedHistory.served_end h) (drop (PinnedHistory.served_end h) (PinnedHistory.data h))).
  assert (length page = end_ - PinnedHistory.served_end h) as Hpage.
  { unfold page. rewrite length_take, length_drop. unfold end_. lia. }
  rewrite bool_decide_eq_true_2 by done. cbn [negb].
  unfold HistoryTransfer.accept_page, HistoryTransfer.is_complete. rewrite Hm, Ht, Hlen, Hpage.
  rewrite bool_decide_eq_true_2 by done. rewrite bool_decide_eq_false_2 by (unfold end_; lia).
  rewrite add64_Some by (unfold MAX_ENCODED_HISTORY_BYTES, u64_MAX in *; unfold end_; lia).
  rewrite bool_decide_eq_false_2 by (unfold end_; lia).
  rewrite (bool_decide_eq_false_2 (page = [])) by (intros E; rewrite E in Hpage; simpl in Hpage; unfold end_ in Hpage; lia).
  cbn [negb orb andb mbind option_bind].
  replace (N.of_nat (PinnedHistory.served_end h) + N.of_nat (end_ - PinnedHistory.served_end h))%N with (N.of_nat end_) by (unfold end_; lia).
  rewrite bool_decide_eq_true_2.
  2:{ unfold end_. repeat case_decide; [done|lia|lia|done]. }
  cbn [negb]. eapply Safe_mono; [apply IH|]; cbn [PinnedHistory.last_access PinnedHistory.manifest PinnedHistory.data
    PinnedHistory.served_end HistoryTransfer.manifest HistoryTransfer.bytes].
  - intros j Hj. apply Htimes. lia.
  - apply Htimes. lia.
  - done.
  - done.
  - done.
  - rewrite Hb. unfold page. replace (PinnedHistory.served_end h `max` end_) with (PinnedHistory.served_end h + (end_ - PinnedHistory.served_end h)) by (unfold end_; lia).
    by rewrite take_take_drop.
  - unfold end_. lia.
  - unfold end_ in *. lia.
  - intros [x' h']. cbn. rewrite ?Hm. done.
Qed.
End exchange.

(** The newest rows that fit the bound: another one would not. *)
Definition fits (styled : bool) (first_row : nat) (rows : list HistoryRow.t) (bytes : list byte) : Prop :=
  encodes styled (drop first_row rows) bytes ∧ (N.of_nat (length bytes) ≤ MAX_ENCODED_HISTORY_BYTES)%N ∧
  (first_row ≠ 0 → styled = true ∧ ∃ row record, rows !! (first_row - 1) = Some row ∧ row_json styled row = Some record ∧
     (MAX_ENCODED_HISTORY_BYTES < N.of_nat (length bytes) + N.of_nat (length record) + 1)%N).

(** The client finishes with the rows the daemon pinned. *)
Lemma transfer_finishes now id history rows limit styled h recent checkpoint gap :
  normalize_history_rows (PhysicalHistory.rows rows) = Some (PhysicalHistory.lines rows) →
  PinnedHistory.new now id history rows limit styled = Ok (h, recent) →
  ∃ first_row lines, normalize_history_rows (drop first_row (PhysicalHistory.rows rows)) = Some lines ∧
    fits styled first_row (PhysicalHistory.rows rows) (PinnedHistory.data h) ∧
    HistoryTransfer.finish (HistoryTransfer.Mk (PinnedHistory.manifest h) checkpoint recent gap (PinnedHistory.data h)) =
    Ok (AttachmentEvent.HistorySynced id checkpoint
          (HistorySnapshot.Mk (HistorySnapshot.format history) (HistorySnapshot.format_version history)
             (HistorySnapshot.sequence history) (HistorySnapshot.generation history) (HistorySnapshot.revision history)
             (lines_bytes lines) (HistorySnapshot.truncated recent) lines)
          (sent_row styled <$> drop first_row (PhysicalHistory.rows rows)) limit (gap || HistorySnapshot.truncated recent)).
Proof.
  intros Hl Hnew.
  destruct (new_announces _ _ _ _ _ _ _ _ Hl Hnew)
    as (first & lines & count & He & Hle & Hn & Hc & Hm & _ & _ & _ & Hf & Hv & Hs & Hg & Hr & Hbig).
  exists first, lines. split_and!; [done|done|]. unfold HistoryTransfer.finish, HistoryTransfer.is_complete.
  cbn [HistoryTransfer.manifest HistoryTransfer.bytes HistoryTransfer.history HistoryTransfer.checkpoint HistoryTransfer.history_gap].
  rewrite Hm. cbn. rewrite !bool_decide_eq_true_2 by done. cbn [negb orb].
  erewrite finish_encoded by done. cbn. rewrite length_fmap, bool_decide_eq_true_2 by done. cbn.
  unfold normalize_history_rows. rewrite normalize_sent. unfold normalize_history_rows in Hn. rewrite Hn. cbn.
  rewrite bool_decide_eq_true_2 by done. cbn. by rewrite Hf, Hv, Hs, Hg, Hr.
Qed.
End sync.
