(* ===== verification/Controller.v ===== *)
(** The attachment controller of a client (AttachmentController of
    ctmux/client/src/lib.rs): it takes the daemon's messages in order, hands events to the
    presentation, keeps the ledger of what the presentation has not acknowledged, and tells
    its writer how far the presentation is and which page of history to ask for.

    The two [watch] channels to the writer hold only the latest value that it has not taken
    ([None] when there is none new); an event that is sent is appended to [events], a list
    that stands for the channel and what was received from it.  The loop of [drive] takes a
    message only when the ledger and the channel have room, so [emit_event] never waits;
    a presentation that has dropped its end ends the controller, which no state here shows. *)

From S2P Require Import Prelude.
From S2P Require Import Cells.
From S2P Require Import Layout.
From S2P Require Import Journal.
From S2P Require Import History.
From S2P Require Import Leases.
From S2P Require Import Retention.
From S2P Require Import ShellState.
From S2P Require Import LiveTerminal.
From S2P Require Import Sessions.
From S2P Require Import Protocol.
From S2P Require Import Messages.
From S2P Require Import Paging.
From S2P Require Import Client.
From S2P Require Import HistorySync.
From stdpp Require Import strings.
From Stdlib Require Import Init.Byte.

Inductive ControllerAction := Continue | Exit (reason : AttachExitReason).

Module Controller.
Record t := Mk {
  protocol_version : ProtocolVersion.t; state : AttachmentState.t; event_queue_capacity : nat;
  events : list AttachmentEvent.t; initial_checkpoint : option AttachmentEvent.t;
  history_transfer : option HistoryTransfer.t; pending_history : option AttachmentEvent.t; history_started : bool;
  history_requests : option (option ClientMessage.t); presentation_progress : option N;
  renderer_requires_checkpoint : bool; pending_presentations : list PendingPresentation.t }.

Definition set_state (x : AttachmentState.t) (c : t) : t :=
  Mk (protocol_version c) x (event_queue_capacity c) (events c) (initial_checkpoint c) (history_transfer c)
     (pending_history c) (history_started c) (history_requests c) (presentation_progress c)
     (renderer_requires_checkpoint c) (pending_presentations c).
Definition set_events (x : list AttachmentEvent.t) (c : t) : t :=
  Mk (protocol_version c) (state c) (event_queue_capacity c) x (initial_checkpoint c) (history_transfer c)
     (pending_history c) (history_started c) (history_requests c) (presentation_progress c)
     (renderer_requires_checkpoint c) (pending_presentations c).
Definition set_initial_checkpoint (x : option AttachmentEvent.t) (c : t) : t :=
  Mk (protocol_version c) (state c) (event_queue_capacity c) (events c) x (history_transfer c)
     (pending_history c) (history_started c) (history_requests c) (presentation_progress c)
     (renderer_requires_checkpoint c) (pending_presentations c).
Definition set_history (transfer : option HistoryTransfer.t) (pending : option AttachmentEvent.t) (started : bool) (c : t) : t :=
  Mk (protocol_version c) (state c) (event_queue_capacity c) (events c) (initial_checkpoint c) transfer
     pending started (history_requests c) (presentation_progress c)
     (renderer_requires_checkpoint c) (pending_presentations c).
Definition set_history_requests (x : option (option ClientMessage.t)) (c : t) : t :=
  Mk (protocol_version c) (state c) (event_queue_capacity c) (events c) (initial_checkpoint c) (history_transfer c)
     (pending_history c) (history_started c) x (presentation_progress c)
     (renderer_requires_checkpoint c) (pending_presentations c).
Definition set_progress (x : option N) (c : t) : t :=
  Mk (protocol_version c) (state c) (event_queue_capacity c) (events c) (initial_checkpoint c) (history_transfer c)
     (pending_history c) (history_started c) (history_requests c) x
     (renderer_requires_checkpoint c) (pending_presentations c).
Definition set_presentations (requires : bool) (x : list PendingPresentation.t) (c : t) : t :=
  Mk (protocol_version c) (state c) (event_queue_capacity c) (events c) (initial_checkpoint c) (history_transfer c)
     (pending_history c) (history_started c) (history_requests c) (presentation_progress c) requires x.
End Controller.
Import Controller.

Implicit Types (c : Controller.t).

(** * Starting *)

Definition new (attached : AttachedSession.t) (options : AttachmentControllerOptions.t) : outcome ClientError.t Controller.t :=
  let commands := AttachmentControllerOptions.command_queue_capacity options in
  let capacity := AttachmentControllerOptions.event_queue_capacity options in
  _ ← fail_if ((commands =? 0)%nat || (capacity =? 0)%nat) (ClientError.InvalidAttachmentQueueCapacity commands capacity);
  _ ← (match AttachedSession.checkpoint attached, AttachedSession.history attached with
       | Some checkpoint, Some history =>
           _ ← validate_checkpoint_bundle checkpoint history;
           fail_if (negb (bool_decide (TerminalCheckpoint.sequence checkpoint = AttachedSession.replay_from attached)))
             (ClientError.InvalidInitialCheckpointSequence (TerminalCheckpoint.sequence checkpoint)
                (AttachedSession.replay_from attached))
       | None, None => Ok ()
       | _, _ => Err ClientError.CheckpointHistoryPresenceMismatch
       end);
  let state := AttachmentState.from_attached attached in
  let initial_checkpoint :=
    checkpoint ← AttachedSession.checkpoint attached; history ← AttachedSession.history attached;
    Some (AttachmentEvent.Checkpoint checkpoint history (AttachedSession.history_manifest attached)
            (AttachedSession.history_gap attached)) in
  history_transfer ← (match AttachedSession.history_manifest attached with
    | None => Ok None
    | Some manifest =>
        checkpoint ← ok_or (AttachedSession.checkpoint attached) ClientError.CheckpointHistoryPresenceMismatch;
        history ← ok_or (AttachedSession.history attached) ClientError.CheckpointHistoryPresenceMismatch;
        transfer ← HistoryTransfer.new manifest checkpoint history (AttachedSession.history_gap attached);
        Ok (Some transfer)
    end);
  let requires := negb (AttachmentControllerOptions.renderer_starts_compatible options) ||
                  negb (bool_decide (AttachedSession.checkpoint attached = None)) in
  let state := if requires then AttachmentState.set_resume_sequence None state else state in
  Ok (Controller.Mk (HandshakeInfo.protocol_version (AttachedSession.handshake_info attached)) state capacity []
        initial_checkpoint history_transfer None false None None requires []).

(** * Events and the ledger *)

Definition emit_event (event : AttachmentEvent.t) c : Controller.t := set_events (events c ++ [event]) c.

(** [enqueue_presentation], whose result is asserted *)
Definition enqueue_presentation (presentation : PendingPresentation.t) c : Controller.t :=
  if decide (event_queue_capacity c ≤ length (pending_presentations c)) then c
  else set_presentations (renderer_requires_checkpoint c) (pending_presentations c ++ [presentation]) c.

Definition queue_history_request (message : option ClientMessage.t) c : Controller.t := set_history_requests (Some message) c.

(** The beginning of [drive], before its loop *)
Definition start c : Controller.t :=
  match initial_checkpoint c with
  | Some (AttachmentEvent.Checkpoint checkpoint _ _ _ as event) =>
      emit_event event
        (enqueue_presentation (PendingPresentation.Checkpoint (TerminalCheckpoint.sequence checkpoint))
           (set_initial_checkpoint None c))
  | _ => set_initial_checkpoint None c
  end.

(** * History *)

Section history.
Context `{HistoryCodec, RowParser}.

Definition advance_history_transfer c : outcome ClientError.t Controller.t :=
  match history_transfer c with
  | Some transfer =>
      if HistoryTransfer.is_complete transfer then
        event ← HistoryTransfer.finish transfer;
        Ok (set_history None (Some event) (history_started c) (queue_history_request None c))
      else Ok (queue_history_request (Some (HistoryTransfer.request transfer)) c)
  | None => Ok (queue_history_request None c)
  end.

Definition process_history_page (snapshot_id : string) (offset : N) (data : list byte) (next_offset : option N) c :
    outcome ClientError.t Controller.t :=
  match history_transfer c with
  | Some transfer =>
      if decide (HistoryTransfer.snapshot_id transfer = snapshot_id) then
        transfer ← HistoryTransfer.accept_page offset data next_offset transfer;
        advance_history_transfer (set_history (Some transfer) (pending_history c) (history_started c) c)
      else Ok c
  | None => Ok c
  end.
End history.

Definition expire_history_transfer (snapshot_id : string) c : Controller.t :=
  match history_transfer c with
  | Some transfer =>
      if decide (HistoryTransfer.snapshot_id transfer = snapshot_id)
      then queue_history_request (Some ClientMessage.RequestCheckpoint) (set_history None None false c)
      else c
  | None => c
  end.

(** * Output and checkpoints *)

Definition accept_output (sequence_start sequence_end : N) (data : list byte) c : outcome ClientError.t Controller.t :=
  let expected_sequence := AttachmentState.received_sequence (state c) in
  _ ← fail_if (negb (bool_decide (sequence_start = expected_sequence)) ||
               negb (bool_decide (add64 sequence_start (N.of_nat (length data)) = Some sequence_end)))
        (ClientError.InvalidOutputSequence expected_sequence sequence_start sequence_end (length data));
  Ok (set_state (AttachmentState.set_received_sequence sequence_end (state c)) c).

Definition process_output (sequence_start sequence_end : N) (data : list byte) c : outcome ClientError.t Controller.t :=
  c ← accept_output sequence_start sequence_end data c;
  Ok (emit_event (AttachmentEvent.Output sequence_start sequence_end data)
        (enqueue_presentation (PendingPresentation.Output sequence_end) c)).

Definition accept_checkpoint (checkpoint : TerminalCheckpoint.t) (history : HistorySnapshot.t) c :
    outcome ClientError.t Controller.t :=
  _ ← validate_checkpoint_bundle checkpoint history;
  let previous_sequence := AttachmentState.received_sequence (state c) in
  _ ← fail_if (bool_decide (TerminalCheckpoint.sequence checkpoint < previous_sequence)%N)
        (ClientError.StaleCheckpoint (TerminalCheckpoint.sequence checkpoint) previous_sequence);
  let state := AttachmentState.set_received_sequence (TerminalCheckpoint.sequence checkpoint) (state c) in
  let state := AttachmentState.set_resume_sequence None state in
  Ok (set_presentations true (pending_presentations c)
        (set_state (AttachmentState.set_terminal_size (TerminalCheckpoint.terminal_size checkpoint) state) c)).

Definition process_checkpoint (checkpoint : TerminalCheckpoint.t) (history : HistorySnapshot.t)
    (history_manifest : option TerminalHistoryManifest.t) (history_gap : bool) c : outcome ClientError.t Controller.t :=
  c ← accept_checkpoint checkpoint history c;
  transfer ← (match history_manifest with
    | None => Ok None
    | Some manifest => transfer ← HistoryTransfer.new manifest checkpoint history history_gap; Ok (Some transfer)
    end);
  let c := queue_history_request None (set_history transfer None false c) in
  let c := enqueue_presentation (PendingPresentation.Checkpoint (TerminalCheckpoint.sequence checkpoint)) c in
  Ok (emit_event (AttachmentEvent.Checkpoint checkpoint history history_manifest history_gap) c).

Definition accept_geometry_change (terminal_size : TerminalSize.t) (observed_sequence : N) c :
    outcome ClientError.t Controller.t :=
  if decide (observed_sequence < AttachmentState.received_sequence (state c))%N then Ok c else
  let c := queue_history_request None (set_history None None false c) in
  let expected_sequence := AttachmentState.received_sequence (state c) in
  _ ← fail_if (negb (bool_decide (observed_sequence = expected_sequence)))
        (ClientError.GeometryAheadOfOutput expected_sequence observed_sequence);
  let c := set_state (AttachmentState.set_terminal_size terminal_size (state c)) c in
  Ok (emit_event (AttachmentEvent.PtyGeometryChanged terminal_size observed_sequence)
        (enqueue_presentation (PendingPresentation.Geometry observed_sequence) c)).

(** * The other messages *)

Definition lose_layout (code : ErrorCode.t) c : Controller.t :=
  if decide (code = ErrorCode.LayoutLeaseRequired)
  then set_state (AttachmentState.mark_lease_not_owned LayoutLease (state c)) c else c.

Definition process_resize_result (request_id : string) (result : PaneResizeOutcome) c : Controller.t :=
  emit_event (AttachmentEvent.PaneResizeResult request_id result)
    match result with ResizeRejected code _ => lose_layout code c | _ => c end.

Definition process_move_result (request_id : string) (result : PaneMoveOutcome) c : Controller.t :=
  emit_event (AttachmentEvent.PaneMoveResult request_id result)
    match result with MoveRejected code _ => lose_layout code c | _ => c end.

Definition process_view_message (message : ServerMessage.t) c : outcome ClientError.t Controller.t :=
  let unsupported := unexpected "a view control result supported by the selected contract" message in
  match message with
  | ServerMessage.ViewSnapshot view =>
      if supports_view_zoom (protocol_version c) then Ok (emit_event (AttachmentEvent.ViewChanged view) c) else unsupported
  | ServerMessage.PaneResizeResult request_id result =>
      if supports_pane_resize (protocol_version c) then Ok (process_resize_result request_id result c) else unsupported
  | ServerMessage.PaneMoveResult request_id result =>
      if supports_pane_moves (protocol_version c) then Ok (process_move_result request_id result c) else unsupported
  | _ => unsupported
  end.

Definition process_lease_status (lease : LeaseKind) (status : LeaseStatus.t) (notification : bool) c : Controller.t :=
  emit_event (AttachmentEvent.LeaseStatus lease status notification)
    (set_state (AttachmentState.set_lease lease status (state c)) c).

Definition process_shell_state (shell_state : ShellState.t) c : Controller.t :=
  let '(applied, cache) := ShellStateCache.apply_if_newer shell_state (AttachmentState.shell_state_cache (state c)) in
  if applied : bool then
    emit_event (AttachmentEvent.ShellStateChanged shell_state)
      (set_state (AttachmentState.set_shell_state_cache cache (state c)) c)
  else c.

Definition process_session_ended (session_id : string) (exit_code : option N) c : ControllerAction * Controller.t :=
  (Exit (ExitSessionEnded exit_code), emit_event (AttachmentEvent.SessionEnded session_id exit_code) c).

Definition process_server_error (code : ErrorCode.t) (message : string) c : outcome ClientError.t Controller.t :=
  let event := AttachmentEvent.ServerError code message in
  let lost lease := Ok (emit_event event (set_state (AttachmentState.mark_lease_not_owned lease (state c)) c)) in
  match code with
  | ErrorCode.InputLeaseRequired => lost Input
  | ErrorCode.LayoutLeaseRequired => lost LayoutLease
  | ErrorCode.InvalidRequest =>
      if supports_view_zoom (protocol_version c) then Ok (emit_event event c)
      else Err (ClientError.Server code message)
  | _ => Err (ClientError.Server code message)
  end.

(** An operation that lets the controller go on *)
Definition continuing (m : outcome ClientError.t Controller.t) : outcome ClientError.t (ControllerAction * Controller.t) :=
  c ← m; Ok (Continue, c).

Definition process_status_message (message : ServerMessage.t) c : outcome ClientError.t (ControllerAction * Controller.t) :=
  match message with
  | ServerMessage.ViewSnapshot _ | ServerMessage.PaneResizeResult _ _ | ServerMessage.PaneMoveResult _ _ =>
      continuing (process_view_message message c)
  | ServerMessage.LeaseStatus lease status notification => continuing (Ok (process_lease_status lease status notification c))
  | ServerMessage.ShellStateChanged state => continuing (Ok (process_shell_state state c))
  | ServerMessage.HeartbeatAck nonce _ => continuing (Ok (emit_event (AttachmentEvent.HeartbeatAck nonce) c))
  | ServerMessage.Detached => Ok (Exit ExitDetached, c)
  | ServerMessage.SessionEnded session_id exit_code => Ok (process_session_ended session_id exit_code c)
  | ServerMessage.Error code message => continuing (process_server_error code message c)
  | response => unexpected "output, checkpoint, pty_geometry_changed, shell_state_changed, lease_status, heartbeat_ack, detached, or session_ended" response
  end.

Section process.
Context `{HistoryCodec, RowParser}.

Definition process_server_message (message : ServerMessage.t) c : outcome ClientError.t (ControllerAction * Controller.t) :=
  match message with
  | ServerMessage.Output sequence_start sequence_end data => continuing (process_output sequence_start sequence_end data c)
  | ServerMessage.Checkpoint checkpoint history history_manifest history_gap =>
      continuing (process_checkpoint checkpoint history history_manifest history_gap c)
  | ServerMessage.HistoryPage snapshot_id offset data next_offset =>
      continuing (process_history_page snapshot_id offset data next_offset c)
  | ServerMessage.HistorySnapshotExpired snapshot_id => continuing (Ok (expire_history_transfer snapshot_id c))
  | ServerMessage.PtyGeometryChanged terminal_size observed_sequence =>
      continuing (accept_geometry_change terminal_size observed_sequence c)
  | message => process_status_message message c
  end.

(** * Acknowledgements *)

(** What an acknowledgement of the oldest presentation says: the sequence it makes safe to
    resume from, whether it applied a checkpoint, whether it could not be shown, and the
    progress the daemon is told of *)
Definition acknowledged (pending : PendingPresentation.t) (acknowledgement : PresentationAck.t) c :
    option (option N * bool * bool * option N) :=
  match pending, acknowledgement with
  | PendingPresentation.Output expected, PresentationAck.Output sequence_end =>
      if decide (sequence_end = expected) then Some (Some sequence_end, false, false, Some sequence_end) else None
  | PendingPresentation.Checkpoint expected, PresentationAck.Checkpoint sequence =>
      if decide (sequence = expected) then Some (Some sequence, true, false, Some sequence) else None
  | PendingPresentation.Checkpoint expected, PresentationAck.CheckpointIncompatible sequence =>
      if decide (sequence = expected) then Some (None, false, true, Some sequence) else None
  | PendingPresentation.Geometry expected, PresentationAck.Geometry observed_sequence =>
      if decide (observed_sequence = expected)
      then Some (AttachmentState.resume_sequence (state c), false, false, None) else None
  | PendingPresentation.Geometry expected, PresentationAck.GeometryIncompatible observed_sequence =>
      if decide (observed_sequence = expected) then Some (None, false, true, None) else None
  | _, _ => None
  end.

Definition is_checkpoint (pending : PendingPresentation.t) : bool :=
  match pending with PendingPresentation.Checkpoint _ => true | _ => false end.

Definition accept_presentation_acknowledgement (acknowledgement : PresentationAck.t) c :
    outcome ClientError.t (option N * Controller.t) :=
  match pending_presentations c with
  | [] => Err (ClientError.UnexpectedPresentationAcknowledgement "no pending presentation event"
                 (presentation_acknowledgement_name acknowledgement))
  | pending :: rest =>
      match acknowledged pending acknowledgement c with
      | None => Err (ClientError.UnexpectedPresentationAcknowledgement (pending_presentation_name pending)
                       (presentation_acknowledgement_name acknowledgement))
      | Some (acknowledged_sequence, applied_checkpoint, incompatible, delivery_progress) =>
          let requires := if applied_checkpoint : bool then false
                          else if incompatible : bool then true else renderer_requires_checkpoint c in
          let c := set_presentations requires rest c in
          let resume := if negb requires && negb (existsb is_checkpoint rest) then acknowledged_sequence else None in
          Ok (delivery_progress, set_state (AttachmentState.set_resume_sequence resume (state c)) c)
      end
  end.

(** The turn of [drive]'s loop that takes an acknowledgement; the answer to the
    presentation is that it was accepted. *)
Definition take_acknowledgement (acknowledgement : PresentationAck.t) c : outcome ClientError.t Controller.t :=
  '(applied, c) ← accept_presentation_acknowledgement acknowledgement c;
  match applied with
  | None => Ok c
  | Some applied_sequence =>
      let c := set_progress (Some applied_sequence) c in
      if negb (history_started c) &&
         match history_transfer c with
         | Some transfer => bool_decide (HistoryTransfer.sequence transfer ≤ applied_sequence)%N
         | None => false
         end
      then advance_history_transfer (set_history (history_transfer c) (pending_history c) true c)
      else Ok c
  end.

(** When the loop takes a message: the ledger has room and no history waits to be handed
    over.  ([event_capacity_available] depends on how much the presentation has received.) *)
Definition ready_for_message c : bool :=
  bool_decide (length (pending_presentations c) < event_queue_capacity c) && bool_decide (pending_history c = None).

(** The turn that hands a complete history over *)
Definition deliver_history c : Controller.t :=
  match pending_history c with
  | Some event => emit_event event (set_history (history_transfer c) None (history_started c) c)
  | None => c
  end.

Definition finish (reason : AttachExitReason) c : AttachExit.t :=
  AttachExit.Mk reason (AttachmentState.next_sequence (state c)) (AttachmentState.received_sequence (state c)).
End process.

(** * The writer *)

(** The turns of [drive_attachment_writer] that publish what the controller queued: the
    message it writes, and the channel without it *)
Definition write_progress c : option ClientMessage.t * Controller.t :=
  (ClientMessage.PresentationApplied <$> presentation_progress c, set_progress None c).

Definition write_history_request c : option ClientMessage.t * Controller.t :=
  (mjoin (history_requests c), set_history_requests None c).

(** [send_writer_heartbeat]: the messages it writes, whether a resize is still wanted, and
    the next nonce *)
Definition heartbeat_messages (state : AttachmentState.t) (options : AttachmentControllerOptions.t)
    (resize_after_layout_reacquire : bool) (heartbeat_nonce : N) : list ClientMessage.t * bool * N :=
  let owned lease := LeaseStatus.owned_by_client (AttachmentState.lease_status lease state) in
  let reacquire (wanted : bool) lease := if wanted && negb (owned lease) then [ClientMessage.AcquireLease lease] else [] in
  let '(resize, resize_after) :=
    match AttachmentControllerOptions.resize_after_layout_reacquire options with
    | Some terminal_size =>
        if resize_after_layout_reacquire && owned LayoutLease then ([ClientMessage.Resize terminal_size], false)
        else ([], resize_after_layout_reacquire)
    | None => ([], resize_after_layout_reacquire)
    end in
  let nonce := if decide (heartbeat_nonce = u64_MAX) then 0%N else (heartbeat_nonce + 1)%N in
  (reacquire (AttachmentControllerOptions.reacquire_input_lease options) Input ++
   reacquire (AttachmentControllerOptions.reacquire_layout_lease options) LayoutLease ++
   resize ++ [ClientMessage.Heartbeat nonce], resize_after, nonce).

(** Whether a resize is wanted when the writer starts *)
Definition resize_wanted (state : AttachmentState.t) (options : AttachmentControllerOptions.t) : bool :=
  AttachmentControllerOptions.reacquire_layout_lease options &&
  negb (bool_decide (AttachmentControllerOptions.resize_after_layout_reacquire options = None)) &&
  negb (LeaseStatus.owned_by_client (AttachmentState.lease_status LayoutLease state)).

(** * The reader *)

(** The check of [read_server_messages] *)
Definition readable (protocol_version : ProtocolVersion.t) (message : ServerMessage.t) : outcome ClientError.t () :=
  match message with
  | ServerMessage.HeartbeatAck _ (Some history) =>
      if negb (supports_session_statistics protocol_version)
         || bool_decide (SessionHistoryStatistics.session_id history = ""%string)
      then unexpected "heartbeat statistics supported by the selected contract with a session ID" message else Ok ()
  | _ => Ok ()
  end.
