(* ===== verification/Wire.v ===== *)
(** What a daemon's messages to one attachment look like to its client: each output frame
    starts where the one before ended, a checkpoint never lies before it, and the history
    announced with a checkpoint is the one pinned there. *)

From S2P Require Import Prelude.
From S2P Require Import Cells.
From S2P Require Import Layout.
From S2P Require Import Journal.
From S2P Require Import History.
From S2P Require Import Retention.
From S2P Require Import ShellState.
From S2P Require Import LiveTerminal.
From S2P Require Import Leases.
From S2P Require Import Sessions.
From S2P Require Import Protocol.
From S2P Require Import Messages.
From S2P Require Import Paging.
From S2P Require Import FlowControl.
From S2P Require Import Client.
From stdpp Require Import strings.
From Stdlib Require Import Init.Byte.
Import LiveAttachment.

Section wire.
Context `{HistoryCodec, Connection}.
Implicit Types (m : ServerMessage.t) (messages : list ServerMessage.t) (n : N).

(** The manifest of a transfer pinned at the checkpoint, of rows a terminal may retain *)
Definition announced (checkpoint : TerminalCheckpoint.t) (history : HistorySnapshot.t)
    (manifest : option TerminalHistoryManifest.t) : Prop :=
  match manifest with
  | None => True
  | Some manifest => ∃ now written captured rows limit styled pinned,
      PinnedHistory.new now (new_id written) captured rows limit styled = Ok (pinned, history) ∧
      manifest = PinnedHistory.manifest pinned ∧ physical_ok rows ∧
      (N.of_nat (length (PhysicalHistory.rows rows)) ≤ limit ≤ 10000)%N ∧
      HistorySnapshot.sequence captured = TerminalCheckpoint.sequence checkpoint
  end.

Definition bundled (checkpoint : TerminalCheckpoint.t) (history : HistorySnapshot.t)
    (manifest : option TerminalHistoryManifest.t) : Prop :=
  validate_checkpoint_bundle checkpoint history = Ok () ∧ announced checkpoint history manifest.

(** The message that starts a client at [n] *)
Definition opens m n : Prop :=
  match m with
  | ServerMessage.Attached _ _ _ _ replay_from _ checkpoint history manifest _ _ _ =>
      n = replay_from ∧
      match checkpoint, history with
      | Some checkpoint, Some history => TerminalCheckpoint.sequence checkpoint = n ∧ bundled checkpoint history manifest
      | None, None => manifest = None
      | _, _ => False
      end
  | _ => False
  end.

(** A message a client at [n] takes, and where it is afterwards *)
Definition sent_as n m n' : Prop :=
  match m with
  | ServerMessage.Output sequence_start sequence_end data =>
      sequence_start = n ∧ sequence_end = n' ∧ n' = (n + N.of_nat (length data))%N ∧ data ≠ [] ∧ (n' ≤ u64_MAX)%N
  | ServerMessage.Checkpoint checkpoint history manifest _ =>
      (n ≤ n')%N ∧ TerminalCheckpoint.sequence checkpoint = n' ∧ bundled checkpoint history manifest
  | m => quiet m ∧ n' = n
  end.

Inductive sends n : list ServerMessage.t → N → Prop :=
  | sends_nil : sends n [] n
  | sends_snoc messages m n1 n2 : sends n messages n1 → sent_as n1 m n2 → sends n (messages ++ [m]) n2.

Lemma sends_app n n1 n2 messages more : sends n messages n1 → sends n1 more n2 → sends n (messages ++ more) n2.
Proof.
  intros H1 H2. induction H2 as [|more m n2 n3 _ IH Hm]; [by rewrite app_nil_r|].
  rewrite app_assoc. by econstructor.
Qed.

Lemma sends_cons n messages n' : sends n messages n' →
  match messages with
  | [] => n' = n
  | m :: messages => ∃ n1, sent_as n m n1 ∧ sends n1 messages n'
  end.
Proof.
  induction 1 as [|messages m n1 n2 _ IH Hm]; [done|]. destruct messages as [|m0 messages]; simpl.
  - subst. exists n2. split; [done|constructor].
  - destruct IH as (n3 & H3 & Hs). exists n3. split; [done|by econstructor].
Qed.

Lemma sends_le n messages n' : sends n messages n' → (n ≤ n')%N.
Proof.
  induction 1 as [|messages m n1 n2 _ IH Hm]; [done|]. destruct m; simpl in Hm; try (destruct Hm; subst; done); lia.
Qed.

Lemma sends_quiet n messages : Forall quiet messages → sends n messages n.
Proof.
  induction messages as [|m messages IH] using rev_ind; [constructor|].
  intros [Hms Hm]%Forall_app. apply Forall_inv in Hm. econstructor; [by apply IH|]. destruct m; simpl in *; done.
Qed.

(** What a client has to show, in order *)
Definition presentation_of m : option PendingPresentation.t :=
  match m with
  | ServerMessage.Attached _ _ _ _ _ _ checkpoint _ _ _ _ _ =>
      PendingPresentation.Checkpoint ∘ TerminalCheckpoint.sequence <$> checkpoint
  | ServerMessage.Checkpoint checkpoint _ _ _ => Some (PendingPresentation.Checkpoint (TerminalCheckpoint.sequence checkpoint))
  | ServerMessage.Output _ sequence_end _ => Some (PendingPresentation.Output sequence_end)
  | _ => None
  end.
Definition presentations messages : list PendingPresentation.t := omap presentation_of messages.

Lemma presentations_quiet messages : Forall quiet messages → presentations messages = [].
Proof. induction 1 as [|m messages Hm _ IH]; [done|]. unfold presentations in *. simpl. by destruct m. Qed.

Lemma presentations_app messages more : presentations (messages ++ more) = presentations messages ++ presentations more.
Proof. apply omap_app. Qed.

(** What the daemon waits to hear of *)
Definition awaiting (a : LiveAttachment.t) : list PendingPresentation.t :=
  match applied_sequence a with
  | Some _ => PendingPresentation.Output ∘ OutputDelivery.sequence_end <$> in_flight_output a
  | None => [PendingPresentation.Checkpoint (sent_sequence a)]
  end.
End wire.
