(* ===== verification/FlowInv.v ===== *)
(** What flow control guarantees in every interleaving of output, changes of size,
    acknowledgements and requests: the client holds a contiguous piece of the stream that
    lies within one geometry, what it has not acknowledged stays within its window, and
    the frames in flight are accounted for exactly. *)

From S2P Require Import Prelude.
From S2P Require Import Cells.
From S2P Require Import Layout.
From S2P Require Import Journal.
From S2P Require Import History.
From S2P Require Import Retention.
From S2P Require Import ShellState.
From S2P Require Import ShellReports.
From S2P Require Import LiveTerminal.
From S2P Require Import Leases.
From S2P Require Import Sessions.
From S2P Require Import Delivery.
From S2P Require Import LiveRuns.
From S2P Require Import Protocol.
From S2P Require Import Messages.
From S2P Require Import Paging.
From S2P Require Import FlowControl.
From S2P Require Import Client.
From S2P Require Import HistorySync.
From S2P Require Import Wire.
From stdpp Require Import strings.
From Stdlib Require Import Init.Byte.
Import LiveAttachment Driver.

(** * Frames *)

Lemma coalesce_go_spec chunks max : ∀ next rest data, spells next rest chunks → length data < max →
  (next + N.of_nat (length rest) ≤ u64_MAX)%N →
  coalesce_go chunks next max data = Some (data ++ take (max - length data) rest).
Proof.
  induction chunks as [|c chunks IH]; intros next rest data Hs Hlen Hfit.
  { simpl in Hs |- *. subst. by rewrite take_nil, app_nil_r. }
  destruct Hs as (<- & Hne & more & -> & Hs). rewrite length_app in Hfit. cbn [coalesce_go].
  unfold chunk_after, OutputChunk.sequence_end. set (start := OutputChunk.sequence_start c) in *.
  assert (length (OutputChunk.data c) ≠ 0) by (by destruct (OutputChunk.data c)).
  rewrite add64_Some by lia. cbn [mbind option_bind].
  rewrite decide_False, decide_True by lia. cbn [mbind option_bind]. fold start.
  rewrite bool_decide_eq_true_2 by done. cbn [negb]. rewrite csub_Some by lia. cbn [mbind option_bind].
  rewrite add64_Some by lia. cbn [mbind option_bind].
  destruct (decide (length (OutputChunk.data c) < max - length data)) as [Hlt|Hge].
  - rewrite Nat.min_r by lia. rewrite firstn_all. rewrite decide_False by (rewrite length_app; lia).
    rewrite (IH _ _ _ Hs); [|rewrite length_app; lia|lia]. f_equal. rewrite length_app, <- app_assoc. f_equal.
    rewrite take_app_ge by lia. f_equal. f_equal. lia.
  - rewrite Nat.min_l by lia. rewrite decide_True by (rewrite length_app, length_take; lia).
    by rewrite take_app_le by lia.
Qed.

(** A frame is the beginning of what is left to send. *)
Lemma coalesce_spec chunks start bytes max : spells start bytes chunks → 0 < max →
  (start + N.of_nat (length bytes) ≤ u64_MAX)%N →
  coalesce_output_chunks chunks start max =
    Some (if decide (bytes = []) then None else Some (OutputChunk.Mk start (take max bytes))).
Proof.
  intros Hs Hmax Hfit. unfold coalesce_output_chunks. rewrite decide_False by lia.
  rewrite (coalesce_go_spec _ _ _ _ _ Hs) by (simpl; lia). cbn [mbind option_bind app length].
  rewrite Nat.sub_0_r. destruct bytes as [|b bytes]; [by rewrite take_nil|].
  rewrite (decide_False (P := b :: bytes = [])) by done. rewrite decide_False; [done|].
  by destruct max; [lia|].
Qed.

(** * What the client holds *)

(** The place it started from and the output since, or [None] when a frame did not follow
    the one before *)
Definition receive (state : option (N * list byte)) (message : ServerMessage.t) : option (N * list byte) :=
  match message with
  | ServerMessage.Attached _ _ _ _ replay_from _ _ _ _ _ _ _ => Some (replay_from, [])
  | ServerMessage.Checkpoint checkpoint _ _ _ => Some (TerminalCheckpoint.sequence checkpoint, [])
  | ServerMessage.Output sequence_start sequence_end data =>
      '(base, bytes) ← state;
      if decide (sequence_start = base + N.of_nat (length bytes) ∧
                 sequence_end = sequence_start + N.of_nat (length data))%N
      then Some (base, bytes ++ data) else None
  | _ => state
  end.
Definition received (messages : list ServerMessage.t) : option (N * list byte) := foldl receive None messages.

Lemma received_snoc messages m : received (messages ++ [m]) = receive (received messages) m.
Proof. unfold received. by rewrite foldl_app. Qed.

(** * The frames in flight *)

(** From what is acknowledged to what is sent, each frame charged for its bytes *)
Fixpoint chained (window from : N) (in_flight : list OutputDelivery.t) (sent : N) : Prop :=
  match in_flight with
  | [] => from = sent
  | delivery :: rest =>
      (from < OutputDelivery.sequence_end delivery)%N ∧
      OutputDelivery.charge_bytes delivery =
        output_frame_charge (N.to_nat (OutputDelivery.sequence_end delivery - from)) window ∧
      chained window (OutputDelivery.sequence_end delivery) rest sent
  end.

Definition charges (in_flight : list OutputDelivery.t) : N :=
  foldr (λ delivery total, OutputDelivery.charge_bytes delivery + total)%N 0%N in_flight.

Lemma chained_le window in_flight : ∀ from sent, chained window from in_flight sent → (from ≤ sent)%N.
Proof. induction in_flight as [|x l IH]; simpl; intros from sent; [lia|]. intros (? & _ & H%IH). lia. Qed.

Lemma chained_snoc window in_flight : ∀ from sent e, chained window from in_flight sent → (sent < e)%N →
  chained window from (in_flight ++ [OutputDelivery.Mk e (output_frame_charge (N.to_nat (e - sent)) window)]) e.
Proof.
  induction in_flight as [|x l IH]; simpl; intros from sent e; [by intros -> ?|].
  intros (? & ? & ?) ?. split_and!; [done|done|by apply IH].
Qed.

Lemma charges_snoc in_flight e c : charges (in_flight ++ [OutputDelivery.Mk e c]) = (charges in_flight + c)%N.
Proof. unfold charges. induction in_flight as [|x l IH]; cbn; [lia|]. rewrite IH. lia. Qed.

(** Acknowledging up to a frame leaves the frames after it. *)
Lemma pop_delivered_spec window sequence in_flight : ∀ from sent, chained window from in_flight sent →
  (from = sequence ∨ ∃ x, x ∈ in_flight ∧ OutputDelivery.sequence_end x = sequence) →
  let '(rest, charge) := pop_delivered sequence in_flight (charges in_flight) in
  chained window sequence rest sent ∧ charge = charges rest ∧ rest `suffix_of` in_flight.
Proof.
  induction in_flight as [|x l IH]; intros from sent Hc Hseq.
  { simpl in *. split_and!; [|done|done]. destruct Hseq as [<-|(x & Hx & _)]; [done|by apply elem_of_nil in Hx]. }
  destruct Hc as (Hlt & Hch & Hc). cbn [pop_delivered]. case_decide as Hle.
  - change (charges (x :: l)) with (OutputDelivery.charge_bytes x + charges l)%N.
    replace (OutputDelivery.charge_bytes x + charges l - OutputDelivery.charge_bytes x)%N with (charges l) by lia.
    specialize (IH _ _ Hc).
    assert (OutputDelivery.sequence_end x = sequence ∨ ∃ y, y ∈ l ∧ OutputDelivery.sequence_end y = sequence) as Hs.
    { destruct Hseq as [->|(y & Hy & Hys)]; [lia|]. apply elem_of_cons in Hy as [->|Hy]; [by left|right; eauto]. }
    specialize (IH Hs). destruct (pop_delivered sequence l (charges l)) as [rest charge].
    destruct IH as (? & ? & ?). split_and!; [done|done|by apply suffix_cons_r].
  - destruct Hseq as [->|(y & Hy & Hys)]; [split_and!; try done|].
    apply elem_of_cons in Hy as [->|Hy]; [lia|].
    exfalso. clear IH. revert Hle. generalize dependent (OutputDelivery.sequence_end x). intros e _ _ Hce Hge.
    assert (∀ l e, chained window e l sent → ∀ y, y ∈ l → e < OutputDelivery.sequence_end y)%N as Hall.
    { clear. intros l. induction l as [|z l IH]; intros e Hc y Hy; [by apply elem_of_nil in Hy|].
      destruct Hc as (? & _ & Hc). apply elem_of_cons in Hy as [->|Hy]; [done|]. specialize (IH _ Hc _ Hy). lia. }
    specialize (Hall _ _ Hce _ Hy). lia.
Qed.

(** The window bounds the bytes, and the number of frames. *)
Lemma chained_bounds window in_flight : ∀ from sent, chained window from in_flight sent →
  (sent - from ≤ charges in_flight)%N ∧
  (N.of_nat (length in_flight) * (window `min` MIN_OUTPUT_FRAME_CHARGE_BYTES) ≤ charges in_flight)%N.
Proof.
  induction in_flight as [|x l IH]; intros from sent; [simpl; lia|]. intros (Hlt & Hch & Hc).
  pose proof (chained_le _ _ _ _ Hc). specialize (IH _ _ Hc).
  change (charges (x :: l)) with (OutputDelivery.charge_bytes x + charges l)%N.
  rewrite Hch. unfold output_frame_charge. cbn [length]. lia.
Qed.

(** * The invariant *)

(** [m] panics only for the reason [X]; its result, when there is one, satisfies [P]. *)
Definition Holds {E A} (X : Prop) (m : outcome E A) (P : A → Prop) : Prop :=
  match m with Ok a => P a | Err _ => True | Panic => X end.

Section holds.
Context {E A B : Type}.
Implicit Types (m : outcome E A) (X Y : Prop).

Lemma Holds_bind X m (f : A → outcome E B) P R : Holds X m P → (∀ a, P a → Holds X (f a) R) → Holds X (m ≫= f) R.
Proof. destruct m; simpl; auto. Qed.

Lemma Holds_mono X Y m (P Q : A → Prop) : Holds X m P → (X → Y) → (∀ a, P a → Q a) → Holds Y m Q.
Proof. destruct m; simpl; auto. Qed.

Lemma Holds_total X m P : m ⇓? P → Holds X m P.
Proof. by destruct m. Qed.

Lemma Total_holds m P : Holds False m P → m ⇓? P.
Proof. by destruct m. Qed.
End holds.

(** A terminal with one attachment, the output so far and where its geometry changed *)
Record World := MkWorld { stream : list byte; changes : list N; driver : Driver.t }.

Section flow.
Context `{UnicodeWidth, HistoryCodec, Connection, AttachInput, HomeDirectory}.
Context (owner : TerminalOwner.t) (terminal_id : string) (capacity : nat).
Implicit Types (d : Driver.t) (data : list byte).

Definition small_frame (message : ServerMessage.t) : Prop :=
  match message with
  | ServerMessage.Output _ _ data => (0 < N.of_nat (length data) ≤ MAX_OUTPUT_FRAME_BYTES)%N
  | _ => True
  end.

(** [changes] are the places in the stream where the geometry changed. *)
Record flow_ok stream changes d : Prop := {
  f_window : window_ok capacity stream (session d);
  f_changes : match LiveTerminal.last_geometry_change_sequence (session d) with
    | Some last => last ∈ changes ∧ ∀ b, b ∈ changes → (b ≤ last)%N
    | None => changes = []
    end;
  f_limit : (1 ≤ presentation_window_bytes (attachment d))%N;
  f_progress : match applied_sequence (attachment d) with
    | Some applied => chained (presentation_window_bytes (attachment d)) applied
                        (in_flight_output (attachment d)) (sent_sequence (attachment d))
    | None => in_flight_output (attachment d) = []
    end;
  f_charge : in_flight_charge_bytes (attachment d) = charges (in_flight_output (attachment d));
  f_fits : (in_flight_charge_bytes (attachment d) ≤ presentation_window_bytes (attachment d))%N;
  f_frames : Forall small_frame (wire d);
  f_client : ∃ base bytes, received (wire d) = Some (base, bytes) ∧
    sent_sequence (attachment d) = (base + N.of_nat (length bytes))%N ∧
    (sent_sequence (attachment d) ≤ N.of_nat (length stream))%N ∧
    bytes = take (length bytes) (drop (N.to_nat base) stream) ∧
    (∀ b, b ∈ changes → (b ≤ base ∨ sent_sequence (attachment d) ≤ b)%N) ∧
    (∀ known, checkpoint_geometry_revision (attachment d) = Some known →
       (known ≤ LiveTerminal.geometry_revision (session d))%N ∧
       (known = LiveTerminal.geometry_revision (session d) → ∀ b, b ∈ changes → (b ≤ base)%N)) }.

(** What the driver does on its own: it only writes more, each message where the one before
    left the client, and waits to hear of all it wrote. *)
Definition follows d d' : Prop := ∃ more, wire d' = wire d ++ more ∧
  sends (sent_sequence (attachment d)) more (sent_sequence (attachment d')) ∧
  awaiting (attachment d') = awaiting (attachment d) ++ presentations more.

Lemma follows_refl d : follows d d.
Proof. exists []. rewrite !app_nil_r. split_and!; [done|constructor|done]. Qed.

Lemma follows_trans d1 d2 d3 : follows d1 d2 → follows d2 d3 → follows d1 d3.
Proof.
  intros (m1 & W1 & S1 & A1) (m2 & W2 & S2 & A2). exists (m1 ++ m2).
  rewrite W2, W1, A2, A1, presentations_app, !app_assoc. split_and!; [done|by eapply sends_app|done].
Qed.

(** One message *)
Lemma follows_one d d' m : wire d' = wire d ++ [m] →
  sent_as (sent_sequence (attachment d)) m (sent_sequence (attachment d')) →
  awaiting (attachment d') = awaiting (attachment d) ++ presentations [m] → follows d d'.
Proof. intros Hw Hm Ha. exists [m]. split_and!; [done| |done]. apply (sends_snoc _ [] m (sent_sequence (attachment d))); [constructor|done]. Qed.

(** ** Turns that leave the output alone *)

Record quiet_turn d d' : Prop := {
  q_session : same_window (session d) (session d');
  q_window : presentation_window_bytes (attachment d') = presentation_window_bytes (attachment d);
  q_sent : sent_sequence (attachment d') = sent_sequence (attachment d);
  q_revision : checkpoint_geometry_revision (attachment d') = checkpoint_geometry_revision (attachment d);
  q_applied : applied_sequence (attachment d') = applied_sequence (attachment d);
  q_in_flight : in_flight_output (attachment d') = in_flight_output (attachment d);
  q_charge : in_flight_charge_bytes (attachment d') = in_flight_charge_bytes (attachment d);
  q_wire : ∃ messages, Forall quiet messages ∧ wire d' = wire d ++ messages }.

Lemma received_quiet messages state : Forall quiet messages → foldl receive state messages = state.
Proof. induction 1 as [|m ms Hm _ IH]; [done|]. simpl. destruct m; done. Qed.

Lemma quiet_refl d : quiet_turn d d.
Proof. split; try done. exists []. by rewrite app_nil_r. Qed.

Lemma quiet_trans d1 d2 d3 : quiet_turn d1 d2 → quiet_turn d2 d3 → quiet_turn d1 d3.
Proof.
  intros [S1 ? ? ? ? ? ? (m1 & Hm1 & W1)] [S2 ? ? ? ? ? ? (m2 & Hm2 & W2)]. split; try congruence.
  - by eapply window_trans.
  - exists (m1 ++ m2). split; [by apply Forall_app|]. by rewrite W2, W1, app_assoc.
Qed.

Lemma flow_quiet stream changes d d' : flow_ok stream changes d → quiet_turn d d' → flow_ok stream changes d'.
Proof.
  intros [Hw Hch Hl Hp Hc Hf Hfr Hcl] [Hs E1 E2 E3 E4 E5 E6 (ms & Hms & E7)].
  split; rewrite ?E1, ?E2, ?E3, ?E4, ?E5, ?E6, ?E7; try done.
  - by eapply window_same.
  - by rewrite (same_boundary _ _ Hs).
  - apply Forall_app. split; [done|]. eapply Forall_impl; [exact Hms|]. by intros [].
  - destruct Hcl as (base & bytes & Hr & Hcl). exists base, bytes. split; [|by rewrite (same_revision _ _ Hs)].
    unfold received in *. by rewrite foldl_app, Hr, received_quiet.
Qed.

Lemma quiet_follows d d' : quiet_turn d d' → follows d d'.
Proof.
  intros [_ _ E2 _ E4 E5 _ (ms & Hms & E7)]. exists ms. unfold awaiting. rewrite E2, E4, E5, presentations_quiet, app_nil_r by done.
  split_and!; [done|by apply sends_quiet|done].
Qed.

(** What every turn keeps *)
Definition goes_on stream changes d d' : Prop := flow_ok stream changes d' ∧ follows d d'.

Lemma quiet_goes_on stream changes d d' : flow_ok stream changes d → quiet_turn d d' → goes_on stream changes d d'.
Proof. intros Hf Hq. split; [by eapply flow_quiet|by apply quiet_follows]. Qed.

Lemma goes_on_trans stream changes d1 d2 d3 : follows d1 d2 → goes_on stream changes d2 d3 → goes_on stream changes d1 d3.
Proof. intros H12 [Hf H23]. split; [done|by eapply follows_trans]. Qed.

Lemma write_spec message d : write_before_deadline message d ⇓? λ '(written, d'),
  d' = if written : bool then set_wire (wire d ++ [message]) d else d.
Proof. unfold write_before_deadline. by destruct (write_frame _ _). Qed.

Lemma write_quiet message d : quiet message → write_before_deadline message d ⇓? λ '(_, d'), quiet_turn d d'.
Proof.
  intros Hq. eapply Total_mono; [apply write_spec|]. intros [[] d'] ->; [|apply quiet_refl].
  split; try done. exists [message]. split; [by constructor|done].
Qed.

(** ** Checkpoints *)

Lemma scrollback_bound size : (N.of_nat (terminal_scrollback_rows size) ≤ 10000)%N.
Proof. unfold terminal_scrollback_rows, TERMINAL_SCROLLBACK_MAX_ROWS. lia. Qed.

(** What is sent for a captured checkpoint: the same place, in formats the client knows,
    with the history pinned there *)
Lemma pin_spec time id version snapshot c : AttachSnapshot.checkpoint snapshot = Some (GeometryCheckpoint.checkpoint c) →
  AttachSnapshot.checkpoint_keyboard_prefix_bytes snapshot = GeometryCheckpoint.checkpoint_keyboard_prefix_bytes c →
  AttachSnapshot.history snapshot = Some (GeometryCheckpoint.history c) →
  AttachSnapshot.history_rows snapshot = Some (GeometryCheckpoint.history_rows c) →
  AttachSnapshot.scrollback_limit snapshot =
    N.of_nat (terminal_scrollback_rows (TerminalCheckpoint.terminal_size (GeometryCheckpoint.checkpoint c))) →
  captured_ok c → (∃ written, id = new_id written) →
  pin_snapshot_history time id version snapshot ⇓? λ '(pinned, snapshot'), ∃ checkpoint history,
    AttachSnapshot.checkpoint snapshot' = Some checkpoint ∧ AttachSnapshot.history snapshot' = Some history ∧
    TerminalCheckpoint.sequence checkpoint = sequence_of c ∧
    bundled checkpoint history (PinnedHistory.manifest <$> pinned) ∧
    AttachSnapshot.checkpoint_geometry_revision snapshot' = AttachSnapshot.checkpoint_geometry_revision snapshot ∧
    AttachSnapshot.journal snapshot' = AttachSnapshot.journal snapshot.
Proof.
  intros Ec Ep Eh Erows El Hc [written ->]. unfold pin_snapshot_history.
  destruct (captured_formats _ Hc) as (Ef & Ev & Ehf & Ehv).
  assert (∃ snapshot1 checkpoint, project_checkpoint_for_contract version snapshot = Some snapshot1 ∧
    AttachSnapshot.checkpoint snapshot1 = Some checkpoint ∧ TerminalCheckpoint.sequence checkpoint = sequence_of c ∧
    validate_checkpoint checkpoint = Ok () ∧ AttachSnapshot.history snapshot1 = Some (GeometryCheckpoint.history c) ∧
    AttachSnapshot.history_rows snapshot1 = Some (GeometryCheckpoint.history_rows c) ∧
    AttachSnapshot.scrollback_limit snapshot1 = AttachSnapshot.scrollback_limit snapshot ∧
    AttachSnapshot.checkpoint_geometry_revision snapshot1 = AttachSnapshot.checkpoint_geometry_revision snapshot ∧
    AttachSnapshot.journal snapshot1 = AttachSnapshot.journal snapshot)
    as (snapshot1 & checkpoint & -> & Hsc & Hseq & Hv & Hsh & Hrows & Hl & Hsr & Hsj).
  { unfold project_checkpoint_for_contract, validate_checkpoint, checkpoint_is_supported. destruct (supports_extended_keys version).
    { do 2 eexists. split_and!; [done|exact Ec|done| |done..]. by rewrite Ef, Ev, !bool_decide_eq_true_2. }
    rewrite Ec, Ep. pose proof (encode_prefix _ Hc). rewrite decide_True by done. cbn [mbind option_bind].
    do 2 eexists. split_and!; [done|cbn; done|done| |done..]. cbn. by rewrite Ef, Ev, !bool_decide_eq_true_2. }
  assert (∀ history, HistorySnapshot.format history = TERMINAL_HISTORY_FORMAT →
    HistorySnapshot.format_version history = TERMINAL_HISTORY_FORMAT_VERSION →
    HistorySnapshot.sequence history = sequence_of c → validate_checkpoint_bundle checkpoint history = Ok ()) as Hbundle.
  { intros history E1 E2 E3. unfold validate_checkpoint_bundle, history_is_supported. rewrite Hv, E1, E2, E3, Hseq.
    cbn [mbind outcome_bind]. by rewrite !bool_decide_eq_true_2. }
  cbn [expect mbind outcome_bind]. case_decide.
  { cbn. exists checkpoint, (GeometryCheckpoint.history c). split_and!; try done.
    split; [|done]. apply Hbundle; [done|done|apply Hc]. }
  rewrite Hsh, Hrows, Hl, El. cbn [default].
  pose proof (new_spec time (new_id written) (GeometryCheckpoint.history c) (GeometryCheckpoint.history_rows c)
    (N.of_nat (terminal_scrollback_rows (TerminalCheckpoint.terminal_size (GeometryCheckpoint.checkpoint c))))
    (supports_styled_history version)) as Hnew.
  destruct (PinnedHistory.new _ _ _ _ _ _) as [[pinned recent]|e|] eqn:En; cbn [map_error]; [|done|done].
  destruct (new_announces _ _ _ _ _ _ _ _ (captured_physical _ Hc) En) as (_ & _ & _ & _ & _ & _ & _ & _ & _ & _ & _ & E1 & E2 & E3 & _).
  cbn. exists checkpoint, recent. split_and!; try done. split.
  - apply Hbundle; [by rewrite E1|by rewrite E2|by rewrite E3; apply Hc].
  - cbn. exists time, written, (GeometryCheckpoint.history c), (GeometryCheckpoint.history_rows c).
    do 3 eexists. split_and!; [exact En|done|apply Hc| |apply scrollback_bound|].
    + pose proof (captured_limit _ Hc). lia.
    + rewrite Hseq. apply Hc.
Qed.

Lemma changes_before stream changes d base : flow_ok stream changes d →
  (∀ last, LiveTerminal.last_geometry_change_sequence (session d) = Some last → (last ≤ base)%N) →
  ∀ b, b ∈ changes → (b ≤ base)%N.
Proof.
  intros [_ Hch _ _ _ _ _ _] Hlast b Hb.
  destruct (LiveTerminal.last_geometry_change_sequence (session d)) as [last|].
  - destruct Hch as [_ Hle]. specialize (Hle _ Hb). specialize (Hlast _ eq_refl). lia.
  - subst. by apply elem_of_nil in Hb.
Qed.

Lemma send_checkpoint_flow stream changes requested revision snapshot d : flow_ok stream changes d →
  in_flight_output (attachment d) = [] → is_Some (applied_sequence (attachment d)) →
  (sent_sequence (attachment d) ≤ replay_of snapshot)%N →
  delivers stream (session d) requested revision snapshot →
  is_Some (AttachSnapshot.checkpoint snapshot) →
  send_checkpoint snapshot d ⇓? λ '(sent, d'), goes_on stream changes d d' ∧ session d' = session d ∧
    (sent = true → sent_sequence (attachment d') = replay_of snapshot ∧ applied_sequence (attachment d') = None ∧
       checkpoint_geometry_revision (attachment d') = Some (LiveTerminal.geometry_revision (session d))).
Proof.
  intros Hf Hidle [applied Ea] Hahead Hd [checkpoint Ec]. pose proof (d_checkpoint _ _ _ _ _ Hd) as Hc. rewrite Ec in Hc.
  destruct Hc as (c & <- & Hc & Hseq & Ep & Er & Hlast & Eh & Erows & El).
  unfold send_checkpoint. eapply Total_bind; [eapply pin_spec; [done..|by eexists]|].
  intros [pinned snapshot1] (checkpoint1 & history & Ec1 & Eh1 & Hseq1 & Hbundle & Er1 & Ej1). simpl.
  rewrite Ec1, Eh1. cbn [expect mbind outcome_bind].
  eapply Total_bind; [apply write_spec|]. intros [[] d'] ->; simpl; [|by split_and!; [split; [done|apply follows_refl]|..]].
  rewrite Er1, Er. unfold sequence_of in Hseq1. rewrite Hseq in Hseq1. split; [|by rewrite Hseq1].
  pose proof (changes_before _ _ _ (replay_of snapshot) Hf Hlast) as Hb.
  destruct Hf as [Hw Hch Hl Hp Hcg Hft Hfr Hcl]. split.
  2:{ eapply follows_one; [done|cbn; rewrite Hseq1; by split_and!|]. unfold awaiting. cbn. by rewrite Ea, Hidle. }
  split; cbn; try done.
  - apply Forall_app. split; [done|]. by constructor.
  - exists (TerminalCheckpoint.sequence checkpoint1), []. rewrite Hseq1. split_and!.
    + by rewrite received_snoc, <- Hseq1.
    + simpl. lia.
    + apply Hd.
    + done.
    + intros b Hin. left. by apply Hb.
    + intros known [= <-]. split; [lia|]. by intros _.
Qed.

Lemma send_pass_flow stream changes d : flow_ok stream changes d → is_Some (applied_sequence (attachment d)) →
  send_pass owner terminal_id d ⇓? λ '(result, d'), goes_on stream changes d d' ∧
    session d' = session d ∧
    (result = None → is_Some (applied_sequence (attachment d')) ∧ (sent_sequence (attachment d) < sent_sequence (attachment d'))%N).
Proof.
  intros Hf [applied Ea]. assert (goes_on stream changes d d) as Hstay by (split; [done|apply follows_refl]).
  unfold send_pass. case_decide as Hfull; [done|].
  pose proof (snapshot_delivers capacity stream owner terminal_id (Some (sent_sequence (attachment d)))
    (checkpoint_geometry_revision (attachment d)) _ (f_window _ _ _ Hf)) as Hs.
  destruct (f_client _ _ _ Hf) as (base & bytes & Hr & Hsent & Hpast & Hbytes & Hgeo & Hknown).
  destruct (snapshot_for_delivery _ _ _ _ _) as [[[q next]|snapshot]|]; simpl in Hs |- *; [|simpl|done].
  { destruct Hs as ([= <-] & -> & Hlt). lia. }
  destruct (AttachSnapshot.checkpoint snapshot) as [checkpoint|] eqn:Ec.
  { case_decide as Hidle; [|done].
    eapply Total_bind; [eapply send_checkpoint_flow; [done|done|by rewrite Ea|by apply (d_ahead _ _ _ _ _ Hs)|done|by rewrite Ec]|].
    intros [sent d'] (Hf' & Es & _). done. }
  pose proof (d_checkpoint _ _ _ _ _ Hs) as Hc. rewrite Ec in Hc. destruct Hc as ([= Ereplay] & _ & _ & Hreq).
  pose proof (d_chunks _ _ _ _ _ Hs) as Hspell. unfold replay_of in *. rewrite <- Ereplay in Hspell.
  pose proof (j_fits _ _ _ (w_journal _ _ _ (f_window _ _ _ Hf))) as Hfit.
  set (available := (presentation_window_bytes (attachment d) - in_flight_charge_bytes (attachment d))%N) in *.
  set (limit := N.to_nat (available `min` MAX_OUTPUT_FRAME_BYTES)%N).
  assert (0 < limit) as Hlimit by (unfold limit, MAX_OUTPUT_FRAME_BYTES; lia).
  rewrite (coalesce_spec _ _ _ _ Hspell Hlimit) by (rewrite length_drop; lia). cbn [expect mbind outcome_bind].
  case_decide as Hrest; [done|].
  set (rest := drop (N.to_nat (sent_sequence (attachment d))) stream) in *.
  assert (length rest = length stream - N.to_nat (sent_sequence (attachment d))) as Hlen by (unfold rest; apply length_drop).
  assert (length rest ≠ 0) by (by destruct rest).
  assert (0 < length (take limit rest)) as Hframe by (rewrite length_take; lia).
  unfold OutputChunk.sequence_end. cbn [OutputChunk.sequence_start OutputChunk.data].
  rewrite add64_Some by (rewrite length_take; lia). cbn [expect mbind outcome_bind].
  set (charge := output_frame_charge _ _).
  set (e := (sent_sequence (attachment d) + N.of_nat (length (take limit rest)))%N).
  case_decide as Hover; [done|].
  eapply Total_bind; [apply write_spec|]. intros [[] d'] ->; simpl; [|done].
  split; [|split; [done|intros _; split; [by rewrite Ea|unfold e; lia]]].
  assert (∀ b, b ∈ changes → (b ≤ base)%N) as Hbefore.
  { intros b Hb. pose proof (f_changes _ _ _ Hf) as Hch. specialize (Hreq _ eq_refl). unfold knows_size in Hreq.
    destruct (LiveTerminal.last_geometry_change_sequence (session d)) as [last|]; [|subst changes; by apply elem_of_nil in Hb].
    destruct Hch as [Hin Hmax]. specialize (Hmax _ Hb). destruct (Hreq _ eq_refl) as [Hlt|(known & E & Hle)].
    - destruct (Hgeo _ Hb); lia.
    - destruct (Hknown _ E) as [Hle' Hk]. apply Hk; [lia|done]. }
  destruct Hf as [Hw Hch Hl Hp Hcg Hft Hfr _]. rewrite Ea in Hp. split.
  2:{ eapply follows_one; [done| |unfold awaiting; cbn; by rewrite Ea, fmap_app].
      cbn. split_and!; try done; [by intros E; rewrite E in Hframe; simpl in Hframe; lia|unfold e; rewrite length_take; lia]. }
  split; cbn; try done.
  - rewrite Ea. replace (take limit rest) with (take limit rest) by done.
    replace charge with (output_frame_charge (N.to_nat (e - sent_sequence (attachment d))) (presentation_window_bytes (attachment d))).
    { apply chained_snoc; [done|unfold e; lia]. }
    unfold charge. f_equal. unfold e. lia.
  - by rewrite charges_snoc, Hcg.
  - lia.
  - apply Forall_app. split; [done|]. constructor; [|done]. simpl. rewrite length_take in *. unfold limit. lia.
  - exists base, (bytes ++ take limit rest). rewrite received_snoc, Hr. cbn [receive mbind option_bind].
    rewrite decide_True by (split; [done|done]). rewrite length_app, length_take. split_and!.
    + done.
    + unfold e. rewrite length_take. lia.
    + unfold e. rewrite length_take. lia.
    + rewrite <- take_take_drop. f_equal; [exact Hbytes|]. rewrite drop_drop.
      replace (N.to_nat base + length bytes) with (N.to_nat (sent_sequence (attachment d))) by lia. fold rest.
      rewrite <- (firstn_all rest) at 1. by rewrite take_take.
    + intros b Hb. left. by apply Hbefore.
    + intros known Ek. split; [by apply Hknown|]. intros _. exact Hbefore.
Qed.

Lemma unsent_spec stream changes d : flow_ok stream changes d →
  unsent d = length stream - N.to_nat (sent_sequence (attachment d)).
Proof.
  intros Hf. unfold unsent. destruct (earliest_le_next _ _ _ (w_journal _ _ _ (f_window _ _ _ Hf))) as [_ ->]. lia.
Qed.

Lemma send_loop_flow stream changes fuel : ∀ d, flow_ok stream changes d → is_Some (applied_sequence (attachment d)) →
  unsent d < fuel → send_loop owner terminal_id fuel d ⇓? λ '(_, d'), goes_on stream changes d d' ∧ session d' = session d.
Proof.
  induction fuel as [|fuel IH]; intros d Hf Ha Hfuel; [lia|]. cbn [send_loop].
  eapply Total_bind; [by apply (send_pass_flow stream changes)|].
  intros [[result|] d1] ([Hf1 Hg1] & Es & Hnext); simpl; [done|].
  destruct (Hnext eq_refl) as [Ha1 Hlt]. rewrite (unsent_spec _ _ _ Hf) in Hfuel.
  destruct (f_client _ _ _ Hf1) as (_ & _ & _ & _ & Hpast & _).
  eapply Total_mono; [apply IH; [done|done|]|].
  - rewrite (unsent_spec _ _ _ Hf1). lia.
  - intros [r d2] [? ?]. split; [by eapply goes_on_trans|congruence].
Qed.

(** ** The terminal moves on *)

Definition changes_after (s s' : LiveTerminal.t) (stream' : list byte) changes : list N :=
  if decide (LiveTerminal.geometry_revision s' = LiveTerminal.geometry_revision s) then changes
  else N.of_nat (length stream') :: changes.

Lemma flow_session stream changes stream' s' d : flow_ok stream changes d → window_ok capacity stream' s' →
  advances (session d) stream s' stream' →
  flow_ok stream' (changes_after (session d) s' stream' changes) (set_session s' d).
Proof.
  intros [Hw Hch Hl Hp Hcg Hft Hfr (base & bytes & Hr & Hsent & Hpast & Hbytes & Hgeo & Hknown)] Hw' [[more ->] Hadv].
  assert (sent_sequence (attachment d) ≤ N.of_nat (length (stream ++ more)))%N as Hpast' by (rewrite length_app; lia).
  assert (bytes = take (length bytes) (drop (N.to_nat base) (stream ++ more))) as Hbytes'.
  { rewrite drop_app_le, take_app_le by (rewrite ?length_drop; lia). done. }
  unfold changes_after. destruct Hadv as [[Eg Eb]|[Eg Eb]].
  - rewrite decide_True by done. split; cbn; try done; [by rewrite Eb|].
    exists base, bytes. by rewrite Eg.
  - rewrite decide_False by lia. split; cbn; try done.
    + rewrite Eb. split; [by left|]. intros b Hb. apply elem_of_cons in Hb as [->|Hb]; [lia|].
      destruct (LiveTerminal.last_geometry_change_sequence (session d)) as [last|] eqn:El.
      * destruct Hch as [_ Hmax]. specialize (Hmax _ Hb).
        pose proof (w_boundary _ _ _ Hw) as Hbd. rewrite El in Hbd.
        destruct (LiveTerminal.last_geometry_checkpoint (session d)); [|done].
        destruct Hbd as (_ & ? & _). pose proof (w_past _ _ _ Hw). rewrite length_app. lia.
      * subst. by apply elem_of_nil in Hb.
    + exists base, bytes. split_and!; try done.
      * intros b Hb. apply elem_of_cons in Hb as [->|Hb]; [by right|by apply Hgeo].
      * intros known Ek. destruct (Hknown _ Ek). rewrite Eg. split; lia.
Qed.

(** A fresh checkpoint could not be taken. *)
Definition stuck d : Prop := LiveTerminal.refresh_checkpoint (session d) = None.

(** A fresh snapshot is one of a checkpoint at the end of the stream. *)
Definition refreshed s' d : Driver.t := set_attachment (set_pending_checkpoint false (attachment d)) (set_session s' d).

Lemma fresh_flow stream changes s' d : flow_ok stream changes d → LiveTerminal.refresh_checkpoint (session d) = Some s' →
  ∃ snapshot, fresh_snapshot owner terminal_id (session d) = Some (inr snapshot, s') ∧
    snapshot_for_delivery owner terminal_id None None s' = Some (inr snapshot) ∧
    flow_ok stream changes (refreshed s' d) ∧ delivers stream s' None None snapshot ∧
    replay_of snapshot = N.of_nat (length stream) ∧ is_Some (AttachSnapshot.checkpoint snapshot).
Proof.
  intros Hf Es. unfold fresh_snapshot. rewrite Es.
  destruct (Partial_elim _ _ _ (refresh_session capacity _ _ (f_window _ _ _ Hf)) Es) as (Hw' & Eg & Eb).
  cbn [mbind option_bind].
  destruct (Safe_elim _ _ (snapshot_delivers capacity stream owner terminal_id None None s' Hw')) as (r & Er & Hr).
  rewrite Er. cbn [mbind option_bind]. destruct r as [[q next]|snapshot]; simpl in Hr; [by destruct Hr|].
  exists snapshot. split_and!; [done|done| |done| |].
  - assert (flow_ok stream changes (set_session s' d)) as Hf'.
    { pose proof (flow_session stream changes stream s' d Hf Hw') as Hs. unfold changes_after in Hs.
      rewrite decide_True in Hs by done. apply Hs. split; [done|by left]. }
    eapply flow_quiet; [exact Hf'|]. split; try done. exists []. by rewrite app_nil_r.
  - by apply (fresh_at_end capacity stream _ _ _ _ _ (f_window _ _ _ Hf) Hw' Es Er).
  - pose proof (d_checkpoint _ _ _ _ _ Hr) as Hc. destruct (AttachSnapshot.checkpoint snapshot); [eauto|]. by destruct Hc as (? & _).
Qed.

Lemma send_available_flow stream changes d : flow_ok stream changes d →
  Holds (stuck d) (send_available_output owner terminal_id d) (λ '(_, d'), goes_on stream changes d d').
Proof.
  intros Hf. unfold send_available_output. case_decide as Ha; [split; [done|apply follows_refl]|].
  assert (Holds (stuck d) (send_loop owner terminal_id (S (unsent d)) d) (λ '(_, d'), goes_on stream changes d d')) as Hloop.
  { apply Holds_total. eapply Total_mono; [apply (send_loop_flow stream changes); [done|by destruct (applied_sequence _)|lia]|].
    by intros [r d'] [? _]. }
  destruct (pending_checkpoint (attachment d) && _) eqn:Hp; [|exact Hloop].
  apply andb_true_iff in Hp as [_ Hidle%bool_decide_eq_true].
  destruct (LiveTerminal.refresh_checkpoint (session d)) as [s'|] eqn:Es; [|unfold fresh_snapshot; by rewrite Es].
  destruct (fresh_flow _ _ _ _ Hf Es) as (snapshot & -> & _ & Hf1 & Hr & Eend & Hck). simpl. apply Holds_total. fold (refreshed s' d).
  eapply Total_mono; [eapply send_checkpoint_flow; [exact Hf1|done| | |exact Hr|done]|by intros [? ?] [? _]].
  - simpl. by destruct (applied_sequence (attachment d)).
  - rewrite Eend. destruct (f_client _ _ _ Hf1) as (base & bytes & _ & _ & ? & _). done.
Qed.

(** ** Acknowledgements *)

Lemma accept_flow stream changes sequence d : flow_ok stream changes d →
  accept_presentation_progress sequence (attachment d) ⇓? λ a, flow_ok stream changes (set_attachment a d) ∧
    applied_sequence a = Some sequence ∧ sent_sequence a = sent_sequence (attachment d) ∧
    pending_checkpoint a = pending_checkpoint (attachment d).
Proof.
  intros [Hw Hch Hl Hp Hcg Hft Hfr Hcl]. unfold accept_presentation_progress. rewrite Hcg.
  assert (∀ from, chained (presentation_window_bytes (attachment d)) from (in_flight_output (attachment d)) (sent_sequence (attachment d)) →
    (from = sequence ∨ ∃ x, x ∈ in_flight_output (attachment d) ∧ OutputDelivery.sequence_end x = sequence) →
    (let '(in_flight, charge) := pop_delivered sequence (in_flight_output (attachment d)) (charges (in_flight_output (attachment d))) in
     Ok (E := string) (set_progress (Some sequence) in_flight charge (attachment d))) ⇓? λ a, flow_ok stream changes (set_attachment a d) ∧
      applied_sequence a = Some sequence ∧ sent_sequence a = sent_sequence (attachment d) ∧
      pending_checkpoint a = pending_checkpoint (attachment d)) as Hpop.
  { intros from Hc Hseq. pose proof (pop_delivered_spec _ _ _ _ _ Hc Hseq) as Hpop.
    destruct (pop_delivered _ _ _) as [rest charge]. destruct Hpop as (Hc' & -> & [gone Eg]). simpl.
    split; [|done]. split; cbn -[presentations awaiting]; try done.
    rewrite Hcg in Hft. rewrite Eg in Hft. clear -Hft. unfold charges in *.
    rewrite foldr_app in Hft. revert Hft. generalize (foldr (λ x total, OutputDelivery.charge_bytes x + total)%N 0%N rest).
    intros n. induction gone as [|x gone IH]; simpl; [done|]. intros. apply IH. lia. }
  case_decide; [done|].
  destruct (applied_sequence (attachment d)) as [applied|] eqn:Ea.
  - case_decide; [done|]. case_decide as Heq.
    { split; [|by subst]. split; cbn -[presentations awaiting]; try done. by rewrite Ea. }
    destruct (existsb _ _) eqn:Hex; cbn [negb]; [|done]. apply (Hpop applied Hp).
    apply existsb_exists in Hex as (x & Hx%list_elem_of_In & Hs%bool_decide_eq_true). eauto.
  - rewrite Hp in *. destruct (bool_decide (sequence = _)) eqn:Hs; cbn [negb orb]; [|done].
    apply bool_decide_eq_true in Hs as ->. rewrite bool_decide_eq_true_2 by done. cbn [negb].
    apply (Hpop (sent_sequence (attachment d))); [done|by left].
Qed.

(** ** Every turn of the driver *)

Lemma renew_quiet d : quiet_turn d (renew_liveness d).
Proof. unfold renew_liveness. case_decide; [|apply quiet_refl]. split; try done. exists []. by rewrite app_nil_r. Qed.

Lemma renew_session d : session (renew_liveness d) = session d.
Proof. unfold renew_liveness. by case_decide. Qed.

Ltac quiet_fields := split; try done; exists []; by rewrite app_nil_r.

Lemma shell_snapshot_quiet state force d : write_shell_state_snapshot state force d ⇓? λ '(_, d'), quiet_turn d d'.
Proof.
  unfold write_shell_state_snapshot. destruct (_ && _); [apply quiet_refl|].
  eapply Total_mono; [by apply write_quiet|]. intros [r d'] Hq. eapply quiet_trans; [|exact Hq]. quiet_fields.
Qed.

Lemma forward_quiet message d : forward_message message d ⇓? λ '(_, d'), quiet_turn d d'.
Proof.
  unfold forward_message. destruct (input_reply _ _) as [reply|] eqn:E; [|apply quiet_refl].
  apply write_quiet. by eapply input_reply_quiet.
Qed.

Lemma geometry_flow stream changes size observed revision d : flow_ok stream changes d →
  Holds (stuck d) (process_geometry_change owner terminal_id size observed revision d) (λ '(_, d'), goes_on stream changes d d').
Proof.
  intros Hf. unfold process_geometry_change. destruct (geometry_event_is_stale _ _ _ _); [|by apply send_available_flow].
  split; [done|apply follows_refl].
Qed.

Lemma event_flow stream changes event d : flow_ok stream changes d →
  Holds (stuck d) (process_session_event owner terminal_id event d) (λ '(_, d'), goes_on stream changes d d').
Proof.
  intros Hf. destruct event as [[| | ]| |]; simpl.
  - by apply send_available_flow.
  - by apply geometry_flow.
  - set (d1 := set_pending_session_end _ d). change (stuck d) with (stuck d1).
    assert (goes_on stream changes d d1) as [Hf1 Hg1] by (apply quiet_goes_on; [done|quiet_fields]).
    eapply Holds_mono; [by apply send_available_flow|done|]. intros [r d2]. by apply goes_on_trans.
  - eapply Holds_bind; [by apply send_available_flow|]. intros [[] d'] [Hf' Hg']; simpl; [|done]. apply Holds_total.
    eapply Total_mono; [apply shell_snapshot_quiet|]. intros [r d2] Hq. eapply goes_on_trans; [done|by apply quiet_goes_on].
  - split; [done|apply follows_refl].
Qed.

(** A request of the client: the driver takes an acknowledgement or not, and goes on. *)
Lemma client_flow stream changes message d : flow_ok stream changes d →
  Holds (stuck d) (process_client_message owner terminal_id message d) (λ '(_, d'),
    match message with
    | ClientMessage.PresentationApplied sequence => ∀ a, accept_presentation_progress sequence (attachment d) = Ok a →
        (deadline d ≤ now d)%N ∧ d' = d ∨ flow_ok stream changes (set_attachment a d) ∧ goes_on stream changes (set_attachment a d) d'
    | _ => goes_on stream changes d d'
    end ∧ flow_ok stream changes d').
Proof.
  intros Hf. unfold process_client_message. case_decide.
  { split; [|done]. destruct message; try (split; [done|apply follows_refl]). intros a _. by left. }
  assert (∀ text d1, goes_on stream changes d d1 → Holds (stuck d) (write_error text d1) (λ '(_, d'), goes_on stream changes d d')) as Herror.
  { intros text d1 [Hf1 Hg1]. apply Holds_total. eapply Total_mono; [by apply write_quiet|]. intros [r d'] Hq.
    eapply goes_on_trans; [done|by apply quiet_goes_on]. }
  assert (∀ a, flow_ok stream changes (set_attachment a d) →
    Holds (stuck d) (send_available_output owner terminal_id (renew_liveness (set_attachment a d)))
      (λ '(_, d'), goes_on stream changes (set_attachment a d) d')) as Hsend.
  { intros a Ha. pose proof (quiet_goes_on _ _ _ _ Ha (renew_quiet _)) as [Ha1 Hg1].
    eapply Holds_mono; [by apply send_available_flow| |].
    - unfold stuck. by rewrite renew_session.
    - intros [r d']. by apply goes_on_trans. }
  assert (goes_on stream changes d d) as Hstay by (split; [done|apply follows_refl]).
  assert (goes_on stream changes d (renew_liveness d)) as Hrenew by (apply quiet_goes_on; [done|apply renew_quiet]).
  assert (∀ m, Holds (stuck d) (forward_message m (if renews_attachment_liveness m then renew_liveness d else d))
    (λ '(_, d'), goes_on stream changes d d')) as Hforward.
  { intros m. apply Holds_total. eapply Total_mono; [apply forward_quiet|]. intros [r d'] Hq. apply quiet_goes_on; [done|].
    eapply quiet_trans; [|exact Hq]. destruct (renews_attachment_liveness m); [apply renew_quiet|apply quiet_refl]. }
  assert (∀ m : outcome ConnectionError (bool * Driver.t), Holds (stuck d) m (λ '(_, d'), goes_on stream changes d d') →
    Holds (stuck d) m (λ '(_, d'), goes_on stream changes d d' ∧ flow_ok stream changes d')) as Hboth.
  { intros m Hm. eapply Holds_mono; [exact Hm|done|]. intros [r d'] Hg. split; [done|apply Hg]. }
  destruct message; try apply Hboth, Hforward.
  - pose proof (accept_flow stream changes sequence d Hf) as Ha.
    destruct (accept_presentation_progress _ _) as [a|text|] eqn:Eacc; [| |done].
    + destruct Ha as (Ha & _). eapply Holds_mono; [by apply Hsend|done|]. intros [r d'] Hg. split; [|apply Hg].
      intros a' [= <-]. by right.
    + eapply Holds_mono; [by apply Herror|done|]. intros [r d'] Hg. split; [done|apply Hg].
  - apply Hboth. case_decide; [by apply Herror|]. destruct (pending_history _); [by apply Herror|].
    eapply goes_on_trans; [apply Hrenew|]. apply quiet_goes_on; [apply Hrenew|]. quiet_fields.
  - apply Hboth. case_decide; [by apply Herror|].
    assert (goes_on stream changes d (set_attachment (set_pending_checkpoint true (attachment d)) d)) as [Hf1 Hg1]
      by (apply quiet_goes_on; [done|quiet_fields]).
    eapply Holds_mono; [by apply Hsend|done|]. intros [r d']. by apply goes_on_trans.
  - apply Hboth. exact Hrenew.
Qed.

Lemma page_flow stream changes d : flow_ok stream changes d →
  send_history_page d ⇓? λ '(_, d'), goes_on stream changes d d'.
Proof.
  intros Hf. unfold send_history_page. destruct (pending_history _) as [request|]; [|split; [done|apply follows_refl]].
  assert (∃ response pinned, match pinned_history (attachment d) with
    | None => (Ok (ServerMessage.HistorySnapshotExpired (HistoryRequest.snapshot_id request)), None)
    | Some pinned => let '(r, pinned) := PinnedHistory.page (now d) request pinned in (r, Some pinned)
    end = (response, pinned) ∧ match response with Ok m => quiet m | Err _ => True | Panic => False end) as (response & pinned & -> & Hq).
  { destruct (pinned_history (attachment d)) as [pinned|]; [|by do 2 eexists].
    unfold PinnedHistory.page. repeat (destruct (_ || _); [by do 2 eexists|]). by do 2 eexists. }
  destruct response as [m|code|]; [| |done]; cbn [mbind outcome_bind].
  all: eapply Total_mono; [by apply write_quiet|]; intros [r d'] Hd.
  all: apply quiet_goes_on; [done|]; eapply quiet_trans; [|exact Hd]; quiet_fields.
Qed.

Lemma serve_flow stream changes d : flow_ok stream changes d →
  Holds (stuck d) (serve_history owner terminal_id d) (λ '(_, d'), goes_on stream changes d d').
Proof.
  intros Hf. unfold serve_history. eapply Holds_bind; [by apply send_available_flow|].
  intros [[] d'] [Hf' Hg']; simpl; [|done]. apply Holds_total. eapply Total_mono; [by apply page_flow|].
  intros [r d2]. by apply goes_on_trans.
Qed.

Lemma end_flow stream changes d : flow_ok stream changes d →
  send_session_end_if_drained owner d ⇓? λ '(_, d'), goes_on stream changes d d'.
Proof.
  intros Hf. assert (goes_on stream changes d d) as Hstay by (split; [done|apply follows_refl]).
  unfold send_session_end_if_drained. destruct (pending_session_end d) as [ended|]; [|done].
  case_decide; [done|]. destruct (match pinned_history _ with Some _ => _ | None => _ end); [done|].
  eapply Total_bind; [apply shell_snapshot_quiet|]. intros [[] d'] Hq; simpl; [|by apply quiet_goes_on].
  eapply Total_bind; [by apply write_quiet|]. intros [r d2] Hq2. simpl.
  apply quiet_goes_on; [done|]. by eapply quiet_trans.
Qed.

Lemma update_flow stream changes d : flow_ok stream changes d →
  process_shell_state_update d ⇓? λ '(_, d'), goes_on stream changes d d'.
Proof.
  intros Hf. unfold process_shell_state_update. case_bool_decide; [split; [done|apply follows_refl]|].
  eapply Total_mono; [apply shell_snapshot_quiet|]. intros [r d'] Hq. by apply quiet_goes_on.
Qed.

Lemma drop_flow stream changes d : flow_ok stream changes d → goes_on stream changes d (drop_expired_history d).
Proof.
  intros Hf. unfold drop_expired_history. destruct (pinned_history _); [|split; [done|apply follows_refl]].
  destruct (PinnedHistory.expired _ _); [|split; [done|apply follows_refl]]. apply quiet_goes_on; [done|]. quiet_fields.
Qed.

(** A turn: one pass of the output loop, or one of the driver's operations as a whole *)
Inductive own_turn d : outcome ConnectionError (bool * Driver.t) → Prop :=
  | turn_pass : is_Some (applied_sequence (attachment d)) →
      own_turn d ('(result, d') ← send_pass owner terminal_id d; Ok (default true result, d'))
  | turn_send : own_turn d (send_available_output owner terminal_id d)
  | turn_event event : own_turn d (process_session_event owner terminal_id event d)
  | turn_serve : own_turn d (serve_history owner terminal_id d)
  | turn_update : own_turn d (process_shell_state_update d)
  | turn_metadata message : quiet message → own_turn d (write_before_deadline message d)
  | turn_drop : own_turn d (Ok (true, drop_expired_history d))
  | turn_end : own_turn d (send_session_end_if_drained owner d).

Inductive turn d : outcome ConnectionError (bool * Driver.t) → Prop :=
  | turn_own m : own_turn d m → turn d m
  | turn_client message : turn d (process_client_message owner terminal_id message d).

Lemma own_turn_flow stream changes d m : flow_ok stream changes d → own_turn d m →
  Holds (stuck d) m (λ '(_, d'), goes_on stream changes d d').
Proof.
  intros Hf []; auto using send_available_flow, event_flow, serve_flow, Holds_total, update_flow, end_flow.
  - apply Holds_total. eapply Total_bind; [by apply (send_pass_flow stream changes)|]. by intros [result d'] [? _].
  - apply Holds_total. eapply Total_mono; [by apply write_quiet|]. intros [r d'] Hq. by apply quiet_goes_on.
  - simpl. by apply drop_flow.
Qed.

Lemma turn_flow stream changes d m : flow_ok stream changes d → turn d m →
  Holds (stuck d) m (λ '(_, d'), flow_ok stream changes d').
Proof.
  intros Hf [? Hown|message].
  - eapply Holds_mono; [by apply own_turn_flow|done|]. by intros [r d'] [? _].
  - eapply Holds_mono; [by apply client_flow|done|]. by intros [r d'] [_ ?].
Qed.

(** ** The world of one attachment *)

(** The terminal, its clients and the clock go on while the driver takes its turns. *)
Inductive world_change (w : World) : World → Prop :=
  | step_output interval data events published s' :
      append_output interval data (session (driver w)) = Some (events, published, s') →
      world_change w (MkWorld (stream w ++ data) (changes_after (session (driver w)) s' (stream w ++ data) (changes w))
                      (set_session s' (driver w)))
  | step_resize size events s' :
      resize_live size (session (driver w)) = Some (events, s') →
      world_change w (MkWorld (stream w) (changes_after (session (driver w)) s' (stream w) (changes w))
                      (set_session s' (driver w)))
  | step_report report published s' :
      apply_shell_report_to_terminal report (session (driver w)) = Some (published, s') →
      world_change w (MkWorld (stream w) (changes w) (set_session s' (driver w)))
  | step_observation observation published s' :
      apply_process_observation_to_terminal observation (session (driver w)) = Some (published, s') →
      world_change w (MkWorld (stream w) (changes w) (set_session s' (driver w)))
  | step_end published s' :
      end_shell_state (session (driver w)) = Some (published, s') →
      world_change w (MkWorld (stream w) (changes w) (set_session s' (driver w)))
  | step_environment time owns : (now (driver w) ≤ time)%N →
      world_change w (MkWorld (stream w) (changes w) (set_environment time owns (driver w))).

Inductive world_step (w : World) : World → Prop :=
  | step_change w' : world_change w w' → world_step w w'
  | step_turn m result d' : turn (driver w) m → m = Ok (result, d') →
      world_step w (MkWorld (stream w) (changes w) d').

Definition world_ok (w : World) : Prop := flow_ok (stream w) (changes w) (driver w).

Lemma world_change_ok w w' : world_change w w' → world_ok w → world_ok w'.
Proof.
  intros Hstep Hok. unfold world_ok in *. destruct w as [stream changes d]. cbn [FlowInv.stream FlowInv.changes driver] in *.
  assert (∀ s', same_window (session d) s' → flow_ok stream changes (set_session s' d)) as Hsame.
  { intros s' Hs. eapply flow_quiet; [exact Hok|]. split; try done. exists []. by rewrite app_nil_r. }
  destruct Hstep as [interval data events published s' E|size events s' E|report published s' E|observation published s' E|published s' E|time owns];
    cbn [FlowInv.stream FlowInv.changes driver] in *.
  - destruct (Partial_elim _ _ _ (append_output_window capacity stream interval data (session d) (f_window _ _ _ Hok)) E) as (Hw & Ha & _).
    by apply (flow_session stream).
  - destruct (Partial_elim _ _ _ (resize_live_window capacity stream size (session d) (f_window _ _ _ Hok)) E) as (Hw & Ha & _).
    by apply (flow_session stream).
  - apply Hsame, (Partial_elim _ _ _ (report_same report _) E).
  - apply Hsame, (Partial_elim _ _ _ (observation_same observation _) E).
  - apply Hsame, (Partial_elim _ _ _ (end_same _) E).
  - eapply flow_quiet; [exact Hok|]. split; try done. exists []. by rewrite app_nil_r.
Qed.

Lemma world_step_ok w w' : world_step w w' → world_ok w → world_ok w'.
Proof.
  intros [w1 Hchange|m result d' Ht ->] Hok; [by eapply world_change_ok|]. exact (turn_flow _ _ _ _ Hok Ht).
Qed.

Lemma worlds_ok w w' : rtc world_step w w' → world_ok w → world_ok w'.
Proof. induction 1; eauto using world_step_ok. Qed.

(** ** The beginning *)

Lemma begin_flow stream time token leases request s : window_ok capacity stream s →
  valid_presentation_window (AttachParameters.presentation_window_bytes request) = true →
  Holds (LiveTerminal.refresh_checkpoint s = None) (start_attachment owner terminal_id time token leases request s)
    (λ begun, match begun with
          | Some d => flow_ok stream (match LiveTerminal.last_geometry_change_sequence s with Some b => [b] | None => [] end) d ∧
              ∃ attached, wire d = [attached] ∧ opens attached (sent_sequence (attachment d)) ∧
                awaiting (attachment d) = presentations [attached]
          | None => True
          end).
Proof.
  intros Hw Hvalid. unfold start_attachment, snapshot_for_attach.
  set (fresh := match AttachParameters.resume_from request with None => _ | Some _ => _ end).
  assert (match fresh with
    | Some (inr snapshot, s') => window_ok capacity stream s' ∧
        delivers stream s' (AttachParameters.resume_from request) None snapshot ∧
        LiveTerminal.last_geometry_change_sequence s' = LiveTerminal.last_geometry_change_sequence s
    | Some (inl _, _) => True
    | None => LiveTerminal.refresh_checkpoint s = None
    end) as Hfresh.
  { unfold fresh, fresh_snapshot. destruct (AttachParameters.resume_from request) as [q|].
    - destruct (Safe_elim _ _ (snapshot_delivers capacity stream owner terminal_id (Some q) None s Hw)) as (r & -> & Hr).
      simpl. by destruct r.
    - destruct (LiveTerminal.refresh_checkpoint s) as [s'|] eqn:Es; [|done].
      destruct (Partial_elim _ _ _ (refresh_session capacity _ _ Hw) Es) as (Hw' & _ & Eb). cbn [mbind option_bind].
      destruct (Safe_elim _ _ (snapshot_delivers capacity stream owner terminal_id None None s' Hw')) as (r & -> & Hr).
      simpl. by destruct r. }
  destruct fresh as [[[e|snapshot] s']|]; [done| |done]. cbn [expect mbind outcome_bind].
  destruct Hfresh as (Hw' & Hd & Eb).
  pose proof (d_checkpoint _ _ _ _ _ Hd) as Hc. apply Holds_total.
  assert (pin_snapshot_history time (new_id []) (AttachParameters.protocol_version request) snapshot ⇓? λ '(pinned, snapshot'),
    AttachSnapshot.journal snapshot' = AttachSnapshot.journal snapshot ∧
    match AttachSnapshot.checkpoint snapshot', AttachSnapshot.history snapshot' with
    | Some checkpoint, Some history => is_Some (AttachSnapshot.checkpoint snapshot) ∧
        TerminalCheckpoint.sequence checkpoint = replay_of snapshot ∧ bundled checkpoint history (PinnedHistory.manifest <$> pinned)
    | None, None => AttachSnapshot.checkpoint snapshot = None ∧ pinned = None
    | _, _ => False
    end) as Hpin.
  { destruct (AttachSnapshot.checkpoint snapshot) as [checkpoint|] eqn:Ec.
    - destruct Hc as (c & Hck & Hco & Hseq & Ep & _ & _ & Eh & Erows & El). subst checkpoint.
      eapply Total_mono; [eapply pin_spec; [done..|by eexists]|].
      intros [pinned snapshot'] (checkpoint & history & E1 & E2 & E3 & E4 & _ & E5).
      rewrite E1, E2. split_and!; [done|done|by rewrite E3|done].
    - destruct Hc as (_ & _ & Eh & _). unfold pin_snapshot_history, project_checkpoint_for_contract.
      rewrite Ec. destruct (supports_extended_keys _); cbn; rewrite ?Eh; case_decide; cbn; by rewrite ?Ec, ?Eh. }
  eapply Total_bind; [exact Hpin|]. intros [pinned snapshot'] [Ej Hbundle]. cbn zeta.
  eapply Total_bind; [apply write_spec|]. intros [[] d'] ->; simpl; [|done].
  apply andb_true_iff in Hvalid as [Hlo%bool_decide_eq_true _]. unfold replay_of in *.
  split.
  2:{ eexists. split; [done|]. cbn. rewrite Ej.
      destruct (AttachSnapshot.checkpoint snapshot'), (AttachSnapshot.history snapshot'); try done.
      - destruct Hbundle as ([x ->] & Hq & Hb). split; [done|]. unfold awaiting. cbn. by rewrite Hq.
      - destruct Hbundle as (-> & ->). split; [done|]. by unfold awaiting. }
  split; cbn; try done.
  - rewrite Eb. destruct (LiveTerminal.last_geometry_change_sequence s); [|done].
    split; [by left|]. intros b Hb. apply list_elem_of_singleton in Hb as ->. lia.
  - by destruct (AttachSnapshot.checkpoint snapshot).
  - apply N.le_0_l.
  - by constructor.
  - rewrite Ej. exists (JournalSnapshot.replay_from (AttachSnapshot.journal snapshot)), []. split_and!.
    + done.
    + simpl. lia.
    + apply Hd.
    + done.
    + intros b Hb. left. destruct (LiveTerminal.last_geometry_change_sequence s) as [last|] eqn:El; [|by apply elem_of_nil in Hb].
      apply list_elem_of_singleton in Hb as ->. destruct (AttachSnapshot.checkpoint snapshot).
      * destruct Hc as (c & _ & _ & _ & _ & _ & Hlast & _). by apply Hlast; rewrite Eb.
      * destruct Hc as (Hq & _ & _ & Hreq). destruct (Hreq _ Hq last ltac:(by rewrite Eb)) as [|(known & ? & _)]; [lia|done].
    + intros known Ek. destruct (AttachSnapshot.checkpoint snapshot).
      * destruct Hc as (c & _ & _ & _ & _ & Er & Hlast & _). rewrite Er in Ek. injection Ek as <-. split; [lia|].
        intros _ b Hb. destruct (LiveTerminal.last_geometry_change_sequence s) as [last|] eqn:El; [|by apply elem_of_nil in Hb].
        apply list_elem_of_singleton in Hb as ->. by apply Hlast; rewrite Eb.
      * destruct Hc as (_ & Er & _). congruence.
Qed.
End flow.
