(* ===== verification/Pairing.v ===== *)
(** One attachment with both its ends: the daemon's driver and terminal, the client's
    controller and presentation, and the two ordered byte streams between them.  Neither
    end ever rejects what the other sends of the output and its acknowledgements. *)

From S2P Require Import Prelude.
From S2P Require Import Cells.
From S2P Require Import Layout.
From S2P Require Import Journal.
From S2P Require Import History.
From S2P Require Import Retention.
From S2P Require Import ShellState.
From S2P Require Import LiveTerminal.
From S2P Require Import Leases.
From S2P Require Import Sessions.
From S2P Require Import Delivery.
From S2P Require Import LiveRuns.
From S2P Require Import Protocol.
From S2P Require Import Messages.
From S2P Require Import Paging.
From S2P Require Import FlowControl.
From S2P Require Import Client.
From S2P Require Import HistorySync.
From S2P Require Import Controller.
From S2P Require Import Wire.
From S2P Require Import FlowInv.
From stdpp Require Import strings.
From Stdlib Require Import Init.Byte.
Import Controller LiveAttachment Driver.

(** * The steps *)

Section pairing.
Context `{UnicodeWidth, HistoryCodec, RowParser, Connection, AttachInput, HomeDirectory, !CodecLaws}.
Context (owner : TerminalOwner.t) (terminal_id : string) (capacity : nat).

(** [upstream] is what the client's writer has written and the daemon has not read;
    the daemon's messages from [taken] on are on their way to the client. *)
Record System := MkSystem {
  world : World; taken : nat; client : Controller.t; upstream : list ClientMessage.t }.
Implicit Types (s : System).

Definition daemon s : Driver.t := driver (world s).
Definition in_transit s : list ServerMessage.t := drop (taken s) (wire (daemon s)).
Definition moved s (d : Driver.t) : World := MkWorld (FlowInv.stream (world s)) (FlowInv.changes (world s)) d.

Definition is_acknowledgement (message : ClientMessage.t) : bool :=
  match message with ClientMessage.PresentationApplied _ => true | _ => false end.

Inductive system_step s : System → Prop :=
  | daemon_changes w : world_change (world s) w → system_step s (MkSystem w (taken s) (client s) (upstream s))
  | daemon_turns m result d : own_turn owner terminal_id (daemon s) m → m = Ok (result, d) →
      system_step s (MkSystem (moved s d) (taken s) (client s) (upstream s))
  | daemon_reads message rest result d : upstream s = message :: rest →
      process_client_message owner terminal_id message (daemon s) = Ok (result, d) → (now (daemon s) < deadline (daemon s))%N →
      system_step s (MkSystem (moved s d) (taken s) (client s) rest)
  | client_reads message rest c : in_transit s = message :: rest → ready_for_message (client s) = true →
      process_server_message message (client s) = Ok (Continue, c) →
      system_step s (MkSystem (world s) (S (taken s)) c (upstream s))
  | client_acknowledges acknowledgement c : take_acknowledgement acknowledgement (client s) = Ok c →
      system_step s (MkSystem (world s) (taken s) c (upstream s))
  | client_delivers_history : system_step s (MkSystem (world s) (taken s) (deliver_history (client s)) (upstream s))
  | writer_reports message c : write_progress (client s) = (Some message, c) →
      system_step s (MkSystem (world s) (taken s) c (upstream s ++ [message]))
  | writer_asks message c : write_history_request (client s) = (message, c) →
      system_step s (MkSystem (world s) (taken s) c (upstream s ++ option_list message))
  | writer_commands message : is_acknowledgement message = false →
      system_step s (MkSystem (world s) (taken s) (client s) (upstream s ++ [message])).

(** * What acknowledgements are on their way *)

Definition place (p : PendingPresentation.t) : N :=
  match p with
  | PendingPresentation.Output sequence | PendingPresentation.Checkpoint sequence | PendingPresentation.Geometry sequence => sequence
  end.

(** The numbers told are places of the presentations, in order, up to the last. *)
Inductive covers : list PendingPresentation.t → list N → Prop :=
  | covers_nil : covers [] []
  | covers_more group p rest told : covers rest told → covers (group ++ p :: rest) (place p :: told).

Lemma covers_snoc unheard told p : covers unheard told → covers (unheard ++ [p]) (told ++ [place p]).
Proof.
  induction 1 as [|group q rest told _ IH]; [apply (covers_more [] p [] []); constructor|].
  rewrite <- app_assoc. cbn [app]. by constructor.
Qed.

(** A newer acknowledgement replaces one that was not yet written. *)
Lemma covers_replace unheard told last p : covers unheard (told ++ [last]) → covers (unheard ++ [p]) (told ++ [place p]).
Proof.
  intros Hc. remember (told ++ [last]) as all eqn:E. revert told E.
  induction Hc as [|group q rest more Hc IH]; intros told E; [by destruct told|].
  rewrite <- app_assoc. cbn [app]. destruct told as [|x told].
  - injection E as _ ->. inversion Hc; subst. change (q :: [] ++ [p]) with ([q] ++ [p]). rewrite app_assoc.
    constructor. constructor.
  - injection E as <- E. cbn [app]. constructor. by apply IH.
Qed.

Lemma covers_head unheard x told : covers unheard (x :: told) →
  ∃ group p rest, unheard = group ++ p :: rest ∧ place p = x ∧ covers rest told.
Proof. intros Hc. inversion Hc; subst. by do 3 eexists. Qed.

(** * What the client's operations leave alone *)

Definition asks_nothing_told (c : Controller.t) : Prop :=
  ∀ message, history_requests c = Some (Some message) → is_acknowledgement message = false.

Record unchanged (c c' : Controller.t) : Prop := {
  u_received : AttachmentState.received_sequence (state c') = AttachmentState.received_sequence (state c);
  u_resume : AttachmentState.resume_sequence (state c') = AttachmentState.resume_sequence (state c);
  u_pending : pending_presentations c' = pending_presentations c;
  u_progress : presentation_progress c' = presentation_progress c;
  u_requires : renderer_requires_checkpoint c' = renderer_requires_checkpoint c;
  u_capacity : event_queue_capacity c' = event_queue_capacity c;
  u_requests : asks_nothing_told c → asks_nothing_told c' }.

Lemma unchanged_refl c : unchanged c c.
Proof. by split. Qed.

Lemma unchanged_trans c1 c2 c3 : unchanged c1 c2 → unchanged c2 c3 → unchanged c1 c3.
Proof. intros [] []. split; first [congruence|by auto]. Qed.

Lemma queue_unchanged message c : match message with Some m => is_acknowledgement m = false | None => True end →
  unchanged c (queue_history_request message c).
Proof. intros Hm. split; try done. intros _ m [= ->]. done. Qed.

Lemma set_history_unchanged transfer pending started c : unchanged c (Controller.set_history transfer pending started c).
Proof. by split. Qed.

Lemma emit_unchanged event c : unchanged c (emit_event event c).
Proof. by split. Qed.

Lemma set_state_unchanged x c : AttachmentState.received_sequence x = AttachmentState.received_sequence (state c) →
  AttachmentState.resume_sequence x = AttachmentState.resume_sequence (state c) → unchanged c (set_state x c).
Proof. by split. Qed.

Lemma advance_unchanged c : Holds True (advance_history_transfer c) (unchanged c).
Proof.
  unfold advance_history_transfer. destruct (history_transfer c) as [transfer|]; [|by apply queue_unchanged].
  destruct (HistoryTransfer.is_complete transfer); [|by apply queue_unchanged].
  destruct (HistoryTransfer.finish transfer); [|done|done]. cbn.
  eapply unchanged_trans; [by apply (queue_unchanged None)|]. apply set_history_unchanged.
Qed.

Lemma page_unchanged id offset data next c : Holds True (process_history_page id offset data next c) (unchanged c).
Proof.
  unfold process_history_page. destruct (history_transfer c) as [transfer|]; [|apply unchanged_refl].
  case_decide; [|apply unchanged_refl]. destruct (HistoryTransfer.accept_page _ _ _ _) as [transfer'|e|]; [|done|done].
  cbn [mbind outcome_bind]. eapply Holds_mono; [apply advance_unchanged|done|]. intros c' Hc.
  eapply unchanged_trans; [|exact Hc]. apply set_history_unchanged.
Qed.

Lemma expire_unchanged id c : unchanged c (expire_history_transfer id c).
Proof.
  unfold expire_history_transfer. destruct (history_transfer c); [|apply unchanged_refl].
  case_decide; [|apply unchanged_refl]. eapply unchanged_trans; [apply set_history_unchanged|by apply queue_unchanged].
Qed.

Lemma lose_layout_unchanged code c : unchanged c (lose_layout code c).
Proof. unfold lose_layout. case_decide; [by apply set_state_unchanged|apply unchanged_refl]. Qed.

#[local] Hint Resolve unchanged_refl emit_unchanged lose_layout_unchanged : core.

Lemma emit_after event c c' : unchanged c c' → unchanged c (emit_event event c').
Proof. intros Hc. eapply unchanged_trans; [exact Hc|apply emit_unchanged]. Qed.

(** A message that says nothing of the output leaves the ledger alone. *)
Lemma quiet_unchanged message c : quiet message →
  Holds True (process_server_message message c) (λ '(_, c'), unchanged c c').
Proof.
  intros Hq. destruct message; try done; cbn [process_server_message process_status_message continuing process_view_message
    mbind outcome_bind process_session_ended].
  - unfold continuing, process_move_result. destruct (supports_pane_moves _); [|done]. cbn. apply emit_after. by destruct outcome.
  - unfold continuing, process_resize_result. destruct (supports_pane_resize _); [|done]. cbn. apply emit_after. by destruct outcome.
  - unfold continuing. destruct (supports_view_zoom _); [|done]. cbn. auto.
  - unfold continuing, process_shell_state, ShellStateCache.apply_if_newer. cbn [mbind outcome_bind].
    case_decide; [apply unchanged_refl|]. apply emit_after. by apply set_state_unchanged.
  - unfold continuing. eapply Holds_bind; [apply page_unchanged|]. done.
  - unfold continuing. cbn [mbind outcome_bind]. apply expire_unchanged.
  - unfold continuing, process_server_error. destruct code; try done; cbn.
    by destruct (supports_view_zoom _).
Qed.

(** * Taking output and checkpoints *)

(** Places from what was acknowledged last to what was received *)
Fixpoint ordered (from : N) (pending : list PendingPresentation.t) (received : N) : Prop :=
  match pending with
  | [] => from = received
  | p :: rest => (from ≤ place p)%N ∧ ordered (place p) rest received
  end.

Lemma ordered_snoc pending p : ∀ from received, ordered from pending received → (received ≤ place p)%N →
  ordered from (pending ++ [p]) (place p).
Proof. induction pending as [|q pending IH]; intros from received; [by intros -> ?|]. intros [? ?] ?. split; [done|by eapply IH]. Qed.

Lemma ordered_le pending : ∀ from received, ordered from pending received → (from ≤ received)%N.
Proof. induction pending as [|p pending IH]; intros from received; [intros ->; lia|]. intros [? Ho%IH]. lia. Qed.

Record took (message : ServerMessage.t) (n : N) (c c' : Controller.t) : Prop := {
  t_received : AttachmentState.received_sequence (state c') = n;
  t_pending : pending_presentations c' = pending_presentations c ++ option_list (presentation_of message);
  t_progress : presentation_progress c' = presentation_progress c;
  t_resume : ∀ q, AttachmentState.resume_sequence (state c') = Some q → AttachmentState.resume_sequence (state c) = Some q;
  t_requests : asks_nothing_told c → asks_nothing_told c' }.

Lemma enqueue_ready p c : ready_for_message c = true →
  enqueue_presentation p c = set_presentations (renderer_requires_checkpoint c) (pending_presentations c ++ [p]) c.
Proof.
  intros [Hcap%bool_decide_eq_true _]%andb_true_iff. unfold enqueue_presentation. by rewrite decide_False by lia.
Qed.

Context (ids : ∀ written, new_id written ≠ ""%string).

(** A client has no quarrel with the history announced. *)
Lemma announced_transfer checkpoint history manifest gap : announced checkpoint history (Some manifest) →
  ∃ transfer, HistoryTransfer.new manifest checkpoint history gap = Ok transfer.
Proof.
  intros (now & written & captured & rows & limit & styled & pinned & Hnew & -> & Hrows & Hlimit & Hseq).
  eexists. by eapply new_transfer.
Qed.

Lemma takes n m n' c : sent_as n m n' → AttachmentState.received_sequence (state c) = n → ready_for_message c = true →
  match presentation_of m with
  | Some _ => ∃ c', process_server_message m c = Ok (Continue, c') ∧ took m n' c c'
  | None => Holds True (process_server_message m c) (λ '(_, c'), took m n' c c')
  end.
Proof.
  intros Hm Hn Hready.
  assert (quiet m → presentation_of m = None → n' = n → Holds True (process_server_message m c) (λ '(_, c'), took m n' c c')) as Hquiet.
  { intros Hq Hp ->. eapply Holds_mono; [by apply quiet_unchanged|done|]. intros [a c'] []. split; [congruence| |done|congruence|done].
    by rewrite Hp, app_nil_r. }
  destruct m; simpl in Hm |- *; try (destruct Hm as [? ?]; by apply Hquiet); try (by destruct Hm).
  - destruct Hm as (Hle & Hseq & Hvalid & Hann). unfold process_checkpoint, accept_checkpoint. rewrite Hvalid.
    cbn [mbind outcome_bind]. rewrite bool_decide_eq_false_2 by lia. cbn [fail_if mbind outcome_bind].
    set (c1 := set_presentations true _ _).
    assert (∃ transfer, (match history_manifest with None => Ok None
      | Some manifest => transfer ← HistoryTransfer.new manifest checkpoint history history_gap; Ok (Some transfer) end)
      = (Ok transfer : outcome ClientError.t _)) as [transfer ->].
    { destruct history_manifest as [manifest|]; [|by eexists].
      destruct (announced_transfer _ _ _ history_gap Hann) as [transfer ->]. by eexists. }
    cbn [mbind outcome_bind continuing]. rewrite enqueue_ready.
    2:{ apply andb_true_iff in Hready as [? _]. apply andb_true_iff. by split; [|apply bool_decide_eq_true]. }
    eexists. split; [done|]. split; [done|done|done|done|]. intros _ message. cbn. by intros [=].
  - destruct Hm as (-> & -> & -> & Hne & Hfit). unfold process_output, accept_output. rewrite Hn, !bool_decide_eq_true_2.
    2:{ by rewrite add64_Some. }
    2:{ done. }
    cbn [negb orb fail_if mbind outcome_bind continuing].
    rewrite enqueue_ready by exact Hready. eexists. split; [done|]. by split.
Qed.

(** * Acknowledging *)

Lemma acknowledges_spec acknowledgement c c' : take_acknowledgement acknowledgement c = Ok c' → ∃ p rest,
  pending_presentations c = p :: rest ∧ pending_presentations c' = rest ∧
  AttachmentState.received_sequence (state c') = AttachmentState.received_sequence (state c) ∧
  (asks_nothing_told c → asks_nothing_told c') ∧
  (match p with PendingPresentation.Geometry _ => True | _ => presentation_progress c' = Some (place p) ∧
     ∀ q, AttachmentState.resume_sequence (state c') = Some q → q = place p end).
Proof.
  unfold take_acknowledgement, accept_presentation_acknowledgement.
  destruct (pending_presentations c) as [|p rest]; [done|].
  destruct (acknowledged p acknowledgement c) as [[[[sequence applied] incompatible] progress]|] eqn:Ea; [|done].
  assert (match p with PendingPresentation.Geometry _ => progress = None | _ => progress = Some (place p) end ∧
    match p with PendingPresentation.Geometry _ => True | _ => sequence = None ∨ sequence = Some (place p) end) as [Hprogress Hseq].
  { destruct p, acknowledgement; simpl in Ea; try done; case_decide; try done; injection Ea as <- _ _ <-; subst; auto. }
  cbn [mbind outcome_bind]. set (c1 := set_state _ _). intros Hc. exists p, rest. split; [done|].
  assert (pending_presentations c1 = rest ∧
    AttachmentState.received_sequence (state c1) = AttachmentState.received_sequence (state c) ∧
    history_requests c1 = history_requests c ∧
    match p with PendingPresentation.Geometry _ => True | _ =>
      ∀ q, AttachmentState.resume_sequence (state c1) = Some q → q = place p end) as (Q1 & Q2 & Q3 & Q4).
  { split_and!; [done|done|done|]. destruct p; try done.
    all: cbn; intros q; destruct (_ && _); [|done]; destruct Hseq as [->| ->]; by intros [=]. }
  destruct progress as [applied_sequence|].
  2:{ injection Hc as <-. split_and!; [done|done|unfold asks_nothing_told; by rewrite Q3|by destruct p]. }
  assert (unchanged (Controller.set_progress (Some applied_sequence) c1) c') as [].
  { match type of Hc with (if ?b then _ else _) = _ => destruct b end; [|injection Hc as <-; apply unchanged_refl].
    match type of Hc with advance_history_transfer ?x = _ => pose proof (advance_unchanged x) as Hu end.
    rewrite Hc in Hu. eapply unchanged_trans; [|exact Hu]. apply set_history_unchanged. }
  cbn in *. split_and!; [congruence|congruence| |].
  - intros Hr. by apply u_requests0.
  - destruct p; [split; [congruence|by rewrite u_resume0]..|done].
Qed.

(** The oldest presentation can always be acknowledged. *)
Lemma acknowledgeable p rest c : pending_presentations c = p :: rest →
  ∃ acknowledgement r, accept_presentation_acknowledgement acknowledgement c = Ok r.
Proof.
  intros E. unfold accept_presentation_acknowledgement. rewrite E.
  destruct p as [sequence|sequence|sequence];
    [exists (PresentationAck.Output sequence)|exists (PresentationAck.Checkpoint sequence)|exists (PresentationAck.Geometry sequence)];
    cbn; rewrite decide_True by done; by eexists.
Qed.

Lemma pop_exact window x l g : ∀ from sent charge, chained window from (g ++ x :: l) sent →
  (pop_delivered (OutputDelivery.sequence_end x) (g ++ x :: l) charge).1 = l.
Proof.
  induction g as [|y g IH]; intros from sent charge; cbn [app pop_delivered].
  - intros (_ & _ & Hc). rewrite decide_True by lia. destruct l as [|z l]; [done|]. destruct Hc as (Hlt & _). cbn [pop_delivered].
    by rewrite decide_False by lia.
  - intros (_ & _ & Hc). rewrite decide_True; [by eapply IH|].
    assert (∀ g e, chained window e (g ++ x :: l) sent → e < OutputDelivery.sequence_end x)%N as Hlt.
    { clear. intros g. induction g as [|z g IH]; intros e; cbn [app]; [by intros (? & _)|]. intros (? & _ & Hc%IH). lia. }
    specialize (Hlt _ _ Hc). lia.
Qed.

(** The daemon takes the acknowledgement of anything it waits to hear of, and waits for the
    rest. *)
Lemma accepts stream changes d group p more : flow_ok capacity stream changes d →
  awaiting (attachment d) = group ++ p :: more →
  ∃ a, accept_presentation_progress (place p) (attachment d) = Ok a ∧ awaiting a = more ∧
    sent_sequence a = sent_sequence (attachment d).
Proof.
  intros Hf Hw. pose proof (f_progress _ _ _ _ Hf) as Hp. unfold awaiting in Hw. unfold accept_presentation_progress.
  destruct (applied_sequence (attachment d)) as [applied|] eqn:Ea.
  - apply fmap_app_inv in Hw as (g & l & -> & Hl & Ei). symmetry in Hl.
    apply fmap_cons_inv in Hl as (x & more' & -> & -> & ->). rewrite Ei in Hp |- *.
    cbn [place compose]. pose proof (pop_exact _ x more' g _ _ (in_flight_charge_bytes (attachment d)) Hp) as Hpop.
    assert (applied < OutputDelivery.sequence_end x ≤ sent_sequence (attachment d))%N as Hin.
    { revert Hp. clear. generalize applied. induction g as [|y g IH]; intros from; cbn [app].
      - intros (? & _ & Hc%chained_le). lia.
      - intros (? & _ & Hc%IH). lia. }
    rewrite !decide_False by lia.
    assert (existsb (λ delivery, bool_decide (OutputDelivery.sequence_end delivery = OutputDelivery.sequence_end x)) (g ++ x :: more') = true) as ->.
    { apply existsb_exists. exists x. split; [apply in_elt|by apply bool_decide_eq_true]. }
    cbn [negb]. destruct (pop_delivered _ _ _) as [in_flight charge]. simpl in Hpop. subst. eexists. split; [done|].
    split; [|done]. unfold awaiting. cbn. done.
  - destruct group as [|q group]; [|by destruct group]. injection Hw as <- <-. cbn [place]. rewrite decide_False by lia.
    rewrite Hp, !bool_decide_eq_true_2 by done. cbn. eexists. split; [done|]. by unfold awaiting.
Qed.

(** * The invariant *)

Definition acknowledgement_of (message : ClientMessage.t) : option N :=
  match message with ClientMessage.PresentationApplied sequence => Some sequence | _ => None end.

(** The acknowledgements on their way, and the one the writer has yet to write *)
Definition told s : list N :=
  omap acknowledgement_of (upstream s) ++ option_list (presentation_progress (client s)).

Record paired s : Prop := {
  p_flow : world_ok capacity (world s);
  p_taken : taken s ≤ length (wire (daemon s));
  p_transit : sends (AttachmentState.received_sequence (state (client s))) (in_transit s) (sent_sequence (attachment (daemon s)));
  p_ledger : ∃ unheard, covers unheard (told s) ∧
    awaiting (attachment (daemon s)) = unheard ++ pending_presentations (client s) ++ presentations (in_transit s);
  p_order : ∃ from, ordered from (pending_presentations (client s)) (AttachmentState.received_sequence (state (client s))) ∧
    ∀ q, AttachmentState.resume_sequence (state (client s)) = Some q → q = from;
  p_requests : asks_nothing_told (client s) }.

Lemma awaiting_real a p : p ∈ awaiting a → match p with PendingPresentation.Geometry _ => False | _ => True end.
Proof.
  unfold awaiting. destruct (applied_sequence a).
  - intros (x & -> & _)%list_elem_of_fmap. done.
  - by intros ->%list_elem_of_singleton.
Qed.

(** The daemon writes more on its own. *)
Lemma paired_follows s d : paired s → flow_ok capacity (FlowInv.stream (world s)) (FlowInv.changes (world s)) d →
  follows (daemon s) d → paired (MkSystem (moved s d) (taken s) (client s) (upstream s)).
Proof.
  intros [Hf Ht Hs (unheard & Hcov & Hled) Ho Hr] Hf' (more & Ew & Hsend & Ea).
  assert (in_transit (MkSystem (moved s d) (taken s) (client s) (upstream s)) = in_transit s ++ more) as Etransit.
  { unfold in_transit, daemon. cbn. fold (daemon s). rewrite Ew, drop_app_le by done. done. }
  split; try done.
  - unfold daemon. cbn. rewrite Ew, length_app. cbn. lia.
  - rewrite Etransit. eapply sends_app; [exact Hs|exact Hsend].
  - exists unheard. split; [exact Hcov|]. rewrite Etransit, presentations_app. unfold daemon. cbn. rewrite Ea.
    fold (daemon s). rewrite Hled. by rewrite <- !app_assoc.
Qed.

(** The client does something that leaves the ledger alone. *)
Lemma paired_unchanged s c : paired s → unchanged (client s) c → paired (MkSystem (world s) (taken s) c (upstream s)).
Proof.
  intros [Hf Ht Hs (unheard & Hcov & Hled) (from & Ho & Hq) Hr] [E1 E2 E3 E4 _ _ E7]. split; cbn -[in_transit daemon]; try done.
  - by rewrite E1.
  - exists unheard. unfold told in *. cbn. rewrite E3, E4. done.
  - exists from. by rewrite E1, E2, E3.
  - by apply E7.
Qed.

Lemma change_keeps w w' : world_change w w' → attachment (driver w') = attachment (driver w) ∧ wire (driver w') = wire (driver w).
Proof. by intros []. Qed.

Lemma transit_head s message rest : in_transit s = message :: rest → drop (S (taken s)) (wire (daemon s)) = rest ∧
  S (taken s) ≤ length (wire (daemon s)).
Proof.
  unfold in_transit. intros E. pose proof (f_equal length E) as El. rewrite length_drop in El. cbn [length] in El.
  split; [|lia]. replace (S (taken s)) with (taken s + 1) by lia. by rewrite <- drop_drop, E.
Qed.

Lemma ack_step s message rest d result : paired s → upstream s = message :: rest →
  process_client_message owner terminal_id message (daemon s) = Ok (result, d) → (now (daemon s) < deadline (daemon s))%N →
  paired (MkSystem (moved s d) (taken s) (client s) rest).
Proof.
  intros Hp Eu E Hlive. pose proof (p_flow _ Hp) as Hf.
  pose proof (client_flow owner terminal_id capacity _ _ message (daemon s) Hf) as Hc. rewrite E in Hc. destruct Hc as [Hc Hf'].
  destruct (p_ledger _ Hp) as (unheard & Hcov & Hled). unfold told in Hcov. rewrite Eu in Hcov. cbn in Hcov.
  destruct message; cbn in Hcov.
  all: try (destruct Hc as [_ Hfollow]; destruct (paired_follows s d Hp Hf' Hfollow) as [? ? ? (? & ? & ?) ? ?]; split; try done;
            unfold told in *; cbn in *; rewrite Eu in *; cbn in *; by eexists).
  destruct (covers_head _ _ _ Hcov) as (group & p & unheard' & -> & <- & Hcov').
  destruct (accepts _ _ _ group p (unheard' ++ pending_presentations (client s) ++ presentations (in_transit s)) Hf)
    as (a & Ea & Hwait & Hsent).
  { unfold daemon in *. rewrite Hled. by rewrite <- app_assoc. }
  destruct (Hc a Ea) as [[Hdead _]|[Hfa [_ Hfollow]]]; [lia|].
  assert (paired (MkSystem (moved s (set_attachment a (daemon s))) (taken s) (client s) rest)) as Hp1.
  { destruct Hp as [_ Ht Hs _ Ho Hr]. split; try done.
    - unfold in_transit, daemon in *. cbn. by rewrite Hsent.
    - exists unheard'. split; [exact Hcov'|]. unfold in_transit, daemon in *. cbn. exact Hwait. }
  exact (paired_follows _ d Hp1 Hf' Hfollow).
Qed.

Lemma system_step_paired s s' : system_step s s' → paired s → paired s'.
Proof.
  intros Hstep Hp. pose proof (p_flow _ Hp) as Hf. destruct Hstep as
    [w Hw|m result d Hown ->|message rest result d Eu E Hlive|message rest c Et Hready E|ack c E| |message c E|message c E|message Hm].
  - destruct (change_keeps _ _ Hw) as [Ea Ew]. destruct Hp as [_ Ht Hs Hl Ho Hr].
    split; unfold in_transit, daemon in *; cbn in *; rewrite ?Ea, ?Ew; try done. by eapply world_change_ok.
  - pose proof (own_turn_flow owner terminal_id capacity _ _ _ _ Hf Hown) as [Hf' Hfollow].
    by apply paired_follows.
  - by eapply ack_step.
  - pose proof (p_transit _ Hp) as Hs. rewrite Et in Hs. apply sends_cons in Hs as (n & Hm & Hs).
    pose proof (takes _ _ _ _ Hm eq_refl Hready) as Htake. destruct (transit_head _ _ _ Et) as [Erest Hlen].
    assert (took message n (client s) c) as [T1 T2 T3 T4 T5].
    { destruct (presentation_of message); [|by rewrite E in Htake].
      destruct Htake as (c' & E' & Htook). rewrite E in E'. by injection E' as ->. }
    assert (∀ p, presentation_of message = Some p → place p = n) as Hplace.
    { intros p. destruct message; try done; cbn in Hm |- *; try (by destruct Hm).
      - destruct Hm as (_ & ? & _). by intros [= <-].
      - destruct Hm as (_ & ? & _). by intros [= <-]. }
    assert (presentation_of message = None → n = AttachmentState.received_sequence (state (client s))) as Hsame.
    { destruct message; try done; cbn in Hm; by destruct Hm. }
    assert (AttachmentState.received_sequence (state (client s)) ≤ n)%N as Hle.
    { destruct message; cbn in Hm; try (destruct Hm; subst; done); try (destruct Hm as (? & ?); done); lia. }
    destruct Hp as [_ Ht _ (unheard & Hcov & Hled) (from & Ho & Hq) Hr].
    assert (in_transit (MkSystem (world s) (S (taken s)) c (upstream s)) = rest) as Etr by exact Erest.
    split; rewrite ?Etr; cbn -[in_transit daemon presentations]; try done.
    + rewrite T1. exact Hs.
    + exists unheard. unfold told in *. cbn -[presentations]. rewrite T3. split; [exact Hcov|].
      unfold daemon in *. cbn -[presentations]. rewrite T2, Hled, Et. unfold presentations. cbn. destruct (presentation_of message); cbn; by rewrite <- ?app_assoc.
    + exists from. rewrite T1, T2. split; [|intros q Eq; by apply Hq, T4].
      destruct (presentation_of message) as [p|] eqn:Ep; cbn.
      * rewrite <- (Hplace _ eq_refl). eapply ordered_snoc; [exact Ho|]. by rewrite (Hplace _ eq_refl).
      * rewrite app_nil_r, (Hsame eq_refl). exact Ho.
    + by apply T5.
  - destruct (acknowledges_spec _ _ _ E) as (p & rest & E1 & E2 & E3 & E4 & E5).
    destruct Hp as [_ Ht Hs (unheard & Hcov & Hled) (from & Ho & Hq) Hr].
    assert (p ∈ awaiting (attachment (daemon s))) as Hin by (rewrite Hled, E1; set_solver).
    apply awaiting_real in Hin.
    assert (presentation_progress c = Some (place p) ∧
      ∀ q, AttachmentState.resume_sequence (state c) = Some q → q = place p) as [E6 E7] by (by destruct p).
    rewrite E1 in Ho. destruct Ho as [_ Ho].
    split; cbn -[in_transit daemon]; try done.
    + by rewrite E3.
    + exists (unheard ++ [p]). unfold told in *. cbn. rewrite E2, E6. split.
      * destruct (presentation_progress (client s)) as [last|]; cbn in Hcov |- *; [by eapply covers_replace|].
        rewrite app_nil_r in Hcov. by apply covers_snoc.
      * unfold in_transit, daemon in *. cbn. rewrite Hled, E1, <- !app_assoc. done.
    + exists (place p). rewrite E2, E3. done.
    + by apply E4.
  - apply paired_unchanged; [done|]. unfold deliver_history. destruct (Controller.pending_history _); [|apply unchanged_refl].
    apply emit_after, set_history_unchanged.
  - unfold write_progress in E. destruct (presentation_progress (client s)) as [sequence|] eqn:Epr; [|done].
    injection E as <- <-. destruct Hp as [_ Ht Hs (unheard & Hcov & Hled) Ho Hr]. split; try done.
    exists unheard. split; [|exact Hled]. unfold told in *. cbn. rewrite Epr in Hcov. cbn in Hcov.
    by rewrite omap_app, app_nil_r.
  - unfold write_history_request in E. injection E as <- <-.
    destruct Hp as [_ Ht Hs (unheard & Hcov & Hled) Ho Hr]. split; try done.
    exists unheard. split; [|exact Hled]. unfold told in *. cbn.
    destruct (history_requests (client s)) as [[message|]|] eqn:Eh; cbn; rewrite ?app_nil_r; try done.
    rewrite omap_app. cbn. specialize (Hr message Eh). destruct message; try done; by rewrite app_nil_r.
  - destruct Hp as [_ Ht Hs (unheard & Hcov & Hled) Ho Hr]. split; try done.
    exists unheard. split; [|exact Hled]. unfold told in *. cbn. rewrite omap_app. cbn.
    destruct message; try done; by rewrite app_nil_r.
Qed.

Lemma systems_paired s s' : rtc system_step s s' → paired s → paired s'.
Proof. induction 1; eauto using system_step_paired. Qed.

(** * The beginning *)

(** The client takes what the daemon attaches it with. *)
Lemma attaches message n handshake options : opens message n →
  AttachmentControllerOptions.command_queue_capacity options ≠ 0 →
  AttachmentControllerOptions.event_queue_capacity options ≠ 0 →
  ∃ attached c, begin_attachment handshake (Some message) = Ok attached ∧ Controller.new attached options = Ok c ∧
    AttachmentState.received_sequence (state (start c)) = n ∧
    pending_presentations (start c) = presentations [message] ∧
    presentation_progress (start c) = None ∧ asks_nothing_told (start c) ∧
    (∀ q, AttachmentState.resume_sequence (state (start c)) = Some q → q = n ∧ presentations [message] = []).
Proof.
  intros Ho Hc He. destruct message; try done. destruct Ho as [-> Ho]. cbn [begin_attachment read_response mbind outcome_bind].
  eexists. cut (∃ c, Controller.new (AttachedSession.Mk handshake attachment_token session0 replay_from history_gap checkpoint
    history history_manifest terminal_size_mismatch leases shell_state (HandshakeInfo.attachment_liveness handshake)
    (ShellStateCache.new shell_state)) options = Ok c ∧
    AttachmentState.received_sequence (state (start c)) = replay_from ∧
    pending_presentations (start c) = option_list (PendingPresentation.Checkpoint ∘ TerminalCheckpoint.sequence <$> checkpoint) ∧
    presentation_progress (start c) = None ∧ asks_nothing_told (start c) ∧
    (∀ q, AttachmentState.resume_sequence (state (start c)) = Some q → q = replay_from ∧ checkpoint = None)).
  { intros (c & E & Er & Ep & Eg & Ea & Eq). exists c. split_and!; [done|exact E|exact Er| |exact Eg|exact Ea|].
    - rewrite Ep. by destruct checkpoint.
    - intros q Hq. destruct (Eq q Hq) as [-> ->]. done. }
  unfold Controller.new. cbn [AttachedSession.checkpoint AttachedSession.history AttachedSession.history_manifest
    AttachedSession.replay_from AttachedSession.history_gap AttachedSession.handshake_info].
  destruct (_ =? 0) eqn:E1; [by apply Nat.eqb_eq in E1|]. destruct (AttachmentControllerOptions.event_queue_capacity options =? 0) eqn:E2;
    [by apply Nat.eqb_eq in E2|]. cbn [orb fail_if mbind outcome_bind].
  destruct checkpoint as [checkpoint|], history as [history|]; try done.
  - destruct Ho as (Hseq & Hvalid & Hann). rewrite Hvalid. cbn [mbind outcome_bind]. rewrite Hseq, (bool_decide_eq_true_2 (replay_from = replay_from)) by done.
    cbn [negb fail_if mbind outcome_bind option_bind].
    assert (∃ transfer, (match history_manifest with None => Ok None
      | Some manifest => checkpoint ← ok_or (Some checkpoint) ClientError.CheckpointHistoryPresenceMismatch;
                         history ← ok_or (Some history) ClientError.CheckpointHistoryPresenceMismatch;
                         transfer ← HistoryTransfer.new manifest checkpoint history history_gap; Ok (Some transfer) end)
      = (Ok transfer : outcome ClientError.t _)) as [transfer ->].
    { destruct history_manifest as [manifest|]; [|by eexists]. cbn.
      destruct (announced_transfer _ _ _ history_gap Hann) as [transfer ->]. by eexists. }
    cbn [mbind outcome_bind]. eexists. split; [done|]. unfold start. cbn. unfold enqueue_presentation. cbn.
    rewrite decide_False by lia. rewrite orb_true_r. cbn. by split_and!.
  - subst. cbn. rewrite orb_false_r. eexists. split; [done|]. cbn. destruct (negb _); cbn; split_and!; try done.
    by intros q [= ->].
Qed.

(** A client that has just attached *)
Definition begun (request : AttachParameters.t) s : Prop :=
  ∃ stream terminal time token leases d handshake options attached c,
    window_ok capacity stream terminal ∧
    valid_presentation_window (AttachParameters.presentation_window_bytes request) = true ∧
    start_attachment owner terminal_id time token leases request terminal = Ok (Some d) ∧
    begin_attachment handshake (head (wire d)) = Ok attached ∧ Controller.new attached options = Ok c ∧
    s = MkSystem (MkWorld stream (option_list (LiveTerminal.last_geometry_change_sequence terminal)) d) 1 (start c) [].

Lemma begun_paired request s : begun request s → paired s.
Proof.
  intros (stream & terminal & time & token & leases & d & handshake & options & attached & c & Hw & Hvalid & Hstart & Hatt & Hnew & ->).
  pose proof (begin_flow owner terminal_id capacity stream time token leases request terminal Hw Hvalid) as Hf.
  rewrite Hstart in Hf. destruct Hf as (Hf & message & Ew & Ho & Ea). rewrite Ew in Hatt. cbn [head] in Hatt.
  assert (AttachmentControllerOptions.command_queue_capacity options ≠ 0 ∧
    AttachmentControllerOptions.event_queue_capacity options ≠ 0) as [Hc He].
  { unfold Controller.new in Hnew. destruct (_ =? 0) eqn:E1; [done|]. destruct (AttachmentControllerOptions.event_queue_capacity options =? 0) eqn:E2; [done|].
    split; by apply Nat.eqb_neq. }
  destruct (attaches message _ handshake options Ho Hc He) as (attached' & c' & E1 & E2 & Er & Ep & Eg & Et & Eq).
  rewrite Hatt in E1. injection E1 as <-. rewrite Hnew in E2. injection E2 as <-.
  assert (in_transit (MkSystem (MkWorld stream (option_list (LiveTerminal.last_geometry_change_sequence terminal)) d) 1 (start c) []) = []) as Etr.
  { unfold in_transit, daemon. cbn [world driver taken]. by rewrite Ew. }
  split; rewrite ?Etr; unfold daemon; cbn [world driver taken client upstream FlowInv.stream FlowInv.changes].
  - unfold world_ok. cbn. by destruct (LiveTerminal.last_geometry_change_sequence terminal).
  - by rewrite Ew.
  - rewrite Er. constructor.
  - exists []. unfold told. cbn. rewrite Eg, Ep, Ea, app_nil_r. split; [constructor|done].
  - exists (sent_sequence (attachment d)). rewrite Er, Ep. split.
    + destruct message; try done. destruct Ho as [-> Ho]. cbn. destruct checkpoint as [checkpoint|]; cbn; [|done].
      destruct history; [|done]. destruct Ho as [-> _]. done.
    + intros q Hq. by apply Eq.
  - done.
Qed.
End pairing.
