(* ===== verification/FlowProgress.v ===== *)
(** A client that acknowledges what it is sent receives everything: with nothing in flight
    the driver sends at least one more frame or checkpoint while output is left. *)

From S2P Require Import Prelude.
From S2P Require Import Cells.
From S2P Require Import Layout.
From S2P Require Import Journal.
From S2P Require Import Retention.
From S2P Require Import LiveTerminal.
From S2P Require Import Sessions.
From S2P Require Import Delivery.
From S2P Require Import Protocol.
From S2P Require Import Messages.
From S2P Require Import Paging.
From S2P Require Import FlowControl.
From S2P Require Import FlowInv.
From stdpp Require Import strings.
From Stdlib Require Import Init.Byte.
Import LiveAttachment Driver.

Section progress.
Context `{UnicodeWidth, HistoryCodec, Connection, AttachInput}.
Context (owner : TerminalOwner.t) (terminal_id : string) (capacity : nat).
Context (writes : ∀ messages m, write_frame messages m = Written).
Implicit Types (d : Driver.t).

(** The checkpoint the next delivery needs, if any *)
Definition needed d : option GeometryCheckpoint.t :=
  chosen_checkpoint (Some (sent_sequence (attachment d))) (checkpoint_geometry_revision (attachment d)) (session d).

(** The history of a checkpoint can be encoded for a contract. *)
Definition encodable (version : ProtocolVersion.t) (c : GeometryCheckpoint.t) : Prop := ∀ time id,
  is_ok (PinnedHistory.new time id (GeometryCheckpoint.history c) (GeometryCheckpoint.history_rows c)
           (N.of_nat (terminal_scrollback_rows (TerminalCheckpoint.terminal_size (GeometryCheckpoint.checkpoint c))))
           (supports_styled_history version)) = true.

(** What sending leaves alone *)
Record keeps d d' : Prop := {
  k_session : session d' = session d;
  k_deadline : deadline d' = deadline d;
  k_now : now d' = now d;
  k_end : pending_session_end d' = pending_session_end d;
  k_timeout : attachment_liveness_timeout d' = attachment_liveness_timeout d;
  k_pending : pending_checkpoint (attachment d') = pending_checkpoint (attachment d) }.

Lemma keeps_trans d1 d2 d3 : keeps d1 d2 → keeps d2 d3 → keeps d1 d3.
Proof. intros [] []. split; congruence. Qed.

(** Having sent more keeps a checkpoint unnecessary. *)
Lemma needed_mono d d' : needed d = None → session d' = session d →
  checkpoint_geometry_revision (attachment d') = checkpoint_geometry_revision (attachment d) →
  (sent_sequence (attachment d) ≤ sent_sequence (attachment d'))%N → needed d' = None.
Proof.
  unfold needed, chosen_checkpoint. intros Hn -> -> Hle.
  destruct (bool_decide (sent_sequence (attachment d) < _)%N) eqn:Hq; [done|].
  apply bool_decide_eq_false in Hq. rewrite bool_decide_eq_false_2 by lia.
  unfold geometry_checkpoint_required in *. destruct (match checkpoint_geometry_revision _ with None => _ | Some _ => _ end); [|done].
  cbn [andb] in *. destruct (LiveTerminal.last_geometry_change_sequence (session d)) as [last|]; [|done].
  destruct (bool_decide (sent_sequence (attachment d) ≤ last)%N) eqn:Hb; [done|].
  apply bool_decide_eq_false in Hb. by rewrite bool_decide_eq_false_2 by lia.
Qed.

Lemma write_ok message d : write_before_deadline message d = Ok (true, set_wire (wire d ++ [message]) d).
Proof. unfold write_before_deadline. by rewrite writes. Qed.

(** One pass that needs no checkpoint sends a frame, or nothing is left, or the window is full. *)
Lemma pass_frame stream changes d : flow_ok capacity stream changes d → is_Some (applied_sequence (attachment d)) → needed d = None →
  ∃ result d', send_pass owner terminal_id d = Ok (result, d') ∧
    match result with
    | Some connected => connected = true ∧ d' = d ∧ (in_flight_output (attachment d) = [] → unsent d = 0)
    | None => keeps d d' ∧ needed d' = None ∧ (sent_sequence (attachment d) < sent_sequence (attachment d'))%N
    end.
Proof.
  intros Hf Ha Hn. pose proof (send_pass_flow owner terminal_id capacity stream changes d Hf Ha) as Hp.
  pose proof (unsent_spec _ _ _ _ Hf) as Hu. revert Hp. unfold send_pass.
  pose proof (f_charge _ _ _ _ Hf) as Hcharge. pose proof (f_limit _ _ _ _ Hf) as Hlim.
  case_decide as Hfull.
  { intros _. eexists _, _. split; [done|]. split_and!; [done|done|]. intros Hi. rewrite Hi in Hcharge. change (charges []) with 0%N in Hcharge. lia. }
  pose proof (snapshot_delivers capacity stream owner terminal_id (Some (sent_sequence (attachment d)))
    (checkpoint_geometry_revision (attachment d)) _ (f_window _ _ _ _ Hf)) as Hs.
  destruct (f_client _ _ _ _ Hf) as (base & bytes & _ & _ & Hpast & _).
  destruct (snapshot_for_delivery _ _ _ _ _) as [[[q next]|snapshot]|] eqn:Ed; simpl in Hs |- *; [|simpl|done].
  { destruct Hs as ([= <-] & -> & Hlt). lia. }
  destruct (delivery_checkpoint _ _ _ _ _ _ Ed) as (Ec & _). fold (needed d) in Ec. rewrite Hn in Ec. simpl in Ec. rewrite Ec.
  pose proof (d_checkpoint _ _ _ _ _ Hs) as Hc. rewrite Ec in Hc. destruct Hc as ([= Ereplay] & _ & _ & _).
  pose proof (d_chunks _ _ _ _ _ Hs) as Hspell. unfold replay_of in *. rewrite <- Ereplay in Hspell.
  pose proof (j_fits _ _ _ (w_journal _ _ _ (f_window _ _ _ _ Hf))) as Hfit.
  set (limit := N.to_nat _).
  assert (0 < limit) as Hlimit by (unfold limit, MAX_OUTPUT_FRAME_BYTES; lia).
  rewrite (coalesce_spec _ _ _ _ Hspell Hlimit) by (rewrite length_drop; lia). cbn [expect mbind outcome_bind].
  case_decide as Hrest.
  { intros _. eexists _, _. split; [done|]. split_and!; [done|done|]. intros _. rewrite Hu.
    apply (f_equal length) in Hrest. rewrite length_drop in Hrest. simpl in Hrest. lia. }
  unfold OutputChunk.sequence_end. cbn [OutputChunk.sequence_start OutputChunk.data].
  set (frame := take limit _).
  assert (0 < length frame ≤ length stream - N.to_nat (sent_sequence (attachment d)) ∧ length frame ≤ limit) as [Hframe Hsize].
  { unfold frame. rewrite length_take. assert (length (drop (N.to_nat (sent_sequence (attachment d))) stream) ≠ 0) by (by intros Hz%nil_length_inv).
    rewrite length_drop in *. lia. }
  rewrite add64_Some by lia. cbn [expect mbind outcome_bind].
  case_decide as Hover.
  { intros _. eexists _, _. split; [done|]. split_and!; [done|done|]. intros Hi. exfalso.
    rewrite Hi in Hcharge. change (charges []) with 0%N in Hcharge. unfold output_frame_charge, limit in *. lia. }
  rewrite write_ok. simpl. intros (_ & Es & Hlt). destruct (Hlt eq_refl) as [_ Hlt']. cbn in Hlt'.
  eexists _, _. split; [done|]. split_and!; [split; done| |done].
  eapply needed_mono; [exact Hn|done|done|]. cbn. lia.
Qed.

Lemma loop_frames stream changes fuel : ∀ d, flow_ok capacity stream changes d → is_Some (applied_sequence (attachment d)) →
  needed d = None → unsent d < fuel →
  ∃ d', send_loop owner terminal_id fuel d = Ok (true, d') ∧ flow_ok capacity stream changes d' ∧ keeps d d' ∧ needed d' = None ∧
    (sent_sequence (attachment d) ≤ sent_sequence (attachment d'))%N ∧
    (in_flight_output (attachment d) = [] → unsent d' = 0 ∨ (sent_sequence (attachment d) < sent_sequence (attachment d'))%N).
Proof.
  induction fuel as [|fuel IH]; intros d Hf Ha Hn Hfuel; [lia|]. cbn [send_loop].
  pose proof (send_pass_flow owner terminal_id capacity stream changes d Hf Ha) as Hp.
  destruct (pass_frame _ _ _ Hf Ha Hn) as (result & d1 & E & Hr). rewrite E in Hp |- *. simpl in Hp. cbn [mbind outcome_bind].
  destruct result as [connected|].
  - destruct Hr as (-> & -> & Hdone). exists d. split_and!; [done|done|by split|done|lia|]. intros Hi. left. by apply Hdone.
  - destruct Hr as (Hk & Hn1 & Hlt), Hp as ([Hf1 _] & _ & Hnext). destruct (Hnext eq_refl) as [Ha1 _].
    destruct (IH d1 Hf1 Ha1 Hn1) as (d2 & E2 & Hf2 & Hk2 & Hn2 & Hle & _).
    { rewrite (unsent_spec _ _ _ _ Hf) in Hfuel. rewrite (unsent_spec _ _ _ _ Hf1).
      destruct (f_client _ _ _ _ Hf1) as (_ & _ & _ & _ & Hpast & _). lia. }
    exists d2. split_and!; [done|done|by eapply keeps_trans|done|lia|]. intros _. right. lia.
Qed.

(** With nothing left to send the loop ends at once. *)
Lemma drained_still stream changes fuel d : flow_ok capacity stream changes d → is_Some (applied_sequence (attachment d)) →
  needed d = None → unsent d = 0 → send_loop owner terminal_id (S fuel) d = Ok (true, d).
Proof.
  intros Hf Ha Hn Hz. cbn [send_loop]. destruct (pass_frame stream changes d Hf Ha Hn) as (result & d' & E & Hr).
  rewrite E. cbn [mbind outcome_bind]. destruct result as [connected|]; [by destruct Hr as (-> & -> & _)|].
  exfalso. destruct Hr as (_ & _ & Hlt). pose proof (send_pass_flow owner terminal_id capacity stream changes d Hf Ha) as Hp.
  rewrite E in Hp. destruct Hp as ([Hf' _] & _ & _). destruct (f_client _ _ _ _ Hf') as (_ & _ & _ & _ & Hpast & _).
  rewrite (unsent_spec _ _ _ _ Hf) in Hz. lia.
Qed.

(** ** Checkpoints *)

(** What a snapshot with a captured checkpoint says of it *)
Definition carries c (snapshot : AttachSnapshot.t) : Prop :=
  AttachSnapshot.checkpoint snapshot = Some (GeometryCheckpoint.checkpoint c) ∧
  AttachSnapshot.checkpoint_keyboard_prefix_bytes snapshot = GeometryCheckpoint.checkpoint_keyboard_prefix_bytes c ∧
  AttachSnapshot.history snapshot = Some (GeometryCheckpoint.history c) ∧
  AttachSnapshot.history_rows snapshot = Some (GeometryCheckpoint.history_rows c) ∧
  AttachSnapshot.scrollback_limit snapshot =
    N.of_nat (terminal_scrollback_rows (TerminalCheckpoint.terminal_size (GeometryCheckpoint.checkpoint c))).

Lemma delivery_carries requested revision s snapshot c :
  snapshot_for_delivery owner terminal_id requested revision s = Some (inr snapshot) →
  chosen_checkpoint requested revision s = Some c → carries c snapshot.
Proof.
  intros Ed Ec. destruct (delivery_checkpoint _ _ _ _ _ _ Ed) as (E1 & E2 & E3 & _ & E4 & E5).
  rewrite Ec in E1, E2, E3, E4, E5. done.
Qed.

Lemma checkpoint_written c snapshot d : captured_ok c → carries c snapshot → encodable (protocol_version (attachment d)) c →
  ∃ d', send_checkpoint snapshot d = Ok (true, d') ∧ keeps d d'.
Proof.
  intros Hco (Ec & Ep & Eh & Er & El) Henc. unfold send_checkpoint, pin_snapshot_history.
  assert (∃ payload, project_checkpoint_for_contract (protocol_version (attachment d)) snapshot = Some payload ∧
    is_Some (AttachSnapshot.checkpoint payload) ∧ AttachSnapshot.history payload = AttachSnapshot.history snapshot ∧
    AttachSnapshot.history_rows payload = AttachSnapshot.history_rows snapshot ∧
    AttachSnapshot.scrollback_limit payload = AttachSnapshot.scrollback_limit snapshot) as (payload & -> & [ck Ek] & Eh' & Er' & El').
  { unfold project_checkpoint_for_contract. destruct (supports_extended_keys _); [by eexists; rewrite Ec|].
    rewrite Ec, Ep. pose proof (encode_prefix _ Hco). rewrite decide_True by done. by eexists. }
  cbn [expect mbind outcome_bind]. rewrite Eh', Eh, Er', Er, El', El. case_decide.
  { cbn. rewrite Ek, Eh', Eh. cbn. rewrite write_ok. cbn. by eexists. }
  pose proof (Henc (now d) (new_id (wire d))) as Hp. cbn [default].
  destruct (PinnedHistory.new _ _ _ _ _ _) as [[pinned recent]|e|]; [|done|done].
  cbn. rewrite Ek. cbn. rewrite write_ok. cbn. by eexists.
Qed.

(** After a checkpoint none is needed. *)
Lemma none_needed s requested revision stream snapshot d : delivers stream s requested revision snapshot →
  session d = s → sent_sequence (attachment d) = replay_of snapshot →
  checkpoint_geometry_revision (attachment d) = Some (LiveTerminal.geometry_revision s) → needed d = None.
Proof.
  intros Hs Es Esent Erev. unfold needed, chosen_checkpoint. rewrite Es, Esent, Erev.
  rewrite bool_decide_eq_false_2 by (pose proof (d_earliest _ _ _ _ _ Hs); lia).
  unfold geometry_checkpoint_required. by rewrite bool_decide_eq_false_2 by lia.
Qed.

Lemma pass_checkpoint stream changes d c : flow_ok capacity stream changes d → is_Some (applied_sequence (attachment d)) →
  in_flight_output (attachment d) = [] → needed d = Some c → encodable (protocol_version (attachment d)) c →
  ∃ d', send_pass owner terminal_id d = Ok (Some true, d') ∧ flow_ok capacity stream changes d' ∧ keeps d d' ∧
    needed d' = None ∧ (sent_sequence (attachment d) ≤ sent_sequence (attachment d'))%N.
Proof.
  intros Hf Ha Hi Hn Henc. pose proof (f_limit _ _ _ _ Hf) as Hlim. pose proof (f_charge _ _ _ _ Hf) as Hcharge.
  rewrite Hi in Hcharge. change (charges []) with 0%N in Hcharge.
  unfold send_pass. rewrite decide_False by lia.
  pose proof (snapshot_delivers capacity stream owner terminal_id (Some (sent_sequence (attachment d)))
    (checkpoint_geometry_revision (attachment d)) _ (f_window _ _ _ _ Hf)) as Hs.
  destruct (f_client _ _ _ _ Hf) as (base & bytes & _ & _ & Hpast & _).
  destruct (snapshot_for_delivery _ _ _ _ _) as [[[q next]|snapshot]|] eqn:Ed; simpl in Hs |- *; [|simpl|done].
  { destruct Hs as ([= <-] & -> & Hlt). lia. }
  pose proof (delivery_carries _ _ _ _ _ Ed Hn) as Hc. pose proof (proj1 Hc) as Ec. rewrite Ec, decide_True by done.
  pose proof (send_checkpoint_flow capacity stream changes _ _ snapshot d Hf Hi Ha (d_ahead _ _ _ _ _ Hs _ eq_refl) Hs) as Hsend.
  rewrite Ec in Hsend. specialize (Hsend (mk_is_Some _ _ eq_refl)).
  assert (captured_ok c) as Hco.
  { pose proof (chosen_spec capacity stream (Some (sent_sequence (attachment d))) (checkpoint_geometry_revision (attachment d))
      _ (f_window _ _ _ _ Hf)) as Hch. fold (needed d) in Hch. rewrite Hn in Hch. apply Hch. }
  destruct (checkpoint_written c snapshot d Hco Hc Henc) as (d' & E & Hk).
  rewrite E in Hsend |- *. simpl in Hsend |- *. destruct Hsend as ([Hf' _] & Es & Hsent).
  destruct (Hsent eq_refl) as (Esent & _ & Erev). exists d'. split_and!; [done|done|done|by eapply none_needed|].
  rewrite Esent. by apply (d_ahead _ _ _ _ _ Hs).
Qed.

(** A checkpoint that was asked for is taken afresh and sent. *)
Lemma fresh_sent stream changes s' d : flow_ok capacity stream changes d → is_Some (applied_sequence (attachment d)) →
  in_flight_output (attachment d) = [] → pending_checkpoint (attachment d) = true →
  LiveTerminal.refresh_checkpoint (session d) = Some s' → encodable (protocol_version (attachment d)) (captured s') →
  ∃ d', send_available_output owner terminal_id d = Ok (true, d') ∧ flow_ok capacity stream changes d' ∧
    keeps (refreshed s' d) d' ∧ needed d' = None ∧ unsent d' = 0.
Proof.
  intros Hf Ha Hi Hpc Es Henc. unfold send_available_output.
  rewrite decide_False by (by destruct Ha as [? ->]). rewrite Hpc, bool_decide_eq_true_2 by done. cbn [andb].
  destruct (fresh_flow owner terminal_id capacity _ _ _ _ Hf Es) as (snapshot & -> & Ed & Hf1 & Hs & Eend & Hck).
  cbn [expect mbind outcome_bind journal_result]. fold (refreshed s' d).
  assert (captured_ok (captured s')) as Hco by apply (w_captured _ _ _ (f_window _ _ _ _ Hf1)).
  destruct (checkpoint_written (captured s') snapshot (refreshed s' d) Hco) as (d' & E & Hk); [|done|].
  { by eapply delivery_carries. }
  pose proof (send_checkpoint_flow capacity stream changes None None snapshot (refreshed s' d) Hf1 Hi Ha) as Hsend. cbv beta in Hsend.
  destruct (f_client _ _ _ _ Hf1) as (base & bytes & _ & _ & Hpast & _).
  specialize (Hsend ltac:(by rewrite Eend) Hs Hck). rewrite E in Hsend |- *. destruct Hsend as ([Hf' _] & Es' & Hsent).
  destruct (Hsent eq_refl) as (Esent & _ & Erev). exists d'. split_and!; [done|done|done|by eapply none_needed|].
  rewrite (unsent_spec _ _ _ _ Hf'), Esent, Eend. lia.
Qed.

(** ** Rounds of acknowledging *)

Definition acknowledge d : outcome ConnectionError (bool * Driver.t) :=
  process_client_message owner terminal_id (ClientMessage.PresentationApplied (sent_sequence (attachment d))) d.

(** A client that acknowledges everything it has, [n] times *)
Fixpoint acknowledges (n : nat) d : outcome ConnectionError Driver.t :=
  match n with
  | 0 => Ok d
  | S n => '(connected, d) ← acknowledge d; if connected : bool then acknowledges n d else Ok d
  end.

(** What is left to send, in frames and checkpoints at most *)
Definition left_over d : nat :=
  if pending_checkpoint (attachment d) then 1 else unsent d + match needed d with Some _ => 1 | None => 0 end.

(** The checkpoint the next delivery sends, if any: a fresh one when the client asked for one *)
Definition next_checkpoint d : option GeometryCheckpoint.t :=
  if pending_checkpoint (attachment d) then captured <$> LiveTerminal.refresh_checkpoint (session d) else needed d.

(** The attachment can go on: it is in time, a checkpoint the client asked for can be taken,
    and the next checkpoint's history can be encoded. *)
Definition live d : Prop :=
  (now d < deadline d)%N ∧ (0 < attachment_liveness_timeout d)%N ∧
  (pending_checkpoint (attachment d) = true → is_Some (next_checkpoint d)) ∧
  ∀ c, next_checkpoint d = Some c → encodable (protocol_version (attachment d)) c.

Lemma chained_last window in_flight : ∀ from sent, chained window from in_flight sent →
  (from = sent ∧ in_flight = []) ∨ ((from < sent)%N ∧ ∃ x, x ∈ in_flight ∧ OutputDelivery.sequence_end x = sent).
Proof.
  induction in_flight as [|x l IH]; intros from sent; simpl; [by left|]. intros (Hlt & _ & Hc). right.
  destruct (IH _ _ Hc) as [[<- ->]|[Hlt' (y & Hy & Hs)]]; (split; [lia|]).
  - exists x. split; [by left|done].
  - exists y. split; [by right|done].
Qed.

Lemma acknowledge_all stream changes d : flow_ok capacity stream changes d →
  ∃ a, accept_presentation_progress (sent_sequence (attachment d)) (attachment d) = Ok a ∧
    flow_ok capacity stream changes (set_attachment a d) ∧ applied_sequence a = Some (sent_sequence (attachment d)) ∧
    sent_sequence a = sent_sequence (attachment d) ∧ in_flight_output a = [] ∧
    checkpoint_geometry_revision a = checkpoint_geometry_revision (attachment d) ∧
    protocol_version a = protocol_version (attachment d) ∧ pending_checkpoint a = pending_checkpoint (attachment d).
Proof.
  intros Hf. pose proof (accept_flow capacity stream changes (sent_sequence (attachment d)) d Hf) as Ha.
  pose proof (f_progress _ _ _ _ Hf) as Hp.
  assert (∃ a, accept_presentation_progress (sent_sequence (attachment d)) (attachment d) = Ok a ∧
    checkpoint_geometry_revision a = checkpoint_geometry_revision (attachment d) ∧
    protocol_version a = protocol_version (attachment d)) as (a & E & Er & Ev).
  { unfold accept_presentation_progress. rewrite decide_False by lia.
    destruct (pop_delivered _ _ _) as [rest charge].
    destruct (applied_sequence (attachment d)) as [applied|] eqn:Eap.
    - destruct (chained_last _ _ _ _ Hp) as [[-> Hi]|[Hlt (x & Hx & Hs)]].
      + rewrite decide_False by lia. rewrite decide_True by done. by eexists.
      + rewrite decide_False by lia. rewrite decide_False by lia.
        assert (existsb (λ delivery, bool_decide (OutputDelivery.sequence_end delivery = sent_sequence (attachment d)))
          (in_flight_output (attachment d)) = true) as ->; [|by eexists].
        apply existsb_exists. exists x. split; [by apply list_elem_of_In|by apply bool_decide_eq_true].
    - rewrite Hp. rewrite !bool_decide_eq_true_2 by done. by eexists. }
  rewrite E in Ha. destruct Ha as (Hf' & Eap & Es & Epc). exists a. split_and!; try done.
  pose proof (f_progress _ _ _ _ Hf') as Hp'. cbn in Hp'. rewrite Eap, Es in Hp'.
  destruct (chained_last _ _ _ _ Hp') as [[_ Hi]|[Hlt _]]; [done|lia].
Qed.

(** What an acknowledgement of everything sent leaves, before more is sent *)
Record acked stream changes d d1 : Prop := {
  a_flow : flow_ok capacity stream changes d1;
  a_step : acknowledge d = send_available_output owner terminal_id d1;
  a_applied : applied_sequence (attachment d1) = Some (sent_sequence (attachment d));
  a_sent : sent_sequence (attachment d1) = sent_sequence (attachment d);
  a_idle : in_flight_output (attachment d1) = [];
  a_revision : checkpoint_geometry_revision (attachment d1) = checkpoint_geometry_revision (attachment d);
  a_version : protocol_version (attachment d1) = protocol_version (attachment d);
  a_pending : pending_checkpoint (attachment d1) = pending_checkpoint (attachment d);
  a_session : session d1 = session d;
  a_time : (now d1 < deadline d1)%N ∧ (0 < attachment_liveness_timeout d1)%N }.

Lemma acknowledge_renews stream changes d : flow_ok capacity stream changes d → live d → ∃ d1, acked stream changes d d1.
Proof.
  intros Hf (Hdl & Hto & _). destruct (acknowledge_all _ _ _ Hf) as (a & Ea & Hfa & Eap & Es & Ei & Er & Ev & Epc).
  exists (renew_liveness (set_attachment a d)).
  assert (attachment (renew_liveness (set_attachment a d)) = a) as E1 by (unfold renew_liveness; by case_decide).
  split; rewrite ?E1; try done.
  - eapply flow_quiet; [exact Hfa|apply renew_quiet].
  - unfold acknowledge, process_client_message. rewrite decide_False by lia. by rewrite Ea.
  - unfold renew_liveness. by case_decide.
  - unfold renew_liveness. case_decide; cbn; lia.
Qed.

(** A round of which nothing is pending and no checkpoint is needed leaves the attachment live. *)
Lemma live_after d1 d' : (now d1 < deadline d1)%N ∧ (0 < attachment_liveness_timeout d1)%N → keeps d1 d' →
  pending_checkpoint (attachment d1) = false → needed d' = None → live d'.
Proof.
  intros [Hd Ht] [_ Ed En _ Et Ep] Hp Hn. unfold live, next_checkpoint. rewrite Ed, En, Et, Ep, Hp, Hn. by split_and!.
Qed.

Lemma round_progress stream changes d : flow_ok capacity stream changes d → live d →
  ∃ d', acknowledge d = Ok (true, d') ∧ flow_ok capacity stream changes d' ∧ live d' ∧ pending_checkpoint (attachment d') = false ∧
    (left_over d' < left_over d ∨
     (left_over d = 0 ∧ left_over d' = 0 ∧ unsent d = 0 ∧ sent_sequence (attachment d') = sent_sequence (attachment d) ∧
      applied_sequence (attachment d') = Some (sent_sequence (attachment d)) ∧ in_flight_output (attachment d') = [])).
Proof.
  intros Hf Hl. destruct (acknowledge_renews _ _ _ Hf Hl) as (d1 & [Hf1 -> Eap Es Ei Er Ev Epc Ess Htime]).
  destruct Hl as (_ & _ & Hnext & Henc). unfold next_checkpoint in *. rewrite <- Ev in Henc.
  assert (is_Some (applied_sequence (attachment d1))) as Ha1 by (by rewrite Eap).
  assert (needed d1 = needed d) as En by (unfold needed; by rewrite Ess, Es, Er).
  assert (unsent d1 = unsent d) as Eu by (unfold unsent; by rewrite Es, Ess). unfold left_over.
  destruct (pending_checkpoint (attachment d)) eqn:Hpc.
  { destruct (Hnext eq_refl) as [c Hc]. apply fmap_Some in Hc as (s' & Es' & _). rewrite Es' in Henc.
    rewrite <- Ess in Es'. destruct (fresh_sent _ _ _ _ Hf1 Ha1 Ei Epc Es' (Henc _ eq_refl)) as (d2 & Ep & Hf2 & Hk & Hn2 & Hu).
    pose proof (k_pending _ _ Hk) as Epc2. cbn in Epc2. exists d2. split_and!; [done|done|by apply (live_after (refreshed s' d1))|done|].
    left. rewrite Epc2, Hu, Hn2. lia. }
  unfold send_available_output. rewrite Eap, decide_False, Epc by done. cbn [andb].
  assert (∀ d2, keeps d1 d2 → needed d2 = None → live d2 ∧ pending_checkpoint (attachment d2) = false) as Hlive.
  { intros d2 Hk Hn. split; [by eapply live_after|]. by rewrite (k_pending _ _ Hk), Epc. }
  rewrite <- Es. destruct (needed d) as [c|] eqn:Hn.
  - destruct (pass_checkpoint stream changes d1 c Hf1 Ha1 Ei En (Henc _ eq_refl)) as (d2 & Ep & Hf2 & Hk & Hn2 & Hle).
    destruct (Hlive _ Hk Hn2) as [Hl2 Epc2]. cbn [send_loop]. rewrite Ep. cbn. exists d2. split_and!; [done..|].
    left. rewrite Epc2, Hn2, <- Eu, (unsent_spec _ _ _ _ Hf2), (unsent_spec _ _ _ _ Hf1). lia.
  - destruct (loop_frames stream changes (S (unsent d1)) d1 Hf1 Ha1 En ltac:(lia)) as (d2 & Ep & Hf2 & Hk & Hn2 & Hle & Hmore).
    destruct (Hlive _ Hk Hn2) as [Hl2 Epc2]. rewrite Ep. exists d2. split_and!; [done..|]. rewrite Epc2, Hn2, <- Eu.
    destruct (decide (unsent d1 = 0)) as [Hz|Hnz].
    + right. rewrite (drained_still _ _ _ _ Hf1 Ha1 En Hz) in Ep. injection Ep as <-. rewrite Hz. split_and!; [done..|by rewrite Es|done].
    + left. rewrite (unsent_spec _ _ _ _ Hf1) in Hnz. destruct (Hmore Ei) as [Hz|Hlt].
      * rewrite Hz, (unsent_spec _ _ _ _ Hf1). lia.
      * rewrite (unsent_spec _ _ _ _ Hf2), (unsent_spec _ _ _ _ Hf1). lia.
Qed.

Lemma rounds_drain stream changes n : ∀ d, flow_ok capacity stream changes d → live d → left_over d < n →
  ∃ d', acknowledges n d = Ok d' ∧ flow_ok capacity stream changes d' ∧
    sent_sequence (attachment d') = N.of_nat (length stream) ∧ pending_checkpoint (attachment d') = false ∧
    applied_sequence (attachment d') = Some (N.of_nat (length stream)) ∧ in_flight_output (attachment d') = [].
Proof.
  induction n as [|n IH]; intros d Hf Hl Hn; [lia|]. cbn [acknowledges].
  destruct (round_progress _ _ _ Hf Hl) as (d1 & E & Hf1 & Hl1 & Epc & Hprog). rewrite E. cbn [mbind outcome_bind].
  destruct Hprog as [Hlt|(Hz & Hz1 & Hu & Esent & Eap & Ei)]; [apply IH; [done|done|lia]|].
  destruct n as [|n].
  - exists d1. cbn. split; [done|]. split; [done|]. rewrite (unsent_spec _ _ _ _ Hf) in Hu.
    destruct (f_client _ _ _ _ Hf) as (_ & _ & _ & _ & Hpast & _).
    rewrite Esent, Eap. replace (sent_sequence (attachment d)) with (N.of_nat (length stream)) by lia. done.
  - apply IH; [done|done|lia].
Qed.
End progress.
