(* ===== verification/DaemonTheorems.v ===== *)
(** The properties of a terminal's output on its way to the clients: what the daemon keeps
    of it, what it delivers, how it is sent and acknowledged, how the history above the
    screen is paged, what the shell reports, and the contracts the two ends agree on. *)

From S2P Require Import Prelude.
From S2P Require Import TerminalInv.
From S2P Require Import Cells.
From S2P Require Import Lines.
From S2P Require Import Layout.
From S2P Require Import Journal.
From S2P Require Import Utf8.
From S2P Require Import Observers.
From S2P Require Import History.
From S2P Require Import Retention.
From S2P Require Import ShellState.
From S2P Require Import ShellReports.
From S2P Require Import LiveTerminal.
From S2P Require Import Leases.
From S2P Require Import Sessions.
From S2P Require Import Delivery.
From S2P Require Import LiveRuns.
From S2P Require Import Protocol.
From S2P Require Import Messages.
From S2P Require Import Paging.
From S2P Require Import FlowControl.
From S2P Require Import FlowInv.
From S2P Require Import FlowProgress.
From Stdlib Require Import Init.Byte Strings.Byte.
From stdpp Require Import strings.
Import LiveAttachment Driver.

(** * Output *)

(** C14. Whatever bytes a process writes, in whatever reads, the daemon takes them in
    without a panic, as long as its 64-bit counters have room: on a terminal of sensible
    size the reads of a whole run succeed and leave it well formed, of the same size, and
    ready to deliver exactly the bytes written. *)
Theorem output_never_panics `{UnicodeWidth} (size : TerminalSize.t) (capacity : nat) (history_capacity interval : N)
    (outputs : list (list byte))
    (Hcolumns : (2 ≤ TerminalSize.columns size < 65535)%N) (Hrows : (1 ≤ TerminalSize.rows size < 65536)%N)
    (Hcapacity : (1 ≤ history_capacity ≤ u64_MAX)%N)
    (Hroom : (2 * N.of_nat (length (mjoin outputs)) + N.of_nat (length outputs) < u64_MAX)%N) :
  (s ← LiveTerminal.new size capacity history_capacity; append_outputs interval outputs s) ⇓ λ s,
    live_ok s ∧ LiveTerminal.terminal_size s = size ∧ window_ok capacity (mjoin outputs) s.
Proof.
  eapply Safe_bind_partial; [by apply (new_ready _ _ _ _ _ Hcolumns Hrows Hcapacity Hroom)|apply new_window|].
  intros s (Hl & Hr & Esz & _ & Ep) [Hw _]. eapply Safe_mono.
  { apply (append_outputs_ready tidy_fit capacity interval outputs 0 [] s Hl); [by rewrite N.add_0_r|exact Hw|simpl; lia|by rewrite Ep]. }
  intros s' (Hl' & _ & Esz' & Hw' & _). split_and!; [done|congruence|exact Hw'].
Qed.


(** The boundaries of reads do not matter: two ways to cut the same bytes into reads
    leave the same input modes, parser and alternate-screen observer, the same bytes of
    an unfinished character, and the same range of retained output, whatever the
    intervals between checkpoints. *)
Theorem read_boundaries_invisible `{UnicodeWidth} (size : TerminalSize.t) (capacity : nat) (history_capacity : N)
    (interval interval' : N) (outputs outputs' : list (list byte))
    (Hcolumns : (2 ≤ TerminalSize.columns size < 65535)%N) (Hrows : (1 ≤ TerminalSize.rows size < 65536)%N)
    (Hcapacity : (1 ≤ history_capacity ≤ u64_MAX)%N)
    (Hsame : mjoin outputs = mjoin outputs')
    (Hroom : (2 * N.of_nat (length (mjoin outputs)) + N.of_nat (length outputs + length outputs') < u64_MAX)%N) :
  LiveTerminal.new size capacity history_capacity ⇓ λ s,
    append_outputs interval outputs s ⇓ λ s1, append_outputs interval' outputs' s ⇓ λ s2,
      decoder s1 = decoder s2 ∧ LiveTerminal.pending_input s1 = LiveTerminal.pending_input s2 ∧
      OutputJournal.earliest_sequence (LiveTerminal.journal s1) = OutputJournal.earliest_sequence (LiveTerminal.journal s2) ∧
      OutputJournal.next_sequence (LiveTerminal.journal s1) = OutputJournal.next_sequence (LiveTerminal.journal s2).
Proof.
  eapply Safe_mono; [eapply Safe_partial; [apply (new_ready _ _ _ _ _ Hcolumns Hrows Hcapacity Hroom)|apply new_window]|].
  intros s [(Hl & Hr & _ & _ & Ep) [Hw _]].
  assert (∀ interval outs, mjoin outs = mjoin outputs → (N.of_nat (length outs) ≤ N.of_nat (length outputs + length outputs'))%N →
    append_outputs interval outs s ⇓ λ s', window_ok capacity (mjoin outputs) s' ∧ decoded (mjoin outputs) s s') as Hrun.
  { intros i outs E Hle. eapply Safe_mono.
    - apply (append_outputs_ready tidy_fit capacity i outs (N.of_nat (length outputs + length outputs') - N.of_nat (length outs)) [] s Hl);
        [|exact Hw|rewrite E; simpl; lia|by rewrite Ep].
      rewrite E. by replace (N.of_nat (length outs) + _)%N with (N.of_nat (length outputs + length outputs')) by lia.
    - rewrite E. intros s' (_ & _ & _ & Hw' & Hd). done. }
  eapply Safe_mono; [apply (Hrun interval outputs); [done|lia]|]. intros s1 [Hw1 Hd1].
  eapply Safe_mono; [apply (Hrun interval' outputs'); [done|lia]|]. intros s2 [Hw2 Hd2].
  unfold decoded in Hd1, Hd2. destruct (lossy _) as [cs rest]. destruct Hd1 as [Hd1 ->], Hd2 as [Hd2 ->].
  split_and!; [congruence|done| |].
  - by rewrite !(earliest_spec _ _ _ (w_journal _ _ _ Hw1)), !(earliest_spec _ _ _ (w_journal _ _ _ Hw2)),
      (j_retained _ _ _ (w_journal _ _ _ Hw1)), (j_retained _ _ _ (w_journal _ _ _ Hw2)).
  - destruct (earliest_le_next _ _ _ (w_journal _ _ _ Hw1)) as [_ ->].
    by destruct (earliest_le_next _ _ _ (w_journal _ _ _ Hw2)) as [_ ->].
Qed.

(** C13. What a client is given refines the stream of output: for any state a terminal can
    be in, a delivery never fails but for a place ahead of the stream; otherwise it is
    the stream itself from the place asked for, or from a checkpoint taken later, within
    the output retained, and always behind the last change of size when the client does
    not know the size. *)
Theorem delivery_refines_stream `{UnicodeWidth, HomeDirectory} (size : TerminalSize.t) (capacity : nat) (history_capacity : N)
    (stream : list byte) (s : LiveTerminal.t) (owner : TerminalOwner.t) (terminal_id : string) (requested revision : option N)
    (Hlife : life size capacity history_capacity stream s) :
  snapshot_for_delivery owner terminal_id requested revision s ⇓ λ r,
    match r with
    | inl (SequenceAhead q next) => requested = Some q ∧ next = N.of_nat (length stream) ∧ (next < q)%N
    | inr a => delivers stream s requested revision a
    end.
Proof. eapply snapshot_delivers, life_window, Hlife. Qed.

(** C40. The state of the shell that is published is always valid: a command line only at
    a prompt, a running command only while one runs and the shell can report it, their
    cursors and names in bounds.  What a client is shown of it is valid too, and
    nothing of a command the client may not view. *)
Theorem shell_states_valid `{UnicodeWidth, HomeDirectory} (size : TerminalSize.t) (capacity : nat) (history_capacity : N)
    (stream : list byte) (s : LiveTerminal.t) (line command : bool)
    (Hlife : life size capacity history_capacity stream s) :
  let shown := shell_state_for_visibility line command s in
  ShellState.has_valid_metadata (LiveTerminal.shell_state s) = true ∧
  ShellState.has_valid_metadata shown = true ∧
  ShellState.current_command_line shown = (if line then ShellState.current_command_line (LiveTerminal.shell_state s) else None) ∧
  ShellState.running_command shown = (if command then ShellState.running_command (LiveTerminal.shell_state s) else None).
Proof.
  cbn zeta. pose proof (life_shell _ _ _ _ _ Hlife) as Hv. split_and!; [done|by apply filtered_valid| |].
  - unfold shell_state_for_visibility, ShellState.filtered_for_visibility. cbn. destruct line; [done|].
    by destruct (ShellState.current_command_line _).
  - unfold shell_state_for_visibility, ShellState.filtered_for_visibility. cbn. destruct command; [done|].
    by destruct (ShellState.running_command _).
Qed.

(** Shell reports are read one record at a time whatever the pieces they arrive in:
    the reports of any well-delimited records are those of the records that fit the
    bounds and parse, and a record that is too long costs nothing but itself. *)
Theorem shell_records_independent (records : list (list (list N))) (reads : list (list N))
    (Hrecords : Forall well_delimited records) (Hreads : mjoin reads = mjoin (spell <$> records)) :
  push_all reads RecordParser.default = (omap report_of records, RecordParser.default).
Proof. rewrite push_all_join, Hreads. by apply push_records. Qed.

(** * Attachments *)

Section attachments.
Context `{UnicodeWidth, HistoryCodec, Connection, AttachInput, HomeDirectory}.
Context (owner : TerminalOwner.t) (terminal_id : string) (size : TerminalSize.t) (capacity : nat) (history_capacity : N).

(** An attachment that began in some state of the terminal, with what happened since *)
Definition attached (request : AttachParameters.t) (w : World) : Prop :=
  ∃ stream s time token leases d,
    life size capacity history_capacity stream s ∧
    valid_presentation_window (AttachParameters.presentation_window_bytes request) = true ∧
    start_attachment owner terminal_id time token leases request s = Ok (Some d) ∧
    rtc (world_step owner terminal_id)
      (MkWorld stream (option_list (LiveTerminal.last_geometry_change_sequence s)) d) w.

Lemma attached_flow request w : attached request w → flow_ok capacity (FlowInv.stream w) (FlowInv.changes w) (driver w).
Proof.
  intros (stream & s & time & token & leases & d & Hlife & Hvalid & Hbegin & Hrun).
  apply (worlds_ok owner terminal_id capacity _ _ Hrun). unfold world_ok. cbn [FlowInv.stream FlowInv.changes driver].
  pose proof (begin_flow owner terminal_id capacity stream time token leases request s (life_window _ _ _ _ _ Hlife) Hvalid) as Hf.
  rewrite Hbegin in Hf. destruct Hf as [Hf _]. by destruct (LiveTerminal.last_geometry_change_sequence s).
Qed.

(** C4. What a client receives is right at every moment of an attachment, whatever the
    process, the other clients, the connection and the client itself do: since its last
    checkpoint it has a contiguous piece of the output, none of it behind a change of
    size; the bytes it has not acknowledged stay within its window, and so does the
    number of frames; and no turn of the driver panics unless a fresh checkpoint of the
    screen cannot be taken. *)
Theorem attachment_follows_stream (request : AttachParameters.t) (w : World) (Hattached : attached request w) :
  let a := attachment (driver w) in
  (∃ base bytes, received (wire (driver w)) = Some (base, bytes) ∧
     bytes = take (length bytes) (drop (N.to_nat base) (FlowInv.stream w)) ∧
     sent_sequence a = (base + N.of_nat (length bytes))%N ∧ (sent_sequence a ≤ N.of_nat (length (FlowInv.stream w)))%N ∧
     ∀ b, b ∈ FlowInv.changes w → (b ≤ base ∨ sent_sequence a ≤ b)%N) ∧
  (∀ applied, applied_sequence a = Some applied → (applied ≤ sent_sequence a ≤ applied + presentation_window_bytes a)%N) ∧
  (N.of_nat (length (in_flight_output a)) * (presentation_window_bytes a `min` MIN_OUTPUT_FRAME_CHARGE_BYTES)
     ≤ presentation_window_bytes a)%N ∧
  (∀ m, turn owner terminal_id (driver w) m → m = Panic → LiveTerminal.refresh_checkpoint (session (driver w)) = None).
Proof.
  cbn zeta. pose proof (attached_flow _ _ Hattached) as Hf.
  destruct (f_client _ _ _ _ Hf) as (base & bytes & Hr & Hsent & Hpast & Hbytes & Hgeo & _).
  pose proof (f_progress _ _ _ _ Hf) as Hp. pose proof (f_charge _ _ _ _ Hf) as Hc. pose proof (f_fits _ _ _ _ Hf) as Hfit.
  split_and!; [by exists base, bytes| | |].
  - intros applied E. rewrite E in Hp. pose proof (chained_bounds _ _ _ _ Hp). pose proof (chained_le _ _ _ _ Hp). lia.
  - destruct (applied_sequence _) as [applied|]; [|rewrite Hp; simpl; lia].
    pose proof (chained_bounds _ _ _ _ Hp). lia.
  - intros m Ht ->. pose proof (turn_flow owner terminal_id capacity _ _ _ _ Hf Ht) as Hh. exact Hh.
Qed.

End attachments.

(** * History *)

(** The window of history a checkpoint carries is exact: capturing rows never
    panics, and the lines kept are the longest run of newest complete lines that fits
    both bounds, counted to the byte; a new revision means new content, and the same
    content keeps the revision. *)
Theorem history_window_exact (rows : list HistoryRow.t) (cut : bool) (h : TerminalHistory.t)
    (Hrevision : (TerminalHistory.revision h < u64_MAX)%N)
    (Hbytes : TerminalHistory.retained_bytes h = lines_bytes (TerminalHistory.lines h)) :
  (p ← PhysicalHistory.new rows; TerminalHistory.replace (PhysicalHistory.lines p) cut h) ⇓ λ h', ∃ k,
    keeps_suffix (MAX_NORMALIZED_HISTORY_BYTES `min` TerminalHistory.capacity_bytes h)%N (complete_lines rows []) k ∧
    TerminalHistory.lines h' = drop k (complete_lines rows []) ∧
    TerminalHistory.retained_bytes h' = lines_bytes (TerminalHistory.lines h') ∧
    TerminalHistory.generation h' = TerminalHistory.generation h ∧
    (h' ≠ h → TerminalHistory.revision h' = TerminalHistory.revision h + 1)%N ∧
    (TerminalHistory.lines h = TerminalHistory.lines h' → TerminalHistory.truncated h = TerminalHistory.truncated h' → h' = h).
Proof. by apply window_of_rows. Qed.

(** A history that counts as complete was served: whatever requests for pages arrive,
    in whatever order and at whatever times, every page is the piece of the data asked
    for, and once [complete] holds every byte of the data was in one of them. *)
Theorem complete_history_was_served (h : PinnedHistory.t) (requests : list (N * HistoryRequest.t))
    (Hnew : PinnedHistory.served_end h = 0) :
  let '(answers, h') := serve requests h in
  PinnedHistory.data h' = PinnedHistory.data h ∧ Forall (slice_of (PinnedHistory.data h)) answers ∧
  (PinnedHistory.complete h' = true → ∀ i b, PinnedHistory.data h !! i = Some b → served_byte answers i b).
Proof.
  pose proof (serve_spec requests h ltac:(lia)) as Hs. destruct (serve requests h) as [answers h'].
  destruct Hs as (Ed & _ & Hs & _ & Hb). split_and!; [done|done|].
  intros Hc%bool_decide_eq_true i b Hi. apply Hb; [|done]. rewrite Hc, Ed, Hnew.
  apply lookup_lt_Some in Hi. lia.
Qed.

(** * Contracts *)

(** A version is read exactly from its own text: three 16-bit numbers without leading
    zeros between dots, the first of them not zero. *)
Theorem version_text_roundtrip (value : list char) (v : ProtocolVersion.t) :
  ProtocolVersion.from_str value = Some v ↔
  (0 < ProtocolVersion.major v < 65536)%N ∧ (ProtocolVersion.minor v < 65536)%N ∧ (ProtocolVersion.build v < 65536)%N ∧
  value = ProtocolVersion.to_string v.
Proof. rewrite from_str_iff. unfold version_ok. tauto. Qed.

(** Both ends negotiate the same contract: when both offers are valid, each end reads
    the same version from the other's offer, the newest contract both support, which both
    offers accept; there is none exactly when they share no contract. *)
Theorem negotiation_agrees (ours theirs : ProtocolOffer.t)
    (Hours : ProtocolOffer.is_valid ours = true) (Htheirs : ProtocolOffer.is_valid theirs = true) :
  let selected := ProtocolOffer.negotiate theirs (ProtocolOffer.supported_versions ours) in
  ProtocolOffer.negotiate ours (ProtocolOffer.supported_versions theirs) = selected ∧
  match selected with
  | Some v =>
      ProtocolOffer.accepts ours v = true ∧ ProtocolOffer.accepts theirs v = true ∧
      ∀ w, ProtocolOffer.accepts ours w = true → ProtocolOffer.accepts theirs w = true → ProtocolVersion.le w v = true
  | None => ∀ w, ProtocolOffer.accepts ours w = true → ProtocolOffer.accepts theirs w = false
  end.
Proof.
  assert (∀ o w, ProtocolOffer.is_valid o = true →
    ProtocolOffer.accepts o w = true ↔ w ∈ ProtocolOffer.supported_versions o) as Hacc.
  { intros o w Ho. unfold ProtocolOffer.accepts. rewrite Ho. apply bool_decide_eq_true. }
  assert (∀ o, ProtocolOffer.is_valid o = true → valid_versions (ProtocolOffer.supported_versions o) = true) as Hvalid.
  { intros o. unfold ProtocolOffer.is_valid, valid_offer. rewrite !andb_true_iff. tauto. }
  cbn zeta. unfold ProtocolOffer.negotiate. rewrite Hours, Htheirs.
  assert (∀ a b, valid_versions a = true → valid_versions b = true → negotiate_versions a b = negotiate_versions b a) as Hsym.
  { intros a b Ha Hb. apply option_eq. intros v. rewrite !negotiate_versions_spec. naive_solver. }
  split; [by apply Hsym; eapply Hvalid|].
  destruct (negotiate_versions _ _) as [v|] eqn:E.
  - apply negotiate_versions_spec in E as (_ & Ht & Ho & Hmax). rewrite !Hacc by done.
    split_and!; [done|done|]. intros w. rewrite !Hacc by done. auto.
  - intros w Hw. apply not_true_is_false. rewrite Hacc in Hw |- * by done. intros Hw'.
    unfold negotiate_versions in E. rewrite (Hvalid ours Hours) in E.
    pose proof (max_version_spec (filter (λ w, w ∈ ProtocolOffer.supported_versions theirs) (ProtocolOffer.supported_versions ours))) as Hm.
    rewrite E in Hm. apply (not_elem_of_nil w). rewrite <- Hm. by apply list_elem_of_filter.
Qed.

(** * A daemon to run *)

(** Narrow characters, a connection that always writes, rows encoded as their text *)
#[local] Instance ascii_width : UnicodeWidth := λ c, if (c <? 32)%N then None else Some 1.
#[local] Instance plain_paths : HomeDirectory := λ path, path.
#[local] Instance open_connection : Connection :=
  {| write_frame _ _ := Written; new_id messages := "h"%string |}.
Definition heartbeat_reply (message : ClientMessage.t) : option ServerMessage.t :=
  match message with
  | ClientMessage.Heartbeat nonce => Some (ServerMessage.HeartbeatAck nonce None)
  | _ => None
  end.
#[local] Instance heartbeats_only : AttachInput.
Proof. exists (λ _, heartbeat_reply). intros _ [] reply Hr; by simplify_eq/=. Defined.
#[local] Instance text_codec : HistoryCodec := {|
  row_json _ row := mapM Byte.of_N (HistoryRow.text row);
  line_json line := mapM Byte.of_N line;
  digest data := ""%string |}.

Definition small_size : TerminalSize.t := TerminalSize.Mk 4 2 0 0.
Definition shell_owner : TerminalOwner.t := TerminalOwner.Mk 0 "s" "v" "main".

(** A terminal that wrote "hello!" *)
Definition sample : option LiveTerminal.t :=
  s ← LiveTerminal.new small_size 8 64;
  '(_, _, s) ← append_output 1 [x68; x65; x6c; x6c; x6f; x21] s;
  Some s.

Lemma sample_life s : sample = Some s → life small_size 8 64 [x68; x65; x6c; x6c; x6f; x21] s.
Proof.
  unfold sample. intros (s0 & E0 & H)%bind_Some. apply bind_Some in H as ([[events published] s1] & E1 & [= <-]).
  eapply (life_output _ _ _ []); [by apply life_new|exact E1].
Qed.

(** A client that has the first byte and asks for the rest, three bytes at a time *)
Definition sample_request : AttachParameters.t :=
  AttachParameters.Mk CONTRACT_V1_3_23 (Some 1%N) small_size true true 3 1000.
Definition sample_driver : option Driver.t :=
  s ← sample;
  match start_attachment shell_owner "t" 5 "token" (AttachmentLeases.Mk (LeaseStatus.Mk false false) (LeaseStatus.Mk false false))
          sample_request s with
  | Ok d => d
  | _ => None
  end.

Lemma sample_attached d : sample_driver = Some d →
  attached shell_owner "t" small_size 8 64 sample_request (MkWorld [x68; x65; x6c; x6c; x6f; x21] [] d).
Proof.
  unfold sample_driver. intros (s & Es & H)%bind_Some.
  destruct (start_attachment _ _ _ _ _ _ _) as [d'|e|] eqn:E; [|done|done]. subst d'.
  assert (option_list (LiveTerminal.last_geometry_change_sequence s) = []) as Eb.
  { assert (option_list (sample ≫= LiveTerminal.last_geometry_change_sequence) = []) as H by (vm_compute; done).
    by rewrite Es in H. }
  do 6 eexists. split_and!; [by apply sample_life|done|exact E|]. rewrite Eb. apply rtc_refl.
Qed.

(** * Where a terminal of the daemon panics *)

(** A terminal of no rows and columns cannot be made. *)
Lemma sizeless_panics `{UnicodeWidth} capacity history_capacity :
  LiveTerminal.new (TerminalSize.Mk 0 0 0 0) capacity history_capacity = None.
Proof. by vm_compute. Qed.

(** Output and resizes that leave a primary screen that cannot be shown again.  The narrower
    resize leaves the last row of the screen linked to a next one that does not exist; the
    other, behind the alternate screen, changes the columns again and keeps the row; and when
    the program returns to the primary screen, the reflow follows the link past the end
    ([relative_position]). *)
Definition stranding (s : LiveTerminal.t) : option LiveTerminal.t :=
  '(_, _, s) ← LiveTerminal.append_output 100 [x78; x0d; x0a; x61; x62; x63; x64; x65; x66; x67; x68; x20; x1b; x5b; x31; x3b; x32; x48] s;
  '(_, s) ← LiveTerminal.resize_live (TerminalSize.Mk 4 3 0 0) s;
  '(_, _, s) ← LiveTerminal.append_output 100 [x1b; x5b; x3f; x31; x30; x34; x37; x68] s;
  '(_, s) ← LiveTerminal.resize_live (TerminalSize.Mk 2 6 0 0) s;
  '(_, _, s) ← LiveTerminal.append_output 100 [x1b; x5b; x36; x3b; x32; x48] s;
  Some s.

Lemma primary_return_panics :
  match LiveTerminal.new (TerminalSize.Mk 8 3 0 0) 1000 1000 ≫= stranding with
  | Some s => LiveTerminal.append_output 100 [x1b; x5b; x3f; x31; x30; x34; x37; x6c] s = None
  | None => False
  end.
Proof. by vm_compute. Qed.

(** * The theorems at work *)

Lemma output_never_panics_witness :
  (s ← LiveTerminal.new small_size 8 64; append_outputs 1 [[x61; xe4]; [xb8; x80; x1b; x5b]; [x3f; x32; x35; x6c; xff]] s)
    ⇓ λ s, LiveTerminal.terminal_size s = small_size.
Proof.
  eapply Safe_mono; [apply (output_never_panics small_size 8 64 1 [[x61; xe4]; [xb8; x80; x1b; x5b]; [x3f; x32; x35; x6c; xff]]);
    vm_compute; done|]. by intros s (_ & ? & _).
Defined.

Lemma read_boundaries_invisible_witness :
  (s ← LiveTerminal.new small_size 8 64; append_outputs 1 [[x61; xe4; xb8]; [x80; x1b; x5b; x3f]; [x32; x35]] s) ⇓ λ s1,
  (s ← LiveTerminal.new small_size 8 64; append_outputs 64 [[x61]; [xe4; xb8; x80; x1b]; [x5b; x3f; x32; x35]] s) ⇓ λ s2,
    decoder s1 = decoder s2.
Proof.
  destruct (Safe_elim _ _ (read_boundaries_invisible small_size 8 64 1 64
    [[x61; xe4; xb8]; [x80; x1b; x5b; x3f]; [x32; x35]] [[x61]; [xe4; xb8; x80; x1b]; [x5b; x3f; x32; x35]]
    ltac:(vm_compute; done) ltac:(vm_compute; done) ltac:(vm_compute; done) eq_refl ltac:(vm_compute; done))) as (s & -> & H).
  cbn [mbind option_bind]. eapply Safe_mono; [exact H|]. intros s1 H1. cbn beta in H1 |- *.
  eapply Safe_mono; [exact H1|]. by intros s2 [? _].
Defined.

Lemma delivery_refines_stream_witness :
  (s ← sample; snapshot_for_delivery shell_owner "t" (Some 9%N) None s) = Some (inl (SequenceAhead 9 6)).
Proof.
  destruct sample as [s|] eqn:E; [|by vm_compute in E]. cbn [mbind option_bind].
  destruct (Safe_elim _ _ (delivery_refines_stream small_size 8 64 _ s shell_owner "t" (Some 9%N) None (sample_life s E)))
    as ([[q n]|a] & Er & Hr).
  - destruct Hr as ([= <-] & -> & _). exact Er.
  - exfalso. pose proof (d_ahead _ _ _ _ _ Hr 9%N eq_refl). pose proof (d_next _ _ _ _ _ Hr) as Hn. cbn in Hn. lia.
Defined.

Lemma shell_states_valid_witness :
  ∃ s, sample = Some s ∧ ShellState.has_valid_metadata (shell_state_for_visibility false true s) = true.
Proof.
  destruct sample as [s|] eqn:E; [|by vm_compute in E]. exists s. split; [done|].
  destruct (shell_states_valid small_size 8 64 _ s false true (sample_life s E)) as (_ & Hv & _). exact Hv.
Defined.

(** "ctmux-shell-report-v1", a bash shell that reports its directory, at "/" *)
Definition sample_record : list (list N) :=
  [REPORT_MAGIC_V1; str "bash"; str "1"; str "cwd"; str "/"; str "unknown"; str "0"; []; []].

Lemma shell_records_independent_witness :
  ∃ report, (push_all [take 7 (spell sample_record); drop 7 (spell sample_record)] RecordParser.default).1 = [report] ∧
    ShellReport.cwd report = Some (str "/").
Proof.
  rewrite (shell_records_independent [sample_record]).
  - eexists. split; vm_compute; reflexivity.
  - constructor; [|constructor]. split; [reflexivity|]. repeat constructor; vm_compute; done.
  - vm_compute. reflexivity.
Defined.

Lemma attachment_follows_stream_witness :
  ∃ d, sample_driver = Some d ∧ ∃ base bytes, received (wire d) = Some (base, bytes).
Proof.
  destruct sample_driver as [d|] eqn:E; [|by vm_compute in E]. exists d. split; [done|].
  destruct (attachment_follows_stream _ _ _ _ _ _ _ (sample_attached d E)) as [(base & bytes & Hr & _) _].
  exists base, bytes. exact Hr.
Defined.




Definition sample_row (text : list char) : HistoryRow.t := HistoryRow.Mk text false [].

Lemma history_window_exact_witness :
  ∃ h, (p ← PhysicalHistory.new [sample_row [0x61; 0x62; 0x63]%N; sample_row [0x64]%N];
        TerminalHistory.replace (PhysicalHistory.lines p) false (TerminalHistory.new 4)) = Some h ∧
    TerminalHistory.retained_bytes h = lines_bytes (TerminalHistory.lines h) ∧ TerminalHistory.lines h = [[0x64%N]].
Proof.
  destruct (Safe_elim _ _ (history_window_exact [sample_row [0x61; 0x62; 0x63]%N; sample_row [0x64]%N] false (TerminalHistory.new 4)
    ltac:(vm_compute; done) ltac:(vm_compute; done))) as (h & E & k & _ & _ & Hb & _).
  exists h. split_and!; [exact E|exact Hb|]. vm_compute in E. injection E as <-. reflexivity.
Defined.

Lemma complete_history_was_served_witness :
  ∃ h, PinnedHistory.data h = [x61; x62] ∧
    served_byte (serve [(1%N, HistoryRequest.Mk "h" 0 1); (2%N, HistoryRequest.Mk "h" 1 1)] h).1 1 x62.
Proof.
  exists (PinnedHistory.Mk (TerminalHistoryManifest.Mk "h" 0 0 0 1 2 1 0 false "" 100) [x61; x62] 0 0). split; [done|].
  pose proof (complete_history_was_served
    (PinnedHistory.Mk (TerminalHistoryManifest.Mk "h" 0 0 0 1 2 1 0 false "" 100) [x61; x62] 0 0)
    [(1%N, HistoryRequest.Mk "h" 0 1); (2%N, HistoryRequest.Mk "h" 1 1)] eq_refl) as H.
  destruct (serve _ _) as [answers h'] eqn:E. destruct H as (_ & _ & H).
  cbn [fst]. apply H; [|reflexivity]. replace h' with (serve [(1%N, HistoryRequest.Mk "h" 0 1); (2%N, HistoryRequest.Mk "h" 1 1)]
    (PinnedHistory.Mk (TerminalHistoryManifest.Mk "h" 0 0 0 1 2 1 0 false "" 100) [x61; x62] 0 0)).2 by (by rewrite E).
  vm_compute. reflexivity.
Defined.

Lemma negotiation_agrees_witness :
  ProtocolOffer.is_valid protocol_offer = true ∧
  ProtocolOffer.negotiate protocol_offer [CONTRACT_V1_0_13; CONTRACT_V1_1_16] = Some CONTRACT_V1_1_16.
Proof.
  split; [vm_compute; reflexivity|].
  destruct (negotiation_agrees (ProtocolOffer.new 16 CONTRACT_V1_1_16 [CONTRACT_V1_0_13; CONTRACT_V1_1_16]) protocol_offer
    ltac:(vm_compute; reflexivity) ltac:(vm_compute; reflexivity)) as [H _].
  transitivity (ProtocolOffer.negotiate (ProtocolOffer.new 16 CONTRACT_V1_1_16 [CONTRACT_V1_0_13; CONTRACT_V1_1_16])
    (ProtocolOffer.supported_versions protocol_offer)); [symmetry; exact H|]. vm_compute. reflexivity.
Defined.
