(* ===== verification/ClientTheorems.v ===== *)
(** The properties of a client and its daemon together: the client can always attach, each
    end always takes what the other sends, and the history above the screen arrives. *)

From S2P Require Import Prelude.
From S2P Require Import Cells.
From S2P Require Import Layout.
From S2P Require Import Journal.
From S2P Require Import History.
From S2P Require Import Retention.
From S2P Require Import LiveTerminal.
From S2P Require Import Leases.
From S2P Require Import Sessions.
From S2P Require Import Delivery.
From S2P Require Import LiveRuns.
From S2P Require Import Protocol.
From S2P Require Import Messages.
From S2P Require Import Paging.
From S2P Require Import FlowControl.
From S2P Require Import Client.
From S2P Require Import HistorySync.
From S2P Require Import Controller.
From S2P Require Import Wire.
From S2P Require Import FlowInv.
From S2P Require Import Pairing.
From S2P Require Import DaemonTheorems.
From stdpp Require Import strings.
From Stdlib Require Import Init.Byte Strings.Byte.
Import Controller LiveAttachment Driver.

Section clients.
Context `{UnicodeWidth, HistoryCodec, RowParser, Connection, AttachInput, HomeDirectory, !CodecLaws}.
Context (owner : TerminalOwner.t) (terminal_id : string) (capacity : nat).
Context (ids : ∀ written, new_id written ≠ ""%string).

(** Client and daemon of an attachment, with whatever happened since it began *)
Definition running (request : AttachParameters.t) (s : System) : Prop :=
  ∃ s0, begun owner terminal_id capacity request s0 ∧ rtc (system_step owner terminal_id) s0 s.

Lemma running_paired request s : running request s → paired capacity s.
Proof. intros (s0 & Hb & Hrun). eapply systems_paired; [done|exact Hrun|by eapply begun_paired]. Qed.

(** A client accepts every attachment the daemon begins: whatever the output so far
    and wherever the client asks to resume, the answer is one it takes, with its
    checkpoint, its history and the transfer announced, and it starts where the daemon
    stands. *)
Theorem attachment_opens (stream : list byte) (terminal : LiveTerminal.t) (time : N) (token : string)
    (leases : AttachmentLeases.t) (request : AttachParameters.t) (d : Driver.t) (info : HandshakeInfo.t)
    (options : AttachmentControllerOptions.t)
    (Hwindow : window_ok capacity stream terminal)
    (Hvalid : valid_presentation_window (AttachParameters.presentation_window_bytes request) = true)
    (Hstart : start_attachment owner terminal_id time token leases request terminal = Ok (Some d))
    (Hcommands : AttachmentControllerOptions.command_queue_capacity options ≠ 0)
    (Hevents : AttachmentControllerOptions.event_queue_capacity options ≠ 0) :
  ∃ attached c, begin_attachment info (head (wire d)) = Ok attached ∧ Controller.new attached options = Ok c ∧
    AttachmentState.received_sequence (state (start c)) = sent_sequence (attachment d) ∧
    pending_presentations (start c) = awaiting (attachment d).
Proof using Type*.
  pose proof (begin_flow owner terminal_id capacity stream time token leases request terminal Hwindow Hvalid) as Hf.
  rewrite Hstart in Hf. destruct Hf as (_ & message & Ew & Ho & Ea). rewrite Ew, Ea. cbn [head].
  destruct (attaches ids message _ info options Ho Hcommands Hevents) as (attached & c & E1 & E2 & Er & Ep & _).
  by exists attached, c.
Qed.

(** C2. Neither end rejects what the other sends: whatever the process, the user, the
    network's pace and the presentation do, the next acknowledgement on its way is one the
    daemon accepts, the next output or checkpoint on its way is one the client accepts
    once it is ready for it, and the oldest presentation the client is owed can always be
    acknowledged. *)
Theorem attachment_never_rejects (request : AttachParameters.t) (s : System) (Hrunning : running request s) :
  (∀ n rest, upstream s = ClientMessage.PresentationApplied n :: rest →
     ∃ a, accept_presentation_progress n (attachment (daemon s)) = Ok a) ∧
  (∀ message rest, in_transit s = message :: rest → ready_for_message (client s) = true →
     is_Some (presentation_of message) → ∃ c, process_server_message message (client s) = Ok (Continue, c)) ∧
  (∀ p rest, pending_presentations (client s) = p :: rest →
     ∃ acknowledgement r, accept_presentation_acknowledgement acknowledgement (client s) = Ok r).
Proof using Type*.
  pose proof (running_paired _ _ Hrunning) as Hp. split_and!.
  - intros n rest Eu. destruct (p_ledger _ _ Hp) as (unheard & Hcov & Hled). unfold told in Hcov. rewrite Eu in Hcov.
    destruct (covers_head _ _ _ Hcov) as (group & p & unheard' & -> & <- & _).
    destruct (accepts capacity _ _ _ group p (unheard' ++ pending_presentations (client s) ++ presentations (in_transit s))
      (p_flow _ _ Hp)) as (a & Ea & _); [|by eexists].
    unfold daemon in *. rewrite Hled. by rewrite <- app_assoc.
  - intros message rest Et Hready [p Hpres]. pose proof (p_transit _ _ Hp) as Hs. rewrite Et in Hs.
    apply sends_cons in Hs as (n & Hm & _). pose proof (takes ids _ _ _ _ Hm eq_refl Hready) as Ht.
    rewrite Hpres in Ht. destruct Ht as (c & E & _). by exists c.
  - intros p rest E. destruct (acknowledgeable p rest (client s) E) as (acknowledgement & r & Er). by exists acknowledgement, r.
Qed.

(** C18. Both ends agree on where the client is: it never has more than was sent, its place
    to resume from never lies ahead of what it received, and once nothing is on its way
    and everything was acknowledged, both know the same place and nothing counts as in
    flight. *)
Theorem attachment_agrees (request : AttachParameters.t) (s : System) (Hrunning : running request s) :
  let received := AttachmentState.received_sequence (state (client s)) in
  let sent := sent_sequence (attachment (daemon s)) in
  (received ≤ sent ≤ N.of_nat (length (FlowInv.stream (world s))))%N ∧
  (∀ place, AttachmentState.resume_sequence (state (client s)) = Some place → (place ≤ received)%N) ∧
  (in_transit s = [] → pending_presentations (client s) = [] → told s = [] →
     received = sent ∧ applied_sequence (attachment (daemon s)) = Some sent ∧
     in_flight_output (attachment (daemon s)) = [] ∧
     ∀ place, AttachmentState.resume_sequence (state (client s)) = Some place → place = sent).
Proof using Type*.
  cbn zeta. pose proof (running_paired _ _ Hrunning) as Hp. pose proof (p_flow _ _ Hp) as Hf. split_and!.
  - eapply sends_le, (p_transit _ _ Hp).
  - destruct (f_client _ _ _ _ Hf) as (base & bytes & _ & Hsent & Hpast & _). unfold daemon. lia.
  - destruct (p_order _ _ Hp) as (from & Ho & Hq). intros place E. rewrite (Hq _ E). by eapply ordered_le.
  - intros Et Ep Etold. pose proof (p_transit _ _ Hp) as Hs. rewrite Et in Hs. apply sends_cons in Hs.
    destruct (p_ledger _ _ Hp) as (unheard & Hcov & Hled). rewrite Etold in Hcov. inversion Hcov; subst unheard.
    rewrite Ep, Et in Hled. cbn in Hled. pose proof (f_progress _ _ _ _ Hf) as Hpr. fold (daemon s) in Hpr.
    unfold awaiting in Hled.
    destruct (p_order _ _ Hp) as (from & Ho & Hq). rewrite Ep in Ho. cbn in Ho.
    destruct (applied_sequence (attachment (daemon s))) as [applied|]; [|done].
    apply fmap_nil_inv in Hled. rewrite Hled in Hpr |- *. cbn in Hpr. subst applied.
    split_and!; [done|done|done|]. intros place E. rewrite (Hq _ E). congruence.
Qed.
End clients.

(** C17. The history above the screen reaches the client: it takes on every transfer the
    daemon announces, accepts the page served for each of its requests as long as it asks
    within the daemon's patience, and finishes with exactly the newest rows that fit the
    bound, and the lines they make. *)
Theorem history_synced `{CodecLaws} (now : N) (id : string) (history : HistorySnapshot.t) (rows : PhysicalHistory.t)
    (limit : N) (styled : bool) (times : nat → N) (h : PinnedHistory.t) (recent : HistorySnapshot.t)
    (checkpoint : TerminalCheckpoint.t) (gap : bool)
    (Hrows : physical_ok rows) (Hlimit : (N.of_nat (length (PhysicalHistory.rows rows)) ≤ limit ≤ 10000)%N)
    (Hnew : PinnedHistory.new now id history rows limit styled = Ok (h, recent)) (Hid : id ≠ ""%string)
    (Hsequence : TerminalCheckpoint.sequence checkpoint = HistorySnapshot.sequence history)
    (Hfirst : (times 0%nat - now < HISTORY_SNAPSHOT_IDLE_TTL)%N)
    (Htimes : ∀ j, (times (S j) - times j < HISTORY_SNAPSHOT_IDLE_TTL)%N) :
  ∃ x first_row lines, HistoryTransfer.new (PinnedHistory.manifest h) checkpoint recent gap = Ok x ∧
    fits styled first_row (PhysicalHistory.rows rows) (PinnedHistory.data h) ∧
    normalize_history_rows (drop first_row (PhysicalHistory.rows rows)) = Some lines ∧
    exchange times (S (length (PinnedHistory.data h))) 0 x h ⇓ λ '(x', h'), PinnedHistory.complete h' = true ∧
      HistoryTransfer.finish x' =
      Ok (AttachmentEvent.HistorySynced id checkpoint
            (HistorySnapshot.Mk (HistorySnapshot.format history) (HistorySnapshot.format_version history)
               (HistorySnapshot.sequence history) (HistorySnapshot.generation history) (HistorySnapshot.revision history)
               (lines_bytes lines) (HistorySnapshot.truncated recent) lines)
            (sent_row styled <$> drop first_row (PhysicalHistory.rows rows)) limit (gap || HistorySnapshot.truncated recent)).
Proof.
  destruct (transfer_finishes now id history rows limit styled h recent checkpoint gap Hrows Hnew)
    as (first & lines & Hn & Hfits & Hfin).
  eexists _, first, lines. split; [by eapply new_transfer|]. split; [done|]. split; [done|].
  destruct (new_announces _ _ _ _ _ _ _ _ Hrows Hnew) as (f' & l' & k' & _ & Hle & _ & _ & Hm & Hend & Hla & _).
  eapply Safe_mono; [apply exchange_spec|]; cbn [HistoryTransfer.manifest HistoryTransfer.bytes];
    rewrite ?Hm, ?Hend, ?Hla; try done; [lia|lia|].
  intros [x' h'] [-> Hc]. split; [exact Hc|]. cbn. rewrite <- Hm. exact Hfin.
Qed.

(** * A client and a daemon to run *)

#[local] Existing Instances ascii_width plain_paths open_connection heartbeats_only.

(** Rows encoded as a mark and their text *)
Definition text_byte (c : char) : option byte := if decide (c = 10%N) then None else Byte.of_N c.
#[local] Instance marked_codec : HistoryCodec := {|
  row_json styled row :=
    if styled && negb (bool_decide (HistoryRow.styles row = [])) then None else
    text ← mapM text_byte (HistoryRow.text row);
    Some ((if HistoryRow.wrapped row then x77 else x2d) :: text);
  line_json line := mapM text_byte line;
  digest data := "0000000000000000000000000000000000000000000000000000000000000000"%string |}.
#[local] Instance marked_parser : RowParser := {|
  parse_row bytes :=
    match bytes with
    | mark :: text => Ok (HistoryRow.Mk (Byte.to_N <$> text) (bool_decide (mark = x77)) [])
    | [] => Err "empty record"%string
    end |}.

Lemma text_bytes text : ∀ bytes, mapM text_byte text = Some bytes → Byte.to_N <$> bytes = text ∧ x0a ∉ bytes.
Proof.
  induction text as [|c text IH]; intros bytes; [intros [= <-]; split; [done|apply not_elem_of_nil]|].
  change (mapM text_byte (c :: text)) with (b ← text_byte c; more ← mapM text_byte text; Some (b :: more)).
  destruct (text_byte c) as [b|] eqn:Eb; [|done]. unfold text_byte in Eb. case_decide as Hc; [done|].
  cbn [mbind option_bind]. destruct (mapM text_byte text) as [more|]; [|done]. cbn [mbind option_bind]. intros [= <-]. destruct (IH more eq_refl) as [E Hn].
  apply Byte.to_of_N in Eb. cbn. rewrite Eb, E. split; [done|]. rewrite not_elem_of_cons. split; [|done].
  intros <-. by apply Hc.
Qed.

#[local] Instance marked_laws : CodecLaws.
Proof.
  split.
  - intros styled row record Hj. cbn in Hj. destruct (styled && _) eqn:Es; [done|].
    destruct (mapM text_byte (HistoryRow.text row)) as [text|] eqn:Et; [|done]. injection Hj as <-.
    destruct (text_bytes _ _ Et) as [E _]. cbn. rewrite E. unfold sent_row. destruct row as [t w st]. cbn in *.
    destruct styled; [|by destruct w]. cbn in Es. case_bool_decide; [|done]. subst. by destruct w.
  - intros styled row record Hj. cbn in Hj. destruct (styled && _); [done|].
    destruct (mapM text_byte (HistoryRow.text row)) as [text|] eqn:Et; [|done]. injection Hj as <-.
    destruct (text_bytes _ _ Et) as [_ Hn]. rewrite not_elem_of_cons. by destruct (HistoryRow.wrapped row).
  - done.
  - done.
Qed.

Lemma sample_ids (written : list ServerMessage.t) : new_id written ≠ ""%string.
Proof. done. Qed.

(** A client that knows nothing yet *)
Definition new_request : AttachParameters.t :=
  AttachParameters.Mk CONTRACT_V1_3_23 None small_size true true 4096 1000.
Definition no_leases : AttachmentLeases.t := AttachmentLeases.Mk (LeaseStatus.Mk false false) (LeaseStatus.Mk false false).
Definition client_info : HandshakeInfo.t := HandshakeInfo.Mk "1" CONTRACT_V1_3_23 [] None (AttachmentLiveness.Mk 100 1000).

Definition sample_system : option System :=
  terminal ← sample;
  match start_attachment shell_owner "t" 5 "token" no_leases new_request terminal with
  | Ok (Some d) =>
      match begin_attachment client_info (head (wire d)) with
      | Ok attached =>
          match Controller.new attached AttachmentControllerOptions.default with
          | Ok c => Some (MkSystem (MkWorld [x68; x65; x6c; x6c; x6f; x21] (option_list (LiveTerminal.last_geometry_change_sequence terminal)) d)
                            1 (start c) [])
          | _ => None
          end
      | _ => None
      end
  | _ => None
  end.

Lemma sample_window s : sample = Some s → window_ok 8 [x68; x65; x6c; x6c; x6f; x21] s.
Proof. intros E. eapply life_window, sample_life, E. Qed.

Lemma sample_begun s : sample_system = Some s → begun shell_owner "t" 8 new_request s.
Proof.
  unfold sample_system. intros (terminal & Es & Hs)%bind_Some.
  destruct (start_attachment _ _ _ _ _ _ _) as [[d|]|e|] eqn:Ed; [|done..].
  destruct (begin_attachment _ _) as [attached|e|] eqn:Ea; [|done..].
  destruct (Controller.new _ _) as [c|e|] eqn:Ec; [|done..]. injection Hs as <-.
  do 10 eexists. split_and!; [by apply sample_window|done|exact Ed|exact Ea|exact Ec|done].
Qed.

(** * The theorems at work *)

Lemma attachment_opens_witness :
  ∃ d attached c, (terminal ← sample;
      match start_attachment shell_owner "t" 5 "token" no_leases new_request terminal with Ok d => d | _ => None end) = Some d ∧
    begin_attachment client_info (head (wire d)) = Ok attached ∧
    Controller.new attached AttachmentControllerOptions.default = Ok c ∧
    length (pending_presentations (start c)) = 1.
Proof.
  assert (match sample with Some terminal =>
      match start_attachment shell_owner "t" 5 "token" no_leases new_request terminal with
      | Ok (Some d) => length (awaiting (attachment d)) = 1 | _ => False end | None => False end) as Hlen by (vm_compute; reflexivity).
  destruct sample as [terminal|] eqn:E; [|destruct Hlen]. cbn [mbind option_bind].
  destruct (start_attachment _ _ _ _ _ _ _) as [[d|]|e|] eqn:Ed; [|destruct Hlen..].
  destruct (attachment_opens shell_owner "t" 8 sample_ids _ terminal 5 "token" no_leases new_request d client_info
    AttachmentControllerOptions.default (sample_window _ E) eq_refl Ed ltac:(done) ltac:(done)) as (attached & c & Ea & Ec & _ & Ep).
  exists d, attached, c. split_and!; [done|exact Ea|exact Ec|]. rewrite Ep. exact Hlen.
Defined.

(** The client has shown the checkpoint it attached with; its writer has told the daemon. *)
Definition shown (s : System) : option System :=
  match take_acknowledgement (PresentationAck.Checkpoint 6) (client s) with
  | Ok c =>
      match write_progress c with
      | (Some message, c) => Some (MkSystem (world s) (taken s) c (upstream s ++ [message]))
      | _ => None
      end
  | _ => None
  end.

Lemma shown_running s s' : sample_system = Some s → shown s = Some s' → running shell_owner "t" 8 new_request s'.
Proof.
  intros E Es. exists s. split; [by apply sample_begun|]. unfold shown in Es.
  destruct (take_acknowledgement _ _) as [c|e|] eqn:Et; [|done..].
  destruct (write_progress c) as [[message|] c'] eqn:Ew; [|done]. injection Es as <-.
  eapply rtc_l; [by eapply client_acknowledges|]. eapply rtc_l; [|apply rtc_refl].
  by apply (writer_reports shell_owner "t" (MkSystem (world s) (taken s) c (upstream s))).
Qed.

Lemma attachment_never_rejects_witness :
  ∃ s a, sample_system ≫= shown = Some s ∧ upstream s = [ClientMessage.PresentationApplied 6] ∧
    accept_presentation_progress 6 (attachment (daemon s)) = Ok a.
Proof.
  assert (upstream <$> (sample_system ≫= shown) = Some [ClientMessage.PresentationApplied 6]) as Hup by (vm_compute; reflexivity).
  destruct sample_system as [s0|] eqn:E0; [|discriminate Hup]. cbn [mbind option_bind] in Hup |- *.
  destruct (shown s0) as [s|] eqn:E; [|discriminate Hup]. injection Hup as Hup.
  destruct (attachment_never_rejects shell_owner "t" 8 sample_ids new_request s (shown_running _ _ E0 E)) as [Ha _].
  destruct (Ha _ _ Hup) as (a & Ea). exists s, a. split_and!; [done|exact Hup|exact Ea].
Defined.

Lemma attachment_agrees_witness :
  ∃ s, sample_system ≫= shown = Some s ∧
    (AttachmentState.received_sequence (state (client s)) ≤ sent_sequence (attachment (daemon s)) ≤ 6)%N.
Proof.
  assert (is_Some (sample_system ≫= shown) ∧ (λ s, length (FlowInv.stream (world s))) <$> (sample_system ≫= shown) = Some 6)
    as [Hs Hl] by (split; [|by vm_compute]; destruct (sample_system ≫= shown) eqn:E; [by eexists|by vm_compute in E]).
  destruct sample_system as [s0|] eqn:E0; [|destruct (is_Some_None Hs)]. cbn [mbind option_bind] in Hs, Hl |- *.
  destruct (shown s0) as [s|] eqn:E; [|destruct (is_Some_None Hs)]. exists s. split; [done|]. injection Hl as Hl.
  destruct (attachment_agrees shell_owner "t" 8 sample_ids new_request s (shown_running _ _ E0 E)) as [Ha _].
  rewrite Hl in Ha. exact Ha.
Defined.

(** Two rows, of which one continues *)
Definition two_rows : PhysicalHistory.t :=
  PhysicalHistory.Mk [HistoryRow.Mk [0x61; 0x62]%N true []; HistoryRow.Mk [0x63]%N false []] [[0x61; 0x62; 0x63]%N] 7.
Definition two_row_history : HistorySnapshot.t := HistorySnapshot.Mk TERMINAL_HISTORY_FORMAT 1 0 0 0 0 false [].
Definition two_row_transfer : outcome string (PinnedHistory.t * HistorySnapshot.t) :=
  PinnedHistory.new 7 "h" two_row_history two_rows 100 true.

Lemma history_synced_witness :
  ∃ h recent checkpoint x, two_row_transfer = Ok (h, recent) ∧
    HistoryTransfer.new (PinnedHistory.manifest h) checkpoint recent false = Ok x ∧
    is_Some (exchange (λ k, N.of_nat (7 + k)) (S (length (PinnedHistory.data h))) 0 x h).
Proof.
  destruct two_row_transfer as [[h recent]|e|] eqn:E; [|by vm_compute in E..].
  set (checkpoint := TerminalCheckpoint.Mk TERMINAL_CHECKPOINT_FORMAT 1 0 small_size [] []).
  destruct (history_synced 7 "h" two_row_history two_rows 100 true (λ k, N.of_nat (7 + k)) h recent checkpoint false
    ltac:(vm_compute; done) ltac:(vm_compute; done) E ltac:(done) ltac:(done) ltac:(vm_compute; done)
    ltac:(intros j; unfold HISTORY_SNAPSHOT_IDLE_TTL; lia)) as (x & first & lines & Ex & _ & _ & Hs).
  exists h, recent, checkpoint, x. split_and!; [done|exact Ex|].
  destruct (Safe_elim _ _ Hs) as (r & Er & _). rewrite Er. by eexists.
Defined.

(** * A transfer nobody asks for again *)

Section actions.
Context `{UnicodeWidth, HistoryCodec, RowParser, Connection, AttachInput, HomeDirectory}.
Context (owner : TerminalOwner.t) (terminal_id : string).

(** Steps to run one after another *)
Inductive action :=
  | DaemonReads | DaemonServes | ClientReads | Acknowledges (acknowledgement : PresentationAck.t)
  | WriterReports | WriterAsks | WriterCommands (message : ClientMessage.t).

Definition act (a : action) (s : System) : option System :=
  match a with
  | DaemonReads =>
      match upstream s with
      | message :: rest =>
          if decide (now (daemon s) < deadline (daemon s))%N then
            match process_client_message owner terminal_id message (daemon s) with
            | Ok (_, d) => Some (MkSystem (moved s d) (taken s) (client s) rest)
            | _ => None
            end
          else None
      | [] => None
      end
  | DaemonServes =>
      match serve_history owner terminal_id (daemon s) with
      | Ok (_, d) => Some (MkSystem (moved s d) (taken s) (client s) (upstream s))
      | _ => None
      end
  | ClientReads =>
      match in_transit s with
      | message :: _ =>
          if ready_for_message (client s) then
            match process_server_message message (client s) with
            | Ok (Continue, c) => Some (MkSystem (world s) (S (taken s)) c (upstream s))
            | _ => None
            end
          else None
      | [] => None
      end
  | Acknowledges acknowledgement =>
      match take_acknowledgement acknowledgement (client s) with
      | Ok c => Some (MkSystem (world s) (taken s) c (upstream s))
      | _ => None
      end
  | WriterReports =>
      match write_progress (client s) with
      | (Some message, c) => Some (MkSystem (world s) (taken s) c (upstream s ++ [message]))
      | _ => None
      end
  | WriterAsks =>
      let '(message, c) := write_history_request (client s) in
      Some (MkSystem (world s) (taken s) c (upstream s ++ option_list message))
  | WriterCommands message =>
      if is_acknowledgement message then None else Some (MkSystem (world s) (taken s) (client s) (upstream s ++ [message]))
  end.

Lemma act_step a s s' : act a s = Some s' → system_step owner terminal_id s s'.
Proof.
  destruct a; cbn [act].
  - destruct (upstream s) as [|message rest] eqn:Eu; [done|]. case_decide; [|done].
    destruct (process_client_message _ _ _ _) as [[result d]|e|] eqn:E; [|done..]. intros [= <-]. by eapply daemon_reads.
  - destruct (serve_history _ _ _) as [[result d]|e|] eqn:E; [|done..]. intros [= <-].
    eapply daemon_turns; [apply turn_serve|exact E].
  - destruct (in_transit s) as [|message rest] eqn:Et; [done|]. destruct (ready_for_message _) eqn:Er; [|done].
    destruct (process_server_message _ _) as [[[] c]|e|] eqn:E; try done. intros [= <-]. by eapply client_reads.
  - destruct (take_acknowledgement _ _) eqn:E; [|done..]. intros [= <-]. by eapply client_acknowledges.
  - destruct (write_progress _) as [[message|] c] eqn:E; [|done]. intros [= <-]. by eapply writer_reports.
  - destruct (write_history_request _) as [message c] eqn:E. intros [= <-]. by eapply writer_asks.
  - destruct (is_acknowledgement message) eqn:E; [done|]. intros [= <-]. by apply writer_commands.
Qed.

Fixpoint acts (actions : list action) (s : System) : option System :=
  match actions with [] => Some s | a :: actions => s ← act a s; acts actions s end.

Lemma acts_steps actions : ∀ s s', acts actions s = Some s' → rtc (system_step owner terminal_id) s s'.
Proof.
  induction actions as [|a actions IH]; intros s s'; [intros [= ->]; apply rtc_refl|].
  cbn. intros (s1 & E & Hs)%bind_Some. eapply rtc_l; [by eapply act_step|by apply IH].
Qed.
End actions.

(** A terminal of two rows that wrote four *)
Definition scrolled_output : list byte := [x61; x0d; x0a; x62; x0d; x0a; x63; x0d; x0a; x64].
Definition scrolled : option LiveTerminal.t :=
  s ← LiveTerminal.new small_size 64 64;
  '(_, _, s) ← append_output 1 scrolled_output s;
  Some s.

(** Every pinned history has a name of its own. *)
#[local] Instance numbered_connection : Connection := {|
  write_frame _ _ := Written;
  new_id messages := match messages with [] => "a"%string | [_] => "b"%string | _ => "c"%string end |}.

Definition begin_scrolled : option System :=
  terminal ← scrolled;
  match start_attachment shell_owner "t" 5 "token" no_leases new_request terminal with
  | Ok (Some d) =>
      match begin_attachment client_info (head (wire d)) with
      | Ok attached =>
          match Controller.new attached AttachmentControllerOptions.default with
          | Ok c => Some (MkSystem (MkWorld scrolled_output (option_list (LiveTerminal.last_geometry_change_sequence terminal)) d)
                            1 (start c) [])
          | _ => None
          end
      | _ => None
      end
  | _ => None
  end.
Definition stalling : list action :=
  [Acknowledges (PresentationAck.Checkpoint 10); WriterReports; WriterCommands ClientMessage.RequestCheckpoint; WriterAsks;
   DaemonReads; DaemonReads; ClientReads; Acknowledges (PresentationAck.Checkpoint 10); WriterReports; WriterAsks;
   DaemonReads; DaemonReads; DaemonReads; DaemonServes; ClientReads; ClientReads].

Lemma scrolled_window s : scrolled = Some s → window_ok 64 scrolled_output s.
Proof.
  unfold scrolled. intros (s0 & E0 & H)%bind_Some. apply bind_Some in H as ([[events published] s1] & E1 & [= <-]).
  eapply life_window, (life_output small_size 64 64 []); [by apply life_new|exact E1].
Qed.

Lemma begin_scrolled_begun s : begin_scrolled = Some s → begun shell_owner "t" 64 new_request s.
Proof.
  unfold begin_scrolled. intros (terminal & Es & Hs)%bind_Some.
  destruct (start_attachment _ _ _ _ _ _ _) as [[d|]|e|] eqn:Ed; [|done..].
  destruct (begin_attachment _ _) as [attached|e|] eqn:Ea; [|done..].
  destruct (Controller.new _ _) as [c|e|] eqn:Ec; [|done..]. injection Hs as <-.
  do 10 eexists. split_and!; [by apply scrolled_window|done|exact Ed|exact Ea|exact Ec|done].
Qed.

(** A new checkpoint overtakes the request for a page of the old history.  The daemon reads
    the request for the new history before it serves the old one, refuses it, and then
    answers the old one; the client drops both answers.  Everything rests, and the
    transfer stays where it began. *)
Definition stalled (s : System) : bool :=
  (length (in_transit s) =? 0) && (length (upstream s) =? 0) && (length (pending_presentations (client s)) =? 0)
  && match history_requests (client s), Controller.pending_history (client s), Controller.history_transfer (client s) with
     | None, None, Some x => negb (HistoryTransfer.is_complete x)
     | _, _, _ => false
     end
  && match pending_history (attachment (daemon s)) with None => true | Some _ => false end.

Lemma history_transfer_stalls : ∃ s, running shell_owner "t" 64 new_request s ∧ stalled s = true.
Proof.
  assert ((s ← begin_scrolled; s ← acts shell_owner "t" stalling s; Some (stalled s)) = Some true) as H by (vm_compute; reflexivity).
  apply bind_Some in H as (s0 & E0 & H). apply bind_Some in H as (s & E & H). injection H as H.
  exists s. split; [|exact H]. exists s0. split; [by apply begin_scrolled_begun|by eapply acts_steps].
Qed.
