(* ===== verification/SessionsWp.v ===== *)
(** Reasoning about the actions of the session registry: a weakest precondition that rules
    out panics, and what resizing terminals and publishing views leave as it was.

    Resizing the terminals of a view ([resize_view], [reflow_view], the rollback of
    [resize_layout]): what a terminal must promise, that no panic is reached, and what is
    left when the operating system refuses a size. *)

From S2P Require Import Prelude.
From S2P Require Import Layout.
From S2P Require Import Topology.
From S2P Require Import LayoutInv.
From S2P Require Import Dividers.
From S2P Require Import Leases.
From S2P Require Import Sessions.
From stdpp Require Import strings gmap.

Import SessionRegistry (store, terminals, sessions, pending_names, next_automatic_name).

(** * Weakest preconditions *)

(** [m] does not panic in [r]; its value and the registry it leaves satisfy [Q], or it
    fails and the registry satisfies [R]. *)
Definition wp {St E A} (m : action St E A) (r : SessionRegistry.t St)
    (Q : A → SessionRegistry.t St → Prop) (R : SessionRegistry.t St → Prop) : Prop :=
  match m r with
  | (Ok a, r) => Q a r
  | (Err _, r) => R r
  | (Panic, _) => False
  end.

Section wp.
Context {St E : Type}.
Implicit Types (r : SessionRegistry.t St).

Lemma wp_ret {A} (a : A) r (Q : A → _ → Prop) R : Q a r → wp (mret a : action St E A) r Q R.
Proof. done. Qed.

Lemma wp_bind {A B} (m : action St E A) (f : A → action St E B) r Q R :
  wp m r (λ a r, wp (f a) r Q R) R → wp (m ≫= f) r Q R.
Proof. unfold wp, mbind, action_bind. by destruct (m r) as [[a|e|] r']. Qed.

Lemma wp_mono {A} (m : action St E A) r (Q Q' : A → _ → Prop) (R R' : _ → Prop) :
  wp m r Q R → (∀ a r, Q a r → Q' a r) → (∀ r, R r → R' r) → wp m r Q' R'.
Proof. unfold wp. destruct (m r) as [[a|e|] r']; naive_solver. Qed.

Lemma wp_lift {A} (o : outcome E A) r Q R :
  match o with Ok a => Q a r | Err _ => R r | Panic => False end → wp (lift o) r Q R.
Proof. by destruct o. Qed.

Lemma wp_lift_total {A} (o : outcome E A) r (P : A → Prop) (Q : A → _ → Prop) (R : _ → Prop) :
  o ⇓? P → (∀ a, P a → Q a r) → R r → wp (lift o) r Q R.
Proof. destruct o; simpl; unfold wp; simpl; auto. Qed.

Lemma wp_reading {A} (f : SessionRegistry.t St → outcome E A) r Q R :
  match f r with Ok a => Q a r | Err _ => R r | Panic => False end → wp (reading f) r Q R.
Proof. unfold wp, reading. by destruct (f r). Qed.

Lemma wp_reading_Ok {A} (f : SessionRegistry.t St → outcome E A) a r Q R :
  f r = Ok a → Q a r → wp (reading f) r Q R.
Proof. intros Hf HQ. apply wp_reading. by rewrite Hf. Qed.

Lemma wp_fail_if b (e : E) r (Q : () → _ → Prop) R :
  (b = false → Q () r) → R r → wp (lift (fail_if b e)) r Q R.
Proof. destruct b; unfold wp; simpl; auto. Qed.

Lemma wp_attempt {F A} (m : action St F A) r (Q : outcome F A → _ → Prop) (R : _ → Prop) :
  wp m r (λ a r, Q (Ok a) r) (λ r, ∀ e, Q (Err e) r) → wp (attempt (E := E) m) r Q R.
Proof. unfold wp, attempt. destruct (m r) as [[a|e|] r']; auto. Qed.

Lemma wp_mapping {F A} (g : F → E) (m : action St F A) r Q R :
  wp m r Q R → wp (mapping g m) r Q R.
Proof. unfold wp, mapping. by destruct (m r) as [[a|e|] r']. Qed.

Lemma wp_each {A} (f : A → action St E ()) (I : list A → SessionRegistry.t St → Prop) R l r :
  I l r → (∀ x l r, I (x :: l) r → wp (f x) r (λ _ r, I l r) R) →
  wp (each f l) r (λ _ r, I [] r) R.
Proof.
  intros HI Hf. revert r HI. induction l as [|x l IH]; intros r HI; [done|].
  cbn [each]. apply wp_bind. eapply wp_mono; [by apply Hf| |done]. auto.
Qed.

Lemma wp_on_store f r (Q : () → _ → Prop) R :
  Q () (SessionRegistry.Mk (f (store r)) (terminals r) (sessions r) (pending_names r)
          (next_automatic_name r)) → wp (on_store (E := E) f) r Q R.
Proof. done. Qed.

Lemma wp_on_sessions f r (Q : () → _ → Prop) R :
  Q () (SessionRegistry.Mk (store r) (terminals r) (f (sessions r)) (pending_names r)
          (next_automatic_name r)) → wp (on_sessions (E := E) f) r Q R.
Proof. done. Qed.

Lemma wp_on_view sid (f : View.t → outcome E View.t) s v r (Q : () → _ → Prop) R :
  sessions r !! sid = Some s → f (Session.view s) = Ok v →
  Q () (SessionRegistry.Mk (store r) (terminals r)
          (<[sid := Session.set_view (λ _, v) s]> (sessions r)) (pending_names r)
          (next_automatic_name r)) → wp (on_view (E := E) sid f) r Q R.
Proof.
  intros Hs Hf HQ. unfold on_view. apply wp_bind. apply (wp_reading_Ok _ s); [by rewrite Hs|].
  apply wp_bind, wp_lift. by rewrite Hf.
Qed.
End wp.

(** [wp_use H] proves a precondition from a known one, leaving the two consequences. *)
Tactic Notation "wp_use" uconstr(H) := eapply wp_mono; [eapply H| |]; cbv beta.

(** [wp_bind_use H]: the same for the head of a sequence *)
Tactic Notation "wp_bind_use" uconstr(H) := apply wp_bind; wp_use H.

(** * What stays as it was *)

(** The PTY refuses no size. *)
Definition healthy (master : option (list (option string))) : Prop :=
  match master with Some replies => Forall (λ reply, reply = None) replies | None => False end.

Section frames.
Context {St : Type} `{Screen St}.
Implicit Types (r : SessionRegistry.t St) (t : SessionTerminal.t St) (X : list string).

(** The fields that neither resizing nor publishing touches *)
Record kept t t' : Prop := {
  kept_managed : SessionTerminal.managed t' = SessionTerminal.managed t;
  kept_owner : SessionTerminal.owner t' = SessionTerminal.owner t;
  kept_id : SessionTerminal.id t' = SessionTerminal.id t;
  kept_name : SessionTerminal.name t' = SessionTerminal.name t;
  kept_created : SessionTerminal.created_at_ms t' = SessionTerminal.created_at_ms t;
  kept_leases : SessionTerminal.leases t' = SessionTerminal.leases t;
  kept_attachments : SessionTerminal.attachments t' = SessionTerminal.attachments t;
  kept_lifecycle : SessionTerminal.lifecycle t' = SessionTerminal.lifecycle t;
  kept_healthy : healthy (SessionTerminal.master t) → healthy (SessionTerminal.master t') }.

Definition same_screen t t' : Prop :=
  SessionTerminal.state t' = SessionTerminal.state t ∧ SessionTerminal.master t' = SessionTerminal.master t.

(** From [r] to [r'] the store has the same terminals, kept as they were, and outside [X]
    with the same screens. *)
Record store_frame X r r' : Prop := {
  frame_some id t : store r !! id = Some t →
    ∃ t', store r' !! id = Some t' ∧ kept t t' ∧ (id ∉ X → same_screen t t');
  frame_none id : store r !! id = None → store r' !! id = None }.

Record frame X r r' : Prop := {
  frame_store : store_frame X r r';
  frame_terminals : terminals r' = terminals r;
  frame_sessions : sessions r' = sessions r;
  frame_pending : pending_names r' = pending_names r;
  frame_next : next_automatic_name r' = next_automatic_name r }.

#[export] Instance kept_preorder : PreOrder kept.
Proof.
  split; [by intros t; split|].
  intros t1 t2 t3 [] []. split; first [congruence|naive_solver].
Qed.

#[export] Instance store_frame_preorder X : PreOrder (store_frame X).
Proof.
  split.
  - intros r. split; [|done]. intros id t Ht. exists t. split_and!; [done|reflexivity|by split].
  - intros r1 r2 r3 [H1 N1] [H2 N2]. split; [|auto].
    intros id t Ht. destruct (H1 id t Ht) as (t2 & Ht2 & K2 & S2).
    destruct (H2 id t2 Ht2) as (t3 & Ht3 & K3 & S3). exists t3.
    split_and!; [done|by etrans|]. intros Hid. destruct (S2 Hid), (S3 Hid). split; congruence.
Qed.

#[export] Instance frame_preorder X : PreOrder (frame X).
Proof.
  split; [by intros r; split|].
  intros r1 r2 r3 [] []. split; [by etrans|congruence..].
Qed.

Lemma store_frame_mono X Y r r' : X ⊆ Y → store_frame X r r' → store_frame Y r r'.
Proof.
  intros HXY [Hs Hn]. split; [|done]. intros id t Ht. destruct (Hs id t Ht) as (t' & ? & ? & Hq).
  exists t'. split_and!; [done..|]. intros Hid. apply Hq. set_solver.
Qed.

(** The frame is about the stores. *)
Lemma store_frame_store X r1 r1' r2 r2' :
  store r1' = store r1 → store r2' = store r2 → store_frame X r1 r2 → store_frame X r1' r2'.
Proof. intros E1 E2 [Hs Hn]. split; rewrite E1, E2; [exact Hs|exact Hn]. Qed.

Lemma frame_mono X Y r r' : X ⊆ Y → frame X r r' → frame Y r r'.
Proof. intros HXY []. split; [by eapply store_frame_mono|done..]. Qed.

(** Reading the registry through a frame *)
Lemma frame_dom X r r' id : store_frame X r r' → is_Some (store r' !! id) ↔ is_Some (store r !! id).
Proof.
  intros [Hs Hn]. split.
  - intros [t' Ht']. destruct (store r !! id) eqn:E; [done|]. apply Hn in E. congruence.
  - intros [t Ht]. destruct (Hs id t Ht) as (t' & ? & _). by exists t'.
Qed.

Lemma frame_back X r r' id t' :
  store_frame X r r' → store r' !! id = Some t' →
  ∃ t, store r !! id = Some t ∧ kept t t' ∧ (id ∉ X → same_screen t t').
Proof.
  intros Hf Ht'. destruct (store r !! id) as [t|] eqn:Ht; [|apply (frame_none _ _ _ Hf) in Ht; congruence].
  destruct (frame_some _ _ _ Hf id t Ht) as (t2 & E2 & K & S). simplify_eq. by exists t.
Qed.

Lemma listed_Some r id t : listed r id = Some t ↔ id ∈ terminals r ∧ store r !! id = Some t.
Proof. unfold listed. case_decide; naive_solver. Qed.

Lemma frame_update r id t t' :
  store r !! id = Some t → kept t t' → 
  store_frame [id] r (SessionRegistry.Mk (<[id := t']> (store r)) (terminals r) (sessions r)
                   (pending_names r) (next_automatic_name r)).
Proof.
  intros Ht K. split.
  - intros i ti Hi. simpl. destruct (decide (i = id)) as [->|Hne].
    + simplify_eq. exists t'. rewrite lookup_insert_eq. split_and!; [done|done|set_solver].
    + exists ti. rewrite lookup_insert_ne by done. split_and!; [done|reflexivity|by split].
  - intros i Hi. simpl. rewrite lookup_insert_None. split; [done|]. congruence.
Qed.

(** Publishing changes no screen. *)
Lemma frame_alter r id (f : SessionTerminal.t St → SessionTerminal.t St) :
  (∀ t, kept t (f t) ∧ same_screen t (f t)) →
  frame [] r (SessionRegistry.Mk (alter f id (store r)) (terminals r) (sessions r)
                   (pending_names r) (next_automatic_name r)).
Proof.
  intros Hf. split; [|done..]. split; simpl.
  - intros i t Hi. destruct (decide (i = id)) as [->|Hne].
    + exists (f t). rewrite lookup_alter_eq, Hi. destruct (Hf t). split_and!; done.
    + exists t. rewrite lookup_alter_ne by done. split_and!; [done|reflexivity|by split].
  - intros i Hi. by rewrite lookup_alter_None.
Qed.

Lemma set_updates_kept v n t : kept t (SessionTerminal.set_updates v n t) ∧ same_screen t (SessionTerminal.set_updates v n t).
Proof. split; by split. Qed.
End frames.

Import SessionRegistry (store, terminals, sessions, pending_names, next_automatic_name).
Import LayoutExt.

(** The widest screen the terminals can be given *)
Class WidestScreen := widest : N.

(** A size of a pane: [u16]s, room for the smallest pane, and not too wide *)
Definition valid_size `{WidestScreen} (size : TerminalSize.t) : Prop :=
  (2 ≤ TerminalSize.columns size ≤ widest ∧ 1 ≤ TerminalSize.rows size ≤ u16_MAX ∧
   TerminalSize.pixel_width size ≤ u16_MAX ∧ TerminalSize.pixel_height size ≤ u16_MAX)%N.

(** The fields are [u16]s, and the screen is not too wide. *)
Definition u16_size `{WidestScreen} (size : TerminalSize.t) : Prop :=
  (TerminalSize.columns size ≤ widest ∧ TerminalSize.rows size ≤ u16_MAX ∧
   TerminalSize.pixel_width size ≤ u16_MAX ∧ TerminalSize.pixel_height size ≤ u16_MAX)%N.

(** What the terminals promise the registry: [screen_ok k s] says that [s] is well formed
    and that its counters have room for [k] more changes of size. *)
Class ScreenLaws (St : Type) `{WidestScreen, Screen St} := {
  widest_u16 : (80 ≤ widest ≤ u16_MAX)%N;
  screen_ok : N → St → Prop;
  screen_ok_mono k k' s : (k' ≤ k)%N → screen_ok k s → screen_ok k' s;
  screen_ok_size k s : screen_ok k s → valid_size (screen_size s);
  screen_resize_ok k s size : screen_ok (k + 1) s → valid_size size →
    ∃ s', screen_resize size s = Some s' ∧ screen_ok k s' ∧ screen_size s' = size;
}.

Section resize.
Context {St : Type} `{ScreenLaws St}.
Implicit Types (r : SessionRegistry.t St) (t : SessionTerminal.t St) (X : list string).

Lemma valid_size16 size : valid_size size → size16 size.
Proof. intros (? & ? & _). pose proof widest_u16. split; lia. Qed.

(** Every terminal of the store is filed under its identifier and has room for [k id]
    changes of size. *)
Definition store_ok (k : string → N) r : Prop :=
  map_Forall (λ id t, SessionTerminal.id t = id ∧ screen_ok (k id) (SessionTerminal.state t)) (store r).

(** Every view can be measured. *)
Definition laid r : Prop :=
  map_Forall (λ _ s, wf_layout (View.layout (Session.view s)) ∧
                     size16 (View.canvas_size (Session.view s))) (sessions r).

Lemma store_ok_mono k k' r : (∀ id, k' id ≤ k id)%N → store_ok k r → store_ok k' r.
Proof.
  intros Hle Hok id t Ht. destruct (Hok id t Ht). split; [done|]. eapply screen_ok_mono; [apply Hle|done].
Qed.

Lemma store_ok_frame k r r' : store_frame [] r r' → store_ok k r → store_ok k r'.
Proof.
  intros Hf Hok id t' Ht'. destruct (frame_back _ _ _ _ _ Hf Ht') as (t & Ht & K & Hq).
  destruct (Hok id t Ht) as [Hid Hs]. destruct (Hq ltac:(apply not_elem_of_nil)) as [-> _].
  split; [|done]. by rewrite (kept_id _ _ K).
Qed.

Lemma laid_frame X r r' : frame X r r' → laid r → laid r'.
Proof. intros Hf. unfold laid. by rewrite (frame_sessions _ _ _ Hf). Qed.

(** ** Reading *)

Lemma find_session_Some p r s : find_session p r = Some s → ∃ sid, sessions r !! sid = Some s ∧ p s = true.
Proof.
  unfold find_session. intros ([sid s'] & Hh & ->)%fmap_Some. apply head_Some_elem_of in Hh.
  apply list_elem_of_filter in Hh as [Hp Hin]. apply elem_of_map_to_list in Hin.
  exists sid. split; [done|]. by apply Is_true_eq_true.
Qed.

Lemma find_session_None p r : find_session p r = None → map_Forall (λ _ s, p s = false) (sessions r).
Proof.
  unfold find_session. intros Hn sid s Hs. apply fmap_None, head_None in Hn.
  destruct (p s) eqn:Hp; [|done]. exfalso.
  assert (Hin : (sid, s) ∈ filter (λ kv, Is_true (p kv.2)) (map_to_list (sessions r))).
  { apply list_elem_of_filter. split; [simpl; by rewrite Hp|by apply elem_of_map_to_list]. }
  rewrite Hn in Hin. set_solver.
Qed.

Lemma root_Ok r sel s : root r sel = Ok s → ∃ sid, sessions r !! sid = Some s.
Proof.
  unfold root. destruct (sessions r !! sel) as [s'|] eqn:Hs; [intros [= <-]; eauto|].
  destruct (find_session _ r) as [s'|] eqn:Hf; [|done]. intros [= <-].
  by destruct (find_session_Some _ _ _ Hf) as (sid & ? & _); eauto.
Qed.

Lemma root_total r sel : root r sel ⇓? λ s, ∃ sid, sessions r !! sid = Some s.
Proof. destruct (root r sel) eqn:E; [by eapply root_Ok|done|]. unfold root, ok_or in E. by case_match. Qed.

Lemma root_here r sid s : sessions r !! sid = Some s → root r sid = Ok s.
Proof. unfold root. by intros ->. Qed.

Lemma pane_geometry_total l size : wf_layout l → size16 size → Layout.pane_geometry l size ⇓? λ panes,
  fits size l ∧ placed l 0 0 (TerminalSize.columns size) (TerminalSize.rows size) panes.
Proof.
  intros Hwf [Hc Hr]. pose proof (pane_geometry_spec l size Hwf Hc Hr) as Hg.
  case_decide; [|by rewrite Hg]. by destruct Hg as (panes & -> & ?).
Qed.

Lemma map_err_total {E F A} (f : E → F) (m : outcome E A) P : m ⇓? P → map_err f m ⇓? P.
Proof. by destruct m. Qed.

(** A view is described as it is. *)
Lemma view_info_total r sel : laid r → view_info r sel ⇓? λ v, ∃ sid s, sessions r !! sid = Some s ∧
  (ViewInfo.view_id v, ViewInfo.revision v) = (View.id (Session.view s), View.revision (Session.view s)).
Proof.
  intros Hl. unfold view_info. eapply Total_bind; [apply root_total|]. intros s [sid Hs]. cbv zeta.
  destruct (Hl sid s Hs) as [Hwf H16].
  eapply Total_bind; [apply map_err_total, pane_geometry_total; done|]. intros panes _. simpl. eauto.
Qed.

(** ** Publishing *)

Lemma wp_each_alter {E A} (name : A → string) (f : SessionTerminal.t St → SessionTerminal.t St) (l : list A) r R :
  (∀ t, kept t (f t) ∧ same_screen t (f t)) →
  wp (E := E) (each (λ x, on_store (alter f (name x))) l) r (λ _ r', frame [] r r') R.
Proof.
  intros Hf. eapply wp_each with (I := λ _ r', frame [] r r'); [reflexivity|].
  intros x _ r' Hr. apply wp_on_store. etrans; [exact Hr|]. by apply frame_alter.
Qed.

Lemma wp_publish_layout_leases {E} id r R :
  wp (E := E) (publish_layout_leases id) r (λ _ r', frame [] r r') R.
Proof.
  unfold publish_layout_leases. apply wp_bind, wp_reading.
  destruct (sessions r !! id); [|by apply wp_ret].
  apply wp_bind, wp_reading. apply (wp_each_alter (λ id, id)). intros t'. apply set_updates_kept.
Qed.

Lemma send_view_kept v t : kept t (send_view v t) ∧ same_screen t (send_view v t).
Proof.
  unfold send_view. repeat case_match; (apply set_updates_kept || (split; [reflexivity|by split])).
Qed.

Lemma wp_publish_view {E} id r R :
  laid r → wp (E := E) (publish_view id) r (λ _ r', frame [] r r') R.
Proof.
  intros Hl. unfold publish_view. apply wp_bind, wp_attempt, wp_reading.
  pose proof (view_info_total r id Hl) as Hv. destruct (view_info r id) as [v|e|]; [|by intros ?|done].
  wp_bind_use (wp_each_alter _ _ _ _ (λ _, False)); [apply send_view_kept| |done].
  intros _ r1 Hr1. wp_use (wp_publish_layout_leases _ _ (λ _, False)); [|done].
  intros _ r2 Hr2. by etrans.
Qed.

(** ** Resizing one terminal *)

Lemma resize_pty_spec size t k :
  screen_ok (k + 1) (SessionTerminal.state t) → valid_size size →
  let '(o, t') := resize_pty size t in
  o ≠ Panic ∧ kept t t' ∧ screen_ok k (SessionTerminal.state t') ∧
  (o = Ok () → screen_size (SessionTerminal.state t') = size) ∧
  (healthy (SessionTerminal.master t) → o = Ok ()).
Proof.
  intros Hok Hv. unfold resize_pty.
  assert (Hok' : screen_ok k (SessionTerminal.state t)) by (eapply screen_ok_mono; [|done]; lia).
  destruct (pty_answer (SessionTerminal.master t)) as [answer m] eqn:Ha.
  assert (Hm : answer ≠ Panic ∧ (healthy (SessionTerminal.master t) → healthy m ∧ answer = Ok ())).
  { destruct (SessionTerminal.master t) as [[|[msg|] replies]|]; simplify_eq/=; split; try done.
    - by intros [? _]%Forall_cons_1.
    - by intros [_ ?]%Forall_cons_1. }
  destruct Hm as [Hp Hm].
  assert (K : ∀ s, kept t (SessionTerminal.set_screen s m t)) by (intros s; split; simpl; naive_solver).
  destruct answer as [[]|e|]; [|split_and!; try done; naive_solver|done].
  case_decide as Hsz; [by split_and!|].
  destruct (screen_resize_ok k _ size Hok Hv) as (s' & -> & Hs' & Hsize). by split_and!.
Qed.

(** The room left after the terminals of [l] have been resized once more *)
Definition budget (k : N) (l : list string) (id : string) : N := if decide (id ∈ l) then (k + 1)%N else k.

Lemma wp_resize_terminal id size k l r :
  store_ok (budget k (id :: l)) r → is_Some (store r !! id) → id ∉ l → valid_size size →
  let post r' := frame [id] r r' ∧ store_ok (budget k l) r' in
  wp (resize_terminal id size) r
    (λ _ r', post r' ∧ ∀ t', store r' !! id = Some t' → screen_size (SessionTerminal.state t') = size)
    (λ r', post r' ∧ ∀ t, store r !! id = Some t → ¬ healthy (SessionTerminal.master t)).
Proof.
  intros Hok [t Ht] Hid Hv post. unfold wp, resize_terminal. rewrite Ht.
  destruct (Hok id t Ht) as [Htid Hs]. unfold budget in Hs. rewrite decide_True in Hs by left.
  pose proof (resize_pty_spec size t k Hs Hv) as Hr. destruct (resize_pty size t) as [o t'] eqn:E.
  destruct Hr as (Hp & K & Hk & Hsz & Hh).
  assert (Hpost : post (SessionRegistry.Mk (<[id:=t']> (store r)) (terminals r) (sessions r)
                          (pending_names r) (next_automatic_name r))).
  { split; [split; [by eapply frame_update|done..]|]. apply map_Forall_insert_2; simpl.
    - split; [by rewrite (kept_id _ _ K)|]. unfold budget. by rewrite decide_False.
    - intros i ti Hi. destruct (Hok i ti Hi) as [? Hi']. split; [done|].
      eapply screen_ok_mono; [|exact Hi']. unfold budget.
      repeat case_decide; try lia. set_solver. }
  destruct o as [[]|e|]; [| |done]; simpl; (split; [exact Hpost|]).
  - intros t''. rewrite lookup_insert_eq. intros [= <-]. auto.
  - intros t0 ?. simplify_eq. intros Hh'. by specialize (Hh Hh').
Qed.

(** ** Resizing the terminals of a view *)

Lemma budget_le k l id : (k ≤ budget k l id)%N.
Proof. unfold budget. case_decide; lia. Qed.

Lemma store_ok_budget k l r : store_ok (budget k l) r → store_ok (λ _, k) r.
Proof. apply store_ok_mono, budget_le. Qed.

Lemma store_ok_all k l r : store_ok (λ _, (k + 1)%N) r → store_ok (budget k l) r.
Proof. apply store_ok_mono. intros id. unfold budget. case_decide; lia. Qed.

(** The terminal of a pane has the pane's size. *)
Definition matches (canvas : TerminalSize.t) r (pane : PaneGeometry.t) : Prop :=
  ∀ t, listed r (PaneGeometry.terminal_id pane) = Some t →
       pane_size canvas pane = Ok (screen_size (SessionTerminal.state t)).

(** Panes of different terminals, inside the canvas *)
Definition placed_on (canvas : TerminalSize.t) (panes : list PaneGeometry.t) : Prop :=
  NoDup (PaneGeometry.terminal_id <$> panes) ∧
  Forall (inside 0 0 (TerminalSize.columns canvas) (TerminalSize.rows canvas)) panes.

(** Every terminal of the registry is in the store. *)
Definition stored r : Prop := ∀ id, id ∈ terminals r → is_Some (store r !! id).

Lemma stored_frame X r r' : frame X r r' → stored r → stored r'.
Proof.
  intros Hf Hs id. rewrite (frame_terminals _ _ _ Hf). intros Hid.
  apply (frame_dom _ _ _ _ (frame_store _ _ _ Hf)). auto.
Qed.

Lemma pane_size_valid canvas pane :
  valid_size canvas → inside 0 0 (TerminalSize.columns canvas) (TerminalSize.rows canvas) pane →
  ∃ size, pane_size canvas pane = Ok size ∧ valid_size size.
Proof.
  intros (Hc & Hr & Hw & Hh) Hin. destruct (pane_size_ok canvas pane Hw Hh Hin) as (size & E & Ec & Er & ? & ?).
  exists size. split; [done|]. unfold inside in Hin. unfold valid_size. rewrite Ec, Er. lia.
Qed.

Lemma matches_frame canvas r r' X pane :
  frame X r r' → PaneGeometry.terminal_id pane ∉ X → matches canvas r pane → matches canvas r' pane.
Proof.
  intros Hf Hid Hm t' [Hl Ht']%listed_Some. rewrite (frame_terminals _ _ _ Hf) in Hl.
  destruct (frame_back _ _ _ _ _ (frame_store _ _ _ Hf) Ht') as (t & Ht & _ & Hq).
  destruct (Hq Hid) as [-> _]. apply Hm. by apply listed_Some.
Qed.

Definition resize_body (canvas : TerminalSize.t) (pane : PaneGeometry.t) : action St SessionControlError () :=
  terminal ← reading (λ r, Ok (listed r (PaneGeometry.terminal_id pane)));
  match terminal with
  | None => mret ()
  | Some _ =>
      pane_size ← lift (map_err ControlPty (pane_size canvas pane));
      resize_terminal (PaneGeometry.terminal_id pane) pane_size
  end.

Lemma wp_resize_panes canvas panes k r :
  valid_size canvas → placed_on canvas panes → stored r → store_ok (λ _, (k + 1)%N) r →
  let X := PaneGeometry.terminal_id <$> panes in
  let post r' := frame X r r' ∧ store_ok (λ _, k) r' in
  wp (each (resize_body canvas) panes) r
    (λ _ r', post r' ∧ Forall (matches canvas r') panes)
    (λ r', post r' ∧ ∃ id t, id ∈ X ∧ store r !! id = Some t ∧ ¬ healthy (SessionTerminal.master t)).
Proof.
  intros Hv [Hnd Hin] Hst Hok X post.
  pose (I (rest : list PaneGeometry.t) r' :=
    frame X r r' ∧ store_ok (budget k (PaneGeometry.terminal_id <$> rest)) r' ∧
    ∃ done, panes = done ++ rest ∧ Forall (matches canvas r') done).
  wp_use (wp_each _ I (λ r', post r' ∧
    ∃ id t, id ∈ X ∧ store r !! id = Some t ∧ ¬ healthy (SessionTerminal.master t))).
  - split_and!; [reflexivity|by apply store_ok_all|by exists []].
  - intros pane rest r1 (Hf & Hk & done & Hpanes & Hdone). unfold resize_body.
    apply wp_bind, wp_reading. cbn.
    assert (Hp : pane ∈ panes) by (rewrite Hpanes; set_solver).
    assert (HX : PaneGeometry.terminal_id pane ∈ X) by by apply list_elem_of_fmap_2.
    rewrite Hpanes, fmap_app, fmap_cons in Hnd. apply NoDup_app in Hnd as (_ & Hdisj & Hnd).
    apply NoDup_cons in Hnd as [Hrest _].
    assert (Hnext : panes = (done ++ [pane]) ++ rest) by by rewrite <- app_assoc.
    destruct (listed r1 (PaneGeometry.terminal_id pane)) as [t|] eqn:Ht.
    + rewrite Forall_forall in Hin. destruct (pane_size_valid canvas pane Hv (Hin _ Hp)) as (size & E & Hsz).
      rewrite E. apply wp_bind, wp_lift. cbn.
      apply listed_Some in Ht as [Hl Ht].
      wp_use (wp_resize_terminal _ size k (PaneGeometry.terminal_id <$> rest) r1); [|by eexists|done..| |].
      * exact Hk.
      * intros _ r2 [[Hf2 Hk2] Hm2]. split_and!; [|done|].
        { etrans; [exact Hf|]. eapply frame_mono; [|exact Hf2]. by intros i ->%list_elem_of_singleton. }
        exists (done ++ [pane]). split; [done|]. apply Forall_app. split.
        { apply Forall_forall. intros p Hpd. rewrite Forall_forall in Hdone.
          eapply matches_frame; [exact Hf2| |by apply Hdone]. intros Heq%list_elem_of_singleton.
          apply (Hdisj (PaneGeometry.terminal_id p)); [by apply list_elem_of_fmap_2|].
          rewrite Heq. left. }
        constructor; [|constructor]. intros t2 [_ Ht2]%listed_Some. rewrite E. f_equal. symmetry. auto.
      * intros r2 [[Hf2 Hk2] Hun]. split; [split|].
        { etrans; [exact Hf|]. eapply frame_mono; [|exact Hf2]. by intros i ->%list_elem_of_singleton. }
        { by eapply store_ok_budget. }
        destruct (frame_back _ _ _ _ _ (frame_store _ _ _ Hf) Ht) as (t0 & Ht0 & K & _).
        exists (PaneGeometry.terminal_id pane), t0. split_and!; [done..|].
        intros Hh. by apply (Hun t), (kept_healthy _ _ K).
    + apply wp_ret. split_and!; [done| |].
      * eapply store_ok_mono; [|exact Hk]. intros i. unfold budget. csimpl.
        destruct (decide (i ∈ PaneGeometry.terminal_id <$> rest)) as [Hi|Hi].
        { rewrite decide_True; [lia|by right]. }
        case_decide; lia.
      * exists (done ++ [pane]). split; [done|]. apply Forall_app. split; [done|].
        constructor; [|constructor]. intros t2 Ht2. congruence.
  - intros _ r' (Hf & Hk & done & Hd & Hm). rewrite app_nil_r in Hd. subst done.
    split; [split; [done|by eapply store_ok_budget]|done].
  - done.
Qed.

(** ** Resizing a view *)

(** What is drawn of a view of a given size: the zoomed terminal alone, or every pane *)
Definition drawn (v : View.t) (size : TerminalSize.t) : outcome string (list PaneGeometry.t) :=
  match View.zoomed_terminal_id v with
  | Some id => Ok [PaneGeometry.Mk id 0 0 (TerminalSize.columns size) (TerminalSize.rows size)]
  | None => Layout.pane_geometry (View.layout v) size
  end.

(** Every terminal that is drawn has the size of its pane. *)
Definition sized r (v : View.t) : Prop :=
  drawn v (View.canvas_size v) ⇓? Forall (matches (View.canvas_size v) r).

(** A view that can be laid out with a size: its terminals are pairwise different. *)
Record drawable (v : View.t) (size : TerminalSize.t) : Prop := {
  drawable_wf : wf_layout (View.layout v);
  drawable_nodup : NoDup (terminal_ids (View.layout v));
  drawable_fits : fits size (View.layout v);
  drawable_zoom id : View.zoomed_terminal_id v = Some id → id ∈ terminal_ids (View.layout v) }.

Lemma drawn_spec v size :
  valid_size size → drawable v size → ∃ panes, drawn v size = Ok panes ∧ placed_on size panes ∧
    PaneGeometry.terminal_id <$> panes ⊆ terminal_ids (View.layout v).
Proof.
  intros (Hc & Hr & _) [Hwf Hnd Hf Hz]. pose proof widest_u16. unfold drawn.
  destruct (View.zoomed_terminal_id v) as [id|].
  - eexists. split; [done|]. split; [split|].
    + apply NoDup_singleton.
    + constructor; [|constructor]. unfold inside. simpl. lia.
    + intros i ->%list_elem_of_singleton. auto.
  - pose proof (pane_geometry_spec (View.layout v) size Hwf) as Hg.
    rewrite decide_True in Hg by done. destruct Hg as (panes & E & Hids & Hin & _); [lia..|].
    exists panes. split; [done|]. split; [split|].
    + by rewrite Hids.
    + done.
    + by rewrite Hids.
Qed.

(** The view once it has been resized *)
Definition resized_view (size : TerminalSize.t) (v : View.t) : View.t :=
  if decide (View.canvas_size v = size) then v else View.set_canvas size (View.revision v + 1) v.

(** What [r'] has kept of [r] but for the sessions *)
Record around X r r' : Prop := {
  around_store : store_frame X r r';
  around_terminals : terminals r' = terminals r;
  around_pending : pending_names r' = pending_names r;
  around_next : next_automatic_name r' = next_automatic_name r }.

Lemma frame_around X r r' : frame X r r' ↔ around X r r' ∧ sessions r' = sessions r.
Proof. split; [intros []; by split|by intros [[] ?]; split]. Qed.

#[export] Instance around_preorder X : PreOrder (around X).
Proof.
  split; [by intros r; split|].
  intros r1 r2 r3 [] []. split; [by etrans|congruence..].
Qed.

Lemma around_same X r r' :
  store r' = store r → terminals r' = terminals r → pending_names r' = pending_names r →
  next_automatic_name r' = next_automatic_name r → around X r r'.
Proof. intros Es ? ? ?. split; try done. by eapply (store_frame_store X r r r r'). Qed.

(** A terminal of the view whose PTY may refuse a size *)
Definition unhealthy_in X r : Prop :=
  ∃ id t, id ∈ X ∧ store r !! id = Some t ∧ ¬ healthy (SessionTerminal.master t).

Lemma matches_terminals canvas r r' pane :
  store r' = store r → terminals r' = terminals r → matches canvas r pane → matches canvas r' pane.
Proof. unfold matches, listed. by intros -> ->. Qed.

Lemma wp_resize_view sid size s k r :
  sessions r !! sid = Some s → let v := Session.view s in let X := terminal_ids (View.layout v) in
  laid r → valid_size size → drawable v size → stored r → store_ok (λ _, (k + 1)%N) r →
  (View.revision v < u64_MAX)%N ∨ View.canvas_size v = size →
  wp (resize_view sid size) r
    (λ _ r', around X r r' ∧ store_ok (λ _, k) r' ∧
       sessions r' = <[sid := Session.set_view (λ _, resized_view size v) s]> (sessions r) ∧
       sized r' (resized_view size v))
    (λ r', frame X r r' ∧ store_ok (λ _, k) r' ∧ unhealthy_in X r).
Proof.
  intros Hs v X Hlaid Hv Hd Hst Hok Hrev. unfold resize_view.
  apply wp_bind, wp_reading. unfold session. rewrite Hs. cbn [expect]. fold v.
  destruct (drawn_spec v size Hv Hd) as (panes & Hpanes & Hplaced & Hsub).
  apply wp_bind, wp_lift.
  assert (match View.zoomed_terminal_id v with
    | Some id => Ok [PaneGeometry.Mk id 0 0 (TerminalSize.columns size) (TerminalSize.rows size)]
    | None => map_err ControlPty (Layout.pane_geometry (View.layout v) size)
    end = Ok panes) as ->.
  { unfold drawn in Hpanes. destruct (View.zoomed_terminal_id v); [congruence|by rewrite Hpanes]. }
  apply wp_bind. fold (resize_body size).
  wp_use (wp_resize_panes size panes k r); [done..| |].
  2:{ intros r1 [[Hf Hk] (id & t & Hid & ?)]. split_and!; [by eapply frame_mono|done|].
      exists id, t. split; [by apply Hsub|done]. }
  intros _ r1 [[Hf Hk] Hm]. apply wp_bind.
  assert (Hs1 : sessions r1 !! sid = Some s) by by rewrite (frame_sessions _ _ _ Hf).
  apply (wp_on_view sid _ s (resized_view size v)); [done| |].
  { fold v. unfold resized_view. case_decide; [done|]. unfold succ64.
    rewrite decide_True by (destruct Hrev; [done|congruence]). done. }
  wp_use (wp_publish_view sid _ (λ _, False)); [| |done].
  - unfold laid. cbn. apply map_Forall_insert_2; [|by rewrite (frame_sessions _ _ _ Hf)]. cbn.
    destruct (Hlaid sid s Hs) as [Hwf H16]. unfold resized_view. case_decide; [done|].
    split; [done|]. exact (valid_size16 _ Hv).
  - intros _ r2 Hf2. pose proof Hf2 as [Ha2 Hs2]%frame_around.
    split_and!.
    + transitivity r1.
      * apply frame_around in Hf as [[] _]. split; try done. by eapply store_frame_mono.
      * destruct Ha2 as [Hst2 ? ? ?]. split; try done.
        eapply store_frame_mono; [|by eapply store_frame_store; [| |exact Hst2]]. apply list_subseteq_nil.
    + eapply store_ok_frame; [exact (frame_store _ _ _ Hf2)|done].
    + rewrite Hs2. cbn. by rewrite (frame_sessions _ _ _ Hf).
    + unfold sized.
      assert (drawn (resized_view size v) (View.canvas_size (resized_view size v)) = Ok panes) as ->.
      { unfold resized_view. case_decide as Hc; [by rewrite Hc|done]. }
      assert (View.canvas_size (resized_view size v) = size) as ->.
      { unfold resized_view. by case_decide. }
      cbn. eapply Forall_impl; [exact Hm|]. intros p Hp.
      eapply matches_frame; [exact Hf2|set_solver|]. by eapply matches_terminals.
Qed.

Lemma set_same_view s : Session.set_view (λ _, Session.view s) s = s.
Proof. by destruct s. Qed.

Lemma wp_reflow_view sid s k r :
  sessions r !! sid = Some s → let v := Session.view s in let X := terminal_ids (View.layout v) in
  laid r → valid_size (View.canvas_size v) → drawable v (View.canvas_size v) → stored r →
  store_ok (λ _, (k + 1)%N) r →
  wp (reflow_view sid) r
    (λ _ r', frame X r r' ∧ store_ok (λ _, k) r' ∧ sized r' v)
    (λ r', frame X r r' ∧ store_ok (λ _, k) r' ∧ unhealthy_in X r).
Proof.
  intros Hs v X Hlaid Hv Hd Hst Hok. unfold reflow_view. apply wp_bind, wp_reading. rewrite Hs. fold v.
  wp_use (wp_resize_view sid (View.canvas_size v) s k r); [done..|by right| |done].
  fold v. unfold resized_view. rewrite decide_True by done.
  intros _ r' (Ha & Hk & Hss & Hsz). split_and!; [|done|done].
  apply frame_around. split; [done|]. rewrite Hss. unfold v. rewrite set_same_view. by apply insert_id.
Qed.

(** ** Taking and restoring the sizes of a view's terminals *)

(** The sizes recorded for terminals of the store *)
Definition recorded r (geometry : list (string * TerminalSize.t)) : Prop :=
  Forall (λ p, ∃ t, store r !! p.1 = Some t ∧ screen_size (SessionTerminal.state t) = p.2) geometry.

Lemma recorded_valid k r geometry : store_ok (λ _, k) r → recorded r geometry →
  Forall (λ p, valid_size p.2 ∧ is_Some (store r !! p.1)) geometry.
Proof.
  intros Hok Hrec. eapply Forall_impl; [exact Hrec|]. intros [id size] (t & Ht & <-). split; [|by eexists].
  eapply screen_ok_size. by destruct (Hok id t Ht).
Qed.

Lemma wp_capture {E} sid s r Q R :
  sessions r !! sid = Some s →
  (∀ id, id ∈ terminal_ids (View.layout (Session.view s)) → is_Some (listed r id)) →
  (∀ geometry, geometry.*1 = terminal_ids (View.layout (Session.view s)) → recorded r geometry → Q geometry r) →
  wp (E := E) (capture_view_geometry sid) r Q R.
Proof.
  intros Hs Hids HQ. unfold capture_view_geometry. apply wp_reading. unfold session. rewrite Hs. cbn.
  revert Hids HQ. generalize (terminal_ids (View.layout (Session.view s))) as ids. intros ids Hids HQ.
  assert (Hg : ∃ geometry, foldr (λ id acc, t ← terminal r id; l ← acc; Ok ((id, terminal_size t) :: l))
      (Ok []) ids = (Ok geometry : outcome E _) ∧ geometry.*1 = ids ∧ recorded r geometry).
  { clear HQ. induction ids as [|id ids IH]; [exists []; by split_and!; [| |constructor]|].
    destruct IH as (geometry & E1 & Hf & Hr); [intros; apply Hids; by right|].
    destruct (Hids id) as [t Ht]; [left|]. cbn [foldr]. rewrite E1.
    assert (terminal r id = (Ok t : outcome E _)) as -> by (unfold terminal; by rewrite Ht).
    eexists. split; [done|]. csimpl. rewrite Hf. split; [done|]. constructor; [|done].
    exists t. split; [by apply listed_Some in Ht as [_ ?]|done]. }
  destruct Hg as (geometry & E1 & Hf & Hr). change (screen_size (SessionTerminal.state ?t)) with (terminal_size t).
  rewrite E1. by apply HQ.
Qed.

(** A terminal of [geometry] whose PTY refuses nothing has its recorded size. *)
Definition restored (geometry : list (string * TerminalSize.t)) r r' : Prop :=
  Forall (λ p, ∀ t t', store r !! p.1 = Some t → healthy (SessionTerminal.master t) →
                       store r' !! p.1 = Some t' → screen_size (SessionTerminal.state t') = p.2) geometry.

Lemma restored_step r r1 r2 X geometry :
  frame X r1 r2 → (∀ id, id ∈ geometry.*1 → id ∉ X) → restored geometry r r1 → restored geometry r r2.
Proof.
  intros Hf HX. unfold restored. rewrite !Forall_forall. intros Hr p Hp t t2 Ht Hh Ht2.
  destruct (frame_back _ _ _ _ _ (frame_store _ _ _ Hf) Ht2) as (t1 & Ht1 & _ & Hq).
  destruct (Hq (HX _ (list_elem_of_fmap_2 fst _ _ Hp))) as [-> _]. by apply (Hr p Hp t).
Qed.

Lemma wp_restore {E} sid geometry k r R :
  laid r → NoDup (geometry.*1) →
  Forall (λ p, valid_size p.2 ∧ is_Some (store r !! p.1)) geometry →
  store_ok (λ _, (k + 1)%N) r →
  wp (E := E) (restore_view_geometry sid geometry) r
    (λ _ r', frame (geometry.*1) r r' ∧ store_ok (λ _, k) r' ∧ restored geometry r r') R.
Proof.
  intros Hlaid Hnd Hin Hok. unfold restore_view_geometry.
  pose (I (rest : list (string * TerminalSize.t)) r' :=
    frame (geometry.*1) r r' ∧ store_ok (budget k (rest.*1)) r' ∧
    ∃ before, geometry = before ++ rest ∧ restored before r r').
  wp_bind_use (wp_each _ I R).
  - split_and!; [reflexivity|by apply store_ok_all|exists []; by split; [|constructor]].
  - intros [id size] rest r1 (Hf & Hk & before & Hg & Hb).
    assert (Hp : (id, size) ∈ geometry) by (rewrite Hg; set_solver).
    rewrite Hg, fmap_app, fmap_cons in Hnd. apply NoDup_app in Hnd as (_ & Hdisj & Hnd).
    apply NoDup_cons in Hnd as [Hrest _].
    assert (Hnext : geometry = (before ++ [(id, size)]) ++ rest) by by rewrite <- app_assoc.
    rewrite Forall_forall in Hin. destruct (Hin _ Hp) as [Hsz Hst]. simpl in Hsz, Hst.
    assert (Hone : [id] ⊆ geometry.*1).
    { intros i ->%list_elem_of_singleton. by apply (list_elem_of_fmap_2 fst _ (id, size)). }
    assert (Hprev : ∀ i, i ∈ before.*1 → i ∉ [id]).
    { intros i Hi ->%list_elem_of_singleton. apply (Hdisj id Hi). left. }
    apply wp_bind, wp_attempt.
    wp_use (wp_resize_terminal id size k (rest.*1) r1); [done| |done..| |].
    + by apply (frame_dom _ _ _ _ (frame_store _ _ _ Hf)).
    + intros _ r2 [[Hf2 Hk2] Hm]. apply wp_ret. split_and!; [|done|].
      { etrans; [done|]. by eapply frame_mono. }
      exists (before ++ [(id, size)]). split; [done|]. apply Forall_app. split; [by eapply restored_step|].
      constructor; [|constructor]. intros t t2 _ _. apply Hm.
    + intros r2 [[Hf2 Hk2] Hun] e. apply wp_ret. split_and!; [|done|].
      { etrans; [done|]. by eapply frame_mono. }
      exists (before ++ [(id, size)]). split; [done|]. apply Forall_app. split; [by eapply restored_step|].
      constructor; [|constructor]. intros t t2 Ht Hh _.
      destruct (frame_some _ _ _ (frame_store _ _ _ Hf) id t Ht) as (t1 & Ht1 & K & _).
      by destruct (Hun t1 Ht1 (kept_healthy _ _ K Hh)).
  - intros _ r1 (Hf & Hk & before & Hg & Hb). rewrite app_nil_r in Hg. subst before.
    wp_use (wp_publish_view sid _ (λ _, False)); [by eapply laid_frame| |done].
    intros _ r2 Hf2. split_and!.
    + etrans; [exact Hf|]. eapply frame_mono; [|exact Hf2]. apply list_subseteq_nil.
    + eapply store_ok_frame; [exact (frame_store _ _ _ Hf2)|]. by eapply store_ok_budget.
    + eapply restored_step; [exact Hf2| |exact Hb]. intros id _. apply not_elem_of_nil.
  - done.
Qed.

(** ** Rearranging a view *)

Lemma laid_view r r' sid s :
  laid r → wf_layout (View.layout (Session.view s)) → size16 (View.canvas_size (Session.view s)) →
  sessions r' = <[sid := s]> (sessions r) → laid r'.
Proof. intros Hl Hwf H16 E. unfold laid. rewrite E. by apply map_Forall_insert_2. Qed.

Lemma arrange_back v layout zoom revision :
  View.arrange (View.layout v) (View.zoomed_terminal_id v) (View.revision v)
    (View.arrange layout zoom revision v) = v.
Proof. by destruct v. Qed.

(** The new arrangement, sized, or exactly the old one *)
Lemma wp_rearrange sid layout zoom geometry s k r :
  sessions r !! sid = Some s → let v := Session.view s in
  let v' := View.arrange layout zoom (View.revision v + 1) v in let X := geometry.*1 in
  laid r → valid_size (View.canvas_size v) → drawable v' (View.canvas_size v) → wf_layout (View.layout v) →
  stored r → store_ok (λ _, (k + 2)%N) r → (View.revision v < u64_MAX)%N →
  Forall (λ p, valid_size p.2 ∧ is_Some (store r !! p.1)) geometry → NoDup X → terminal_ids layout ⊆ X →
  wp (rearrange sid layout zoom geometry) r
    (λ _ r', around X r r' ∧ store_ok (λ _, k) r' ∧
       sessions r' = <[sid := Session.set_view (λ _, v') s]> (sessions r) ∧ sized r' v')
    (λ r', frame X r r' ∧ store_ok (λ _, k) r' ∧ restored geometry r r' ∧ unhealthy_in X r).
Proof.
  intros Hs v v' X Hlaid Hv Hd Hwf Hst Hok Hrev Hrec Hnd HX. unfold rearrange.
  apply wp_bind, wp_reading. unfold session. rewrite Hs. cbn [expect]. fold v.
  apply wp_bind, (wp_on_view sid _ s v'); [done| |].
  { fold v. unfold succ64. by rewrite decide_True by done. }
  set (r1 := SessionRegistry.Mk _ _ _ _ _).
  assert (Hs1 : sessions r1 !! sid = Some (Session.set_view (λ _, v') s)) by (cbn; apply lookup_insert_eq).
  assert (Hlaid1 : laid r1).
  { apply (laid_view r r1 sid (Session.set_view (λ _, v') s)); [done| | |done].
    - exact (drawable_wf _ _ Hd).
    - exact (valid_size16 _ Hv). }
  apply wp_bind, wp_attempt.
  wp_use (wp_reflow_view sid (Session.set_view (λ _, v') s) (k + 1) r1); [done..| | |].
  - eapply store_ok_mono; [|exact Hok]. intros i. cbv beta. lia.
  - intros _ r2 (Hf & Hk & Hsz). apply wp_ret. apply frame_around in Hf as [[? ? ? ?] Hss]. split_and!.
    + split; try done. eapply store_frame_mono; [exact HX|]. eapply store_frame_store; [| |eassumption]; done.
    + eapply store_ok_mono; [|exact Hk]. intros i. cbv beta. lia.
    + by rewrite Hss.
    + done.
  - intros r2 (Hf & Hk & Hun) error.
    assert (Hs2 : sessions r2 = <[sid := Session.set_view (λ _, v') s]> (sessions r))
      by by rewrite (frame_sessions _ _ _ Hf).
    apply wp_bind. eapply wp_on_view with (v := v); [by rewrite Hs2, lookup_insert_eq| |].
    { cbn. unfold v'. by rewrite arrange_back. }
    set (r3 := SessionRegistry.Mk _ _ _ _ _).
    assert (Hback : sessions r3 = sessions r).
    { cbn. rewrite Hs2, insert_insert_eq. unfold v.
      change (Session.set_view _ _) with (Session.set_view (λ _, Session.view s) s).
      rewrite set_same_view. by apply insert_id. }
    assert (Hf3 : frame X r r3).
    { apply frame_around. split; [|done]. apply frame_around in Hf as [[Hsf ? ? ?] _]. split; try done.
      eapply store_frame_mono; [exact HX|]. eapply store_frame_store; [| |exact Hsf]; done. }
    wp_bind_use (wp_restore sid geometry k r3 (λ _, False)).
    + unfold laid. by rewrite Hback.
    + done.
    + eapply Forall_impl; [exact Hrec|]. intros [id size] [? ?]. split; [done|].
      by apply (frame_dom X r r3 id (frame_store _ _ _ Hf3)).
    + exact Hk.
    + intros _ r4 (Hf4 & Hk4 & Hr4). apply wp_lift. split_and!; [by etrans|done| |].
      * unfold restored. rewrite Forall_forall in *. intros p Hp t t' Ht Hh Ht'.
        destruct (frame_some _ _ _ (frame_store _ _ _ Hf3) _ _ Ht) as (t3 & Ht3 & K & _).
        eapply (proj1 (Forall_forall _ _) Hr4 p Hp); [exact Ht3|by apply (kept_healthy _ _ K)|done].
      * destruct Hun as (id & t & Hid & Ht & Hh). exists id, t. split_and!; [by apply HX|done|done].
    + done.
Qed.
End resize.
