(* ===== verification/SessionsInv.v ===== *)
(** The invariant of the session registry: every registered terminal is in exactly one
    view, the one its owner record names; every view can be drawn on its canvas; the
    counters have room.  What keeps it: resizing, rearranging and describing views. *)

From S2P Require Import Prelude.
From S2P Require Import Layout.
From S2P Require Import Topology.
From S2P Require Import LayoutInv.
From S2P Require Import Dividers.
From S2P Require Import TopologyInv.
From S2P Require Import Leases.
From S2P Require Import Sessions.
From S2P Require Import SessionsWp.
From stdpp Require Import strings gmap.

Import SessionRegistry (store, terminals, sessions, pending_names, next_automatic_name).
Import LayoutExt.

(** The terminals of a session, in the order of its layout *)
Definition ids_of (s : Session.t) : list string := terminal_ids (View.layout (Session.view s)).

Section inv.
Context {St : Type} `{ScreenLaws St}.
Implicit Types (r : SessionRegistry.t St) (t : SessionTerminal.t St) (s : Session.t).

(** The owner record of the terminal names the session and its view. *)
Definition owned_by t s : Prop :=
  let o := SessionTerminal.owner t in
  TerminalOwner.session_id o = Session.id s ∧ TerminalOwner.view_id o = View.id (Session.view s) ∧
  TerminalOwner.name o = Session.name s.

Record view_ok (k : N) r (sid : string) s : Prop := {
  view_id_ok : Session.id s = sid;
  view_drawable : drawable (Session.view s) (View.canvas_size (Session.view s));
  view_canvas : valid_size (View.canvas_size (Session.view s));
  view_revision : (View.revision (Session.view s) + k ≤ u64_MAX)%N;
  view_owned id : id ∈ ids_of s → ∃ t, listed r id = Some t ∧ owned_by t s }.

(** The registry is well formed, and its counters have room for [k] more changes. *)
Record Inv (k : N) r : Prop := {
  inv_store : store_ok (λ _, k) r;
  inv_stored : stored r;
  inv_views : map_Forall (view_ok k r) (sessions r);
  inv_owner id t : listed r id = Some t →
    ∃ s, sessions r !! TerminalOwner.session_id (SessionTerminal.owner t) = Some s ∧ id ∈ ids_of s }.

Lemma Inv_laid k r : Inv k r → laid r.
Proof.
  intros HI sid s Hs. destruct (inv_views _ _ HI sid s Hs) as [_ Hd Hc _ _].
  split; [exact (drawable_wf _ _ Hd)|by apply valid_size16].
Qed.

Lemma view_ok_mono k k' r sid s : (k' ≤ k)%N → view_ok k r sid s → view_ok k' r sid s.
Proof. intros Hle []. split; try done. lia. Qed.

Lemma Inv_mono k k' r : (k' ≤ k)%N → Inv k r → Inv k' r.
Proof.
  intros Hle []. split; try done.
  - eapply store_ok_mono; [|done]. intros id. cbv beta. lia.
  - intros sid s Hs. eapply view_ok_mono; [exact Hle|auto].
Qed.

(** ** Listed terminals through a frame *)

Lemma around_listed X r r' id t :
  around X r r' → listed r id = Some t → ∃ t', listed r' id = Some t' ∧ kept t t'.
Proof.
  intros [Hs Ht _ _] [Hl Hid]%listed_Some. destruct (frame_some _ _ _ Hs id t Hid) as (t' & ? & ? & _).
  exists t'. split; [|done]. apply listed_Some. by rewrite Ht.
Qed.

Lemma around_listed_back X r r' id t' :
  around X r r' → listed r' id = Some t' → ∃ t, listed r id = Some t ∧ kept t t'.
Proof.
  intros [Hs Ht _ _] [Hl Hid]%listed_Some. destruct (frame_back _ _ _ _ _ Hs Hid) as (t & ? & ? & _).
  exists t. split; [|done]. apply listed_Some. by rewrite <- Ht.
Qed.

Lemma owned_by_kept t t' s : kept t t' → owned_by t s → owned_by t' s.
Proof. intros K. unfold owned_by. by rewrite (kept_owner _ _ K). Qed.

(** ** What keeps the invariant *)

(** Two versions of a session with the same identity and the same terminals *)
Definition same_owner (s s' : Session.t) : Prop :=
  Session.id s' = Session.id s ∧ Session.name s' = Session.name s ∧
  View.id (Session.view s') = View.id (Session.view s) ∧ (∀ id, id ∈ ids_of s' ↔ id ∈ ids_of s).

(** The terminals stay and a view is replaced by another one of the same terminals. *)
Lemma Inv_view k k' X r r' sid s s' :
  Inv k r → (k' ≤ k)%N → around X r r' → store_ok (λ _, k') r' →
  sessions r !! sid = Some s → sessions r' = <[sid := s']> (sessions r) → same_owner s s' →
  drawable (Session.view s') (View.canvas_size (Session.view s')) →
  valid_size (View.canvas_size (Session.view s')) →
  (View.revision (Session.view s') + k' ≤ u64_MAX)%N → Inv k' r'.
Proof.
  intros HI Hle Ha Hok Hs Hss (Hid & Hname & Hvid & Hids) Hd Hv Hrev. split.
  - done.
  - intros id. rewrite (around_terminals _ _ _ Ha). intros Hin.
    apply (frame_dom _ _ _ _ (around_store _ _ _ Ha)). by apply (inv_stored _ _ HI).
  - rewrite Hss. apply map_Forall_insert_2.
    + destruct (inv_views _ _ HI sid s Hs) as [Eid _ _ _ Ho]. split; try done; [congruence|].
      intros id Hin. apply Hids in Hin. destruct (Ho id Hin) as (t & Ht & Hown).
      destruct (around_listed _ _ _ _ _ Ha Ht) as (t' & Ht' & K). exists t'. split; [done|].
      destruct Hown as (? & ? & ?). unfold owned_by. rewrite (kept_owner _ _ K). split_and!; congruence.
    + intros sid2 s2 Hs2. destruct (inv_views _ _ HI sid2 s2 Hs2) as [? ? ? ? Ho].
      split; try done; [lia|]. intros id Hin. destruct (Ho id Hin) as (t & Ht & Hown).
      destruct (around_listed _ _ _ _ _ Ha Ht) as (t' & Ht' & K). exists t'. split; [done|].
      by eapply owned_by_kept.
  - intros id t' Ht'. destruct (around_listed_back _ _ _ _ _ Ha Ht') as (t & Ht & K).
    rewrite (kept_owner _ _ K), Hss. destruct (inv_owner _ _ HI id t Ht) as (s0 & Hs0 & Hin).
    destruct (decide (TerminalOwner.session_id (SessionTerminal.owner t) = sid)) as [E|Hne].
    + rewrite E in *. simplify_eq. exists s'. rewrite lookup_insert_eq. split; [done|]. by apply Hids.
    + exists s0. by rewrite lookup_insert_ne.
Qed.

Lemma Inv_frame k k' X r r' : Inv k r → (k' ≤ k)%N → frame X r r' → store_ok (λ _, k') r' → Inv k' r'.
Proof.
  intros HI Hle [Ha Hss]%frame_around Hok. split.
  - done.
  - intros id. rewrite (around_terminals _ _ _ Ha). intros Hin.
    apply (frame_dom _ _ _ _ (around_store _ _ _ Ha)). by apply (inv_stored _ _ HI).
  - rewrite Hss. intros sid s Hs. destruct (inv_views _ _ HI sid s Hs) as [? ? ? ? Ho].
    split; try done; [lia|]. intros id Hin. destruct (Ho id Hin) as (t & Ht & Hown).
    destruct (around_listed _ _ _ _ _ Ha Ht) as (t' & Ht' & K). exists t'. split; [done|].
    by eapply owned_by_kept.
  - intros id t' Ht'. destruct (around_listed_back _ _ _ _ _ Ha Ht') as (t & Ht & K).
    rewrite (kept_owner _ _ K), Hss. by apply (inv_owner _ _ HI).
Qed.

Lemma store_ok_0 k k' r : (k' ≤ k)%N → store_ok (λ _, k) r → store_ok (λ _, k') r.
Proof. intros Hle. apply store_ok_mono. by intros id. Qed.

(** Publishing keeps the invariant. *)
Lemma Inv_quiet k r r' : Inv k r → frame [] r r' → Inv k r'.
Proof.
  intros HI Hf. eapply Inv_frame; [exact HI|done|exact Hf|].
  eapply store_ok_frame; [exact (frame_store _ _ _ Hf)|exact (inv_store _ _ HI)].
Qed.

(** A view that can be drawn is described without error. *)
Lemma view_info_Ok k r sid s :
  Inv k r → sessions r !! sid = Some s → ∃ info, view_info r sid = Ok info ∧
    ViewInfo.session_id info = sid ∧ ViewInfo.view_id info = View.id (Session.view s) ∧
    ViewInfo.revision info = View.revision (Session.view s) ∧
    ViewInfo.layout info = View.layout (Session.view s) ∧
    TerminalInfo.terminal_id <$> ViewInfo.terminals info = ids_of s.
Proof.
  intros HI Hs. destruct (inv_views _ _ HI sid s Hs) as [Hid Hd Hv _ Ho]. unfold view_info.
  rewrite (root_here r sid s Hs). cbn [mbind outcome_bind]. cbv zeta.
  pose proof (pane_geometry_spec (View.layout (Session.view s)) (View.canvas_size (Session.view s))
    (drawable_wf _ _ Hd)) as Hg. destruct (valid_size16 _ Hv).
  rewrite decide_True in Hg by apply (drawable_fits _ _ Hd). destruct Hg as (panes & E & _); [lia..|].
  rewrite E. cbn [map_err mbind outcome_bind]. eexists. split; [done|]. cbn. split_and!; try done.
  unfold ids_of in *. assert (Hall : ∀ id, id ∈ terminal_ids (View.layout (Session.view s)) →
    ∃ t, listed r id = Some t ∧ SessionTerminal.id t = id).
  { intros id Hin. destruct (Ho id Hin) as (t & Ht & _). exists t. split; [done|].
    apply listed_Some in Ht as [_ Ht]. by destruct (inv_store _ _ HI id t Ht). }
  clear -Hall. induction (terminal_ids _) as [|id l IH]; [done|].
  destruct (Hall id) as (t & Ht & Hid); [left|]. csimpl. rewrite Ht. csimpl.
  rewrite Hid. f_equal. apply IH. intros i Hi. apply Hall. by right.
Qed.

Lemma wp_current_view k r sid s Q R :
  Inv k r → sessions r !! sid = Some s →
  (∀ info, ViewInfo.revision info = View.revision (Session.view s) →
     ViewInfo.layout info = View.layout (Session.view s) → Q info r) → wp (current_view sid) r Q R.
Proof.
  intros HI Hs HQ. unfold current_view. apply wp_reading.
  destruct (view_info_Ok k r sid s HI Hs) as (info & -> & _ & _ & ? & ? & _). cbn. by apply HQ.
Qed.

Lemma view_ids_listed k r sid s id : Inv k r → sessions r !! sid = Some s → id ∈ ids_of s → is_Some (listed r id).
Proof.
  intros HI Hs Hid. destruct (view_owned _ _ _ _ (inv_views _ _ HI sid s Hs) id Hid) as (t & Ht & _).
  by exists t.
Qed.
End inv.
