(* ===== verification/SessionsControl.v ===== *)
(** The operations of an attached client on its view: resizing the canvas, a pane or a
    divider, swapping panes, zooming.  Each keeps the registry's invariant, changes a
    view only together with its revision, and undoes what it did when it fails. *)

From S2P Require Import Prelude.
From S2P Require Import Layout.
From S2P Require Import Topology.
From S2P Require Import LayoutInv.
From S2P Require Import Dividers.
From S2P Require Import TopologyInv.
From S2P Require Import Leases.
From S2P Require Import Sessions.
From S2P Require Import SessionsWp.
From S2P Require Import SessionsInv.
From stdpp Require Import strings gmap.

Import SessionRegistry (store, terminals, sessions, pending_names, next_automatic_name).
Import LayoutExt.

(** What a client can see of a session's view *)
Definition arrangement (s : Session.t) :=
  let v := Session.view s in
  (Session.name s, View.layout v, View.canvas_size v, View.zoomed_terminal_id v).

(** What the abstract topology knows of a session: its name and its terminals, in order *)
Definition entry (s : Session.t) : string * list string := (Session.name s, ids_of s).

Section control.
Context {St : Type} `{ScreenLaws St}.
Implicit Types (r : SessionRegistry.t St) (t : SessionTerminal.t St) (s : Session.t).

(** The abstract state of the registry *)
Definition members r : gmap string (string * list string) := entry <$> sessions r.

(** A session keeps its view, which either shows what it showed or has a later revision. *)
Definition later (s s' : Session.t) : Prop :=
  View.id (Session.view s') = View.id (Session.view s) ∧
  (arrangement s' = arrangement s ∧ View.revision (Session.view s') = View.revision (Session.view s) ∨
   (View.revision (Session.view s) < View.revision (Session.view s'))%N).

Definition advances r r' : Prop := ∀ sid s s',
  sessions r !! sid = Some s → sessions r' !! sid = Some s' → later s s'.

(** A good outcome: the invariant, fenced changes, and the given sessions *)
Record good (k : N) r (m : gmap string (string * list string)) r' : Prop := {
  good_inv : Inv k r';
  good_advances : advances r r';
  good_members : members r' = m;
  good_pending : pending_names r' = pending_names r }.

(** An outcome that shows nothing: the sessions are as before, and so is the size of every
    terminal whose PTY accepts what it is asked. *)
Record undone (k : N) r r' : Prop := {
  undone_inv : Inv k r';
  undone_sessions : sessions r' = sessions r;
  undone_pending : pending_names r' = pending_names r;
  undone_sizes id t t' : store r !! id = Some t → healthy (SessionTerminal.master t) →
    store r' !! id = Some t' →
    screen_size (SessionTerminal.state t') = screen_size (SessionTerminal.state t) }.

Lemma advances_same r r' : sessions r' = sessions r → advances r r'.
Proof. intros E sid s s' Hs. rewrite E. intros ?. simplify_eq. split; [done|by left]. Qed.

Lemma undone_good k r r' : undone k r r' → good k r (members r) r'.
Proof.
  intros [HI Hs Hp _]. split; [done|by apply advances_same| |done]. unfold members. by rewrite Hs.
Qed.

Lemma undone_refl k r : Inv k r → undone k r r.
Proof. intros HI. split; [done|done|done|]. intros. by simplify_eq. Qed.

Lemma undone_mono k k' r r' : (k' ≤ k)%N → undone k r r' → undone k' r r'.
Proof. intros ? []. split; try done. by eapply Inv_mono. Qed.

(** Frames that leave the sessions *)
Lemma frame_good k k' X r r' :
  Inv k r → (k' ≤ k)%N → frame X r r' → store_ok (λ _, k') r' → good k' r (members r) r'.
Proof.
  intros HI Hle Hf Hok. pose proof (frame_sessions _ _ _ Hf) as Hs.
  split; [by eapply Inv_frame|by apply advances_same| |exact (frame_pending _ _ _ Hf)].
  unfold members. by rewrite Hs.
Qed.

Lemma members_insert r r' sid s' :
  sessions r' = <[sid := s']> (sessions r) → members r' = <[sid := entry s']> (members r).
Proof. intros E. unfold members. by rewrite E, fmap_insert. Qed.

Lemma members_lookup r sid s : sessions r !! sid = Some s → members r !! sid = Some (entry s).
Proof. intros E. unfold members. by rewrite lookup_fmap, E. Qed.

(** A view replaced by a later one *)
Lemma view_good k k' X r r' sid s s' :
  Inv k r → (k' ≤ k)%N → around X r r' → store_ok (λ _, k') r' →
  sessions r !! sid = Some s → sessions r' = <[sid := s']> (sessions r) → same_owner s s' →
  drawable (Session.view s') (View.canvas_size (Session.view s')) →
  valid_size (View.canvas_size (Session.view s')) →
  (View.revision (Session.view s') + k' ≤ u64_MAX)%N →
  (View.revision (Session.view s) < View.revision (Session.view s'))%N ∨
    arrangement s' = arrangement s ∧ View.revision (Session.view s') = View.revision (Session.view s) →
  good k' r (<[sid := entry s']> (members r)) r'.
Proof.
  intros HI Hle Ha Hok Hs Hss Ho Hd Hv Hrev Hadv. split.
  - by eapply Inv_view.
  - intros sid2 s2 s2' Hs2. rewrite Hss. destruct (decide (sid2 = sid)) as [->|Hne].
    + rewrite lookup_insert_eq. intros [= <-]. simplify_eq. split; [apply Ho|]. destruct Hadv; auto.
    + rewrite lookup_insert_ne by done. intros ?. simplify_eq. split; [done|by left].
  - by apply members_insert.
  - exact (around_pending _ _ _ Ha).
Qed.

Lemma members_id r sid s : sessions r !! sid = Some s → <[sid := entry s]> (members r) = members r.
Proof. intros Hs. apply insert_id. by apply members_lookup. Qed.

(** ** Resizing the canvas *)

Lemma resized_view_ok s size :
  let s' := Session.set_view (λ _, resized_view size (Session.view s)) s in
  same_owner s s' ∧ View.canvas_size (Session.view s') = size ∧
  (drawable (Session.view s) size → drawable (Session.view s') size) ∧
  entry s' = entry s ∧
  ((View.revision (Session.view s) < View.revision (Session.view s'))%N ∨
    arrangement s' = arrangement s ∧ View.revision (Session.view s') = View.revision (Session.view s)) ∧
  (View.revision (Session.view s') ≤ View.revision (Session.view s) + 1)%N.
Proof.
  simpl. unfold resized_view. case_decide as Hc; cbn.
  - rewrite set_same_view. split; [done|]. split; [done|]. split; [done|]. split; [done|].
    split; [by right|lia].
  - split; [done|]. split; [done|]. split; [by intros []; split|]. split; [done|].
    split; [left; lia|lia].
Qed.

Lemma wp_resize_inner self att size k r :
  Inv (k + 1) r → is_Some (store r !! self) → u16_size size →
  wp (resize_inner self att size) r
    (λ _ r', good k r (members r) r') (λ r', good k r (members r) r' ∧ sessions r' = sessions r).
Proof.
  intros HI [t Ht] Hv. unfold resize_inner.
  assert (Hsame : good k r (members r) r ∧ sessions r = sessions r).
  { split; [|done]. apply undone_good, undone_refl. eapply Inv_mono; [|done]. lia. }
  apply wp_bind, wp_reading. unfold owner_of, shared. rewrite Ht. cbn.
  apply wp_bind, wp_reading. destruct (sessions r !! _) as [s|] eqn:Hs; [|exact Hsame]. cbn.
  set (sid := TerminalOwner.session_id (SessionTerminal.owner t)) in *.
  apply wp_bind, wp_fail_if; [intros _|exact Hsame].
  apply wp_bind, wp_fail_if; [intros Hb1%bool_decide_eq_false|exact Hsame].
  apply wp_bind, wp_fail_if; [intros Hb2%bool_decide_eq_false|exact Hsame].
  destruct (inv_views _ _ HI sid s Hs) as [Hid Hd Hcv Hrev Ho].
  set (minimum := Layout.minimum_size _) in *.
  match goal with |- wp (resize_view _ ?new) _ _ _ => set (size' := new) end.
  assert (Hd' : drawable (Session.view s) size').
  { destruct Hd as [? ? ? ?]. split; try done. split; cbn; fold minimum; lia. }
  assert (Hv' : valid_size size').
  { pose proof (minimum_at_least _ (drawable_wf _ _ Hd)) as Hmin. fold minimum in Hmin. destruct Hv as (? & ? & ? & ?).
    pose proof (drawable_fits _ _ Hd) as [Hfit _]. cbn in Hfit. fold minimum in Hfit. destruct Hcv as (? & ? & _).
    split_and!; cbn; lia. }
  wp_use (wp_resize_view sid size' s k r); [exact Hs|by eapply Inv_laid|exact Hv'|exact Hd'|
    exact (inv_stored _ _ HI)|exact (inv_store _ _ HI)|left; lia| |].
  - intros _ r' (Ha & Hk & Hss & _).
    destruct (resized_view_ok s size') as (Hso & Hcs & Hdr & Hids & Hadv & Hle). 
    rewrite <- (members_id r sid s Hs), <- Hids.
    eapply view_good; [exact HI|lia|exact Ha|exact Hk|exact Hs|exact Hss|exact Hso| | | |exact Hadv].
    + rewrite Hcs. auto.
    + by rewrite Hcs.
    + lia.
  - intros r' (Hf & Hk & _). split; [|exact (frame_sessions _ _ _ Hf)]. eapply frame_good; [exact HI|lia|exact Hf|exact Hk].
Qed.

(** ** Changing the layout *)

Lemma controlled_view_total self att r :
  is_Some (store r !! self) →
  controlled_view self att r ⇓? λ '(owner, root), sessions r !! owner = Some root ∧
    owns_layout (Session.view root) att = true ∧ Session.closing root = false ∧
    owner_of r self = Ok owner.
Proof.
  intros [t Ht]. unfold controlled_view, owner_of, shared. rewrite Ht.
  cbn [expect fmap outcome_fmap mbind outcome_bind].
  destruct (sessions r !! _) as [s|] eqn:Hs; [|done]. cbn [ok_or mbind outcome_bind].
  destruct (owns_layout (Session.view s) att) eqn:Ho; [|done]. cbn [negb fail_if mbind outcome_bind].
  destruct (Session.closing s) eqn:Hc; [done|]. by split_and!.
Qed.

(** A layout that may replace the one of a session *)
Definition replaces s (l : ViewLayout) : Prop :=
  wf_layout l ∧ NoDup (terminal_ids l) ∧ fits (View.canvas_size (Session.view s)) l ∧
  (∀ id, id ∈ terminal_ids l ↔ id ∈ ids_of s).

Definition arranged s (l : ViewLayout) (zoom : option string) : Session.t :=
  Session.set_view (λ _, View.arrange l zoom (View.revision (Session.view s) + 1) (Session.view s)) s.

Lemma arranged_same_owner s l zoom : replaces s l → same_owner s (arranged s l zoom).
Proof. intros (_ & _ & _ & Hids). by split_and!. Qed.

Lemma arranged_drawable s l zoom size :
  wf_layout l → NoDup (terminal_ids l) → fits size l → (∀ id, zoom = Some id → id ∈ terminal_ids l) →
  drawable (View.arrange l zoom (View.revision (Session.view s) + 1) (Session.view s)) size.
Proof. intros ? ? ? ?. by split. Qed.

(** Terminals whose sizes were taken in [r0] and restored after [r] *)
Lemma restored_undone k k' X geometry r0 r r' :
  Inv k r0 → (k' ≤ k)%N → recorded r0 geometry → frame X r0 r → X ⊆ geometry.*1 →
  frame (geometry.*1) r r' → store_ok (λ _, k') r' → restored geometry r r' → undone k' r0 r'.
Proof.
  intros HI Hle Hrec Hf0 HX Hf Hk Hr.
  assert (Hff : frame (geometry.*1) r0 r') by (etrans; [by eapply frame_mono|exact Hf]).
  split; [by eapply Inv_frame|exact (frame_sessions _ _ _ Hff)|exact (frame_pending _ _ _ Hff)|].
  intros id t t' Ht Hh Ht'. destruct (decide (id ∈ geometry.*1)) as [Hin|Hout].
  - apply list_elem_of_fmap in Hin as ([id' size] & -> & Hin). unfold restored, recorded in *.
    rewrite Forall_forall in Hr, Hrec. cbn in *.
    destruct (frame_some _ _ _ (frame_store _ _ _ Hf0) id' t Ht) as (t1 & Ht1 & K & _).
    rewrite (Hr _ Hin t1 t' Ht1 (kept_healthy _ _ K Hh) Ht').
    destruct (Hrec _ Hin) as (t0 & Ht0 & Hsize). cbn in *. by simplify_eq.
  - destruct (frame_back _ _ _ _ _ (frame_store _ _ _ Hff) Ht') as (t0 & Ht0 & _ & Hq).
    assert (t0 = t) as -> by congruence. by destruct (Hq Hout) as [-> _].
Qed.

(** The changes of a layout or of the zoom under the attachment's lease *)
Lemma wp_rearranged sid l zoom geometry s k r :
  Inv (k + 2) r → sessions r !! sid = Some s → replaces s l →
  (∀ id, zoom = Some id → id ∈ terminal_ids l) → geometry.*1 = ids_of s →
  Forall (λ p, valid_size p.2 ∧ is_Some (store r !! p.1)) geometry →
  wp (rearrange sid l zoom geometry) r
    (λ _ r', good k r (<[sid := (Session.name s, terminal_ids l)]> (members r)) r' ∧
             sessions r' = <[sid := arranged s l zoom]> (sessions r) ∧
             sized r' (Session.view (arranged s l zoom)))
    (λ r', frame (geometry.*1) r r' ∧ store_ok (λ _, k) r' ∧ restored geometry r r').
Proof.
  intros HI Hs Hl Hz Hg Hrec. pose proof Hl as (Hwf & Hnd & Hfit & Hids).
  destruct (inv_views _ _ HI _ _ Hs) as [Hid Hd Hv Hrev Ho].
  wp_use (wp_rearrange sid l zoom geometry s k r).
  - exact Hs.
  - by eapply Inv_laid.
  - exact Hv.
  - by apply arranged_drawable.
  - exact (drawable_wf _ _ Hd).
  - exact (inv_stored _ _ HI).
  - exact (inv_store _ _ HI).
  - lia.
  - exact Hrec.
  - rewrite Hg. exact (drawable_nodup _ _ Hd).
  - rewrite Hg. intros id. by apply Hids.
  - intros _ r' (Ha & Hk & Hss & Hsz). split_and!; [|done|done].
    apply (view_good (k + 2) k (geometry.*1) r r' sid s (arranged s l zoom) HI);
      [lia|exact Ha|exact Hk|exact Hs|exact Hss|by apply arranged_same_owner|
       by apply arranged_drawable|exact Hv|cbn; lia|left; cbn; lia].
  - intros r' (Hf & Hk & Hr & _). done.
Qed.

Lemma good_mono_k k k' r m r' : (k' ≤ k)%N → good k r m r' → good k' r m r'.
Proof. intros ? []. split; try done. by eapply Inv_mono. Qed.

(** What an operation on a controlled view did: nothing, or [change] *)
Definition changed_layout (k : N) (self : string) r
    (change : View.t → SessionRegistry.t St → outcome SessionControlError (ViewLayout * bool)) r' : Prop :=
  ∃ sid s l ch, owner_of r self = Ok sid ∧ sessions r !! sid = Some s ∧
    change (Session.view s) r = Ok (l, ch) ∧
    (ch = false ∧ undone k r r' ∨
     ch = true ∧ good k r (<[sid := (Session.name s, terminal_ids l)]> (members r)) r' ∧
     sessions r' = <[sid := arranged s l None]> (sessions r) ∧
     sized r' (Session.view (arranged s l None))).

Lemma wp_resize_layout self att change k r :
  Inv (k + 2) r → is_Some (store r !! self) →
  (∀ sid s, owner_of r self = Ok sid → sessions r !! sid = Some s →
     change (Session.view s) r ⇓? λ '(l, ch), ch = true → replaces s l) →
  wp (resize_layout self att change) r
    (λ _ r', changed_layout k self r change r') (λ r', undone k r r').
Proof.
  intros HI Hself Hch. unfold resize_layout.
  assert (Hsame : undone k r r) by (apply undone_refl; eapply Inv_mono; [|done]; lia).
  apply wp_bind, wp_reading. pose proof (controlled_view_total self att r Hself) as Hc.
  destruct (controlled_view self att r) as [[sid s]|e|]; [|exact Hsame|done].
  destruct Hc as (Hs & _ & _ & Ho). apply wp_bind, wp_reading. specialize (Hch sid s Ho Hs).
  destruct (change (Session.view s) r) as [[l ch]|e|] eqn:E; [|exact Hsame|done].
  destruct ch; cbn [negb].
  - apply wp_bind. eapply wp_capture; [exact Hs| |].
    { intros id Hin. by eapply view_ids_listed. }
    intros geometry Hg Hrec. pose proof (recorded_valid _ _ _ (inv_store _ _ HI) Hrec) as Hval.
    wp_bind_use (wp_rearranged sid l None geometry s k r); try done; [by apply Hch| |].
    2:{ intros r' (Hf & Hk & Hr). eapply (restored_undone _ _ []); [exact HI|lia|exact Hrec|reflexivity| | | |];
          try done. apply list_subseteq_nil. }
    intros _ r' (Hgood & Hss & Hsz). pose proof Hgood as [HI' _ _ _].
    eapply wp_current_view; [exact HI'|by rewrite Hss, lookup_insert_eq|].
    intros info _ _. exists sid, s, l, true. split_and!; try done. by right.
  - eapply wp_current_view; [exact HI|exact Hs|]. intros info _ _.
    exists sid, s, l, false. split_and!; try done. by left.
Qed.
End control.

(** * The operations *)

Section operations.
Context {St : Type} `{ScreenLaws St}.
Implicit Types (r : SessionRegistry.t St) (s : Session.t).

Lemma view_wf k r sid s : Inv k r → sessions r !! sid = Some s →
  wf_layout (View.layout (Session.view s)) ∧ size16 (View.canvas_size (Session.view s)) ∧
  NoDup (ids_of s) ∧ fits (View.canvas_size (Session.view s)) (View.layout (Session.view s)).
Proof.
  intros HI Hs. destruct (inv_views _ _ HI _ _ Hs) as [_ [Hwf Hnd Hf _] Hv _ _].
  split_and!; try done; by destruct (valid_size16 _ Hv).
Qed.

Lemma lifecycle_total k r sid s id : Inv k r → sessions r !! sid = Some s → id ∈ ids_of s →
  ∃ b, lifecycle_running r id = Ok b.
Proof.
  intros HI Hs Hid. destruct (view_ids_listed k r sid s id HI Hs Hid) as [t Ht].
  unfold lifecycle_running, terminal. rewrite Ht. by eexists.
Qed.

(** A resized layout may replace the one it came from. *)
Lemma resizes_replaces s result :
  NoDup (ids_of s) → resizes (View.canvas_size (Session.view s)) (View.layout (Session.view s)) result →
  replaces s result.1.
Proof.
  intros Hnd [(Hwf & Hids & _) [Hf _]]. unfold replaces, ids_of in *. rewrite Hids. by split_and!.
Qed.

(** Operations that move a divider *)
Lemma wp_resizing self att change k r :
  Inv (k + 2) r → is_Some (store r !! self) →
  (∀ sid s, owner_of r self = Ok sid → sessions r !! sid = Some s →
    change (Session.view s) r ⇓? resizes (View.canvas_size (Session.view s)) (View.layout (Session.view s))) →
  wp (resize_layout self att change) r (λ _ r', good k r (members r) r') (λ r', undone k r r').
Proof.
  intros HI Hself Hch. wp_use (wp_resize_layout self att change k r); [exact HI|exact Hself| | |done].
  - intros sid s Ho Hs. eapply Total_mono; [by eapply Hch|]. intros [l ch] Hr _.
    destruct (view_wf _ _ _ _ HI Hs) as (_ & _ & Hnd & _). by apply (resizes_replaces s (l, ch)).
  - intros _ r' (sid & s & l & ch & Ho & Hs & E & [[_ Hu]|(_ & Hg & _)]); [by apply undone_good|].
    pose proof (Hch sid s Ho Hs) as Hr. rewrite E in Hr. destruct Hr as [(_ & Hids & _) _].
    cbn [fst] in Hids. rewrite Hids in Hg. change (_, _) with (entry s) in Hg. by rewrite members_id in Hg.
Qed.

Lemma wp_resize_pane_inner self att tid direction amount k r :
  Inv (k + 2) r → is_Some (store r !! self) →
  wp (resize_pane_inner self att tid direction amount) r
    (λ _ r', good k r (members r) r') (λ r', undone k r r').
Proof.
  intros HI Hself. apply wp_resizing; [done..|]. intros sid s Ho Hs.
  destruct (view_wf _ _ _ _ HI Hs) as (Hwf & H16 & Hnd & Hf).
  destruct (bool_decide (tid ∈ _)) eqn:Hin; [|done]. apply bool_decide_eq_true in Hin.
  cbn [negb fail_if mbind outcome_bind].
  destruct (lifecycle_total _ _ _ _ _ HI Hs Hin) as [b ->]. destruct b; [|done].
  cbn [negb fail_if mbind outcome_bind]. by apply map_err_total, resize_pane_resizes.
Qed.

Lemma wp_resize_divider_inner self att divider k r :
  Inv (k + 2) r → is_Some (store r !! self) →
  wp (resize_divider_inner self att divider) r
    (λ _ r', good k r (members r) r') (λ r', undone k r r').
Proof.
  intros HI Hself. apply wp_resizing; [done..|]. intros sid s Ho Hs.
  destruct (view_wf _ _ _ _ HI Hs) as (Hwf & H16 & Hnd & Hf).
  destruct (_ || _); [done|]. cbn [fail_if mbind outcome_bind].
  by apply map_err_total, resize_divider_resizes.
Qed.

(** ** Swapping *)

Lemma swap_id_in left right (ids : list string) id :
  left ∈ ids → right ∈ ids → id ∈ swap_id left right <$> ids ↔ id ∈ ids.
Proof.
  intros Hl Hr. rewrite list_elem_of_fmap. split.
  - intros (x & -> & Hx). unfold swap_id. by repeat case_decide.
  - intros Hid. exists (swap_id left right id). rewrite swap_id_involutive. split; [done|].
    unfold swap_id. by repeat case_decide.
Qed.

Lemma swap_replaces s left right :
  wf_layout (View.layout (Session.view s)) → NoDup (ids_of s) →
  fits (View.canvas_size (Session.view s)) (View.layout (Session.view s)) →
  left ∈ ids_of s → right ∈ ids_of s →
  replaces s (swap_terminal_ids left right (View.layout (Session.view s))).
Proof.
  intros Hwf Hnd Hf Hl Hr. unfold replaces, fits. rewrite swap_ids, swap_minimum. split_and!.
  - by apply swap_wf.
  - apply (NoDup_fmap_2_strong (swap_id left right)); [|exact Hnd]. intros x y _ _ E.
    by rewrite <- (swap_id_involutive left right x), E, swap_id_involutive.
  - apply Hf.
  - apply Hf.
  - intros id. by apply swap_id_in.
Qed.

Lemma position_total {A} (p : A → bool) l x : x ∈ l → p x = true → ∃ i, Layout.position p l = Some i.
Proof.
  induction l as [|y l IH]; intros Hin Hp; [by apply elem_of_nil in Hin|]. cbn.
  destruct (p y) eqn:Hy; [by eexists|]. apply elem_of_cons in Hin as [->|Hin]; [congruence|].
  destruct (IH Hin Hp) as [i ->]. by eexists.
Qed.

Lemma adjacent_lt previous i n : 0 < n → i < n → adjacent previous i n < n.
Proof. intros ? ?. unfold adjacent. destruct previous; apply Nat.mod_upper_bound; lia. Qed.

(** The layout a swap asks for: the target and the pane before or after it change places. *)
Definition swapped (target : string) (previous : bool) (ids ids' : list string) : Prop :=
  ∃ i other, ids !! i = Some target ∧ ids !! adjacent previous i (length ids) = Some other ∧
             ids' = swap_id target other <$> ids.

Lemma attached_pane_target_total self att target r :
  is_Some (store r !! self) →
  attached_pane_target self att target r ⇓? λ root, ∃ sid, owner_of r self = Ok sid ∧
    sessions r !! sid = Some root ∧ PaneTarget.terminal_id target ∈ ids_of root ∧
    PaneTarget.expected_revision target = View.revision (Session.view root) ∧
    Session.closing root = false ∧
    is_Some (listed r (PaneTarget.terminal_id target)).
Proof.
  intros [t Ht]. unfold attached_pane_target.
  assert (Ho : owner_of r self = Ok (TerminalOwner.session_id (SessionTerminal.owner t))).
  { unfold owner_of, shared. by rewrite Ht. }
  rewrite Ho. cbn [mbind outcome_bind].
  destruct (sessions r !! _) as [s|] eqn:Hs; [|done]. cbn [ok_or mbind outcome_bind]. cbv zeta.
  destruct (owns_layout _ _); [|done]. cbn [negb fail_if mbind outcome_bind].
  destruct (Session.closing s) eqn:Hc; [done|]. cbn [fail_if mbind outcome_bind].
  destruct (bool_decide (PaneTarget.expected_revision target = _)) eqn:Hr;
    [|by rewrite orb_true_r]. apply bool_decide_eq_true in Hr.
  destruct (_ || _); [done|]. cbn [fail_if mbind outcome_bind].
  destruct (bool_decide (PaneTarget.terminal_id target ∈ _)) eqn:Hin; [|done].
  apply bool_decide_eq_true in Hin. cbn [negb fail_if mbind outcome_bind].
  unfold running_movable_terminal. destruct (listed r _) as [t'|] eqn:Hl; [|done].
  cbn [ok_or mbind outcome_bind]. destruct (SessionTerminal.managed t'); [done|].
  cbn [fail_if mbind outcome_bind]. destruct (negb _); [done|]. cbn [fail_if mbind outcome_bind].
  eexists. split_and!; try done.
Qed.

Lemma running_movable_total r id : running_movable_terminal r id ⇓? λ _, True.
Proof.
  unfold running_movable_terminal. destruct (listed r id) as [t|]; [|done].
  cbn [ok_or mbind outcome_bind]. by destruct (SessionTerminal.managed t), (negb _).
Qed.

Lemma wp_swap_pane_inner self att target previous k r :
  Inv (k + 2) r → is_Some (store r !! self) →
  wp (swap_pane_inner self att target previous) r
    (λ _ r', ∃ sid name ids ids', members r !! sid = Some (name, ids) ∧
       swapped (PaneTarget.terminal_id target) previous ids ids' ∧
       good k r (<[sid := (name, ids')]> (members r)) r')
    (λ r', undone k r r').
Proof.
  intros HI Hself. unfold swap_pane_inner.
  match goal with |- wp (resize_layout _ _ ?f) _ _ _ => set (change := f) end.
  assert (Hch : ∀ sid s, owner_of r self = Ok sid → sessions r !! sid = Some s →
    change (Session.view s) r ⇓? λ '(l, ch), ch = true ∧ replaces s l ∧
      swapped (PaneTarget.terminal_id target) previous (ids_of s) (terminal_ids l)).
  { intros sid s Ho Hs. destruct (view_wf _ _ _ _ HI Hs) as (Hwf & H16 & Hnd & Hf). unfold change.
    eapply Total_bind; [by apply attached_pane_target_total|].
    intros s' (sid' & Ho' & Hs' & Hin & _). rewrite Ho' in Ho. injection Ho as ->. simplify_eq. cbv zeta.
    fold (ids_of s). destruct (bool_decide (length _ < 2)) eqn:Hlen; [done|].
    apply bool_decide_eq_false in Hlen. cbn [fail_if mbind outcome_bind].
    destruct (position_total (λ id, bool_decide (id = PaneTarget.terminal_id target)) (ids_of s)
      (PaneTarget.terminal_id target) Hin) as [i Hi]; [by apply bool_decide_eq_true|].
    rewrite Hi. cbn [expect mbind outcome_bind].
    destruct (position_lookup _ _ _ Hi) as (x & Hx & Hxt%bool_decide_eq_true). subst x.
    pose proof (lookup_lt_Some _ _ _ Hx) as Hlt.
    destruct (lookup_lt_is_Some_2 (ids_of s) (adjacent previous i (length (ids_of s)))) as [other Hother];
      [apply adjacent_lt; lia|].
    rewrite Hother. cbn [expect mbind outcome_bind].
    eapply Total_bind; [apply running_movable_total|]. intros _ _. cbn [Total].
    split; [done|]. split.
    - apply swap_replaces; try done. by eapply list_elem_of_lookup_2.
    - exists i, other. rewrite swap_ids. by split_and!. }
  wp_use (wp_resize_layout self att change k r); [exact HI|exact Hself| | |done].
  - intros sid s Ho Hs. eapply Total_mono; [by eapply Hch|]. intros [l ch] (_ & Hr & _) _. exact Hr.
  - intros _ r' (sid & s & l & ch & Ho & Hs & E & Hcase).
    pose proof (Hch sid s Ho Hs) as Hr. rewrite E in Hr. destruct Hr as (-> & _ & Hsw).
    destruct Hcase as [[? _]|(_ & Hg & _)]; [done|].
    exists sid, (Session.name s), (ids_of s), (terminal_ids l). split_and!; [by apply members_lookup|done|done].
Qed.

(** ** Zooming *)

Lemma same_layout_replaces k r sid s : Inv k r → sessions r !! sid = Some s →
  replaces s (View.layout (Session.view s)).
Proof. intros HI Hs. destruct (view_wf _ _ _ _ HI Hs) as (? & _ & ? & ?). by split_and!. Qed.

(** The result of resizing a single terminal of a view *)
Lemma undone_frame k k' X r r' :
  Inv k r → (k' ≤ k)%N → frame X r r' → store_ok (λ _, k') r' →
  (∀ id t, id ∈ X → store r !! id = Some t → ¬ healthy (SessionTerminal.master t)) → undone k' r r'.
Proof.
  intros HI Hle Hf Hk Hun. split; [by eapply Inv_frame|exact (frame_sessions _ _ _ Hf)|exact (frame_pending _ _ _ Hf)|].
  intros id t t' Ht Hh Ht'. destruct (frame_back _ _ _ _ _ (frame_store _ _ _ Hf) Ht') as (t0 & Ht0 & _ & Hq).
  assert (t0 = t) as -> by congruence.
  destruct (decide (id ∈ X)) as [Hin|Hout]; [by destruct (Hun _ _ Hin Ht)|].
  by destruct (Hq Hout) as [-> _].
Qed.

(** Resizing the terminal that was zoomed, before the view is rearranged *)
Lemma wp_unzoom previous view k r sid s :
  Inv (k + 1) r → sessions r !! sid = Some s → view = Session.view s →
  View.zoomed_terminal_id view = Some previous →
  wp (panes ← lift (map_err ControlInvalidView
                     (Layout.pane_geometry (View.layout view) (View.canvas_size view)));
      pane ← lift (expect (head (filter (λ pane, PaneGeometry.terminal_id pane = previous) panes)));
      _ ← reading (λ r, terminal r previous);
      size ← lift (map_err ControlPty (pane_size (View.canvas_size view) pane));
      resize_terminal previous size) r
    (λ _ r', frame [previous] r r' ∧ store_ok (λ _, k) r') (λ r', undone k r r').
Proof.
  intros HI Hs -> Hz. destruct (inv_views _ _ HI _ _ Hs) as [_ Hd Hv _ Ho].
  pose proof (pane_geometry_spec (View.layout (Session.view s)) (View.canvas_size (Session.view s))
    (drawable_wf _ _ Hd)) as Hg. pose proof (valid_size16 _ Hv) as [? ?].
  rewrite decide_True in Hg by apply (drawable_fits _ _ Hd). destruct Hg as (panes & E & Hids & Hin & _); [lia..|].
  rewrite E. apply wp_bind, wp_lift. cbn [map_err].
  pose proof (drawable_zoom _ _ Hd _ Hz) as Hprev.
  assert (Hpane : ∃ pane, head (filter (λ pane, PaneGeometry.terminal_id pane = previous) panes) = Some pane ∧
    pane ∈ panes ∧ PaneGeometry.terminal_id pane = previous).
  { rewrite <- Hids in Hprev. apply list_elem_of_fmap in Hprev as (p & Hp & Hpin).
    destruct (filter _ panes) as [|q qs] eqn:Ef.
    - assert (p ∈ filter (λ pane, PaneGeometry.terminal_id pane = previous) panes) as Hpf
        by (by apply list_elem_of_filter). rewrite Ef in Hpf. by apply elem_of_nil in Hpf.
    - assert (q ∈ filter (λ pane, PaneGeometry.terminal_id pane = previous) panes) as Hqf
        by (rewrite Ef; left). apply list_elem_of_filter in Hqf as [? ?]. by exists q. }
  destruct Hpane as (pane & Ep & Hpin & Hpid). rewrite Ep. apply wp_bind, wp_lift. cbn [expect].
  destruct (Ho previous) as (t & Ht & _); [exact Hprev|].
  apply wp_bind, wp_reading. unfold terminal. rewrite Ht. cbn [expect].
  rewrite Forall_forall in Hin.
  destruct (pane_size_valid (View.canvas_size (Session.view s)) pane Hv (Hin _ Hpin)) as (size & Es & Hsz).
  rewrite Es. apply wp_bind, wp_lift. cbn [map_err].
  wp_use (wp_resize_terminal previous size k [] r).
  - apply store_ok_all, (inv_store _ _ HI).
  - apply listed_Some in Ht as [_ Ht]. by eexists.
  - apply not_elem_of_nil.
  - exact Hsz.
  - intros _ r' [[Hf Hk] _]. split; [done|]. by eapply store_ok_budget.
  - intros r' [[Hf Hk] Hun]. eapply undone_frame; [exact HI|lia|exact Hf|by eapply store_ok_budget|].
    intros id t' ->%list_elem_of_singleton. apply Hun.
Qed.

Lemma controlled_zoom k r sid s id :
  Inv k r → sessions r !! sid = Some s →
  wp (_ ← lift (fail_if (negb (bool_decide (id ∈ terminal_ids (View.layout (Session.view s)))))
            (ControlInvalidView "zoom terminal must belong to the attached view"));
      running ← reading (λ r, lifecycle_running r id);
      lift (fail_if (negb running) (ControlInvalidView "zoom terminal has ended"))) r
    (λ _ r', r' = r ∧ id ∈ ids_of s) (λ r', r' = r).
Proof.
  intros HI Hs. apply wp_bind, wp_fail_if; [|done]. intros Hin%negb_false_iff%bool_decide_eq_true.
  apply wp_bind, wp_reading. destruct (lifecycle_total k r sid s id HI Hs Hin) as [b ->].
  by apply wp_fail_if.
Qed.

Lemma wp_set_view_zoom_inner self att zoom k r :
  Inv (k + 3) r → is_Some (store r !! self) →
  wp (set_view_zoom_inner self att zoom) r
    (λ _ r', good k r (members r) r' ∧ ∃ sid s', owner_of r self = Ok sid ∧
       sessions r' !! sid = Some s' ∧ View.zoomed_terminal_id (Session.view s') = zoom)
    (λ r', undone k r r').
Proof.
  intros HI Hself. unfold set_view_zoom_inner.
  assert (Hsame : undone k r r) by (apply undone_refl; eapply Inv_mono; [|done]; lia).
  apply wp_bind, wp_reading. pose proof (controlled_view_total self att r Hself) as Hc.
  destruct (controlled_view self att r) as [[sid s]|e|]; [|exact Hsame|done].
  destruct Hc as (Hs & _ & _ & Ho). cbv zeta. apply wp_bind.
  apply (wp_mono _ _ (λ _ r', r' = r ∧ ∀ id, zoom = Some id → id ∈ ids_of s) _ (λ r', r' = r));
    [|intros _ r1 [-> Hz]|by intros ? ->].
  { destruct zoom as [id|]; [|by apply wp_ret].
    wp_use (controlled_zoom (k + 3) r sid s id); [done..| |done]. intros _ ? [-> ?].
    split; [done|]. by intros ? [= <-]. }
  destruct (decide (View.zoomed_terminal_id (Session.view s) = zoom)) as [Hsz|Hsz].
  { eapply wp_current_view; [exact HI|exact Hs|]. intros info _ _. split; [by apply undone_good|].
    by exists sid, s. }
  apply wp_bind. eapply wp_capture; [exact Hs| |].
  { intros id Hin. by eapply view_ids_listed. }
  intros geometry Hg Hrec. apply wp_bind.
  apply (wp_mono _ _ (λ _ r1, frame (geometry.*1) r r1 ∧ store_ok (λ _, (k + 2)%N) r1) _ (λ r', undone (k + 2) r r')).
  { assert (Hskip : wp (mret () : action St SessionControlError ()) r
      (λ _ r1, frame (geometry.*1) r r1 ∧ store_ok (λ _, (k + 2)%N) r1) (λ r', undone (k + 2) r r')).
    { apply wp_ret. split; [reflexivity|]. eapply store_ok_0; [|exact (inv_store _ _ HI)]. lia. }
    destruct (View.zoomed_terminal_id (Session.view s)) as [previous|] eqn:Hprev; [|exact Hskip].
    destruct zoom; [|exact Hskip].
    assert (HI1 : Inv ((k + 2) + 1) r) by (eapply Inv_mono; [|exact HI]; lia).
    wp_use (wp_unzoom previous (Session.view s) (k + 2) r sid s HI1 Hs eq_refl Hprev); [|done].
    intros _ r1 [Hf Hk]. split; [|done]. eapply frame_mono; [|exact Hf].
    intros i ->%list_elem_of_singleton. rewrite Hg.
    exact (drawable_zoom _ _ (view_drawable _ _ _ _ (inv_views _ _ HI _ _ Hs)) _ Hprev). }
  2:{ intros r1 Hu. eapply undone_mono; [|exact Hu]. lia. }
  intros _ r1 [Hf Hk].
  assert (HI1 : Inv (k + 2) r1) by (eapply Inv_frame; [exact HI|lia|exact Hf|exact Hk]).
  assert (Hs1 : sessions r1 !! sid = Some s) by (by rewrite (frame_sessions _ _ _ Hf)).
  pose proof (recorded_valid _ _ _ (inv_store _ _ HI) Hrec) as Hval.
  wp_bind_use (wp_rearranged sid (View.layout (Session.view s)) zoom geometry s k r1 HI1 Hs1).
  - by eapply same_layout_replaces.
  - done.
  - done.
  - eapply Forall_impl; [exact Hval|]. intros p [? ?]. split; [done|].
    by apply (frame_dom _ _ _ _ (frame_store _ _ _ Hf)).
  - intros _ r2 ([HI2 Hadv2 Hm2 Hp2] & Hss & _).
    eapply wp_current_view; [exact HI2|by rewrite Hss, lookup_insert_eq|]. intros info _ _. split.
    + split; [done| | |by rewrite Hp2, (frame_pending _ _ _ Hf)].
      * unfold advances. rewrite <- (frame_sessions _ _ _ Hf). exact Hadv2.
      * rewrite Hm2. unfold members. rewrite (frame_sessions _ _ _ Hf). by apply members_id.
    + exists sid, (arranged s (View.layout (Session.view s)) zoom).
      by rewrite Hss, lookup_insert_eq.
  - intros r2 (Hf2 & Hk2 & Hr2). eapply restored_undone; [exact HI|lia|exact Hrec|exact Hf|done|done|done|done].
Qed.
End operations.
