(* ===== verification/SessionsTopology.v ===== *)
(** How the registry's invariant survives changes of which terminal is in which view: a
    terminal leaves its view, is removed or adopted by another view, or a whole session
    moves into another one. *)

From S2P Require Import Prelude.
From S2P Require Import Layout.
From S2P Require Import Topology.
From S2P Require Import LayoutInv.
From S2P Require Import Leases.
From S2P Require Import Sessions.
From S2P Require Import SessionsWp.
From S2P Require Import SessionsInv.
From stdpp Require Import strings gmap.

Import SessionRegistry (store, terminals, sessions, pending_names, next_automatic_name).
Import LayoutExt.

Section topology.
Context {St : Type} `{ScreenLaws St}.
Implicit Types (r : SessionRegistry.t St) (t : SessionTerminal.t St) (s : Session.t).

(** The invariant of a registry in which one terminal is in no view *)
Record OrphanInv (orphan : string) (k : N) r : Prop := {
  orphan_store : store_ok (λ _, k) r;
  orphan_stored : stored r;
  orphan_views : map_Forall (view_ok k r) (sessions r);
  orphan_owner id t : listed r id = Some t → id ≠ orphan →
    ∃ s, sessions r !! TerminalOwner.session_id (SessionTerminal.owner t) = Some s ∧ id ∈ ids_of s;
  orphan_absent sid s : sessions r !! sid = Some s → orphan ∉ ids_of s }.

Lemma OrphanInv_laid orphan k r : OrphanInv orphan k r → laid r.
Proof.
  intros HI sid s Hs. destruct (orphan_views _ _ _ HI sid s Hs) as [_ Hd Hc _ _].
  split; [exact (drawable_wf _ _ Hd)|by apply valid_size16].
Qed.

(** The facts about a session that do not mention the registry *)
Record session_ok (k : N) (sid : string) s : Prop := {
  session_id_ok : Session.id s = sid;
  session_drawable : drawable (Session.view s) (View.canvas_size (Session.view s));
  session_canvas : valid_size (View.canvas_size (Session.view s));
  session_revision : (View.revision (Session.view s) + k ≤ u64_MAX)%N }.

Lemma view_ok_session k r sid s : view_ok k r sid s → session_ok k sid s.
Proof. by intros []. Qed.

Lemma view_ok_intro k r sid s :
  session_ok k sid s → (∀ id, id ∈ ids_of s → ∃ t, listed r id = Some t ∧ owned_by t s) → view_ok k r sid s.
Proof. by intros []. Qed.

Lemma session_ok_mono k k' sid s : (k' ≤ k)%N → session_ok k sid s → session_ok k' sid s.
Proof. intros ? []. split; try done. lia. Qed.

(** Names of the session a terminal belongs to *)
Definition same_names s s' : Prop :=
  Session.id s' = Session.id s ∧ Session.name s' = Session.name s ∧
  View.id (Session.view s') = View.id (Session.view s).

Lemma owned_by_names t s s' : same_names s s' → owned_by t s → owned_by t s'.
Proof. intros (E1 & E2 & E3). unfold owned_by. by rewrite E1, E2, E3. Qed.

Lemma around_stored X r r' : around X r r' → stored r → stored r'.
Proof.
  intros Ha Hs id. rewrite (around_terminals _ _ _ Ha). intros Hid.
  apply (frame_dom _ _ _ _ (around_store _ _ _ Ha)). auto.
Qed.

Lemma around_owned X r r' k k' sid s :
  around X r r' → (k' ≤ k)%N → view_ok k r sid s → view_ok k' r' sid s.
Proof.
  intros Ha Hle [? ? ? ? Ho]. split; try done; [lia|]. intros id Hin. destruct (Ho id Hin) as (t & Ht & Hown).
  destruct (around_listed _ _ _ _ _ Ha Ht) as (t' & Ht' & K). exists t'. split; [done|by eapply owned_by_kept].
Qed.

(** ** A terminal leaves its view *)

Lemma orphan_leaves X r r' k k' sid s s' id t :
  Inv k r → (k' ≤ k)%N → around X r r' → store_ok (λ _, k') r' →
  sessions r !! sid = Some s → listed r id = Some t →
  TerminalOwner.session_id (SessionTerminal.owner t) = sid →
  sessions r' = <[sid := s']> (sessions r) → session_ok k' sid s' → same_names s s' →
  (∀ i, i ∈ ids_of s' ↔ i ∈ ids_of s ∧ i ≠ id) → OrphanInv id k' r'.
Proof.
  intros HI Hle Ha Hok Hs Ht Hsid Hss Hs' Hnames Hids. split.
  - done.
  - eapply around_stored; [done|exact (inv_stored _ _ HI)].
  - rewrite Hss. apply map_Forall_insert_2.
    + apply view_ok_intro; [done|]. intros i [Hi _]%Hids.
      destruct (view_owned _ _ _ _ (inv_views _ _ HI sid s Hs) i Hi) as (ti & Hti & Hown).
      destruct (around_listed _ _ _ _ _ Ha Hti) as (ti' & Hti' & K). exists ti'. split; [done|].
      by eapply owned_by_names, owned_by_kept.
    + intros sid2 s2 Hs2. eapply around_owned; [done|done|]. by apply (inv_views _ _ HI).
  - intros i ti' Hti' Hne. destruct (around_listed_back _ _ _ _ _ Ha Hti') as (ti & Hti & K).
    rewrite (kept_owner _ _ K), Hss. destruct (inv_owner _ _ HI i ti Hti) as (s0 & Hs0 & Hin).
    destruct (decide (TerminalOwner.session_id (SessionTerminal.owner ti) = sid)) as [E|Hns].
    + rewrite E in *. simplify_eq. exists s'. rewrite lookup_insert_eq. split; [done|]. by apply Hids.
    + exists s0. by rewrite lookup_insert_ne.
  - intros sid2 s2. rewrite Hss. destruct (decide (sid2 = sid)) as [->|Hne].
    + rewrite lookup_insert_eq. intros [= <-] [_ ?]%Hids. done.
    + rewrite lookup_insert_ne by done. intros Hs2 Hin.
      destruct (view_owned _ _ _ _ (inv_views _ _ HI sid2 s2 Hs2) id Hin) as (t2 & Ht2 & Ho2 & _).
      simplify_eq. rewrite (view_id_ok _ _ _ _ (inv_views _ _ HI sid2 s2 Hs2)) in Ho2. congruence.
Qed.

(** The last terminal of a session leaves: the session ends. *)
Lemma orphan_alone X r r' k k' sid s id t :
  Inv k r → (k' ≤ k)%N → around X r r' → store_ok (λ _, k') r' →
  sessions r !! sid = Some s → listed r id = Some t →
  TerminalOwner.session_id (SessionTerminal.owner t) = sid →
  sessions r' = delete sid (sessions r) → (∀ i, i ∈ ids_of s → i = id) → OrphanInv id k' r'.
Proof.
  intros HI Hle Ha Hok Hs Ht Hsid Hss Hids. split.
  - done.
  - eapply around_stored; [done|exact (inv_stored _ _ HI)].
  - rewrite Hss. apply map_Forall_delete. intros sid2 s2 Hs2. eapply around_owned; [done|done|].
    by apply (inv_views _ _ HI).
  - intros i ti' Hti' Hne. destruct (around_listed_back _ _ _ _ _ Ha Hti') as (ti & Hti & K).
    rewrite (kept_owner _ _ K), Hss. destruct (inv_owner _ _ HI i ti Hti) as (s0 & Hs0 & Hin).
    exists s0. split; [|done]. rewrite lookup_delete_ne; [done|]. intros E. rewrite <- E in Hs0.
    simplify_eq. by apply Hne, Hids.
  - intros sid2 s2. rewrite Hss. intros [Hne Hs2]%lookup_delete_Some Hin.
    destruct (view_owned _ _ _ _ (inv_views _ _ HI sid2 s2 Hs2) id Hin) as (t2 & Ht2 & Ho2 & _).
    simplify_eq. rewrite (view_id_ok _ _ _ _ (inv_views _ _ HI sid2 s2 Hs2)) in Ho2. congruence.
Qed.

(** A terminal of the store that is not registered yet *)
Lemma orphan_new r r' k id :
  Inv k r → id ∉ terminals r → is_Some (store r !! id) →
  store r' = store r → terminals r' = {[id]} ∪ terminals r → sessions r' = sessions r → OrphanInv id k r'.
Proof.
  intros HI Hid Hst Es Et Ess.
  assert (Hl : ∀ i, i ≠ id → listed r' i = listed r i).
  { intros i Hi. unfold listed. rewrite Es, Et. destruct (decide (i ∈ terminals r)) as [Hin|Hin].
    - rewrite decide_True; [done|]. apply elem_of_union. by right.
    - rewrite decide_False; [done|]. by intros [->%elem_of_singleton|?]%elem_of_union. }
  assert (Hin : ∀ sid s i, sessions r !! sid = Some s → i ∈ ids_of s → i ≠ id).
  { intros sid s i Hs Hi ->. destruct (view_owned _ _ _ _ (inv_views _ _ HI sid s Hs) id Hi) as (t & Ht & _).
    by apply listed_Some in Ht as [? _]. }
  split.
  - unfold store_ok. rewrite Es. apply (inv_store _ _ HI).
  - intros i. rewrite Es, Et. intros [->%elem_of_singleton|Hi]%elem_of_union; [done|].
    by apply (inv_stored _ _ HI).
  - rewrite Ess. intros sid s Hs. pose proof (inv_views _ _ HI sid s Hs) as Hv.
    apply view_ok_intro; [by eapply view_ok_session|]. intros i Hi. rewrite Hl by by eapply Hin.
    by apply (view_owned _ _ _ _ Hv).
  - intros i t Ht Hne. rewrite Hl in Ht by done. rewrite Ess. by apply (inv_owner _ _ HI).
  - intros sid s. rewrite Ess. intros Hs Hi. by apply (Hin sid s id).
Qed.

(** ** What becomes of it *)

Lemma orphan_removed r r' k id :
  OrphanInv id k r → store r' = store r → terminals r' = terminals r ∖ {[id]} →
  sessions r' = sessions r → Inv k r'.
Proof.
  intros HI Es Et Ess.
  assert (Hl : ∀ i t, listed r' i = Some t ↔ listed r i = Some t ∧ i ≠ id).
  { intros i t. rewrite !listed_Some, Es, Et. rewrite elem_of_difference, elem_of_singleton. naive_solver. }
  split.
  - unfold store_ok. rewrite Es. apply (orphan_store _ _ _ HI).
  - intros i. rewrite Es, Et. intros [Hi _]%elem_of_difference. by apply (orphan_stored _ _ _ HI).
  - rewrite Ess. intros sid s Hs. pose proof (orphan_views _ _ _ HI sid s Hs) as Hv.
    apply view_ok_intro; [by eapply view_ok_session|]. intros i Hi.
    destruct (view_owned _ _ _ _ Hv i Hi) as (t & Ht & ?). exists t. split; [|done]. apply Hl.
    split; [done|]. intros ->. by apply (orphan_absent _ _ _ HI sid s).
  - intros i t [Ht Hne]%Hl. rewrite Ess. by apply (orphan_owner _ _ _ HI).
Qed.

(** It joins a view, of a session that may be new. *)
Lemma orphan_joins r r' k id t sid s' :
  OrphanInv id k r → listed r id = Some t → ∀ t', store r' = <[id := t']> (store r) →
  terminals r' = terminals r → sessions r' = <[sid := s']> (sessions r) →
  SessionTerminal.id t' = SessionTerminal.id t → SessionTerminal.state t' = SessionTerminal.state t →
  owned_by t' s' → session_ok k sid s' →
  (∀ s, sessions r !! sid = Some s → same_names s s') →
  (∀ i, i ∈ ids_of s' ↔ i = id ∨ ∃ s, sessions r !! sid = Some s ∧ i ∈ ids_of s) → Inv k r'.
Proof.
  intros HI Ht t' Es Et Ess Eid Est Hown Hs' Hnames Hids.
  assert (Hl : ∀ i, i ≠ id → listed r' i = listed r i).
  { intros i Hi. unfold listed. rewrite Es, Et. by rewrite lookup_insert_ne. }
  assert (Ht' : listed r' id = Some t').
  { apply listed_Some in Ht as [Hin _]. apply listed_Some. rewrite Es, Et. by rewrite lookup_insert_eq. }
  split.
  - unfold store_ok. rewrite Es. apply map_Forall_insert_2; [|apply (orphan_store _ _ _ HI)].
    rewrite Eid, Est. apply (orphan_store _ _ _ HI). by apply listed_Some in Ht as [_ ?].
  - intros i. rewrite Es, Et. intros Hi. destruct (decide (i = id)) as [->|Hne].
    + by rewrite lookup_insert_eq.
    + rewrite lookup_insert_ne by done. by apply (orphan_stored _ _ _ HI).
  - rewrite Ess. apply map_Forall_insert_2.
    + apply view_ok_intro; [done|]. intros i [->|(s & Hs & Hi)]%Hids; [by exists t'|].
      rewrite Hl; [|intros ->; by apply (orphan_absent _ _ _ HI sid s)].
      destruct (view_owned _ _ _ _ (orphan_views _ _ _ HI sid s Hs) i Hi) as (ti & Hti & Ho).
      exists ti. split; [done|]. by eapply owned_by_names; [apply Hnames|].
    + intros sid2 s2 Hs2. pose proof (orphan_views _ _ _ HI sid2 s2 Hs2) as Hv.
      apply view_ok_intro; [by eapply view_ok_session|]. intros i Hi.
      rewrite Hl; [|intros ->; by apply (orphan_absent _ _ _ HI sid2 s2)].
      by apply (view_owned _ _ _ _ Hv).
  - intros i ti Hti. rewrite Ess. destruct (decide (i = id)) as [->|Hne].
    + simplify_eq. destruct Hown as (E & _ & _). rewrite E, (session_id_ok _ _ _ Hs').
      exists s'. rewrite lookup_insert_eq. split; [done|]. apply Hids. by left.
    + rewrite Hl in Hti by done. destruct (orphan_owner _ _ _ HI i ti Hti Hne) as (s & Hs & Hin).
      destruct (decide (TerminalOwner.session_id (SessionTerminal.owner ti) = sid)) as [E|Hns].
      * rewrite E in *. exists s'. rewrite lookup_insert_eq. split; [done|]. apply Hids. right. by exists s.
      * exists s. by rewrite lookup_insert_ne.
Qed.

(** ** A session moves into another one *)

Lemma sessions_merge X r r' k src dst s d d' :
  Inv k r → sessions r !! src = Some s → sessions r !! dst = Some d → src ≠ dst →
  sessions r' = <[dst := d']> (delete src (sessions r)) → terminals r' = terminals r →
  store_ok (λ _, k) r' → session_ok k dst d' → same_names d d' →
  (∀ i, i ∈ ids_of d' ↔ i ∈ ids_of d ∨ i ∈ ids_of s) →
  (∀ i t, store r !! i = Some t → ∃ t', store r' !! i = Some t' ∧
     (i ∈ X → owned_by t' d') ∧ (i ∉ X → SessionTerminal.owner t' = SessionTerminal.owner t)) →
  X = ids_of s → Inv k r'.
Proof.
  intros HI Hs Hd Hne Ess Et Hok Hd' Hnames Hids Hst ->.
  assert (Hl : ∀ i t, listed r i = Some t → ∃ t', listed r' i = Some t' ∧
     (i ∈ ids_of s → owned_by t' d') ∧ (i ∉ ids_of s → SessionTerminal.owner t' = SessionTerminal.owner t)).
  { intros i t [Hin Ht]%listed_Some. destruct (Hst i t Ht) as (t' & Ht' & ?). exists t'.
    split; [|done]. apply listed_Some. by rewrite Et. }
  assert (Hdisj : ∀ sid2 s2 i, sessions r !! sid2 = Some s2 → sid2 ≠ src → i ∈ ids_of s2 → i ∉ ids_of s).
  { intros sid2 s2 i Hs2 Hn Hi Hi'.
    destruct (view_owned _ _ _ _ (inv_views _ _ HI _ _ Hs2) i Hi) as (t2 & Ht2 & O2 & _).
    destruct (view_owned _ _ _ _ (inv_views _ _ HI _ _ Hs) i Hi') as (t1 & Ht1 & O1 & _).
    rewrite (view_id_ok _ _ _ _ (inv_views _ _ HI _ _ Hs2)) in O2.
    rewrite (view_id_ok _ _ _ _ (inv_views _ _ HI _ _ Hs)) in O1. by simplify_eq. }
  split.
  - done.
  - intros i. rewrite Et. intros [t Ht]%(inv_stored _ _ HI). destruct (Hst i t Ht) as (t' & -> & _). by eexists.
  - rewrite Ess. apply map_Forall_insert_2.
    + apply view_ok_intro; [done|]. intros i [Hi|Hi]%Hids.
      * destruct (view_owned _ _ _ _ (inv_views _ _ HI _ _ Hd) i Hi) as (t & Ht & Ho).
        destruct (Hl i t Ht) as (t' & Ht' & _ & Hk). exists t'. split; [done|].
        eapply owned_by_names; [exact Hnames|]. unfold owned_by. rewrite Hk; [done|].
        by eapply (Hdisj dst d).
      * destruct (view_owned _ _ _ _ (inv_views _ _ HI _ _ Hs) i Hi) as (t & Ht & _).
        destruct (Hl i t Ht) as (t' & Ht' & Hk & _). exists t'. split; [done|]. by apply Hk.
    + intros sid2 s2 [Hn Hs2]%lookup_delete_Some. pose proof (inv_views _ _ HI sid2 s2 Hs2) as Hv.
      apply view_ok_intro; [by eapply view_ok_session|]. intros i Hi.
      destruct (view_owned _ _ _ _ Hv i Hi) as (t & Ht & Ho). destruct (Hl i t Ht) as (t' & Ht' & _ & Hk).
      exists t'. split; [done|]. unfold owned_by. rewrite Hk; [done|]. by eapply (Hdisj sid2 s2).
  - intros i t' [Hin Ht']%listed_Some. rewrite Et in Hin. destruct (inv_stored _ _ HI i Hin) as [t Ht].
    destruct (Hst i t Ht) as (t2 & Ht2 & Hmoved & Hk). simplify_eq. rewrite Ess.
    assert (Hlt : listed r i = Some t) by by apply listed_Some.
    destruct (decide (i ∈ ids_of s)) as [Hi|Hi].
    + destruct (Hmoved Hi) as (E & _). rewrite E, (session_id_ok _ _ _ Hd'). exists d'.
      rewrite lookup_insert_eq. split; [done|]. apply Hids. by right.
    + rewrite (Hk Hi). destruct (inv_owner _ _ HI i t Hlt) as (s0 & Hs0 & Hin0).
      destruct (decide (TerminalOwner.session_id (SessionTerminal.owner t) = dst)) as [E|Hn].
      * rewrite E in *. simplify_eq. exists d'. rewrite lookup_insert_eq. split; [done|]. apply Hids. by left.
      * exists s0. rewrite lookup_insert_ne by done. rewrite lookup_delete_ne; [done|].
        intros E. rewrite <- E in Hs0. by simplify_eq.
Qed.
End topology.
