(* ===== verification/SessionsManage.v ===== *)
(** How a terminal leaves its session: what the operations of the session manager share, and
    the end of a terminal and its removal from its view. *)

From S2P Require Import Prelude.
From S2P Require Import Layout.
From S2P Require Import Topology.
From S2P Require Import LayoutInv.
From S2P Require Import Dividers.
From S2P Require Import TopologyInv.
From S2P Require Import Leases.
From S2P Require Import Sessions.
From S2P Require Import SessionsWp.
From S2P Require Import SessionsInv.
From S2P Require Import SessionsTopology.
From S2P Require Import SessionsControl.
From stdpp Require Import strings gmap.

Import SessionRegistry (store, terminals, sessions, pending_names, next_automatic_name).
Import LayoutExt.

(** * The abstract topology: the name and the terminals, in order, of each session *)

Abbreviation topology := (gmap string (string * list string)).

(** What a selector stands for: the session with that identifier, or else one with that name *)
Definition selects (m : topology) (selector sid : string) : Prop :=
  ∃ name ids, m !! sid = Some (name, ids) ∧ (sid = selector ∨ m !! selector = None ∧ name = selector).

(** A terminal leaves a session; the last one ends it. *)
Definition leave (sid id : string) (m : topology) : topology :=
  match m !! sid with
  | None => m
  | Some (name, ids) =>
      let rest := filter (λ i, i ≠ id) ids in
      if decide (rest = []) then delete sid m else <[sid := (name, rest)]> m
  end.

Section manage.
Context {St : Type} `{ScreenLaws St}.
Implicit Types (r : SessionRegistry.t St) (t : SessionTerminal.t St) (s : Session.t).

(** ** Fences *)

Lemma advances_change r r' sid s' (m0 : gmap string Session.t) :
  sessions r' = <[sid := s']> m0 → m0 ⊆ sessions r →
  (∀ s, sessions r !! sid = Some s → later s s') → advances r r'.
Proof.
  intros E Hsub Hs' sid2 s2 s2' Hs2. rewrite E. destruct (decide (sid2 = sid)) as [->|Hne].
  - rewrite lookup_insert_eq. intros [= <-]. by apply Hs'.
  - rewrite lookup_insert_ne by done. intros Hs2'.
    apply (lookup_weaken _ _ _ _ Hs2') in Hsub. simplify_eq. split; [done|by left].
Qed.

Lemma advances_subset r r' : sessions r' ⊆ sessions r → advances r r'.
Proof.
  intros Hsub sid s s' Hs Hs'. apply (lookup_weaken _ _ _ _ Hs') in Hsub. simplify_eq. split; [done|by left].
Qed.

Lemma advances_eq r r1 r2 : sessions r2 = sessions r1 → advances r r1 → advances r r2.
Proof. intros E Ha. unfold advances. rewrite E. exact Ha. Qed.

Lemma good_frame k k' X r m r1 r2 :
  good k r m r1 → (k' ≤ k)%N → frame X r1 r2 → store_ok (λ _, k') r2 → good k' r m r2.
Proof.
  intros [HI Ha Hm Hp] Hle Hf Hk. pose proof (frame_sessions _ _ _ Hf) as Hs. split.
  - by eapply Inv_frame.
  - by eapply advances_eq.
  - unfold members in *. by rewrite Hs.
  - by rewrite (frame_pending _ _ _ Hf).
Qed.

Lemma good_quiet k r m r1 r2 : good k r m r1 → frame [] r1 r2 → good k r m r2.
Proof.
  intros Hg Hf. eapply good_frame; [exact Hg|done|exact Hf|].
  eapply store_ok_frame; [exact (frame_store _ _ _ Hf)|exact (inv_store _ _ (good_inv _ _ _ _ Hg))].
Qed.

Lemma OrphanInv_frame id k k' X r r' :
  OrphanInv id k r → (k' ≤ k)%N → frame X r r' → store_ok (λ _, k') r' → OrphanInv id k' r'.
Proof.
  intros HI Hle [Ha Hs]%frame_around Hk. split.
  - done.
  - eapply around_stored; [done|exact (orphan_stored _ _ _ HI)].
  - rewrite Hs. intros sid s Hss. eapply around_owned; [done|done|by apply (orphan_views _ _ _ HI)].
  - intros i t' Ht' Hne. destruct (around_listed_back _ _ _ _ _ Ha Ht') as (t & Ht & K).
    rewrite (kept_owner _ _ K), Hs. by apply (orphan_owner _ _ _ HI).
  - rewrite Hs. apply (orphan_absent _ _ _ HI).
Qed.

(** ** Reflowing, whatever the PTYs answer *)

Lemma wp_reflow_any sid s k r :
  sessions r !! sid = Some s → session_ok k sid s → laid r → stored r → store_ok (λ _, (k + 1)%N) r →
  wp (reflow_view sid) r
    (λ _ r', frame (ids_of s) r r' ∧ store_ok (λ _, k) r')
    (λ r', frame (ids_of s) r r' ∧ store_ok (λ _, k) r').
Proof.
  intros Hs [_ Hd Hv _] Hl Hst Hok. wp_use (wp_reflow_view sid s k r); [done..| |].
  - intros _ r' (? & ? & _). done.
  - intros r' (? & ? & _). done.
Qed.

Lemma wp_attempt_reflow {E} sid s k r (Q : _ → _ → Prop) R :
  sessions r !! sid = Some s → session_ok k sid s → laid r → stored r → store_ok (λ _, (k + 1)%N) r →
  (∀ o r', frame (ids_of s) r r' → store_ok (λ _, k) r' → Q o r') →
  wp (attempt (E := E) (reflow_view sid)) r Q R.
Proof.
  intros Hs Hv Hl Hst Hok HQ. apply wp_attempt. wp_use (wp_reflow_any sid s k r); [done..| |].
  - intros [] r' [? ?]. by apply HQ.
  - intros r' [? ?] e. by apply HQ.
Qed.

(** A session with a new layout, as [replace_layout] leaves it *)
Lemma wp_replace_layout {E} sid l s r (Q : () → _ → Prop) R :
  sessions r !! sid = Some s → (View.revision (Session.view s) < u64_MAX)%N →
  Q () (SessionRegistry.Mk (store r) (terminals r) (<[sid := arranged s l None]> (sessions r))
          (pending_names r) (next_automatic_name r)) →
  wp (E := E) (replace_layout sid l) r Q R.
Proof.
  intros Hs Hrev HQ. unfold replace_layout.
  apply (wp_on_view sid _ s (View.arrange l None (View.revision (Session.view s) + 1) (Session.view s)));
    [done| |done].
  unfold succ64. by rewrite decide_True by done.
Qed.

Lemma arranged_ok k s l sid :
  session_ok (k + 1) sid s → wf_layout l → NoDup (terminal_ids l) →
  fits (View.canvas_size (Session.view s)) l → session_ok k sid (arranged s l None).
Proof.
  intros [? ? ? ?] ? ? ?. split; try done. cbn. lia.
Qed.

(** ** A terminal leaves *)

(** Leases do not show. *)
Lemma set_leases_quiet k r r' sid s leases :
  Inv k r → sessions r !! sid = Some s → store r' = store r → terminals r' = terminals r →
  sessions r' = <[sid := Session.set_view (View.set_leases leases) s]> (sessions r) →
  pending_names r' = pending_names r → good k r (members r) r'.
Proof.
  intros HI Hs Es Et Ess Ep. destruct (inv_views _ _ HI _ _ Hs) as [? Hd ? ? Ho].
  assert (Hd' : drawable (View.set_leases leases (Session.view s)) (View.canvas_size (Session.view s)))
    by by destruct Hd; split.
  split.
  - split.
    + unfold store_ok. rewrite Es. apply (inv_store _ _ HI).
    + unfold stored. rewrite Es, Et. apply (inv_stored _ _ HI).
    + assert (El : ∀ i, listed r' i = listed r i) by (intros i; unfold listed; by rewrite Es, Et).
      rewrite Ess. apply map_Forall_insert_2.
      * split; try done. intros i Hi. rewrite El. by apply Ho.
      * intros sid2 s2 Hs2. destruct (inv_views _ _ HI _ _ Hs2) as [? ? ? ? Ho2]. split; try done.
        intros i Hi. rewrite El. by apply Ho2.
    + intros i t. unfold listed. rewrite Es, Et, Ess. intros Ht.
      destruct (inv_owner _ _ HI i t Ht) as (s0 & Hs0 & Hi).
      destruct (decide (TerminalOwner.session_id (SessionTerminal.owner t) = sid)) as [E|Hne].
      * rewrite E in *. simplify_eq. eexists. by rewrite lookup_insert_eq.
      * exists s0. by rewrite lookup_insert_ne.
  - eapply advances_change; [exact Ess|done|]. intros s0 Hs0. simplify_eq. split; [done|by left].
  - rewrite (members_insert _ _ _ _ Ess). change (entry _) with (entry s). by apply members_id.
  - done.
Qed.

Lemma remove_terminal_filter id s (result : option ViewLayout) :
  wf_layout (View.layout (Session.view s)) → NoDup (ids_of s) →
  fits (View.canvas_size (Session.view s)) (View.layout (Session.view s)) →
  LayoutExt.remove_terminal id (View.layout (Session.view s)) = Ok result →
  match result with
  | None => filter (λ i, i ≠ id) (ids_of s) = []
  | Some l => wf_layout l ∧ NoDup (terminal_ids l) ∧ fits (View.canvas_size (Session.view s)) l ∧
              terminal_ids l = filter (λ i, i ≠ id) (ids_of s)
  end.
Proof.
  intros Hwf Hnd [Hf1 Hf2] E. destruct (remove_terminal_spec id _ Hwf) as (r0 & E0 & Hr).
  rewrite E0 in E. injection E as ->. destruct result as [l|]; [|exact Hr]. destruct Hr as (? & Hids & [? ?]).
  unfold ids_of. rewrite Hids. split_and!; try done; [by apply NoDup_filter|split; lia].
Qed.

Lemma terminal_ids_nonempty l : wf_layout l → terminal_ids l ≠ [].
Proof.
  induction l as [id|axis children weights IH] using ViewLayout_ind; [done|]. intros Hwf.
  apply wf_split_inv in Hwf as (Hne & _ & _ & Hcs). destruct children as [|c cs]; [simpl in Hne; lia|].
  apply Forall_cons in IH as [IH _]. apply Forall_cons in Hcs as [Hc _]. csimpl.
  intros [E _]%app_eq_nil. by apply IH.
Qed.

Definition detached (k : N) (id : string) t r r' : Prop :=
  let sid := TerminalOwner.session_id (SessionTerminal.owner t) in
  OrphanInv id k r' ∧ advances r r' ∧ members r' = leave sid id (members r) ∧
  terminals r' = terminals r ∧ pending_names r' = pending_names r ∧
  dom (sessions r') ⊆ dom (sessions r) ∧ ∃ t', listed r' id = Some t' ∧ kept t t'.

Lemma detached_frame k k' id t r r1 X r2 :
  detached k id t r r1 → (k' ≤ k)%N → frame X r1 r2 → store_ok (λ _, k') r2 → detached k' id t r r2.
Proof.
  intros (HI & Ha & Hm & Ht & Hp & Hd & t' & Ht' & K) Hle Hf Hk.
  pose proof Hf as [Har Hs]%frame_around.
  unfold detached. split_and!.
  - by eapply OrphanInv_frame.
  - by eapply advances_eq.
  - unfold members in *. by rewrite Hs.
  - by rewrite (around_terminals _ _ _ Har).
  - by rewrite (around_pending _ _ _ Har).
  - by rewrite Hs.
  - destruct (around_listed _ _ _ _ _ Har Ht') as (t2 & Ht2 & K2). exists t2. split; [done|by etrans].
Qed.

Lemma wp_detach_terminal {E} id t k r R :
  Inv (k + 1) r → listed r id = Some t →
  wp (E := E) (detach_terminal id) r (λ _ r', detached k id t r r') R.
Proof.
  intros HI Ht. unfold detach_terminal. apply wp_bind, wp_reading. rewrite Ht.
  set (sid := TerminalOwner.session_id (SessionTerminal.owner t)). cbv zeta.
  destruct (inv_owner _ _ HI id t Ht) as (s & Hs & Hin). fold sid in Hs.
  apply wp_bind, wp_reading. rewrite Hs. destruct (view_wf _ _ _ _ HI Hs) as (Hwf & H16 & Hnd & Hf).
  pose proof (inv_views _ _ HI _ _ Hs) as Hv.
  destruct (remove_terminal_spec id _ Hwf) as (result & Er & _). rewrite Er.
  apply wp_bind, wp_bind, wp_lift. pose proof (remove_terminal_filter id s result Hwf Hnd Hf Er) as Hres.
  destruct result as [l|].
  - destruct Hres as (Hwf' & Hnd' & Hf' & Hids).
    apply wp_bind. eapply (wp_on_view sid _ s); [done|reflexivity|].
    match goal with |- context [View.set_leases ?x (Session.view s)] => set (leases := x) end.
    set (s1 := Session.set_view (λ _, View.set_leases leases (Session.view s)) s).
    set (r1 := SessionRegistry.Mk _ _ _ _ _).
    assert (HI1 : good (k + 1) r (members r) r1) by by eapply (set_leases_quiet _ _ _ sid s leases).
    assert (Hs1 : sessions r1 !! sid = Some s1) by (cbn; apply lookup_insert_eq).
    pose proof (inv_views _ _ (good_inv _ _ _ _ HI1) _ _ Hs1) as Hv1.
    apply (wp_replace_layout sid l s1); [exact Hs1|destruct Hv1; lia|].
    set (r2 := SessionRegistry.Mk _ _ _ _ _). set (s2 := arranged s1 l None) in r2.
    assert (Hok2 : session_ok k sid s2) by by apply arranged_ok; [by eapply view_ok_session|..].
    assert (Hss2 : sessions r2 = <[sid := s2]> (sessions r)) by (cbn; by rewrite insert_insert_eq).
    assert (Hd2 : detached k id t r r2).
    { unfold detached. fold sid. split_and!.
      - eapply (orphan_leaves [] r r2 (k + 1) k sid s s2 id t); try done; [lia| | |].
        + by apply around_same.
        + eapply store_ok_0; [|exact (inv_store _ _ HI)]. lia.
        + intros i. change (ids_of s2) with (terminal_ids l). rewrite Hids, list_elem_of_filter. naive_solver.
      - eapply advances_change; [exact Hss2|done|]. intros s0 Hs0. simplify_eq. split; [done|]. right. cbn. lia.
      - rewrite (members_insert _ _ _ _ Hss2). unfold leave. rewrite (members_lookup _ _ _ Hs).
        change (entry s2) with (Session.name s, terminal_ids l). cbn. rewrite <- Hids.
        by rewrite decide_False by by apply terminal_ids_nonempty.
      - done.
      - done.
      - rewrite Hss2, dom_insert_L. apply elem_of_dom_2 in Hs. set_solver.
      - exists t. split; [done|reflexivity]. }
    apply wp_bind. wp_use (wp_publish_layout_leases sid r2 (λ _, False)); [|done].
    intros _ r3 Hf3.
    assert (Hs3 : sessions r3 !! sid = Some s2) by (by rewrite (frame_sessions _ _ _ Hf3), Hss2, lookup_insert_eq).
    apply wp_bind. eapply (wp_attempt_reflow sid s2 k r3); [exact Hs3|done| | | |].
    + eapply laid_frame; [exact Hf3|]. destruct Hd2 as [HO _]. by eapply OrphanInv_laid.
    + eapply stored_frame; [exact Hf3|]. exact (inv_stored _ _ HI).
    + eapply store_ok_frame; [exact (frame_store _ _ _ Hf3)|exact (inv_store _ _ HI)].
    + intros o r4 Hf4 Hk4. apply wp_ret.
      eapply (detached_frame k k id t r r2 (ids_of s2)); [exact Hd2|done| |exact Hk4].
      etrans; [|exact Hf4]. eapply frame_mono; [|exact Hf3]. apply list_subseteq_nil.
  - apply wp_on_sessions. set (r1 := SessionRegistry.Mk _ _ _ _ _).
    assert (Hd1 : detached k id t r r1).
    { unfold detached. fold sid. split_and!.
      - eapply (orphan_alone [] r r1 (k + 1) k sid s id t); try done; [lia|by apply around_same| |].
        + eapply store_ok_0; [|exact (inv_store _ _ HI)]. lia.
        + intros i Hi. destruct (decide (i = id)) as [|Hne]; [done|].
          assert (i ∈ filter (λ i, i ≠ id) (ids_of s)) as Hfi by by apply list_elem_of_filter.
          rewrite Hres in Hfi. by apply elem_of_nil in Hfi.
      - apply advances_subset, delete_subseteq.
      - unfold members at 1, leave. rewrite (members_lookup _ _ _ Hs). cbn. rewrite Hres.
        by rewrite decide_True, fmap_delete by done.
      - done.
      - done.
      - cbn. rewrite dom_delete_L. set_solver.
      - exists t. split; [done|reflexivity]. }
    apply wp_bind. wp_use (wp_publish_layout_leases sid r1 (λ _, False)); [|done].
    intros _ r3 Hf3. apply wp_bind, wp_attempt. unfold reflow_view. apply wp_bind, wp_reading.
    assert (Hgone : sessions r3 !! sid = None)
      by (rewrite (frame_sessions _ _ _ Hf3); cbn; apply lookup_delete_eq).
    rewrite Hgone. apply wp_ret, wp_ret.
    eapply (detached_frame k k id t r r1 []); [exact Hd1|done|exact Hf3|].
    eapply store_ok_frame; [exact (frame_store _ _ _ Hf3)|]. destruct Hd1 as [HO _]. exact (orphan_store _ _ _ HO).
Qed.

(** The end of a terminal: it leaves its session, and the registry. *)
Lemma wp_remove_terminal {E} id k r R :
  Inv (k + 1) r →
  wp (E := E) (Sessions.remove_terminal id) r
    (λ _ r', good k r (match listed r id with
                       | Some t => leave (TerminalOwner.session_id (SessionTerminal.owner t)) id (members r)
                       | None => members r
                       end) r' ∧ terminals r' = terminals r ∖ {[id]}) R.
Proof.
  intros HI. unfold Sessions.remove_terminal. apply wp_bind.
  destruct (listed r id) as [t|] eqn:Ht.
  - wp_use (wp_detach_terminal id t k r (λ _, False)); [done..| |done].
    intros _ r1 (HO & Ha & Hm & Hts & Hp & _). unfold on_terminals, wp. cbn. split; [|by rewrite Hts].
    split; [by eapply orphan_removed|done|done|done].
  - unfold detach_terminal. apply wp_bind, wp_reading. rewrite Ht. apply wp_ret.
    unfold on_terminals, wp. cbn. split; [|done].
    assert (Hout : id ∉ terminals r).
    { intros Hin. destruct (inv_stored _ _ HI id Hin) as [t Hst].
      assert (listed r id = Some t) by by apply listed_Some. congruence. }
    set (r1 := SessionRegistry.Mk _ _ _ _ _).
    assert (El : ∀ i, listed r1 i = listed r i).
    { intros i. unfold listed. cbn. replace (terminals r ∖ {[id]}) with (terminals r) by set_solver. done. }
    assert (HI' : Inv k r) by (eapply Inv_mono; [|exact HI]; lia).
    split; [|by apply advances_same|done|done]. split.
    + exact (inv_store _ _ HI').
    + intros i Hi. apply (inv_stored _ _ HI'). cbn in Hi. set_solver.
    + intros sid s Hs. destruct (inv_views _ _ HI' _ _ Hs) as [? ? ? ? Ho]. split; try done.
      intros i Hi. rewrite El. by apply Ho.
    + intros i t. rewrite El. apply (inv_owner _ _ HI').
Qed.
End manage.
