(* ===== verification/SessionsLifecycle.v ===== *)
(** Operations that add a terminal: reserving a session's name ([NameReservation]; a
    reserved name is in use by nothing else, and the search for an automatic name ends),
    creating a session and splitting a pane. *)

From S2P Require Import Prelude.
From S2P Require Import Layout.
From S2P Require Import Topology.
From S2P Require Import LayoutInv.
From S2P Require Import Dividers.
From S2P Require Import TopologyInv.
From S2P Require Import Leases.
From S2P Require Import Sessions.
From S2P Require Import SessionsWp.
From S2P Require Import SessionsInv.
From S2P Require Import SessionsControl.
From S2P Require Import SessionsTopology.
From S2P Require Import SessionsManage.
From stdpp Require Import strings gmap pretty.
From stdpp Require Import strings gmap.

Import SessionRegistry (store, terminals, sessions, pending_names, next_automatic_name).

Section names.
Context {St : Type} `{Screen St}.
Implicit Types (r : SessionRegistry.t St).

(** The names of the sessions and of those being created *)
Definition taken r : gset string :=
  pending_names r ∪ list_to_set ((λ kv, Session.name kv.2) <$> map_to_list (sessions r)).

Lemma elem_of_taken r name :
  name ∈ taken r ↔ name ∈ pending_names r ∨ ∃ sid s, sessions r !! sid = Some s ∧ Session.name s = name.
Proof.
  unfold taken. rewrite elem_of_union, elem_of_list_to_set, list_elem_of_fmap. split.
  - intros [?|([sid s] & -> & Hin%elem_of_map_to_list)]; [by left|right]. by exists sid, s.
  - intros [?|(sid & s & Hs & <-)]; [by left|right]. exists (sid, s). split; [done|].
    by apply elem_of_map_to_list.
Qed.

Lemma size_union_le (X Y : gset string) : size (X ∪ Y) ≤ size X + size Y.
Proof.
  rewrite size_union_alt. assert (size (Y ∖ X) ≤ size Y) by (apply subseteq_size; set_solver). lia.
Qed.

Lemma size_list_le (l : list string) : size (list_to_set l : gset string) ≤ length l.
Proof.
  induction l as [|x l IH]; [done|]. csimpl. etrans; [apply size_union_le|]. rewrite size_singleton. lia.
Qed.

Lemma size_taken r : size (taken r) ≤ size (sessions r) + size (pending_names r).
Proof.
  unfold taken. etrans; [apply size_union_le|]. etrans; [apply Nat.add_le_mono_l, size_list_le|].
  rewrite length_fmap, length_map_to_list. lia.
Qed.

Lemma name_taken_spec r name : name_taken r name = true ↔ name ∈ taken r.
Proof.
  unfold name_taken. rewrite elem_of_taken, orb_true_iff, !bool_decide_eq_true. split.
  - intros [?|[s Hs]]; [by left|right]. apply find_session_Some in Hs as (sid & ? & ?%bool_decide_eq_true).
    by exists sid, s.
  - intros [?|(sid & s & Hs & Hn)]; [by left|right].
    destruct (find_session _ r) eqn:E; [by eexists|]. exfalso.
    pose proof (find_session_None _ _ E sid s Hs) as Hf. by apply bool_decide_eq_false in Hf.
Qed.

(** Only the names have changed. *)
Record names_only r r' : Prop := {
  names_store : store r' = store r;
  names_terminals : terminals r' = terminals r;
  names_sessions : sessions r' = sessions r }.

Lemma taken_names r r' : names_only r r' → pending_names r' = pending_names r → taken r' = taken r.
Proof. intros [_ _ Es] Ep. unfold taken. by rewrite Es, Ep. Qed.

(** The search tries every number once, so it meets each taken name at most once. *)
Lemma wp_acquire_automatic_go fuel r0 r (seen : gset string) :
  names_only r0 r → pending_names r = pending_names r0 → seen ⊆ taken r0 →
  size (taken r0) < fuel + size seen →
  (∀ name, name ∈ seen → ∃ n, name = "session-" +:+ pretty n ∧
     ∀ m, next_automatic_name r = Some m → (n < m)%N) →
  wp (acquire_automatic_go fuel) r
    (λ name r', names_only r0 r' ∧ name ∉ taken r0 ∧ pending_names r' = {[name]} ∪ pending_names r0)
    (λ r', names_only r0 r' ∧ pending_names r' = pending_names r0).
Proof.
  revert r seen. induction fuel as [|fuel IH]; intros r seen Hr Hp Hsub Hsize Hseen.
  { apply subseteq_size in Hsub. lia. }
  cbn [acquire_automatic_go]. apply wp_bind, wp_reading.
  destruct (next_automatic_name r) as [n|] eqn:Hn; [|by split].
  cbn [ok_or]. apply wp_bind. unfold set_next_name, wp at 1. cbv beta iota zeta.
  set (r1 := SessionRegistry.Mk _ _ _ _ _). apply wp_bind, wp_reading.
  set (candidate := ("session-" +:+ pretty n)%string).
  assert (Hr1 : names_only r0 r1) by (destruct Hr; by split).
  assert (Ht1 : taken r1 = taken r0) by by apply taken_names.
  destruct (name_taken r1 candidate) eqn:Ht.
  - apply name_taken_spec in Ht. rewrite Ht1 in Ht.
    assert (Hnew : candidate ∉ seen).
    { intros Hin. destruct (Hseen _ Hin) as (m & Em & Hlt). unfold candidate in Em.
      apply (inj (String.app "session-")) in Em. apply (inj pretty) in Em. subst m.
      specialize (Hlt n eq_refl). lia. }
    apply (IH r1 ({[candidate]} ∪ seen)); [done|done| | |].
    + set_solver.
    + rewrite size_union, size_singleton by set_solver. lia.
    + intros name [->%elem_of_singleton|Hin]%elem_of_union.
      * exists n. split; [done|]. intros m. cbn. unfold succ64. case_decide; [|done]. intros [= <-]. lia.
      * destruct (Hseen _ Hin) as (m & -> & Hlt). exists m. split; [done|]. intros m'. cbn.
        unfold succ64. case_decide; [|done]. intros [= <-]. specialize (Hlt n eq_refl). lia.
  - apply wp_bind. unfold on_names, wp at 1. cbv beta iota. apply wp_ret. split_and!.
    + destruct Hr1. by split.
    + rewrite <- Ht1, <- name_taken_spec. by rewrite Ht.
    + cbn. by rewrite Hp.
Qed.

Lemma wp_acquire_automatic r :
  wp acquire_automatic r
    (λ name r', names_only r r' ∧ name ∉ taken r ∧ pending_names r' = {[name]} ∪ pending_names r)
    (λ r', names_only r r' ∧ pending_names r' = pending_names r).
Proof.
  unfold wp, acquire_automatic. apply (wp_acquire_automatic_go _ r r ∅); [by split|done|set_solver| |set_solver].
  rewrite size_empty. pose proof (size_taken r). lia.
Qed.

Lemma wp_reserve_name requested r :
  wp (reserve_name requested) r
    (λ name r', names_only r r' ∧ name ∉ taken r ∧ pending_names r' = {[name]} ∪ pending_names r ∧
       default name requested = name)
    (λ r', names_only r r' ∧ pending_names r' = pending_names r).
Proof.
  assert (Hsame : names_only r r ∧ pending_names r = pending_names r) by (split; [by split|done]).
  destruct requested as [name|]; cbn [reserve_name].
  - apply wp_bind, wp_lift. unfold validate_session_name.
    destruct (bool_decide (name = "") || _); [exact Hsame|]. cbn [fail_if mbind outcome_bind].
    destruct (negb _); [exact Hsame|]. cbn [fail_if map_err]. unfold acquire_name.
    apply wp_bind, wp_reading. destruct (name_taken r name) eqn:Ht; [exact Hsame|]. cbn [fail_if].
    apply wp_bind. unfold on_names, wp at 1. cbv beta iota. apply wp_ret. split_and!; try done.
    rewrite <- name_taken_spec. by rewrite Ht.
  - wp_use wp_acquire_automatic; [|done]. intros name r' (? & ? & ?). by split_and!.
Qed.
End names.

Import SessionRegistry (store, terminals, sessions, pending_names, next_automatic_name).
Import LayoutExt.

Section lifecycle.
Context {St : Type} `{ScreenLaws St}.
Implicit Types (r : SessionRegistry.t St) (t : SessionTerminal.t St) (s : Session.t).

Lemma listed_eq r r' : store r' = store r → terminals r' = terminals r → ∀ i, listed r' i = listed r i.
Proof. intros Es Et i. unfold listed. by rewrite Es, Et. Qed.

Lemma Inv_names k r r' : names_only r r' → Inv k r → Inv k r'.
Proof.
  intros [Es Et Ess] [Hk Hst Hv Ho]. pose proof (listed_eq _ _ Es Et) as El. split.
  - unfold store_ok. by rewrite Es.
  - intros i. rewrite Es, Et. apply Hst.
  - rewrite Ess. intros sid s Hs. destruct (Hv sid s Hs) as [? ? ? ? Hown]. split; try done.
    intros i. rewrite El. apply Hown.
  - intros i t. rewrite El, Ess. apply Ho.
Qed.

Lemma good_names k r m r1 r2 :
  good k r m r1 → names_only r1 r2 → pending_names r2 = pending_names r → good k r m r2.
Proof.
  intros [HI Ha Hm Hp] Hn Hp2. pose proof (names_sessions _ _ Hn) as Ess. split.
  - by eapply Inv_names.
  - by eapply advances_eq.
  - unfold members in *. by rewrite Ess.
  - done.
Qed.

(** The same outcome from a registry that differs in the pending names only *)
Lemma good_from_names k r0 r m r' :
  names_only r0 r → good k r m r' → pending_names r' = pending_names r0 → good k r0 m r'.
Proof.
  intros Hn [HI Ha Hm Hp] Hp0. split; try done. unfold advances. rewrite <- (names_sessions _ _ Hn). exact Ha.
Qed.

Lemma wp_drop_reservation {E} name r (Q : () → _ → Prop) R :
  (∀ r', names_only r r' → pending_names r' = pending_names r ∖ {[name]} → Q () r') →
  wp (E := E) (drop_reservation name) r Q R.
Proof. intros HQ. unfold wp, drop_reservation, on_names. apply HQ; [by split|done]. Qed.

Lemma wp_reserving {E A} (wrap : SessionManagerError → E) requested (body : string → action St E A) r (Q : A → _ → Prop) (R : _ → Prop) :
  (∀ name r1, names_only r r1 → name ∉ taken r → pending_names r1 = {[name]} ∪ pending_names r →
     default name requested = name →
     wp (body name) r1 Q (λ r2, ∀ r3, names_only r2 r3 → pending_names r3 = pending_names r2 ∖ {[name]} → R r3)) →
  (∀ r1, names_only r r1 → pending_names r1 = pending_names r → R r1) →
  wp (reserving wrap requested body) r Q R.
Proof.
  intros Hbody HR. unfold reserving. apply wp_bind, wp_mapping.
  wp_use (wp_reserve_name requested r).
  - intros name r1 (Hn & Hfresh & Hp & Hreq). apply wp_bind, wp_attempt.
    wp_use (Hbody name r1 Hn Hfresh Hp Hreq).
    + intros a r2 HQ. by apply wp_lift.
    + intros r2 HR2 e. apply wp_bind, wp_drop_reservation. intros r3 Hn3 Hp3. apply wp_lift. by apply HR2.
  - intros r1 [Hn Hp]. by apply HR.
Qed.

Lemma pending_restored (names : gset string) name : name ∉ names → ({[name]} ∪ names) ∖ {[name]} = names.
Proof. set_solver. Qed.

Lemma fresh_pending r name : name ∉ taken r → name ∉ pending_names r.
Proof. intros Hn Hin. apply Hn, elem_of_taken. by left. Qed.

(** ** A terminal of the store that no view has yet *)

Lemma store_ok_insert k r r' id t :
  store_ok (λ _, k) r → SessionTerminal.id t = id → screen_ok k (SessionTerminal.state t) →
  store r' = <[id := t]> (store r) → store_ok (λ _, k) r'.
Proof. intros Hok Hid Ht E. unfold store_ok. rewrite E. by apply map_Forall_insert_2. Qed.

Lemma Inv_spawned k r r' id t :
  Inv k r → store r !! id = None → SessionTerminal.id t = id → screen_ok k (SessionTerminal.state t) →
  store r' = <[id := t]> (store r) → terminals r' = terminals r → sessions r' = sessions r → Inv k r'.
Proof.
  intros HI Hid Htid Hok Es Et Ess.
  assert (Hout : id ∉ terminals r).
  { intros Hin. destruct (inv_stored _ _ HI id Hin). congruence. }
  assert (El : ∀ i, listed r' i = listed r i).
  { intros i. unfold listed. rewrite Es, Et. case_decide; [|done]. rewrite lookup_insert_ne; [done|].
    by intros <-. }
  split.
  - eapply store_ok_insert; [exact (inv_store _ _ HI)|done..].
  - intros i. rewrite Es, Et. intros Hi. rewrite lookup_insert_ne by by intros <-. by apply (inv_stored _ _ HI).
  - rewrite Ess. intros sid s Hs. destruct (inv_views _ _ HI _ _ Hs) as [? ? ? ? Ho]. split; try done.
    intros i. rewrite El. apply Ho.
  - intros i ti. rewrite El, Ess. apply (inv_owner _ _ HI).
Qed.

(** A new session of one terminal *)
Lemma new_session_ok k sid s :
  Session.id s = sid → valid_size (View.canvas_size (Session.view s)) → (k ≤ u64_MAX)%N →
  View.revision (Session.view s) = 0%N → View.zoomed_terminal_id (Session.view s) = None →
  (∃ id, View.layout (Session.view s) = Terminal id) → session_ok k sid s.
Proof.
  intros Hid Hv Hk Hr Hz [id Hl]. split; try done; [|lia]. split.
  - rewrite Hl. constructor.
  - rewrite Hl. apply NoDup_singleton.
  - rewrite Hl. destruct Hv as (? & ? & _). split; cbn; lia.
  - by rewrite Hz.
Qed.

Lemma Inv_room k r sid s : Inv k r → sessions r !! sid = Some s → (k ≤ u64_MAX)%N.
Proof. intros HI Hs. destruct (inv_views _ _ HI _ _ Hs). lia. Qed.

(** An orphan gets a session of its own. *)
Lemma orphan_adopted k r r' id t t' sid s' :
  OrphanInv id k r → listed r id = Some t → sessions r !! sid = None →
  store r' = <[id := t']> (store r) → terminals r' = terminals r → sessions r' = <[sid := s']> (sessions r) →
  SessionTerminal.id t' = SessionTerminal.id t → SessionTerminal.state t' = SessionTerminal.state t →
  owned_by t' s' → session_ok k sid s' → ids_of s' = [id] → Inv k r'.
Proof.
  intros HI Ht Hnew Es Et Ess Eid Est Hown Hs' Hids.
  eapply (orphan_joins r r' k id t sid s' HI Ht t' Es Et Ess); try done.
  - intros s. by rewrite Hnew.
  - intros i. rewrite Hids, list_elem_of_singleton. split; [by left|]. intros [->|(s & Hs & _)]; [done|congruence].
Qed.

(** ** Creating a session *)

Lemma wp_commit_new name id t k r R :
  Inv k r → (k ≤ u64_MAX)%N → id ∉ terminals r → store r !! id = Some t →
  let sid := TerminalOwner.session_id (SessionTerminal.owner t) in
  sessions r !! sid = None → TerminalOwner.name (SessionTerminal.owner t) = name →
  wp (commit name id None) r
    (λ _ r', Inv k r' ∧ advances r r' ∧ members r' = <[sid := (name, [id])]> (members r) ∧
             store r' = store r ∧ terminals r' = {[id]} ∪ terminals r ∧
             pending_names r' = pending_names r ∖ {[name]}) R.
Proof.
  intros HI Hk Hout Ht sid Hnew Hname. unfold commit. apply wp_bind, wp_drop_reservation.
  intros r1 Hn1 Hp1. destruct Hn1 as [Es Et Ess] eqn:E1. clear E1.
  apply wp_bind, wp_reading. unfold shared. rewrite Es, Ht. cbn [expect]. cbv zeta. fold sid.
  apply wp_bind. unfold insert_session. apply wp_on_sessions. unfold insert_terminal, on_terminals, wp.
  cbv beta iota.
  set (s' := Session.Mk _ _ _ _). set (r2 := SessionRegistry.Mk _ _ _ _ _).
  assert (Hid : SessionTerminal.id t = id ∧ screen_ok k (SessionTerminal.state t)) by by apply (inv_store _ _ HI).
  assert (HO : OrphanInv id k (SessionRegistry.Mk (store r) ({[id]} ∪ terminals r) (sessions r)
    (pending_names r) (next_automatic_name r))) by (eapply orphan_new; [exact HI|done|by eexists|done..]).
  assert (Hss2 : sessions r2 = <[sid := s']> (sessions r)) by (cbn; by rewrite Ess).
  split_and!.
  - eapply (orphan_adopted k _ r2 id t t sid s' HO); try done.
    + apply listed_Some. cbn. split; [set_solver|done].
    + cbn. rewrite Es. by rewrite insert_id.
    + cbn. by rewrite Et.
    + apply new_session_ok; try done; [|by eexists]. eapply screen_ok_size. by apply Hid.
  - eapply advances_change; [exact Hss2|done|]. intros s. by rewrite Hnew.
  - by rewrite (members_insert _ _ _ _ Hss2).
  - done.
  - cbn. by rewrite Et.
  - done.
Qed.

(** ** Splitting a terminal *)

Lemma NoDup_split_ids target new (ids : list string) :
  NoDup ids → new ∉ ids → NoDup (split_ids target new ids) ∧
  ∀ i, i ∈ split_ids target new ids ↔ i ∈ ids ∨ i = new ∧ target ∈ ids.
Proof.
  unfold split_ids. induction ids as [|x ids IH]; intros Hnd Hnew.
  { split; [constructor|]. intros i. rewrite !elem_of_nil. naive_solver. }
  apply NoDup_cons in Hnd as [Hx Hnd]. apply not_elem_of_cons in Hnew as [Hxn Hnew].
  destruct (IH Hnd Hnew) as [IHn IHi]. csimpl. case_decide as Hxt.
  - subst x. split.
    + cbn. apply NoDup_cons. split; [|apply NoDup_cons; split; [|done]].
      * rewrite elem_of_cons, IHi. intros [->|[?|[-> ?]]]; [|done|done]. done.
      * rewrite IHi. intros [?|[_ ?]]; [done|done].
    + intros i. cbn. rewrite !elem_of_cons, IHi. naive_solver.
  - split.
    + cbn. apply NoDup_cons. split; [|done]. rewrite IHi. intros [?|[-> ?]]; done.
    + intros i. cbn. rewrite !elem_of_cons, IHi. naive_solver.
Qed.

Lemma plan_split_total k r target new axis :
  Inv k r → plan_split target new axis r ⇓? λ '(owner, l), ∃ t s,
    listed r target = Some t ∧ owner = SessionTerminal.owner t ∧
    sessions r !! TerminalOwner.session_id owner = Some s ∧ target ∈ ids_of s ∧ Session.closing s = false ∧
    l = LayoutExt.split_terminal target new axis (View.layout (Session.view s)) ∧
    fits (View.canvas_size (Session.view s)) l ∧ length (terminal_ids l) ≤ 64.
Proof.
  intros HI. unfold plan_split. destruct (listed r target) as [t|] eqn:Ht; [|done].
  cbn [ok_or mbind outcome_bind]. destruct (SessionTerminal.managed t); [done|].
  cbn [fail_if mbind outcome_bind]. cbv zeta. destruct (inv_owner _ _ HI _ _ Ht) as (s & Hs & Hin).
  unfold session. rewrite Hs. cbn [expect mbind outcome_bind].
  destruct (Session.closing s) eqn:Hc; [done|]. cbn [fail_if mbind outcome_bind].
  destruct (view_wf _ _ _ _ HI Hs) as (Hwf & H16 & _).
  eapply Total_bind; [apply map_err_total, validate_layout_total|]. intros _ (Hlen & _).
  eapply Total_bind; [apply map_err_total, pane_geometry_total; [by apply split_terminal_wf|done]|].
  intros panes [Hf _]. exists t, s. split_and!; try done. by apply Hlen.
Qed.

(** A terminal has joined the view of another one. *)
Definition joined (k : N) (id name target : string) r r' : Prop :=
  ∃ sid nm ids, members r !! sid = Some (nm, ids) ∧ target ∈ ids ∧
    Inv k r' ∧ advances r r' ∧ members r' = <[sid := (nm, split_ids target id ids)]> (members r) ∧
    terminals r' = {[id]} ∪ terminals r ∧ pending_names r' = pending_names r ∖ {[name]}.

Lemma joined_frame k k' id name target r r1 X r2 :
  joined k id name target r r1 → (k' ≤ k)%N → frame X r1 r2 → store_ok (λ _, k') r2 →
  joined k' id name target r r2.
Proof.
  intros (sid & nm & ids & Hm & Hin & HI & Ha & Hm' & Ht & Hp) Hle Hf Hk.
  exists sid, nm, ids. split_and!; try done.
  - by eapply Inv_frame.
  - eapply advances_eq; [exact (frame_sessions _ _ _ Hf)|done].
  - unfold members in *. by rewrite (frame_sessions _ _ _ Hf).
  - by rewrite (frame_terminals _ _ _ Hf).
  - by rewrite (frame_pending _ _ _ Hf).
Qed.

Lemma wp_commit_split name id target axis t k r :
  Inv (k + 2) r → id ∉ terminals r → store r !! id = Some t →
  wp (commit name id (Some (target, axis))) r
    (λ _ r', joined k id name target r r')
    (λ r', names_only r r' ∧ pending_names r' = pending_names r ∖ {[name]} ∨ joined k id name target r r').
Proof.
  intros HI Hout Ht. unfold commit. apply wp_bind, wp_drop_reservation. intros r1 Hn1 Hp1.
  assert (HI1 : Inv (k + 2) r1) by by eapply Inv_names. pose proof Hn1 as [Es1 Et1 Ess1].
  apply wp_bind, wp_reading. pose proof (plan_split_total _ r1 target id axis HI1) as Hplan.
  destruct (plan_split target id axis r1) as [[owner l]|e|]; [|by left; split|done].
  destruct Hplan as (tt & s & Htt & -> & Hs & Hin & Hc & -> & Hf & _).
  set (sid := TerminalOwner.session_id (SessionTerminal.owner tt)) in *.
  destruct (view_wf _ _ _ _ HI1 Hs) as (Hwf & H16 & Hnd & _).
  pose proof (inv_views _ _ HI1 _ _ Hs) as Hv.
  apply wp_bind. set (l := LayoutExt.split_terminal _ _ _ _) in *.
  apply (wp_replace_layout sid l s); [done|destruct Hv; lia|].
  set (r2 := SessionRegistry.Mk _ _ _ _ _). apply wp_bind. unfold on_terminal at 1. apply wp_bind, wp_reading.
  unfold shared. cbn [store r2]. rewrite Es1, Ht. cbn [expect]. apply wp_on_store.
  apply wp_bind. unfold insert_terminal, on_terminals, wp at 1. cbv beta iota. cbn.
  set (t' := SessionTerminal.set_owner (SessionTerminal.owner tt) t).
  set (r3 := SessionRegistry.Mk _ _ _ _ _).
  assert (Hnew : id ∉ ids_of s).
  { intros Hi. destruct (view_owned _ _ _ _ Hv id Hi) as (ti & Hti & _).
    apply listed_Some in Hti as [Hti _]. by rewrite Et1 in Hti. }
  destruct (NoDup_split_ids target id (ids_of s) Hnd Hnew) as [Hnd' Hids'].
  assert (Hids : ids_of (arranged s l None) = split_ids target id (ids_of s)) by apply split_terminal_ids.
  assert (Hss3 : sessions r3 = <[sid := arranged s l None]> (sessions r1)) by done.
  assert (Hok3 : session_ok (k + 1) sid (arranged s l None)).
  { apply arranged_ok; [eapply session_ok_mono; [|by eapply view_ok_session]; lia|by apply split_terminal_wf| |done].
    change (terminal_ids l) with (ids_of (arranged s l None)). by rewrite Hids. }
  assert (HI3 : Inv (k + 1) r3).
  { assert (HO : OrphanInv id (k + 1) (SessionRegistry.Mk (store r1) ({[id]} ∪ terminals r1) (sessions r1)
      (pending_names r1) (next_automatic_name r1))).
    { eapply (orphan_new r1); [eapply Inv_mono; [|exact HI1]; lia|by rewrite Et1|by rewrite Es1; eexists|done..]. }
    eapply (orphan_joins _ r3 (k + 1) id t sid (arranged s l None) HO); try done.
    - apply listed_Some. cbn. rewrite Es1. split; [by apply elem_of_union_l, elem_of_singleton|done].
    - destruct (view_owned _ _ _ _ Hv target Hin) as (tt' & Htt' & Hown). simplify_eq. exact Hown.
    - intros s0 Hs0. cbn in Hs0. by simplify_eq.
    - intros i. rewrite Hids, Hids'. cbn. split.
      + intros [Hi|[-> _]]; [right; by exists s|by left].
      + intros [->|(s0 & Hs0 & Hi)]; [by right|]. left. by simplify_eq. }
  assert (Hj : joined (k + 1) id name target r r3).
  { exists sid, (Session.name s), (ids_of s). split_and!; try done.
    - unfold members. rewrite <- Ess1. by apply members_lookup.
    - eapply advances_change; [rewrite Hss3, Ess1; reflexivity|done|]. intros s0 Hs0.
      rewrite <- Ess1 in Hs0. simplify_eq. split; [done|]. right. cbn. lia.
    - rewrite (members_insert _ _ _ _ Hss3). unfold entry. rewrite Hids. unfold members. by rewrite Ess1.
    - cbn. by rewrite Et1. }
  apply wp_mapping. wp_use (wp_reflow_any sid (arranged s l None) k r3).
  - rewrite Hss3. apply lookup_insert_eq.
  - eapply session_ok_mono; [|exact Hok3]. lia.
  - by eapply Inv_laid.
  - exact (inv_stored _ _ HI3).
  - exact (inv_store _ _ HI3).
  - intros _ r4 [Hf4 Hk4]. eapply joined_frame; [exact Hj|lia|exact Hf4|exact Hk4].
  - intros r4 [Hf4 Hk4]. right. eapply joined_frame; [exact Hj|lia|exact Hf4|exact Hk4].
Qed.

(** ** Creating a terminal *)

(** What [create_terminal] does when it does something *)
Definition created (k : N) (requested : option string) (placement : option (string * SplitAxis))
    (id sid : string) r r' : Prop :=
  match placement with
  | None => ∃ name, name ∉ taken r ∧ default name requested = name ∧
      good k r (<[sid := (name, [id])]> (members r)) r'
  | Some (target, _) => ∃ owner nm ids, members r !! owner = Some (nm, ids) ∧ target ∈ ids ∧
      good k r (<[owner := (nm, split_ids target id ids)]> (members r)) r'
  end.

Lemma created_names k requested placement id sid r r1 r2 :
  created k requested placement id sid r r1 → names_only r1 r2 → pending_names r2 = pending_names r →
  created k requested placement id sid r r2.
Proof.
  unfold created. destruct placement as [[target axis]|].
  - intros (owner & nm & ids & ? & ? & Hg) Hn Hp. exists owner, nm, ids. split_and!; [done..|].
    by eapply good_names.
  - intros (name & ? & ? & Hg) Hn Hp. exists name. split_and!; [done..|]. by eapply good_names.
Qed.

(** The registry once the process has been spawned and has its terminal *)
Lemma wp_commit name id sid vid now managed st pty requested placement k r r1 :
  Inv (k + 2) r → (k + 2 ≤ u64_MAX)%N → store r !! id = None → sessions r !! sid = None →
  screen_ok (k + 2) st → names_only r r1 → name ∉ taken r →
  pending_names r1 = {[name]} ∪ pending_names r → default name requested = name →
  let t := new_terminal managed name id sid vid now st pty in
  let r2 := SessionRegistry.Mk (<[id := t]> (store r1)) (terminals r1) (sessions r1) (pending_names r1)
              (next_automatic_name r1) in
  wp (commit name id placement) r2
    (λ _ r', created k requested placement id sid r r' ∧ is_Some (store r' !! id))
    (λ r', Inv k r' ∧ sessions r' = sessions r ∧ pending_names r' = pending_names r ∨
           is_Some placement ∧ created k requested placement id sid r r').
Proof.
  intros HI Hroom Hid Hsid Hst Hn1 Hfresh Hp1 Hreq t r2. pose proof Hn1 as [Es1 Et1 Ess1].
  assert (HI2 : Inv (k + 2) r2).
  { eapply (Inv_spawned (k + 2) r1 r2 id t); [by eapply Inv_names|by rewrite Es1|done..]. }
  assert (Hout : id ∉ terminals r2).
  { cbn. rewrite Et1. intros Hin. destruct (inv_stored _ _ HI id Hin). congruence. }
  assert (Hm2 : members r2 = members r) by (unfold members; cbn; by rewrite Ess1).
  assert (Hadv : ∀ r', advances r2 r' → advances r r') by (intros r' Ha; unfold advances; by rewrite <- Ess1).
  assert (Hpend : ∀ r', pending_names r' = pending_names r2 ∖ {[name]} → pending_names r' = pending_names r).
  { intros r' ->. cbn. rewrite Hp1. by apply pending_restored, fresh_pending. }
  assert (Hback : ∀ r', names_only r2 r' ∧ pending_names r' = pending_names r2 ∖ {[name]} →
    Inv k r' ∧ sessions r' = sessions r ∧ pending_names r' = pending_names r).
  { intros r' [Hn' Hp']. split_and!; [|by rewrite (names_sessions _ _ Hn')|by apply Hpend].
    eapply Inv_names; [exact Hn'|]. eapply Inv_mono; [|exact HI2]. lia. }
  destruct placement as [[target axis]|].
  - assert (Hjoined : ∀ r', joined k id name target r2 r' → created k requested (Some (target, axis)) id sid r r').
    { intros r' (owner & nm & ids & Hm & Hin & HI' & Ha & Hm' & _ & Hp'). exists owner, nm, ids.
      rewrite Hm2 in Hm, Hm'. split_and!; [done..|]. split; [done|by apply Hadv|done|by apply Hpend]. }
    wp_use (wp_commit_split name id target axis t k r2); [exact HI2|done|apply lookup_insert_eq| |].
    + intros _ r' Hj. split; [by apply Hjoined|].
      destruct Hj as (_ & _ & _ & _ & _ & HI' & _ & _ & Ht' & _). apply (inv_stored _ _ HI').
      rewrite Ht'. set_solver.
    + intros r' [Hn'|Hj]; [left; by apply Hback|right; split; [by eexists|by apply Hjoined]].
  - wp_use (wp_commit_new name id t k r2 (λ _, False)); [eapply Inv_mono; [|exact HI2]; lia|lia|done|
      apply lookup_insert_eq|by rewrite <- Ess1 in Hsid|done| |done].
    intros _ r' (HI' & Ha & Hm' & Hs' & _ & Hp'). split.
    + exists name. split_and!; [done..|]. split; [done|by apply Hadv|by rewrite Hm', Hm2|by apply Hpend].
    + rewrite Hs'. cbn. rewrite lookup_insert_eq. by eexists.
Qed.

Lemma unchanged_good k r r' :
  Inv k r' → sessions r' = sessions r → pending_names r' = pending_names r → good k r (members r) r'.
Proof. intros HI Es Ep. split; [done|by apply advances_same| |done]. unfold members. by rewrite Es. Qed.

(** The process runs, but nothing reads from it or waits for it. *)
Definition stranded {St} (spawned : outcome SessionManagerError (Spawned.t St)) : Prop :=
  match spawned with Ok process => ∃ error, Spawned.workers process = inl error | _ => False end.

Lemma wp_create_terminal requested placement managed id sid vid now spawned k r :
  Inv (k + 2) r → (k + 2 ≤ u64_MAX)%N → store r !! id = None → sessions r !! sid = None →
  spawned ⇓? (λ process, screen_ok (k + 2) (Spawned.state process)) →
  wp (create_terminal requested placement managed id sid vid now spawned) r
    (λ _ r', created k requested placement id sid r r')
    (λ r', good k r (members r) r' ∨ (is_Some placement ∨ stranded spawned) ∧ created k requested placement id sid r r').
Proof.
  intros HI Hroom Hid Hsid Hspawn. unfold create_terminal.
  assert (HIk : Inv k r) by (eapply Inv_mono; [|exact HI]; lia).
  apply wp_bind. apply (wp_mono _ _ (λ _ r', r' = r) _ (λ r', r' = r)).
  { destruct placement as [[target axis]|]; [|by apply wp_ret]. apply wp_bind, wp_reading.
    pose proof (plan_split_total _ r target id axis HI). by destruct (plan_split target id axis r). }
  2:{ intros r' ->. left. by apply unchanged_good. }
  intros _ r' ->. wp_bind_use (wp_reserve_name requested r).
  2:{ intros r1 [Hn Hp]. left. apply unchanged_good; [by eapply Inv_names|by destruct Hn|done]. }
  intros name r1 (Hn & Hfresh & Hp & Hreq). apply wp_bind, wp_attempt.
  assert (Hdrop : ∀ r2, Inv k r2 → sessions r2 = sessions r →
    (pending_names r2 = pending_names r ∨ pending_names r2 = {[name]} ∪ pending_names r) → ∀ e,
    wp (A := SessionTerminal.t St) (_ ← drop_reservation name; lift (Err (e : SessionManagerError))) r2
      (λ _ r', created k requested placement id sid r r')
      (λ r', good k r (members r) r' ∨ (is_Some placement ∨ stranded spawned) ∧ created k requested placement id sid r r')).
  { intros r2 HI2 Es2 Ep2 e. apply wp_bind, wp_drop_reservation. intros r3 Hn3 Hp3. apply wp_lift. left.
    apply unchanged_good; [by eapply Inv_names|by rewrite (names_sessions _ _ Hn3)|]. rewrite Hp3.
    pose proof (fresh_pending _ _ Hfresh). destruct Ep2 as [->| ->]; [set_solver|by apply pending_restored]. }
  apply wp_bind, wp_lift. destruct spawned as [[st pty workers]|e|]; [| |done].
  2:{ intros e'. apply Hdrop; [by eapply Inv_names|by destruct Hn|by right]. }
  cbn in Hspawn. cbn [Spawned.state Spawned.master Spawned.workers]. apply wp_bind, wp_on_store. apply wp_bind, wp_attempt.
  wp_use (wp_commit name id sid vid now managed st pty requested placement k r r1); [done..| |].
  - intros [] r3 [Hc [t Ht]]. destruct workers as [error|[]]; apply wp_ret.
    + apply wp_lift. right. split; [right; by exists error|done].
    + apply wp_reading. unfold shared. by rewrite Ht.
  - intros r3 Hr3 e. assert (∀ e', wp (A := SessionTerminal.t St) (_ ← drop_reservation name; lift (Err (e' : SessionManagerError))) r3
      (λ _ r', created k requested placement id sid r r')
      (λ r', good k r (members r) r' ∨ (is_Some placement ∨ stranded (Ok (Spawned.Mk st pty workers))) ∧
             created k requested placement id sid r r')) as Hfail; [|destruct workers as [error|[]]; apply wp_lift; intros e'; apply Hfail].
    intros e'. destruct Hr3 as [(HI3 & Es3 & Ep3)|[Hpl Hc]]; [apply Hdrop; [done|done|by left]|].
    apply wp_bind, wp_drop_reservation. intros r4 Hn4 Hp4. apply wp_lift. right. split; [by left|].
    eapply created_names; [exact Hc|exact Hn4|]. rewrite Hp4.
    assert (pending_names r3 = pending_names r) as ->.
    { unfold created in Hc. destruct placement as [[? ?]|].
      - by destruct Hc as (? & ? & ? & _ & _ & []).
      - by destruct Hc as (? & _ & _ & []). }
    pose proof (fresh_pending _ _ Hfresh). set_solver.
Qed.
End lifecycle.
