(* ===== verification/SessionsEdits.v ===== *)
(** Moving terminals between sessions (promoting a terminal and breaking a pane out of its
    view), and merging two sessions, rearranging, renaming and terminating one. *)

From S2P Require Import Prelude.
From S2P Require Import Layout.
From S2P Require Import Topology.
From S2P Require Import LayoutInv.
From S2P Require Import Dividers.
From S2P Require Import TopologyInv.
From S2P Require Import Leases.
From S2P Require Import Sessions.
From S2P Require Import SessionsWp.
From S2P Require Import SessionsInv.
From S2P Require Import SessionsControl.
From S2P Require Import SessionsTopology.
From S2P Require Import SessionsManage.
From S2P Require Import SessionsLifecycle.
From stdpp Require Import strings gmap.

Import SessionRegistry (store, terminals, sessions, pending_names, next_automatic_name).
Import LayoutExt.

Section moves.
Context {St : Type} `{ScreenLaws St}.
Implicit Types (r : SessionRegistry.t St) (t : SessionTerminal.t St) (s : Session.t).

Lemma advances_new r r1 r2 sid s :
  advances r r1 → sessions r !! sid = None → sessions r2 = <[sid := s]> (sessions r1) → advances r r2.
Proof.
  intros Ha Hnew E sid2 s2 s2' Hs2. rewrite E. destruct (decide (sid2 = sid)) as [->|Hne]; [congruence|].
  rewrite lookup_insert_ne by done. by apply Ha.
Qed.

(** What a move leaves: the terminal alone in a new session *)
Definition moved (k : N) (id sid name src : string) r r' : Prop :=
  good k r (<[sid := (name, [id])]> (leave src id (members r))) r'.

(** The second half of a move: the orphan gets its owner record and its session. *)
Lemma wp_adopt {E B} (id sid vid name : string) now t k r0 r (f : action St E B) (Q : B → _ → Prop) R :
  OrphanInv id k r → listed r id = Some t → sessions r !! sid = None → (k ≤ u64_MAX)%N →
  advances r0 r → sessions r0 !! sid = None →
  let owner := TerminalOwner.Mk now sid vid name in
  (∀ r', Inv k r' → members r' = <[sid := (name, [id])]> (members r) → advances r0 r' →
     pending_names r' = pending_names r → wp f r' Q R) →
  wp (_ ← on_terminal id (SessionTerminal.set_owner owner);
      t ← reading (λ r, shared r id);
      _ ← insert_session (new_session owner (terminal_size t) id);
      f) r Q R.
Proof.
  intros HO Ht Hnew Hk Ha Hnew0 owner Hf. pose proof Ht as [Hin Hst]%listed_Some.
  apply wp_bind. unfold on_terminal. apply wp_bind, wp_reading. unfold shared. rewrite Hst. cbn [expect].
  apply wp_on_store. apply wp_bind, wp_reading. cbn [store]. rewrite lookup_insert_eq. cbn [expect].
  apply wp_bind. unfold insert_session. apply wp_on_sessions. cbn.
  set (t' := SessionTerminal.set_owner owner t). set (s' := new_session _ _ _).
  set (r' := SessionRegistry.Mk _ _ _ _ _).
  assert (Hss : sessions r' = <[sid := s']> (sessions r)) by done.
  apply Hf.
  - eapply (orphan_adopted k r r' id t t' sid s' HO); try done.
    apply new_session_ok; try done; [|by eexists]. cbn. eapply screen_ok_size.
    destruct (orphan_store _ _ _ HO id t Hst) as [_ Hok]. exact Hok.
  - by rewrite (members_insert _ _ _ _ Hss).
  - by eapply advances_new.
  - done.
Qed.

Lemma wp_publish_good {E} sid k r m r1 R (Q : () → _ → Prop) :
  good k r m r1 → (∀ r2, frame [] r1 r2 → good k r m r2 → Q () r2) → wp (E := E) (publish_view sid) r1 Q R.
Proof.
  intros Hg HQ. wp_use (wp_publish_view sid r1 (λ _, False)); [by eapply Inv_laid, good_inv| |done].
  intros [] r2 Hf. apply HQ; [done|by eapply good_quiet].
Qed.

Lemma members_sessions r sid entry : members r !! sid = Some entry → is_Some (sessions r !! sid).
Proof. unfold members. rewrite lookup_fmap. destruct (sessions r !! sid); [by eexists|done]. Qed.

Lemma wp_view_info sid k r m r1 (Q : ViewInfo.t → _ → Prop) R :
  good k r m r1 → is_Some (m !! sid) → (∀ v, Q v r1) →
  wp (reading (λ r, view_info r sid)) r1 Q R.
Proof.
  intros Hg [en Hen] HQ. rewrite <- (good_members _ _ _ _ Hg) in Hen.
  destruct (members_sessions _ _ _ Hen) as [s Hs]. apply wp_reading.
  destruct (view_info_Ok k r1 sid s (good_inv _ _ _ _ Hg) Hs) as (v & -> & _). done.
Qed.

(** ** Promoting a terminal *)

Lemma wp_promote_section name sid vid now id k r r0 :
  Inv (k + 1) r0 → names_only r0 r → name ∉ taken r0 → pending_names r = {[name]} ∪ pending_names r0 →
  sessions r0 !! sid = None →
  wp (promote_section name sid vid now id) r
    (λ _ r', ∃ t, listed r0 id = Some t ∧
       moved k id sid name (TerminalOwner.session_id (SessionTerminal.owner t)) r0 r')
    (λ r', r' = r).
Proof.
  intros HI0 Hn Hfresh Hp Hnew0. pose proof Hn as [Es Et Ess].
  assert (HI : Inv (k + 1) r) by by eapply Inv_names.
  assert (Hm : members r = members r0) by (unfold members; by rewrite Ess).
  unfold promote_section. apply wp_bind, wp_reading. destruct (listed r id) as [t|] eqn:Ht; [|done].
  cbn [ok_or]. apply wp_bind, wp_fail_if; [intros _|done]. cbv zeta.
  destruct (inv_owner _ _ HI id t Ht) as (s & Hs & Hin).
  set (src := TerminalOwner.session_id (SessionTerminal.owner t)) in *.
  apply wp_bind, wp_reading. unfold session. rewrite Hs. cbn [expect].
  apply wp_bind, wp_fail_if; [intros _|done]. apply wp_bind, wp_fail_if; [intros _|done].
  wp_bind_use (wp_detach_terminal id t k r (λ _, False)); [done..| |done].
  intros _ r1 (HO & Ha & Hm1 & Ht1 & Hp1 & Hd1 & t1 & Hl1 & K1).
  assert (Ha0 : advances r0 r1) by (unfold advances; by rewrite <- Ess).
  assert (Hnew : sessions r !! sid = None) by by rewrite Ess.
  eapply (wp_adopt id sid vid name now t1 k r0 r1); [exact HO|exact Hl1| | |exact Ha0|exact Hnew0|].
  - apply not_elem_of_dom. intros Hin1. apply Hd1 in Hin1. by apply not_elem_of_dom in Hnew.
  - pose proof (Inv_room _ _ _ _ HI Hs). lia.
  - intros r2 HI2 Hm2 Ha2 Hp2. apply wp_bind, wp_drop_reservation. intros r3 Hn3 Hp3.
    assert (Hg3 : moved k id sid name src r0 r3).
    { unfold moved. split.
      - by eapply Inv_names.
      - by eapply advances_eq; [exact (names_sessions _ _ Hn3)|].
      - unfold members at 1. rewrite (names_sessions _ _ Hn3). fold (members r2).
        by rewrite Hm2, Hm1, Hm.
      - rewrite Hp3, Hp2, Hp1, Hp. by apply pending_restored, fresh_pending. }
    apply wp_bind. wp_use (wp_publish_layout_leases sid r3 (λ _, False)); [|done].
    intros _ r4 Hf4. assert (Hg4 := good_quiet _ _ _ _ _ Hg3 Hf4).
    apply wp_bind. eapply wp_publish_good; [exact Hg4|]. intros r5 _ Hg5.
    eapply wp_view_info; [exact Hg5| |].
    + rewrite lookup_insert_eq. by eexists.
    + intros v. exists t. split; [|done]. unfold listed in *. by rewrite <- Es, <- Et.
Qed.

Lemma wp_promote_terminal_inner id requested sid vid now k r :
  Inv (k + 1) r → sessions r !! sid = None →
  wp (promote_terminal_inner id requested sid vid now) r
    (λ _ r', ∃ t name, listed r id = Some t ∧ name ∉ taken r ∧ default name requested = name ∧
       moved k id sid name (TerminalOwner.session_id (SessionTerminal.owner t)) r r')
    (λ r', good k r (members r) r').
Proof.
  intros HI Hnew. assert (HIk : Inv k r) by (eapply Inv_mono; [|exact HI]; lia).
  unfold promote_terminal_inner. apply wp_reserving.
  - intros name r1 Hn Hfresh Hp Hreq.
    wp_use (wp_promote_section name sid vid now id k r1 r); [done..| |].
    + intros _ r' (t & Ht & Hm). exists t, name. by split_and!.
    + intros r2 -> r3 Hn3 Hp3. apply unchanged_good.
      * by eapply Inv_names, Inv_names.
      * by rewrite (names_sessions _ _ Hn3), (names_sessions _ _ Hn).
      * rewrite Hp3, Hp. by apply pending_restored, fresh_pending.
  - intros r1 Hn Hp. apply unchanged_good; [by eapply Inv_names|exact (names_sessions _ _ Hn)|done].
Qed.

(** ** Breaking a pane out of its view *)

Lemma filter_other (ids : list string) id : NoDup ids → 2 ≤ length ids → filter (λ i, i ≠ id) ids ≠ [].
Proof.
  intros Hnd Hlen Hf. destruct ids as [|x [|y ids]]; cbn in Hlen; [lia|lia|].
  apply NoDup_cons in Hnd as [Hx _].
  assert (∀ i, i ∈ x :: y :: ids → i = id) as Hall.
  { intros i Hi. destruct (decide (i = id)) as [|Hne]; [done|].
    assert (i ∈ filter (λ i, i ≠ id) (x :: y :: ids)) as Hin by by apply list_elem_of_filter.
    rewrite Hf in Hin. by apply elem_of_nil in Hin. }
  rewrite (Hall x), (Hall y) in Hx by set_solver. apply Hx. left.
Qed.

Lemma wp_break_section self att target name sid vid now k r r0 :
  Inv (k + 2) r0 → names_only r0 r → name ∉ taken r0 → pending_names r = {[name]} ∪ pending_names r0 →
  sessions r0 !! sid = None → is_Some (store r0 !! self) →
  wp (break_section self att target name sid vid now) r
    (λ _ r', ∃ src s, owner_of r0 self = Ok src ∧ sessions r0 !! src = Some s ∧
       PaneTarget.terminal_id target ∈ ids_of s ∧ moved k (PaneTarget.terminal_id target) sid name src r0 r')
    (λ r', undone k r r').
Proof.
  intros HI0 Hn Hfresh Hp Hnew0 Hself. pose proof Hn as [Es Et Ess].
  assert (HI : Inv (k + 2) r) by by eapply Inv_names.
  assert (Hm : members r = members r0) by (unfold members; by rewrite Ess).
  assert (Hsame : undone k r r) by (apply undone_refl; eapply Inv_mono; [|exact HI]; lia).
  unfold break_section. cbv zeta. set (id := PaneTarget.terminal_id target).
  apply wp_bind, wp_mapping, wp_reading.
  pose proof (attached_pane_target_total self att target r) as Htot. rewrite Es in Htot.
  specialize (Htot Hself). destruct (attached_pane_target self att target r) as [s|e|]; [|exact Hsame|done].
  destruct Htot as (src & Ho & Hs & Hin & _ & _ & [t Ht]). fold id in Hin, Ht.
  assert (Hsid : Session.id s = src) by apply (view_id_ok _ _ _ _ (inv_views _ _ HI _ _ Hs)).
  rewrite !Hsid. destruct (view_wf _ _ _ _ HI Hs) as (Hwf & H16 & Hnd & Hf).
  assert (Howner : TerminalOwner.session_id (SessionTerminal.owner t) = src).
  { destruct (view_owned _ _ _ _ (inv_views _ _ HI _ _ Hs) id Hin) as (t1 & Ht1 & Ho1 & _).
    rewrite Hsid in Ho1. by simplify_eq. }
  apply wp_bind, wp_fail_if; [intros Hlen%bool_decide_eq_false|exact Hsame].
  destruct (remove_terminal_spec id _ Hwf) as (result & Er & _).
  pose proof (remove_terminal_filter id s result Hwf Hnd Hf Er) as Hres.
  apply wp_bind, wp_lift. rewrite Er. destruct result as [l|].
  2:{ exfalso. apply (filter_other (ids_of s) id Hnd); [|exact Hres]. unfold ids_of. lia. }
  destruct Hres as (Hwf' & Hnd' & Hf' & Hids).
  apply wp_bind, wp_lift.
  pose proof (pane_geometry_total l (View.canvas_size (Session.view s)) Hwf' H16) as Hg.
  destruct (Layout.pane_geometry l _) as [panes|e|]; [|exact Hsame|done]. cbn [map_err]. clear Hg.
  apply wp_bind. eapply wp_capture; [exact Hs| |].
  { intros i Hi. by eapply view_ids_listed. }
  intros geometry Hgeo Hrec. pose proof (recorded_valid _ _ _ (inv_store _ _ HI) Hrec) as Hval.
  pose proof (inv_views _ _ HI _ _ Hs) as Hv.
  apply wp_bind, wp_mapping. wp_use (wp_rearrange src l None geometry s k r).
  - exact Hs.
  - by eapply Inv_laid.
  - by destruct Hv.
  - by apply arranged_drawable.
  - exact Hwf.
  - exact (inv_stored _ _ HI).
  - exact (inv_store _ _ HI).
  - destruct Hv. lia.
  - exact Hval.
  - rewrite Hgeo. exact Hnd.
  - rewrite Hgeo, Hids. intros i [_ Hi]%list_elem_of_filter. exact Hi.
  - intros _ r1 (Ha1 & Hk1 & Hss1 & _).
    assert (Hs1 : sessions r1 !! src = Some (arranged s l None)) by (rewrite Hss1; apply lookup_insert_eq).
    destruct (around_listed _ _ _ _ _ Ha1 Ht) as (t1 & Ht1 & K1).
    apply wp_bind, wp_reading. unfold terminal at 1. rewrite Ht1. cbn [expect].
    apply wp_bind. eapply (wp_on_view src _ (arranged s l None)); [exact Hs1|reflexivity|].
    match goal with |- context [View.set_leases ?x _] => set (leases := x) end.
    set (s2 := Session.set_view (λ _, View.set_leases leases (Session.view (arranged s l None))) (arranged s l None)).
    set (r2 := SessionRegistry.Mk _ _ _ _ _).
    assert (Hss2 : sessions r2 = <[src := s2]> (sessions r)).
    { cbn. by rewrite Hss1, insert_insert_eq. }
    assert (Ha2 : around (geometry.*1) r r2) by (etrans; [exact Ha1|by apply around_same]).
    assert (Hok2 : session_ok k src s2).
    { assert (Hoka : session_ok k src (arranged s l None)).
      { apply arranged_ok; try done. eapply session_ok_mono; [|by eapply view_ok_session]. lia. }
      destruct Hoka as [? Hd ? ?]. by split. }
    assert (HO : OrphanInv id k r2).
    { eapply (orphan_leaves (geometry.*1) r r2 (k + 2) k src s s2 id t); try done; [lia|].
      intros i. change (ids_of s2) with (terminal_ids l). rewrite Hids, list_elem_of_filter. naive_solver. }
    eapply (wp_adopt id sid vid name now t1 k r0 r2); [exact HO|by rewrite (listed_eq r1 r2)| | | |exact Hnew0|].
    + rewrite Hss2, lookup_insert_ne; [by rewrite Ess|]. intros E. rewrite E, Ess in Hs. congruence.
    + pose proof (Inv_room _ _ _ _ HI Hs). lia.
    + eapply advances_change; [rewrite Hss2, Ess; reflexivity|done|]. intros s0 Hs0.
      rewrite <- Ess in Hs0. simplify_eq. split; [done|]. right. cbn. lia.
    + intros r3 HI3 Hm3 Ha3 Hp3. apply wp_bind, wp_drop_reservation. intros r4 Hn4 Hp4.
      assert (Hg4 : moved k id sid name src r0 r4).
      { unfold moved. split.
        - by eapply Inv_names.
        - by eapply advances_eq; [exact (names_sessions _ _ Hn4)|].
        - unfold members at 1. rewrite (names_sessions _ _ Hn4). fold (members r3).
          rewrite Hm3, (members_insert _ _ _ _ Hss2), Hm. f_equal. unfold leave.
          rewrite <- Hm, (members_lookup _ _ _ Hs). cbn. rewrite <- Hids.
          by rewrite decide_False by by apply terminal_ids_nonempty.
        - rewrite Hp4, Hp3. cbn. rewrite (around_pending _ _ _ Ha1), Hp.
          by apply pending_restored, fresh_pending. }
      apply wp_bind. eapply wp_publish_good; [exact Hg4|]. intros r5 _ Hg5.
      apply wp_bind. eapply wp_publish_good; [exact Hg5|]. intros r6 _ Hg6.
      apply wp_mapping, wp_reading. pose proof (good_members _ _ _ _ Hg6) as Hm6.
      destruct (members_sessions r6 sid (name, [id])) as [v Hsv]; [by rewrite Hm6, lookup_insert_eq|].
      destruct (view_info_Ok k r6 sid v (good_inv _ _ _ _ Hg6) Hsv) as (vi & -> & _).
      cbn [mbind outcome_bind].
      destruct (members_sessions r6 src (Session.name s, filter (λ i, i ≠ id) (ids_of s))) as [w Hsw].
      { rewrite Hm6. rewrite lookup_insert_ne; [|intros E; rewrite E, <- Ess in Hnew0; congruence].
        unfold leave. rewrite <- Hm, (members_lookup _ _ _ Hs). cbn.
        rewrite decide_False by (apply filter_other; [done|unfold ids_of; lia]). apply lookup_insert_eq. }
      destruct (view_info_Ok k r6 src w (good_inv _ _ _ _ Hg6) Hsw) as (wi & -> & _).
      cbn. exists src, s. split_and!; [|by rewrite <- Ess|done|done]. unfold owner_of, shared in *. by rewrite <- Es.
  - intros r1 (Hf1 & Hk1 & Hr1 & _).
    eapply (restored_undone _ _ []); [exact HI|lia|exact Hrec|reflexivity| | | |]; try done.
    apply list_subseteq_nil.
Qed.

Lemma wp_break_pane_inner self att target requested sid vid now k r :
  Inv (k + 2) r → sessions r !! sid = None → is_Some (store r !! self) →
  wp (break_pane_inner self att target requested sid vid now) r
    (λ _ r', ∃ src s name, owner_of r self = Ok src ∧ sessions r !! src = Some s ∧
       PaneTarget.terminal_id target ∈ ids_of s ∧ name ∉ taken r ∧ default name requested = name ∧
       moved k (PaneTarget.terminal_id target) sid name src r r')
    (λ r', undone k r r').
Proof.
  intros HI Hnew Hself. assert (HIk : Inv k r) by (eapply Inv_mono; [|exact HI]; lia).
  unfold break_pane_inner. apply wp_reserving.
  - intros name r1 Hn Hfresh Hp Hreq.
    wp_use (wp_break_section self att target name sid vid now k r1 r); [done..| |].
    + intros _ r' (src & s & Ho & Hs & Hin & Hm). exists src, s, name. by split_and!.
    + intros r2 [HI2 Es2 Ep2 Hz2] r3 Hn3 Hp3. destruct Hn as [Est _ Ess]. destruct Hn3 as [Est3 Et3 Ess3]. split.
      * eapply Inv_names; [|exact HI2]. by split.
      * by rewrite Ess3, Es2.
      * rewrite Hp3, Ep2, Hp. by apply pending_restored, fresh_pending.
      * intros i t t' Ht Hh. rewrite Est3. apply Hz2; [by rewrite Est|done].
  - intros r1 Hn Hp. destruct Hn as [Est Et Ess]. split; [by eapply (Inv_names _ r)|done|done|].
    intros i t t'. rewrite Est. intros. by simplify_eq.
Qed.
End moves.

Import SessionRegistry (store, terminals, sessions, pending_names, next_automatic_name).
Import LayoutExt.

Section edits.
Context {St : Type} `{ScreenLaws St}.
Implicit Types (r : SessionRegistry.t St) (t : SessionTerminal.t St) (s : Session.t).

Lemma root_cases k r sel : Inv k r → root r sel ⇓? λ s, sessions r !! Session.id s = Some s.
Proof.
  intros HI. eapply Total_mono; [apply root_total|]. intros s [sid Hs].
  by rewrite (view_id_ok _ _ _ _ (inv_views _ _ HI _ _ Hs)).
Qed.

Lemma root_selects k r sel s : Inv k r → root r sel = Ok s → selects (members r) sel (Session.id s).
Proof.
  intros HI Hr. pose proof (root_cases k r sel HI) as Hs. rewrite Hr in Hs. cbn in Hs.
  exists (Session.name s), (ids_of s). split; [by apply members_lookup|]. unfold root in Hr.
  destruct (sessions r !! sel) as [s'|] eqn:Esel.
  - left. injection Hr as ->. exact (view_id_ok _ _ _ _ (inv_views _ _ HI _ _ Esel)).
  - right. split; [unfold members; by rewrite lookup_fmap, Esel|].
    destruct (find_session _ r) as [s'|] eqn:Ef; [|done]. injection Hr as ->.
    apply find_session_Some in Ef as (sid & _ & Hn). by apply bool_decide_eq_true in Hn.
Qed.

Lemma any_managed_total k r sid s : Inv k r → sessions r !! sid = Some s →
  any_managed r (ids_of s) ⇓? λ _, True.
Proof.
  intros HI Hs. assert (Hall : ∀ id, id ∈ ids_of s → is_Some (listed r id)) by (intros; by eapply view_ids_listed).
  revert Hall. generalize (ids_of s) as ids. induction ids as [|id ids IH]; intros Hall; [done|].
  cbn [any_managed]. destruct (Hall id) as [t Ht]; [left|]. unfold terminal. rewrite Ht.
  cbn [expect mbind outcome_bind]. destruct (SessionTerminal.managed t); [done|]. apply IH.
  intros i Hi. apply Hall. by right.
Qed.

(** Changing the listed terminals of a list, one after the other *)
Lemma wp_each_listed {E} (f : SessionTerminal.t St → SessionTerminal.t St) ids r (Q : () → _ → Prop) R :
  NoDup ids → (∀ id, id ∈ ids → is_Some (listed r id)) →
  (∀ r', terminals r' = terminals r → sessions r' = sessions r → pending_names r' = pending_names r →
     (∀ i, store r' !! i = (if decide (i ∈ ids) then f else λ t, t) <$> store r !! i) → Q () r') →
  wp (E := E) (each (λ id, on_listed id f) ids) r Q R.
Proof.
  intros Hnd Hl HQ.
  pose (I (rest : list string) r' := terminals r' = terminals r ∧ sessions r' = sessions r ∧
    pending_names r' = pending_names r ∧ ∃ before, ids = before ++ rest ∧
    ∀ i, store r' !! i = (if decide (i ∈ before) then f else λ t, t) <$> store r !! i).
  wp_use (wp_each _ I R).
  - split_and!; try done. exists []. split; [done|]. intros i. rewrite decide_False by apply not_elem_of_nil.
    by rewrite option_fmap_id.
  - intros id rest r1 (Et & Ess & Ep & before & Hids & Hst).
    assert (Hin : id ∈ ids) by (rewrite Hids; set_solver).
    destruct (Hl id Hin) as [t [Hi Ht]%listed_Some].
    rewrite Hids in Hnd. apply NoDup_app in Hnd as (_ & Hdisj & Hnd).
    assert (Hout : id ∉ before) by (intros Hb; apply (Hdisj id Hb); left).
    assert (Ht1 : store r1 !! id = Some t).
    { rewrite Hst, decide_False by done. by rewrite Ht. }
    unfold on_listed. apply wp_bind, wp_reading. unfold terminal.
    assert (listed r1 id = Some t) as -> by (apply listed_Some; by rewrite Et).
    cbn [expect]. unfold on_terminal. apply wp_bind, wp_reading. unfold shared. rewrite Ht1. cbn [expect].
    apply wp_on_store. split_and!; [done..|]. exists (before ++ [id]). split; [by rewrite <- app_assoc|].
    intros i. cbn. destruct (decide (i = id)) as [->|Hne].
    + rewrite lookup_insert_eq, Ht. rewrite decide_True; [done|]. set_solver.
    + rewrite lookup_insert_ne, Hst by done. destruct (decide (i ∈ before)) as [Hb|Hb].
      * rewrite decide_True; [done|set_solver].
      * rewrite decide_False; [done|]. intros [?|?%list_elem_of_singleton]%elem_of_app; done.
  - intros [] r' (Et & Ess & Ep & before & Hids & Hst). rewrite app_nil_r in Hids. subst before. by apply HQ.
  - done.
Qed.

(** ** Merging *)

(** All terminals of the source have moved behind those of the destination. *)
Definition merged (k : N) (source destination : string) r r' : Prop := ∃ src dst sname dname sids dids,
  selects (members r) source src ∧ selects (members r) destination dst ∧ src ≠ dst ∧ members r !! src = Some (sname, sids) ∧ members r !! dst = Some (dname, dids) ∧
  good k r (<[dst := (dname, dids ++ sids)]> (delete src (members r))) r'.

Lemma merge_layout_ok k r src dst s d :
  Inv k r → sessions r !! src = Some s → sessions r !! dst = Some d → src ≠ dst →
  let l := Split Horizontal [View.layout (Session.view d); View.layout (Session.view s)] [] in
  wf_layout l ∧ terminal_ids l = ids_of d ++ ids_of s ∧ NoDup (terminal_ids l).
Proof.
  intros HI Hs Hd Hne l. destruct (view_wf _ _ _ _ HI Hs) as (Hwf & _ & Hnd & _).
  destruct (view_wf _ _ _ _ HI Hd) as (Hwfd & _ & Hndd & _).
  assert (terminal_ids l = ids_of d ++ ids_of s) as Hids by (cbn; by rewrite app_nil_r).
  split_and!; [|done|].
  - apply wf_split_intro; [simpl; lia|done|by left|by repeat constructor].
  - rewrite Hids. apply NoDup_app. split_and!; [done| |done]. intros i Hi Hi'.
    destruct (view_owned _ _ _ _ (inv_views _ _ HI _ _ Hd) i Hi) as (t2 & Ht2 & O2 & _).
    destruct (view_owned _ _ _ _ (inv_views _ _ HI _ _ Hs) i Hi') as (t1 & Ht1 & O1 & _).
    rewrite (view_id_ok _ _ _ _ (inv_views _ _ HI _ _ Hd)) in O2.
    rewrite (view_id_ok _ _ _ _ (inv_views _ _ HI _ _ Hs)) in O1. by simplify_eq.
Qed.

Lemma mergeable_total k r sid s : Inv k r → sessions r !! sid = Some s → mergeable r sid ⇓? λ _, True.
Proof.
  intros HI Hs. unfold mergeable, session. rewrite Hs. cbn [expect mbind outcome_bind].
  destruct (Session.closing s); [done|]. cbn [fail_if mbind outcome_bind].
  eapply Total_bind; [by eapply any_managed_total|]. by intros [].
Qed.

Lemma first_terminal_total l : wf_layout l → ∃ id, first_terminal l = Ok id ∧ terminal_ids l !! 0 = Some id.
Proof.
  induction l as [id|axis children weights IH] using ViewLayout_ind; intros Hwf; [by exists id|].
  apply wf_split_inv in Hwf as (Hne & _ & _ & Hcs). destruct children as [|c cs]; [simpl in Hne; lia|].
  apply Forall_cons in IH as [IH _]. apply Forall_cons in Hcs as [Hc _].
  destruct (IH Hc) as (id & E & Hid). exists id. csimpl. split; [exact E|].
  rewrite lookup_app_l; [done|]. apply lookup_lt_Some in Hid. lia.
Qed.

Lemma wp_merge_sessions_inner source destination k r :
  Inv (k + 2) r →
  wp (merge_sessions_inner source destination) r
    (λ _ r', merged k source destination r r') (λ r', undone k r r' ∨ merged k source destination r r').
Proof.
  intros HI. assert (Hsame : undone k r r ∨ merged k source destination r r).
  { left. apply undone_refl. eapply Inv_mono; [|exact HI]. lia. }
  unfold merge_sessions_inner. apply wp_bind, wp_reading. pose proof (root_cases _ r source HI) as Hsrc.
  pose proof (λ s, root_selects _ r source s HI) as Hsel. destruct (root r source) as [s|e|]; [|exact Hsame|done]. specialize (Hsel s eq_refl). simpl in Hsrc.
  apply wp_bind, wp_reading. pose proof (root_cases _ r destination HI) as Hdst.
  pose proof (λ s, root_selects _ r destination s HI) as Hseld. destruct (root r destination) as [d|e|]; [|exact Hsame|done].
  specialize (Hseld d eq_refl). simpl in Hdst. cbv zeta.
  set (src := Session.id s) in *. set (dst := Session.id d) in *.
  apply wp_bind, wp_fail_if; [intros Hne%bool_decide_eq_false|exact Hsame].
  apply wp_bind, wp_reading. pose proof (mergeable_total _ _ _ _ HI Hsrc) as Hm1.
  destruct (mergeable r src); [|exact Hsame|done].
  apply wp_bind, wp_reading. pose proof (mergeable_total _ _ _ _ HI Hdst) as Hm2.
  destruct (mergeable r dst); [|exact Hsame|done].
  apply wp_bind, wp_reading. unfold session at 1. rewrite Hdst. cbn [expect].
  apply wp_bind, wp_reading. unfold session at 1. rewrite Hsrc. cbn [expect].
  destruct (merge_layout_ok _ _ _ _ _ _ HI Hsrc Hdst Hne) as (Hwf & Hids & Hnd).
  set (l := Split Horizontal _ _) in *.
  apply wp_bind, wp_lift. pose proof (validate_layout_total l 0) as Hval.
  destruct (validate_layout l 0); [|exact Hsame|done].
  destruct (view_wf _ _ _ _ HI Hdst) as (Hwfd & H16 & _).
  apply wp_bind, wp_lift. pose proof (pane_geometry_total l _ Hwf H16) as Hg.
  destruct (Layout.pane_geometry l _) as [panes|e|]; [|exact Hsame|done]. destruct Hg as [Hf _]. cbn [map_err].
  apply wp_bind, wp_on_sessions.
  destruct (first_terminal_total _ Hwfd) as (first & Efirst & Hfirst).
  apply wp_bind, wp_lift. rewrite Efirst. cbn [map_err].
  destruct (view_ids_listed _ _ _ _ first HI Hdst) as [tf Htf]; [by eapply list_elem_of_lookup_2|].
  apply wp_bind, wp_reading. unfold terminal at 1, listed. cbn [store terminals]. fold (listed r first).
  rewrite Htf. cbn [expect]. set (owner := TerminalOwner.Mk _ _ _ _).
  pose proof (inv_views _ _ HI _ _ Hdst) as Hvd.
  apply wp_bind, (wp_replace_layout dst l d); [cbn; by rewrite lookup_delete_ne|destruct Hvd; lia|].
  set (r2 := SessionRegistry.Mk _ _ _ _ _). set (d' := arranged d l None) in r2.
  apply wp_bind. apply wp_each_listed.
  { by destruct (view_wf _ _ _ _ HI Hsrc) as (_ & _ & ? & _). }
  { intros id Hid. apply (view_ids_listed _ r _ _ _ HI Hsrc Hid). }
  intros r3 Et3 Ess3 Ep3 Hst3.
  assert (Hss3 : sessions r3 = <[dst := d']> (delete src (sessions r))) by done.
  assert (Hok3 : store_ok (λ _, (k + 1)%N) r3).
  { intros i t3. rewrite Hst3. intros (x & Hi & ->)%fmap_Some.
    destruct (inv_store _ _ HI i _ Hi) as [Hid Hok].
    assert (screen_ok (k + 1) (SessionTerminal.state x)) by (eapply screen_ok_mono; [|exact Hok]; lia).
    by destruct (decide (i ∈ _)). }
  assert (Hsok : session_ok (k + 1) dst d').
  { apply arranged_ok; try done. eapply session_ok_mono; [|by eapply view_ok_session]. lia. }
  assert (HI3 : Inv (k + 1) r3).
  { eapply (sessions_merge (ids_of s) r r3 (k + 1) src dst s d d'); try done.
    - eapply Inv_mono; [|exact HI]. lia.
    - intros i. change (ids_of d') with (terminal_ids l). rewrite Hids. apply elem_of_app.
    - intros i t Hi. rewrite Hst3. cbn [store r2]. rewrite Hi. eexists. split; [reflexivity|].
      split; [intros Hin|intros Hin].
      + rewrite decide_True by done. by split_and!.
      + by rewrite decide_False. }
  assert (Hg3 : good (k + 1) r (<[dst := (Session.name d, ids_of d ++ ids_of s)]> (delete src (members r))) r3).
  { split; [done| | |done].
    - eapply advances_change; [exact Hss3|apply delete_subseteq|]. intros d0 Hd0. simplify_eq.
      split; [done|]. right. cbn. lia.
    - unfold members at 1. rewrite Hss3, fmap_insert, fmap_delete. unfold members. f_equal.
      unfold entry. change (ids_of d') with (terminal_ids l). by rewrite Hids. }
  assert (Hfin : ∀ r', good k r (<[dst := (Session.name d, ids_of d ++ ids_of s)]> (delete src (members r))) r' →
    merged k source destination r r').
  { intros r' Hg. exists src, dst, (Session.name s), (Session.name d), (ids_of s), (ids_of d).
    split_and!; [exact Hsel|exact Hseld|done|by apply members_lookup|by apply members_lookup|done]. }
  apply wp_bind. wp_use (wp_publish_layout_leases dst r3 (λ _, False)); [|done]. intros _ r4 Hf4.
  pose proof (good_quiet _ _ _ _ _ Hg3 Hf4) as Hg4. pose proof (good_inv _ _ _ _ Hg4) as HI4.
  apply wp_bind, wp_mapping. wp_use (wp_reflow_any dst d' k r4).
  - by rewrite (frame_sessions _ _ _ Hf4), Hss3, lookup_insert_eq.
  - eapply session_ok_mono; [|exact Hsok]. lia.
  - by eapply Inv_laid.
  - exact (inv_stored _ _ HI4).
  - exact (inv_store _ _ HI4).
  - intros _ r5 [Hf5 Hk5].
    assert (Hg5 : good k r (<[dst := (Session.name d, ids_of d ++ ids_of s)]> (delete src (members r))) r5)
      by (eapply good_frame; [exact Hg4|lia|exact Hf5|exact Hk5]).
    eapply wp_view_info; [exact Hg5|rewrite lookup_insert_eq; by eexists|]. intros v. by apply Hfin.
  - intros r5 [Hf5 Hk5]. right. apply Hfin. eapply good_frame; [exact Hg4|lia|exact Hf5|exact Hk5].
Qed.

(** ** Rearranging *)

Lemma unweighted_u32 l : Layout.has_weights l = false → weights_u32 l.
Proof.
  induction l as [id|axis children weights IH] using ViewLayout_ind; [done|].
  cbn [Layout.has_weights weights_u32]. rewrite orb_false_iff, negb_false_iff, bool_decide_eq_true.
  intros [-> Hcs]. split; [constructor|]. rewrite foldr_and. rewrite Forall_forall in *.
  intros c Hin. apply IH; [done|]. destruct (Layout.has_weights c) eqn:E; [|done]. exfalso.
  rewrite <- not_true_iff_false in Hcs. apply Hcs, existsb_exists. exists c. split; [|done].
  by apply list_elem_of_In.
Qed.

Lemma preserve_children_wf children old cs :
  Forall (λ c, grouped c → ∀ previous l, wf_layout previous →
    preserve_layout_weights c previous = Ok l → wf_layout l) children →
  Forall grouped children → Forall wf_layout old → length children = length old →
  preserve_children (preserve_layout_weights <$> children) old = Ok cs →
  Forall wf_layout cs ∧ length cs = length old.
Proof.
  intros IH Hg Ho. revert old cs Ho. induction IH as [|c children Hc _ IHcs]; intros old cs Ho Hlen.
  { destruct old; [|done]. intros [= <-]. done. }
  apply Forall_cons in Hg as [Hgc Hg]. destruct old as [|p old]; [done|]. apply Forall_cons in Ho as [Hp Ho].
  csimpl. rewrite bind_Ok. intros (l & El & (rest & Er & [= <-])%bind_Ok).
  destruct (IHcs Hg old rest Ho) as [Hr Hl]; [simpl in Hlen; lia|done|]. split; [|simpl; lia].
  constructor; [by eapply Hc|done].
Qed.

(** A validated arrangement with the weights of the view can be laid out. *)
Lemma preserve_wf next : grouped next → ∀ previous l, wf_layout previous →
  preserve_layout_weights next previous = Ok l → wf_layout l.
Proof.
  induction next as [id|axis children weights IH] using ViewLayout_ind; intros Hg previous l Hwf.
  - cbn [preserve_layout_weights]. destruct (_ || _); [done|]. intros [= <-]. constructor.
  - assert (Hother : (if Layout.has_weights (Split axis children weights) || Layout.has_weights previous
        then ambiguous else Ok (Split axis children weights)) = Ok l → wf_layout l).
    { destruct (Layout.has_weights (Split _ _ _)) eqn:E; [done|]. cbn [orb].
      destruct (Layout.has_weights previous); [done|]. intros [= <-]. apply grouped_wf; [done|].
      by apply unweighted_u32. }
    destruct previous as [pid|old_axis old old_weights]; [exact Hother|].
    cbn [preserve_layout_weights]. destruct (decide (axis = old_axis ∧ _)) as [[-> Hlen]|_]; [|exact Hother].
    destruct (decide (weights ≠ [] ∧ _)); [done|]. rewrite bind_Ok. intros (cs & Ecs & [= <-]).
    inversion Hg as [|? ? ? Hgl _ Hgc]; subst. apply wf_split_inv in Hwf as (Hne & Hmax & Hw & Hold).
    destruct (preserve_children_wf children old cs IH Hgc Hold Hlen Ecs) as [Hcs Hl].
    apply wf_split_intro; rewrite ?Hl; done.
Qed.

Lemma NoDup_size (l : list string) : size (list_to_set l : gset string) = length l → NoDup l.
Proof.
  induction l as [|x l IH]; [constructor|]. csimpl. intros E.
  destruct (decide (x ∈ l)) as [Hin|Hout].
  - assert ({[x]} ∪ list_to_set l = (list_to_set l : gset string)) as E2 by set_solver.
    rewrite E2 in E. pose proof (size_list_le l). lia.
  - constructor; [done|]. apply IH. rewrite size_union, size_singleton in E by set_solver. lia.
Qed.

(** The order and the nesting of the selected session's terminals have changed. *)
Definition rearranged (k : N) (selector : string) (ids' : list string) r r' : Prop := ∃ sid name ids,
  selects (members r) selector sid ∧ members r !! sid = Some (name, ids) ∧ ids' ≡ₚ ids ∧ good k r (<[sid := (name, ids')]> (members r)) r'.

Lemma clear_weights_ids l : terminal_ids (Layout.clear_weights l) = terminal_ids l.
Proof.
  induction l as [id|axis children weights IH] using ViewLayout_ind; [done|]. csimpl. f_equal.
  rewrite <- list_fmap_compose. apply list_fmap_ext. intros i c Hc. rewrite Forall_lookup in IH. by apply (IH i).
Qed.

Lemma preserve_total next previous : preserve_layout_weights next previous ⇓? λ l,
  terminal_ids l = terminal_ids next.
Proof.
  pose proof (preserve_layout_weights_spec next previous) as Hp. unfold preserves in Hp.
  destruct (preserve_layout_weights next previous) as [l|e|]; [|done|done]. cbn.
  destruct Hp as [Hc _]. by rewrite <- (clear_weights_ids l), Hc, clear_weights_ids.
Qed.

Lemma wp_update_view_inner selector expected layout k r :
  Inv (k + 2) r →
  wp (update_view_inner selector expected layout) r
    (λ _ r', rearranged k selector (terminal_ids layout) r r')
    (λ r', undone k r r' ∨ rearranged k selector (terminal_ids layout) r r').
Proof.
  intros HI. assert (Hsame : undone k r r ∨ rearranged k selector (terminal_ids layout) r r).
  { left. apply undone_refl. eapply Inv_mono; [|exact HI]. lia. }
  unfold update_view_inner. apply wp_bind, wp_lift. pose proof (validate_layout_total layout 0) as Hval.
  destruct (validate_layout layout 0); [|exact Hsame|done]. destruct Hval as (_ & _ & Hg). cbn [map_err].
  apply wp_bind, wp_reading. pose proof (root_cases _ r selector HI) as Hroot.
  pose proof (λ s, root_selects _ r selector s HI) as Hsel. destruct (root r selector) as [s|e|]; [|exact Hsame|done].
  specialize (Hsel s eq_refl). simpl in Hroot. cbv zeta.
  apply wp_bind, wp_fail_if; [intros _|exact Hsame].
  destruct (view_wf _ _ _ _ HI Hroot) as (Hwf & H16 & Hnd & _).
  apply wp_bind, wp_lift. pose proof (preserve_total layout (View.layout (Session.view s))) as Hp.
  destruct (preserve_layout_weights layout _) as [l|e|] eqn:El; [|exact Hsame|done]. simpl in Hp. cbn [map_err].
  pose proof (preserve_wf layout Hg _ l Hwf El) as Hwfl. rewrite Hp. fold (ids_of s).
  apply wp_bind, wp_fail_if; [|exact Hsame].
  intros [[Hn1 Hn2]%orb_false_iff Hn3]%orb_false_iff.
  rewrite negb_false_iff, bool_decide_eq_true in Hn1, Hn2.
  assert (HndL : NoDup (terminal_ids layout)) by by apply NoDup_size.
  assert (Hperm : terminal_ids layout ≡ₚ ids_of s).
  { apply submseteq_length_Permutation.
    - apply NoDup_submseteq; [done|]. intros i Hi.
      destruct (decide (i ∈ ids_of s)) as [|Hout]; [done|]. exfalso.
      rewrite <- not_true_iff_false in Hn3. apply Hn3, existsb_exists. exists i.
      split; [by apply list_elem_of_In|]. rewrite negb_true_iff, bool_decide_eq_false.
      by rewrite elem_of_list_to_set.
    - rewrite Hn1. rewrite size_list_to_set by done. done. }
  apply wp_bind, wp_lift. pose proof (pane_geometry_total l _ Hwfl H16) as Hgeo.
  destruct (Layout.pane_geometry l _) as [panes|e|]; [|exact Hsame|done]. destruct Hgeo as [Hf _]. cbn [map_err].
  pose proof (inv_views _ _ HI _ _ Hroot) as Hv. set (sid := Session.id s) in *.
  apply wp_bind, (wp_replace_layout sid l s); [done|destruct Hv; lia|].
  set (r1 := SessionRegistry.Mk _ _ _ _ _).
  assert (Hrep : replaces s l).
  { split_and!; [done|by rewrite Hp|done..|]. intros i. rewrite Hp. by rewrite Hperm. }
  assert (Hg1 : good (k + 1) r (<[sid := entry (arranged s l None)]> (members r)) r1).
  { pose proof Hrep as (_ & Hnd' & _).
    apply (view_good (k + 2) (k + 1) [] r r1 sid s (arranged s l None) HI);
      [lia|by apply around_same| |done|done|by apply arranged_same_owner|by apply arranged_drawable|
       by destruct Hv|cbn; destruct Hv; lia|left; cbn; lia].
    eapply store_ok_0; [|exact (inv_store _ _ HI)]. lia. }
  assert (Hent : entry (arranged s l None) = (Session.name s, terminal_ids layout)).
  { unfold entry. by rewrite <- Hp. }
  rewrite Hent in Hg1. pose proof (good_inv _ _ _ _ Hg1) as HI1.
  assert (Hfin : ∀ r2, frame (ids_of (arranged s l None)) r1 r2 → store_ok (λ _, k) r2 →
    good k r (<[sid := (Session.name s, terminal_ids layout)]> (members r)) r2 ∧
    rearranged k selector (terminal_ids layout) r r2).
  { intros r2 Hf2 Hk2. assert (Hg2 : good k r (<[sid := (Session.name s, terminal_ids layout)]> (members r)) r2)
      by (eapply good_frame; [exact Hg1|lia|exact Hf2|exact Hk2]).
    split; [done|]. exists sid, (Session.name s), (ids_of s). split_and!; [exact Hsel|by apply members_lookup|done|done]. }
  assert (Hs1 : sessions r1 !! sid = Some (arranged s l None)) by (cbn; apply lookup_insert_eq).
  apply wp_bind, wp_mapping. wp_use (wp_reflow_any sid (arranged s l None) k r1); [exact Hs1| | | | | |].
  - eapply session_ok_mono; [|by eapply view_ok_session, (inv_views _ _ HI1)]. lia.
  - by eapply Inv_laid.
  - exact (inv_stored _ _ HI1).
  - exact (inv_store _ _ HI1).
  - intros _ r2 [Hf2 Hk2]. destruct (Hfin r2 Hf2 Hk2) as [Hg2 Hr2].
    eapply wp_view_info; [exact Hg2|rewrite lookup_insert_eq; by eexists|]. by intros v.
  - intros r2 [Hf2 Hk2]. right. by apply Hfin.
Qed.

(** ** Renaming *)

Lemma Inv_renamed k r r' sid s s' (f : SessionTerminal.t St → SessionTerminal.t St) :
  Inv k r → sessions r !! sid = Some s → sessions r' = <[sid := s']> (sessions r) →
  terminals r' = terminals r → session_ok k sid s' → ids_of s' = ids_of s →
  (∀ t, SessionTerminal.id (f t) = SessionTerminal.id t ∧ SessionTerminal.state (f t) = SessionTerminal.state t) →
  (∀ t, owned_by t s → owned_by (f t) s') →
  (∀ i, store r' !! i = (if decide (i ∈ ids_of s) then f else λ t, t) <$> store r !! i) → Inv k r'.
Proof.
  intros HI Hs Ess Et Hs' Hids Hf Hown Hst.
  assert (El : ∀ i t, listed r i = Some t → listed r' i = Some (if decide (i ∈ ids_of s) then f t else t)).
  { intros i t [Hin Ht]%listed_Some. apply listed_Some. rewrite Et, Hst, Ht. split; [done|]. cbn.
    by case_decide. }
  assert (Hout : ∀ sid2 s2 i, sessions r !! sid2 = Some s2 → sid2 ≠ sid → i ∈ ids_of s2 → i ∉ ids_of s).
  { intros sid2 s2 i Hs2 Hne Hi Hi'.
    destruct (view_owned _ _ _ _ (inv_views _ _ HI _ _ Hs2) i Hi) as (t2 & Ht2 & O2 & _).
    destruct (view_owned _ _ _ _ (inv_views _ _ HI _ _ Hs) i Hi') as (t1 & Ht1 & O1 & _).
    rewrite (view_id_ok _ _ _ _ (inv_views _ _ HI _ _ Hs2)) in O2.
    rewrite (view_id_ok _ _ _ _ (inv_views _ _ HI _ _ Hs)) in O1. by simplify_eq. }
  split.
  - intros i t. rewrite Hst. intros (t0 & Ht0 & ->)%fmap_Some.
    destruct (inv_store _ _ HI i t0 Ht0) as [? ?]. case_decide; [|done].
    destruct (Hf t0) as [-> ->]. done.
  - intros i. rewrite Et. intros [t Ht]%(inv_stored _ _ HI). rewrite Hst, Ht. by eexists.
  - intros sid2 s2. rewrite Ess. destruct (decide (sid2 = sid)) as [->|Hne].
    + rewrite lookup_insert_eq. intros [= <-]. apply view_ok_intro; [done|]. intros i. rewrite Hids. intros Hi.
      destruct (view_owned _ _ _ _ (inv_views _ _ HI _ _ Hs) i Hi) as (t & Ht & Ho).
      exists (f t). rewrite (El i t Ht), decide_True by done. split; [done|by apply Hown].
    + rewrite lookup_insert_ne by done. intros Hs2. pose proof (inv_views _ _ HI _ _ Hs2) as Hv.
      apply view_ok_intro; [by eapply view_ok_session|]. intros i Hi.
      destruct (view_owned _ _ _ _ Hv i Hi) as (t & Ht & Ho). exists t. split; [|done].
      rewrite (El i t Ht), decide_False; [done|]. by eapply Hout.
  - intros i t' Ht'. pose proof Ht' as [Hin Hst']%listed_Some. rewrite Et in Hin.
    destruct (inv_stored _ _ HI i Hin) as [t Ht].
    assert (Hl : listed r i = Some t) by by apply listed_Some.
    rewrite (El i t Hl) in Ht'. injection Ht' as <-. rewrite Ess.
    destruct (inv_owner _ _ HI i t Hl) as (s0 & Hs0 & Hi).
    assert (Hst0 : TerminalOwner.session_id (SessionTerminal.owner (if decide (i ∈ ids_of s) then f t else t)) =
      TerminalOwner.session_id (SessionTerminal.owner t)).
    { case_decide as Hd; [|done]. destruct (view_owned _ _ _ _ (inv_views _ _ HI _ _ Hs) i Hd) as (t1 & Ht1 & Ho).
      assert (t1 = t) as -> by congruence. destruct (Hown t Ho) as [-> _]. destruct Ho as [-> _].
      rewrite (session_id_ok _ _ _ Hs'). by rewrite (view_id_ok _ _ _ _ (inv_views _ _ HI _ _ Hs)). }
    rewrite Hst0. destruct (decide (TerminalOwner.session_id (SessionTerminal.owner t) = sid)) as [E|Hne].
    + rewrite E in *. assert (s0 = s) as -> by congruence. exists s'. rewrite lookup_insert_eq. by rewrite Hids.
    + exists s0. by rewrite lookup_insert_ne.
Qed.

(** The selected session has a new name, which nothing else had. *)
Definition renamed (k : N) (selector name : string) r r' : Prop := ∃ sid old ids,
  selects (members r) selector sid ∧ members r !! sid = Some (old, ids) ∧ (name = old ∨ name ∉ taken r) ∧
  good k r (<[sid := (name, ids)]> (members r)) r'.

Lemma first_info_total k r sid s : Inv k r → sessions r !! sid = Some s → ∀ Q R,
  (∀ v, Q v r) → wp (first_info (ids_of s)) r Q R.
Proof.
  intros HI Hs Q R HQ. apply wp_reading. destruct (view_wf _ _ _ _ HI Hs) as (Hwf & _).
  destruct (first_terminal_total _ Hwf) as (id & _ & Hid). unfold ids_of. rewrite Hid.
  cbn [expect mbind outcome_bind]. destruct (view_ids_listed _ _ _ _ id HI Hs) as [t Ht].
  { by eapply list_elem_of_lookup_2. }
  unfold terminal. rewrite Ht. apply HQ.
Qed.

Lemma wp_rename_inner selector name k r :
  Inv (k + 1) r →
  wp (rename_inner selector name) r (λ _ r', renamed k selector name r r') (λ r', undone k r r').
Proof.
  intros HI. assert (HIk : Inv k r) by (eapply Inv_mono; [|exact HI]; lia).
  pose proof (undone_refl _ _ HIk) as Hsame. unfold rename_inner.
  apply wp_bind, wp_lift. destruct (validate_session_name name) as [[]|e|] eqn:Ev; [|exact Hsame|].
  2:{ unfold validate_session_name in Ev. destruct (_ || _); [done|]. simpl in Ev. by destruct (negb _). }
  cbn [map_err]. apply wp_bind, wp_reading. pose proof (root_cases _ r selector HI) as Hroot.
  pose proof (λ s, root_selects _ r selector s HI) as Hsel. destruct (root r selector) as [s|e|]; [|exact Hsame|done].
  specialize (Hsel s eq_refl). simpl in Hroot.
  apply wp_bind, wp_fail_if; [intros _|exact Hsame]. cbv zeta. fold (ids_of s).
  set (sid := Session.id s) in *. apply wp_bind, wp_reading.
  pose proof (any_managed_total _ _ _ _ HI Hroot) as Hm.
  destruct (any_managed r (ids_of s)) as [b|e|]; [|exact Hsame|done].
  apply wp_bind, wp_fail_if; [intros _|exact Hsame].
  apply wp_bind, wp_reading. unfold session at 1. rewrite Hroot. cbn [expect].
  destruct (decide (Session.name s = name)) as [Hname|Hname].
  { eapply first_info_total; [exact HI|exact Hroot|]. intros _. exists sid, name, (ids_of s).
    rewrite (members_lookup _ _ _ Hroot). unfold entry. rewrite Hname.
    split_and!; [exact Hsel|done|by left|]. rewrite <- Hname. change (_, _) with (entry s). rewrite members_id by done.
    by apply undone_good. }
  apply wp_bind, wp_reading. destruct (_ || _) eqn:Etaken; [exact Hsame|]. cbn [fail_if].
  apply orb_false_iff in Etaken as [Hpend%bool_decide_eq_false Hfound%bool_decide_eq_false].
  assert (Hfresh : name ∉ taken r).
  { rewrite elem_of_taken. intros [?|(sid2 & s2 & Hs2 & Hn2)]; [done|]. apply Hfound.
    destruct (find_session _ r) eqn:Ef; [by eexists|]. exfalso.
    pose proof (find_session_None _ _ Ef sid2 s2 Hs2) as Hc. apply andb_false_iff in Hc.
    rewrite negb_false_iff, bool_decide_eq_true, bool_decide_eq_false in Hc.
    destruct Hc as [Hid|]; [|done].
    rewrite (view_id_ok _ _ _ _ (inv_views _ _ HI _ _ Hs2)) in Hid. subst sid2. congruence. }
  apply wp_bind, wp_reading. unfold session at 1. rewrite Hroot. cbn [expect].
  apply wp_bind, wp_on_sessions. pose proof (inv_views _ _ HI _ _ Hroot) as Hv.
  set (s1 := Session.Mk _ _ _ _). apply wp_bind.
  set (v2 := View.arrange (View.layout (Session.view s)) (View.zoomed_terminal_id (Session.view s))
               (View.revision (Session.view s) + 1) (Session.view s)).
  apply (wp_on_view sid _ s1 v2); [cbn; apply lookup_insert_eq| |].
  { cbn. unfold succ64. rewrite decide_True by (destruct Hv; lia). done. }
  set (s2 := Session.set_view (λ _, v2) s1). set (r2 := SessionRegistry.Mk _ _ _ _ _).
  apply wp_bind. apply wp_each_listed.
  { by destruct (view_wf _ _ _ _ HI Hroot) as (_ & _ & ? & _). }
  { intros i Hi. by apply (view_ids_listed _ r _ _ _ HI Hroot). }
  intros r3 Et3 Ess3 Ep3 Hst3.
  assert (Hss3 : sessions r3 = <[sid := s2]> (sessions r)) by (rewrite Ess3; cbn; by rewrite insert_insert_eq).
  assert (Hg3 : good k r (<[sid := (name, ids_of s)]> (members r)) r3).
  { split; [| | |done].
    - eapply (Inv_renamed k r r3 sid s s2 (rename_owner name)); try done.
      + destruct Hv as [? [? ? ? ?] ? ? ?]. split; try done. cbn. lia.
      + intros t (E1 & E2 & E3). split_and!; cbn; done.
    - eapply advances_change; [exact Hss3|done|]. intros s0 Hs0. simplify_eq. split; [done|]. right. cbn. lia.
    - by rewrite (members_insert _ _ _ _ Hss3). }
  apply wp_bind. eapply wp_publish_good; [exact Hg3|]. intros r4 Hf4 Hg4.
  assert (Hs4 : sessions r4 !! sid = Some s2) by (by rewrite (frame_sessions _ _ _ Hf4), Hss3, lookup_insert_eq).
  change (ids_of s) with (ids_of s2).
  eapply first_info_total; [exact (good_inv _ _ _ _ Hg4)|exact Hs4|]. intros _. exists sid, (Session.name s), (ids_of s).
  split_and!; [exact Hsel|by apply members_lookup|by right|exact Hg4].
Qed.

(** ** Terminating *)

Lemma wp_begin_termination_inner selector k r :
  Inv k r →
  wp (begin_termination_inner selector) r
    (λ ids r', good k r (members r) r' ∧ ∃ sid name s', members r !! sid = Some (name, ids) ∧
       sessions r' !! sid = Some s' ∧ Session.closing s' = true)
    (λ r', r' = r).
Proof.
  intros HI. unfold begin_termination_inner. apply wp_bind, wp_reading.
  pose proof (root_cases _ r selector HI) as Hroot.
  destruct (root r selector) as [s|e|]; [|done|done]. simpl in Hroot. cbv zeta.
  set (sid := Session.id s) in *. apply wp_bind, wp_reading. unfold session. rewrite Hroot. cbn [expect].
  apply wp_bind, wp_on_sessions. set (s' := Session.Mk _ _ _ _). set (r1 := SessionRegistry.Mk _ _ _ _ _).
  pose proof (inv_views _ _ HI _ _ Hroot) as [? Hd Hc Hr Ho].
  assert (Hg : good k r (members r) r1).
  { rewrite <- (members_id r sid s Hroot). change (entry s) with (entry s').
    apply (view_good k k [] r r1 sid s s' HI);
      [done|by apply around_same|exact (inv_store _ _ HI)|done|done|by split_and!|exact Hd|exact Hc|exact Hr|by right]. }
  apply wp_reading. split; [done|]. exists sid, (Session.name s), s'.
  assert (filter (λ id, is_Some (listed r1 id)) (terminal_ids (View.layout (Session.view s))) = ids_of s) as ->.
  { unfold ids_of in *. clear -Ho. induction (terminal_ids _) as [|id l IH]; [done|].
    rewrite filter_cons, decide_True.
    - f_equal. apply IH. intros i Hi. apply Ho. by right.
    - destruct (Ho id) as (t & Ht & _); [left|]. by exists t. }
  split_and!; [by apply members_lookup|cbn; apply lookup_insert_eq|done].
Qed.
End edits.
