(* ===== verification/AttachmentsInv.v ===== *)
(** Attachments keep the registry's invariant and show nothing of a view; a connection
    that has been superseded can no longer end its attachment. *)

From S2P Require Import Prelude.
From S2P Require Import Layout.
From S2P Require Import Topology.
From S2P Require Import Leases.
From S2P Require Import Sessions.
From S2P Require Import Attachments.
From S2P Require Import SessionsWp.
From S2P Require Import SessionsInv.
From S2P Require Import SessionsTopology.
From S2P Require Import SessionsControl.
From S2P Require Import SessionsManage.
From stdpp Require Import strings gmap.

Import SessionRegistry (store, terminals, sessions, pending_names, next_automatic_name).

Section attachments.
Context {St : Type} `{ScreenLaws St}.
Implicit Types (r : SessionRegistry.t St) (t : SessionTerminal.t St).

(** An outcome that leaves every view as it shows *)
Definition unseen (k : N) r r' : Prop :=
  good k r (members r) r' ∧ (∀ id, is_Some (store r !! id) → is_Some (store r' !! id)).

Lemma unseen_refl k r : Inv k r → unseen k r r.
Proof. intros HI. split; [|done]. by apply undone_good, undone_refl. Qed.

Lemma unseen_frame k r r' : Inv k r → frame [] r r' → unseen k r r'.
Proof.
  intros HI Hf. split.
  - eapply good_quiet; [|exact Hf]. by apply undone_good, undone_refl.
  - intros id. by apply (frame_dom _ _ _ _ (frame_store _ _ _ Hf)).
Qed.

Lemma unseen_trans k r1 r2 r3 : unseen k r1 r2 → unseen k r2 r3 → unseen k r1 r3.
Proof.
  intros [[HI2 Ha2 Hm2 Hp2] Hs2] [[HI3 Ha3 Hm3 Hp3] Hs3]. split; [|auto]. split.
  - done.
  - intros sid s1 s3 Hi1 Hi3. assert (is_Some (members r3 !! sid)) as [e3 He3].
    { unfold members. rewrite lookup_fmap, Hi3. by eexists. }
    rewrite Hm3 in He3. unfold members in He3. rewrite lookup_fmap in He3.
    destruct (sessions r2 !! sid) as [s2|] eqn:E2; [|done].
    destruct (Ha2 sid s1 s2 Hi1 E2) as [I1 C1]. destruct (Ha3 sid s2 s3 E2 Hi3) as [I2 C2].
    split; [congruence|]. destruct C1 as [[A1 R1]|R1], C2 as [[A2 R2]|R2].
    + left. split; congruence.
    + right. lia.
    + right. lia.
    + right. lia.
  - congruence.
  - congruence.
Qed.

(** A shared terminal whose leases or attachments have changed *)
Lemma store_change_unseen k r r' id t t' :
  Inv k r → store r !! id = Some t → store r' = <[id := t']> (store r) →
  terminals r' = terminals r → sessions r' = sessions r → pending_names r' = pending_names r →
  SessionTerminal.id t' = SessionTerminal.id t → SessionTerminal.state t' = SessionTerminal.state t →
  SessionTerminal.owner t' = SessionTerminal.owner t → unseen k r r'.
Proof.
  intros HI Ht Es Et Ess Ep Eid Est Eo.
  assert (El : ∀ i ti', listed r' i = Some ti' → ∃ ti, listed r i = Some ti ∧
    SessionTerminal.owner ti' = SessionTerminal.owner ti).
  { intros i ti' [Hin Hti]%listed_Some. rewrite Et in Hin. rewrite Es in Hti.
    destruct (decide (i = id)) as [->|Hne].
    - rewrite lookup_insert_eq in Hti. injection Hti as <-. exists t. split; [|done]. by apply listed_Some.
    - rewrite lookup_insert_ne in Hti by done. exists ti'. split; [|done]. by apply listed_Some. }
  assert (Elf : ∀ i ti, listed r i = Some ti → ∃ ti', listed r' i = Some ti' ∧
    SessionTerminal.owner ti' = SessionTerminal.owner ti).
  { intros i ti [Hin Hti]%listed_Some. destruct (decide (i = id)) as [->|Hne].
    - simplify_eq. exists t'. split; [|done]. apply listed_Some. by rewrite Et, Es, lookup_insert_eq.
    - exists ti. split; [|done]. apply listed_Some. by rewrite Et, Es, lookup_insert_ne. }
  split.
  - assert (Inv k r') as HI'; [|split; [done|by apply advances_same|unfold members; by rewrite Ess|done]].
    split.
    + unfold store_ok. rewrite Es. apply map_Forall_insert_2; [|apply (inv_store _ _ HI)].
      rewrite Eid, Est. by apply (inv_store _ _ HI).
    + intros i. rewrite Et, Es. intros Hi. destruct (decide (i = id)) as [->|Hne].
      * by rewrite lookup_insert_eq.
      * rewrite lookup_insert_ne by done. by apply (inv_stored _ _ HI).
    + rewrite Ess. intros sid s Hs. destruct (inv_views _ _ HI _ _ Hs) as [? ? ? ? Ho]. split; try done.
      intros i Hi. destruct (Ho i Hi) as (ti & Hti & Hown). destruct (Elf i ti Hti) as (ti' & Hti' & E).
      exists ti'. split; [done|]. unfold owned_by. by rewrite E.
    + intros i ti' Hti'. destruct (El i ti' Hti') as (ti & Hti & ->). rewrite Ess. by apply (inv_owner _ _ HI).
  - intros i Hi. rewrite Es. destruct (decide (i = id)) as [->|Hne].
    + by rewrite lookup_insert_eq.
    + by rewrite lookup_insert_ne.
Qed.

(** ** The critical sections *)

Lemma wp_change_leases {E T} self (f : LeaseRegistry.t → T * LeaseRegistry.t) k r (R : _ → Prop) :
  Inv k r → is_Some (store r !! self) →
  wp (E := E) (change_leases self f) r (λ _ r', unseen k r r') R.
Proof.
  intros HI [t Ht]. unfold change_leases. apply wp_bind, wp_reading. unfold shared. rewrite Ht. cbn [expect].
  destruct (f _) as [result leases]. apply wp_bind, wp_on_store, wp_ret.
  by eapply store_change_unseen.
Qed.

Lemma wp_change_attachments {E T} self f k r (R : _ → Prop) :
  Inv k r → is_Some (store r !! self) →
  wp (E := E) (change_attachments (T := T) self f) r
    (λ result r', unseen k r r' ∧ ∃ t, store r !! self = Some t ∧
       result = (f (SessionTerminal.attachments t)).1) R.
Proof.
  intros HI [t Ht]. unfold change_attachments. apply wp_bind, wp_reading. unfold shared. rewrite Ht.
  cbn [expect]. destruct (f _) as [result attachments] eqn:Ef. apply wp_bind, wp_on_store, wp_ret.
  split; [by eapply store_change_unseen|]. exists t. by rewrite Ef.
Qed.

Lemma wp_change_view_leases {E T} self (d : T) f k r (R : _ → Prop) :
  Inv k r → is_Some (store r !! self) →
  wp (E := E) (change_view_leases self d f) r (λ _ r', unseen k r r') R.
Proof.
  intros HI [t Ht]. unfold change_view_leases. apply wp_bind, wp_reading. unfold shared. rewrite Ht.
  cbn [expect]. set (sid := TerminalOwner.session_id _). cbv zeta. apply wp_bind, wp_reading.
  assert (Hpub : ∀ (x : T) r1, unseen k r r1 →
    wp (E := E) (_ ← publish_layout_leases sid; mret x) r1 (λ _ r', unseen k r r') R).
  { intros x r1 Hu. apply wp_bind. wp_use (wp_publish_layout_leases sid r1 (λ _, False)); [|done].
    intros _ r2 Hf. apply wp_ret. destruct Hu as [Hg Hs]. split; [by eapply good_quiet|].
    intros i Hi. apply (frame_dom _ _ _ _ (frame_store _ _ _ Hf)). auto. }
  apply wp_bind. destruct (sessions r !! sid) as [s|] eqn:Hs; [|apply wp_ret; by apply Hpub, unseen_refl].
  destruct (f _) as [result leases]. apply wp_bind, wp_on_sessions, wp_ret, Hpub.
  split; [by eapply (set_leases_quiet k r _ sid s leases)|done].
Qed.

Lemma wp_with_view_leases {E T} self (d : T) f r (Q : T → _ → Prop) (R : _ → Prop) :
  is_Some (store r !! self) → (∀ x, Q x r) → wp (E := E) (with_view_leases self d f) r Q R.
Proof.
  intros [t Ht] HQ. unfold with_view_leases. apply wp_bind, wp_reading. unfold shared. rewrite Ht.
  cbn [expect]. by apply wp_reading.
Qed.

Lemma unseen_inv k r r' : unseen k r r' → Inv k r'.
Proof. by intros [[] _]. Qed.

Lemma unseen_shared k r r' id : unseen k r r' → is_Some (store r !! id) → is_Some (store r' !! id).
Proof. intros [_ Hs]. apply Hs. Qed.

(** ** The operations *)

Lemma wp_create_attachment {E} self att candidates i l peer k r (R : _ → Prop) :
  Inv k r → is_Some (store r !! self) →
  (∀ t, store r !! self = Some t → is_Some (pick_token candidates (SessionTerminal.attachments t))) →
  wp (E := E) (create_attachment_inner self att candidates i l peer) r (λ _ r', unseen k r r') R.
Proof.
  intros HI Hself Htok. unfold create_attachment_inner, register. apply wp_bind, wp_bind.
  wp_use (wp_change_attachments self _ k r (λ _, False)); [done..| |done].
  intros token r1 [Hu1 (t & Ht & ->)]. apply wp_lift. destruct (Htok t Ht) as [token Etok]. unfold enroll. rewrite Etok. cbn.
  apply wp_bind.
  wp_use (wp_change_leases self _ k r1 (λ _, False)); [by eapply unseen_inv|by eapply unseen_shared| |done].
  intros leases r2 Hu2. apply wp_bind. pose proof (unseen_trans _ _ _ _ Hu1 Hu2) as Hu12.
  wp_use (wp_change_view_leases self no_lease _ k r2 (λ _, False));
    [by eapply unseen_inv|by eapply unseen_shared| |done].
  intros layout r3 Hu3. apply wp_ret. by eapply unseen_trans.
Qed.

Lemma wp_resume_attachment {E} self token peer k r (R : _ → Prop) :
  Inv k r → is_Some (store r !! self) →
  wp (E := E) (resume_attachment_inner self token peer) r (λ _ r', unseen k r r') R.
Proof.
  intros HI Hself. unfold resume_attachment_inner. apply wp_bind.
  wp_use (wp_change_attachments self _ k r (λ _, False)); [done..| |done].
  intros rebound r1 [Hu1 _]. destruct rebound as [[att generation]|]; [|by apply wp_ret].
  apply wp_bind.
  wp_use (wp_change_leases self _ k r1 (λ _, False)); [by eapply unseen_inv|by eapply unseen_shared| |done].
  intros input r2 Hu2. pose proof (unseen_trans _ _ _ _ Hu1 Hu2) as Hu12.
  apply wp_bind. apply wp_with_view_leases; [by eapply unseen_shared|]. intros layout. by apply wp_ret.
Qed.

Lemma wp_leave {E} expire self token generation k r (R : _ → Prop) :
  Inv k r → is_Some (store r !! self) →
  wp (E := E) (Attachments.leave expire self token generation) r (λ _ r', unseen k r r') R.
Proof.
  intros HI Hself. unfold Attachments.leave. apply wp_bind.
  wp_use (wp_change_attachments self _ k r (λ _, False)); [done..| |done].
  intros dropped r1 [Hu1 _]. destruct dropped as [att|]; [|by apply wp_ret].
  apply wp_bind. wp_use (wp_change_leases self _ k r1 (λ _, False));
    [by eapply unseen_inv|by eapply unseen_shared| |done].
  intros _ r2 Hu2. pose proof (unseen_trans _ _ _ _ Hu1 Hu2) as Hu12. apply wp_bind.
  wp_use (wp_change_view_leases self () _ k r2 (λ _, False));
    [by eapply unseen_inv|by eapply unseen_shared| |done].
  intros _ r3 Hu3. apply wp_ret. by eapply unseen_trans.
Qed.

Lemma wp_lease {E} self att kind (acquire : bool) k r (R : _ → Prop) :
  Inv k r → is_Some (store r !! self) →
  wp (E := E) (if acquire then acquire_lease_inner self att kind else release_lease_inner self att kind) r
    (λ _ r', unseen k r r') R.
Proof.
  intros HI Hself. unfold acquire_lease_inner, release_lease_inner.
  destruct acquire, (decide (kind = LayoutLease)); (by apply wp_change_view_leases || by apply wp_change_leases).
Qed.
End attachments.

(** * Superseded connections *)

(** The events of a terminal's attachments, each one critical section *)
Inductive attachment_event :=
  | Enrolls (attachment_id : string) (candidates : list string) (peer : AttachmentPeer)
  | Rebinds (token : string) (peer : option AttachmentPeer)
  | Suspends (token : string) (generation : N)
  | Drops (expire : bool) (token : string) (generation : N).

Definition attachment_step (e : attachment_event) (m : gmap string AttachmentRecord.t) :
    gmap string AttachmentRecord.t :=
  match e with
  | Enrolls att candidates peer => (enroll att candidates peer m).2
  | Rebinds token peer => (rebind token peer m).2
  | Suspends token generation => (suspend token generation m).2
  | Drops expire token generation => (drop_record expire token generation m).2
  end.

(** The event does not come from the connection of generation [g] of the token, or from a
    later one. *)
Definition stale (token : string) (g : N) (e : attachment_event) : Prop :=
  match e with
  | Suspends token' g' | Drops _ token' g' => token' = token → (g' < g)%N
  | _ => True
  end.

(** The attachment is connected, in generation [g] or a later one. *)
Definition connected_since (token : string) (att : string) (g : N) (m : gmap string AttachmentRecord.t) : Prop :=
  ∃ record, m !! token = Some record ∧ AttachmentRecord.attachment_id record = att ∧
    (g ≤ AttachmentRecord.generation record)%N ∧ AttachmentRecord.connected record = true.

Lemma pick_token_new candidates m token : pick_token candidates m = Some token → m !! token = None.
Proof.
  induction candidates as [|c l IH]; [done|]. cbn. destruct (decide _) as [|Hn]; [done|].
  intros [= <-]. by apply eq_None_not_Some.
Qed.

Lemma connected_other token att g m token' record :
  token' ≠ token → connected_since token att g m → connected_since token att g (<[token' := record]> m).
Proof. intros Hne (r & Hr & ?). exists r. by rewrite lookup_insert_ne. Qed.

Lemma stale_step token att g e m :
  stale token g e → connected_since token att g m → connected_since token att g (attachment_step e m).
Proof.
  intros Hst Hc. pose proof Hc as (r & Hr & Hatt & Hg & Hconn).
  destruct e as [att' candidates peer|token' peer|token' g'|expire token' g']; cbn [attachment_step].
  - unfold enroll. destruct (pick_token candidates m) as [t|] eqn:Ep; [|done]. apply pick_token_new in Ep.
    apply connected_other; [congruence|done].
  - unfold rebind. destruct (m !! token') as [r'|] eqn:Er; [|done].
    unfold succ64. destruct (decide _) as [Hlt|]; [|done]. cbn.
    destruct (decide (token' = token)) as [->|Hne]; [|by apply connected_other]. simplify_eq.
    eexists. rewrite lookup_insert_eq. split_and!; [done..|cbn; lia|done].
  - unfold suspend. destruct (m !! token') as [r'|] eqn:Er; [|done].
    destruct (decide (token' = token)) as [->|Hne].
    + simplify_eq. specialize (Hst eq_refl). rewrite (bool_decide_false (_ = _)) by lia. done.
    + destruct (_ || _); [done|by apply connected_other].
  - unfold drop_record. destruct (m !! token') as [r'|] eqn:Er; [|done].
    destruct (decide (token' = token)) as [->|Hne].
    + simplify_eq. specialize (Hst eq_refl). rewrite (bool_decide_false (_ = _)) by lia. done.
    + destruct (_ || _); [done|]. exists r. cbn. by rewrite lookup_delete_ne.
Qed.

Lemma stale_steps token att g es m :
  Forall (stale token g) es → connected_since token att g m →
  connected_since token att g (foldl (λ m e, attachment_step e m) m es).
Proof.
  intros Hes. revert m. induction Hes as [|e es He _ IH]; intros m Hc; [done|]. by apply IH, stale_step.
Qed.
