(* ===== verification/SessionsRun.v ===== *)
(** The registry as a machine: the requests it serves one after another, what each does to
    the sessions and their terminals, the registries they reach, and that every request
    keeps the invariant and has its effect. *)

From S2P Require Import Prelude.
From S2P Require Import Layout.
From S2P Require Import Topology.
From S2P Require Import TopologyInv.
From S2P Require Import Leases.
From S2P Require Import Sessions.
From S2P Require Import Attachments.
From S2P Require Import SessionsWp.
From S2P Require Import SessionsInv.
From S2P Require Import SessionsControl.
From S2P Require Import SessionsTopology.
From S2P Require Import SessionsManage.
From S2P Require Import SessionsLifecycle.
From S2P Require Import SessionsEdits.
From S2P Require Import AttachmentsInv.
From stdpp Require Import strings gmap.

Import SessionRegistry (store, terminals, sessions, pending_names, next_automatic_name).

(** * Requests *)

(** [self] is the terminal the client is attached to and [att] its attachment; new
    identifiers, times, started processes and random candidates come with the request. *)
Inductive Request (St : Type) :=
  | Create (name : option string) (placement : option (string * SplitAxis)) (managed : bool)
      (id sid vid : string) (now : N) (spawned : outcome SessionManagerError (Spawned.t St))
  | SplitPane (target : string) (axis : SplitAxis) (id sid vid : string) (now : N)
      (spawned : outcome SessionManagerError (Spawned.t St))
  | EndProcess (id : string) (exit_code : option N)
  | ResizeView (self att : string) (size : TerminalSize.t)
  | ResizePane (self att id : string) (direction : ResizeDirection) (amount : N)
  | ResizeDivider (self att : string) (divider : DividerResize.t)
  | SwapPane (self att : string) (target : PaneTarget.t) (previous : bool)
  | Zoom (self att : string) (id : option string)
  | PromoteTerminal (id : string) (name : option string) (sid vid : string) (now : N)
  | BreakPane (self att : string) (target : PaneTarget.t) (name : option string) (sid vid : string) (now : N)
  | MergeSessions (source destination : string)
  | UpdateView (selector : string) (expected_revision : N) (layout : ViewLayout)
  | Rename (selector name : string)
  | BeginTermination (selector : string)
  | Attach (self att : string) (candidates : list string) (input layout : bool) (peer : AttachmentPeer)
  | Resume (self token : string) (peer : option AttachmentPeer)
  | Suspend (self token : string) (generation : N)
  | Detach (expire : bool) (self token : string) (generation : N)
  | Lease (acquire : bool) (self att : string) (kind : LeaseKind).
Arguments Create {St}. Arguments SplitPane {St}. Arguments EndProcess {St}. Arguments ResizeView {St}.
Arguments ResizePane {St}. Arguments ResizeDivider {St}. Arguments SwapPane {St}. Arguments Zoom {St}.
Arguments PromoteTerminal {St}. Arguments BreakPane {St}. Arguments MergeSessions {St}.
Arguments UpdateView {St}. Arguments Rename {St}. Arguments BeginTermination {St}.
Arguments Attach {St}. Arguments Resume {St}. Arguments Suspend {St}. Arguments Detach {St}.
Arguments Lease {St}.

(** What was served, without the answer *)
Definition served {St E A} (m : action St E A) : action St () () :=
  mapping (λ _, ()) (_ ← m; mret ()).

Section run.
Context {St : Type} `{Screen St}.

Definition run (q : Request St) : action St () () :=
  match q with
  | Create name placement managed id sid vid now spawned =>
      served (create_terminal name placement managed id sid vid now spawned)
  | SplitPane target axis id sid vid now spawned =>
      served (split_terminal_inner target axis id sid vid now spawned)
  | EndProcess id exit_code => process_ended id exit_code
  | ResizeView self att size => served (resize_inner self att size)
  | ResizePane self att id direction amount => served (resize_pane_inner self att id direction amount)
  | ResizeDivider self att divider => served (resize_divider_inner self att divider)
  | SwapPane self att target previous => served (swap_pane_inner self att target previous)
  | Zoom self att id => served (set_view_zoom_inner self att id)
  | PromoteTerminal id name sid vid now => served (promote_terminal_inner id name sid vid now)
  | BreakPane self att target name sid vid now => served (break_pane_inner self att target name sid vid now)
  | MergeSessions source destination => served (merge_sessions_inner source destination)
  | UpdateView selector expected layout => served (update_view_inner selector expected layout)
  | Rename selector name => served (rename_inner selector name)
  | BeginTermination selector => served (begin_termination_inner selector)
  | Attach self att candidates i l peer =>
      served (E := ()) (create_attachment_inner self att candidates i l peer)
  | Resume self token peer => served (E := ()) (resume_attachment_inner self token peer)
  | Suspend self token generation => served (E := ()) (suspend_attachment_inner self token generation)
  | Detach expire self token generation =>
      served (E := ()) (Attachments.leave expire self token generation)
  | Lease acquire self att kind =>
      served (E := ()) (if acquire then acquire_lease_inner self att kind else release_lease_inner self att kind)
  end.
End run.

(** * What the requests do *)

(** No session has the name. *)
Definition unnamed (m : topology) (name : string) : Prop := map_Forall (λ _ e, e.1 ≠ name) m.

(** The effect of a request that succeeds on the sessions' names and their terminals, in
    the order of the layouts *)
Inductive effect {St} (m : topology) : Request St → topology → Prop :=
  | effect_create requested managed id sid vid now spawned name :
      unnamed m name → default name requested = name → m !! sid = None →
      effect m (Create requested None managed id sid vid now spawned) (<[sid := (name, [id])]> m)
  | effect_create_split requested target axis managed id sid vid now spawned owner name ids :
      m !! owner = Some (name, ids) → target ∈ ids →
      effect m (Create requested (Some (target, axis)) managed id sid vid now spawned)
        (<[owner := (name, split_ids target id ids)]> m)
  | effect_split target axis id sid vid now spawned owner name ids :
      m !! owner = Some (name, ids) → target ∈ ids →
      effect m (SplitPane target axis id sid vid now spawned) (<[owner := (name, split_ids target id ids)]> m)
  | effect_end id exit_code owner name ids :
      m !! owner = Some (name, ids) → id ∈ ids → effect m (EndProcess id exit_code) (leave owner id m)
  | effect_end_unlisted id exit_code :
      map_Forall (λ _ e, id ∉ e.2) m → effect m (EndProcess id exit_code) m
  | effect_swap self att target previous owner name ids ids' :
      m !! owner = Some (name, ids) → swapped (PaneTarget.terminal_id target) previous ids ids' →
      effect m (SwapPane self att target previous) (<[owner := (name, ids')]> m)
  | effect_promote id requested sid vid now name owner old ids :
      m !! owner = Some (old, ids) → id ∈ ids →
      unnamed m name → default name requested = name → m !! sid = None →
      effect m (PromoteTerminal id requested sid vid now) (<[sid := (name, [id])]> (leave owner id m))
  | effect_break self att target requested sid vid now name owner old ids :
      m !! owner = Some (old, ids) → PaneTarget.terminal_id target ∈ ids →
      unnamed m name → default name requested = name → m !! sid = None →
      effect m (BreakPane self att target requested sid vid now)
        (<[sid := (name, [PaneTarget.terminal_id target])]> (leave owner (PaneTarget.terminal_id target) m))
  | effect_merge source destination src dst sname dname sids dids :
      selects m source src → selects m destination dst → src ≠ dst → m !! src = Some (sname, sids) → m !! dst = Some (dname, dids) →
      effect m (MergeSessions source destination) (<[dst := (dname, dids ++ sids)]> (delete src m))
  | effect_update selector expected layout owner name ids :
      selects m selector owner → m !! owner = Some (name, ids) → LayoutExt.terminal_ids layout ≡ₚ ids →
      effect m (UpdateView selector expected layout)
        (<[owner := (name, LayoutExt.terminal_ids layout)]> m)
  | effect_rename selector name owner old ids :
      selects m selector owner → m !! owner = Some (old, ids) → name = old ∨ unnamed m name →
      effect m (Rename selector name) (<[owner := (name, ids)]> m)
  | effect_none q :
      match q with
      | Create _ _ _ _ _ _ _ _ | SplitPane _ _ _ _ _ _ _ | EndProcess _ _ | SwapPane _ _ _ _
      | PromoteTerminal _ _ _ _ _ | BreakPane _ _ _ _ _ _ _ | MergeSessions _ _ | UpdateView _ _ _
      | Rename _ _ => False
      | _ => True
      end → effect m q m.

(** The requests whose change stays when they fail afterwards: because a terminal refuses its
    new size, or because the threads of a started process do not start *)
Definition keeps_change {St} (q : Request St) : Prop :=
  match q with
  | Create _ placement _ _ _ _ _ spawned => is_Some placement ∨ stranded spawned
  | SplitPane _ _ _ _ _ _ _ | MergeSessions _ _ | UpdateView _ _ _ => True
  | _ => False
  end.

(** The requests that undo what they did when they fail *)
Definition undoes {St} (q : Request St) : bool :=
  match q with
  | ResizePane _ _ _ _ _ | ResizeDivider _ _ _ | SwapPane _ _ _ _ | Zoom _ _ _
  | BreakPane _ _ _ _ _ _ _ | Rename _ _ | BeginTermination _ => true
  | _ => false
  end.

(** * What they need *)

Section admissible.
Context {St : Type} `{ScreenLaws St}.
Implicit Types (r : SessionRegistry.t St).

(** New identifiers are new, terminals are those of the store, sizes can be drawn on, a
    random token is found, a started process has a sound screen with room for [k] changes. *)
Definition admissible (k : N) (q : Request St) r : Prop :=
  match q with
  | Create _ _ _ id sid _ _ spawned | SplitPane _ _ id sid _ _ spawned =>
      store r !! id = None ∧ sessions r !! sid = None ∧ spawned ⇓? (λ process, screen_ok k (Spawned.state process))
  | EndProcess id _ => is_Some (store r !! id)
  | ResizeView self _ size => is_Some (store r !! self) ∧ u16_size size
  | ResizePane self _ _ _ _ | ResizeDivider self _ _ | SwapPane self _ _ _ | Zoom self _ _
  | Resume self _ _ | Suspend self _ _ | Detach _ self _ _ | Lease _ self _ _ => is_Some (store r !! self)
  | PromoteTerminal _ _ sid _ _ => sessions r !! sid = None
  | BreakPane self _ _ _ sid _ _ => is_Some (store r !! self) ∧ sessions r !! sid = None
  | MergeSessions _ _ | UpdateView _ _ _ | Rename _ _ | BeginTermination _ => True
  | Attach self _ candidates _ _ _ => ∃ t, store r !! self = Some t ∧
      is_Some (pick_token candidates (SessionTerminal.attachments t))
  end.

(** The registries reached from the empty one when at most [n] more requests will be
    served; every counter moves by three at most. *)
Definition room (n : N) : N := (3 * n)%N.

Inductive reached : N → SessionRegistry.t St → Prop :=
  | reached_empty n : (room n ≤ u64_MAX)%N → reached n SessionRegistry.default
  | reached_request n q r : reached (n + 1) r → admissible (room (n + 1)) q r → reached n (run q r).2.
End admissible.

Import SessionRegistry (store, terminals, sessions, pending_names, next_automatic_name).

Section serve.
Context {St : Type} `{ScreenLaws St}.
Implicit Types (r : SessionRegistry.t St) (t : SessionTerminal.t St).

Lemma wp_served {E A} (m : action St E A) r (Q : () → _ → Prop) R :
  wp m r (λ _ r', Q () r') R → wp (served m) r Q R.
Proof.
  intros Hm. apply wp_mapping, wp_bind. eapply wp_mono; [exact Hm| |done]. intros a r' HQ. by apply wp_ret.
Qed.

(** What serving a request comes to *)
Definition done_well (k : N) (q : Request St) r r' : Prop :=
  ∃ m, good k r m r' ∧ effect (members r) q m.

Definition failed_well (k : N) (q : Request St) r r' : Prop :=
  (if undoes q then undone k r r' else good k r (members r) r') ∨ keeps_change q ∧ done_well k q r r'.

Lemma undone_well k q r r' : undone k r r' → failed_well k q r r'.
Proof. intros Hu. left. destruct (undoes q); [done|by apply undone_good]. Qed.

Lemma taken_unnamed r name : name ∉ taken r → unnamed (members r) name.
Proof.
  intros Hn sid e He. unfold members in He. apply lookup_fmap_Some in He as (s & <- & Hs). cbn.
  intros E. apply Hn, elem_of_taken. right. eauto.
Qed.

Lemma members_none r sid : sessions r !! sid = None → members r !! sid = None.
Proof. intros Hs. unfold members. by rewrite lookup_fmap, Hs. Qed.

Lemma listed_member k r id t : Inv k r → listed r id = Some t →
  ∃ name ids, members r !! TerminalOwner.session_id (SessionTerminal.owner t) = Some (name, ids) ∧ id ∈ ids.
Proof.
  intros HI Ht. destruct (inv_owner _ _ HI id t Ht) as (s & Hs & Hin).
  exists (Session.name s), (ids_of s). split; [by apply members_lookup|done].
Qed.

Lemma unlisted_member k r id : Inv k r → listed r id = None → map_Forall (λ _ e, id ∉ e.2) (members r).
Proof.
  intros HI Ht sid e He Hin. unfold members in He. apply lookup_fmap_Some in He as (s & <- & Hs).
  destruct (view_ids_listed _ _ _ _ _ HI Hs Hin). congruence.
Qed.

(** ** Requests that move no terminal *)

Lemma serve_quiet k q r : Inv k r →
  match q with
  | Create _ _ _ _ _ _ _ _ | SplitPane _ _ _ _ _ _ _ | EndProcess _ _ | SwapPane _ _ _ _
  | PromoteTerminal _ _ _ _ _ | BreakPane _ _ _ _ _ _ _ | MergeSessions _ _ | UpdateView _ _ _
  | Rename _ _ => False
  | _ => True
  end → ∀ r', good k r (members r) r' → done_well k q r r'.
Proof. intros _ Hq r' Hg. exists (members r). split; [done|by apply effect_none]. Qed.

Lemma wp_attachment {A} q (m : action St () A) k r :
  undoes q = false → (∀ r', good k r (members r) r' → done_well k q r r') →
  wp m r (λ _ r', unseen k r r') (λ _, False) →
  wp (served m) r (λ _ r', done_well k q r r') (λ r', failed_well k q r r').
Proof.
  intros Hq Hd Hm. apply wp_served. eapply wp_mono; [exact Hm| |done]. intros _ r' [Hg _]. by apply Hd.
Qed.

(** ** Requests that do *)

Lemma created_effect k requested placement managed id sid vid now spawned r r' :
  sessions r !! sid = None → created k requested placement id sid r r' →
  done_well k (Create requested placement managed id sid vid now spawned) r r'.
Proof.
  intros Hsid. destruct placement as [[target axis]|].
  - intros (owner & nm & ids & Hm & Hin & Hg). eexists. split; [exact Hg|]. by eapply effect_create_split.
  - intros (name & Hfresh & Hreq & Hg). eexists. split; [exact Hg|].
    eapply effect_create; [by apply taken_unnamed|done|by apply members_none].
Qed.

Lemma created_split k target axis id sid vid now spawned r r' :
  created k None (Some (target, axis)) id sid r r' →
  done_well k (SplitPane target axis id sid vid now spawned) r r'.
Proof.
  intros (owner & nm & ids & Hm & Hin & Hg). eexists. split; [exact Hg|]. by eapply effect_split.
Qed.

Lemma merged_effect k source destination r r' :
  merged k source destination r r' → done_well k (MergeSessions source destination) r r'.
Proof.
  intros (src & dst & sname & dname & sids & dids & Hss & Hsd & Hne & Hs & Hd & Hg). eexists. split; [exact Hg|].
  by eapply effect_merge.
Qed.

Lemma rearranged_effect k selector expected layout r r' :
  rearranged k selector (LayoutExt.terminal_ids layout) r r' → done_well k (UpdateView selector expected layout) r r'.
Proof.
  intros (sid & name & ids & Hsel & Hs & Hp & Hg). eexists. split; [exact Hg|]. by eapply effect_update.
Qed.

Lemma wp_resolve selector k r Q R :
  Inv k r → (∀ t, Q t r) → R r → wp (resolve selector) r Q R.
Proof.
  intros HI HQ HR. unfold resolve. apply wp_reading. destruct (listed r selector) as [t|]; [apply HQ|].
  pose proof (root_cases k r selector HI) as Hroot. destruct (root r selector) as [s|e|]; [|done|done].
  cbn [mbind outcome_bind]. destruct (inv_views _ _ HI _ _ Hroot) as [_ Hd _ _ _].
  destruct (first_terminal_total _ (drawable_wf _ _ Hd)) as (id & -> & _). cbn.
  destruct (listed r id) as [t|]; cbn; [apply HQ|done].
Qed.

Lemma wp_end_process {E} id exit_code k r :
  Inv (k + 1) r → is_Some (store r !! id) →
  wp (E := E) (process_ended id exit_code) r (λ _ r', done_well k (EndProcess id exit_code) r r') (λ _, False).
Proof.
  intros HI [t Ht]. unfold process_ended, on_terminal. apply wp_bind, wp_bind, wp_reading.
  unfold shared. rewrite Ht. cbn [expect]. apply wp_on_store.
  set (t' := if decide _ then _ else t). set (r1 := SessionRegistry.Mk _ _ _ _ _).
  assert (Hkept : SessionTerminal.id t' = SessionTerminal.id t ∧ SessionTerminal.state t' = SessionTerminal.state t ∧
    SessionTerminal.owner t' = SessionTerminal.owner t) by (unfold t'; by destruct (decide _)).
  destruct Hkept as (? & ? & Ho).
  assert (Hu : unseen (k + 1) r r1) by by eapply store_change_unseen.
  destruct Hu as [[HI1 Ha1 Hm1 Hp1] _].
  wp_use (wp_remove_terminal id k r1 (λ _, False)); [done| |done]. intros _ r2 [[HI2 Ha2 Hm2 Hp2] _].
  assert (Hg : good k r (members r2) r2).
  { split; [done|exact Ha2|done|congruence]. }
  exists (members r2). split; [done|]. rewrite Hm2, Hm1. unfold listed. cbn [terminals r1 store].
  destruct (decide (id ∈ terminals r)) as [Hin|Hout].
  - rewrite lookup_insert_eq, Ho. destruct (listed_member (k + 1) r id t) as (name & ids & Hm & Hids); [done|by apply listed_Some|].
    by eapply effect_end.
  - eapply effect_end_unlisted, unlisted_member; [done|]. unfold listed. by rewrite decide_False.
Qed.

(** Every request *)
Lemma wp_run k q r :
  Inv (k + 3) r → (k + 3 ≤ u64_MAX)%N → admissible (k + 3) q r →
  wp (run q) r (λ _ r', done_well k q r r') (λ r', failed_well k q r r').
Proof.
  intros HI Hmax. assert (HI2 : Inv (k + 2) r) by (eapply Inv_mono; [|exact HI]; lia).
  assert (HI1 : Inv (k + 1) r) by (eapply Inv_mono; [|exact HI]; lia).
  assert (HI0 : Inv k r) by (eapply Inv_mono; [|exact HI]; lia).
  destruct q as [name placement managed id sid vid now spawned|target axis id sid vid now spawned|id code
    |self att size|self att id direction amount|self att divider|self att target previous|self att id
    |id name sid vid now|self att target name sid vid now|source destination|selector expected layout
    |selector name|selector|self att candidates i l peer|self token peer|self token generation
    |expire self token generation|acquire self att kind]; cbn [admissible run].
  - intros (Hid & Hsid & Hsp). apply wp_served.
    wp_use (wp_create_terminal name placement managed id sid vid now spawned k r); [done|lia|done|done| | |].
    + destruct spawned as [process|e|]; [|done|done]. eapply screen_ok_mono; [|exact Hsp]. lia.
    + intros _ r' Hc. by apply created_effect.
    + intros r' [Hg|[Hpl Hc]]; [by left|]. right. split; [done|]. by apply created_effect.
  - intros (Hid & Hsid & Hsp). apply wp_served. unfold split_terminal_inner. apply wp_bind.
    eapply wp_resolve; [exact HI0| |by left; apply undone_good, undone_refl]. intros _.
    wp_use (wp_create_terminal None (Some (target, axis)) false id sid vid now spawned k r); [done|lia|done|done| | |].
    + destruct spawned as [process|e|]; [|done|done]. eapply screen_ok_mono; [|exact Hsp]. lia.
    + intros _ r' Hc. by eapply created_split.
    + intros r' [Hg|[_ Hc]]; [by left|]. right. split; [done|]. by eapply created_split.
  - intros Hid. wp_use (wp_end_process id code k r); [done|done|auto|done].
  - intros [Hself Hsize]. apply wp_served. wp_use (wp_resize_inner self att size k r); [done|done|done| |].
    + intros _ r' Hg. by apply (serve_quiet k).
    + intros r' [Hg _]. by left.
  - intros Hself. apply wp_served.
    wp_use (wp_resize_pane_inner self att id direction amount k r); [done|done| |intros; by apply undone_well].
    intros _ r' Hg. by apply (serve_quiet k).
  - intros Hself. apply wp_served.
    wp_use (wp_resize_divider_inner self att divider k r); [done|done| |intros; by apply undone_well].
    intros _ r' Hg. by apply (serve_quiet k).
  - intros Hself. apply wp_served.
    wp_use (wp_swap_pane_inner self att target previous k r); [done|done| |intros; by apply undone_well].
    intros _ r' (sid & name & ids & ids' & Hm & Hsw & Hg). eexists. split; [exact Hg|]. by eapply effect_swap.
  - intros Hself. apply wp_served.
    wp_use (wp_set_view_zoom_inner self att id k r); [done|done| |intros; by apply undone_well].
    intros _ r' [Hg _]. by apply (serve_quiet k).
  - intros Hsid. apply wp_served.
    wp_use (wp_promote_terminal_inner id name sid vid now k r); [done|done| |intros; by left].
    intros _ r' (t & nm & Ht & Hfresh & Hreq & Hg).
    destruct (listed_member k r id t HI0 Ht) as (old & ids & Hm & Hin). eexists. split; [exact Hg|].
    eapply effect_promote; [done|done|by apply taken_unnamed|done|by apply members_none].
  - intros [Hself Hsid]. apply wp_served.
    wp_use (wp_break_pane_inner self att target name sid vid now k r);
      [done|done|done| |intros; by apply undone_well].
    intros _ r' (src & s & nm & _ & Hs & Hin & Hfresh & Hreq & Hg). eexists. split; [exact Hg|].
    eapply effect_break; [by apply members_lookup|done|by apply taken_unnamed|done|by apply members_none].
  - intros _. apply wp_served. wp_use (wp_merge_sessions_inner source destination k r); [done| |].
    + intros _ r' Hm. by apply merged_effect.
    + intros r' [Hu|Hm]; [by apply undone_well|]. right. split; [done|]. by apply merged_effect.
  - intros _. apply wp_served. wp_use (wp_update_view_inner selector expected layout k r); [done| |].
    + intros _ r' Hm. by apply rearranged_effect.
    + intros r' [Hu|Hm]; [by apply undone_well|]. right. split; [done|]. by apply rearranged_effect.
  - intros _. apply wp_served.
    wp_use (wp_rename_inner selector name k r); [done| |intros; by apply undone_well].
    intros _ r' (sid & old & ids & Hsel & Hm & Hname & Hg). eexists. split; [exact Hg|].
    eapply effect_rename; [done|done|]. destruct Hname; [by left|right; by apply taken_unnamed].
  - intros _. apply wp_served. wp_use (wp_begin_termination_inner selector k r); [done| |].
    + intros _ r' [Hg _]. by apply (serve_quiet k).
    + intros r' ->. by apply undone_well, undone_refl.
  - intros (t & Ht & Htok). eapply (wp_attachment _ _ k); [done|intros; by apply (serve_quiet k)|].
    apply wp_create_attachment; [done|by eexists|]. intros t' Ht'. by simplify_eq.
  - intros Hself. eapply (wp_attachment _ _ k); [done|intros; by apply (serve_quiet k)|].
    by apply wp_resume_attachment.
  - intros Hself. eapply (wp_attachment _ _ k); [done|intros; by apply (serve_quiet k)|].
    wp_use (wp_change_attachments self (suspend token generation) k r (λ _, False)); [done|done|by intros ? ? []|done].
  - intros Hself. eapply (wp_attachment _ _ k); [done|intros; by apply (serve_quiet k)|]. by apply wp_leave.
  - intros Hself. eapply (wp_attachment _ _ k); [done|intros; by apply (serve_quiet k)|]. by apply wp_lease.
Qed.
End serve.
