(* ===== verification/SessionTheorems.v ===== *)
(** The properties of the session registry: whatever requests it serves, it does not panic
    and stays well formed, it does to the sessions what its requests say, and what fails
    is undone. *)

From S2P Require Import Prelude.
From S2P Require Import Layout.
From S2P Require Import Topology.
From S2P Require Import TopologyInv.
From S2P Require Import Leases.
From S2P Require Import Sessions.
From S2P Require Import Attachments.
From S2P Require Import SessionsWp.
From S2P Require Import SessionsInv.
From S2P Require Import SessionsControl.
From S2P Require Import SessionsTopology.
From S2P Require Import SessionsManage.
From S2P Require Import SessionsLifecycle.
From S2P Require Import SessionsEdits.
From S2P Require Import AttachmentsInv.
From S2P Require Import SessionsRun.
From stdpp Require Import strings gmap.

Import SessionRegistry (store, terminals, sessions, pending_names, next_automatic_name).

(** * Served registries *)

Section served.
Context {St : Type} `{ScreenLaws St}.
Implicit Types (r : SessionRegistry.t St) (t : SessionTerminal.t St).

Lemma served_registry n q r :
  Inv (room (n + 1)) r → (room (n + 1) ≤ u64_MAX)%N → admissible (room (n + 1)) q r →
  wp (run q) r (λ _ r', done_well (room n) q r r') (λ r', failed_well (room n) q r r').
Proof. unfold room. intros HI Hle Ha. replace (3 * (n + 1))%N with (3 * n + 3)%N in * by lia. by apply wp_run. Qed.

Lemma done_good k q r r' : done_well k q r r' → good k r (members r') r' ∧ effect (members r) q (members r').
Proof. intros (m & Hg & He). by rewrite (good_members _ _ _ _ Hg). Qed.

Lemma failed_good k q r r' : failed_well k q r r' → good k r (members r') r' ∧
  (members r' = members r ∨ keeps_change q ∧ effect (members r) q (members r')).
Proof.
  intros [Hl|[Hk Hd]].
  - assert (Hg : good k r (members r) r') by (destruct (undoes q); [by apply undone_good|done]).
    rewrite (good_members _ _ _ _ Hg). by split; [|left].
  - apply done_good in Hd as [Hg He]. by split; [|right].
Qed.

Lemma step_good n q r :
  Inv (room (n + 1)) r → (room (n + 1) ≤ u64_MAX)%N → admissible (room (n + 1)) q r →
  good (room n) r (members (run q r).2) (run q r).2.
Proof.
  intros HI Hle Ha. pose proof (served_registry n q r HI Hle Ha) as Hw. unfold wp in Hw.
  destruct (run q r) as [[[]|[]|] r']; [by apply done_good in Hw as []|by apply failed_good in Hw as []|done].
Qed.

Lemma reached_room n r : reached n r → (room n ≤ u64_MAX)%N.
Proof. induction 1; [done|]. unfold room in *. lia. Qed.

Lemma Inv_empty k : Inv k (SessionRegistry.default (St := St)).
Proof.
  split.
  - by apply map_Forall_empty.
  - intros id Hid. by apply elem_of_empty in Hid.
  - by apply map_Forall_empty.
  - intros id t [Hid _]%listed_Some. by apply elem_of_empty in Hid.
Qed.

Lemma reached_inv n r : reached n r → Inv (room n) r ∧ pending_names r = ∅.
Proof.
  induction 1 as [n|n q r Hr [HI Hp] Ha]; [by split; [apply Inv_empty|]|].
  pose proof (step_good n q r HI (reached_room _ _ Hr) Ha) as Hg.
  split; [exact (good_inv _ _ _ _ Hg)|]. by rewrite (good_pending _ _ _ _ Hg).
Qed.

Lemma reached_step n q r : reached (n + 1) r → admissible (room (n + 1)) q r →
  wp (run q) r (λ _ r', done_well (room n) q r r') (λ r', failed_well (room n) q r r').
Proof.
  intros Hr Ha. apply served_registry; [by destruct (reached_inv _ _ Hr)|by eapply reached_room|done].
Qed.
End served.

(** A resize of the whole view *)
Definition resizes {St} (q : Request St) : bool := match q with ResizeView _ _ _ => true | _ => false end.

Lemma failed_resize {St} `{ScreenLaws St} n q (r r' : SessionRegistry.t St) :
  reached (n + 1) r → admissible (room (n + 1)) q r → resizes q = true → run q r = (Err (), r') → sessions r' = sessions r.
Proof.
  intros Hr Hq Hz Hf. destruct q as [| | |self att size| | | | | | | | | | | | | | |]; try done. cbn [run admissible] in Hf, Hq.
  destruct (reached_inv _ _ Hr) as [HI _]. destruct Hq as [Hself Hsize].
  assert (wp (resize_inner self att size) r (λ _ _, True) (λ r', sessions r' = sessions r)) as Hw.
  { wp_use (wp_resize_inner self att size (room (n + 1) - 1) r); [|done|done|done|by intros r1 []].
    eapply Inv_mono; [|exact HI]. unfold room. lia. }
  apply (wp_served _ _ (λ _ _, True)) in Hw. unfold wp in Hw. by rewrite Hf in Hw.
Qed.

(** ** Names *)

Definition unique_names (m : topology) : Prop := ∀ sid sid' e e',
  m !! sid = Some e → m !! sid' = Some e' → e.1 = e'.1 → sid = sid'.

Lemma unique_insert m sid name ids :
  (∀ sid' e, sid' ≠ sid → m !! sid' = Some e → e.1 ≠ name) → unique_names m →
  unique_names (<[sid := (name, ids)]> m).
Proof.
  intros Hf Hu a b e e' Ha Hb Hn. destruct (decide (a = sid)) as [->|Ha'], (decide (b = sid)) as [->|Hb'].
  - done.
  - rewrite lookup_insert_eq in Ha. rewrite lookup_insert_ne in Hb by done. simplify_eq. cbn in Hn.
    by destruct (Hf b e').
  - rewrite lookup_insert_eq in Hb. rewrite lookup_insert_ne in Ha by done. simplify_eq. cbn in Hn.
    by destruct (Hf a e).
  - rewrite lookup_insert_ne in Ha, Hb by done. by eapply Hu.
Qed.

(** The sessions of [m'] are sessions of [m], under the same names. *)
Definition named_in (m' m : topology) : Prop := ∀ sid e, m' !! sid = Some e → ∃ e0, m !! sid = Some e0 ∧ e0.1 = e.1.

Lemma unique_sub m m' : named_in m' m → unique_names m → unique_names m'.
Proof.
  intros Hs Hu a b e e' Ha Hb Hn. destruct (Hs a e Ha) as (x & Hx & ?), (Hs b e' Hb) as (y & Hy & ?).
  eapply Hu; [exact Hx|exact Hy|congruence].
Qed.

Lemma named_insert m m' sid name ids ids0 :
  m !! sid = Some (name, ids0) → named_in m' m → named_in (<[sid := (name, ids)]> m') m.
Proof.
  intros Hs Hn a e. destruct (decide (a = sid)) as [->|Hne].
  - rewrite lookup_insert_eq. intros [= <-]. by exists (name, ids0).
  - rewrite lookup_insert_ne by done. apply Hn.
Qed.

Lemma named_refl m : named_in m m.
Proof. intros a e He. by exists e. Qed.

Lemma named_delete m sid : named_in (delete sid m) m.
Proof. intros a e [_ He]%lookup_delete_Some. by exists e. Qed.

Lemma named_leave m owner id : named_in (leave owner id m) m.
Proof.
  unfold leave. destruct (m !! owner) as [[name ids]|] eqn:E; [|apply named_refl]. cbv zeta.
  destruct (decide _); [apply named_delete|by eapply named_insert, named_refl].
Qed.

Lemma unique_fresh m m' sid name ids :
  unnamed m name → named_in m' m → unique_names m → unique_names (<[sid := (name, ids)]> m').
Proof.
  intros Hf Hs Hu. apply unique_insert; [|by eapply unique_sub]. intros a e _ He <-.
  destruct (Hs a e He) as (e0 & He0 & E). by apply (Hf a e0).
Qed.

Lemma effect_unique {St} m (q : Request St) m' : effect m q m' → unique_names m → unique_names m'.
Proof.
  destruct 1 as [| | | | | | | | | |selector name owner old ids _ Hold Hname|]; intros Hu; try done; try by (eapply unique_fresh; [done|apply named_leave|done]).
  - by eapply unique_fresh; [|apply named_refl|].
  - by eapply unique_sub; [eapply named_insert, named_refl|].
  - by eapply unique_sub; [eapply named_insert, named_refl|].
  - by eapply unique_sub; [apply named_leave|].
  - by eapply unique_sub; [eapply named_insert, named_refl|].
  - by eapply unique_sub; [eapply named_insert, named_delete|].
  - by eapply unique_sub; [eapply named_insert, named_refl|].
  - destruct Hname as [->|Hf].
    + by eapply unique_sub; [eapply named_insert, named_refl|].
    + by eapply unique_fresh; [|apply named_refl|].
Qed.

(** ** Revisions *)

Section revisions.
Context {St : Type} `{ScreenLaws St}.
Implicit Types (r : SessionRegistry.t St) (t : SessionTerminal.t St).

(** Registries reached from [r], where [n] requests remain, while session [sid] lives *)
Inductive through (sid : string) (n : N) r : N → SessionRegistry.t St → Prop :=
  | through_here : through sid n r n r
  | through_request m q r1 : through sid n r (m + 1) r1 → admissible (room (m + 1)) q r1 →
      is_Some (sessions (run q r1).2 !! sid) → through sid n r m (run q r1).2.

Lemma later_trans s1 s2 s3 : later s1 s2 → later s2 s3 → later s1 s3.
Proof.
  intros [V1 C1] [V2 C2]. split; [congruence|].
  destruct C1 as [[A1 R1]|R1], C2 as [[A2 R2]|R2]; [left; split; congruence|right; lia..].
Qed.

Lemma later_refl s : later s s.
Proof. split; [done|by left]. Qed.

Lemma through_later sid n r m r' s s' :
  reached n r → through sid n r m r' → sessions r !! sid = Some s → sessions r' !! sid = Some s' →
  reached m r' ∧ later s s'.
Proof.
  intros Hr Ht Hs. revert s'. induction Ht as [|m q r1 Ht IH Ha _]; intros s' Hs'.
  - simplify_eq. split; [done|apply later_refl].
  - assert (is_Some (sessions r1 !! sid)) as [s1 Hs1] by (destruct Ht; [by exists s|done]).
    destruct (IH s1 Hs1) as [Hr1 Hl]. split; [by constructor|]. eapply later_trans; [exact Hl|].
    destruct (reached_inv _ _ Hr1) as [HI1 _].
    by eapply (good_advances _ _ _ _ (step_good m q r1 HI1 (reached_room _ _ Hr1) Ha)).
Qed.

(** The requests made for one revision of a session's view *)
Definition made_for (sid : string) (revision : N) r (q : Request St) : Prop :=
  match q with
  | UpdateView selector expected _ => selector = sid ∧ expected = revision
  | SwapPane _ _ target _ | BreakPane _ _ target _ _ _ _ =>
      PaneTarget.session_id target = sid ∧ PaneTarget.expected_revision target = revision
  | ResizeDivider self _ divider => owner_of r self = Ok sid ∧ DividerResize.expected_revision divider = revision
  | _ => False
  end.

Lemma pane_target_checked self att target r s :
  attached_pane_target self att target r = Ok s →
  PaneTarget.session_id target = Session.id s ∧
  PaneTarget.expected_revision target = View.revision (Session.view s).
Proof.
  unfold attached_pane_target. destruct (owner_of r self) as [o|e|]; [|done|done]. cbn [mbind outcome_bind].
  destruct (sessions r !! o) as [s0|]; [|done]. cbn [ok_or mbind outcome_bind]. cbv zeta.
  unfold fail_if. destruct (negb (owns_layout _ _)); [done|]. cbn [mbind outcome_bind].
  destruct (Session.closing s0); [done|]. cbn [mbind outcome_bind].
  destruct (bool_decide (PaneTarget.session_id target = _)) eqn:E1; [|done].
  destruct (bool_decide (PaneTarget.view_id target = _)); [|done].
  destruct (bool_decide (PaneTarget.expected_revision target = _)) eqn:E2; [|done].
  apply bool_decide_eq_true in E1, E2. cbn [negb orb mbind outcome_bind].
  destruct (negb (bool_decide (_ ∈ _))); [done|]. cbn [mbind outcome_bind].
  by destruct (running_movable_terminal _ _); [intros [= <-]| |].
Qed.

(** A pane target of another revision is refused. *)
Lemma stale_pane_target k self att target sid s r :
  Inv k r → is_Some (store r !! self) → sessions r !! sid = Some s → PaneTarget.session_id target = sid →
  PaneTarget.expected_revision target ≠ View.revision (Session.view s) →
  ∃ e, attached_pane_target self att target r = Err e.
Proof.
  intros HI Hself Hs Hsid Hrev. pose proof (attached_pane_target_total self att target r Hself) as Htot.
  destruct (attached_pane_target self att target r) as [s0|e|] eqn:E; [|by exists e|done].
  destruct Htot as (sid0 & _ & Hs0 & _). apply pane_target_checked in E as [E1 E2].
  rewrite (view_id_ok _ _ _ _ (inv_views _ _ HI _ _ Hs0)) in E1.
  assert (sid0 = sid) as -> by congruence. rewrite Hs in Hs0. by simplify_eq.
Qed.

Lemma stale_change k self att change r :
  Inv k r → is_Some (store r !! self) →
  (∀ sid s, owner_of r self = Ok sid → sessions r !! sid = Some s → ∃ e, change (Session.view s) r = Err e) →
  wp (resize_layout self att change) r (λ _ _, False) (λ r', sessions r' = sessions r).
Proof.
  intros HI Hself Hc. unfold resize_layout. apply wp_bind, wp_reading.
  pose proof (controlled_view_total self att r Hself) as Htot.
  destruct (controlled_view self att r) as [[owner s]|e|]; [|done|done]. destruct Htot as (Hs & _ & _ & Ho).
  apply wp_bind, wp_reading. by destruct (Hc owner s Ho Hs) as [e ->].
Qed.

Lemma stale_refused k q sid revision s r :
  Inv k r → admissible k q r → sessions r !! sid = Some s → revision ≠ View.revision (Session.view s) →
  made_for sid revision r q → wp (run q) r (λ _ _, False) (λ r', sessions r' = sessions r).
Proof.
  intros HI Ha Hs Hrev Hq. destruct q; try done; cbn [run] in *; apply wp_served.
  - destruct Hq as [Ho Hd]. apply (stale_change k); [done..|]. intros sid0 s0 Ho0 Hs0. rewrite Ho in Ho0.
    simplify_eq. eexists. rewrite (bool_decide_false (View.revision _ = _)) by congruence.
    by rewrite orb_true_r.
  - destruct Hq as [Hsid Hrev']. apply (stale_change k); [done..|]. intros sid0 s0 _ _.
    destruct (stale_pane_target k self att target sid s r) as [e ->]; [done..|congruence|by eexists].
  - destruct Hq as [Hsid Hrev'], Ha as [Hself _]. unfold break_pane_inner.
    apply wp_reserving; [|by intros r1 []]. intros nm r1 Hn _ _ _. unfold break_section. cbv zeta.
    assert (HI1 : Inv k r1) by by eapply Inv_names. destruct Hn as [Est _ Ess].
    destruct (stale_pane_target k self att target sid s r1) as [e He]; [done|by rewrite Est|by rewrite Ess|done|congruence|].
    apply wp_bind, wp_mapping, wp_reading. rewrite He. intros r3 [_ _ E3] _. congruence.
  - destruct Hq as [-> Hexp]. unfold update_view_inner.
    apply wp_bind, wp_lift. pose proof (validate_layout_total layout 0) as Hv.
    destruct (validate_layout layout 0) as [[]|e|]; [|done|done]. cbn [map_err].
    apply wp_bind. apply (wp_reading_Ok _ s); [by apply root_here|]. cbv zeta.
    apply wp_bind, wp_fail_if; [|done]. intros Hf%negb_false_iff%bool_decide_eq_true. congruence.
Qed.
End revisions.

(** * A concrete screen *)

(** A screen that is nothing but its size, to run the registry on *)
Module Blank.
Definition t : Type := TerminalSize.t.

#[export] Instance screen : Screen t := {
  screen_size size := size; screen_sequence _ := 0%N; screen_resize size _ := Some size }.

#[export] Instance any_width : WidestScreen := u16_MAX.

#[export] Instance laws : ScreenLaws t.
Proof. refine {| screen_ok _ size := valid_size size |}; [by vm_compute|eauto..]. Defined.
End Blank.
Import Blank.

Definition size80 : TerminalSize.t := TerminalSize.Mk 80 24 0 0.

(** A session of two terminals, and a client attached to the first with the leases *)
Definition opening : list (Request Blank.t) :=
  [Create (Some "work") None false "t1" "s1" "v1" 5 (Ok (Spawned.Mk size80 [] (inr ())));
   SplitPane "t1" Horizontal "t2" "s2" "v2" 6 (Ok (Spawned.Mk size80 [] (inr ())));
   Attach "t1" "x" ["token"] true true (Legacy "client" "1")].

Definition serve (qs : list (Request Blank.t)) : SessionRegistry.t Blank.t :=
  foldl (λ r q, (run q r).2) SessionRegistry.default qs.

Definition target1 (revision : N) : PaneTarget.t := PaneTarget.Mk "s1" "v1" revision "t1".


(** Discharges what a request needs in a concrete registry. *)
Ltac concretely :=
  vm_compute; repeat match goal with |- _ ∧ _ => split | |- ∃ _, _ => eexists | |- is_Some _ => eexists end;
  first [reflexivity | discriminate].

Lemma opening_reached : reached 3 (serve opening).
Proof.
  unfold serve, opening. cbn [foldl].
  refine (reached_request 3 _ _ (reached_request 4 _ _ (reached_request 5 _ _ (reached_empty 6 _) _) _) _).
  - done.
  - concretely.
  - concretely.
  - concretely.
Qed.

(** * The properties *)

(** C5. Whatever requests the registry serves one after another from the empty one, none of
    them panics and it stays well formed: every registered terminal is in one view only,
    once, and its owner record names that view and its session; every view can be drawn on its canvas, its
    zoomed terminal is one of its own, and no name stays reserved. *)
Theorem registry_safety {St} `{ScreenLaws St} (n : N) (q : Request St) (r : SessionRegistry.t St)
    (Hr : reached (n + 1) r) (Hq : admissible (room (n + 1)) q r) :
  let r' := (run q r).2 in
  (run q r).1 ≠ Panic ∧ Inv (room n) r' ∧ pending_names r' = ∅ ∧
  ∀ id t, listed r' id = Some t → ∃ s, owned_by t s ∧
    ∀ sid s', sessions r' !! sid = Some s' → id ∈ ids_of s' → s' = s.
Proof.
  cbv zeta. pose proof (reached_request n q r Hr Hq) as Hr'. destruct (reached_inv _ _ Hr') as [HI Hp].
  split_and!; [|done|done|].
  - pose proof (reached_step n q r Hr Hq) as Hw. unfold wp in Hw. by destruct (run q r) as [[]].
  - intros id t Ht. destruct (inv_owner _ _ HI id t Ht) as (s & Hs & Hin). exists s. split.
    + destruct (view_owned _ _ _ _ (inv_views _ _ HI _ _ Hs) id Hin) as (t1 & Ht1 & Ho). by simplify_eq.
    + intros sid s' Hs' Hin'. destruct (view_owned _ _ _ _ (inv_views _ _ HI _ _ Hs') id Hin') as (t1 & Ht1 & Ho & _).
      simplify_eq. rewrite (view_id_ok _ _ _ _ (inv_views _ _ HI _ _ Hs')) in Ho. congruence.
Qed.

Lemma registry_safety_witness :
  let q := SwapPane "t1" "x" (target1 1) false in
  (run q (serve opening)).1 = Ok () ∧ (run q (serve opening)).1 ≠ Panic ∧
  members (run q (serve opening)).2 !! "s1" = Some ("work", ["t2"; "t1"]).
Proof.
  cbv zeta. split; [by vm_compute|]. split; [|by vm_compute].
  apply (registry_safety 2 (SwapPane "t1" "x" (target1 1) false) (serve opening)); [exact opening_reached|concretely].
Defined.

(** C7. Serving a request refines the map of the sessions' names and terminals: a request
    that succeeds has its [effect] on it; one that fails leaves it as it was, or, where the
    change stays when a terminal then refuses its size or the threads of a new process do
    not start, has that effect. *)
Theorem registry_refines_sessions {St} `{ScreenLaws St} (n : N) (q : Request St) (r : SessionRegistry.t St)
    (Hr : reached (n + 1) r) (Hq : admissible (room (n + 1)) q r) :
  match run q r with
  | (Ok _, r') => effect (members r) q (members r')
  | (Err _, r') => members r' = members r ∨ keeps_change q ∧ effect (members r) q (members r')
  | (Panic, _) => False
  end.
Proof.
  pose proof (reached_step n q r Hr Hq) as Hw. unfold wp in Hw.
  destruct (run q r) as [[[]|[]|] r']; [by apply done_good in Hw as []|by apply failed_good in Hw as []|done].
Qed.

Lemma registry_refines_sessions_witness :
  ∃ r', run (BreakPane "t1" "x" (target1 1) (Some "logs") "s3" "v3" 7) (serve opening) = (Ok (), r') ∧
    effect (members (serve opening)) (BreakPane (St := Blank.t) "t1" "x" (target1 1) (Some "logs") "s3" "v3" 7) (members r') ∧
    members r' = {["s1" := ("work", ["t2"]); "s3" := ("logs", ["t1"])]}.
Proof.
  set (q := BreakPane (St := Blank.t) "t1" "x" (target1 1) (Some "logs") "s3" "v3" 7).
  assert (Hq : admissible (room (2 + 1)) q (serve opening)) by concretely.
  pose proof (registry_refines_sessions 2 q (serve opening) opening_reached Hq) as He.
  assert (E1 : (run q (serve opening)).1 = Ok ()) by by vm_compute.
  assert (E2 : members (run q (serve opening)).2 = {["s1" := ("work", ["t2"]); "s3" := ("logs", ["t1"])]})
    by by vm_compute.
  destruct (run q (serve opening)) as [o r']. cbn [fst snd] in E1, E2. subst o. by exists r'.
Defined.

(** At any time no two sessions have the same name. *)
Theorem session_names_unique {St} `{ScreenLaws St} (n : N) (r : SessionRegistry.t St) (Hr : reached n r) :
  unique_names (members r).
Proof.
  induction Hr as [n Hn|n q r Hr IH Hq]; [intros ???? Ha; apply lookup_fmap_Some in Ha as (x & _ & Ha); by apply (lookup_empty_Some sid x) in Ha|].
  pose proof (reached_step n q r Hr Hq) as Hw. unfold wp in Hw.
  destruct (run q r) as [[[]|[]|] r']; [| |done].
  - apply done_good in Hw as [_ He]. by eapply effect_unique.
  - apply failed_good in Hw as [_ [E|[_ He]]]; cbn; [by rewrite E|by eapply effect_unique].
Qed.

Lemma session_names_unique_witness :
  unique_names (members (serve opening)) ∧
  members (serve opening) = {["s1" := ("work", ["t1"; "t2"])]}.
Proof. split; [apply (session_names_unique 3), opening_reached|by vm_compute]. Defined.

(** C22. What a failed change leaves: when a resize of a pane or of a divider, a swap, a zoom,
    a break, a rename or the start of a termination fails, the sessions and their views are
    what they were, and so is the size of every terminal whose PTY accepts sizes; when a
    resize of the whole view fails, the sessions and their views are what they were. *)
Theorem failed_change_undone {St} `{ScreenLaws St} (n : N) (q : Request St) (r r' : SessionRegistry.t St)
    (Hr : reached (n + 1) r) (Hq : admissible (room (n + 1)) q r) (Hu : undoes q = true ∨ resizes q = true)
    (Hf : run q r = (Err (), r')) :
  sessions r' = sessions r ∧
  (undoes q = true → ∀ id t t', store r !! id = Some t → healthy (SessionTerminal.master t) → store r' !! id = Some t' →
    screen_size (SessionTerminal.state t') = screen_size (SessionTerminal.state t)).
Proof.
  destruct Hu as [Hu|Hu].
  - pose proof (reached_step n q r Hr Hq) as Hw. unfold wp in Hw. rewrite Hf in Hw.
    destruct Hw as [Hw|[Hk _]]; [|by destruct q]. rewrite Hu in Hw. by destruct Hw.
  - split; [|by destruct q]. by eapply failed_resize.
Qed.

(** The second terminal's PTY refuses the second size it is asked to take. *)
Definition refusing : SessionRegistry.t Blank.t :=
  serve [Create (Some "work") None false "t1" "s1" "v1" 5 (Ok (Spawned.Mk size80 [] (inr ())));
         SplitPane "t1" Horizontal "t2" "s2" "v2" 6 (Ok (Spawned.Mk size80 [None; Some "busy"] (inr ())));
         Attach "t1" "x" ["token"] true true (Legacy "client" "1")].

Lemma refusing_reached : reached 3 refusing.
Proof.
  unfold refusing, serve. cbn [foldl].
  refine (reached_request 3 _ _ (reached_request 4 _ _ (reached_request 5 _ _ (reached_empty 6 _) _) _) _);
    [done|concretely..].
Qed.

(** A failed resize of the whole view is not undone: the first terminal keeps its new size. *)
Example resize_not_undone :
  ∃ r', run (ResizeView "t1" "x" (TerminalSize.Mk 70 24 0 0)) refusing = (Err (), r') ∧ sessions r' = sessions refusing ∧
    terminal_size <$> (store r' !! "t1") ≠ terminal_size <$> (store refusing !! "t1").
Proof. eexists. split; [by vm_compute|]. by vm_compute. Qed.

Lemma failed_change_undone_witness :
  ∃ r', run (Zoom "t1" "x" (Some "t2")) refusing = (Err (), r') ∧ sessions r' = sessions refusing ∧
        terminal_size <$> (store r' !! "t1") = terminal_size <$> (store refusing !! "t1").
Proof.
  destruct (run (Zoom "t1" "x" (Some "t2")) refusing) as [o r'] eqn:E.
  assert (o = Err ()) as -> by (vm_compute in E; injection E as <- _; reflexivity).
  exists r'. split; [done|]. split.
  - refine (proj1 (failed_change_undone 2 _ refusing r' refusing_reached _ (or_introl _) E)); concretely.
  - vm_compute in E. injection E as <-. by vm_compute.
Defined.

(** C23. A change that a client asked for at one revision of a view is refused, and changes
    no session, once the view's arrangement has changed in any way: revisions are never
    reused as long as the session lives. *)
Theorem stale_edits_refused {St} `{ScreenLaws St} (n m : N) (sid : string) (q : Request St)
    (r r' : SessionRegistry.t St) (s s' : Session.t)
    (Hr : reached n r) (Ht : through sid n r m r')
    (Hs : sessions r !! sid = Some s) (Hs' : sessions r' !! sid = Some s')
    (Hchanged : arrangement s' ≠ arrangement s)
    (Hq : admissible (room m) q r') (Hmade : made_for sid (View.revision (Session.view s)) r' q) :
  (run q r').1 = Err () ∧ sessions (run q r').2 = sessions r'.
Proof.
  destruct (through_later _ _ _ _ _ _ _ Hr Ht Hs Hs') as [Hr' [_ [[E _]|Hlt]]]; [done|].
  destruct (reached_inv _ _ Hr') as [HI _].
  pose proof (stale_refused _ q sid (View.revision (Session.view s)) s' r' HI Hq Hs' ltac:(lia) Hmade) as Hw. unfold wp in Hw.
  by destruct (run q r') as [[[]|[]|] r2].
Qed.

Lemma stale_edits_refused_witness :
  let r' := (run (SwapPane "t1" "x" (target1 1) false) (serve opening)).2 in
  (run (SwapPane "t1" "x" (target1 1) false) r').1 = Err () ∧
  sessions (run (SwapPane "t1" "x" (target1 1) false) r').2 = sessions r'.
Proof.
  cbv zeta. set (q := SwapPane (St := Blank.t) "t1" "x" (target1 1) false). set (r' := (run q (serve opening)).2).
  assert (Hone : through "s1" 3 (serve opening) 2 r').
  { refine (through_request _ 3 _ 2 q _ (through_here _ _ _) _ _); concretely. }
  destruct (sessions (serve opening) !! "s1") as [s|] eqn:Hs; [|vm_compute in Hs; discriminate].
  destruct (sessions r' !! "s1") as [s'|] eqn:Hs'; [|vm_compute in Hs'; discriminate].
  apply (stale_edits_refused 3 2 "s1" q (serve opening) r' s s' opening_reached Hone Hs Hs');
    vm_compute in Hs, Hs'; injection Hs as <-; injection Hs' as <-; [by vm_compute|concretely..].
Defined.

(** C24. A connection that has been superseded can no longer end its attachment: once a
    resumed connection has generation [g], no suspension, expiry or detachment by a
    connection before [g], in whatever order with anything that other attachments do and
    with further resumptions, disconnects or removes it. *)
Theorem superseded_connection_powerless (m m' : gmap string AttachmentRecord.t) (token att : string)
    (peer : option AttachmentPeer) (g : N) (events : list attachment_event)
    (Hresume : rebind token peer m = (Some (att, g), m')) (Hevents : Forall (stale token g) events) :
  connected_since token att g (foldl (λ m e, attachment_step e m) m' events).
Proof.
  apply stale_steps; [done|]. unfold rebind in Hresume.
  destruct (m !! token) as [record|]; [|done]. destruct (succ64 _) as [g'|]; [|done].
  injection Hresume as <- <- <-. eexists. rewrite lookup_insert_eq. by split_and!.
Qed.

Lemma superseded_connection_powerless_witness :
  let m : gmap string AttachmentRecord.t := {["token" := AttachmentRecord.Mk "x" (Legacy "client" "1") 0 true 0]} in
  ∃ m', rebind "token" None m = (Some ("x", 1%N), m') ∧
    connected_since "token" "x" 1 (foldl (λ m e, attachment_step e m) m'
      [Suspends "token" 0; Drops true "token" 0; Enrolls "y" ["token"; "other"] (Legacy "client" "1");
       Drops false "token" 0]).
Proof.
  cbv zeta. set (m := {["token" := _]}). set (events := [_; _; _; _]).
  assert (Hm : rebind "token" None m = (Some ("x", 1%N), (rebind "token" None m).2)) by by vm_compute.
  exists (rebind "token" None m).2. split; [exact Hm|].
  refine (superseded_connection_powerless m _ "token" "x" None 1 events Hm _).
  repeat constructor; cbn; done.
Defined.

(** * Interleavings that go wrong

    Operations that take the registry's lock more than once, with another operation in
    between. *)

(** A client detaches from a terminal while that terminal is moved to a session of its own:
    the record of the attachment is gone when the move releases the leases of its
    attachments, and the detaching client then releases its lease in the new session.  The
    old session's layout lease stays with an attachment that no longer exists. *)
Definition detach_during_move : action Blank.t SessionManagerError () :=
  _ ← change_attachments "t1" (drop_record false "token" 0);
  _ ← release_input "t1" "x";
  _ ← promote_terminal_inner "t1" (Some "moved") "s3" "v3" 7;
  release_layout "t1" "x".

Lemma detach_during_move_keeps_lease :
  let r := (detach_during_move (serve opening)).2 in
  (detach_during_move (serve opening)).1 = Ok () ∧
  members r = {["s1" := ("work", ["t2"]); "s3" := ("moved", ["t1"])]} ∧
  (LeaseRegistry.layout_owner ∘ View.leases ∘ Session.view) <$> (sessions r !! "s1") = Some (Some "x") ∧
  SessionTerminal.attachments <$> (store r !! "t1") = Some ∅ ∧
  SessionTerminal.attachments <$> (store r !! "t2") = Some ∅.
Proof. vm_compute. by repeat split. Qed.

(** A split fails when it commits, having given up its reserved name already; before its
    reservation is dropped, which removes the name once more, another client reserves that
    name, and after that so does a third. *)
Definition reservation_dropped_twice : action Blank.t SessionManagerError () :=
  name ← reserve_name None;
  _ ← attempt (F := SessionManagerError) (commit name "t9" (Some ("gone", Horizontal)));
  _ ← acquire_name name;
  _ ← drop_reservation name;
  _ ← acquire_name name;
  mret ().

Lemma name_reserved_twice : (reservation_dropped_twice (serve opening)).1 = Ok ().
Proof. by vm_compute. Qed.
