(* ===== verification/RequestsInv.v ===== *)
(** What the daemon's requests leave as it was.

    First, of every operation of the registry, whatever its outcome, panics included (the
    daemon takes over the state of a poisoned lock): what it does to the terminals' records
    and to the set of those registered.  Then the daemon as a machine, and that serving it
    never panics. *)

From S2P Require Import Prelude.
From S2P Require Import Layout.
From S2P Require Import Topology.
From S2P Require Import Leases.
From S2P Require Import Sessions.
From S2P Require Import Attachments.
From S2P Require Import SessionsWp.
From S2P Require Import SessionsInv.
From S2P Require Import TopologyInv.
From S2P Require Import SessionsControl.
From S2P Require Import SessionsTopology.
From S2P Require Import SessionsManage.
From S2P Require Import SessionsLifecycle.
From S2P Require Import SessionsEdits.
From S2P Require Import AttachmentsInv.
From S2P Require Import SessionsRun.
From S2P Require Import SessionTheorems.
From S2P Require Import Protocol.
From S2P Require Import Messages.
From S2P Require Import Presence.
From S2P Require Import FlowControl.
From S2P Require Import Requests.
From S2P Require Import ServerAttach.
From stdpp Require Import strings gmap.

Import SessionRegistry (store, terminals, sessions, pending_names, next_automatic_name).

(** * Invariants of terminals *)

(** A property [T] of the terminals of the store, the terminals [D] being there, those
    registered within [X], and a property [W] of the leases of the sessions *)
Section holds.
Context {St : Type} `{Screen St}.
Context (T : string → SessionTerminal.t St → Prop) (D X : string → Prop) (W : gmap string LeaseRegistry.t → Prop).
Implicit Types (r : SessionRegistry.t St) (t : SessionTerminal.t St).

Definition session_leases (m : gmap string Session.t) : gmap string LeaseRegistry.t := (View.leases ∘ Session.view) <$> m.

Record stands r : Prop := {
  stands_terminal id t : store r !! id = Some t → T id t;
  stands_there id : D id → is_Some (store r !! id);
  stands_listed id : id ∈ terminals r → X id;
  stands_leases : W (session_leases (sessions r)) }.

(** Whatever its outcome, [m] keeps the invariant; its value satisfies [Q]. *)
Definition holds {E A} (Q : A → Prop) (m : action St E A) : Prop :=
  ∀ r, stands r → stands (m r).2 ∧ ∀ a, (m r).1 = Ok a → Q a.
Definition safe {E A} (m : action St E A) : Prop := holds (λ _, True) m.

Section rules.
Context {E : Type}.

Lemma safe_ret {A} (a : A) : safe (mret a : action St E A).
Proof. intros r Hr. split; [exact Hr|done]. Qed.

Lemma safe_lift {A} (m : outcome E A) : safe (lift m).
Proof. intros r Hr. split; [exact Hr|done]. Qed.

Lemma safe_reading {A} (f : SessionRegistry.t St → outcome E A) : safe (reading f).
Proof. intros r Hr. split; [exact Hr|done]. Qed.

Lemma holds_bind {A B} Q (m : action St E A) (f : A → action St E B) :
  holds Q m → (∀ a, Q a → safe (f a)) → safe (m ≫= f).
Proof.
  intros Hm Hf r Hr. specialize (Hm r Hr). unfold mbind, action_bind.
  destruct (m r) as [[a|e|] r']; cbn in *; [|naive_solver..]. apply Hf; naive_solver.
Qed.

Lemma safe_bind {A B} (m : action St E A) (f : A → action St E B) : safe m → (∀ a, safe (f a)) → safe (m ≫= f).
Proof. intros Hm Hf. eapply holds_bind; [exact Hm|]. auto. Qed.

Lemma safe_each {A} (f : A → action St E ()) l : (∀ a, safe (f a)) → safe (each f l).
Proof. intros Hf. induction l as [|a l IH]; cbn [each]; [done|]. apply safe_bind; auto. Qed.

Lemma safe_attempt {F A} (m : action St F A) : safe m → safe (attempt (E := E) m).
Proof. intros Hm r Hr. specialize (Hm r Hr). unfold attempt. destruct (m r) as [[a|e|] r']; naive_solver. Qed.

Lemma safe_mapping {F A} (g : F → E) (m : action St F A) : safe m → safe (mapping g m).
Proof. intros Hm r Hr. specialize (Hm r Hr). unfold mapping. destruct (m r) as [[a|e|] r']; naive_solver. Qed.

Lemma holds_shared {B} id (f : SessionTerminal.t St → action St E B) :
  (∀ t, T id t → safe (f t)) → safe (reading (λ r, shared r id) ≫= f).
Proof.
  intros Hf. apply (holds_bind (T id)); [|done]. intros r Hr. split; [done|]. unfold reading, shared. cbn.
  intros t Ht. destruct (store r !! id) as [t'|] eqn:Es; [|done]. injection Ht as <-. by apply (stands_terminal _ Hr).
Qed.

Lemma holds_insert {B} id t' (f : () → action St E B) : T id t' → (∀ u, safe (f u)) → safe (on_store <[id := t']> ≫= f).
Proof.
  intros Ht Hf. apply safe_bind; [|done]. intros r Hr. split; [|done]. cbn. destruct Hr as [H1 H2 H3 H4]. split; cbn; try done.
  - intros i t0. destruct (decide (i = id)) as [->|Hne].
    + rewrite lookup_insert_eq. by intros [= <-].
    + rewrite lookup_insert_ne by done. apply H1.
  - intros i Hi. apply lookup_insert_is_Some'. auto.
Qed.

Lemma safe_insert id t' : T id t' → safe (E := E) (on_store <[id := t']>).
Proof.
  intros Ht r Hr. destruct (holds_insert id t' mret Ht (λ _, safe_ret _) r Hr) as [Hs _]. by split.
Qed.

Lemma safe_alter id f : (∀ t, T id t → T id (f t)) → safe (E := E) (on_store (alter f id)).
Proof.
  intros Hf r [H1 H2 H3 H4]. split; [|done]. split; cbn; try done.
  - intros i t. destruct (decide (i = id)) as [->|Hne].
    + rewrite lookup_alter_eq. intros (t0 & Ht0 & ->)%fmap_Some. auto.
    + rewrite lookup_alter_ne by done. apply H1.
  - intros i Hi. destruct (decide (i = id)) as [->|Hne].
    + rewrite lookup_alter_eq. by apply fmap_is_Some, H2.
    + rewrite lookup_alter_ne by done. auto.
Qed.

Lemma safe_names f : safe (E := E) (on_names f).
Proof. intros r []. by split. Qed.

Lemma safe_next n : safe (E := E) (set_next_name n).
Proof. intros r []. by split. Qed.

(** The terminals registered only become fewer. *)
Lemma safe_fewer f : (∀ s, f s ⊆ s) → safe (E := E) (on_terminals f).
Proof. intros Hf r []. split; [|done]. split; cbn; try done. intros id Hid. specialize (Hf (terminals r)). set_solver. Qed.

Lemma safe_listing id : X id → safe (E := E) (insert_terminal id).
Proof. intros HX r []. split; [|done]. split; cbn; try done. set_solver. Qed.

(** A change of a view that does not touch its leases *)
Lemma safe_view sid f : (∀ v v', f v = Ok v' → View.leases v' = View.leases v) → safe (E := E) (on_view sid f).
Proof.
  intros Hf r Hr. unfold on_view, reading, mbind, action_bind, lift, expect. cbn.
  destruct (sessions r !! sid) as [s|] eqn:Es; [|done].
  destruct (f (Session.view s)) as [v| |] eqn:Ef; [|done..]. split; [|done]. destruct Hr as [H1 H2 H3 H4].
  split; cbn; try done. unfold session_leases in *. rewrite fmap_insert. cbn. rewrite (Hf _ _ Ef).
  rewrite insert_id; [done|]. by rewrite lookup_fmap, Es.
Qed.

Lemma safe_sessions f : (∀ m, W m) → safe (E := E) (on_sessions f).
Proof. intros HW r []. split; [|done]. by split. Qed.
End rules.
End holds.

(** One step of a proof that an action is safe; the operations proved are in the hints. *)
Create HintDb safe.
#[export] Hint Resolve safe_ret safe_lift safe_reading safe_names safe_next : safe.

Ltac safe_step :=
  match goal with
  | |- safe _ _ _ _ (reading (λ r, shared r _) ≫= _) => apply holds_shared; intros ? ?
  | |- safe _ _ _ _ (_ ≫= _) => apply safe_bind; [|intros ?]
  | |- safe _ _ _ _ (each _ _) => apply safe_each; intros ?
  | |- safe _ _ _ _ (attempt _) => apply safe_attempt
  | |- safe _ _ _ _ (mapping _ _) => apply safe_mapping
  | |- safe _ _ _ _ (match ?x with _ => _ end) => destruct x
  | |- safe _ _ _ _ (let _ := _ in _) => cbv zeta
  | |- safe _ _ _ _ _ => solve [eauto with safe]
  end.
Ltac safe_all := repeat safe_step.

(** ** Resizing and editing views *)

Section edits.
Context {St : Type} `{Screen St}.
Context (T : string → SessionTerminal.t St → Prop) (D X : string → Prop) (W : gmap string LeaseRegistry.t → Prop).
Context (T_kept : ∀ id t t', kept t t' → T id t → T id t').
Implicit Types (r : SessionRegistry.t St) (t : SessionTerminal.t St).
Notation safe := (safe T D X W).

Lemma resize_pty_kept size t : kept t (resize_pty size t).2.
Proof.
  assert (∀ s, kept t (SessionTerminal.set_screen s (pty_answer (SessionTerminal.master t)).2 t)) as Hk.
  { intros s. split; try done. cbn. unfold healthy, pty_answer. destruct (SessionTerminal.master t) as [[|[] replies]|]; cbn; try done.
    - by intros [[=] _]%Forall_cons.
    - by intros [_ ?]%Forall_cons. }
  unfold resize_pty. destruct (pty_answer _) as [answer master] eqn:E. cbn in Hk.
  destruct answer; cbn; [|apply Hk..]. case_decide; [apply Hk|]. destruct (screen_resize _ _); apply Hk.
Qed.

Lemma safe_resize_terminal id size : safe (resize_terminal id size).
Proof.
  intros r Hr. unfold resize_terminal. destruct (store r !! id) as [t|] eqn:Et; [|by split].
  pose proof (resize_pty_kept size t) as Hk. destruct (resize_pty size t) as [result t']. cbn in Hk |- *. split; [|done].
  apply (safe_insert T D X W (E := SessionControlError)); [|exact Hr].
  eapply T_kept; [exact Hk|]. by apply (stands_terminal _ _ _ _ _ Hr).
Qed.
#[local] Hint Resolve safe_resize_terminal : safe.

Lemma safe_publish_layout_leases {E} id : safe (publish_layout_leases id : action St E ()).
Proof. unfold publish_layout_leases. safe_all. apply safe_alter. intros u Hu. eapply T_kept; [apply set_updates_kept|done]. Qed.
#[local] Hint Resolve safe_publish_layout_leases : safe.

Lemma safe_publish_view {E} id : safe (publish_view id : action St E ()).
Proof. unfold publish_view. safe_all. apply safe_alter. intros u Hu. eapply T_kept; [apply send_view_kept|done]. Qed.
#[local] Hint Resolve safe_publish_view : safe.

Lemma safe_resize_view id size : safe (resize_view id size).
Proof.
  unfold resize_view. safe_all. apply safe_view. intros v v'. case_decide; [by intros [= <-]|].
  destruct (succ64 _); [|done]. by intros [= <-].
Qed.
#[local] Hint Resolve safe_resize_view : safe.

Lemma safe_reflow_view id : safe (reflow_view id).
Proof. unfold reflow_view. safe_all. Qed.
#[local] Hint Resolve safe_reflow_view : safe.

Lemma safe_capture {E} id : safe (capture_view_geometry id : action St E _).
Proof. apply safe_reading. Qed.

Lemma safe_restore {E} id geometry : safe (restore_view_geometry id geometry : action St E ()).
Proof. unfold restore_view_geometry. safe_all. Qed.
#[local] Hint Resolve safe_capture safe_restore : safe.

Lemma safe_rearrange sid layout zoom geometry : safe (rearrange sid layout zoom geometry).
Proof.
  unfold rearrange. safe_all; apply safe_view; intros v v'; [destruct (succ64 _); [|done]|]; by intros [= <-].
Qed.
#[local] Hint Resolve safe_rearrange : safe.

Lemma safe_resize_inner self att size : safe (resize_inner self att size).
Proof. unfold resize_inner. safe_all. Qed.

Lemma safe_resize_layout self att change : safe (resize_layout self att change).
Proof. unfold resize_layout, current_view. safe_all. Qed.

Lemma safe_zoom self att id : safe (set_view_zoom_inner self att id).
Proof. unfold set_view_zoom_inner, current_view. safe_all. Qed.

Lemma set_screen_kept s t : kept t (SessionTerminal.set_screen s (SessionTerminal.master t) t).
Proof. by split. Qed.

Lemma safe_screen {E B} id f : safe (on_screen id f : action St E B).
Proof. unfold on_screen. safe_all. apply safe_insert. eapply T_kept; [apply set_screen_kept|done]. Qed.

End edits.
#[export] Hint Resolve safe_resize_terminal safe_publish_layout_leases safe_publish_view safe_resize_view safe_reflow_view
  safe_capture safe_restore safe_rearrange safe_resize_inner safe_resize_layout safe_zoom safe_screen : safe.

(** ** The other operations *)

Section operations.
Context {St : Type} `{Screen St}.
Context (T : string → SessionTerminal.t St → Prop) (D X : string → Prop) (W : gmap string LeaseRegistry.t → Prop).
Context (good_peer : AttachmentPeer → Prop).
Implicit Types (r : SessionRegistry.t St) (t : SessionTerminal.t St).

(** Every record has the peer of a record there was, or a good one. *)
Definition peers_from (a a' : gmap string AttachmentRecord.t) : Prop :=
  ∀ token record, a' !! token = Some record →
    (∃ token' record', a !! token' = Some record' ∧ AttachmentRecord.peer record = AttachmentRecord.peer record') ∨
    good_peer (AttachmentRecord.peer record).

Context (T_same : ∀ id t t', SessionTerminal.managed t' = SessionTerminal.managed t →
  SessionTerminal.attachments t' = SessionTerminal.attachments t → T id t → T id t').
Context (T_records : ∀ id t l a, peers_from (SessionTerminal.attachments t) a → T id t → T id (SessionTerminal.set_attachments l a t)).
Context (W_any : ∀ m, W m).
Notation safe := (safe T D X W).
#[local] Hint Resolve safe_sessions : safe.

Lemma T_kept id t t' : kept t t' → T id t → T id t'.
Proof. intros K. apply T_same; [apply (kept_managed _ _ K)|apply (kept_attachments _ _ K)]. Qed.
#[local] Hint Resolve T_kept : safe.

Lemma safe_on_terminal {E} id f : (∀ t, T id t → T id (f t)) → safe (on_terminal id f : action St E ()).
Proof. intros Hf. unfold on_terminal. safe_all. apply safe_insert. auto. Qed.

Lemma safe_any_view {E} sid f : safe (on_view sid f : action St E ()).
Proof. unfold on_view. safe_all. Qed.

Lemma safe_owner {E} id owner : safe (on_terminal id (SessionTerminal.set_owner owner) : action St E ()).
Proof. apply safe_on_terminal. intros t. by apply T_same. Qed.
#[local] Hint Resolve safe_any_view safe_owner : safe.

Lemma safe_on_listed {E} id f : (∀ t, T id t → T id (f t)) → safe (on_listed id f : action St E ()).
Proof. intros Hf. unfold on_listed. safe_all. by apply safe_on_terminal. Qed.

Lemma safe_replace_layout {E} sid l : safe (replace_layout sid l : action St E ()).
Proof. apply safe_any_view. Qed.
#[local] Hint Resolve safe_replace_layout : safe.

Lemma safe_reserve_name requested : safe (reserve_name requested).
Proof.
  unfold reserve_name, acquire_name. safe_all. unfold acquire_automatic. intros r Hr. revert r Hr.
  assert (∀ fuel, safe (acquire_automatic_go fuel)) as Hgo.
  { induction fuel as [|fuel IH]; cbn [acquire_automatic_go]; safe_all. }
  intros r Hr. by apply Hgo.
Qed.
#[local] Hint Resolve safe_reserve_name : safe.

Lemma safe_drop_reservation {E} name : safe (drop_reservation name : action St E ()).
Proof. apply safe_names. Qed.
#[local] Hint Resolve safe_drop_reservation : safe.

Lemma safe_reserving {E A} (wrap : SessionManagerError → E) requested (body : string → action St E A) :
  (∀ name, safe (body name)) → safe (reserving wrap requested body).
Proof. intros Hb. unfold reserving. safe_all; auto. Qed.

Lemma safe_insert_session {E} s : safe (insert_session s : action St E ()).
Proof. by apply safe_sessions. Qed.
#[local] Hint Resolve safe_insert_session : safe.

Lemma safe_commit name id placement : X id → safe (commit name id placement).
Proof. intros HX. unfold commit. safe_all; by apply safe_listing. Qed.

Lemma safe_create requested placement is_managed id sid vid now spawned : X id →
  (∀ name state pty, T id (new_terminal is_managed name id sid vid now state pty)) →
  safe (create_terminal requested placement is_managed id sid vid now spawned).
Proof. intros HX HT. unfold create_terminal. safe_all; [by apply safe_insert|by apply safe_commit]. Qed.

Lemma safe_detach_terminal {E} id : safe (detach_terminal id : action St E ()).
Proof. unfold detach_terminal. safe_all. Qed.
#[local] Hint Resolve safe_detach_terminal : safe.

Lemma safe_process_ended {E} id code : safe (process_ended id code : action St E ()).
Proof.
  unfold process_ended, remove_terminal. safe_all; [|apply safe_fewer; set_solver].
  apply safe_on_terminal. intros t. case_decide; [by apply T_same|done].
Qed.

Lemma safe_rename selector name : safe (rename_inner selector name).
Proof. unfold rename_inner, first_info. safe_all. apply safe_on_listed. intros t. by apply T_same. Qed.

Lemma safe_update selector expected layout : safe (update_view_inner selector expected layout).
Proof. unfold update_view_inner. safe_all. Qed.

Lemma safe_promote id requested sid vid now : safe (promote_terminal_inner id requested sid vid now).
Proof. apply safe_reserving. intros name. unfold promote_section. safe_all. Qed.

Lemma safe_break self att target requested sid vid now : safe (break_pane_inner self att target requested sid vid now).
Proof. apply safe_reserving. intros name. unfold break_section. safe_all. Qed.

Lemma safe_merge source destination : safe (merge_sessions_inner source destination).
Proof. unfold merge_sessions_inner. safe_all. apply safe_on_listed. intros t. by apply T_same. Qed.

Lemma safe_begin_termination selector : safe (begin_termination_inner selector).
Proof. unfold begin_termination_inner. safe_all. Qed.

(** *** Attachments *)

Lemma peers_same a : peers_from a a.
Proof. intros token record Hr. left. eauto. Qed.

Lemma peers_delete a token : peers_from a (delete token a).
Proof. intros token' record [_ Hr]%lookup_delete_Some. left. eauto. Qed.

Lemma peers_insert a token record :
  (∃ token' record', a !! token' = Some record' ∧ AttachmentRecord.peer record = AttachmentRecord.peer record') ∨
  good_peer (AttachmentRecord.peer record) → peers_from a (<[token := record]> a).
Proof.
  intros Hp token' record'. destruct (decide (token' = token)) as [->|Hne].
  - rewrite lookup_insert_eq. by intros [= <-].
  - rewrite lookup_insert_ne by done. left. eauto.
Qed.

Lemma safe_change_leases {E B} self (f : LeaseRegistry.t → B * LeaseRegistry.t) : safe (change_leases self f : action St E B).
Proof. unfold change_leases. safe_all. apply safe_insert. by apply T_records; [apply peers_same|]. Qed.

Lemma safe_change_attachments {E B} self (f : gmap string AttachmentRecord.t → B * gmap string AttachmentRecord.t) :
  (∀ a, peers_from a (f a).2) → safe (change_attachments self f : action St E B).
Proof.
  intros Hf. unfold change_attachments. apply holds_shared. intros t Ht. specialize (Hf (SessionTerminal.attachments t)).
  destruct (f _) as [b attachments]. safe_all. apply safe_insert. by apply T_records.
Qed.

Lemma safe_change_view_leases {E B} self (b : B) f : safe (change_view_leases self b f : action St E B).
Proof. unfold change_view_leases. safe_all. Qed.
#[local] Hint Resolve safe_change_leases safe_change_view_leases : safe.

Lemma safe_create_attachment {E} self att candidates i l peer : good_peer peer →
  safe (create_attachment_inner self att candidates i l peer : action St E _).
Proof.
  intros Hp. unfold create_attachment_inner, register. safe_all. apply safe_change_attachments. intros a.
  unfold enroll. destruct (pick_token _ _); [|apply peers_same]. apply peers_insert. by right.
Qed.

Lemma safe_resume_attachment {E} self token peer : match peer with Some peer => good_peer peer | None => True end →
  safe (resume_attachment_inner self token peer : action St E _).
Proof.
  intros Hp. unfold resume_attachment_inner, with_view_leases. safe_all. apply safe_change_attachments. intros a.
  unfold rebind. destruct (a !! token) as [record|] eqn:Er; [|apply peers_same]. destruct (succ64 _); [|apply peers_same].
  apply peers_insert. destruct peer; cbn; [by right|left]. eauto.
Qed.

Lemma safe_suspend {E} self token generation : safe (suspend_attachment_inner self token generation : action St E _).
Proof.
  apply safe_change_attachments. intros a. unfold suspend. destruct (a !! token) as [record|] eqn:Er; [|apply peers_same].
  destruct (_ || _); [apply peers_same|]. apply peers_insert. left. eauto.
Qed.

Lemma safe_leave {E} expire self token generation : safe (Attachments.leave expire self token generation : action St E _).
Proof.
  unfold Attachments.leave, release_input, release_layout. safe_all. apply safe_change_attachments. intros a.
  unfold drop_record. destruct (a !! token); [|apply peers_same]. destruct (_ || _); [apply peers_same|apply peers_delete].
Qed.

Lemma safe_lease {E} self att kind (acquire : bool) :
  safe (if acquire then acquire_lease_inner self att kind else release_lease_inner self att kind : action St E _).
Proof. unfold acquire_lease_inner, release_lease_inner. safe_all. Qed.

Lemma safe_on_screen {E B} id f : safe (on_screen id f : action St E B).
Proof. apply safe_screen. eauto with safe. Qed.
End operations.

(** * The daemon as a machine *)

(** What happens to a daemon: a connection is served or a local-control connection, an
    attached client asks for something, the driver of an attachment ends, the timer of a
    lost one does, a process ends, or something happens to a terminal's state, such as
    output of its process. *)
Inductive event (St : Type) `{Inspection St} :=
  | Connects (env : Surroundings.t St) (daemon : DaemonIdentity.t) (liveness : AttachmentLiveness.t)
      (first : option ClientMessage.t) (opening : option OpeningRequest.t)
  | Controls (env : Surroundings.t St) (daemon : DaemonIdentity.t) (first second : option LocalControlClientMessage.t)
  | Asks (env : Surroundings.t St) (a : Attached.t) (message : ClientMessage.t)
  | Leaves (guard : AttachmentGuard.t) (exit : AttachmentExit)
  | Expires (self token : string) (generation : N)
  | Exits (id : string) (exit_code : option N)
  | Changes (id : string) (change : screen_change).
Arguments Connects {St _}. Arguments Controls {St _}. Arguments Asks {St _}. Arguments Leaves {St _}.
Arguments Expires {St _}. Arguments Exits {St _}. Arguments Changes {St _}.

(** What a daemon answers *)
Inductive answer :=
  | Replies (replies : list ServerMessage.t) (attachment : option PreparedAttachment.t)
  | LocalReplies (replies : list LocalControlServerMessage.t)
  | Reply (reply : option ServerMessage.t)
  | Silence.

Section machine.
Context {St U : Type} `{Countable U} `{Screen St} `{!Inspection St} `{!UuidText U}.
Notation handler := (handler St U).

Definition internal {A} (m : action St Empty_set A) : handler answer := _ ← registry_op m; mret Silence.

Definition serve (e : event St) : handler answer :=
  match e with
  | Connects env daemon liveness first opening =>
      '(replies, attachment) ← handle_connection env daemon liveness first opening; mret (Replies replies attachment)
  | Controls env daemon first second =>
      replies ← handle_local_control_connection env daemon first second; mret (LocalReplies replies)
  | Asks env a message => reply ← process_attach_input env a message; mret (Reply reply)
  | Leaves guard exit => internal (end_attachment guard exit)
  | Expires self token generation => internal (expire_attachment_inner self token generation)
  | Exits id exit_code => internal (_ ← on_screen id (λ s, s ← screen_end_shell s; Some ((), s)); process_ended id exit_code)
  | Changes id change => internal (on_screen id (λ s, s ← screen_apply change s; Some ((), s)))
  end.
End machine.

(** * Serving never panics *)

(** [m] does not panic; its value and the daemon it leaves satisfy [Q]. *)
Definition hwp {St U A} `{Countable U} (m : handler St U A) (d : Daemon.t St U) (Q : A → Daemon.t St U → Prop) : Prop :=
  match m d with
  | (Ok a, d) => Q a d
  | _ => False
  end.

Section hwp.
Context {St U : Type} `{Countable U}.
Implicit Types (d : Daemon.t St U).

Lemma hwp_ret {A} (a : A) d (Q : A → _ → Prop) : Q a d → hwp (mret a) d Q.
Proof. done. Qed.

Lemma hwp_bind {A B} (m : handler St U A) (f : A → handler St U B) d Q : hwp m d (λ a d, hwp (f a) d Q) → hwp (m ≫= f) d Q.
Proof. unfold hwp, mbind, handler_bind. by destruct (m d) as [[a|e|] d']. Qed.

Lemma hwp_mono {A} (m : handler St U A) d (Q Q' : A → _ → Prop) : hwp m d Q → (∀ a d, Q a d → Q' a d) → hwp m d Q'.
Proof. unfold hwp. destruct (m d) as [[a|e|] d']; naive_solver. Qed.

Lemma hwp_op {E A} (m : action St E A) d (Q : E + A → _ → Prop) :
  wp m (Daemon.registry d) (λ a r, Q (inr a) (set_registry r d)) (λ r, ∀ e, Q (inl e) (set_registry r d)) → hwp (registry_op m) d Q.
Proof. unfold hwp, wp, registry_op. destruct (m _) as [[a|e|] r]; auto. Qed.

Lemma hwp_gate {A} (m : handler St U A) d (Q : option A → _ → Prop) :
  Q None d → hwp m d (λ a, Q (Some a)) → hwp (run_while_accepting m) d Q.
Proof.
  intros HN HS. unfold run_while_accepting, hwp. destruct (Daemon.draining d); [done|].
  apply (hwp_bind m (λ a, mret (Some a)) d Q). exact HS.
Qed.
End hwp.

Lemma wp_both {St E A} (m : action St E A) r (Q : A → _ → Prop) (I : SessionRegistry.t St → Prop) :
  wp m r Q I → I (m r).2 → wp m r (λ a r', Q a r' ∧ I r') I.
Proof. unfold wp. destruct (m r) as [[a|e|] r']; naive_solver. Qed.

(** What serving needs of a terminal besides its size: [screen_born size] are the terminals
    that a process of that size starts with; [screen_cost c] is how much room the change [c]
    takes, and [screen_takes c] are the terminals that withstand it. *)
Class InspectionLaws (St : Type) `{ScreenLaws St, !Inspection St} := {
  screen_born : TerminalSize.t → St → Prop;
  screen_born_ok k size s : (k < u64_MAX)%N → valid_size size → screen_born size s → screen_ok k s;
  screen_statistics_ok k s : screen_ok k s → screen_ok k (screen_statistics s).2;
  screen_refresh_ok k s : screen_ok (k + 1) s → ∃ s', screen_refresh_shell s = Some s' ∧ screen_ok k s';
  screen_end_ok k s : screen_ok (k + 1) s → ∃ s', screen_end_shell s = Some s' ∧ screen_ok k s';
  screen_cost : screen_change → N;
  screen_takes : screen_change → St → Prop;
  screen_apply_ok k c s : screen_ok (k + screen_cost c) s → screen_takes c s →
    ∃ s', screen_apply c s = Some s' ∧ screen_ok k s' }.

Section serving.
Context {St U : Type} `{Countable U} `{InspectionLaws St} `{!UuidText U}.
Implicit Types (d : Daemon.t St U) (r : SessionRegistry.t St) (env : Surroundings.t St).

(** Every recorded peer is valid. *)
Definition peers_ok (id : string) (t : SessionTerminal.t St) : Prop :=
  map_Forall (λ _ record, peer_ok (AttachmentRecord.peer record)) (SessionTerminal.attachments t).

(** The registry is well formed, every recorded peer is valid, and a managed run that is
    retained is a managed terminal that is still there. *)
Record sound (k : N) d : Prop := {
  sound_inv : Inv k (Daemon.registry d);
  sound_peers id t : store (Daemon.registry d) !! id = Some t → peers_ok id t;
  sound_managed key id : Daemon.managed d !! key = Some (Some id) →
    ∃ t, store (Daemon.registry d) !! id = Some t ∧ SessionTerminal.managed t = true }.

Lemma sound_mono k k' d : (k' ≤ k)%N → sound k d → sound k' d.
Proof. intros Hle []. split; try done. by eapply Inv_mono. Qed.

(** The sizes a request asks for can be drawn on. *)
Definition sizes_ok (request : ClientMessage.t) : Prop :=
  match request with
  | ClientMessage.CreateSession _ _ _ size | ClientMessage.SplitTerminal _ _ _ _ size => valid_size size
  | ClientMessage.Resize size => u16_size size
  | _ => True
  end.

Lemma default_valid : valid_size default_terminal_size.
Proof. pose proof widest_u16. unfold valid_size. cbn. unfold u16_MAX in *. lia. Qed.

(** New identifiers are new, a process starts with a terminal of its size, and a random
    token is found. *)
Record env_ok env d : Prop := {
  env_terminal : store (Daemon.registry d) !! Surroundings.terminal_id env = None;
  env_session : sessions (Daemon.registry d) !! Surroundings.session_id env = None;
  env_spawn command directory size : valid_size size →
    Surroundings.spawn env command directory size ⇓? (λ process, screen_born size (Spawned.state process));
  env_token id t : store (Daemon.registry d) !! id = Some t →
    is_Some (pick_token (Surroundings.tokens env) (SessionTerminal.attachments t)) }.

Lemma env_spawned env d k command directory size : env_ok env d → (k < u64_MAX)%N → valid_size size →
  Surroundings.spawn env command directory size ⇓? (λ process, screen_ok k (Spawned.state process)).
Proof.
  intros He Hk Hv. pose proof (env_spawn _ _ He command directory size Hv) as Hs.
  destruct (Surroundings.spawn _ _ _ _); [|done..]. simpl in *. by eapply screen_born_ok.
Qed.

(** What is the same of a terminal in a later registry: it is there, and managed when it was *)
Definition persists r r' : Prop :=
  ∀ id t, store r !! id = Some t → ∃ t', store r' !! id = Some t' ∧ SessionTerminal.managed t' = SessionTerminal.managed t.

(** An operation of the registry that is safe in the way of the last part; [new] are the
    terminals it may create. *)
Definition tame (new : string → Prop) {E A} (m : action St E A) : Prop :=
  ∀ T D, (∀ id t t', SessionTerminal.managed t' = SessionTerminal.managed t →
      SessionTerminal.attachments t' = SessionTerminal.attachments t → T id t → T id t') →
    (∀ id t l a, peers_from peer_ok (SessionTerminal.attachments t) a → T id t → T id (SessionTerminal.set_attachments l a t)) →
    (∀ is_managed name id sid vid now state pty, new id → T id (new_terminal is_managed name id sid vid now state pty)) →
    safe T D (λ _, True) (λ _, True) m.

Definition fresh (new : string → Prop) r : Prop := ∀ id, new id → store r !! id = None.
Definition none : string → Prop := λ _, False.
Lemma fresh_none r : fresh none r.
Proof. by intros id []. Qed.

Lemma tame_persists new {E A} (m : action St E A) r : tame new m → fresh new r → persists r (m r).2.
Proof.
  intros Hm Hnew id t Ht.
  destruct (Hm (λ i t', i = id → SessionTerminal.managed t' = SessionTerminal.managed t) (λ i, i = id)) with r as [[Ht1 Ht2 _ _] _].
  - intros i t1 t2 Em _ HT Hi. rewrite Em. auto.
  - intros i t1 l a _ HT. exact HT.
  - intros ? ? i ? ? ? ? ? Hi ->. apply Hnew in Hi. congruence.
  - split; try done; [|by intros i ->]. intros i t1 Hi ->. congruence.
  - destruct (Ht2 id eq_refl) as [t' Ht']. exists t'. split; [done|]. by apply (Ht1 id).
Qed.

Lemma tame_peers new {E A} (m : action St E A) r : tame new m →
  (∀ id t, store r !! id = Some t → peers_ok id t) → ∀ id t, store (m r).2 !! id = Some t → peers_ok id t.
Proof.
  intros Hm Hr. destruct (Hm peers_ok (λ _, False)) with r as [[Ht1 _ _ _] _]; [..|exact Ht1].
  - intros id t t' _ Ea HT. unfold peers_ok. by rewrite Ea.
  - intros id t l a Ha HT token record Hrec. destruct (Ha _ _ Hrec) as [(token' & record' & Hr' & ->)|?]; [|done]. by eapply HT.
  - intros. by apply map_Forall_empty.
  - by split.
Qed.

(** A tame operation that keeps the registry's invariant keeps the daemon sound. *)
Lemma hwp_tame new {E A} (m : action St E A) k k' d (Q : E + A → _ → Prop) :
  sound k d → tame new m → fresh new (Daemon.registry d) →
  wp m (Daemon.registry d) (λ a r, Inv k' r ∧ (sound k' (set_registry r d) → Q (inr a) (set_registry r d)))
     (λ r, Inv k' r ∧ (sound k' (set_registry r d) → ∀ e, Q (inl e) (set_registry r d))) →
  hwp (registry_op m) d Q.
Proof.
  intros [HI Hp Hm] Ht Hnew Hw. apply hwp_op.
  pose proof (tame_persists new m (Daemon.registry d) Ht Hnew) as Hper. pose proof (tame_peers new m _ Ht Hp) as Hpe. unfold wp in *.
  destruct (m (Daemon.registry d)) as [[a|e|] r']; cbn in *; [| |done].
  all: destruct Hw as [HI' HQ]; intros; apply HQ; split; try done; cbn.
  all: intros key id (t & Hid & Hmg)%Hm; destruct (Hper id t Hid) as (t' & ? & ?); exists t'; split; [done|congruence].
Qed.

(** ** The operations a handler calls *)

Lemma run_inv k q r : Inv (k + 3) r → (k + 3 < u64_MAX)%N → admissible (k + 3) q r →
  wp (run q) r (λ _ r', Inv k r') (λ r', Inv k r').
Proof.
  intros HI Hle Ha. eapply wp_mono; [apply wp_run; [done|lia|done]| |].
  - intros [] r' (m & [] & _). done.
  - intros r' [Hl|(_ & m & [] & _)]; [|done]. destruct (undoes q); by destruct Hl.
Qed.

Lemma wp_unserved {E A} (m : action St E A) r (P : SessionRegistry.t St → Prop) :
  wp (served m) r (λ _ r', P r') P → wp m r (λ _ r', P r') P.
Proof. unfold wp, served, mapping, mbind, action_bind. by destruct (m r) as [[a|e|] r']. Qed.

Lemma hwp_run {E A} (m : action St E A) q k d (Q : E + A → _ → Prop) :
  sound (k + 3) d → (k + 3 < u64_MAX)%N → admissible (k + 3) q (Daemon.registry d) → run q = served m → tame none m →
  (∀ x d', sound k d' → Q x d') → hwp (registry_op m) d Q.
Proof.
  intros Hs Hle Ha Er Ht HQ. eapply (hwp_tame none m (k + 3) k d Q Hs Ht (fresh_none _)).
  assert (wp m (Daemon.registry d) (λ _ r', Inv k r') (λ r', Inv k r')) as Hw.
  { apply wp_unserved. rewrite <- Er. apply run_inv; [apply Hs|done|done]. }
  eapply wp_mono; [exact Hw| |]; cbn; eauto.
Qed.

(** Reading changes nothing. *)
Lemma hwp_reading {E A} (m : action St E A) d (Q : E + A → _ → Prop) :
  wp m (Daemon.registry d) (λ a r, r = Daemon.registry d ∧ Q (inr a) d) (λ r, r = Daemon.registry d ∧ ∀ e, Q (inl e) d) →
  hwp (registry_op m) d Q.
Proof.
  intros Hw. apply hwp_op. eapply wp_mono; [exact Hw| |]; cbn.
  - intros a r [-> HQ]. by destruct d.
  - intros r [-> HQ] e. by destruct d.
Qed.

Ltac tame := intros T D HT1 HT2 HT3.

Lemma tame_quiet {E A} (m : action St E A) :
  (∀ T D, (∀ id t t', kept t t' → T id t → T id t') → safe T D (λ _, True) (λ _, True) m) → tame none m.
Proof. intros Hm. tame. apply Hm. intros id t t' K. apply HT1; [apply (kept_managed _ _ K)|apply (kept_attachments _ _ K)]. Qed.

Lemma tame_reading {E A} (f : SessionRegistry.t St → outcome E A) : tame none (reading f).
Proof. tame. apply safe_reading. Qed.

Lemma hwp_resolve selector k d Q : sound k d → (∀ x, Q x d) → hwp (registry_op (resolve selector)) d Q.
Proof. intros [HI _ _] HQ. apply hwp_reading. eapply wp_resolve; [exact HI|naive_solver..]. Qed.

Lemma hwp_view selector k d Q : sound k d → (∀ x, Q x d) → hwp (registry_op (session_view selector)) d Q.
Proof.
  intros [HI _ _] HQ. apply hwp_reading. unfold session_view. apply wp_reading.
  pose proof (view_info_total (Daemon.registry d) selector (Inv_laid _ _ HI)) as Hv.
  destruct (view_info _ _); [naive_solver..|done].
Qed.

Lemma sound_kill ids k d : sound k d → sound k (set_killed ids d).
Proof. by intros []. Qed.
Lemma sound_draining x k d : sound k d → sound k (set_draining x d).
Proof. by intros []. Qed.
Lemma sound_cancelled x k d : sound k d → sound k (set_cancelled x d).
Proof. by intros []. Qed.
Lemma sound_ever x k d : sound k d → sound k (set_ever_had_session x d).
Proof. by intros []. Qed.
Lemma sound_typed x k d : sound k d → sound k (set_typed x d).
Proof. by intros []. Qed.
Lemma sound_forget k d : sound k d → sound k (set_managed ∅ d).
Proof. by intros []. Qed.

Lemma hwp_kill env id k d Q : sound k d → (∀ x d', sound k d' → Daemon.managed d' = Daemon.managed d → Q x d') →
  hwp (kill_terminal env id) d Q.
Proof. intros Hs HQ. unfold hwp, kill_terminal. destruct (Surroundings.kill env id) as [e|[]]; apply HQ; first [done|by apply sound_kill]. Qed.

Lemma hwp_kills env ids k d Q : sound k d → (∀ x d', sound k d' → Q x d') → hwp (kill_terminals env ids) d Q.
Proof.
  intros Hs HQ. revert d Hs. induction ids as [|id ids IH]; intros d Hs; cbn [kill_terminals]; [apply hwp_ret; auto|].
  apply hwp_bind. eapply hwp_kill; [exact Hs|]. intros [e|[]] d' Hs' _; [apply hwp_ret; auto|auto].
Qed.

(** ** Creating *)

Lemma ok_bind {E A B} (m : action St E A) (f : A → action St E B) (P : B → SessionRegistry.t St → Prop) :
  (∀ a r b r', f a r = (Ok b, r') → P b r') → ∀ r b r', (m ≫= f) r = (Ok b, r') → P b r'.
Proof. intros Hf r b r'. unfold mbind, action_bind. destruct (m r) as [[a|e|] r1]; [apply Hf|done..]. Qed.

(** The terminal created is the one in the store. *)
Lemma created_stored requested placement is_managed id sid vid now spawned r t r' :
  create_terminal requested placement is_managed id sid vid now spawned r = (Ok t, r') → store r' !! id = Some t.
Proof.
  revert r t r'. unfold create_terminal. apply ok_bind. intros _. apply ok_bind. intros name. apply ok_bind. intros a.
  assert (∀ r t r', reading (E := SessionManagerError) (λ r, shared r id) r = (Ok t, r') → store r' !! id = Some t) as Hr.
  { intros r t r'. unfold reading, shared. destruct (store r !! id) eqn:E; [|done]. cbn. intros [= <- <-]. done. }
  destruct a as [[error|[]]|e|]; [done|exact Hr|by apply ok_bind|exact Hr].
Qed.

Lemma hwp_create requested placement is_managed id sid vid now spawned k d Q :
  sound (k + 3) d → (k + 3 < u64_MAX)%N → store (Daemon.registry d) !! id = None → sessions (Daemon.registry d) !! sid = None →
  (spawned ⇓? λ process, screen_ok (k + 3) (Spawned.state process)) →
  (∀ x d', sound k d' → Daemon.managed d' = Daemon.managed d →
     match x with
     | inr t => store (Daemon.registry d') !! SessionTerminal.id t = Some t ∧ SessionTerminal.managed t = is_managed
     | inl _ => True
     end → Q x d') →
  hwp (creating (create_terminal requested placement is_managed id sid vid now spawned)) d Q.
Proof.
  intros Hs Hle Hid Hsid Hsp HQ. unfold creating. apply hwp_bind.
  assert (tame (λ i, i = id) (create_terminal requested placement is_managed id sid vid now spawned)) as Ht.
  { tame. apply (safe_create _ _ _ _ HT1); [done..|]. intros. by apply HT3. }
  eapply (hwp_tame (λ i, i = id) _ (k + 3) k); [exact Hs|exact Ht|by intros ? ->|].
  pose proof (created_stored requested placement is_managed id sid vid now spawned (Daemon.registry d)) as Hst.
  assert (∀ t, store (create_terminal requested placement is_managed id sid vid now spawned (Daemon.registry d)).2 !! id = Some t →
    SessionTerminal.managed t = is_managed) as Hm.
  { intros t Ht'. destruct (safe_create (λ i t', i = id → SessionTerminal.managed t' = is_managed) (λ _, False) (λ _, True) (λ _, True))
      with requested placement is_managed id sid vid now spawned (Daemon.registry d) as [[Hall _ _ _] _]; try done.
    - intros i t1 t2 Em _ HT Hi. rewrite Em. auto.
    - split; try done. intros i t1 Hi ->. congruence.
    - by apply (Hall id). }
  assert (wp (create_terminal requested placement is_managed id sid vid now spawned) (Daemon.registry d)
            (λ _ r', Inv k r') (λ r', Inv k r')) as Hi.
  { apply wp_unserved, (run_inv k (Create requested placement is_managed id sid vid now spawned)); [apply Hs|done|done]. }
  unfold wp in *. destruct (create_terminal _ _ _ _ _ _ _ _ _) as [[t|e|] r']; cbn in Hm; [| |done].
  - split; [done|]. intros Hs'. apply hwp_bind, hwp_ret, hwp_ret. specialize (Hst t r' eq_refl).
    apply HQ; [by apply sound_ever|done|]. cbn. destruct (inv_store _ _ Hi id t Hst) as [-> _]. auto.
  - split; [done|]. intros Hs' e'. apply hwp_ret. by apply HQ.
Qed.

(** ** Reading before creating *)

Lemma hwp_creating_after {A} (f : SessionRegistry.t St → outcome SessionManagerError A) g d Q :
  match f (Daemon.registry d) with Ok a => hwp (creating (g a)) d Q | Err e => Q (inl e) d | Panic => False end →
  hwp (creating (reading f ≫= g)) d Q.
Proof.
  unfold hwp, creating, registry_op, reading, mbind, handler_bind, action_bind.
  destruct (f _) as [a|e|]; cbn; [done| |done]. by destruct d.
Qed.

Lemma resolve_Ok selector r t r' : resolve selector r = (Ok t, r') → r' = r ∧ ∃ id, listed r id = Some t.
Proof.
  unfold resolve, reading. destruct (listed r selector) as [t'|] eqn:El; [intros [= <- <-]; eauto|].
  destruct (root r selector) as [s|e|]; cbn; [|done..].
  destruct (map_err _ _) as [id|e|]; cbn; [|done..]. destruct (listed r id) eqn:E; cbn; [|done]. intros [= <- <-]. eauto.
Qed.

Lemma listed_stored k r id t : Inv k r → listed r id = Some t → SessionTerminal.id t = id ∧ store r !! id = Some t.
Proof. intros HI [_ Ht]%listed_Some. split; [|done]. by destruct (inv_store _ _ HI id t Ht). Qed.

Lemma hwp_resolved selector k d Q : sound k d →
  (∀ x, (∀ t, x = inr t → store (Daemon.registry d) !! SessionTerminal.id t = Some t) → Q x d) → hwp (registry_op (resolve selector)) d Q.
Proof.
  intros Hs HQ. destruct (Hs) as [HI _ _]. apply hwp_reading.
  assert (wp (resolve selector) (Daemon.registry d) (λ _ r, r = Daemon.registry d) (λ r, r = Daemon.registry d)) as Hw.
  { eapply wp_resolve; [exact HI|done..]. }
  pose proof (resolve_Ok selector (Daemon.registry d)) as Hok. unfold wp in *.
  destruct (resolve _ _) as [[t|e|] r']; [| |done].
  - split; [done|]. destruct (Hok t r' eq_refl) as [_ (id & Hl)]. apply HQ. intros t' [= <-].
    by destruct (listed_stored _ _ _ _ HI Hl) as [-> ?].
  - split; [done|]. intros e'. by apply HQ.
Qed.

Lemma hwp_split env target axis command directory size k d Q :
  sound (k + 3) d → (k + 3 < u64_MAX)%N → env_ok env d → valid_size size → (∀ x d', sound k d' → Q x d') →
  hwp (creating (split_terminal env target axis command directory size)) d Q.
Proof.
  intros Hs Hle He Hsize HQ. unfold split_terminal, resolve. apply hwp_creating_after.
  pose proof (wp_resolve target (k + 3) (Daemon.registry d) (λ _ _, True) (λ _, True) (sound_inv _ _ Hs)) as Hw.
  unfold wp, resolve, reading in Hw. cbv beta in Hw |- *.
  destruct (match listed (Daemon.registry d) target with Some _ => _ | None => _ end) as [t|e|].
  - cbv zeta. eapply hwp_create; [exact Hs|done|apply He|apply He|by eapply env_spawned|]. auto.
  - apply HQ. eapply sound_mono; [|exact Hs]. lia.
  - by apply Hw.
Qed.

(** ** Attachments *)

Lemma hwp_prepare env self peer i l request k d Q :
  sound k d → env_ok env d → peer_ok peer → is_Some (store (Daemon.registry d) !! self) →
  (∀ x d', sound k d' → Q x d') → hwp (registry_op (prepare_attachment env self peer i l request)) d Q.
Proof.
  intros Hs He Hp Hself HQ. destruct (Hs) as [HI _ _]. destruct Hself as [t Ht].
  eapply (hwp_tame none _ k k); [exact Hs| |apply fresh_none|].
  { tame. unfold prepare_attachment, subscribe_events. safe_all. by eapply safe_create_attachment. }
  unfold prepare_attachment. apply wp_bind. unfold subscribe_events. apply wp_bind, wp_reading. unfold shared. rewrite Ht. cbn.
  assert (∀ e, Inv k (Daemon.registry d) ∧ (sound k (set_registry (Daemon.registry d) d) → Q (inl e) (set_registry (Daemon.registry d) d)))
    as HE by auto.
  destruct (SessionTerminal.lifecycle t) as [|code]; [|apply wp_lift; split; [done|auto]].
  apply wp_ret, wp_bind. eapply wp_mono.
  - apply (wp_create_attachment self _ _ i l peer k _ (λ _, False)); [done|by eexists|].
    intros t' Ht'. by eapply env_token.
  - intros registration r' Hu. apply wp_ret. split; [eapply unseen_inv, Hu|auto].
  - done.
Qed.

Lemma hwp_prepare_resumed self token peer request k d Q :
  sound k d → peer_ok peer → is_Some (store (Daemon.registry d) !! self) →
  (∀ x d', sound k d' → Q x d') → hwp (registry_op (prepare_resumed_attachment self token peer request)) d Q.
Proof.
  intros Hs Hp Hself HQ. destruct (Hs) as [HI _ _].
  eapply (hwp_tame none _ k k); [exact Hs| |apply fresh_none|].
  { tame. unfold prepare_resumed_attachment, subscribe_events. safe_all. by eapply safe_resume_attachment. }
  assert (∀ r', Inv k r' → Inv k r' ∧ (sound k (set_registry r' d) → ∀ e, Q (inl e) (set_registry r' d))) as HE by auto.
  unfold prepare_resumed_attachment. apply wp_bind, wp_mapping. destruct Hself as [t Ht]. unfold subscribe_events.
  apply wp_bind, wp_reading. unfold shared. rewrite Ht. cbn.
  destruct (SessionTerminal.lifecycle t) as [|code]; [|by apply wp_lift, HE]. apply wp_ret, wp_bind.
  eapply wp_mono; [by apply (wp_resume_attachment self token (Some peer) k _ (λ _, False))| |done].
  intros registration r' Hu%unseen_inv. apply wp_bind, wp_lift. destruct registration; cbn; [|by apply HE].
  split; [exact Hu|auto].
Qed.

Lemma hwp_resolve_and {E A} session (prepare : string → action St E A) k d Q :
  sound k d →
  (∀ self Q', is_Some (store (Daemon.registry d) !! self) → (∀ x d', sound k d' → Q' x d') → hwp (registry_op (prepare self)) d Q') →
  (∀ x d', sound k d' → Q x d') → hwp (resolve_and session prepare) d Q.
Proof.
  intros Hs Hp HQ. unfold resolve_and. apply hwp_gate; [by apply HQ|]. apply hwp_bind. eapply hwp_resolved; [exact Hs|].
  intros [e|t] Hx; [by apply hwp_ret, HQ|]. apply hwp_bind, Hp; [by eexists; apply Hx|]. intros x d' Hs'. by apply hwp_ret, HQ.
Qed.

Lemma hwp_new_attachment env session peer i l request k d Q :
  sound k d → env_ok env d → peer_ok peer → (∀ x d', sound k d' → Q x d') →
  hwp (handle_new_attachment_request env session peer i l request) d Q.
Proof.
  intros Hs He Hp HQ. unfold handle_new_attachment_request. destruct (negb _); [by apply hwp_ret, HQ|].
  apply hwp_bind, (hwp_resolve_and _ _ k); [done| |intros x d' Hs'; by apply hwp_ret, HQ].
  intros self Q' Hself HQ'. by eapply hwp_prepare.
Qed.

Lemma hwp_resume session token peer request k d Q :
  sound k d → peer_ok peer → (∀ x d', sound k d' → Q x d') →
  hwp (handle_resume_attachment_request session token peer request) d Q.
Proof.
  intros Hs Hp HQ. unfold handle_resume_attachment_request. destruct (negb _); [by apply hwp_ret, HQ|].
  apply hwp_bind, (hwp_resolve_and _ _ k); [done| |intros x d' Hs'; by apply hwp_ret, HQ].
  intros self Q' Hself HQ'. by eapply hwp_prepare_resumed.
Qed.

(** ** Requests that are answered at once *)

Section requests.
Context (env : Surroundings.t St) (version : ProtocolVersion.t) (k : N) (d : Daemon.t St U).
Context (Hs : sound (k + 3) d) (Hle : (k + 3 < u64_MAX)%N) (He : env_ok env d).
Context (Q : ServerMessage.t → Daemon.t St U → Prop) (HQ : ∀ x d', sound k d' → Q x d').

Lemma sound_here : sound k d.
Proof. eapply sound_mono; [|exact Hs]. lia. Qed.

Ltac answer := intros ? ? ?; apply hwp_ret, HQ; done.

Lemma hwp_rename session name : hwp (handle_rename_session_request version session name) d Q.
Proof.
  unfold handle_rename_session_request. destruct (negb _); [apply hwp_ret, HQ, sound_here|].
  apply hwp_bind, hwp_gate; [apply hwp_ret, HQ, sound_here|].
  eapply (hwp_run _ (Rename session name) k); [done..|reflexivity| |answer]. tame. by eapply safe_rename.
Qed.

Lemma hwp_view_request request : sizes_ok request → hwp (handle_view_request env version request) d Q.
Proof.
  intros Hsize. pose proof sound_here as Hhere. destruct request; cbn [handle_view_request]; try (apply hwp_ret, HQ, sound_here).
  - apply hwp_bind. eapply hwp_view; [exact Hhere|]. intros x. by apply hwp_ret, HQ.
  - apply hwp_bind, hwp_gate; [by apply hwp_ret, HQ|]. apply hwp_bind.
    eapply hwp_split; [done..|]. intros [e|t] d' Hs'; [by apply hwp_ret, hwp_ret, HQ|].
    eapply hwp_view; [exact Hs'|]. intros x. by apply hwp_ret, HQ.
  - destruct (_ && _); [by apply hwp_ret, HQ|]. apply hwp_bind.
    eapply (hwp_run _ (UpdateView _ _ _) k); [done..|reflexivity| |answer]. tame. by eapply safe_update.
  - apply hwp_bind. eapply (hwp_run _ (PromoteTerminal _ _ _ _ _) k); [done..|apply He|reflexivity| |answer].
    tame. by eapply safe_promote.
  - apply hwp_bind. eapply (hwp_run _ (MergeSessions _ _) k); [done..|reflexivity| |answer]. tame. by eapply safe_merge.
  - apply hwp_bind. eapply hwp_resolve; [exact Hhere|]. intros [e|t]; [by apply hwp_ret, HQ|].
    destruct (decide _); [|by apply hwp_ret, HQ]. apply hwp_bind. eapply hwp_kill; [exact Hhere|].
    intros x d' Hs' _. by apply hwp_ret, HQ.
Qed.

Lemma rows_total include_clients r : Inv k r → session_rows (E := Empty_set) include_clients r ⇓? λ _, True.
Proof.
  intros HI. unfold session_rows. set (step := λ _ _, _).
  assert (foldr step (Ok []) (map_to_list (sessions r)) ⇓? λ _, True) as Hf; [|by destruct (foldr _ _ _)].
  assert (Forall (λ kv, sessions r !! kv.1 = Some kv.2) (map_to_list (sessions r))) as Hall.
  { apply Forall_forall. intros [sid s] Hin. by apply elem_of_map_to_list in Hin. }
  induction Hall as [|[sid s] l Hsid _ IH]; [done|]. cbn [foldr]. unfold step at 1. cbn in Hsid |- *.
  destruct (inv_views _ _ HI sid s Hsid) as [_ Hd _ _ _].
  destruct (first_terminal_total _ (drawable_wf _ _ Hd)) as (id & -> & _). cbn. by destruct (foldr _ _ _).
Qed.

Lemma hwp_rows include_clients (Q' : list SessionUsage.t → Daemon.t St U → Prop) :
  (∀ x, Q' x d) → hwp (listed_sessions include_clients) d Q'.
Proof.
  intros HQ'. unfold hwp, listed_sessions. pose proof (rows_total include_clients _ (sound_inv _ _ sound_here)) as Hr.
  destruct (session_rows _ _) as [rows|e|]; [apply HQ'|done..].
Qed.

Lemma hwp_session_request request : sizes_ok request → hwp (handle_session_request env version request) d Q.
Proof.
  intros Hsize. pose proof sound_here as Hhere. destruct request; cbn [handle_session_request]; try by apply hwp_view_request.
  - apply hwp_bind, hwp_rows. intros x. by apply hwp_ret, HQ.
  - destruct (supports_client_presence _); [|by apply hwp_ret, HQ]. apply hwp_bind, hwp_rows. intros x. by apply hwp_ret, HQ.
  - apply hwp_rename.
  - apply hwp_bind. eapply hwp_resolve; [exact Hhere|]. intros x. by apply hwp_ret, HQ.
Qed.

Lemma hwp_kill_session session : hwp (handle_kill_session_request env session) d Q.
Proof.
  unfold handle_kill_session_request. apply hwp_bind.
  eapply (hwp_run _ (BeginTermination session) k); [done..|reflexivity| |].
  { tame. by eapply safe_begin_termination. }
  intros [e|ids] d' Hs'; [by apply hwp_ret, HQ|]. apply hwp_bind. eapply hwp_kills; [exact Hs'|answer].
Qed.

Lemma hwp_create_session name command directory size : valid_size size → hwp (handle_create_session_request env name command directory size) d Q.
Proof.
  intros Hsize. unfold handle_create_session_request. apply hwp_bind, hwp_gate; [apply hwp_ret, HQ, sound_here|].
  eapply hwp_create; [done..|apply He|apply He|by eapply env_spawned|]. intros x d' Hs' _ _. by apply hwp_ret, HQ.
Qed.
End requests.

(** ** Connections *)

Lemma opening_asks opening version legacy request peer :
  read_opening_request opening version legacy = inr (request, peer) → request = OpeningRequest.request opening.
Proof.
  unfold read_opening_request. destruct (OpeningRequest.client_identity opening); [destruct (_ || _); [done|]|]; by intros [= <- _].
Qed.

Lemma opening_peer opening version legacy request peer : peer_ok legacy →
  read_opening_request opening version legacy = inr (request, peer) → peer_ok peer.
Proof.
  intros Hl. unfold read_opening_request. destruct (OpeningRequest.client_identity opening) as [identity|]; [|congruence].
  destruct (validate_identity identity) eqn:Ev.
  - destruct (_ || _); [done|]. by intros [= _ <-].
  - by rewrite orb_true_r.
Qed.

Lemma hwp_opening env liveness version peer request k d Q :
  sound (k + 3) d → (k + 3 < u64_MAX)%N → env_ok env d → peer_ok peer → sizes_ok request →
  (∀ x d', sound k d' → Q x d') → hwp (handle_opening env liveness version peer request) d Q.
Proof.
  intros Hs Hle He Hp Hsize HQ. pose proof (sound_mono (k + 3) k d ltac:(lia) Hs) as Hhere.
  assert (∀ x d', sound k d' → hwp (mret (inl x) : handler St U (ServerMessage.t + PreparedAttachment.t)) d' Q) as HR.
  { intros x d' Hs'. by apply hwp_ret, HQ. }
  destruct request; cbn [handle_opening]; unfold replying.
  all: try (apply hwp_bind, (hwp_session_request env version k); done).
  - apply hwp_bind, (hwp_create_session env k); done.
  - eapply (hwp_new_attachment _ _ _ _ _ _ (k + 3)); [done..|]. intros x d' Hs'. apply HQ. eapply sound_mono; [|exact Hs']. lia.
  - by eapply hwp_resume.
  - apply hwp_bind, (hwp_kill_session env k); done.
Qed.

Lemma hwp_unless_cancelled {A} (nothing : A) (m : handler St U A) d Q : Q nothing d → hwp m d Q → hwp (unless_cancelled nothing m) d Q.
Proof. unfold hwp, unless_cancelled. by destruct (Daemon.cancelled d). Qed.

Lemma hwp_connection env daemon liveness first opening k d Q :
  sound (k + 3) d → (k + 3 < u64_MAX)%N → env_ok env d →
  (∀ o, opening = Some o → sizes_ok (OpeningRequest.request o)) → (∀ x d', sound k d' → Q x d') →
  hwp (handle_connection env daemon liveness first opening) d Q.
Proof.
  intros Hs Hle He Hsize HQ. pose proof (sound_mono (k + 3) k d ltac:(lia) Hs) as Hhere.
  apply hwp_unless_cancelled; [by apply HQ|]. unfold handle_active_connection. destruct first as [first|]; [|by apply hwp_ret, HQ].
  destruct (accept_handshake _ _ _) as [reply [[version legacy]|]] eqn:Eh; [|by apply hwp_ret, HQ].
  assert (peer_ok legacy) as Hl.
  { unfold accept_handshake in Eh. destruct first; try done. destruct (ProtocolOffer.negotiate _ _); [|done].
    injection Eh as _ _ <-. apply legacy_peer_ok. }
  apply hwp_bind. unfold handle_request. destruct opening as [opening|]; [|by apply hwp_ret, hwp_ret, HQ].
  destruct (read_opening_request _ _ _) as [e|[request peer]] eqn:Eo; [by apply hwp_ret, hwp_ret, HQ|].
  apply hwp_bind. eapply (hwp_opening _ _ _ _ _ k); [done..|by eapply opening_peer| |].
  { rewrite (opening_asks _ _ _ _ _ Eo). by apply Hsize. }
  intros [x|x] d' Hs'; by apply hwp_ret, hwp_ret, HQ.
Qed.

(** ** Local control *)

Lemma hwp_get {A} (f : Daemon.t St U → A) d (Q : A → _ → Prop) : Q (f d) d → hwp (asking f) d Q.
Proof. done. Qed.

Lemma hwp_change f d (Q : () → _ → Prop) : Q () (f d) → hwp (daemon_op f) d Q.
Proof. done. Qed.

Lemma sound_retain key run k d : sound k d →
  (∀ id, run = Some id → ∃ t, store (Daemon.registry d) !! id = Some t ∧ SessionTerminal.managed t = true) →
  sound k (set_managed (<[key := run]> (Daemon.managed d)) d).
Proof.
  intros [HI Hp Hm] Hrun. split; try done. cbn. intros key' id. destruct (decide (key' = key)) as [->|Hne].
  - rewrite lookup_insert_eq. intros [= ->]. by apply Hrun.
  - rewrite lookup_insert_ne by done. apply Hm.
Qed.

Lemma hwp_retired key k d Q : sound k d → (∀ x d', sound k d' → Q x d') →
  hwp (_ ← retain key None; mret None) d (λ (x : option string) d', Q x d').
Proof. intros Hs HQ. apply hwp_bind, hwp_change, hwp_ret, HQ. by apply sound_retain. Qed.

Lemma hwp_lifecycle id d Q : is_Some (store (Daemon.registry d) !! id) → (∀ x, Q x d) → hwp (shared_lifecycle id) d Q.
Proof.
  intros [t Ht] HQ. apply hwp_reading, wp_bind, wp_reading. unfold shared. rewrite Ht. by apply wp_ret.
Qed.

Lemma hwp_manage_run env key operation k d Q :
  sound (k + 3) d → (k + 3 < u64_MAX)%N → env_ok env d → (∀ x d', sound k d' → Q x d') →
  hwp (manage_run env key (Daemon.managed d !! key) operation) d Q.
Proof.
  intros Hs Hle He HQ. pose proof (sound_mono (k + 3) k d ltac:(lia) Hs) as Hhere.
  assert (∀ id, Daemon.managed d !! key = Some (Some id) → is_Some (store (Daemon.registry d) !! id)) as Hthere.
  { intros id (t & Ht & _)%(sound_managed _ _ Hs). by eexists. }
  destruct operation; cbn [manage_run].
  - destruct (Daemon.managed d !! key) as [[id|]|]; [by apply hwp_ret, HQ..|]. apply hwp_bind.
    eapply hwp_create; [exact Hs|done|apply He|apply He|by eapply env_spawned; [exact He| |apply default_valid]|]. intros [e|t] d' Hs' _ Ht; [by apply hwp_ret, HQ|].
    apply hwp_bind, hwp_change, hwp_ret, HQ, sound_retain; [done|]. intros id [= <-]. eauto.
  - by apply hwp_ret, HQ.
  - destruct (Daemon.managed d !! key) as [[id|]|]; [|by apply (hwp_retired key k)..].
    apply hwp_bind, hwp_lifecycle; [auto|]. intros [[]|[]]; [|by apply hwp_ret, HQ].
    apply hwp_bind. eapply hwp_kill; [exact Hhere|]. intros x d' Hs' _. by apply hwp_ret, HQ.
  - destruct (Daemon.managed d !! key) as [[id|]|]; [|by apply (hwp_retired key k)..].
    apply hwp_bind, hwp_lifecycle; [auto|]. intros [[]|[]]; [by apply hwp_ret, HQ|by apply (hwp_retired key k)].
Qed.

Lemma hwp_outcome key k d Q : sound k d → (∀ x, Q x d) → hwp (run_outcome key) d Q.
Proof.
  intros Hs HQ. unfold run_outcome. apply hwp_bind, hwp_get. destruct (mjoin _) as [id|] eqn:Ej; [|by apply hwp_ret].
  apply hwp_bind, hwp_reading. unfold managed_info. destruct (Daemon.managed d !! key) as [[?|]|] eqn:Em; [|done..].
  injection Ej as ->. destruct (sound_managed _ _ Hs _ _ Em) as (t & Ht & _). apply wp_bind, wp_reading. unfold shared. rewrite Ht.
  apply wp_ret. split; [done|]. by apply hwp_ret.
Qed.

Lemma hwp_manage env daemon expected task_id run_id operation k d Q :
  sound (k + 3) d → (k + 3 < u64_MAX)%N → env_ok env d → (∀ x d', sound k d' → Q x d') →
  hwp (manage env daemon expected task_id run_id operation) d Q.
Proof.
  intros Hs Hle He HQ. pose proof (sound_mono (k + 3) k d ltac:(lia) Hs) as Hhere. unfold manage. cbv zeta.
  destruct (match expected with Some _ => _ | None => _ end); [by apply hwp_ret, HQ|].
  destruct (parse_str task_id), (parse_str run_id); try by apply hwp_ret, HQ.
  destruct (_ && _); [by apply hwp_ret, HQ|]. apply hwp_bind, hwp_get. destruct (_ && _); [by apply hwp_ret, HQ|].
  apply hwp_bind. eapply hwp_manage_run; [done..|]. intros [e|] d' Hs'; [by apply hwp_ret, HQ|].
  apply hwp_bind. eapply hwp_outcome; [exact Hs'|]. intros x. by apply hwp_ret, HQ.
Qed.

Lemma hwp_restart env k d Q : sound k d → (∀ x d', sound k d' → Q x d') → hwp (begin_cooperative_restart env) d Q.
Proof.
  intros Hs HQ. unfold begin_cooperative_restart. apply hwp_bind, hwp_get. destruct (Daemon.draining d); [by apply hwp_ret, HQ|].
  apply hwp_bind, hwp_get. destruct (decide _); [by apply hwp_ret, HQ|]. apply hwp_bind, hwp_change, hwp_bind.
  eapply hwp_kills; [by apply sound_draining|]. intros [e|[]] d' Hs'; apply hwp_bind, hwp_change, hwp_ret, HQ;
    [by apply sound_draining|by apply sound_forget].
Qed.

Lemma hwp_local_request env daemon request k d Q :
  sound (k + 3) d → (k + 3 < u64_MAX)%N → env_ok env d → (∀ x d', sound k d' → Q x d') →
  hwp (handle_local_control_request env daemon request) d Q.
Proof.
  intros Hs Hle He HQ. pose proof (sound_mono (k + 3) k d ltac:(lia) Hs) as Hhere.
  destruct request; cbn [handle_local_control_request]; [by apply hwp_ret, HQ| |].
  - apply hwp_bind. eapply hwp_restart; [exact Hhere|]. intros [e|n] d' Hs'; [destruct e; by apply hwp_ret, HQ|].
    apply hwp_bind, hwp_change, hwp_ret, HQ. by apply sound_cancelled.
  - apply hwp_bind, hwp_gate; [by apply hwp_ret, HQ|]. eapply hwp_manage; [done..|].
    intros x d' Hs'. by apply hwp_ret, HQ.
Qed.

Lemma hwp_local env daemon first second k d Q :
  sound (k + 3) d → (k + 3 < u64_MAX)%N → env_ok env d → (∀ x d', sound k d' → Q x d') →
  hwp (handle_local_control_connection env daemon first second) d Q.
Proof.
  intros Hs Hle He HQ. pose proof (sound_mono (k + 3) k d ltac:(lia) Hs) as Hhere.
  apply hwp_unless_cancelled; [by apply HQ|]. destruct first as [first|]; [|by apply hwp_ret, HQ].
  destruct (accept_local_control_handshake _ _) as [[] reply]; (destruct second as [second|]; [|by apply hwp_ret, HQ]);
    [|by apply hwp_ret, HQ].
  apply hwp_bind. eapply hwp_local_request; [done..|]. intros x d' Hs'. by apply hwp_ret, HQ.
Qed.

(** ** Terminals whose state changes *)

Lemma wp_on_screen {E B} id (f : St → option (B * St)) k k' r Q R : Inv k r → (k' ≤ k)%N → is_Some (store r !! id) →
  (∀ t, store r !! id = Some t → screen_ok k (SessionTerminal.state t) →
     ∃ b s', f (SessionTerminal.state t) = Some (b, s') ∧ screen_ok k' s') → (∀ b r', Inv k' r' → sessions r' = sessions r →
     (∀ i, is_Some (store r !! i) → is_Some (store r' !! i)) → Q b r') →
  wp (on_screen id f : action St E B) r Q R.
Proof.
  intros HI Hle [t Ht] Hf HQ. unfold on_screen. apply wp_bind, wp_reading. unfold shared. rewrite Ht. cbn [expect].
  destruct (inv_store _ _ HI id t Ht) as [Hid Hok]. destruct (Hf _ Ht Hok) as (b & s' & Es & Hok').
  apply wp_bind, wp_lift. rewrite Es. cbn [expect]. apply wp_bind, wp_on_store, wp_ret. apply HQ; [|done|].
  - set (t' := SessionTerminal.set_screen _ _ _).
    eapply (Inv_frame k k' [id]); [exact HI|done| |].
    + split; [|done..]. apply (frame_update r id t t' Ht). by split.
    + unfold store_ok. cbn. apply map_Forall_insert_2; [by split|]. apply (store_ok_0 k k' r Hle (inv_store _ _ HI)).
  - intros i Hi. cbn. by apply lookup_insert_is_Some'; right.
Qed.

Lemma tame_on_screen {E B} id (f : St → option (B * St)) : tame none (on_screen id f : action St E B).
Proof. tame. by eapply safe_on_screen. Qed.

Lemma hwp_screen {E B} id (f : St → option (B * St)) k k' d Q : sound k d → (k' ≤ k)%N →
  is_Some (store (Daemon.registry d) !! id) →
  (∀ t, store (Daemon.registry d) !! id = Some t → screen_ok k (SessionTerminal.state t) →
     ∃ b s', f (SessionTerminal.state t) = Some (b, s') ∧ screen_ok k' s') → (∀ x d', sound k' d' → Q x d') →
  hwp (registry_op (on_screen id f : action St E B)) d Q.
Proof.
  intros Hs Hle Hid Hf HQ. eapply (hwp_tame none _ k k'); [exact Hs|apply tame_on_screen|apply fresh_none|].
  apply (wp_on_screen id f k k'); [apply Hs|done..|]. intros b r' HI _ _. split; [done|auto].
Qed.

Lemma wp_count_history {E} ids k : ∀ n r Q R, Inv k r → Forall (λ id, is_Some (store r !! id)) ids →
  (∀ n r', Inv k r' → Q n r') → wp (count_history ids n : action St E N) r Q R.
Proof.
  induction ids as [|id ids IH]; intros n r Q R HI Hids HQ; cbn [count_history]; [by apply wp_ret, HQ|].
  apply Forall_cons in Hids as [Hid Hids]. apply wp_bind.
  apply (wp_on_screen id _ k k); [done..| |].
  - intros t _. generalize (SessionTerminal.state t). intros s Hok. destruct (screen_statistics s) as [b s'] eqn:Es. exists b, s'. split; [done|].
    pose proof (screen_statistics_ok k s Hok) as Hok'. by rewrite Es in Hok'.
  - intros b r' HI' _ Hkeep. apply IH; [done| |done]. eapply Forall_impl; [exact Hids|done].
Qed.

Section attached.
Context (env : Surroundings.t St) (a : Attached.t) (k : N) (d : Daemon.t St U).
Context (Hs : sound (k + 3) d) (Hle : (k + 3 < u64_MAX)%N) (He : env_ok env d).
Context (Hself : is_Some (store (Daemon.registry d) !! Attached.self a)).

Lemma attached_here : sound k d.
Proof. eapply sound_mono; [|exact Hs]. lia. Qed.

Lemma hwp_zoom id Q : (∀ x d', sound k d' → Q x d') → hwp (process_view_zoom a id) d Q.
Proof.
  intros HQ. unfold process_view_zoom. destruct (negb _); [by apply hwp_ret, HQ, attached_here|]. apply hwp_bind.
  eapply (hwp_run _ (Zoom (Attached.self a) (Attached.attachment_id a) id) k); [done..|reflexivity| |intros; by apply hwp_ret, HQ].
  apply tame_quiet. intros T D HT. by apply safe_zoom.
Qed.

Lemma hwp_pane_resize request_id action Q : (∀ x d', sound k d' → Q x d') → hwp (process_pane_resize a request_id action) d Q.
Proof.
  intros HQ. unfold process_pane_resize. do 3 (destruct (_ : bool); [by apply hwp_ret, HQ, attached_here|]). apply hwp_bind.
  destruct action as [id direction amount|divider].
  - eapply (hwp_run _ (ResizePane _ _ id direction amount) k); [done..|reflexivity| |intros; by apply hwp_ret, HQ].
    apply tame_quiet. intros T D HT. by apply safe_resize_layout.
  - eapply (hwp_run _ (ResizeDivider _ _ divider) k); [done..|reflexivity| |intros; by apply hwp_ret, HQ].
    apply tame_quiet. intros T D HT. by apply safe_resize_layout.
Qed.

Lemma wp_run_here {E A} (m : action St E A) q : admissible (k + 3) q (Daemon.registry d) → run q = served m →
  wp m (Daemon.registry d) (λ _ r', Inv k r') (λ r', Inv k r').
Proof. intros Ha Er. apply wp_unserved. rewrite <- Er. apply run_inv; [apply Hs|done|done]. Qed.

Lemma hwp_pane_move request_id target action Q : (∀ x d', sound k d' → Q x d') → hwp (process_pane_move env a request_id target action) d Q.
Proof.
  intros HQ. unfold process_pane_move. do 2 (destruct (_ : bool); [by apply hwp_ret, HQ, attached_here|]). apply hwp_bind.
  destruct action as [previous|name]; (eapply (hwp_tame none _ (k + 3) k); [exact Hs| |apply fresh_none|]).
  - apply tame_quiet. intros T D HT. unfold swap_pane_inner. safe_all.
  - apply wp_bind, wp_mapping. eapply wp_mono; [by apply (wp_run_here _ (SwapPane (Attached.self a) (Attached.attachment_id a) target previous))| |].
    + intros view r' HI. apply wp_ret. split; [exact HI|]. intros Hs'. by apply hwp_ret, HQ.
    + intros r' HI. split; [exact HI|]. intros Hs' e. by apply hwp_ret, HQ.
  - tame. apply safe_bind; [by eapply safe_break|]. intros [view source]. apply safe_ret.
  - apply wp_bind. eapply wp_mono; [apply (wp_run_here _ (BreakPane (Attached.self a) (Attached.attachment_id a) target name (Surroundings.session_id env)
      (Surroundings.view_id env) (Surroundings.now env))); [split; [done|apply He]|done]| |].
    + intros [view source] r' HI. apply wp_ret. split; [exact HI|]. intros Hs'. by apply hwp_ret, HQ.
    + intros r' HI. split; [exact HI|]. intros Hs' e. by apply hwp_ret, HQ.
Qed.

Lemma hwp_lease_change lease acquire Q : (∀ x d', sound k d' → Q x d') → hwp (process_lease_change a lease acquire) d Q.
Proof.
  intros HQ. unfold process_lease_change. destruct Hself as [t Ht]. unfold self, attachment_id in *.
  apply hwp_bind, hwp_reading, wp_reading. unfold shared. rewrite Ht. cbn [expect mbind outcome_bind]. split; [done|].
  apply hwp_bind. eapply (hwp_tame none _ (k + 3) (k + 3)); [exact Hs| |apply fresh_none|].
  { tame. by eapply safe_lease. }
  eapply wp_mono; [apply (wp_lease (Attached.self a) _ lease acquire (k + 3) _ (λ _, False)); [apply Hs|by eexists]| |done].
  intros status r' Hu. split; [eapply unseen_inv, Hu|]. intros Hs'. cbv zeta.
  assert (is_Some (store (Daemon.registry (set_registry r' d)) !! Attached.self a)) as Hself'.
  { cbn. eapply unseen_shared; [exact Hu|by eexists]. }
  apply hwp_bind. destruct (_ && _).
  - apply (hwp_screen _ _ (k + 3) k); [done|lia|done| |intros; by apply hwp_ret, HQ].
    intros t' _. generalize (SessionTerminal.state t'). intros s Hok. destruct (screen_refresh_ok k s) as (s' & Es & Hok'); [eapply screen_ok_mono; [|exact Hok]; lia|].
    exists (), s'. rewrite Es. done.
  - apply hwp_ret, hwp_ret, HQ. eapply sound_mono; [|exact Hs']. lia.
Qed.

Lemma hwp_type data Q : (∀ x d', sound k d' → Q x d') → hwp (type_input env a data) d Q.
Proof.
  intros HQ. unfold type_input. apply hwp_bind, hwp_reading. unfold write_input. destruct Hself as [t Ht].
  apply wp_bind, wp_reading. unfold shared, self. rewrite Ht. cbn [expect].
  apply wp_fail_if; [intros _|split; [done|intros e; by apply hwp_ret, HQ, attached_here]]. split; [done|].
  destruct (Surroundings.write _ _ _) as [e|[]]; [by apply hwp_ret, HQ, attached_here|].
  apply hwp_bind, hwp_change, hwp_ret, HQ, sound_typed, attached_here.
Qed.

Lemma hwp_statistics Q : (∀ x d', sound k d' → Q x d') → hwp (registry_op (session_history_statistics (E := Empty_set) a)) d Q.
Proof.
  intros HQ. eapply (hwp_tame none _ (k + 3) k); [exact Hs| |apply fresh_none|].
  { tame. unfold session_history_statistics. safe_all. generalize 0%N.
    match goal with |- ∀ n, safe _ _ _ _ (count_history ?ids n) => induction ids as [|id ids IH]; intros n; cbn [count_history] end;
      [apply safe_ret|]. apply safe_bind; [by eapply safe_on_screen|]. intros b. apply IH. }
  unfold session_history_statistics. destruct Hself as [t Ht]. apply wp_bind, wp_reading. unfold shared, self. rewrite Ht. cbn [expect].
  cbv zeta. apply wp_bind, wp_reading. pose proof attached_here as Hhere.
  destruct (sessions _ !! _) as [root|]; [|apply wp_ret; split; [apply Hhere|auto]].
  apply wp_bind, wp_reading, wp_bind, (wp_count_history _ k); [apply Hhere| |].
  - apply Forall_forall. intros id [[t' [_ Hid]%listed_Some] _]%list_elem_of_filter. by eexists.
  - intros n r' HI. apply wp_ret. split; [done|auto].
Qed.

Lemma hwp_attach_input message Q :
  match message with ClientMessage.Resize size => u16_size size | _ => True end → (∀ x d', sound k d' → Q x d') →
  hwp (process_attach_input env a message) d Q.
Proof.
  intros Hsize HQ.
  assert (∀ x d', sound k d' → hwp (mret x : handler St U (option ServerMessage.t)) d' Q) as HR by (intros; by apply hwp_ret, HQ).
  destruct message; cbn [process_attach_input]; try (apply HR, attached_here).
  - apply hwp_bind, hwp_zoom. auto.
  - apply hwp_bind, hwp_pane_resize. auto.
  - apply hwp_bind, hwp_pane_resize. auto.
  - apply hwp_bind, hwp_pane_move. auto.
  - apply hwp_bind, hwp_pane_move. auto.
  - apply hwp_bind, hwp_type. auto.
  - apply hwp_bind. eapply (hwp_run _ (ResizeView _ _ terminal_size) k); [done..|reflexivity| |auto].
    apply tame_quiet. intros T D HT. by apply safe_resize_inner.
  - apply hwp_bind, hwp_lease_change. auto.
  - apply hwp_bind, hwp_lease_change. auto.
  - destruct (supports_session_statistics _); [|apply HR, attached_here]. apply hwp_bind, hwp_statistics. auto.
Qed.
End attached.

(** ** Endings, and every event *)

Lemma hwp_internal (m : action St Empty_set bool) k d Q : sound k d → tame none m →
  wp m (Daemon.registry d) (λ _ r', unseen k (Daemon.registry d) r') (λ _, False) → (∀ x d', sound k d' → Q x d') →
  hwp (registry_op m) d Q.
Proof.
  intros Hs Ht Hw HQ. eapply (hwp_tame none _ k k); [exact Hs|exact Ht|apply fresh_none|].
  eapply wp_mono; [exact Hw| |done]. intros b r' Hu. split; [eapply unseen_inv, Hu|auto].
Qed.

Lemma end_attachment_ok guard exit k d : sound k d → is_Some (store (Daemon.registry d) !! AttachmentGuard.session guard) →
  tame none (end_attachment (E := Empty_set) guard exit) ∧
  wp (end_attachment (E := Empty_set) guard exit) (Daemon.registry d) (λ _ r', unseen k (Daemon.registry d) r') (λ _, False).
Proof.
  intros Hs Hself. pose proof (sound_inv _ _ Hs) as HI.
  assert (tame none (drop_guard (E := Empty_set) guard)) as Ht.
  { tame. unfold drop_guard, close_attachment_inner. safe_all; [by eapply safe_leave|by eapply safe_suspend]. }
  assert (∀ b g, AttachmentGuard.active g = false → wp (drop_guard (E := Empty_set) g) b (λ _ r', r' = b) (λ _, False)) as Hidle.
  { intros b g Hg. unfold drop_guard. rewrite Hg. by apply wp_ret. }
  assert (wp (drop_guard (E := Empty_set) guard) (Daemon.registry d) (λ _ r', unseen k (Daemon.registry d) r') (λ _, False)) as Hdrop.
  { unfold drop_guard. destruct (negb _); [by apply wp_ret, unseen_refl|]. destruct (negb _).
    - apply wp_bind. eapply wp_mono; [by apply (wp_leave false _ _ _ k _ (λ _, False))| |done]. intros b r' Hu. apply wp_ret, Hu.
    - eapply wp_mono; [by apply (wp_change_attachments _ _ k _ (λ _, False))| |done]. by intros b r' [Hu _]. }
  destruct exit; cbn [end_attachment]; [|by split..]. split.
  - intros T D HT1 HT2 HT3. apply safe_bind; [|intros g; unfold drop_guard, close_attachment_inner; safe_all; [by eapply safe_leave|by eapply safe_suspend]].
    unfold close_now, close_attachment_inner. safe_all. by eapply safe_leave.
  - apply wp_bind. unfold close_now. destruct (AttachmentGuard.active guard) eqn:Ea.
    + apply wp_bind. eapply wp_mono; [by apply (wp_leave false _ _ _ k _ (λ _, False))| |done]. intros b r' Hu. apply wp_ret.
      eapply wp_mono; [by apply Hidle| |done]. by intros b' r'' ->.
    + apply wp_ret. eapply wp_mono; [by apply Hidle| |done]. intros b' r'' ->. by apply unseen_refl.
Qed.

(** What an event needs: of the surroundings as above; the terminal of an attachment, a guard
    or a process is there, and withstands what happens to it; sizes can be drawn on. *)
Definition permitted (e : event St) d : Prop :=
  let there id := is_Some (store (Daemon.registry d) !! id) in
  match e with
  | Connects env _ _ _ opening => env_ok env d ∧ (∀ o, opening = Some o → sizes_ok (OpeningRequest.request o))
  | Controls env _ _ _ => env_ok env d
  | Asks env a message => env_ok env d ∧ there (Attached.self a) ∧ sizes_ok message
  | Leaves guard _ => there (AttachmentGuard.session guard)
  | Expires self _ _ => there self
  | Exits id _ => there id
  | Changes id change => there id ∧ ∀ t, store (Daemon.registry d) !! id = Some t → screen_takes change (SessionTerminal.state t)
  end.

(** The room an event takes: as much as three changes of size, and as much as what happens to
    a terminal three times *)
Definition cost (e : event St) : N := match e with Changes _ change => 1 + screen_cost change | _ => 1 end.

Lemma hwp_serve e k d : sound (k + 3 * cost e) d → (k + 3 * cost e < u64_MAX)%N → permitted e d →
  hwp (serve e) d (λ _ d', sound k d').
Proof.
  intros Hs Hle Hp. pose proof (sound_mono (k + 3 * cost e) k d ltac:(lia) Hs) as Hhere.
  destruct e as [env daemon liveness first opening|env daemon first second|env a message|guard exit|self token generation|id code|id change];
    cbn [serve permitted cost] in *.
  - destruct Hp as [He Hsize]. apply hwp_bind. eapply (hwp_connection _ _ _ _ _ k); [done..|]. intros [replies attachment] d' Hs'. by apply hwp_ret.
  - apply hwp_bind. eapply (hwp_local _ _ _ _ k); [done..|]. intros x d' Hs'. by apply hwp_ret.
  - destruct Hp as (He & Hself & Hsize). apply hwp_bind. eapply (hwp_attach_input _ _ k); [done..|by destruct message|].
    intros x d' Hs'. by apply hwp_ret.
  - apply hwp_bind. destruct (end_attachment_ok guard exit k d Hhere Hp) as [Ht Hw].
    eapply (hwp_internal _ k); [done..|]. intros x d' Hs'. by apply hwp_ret.
  - apply hwp_bind. eapply (hwp_internal _ k); [done|tame; by eapply safe_leave|by apply wp_leave; [apply Hhere|]|].
    intros x d' Hs'. by apply hwp_ret.
  - apply hwp_bind. eapply (hwp_tame none _ (k + 3 * 1) k); [exact Hs| |apply fresh_none|].
    { tame. apply safe_bind; [by eapply safe_on_screen|]. intros _. by eapply safe_process_ended. }
    apply wp_bind. apply (wp_on_screen id _ (k + 2) (k + 1)); [eapply Inv_mono; [|apply Hs]; lia|lia|exact Hp| |].
    { intros t' _. generalize (SessionTerminal.state t'). intros s Hok. destruct (screen_end_ok (k + 1) s) as (s' & -> & Hok'); [|by exists (), s'].
      eapply screen_ok_mono; [|exact Hok]. lia. }
    intros [] r1 HI1 _ Hthere.
    eapply wp_mono; [apply (wp_end_process id code k); [exact HI1|by apply Hthere]| |done].
    intros [] r' (m & Hg & _). split; [exact (good_inv _ _ _ _ Hg)|]. intros Hs'. by apply hwp_ret.
  - apply hwp_bind. destruct Hp as [Hp Htakes].
    apply (hwp_screen _ _ (k + 3 * (1 + screen_cost change)) k); [done|lia|done| |intros; by apply hwp_ret].
    intros t' Ht' Hok. destruct (screen_apply_ok k change (SessionTerminal.state t')) as (s' & -> & Hok'); [|by eauto|by exists (), s'].
    eapply screen_ok_mono; [|exact Hok]. lia.
Qed.
End serving.
