(* ===== verification/LiveLaws.v ===== *)
(** The terminals of the daemon keep what the registry and the requests ask of them: at any
    size of at most 65,534 columns a terminal is resized, refreshed, ended, reported to and
    attached to without a panic, and takes in output, as long as its counters have room.

    Output has one exception, [returnable] of [TerminalInv]: behind the alternate screen, a
    resize can leave the primary screen such that it cannot be shown again (see
    [DaemonTheorems.primary_return_panics]). *)

From S2P Require Import Prelude.
From S2P Require Import Cells.
From S2P Require Import Lines.
From S2P Require Import Buffers.
From S2P Require Import Terminal.
From S2P Require Import TerminalInv.
From S2P Require Import Screens.
From S2P Require Import Parser.
From S2P Require Import ParserInv.
From S2P Require Import Vt.
From S2P Require Import Layout.
From S2P Require Import Journal.
From S2P Require Import Utf8.
From S2P Require Import Observers.
From S2P Require Import History.
From S2P Require Import Retention.
From S2P Require Import ShellState.
From S2P Require Import ShellReports.
From S2P Require Import LiveTerminal.
From S2P Require Import Sessions.
From S2P Require Import Delivery.
From S2P Require Import LiveRuns.
From S2P Require Import Requests.
From S2P Require Import ServerAttach.
From S2P Require Import SessionsWp.
From S2P Require Import RequestsInv.
From Stdlib Require Import Init.Byte.
From stdpp Require Import strings.

Import LiveTerminal.

(** At 65,535 columns a checkpoint may not be taken (see [DumpTheorems.widest_dump_panics]). *)
#[export] Instance live_width : WidestScreen := 65534%N.

Section laws.
Context `{UnicodeWidth, HomeDirectory}.
Implicit Types (s : LiveTerminal.t) (k : N).

(** A terminal in good order after any resizes, with room for [k] more changes *)
Record in_order k s : Prop := {
  io_size : valid_size (terminal_size s);
  io_live : live_ok (H0 := Loose) s;
  io_room : output_room 0 k s;
  io_window : ∃ capacity stream, window_ok capacity stream s ∧ (N.of_nat (length stream) + k ≤ u64_MAX)%N }.

Lemma in_order_mono k k' s : (k' ≤ k)%N → in_order k s → in_order k' s.
Proof.
  intros Hle [Hs Hl [[Hr Hg] [Hrev Hsh]] (capacity & stream & Hw & Hn)]. split; [done|done| |].
  - split_and!; [split|..]; lia.
  - exists capacity, stream. split; [done|lia].
Qed.

Lemma in_order_ready k s : in_order (1 + k) s → ready (H0 := Loose) (1 + (2 * N.of_nat (length (pending_input s)) + k)) s.
Proof. intros [_ Hl [[Hr Hg] _] _]. split; [done|]. split; lia. Qed.

(** ** The state of the shell *)

(** Nothing changes but the state of the shell, which counts one change at most. *)
Record told s s' : Prop := {
  told_window : same_window s s';
  told_terminal : terminal s' = terminal s;
  told_parser : history_control_parser s' = history_control_parser s;
  told_history : history s' = history s;
  told_pending : pending_input s' = pending_input s;
  told_revision : (ShellState.revision (shell_state s') ≤ ShellState.revision (shell_state s) + 1)%N }.

Lemma told_in_order k s s' : told s s' → in_order (k + 1) s → in_order k s'.
Proof.
  intros [Hw Et Ep Eh Epi Hrev] [Hs [Hv Hsz Hp Hh] [[Hr Hg] [Hgr Hsh]] (capacity & stream & Hwin & Hn)].
  destruct (id Hw) as [Ej Esz Eg _ _ _ _]. split.
  - by rewrite Esz.
  - split; rewrite ?Et, ?Ep, ?Eh, ?Esz; done.
  - unfold output_room, room. rewrite Eh, Epi, Eg. split_and!; lia.
  - exists capacity, stream. split; [by eapply window_same|lia].
Qed.

Lemma told_refl s : told s s.
Proof. split; try done; lia. Qed.

Lemma revise_told s s0 : told s0 s → ShellState.revision (shell_state s) = ShellState.revision (shell_state s0) →
  (ShellState.revision (shell_state s0) < u64_MAX)%N → revise_shell_state s ⇓ λ '(_, s'), told s0 s'.
Proof.
  intros [Hw Et Ep Eh Epi _] Hrev Hle. unfold revise_shell_state. rewrite add64_Some by lia. simpl.
  split; try done; [eapply window_trans; [exact Hw|by split]|]. cbn. lia.
Qed.

Lemma change_told candidate s s0 : told s0 s → ShellState.revision candidate = ShellState.revision (shell_state s0) →
  (ShellState.revision (shell_state s0) < u64_MAX)%N → change_shell_state candidate s ⇓ λ '(_, s'), told s0 s'.
Proof.
  intros Ht Hrev Hle. unfold change_shell_state. case_decide; [done|].
  assert (told s0 (set_shell_state candidate s)) as Ht'.
  { destruct Ht as [Hw Et Ep Eh Epi _]. split; try done; [|cbn; lia]. eapply window_trans; [exact Hw|by split]. }
  eapply Safe_bind; [by apply (revise_told _ s0)|]. by intros [state s'].
Qed.

Lemma set_cwds_told native reported s : told s (set_cwds native reported s).
Proof. split; try done; cbn; lia. Qed.

Section counted.
Context s (Hle : (ShellState.revision (shell_state s) < u64_MAX)%N).

Lemma report_told report : apply_shell_report_to_terminal report s ⇓ λ '(_, s'), told s s'.
Proof using Hle.
  unfold apply_shell_report_to_terminal. destruct (ShellReport.prompt_phase report).
  all: destruct (negb _); [apply told_refl|]; apply change_told; [apply set_cwds_told|done|done].
Qed.

Lemma observation_told observation : apply_process_observation_to_terminal observation s ⇓ λ '(_, s'), told s s'.
Proof using Hle.
  unfold apply_process_observation_to_terminal. destruct (negb _); [apply told_refl|].
  apply change_told; [apply set_cwds_told| |done]. unfold set_observed_cwd. by destruct (observed_cwd _ _).
Qed.

Lemma end_told : end_shell_state s ⇓ λ '(_, s'), told s s'.
Proof using Hle.
  unfold end_shell_state. destruct (_ && _); [apply told_refl|].
  eapply Safe_bind; [apply (revise_told _ s); [split; try done; cbn; lia|done|done]|]. by intros [state s'].
Qed.

Lemma refresh_told : refresh_shell_state_for_visibility s ⇓ told s.
Proof using Hle.
  unfold refresh_shell_state_for_visibility. destruct (_ && _); [apply told_refl|].
  destruct (Safe_elim _ _ (revise_told s s (told_refl s) eq_refl Hle)) as ([state s'] & -> & Ht). exact Ht.
Qed.
End counted.

Lemma in_order_revision k s : in_order (k + 1) s → (ShellState.revision (shell_state s) < u64_MAX)%N.
Proof. intros [_ _ [_ [_ Hsh]] _]. lia. Qed.

Lemma statistics_told s : told s (retained_history_statistics s).2.
Proof.
  unfold retained_history_statistics. destruct (history_statistics s); [destruct (_ && _); [apply told_refl|]|].
  all: split; try done; cbn; lia.
Qed.

Lemma statistics_in_order k s : in_order k s → in_order k (retained_history_statistics s).2.
Proof.
  unfold retained_history_statistics. assert (∀ x, in_order k s → in_order k (set_history_statistics x s)) as Hset.
  { intros x [Hs [Hv Hsz Hp Hh] Hr (capacity & stream & Hwin & Hn)]. split; [done|by split|done|].
    exists capacity, stream. split; [|done]. eapply window_same; [|exact Hwin]. by split. }
  destruct (history_statistics s); [destruct (_ && _); [done|]|]; apply Hset.
Qed.

(** ** Geometry *)

Lemma refresh_in_order k s : in_order (1 + k) s → refresh_checkpoint s ⇓ in_order k.
Proof.
  intros Ho. destruct (id Ho) as [Hs Hl [_ [Hgr Hsh]] (capacity & stream & Hw & Hn)].
  eapply Safe_mono; [eapply Safe_partial; [exact (refresh_checkpoint_ready _ s (in_order_ready k s Ho))|]|].
  { exact (Partial_and _ _ _ (refresh_checkpoint_rest s) (refresh_session capacity s stream Hw)). }
  intros s' [[Hl' Hr'] [(Esz & Esh & [_ Ep] & Eg) [Hw' _]]]. split; [by rewrite Esz|done| |].
  - unfold output_room. rewrite Ep, Eg, Esh. split_and!; [|lia|lia]. by replace (_ + 0) with (length (pending_input s)) by lia.
  - exists capacity, stream. split; [done|lia].
Qed.

Lemma resize_live_ok k size s : in_order (k + 1) s → valid_size size →
  resize_live size s ⇓ λ '(_, s'), live_ok (H0 := Loose) s' ∧ output_room 0 k s' ∧ terminal_size s' = size.
Proof.
  intros Ho (Hc & Hr & _). destruct (id Ho) as [_ [Hsized Hsz Hparser Hhist] [[Hrev Hgen] [Hgr Hsh]] _].
  unfold resize_live. case_decide as E.
  { destruct (in_order_mono (k + 1) k s ltac:(lia) Ho) as [_ ? ? _]. by split_and!. }
  eapply Safe_bind; [apply (resize_sized (H1 := Loose)); [exact Hsized|..|exact I]|].
  1-4: unfold columns_of, rows_of, widest, live_width, u16_MAX in *; lia.
  intros [v c] [Hv Hvsz]. rewrite add64_Some by (cbn; lia). cbn [mbind option_bind].
  eapply Safe_bind; [eapply Safe_partial; [apply (refresh_checkpoint_ready (H0 := Loose) (2 * N.of_nat (length (pending_input s)) + k))|apply refresh_checkpoint_rest]|].
  - split; [by split|]. split; cbn; lia.
  - intros s' [[Hl' Hr'] (Esz & Esh & [_ Ep] & Eg)]. cbn in Esz, Esh, Ep, Eg. split_and!; [destruct Hl'; by split| |exact Esz].
    unfold output_room, room. cbn. destruct Hr'. rewrite Ep, Eg, Esh. split_and!; lia.
Qed.

Lemma resize_in_order k size s : in_order (k + 1) s → valid_size size →
  resize_live size s ⇓ λ '(_, s'), in_order k s' ∧ terminal_size s' = size.
Proof.
  intros Ho Hv. destruct (io_window _ _ Ho) as (capacity & stream & Hw & Hn).
  eapply Safe_mono; [eapply Safe_partial; [by apply (resize_live_ok k)|by apply resize_live_window]|].
  intros [events s'] [(Hl & Hr & Esz) (Hw' & _)]. split; [|done]. split; [by rewrite Esz|done|done|].
  exists capacity, stream. split; [done|lia].
Qed.

(** ** Attaching *)

Lemma snapshot_in_order k owner terminal_id requested s : in_order (k + 1) s →
  snapshot_for_attach owner terminal_id requested s ⇓ λ '(_, s'), in_order k s'.
Proof.
  intros Ho. assert (in_order k s) as Hk by (eapply in_order_mono; [|exact Ho]; lia).
  assert (∀ q s1, in_order k s1 → snapshot_for_delivery owner terminal_id q None s1 ⇓ λ _, True) as Hsnap.
  { intros q s1 Ho1. destruct (io_window _ _ Ho1) as (capacity & stream & Hw & _).
    eapply Safe_mono; [by apply (snapshot_delivers capacity stream)|done]. }
  unfold snapshot_for_attach. destruct requested as [q|].
  - eapply Safe_bind; [by apply Hsnap|]. by intros r _.
  - unfold fresh_snapshot. eapply Safe_bind; [apply (refresh_in_order k); by rewrite N.add_comm|].
    intros s' Ho'. eapply Safe_bind; [by apply Hsnap|]. by intros r _.
Qed.

(** ** Output *)

(** The room that a read of [n] bytes takes *)
Definition output_cost (data : list byte) : N := 2 * N.of_nat (length data) + 1.

Lemma live_fit s : live_ok (H0 := Loose) s → returnable (Vt.terminal (terminal s)) → live_ok (H0 := Fit) s.
Proof.
  intros [[Hp [Hw Hc Hr Ha]] Hsz Hparser Hh] Hret. split; [|done..]. split; [done|].
  by split; [apply wf_term_returnable|..].
Qed.

Lemma live_loose s : live_ok (H0 := Fit) s → live_ok (H0 := Loose) s.
Proof.
  intros [[Hp [Hw Hc Hr Ha]] Hsz Hparser Hh]. split; [|done..]. split; [done|].
  by split; [apply wf_term_loose|..].
Qed.

Lemma output_in_order k interval data s : in_order (k + output_cost data) s → returnable (Vt.terminal (terminal s)) →
  append_output interval data s ⇓ λ '(_, _, s'), in_order k s'.
Proof.
  unfold output_cost. intros [Hs Hl [[Hr Hg] [Hgr Hsh]] (capacity & stream & Hw & Hn)] Hret.
  eapply Safe_mono; [eapply Safe_partial; [apply (append_output_ready (H0 := Fit) ltac:(done) capacity stream interval data 0 k s)|
    by apply append_output_window]|].
  - by apply live_fit.
  - unfold output_room, room. split_and!; lia.
  - apply Hw.
  - rewrite length_app. lia.
  - intros [[events published] s'] [(Hl' & Hr' & Esz & _) (Hw' & _ & _)]. split; [by rewrite Esz|by apply live_loose|done|].
    exists capacity, (stream ++ data). split; [done|]. rewrite length_app. lia.
Qed.

(** ** The laws *)

#[export] Instance live_laws : ScreenLaws LiveTerminal.t.
Proof.
  refine {| screen_ok := in_order; screen_ok_mono := in_order_mono; screen_ok_size := io_size |}; [by vm_compute|].
  intros k s size Ho Hv. destruct (Safe_elim _ _ (resize_in_order k size s Ho Hv)) as ([events s'] & E & Ho' & Esz).
  exists s'. cbn. by rewrite E.
Defined.

(** A process starts with the state that [TerminalState::new] makes; its journal and its
    history may have any capacity. *)
Definition born size s : Prop := ∃ capacity history_capacity,
  (1 ≤ history_capacity ≤ u64_MAX)%N ∧ LiveTerminal.new size capacity history_capacity = Some s.

Lemma born_in_order k size s : (k < u64_MAX)%N → valid_size size → born size s → in_order k s.
Proof.
  intros Hk Hv (capacity & hc & Hhc & E). destruct (id Hv) as (Hc & Hr & _).
  assert (LiveTerminal.new size capacity hc ⇓ λ s, live_ok (H0 := Loose) s ∧ output_room 0 k s ∧ terminal_size s = size) as Hnew.
  { eapply Safe_mono; [apply (new_ready (H0 := Loose) size capacity hc 0 k)|].
    1-4: unfold widest, live_width, u16_MAX in *; lia.
    intros s' (? & ? & ? & _). by split_and!. }
  rewrite E in Hnew. destruct Hnew as (Hl & Hroom & Esz). split; [by rewrite Esz|done|done|].
  exists capacity, []. split; [|cbn; lia]. by destruct (Partial_elim _ _ _ (new_window _ _ _) E).
Qed.

(** Output is taken unless it may show a primary screen again that cannot be. *)
Definition takes (change : LiveChange) s : Prop :=
  match change with Outputs _ _ => returnable (Vt.terminal (terminal s)) | _ => True end.

Lemma change_in_order k change s :
  in_order (k + match change with Outputs _ data => output_cost data | _ => 1 end) s → takes change s →
  apply_change change s ⇓ in_order k.
Proof.
  assert (∀ {A} (m : option (A * LiveTerminal.t)), m ⇓ (λ '(_, s'), in_order k s') → snd <$> m ⇓ in_order k) as Hsnd.
  { intros A m Hm. destruct m as [[a s']|]; exact Hm. }
  assert (∀ {A} (m : option (A * LiveTerminal.t)), in_order (k + 1) s → m ⇓ (λ '(_, s'), told s s') → snd <$> m ⇓ in_order k) as Htold.
  { intros A m Ho Hm. destruct m as [[a s']|]; [by eapply told_in_order|done]. }
  destruct change; cbn [apply_change takes]; intros Ho Ht.
  - apply Hsnd. eapply Safe_mono; [by apply (output_in_order k)|]. by intros [[? ?] ?].
  - apply Htold; [done|]. by apply report_told, (in_order_revision k).
  - apply Htold; [done|]. by apply observation_told, (in_order_revision k).
  - apply Hsnd. by apply snapshot_in_order.
Qed.

#[export] Instance live_inspection_laws : InspectionLaws LiveTerminal.t.
Proof.
  refine {| screen_born := born; screen_born_ok := born_in_order; screen_statistics_ok := statistics_in_order;
    screen_cost change := match change with Outputs _ data => output_cost data | _ => 1%N end; screen_takes := takes |}.
  - intros k s Ho. destruct (Safe_elim _ _ (refresh_told s (in_order_revision k s Ho))) as (s' & E & Ht).
    exists s'. split; [done|by eapply told_in_order].
  - intros k s Ho. destruct (Safe_elim _ _ (end_told s (in_order_revision k s Ho))) as ([e s'] & E & Ht).
    exists s'. cbn. rewrite E. split; [done|by eapply told_in_order].
  - intros k change s Ho Ht. exact (Safe_elim _ _ (change_in_order k change s Ho Ht)).
Defined.
End laws.
