(* ===== verification/RequestTheorems.v ===== *)
(** The properties of the daemon's requests: whatever it is asked it answers without a
    panic and stays sound, a client is told only what its contract has, a restart ends
    everything, a managed run starts once, only the owner of the input lease types, and an
    attachment that fails leaves nothing behind. *)

From S2P Require Import Prelude.
From S2P Require Import Cells.
From S2P Require Import Terminal.
From S2P Require Import Vt.
From S2P Require Import Layout.
From S2P Require Import Topology.
From S2P Require Import Leases.
From S2P Require Import Observers.
From S2P Require Import ShellState.
From S2P Require Import LiveTerminal.
From S2P Require Import Sessions.
From S2P Require Import Attachments.
From S2P Require Import Protocol.
From S2P Require Import Messages.
From S2P Require Import Presence.
From S2P Require Import Paging.
From S2P Require Import FlowControl.
From S2P Require Import Requests.
From S2P Require Import ServerAttach.
From S2P Require Import DaemonTheorems.
From S2P Require Import SessionsWp.
From S2P Require Import SessionsInv.
From S2P Require Import SessionTheorems.
From S2P Require Import RequestsInv.
From S2P Require Import LiveLaws.
From stdpp Require Import strings gmap.
From Stdlib Require Import Init.Byte Sorting.Sorted.

Import SessionRegistry (store, terminals, sessions, pending_names, next_automatic_name).
Import SessionsRun.

(** * Runs of the daemon *)

Section runs.
Context {St U : Type} `{Countable U} `{InspectionLaws St} `{!UuidText U}.
Implicit Types (d : Daemon.t St U) (e : event St).

(** [path n d es n' d']: from [d], with room for events of cost [n], the events [es] lead to
    [d'], with room for [n'] more. *)
Inductive path : N → Daemon.t St U → list (event St) → N → Daemon.t St U → Prop :=
  | path_nil n d : path n d [] n d
  | path_cons n d e es n' d' :
      permitted e d → path n (RequestsInv.serve e d).2 es n' d' → path (n + cost e) d (e :: es) n' d'.

Lemma path_step n m d e es n' d' : m = (n + cost e)%N → permitted e d → path n (RequestsInv.serve e d).2 es n' d' →
  path m d (e :: es) n' d'.
Proof. intros ->. apply path_cons. Qed.

(** The daemons reached from a new one, with room for events of cost [n] *)
Definition reaches (n : N) d : Prop := ∃ n0 es, (room n0 < u64_MAX)%N ∧ path n0 Daemon.new es n d.

Lemma sound_new k : sound k (Daemon.new (St := St) (U := U)).
Proof.
  split; cbn.
  - apply Inv_empty.
  - intros id t Ht. by rewrite lookup_empty in Ht.
  - intros key id Hk. by rewrite lookup_empty in Hk.
Qed.

Lemma serve_sound n e d : (room (n + cost e) < u64_MAX)%N → sound (room (n + cost e)) d → permitted e d →
  ∃ a, (RequestsInv.serve e d).1 = Ok a ∧ sound (room n) (RequestsInv.serve e d).2.
Proof.
  unfold room. replace (3 * (n + cost e))%N with (3 * n + 3 * cost e)%N by lia. intros Hle Hs Hp.
  pose proof (hwp_serve e (3 * n) d Hs Hle Hp) as Hw. unfold hwp in Hw.
  destruct (RequestsInv.serve e d) as [[a|[]|] d']; [by exists a|done].
Qed.

Lemma path_sound n d es n' d' : (room n < u64_MAX)%N → sound (room n) d → path n d es n' d' →
  (room n' < u64_MAX)%N ∧ sound (room n') d'.
Proof.
  intros Hle Hs Hp. induction Hp as [|n d e es n' d' Hpe _ IH]; [done|].
  destruct (serve_sound n e d Hle Hs Hpe) as (a & _ & Hs'). apply IH; [unfold room in *; lia|done].
Qed.

Lemma reaches_sound n d : reaches n d → (room n < u64_MAX)%N ∧ sound (room n) d.
Proof. intros (n0 & es & Hle & Hp). eapply path_sound; [exact Hle|apply sound_new|exact Hp]. Qed.
End runs.

(** * Contracts *)

Definition view_fits (version : ProtocolVersion.t) (view : ViewInfo.t) : Prop :=
  (supports_view_zoom version = false → ViewInfo.zoomed_terminal_id view = None) ∧
  (supports_pane_resize version = false → Layout.has_weights (ViewInfo.layout view) = false).

(** A message that a client of the contract knows *)
Definition fits_contract (version : ProtocolVersion.t) (message : ServerMessage.t) : Prop :=
  match message with
  | ServerMessage.ViewSnapshot view => view_fits version view
  | ServerMessage.PaneResizeResult _ outcome => supports_pane_resize version = true ∧
      match outcome with ResizeApplied view => view_fits version view | ResizeRejected _ _ => True end
  | ServerMessage.PaneMoveResult _ outcome => supports_pane_moves version = true ∧
      match outcome with
      | Swapped view => view_fits version view
      | Promoted view source => view_fits version view ∧ view_fits version source
      | MoveRejected _ _ => True
      end
  | ServerMessage.SessionRenamed _ => supports_session_rename version = true
  | ServerMessage.SessionClients _ => supports_client_presence version = true
  | ServerMessage.HeartbeatAck _ (Some _) => supports_session_statistics version = true
  | ServerMessage.LeaseStatus _ _ true => supports_layout_lease_notifications version = true
  | ServerMessage.Attached _ _ _ _ _ _ _ _ (Some _) _ _ _ | ServerMessage.Checkpoint _ _ (Some _) _
  | ServerMessage.HistoryPage _ _ _ _ | ServerMessage.HistorySnapshotExpired _ => version ≠ CONTRACT_V1_0_13
  | ServerMessage.HandshakeAccepted selected _ _ _ _ _ => selected = version
  | ServerMessage.SessionCreated _ | ServerMessage.SessionList _ | ServerMessage.ShellStateResponse _ _
  | ServerMessage.Attached _ _ _ _ _ _ _ _ None _ _ _ | ServerMessage.Detached | ServerMessage.LeaseStatus _ _ false
  | ServerMessage.HeartbeatAck _ None | ServerMessage.ShellStateChanged _ | ServerMessage.PtyGeometryChanged _ _
  | ServerMessage.Checkpoint _ _ None _ | ServerMessage.Output _ _ _ | ServerMessage.SessionEnded _ _
  | ServerMessage.Success | ServerMessage.Error _ _ => True
  end.

(** One that it may be sent unasked: a view only when the contract has zoomed panes *)
Definition notice_fits (version : ProtocolVersion.t) (message : ServerMessage.t) : Prop :=
  fits_contract version message ∧
  match message with ServerMessage.ViewSnapshot _ => supports_view_zoom version = true | _ => True end.

Lemma clear_weights_none layout : Layout.has_weights (Layout.clear_weights layout) = false.
Proof.
  induction layout as [id|axis children weights IH] using ViewLayout_ind; [done|]. cbn [Layout.clear_weights Layout.has_weights].
  apply not_true_is_false. intros (l & Hl & Hw)%existsb_exists. apply list_elem_of_In, list_elem_of_fmap in Hl as (c & -> & Hc).
  rewrite (proj1 (Forall_forall _ _) IH c Hc) in Hw. done.
Qed.

Lemma view_for_contract_fits version view : view_fits version (view_for_contract view version).
Proof.
  split; unfold view_for_contract; cbn; intros ->; [done|apply clear_weights_none].
Qed.

(** Contracts only grow. *)
Lemma moves_resize version : supports_pane_moves version = true → supports_pane_resize version = true.
Proof. unfold supports_pane_moves, supports_pane_resize. rewrite !bool_decide_eq_true. set_solver. Qed.

Lemma resize_zoom version : supports_pane_resize version = true → supports_view_zoom version = true.
Proof. unfold supports_pane_resize, supports_view_zoom. rewrite !bool_decide_eq_true. set_solver. Qed.

Lemma resize_fits version view : supports_pane_resize version = true → view_fits version view.
Proof. intros Hr. split; [rewrite (resize_zoom _ Hr)|rewrite Hr]; done. Qed.

(** Whatever the daemon does, what the handler answers satisfies [P]. *)
Definition yields {St U} `{Countable U} {A} (P : A → Prop) (m : handler St U A) : Prop :=
  ∀ d a, (m d).1 = Ok a → P a.

Section yields.
Context {St U : Type} `{Countable U} `{Screen St} `{!Inspection St}.
Implicit Types (env : Surroundings.t St).

Lemma yields_ret {A} (P : A → Prop) (a : A) : P a → yields P (mret a : handler St U A).
Proof. by intros Ha d a' [= <-]. Qed.

Lemma yields_bind {A B} (P : B → Prop) (m : handler St U A) (f : A → handler St U B) : (∀ a, yields P (f a)) → yields P (m ≫= f).
Proof. intros Hf d b. unfold mbind, handler_bind. destruct (m d) as [[a|e|] d']; [apply Hf|done..]. Qed.

Lemma yields_pair {A} (P : A → Prop) (Q : A → Prop) (m : handler St U A) : (∀ a, P a → Q a) → yields P m → yields Q m.
Proof. intros HPQ Hm d a Ha. by eapply HPQ, Hm. Qed.
End yields.

Ltac yield_step :=
  match goal with
  | |- yields _ (_ ≫= _) => apply yields_bind; intros ?
  | |- yields _ (mret _) => apply yields_ret
  | |- yields _ (match ?x with _ => _ end) => destruct x eqn:?
  | |- yields _ (let _ := _ in _) => cbv zeta
  end.
Ltac yield_all := repeat yield_step.

Section contracts.
Context {St U : Type} `{Countable U} `{Screen St} `{!Inspection St}.
Context (env : Surroundings.t St) (daemon : DaemonIdentity.t) (liveness : AttachmentLiveness.t) (version : ProtocolVersion.t).
Notation yields := (yields (St := St) (U := U)).
Notation fits := (fits_contract version).

Lemma view_result_fits result : fits (view_result result version).
Proof. destruct result; [done|apply view_for_contract_fits]. Qed.

Lemma rename_fits session name : yields fits (handle_rename_session_request version session name).
Proof.
  unfold handle_rename_session_request. destruct (supports_session_rename version) eqn:Ev; cbn [negb]; [|by apply yields_ret].
  apply yields_bind. intros [[e|info]|]; by apply yields_ret.
Qed.

Lemma view_request_fits request : yields fits (handle_view_request env version request).
Proof. destruct request; cbn [handle_view_request]; yield_all; first [done|apply view_result_fits|by repeat case_match]. Qed.

Lemma session_request_fits request : yields fits (handle_session_request env version request).
Proof.
  destruct request; cbn [handle_session_request]; try apply view_request_fits; [| |apply rename_fits|].
  - by yield_all.
  - destruct (supports_client_presence version) eqn:Ev; by yield_all.
  - unfold handle_shell_state_request. yield_all. by repeat case_match.
Qed.

(** An attachment is admitted for the contract of its connection. *)
Definition outcome_fits (x : ServerMessage.t + PreparedAttachment.t) : Prop :=
  match x with
  | inl reply => fits reply
  | inr attachment => AttachParameters.protocol_version (PreparedAttachment.request attachment) = version
  end.

Lemma prepared_request {E} (m : string → action St E PreparedAttachment.t) session request :
  (∀ self r a r', m self r = (Ok a, r') → PreparedAttachment.request a = request) →
  yields (λ x, match x with Some (inr (inr a)) => PreparedAttachment.request a = request | _ => True end) (resolve_and session m).
Proof.
  intros Hm d x. unfold resolve_and, run_while_accepting. destruct (Daemon.draining d); [by intros [= <-]|].
  unfold mbind, handler_bind, registry_op. destruct (resolve session _) as [[t|e|] r']; cbn; [|by intros [= <-]|done].
  specialize (Hm (SessionTerminal.id t) r'). destruct (m _ r') as [[a|e|] r'']; cbn; intros [= <-]; [|done]. by eapply Hm.
Qed.

Lemma opening_fits peer request : yields outcome_fits (handle_opening env liveness version peer request).
Proof.
  assert (∀ m : handler St U ServerMessage.t, yields fits m → yields outcome_fits (replying m)) as Hr.
  { intros m Hm d x. unfold replying, mbind, handler_bind. specialize (Hm d). destruct (m d) as [[a|e|] d']; [|done..].
    intros [= <-]. by apply Hm. }
  destruct request; cbn [handle_opening]; try apply Hr, session_request_fits.
  - apply Hr. unfold handle_create_session_request, unless_draining. yield_all. by repeat case_match.
  - unfold handle_new_attachment_request. destruct (negb _); [by apply yields_ret|].
    set (request := AttachParameters.Mk _ _ _ _ _ _ _).
    assert (yields (λ x, match x with Some (inr (inr a)) => PreparedAttachment.request a = request | _ => True end)
      (resolve_and session (λ self, prepare_attachment env self peer request_input_lease request_layout_lease request))) as Hp.
    { apply prepared_request. intros self. apply ok_bind. intros _. by apply ok_bind; intros registration r a r' [= <- _]. }
    intros d x. specialize (Hp d). unfold mbind, handler_bind. destruct (resolve_and _ _ d) as [[p|[]|] d']; [|done]. intros [= <-].
    specialize (Hp p eq_refl). destruct p as [[?|[?|a]]|]; try done. cbn. by rewrite Hp.
  - unfold handle_resume_attachment_request. destruct (negb _); [by apply yields_ret|].
    set (request := AttachParameters.Mk _ _ _ _ _ _ _).
    assert (yields (λ x, match x with Some (inr (inr a)) => PreparedAttachment.request a = request | _ => True end)
      (resolve_and session (λ self, prepare_resumed_attachment self attachment_token peer request))) as Hp.
    { apply prepared_request. intros self. apply ok_bind. intros _. apply ok_bind. intros registration.
      by apply ok_bind; intros registration' r a r' [= <- _]. }
    intros d x. specialize (Hp d). unfold mbind, handler_bind. destruct (resolve_and _ _ d) as [[p|[]|] d']; [|done]. intros [= <-].
    specialize (Hp p eq_refl). destruct p as [[?|[[?|]|a]]|]; try done. cbn. by rewrite Hp.
  - apply Hr. unfold handle_kill_session_request. yield_all; [done|]. by repeat case_match.
Qed.

(** ** Attached clients *)

Context (a : Attached.t) (Ha : Attached.protocol_version a = version).

Lemma move_fits request_id target action : yields fits (process_pane_move env a request_id target action).
Proof.
  unfold process_pane_move, protocol_version. rewrite Ha. destruct (supports_pane_moves version) eqn:Em; cbn [negb]; [|by apply yields_ret].
  pose proof (moves_resize _ Em) as Er.
  yield_all; cbn; [by split..|]. split; [done|]. destruct a0 as [e|[view|view source|]]; try done; [|split]; by apply resize_fits.
Qed.

Lemma attach_input_fits message : yields (λ reply, ∀ m, reply = Some m → fits m) (process_attach_input env a message).
Proof.
  assert (∀ m : handler St U ServerMessage.t, yields fits m →
    yields (λ reply, ∀ m, reply = Some m → fits m) (reply ← m; mret (Some reply))) as Hr.
  { intros m Hm d x. unfold mbind, handler_bind. specialize (Hm d). destruct (m d) as [[b|e|] d']; [|done..].
    intros [= <-] m' [= <-]. by apply Hm. }
  assert (∀ result, ∀ m, silent result = Some m → fits m) as Hsilent by (by intros [e|[]] m [= <-]).
  destruct message; cbn [process_attach_input]; try (apply yields_ret; by intros m [= <-]); try apply Hr.
  - unfold process_view_zoom, protocol_version. rewrite Ha. yield_all; [done|]. destruct a0; [done|apply view_for_contract_fits].
  - unfold process_pane_resize, protocol_version. rewrite Ha. yield_all; try done; destruct (supports_pane_resize version) eqn:Er; try done.
    cbn. split; [done|]. destruct a0; [done|by apply resize_fits].
  - unfold process_pane_resize, protocol_version. rewrite Ha. yield_all; try done; destruct (supports_pane_resize version) eqn:Er; try done.
    cbn. split; [done|]. destruct a0; [done|by apply resize_fits].
  - apply move_fits.
  - apply move_fits.
  - yield_all. apply Hsilent.
  - yield_all. apply Hsilent.
  - unfold process_lease_change. yield_all; done.
  - unfold process_lease_change. yield_all; done.
  - unfold protocol_version. rewrite Ha. destruct (supports_session_statistics version) eqn:Es; [|apply yields_ret; by intros m [= <-]].
    apply yields_bind. intros result. apply yields_ret. intros m [= <-]. by destruct result as [[]|[]].
Qed.

(** Nor does a reply say anything of the terminal's output, which is what the driver of an
    attachment is promised. *)
Lemma attach_input_quiet message : yields (λ reply, ∀ m, reply = Some m → quiet m) (process_attach_input env a message).
Proof using Type.
  assert (∀ result m, silent result = Some m → quiet m) as Hsilent by (by intros [e|[]] m [= <-]).
  assert (∀ m, quiet m → ∀ m', Some m = Some m' → quiet m') as Hsome by (intros m Hm m' [= <-]; exact Hm).
  assert (∀ m : handler St U ServerMessage.t, yields quiet m →
    yields (λ reply, ∀ m, reply = Some m → quiet m) (reply ← m; mret (Some reply))) as Hr.
  { intros m Hm d x. unfold mbind, handler_bind. specialize (Hm d). destruct (m d) as [[b|e|] d']; [|done..].
    intros [= <-] m' [= <-]. by apply Hm. }
  destruct message; cbn [process_attach_input]; try (apply yields_ret; by intros m [= <-]); try apply Hr.
  - unfold process_view_zoom. yield_all; [done|]. by destruct a0.
  - unfold process_pane_resize. by yield_all.
  - unfold process_pane_resize. by yield_all.
  - unfold process_pane_move. by yield_all.
  - unfold process_pane_move. by yield_all.
  - yield_all. apply Hsilent.
  - yield_all. apply Hsilent.
  - unfold process_lease_change. by yield_all.
  - unfold process_lease_change. by yield_all.
  - destruct (supports_session_statistics _); [|apply yields_ret; by intros m [= <-]].
    apply yields_bind. intros result. apply yields_ret. by intros m [= <-].
Qed.
End contracts.

(** The requests of an attached client as the driver sees them, whatever daemon each finds *)
Definition attached_input {St U} `{Countable U} `{Screen St, !Inspection St} (a : Attached.t)
    (finds : list ServerMessage.t → Surroundings.t St * Daemon.t St U) : AttachInput.
Proof.
  refine {| input_reply messages message :=
    match (process_attach_input (finds messages).1 a message (finds messages).2).1 with Ok reply => reply | _ => None end |}.
  intros messages message reply Hr. destruct (process_attach_input _ _ _ _) as [[x|e|] d'] eqn:E; [|done..]. cbn in Hr.
  apply (attach_input_quiet (finds messages).1 a message (finds messages).2 x); [by rewrite E|done].
Defined.

(** * What the daemon's own state goes through *)

(** A run that is not known may become anything; one that is known stays, or is retired. *)
Definition run_goes (x x' : option (option string)) : Prop := x' = x ∨ x = None ∨ x' = Some None.

Section moves.
Context {St U : Type} `{Countable U} `{Screen St} `{!Inspection St} `{!UuidText U}.
Implicit Types (d : Daemon.t St U).

Definition moves (R : relation (Daemon.t St U)) {A} (m : handler St U A) : Prop := ∀ d, R d (m d).2.

(** While it is draining nothing is admitted; otherwise runs go as they may. *)
Record idles d d' : Prop := {
  idles_draining : Daemon.draining d' = Daemon.draining d;
  idles_cancelled : Daemon.cancelled d' = Daemon.cancelled d;
  idles_managed : Daemon.managed d' = Daemon.managed d;
  idles_terminals : terminals (Daemon.registry d') ⊆ terminals (Daemon.registry d);
  idles_typed : Daemon.typed d' = Daemon.typed d }.
Record admits d d' : Prop := {
  admits_draining : Daemon.draining d' = Daemon.draining d;
  admits_cancelled : Daemon.cancelled d' = Daemon.cancelled d;
  admits_managed key : run_goes (Daemon.managed d !! key) (Daemon.managed d' !! key);
  admits_typed : Daemon.typed d' = Daemon.typed d }.

#[export] Instance idles_preorder : PreOrder idles.
Proof. split; [by split|]. intros d1 d2 d3 [] []. split; try congruence. by etrans. Qed.

#[export] Instance admits_preorder : PreOrder admits.
Proof.
  split; [intros d; split; try done; by left|].
  intros d1 d2 d3 [? ? M1 ?] [? ? M2 ?]. split; try congruence. intros key.
  destruct (M1 key) as [E1|[E1|E1]], (M2 key) as [E2|[E2|E2]]; unfold run_goes; rewrite ?E1, ?E2 in *; auto; naive_solver.
Qed.

Lemma idles_admits d d' : idles d d' → admits d d'.
Proof. intros []. split; try done. intros key. left. congruence. Qed.

Section rules.
Context (R : relation (Daemon.t St U)) `{!PreOrder R}.

Lemma moves_ret {A} (a : A) : moves R (mret a).
Proof. intros d. reflexivity. Qed.

Lemma moves_bind {A B} (m : handler St U A) (f : A → handler St U B) : moves R m → (∀ a, moves R (f a)) → moves R (m ≫= f).
Proof.
  intros Hm Hf d. unfold mbind, handler_bind. specialize (Hm d). destruct (m d) as [[a|e|] d']; cbn in *; [|done..].
  etrans; [exact Hm|apply Hf].
Qed.

Lemma moves_asking {A} (f : Daemon.t St U → A) : moves R (asking f).
Proof. intros d. reflexivity. Qed.
End rules.

Lemma moves_weaken {A} (m : handler St U A) : moves idles m → moves admits m.
Proof. intros Hm d. apply idles_admits, Hm. Qed.

(** Operations of the registry that register no terminal *)
Definition shrinks {E A} (m : action St E A) : Prop :=
  ∀ X, safe (λ _ _, True) (λ _, False) X (λ _, True) m.

Lemma shrinks_idles {E A} (m : action St E A) : shrinks m → moves idles (registry_op m).
Proof.
  intros Hm d. unfold registry_op. destruct (Hm (λ id, id ∈ terminals (Daemon.registry d)) (Daemon.registry d)) as [[_ _ Ht _] _]; [by split|].
  destruct (m (Daemon.registry d)) as [[a|e|] r']; cbn in *; (split; [done..| |done]); intros id; apply Ht.
Qed.

(** Nothing changes but the registry. *)
Record steady d d' : Prop := {
  steady_draining : Daemon.draining d' = Daemon.draining d;
  steady_cancelled : Daemon.cancelled d' = Daemon.cancelled d;
  steady_managed : Daemon.managed d' = Daemon.managed d;
  steady_typed : Daemon.typed d' = Daemon.typed d }.

#[export] Instance steady_preorder : PreOrder steady.
Proof. split; [by split|]. intros d1 d2 d3 [] []. split; congruence. Qed.

Lemma steady_admits d d' : steady d d' → admits d d'.
Proof. intros []. split; try done. intros key. left. congruence. Qed.

Lemma op_steady {E A} (m : action St E A) : moves steady (registry_op m).
Proof. intros d. unfold registry_op. by destruct (m _) as [[a|e|] r']. Qed.

Lemma creating_steady m : moves steady (creating (U := U) m).
Proof.
  apply moves_bind; [apply _|apply op_steady|]. intros [e|t]; [apply moves_ret, _|].
  apply moves_bind; [apply _|by intros d|intros; apply moves_ret, _].
Qed.

Lemma op_admits {E A} (m : action St E A) : moves admits (registry_op m).
Proof. intros d. apply steady_admits, op_steady. Qed.

Lemma creating_admits m : moves admits (creating (U := U) m).
Proof. intros d. apply steady_admits, creating_steady. Qed.

(** What a gated operation does, done or not *)
Record gated d d' : Prop := {
  gated_idle : Daemon.draining d = true → idles d d';
  gated_admits : admits d d' }.

#[export] Instance gated_preorder : PreOrder gated.
Proof.
  split; [intros d; split; [intros _|]; reflexivity|].
  intros d1 d2 d3 [I1 A1] [I2 A2]. split; [|by etrans]. intros Hd. etrans; [by apply I1|]. apply I2.
  by rewrite (admits_draining _ _ A1).
Qed.

Lemma moves_gated {A} (m : handler St U A) : moves idles m → moves gated m.
Proof. intros Hm d. split; [intros _; apply Hm|apply idles_admits, Hm]. Qed.

Lemma gate_gated {A} (m : handler St U A) : moves admits m → moves gated (run_while_accepting m).
Proof.
  intros Hm d. unfold run_while_accepting. destruct (Daemon.draining d) eqn:Ed; [reflexivity|].
  split; [by rewrite Ed|]. by apply (moves_bind admits m (λ a, mret (Some a)) Hm (λ a, moves_ret admits (Some a))).
Qed.

Lemma kill_idles env id : moves idles (kill_terminal (U := U) env id).
Proof. intros d. unfold kill_terminal. by destruct (Surroundings.kill env id) as [e|[]]; split. Qed.

Lemma kills_idles env ids : moves idles (kill_terminals (U := U) env ids).
Proof.
  induction ids as [|id ids IH]; cbn [kill_terminals]; [apply moves_ret, _|].
  apply moves_bind; [apply _|apply kill_idles|]. intros [e|[]]; [apply moves_ret, _|done].
Qed.
End moves.

Ltac move_step :=
  match goal with
  | |- moves _ (_ ≫= _) => apply moves_bind; [apply _| |intros ?]
  | |- moves _ (mret _) => apply moves_ret, _
  | |- moves _ (asking _) => apply moves_asking, _
  | |- moves gated (run_while_accepting _) => apply gate_gated
  | |- moves admits (creating _) => apply creating_admits
  | |- moves admits (registry_op _) => apply op_admits
  | |- moves idles (kill_terminals _ _) => apply kills_idles
  | |- moves idles (kill_terminal _ _) => apply kill_idles
  | |- moves gated (kill_terminals _ _) => apply moves_gated, kills_idles
  | |- moves gated (kill_terminal _ _) => apply moves_gated, kill_idles
  | |- moves gated (registry_op _) => apply moves_gated, shrinks_idles
  | |- moves idles (registry_op _) => apply shrinks_idles
  | |- moves _ (match ?x with _ => _ end) => destruct x
  | |- moves _ (let _ := _ in _) => cbv zeta
  end.
Ltac move_all := repeat move_step.

(** The bytes an attachment asks to write to its terminal *)
Definition asked {St} `{Inspection St} (e : event St) : option (string * string * list byte) :=
  match e with
  | Asks _ a (ClientMessage.Input data) => Some (Attached.self a, Attached.attachment_id a, data)
  | _ => None
  end.

Section handlers.
Context {St U : Type} `{Countable U} `{Screen St} `{!Inspection St} `{!UuidText U}.
Implicit Types (d : Daemon.t St U).
Notation moves := (moves (St := St) (U := U)).

Ltac shrink := intros X; unfold resolve, session_view, write_input;
  match goal with
  | |- safe _ _ _ _ (reading _) => apply safe_reading
  | |- safe _ _ _ _ (rename_inner _ _) => by apply safe_rename
  | |- safe _ _ _ _ (update_view_inner _ _ _) => by apply safe_update
  | |- safe _ _ _ _ (promote_terminal_inner _ _ _ _ _) => by apply safe_promote
  | |- safe _ _ _ _ (break_pane_inner _ _ _ _ _ _ _) => by apply safe_break
  | |- safe _ _ _ _ (merge_sessions_inner _ _) => by apply safe_merge
  | |- safe _ _ _ _ (begin_termination_inner _) => by apply safe_begin_termination
  | |- safe _ _ _ _ (acquire_lease_inner _ _ _) => by refine (safe_lease _ _ _ _ (λ _, True) _ _ _ _ _ _ true)
  | |- safe _ _ _ _ (release_lease_inner _ _ _) => by refine (safe_lease _ _ _ _ (λ _, True) _ _ _ _ _ _ false)
  | |- safe _ _ _ _ (process_ended _ _) => by apply (safe_process_ended _ _ _ _ (λ _, True))
  | |- safe _ _ _ _ (on_screen _ _) => by apply safe_on_screen
  | |- safe _ _ _ _ (resize_inner _ _ _) => by apply safe_resize_inner
  | |- safe _ _ _ _ (resize_pane_inner _ _ _ _ _) => by apply safe_resize_layout
  | |- safe _ _ _ _ (resize_divider_inner _ _ _) => by apply safe_resize_layout
  | |- safe _ _ _ _ (swap_pane_inner _ _ _ _) => by apply safe_resize_layout
  | |- safe _ _ _ _ (set_view_zoom_inner _ _ _) => by apply safe_zoom
  | |- safe _ _ _ _ (_ ≫= _) => safe_all
  end.

Lemma view_request_gated env version request : moves gated (handle_view_request env version request).
Proof. destruct request; cbn [handle_view_request]; move_all; shrink. Qed.

Lemma listed_idles include_clients : moves idles (listed_sessions include_clients).
Proof. intros d. reflexivity. Qed.

Lemma session_request_gated env version request : moves gated (handle_session_request env version request).
Proof.
  destruct request; cbn [handle_session_request]; try apply view_request_gated.
  - move_all. apply moves_gated, listed_idles.
  - move_all. apply moves_gated, listed_idles.
  - unfold handle_rename_session_request. move_all.
  - unfold handle_shell_state_request. move_all. shrink.
Qed.

Lemma resolve_and_gated {E A} session (prepare : string → action St E A) : moves gated (resolve_and session prepare).
Proof. unfold resolve_and. move_all. Qed.

Lemma opening_gated env liveness version peer request : moves gated (handle_opening env liveness version peer request).
Proof.
  destruct request; cbn [handle_opening]; unfold replying; try (move_all; apply session_request_gated).
  - unfold handle_create_session_request. move_all.
  - unfold handle_new_attachment_request. move_all. apply resolve_and_gated.
  - unfold handle_resume_attachment_request. move_all. apply resolve_and_gated.
  - unfold handle_kill_session_request. move_all. shrink.
Qed.

Lemma connection_gated env daemon liveness first opening : moves gated (handle_connection env daemon liveness first opening).
Proof.
  intros d. unfold handle_connection, unless_cancelled. destruct (Daemon.cancelled d); [reflexivity|]. revert d.
  change (moves gated (handle_active_connection env daemon liveness first opening)). unfold handle_active_connection, handle_request.
  move_all. apply opening_gated.
Qed.

(** ** Managed runs *)

Lemma retain_admits key d d' run : steady d d' → run_goes (Daemon.managed d !! key) (Some run) →
  admits d (set_managed (<[key := run]> (Daemon.managed d')) d').
Proof.
  intros [] Hrun. split; cbn; try done. intros key'. rewrite steady_managed0. destruct (decide (key' = key)) as [->|Hne].
  - by rewrite lookup_insert_eq.
  - rewrite lookup_insert_ne by done. by left.
Qed.

(** After an operation that changes only the registry, a run may be retained. *)
Lemma then_admits {A B} (m : handler St U A) (f : A → handler St U B) d :
  moves steady m → (∀ a d', steady d d' → admits d (f a d').2) → admits d ((m ≫= f) d).2.
Proof.
  intros Hm Hf. unfold mbind, handler_bind. specialize (Hm d). destruct (m d) as [[a|e|] d']; cbn in *; [auto|by apply steady_admits..].
Qed.

Lemma kill_steady env id : moves steady (kill_terminal (U := U) env id).
Proof. intros d. unfold kill_terminal. by destruct (Surroundings.kill env id) as [e|[]]. Qed.

Lemma manage_run_admits env key operation d : admits d (manage_run env key (Daemon.managed d !! key) operation d).2.
Proof.
  assert (∀ (x : option string) d', steady d d' → admits d ((mret x : handler St U (option string)) d').2) as Hret.
  { intros x d' Hs. by apply steady_admits. }
  assert (∀ d', steady d d' → admits d ((_ ← retain key None; mret (None : option string)) d').2) as Hretire.
  { intros d' Hs. apply retain_admits; [done|]. by right; right. }
  destruct operation; cbn [manage_run].
  - destruct (Daemon.managed d !! key) as [[id|]|] eqn:Ek; [by apply Hret..|]. apply then_admits; [apply creating_steady|].
    intros [e|t] d' Hs; [by apply Hret|]. apply retain_admits; [done|]. rewrite Ek. by right; left.
  - by apply Hret.
  - destruct (Daemon.managed d !! key) as [[id|]|] eqn:Ek; [|by apply Hretire..]. apply then_admits; [apply op_steady|].
    intros [[]|[]] d' Hs; [|by apply Hret]. apply steady_admits. etrans; [exact Hs|].
    apply (moves_bind steady _ _ (kill_steady env id)). intros a. apply moves_ret, _.
  - destruct (Daemon.managed d !! key) as [[id|]|] eqn:Ek; [|by apply Hretire..]. apply then_admits; [apply op_steady|].
    intros [[]|[]] d' Hs; [by apply Hret|by apply Hretire].
Qed.

Lemma outcome_admits key : moves admits (run_outcome key).
Proof. unfold run_outcome. move_all. Qed.

Lemma bind_at R `{!PreOrder R} {A B} (m : handler St U A) (f : A → handler St U B) d :
  R d (m d).2 → (∀ a, moves R (f a)) → R d ((m ≫= f) d).2.
Proof.
  intros Hm Hf. unfold mbind, handler_bind. destruct (m d) as [[a|e|] d']; cbn in *; [|done..]. etrans; [exact Hm|apply Hf].
Qed.

Lemma manage_admits env daemon expected task_id run_id operation : moves admits (manage env daemon expected task_id run_id operation).
Proof.
  intros d. unfold manage. cbv zeta. destruct (match expected with Some _ => _ | None => _ end); [reflexivity|].
  destruct (parse_str task_id), (parse_str run_id); try reflexivity. destruct (_ && _); [reflexivity|].
  match goal with |- admits d ((asking _ ≫= ?f) d).2 => change (admits d (f (Daemon.managed d) d).2) end. cbv beta.
  destruct (_ && _); [reflexivity|]. apply bind_at; [apply _|apply manage_run_admits|].
  intros [e|]; [apply moves_ret, _|]. apply moves_bind; [apply _|apply outcome_admits|]. intros x. apply moves_ret, _.
Qed.

(** ** Every event *)

Lemma attach_input_idles env a message : (∀ data, message ≠ ClientMessage.Input data) → moves idles (process_attach_input env a message).
Proof.
  intros Hm. destruct message; cbn [process_attach_input]; try by move_all.
  - unfold process_view_zoom. move_all. shrink.
  - unfold process_pane_resize, pane_resize. move_all. shrink.
  - unfold process_pane_resize, pane_resize. move_all. shrink.
  - unfold process_pane_move, pane_move. move_all. shrink.
  - unfold process_pane_move, pane_move. move_all. intros X. apply safe_bind; [by apply safe_break|]. intros [view source]. apply safe_ret.
  - by destruct (Hm data).
  - move_all. shrink.
  - unfold process_lease_change. move_all; shrink.
  - unfold process_lease_change. move_all; shrink.
  - move_all. intros X. unfold session_history_statistics. safe_all. generalize 0%N.
    match goal with |- ∀ n, safe _ _ _ _ (count_history ?ids n) => induction ids as [|id ids IH]; intros n; cbn [count_history] end;
      [apply safe_ret|]. apply safe_bind; [by apply safe_on_screen|]. intros b. apply IH.
Qed.

(** Bytes reach a terminal only from the attachment that holds its input lease. *)
Definition types d d' (a : Attached.t) (data : list byte) : Prop :=
  Daemon.typed d' = Daemon.typed d ++ [(Attached.self a, Attached.attachment_id a, data)] ∧
  ∃ t, store (Daemon.registry d) !! Attached.self a = Some t ∧
    LeaseRegistry.input_owner (SessionTerminal.leases t) = Some (Attached.attachment_id a).

Lemma write_input_spec self att d : registry_op (U := U) (write_input self att) d =
  match store (Daemon.registry d) !! self with
  | Some t => (Ok (if owns_input_lease t att then inr () else inl InputLeaseRequired), d)
  | None => (Panic, d)
  end.
Proof.
  unfold registry_op, write_input, mbind, action_bind, reading, shared. destruct (store _ !! self) as [t|]; [|by destruct d].
  cbn [expect]. unfold lift. destruct (owns_input_lease t att); cbn; by destruct d.
Qed.

Lemma input_types env a data d :
  let d' := (process_attach_input env a (ClientMessage.Input data) d).2 in
  (idles d d' ∨ types d d' a data) ∧ idles d (set_typed (Daemon.typed d) d').
Proof.
  cbv zeta. set (d' := (process_attach_input env a (ClientMessage.Input data) d).2).
  assert (d' = match store (Daemon.registry d) !! Attached.self a with
               | Some t => if owns_input_lease t (Attached.attachment_id a) then
                   match Surroundings.write env (Attached.self a) data with
                   | inr () => set_typed (Daemon.typed d ++ [(Attached.self a, Attached.attachment_id a, data)]) d
                   | inl _ => d
                   end else d
               | None => d
               end) as ->.
  { unfold d'. cbn [process_attach_input]. unfold type_input, self, attachment_id, mbind, handler_bind. rewrite write_input_spec.
    destruct (store _ !! _) as [t|]; [|done]. destruct (owns_input_lease _ _); [|done]. by destruct (Surroundings.write _ _ _) as [|[]]. }
  assert (idles d (set_typed (Daemon.typed d) d)) as Hd by by split.
  destruct (store (Daemon.registry d) !! Attached.self a) as [t|] eqn:Et; [|by split; [left|]].
  destruct (owns_input_lease t (Attached.attachment_id a)) eqn:Eo; [|by split; [left|]].
  destruct (Surroundings.write _ _ _) as [e|[]]; [by split; [left|]|]. split; [|by split]. right. split; [done|]. exists t. split; [done|].
  by apply bool_decide_eq_true in Eo.
Qed.

Lemma internal_idles {A} (m : action St Empty_set A) : shrinks m → moves idles (internal m).
Proof. intros Hm. unfold internal. move_all. exact Hm. Qed.

Lemma drop_shrinks guard : shrinks (drop_guard (St := St) (E := Empty_set) guard).
Proof. intros X. unfold drop_guard, close_attachment_inner. safe_all; [by apply (safe_leave _ _ _ _ (λ _, True))|by apply (safe_suspend _ _ _ _ (λ _, True))]. Qed.

Lemma end_shrinks guard exit : shrinks (end_attachment (St := St) (E := Empty_set) guard exit).
Proof.
  destruct exit; cbn [end_attachment]; try apply drop_shrinks. intros X. apply safe_bind; [|intros g; apply drop_shrinks].
  unfold close_now, close_attachment_inner. safe_all. by apply (safe_leave _ _ _ _ (λ _, True)).
Qed.

(** A daemon that drains keeps draining, and admits nothing more; one that is cancelled stays
    so; and a run starts at most once until the daemon drains. *)
Record goes d d' : Prop := {
  goes_draining : Daemon.draining d = true →
    Daemon.draining d' = true ∧ Daemon.managed d' = Daemon.managed d ∧ terminals (Daemon.registry d') ⊆ terminals (Daemon.registry d);
  goes_cancelled : Daemon.cancelled d = true → Daemon.cancelled d' = true;
  goes_run key : run_goes (Daemon.managed d !! key) (Daemon.managed d' !! key) ∨ Daemon.draining d' = true }.

#[export] Instance goes_preorder : PreOrder goes.
Proof.
  split; [intros d; split; [done..|left; by left]|]. intros d1 d2 d3 [D1 C1 R1] [D2 C2 R2]. split; [|auto|].
  - intros Hd. destruct (D1 Hd) as (Hd2 & M1 & T1), (D2 Hd2) as (? & M2 & T2). split_and!; [done|congruence|by etrans].
  - intros key. destruct (R2 key) as [G2|]; [|by right]. destruct (R1 key) as [G1|Hd]; [|right; by apply D2]. left.
    destruct G1 as [E1|[E1|E1]], G2 as [E2|[E2|E2]]; unfold run_goes; rewrite ?E1, ?E2 in *; auto; naive_solver.
Qed.

Lemma same_goes d d' : Daemon.draining d' = Daemon.draining d → Daemon.cancelled d' = Daemon.cancelled d →
  Daemon.managed d' = Daemon.managed d → terminals (Daemon.registry d') ⊆ terminals (Daemon.registry d) → goes d d'.
Proof. intros. split; [intros Hd; split_and!; [congruence|done|done]|congruence|]. intros key. left. left. congruence. Qed.

Lemma idles_goes d d' : idles d d' → goes d d'.
Proof. intros []. by apply same_goes. Qed.

Lemma gated_goes d d' : gated d d' → goes d d'.
Proof.
  intros [Hi [Ed Ec Em _]]. destruct (Daemon.draining d) eqn:Edr; [by apply idles_goes, Hi|].
  split; [congruence|congruence|]. intros key. by left.
Qed.

(** What was killed *)
Lemma kill_all env ids d :
  let d' := (kill_terminals (U := U) env ids d).2 in
  Daemon.registry d' = Daemon.registry d ∧ Daemon.draining d' = Daemon.draining d ∧ Daemon.cancelled d' = Daemon.cancelled d ∧
  Daemon.managed d' = Daemon.managed d ∧ Daemon.typed d' = Daemon.typed d ∧
  ((kill_terminals (U := U) env ids d).1 = Ok (inr ()) → Daemon.killed d' = Daemon.killed d ++ ids).
Proof.
  revert d. induction ids as [|id ids IH]; intros d; cbn [kill_terminals]; [cbn; by rewrite app_nil_r|].
  unfold mbind, handler_bind, kill_terminal. destruct (Surroundings.kill env id) as [e|[]]; [done|].
  specialize (IH (set_killed (Daemon.killed d ++ [id]) d)). cbv zeta in IH. destruct (kill_terminals env ids _) as [r d'].
  cbn in *. destruct IH as (-> & -> & -> & -> & -> & Hk). split_and!; try done. intros E. by rewrite (Hk E), <- app_assoc.
Qed.

Lemma kills_ok env ids d : ∃ x, (kill_terminals (U := U) env ids d).1 = Ok x.
Proof.
  revert d. induction ids as [|id ids IH]; intros d; cbn [kill_terminals]; [by eexists|].
  unfold mbind, handler_bind, kill_terminal. destruct (Surroundings.kill env id) as [e|[]]; [by eexists|]. apply IH.
Qed.

(** A restart: it is refused, or fails and changes nothing, or ends everything *)
Lemma restart_spec env d :
  let d' := (begin_cooperative_restart env d).2 in
  match (begin_cooperative_restart env d).1 with
  | Ok (inr n) =>
      n = N.of_nat (size (terminals (Daemon.registry d))) ∧ Daemon.draining d = false ∧ Daemon.draining d' = true ∧
      Daemon.managed d' = ∅ ∧ Daemon.registry d' = Daemon.registry d ∧ Daemon.cancelled d' = Daemon.cancelled d ∧
      ∀ id, id ∈ terminals (Daemon.registry d) → id ∈ Daemon.killed d'
  | Ok (inl _) => Daemon.draining d' = Daemon.draining d ∧ Daemon.managed d' = Daemon.managed d ∧
      Daemon.registry d' = Daemon.registry d ∧ Daemon.cancelled d' = Daemon.cancelled d
  | _ => False
  end ∧ Daemon.typed d' = Daemon.typed d.
Proof.
  cbv zeta. unfold begin_cooperative_restart, asking, mbind, handler_bind, snapshot_for_cooperative_restart.
  destruct (Daemon.draining d) eqn:Ed; [done|]. destruct (decide _) as [|Hn]; [done|]. cbn [daemon_op fst snd].
  unfold daemon_op. pose proof (kill_all env (elements (terminals (Daemon.registry d))) (set_draining true d)) as Hk. cbv zeta in Hk.
  pose proof (kills_ok env (elements (terminals (Daemon.registry d))) (set_draining true d)) as Hok.
  destruct (kill_terminals _ _ _) as [[[e|[]]|[]|] d'] eqn:Ek; cbn in Hk, Hok |- *; try done.
  - by destruct Hk as (-> & _ & -> & -> & -> & _).
  - destruct Hk as (-> & -> & -> & _ & -> & Hkd). cbn. split_and!; try done.
    intros id Hid. rewrite (Hkd eq_refl). apply elem_of_app. right. by apply elem_of_elements.
  - by destruct Hok.
Qed.

Lemma manage_gated env daemon expected task_id run_id operation :
  moves gated (run_while_accepting (manage env daemon expected task_id run_id operation)).
Proof. apply gate_gated, manage_admits. Qed.

Lemma local_request_goes env daemon request : moves goes (handle_local_control_request env daemon request).
Proof.
  destruct request; cbn [handle_local_control_request]; [apply moves_ret, _| |].
  - intros d. unfold mbind at 1, handler_bind. pose proof (restart_spec env d) as Hr. cbv zeta in Hr.
    destruct (begin_cooperative_restart env d) as [[[e|n]|[]|] d']; cbn in Hr; destruct Hr as [Hr _]; [| |done].
    + destruct Hr as (Ed & Em & Er & Ec). assert (goes d d') as Hg.
      { apply same_goes; [done..|]. by rewrite Er. }
      by destruct e.
    + destruct Hr as (_ & Ed & Ed' & Em & Er & Ec & _). split; cbn; [congruence|done|]. intros key. by right.
  - apply moves_bind; [apply _| |intros x; apply moves_ret, _]. intros d. apply gated_goes, manage_gated.
Qed.

Lemma local_goes env daemon first second : moves goes (handle_local_control_connection env daemon first second).
Proof.
  intros d. unfold handle_local_control_connection, unless_cancelled. destruct (Daemon.cancelled d); [reflexivity|].
  destruct first as [first|]; [|reflexivity]. destruct (accept_local_control_handshake _ _) as [[] reply]; destruct second; try reflexivity.
  apply bind_at; [apply _|apply local_request_goes|]. intros x. apply moves_ret, _.
Qed.

(** Every event *)
Lemma serve_goes (e : event St) : moves goes (serve e).
Proof.
  destruct e as [env daemon liveness first opening|env daemon first second|env a message|guard exit|self token generation|id code|id state];
    cbn [serve].
  - apply moves_bind; [apply _| |intros []; apply moves_ret, _]. intros d. apply gated_goes, connection_gated.
  - apply moves_bind; [apply _|apply local_goes|]. intros x. apply moves_ret, _.
  - apply moves_bind; [apply _| |intros x; apply moves_ret, _]. intros d.
    destruct message; try (apply idles_goes, attach_input_idles; done).
    destruct (input_types env a data d) as [_ [Ed Ec Em Et _]]. by apply same_goes.
  - intros d. apply idles_goes, internal_idles, end_shrinks.
  - intros d. apply idles_goes, internal_idles. intros X. by apply (safe_leave _ _ _ _ (λ _, True)).
  - intros d. apply idles_goes, internal_idles. intros X. apply safe_bind; [by apply safe_on_screen|]. intros _. by apply (safe_process_ended _ _ _ _ (λ _, True)).
  - intros d. apply idles_goes, internal_idles. shrink.
Qed.
End handlers.

Section histories.
Context {St U : Type} `{Countable U} `{InspectionLaws St} `{!UuidText U}.
Implicit Types (d : Daemon.t St U) (e : event St).

Lemma path_goes n d es n' d' : path n d es n' d' → goes d d'.
Proof. induction 1 as [|n d e es n' d' _ _ IH]; [reflexivity|]. etrans; [apply serve_goes|exact IH]. Qed.

(** ** Typing *)

Lemma local_typed env daemon first second d :
  Daemon.typed (handle_local_control_connection env daemon first second d).2 = Daemon.typed d.
Proof.
  unfold handle_local_control_connection, unless_cancelled. destruct (Daemon.cancelled d); [done|].
  destruct first as [first|]; [|done]. destruct (accept_local_control_handshake _ _) as [[] reply]; destruct second as [request|]; try done.
  assert (Daemon.typed (handle_local_control_request env daemon request d).2 = Daemon.typed d) as Hr.
  { destruct request; cbn [handle_local_control_request]; [done| |].
    - unfold mbind at 1, handler_bind. pose proof (restart_spec env d) as Hr. cbv zeta in Hr.
      destruct (begin_cooperative_restart env d) as [[[err|n]|[]|] d']; cbn in Hr; destruct Hr as [Hr Ht]; [by destruct err| |done]. exact Ht.
    - unfold mbind, handler_bind. pose proof (gated_admits _ _ (manage_gated env daemon expected_instance task_id run_id operation d)) as Hg.
      destruct (run_while_accepting _ d) as [[x|[]|] d']; apply (admits_typed _ _ Hg). }
  unfold mbind, handler_bind. destruct (handle_local_control_request env daemon request d) as [[x|[]|] d']; exact Hr.
Qed.

Lemma bind_typed {A B} (m : handler St U A) (f : A → B) d :
  Daemon.typed ((a ← m; mret (f a)) d).2 = Daemon.typed (m d).2.
Proof. unfold mbind, handler_bind. by destruct (m d) as [[a|[]|] d']. Qed.

Lemma serve_types e d : Daemon.typed (RequestsInv.serve e d).2 = Daemon.typed d ∨
  ∃ env a data, e = Asks env a (ClientMessage.Input data) ∧ types d (RequestsInv.serve e d).2 a data.
Proof.
  assert (∀ m : handler St U answer, moves idles m → Daemon.typed (m d).2 = Daemon.typed d) as Hidle.
  { intros m Hm. apply idles_typed, Hm. }
  destruct e as [env daemon liveness first opening|env daemon first second|env a message|guard exit|self token generation|id code|id state];
    cbn [RequestsInv.serve].
  - left. apply (admits_typed d), gated_admits, moves_bind; [apply _|apply connection_gated|]. intros []. apply moves_ret, _.
  - left. rewrite bind_typed. apply local_typed.
  - assert ((∃ data, message = ClientMessage.Input data) ∨ ∀ data, message ≠ ClientMessage.Input data) as [[data ->]|Hn]
      by (destruct message; (by right) || (left; by eexists)).
    + pose proof (input_types env a data d) as [[Hi|[Et Ht]] _]; [left; rewrite bind_typed; by apply idles_typed|right].
      exists env, a, data. split; [done|]. split; [|done]. by rewrite bind_typed.
    + left. rewrite bind_typed. by apply idles_typed, attach_input_idles.
  - left. apply Hidle, internal_idles, end_shrinks.
  - left. apply Hidle, internal_idles. intros X. by apply (safe_leave _ _ _ _ (λ _, True)).
  - left. apply Hidle, internal_idles. intros X. apply safe_bind; [by apply safe_on_screen|]. intros _. by apply (safe_process_ended _ _ _ _ (λ _, True)).
  - left. apply Hidle, internal_idles. intros X. by apply safe_on_screen.
Qed.

(** ** Exits *)

Lemma exits_leaves n id code d : (room (n + 1) < u64_MAX)%N → sound (room (n + 1)) d → permitted (Exits id code) d →
  id ∉ terminals (Daemon.registry (RequestsInv.serve (Exits id code) d).2).
Proof.
  intros Hle Hs Hp. destruct (serve_sound n (Exits id code) d Hle Hs Hp) as (a & Ha & _). revert Ha. cbn [RequestsInv.serve]. unfold internal.
  unfold mbind at 1, handler_bind, registry_op, process_ended, remove_terminal.
  destruct ((_ ← on_screen id _; _ ← on_terminal id _; _ ← detach_terminal id; on_terminals _) (Daemon.registry d)) as [[[]|[]|] r'] eqn:E; [|done].
  intros _. cbn. revert E. unfold mbind, action_bind. destruct (on_screen id _ _) as [[[]|[]|] r0]; [|done].
  destruct (on_terminal id _ _) as [[[]|[]|] r1]; [|done].
  destruct (detach_terminal id r1) as [[[]|[]|] r2]; [|done]. intros [= <-]. cbn. set_solver.
Qed.

(** While it drains, a terminal that exits is gone for good. *)
Lemma drained_gone n d es n' d' id : (room n < u64_MAX)%N → sound (room n) d → path n d es n' d' → Daemon.draining d = true →
  id ∉ terminals (Daemon.registry d) ∨ (∃ code, Exits id code ∈ es) → id ∉ terminals (Daemon.registry d').
Proof.
  intros Hle Hs Hp. induction Hp as [n d|n d e es n' d' Hpe _ IH]; intros Hd Hid.
  { by destruct Hid as [|(code & []%elem_of_nil)]. }
  destruct (serve_sound n e d Hle Hs Hpe) as (_ & _ & Hs'). destruct (serve_goes e d) as [Hg _ _].
  destruct (Hg Hd) as (Hd' & _ & Hsub). apply IH; [unfold room in *; lia|done..|].
  destruct Hid as [Hid|(code & [<-|He]%elem_of_cons)]; [left; set_solver|left; by apply (exits_leaves n)|eauto].
Qed.

Lemma manage_answers env daemon expected task_id run_id operation :
  yields (St := St) (U := U) (λ x, ∀ n, x ≠ inr (LocalControlServerMessage.RestartAccepted n))
    (manage env daemon expected task_id run_id operation).
Proof.
  unfold manage. cbv zeta. repeat (destruct (_ : bool); [by apply yields_ret|]). destruct (parse_str task_id), (parse_str run_id);
    try by apply yields_ret. destruct (_ : bool); [by apply yields_ret|]. apply yields_bind. intros managed.
  destruct (_ : bool); [by apply yields_ret|]. apply yields_bind. intros [e|]; [by apply yields_ret|]. apply yields_bind. intros x.
  by apply yields_ret.
Qed.
(** What an accepted restart did *)
Lemma restart_accepted env daemon first second d d' replies terminated :
  handle_local_control_connection env daemon first second d = (Ok replies, d') →
  LocalControlServerMessage.RestartAccepted terminated ∈ replies →
  terminated = N.of_nat (size (terminals (Daemon.registry d))) ∧ Daemon.draining d' = true ∧ Daemon.cancelled d' = true ∧
  Daemon.managed d' = ∅ ∧ Daemon.registry d' = Daemon.registry d ∧
  ∀ id, id ∈ terminals (Daemon.registry d) → id ∈ Daemon.killed d'.
Proof.
  intros Hr Hin. revert Hr Hin. unfold handle_local_control_connection, unless_cancelled. destruct (Daemon.cancelled d); [by intros [= <- _] []%elem_of_nil|].
  assert (∀ handshake b reply, accept_local_control_handshake daemon handshake = (b, reply) →
    LocalControlServerMessage.RestartAccepted terminated ≠ reply) as Hh.
  { intros handshake b reply. unfold accept_local_control_handshake. destruct handshake; [|by intros [= _ <-]..].
    destruct (ProtocolOffer.negotiate _ _); by intros [= _ <-]. }
  destruct first as [first|]; [|by intros [= <- _] []%elem_of_nil].
  destruct (accept_local_control_handshake _ _) as [b reply] eqn:Eh. apply Hh in Eh.
  destruct second as [request|]; [|by intros [= <- _] [?|[]%elem_of_nil]%elem_of_cons].
  destruct b; [|by intros [= <- _] [?|[]%elem_of_nil]%elem_of_cons].
  unfold mbind at 1, handler_bind. destruct request; cbn [handle_local_control_request].
  - by intros [= <- _] [?|[[=]|[]%elem_of_nil]%elem_of_cons]%elem_of_cons.
  - unfold mbind at 1, handler_bind. pose proof (restart_spec env d) as Hr. cbv zeta in Hr.
    destruct (begin_cooperative_restart env d) as [[[e|m]|[]|] d1]; cbn in Hr; destruct Hr as [Hr _]; [| |done].
    + destruct e; by intros [= <- _] [?|[[=]|[]%elem_of_nil]%elem_of_cons]%elem_of_cons.
    + intros [= <- <-] [?|[[= <-]|[]%elem_of_nil]%elem_of_cons]%elem_of_cons; [done|].
      destruct Hr as (-> & _ & ? & ? & ? & _ & ?). by split_and!.
  - assert (yields (St := St) (U := U) (λ x, ∀ m n, x = Some m → m ≠ inr (LocalControlServerMessage.RestartAccepted n))
      (run_while_accepting (manage env daemon expected_instance task_id run_id operation))) as Hy.
    { intros d0 x. unfold run_while_accepting. destruct (Daemon.draining d0); [by intros [= <-]|].
      pose proof (manage_answers env daemon expected_instance task_id run_id operation d0) as Hy. unfold mbind, handler_bind.
      destruct (manage _ _ _ _ _ _ d0) as [[y|[]|] d1]; [|done]. intros [= <-] m k [= <-]. by apply Hy. }
    specialize (Hy d). unfold mbind, handler_bind. destruct (run_while_accepting _ d) as [[x|[]|] d1]; [|done].
    intros [= <- _] [?|[E|[]%elem_of_nil]%elem_of_cons]%elem_of_cons; [done|]. destruct x as [[x|x]|]; [done| |done].
    subst x. by destruct (Hy _ eq_refl _ terminated eq_refl).
Qed.
End histories.

(** * What attachments hold *)

Section holdings.
Context {St : Type} `{Screen St}.
Implicit Types (r : SessionRegistry.t St) (t : SessionTerminal.t St).

Definition holding t : TerminalOwner.t * gmap string AttachmentRecord.t * LeaseRegistry.t :=
  (SessionTerminal.owner t, SessionTerminal.attachments t, SessionTerminal.leases t).

(** The owners, the attachments and the leases of the terminals, and the leases of the
    sessions *)
Definition holdings r : gmap string (TerminalOwner.t * gmap string AttachmentRecord.t * LeaseRegistry.t) * gmap string LeaseRegistry.t :=
  (holding <$> store r, session_leases (sessions r)).

(** An action that changes none of this, whatever its outcome *)
Definition quietly {E A} (m : action St E A) : Prop := ∀ r, holdings (m r).2 = holdings r.

Lemma safe_quietly {E A} (m : action St E A) :
  (∀ T D W, (∀ id t t', kept t t' → T id t → T id t') → safe T D (λ _, True) W m) → quietly m.
Proof.
  intros Hm r. set (h := holding <$> store r).
  destruct (Hm (λ id t, h !! id = Some (holding t)) (λ id, is_Some (h !! id)) (λ w, w = session_leases (sessions r))) with r
    as [[HT HD _ HW] _].
  - intros id t t' K ->. unfold holding. by rewrite (kept_owner _ _ K), (kept_attachments _ _ K), (kept_leases _ _ K).
  - split; try done; unfold h.
    + intros id t Ht. by rewrite lookup_fmap, Ht.
    + intros id Hid. by rewrite lookup_fmap, fmap_is_Some in Hid.
  - unfold holdings. rewrite HW. f_equal. apply map_eq. intros id. fold h. rewrite lookup_fmap.
    destruct (store (m r).2 !! id) as [t|] eqn:Et; cbn; [symmetry; by apply HT|].
    destruct (h !! id) eqn:Eh; [|done]. destruct (HD id) as [? ?]; [by eexists|congruence].
Qed.

Lemma bind_returns {E A B} (m : action St E A) (f : A → action St E B) r b r' : (m ≫= f) r = (Ok b, r') →
  ∃ a r1, m r = (Ok a, r1) ∧ f a r1 = (Ok b, r').
Proof. unfold mbind, action_bind. destruct (m r) as [[a|e|] r1]; [eauto|done..]. Qed.

Lemma quietly_bind {E A B} (m : action St E A) (f : A → action St E B) r b r' : quietly m → (m ≫= f) r = (Ok b, r') →
  ∃ a r1, holdings r1 = holdings r ∧ f a r1 = (Ok b, r').
Proof. intros Hm (a & r1 & E1 & E2)%bind_returns. exists a, r1. split; [|done]. specialize (Hm r). by rewrite E1 in Hm. Qed.

Section changes.
Context (self : string) (h : gmap string (TerminalOwner.t * gmap string AttachmentRecord.t * LeaseRegistry.t)) (w : gmap string LeaseRegistry.t).
Context (o : TerminalOwner.t) (a : gmap string AttachmentRecord.t) (l : LeaseRegistry.t).
Context (Hself : h !! self = Some (o, a, l)).

Lemma held_terminal r : holdings r = (h, w) → ∃ t, store r !! self = Some t ∧
  SessionTerminal.owner t = o ∧ SessionTerminal.attachments t = a ∧ SessionTerminal.leases t = l.
Proof using Hself.
  unfold holdings. intros [= Eh _]. rewrite <- Eh, lookup_fmap in Hself.
  destruct (store r !! self) as [t|]; [|done]. injection Hself as <- <- <-. by exists t.
Qed.

Lemma change_attachments_held {E B} (f : _ → B * _) r b r' : holdings r = (h, w) →
  change_attachments (E := E) self f r = (Ok b, r') → b = (f a).1 ∧ holdings r' = (<[self := (o, (f a).2, l)]> h, w).
Proof using Hself.
  intros Eh. destruct (held_terminal r Eh) as (t & Et & <- & <- & <-). unfold change_attachments, mbind, action_bind, reading, shared.
  rewrite Et. cbn [expect]. destruct (f _) as [x y]. cbn. intros [= <- <-]. split; [done|]. revert Eh. unfold holdings. cbn.
  intros [= <- <-]. by rewrite fmap_insert.
Qed.

Lemma change_leases_held {E B} (f : _ → B * _) r b r' : holdings r = (h, w) →
  change_leases (E := E) self f r = (Ok b, r') → b = (f l).1 ∧ holdings r' = (<[self := (o, a, (f l).2)]> h, w).
Proof using Hself.
  intros Eh. destruct (held_terminal r Eh) as (t & Et & <- & <- & <-). unfold change_leases, mbind, action_bind, reading, shared.
  rewrite Et. cbn [expect]. destruct (f _) as [x y]. cbn. intros [= <- <-]. split; [done|]. revert Eh. unfold holdings. cbn.
  intros [= <- <-]. by rewrite fmap_insert.
Qed.

Lemma change_view_leases_held {E B} (x : B) (f : _ → B * _) r b r' : holdings r = (h, w) →
  change_view_leases (E := E) self x f r = (Ok b, r') → holdings r' = (h, alter (λ leases, (f leases).2) (TerminalOwner.session_id o) w).
Proof using Hself.
  intros Eh. destruct (held_terminal r Eh) as (t & Et & Eo & _). unfold change_view_leases. intros (t' & r1 & E1 & Hr)%bind_returns.
  unfold reading, shared in E1. rewrite Et in E1. injection E1 as <- <-. cbv zeta in Hr. rewrite Eo in Hr.
  apply bind_returns in Hr as (root & r2 & E2 & Hr). injection E2 as <- <-. apply bind_returns in Hr as (b' & r3 & E3 & Hr).
  assert (holdings r3 = (h, alter (λ leases, (f leases).2) (TerminalOwner.session_id o) w)) as E4.
  { revert Eh E3. unfold holdings, session_leases. intros [= <- <-].
    destruct (sessions r !! TerminalOwner.session_id o) as [s|] eqn:Es.
    - destruct (f _) as [y leases] eqn:Ef. cbn. intros [= _ <-]. cbn. f_equal. apply map_eq. intros i. rewrite lookup_fmap.
      destruct (decide (i = TerminalOwner.session_id o)) as [->|Hne].
      + rewrite lookup_insert_eq, lookup_alter_eq, lookup_fmap, Es. cbn. by rewrite Ef.
      + by rewrite lookup_insert_ne, lookup_alter_ne, lookup_fmap by done.
    - intros [= _ <-]. f_equal. symmetry. apply alter_id. intros x'. by rewrite lookup_fmap, Es. }
  apply quietly_bind in Hr as ([] & r4 & E5 & [= _ <-]); [congruence|].
  apply safe_quietly. intros T D W HT. by apply safe_publish_layout_leases.
Qed.
End changes.

(** Who has no lease *)
Definition holds_none (attachment_id : string) (l : LeaseRegistry.t) : Prop :=
  LeaseRegistry.input_owner l ≠ Some attachment_id ∧ LeaseRegistry.layout_owner l ≠ Some attachment_id.

Lemma requested_released att i j l : holds_none att l →
  LeaseRegistry.release_attachment (LeaseRegistry.request_initial l att i j).2 att = l.
Proof.
  destruct l as [io lo]. intros [Hi Hl]. cbn in Hi, Hl. unfold LeaseRegistry.request_initial, LeaseRegistry.release_attachment,
    LeaseRegistry.release_owned_lease. cbn.
  destruct i, j; repeat (case_bool_decide || case_decide || (progress cbn in * )); try done; congruence.
Qed.

Lemma pick_token_fresh candidates a token : pick_token candidates a = Some token → a !! token = None.
Proof.
  induction candidates as [|c candidates IH]; cbn [pick_token]; [done|]. case_decide as Hc; [done|]. intros [= <-].
  by apply eq_None_not_Some.
Qed.

Lemma create_held {E} self att candidates i j peer registration r r' h w o a l :
  h !! self = Some (o, a, l) → holdings r = (h, w) →
  create_attachment_inner (E := E) self att candidates i j peer r = (Ok registration, r') →
  let token := AttachmentRegistration.attachment_token registration in
  a !! token = None ∧ AttachmentRegistration.generation registration = 0%N ∧
  holdings r' = (<[self := (o, <[token := AttachmentRecord.Mk att peer 0 true 0]> a, (LeaseRegistry.request_initial l att i false).2)]> h,
                 alter (λ x, (LeaseRegistry.request_initial x att false j).2) (TerminalOwner.session_id o) w).
Proof.
  intros Hself Eh. unfold create_attachment_inner, register. intros (token & r1 & Hreg & Hr)%bind_returns.
  apply bind_returns in Hreg as (picked & r2 & Hc & Hl). destruct picked as [token'|]; [|done]. injection Hl as -> ->.
  destruct (change_attachments_held self h w o a l Hself _ _ _ _ Eh Hc) as [Hp Eh1]. unfold enroll in *.
  destruct (pick_token candidates a) as [t0|] eqn:Et; [|done]. injection Hp as ->.
  apply bind_returns in Hr as (granted & r3 & Hc3 & Hr).
  destruct (change_leases_held self _ w o _ l ltac:(apply lookup_insert_eq) _ _ _ _ Eh1 Hc3) as [_ Eh3]. rewrite insert_insert_eq in Eh3.
  apply bind_returns in Hr as (layout & r4 & Hc4 & [= <- <-]).
  eapply change_view_leases_held in Hc4; [|apply lookup_insert_eq|exact Eh3]. cbn. split; [by eapply pick_token_fresh|]. split; [done|].
  rewrite Hc4. f_equal.
Qed.

Lemma resume_held {E} self token peer registration r r' h w o a l :
  h !! self = Some (o, a, l) → holdings r = (h, w) →
  resume_attachment_inner (E := E) self token (Some peer) r = (Ok (Some registration), r') →
  ∃ record generation, a !! token = Some record ∧ succ64 (AttachmentRecord.generation record) = Some generation ∧
    AttachmentRegistration.attachment_token registration = token ∧ AttachmentRegistration.generation registration = generation ∧
    holdings r' = (<[self := (o, <[token := AttachmentRecord.Mk (AttachmentRecord.attachment_id record) peer generation true generation]> a, l)]> h, w).
Proof.
  intros Hself Eh. unfold resume_attachment_inner. intros (rebound & r1 & Hc & Hr)%bind_returns.
  destruct (change_attachments_held self h w o a l Hself _ _ _ _ Eh Hc) as [Hp Eh1]. unfold rebind in *.
  destruct (a !! token) as [record|]; [|by subst rebound]. destruct (succ64 _) as [generation|] eqn:Es; [|by subst rebound].
  exists record, generation. cbn in Hp, Eh1. subst rebound.
  apply bind_returns in Hr as (input & r2 & Hc2 & Hr).
  destruct (change_leases_held self _ w o _ l ltac:(apply lookup_insert_eq) _ _ _ _ Eh1 Hc2) as [_ Eh2]. rewrite insert_insert_eq in Eh2.
  apply quietly_bind in Hr as (layout & r3 & E3 & [= <- <-]).
  2:{ apply safe_quietly. intros. unfold with_view_leases. safe_all. }
  split_and!; try done. cbn in Eh2. congruence.
Qed.

Lemma leave_held {E} self token record generation r b r' h w o a l :
  h !! self = Some (o, a, l) → holdings r = (h, w) → a !! token = Some record → AttachmentRecord.generation record = generation →
  Attachments.leave (E := E) false self token generation r = (Ok b, r') →
  let att := AttachmentRecord.attachment_id record in
  holdings r' = (<[self := (o, delete token a, LeaseRegistry.release_attachment l att)]> h,
                 alter (λ x, LeaseRegistry.release_attachment x att) (TerminalOwner.session_id o) w).
Proof.
  intros Hself Eh Htok Hgen. unfold Attachments.leave, release_input, release_layout. intros (dropped & r1 & Hc & Hr)%bind_returns.
  destruct (change_attachments_held self h w o a l Hself _ _ _ _ Eh Hc) as [Hp Eh1]. unfold drop_record in *.
  rewrite Htok, Hgen, bool_decide_eq_true_2 in Hp, Eh1 by done. cbn in Hp, Eh1. subst dropped.
  apply bind_returns in Hr as ([] & r2 & Hc2 & Hr).
  destruct (change_leases_held self _ w o _ l ltac:(apply lookup_insert_eq) _ _ _ _ Eh1 Hc2) as [_ Eh2]. rewrite insert_insert_eq in Eh2.
  apply bind_returns in Hr as ([] & r3 & Hc3 & [= _ <-]).
  eapply change_view_leases_held in Hc3; [|apply lookup_insert_eq|exact Eh2]. exact Hc3.
Qed.
End holdings.

(** An attachment that does not begin ends with its guard. *)
Lemma not_attached `{HistoryCodec, Connection} {E} time in_time attachment last (r r' : SessionRegistry.t LiveTerminal.t) :
  handle_attach (E := E) time in_time attachment r = (Ok (NotAttached last), r') →
  ∃ r1 b, holdings r1 = holdings r ∧ drop_guard (E := E) (guard_of attachment) r1 = (Ok b, r').
Proof.
  unfold handle_attach. cbv zeta. intros (refused & r1 & E1 & Hr)%quietly_bind.
  2:{ apply safe_quietly. intros T D W HT. unfold apply_initial_resize. safe_all. }
  assert (∀ x r1, (_ ← drop_guard (E := E) (guard_of attachment); mret (NotAttached x)) r1 = (Ok (NotAttached last), r') →
    ∃ b, drop_guard (E := E) (guard_of attachment) r1 = (Ok b, r')) as Hend.
  { intros x r0 (b & r2 & E2 & [= _ <-])%bind_returns. by exists b. }
  destruct refused as [message|], (in_time.1); try (apply Hend in Hr as [b Hb]; by exists r1, b).
  destruct (in_time.2).
  2:{ apply quietly_bind in Hr as (begun & r2 & E2 & Hr); [apply Hend in Hr as [b Hb]; exists r2, b; split; [congruence|done]|].
      apply safe_quietly. intros T D W HT. unfold initial_snapshot. safe_all. }
  apply quietly_bind in Hr as (begun & r2 & E2 & Hr).
  2:{ apply safe_quietly. intros T D W HT. unfold take_initial_snapshot, initial_snapshot. safe_all. }
  destruct begun as [ended|driver]; [|done]. apply bind_returns in Hr as (b & r3 & E3 & [= -> <-]). exists r2, b. split; [congruence|done].
Qed.

(** * A concrete daemon *)

Module Sample.
#[export] Existing Instances DaemonTheorems.ascii_width DaemonTheorems.plain_paths.

(** Identifiers are any strings but the empty one. *)
#[export] Instance string_uuid : UuidText string := {|
  parse_str s := if decide (s = "") then inl "invalid length"%string else inr s; simple s := s |}.

Definition identity : DaemonIdentity.t := DaemonIdentity.Mk "1.0" (ComponentBuildInfo.Mk (str "1.0") None "" false) "i1".
Definition liveness : AttachmentLiveness.t := AttachmentLiveness.Mk 30000 10000.

(** A new terminal with a small journal and history *)
Definition spawn (size : TerminalSize.t) : outcome SessionManagerError (Spawned.t LiveTerminal.t) :=
  match LiveTerminal.new size 64 64 with Some s => Ok (Spawned.Mk s [] (inr ())) | None => Panic end.

(** New identifiers are those numbered [n]; every process starts, ends and takes input. *)
Definition env (n : string) : Surroundings.t LiveTerminal.t :=
  Surroundings.Mk ("t" +:+ n) ("s" +:+ n) ("v" +:+ n) 7 (λ _ _, spawn) (λ _, inr ()) (λ _ _, inr ())
    (λ _, None) ("a" +:+ n) ["token" +:+ n].

Definition control (n : string) (request : LocalControlClientMessage.t) : event LiveTerminal.t :=
  Controls (env n) identity
    (Some (LocalControlClientMessage.Handshake (ProtocolOffer.new 1 LOCAL_CONTROL_PROTOCOL_VERSION LOCAL_CONTROL_SUPPORTED_PROTOCOL_VERSIONS)))
    (Some request).
Definition offer : ProtocolOffer.t := ProtocolOffer.new PROTOCOL_BUILD PROTOCOL_VERSION SUPPORTED_PROTOCOL_VERSIONS.
Definition connect (n : string) (request : ClientMessage.t) : event LiveTerminal.t :=
  Connects (env n) identity liveness (Some (ClientMessage.Handshake offer "editor" "2")) (Some (OpeningRequest.Mk request None)).
Definition start_run (run : string) : LocalControlClientMessage.t :=
  LocalControlClientMessage.ManageSession (Some "i1"%string) "task" run (Start (CommandSpec.Mk "make" []) None).
Definition attach (terminal : string) : ClientMessage.t :=
  ClientMessage.AttachSession terminal None size80 true true false false 65536.
Definition attached (terminal attachment : string) : Attached.t := Attached.Mk terminal attachment PROTOCOL_VERSION false false.

(** A managed run is started and prints, a client attaches to it and types, another only
    watches and its input is refused. *)
Definition events : list (event LiveTerminal.t) :=
  [control "1" (start_run "run"); Changes "t1" (Outputs 64 [x68; x69]); connect "2" (attach "t1"); Asks (env "3") (attached "t1" "a2") (ClientMessage.Input [x6c; x73]);
   connect "4" (attach "t1"); Asks (env "5") (attached "t1" "a4") (ClientMessage.Input [x71])].

Definition after (es : list (event LiveTerminal.t)) : Daemon.t LiveTerminal.t string := foldl (λ d e, (RequestsInv.serve e d).2) Daemon.new es.
Definition started : Daemon.t LiveTerminal.t string := after (take 1 events).

Lemma spawn_born size : valid_size size → spawn size ⇓? λ process, screen_born size (Spawned.state process).
Proof.
  intros Hv. destruct Hv as (Hc & Hr & _). unfold spawn.
  destruct (LiveTerminal.new size 64 64) as [s|] eqn:E; [exists 64, 64%N; by split|].
  pose proof (LiveRuns.new_ready (H0 := TerminalInv.Loose) size 64 64 0 0) as Hn. rewrite E in Hn. apply Hn.
  all: unfold widest, live_width, u16_MAX, u64_MAX in *; lia.
Qed.

Lemma env_ok_example n (d : Daemon.t LiveTerminal.t string) :
  bool_decide (store (Daemon.registry d) !! ("t" +:+ n) = None ∧ sessions (Daemon.registry d) !! ("s" +:+ n) = None ∧
    map_Forall (λ _ t, SessionTerminal.attachments t !! ("token" +:+ n) = None) (store (Daemon.registry d))) = true →
  env_ok (env n) d.
Proof.
  intros (Ht & Hs & Hall)%bool_decide_eq_true. split; [done|done|intros; by apply spawn_born|]. intros id t Hid. cbn. rewrite (Hall id t Hid). by eexists.
Qed.

(** A terminal that shows its primary screen takes any output. *)
Lemma shows_primary (d : Daemon.t LiveTerminal.t string) id interval data :
  from_option (λ t, bool_decide (Terminal.active_buffer_type (Vt.terminal (LiveTerminal.terminal (SessionTerminal.state t))) = Primary))
    true (store (Daemon.registry d) !! id) = true →
  ∀ t, store (Daemon.registry d) !! id = Some t → screen_takes (Outputs interval data) (SessionTerminal.state t).
Proof. intros Hp t Ht. rewrite Ht in Hp. apply bool_decide_eq_true in Hp. intros Ha. cbn in Hp. congruence. Qed.

(** Discharges what an event needs of a concrete daemon. *)
Ltac served := lazymatch goal with
  | |- ∀ t : SessionTerminal.t _, _ => apply shows_primary; vm_compute; reflexivity
  | |- ∀ o : OpeningRequest.t, _ => intros ? [= <-]; first [exact I|concretely]
  | |- env_ok (env _) _ => apply env_ok_example; vm_compute; reflexivity
  | |- _ ∧ _ => split; served
  | |- True => exact I
  | |- _ => concretely
  end.
Ltac permits := unfold control, connect; cbn [permitted]; served.

Lemma path_started : path 10 started (drop 1 events) 0 (after events).
Proof.
  unfold started, events, after. cbn [foldl take drop].
  eapply (path_step 4); [reflexivity|permits|]. eapply (path_step 3); [reflexivity|permits|].
  eapply (path_step 2); [reflexivity|permits|]. eapply (path_step 1); [reflexivity|permits|].
  eapply (path_step 0); [reflexivity|permits|]. apply path_nil.
Qed.

Lemma path_events : path 11 (Daemon.new (U := string)) events 0 (after events).
Proof. eapply (path_step 10); [reflexivity|permits|]. exact path_started. Qed.

Lemma reaches_started n : (n < 1000)%N → reaches n started.
Proof.
  intros Hn. exists (n + 1)%N, (take 1 events). split; [unfold room, u64_MAX; cbn; lia|].
  eapply (path_step n); [reflexivity|permits|]. apply path_nil.
Qed.

(** Whether a connection was admitted to a terminal *)
Definition admits (o : outcome Empty_set answer) : bool :=
  match o with Ok (Replies _ (Some _)) => true | _ => false end.
Lemma admits_replies a : admits (Ok a) = true → ∃ replies attachment, a = Replies replies (Some attachment).
Proof. destruct a as [replies [attachment|]| | |]; [|done..]. by exists replies, attachment. Qed.

(** The daemon when a restart was asked for after that *)
Definition restarted : Daemon.t LiveTerminal.t string :=
  (RequestsInv.serve (control "6" LocalControlClientMessage.RestartDaemon) started).2.
End Sample.
#[local] Existing Instances DaemonTheorems.ascii_width DaemonTheorems.plain_paths Sample.string_uuid
  DaemonTheorems.text_codec DaemonTheorems.open_connection.

(** * The theorems *)

(** C3. With the terminals of the daemon themselves: whatever connections, requests of
    attached clients, local-control requests, lost connections, expiring timers, process
    ends, outputs, shell reports, process observations and snapshots a daemon sees, in any
    order, each is served without a panic; and the daemon stays sound: its registry is well
    formed, every recorded client is valid, and every managed run it retains is a managed
    terminal that is still there.  This needs room in the 64-bit counters, new identifiers
    from the surroundings, and sizes of 2 to 65,534 columns and at least one row; and output
    must not come where the primary screen, behind the alternate one, was left by a resize
    with a linked last row, other columns and fewer rows ([returnable]), since to show it
    again can panic ([primary_return_panics]). *)
Theorem daemon_serves {U} `{Countable U, !UuidText U, UnicodeWidth, HomeDirectory} (n : N) (d : Daemon.t LiveTerminal.t U)
    (e : event LiveTerminal.t) (Hd : reaches (n + cost e) d) (He : permitted e d) :
  ∃ answer d', RequestsInv.serve e d = (Ok answer, d') ∧ reaches n d' ∧ sound (room n) d'.
Proof.
  destruct (reaches_sound _ _ Hd) as [Hle Hs]. destruct (serve_sound n e d Hle Hs He) as (answer & Ha & Hs').
  destruct (RequestsInv.serve e d) as [o d'] eqn:E. cbn in Ha, Hs'. subst o. exists answer, d'. split_and!; [done| |done].
  destruct Hd as (n0 & es & Hle0 & Hp). exists n0, (es ++ [e]). split; [done|]. clear Hle Hs Hs' Hle0.
  remember (n + cost e)%N as m eqn:Em. induction Hp as [m d|m d e0 es m' d0 Hpe _ IH]; cbn [app].
  - subst m. apply path_cons; [done|]. rewrite E. apply path_nil.
  - apply path_cons; [done|]. by apply IH.
Qed.

Lemma daemon_serves_witness :
  ∃ replies attachment d', RequestsInv.serve (Sample.connect "2" (Sample.attach "t1")) Sample.started =
    (Ok (Replies replies (Some attachment)), d') ∧ reaches 5 d'.
Proof.
  destruct (daemon_serves 5 Sample.started (Sample.connect "2" (Sample.attach "t1"))) as (answer & d' & E & Hr & _).
  - by apply Sample.reaches_started.
  - Sample.permits.
  - assert (Sample.admits (RequestsInv.serve (Sample.connect "2" (Sample.attach "t1")) Sample.started).1 = true) as E1
      by (vm_compute; reflexivity).
    rewrite E in E1. destruct (Sample.admits_replies _ E1) as (replies & attachment & ->). exists replies, attachment, d'. split; [exact E|exact Hr].
Defined.

(** C20. A client is told only what its contract has: every reply to a connection, and the
    attachment it is admitted to, fit the contract that was negotiated; every reply to an
    attached client and every view or lease it is notified of fit the contract of its
    attachment, and a view is sent unasked only when that contract has zoomed panes. *)
Theorem replies_fit_contract {St U} `{Countable U} `{Screen St, !Inspection St} (env : Surroundings.t St)
    (d : Daemon.t St U) (version : ProtocolVersion.t) :
  (∀ daemon liveness protocol name client_version opening replies attachment d',
     ProtocolOffer.negotiate protocol SUPPORTED_PROTOCOL_VERSIONS = Some version →
     handle_connection env daemon liveness (Some (ClientMessage.Handshake protocol name client_version)) opening d
       = (Ok (replies, attachment), d') →
     Forall (fits_contract version) replies ∧
     match attachment with
     | Some a => AttachParameters.protocol_version (PreparedAttachment.request a) = version
     | None => True
     end) ∧
  ∀ a, Attached.protocol_version a = version →
    (∀ message reply d', process_attach_input env a message d = (Ok (Some reply), d') → fits_contract version reply) ∧
    (∀ new_view new_lease known messages r',
       send_pending_metadata a new_view new_lease known (E := Empty_set) (Daemon.registry d) = (Ok messages, r') →
       Forall (notice_fits version) messages).
Proof.
  split; [|intros a Ha; split].
  - intros daemon liveness protocol name cv opening replies attachment d' Hneg. unfold handle_connection, unless_cancelled.
    destruct (Daemon.cancelled d); [by intros [= <- <-]|]. unfold handle_active_connection, accept_handshake. rewrite Hneg.
    unfold handle_request, mbind, handler_bind. destruct opening as [opening|]; [|intros [= <- <- _]; by repeat constructor].
    destruct (read_opening_request _ _ _) as [error|[request peer]] eqn:Eo.
    { intros [= <- <- _]. unfold read_opening_request in Eo. destruct (OpeningRequest.client_identity opening); [|done].
      destruct (_ || _); [|done]. injection Eo as <-. by repeat constructor. }
    pose proof (opening_fits env liveness version peer request d) as Hf. unfold mbind, handler_bind.
    destruct (handle_opening _ _ _ _ _ d) as [[[reply|a]|[]|] d1]; [| |done]; intros [= <- <- _]; specialize (Hf _ eq_refl).
    + split; [|done]. by repeat constructor.
    + split; [by repeat constructor|done].
  - intros message reply d' E. apply (attach_input_fits env version a Ha message d (Some reply)); [by rewrite E|done].
  - intros new_view new_lease known messages r'. unfold send_pending_metadata, send_layout_lease_update, send_view_update, protocol_version.
    rewrite Ha. unfold mbind, action_bind, reading, shared. destruct (store _ !! _) as [t|]; cbn; [|done].
    assert (∀ lease : option ServerMessage.t, (∀ m, lease = Some m → notice_fits version m) →
      Forall (notice_fits version) ((if supports_view_zoom version && new_view
        then option_list ((λ view, ServerMessage.ViewSnapshot (view_for_contract view version)) <$> SessionTerminal.view_updates t)
        else []) ++ option_list lease)) as Hall.
    { intros lease Hl. apply Forall_app. split.
      - destruct (supports_view_zoom version) eqn:Ez; [|done]. destruct (_ && _); [|done].
        destruct (SessionTerminal.view_updates t); [|done]. constructor; [|done]. split; [apply view_for_contract_fits|exact Ez].
      - destruct lease; [|done]. constructor; [|done]. by apply Hl. }
    destruct (supports_layout_lease_notifications version) eqn:El; cbn [andb]; [|intros [= <- _]; by apply (Hall None)].
    destruct new_lease; [|intros [= <- _]; by apply (Hall None)]. unfold with_view_leases, mbind, action_bind, reading, shared.
    destruct (store _ !! _) as [t'|]; cbn; [|done]. intros [= <- _]. apply Hall. intros m.
    destruct (bool_decide _ && bool_decide _); [done|]. intros [= <-]. split; [exact El|exact I].
Qed.

Lemma replies_fit_contract_witness :
  ∃ replies, (handle_connection (U := string) (Sample.env "2") Sample.identity Sample.liveness
      (Some (ClientMessage.Handshake Sample.offer "editor" "2")) (Some (OpeningRequest.Mk (ClientMessage.GetView "task-run") None))
      Sample.started).1 = Ok (replies, None) ∧ length replies = 2 ∧ Forall (fits_contract PROTOCOL_VERSION) replies.
Proof.
  set (serving := handle_connection _ _ _ _ _).
  assert (match (serving Sample.started).1 with Ok ([_; _], None) => true | _ => false end = true) as E by (vm_compute; reflexivity).
  assert (∃ a b d', serving Sample.started = (Ok ([a; b], None), d')) as (a & b & d' & Ed).
  { destruct (serving Sample.started) as [[[[|a [|b [|c l]]] [?|]]| |] d']; [done..| |done|done|done|done]. by exists a, b, d'. }
  exists [a; b]. rewrite Ed. split_and!; [done..|].
  refine (proj1 (proj1 (replies_fit_contract _ Sample.started PROTOCOL_VERSION) _ _ _ _ _ _ _ _ _ _ Ed)). by vm_compute.
Defined.

(** C10. A cooperative restart that is accepted ends everything: it counts the registered
    terminals and has told every one of them to end; and whatever happens afterwards, no
    terminal is registered that was not registered then, no managed run is retained, no
    connection is read, and once each of these terminals has exited the daemon's main loop
    returns exactly when no connection is open. *)
Theorem restart_ends_everything {St U} `{Countable U} `{InspectionLaws St} `{!UuidText U} (n terminated : N) (d d' : Daemon.t St U)
    (env : Surroundings.t St) (daemon : DaemonIdentity.t) (first second : option LocalControlClientMessage.t)
    (replies : list LocalControlServerMessage.t)
    (Hd : reaches (n + 1) d) (He : permitted (Controls env daemon first second) d)
    (Hr : handle_local_control_connection env daemon first second d = (Ok replies, d'))
    (Hin : LocalControlServerMessage.RestartAccepted terminated ∈ replies) :
  terminated = N.of_nat (size (terminals (Daemon.registry d))) ∧
  (∀ id, id ∈ terminals (Daemon.registry d) → id ∈ Daemon.killed d') ∧
  ∀ es n' d'', path n d' es n' d'' →
    terminals (Daemon.registry d'') ⊆ terminals (Daemon.registry d) ∧ Daemon.managed d'' = ∅ ∧
    (∀ env daemon liveness first opening, handle_connection env daemon liveness first opening d'' = (Ok ([], None), d'')) ∧
    ((∀ id, id ∈ terminals (Daemon.registry d) → ∃ code, Exits id code ∈ es) →
      ∀ open, finished open d'' = bool_decide (open = 0)).
Proof.
  destruct (reaches_sound _ _ Hd) as [Hle Hs].
  assert (sound (room n) d') as Hs'.
  { destruct (serve_sound n (Controls env daemon first second) d Hle Hs He) as (a & _ & Hs'). cbn [RequestsInv.serve] in Hs'. revert Hs'.
    unfold mbind, handler_bind. by rewrite Hr. }
  destruct (restart_accepted env daemon first second d d' replies terminated Hr Hin) as (Et & Edr & Ec & Em & Er & Hk).
  split; [done|]. split; [done|]. intros es n' d'' Hp.
  pose proof (path_goes _ _ _ _ _ Hp) as [Gd Gc _]. destruct (Gd Edr) as (Edr2 & Em2 & Ht2). rewrite Er in Ht2.
  split_and!; [done|congruence| |].
  - intros env' daemon' liveness' first' opening'. unfold handle_connection, unless_cancelled. by rewrite (Gc Ec).
  - intros Hexits open. assert (terminals (Daemon.registry d'') = ∅) as Hnone.
    { apply set_eq. intros id. split; [|set_solver]. intros Hid. destruct (drained_gone n d' es n' d'' id) as []; try done.
      - unfold room in *. lia.
      - right. by apply Hexits, Ht2. }
    unfold finished, session_count, retained. rewrite Edr2, Hnone, Em2, Em, orb_true_r. by destruct open.
Qed.

Lemma restart_ends_everything_witness :
  terminals (Daemon.registry Sample.started) = {["t1"]} ∧ "t1" ∈ Daemon.killed Sample.restarted ∧
  finished 0 (RequestsInv.serve (Exits "t1" (Some 0%N)) Sample.restarted).2 = true ∧
  finished 1 (RequestsInv.serve (Exits "t1" (Some 0%N)) Sample.restarted).2 = false.
Proof.
  assert (terminals (Daemon.registry Sample.started) = {["t1"]}) as Et by by vm_compute.
  destruct (restart_ends_everything 5 1 Sample.started Sample.restarted (Sample.env "6") Sample.identity
    (Some (LocalControlClientMessage.Handshake (ProtocolOffer.new 1 LOCAL_CONTROL_PROTOCOL_VERSION LOCAL_CONTROL_SUPPORTED_PROTOCOL_VERSIONS)))
    (Some LocalControlClientMessage.RestartDaemon)
    [LocalControlServerMessage.HandshakeAccepted LOCAL_CONTROL_PROTOCOL_VERSION [protocol_info; local_control_protocol_info] true
       (Some (DaemonIdentity.build_info Sample.identity)) (Some PROTOCOL_VERSION) true;
     LocalControlServerMessage.RestartAccepted 1]) as (_ & Hkilled & Hafter).
  - by apply Sample.reaches_started.
  - Sample.permits.
  - by vm_compute.
  - by right; left.
  - split; [done|]. rewrite Et in *. split; [apply Hkilled; set_solver|].
    assert (∀ open, finished open (RequestsInv.serve (Exits "t1" (Some 0%N)) Sample.restarted).2 = bool_decide (open = 0)) as Hopen;
      [|split; rewrite Hopen; reflexivity].
    apply (Hafter [Exits "t1" (Some 0%N)] 4%N).
    + eapply (path_step 4); [reflexivity|Sample.permits|apply path_nil].
    + intros id ->%elem_of_singleton. exists (Some 0%N). by left.
Defined.

(** C21. Until a restart, a managed run starts at most once: a run that is known to a daemon
    stays what it is or is retired, whatever happens; and asking to start it changes
    nothing, tells of the terminal it has, and fails once it is retired. *)
Theorem managed_run_starts_once {St U} `{Countable U} `{InspectionLaws St} `{!UuidText U} (n n' : N) (d d' : Daemon.t St U)
    (es : list (event St)) (key : U * U) (run : option string)
    (Hd : reaches n d) (Hp : path n d es n' d') (Hk : Daemon.managed d !! key = Some run) (Hn : Daemon.draining d' = false) :
  (Daemon.managed d' !! key = Some run ∨ Daemon.managed d' !! key = Some None) ∧
  ∀ env daemon task_id run_id command directory,
    parse_str task_id = inr key.1 → parse_str run_id = inr key.2 →
    ∃ answer, manage env daemon (Some (DaemonIdentity.instance_id daemon)) task_id run_id (Start command directory) d' = (Ok answer, d') ∧
      match Daemon.managed d' !! key with
      | Some (Some id) => ∃ t, store (Daemon.registry d') !! id = Some t ∧ SessionTerminal.managed t = true ∧
          answer = inr (LocalControlServerMessage.ManagedSession (DaemonIdentity.instance_id daemon)
                     (Some (ManagedSessionInfo.Mk (TerminalOwner.session_id (SessionTerminal.owner t))
                        (match SessionTerminal.lifecycle t with Running => true | Ended _ => false end)
                        (match SessionTerminal.lifecycle t with Running => None | Ended code => code end))))
      | _ => ∃ error, answer = inl error
      end.
Proof.
  destruct (reaches_sound _ _ Hd) as [Hle Hs]. destruct (path_sound _ _ _ _ _ Hle Hs Hp) as [_ [_ _ Hm]].
  assert (Daemon.managed d' !! key = Some run ∨ Daemon.managed d' !! key = Some None) as Hrun.
  { destruct (goes_run _ _ (path_goes _ _ _ _ _ Hp) key) as [[E|[E|E]]|E]; [left|congruence|by right|congruence]. congruence. }
  split; [done|]. intros env daemon task_id run_id command directory Et Er.
  assert (∃ run', Daemon.managed d' !! key = Some run') as [run' Hrun'] by (destruct Hrun; eauto).
  unfold manage. cbv zeta. rewrite bool_decide_eq_true_2, Et, Er by done. cbn [negb is_status andb].
  rewrite bool_decide_eq_false_2 by done. unfold mbind, handler_bind, asking. rewrite <- surjective_pairing, Hrun'.
  rewrite bool_decide_eq_false_2 by done. cbn [andb manage_run]. destruct run' as [id|]; [|by repeat eexists].
  destruct (Hm _ _ Hrun') as (t & Ht & Hmt). unfold mret, handler_ret, run_outcome, mbind, handler_bind, asking.
  rewrite Hrun'. unfold registry_op, managed_info, mbind, action_bind, reading, shared. cbn. rewrite Ht. cbn.
  replace (set_registry (Daemon.registry d') d') with d' by by destruct d'.
  destruct (SessionTerminal.lifecycle t) as [|code] eqn:El; (eexists; split; [reflexivity|]); exists t; rewrite El; done.
Qed.

Lemma managed_run_starts_once_witness :
  Daemon.managed (Sample.after Sample.events) !! ("task", "run") = Some (Some "t1") ∧
  ∃ answer, manage (Sample.env "9") Sample.identity (Some "i1") "task" "run" (Start (CommandSpec.Mk "make" []) None)
    (Sample.after Sample.events) = (Ok answer, Sample.after Sample.events).
Proof.
  destruct (managed_run_starts_once 10 0 Sample.started (Sample.after Sample.events) (drop 1 Sample.events) ("task", "run") (Some "t1"))
    as [_ Hstart].
  - by apply Sample.reaches_started.
  - exact Sample.path_started.
  - by vm_compute.
  - by vm_compute.
  - split; [by vm_compute|].
    destruct (Hstart (Sample.env "9") Sample.identity "task" "run" (CommandSpec.Mk "make" []) None) as (answer & E & _); [done..|].
    by exists answer.
Defined.

(** C12. Bytes reach a terminal only from the owner of its input lease: what has been typed
    since a daemon was in a state are bytes that an attachment asked to write, in that
    order, each while it held the input lease of the terminal it is attached to. *)
Theorem only_owner_types {St U} `{Countable U} `{InspectionLaws St} `{!UuidText U} (n n' : N) (d d' : Daemon.t St U)
    (es : list (event St)) (Hp : path n d es n' d') :
  ∃ written, Daemon.typed d' = Daemon.typed d ++ written ∧
    (λ w, Some w) <$> written `sublist_of` asked <$> es ∧
    Forall (λ '(id, att, data), ∃ m d1 t es1 es2, path n d es1 m d1 ∧ es = es1 ++ es2 ∧
      store (Daemon.registry d1) !! id = Some t ∧ LeaseRegistry.input_owner (SessionTerminal.leases t) = Some att) written.
Proof.
  induction Hp as [n d|n d e es n' d' Hpe Hp IH]; [exists []; by rewrite app_nil_r|].
  destruct IH as (written & Ew & Hsub & Hall).
  assert (Forall (λ '(id, att, data), ∃ m d1 t es1 es2, path (n + cost e) d es1 m d1 ∧ e :: es = es1 ++ es2 ∧
    store (Daemon.registry d1) !! id = Some t ∧ LeaseRegistry.input_owner (SessionTerminal.leases t) = Some att) written) as Hlater.
  { eapply Forall_impl; [exact Hall|]. intros [[id att] data] (m & d1 & t & es1 & es2 & Hp1 & -> & Ht & Ho).
    exists m, d1, t, (e :: es1), es2. split_and!; try done. by apply path_cons. }
  destruct (serve_types e d) as [E|(env & a & data & -> & E & t & Ht & Ho)]; rewrite E in Ew.
  - exists written. split_and!; [done| |done]. cbn. by apply sublist_cons.
  - exists ((Attached.self a, Attached.attachment_id a, data) :: written). split_and!; [by rewrite Ew, <- app_assoc|cbn; by apply sublist_skip|].
    constructor; [|done]. eexists _, d, t, [], (Asks env a (ClientMessage.Input data) :: es). split_and!; try done. apply path_nil.
Qed.

Lemma only_owner_types_witness :
  Daemon.typed (Sample.after Sample.events) = [("t1", "a2", [x6c; x73])] ∧
  ∃ m d t es1 es2, path 11 Daemon.new es1 m d ∧ Sample.events = es1 ++ es2 ∧ store (Daemon.registry d) !! "t1" = Some t ∧
    LeaseRegistry.input_owner (SessionTerminal.leases t) = Some "a2".
Proof.
  destruct (only_owner_types 11 0 Daemon.new (Sample.after Sample.events) Sample.events Sample.path_events) as (written & E & _ & Hall).
  assert (Daemon.typed (Sample.after Sample.events) = [("t1", "a2", [x6c; x73])]) as E' by by vm_compute.
  split; [done|]. rewrite E' in E. cbn in E. rewrite <- E in Hall. exact (Forall_inv Hall).
Defined.

(** The clients of a session are listed exactly: each once, in the order of the daemon's
    map; with as many connected and as many reconnecting attachments as the terminals in the
    session's layout record for it; every recorded attachment is counted; and each goes by a
    name, version and kind that one of these attachments has. *)
Theorem clients_listed_exactly {St} `{Screen St} (r : SessionRegistry.t St) (s : Session.t) :
  let records := session_records r s in
  StronglySorted (λ v w, key_lt (viewer_key v) (viewer_key w) = true) (session_viewers r s) ∧
  (∀ record, record ∈ records → ∃ v, v ∈ session_viewers r s ∧ viewer_key v = key_of record) ∧
  ∀ v, v ∈ session_viewers r s →
    SessionViewer.connected_attachments v = number (viewer_key v) true records ∧
    SessionViewer.reconnecting_attachments v = number (viewer_key v) false records ∧
    ∃ record, record ∈ records ∧ SessionViewer.identity v =
      SessionViewer.identity (viewer (AttachmentRecord.attachment_id record) (AttachmentRecord.peer record)).
Proof.
  cbv zeta. set (records := session_records r s). unfold session_viewers. fold records.
  destruct (observe_all records) as [Hasc Hc]. set (m := foldl observe [] records) in *.
  assert (∀ k v, (k, v) ∈ m → viewer_key v = k ∧ counts k records (Some v)) as Hin.
  { intros k v Hkv. specialize (Hc k). rewrite (proj1 (at_key_elem m Hasc k v) Hkv) in Hc. by split; [apply Hc|]. }
  assert (viewer_key <$> m.*2 = m.*1) as Ekeys.
  { assert (Forall (λ kv, viewer_key kv.2 = kv.1) m) as Hall by (apply Forall_forall; intros [k v] [Hk _]%Hin; exact Hk).
    clear -Hall. induction Hall as [|[k v] m Hk _ IH]; [done|]. cbn in *. by rewrite Hk, IH. }
  split_and!.
  - apply ascending_sorted in Hasc. rewrite <- Ekeys in Hasc. revert Hasc. generalize m.*2. intros l.
    induction l as [|v l IH]; [constructor|]. cbn. intros [Hl Hv]%StronglySorted_inv. constructor; [by apply IH|].
    by apply Forall_fmap in Hv.
  - intros record Hr. specialize (Hc (key_of record)). destruct (at_key (key_of record) m) as [v|] eqn:E.
    + exists v. apply at_key_elem in E; [|done]. split; [|by apply Hin in E as []]. by apply list_elem_of_fmap; exists (key_of record, v).
    + exfalso. destruct Hc as [H1 H2]. unfold number in *.
      assert (record ∈ filter (λ x, key_of x = key_of record ∧ AttachmentRecord.connected x = AttachmentRecord.connected record) records) as Hx
        by by apply list_elem_of_filter.
      destruct (AttachmentRecord.connected record); apply nil_length_inv in H1, H2; rewrite ?H1, ?H2 in Hx; by apply elem_of_nil in Hx.
  - intros v ([k w] & -> & Hkw)%list_elem_of_fmap. cbn. destruct (Hin _ _ Hkw) as [-> (_ & ? & ? & _)]. split_and!; [done..|].
    pose proof (observed_from (λ v, ∃ record, record ∈ records ∧ SessionViewer.identity v =
      SessionViewer.identity (viewer (AttachmentRecord.attachment_id record) (AttachmentRecord.peer record))) records) as Hf.
    refine (proj1 (Forall_forall _ _) (Hf _ _) _ Hkw); [by intros [] ? ?|].
    apply Forall_forall. intros record Hr. by exists record.
Qed.

Lemma clients_listed_exactly_witness :
  let r := Daemon.registry (Sample.after Sample.events) in
  ∃ s v, sessions r !! "s1" = Some s ∧ v ∈ session_viewers r s ∧ viewer_key v = (true, "a2") ∧
    SessionViewer.connected_attachments v = 1.
Proof.
  cbv zeta. set (r := Daemon.registry _). destruct (sessions r !! "s1") as [s|] eqn:Es; [|vm_compute in Es; discriminate].
  destruct (clients_listed_exactly r s) as (_ & Hrec & Hv).
  assert (Hin : AttachmentRecord.Mk "a2" (Legacy "editor" "2") 0 true 0 ∈ session_records r s).
  { vm_compute in Es. injection Es as <-. vm_compute. by repeat constructor. }
  destruct (Hrec _ Hin) as (v & Hvin & Hkey). exists s, v. split_and!; [done..|].
  destruct (Hv v Hvin) as [-> _]. rewrite Hkey. vm_compute in Es. injection Es as <-. by vm_compute.
Defined.

(** What a client calls itself cannot disturb who reads it: a client's labels are
    recorded only when they are valid, and are otherwise the daemon's own, which are; and a
    label is displayed without control characters and without characters that direct the
    order of text, unchanged when it has none of them. *)
Theorem labels_are_harmless :
  (∀ name version, peer_ok (legacy_peer name version)) ∧
  (∀ value limit label, bounded_label value limit = Some label → valid_label label limit = true) ∧
  ∀ value, Forall plain (display_label value) ∧ (Forall plain value → display_label value = value).
Proof.
  split; [apply legacy_peer_ok|]. split; [apply bounded_label_valid|]. intros value. split; [apply display_label_plain|].
  induction 1 as [|c value [Hc Hd] _ IH]; [done|]. rewrite <- IH at 2. unfold display_label. cbn [fmap list_fmap mjoin list_join].
  by rewrite Hc, Hd.
Qed.

Lemma labels_are_harmless_witness :
  bounded_label (str " ed") 64 = Some (str "ed") ∧ valid_label (str "ed") 64 = true ∧ display_label (str "ed") = str "ed".
Proof.
  assert (bounded_label (str " ed") 64 = Some (str "ed")) as E by by vm_compute.
  destruct labels_are_harmless as (_ & Hvalid & Hplain). split_and!; [done|by apply (Hvalid (str " ed"))|].
  apply Hplain. repeat constructor.
Defined.

(** C19. An attachment that does not begin leaves nothing behind: whatever went wrong after
    it was admitted, whether its initial size was refused, a deadline was missed or its
    snapshot failed, a new one leaves every attachment and every lease of every terminal and
    session as it was before it was admitted; and one that resumed a lost connection is
    lost again, with all its leases, in its next generation, which no earlier connection can end. *)
Theorem failed_attachment_leaves_nothing `{HistoryCodec, Connection} {E} (time : N) (in_time : bool * bool)
    (request : AttachParameters.t) (self : string) (r : SessionRegistry.t LiveTerminal.t) (t : SessionTerminal.t LiveTerminal.t)
    (Ht : store r !! self = Some t) :
  (∀ env peer input layout attachment r1 last r2,
     holds_none (Surroundings.attachment_id env) (SessionTerminal.leases t) →
     (∀ l, session_leases (sessions r) !! TerminalOwner.session_id (SessionTerminal.owner t) = Some l →
        holds_none (Surroundings.attachment_id env) l) →
     prepare_attachment env self peer input layout request r = (Ok attachment, r1) →
     handle_attach (E := E) time in_time attachment r1 = (Ok (NotAttached last), r2) →
     holdings r2 = holdings r) ∧
  ∀ token peer attachment r1 last r2,
    prepare_resumed_attachment self token peer request r = (Ok attachment, r1) →
    handle_attach (E := E) time in_time attachment r1 = (Ok (NotAttached last), r2) →
    ∃ record generation, SessionTerminal.attachments t !! token = Some record ∧
      succ64 (AttachmentRecord.generation record) = Some generation ∧
      holdings r2 = (<[self := (SessionTerminal.owner t,
                        <[token := AttachmentRecord.Mk (AttachmentRecord.attachment_id record) peer generation false generation]>
                          (SessionTerminal.attachments t), SessionTerminal.leases t)]> (holdings r).1, (holdings r).2).
Proof.
  assert ((holdings r).1 !! self = Some (SessionTerminal.owner t, SessionTerminal.attachments t, SessionTerminal.leases t)) as Hself.
  { cbn. by rewrite lookup_fmap, Ht. }
  pose proof (surjective_pairing (holdings r)) as Eh.
  set (h := (holdings r).1) in *. set (w := (holdings r).2) in *.
  split.
  - intros env peer i j attachment r1 last r2 Hnone Hsession Hp Hd. apply not_attached in Hd as (r3 & b & E3 & Hd). unfold prepare_attachment in Hp.
    apply quietly_bind in Hp as ([] & r4 & E4 & Hp).
    2:{ apply safe_quietly. intros. unfold subscribe_events. safe_all. }
    apply bind_returns in Hp as (registration & r5 & Hc & [= <- <-]). rewrite Eh in E4.
    destruct (create_held self _ _ _ _ _ _ _ _ h w _ _ _ Hself E4 Hc) as (Hfresh & Hgen & E5). rewrite E5 in E3.
    unfold drop_guard, guard_of in Hd. cbn [AttachmentGuard.active AttachmentGuard.preserve_on_drop negb PreparedAttachment.resumed] in Hd.
    apply bind_returns in Hd as (b' & r6 & Hl & [= _ <-]).
    eapply leave_held in Hl; [|apply lookup_insert_eq|exact E3|apply lookup_insert_eq|by rewrite <- Hgen].
    rewrite Hl, Eh. cbn -[LeaseRegistry.request_initial LeaseRegistry.release_attachment insert delete].
    rewrite insert_insert_eq, delete_insert_id, requested_released by done. f_equal.
    + by apply insert_id.
    + rewrite alter_alter_eq. apply alter_id. intros x Hx. by apply requested_released, Hsession.
  - intros token peer attachment r1 last r2 Hp Hd. apply not_attached in Hd as (r3 & b & E3 & Hd).
    unfold prepare_resumed_attachment in Hp. apply quietly_bind in Hp as ([] & r4 & E4 & Hp).
    2:{ apply safe_quietly. intros. unfold subscribe_events. safe_all. }
    apply bind_returns in Hp as (resumed & r5 & Hc & Hp). apply bind_returns in Hp as (registration & r6 & Hl & [= <- <-]).
    destruct resumed as [registration'|]; [|done]. injection Hl as -> <-. rewrite Eh in E4.
    destruct (resume_held self _ _ _ _ _ h w _ _ _ Hself E4 Hc) as (record & generation & Htok & Hsucc & Et & Eg & E5).
    exists record, generation. split; [done|]. split; [done|]. rewrite E5 in E3. unfold drop_guard, guard_of in Hd.
    cbn [AttachmentGuard.active AttachmentGuard.preserve_on_drop negb PreparedAttachment.resumed] in Hd.
    unfold suspend_attachment_inner in Hd. cbn in Hd. rewrite Et, Eg in Hd.
    eapply change_attachments_held in Hd as [_ Hd]; [|apply lookup_insert_eq|exact E3].
    rewrite Hd, insert_insert_eq. unfold suspend. rewrite lookup_insert_eq. cbn. rewrite bool_decide_eq_true_2 by done. cbn.
    by rewrite insert_insert_eq.
Qed.

(** A client asks to resume from a sequence the terminal has not reached. *)
Module SampleTerminal.
Definition env : Surroundings.t LiveTerminal.t :=
  Surroundings.Mk "t2" "s2" "v2" 7 (λ _ _ _, Panic) (λ _, inr ()) (λ _ _, inr ()) (λ _, None) "a2" ["token2"].
Definition request : AttachParameters.t :=
  AttachParameters.Mk PROTOCOL_VERSION (Some 99%N) size80 false false 65536 30000.
Definition registry : SessionRegistry.t LiveTerminal.t :=
  match sample with
  | Some s => (create_terminal (Some "work") None false "t1" "s1" "v1" 7 (Ok (Spawned.Mk s [] (inr ()))) SessionRegistry.default).2
  | None => SessionRegistry.default
  end.
End SampleTerminal.

Lemma failed_attachment_leaves_nothing_witness :
  match prepare_attachment SampleTerminal.env "t1" (Legacy "editor" "2") true true SampleTerminal.request SampleTerminal.registry
  with
  | (Ok attachment, r1) =>
      LeaseStatus.owned_by_client (AttachmentLeases.input (AttachmentRegistration.leases (PreparedAttachment.registration attachment))) = true ∧
      match handle_attach (E := Empty_set) 5 (true, true) attachment r1 with
      | (Ok (NotAttached (Some _)), r2) => holdings r2 = holdings SampleTerminal.registry
      | _ => False
      end
  | _ => False
  end.
Proof.
  assert (match prepare_attachment SampleTerminal.env "t1" (Legacy "editor" "2") true true SampleTerminal.request SampleTerminal.registry
  with
    | (Ok attachment, r1) =>
        LeaseStatus.owned_by_client (AttachmentLeases.input (AttachmentRegistration.leases (PreparedAttachment.registration attachment))) = true ∧
        match (handle_attach (E := Empty_set) 5 (true, true) attachment r1).1 with Ok (NotAttached (Some _)) => True | _ => False end
    | _ => False
    end) as Hrun by (vm_compute; split; reflexivity || exact I).
  assert (∃ t, store SampleTerminal.registry !! "t1" = Some t ∧ SessionTerminal.leases t = LeaseRegistry.default) as (t & Et & Hl)
    by (vm_compute; eexists; split; reflexivity).
  assert (session_leases (sessions SampleTerminal.registry) = {["s1" := LeaseRegistry.default]}) as Hw by by vm_compute.
  destruct (prepare_attachment _ _ _ _ _ _ _) as [[attachment|e|] r1] eqn:Ep; [|done..]. destruct Hrun as [Hin Hrun]. split; [exact Hin|].
  destruct (handle_attach 5 (true, true) attachment r1) as [[[guard driver|last]|e|] r2] eqn:Eb; [done| |done..].
  destruct last as [message|]; [|done].
  refine (proj1 (failed_attachment_leaves_nothing 5 (true, true) SampleTerminal.request "t1" SampleTerminal.registry t Et)
    SampleTerminal.env (Legacy "editor" "2") true true attachment r1 (Some message) r2 _ _ Ep Eb).
  - rewrite Hl. clear. split; discriminate.
  - rewrite Hw. clear. intros l [_ <-]%lookup_singleton_Some. split; discriminate.
Defined.
