(* ===== verification/Approvals.v ===== *)
(** Bounded windows of authorization (ctl/daemon/src/reconnect_approval.rs): which saved
    credentials a host may read without asking again, for how long, and how that is taken
    back.  No credential is held here, only permissions.

    The contexts of the operating system are shared: several attempts and a window may
    hold the same one, and whoever invalidates it does so for all.  A context is an address
    here, and the registry says which addresses are still valid; a context never becomes
    valid again, and may become invalid by itself ([Fails]).  Time is in milliseconds.

    A read asks the system for a credential without holding the lock, so it is two actions,
    [read_begin] and [read_end], and anything may happen between them.  [None] is a panic:
    an attempt that was dropped is used, or identifiers run out. *)

From S2P Require Import Prelude.
From S2P Require Import Layout.
From stdpp Require Import strings gmap.

Definition WINDOW : N := 24 * 60 * 60 * 1000.
Definition MAX_HOSTS : nat := 128.
Definition MAX_CONTEXTS : nat := 64.

Inductive ReadDecision := FreshInteractive | FreshQuiet | RetainedApproval.

Definition allow_ui (decision : ReadDecision) : bool := match decision with FreshInteractive => true | _ => false end.
Definition fresh (interactive : bool) : ReadDecision := if interactive then FreshInteractive else FreshQuiet.

Module SelectedContext.
Record t := Mk { context : N; retained_approval : bool }.
End SelectedContext.

Module ReadError.
Record t (E : Type) := Mk { error : E; revoked : bool }.
Arguments Mk {E}. Arguments error {E}. Arguments revoked {E}.
Definition unchanged {E} (error : E) : t E := Mk error false.
End ReadError.

Module Window.
Record t := Mk { expires : N; contexts : gmap string N }.
End Window.

Module Pending.
Record t := Mk {
  scope : string; valid : bool; expires : option N; contexts : gmap string N; inherited : gset string;
  used : gset string; reading : gset string; reuse_failed : bool; committed : bool }.

Definition new (scope : string) (expires : option N) (contexts : gmap string N) : t :=
  Mk scope true expires contexts (dom contexts) ∅ ∅ false false.
Definition set_valid (x : bool) (p : t) : t :=
  Mk (scope p) x (expires p) (contexts p) (inherited p) (used p) (reading p) (reuse_failed p) (committed p).
Definition set_contexts (x : gmap string N) (p : t) : t :=
  Mk (scope p) (valid p) (expires p) x (inherited p) (used p) (reading p) (reuse_failed p) (committed p).
Definition set_used (x : gset string) (p : t) : t :=
  Mk (scope p) (valid p) (expires p) (contexts p) (inherited p) x (reading p) (reuse_failed p) (committed p).
Definition set_reading (x : gset string) (p : t) : t :=
  Mk (scope p) (valid p) (expires p) (contexts p) (inherited p) (used p) x (reuse_failed p) (committed p).
Definition set_reuse_failed (x : bool) (p : t) : t :=
  Mk (scope p) (valid p) (expires p) (contexts p) (inherited p) (used p) (reading p) x (committed p).
End Pending.

Module Approvals.
Record t := Mk {
  next : N; windows : gmap string Window.t; pending : gmap N Pending.t; valid_contexts : gset N; allocated : N }.
Definition default : t := Mk 0 ∅ ∅ ∅ 0.
End Approvals.
Import Approvals (next, windows, pending, valid_contexts, allocated).

Implicit Types (r : Approvals.t) (w : Window.t) (p : Pending.t) (scope selector name : string) (a id : N).

Definition set_windows x r : Approvals.t := Approvals.Mk (next r) x (pending r) (valid_contexts r) (allocated r).
Definition set_pending x r : Approvals.t := Approvals.Mk (next r) (windows r) x (valid_contexts r) (allocated r).

Definition addresses (contexts : gmap string N) : list N := (map_to_list contexts).*2.

(** [context.is_valid()], and of any *)
Definition is_valid r a : bool := bool_decide (a ∈ valid_contexts r).
Definition any_valid r (contexts : gmap string N) : bool := existsb (is_valid r) (addresses contexts).

Definition invalidate (contexts : list N) r : Approvals.t :=
  Approvals.Mk (next r) (windows r) (pending r) (valid_contexts r ∖ list_to_set contexts) (allocated r).

(** * The windows *)

Definition reusable scope (now : N) r : bool :=
  match windows r !! scope with
  | Some w => (now <? Window.expires w)%N && any_valid r (Window.contexts w)
  | None => false
  end.

Definition approved_selectors r : list (string * N * list string) :=
  (λ '(scope, w), (scope, Window.expires w,
     (filter (λ kv, is_valid r kv.2 = true) (map_to_list (Window.contexts w))).*1)) <$> map_to_list (windows r).

(** One window of [revoke_matching], and one attempt *)
Definition revoke_window (matching : string → bool) (acc : bool * Approvals.t) (entry : string * Window.t) : bool * Approvals.t :=
  let '(revoked, r) := acc in
  if matching entry.1
  then (revoked || any_valid r (Window.contexts entry.2),
        invalidate (addresses (Window.contexts entry.2)) (set_windows (delete entry.1 (windows r)) r))
  else (revoked, r).

Definition revoke_attempt (matching : Pending.t → bool) (acc : bool * Approvals.t) (entry : N * Pending.t) : bool * Approvals.t :=
  let '(revoked, r) := acc in
  let p := entry.2 in
  if matching p
  then (revoked || (Pending.valid p && any_valid r (Pending.contexts p)),
        invalidate (addresses (Pending.contexts p)) (set_pending (<[entry.1 := Pending.set_valid false p]> (pending r)) r))
  else (revoked, r).

Definition revoke_matching (matching : string → bool) r : bool * Approvals.t :=
  foldl (revoke_attempt (λ p, matching (Pending.scope p)))
    (foldl (revoke_window matching) (false, r) (map_to_list (windows r)))
    (map_to_list (pending r)).

Definition revoke (scope : option string) : Approvals.t → bool * Approvals.t :=
  revoke_matching (λ name, match scope with None => true | Some scope => bool_decide (scope = name) end).
Definition revoke_prefix (start : string) : Approvals.t → bool * Approvals.t := revoke_matching (String.prefix start).
Definition select_scope (start : string) (current : option string) : Approvals.t → bool * Approvals.t :=
  revoke_matching (λ name, String.prefix start name && negb (bool_decide (Some name = current))).

(** One window of [expire] *)
Definition expire_window (now : N) (acc : bool * Approvals.t) (entry : string * Window.t) : bool * Approvals.t :=
  let '(revoked, r) := acc in
  let contexts := filter (λ kv, is_valid r kv.2 = true) (Window.contexts entry.2) in
  if decide (contexts = ∅) then (revoked, set_windows (delete entry.1 (windows r)) r) else
  if (Window.expires entry.2 <=? now)%N
  then (true, invalidate (addresses contexts) (set_windows (delete entry.1 (windows r)) r))
  else (revoked, set_windows (<[entry.1 := Window.Mk (Window.expires entry.2) contexts]> (windows r)) r).

Definition past (now : N) (expires : option N) : bool := match expires with Some expires => (expires <=? now)%N | None => false end.

Definition expire (now : N) r : bool * Approvals.t :=
  foldl (revoke_attempt (λ p, past now (Pending.expires p)))
    (foldl (expire_window now) (false, r) (map_to_list (windows r)))
    (map_to_list (pending r)).

Definition begin scope (now : N) r : option (N * Approvals.t) :=
  let r := (expire now r).2 in
  let attempt := match windows r !! scope with
                 | None => Pending.new scope None ∅
                 | Some w => Pending.new scope (Some (Window.expires w)) (Window.contexts w)
                 end in
  let id := next r in
  if decide (u64_MAX ≤ id)%N then None
  else Some (id, Approvals.Mk (id + 1) (windows r) (<[id := attempt]> (pending r)) (valid_contexts r) (allocated r)).

(** * Attempts *)

(** A context for a selector: the one the attempt has, or a new one when [created] says that
    its creation succeeds *)
Definition context {E} id selector (created : E + ()) r : option ((E + option SelectedContext.t) * Approvals.t) :=
  p ← pending r !! id;
  if negb (Pending.valid p) then Some (inr None, r) else
  let reads (contexts : gmap string N) :=
    Pending.set_reading ({[selector]} ∪ Pending.reading p) (Pending.set_contexts contexts p) in
  match Pending.contexts p !! selector with
  | Some a =>
      Some (inr (Some (SelectedContext.Mk a (bool_decide (selector ∈ Pending.inherited p)))),
            set_pending (<[id := reads (Pending.contexts p)]> (pending r)) r)
  | None =>
      if MAX_CONTEXTS <=? size (Pending.contexts p) then Some (inr None, r) else
      match created with
      | inl e => Some (inl e, r)
      | inr () =>
          let a := allocated r in
          Some (inr (Some (SelectedContext.Mk a false)),
                Approvals.Mk (next r) (windows r) (<[id := reads (<[selector := a]> (Pending.contexts p))]> (pending r))
                  ({[a]} ∪ valid_contexts r) (a + 1))
      end
  end.

Definition mark_reuse_failed id (retained_approval : bool) r : option Approvals.t :=
  if retained_approval then
    p ← pending r !! id;
    Some (set_pending (<[id := Pending.set_reuse_failed true p]> (pending r)) r)
  else Some r.

Definition reuse_failed id r : option bool := Pending.reuse_failed <$> (pending r !! id).
Definition valid id r : option bool := Pending.valid <$> (pending r !! id).

Definition used id selector r : option (bool * Approvals.t) :=
  p ← pending r !! id;
  let p := Pending.set_reading (Pending.reading p ∖ {[selector]}) p in
  if negb (Pending.valid p) || bool_decide (Pending.contexts p !! selector = None)
  then Some (false, set_pending (<[id := p]> (pending r)) r)
  else Some (true, set_pending (<[id := Pending.set_used ({[selector]} ∪ Pending.used p) p]> (pending r)) r).

(** [Attempt::revoke] *)
Definition revoke_own id r : option (bool * Approvals.t) :=
  p ← pending r !! id;
  Some (revoke (Some (Pending.scope p)) r).

Definition failed id selector r : option (bool * Approvals.t) :=
  p ← pending r !! id;
  revoke_own id (set_pending (<[id := Pending.set_reading (Pending.reading p ∖ {[selector]}) p]> (pending r)) r).

(** An error that revokes *)
Definition fail_read {E A} id selector (error : E) r : option ((ReadError.t E + A) * Approvals.t) :=
  '(revoked, r) ← failed id selector r;
  Some (inl (ReadError.Mk error revoked), r).

(** [read] up to the call of its [read] argument: the context and the decision it is called
    with.  [is_valid] is what the argument [valid] answers. *)
Definition read_begin {E} id selector (interactive : bool) (created : E + ()) (connection_valid : bool) (unavailable : E) r :
    option ((ReadError.t E + (SelectedContext.t * ReadDecision)) * Approvals.t) :=
  if negb connection_valid then
    p ← pending r !! id;
    r ← mark_reuse_failed id (bool_decide (selector ∈ Pending.inherited p)) r;
    Some (inl (ReadError.unchanged unavailable), r)
  else
    '(selected, r) ← context id selector created r;
    match selected with
    | inl e => Some (inl (ReadError.unchanged e), r)
    | inr None => Some (inl (ReadError.unchanged unavailable), r)
    | inr (Some selected) =>
        let retained := SelectedContext.retained_approval selected in
        if negb (is_valid r (SelectedContext.context selected)) then
          r ← mark_reuse_failed id retained r;
          fail_read id selector unavailable r
        else Some (inr (selected, if retained then RetainedApproval else fresh interactive), r)
    end.

(** The rest of [read], with the result of the call *)
Definition read_end {E T} id selector (selected : SelectedContext.t) (connection_valid : bool) (unavailable : E)
    (result : E + option T) r : option ((ReadError.t E + option T) * Approvals.t) :=
  let retained := SelectedContext.retained_approval selected in
  if negb connection_valid then
    r ← mark_reuse_failed id retained r;
    Some (inl (ReadError.unchanged unavailable), r)
  else if negb (is_valid r (SelectedContext.context selected)) then
    r ← mark_reuse_failed id retained r;
    fail_read id selector unavailable r
  else
    match result with
    | inr (Some value) =>
        '(done, r) ← used id selector r;
        if negb done then
          r ← mark_reuse_failed id retained r;
          Some (inl (ReadError.unchanged unavailable), r)
        else Some (inr (Some value), r)
    | inr None =>
        if negb retained then Some (inr None, r) else
        r ← mark_reuse_failed id true r;
        fail_read id selector unavailable r
    | inl error =>
        r ← mark_reuse_failed id retained r;
        fail_read id selector error r
    end.

(** One attempt of [discard_cached] *)
Definition discard_cached id r : option (bool * Approvals.t) :=
  p ← pending r !! id;
  if negb (Pending.valid p) then Some (false, r) else
  let scope := Pending.scope p in
  let acc := match windows r !! scope with
             | Some w => (any_valid r (Window.contexts w),
                          invalidate (addresses (Window.contexts w)) (set_windows (delete scope (windows r)) r))
             | None => (false, r)
             end in
  let '(revoked, r) := foldl (revoke_attempt (λ p, bool_decide (Pending.scope p = scope))) acc (map_to_list (pending r)) in
  Some (revoked, set_pending (<[id := Pending.new scope None ∅]> (pending r)) r).

(** One context of [cancel] *)
Definition cancel_context p (acc : bool * Approvals.t) (entry : string * N) : bool * Approvals.t :=
  let '(revoked, r) := acc in
  let retained := match windows r !! Pending.scope p with
                  | Some w => bool_decide (Window.contexts w !! entry.1 = Some entry.2)
                  | None => false
                  end in
  if bool_decide (entry.1 ∈ Pending.reading p) || negb retained
  then (revoked || (Pending.valid p && is_valid r entry.2), invalidate [entry.2] r)
  else (revoked, r).

Definition cancel id r : option (bool * Approvals.t) :=
  p ← pending r !! id;
  if Pending.committed p then Some (false, r) else
  let '(revoked, r) := foldl (cancel_context p) (false, r) (map_to_list (Pending.contexts p)) in
  Some (revoked, set_pending (<[id := Pending.set_valid false p]> (pending r)) r).

(** [min_by_key]: the first of those that expire first *)
Fixpoint oldest (l : list (string * Window.t)) : option (string * Window.t) :=
  match l with
  | [] => None
  | entry :: l =>
      match oldest l with
      | Some best => if (Window.expires entry.2 <=? Window.expires best.2)%N then Some entry else Some best
      | None => Some entry
      end
  end.

(** Capacity pressure *)
Definition evict_oldest r : Approvals.t :=
  match oldest (map_to_list (windows r)) with
  | None => r
  | Some (name, w) =>
      let r := invalidate (addresses (Window.contexts w)) (set_windows (delete name (windows r)) r) in
      (foldl (revoke_attempt (λ p, bool_decide (Pending.scope p = name))) (false, r) (map_to_list (pending r))).2
  end.

Definition connected id (now : N) r : option Approvals.t :=
  let r := (expire now r).2 in
  p ← pending r !! id;
  if negb (Pending.valid p) || bool_decide (Pending.used p = ∅) then Some r else
  let scope := Pending.scope p in
  let window := windows r !! scope in
  let expires := match Pending.expires p, Window.expires <$> window with
                 | None, None => now + WINDOW
                 | Some e, None | None, Some e => e
                 | Some e, Some e' => e `min` e'
                 end%N in
  let contexts := filter (λ kv, kv.1 ∈ Pending.used p) (Pending.contexts p) ∪ default ∅ (Window.contexts <$> window) in
  let contexts := filter (λ kv, is_valid r kv.2 = true) contexts in
  if decide (contexts = ∅) then Some r else
  let r := if bool_decide (window = None) && (MAX_HOSTS <=? size (windows r)) then evict_oldest r else r in
  let r := set_windows (<[scope := Window.Mk expires contexts]> (windows r)) r in
  p ← pending r !! id;
  Some (set_pending (<[id := Pending.Mk (Pending.scope p) (Pending.valid p) (Pending.expires p) (Pending.contexts p)
                               (Pending.inherited p ∪ Pending.used p) (Pending.used p) (Pending.reading p)
                               (Pending.reuse_failed p) true]> (pending r)) r).

(** [Drop]: what no window holds is invalidated *)
Definition drop_context (acc : Approvals.t) a : Approvals.t :=
  if existsb (λ w, bool_decide (a ∈ addresses (Window.contexts w))) (map_to_list (windows acc)).*2 then acc else invalidate [a] acc.

Definition drop_attempt id r : option Approvals.t :=
  p ← pending r !! id;
  Some (foldl drop_context (set_pending (delete id (pending r)) r) (addresses (Pending.contexts p))).

(** * Shared authorization of a wake (ctl/daemon/src/approval_context.rs) *)

Module Shared.
Record t := Mk { requested : bool; authorized : bool }.
Definition new : t := Mk false false.
Definition decision (s : t) : ReadDecision * t :=
  if authorized s then (RetainedApproval, s)
  else if negb (requested s) then (FreshInteractive, Mk true (authorized s)) else (FreshQuiet, Mk true (authorized s)).
Definition succeeded (s : t) : t := Mk (requested s) true.
(** [same]: the context asked for is the one of the wake *)
Definition decision_for (same : bool) (inherited : ReadDecision) (s : t) : ReadDecision * t :=
  if same then decision s else (inherited, s).
Definition succeeded_for (same : bool) (s : t) : t := if same then succeeded s else s.

(** What the hosts of a wake ask for, in some order, and the decisions they get on its context *)
Inductive call := Decide (same : bool) (inherited : ReadDecision) | Succeed (same : bool).
Fixpoint decisions (s : t) (calls : list call) : list ReadDecision :=
  match calls with
  | [] => []
  | Decide true inherited :: calls => let '(d, s) := decision_for true inherited s in d :: decisions s calls
  | Decide false inherited :: calls => decisions (decision_for false inherited s).2 calls
  | Succeed same :: calls => decisions (succeeded_for same s) calls
  end.
End Shared.

(** * Histories: what the threads of the daemon do with the approvals, in some order *)

Section histories.
Context {E T : Type} (unavailable : E).

Inductive event :=
  | Begin (scope : string) (now : N)
  | BeginRead (id : N) (selector : string) (interactive : bool) (created : E + ()) (connection_valid : bool)
  | EndRead (id : N) (selector : string) (selected : SelectedContext.t) (connection_valid : bool) (result : E + option T)
  | Connected (id : N) (now : N)
  | Cancel (id : N)
  | Discard (id : N)
  | RevokeOwn (id : N)
  | Drop (id : N)
  | Expire (now : N)
  | Revoke (scope : option string)
  | RevokePrefix (start : string)
  | SelectScope (start : string) (current : option string)
  | Fails (a : N).

Definition step r (e : event) : option Approvals.t :=
  match e with
  | Begin scope now => snd <$> begin scope now r
  | BeginRead id selector interactive created connection_valid =>
      snd <$> read_begin id selector interactive created connection_valid unavailable r
  | EndRead id selector selected connection_valid result =>
      snd <$> read_end id selector selected connection_valid unavailable result r
  | Connected id now => connected id now r
  | Cancel id => snd <$> cancel id r
  | Discard id => snd <$> discard_cached id r
  | RevokeOwn id => snd <$> revoke_own id r
  | Drop id => drop_attempt id r
  | Expire now => Some (expire now r).2
  | Revoke scope => Some (revoke scope r).2
  | RevokePrefix start => Some (revoke_prefix start r).2
  | SelectScope start current => Some (select_scope start current r).2
  | Fails a => Some (invalidate [a] r)
  end.

(** The history, the latest event first, each with the state it was met in *)
Inductive runs : list (Approvals.t * event) → Approvals.t → Prop :=
  | Nothing : runs [] Approvals.default
  | Event h r e r' : runs h r → step r e = Some r' → runs ((r, e) :: h) r'.

(** The attempt an event is about *)
Definition attempt_of (e : event) : option N :=
  match e with
  | BeginRead id _ _ _ _ | EndRead id _ _ _ _ | Connected id _ | Cancel id | Discard id | RevokeOwn id | Drop id => Some id
  | _ => None
  end.

Definition scope_of r id : option string := Pending.scope <$> (pending r !! id).

(** Whether an event takes permission back from a scope: a revocation that matches it, a
    confirmation of the host, or a read that the system denied *)
Definition takes_back r (e : event) scope : bool :=
  match e with
  | Revoke scope' => match scope' with None => true | Some scope' => bool_decide (scope' = scope) end
  | RevokePrefix start => String.prefix start scope
  | SelectScope start current => String.prefix start scope && negb (bool_decide (Some scope = current))
  | RevokeOwn id => bool_decide (scope_of r id = Some scope)
  | Discard id => bool_decide (scope_of r id = Some scope) && default false (valid id r)
  | EndRead id _ _ true (inl _) => bool_decide (scope_of r id = Some scope)
  | _ => false
  end.

(** An attempt that used a credential and is still valid connects, where the scope has no
    window and had none when the attempt began: a window opens for a day.  [renewal]: every
    credential it used was one that it had permission for already. *)
Definition opens (renewal : bool) r (e : event) scope (until : N) : Prop :=
  ∃ id t p, e = Connected id t ∧ pending (expire t r).2 !! id = Some p ∧ Pending.scope p = scope ∧
    Pending.valid p = true ∧ Pending.used p ≠ ∅ ∧ bool_decide (Pending.used p ⊆ Pending.inherited p) = renewal ∧
    Pending.expires p = None ∧ windows (expire t r).2 !! scope = None ∧ (until ≤ t + WINDOW)%N.

(** Permission for a scope until then was granted, and not taken back since.  A new grant
    needs a credential that was read anew; only permission that was not taken back is renewed. *)
Inductive granted : list (Approvals.t * event) → string → N → Prop :=
  | Granted h r e scope until : opens false r e scope until → takes_back r e scope = false → granted ((r, e) :: h) scope until
  | Renewed h r e scope before until : opens true r e scope until → takes_back r e scope = false → granted h scope before →
      granted ((r, e) :: h) scope until
  | Since h r e scope until : takes_back r e scope = false → granted h scope until → granted ((r, e) :: h) scope until.

(** An attempt that connected itself, with a context that no window of its scope holds *)
Definition outlives r id a : Prop :=
  ∃ p, pending r !! id = Some p ∧ Pending.expires p = None ∧
    match windows r !! Pending.scope p with Some w => a ∉ addresses (Window.contexts w) | None => True end.

End histories.
Arguments event : clear implicits.

(** * The loops over the registry *)

(** A loop over the entries of a map that changes in it, at each step, only the entry *)
Lemma fold_entries {K A S} `{Countable K} (get : S → gmap K A) (f : S → K * A → S) (R : K → A → option A → Prop) :
  (∀ s k (a : A), get s !! k = Some a → ∃ o, get (f s (k, a)) = partial_alter (λ _, o) k (get s) ∧ R k a o) →
  ∀ s k, match get s !! k with
         | Some a => R k a (get (foldl f s (map_to_list (get s))) !! k)
         | None => get (foldl f s (map_to_list (get s))) !! k = None
         end.
Proof.
  intros Hf s k.
  enough (∀ l s, NoDup l.*1 → (∀ k (a : A), (k, a) ∈ l → get s !! k = Some a) →
    (k ∉ l.*1 → get (foldl f s l) !! k = get s !! k) ∧
    (∀ a : A, (k, a) ∈ l → R k a (get (foldl f s l) !! k))) as Hall.
  { destruct (Hall (map_to_list (get s)) s) as [Hout Hin].
    - apply NoDup_fst_map_to_list.
    - intros k' a. apply elem_of_map_to_list.
    - destruct (get s !! k) as [a|] eqn:E.
      + apply Hin, elem_of_map_to_list, E.
      + rewrite Hout; [done|]. rewrite list_elem_of_fmap. intros [[k' a] [-> Ha]]. apply elem_of_map_to_list in Ha.
        cbn in E. congruence. }
  clear s. induction l as [|[k' a'] l IH]; intros s Hdup Hl; cbn.
  { split; [done|]. intros a Ha. by apply elem_of_nil in Ha. }
  apply NoDup_cons in Hdup as [Hk' Hdup].
  destruct (Hf s k' a') as (o & Ho & HR); [apply Hl, elem_of_cons; by left|].
  destruct (IH (f s (k', a')) Hdup) as [Hout Hin].
  { intros k2 a2 Hin. rewrite Ho, lookup_partial_alter_ne; [apply Hl, elem_of_cons; by right|].
    intros ->. apply Hk', list_elem_of_fmap. by eexists (_, a2). }
  split.
  - intros Hk. apply not_elem_of_cons in Hk as [Hne Hk]. rewrite Hout by done. rewrite Ho. by apply lookup_partial_alter_ne.
  - intros a Ha. apply elem_of_cons in Ha as [[= -> ->]|Ha]; [|by apply Hin].
    rewrite Hout by done. by rewrite Ho, lookup_partial_alter_eq.
Qed.

(** What such a loop keeps, when each step does *)
Lemma fold_keeps {A S} (P : S → Prop) (f : S → A → S) l s : P s → (∀ s (a : A), P s → P (f s a)) → P (foldl f s l).
Proof. intros Hs Hf. revert s Hs. induction l; intros s Hs; cbn; [done|]. by apply IHl, Hf. Qed.

(** * What every operation that takes permission back does *)

(** No window and no attempt is added or gets more; what [matching] selects is gone *)
Record keeps (matching : string → bool) r r' : Prop := {
  keeps_windows s w' : windows r' !! s = Some w' →
    matching s = false ∧ ∃ w, windows r !! s = Some w ∧ Window.expires w' = Window.expires w;
  keeps_pending id p' : pending r' !! id = Some p' →
    ∃ p, pending r !! id = Some p ∧ Pending.scope p' = Pending.scope p ∧ Pending.inherited p' = Pending.inherited p ∧
      Pending.expires p' = Pending.expires p ∧
      (Pending.valid p' = true → Pending.valid p = true ∧ matching (Pending.scope p) = false) }.

Definition never : string → bool := λ _, false.

Lemma keeps_refl r : keeps never r r.
Proof. split; [by eauto|]. intros id p Hp. exists p. by repeat split. Qed.

Lemma host_keeps_trans m1 m2 m r1 r2 r3 :
  keeps m1 r1 r2 → keeps m2 r2 r3 → (∀ s, m s = true → m1 s = true ∨ m2 s = true) → keeps m r1 r3.
Proof.
  intros [Hw1 Hp1] [Hw2 Hp2] Hm.
  assert (Hn : ∀ s, m1 s = false → m2 s = false → m s = false).
  { intros s H1 H2. destruct (m s) eqn:E; [|done]. destruct (Hm s E); congruence. }
  split.
  - intros s w3 H3. destruct (Hw2 _ _ H3) as (M2 & w2 & H2 & E2). destruct (Hw1 _ _ H2) as (M1 & w1 & H1 & E1).
    split; [by apply Hn|]. exists w1. by rewrite E2, E1.
  - intros id p3 H3. destruct (Hp2 _ _ H3) as (p2 & H2 & S2 & I2 & E2 & V2).
    destruct (Hp1 _ _ H2) as (p1 & H1 & S1 & I1 & E1 & V1).
    exists p1. rewrite S2, I2, E2, S1, I1, E1. repeat split; [done|..].
    + by apply V1, V2.
    + destruct (V2 H) as [V M]. destruct (V1 V) as [_ M1]. apply Hn; [done|]. by rewrite <- S1.
Qed.

Lemma keeps_weaken m r r' : keeps m r r' → keeps never r r'.
Proof. intros H. apply (host_keeps_trans m never never r r' r'); [done|apply keeps_refl|done]. Qed.

Lemma keeps_invalidate l r : keeps never r (invalidate l r).
Proof. destruct (keeps_refl r). by split. Qed.

(** An attempt changed in what does not matter *)
Lemma keeps_attempt id p p' r :
  pending r !! id = Some p → Pending.scope p' = Pending.scope p → Pending.inherited p' = Pending.inherited p →
  Pending.expires p' = Pending.expires p → (Pending.valid p' = true → Pending.valid p = true) →
  keeps never r (set_pending (<[id := p']> (pending r)) r).
Proof.
  intros Hp HS HI HE HV. split; [by eauto|]. cbn. intros id' q Hq.
  apply lookup_insert_Some in Hq as [[<- <-]|[_ Hq]]; [exists p; tauto|]. exists q. by repeat split.
Qed.

Lemma windows_attempts m acc l : windows (foldl (revoke_attempt m) acc l).2 = windows acc.2.
Proof. apply (fold_keeps (λ acc, windows acc.2 = windows _)); [done|]. intros [b r] [id p] H. cbn in *. by destruct (m p). Qed.
Lemma pending_windows m acc l : pending (foldl (revoke_window m) acc l).2 = pending acc.2.
Proof. apply (fold_keeps (λ acc, pending acc.2 = pending _)); [done|]. intros [b r] [id p] H. cbn in *. by destruct (m id). Qed.
Lemma pending_expiring now acc l : pending (foldl (expire_window now) acc l).2 = pending acc.2.
Proof.
  apply (fold_keeps (λ acc, pending acc.2 = pending _)); [done|]. intros [b r] [id w] H. unfold expire_window. cbn in *.
  destruct (decide _); [done|]. by destruct (_ <=? _)%N.
Qed.

(** The attempts after a loop of revocations *)
Lemma revoke_attempts m b r id :
  pending (foldl (revoke_attempt m) (b, r) (map_to_list (pending r))).2 !! id =
  (λ p, if m p then Pending.set_valid false p else p) <$> (pending r !! id).
Proof.
  pose proof (fold_entries (λ acc : bool * Approvals.t, pending acc.2) (revoke_attempt m)
    (λ _ p o, o = Some (if m p then Pending.set_valid false p else p))) as Hf.
  specialize (Hf ltac:(intros [b' r'] id' p Hp; exists (Some (if m p then Pending.set_valid false p else p)); split; [|done];
    cbn in *; destruct (m p); [done|]; exact (eq_sym (insert_id _ _ _ Hp))) (b, r) id).
  cbn in Hf. by destruct (pending r !! id).
Qed.

Lemma revoke_windows m b r s :
  windows (foldl (revoke_window m) (b, r) (map_to_list (windows r))).2 !! s = if m s then None else windows r !! s.
Proof.
  pose proof (fold_entries (λ acc : bool * Approvals.t, windows acc.2) (revoke_window m)
    (λ s w o, o = if m s then None else Some w)) as Hf.
  specialize (Hf ltac:(intros [b' r'] s' w Hw; exists (if m s' then None else Some w); split; [|done];
    cbn in *; destruct (m s'); [done|]; exact (eq_sym (insert_id _ _ _ Hw))) (b, r) s).
  cbn in Hf. by destruct (windows r !! s), (m s).
Qed.

(** What a loop over the windows leaves of one that expires *)
Lemma expire_windows now b r s :
  match windows (foldl (expire_window now) (b, r) (map_to_list (windows r))).2 !! s with
  | Some w' => ∃ w, windows r !! s = Some w ∧ Window.expires w' = Window.expires w ∧ (now < Window.expires w)%N
  | None => True
  end.
Proof.
  pose proof (fold_entries (λ acc : bool * Approvals.t, windows acc.2) (expire_window now)
    (λ s w o, ∀ w', o = Some w' → Window.expires w' = Window.expires w ∧ (now < Window.expires w)%N)) as Hf.
  specialize (Hf ltac:(intros [b' r'] s' w Hw; cbn -[filter]; destruct (decide _); [by exists None|];
    destruct (N.leb_spec (Window.expires w) now); [by exists None|]; eexists (Some _); split; [done|]; by intros w' [= <-]) (b, r) s).
  cbn in Hf. destruct (windows (foldl _ _ _).2 !! s) as [w'|] eqn:E'; [|done].
  destruct (windows r !! s) as [w|]; [|congruence]. destruct (Hf w'); [done|]. by exists w.
Qed.

(** Only the windows changed *)
Lemma keeps_windows_only r r' :
  pending r' = pending r →
  (∀ s w', windows r' !! s = Some w' → ∃ w, windows r !! s = Some w ∧ Window.expires w' = Window.expires w) →
  keeps never r r'.
Proof. intros Hp Hw. split; [by auto|]. intros id p. rewrite Hp. by apply keeps_refl. Qed.

(** Attempts that a loop of revocations reaches *)
Lemma keeps_reached m matching b r :
  (∀ p, matching (Pending.scope p) = true → m p = true) →
  (∀ s, matching s = true → windows r !! s = None) →
  keeps matching r (foldl (revoke_attempt m) (b, r) (map_to_list (pending r))).2.
Proof.
  intros Hm Hw. split.
  - intros s w'. rewrite windows_attempts. cbn. intros Hs. split; [|by eauto].
    destruct (matching s) eqn:E; [|done]. by rewrite Hw in Hs.
  - intros id p'. rewrite revoke_attempts. intros (p & Hp & ->)%fmap_Some.
    exists p. split; [done|]. specialize (Hm p). destruct (m p) eqn:Em; [by repeat split|].
    repeat split; [done|]. by destruct (matching (Pending.scope p)); [specialize (Hm eq_refl)|].
Qed.

Lemma keeps_revoke matching r : keeps matching r (revoke_matching matching r).2.
Proof.
  unfold revoke_matching.
  pose proof (revoke_windows matching false r) as Hw. pose proof (pending_windows matching (false, r) (map_to_list (windows r))) as Hp.
  destruct (foldl (revoke_window matching) _ _) as [b r1]. cbn in Hw, Hp. rewrite <- Hp.
  apply (host_keeps_trans never matching _ _ r1); [|apply keeps_reached|by right].
  - apply keeps_windows_only; [done|]. intros s w'. rewrite Hw. destruct (matching s); [done|]. by eauto.
  - done.
  - intros s Hs. by rewrite Hw, Hs.
Qed.

Lemma keeps_expire now r : keeps never r (expire now r).2.
Proof.
  unfold expire.
  pose proof (expire_windows now false r) as Hw. pose proof (pending_expiring now (false, r) (map_to_list (windows r))) as Hp.
  destruct (foldl (expire_window now) _ _) as [b r1]. cbn in Hw, Hp. rewrite <- Hp.
  apply (host_keeps_trans never never _ _ r1); [|by apply keeps_reached|by left].
  apply keeps_windows_only; [done|]. intros s w' Hs. specialize (Hw s). rewrite Hs in Hw. destruct Hw as (w & ? & ? & _). by exists w.
Qed.

(** What is past is gone after [expire]. *)
Lemma expired_windows now r s w : windows (expire now r).2 !! s = Some w →
  ∃ w0, windows r !! s = Some w0 ∧ Window.expires w0 = Window.expires w ∧ (now < Window.expires w0)%N.
Proof.
  unfold expire. rewrite windows_attempts. intros Hw. pose proof (expire_windows now false r s) as He. rewrite Hw in He.
  destruct He as (w0 & ? & ? & ?). by exists w0.
Qed.

Lemma expired_attempts now r id p e : pending (expire now r).2 !! id = Some p → Pending.valid p = true →
  Pending.expires p = Some e → (now < e)%N.
Proof.
  unfold expire. pose proof (pending_expiring now (false, r) (map_to_list (windows r))) as Hp.
  destruct (foldl (expire_window now) _ _) as [b r1]. cbn in Hp. rewrite <- Hp, revoke_attempts.
  intros (p0 & _ & ->)%fmap_Some. destruct (past now (Pending.expires p0)) eqn:E; [done|]. intros _ He. rewrite He in E. by apply N.leb_gt in E.
Qed.

(** * What each operation of an attempt does *)

Lemma keeps_mark id retained r r' : mark_reuse_failed id retained r = Some r' → keeps never r r'.
Proof.
  unfold mark_reuse_failed. destruct retained; [|intros [= <-]; apply keeps_refl].
  destruct (pending r !! id) as [p|] eqn:Hp; [|done]. intros [= <-]. by apply (keeps_attempt id p).
Qed.

Lemma keeps_revoke_own id r b r' :
  revoke_own id r = Some (b, r') → keeps (λ s, bool_decide (scope_of r id = Some s)) r r'.
Proof.
  unfold revoke_own, scope_of. destruct (pending r !! id) as [p|] eqn:Hp; [|done]. intros [= E].
  replace r' with (revoke (Some (Pending.scope p)) r).2 by (by rewrite E).
  eapply host_keeps_trans; [apply keeps_revoke|apply keeps_refl|]. intros s Hs. left.
  apply bool_decide_eq_true in Hs. apply bool_decide_eq_true. cbn in Hs. congruence.
Qed.

Lemma keeps_failed id selector r b r' :
  failed id selector r = Some (b, r') → keeps (λ s, bool_decide (scope_of r id = Some s)) r r'.
Proof.
  unfold failed. destruct (pending r !! id) as [p|] eqn:Hp; [|done]. cbn. intros Hf%keeps_revoke_own.
  eapply host_keeps_trans; [|exact Hf|]; [by apply (keeps_attempt id p)|]. intros s Hs. right.
  apply bool_decide_eq_true in Hs. apply bool_decide_eq_true. unfold scope_of in *. rewrite Hp in Hs. cbn.
  by rewrite lookup_insert_eq.
Qed.

Lemma keeps_used id selector r b r' : used id selector r = Some (b, r') → keeps never r r'.
Proof.
  unfold used. destruct (pending r !! id) as [p|] eqn:Hp; [|done]. cbn.
  destruct (negb _ || _); intros [= _ <-]; by apply (keeps_attempt id p).
Qed.

Lemma keeps_context {E} id selector (created : E + ()) r o r' : context id selector created r = Some (o, r') → keeps never r r'.
Proof.
  unfold context. destruct (pending r !! id) as [p|] eqn:Hp; [|done]. cbn -[Nat.leb].
  destruct (negb _); [intros [= _ <-]; apply keeps_refl|].
  destruct (Pending.contexts p !! selector); [intros [= _ <-]; by apply (keeps_attempt id p)|].
  destruct (MAX_CONTEXTS <=? size (Pending.contexts p)); [intros [= _ <-]; apply keeps_refl|].
  destruct created as [e|[]]; intros [= _ <-]; [apply keeps_refl|].
  destruct (keeps_attempt id p (Pending.set_reading ({[selector]} ∪ Pending.reading p) (Pending.set_contexts (<[selector := allocated r]> (Pending.contexts p)) p)) r Hp);
    [done..|]. by split.
Qed.

Lemma keeps_fail_read {E A} id selector (error : E) r (o : ReadError.t E + A) r' :
  fail_read id selector error r = Some (o, r') → keeps (λ s, bool_decide (scope_of r id = Some s)) r r'.
Proof.
  unfold fail_read. destruct (failed id selector r) as [[b r1]|] eqn:Hf; [|done]. cbn. intros [= _ <-].
  by apply (keeps_failed _ _ _ _ _ Hf).
Qed.

(** The scope of an attempt stays *)
Lemma scope_mark id retained r r' : mark_reuse_failed id retained r = Some r' → scope_of r' id = scope_of r id.
Proof.
  unfold mark_reuse_failed. destruct retained; [|by intros [= <-]].
  destruct (pending r !! id) as [p|] eqn:Hp; [|done]. intros [= <-]. unfold scope_of. cbn. by rewrite lookup_insert_eq, Hp.
Qed.

Lemma keeps_mark_fail {E A} id selector retained (error : E) r r1 (o : ReadError.t E + A) r' :
  mark_reuse_failed id retained r = Some r1 → fail_read id selector error r1 = Some (o, r') →
  keeps (λ s, bool_decide (scope_of r id = Some s)) r r'.
Proof.
  intros Hm Hf. eapply host_keeps_trans; [by apply (keeps_mark _ _ _ _ Hm)|by apply (keeps_fail_read _ _ _ _ _ _ Hf)|].
  cbn. intros s Hs. right. by rewrite (scope_mark _ _ _ _ Hm).
Qed.

Lemma keeps_read_begin {E} id selector interactive created connection_valid (unavailable : E) r o r' :
  read_begin id selector interactive created connection_valid unavailable r = Some (o, r') → keeps never r r'.
Proof.
  unfold read_begin. destruct connection_valid; cbn.
  - destruct (context id selector created r) as [[selected r1]|] eqn:Hc; [|done]. apply keeps_context in Hc. cbn.
    destruct selected as [e|[selected|]]; [by intros [= _ <-]| |by intros [= _ <-]].
    destruct (is_valid r1 _); cbn; [by intros [= _ <-]|].
    destruct (mark_reuse_failed id _ r1) as [r2|] eqn:Hm; [|done]. cbn. intros Hf.
    eapply host_keeps_trans; [exact Hc|by eapply keeps_weaken, keeps_mark_fail|by left].
  - destruct (pending r !! id) as [p|]; [|done]. cbn.
    destruct (mark_reuse_failed id _ r) as [r1|] eqn:Hm; [|done]. cbn. intros [= _ <-]. by apply (keeps_mark _ _ _ _ Hm).
Qed.

Lemma keeps_read_end {E T} id selector selected connection_valid (unavailable : E) (result : E + option T) r o r' :
  read_end id selector selected connection_valid unavailable result r = Some (o, r') →
  keeps (λ s, match result with inl _ => connection_valid && bool_decide (scope_of r id = Some s) | inr _ => false end) r r'.
Proof.
  unfold read_end. destruct connection_valid; cbn -[mark_reuse_failed].
  - assert (Hfail : ∀ retained (error : E) r1, mark_reuse_failed id retained r = Some r1 → fail_read id selector error r1 = Some (o, r') →
      keeps (λ s, match result with inl _ => bool_decide (scope_of r id = Some s) | inr _ => false end) r r').
    { intros retained error r1 Hm Hf. eapply host_keeps_trans; [by eapply keeps_mark_fail|apply keeps_refl|]. intros s Hs. left.
      by destruct result. }
    destruct (is_valid r _); cbn -[mark_reuse_failed].
    + destruct result as [error|[value|]].
      * destruct (mark_reuse_failed id _ r) as [r1|] eqn:Hm; [|done]. by eapply Hfail.
      * destruct (used id selector r) as [[ok r1]|] eqn:Hu; [|done]. apply keeps_used in Hu. cbn.
        destruct ok; cbn; [by intros [= _ <-]|].
        destruct (mark_reuse_failed id _ r1) as [r2|] eqn:Hm; [|done]. cbn. intros [= _ <-].
        eapply host_keeps_trans; [exact Hu|by eapply keeps_mark|by left].
      * destruct (negb _); [intros [= _ <-]; apply keeps_refl|].
        destruct (mark_reuse_failed id _ r) as [r1|] eqn:Hm; [|done]. by eapply Hfail.
    + destruct (mark_reuse_failed id _ r) as [r1|] eqn:Hm; [|done]. by eapply Hfail.
  - destruct (mark_reuse_failed id _ r) as [r1|] eqn:Hm; [|done]. cbn. intros [= _ <-].
    eapply host_keeps_trans; [by eapply keeps_mark|apply keeps_refl|]. by destruct result.
Qed.

Lemma keeps_cancel id r b r' : cancel id r = Some (b, r') → keeps never r r'.
Proof.
  unfold cancel. destruct (pending r !! id) as [p|] eqn:Hp; [|done]. cbn.
  destruct (Pending.committed p); [intros [= _ <-]; apply keeps_refl|].
  pose proof (fold_keeps (λ acc : bool * Approvals.t, keeps never r acc.2 ∧ pending acc.2 = pending r) (cancel_context p)
    (map_to_list (Pending.contexts p)) (false, r)) as Hf.
  destruct (foldl _ _ _) as [b1 r1]. intros [= _ <-]. destruct Hf as [Hk Hr].
  - split; [apply keeps_refl|done].
  - intros [b2 r2] [name a] [Hk Hr]. cbn -[invalidate] in *. destruct (_ || _); [|done]. cbn. split; [|done].
    eapply host_keeps_trans; [exact Hk|apply keeps_invalidate|by left].
  - cbn in *. eapply host_keeps_trans; [exact Hk| |by left]. apply (keeps_attempt id p); [by rewrite Hr|done..].
Qed.

Lemma keeps_drop id r r' : drop_attempt id r = Some r' → keeps never r r'.
Proof.
  unfold drop_attempt. destruct (pending r !! id) as [p|] eqn:Hp; [|done]. cbn. intros [= <-].
  apply (fold_keeps (keeps never r)).
  - split; [by eauto|]. cbn. intros id' q [_ Hq]%lookup_delete_Some. exists q. by repeat split.
  - intros r1 a Hk. unfold drop_context. destruct (existsb _ _); [done|].
    eapply host_keeps_trans; [exact Hk|apply keeps_invalidate|by left].
Qed.

Lemma keeps_evict r : keeps never r (evict_oldest r).
Proof.
  unfold evict_oldest. destruct (oldest _) as [[name w]|]; [|apply keeps_refl].
  match goal with |- keeps _ _ (foldl (revoke_attempt ?m) (false, ?r1) _).2 => set (r1' := r1); change (map_to_list (pending r)) with (map_to_list (pending r1')) end.
  eapply (host_keeps_trans never never _ _ r1'); [|by apply keeps_reached|by left].
  apply keeps_windows_only; [done|]. cbn. intros s w' [_ Hs]%lookup_delete_Some. by exists w'.
Qed.

(** * The history of a permission *)

Section permission.
Context {E T : Type} (unavailable : E).
Implicit Types (h : list (Approvals.t * event E T)).

Definition earned h p : Prop :=
  Pending.valid p = true →
  (∀ e, Pending.expires p = Some e → granted h (Pending.scope p) e) ∧
  (Pending.inherited p ≠ ∅ → ∃ until, granted h (Pending.scope p) until).

(** What windows and attempts hold was granted *)
Definition all_granted h r : Prop :=
  map_Forall (λ s w, granted h s (Window.expires w)) (windows r) ∧ map_Forall (λ _ p, earned h p) (pending r).

Lemma granted_mono h s until until' : granted h s until → (until' ≤ until)%N → granted h s until'.
Proof.
  intros Hg Hle. induction Hg as [h r e s until Ho Ht|h r e s before until Ho Ht Hg _|h r e s until Ht Hg IH].
  - apply Granted; [|done]. destruct Ho as (id & t & p & ? & ? & ? & ? & ? & ? & ? & ? & ?). exists id, t, p. split_and!; [done..|lia].
  - eapply Renewed; [|done|exact Hg]. destruct Ho as (id & t & p & ? & ? & ? & ? & ? & ? & ? & ? & ?). exists id, t, p. split_and!; [done..|lia].
  - apply Since; [done|]. by apply IH.
Qed.

Lemma all_granted_keeps h r e r' :
  keeps (takes_back r e) r r' → all_granted h r → all_granted ((r, e) :: h) r'.
Proof.
  intros [Hw Hp] [Gw Gp]. split.
  - intros s w' Hs. destruct (Hw _ _ Hs) as (Ht & w & Hs0 & ->). apply Since; [done|]. by apply Gw.
  - intros id p' Hid V. destruct (Hp _ _ Hid) as (p & Hid0 & HS & HI & HE & HV). destruct (HV V) as [V0 Ht].
    destruct (Gp _ _ Hid0 V0) as [G1 G2]. rewrite HS, HI, HE. split; [intros; apply Since; auto|]. intros Hi. destruct (G2 Hi) as [until Hg].
    exists until. apply Since; auto.
Qed.

Lemma all_granted_attempt h r id p : all_granted h r → earned h p → all_granted h (set_pending (<[id := p]> (pending r)) r).
Proof. intros [Gw Gp] Hp. split; [done|]. cbn. by apply map_Forall_insert_2. Qed.

Lemma begin_granted h r scope now id r' :
  begin scope now r = Some (id, r') → all_granted h r → all_granted ((r, Begin scope now) :: h) r'.
Proof.
  unfold begin. intros Hb Hg.
  apply (all_granted_keeps _ _ (Begin scope now) (expire now r).2) in Hg; [|by apply keeps_expire].
  destruct (decide _); [done|]. injection Hb as <- <-.
  apply (all_granted_attempt _ (Approvals.Mk _ (windows (expire now r).2) (pending (expire now r).2) _ _)).
  { destruct Hg. by split. }
  destruct Hg as [Gw _]. intros _.
  destruct (windows (expire now r).2 !! scope) as [w|] eqn:Ew; cbn; [|split; [done|by rewrite dom_empty_L]].
  specialize (Gw _ _ Ew). split; [by intros ? [= <-]|]. by exists (Window.expires w).
Qed.

(** A confirmation of the host is a revocation, and the attempt starts again *)
Lemma discard_keeps id r b r' :
  discard_cached id r = Some (b, r') →
  ∃ r2, keeps (takes_back r (Discard (E := E) (T := T) id)) r r2 ∧
    (r' = r2 ∨ ∃ scope, r' = set_pending (<[id := Pending.new scope None ∅]> (pending r2)) r2).
Proof.
  unfold discard_cached. destruct (pending r !! id) as [p|] eqn:Hp; [|done]. cbn. intros Hd.
  destruct (Pending.valid p) eqn:V; cbn in Hd; [|injection Hd as _ <-].
  2:{ exists r. split; [|by left]. eapply host_keeps_trans; [apply keeps_refl|apply keeps_refl|]. cbn [takes_back]. intros s.
      by rewrite (andb_comm (bool_decide _)), (ltac:(unfold valid; by rewrite Hp) : valid id r = Some (Pending.valid p)), V. }
  match type of Hd with context [foldl _ ?acc _] => destruct acc as [b1 r1] eqn:Eacc end.
  destruct (foldl _ _ _) as [b2 r2] eqn:Ef. injection Hd as _ <-. exists r2. split; [|by right; eexists].
  assert (Hw : windows r1 = delete (Pending.scope p) (windows r) ∧ pending r1 = pending r).
  { destruct (windows r !! Pending.scope p) eqn:Ew; injection Eacc as _ <-; [done|]. by rewrite delete_id. }
  destruct Hw as [Hw Hp1]. rewrite <- Hp1 in Ef. replace r2 with (foldl (revoke_attempt (λ q, bool_decide (Pending.scope q = Pending.scope p)))
    (b1, r1) (map_to_list (pending r1))).2 by (by rewrite Ef).
  eapply (host_keeps_trans never (λ s, bool_decide (s = Pending.scope p))); [|apply keeps_reached; [done|]|].
  - apply keeps_windows_only; [done|]. rewrite Hw. intros s w' [_ Hs]%lookup_delete_Some. by exists w'.
  - intros s ->%bool_decide_eq_true. by rewrite Hw, lookup_delete_eq.
  - cbn [takes_back]. unfold scope_of. rewrite Hp. intros s [Hs%bool_decide_eq_true _]%andb_true_iff. right. injection Hs as <-.
    by apply bool_decide_eq_true.
Qed.

(** Who commits permission, and until when *)
Lemma connected_commits id now r r' :
  connected id now r = Some r' →
  keeps never (expire now r).2 r' ∨
  ∃ p p2 r2 until contexts committed, pending (expire now r).2 !! id = Some p ∧ Pending.valid p = true ∧ Pending.used p ≠ ∅ ∧
    keeps never (expire now r).2 r2 ∧ pending r2 !! id = Some p2 ∧
    ((∃ e, Pending.expires p = Some e ∧ until ≤ e) ∨
     (∃ w, windows (expire now r).2 !! Pending.scope p = Some w ∧ until ≤ Window.expires w) ∨ 
      Pending.expires p = None ∧ windows (expire now r).2 !! Pending.scope p = None ∧ until = now + WINDOW)%N ∧
    r' = set_pending (<[id := Pending.Mk (Pending.scope p2) (Pending.valid p2) (Pending.expires p2) (Pending.contexts p2)
           (Pending.inherited p2 ∪ Pending.used p2) (Pending.used p2) (Pending.reading p2) (Pending.reuse_failed p2) committed]>
           (pending r2)) (set_windows (<[Pending.scope p := Window.Mk until contexts]> (windows r2)) r2).
Proof.
  unfold connected. set (r1 := (expire now r).2). destruct (pending r1 !! id) as [p|] eqn:Hp; [|done]. cbn -[filter Nat.leb].
  destruct (Pending.valid p) eqn:V; cbn -[filter Nat.leb]; [|intros [= <-]; left; apply keeps_refl].
  destruct (bool_decide (Pending.used p = ∅)) eqn:U; cbn -[filter Nat.leb]; [intros [= <-]; left; apply keeps_refl|].
  apply bool_decide_eq_false in U.
  destruct (decide _); [intros [= <-]; left; apply keeps_refl|].
  match goal with |- context [set_windows _ ?r2] => set (r2' := r2) end.
  destruct (pending r2' !! id) as [p2|] eqn:Hp2; [|done]. cbn -[filter Nat.leb]. intros [= <-]. right.
  match goal with |- context [Window.Mk ?until ?contexts] => exists p, p2, r2', until, contexts, true end.
  do 3 (split; [done|]).
  split; [unfold r2'; destruct (_ && _); [apply keeps_evict|apply keeps_refl]|]. split; [done|]. split; [|done].
  destruct (Pending.expires p) as [e|], (windows r1 !! Pending.scope p) as [w|] eqn:Ew; cbn; [left|left|right; left|by repeat right];
    eexists; (split; [done|lia]).
Qed.

Lemma connected_granted h r id now r' :
  connected id now r = Some r' → all_granted h r → all_granted ((r, Connected id now) :: h) r'.
Proof.
  intros Hc Hg0. pose proof (all_granted_keeps _ _ (Connected id now) _ (keeps_expire now r) Hg0) as Hg.
  assert (Hk : ∀ r1 r2, keeps never r1 r2 → all_granted ((r, Connected id now) :: h) r1 → all_granted ((r, Connected id now) :: h) r2).
  { intros r1 r2 [Hw Hp] [Gw Gp]. split.
    - intros s w' (_ & w & Hs & ->)%Hw. by apply Gw.
    - intros id' p' (p & Hp0 & HS & HI & HE & HV)%Hp V. rewrite HS, HI, HE. by apply (Gp id'), HV. }
  destruct (connected_commits _ _ _ _ Hc) as [Hn|(p & p2 & r2 & until & contexts & committed & Hp & V & U & Hr2 & Hp2 & Hu & ->)].
  { by apply (Hk _ _ Hn). }
  assert (Hg2 := Hk _ _ Hr2 Hg). destruct Hg as [Gw Gp].
  assert (Huntil : granted ((r, Connected (E := E) (T := T) id now) :: h) (Pending.scope p) until).
  { destruct Hu as [(e & He & Hle)|[(w & Hw & Hle)|(He & Hw & ->)]].
    - eapply granted_mono; [|exact Hle]. by apply (Gp _ _ Hp V).
    - by eapply granted_mono; [apply Gw, Hw|].
    - destruct (bool_decide (Pending.used p ⊆ Pending.inherited p)) eqn:Hren.
      + destruct (keeps_pending _ _ _ (keeps_expire now r) _ _ Hp) as (p0 & Hp0 & HS0 & HI0 & _ & HV0). destruct (HV0 V) as [V0 _].
        destruct Hg0 as [_ Gp0]. destruct (Gp0 _ _ Hp0 V0) as [_ Hi]. rewrite <- HI0, <- HS0 in Hi.
        destruct Hi as [before Hb]; [apply bool_decide_eq_true in Hren; set_solver|].
        eapply Renewed; [|done|exact Hb]. exists id, now, p. by split_and!.
      + apply Granted; [|done]. exists id, now, p. by split_and!. }
  destruct (keeps_pending _ _ _ Hr2 _ _ Hp2) as (p0 & Hp0 & HS & _ & HE & _).
  assert (p0 = p) as -> by congruence. apply (all_granted_attempt _ (set_windows _ r2)).
  - split; [|apply Hg2]. cbn. apply map_Forall_insert_2; [|apply Hg2]. cbn. exact Huntil.
  - intros V2. cbn. rewrite HS, HE. split; [by apply (Gp _ _ Hp V)|]. intros _. by exists until.
Qed.

(** Every event but a new attempt, a confirmation of the host and a commit only takes away *)
Lemma step_keeps r (e : event E T) r' :
  step unavailable r e = Some r' →
  match e with Begin _ _ | Connected _ _ | Discard _ => True | _ => keeps (takes_back r e) r r' end.
Proof.
  destruct e; cbn [step]; intros He; try done.
  - destruct (read_begin _ _ _ _ _ _ _) as [[o r1]|] eqn:Hb; [|done]. injection He as <-. by eapply keeps_read_begin.
  - destruct (read_end _ _ _ _ _ _ _) as [[o r1]|] eqn:Hb; [|done]. injection He as <-.
    eapply host_keeps_trans; [by eapply keeps_read_end|apply keeps_refl|]. cbn. intros s Hs. left. by destruct connection_valid, result.
  - destruct (cancel id r) as [[b r1]|] eqn:Hb; [|done]. injection He as <-. by eapply keeps_cancel.
  - destruct (revoke_own id r) as [[b r1]|] eqn:Hb; [|done]. injection He as <-. by eapply keeps_revoke_own.
  - by eapply keeps_drop.
  - injection He as <-. apply keeps_expire.
  - injection He as <-. apply keeps_revoke.
  - injection He as <-. apply keeps_revoke.
  - injection He as <-. apply keeps_revoke.
  - injection He as <-. apply keeps_invalidate.
Qed.

Lemma runs_granted h r : runs unavailable h r → all_granted h r.
Proof.
  induction 1 as [|h r e r' Hr IH He]; [by split; apply map_Forall_empty|]. pose proof (step_keeps r e r' He) as Hk.
  destruct e; try by eapply all_granted_keeps.
  - cbn in He. destruct (begin scope now r) as [[id r1]|] eqn:Hb; [|done]. injection He as <-. by eapply begin_granted.
  - by eapply connected_granted.
  - cbn in He. destruct (discard_cached id r) as [[b r1]|] eqn:Hb; [|done]. injection He as <-.
    destruct (discard_keeps _ _ _ _ Hb) as (r2 & H2 & Hr2). apply (all_granted_keeps _ _ _ _ H2) in IH.
    destruct Hr2 as [->|[scope ->]]; [done|]. by apply all_granted_attempt.
Qed.

(** A read that is to reuse an approval *)
Lemma retained_read id selector interactive (created : E + ()) connection_valid selected r r' :
  read_begin id selector interactive created connection_valid unavailable r = Some (inr (selected, RetainedApproval), r') →
  ∃ p, pending r !! id = Some p ∧ Pending.valid p = true ∧ selector ∈ Pending.inherited p ∧
    is_valid r (SelectedContext.context selected) = true.
Proof.
  unfold read_begin. destruct connection_valid; cbn -[Nat.leb].
  2:{ by destruct (pending r !! id); cbn; [destruct (mark_reuse_failed _ _ _)|]. }
  destruct (context id selector created r) as [[o r1]|] eqn:Hc; [|done]. cbn -[mark_reuse_failed].
  destruct o as [e|[sel|]]; [done| |done]. destruct (is_valid r1 (SelectedContext.context sel)) eqn:Hv; cbn -[mark_reuse_failed].
  2:{ destruct (mark_reuse_failed _ _ _) as [r2|]; [|done]. cbn. unfold fail_read. by destruct (failed _ _ _) as [[]|]. }
  destruct (SelectedContext.retained_approval sel) eqn:Hret; [|by destruct interactive]. intros [= <- <-].
  unfold context in Hc. destruct (pending r !! id) as [p|] eqn:Hp; [|done]. cbn -[Nat.leb] in Hc.
  destruct (Pending.valid p) eqn:V; [|done]. cbn -[Nat.leb] in Hc. exists p. split; [done|]. split; [done|].
  destruct (Pending.contexts p !! selector) as [a|]; cbn -[Nat.leb] in Hc.
  - injection Hc as <- <-. cbn in Hret, Hv. by apply bool_decide_eq_true in Hret.
  - destruct (MAX_CONTEXTS <=? _); [done|]. destruct created as [e|[]]; [done|]. injection Hc as <- <-. done.
Qed.
End permission.

(** * The registry stays small, and its operations return *)

Section bounded.
Context {E T : Type} (unavailable : E).

(** The attempt is there *)
Definition live id r : Prop := is_Some (pending r !! id).

Lemma live_attempts m id b r : live id r → live id (foldl (revoke_attempt m) (b, r) (map_to_list (pending r))).2.
Proof. intros [p Hp]. exists (if m p then Pending.set_valid false p else p). by rewrite revoke_attempts, Hp. Qed.

Lemma live_set id p r : live id (set_pending (<[id := p]> (pending r)) r).
Proof. exists p. apply lookup_insert_eq. Qed.

Lemma live_revoke matching id r : live id r → live id (revoke_matching matching r).2.
Proof.
  unfold revoke_matching. pose proof (pending_windows matching (false, r) (map_to_list (windows r))) as Hp.
  destruct (foldl (revoke_window matching) _ _) as [b r1]. cbn in Hp. rewrite <- Hp. intros Hl. apply live_attempts. unfold live. by rewrite Hp.
Qed.

Lemma live_expire now id r : live id r → live id (expire now r).2.
Proof.
  unfold expire. pose proof (pending_expiring now (false, r) (map_to_list (windows r))) as Hp.
  destruct (foldl (expire_window now) _ _) as [b r1]. cbn in Hp. rewrite <- Hp. intros Hl. apply live_attempts. unfold live. by rewrite Hp.
Qed.

Lemma live_mark id retained r : live id r → mark_reuse_failed id retained r ⇓ live id.
Proof. intros [p Hp]. unfold mark_reuse_failed. destruct retained; [rewrite Hp; apply live_set|by exists p]. Qed.

Lemma live_revoke_own id r : live id r → revoke_own id r ⇓ λ br, live id br.2.
Proof. intros [p Hp]. unfold revoke_own. rewrite Hp. apply live_revoke. by exists p. Qed.

Lemma live_failed id selector r : live id r → failed id selector r ⇓ λ br, live id br.2.
Proof. intros [p Hp]. unfold failed. rewrite Hp. apply live_revoke_own, live_set. Qed.

Lemma live_fail_read {A} id selector (error : E) r : live id r → fail_read (A := A) id selector error r ⇓ λ br, live id br.2.
Proof. intros Hl. unfold fail_read. eapply Safe_bind; [by apply live_failed|]. by intros [b r1]. Qed.

Lemma live_used id selector r : live id r → used id selector r ⇓ λ br, live id br.2.
Proof. intros [p Hp]. unfold used. rewrite Hp. cbn. destruct (_ || _); apply live_set. Qed.

Lemma live_context id selector (created : E + ()) r : live id r → context id selector created r ⇓ λ br, live id br.2.
Proof.
  intros [p Hp]. unfold context. rewrite Hp. cbn -[Nat.leb].
  destruct (negb _); [by exists p|]. destruct (Pending.contexts p !! selector); [apply live_set|].
  destruct (MAX_CONTEXTS <=? _); [by exists p|]. destruct created as [e|[]]; [by exists p|]. eexists. apply lookup_insert_eq.
Qed.

Lemma live_mark_fail {A} id selector retained (error : E) r :
  live id r → (mark_reuse_failed id retained r ≫= λ r, fail_read (A := A) id selector error r) ⇓ λ br, live id br.2.
Proof. intros Hl. eapply Safe_bind; [by apply live_mark|]. by intros; apply live_fail_read. Qed.

Lemma live_mark_ret {A} id retained (result : A) r :
  live id r → (mark_reuse_failed id retained r ≫= λ r, Some (result, r)) ⇓ λ br, live id br.2.
Proof. intros Hl. eapply Safe_bind; [by apply live_mark|]. done. Qed.
#[local] Hint Resolve live_mark_fail live_mark_ret : core.

Lemma live_read_begin id selector interactive (created : E + ()) connection_valid r :
  live id r → read_begin id selector interactive created connection_valid unavailable r ⇓ λ br, live id br.2.
Proof.
  intros Hl. unfold read_begin. destruct connection_valid; cbn -[context mark_reuse_failed].
  - eapply Safe_bind; [by apply live_context|]. intros [[e|[selected|]] r1] Hl1; [done| |done].
    destruct (negb _); [by apply live_mark_fail|done].
  - destruct Hl as [p Hp]. rewrite Hp. apply live_mark_ret. by exists p.
Qed.

Lemma live_read_end id selector selected connection_valid (result : E + option T) r :
  live id r → read_end id selector selected connection_valid unavailable result r ⇓ λ br, live id br.2.
Proof.
  intros Hl. unfold read_end. destruct (negb connection_valid); [by apply live_mark_ret|].
  destruct (negb (is_valid _ _)); [by apply live_mark_fail|].
  destruct result as [error|[value|]].
  - by apply live_mark_fail.
  - eapply Safe_bind; [by apply live_used|]. intros [ok r1] Hl1. destruct (negb ok); [by apply live_mark_ret|done].
  - destruct (negb _); [done|]. by apply live_mark_fail.
Qed.

Lemma live_evict id r : live id r → live id (evict_oldest r).
Proof.
  intros Hl. unfold evict_oldest. destruct (oldest _) as [[name w]|]; [|done].
  match goal with |- live _ (foldl _ (false, ?r1) _).2 => change (map_to_list (pending r)) with (map_to_list (pending r1)) end.
  by apply live_attempts.
Qed.

Lemma live_connected id now r : live id r → connected id now r ⇓ live id.
Proof.
  intros Hl%(live_expire now). unfold connected. set (r1 := (expire now r).2) in *. destruct Hl as [p Hp]. rewrite Hp. cbn -[Nat.leb filter].
  destruct (_ || _); [by exists p|]. destruct (decide _); [by exists p|].
  match goal with |- context [set_windows _ ?r2] => set (r2' := r2) end.
  assert (live id r2') as [p2 Hp2].
  { unfold r2'. destruct (_ && _); [apply live_evict|]; by exists p. }
  rewrite Hp2. cbn. eexists. apply lookup_insert_eq.
Qed.

Lemma small_keeps m r r' : keeps m r r' → (size (windows r') ≤ size (windows r)).
Proof.
  intros [Hw _]. rewrite <- !size_dom. apply subseteq_size. intros s [w Hs]%elem_of_dom.
  destruct (Hw _ _ Hs) as (_ & w0 & H0 & _). apply elem_of_dom. by exists w0.
Qed.

Lemma oldest_in l entry : oldest l = Some entry → entry ∈ l.
Proof.
  revert entry. induction l as [|e l IH]; intros entry; cbn; [done|].
  destruct (oldest l) as [best|]; [destruct (_ <=? _)%N|]; intros [= <-]; apply elem_of_cons; auto.
Qed.

(** The eviction makes room *)
Lemma evict_smaller r : windows r ≠ ∅ → size (windows (evict_oldest r)) < size (windows r).
Proof.
  intros Hne. unfold evict_oldest. destruct (oldest (map_to_list (windows r))) as [[name w]|] eqn:Ho.
  - rewrite windows_attempts. apply oldest_in, elem_of_map_to_list in Ho. cbn. rewrite map_size_delete_Some by (by exists w).
    pose proof (map_size_ne_0_lookup_2 (windows r) name (ex_intro _ w Ho)). lia.
  - destruct (map_to_list (windows r)) as [|e l] eqn:El; [by apply map_to_list_empty_iff in El|]. cbn in Ho.
    destruct (oldest l); [by destruct (_ <=? _)%N|done].
Qed.

Lemma size_insert_le s w (ws : gmap string Window.t) : size (<[s := w]> ws) ≤ S (size ws).
Proof. rewrite map_size_insert. destruct (ws !! s); cbn; lia. Qed.

Lemma small_connected id now r r' : connected id now r = Some r' → size (windows r) ≤ MAX_HOSTS → size (windows r') ≤ MAX_HOSTS.
Proof.
  intros Hc Hs. assert (Hs1 := small_keeps _ _ _ (keeps_expire now r)). revert Hc. unfold connected.
  set (r1 := (expire now r).2) in *. destruct (pending r1 !! id) as [p|]; [|done]. cbn -[Nat.leb filter MAX_HOSTS size].
  assert (size (windows r1) ≤ MAX_HOSTS) by lia.
  destruct (_ || _); [by intros [= <-]|]. destruct (decide _); [by intros [= <-]|].
  match goal with |- context [set_windows _ ?r2] => set (r2' := r2) end.
  destruct (pending r2' !! id) as [p2|]; [|done]. cbn -[Nat.leb filter MAX_HOSTS size]. intros [= <-]. cbn -[MAX_HOSTS size filter].
  destruct (bool_decide (windows r1 !! Pending.scope p = None)) eqn:Hnone; cbn -[MAX_HOSTS size filter] in r2'.
  - destruct (Nat.leb_spec MAX_HOSTS (size (windows r1))) as [Hfull|Hroom].
    + assert (size (windows r2') < size (windows r1)) as Hlt.
      { apply evict_smaller. intros E0. rewrite E0, map_size_empty in Hfull. unfold MAX_HOSTS in Hfull. lia. }
      eapply Nat.le_trans; [apply size_insert_le|lia].
    + eapply Nat.le_trans; [apply size_insert_le|subst r2'; lia].
  - apply bool_decide_eq_false in Hnone. subst r2'. rewrite map_size_insert_Some; [done|]. by destruct (windows r1 !! Pending.scope p); [eexists|].
Qed.

Lemma runs_small h r : runs (E := E) (T := T) unavailable h r → size (windows r) ≤ MAX_HOSTS.
Proof.
  induction 1 as [|h r e r' Hr IH He]; [apply (Nat.le_0_l MAX_HOSTS)|]. pose proof (step_keeps unavailable r e r' He) as Hk.
  destruct e; try (apply small_keeps in Hk; by lia); cbn in He.
  - unfold begin in He. destruct (decide _); [done|]. injection He as <-. cbn.
    pose proof (small_keeps _ _ _ (keeps_expire now r)). lia.
  - by eapply small_connected.
  - destruct (discard_cached id r) as [[b r1]|] eqn:Hb; [|done]. injection He as <-.
    destruct (discard_keeps (E := E) (T := T) _ _ _ _ Hb) as (r2 & H2%small_keeps & [->|[scope ->]]); cbn; lia.
Qed.

Lemma next_attempts m acc l : next (foldl (revoke_attempt m) acc l).2 = next acc.2.
Proof. apply (fold_keeps (λ acc, next acc.2 = next _)); [done|]. intros [b r] [id p] H. cbn in *. by destruct (m p). Qed.

Lemma next_expire now r : next (expire now r).2 = next r.
Proof.
  unfold expire. rewrite next_attempts.
  apply (fold_keeps (λ acc : bool * Approvals.t, next acc.2 = next _)); [done|]. intros [b r'] [id w] H. unfold expire_window. cbn in *.
  destruct (decide _); [done|]. by destruct (_ <=? _)%N.
Qed.

Lemma step_returns r (e : event E T) :
  (∀ id, attempt_of e = Some id → live id r) → (next r < u64_MAX)%N → is_Some (step unavailable r e).
Proof.
  intros Hl Hn.
  assert (Hs : ∀ A (m : option A) P, m ⇓ P → is_Some m). { intros A m P (a & -> & _)%Safe_elim. by exists a. }
  destruct e; cbn [step attempt_of] in *; rewrite ?fmap_is_Some; try (by eexists); try specialize (Hl _ eq_refl).
  - unfold begin. destruct (decide _); [|by eexists].
    rewrite next_expire in *. lia.
  - by eapply Hs, live_read_begin.
  - by eapply Hs, live_read_end.
  - by eapply Hs, live_connected.
  - destruct Hl as [p Hp]. unfold cancel. rewrite Hp. cbn. destruct (Pending.committed p); [by eexists|].
    destruct (foldl _ _ _). by eexists.
  - destruct Hl as [p Hp]. unfold discard_cached. rewrite Hp. cbn. destruct (negb _); [by eexists|].
    destruct (foldl _ _ _). by eexists.
  - by eapply Hs, live_revoke_own.
  - destruct Hl as [p Hp]. unfold drop_attempt. rewrite Hp. by eexists.
Qed.
End bounded.

Lemma asked_already s calls : Shared.requested s = true → FreshInteractive ∉ Shared.decisions s calls.
Proof.
  revert s. induction calls as [|[[] inherited|[]] calls IH]; intros s Hs; cbn; [by apply not_elem_of_nil|..]; try by apply IH.
  unfold Shared.decision. rewrite Hs. cbn. destruct (Shared.authorized s); apply not_elem_of_cons; (split; [done|]); by apply IH.
Qed.

(** A wake asks the user at most once: among all the decisions the hosts of a wake get on
    its shared context, in whatever order they ask and succeed, at most one allows a dialog,
    and none that follows it does. *)
Theorem wake_asks_once s calls before after :
  Shared.decisions s calls = before ++ FreshInteractive :: after → FreshInteractive ∉ before ∧ FreshInteractive ∉ after.
Proof.
  revert s before. induction calls as [|[[] inherited|[]] calls IH]; intros s before; cbn;
    [intros []%app_cons_not_nil| |by apply IH..].
  unfold Shared.decision. destruct (Shared.authorized s); [|destruct (Shared.requested s) eqn:Hr]; cbn;
    destruct before as [|d before]; cbn; intros Ed; simplify_eq/=; try done.
  1,2: match goal with H : Shared.decisions _ _ = _ |- _ => destruct (IH _ _ H) as [H1 H2] end; (split; [apply not_elem_of_cons; split; [congruence|done]|done]).
  - split; [by apply not_elem_of_nil|]. by apply asked_already.
  - exfalso. match goal with H : Shared.decisions ?s _ = _ |- _ => apply (asked_already s calls eq_refl); rewrite H end.
    apply elem_of_app. right. by left.
Qed.

(** * What was granted, and when *)

(** C27. Permission is never more than was granted.  Whatever the threads of the daemon did, in
    any order: a scope is reusable only until a day after an attempt connected with it, at a
    time when the scope had no window; and neither a revocation that matches the scope, nor a
    confirmation of the host, nor a denied read has taken the permission back since.  That
    attempt had read a credential anew, or its own permission, granted before and not taken
    back since either, had outlived its window ([granted]).  A read is to reuse an approval
    only for an attempt whose scope has such permission, and with a context of the system that
    is valid; and once what is past was expired at some time, that permission reaches beyond
    that time, unless the attempt connected itself and no window of the scope holds its context
    any more, another attempt's having taken its place ([outlives], which does happen:
    [approval_outlives_window]). *)
Theorem permission_granted {E T} (unavailable : E) (h : list (Approvals.t * event E T)) r :
  runs unavailable h r →
  (∀ scope now, reusable scope now r = true → ∃ until, granted h scope until ∧ (now < until)%N) ∧
  (∀ id selector interactive (created : E + ()) connection_valid selected r',
     read_begin id selector interactive created connection_valid unavailable r = Some (inr (selected, RetainedApproval), r') →
     ∃ scope until, scope_of r id = Some scope ∧ granted h scope until ∧ is_valid r (SelectedContext.context selected) = true) ∧
  ∀ now id selector interactive (created : E + ()) connection_valid selected r',
     let r1 := (expire now r).2 in
     read_begin id selector interactive created connection_valid unavailable r1 = Some (inr (selected, RetainedApproval), r') →
     (∃ scope until, scope_of r1 id = Some scope ∧ granted h scope until ∧ (now < until)%N) ∨
     outlives r1 id (SelectedContext.context selected).
Proof.
  intros [Gw Gp]%runs_granted. split_and!.
  - intros scope now. unfold reusable. destruct (windows r !! scope) as [w|] eqn:Hw; [|done].
    intros [Hn%N.ltb_lt _]%andb_true_iff. exists (Window.expires w). split; [by apply Gw|done].
  - intros id selector interactive created connection_valid selected r' (p & Hp & V & Hin & Hv)%retained_read.
    destruct (Gp _ _ Hp V) as [_ [until Hg]]; [set_solver|]. exists (Pending.scope p), until. unfold scope_of. by rewrite Hp.
  - cbv zeta. intros now id selector interactive created connection_valid selected r' (p & Hp & V & Hin & Hv)%retained_read.
    destruct (keeps_pending _ _ _ (keeps_expire now r) _ _ Hp) as (p0 & Hp0 & HS & _ & HE & HV). destruct (HV V) as [V0 _].
    destruct (Gp _ _ Hp0 V0) as [Ge _]. unfold scope_of. rewrite Hp. cbn [fmap option_fmap option_map].
    destruct (Pending.expires p) as [e|] eqn:He.
    { left. exists (Pending.scope p), e. split_and!; [done|by rewrite HS; apply Ge|by apply (expired_attempts now r id p)]. }
    destruct (windows (expire now r).2 !! Pending.scope p) as [w|] eqn:Hw; [|by right; exists p; rewrite Hw].
    destruct (decide (SelectedContext.context selected ∈ addresses (Window.contexts w))) as [Ha|Ha]; [|by right; exists p; rewrite Hw].
    left. destruct (expired_windows _ _ _ _ Hw) as (w0 & Hw0 & Ew0 & Hlt). exists (Pending.scope p), (Window.expires w0).
    split_and!; [done|by apply Gw|done].
Qed.

(** C37. The registry of permissions is bounded and its operations return: there are never more
    than 128 windows, and an operation on an attempt that was not dropped does not panic (a
    new attempt needs one of the 2^64 - 1 identifiers to be left). *)
Theorem approvals_bounded {E T} (unavailable : E) (h : list (Approvals.t * event E T)) r (e : event E T) :
  runs unavailable h r →
  (∀ id, attempt_of e = Some id → is_Some (pending r !! id)) → (next r < u64_MAX)%N →
  size (windows r) ≤ 128 ∧ ∃ r', step unavailable r e = Some r' ∧ size (windows r') ≤ 128.
Proof.
  intros Hr Hl Hn. split; [by apply (runs_small unavailable h)|].
  destruct (step_returns unavailable r e Hl Hn) as [r' He]. exists r'. split; [done|].
  by apply (runs_small unavailable ((r, e) :: h)), (Event _ _ r e).
Qed.

(** * An approval that outlives its window *)

(** The events of a history, from the first *)
Fixpoint replay {E T} (unavailable : E) (h : list (Approvals.t * event E T)) r (events : list (event E T)) :
    option (list (Approvals.t * event E T) * Approvals.t) :=
  match events with
  | [] => Some (h, r)
  | e :: events => r' ← step unavailable r e; replay unavailable ((r, e) :: h) r' events
  end.

Lemma replay_runs {E T} (unavailable : E) h r (events : list (event E T)) h' r' :
  runs unavailable h r → replay unavailable h r events = Some (h', r') → runs unavailable h' r'.
Proof.
  revert h r. induction events as [|e events IH]; intros h r Hr; cbn; [by intros [= <- <-]|].
  destruct (step unavailable r e) as [r1|] eqn:He; [|done]. cbn. apply IH. by eapply Event.
Qed.

(** Two attempts on one host read the same credential and both connect; a day passes, and the
    first reads again and connects *)
Definition reads id (a : N) : list (event () ()) :=
  [BeginRead id "key" true (inr ()) true; EndRead id "key" (SelectedContext.Mk a false) true (inr (Some ()))].
Definition two_attempts : list (event () ()) :=
  [Begin "host" 0; Begin "host" 0] ++ reads 0 0 ++ reads 1 1 ++ [Connected 0 0; Connected 1 0; Expire WINDOW].

(** An approval can outlive its window: the day has passed and the window is gone, and an
    attempt that began before it still reads with the approval, without asking; its next
    success opens a window for another day. *)
Theorem approval_outlives_window :
  match replay () [] Approvals.default two_attempts with
  | Some (_, r) =>
      reusable "host" WINDOW r = false ∧
      match read_begin 0 "key" false (inl ()) true () r with
      | Some (inr (selected, decision), r) =>
          decision = RetainedApproval ∧
          match replay () [] r [EndRead 0 "key" selected true (inr (Some ())); Connected 0 WINDOW] with
          | Some (_, r) => reusable "host" (2 * WINDOW - 1) r = true
          | None => False
          end
      | _ => False
      end
  | None => False
  end.
Proof. vm_compute. by repeat split. Qed.

(** A host that was reached an hour ago *)
Definition reached : list (event () ()) := Begin "host" 0 :: reads 0 0 ++ [Connected 0 0; Drop 0; Begin "host" 3600000].

Lemma permission_granted_witness :
  match replay () [] Approvals.default reached with
  | Some (h, r) => runs () h r ∧ ∃ until, granted h "host" until ∧ (3600000 < until)%N
  | None => False
  end.
Proof.
  destruct (replay () [] Approvals.default reached) as [[h r]|] eqn:Hr; [|by vm_compute in Hr].
  assert (Hruns : runs () h r) by (exact (replay_runs _ _ _ _ _ _ (Nothing _) Hr)). split; [exact Hruns|].
  apply (permission_granted () h r Hruns). apply (f_equal (fmap snd)) in Hr. cbn [fmap option_fmap option_map snd] in Hr. revert Hr. vm_compute. by intros [= <-].
Defined.

Lemma approvals_bounded_witness :
  match replay () [] Approvals.default reached with
  | Some (_, r) => size (windows r) ≤ 128 ∧ ∃ r', step (T := ()) () r (EndRead 1 "key" (SelectedContext.Mk 0 true) true (inl ())) = Some r' ∧
      size (windows r') ≤ 128
  | None => False
  end.
Proof.
  assert (match replay () [] Approvals.default reached with
    | Some (_, r) => bool_decide (is_Some (pending r !! 1%N)) && (next r <? u64_MAX)%N
    | None => false
    end = true) as Hlive by (vm_compute; reflexivity).
  destruct (replay () [] Approvals.default reached) as [[h r]|] eqn:Hr; [|done].
  apply andb_true_iff in Hlive as [Hp%bool_decide_eq_true Hn%N.ltb_lt].
  apply (approvals_bounded () h); [exact (replay_runs _ _ _ _ _ _ (Nothing _) Hr)|by intros id [= <-]|exact Hn].
Defined.

Lemma wake_asks_once_witness : FreshInteractive ∉ [] ∧ FreshInteractive ∉ [FreshQuiet; RetainedApproval].
Proof.
  apply (wake_asks_once Shared.new [Shared.Decide true FreshQuiet; Shared.Decide true FreshQuiet; Shared.Succeed true; Shared.Decide true FreshQuiet]).
  reflexivity.
Defined.
