(* ===== verification/Drags.v ===== *)
(** Dragging a divider in the terminal user interface (apps/tui/src/divider.rs): finding the
    divider under the pointer from the rectangles the daemon published, and a gesture that
    has one command in flight at a time and knows what the daemon must answer.

    [u16] values are [N] up to [u16_MAX].  [None] is the [None] of the code, but for
    [acknowledge], whose result is the pair of the code's [Result] and the new state. *)

From S2P Require Import Prelude.
From S2P Require Import Layout.
From S2P Require Import Topology.
From S2P Require Import LayoutInv.
From S2P Require Import Dividers.
From S2P Require Import Sessions.
From S2P Require Import Messages.
From S2P Require Import SessionsWp.
From S2P Require Import SessionsInv.
From S2P Require Import SessionsControl.
From S2P Require Import SessionsRun.
From S2P Require Import SessionTheorems.
From stdpp Require Import strings gmap.

(** [checked_add] of [u16]s *)
Definition checked16 (a b : N) : option N := if decide (a + b ≤ u16_MAX)%N then Some (a + b)%N else None.
Definition saturating16 (a b : N) : N := (a + b) `min` u16_MAX.
(** [u16::try_from] *)
Definition try_u16 (n : nat) : option N := if decide (N.of_nat n ≤ u16_MAX)%N then Some (N.of_nat n) else None.

Module Divider.
Record t := Mk { split_path : list N; boundary : N; axis : SplitAxis; position : N }.
End Divider.

(** [Bounds] of the code; exclusive on the right and at the bottom *)
Module Rect.
Record t := Mk { left : N; top : N; right : N; bottom : N }.
#[global] Instance eq_dec : EqDecision t.
Proof. solve_decision. Defined.

Definition pane (p : PaneGeometry.t) : option t :=
  right ← checked16 (PaneGeometry.left p) (PaneGeometry.columns p);
  bottom ← checked16 (PaneGeometry.top p) (PaneGeometry.rows p);
  Some (Mk (PaneGeometry.left p) (PaneGeometry.top p) right bottom).

Definition join (a b : t) : t :=
  Mk (left a `min` left b) (top a `min` top b) (right a `max` right b) (bottom a `max` bottom b).

Fixpoint layout (panes : list PaneGeometry.t) (l : ViewLayout) : option t :=
  match l with
  | Terminal terminal_id =>
      p ← find (λ p, bool_decide (PaneGeometry.terminal_id p = terminal_id)) panes;
      pane p
  | Split _ children _ =>
      match layout panes <$> children with
      | [] => None
      | first :: rest => foldl (λ bounds child, b ← bounds; c ← child; Some (join b c)) first rest
      end
  end.

Definition contains (point : N * N) (r : t) : bool :=
  bool_decide (left r ≤ point.1 < right r)%N && bool_decide (top r ≤ point.2 < bottom r)%N.
End Rect.

(** The first boundary of [find]'s loop whose gap holds the point *)
Fixpoint find_boundary (axis : SplitAxis) (point : N * N) (path : list N) (bounds : list Rect.t) (boundary : nat) :
    option (option Divider.t) :=
  match bounds with
  | a :: (b :: _) as rest =>
      let '(position, following, pointer) :=
        match axis with
        | Horizontal => (Rect.right a, Rect.left b, point.1)
        | Vertical => (Rect.bottom a, Rect.top b, point.2)
        end in
      if bool_decide (checked16 position 1 = Some following) && bool_decide (pointer = position)
      then Some ((λ boundary, Divider.Mk path boundary axis position) <$> try_u16 boundary)
      else find_boundary axis point path rest (S boundary)
  | _ => None
  end.

(** [Divider::find]; [find_child] is its loop over the children *)
Fixpoint find_child (fs : list (list N → option Divider.t)) (path : list N) (index : nat) : option Divider.t :=
  match fs with
  | [] => None
  | f :: fs =>
      i ← try_u16 index;
      match f (path ++ [i]) with
      | Some found => Some found
      | None => find_child fs path (S index)
      end
  end.

Fixpoint find_divider (panes : list PaneGeometry.t) (point : N * N) (l : ViewLayout) (path : list N) : option Divider.t :=
  match l with
  | Terminal _ => None
  | Split axis children _ =>
      bounds ← Rect.layout panes l;
      if negb (Rect.contains point bounds) then None else
      child_bounds ← mapM (Rect.layout panes) children;
      match find_boundary axis point path child_bounds 0 with
      | Some found => found
      | None => find_child (find_divider panes point <$> children) path 0
      end
  end.

Definition hit (view : ViewInfo.t) (point : N * N) : option Divider.t :=
  if bool_decide (is_Some (ViewInfo.zoomed_terminal_id view)) ||
     existsb (λ p, match Rect.pane p with Some bounds => Rect.contains point bounds | None => false end) (ViewInfo.panes view)
  then None
  else find_divider (ViewInfo.panes view) point (ViewInfo.layout view) [].

(** * The gesture *)

Module PendingDrag.
Record t := Mk { request_id : string; predicted : option ViewInfo.t }.
End PendingDrag.

Module Drag.
Record t := Mk {
  owner : string; divider : Divider.t; confirmed : ViewInfo.t; previous : option ViewInfo.t; offset : N * N;
  desired : N; last_sent : N; released : bool; pending : option PendingDrag.t }.

Definition new (view : ViewInfo.t) (divider : Divider.t) (offset : N * N) (owner : string) : t :=
  Mk owner divider view None offset (Divider.position divider) (Divider.position divider) false None.

Definition move_to (point : N * N) (release : bool) (d : t) : t :=
  if released d then d else
  let desired := match Divider.axis (divider d) with
                 | Horizontal => saturating16 point.1 (offset d).1
                 | Vertical => saturating16 point.2 (offset d).2
                 end in
  Mk (owner d) (divider d) (confirmed d) (previous d) (offset d) desired (last_sent d) release (pending d).

Definition predict (request : DividerResize.t) (d : t) : option ViewInfo.t :=
  let view := confirmed d in
  match Layout.resize_divider (DividerResize.split_path request) (DividerResize.boundary request)
          (DividerResize.position request) (ViewInfo.canvas_size view) (ViewInfo.layout view) with
  | Ok (layout, changed) =>
      if changed then
        match succ64 (ViewInfo.revision view), Layout.pane_geometry layout (ViewInfo.canvas_size view) with
        | Some revision, Ok panes =>
            Some (ViewInfo.Mk (ViewInfo.session_name view) (ViewInfo.view_id view) (ViewInfo.session_id view) revision
                    (ViewInfo.canvas_size view) panes None layout (ViewInfo.terminals view))
        | _, _ => None
        end
      else Some view
  | _ => None
  end.

Definition next (request_id : string) (d : t) : option DividerResize.t * t :=
  match pending d with
  | Some _ => (None, d)
  | None =>
      if decide (desired d = last_sent d) then (None, d) else
      let request := DividerResize.Mk (ViewInfo.view_id (confirmed d)) (ViewInfo.revision (confirmed d))
                       (Divider.split_path (divider d)) (Divider.boundary (divider d)) (desired d) in
      (Some request,
       Mk (owner d) (divider d) (confirmed d) (previous d) (offset d) (desired d) (desired d) (released d)
         (Some (PendingDrag.Mk request_id (predict request d))))
  end.
End Drag.

Definition same_geometry (first second : ViewInfo.t) : Prop :=
  ViewInfo.view_id first = ViewInfo.view_id second ∧ ViewInfo.session_id first = ViewInfo.session_id second ∧
  ViewInfo.revision first = ViewInfo.revision second ∧ ViewInfo.canvas_size first = ViewInfo.canvas_size second ∧
  ViewInfo.zoomed_terminal_id first = ViewInfo.zoomed_terminal_id second ∧
  ViewInfo.layout first = ViewInfo.layout second ∧ ViewInfo.panes first = ViewInfo.panes second.

#[global] Instance ViewLayout_eq_dec : EqDecision ViewLayout.
Proof.
  refine (fix go (l k : ViewLayout) : Decision (l = k) :=
    match l, k with
    | Terminal a, Terminal b => cast_if (decide (a = b))
    | Split a cs ws, Split a' cs' ws' =>
        cast_if_and3 (decide (a = a')) (@list_eq_dec _ go cs cs') (decide (ws = ws'))
    | _, _ => right _
    end); congruence.
Defined.
#[global] Instance same_geometry_dec first second : Decision (same_geometry first second).
Proof. unfold same_geometry. apply _. Defined.

Definition accepts_view (view : ViewInfo.t) (d : Drag.t) : bool :=
  bool_decide (same_geometry (Drag.confirmed d) view) ||
  match Drag.previous d with Some previous => bool_decide (same_geometry previous view) | None => false end ||
  match Drag.pending d with
  | Some p => match PendingDrag.predicted p with
              | Some predicted => bool_decide (same_geometry predicted view)
              | None => false
              end
  | None => false
  end.

Definition acknowledge (request_id : string) (outcome : PaneResizeOutcome) (d : Drag.t) : (string + bool) * Drag.t :=
  match Drag.pending d with
  | Some p =>
      if decide (PendingDrag.request_id p = request_id) then
        let d := Drag.Mk (Drag.owner d) (Drag.divider d) (Drag.confirmed d) (Drag.previous d) (Drag.offset d)
                   (Drag.desired d) (Drag.last_sent d) (Drag.released d) None in
        match outcome with
        | ResizeApplied view =>
            if match PendingDrag.predicted p with
               | Some predicted => bool_decide (same_geometry predicted view)
               | None => false
               end
            then (inr true,
                  Drag.Mk (Drag.owner d) (Drag.divider d) view (Some (Drag.confirmed d)) (Drag.offset d)
                    (Drag.desired d) (Drag.last_sent d) (Drag.released d) None)
            else (inl "View changed during divider drag"%string, d)
        | ResizeRejected _ message => (inl message, d)
        end
      else (inr false, d)
  | None => (inr false, d)
  end.

Definition finished (d : Drag.t) : bool :=
  Drag.released d && bool_decide (Drag.pending d = None) && bool_decide (Drag.desired d = Drag.last_sent d).

(** * Where the rectangles are *)

Import Layout(LayoutBounds, Bounds, bleft, btop, bcolumns, brows).

Definition place_in (bounds : LayoutBounds) (l : ViewLayout) : res (list PaneGeometry.t) :=
  Layout.place l (bleft bounds) (btop bounds) (bcolumns bounds) (brows bounds).
Definition rect_of (bounds : LayoutBounds) : Rect.t :=
  Rect.Mk (bleft bounds) (btop bounds) (bleft bounds + bcolumns bounds) (btop bounds + brows bounds).

(** The panes are found by their terminals. *)
Definition found_in (panes ps : list PaneGeometry.t) : Prop :=
  ∀ p, p ∈ ps → find (λ q, bool_decide (PaneGeometry.terminal_id q = PaneGeometry.terminal_id p)) panes = Some p.

Lemma found_in_self panes : NoDup (PaneGeometry.terminal_id <$> panes) → found_in panes panes.
Proof.
  unfold found_in. induction panes as [|q panes IH]; [by intros _ p Hp%elem_of_nil|].
  intros [Hq Hdup]%NoDup_cons p [->|Hp]%elem_of_cons; cbn; [by rewrite bool_decide_eq_true_2|].
  rewrite bool_decide_eq_false_2; [by apply IH|]. intros E. apply Hq. rewrite E. by apply list_elem_of_fmap_2.
Qed.

Lemma found_in_mono panes ps qs : found_in panes qs → ps ⊆ qs → found_in panes ps.
Proof. intros Hf Hs p Hp. by apply Hf, Hs. Qed.

Lemma add16_inv a b c : add16 a b = Ok c → c = (a + b)%N.
Proof. unfold add16. case_decide; [|done]. by intros [= <-]. Qed.

Lemma place_children_each horizontal children ext left top columns rows offset panes i c e :
  Layout.place_children horizontal (Layout.place <$> children) ext left top columns rows offset = Ok panes →
  length children = length ext → children !! i = Some c → ext !! i = Some e →
  let before := (offset + sum (take i ext) + N.of_nat i)%N in
  ∃ ps, (if horizontal then Layout.place c (left + before) top e rows
         else Layout.place c left (top + before) columns e) = Ok ps ∧ ps ⊆ panes.
Proof.
  revert ext offset panes i. induction children as [|c0 children IH]; intros [|e0 ext] offset panes i; try done.
  cbn [Layout.place_children fmap list_fmap map length]. change (map Layout.place children) with (Layout.place <$> children).
  intros Hp Hl Hc He. injection Hl as Hl.
  destruct (if horizontal then _ else _) as [ps|e1|] eqn:Eps; [|done..]. cbn [mbind outcome_bind] in Hp.
  destruct (add16 offset e0) as [o1|e1|] eqn:Eo1; [|done..]. apply add16_inv in Eo1. cbn [mbind outcome_bind] in Hp.
  destruct (if decide _ then _ else _) as [o2|e1|] eqn:Eo2; [|done..]. cbn [mbind outcome_bind] in Hp.
  destruct (Layout.place_children _ _ _ _ _ _ _ _) as [rest|e1|] eqn:Erest; [|done..]. injection Hp as <-.
  destruct i as [|i]; cbn in Hc, He.
  - injection Hc as ->. injection He as ->. exists ps. cbn [take sum foldr]. rewrite !N.add_0_r. split; [|set_solver].
    destruct horizontal.
    + destruct (add16 left offset) as [x|e1|] eqn:E; [|done..]. by apply add16_inv in E as ->.
    + destruct (add16 top offset) as [x|e1|] eqn:E; [|done..]. by apply add16_inv in E as ->.
  - rewrite decide_False in Eo2 by (destruct children; done). apply add16_inv in Eo2.
    destruct (IH ext o2 rest i Erest Hl Hc He) as (qs & Hqs & Hsub). exists qs. split; [|set_solver].
    replace (offset + sum (take (S i) (e0 :: ext)) + N.of_nat (S i))%N with (o2 + sum (take i ext) + N.of_nat i)%N; [done|].
    cbn [take]. rewrite sum_cons. subst. lia.
Qed.

(** The children of a split that was placed, each in its part *)
Lemma place_split axis children weights bounds ext panes i c e :
  Layout.split_extents axis children weights (length_along axis (bcolumns bounds) (brows bounds)) = Ok ext →
  length children = length ext → place_in bounds (Split axis children weights) = Ok panes →
  children !! i = Some c → ext !! i = Some e →
  ∃ ps, place_in (child_bounds axis bounds (sum (take i ext) + N.of_nat i) e) c = Ok ps ∧ ps ⊆ panes.
Proof.
  intros E Hl. unfold place_in. cbn [Layout.place]. fold (length_along axis (bcolumns bounds) (brows bounds)). rewrite E.
  cbn [mbind outcome_bind]. intros Hp Hc He. destruct (place_children_each _ _ _ _ _ _ _ _ _ _ _ _ Hp Hl Hc He) as (ps & Hps & Hs).
  exists ps. split; [|done]. by destruct axis.
Qed.

(** What the walk down a layout keeps *)
Record laid_in (panes ps : list PaneGeometry.t) (l : ViewLayout) (bounds : LayoutBounds) : Prop := {
  laid_wf : wf_layout l;
  laid_fits : fits_in (bcolumns bounds) (brows bounds) l;
  laid_16 : within16 bounds;
  laid_placed : place_in bounds l = Ok ps;
  laid_found : found_in panes ps }.

Lemma laid_children panes ps axis children weights bounds :
  laid_in panes ps (Split axis children weights) bounds →
  ∃ ext, Layout.split_extents axis children weights (length_along axis (bcolumns bounds) (brows bounds)) = Ok ext ∧
    fills axis children (length_along axis (bcolumns bounds) (brows bounds)) ext ∧ length children = length ext ∧
    (length_along axis (bcolumns bounds) (brows bounds) ≤ u16_MAX)%N ∧
    ∀ i c e, children !! i = Some c → ext !! i = Some e →
      ∃ qs, qs ⊆ ps ∧ laid_in panes qs c (child_bounds axis bounds (sum (take i ext) + N.of_nat i) e).
Proof.
  intros [Hwf Hfit Hb Hp Hf]. destruct (split_fits _ _ _ _ _ Hwf Hfit) as (ext & E & Hfill & Hlen & Hsub).
  assert (Hl : length children = length ext) by (destruct Hfill; by eapply Forall2_length).
  exists ext. split_and!; [done..|]. intros i c e Hc He.
  destruct (Hsub i c e Hc He) as [Hwfc Hfc].
  destruct (place_split _ _ _ _ _ _ _ _ _ E Hl Hp Hc He) as (qs & Hqs & Hs).
  exists qs. split; [done|]. split; try done; [by destruct axis| |by eapply found_in_mono].
  pose proof (sum_take_fills _ _ _ _ _ _ Hfill He) as Hsum. 
  clear -Hsum Hb. unfold within16, length_along in *. destruct axis; simpl in *; lia.
Qed.

(** The part of the canvas that the first [k] children take *)
Definition prefix_bounds (axis : SplitAxis) (bounds : LayoutBounds) (ext : list N) (k : nat) : LayoutBounds :=
  child_bounds axis bounds 0 (sum (take k ext) + (N.of_nat k - 1)).

Lemma join_next axis bounds ext k e : 0 < k → ext !! k = Some e → (0 < e)%N →
  Rect.join (rect_of (prefix_bounds axis bounds ext k))
            (rect_of (child_bounds axis bounds (sum (take k ext) + N.of_nat k) e)) =
  rect_of (prefix_bounds axis bounds ext (S k)).
Proof.
  intros Hk He Hpos. unfold prefix_bounds, Rect.join. rewrite (take_S_r _ _ _ He), sum_app, sum_cons. cbn [sum foldr].
  destruct axis; unfold rect_of; cbn; f_equal; lia.
Qed.

Lemma layout_children panes (children : list ViewLayout) axis bounds ext k :
  length children = length ext → 0 < k ≤ length ext →
  (∀ i c e, children !! i = Some c → ext !! i = Some e → (0 < e)%N ∧
     Rect.layout panes c = Some (rect_of (child_bounds axis bounds (sum (take i ext) + N.of_nat i) e))) →
  foldl (λ bounds child, b ← bounds; c ← child; Some (Rect.join b c)) (Some (rect_of (prefix_bounds axis bounds ext k)))
    (drop k (Rect.layout panes <$> children)) =
  Some (rect_of (prefix_bounds axis bounds ext (length ext))).
Proof.
  intros Hl. remember (length ext - k) as n eqn:Hn. revert k Hn. induction n as [|n IH]; intros k Hn [Hk Hle] Hall.
  - replace k with (length ext) by lia. rewrite drop_ge; [done|]. rewrite length_fmap. lia.
  - destruct (lookup_lt_is_Some_2 children k) as [c Hc]; [lia|]. destruct (lookup_lt_is_Some_2 ext k) as [e He]; [lia|].
    destruct (Hall k c e Hc He) as [Hpos Hlay].
    rewrite (drop_S (Rect.layout panes <$> children) (Some (rect_of (child_bounds axis bounds (sum (take k ext) + N.of_nat k) e))))
      by (by rewrite list_lookup_fmap, Hc, <- Hlay).
    cbn [foldl mbind option_bind]. rewrite (join_next axis bounds ext k e) by done. apply IH; [lia|lia|done].
Qed.

(** [Bounds::layout] recovers the rectangle a layout was given. *)
Lemma rect_layout panes l ps bounds : laid_in panes ps l bounds → Rect.layout panes l = Some (rect_of bounds).
Proof.
  revert ps bounds. induction l as [id|axis children weights IH] using ViewLayout_ind; intros ps bounds Hlaid.
  - destruct Hlaid as [Hwf Hfit Hb Hp Hf]. injection Hp as <-. specialize (Hf _ (list_elem_of_here _ _)). cbn in *. rewrite Hf. cbn.
    unfold Rect.pane, checked16, within16 in *. cbn. rewrite !decide_True by lia. done.
  - destruct (laid_children _ _ _ _ _ _ Hlaid) as (ext & E & [Hmin Hsum] & Hl & Hlen & Hsub).
    destruct Hlaid as [Hwf Hfit Hb Hp Hf]. apply wf_split_inv in Hwf as (Hne & _ & _ & Hcs).
    assert (Hall : ∀ i c e, children !! i = Some c → ext !! i = Some e → (0 < e)%N ∧
      Rect.layout panes c = Some (rect_of (child_bounds axis bounds (sum (take i ext) + N.of_nat i) e))).
    { intros i c e Hc He. destruct (Hsub i c e Hc He) as (qs & _ & Hq). split.
      - pose proof (minimum_at_least c (laid_wf _ _ _ _ Hq)) as Hmc. pose proof (Forall2_lookup_lr _ _ _ _ _ _ Hmin Hc He) as Hme. cbn beta in Hme.
        unfold min_along in Hme. destruct axis; cbn in Hme; lia.
      - rewrite Forall_forall in IH. eapply IH; [by eapply list_elem_of_lookup_2|exact Hq]. }
    pose proof (layout_children panes children axis bounds ext 1 Hl ltac:(lia) Hall) as Hfold.
    destruct children as [|c children]; [by cbn in Hne|]. destruct ext as [|e ext]; [done|].
    destruct (Hall 0 c e eq_refl eq_refl) as [_ Hc]. cbn [Rect.layout fmap list_fmap map]. cbn [drop fmap list_fmap map] in Hfold.
    assert (E1 : rect_of (prefix_bounds axis bounds (e :: ext) 1) = rect_of (child_bounds axis bounds (sum (take 0 (e :: ext)) + N.of_nat 0) e)).
    { unfold prefix_bounds. destruct axis; unfold rect_of; cbn; f_equal; rewrite ?take_0; cbn; lia. }
    rewrite E1, <- Hc, drop_0 in Hfold. change (map (Rect.layout panes) children) with (Rect.layout panes <$> children). rewrite Hfold. f_equal. unfold prefix_bounds. rewrite firstn_all. cbn [length] in *.
    clear -Hsum Hl. unfold length_along in Hsum. destruct axis, bounds; unfold rect_of; simpl in *; f_equal; lia.
Qed.

(** * What the pointer hits *)

(** The axis of the split a path leads to *)
Fixpoint split_axis (path : list N) (l : ViewLayout) : option SplitAxis :=
  match l, path with
  | Split _ children _, index :: path => child ← children !! N.to_nat index; split_axis path child
  | Split axis _ _, [] => Some axis
  | Terminal _, _ => None
  end.

(** The divider a command for [d] would move is where [d] says, under the pointer. *)
Definition under (point : N * N) (l : ViewLayout) (bounds : LayoutBounds) (path : list N) (d : Divider.t) : Prop :=
  ∃ dv, divider_at path (N.to_nat (Divider.boundary d)) (bleft bounds, btop bounds) (bcolumns bounds) (brows bounds) l = Some dv ∧
    split_axis path l = Some (Divider.axis d) ∧ cell dv = Z.of_N (Divider.position d) ∧
    Divider.position d = along (Divider.axis d) point.

(** The cell of the gap behind child [b] *)
Definition gap (axis : SplitAxis) (bounds : LayoutBounds) (ext : list N) (b : nat) : N :=
  (along axis (bleft bounds, btop bounds) + sum (take (S b) ext) + N.of_nat b)%N.

Section boundaries.
Context (axis : SplitAxis) (point : N * N) (path : list N) (bounds : LayoutBounds) (ext : list N) (rects : list Rect.t).
Context (Hlen : length rects = length ext) (Hcount : (N.of_nat (length ext) ≤ u16_MAX)%N) (Hb : within16 bounds).
Context (Hsum : (sum ext + (N.of_nat (length ext) - 1) = length_along axis (bcolumns bounds) (brows bounds))%N).
Context (Hrects : ∀ i e, ext !! i = Some e →
  rects !! i = Some (rect_of (child_bounds axis bounds (sum (take i ext) + N.of_nat i) e))).

Lemma gap_inside b : S b < length ext → (gap axis bounds ext b < along axis (bleft bounds, btop bounds) +
  length_along axis (bcolumns bounds) (brows bounds) ≤ u16_MAX)%N.
Proof.
  intros Hlt. destruct (lookup_lt_is_Some_2 ext (S b) Hlt) as [e He]. rewrite <- Hsum. unfold gap.
  assert (Hs : (sum ext = sum (take (S b) ext) + sum (drop (S b) ext))%N) by by rewrite <- sum_app, take_drop. split; [lia|].
  rewrite Hsum. unfold within16, length_along in *. destruct axis; simpl in *; lia.
Qed.

Lemma find_boundary_step k : S k < length ext →
  find_boundary axis point path (drop k rects) k =
  if bool_decide (along axis point = gap axis bounds ext k)
  then Some (Some (Divider.Mk path (N.of_nat k) axis (gap axis bounds ext k)))
  else find_boundary axis point path (drop (S k) rects) (S k).
Proof.
  intros Hlt. destruct (lookup_lt_is_Some_2 ext k) as [e He]; [lia|]. destruct (lookup_lt_is_Some_2 ext (S k)) as [e' He']; [lia|].
  rewrite (drop_S _ _ _ (Hrects k e He)), (drop_S _ _ _ (Hrects (S k) e' He')). cbn [find_boundary].
  assert (Hgap := gap_inside k Hlt). unfold gap in *. rewrite (take_S_r _ _ _ He), sum_app, sum_cons in *. cbn [sum foldr] in *.
  unfold try_u16. rewrite decide_True by lia.
  assert (Hpos : (if axis is Horizontal then Rect.right (rect_of (child_bounds axis bounds (sum (take k ext) + N.of_nat k) e))
                  else Rect.bottom (rect_of (child_bounds axis bounds (sum (take k ext) + N.of_nat k) e))) =
                 (along axis (bleft bounds, btop bounds) + (sum (take k ext) + (e + 0)) + N.of_nat k)%N).
  { destruct axis; cbn; lia. }
  assert (Hnext : (if axis is Horizontal then Rect.left (rect_of (child_bounds axis bounds (sum (take k ext) + (e + 0) + N.of_nat (S k)) e'))
                  else Rect.top (rect_of (child_bounds axis bounds (sum (take k ext) + (e + 0) + N.of_nat (S k)) e'))) =
                 (along axis (bleft bounds, btop bounds) + (sum (take k ext) + (e + 0)) + N.of_nat k + 1)%N).
  { destruct axis; cbn; lia. }
  clear Hrects Hsum. destruct axis; rewrite Hpos, Hnext; unfold checked16; rewrite decide_True by lia;
    rewrite (bool_decide_eq_true_2 (Some _ = _)) by done; cbn [andb along fmap option_fmap option_map]; done.
Qed.

Lemma find_boundary_spec k : k ≤ length ext →
  (∃ b, S b < length ext ∧ along axis point = gap axis bounds ext b ∧
     find_boundary axis point path (drop k rects) k = Some (Some (Divider.Mk path (N.of_nat b) axis (gap axis bounds ext b)))) ∨
  (find_boundary axis point path (drop k rects) k = None ∧
   ∀ b, k ≤ b → S b < length ext → along axis point ≠ gap axis bounds ext b).
Proof.
  remember (length ext - k) as n eqn:Hn. revert k Hn. induction n as [n IH] using lt_wf_ind; intros k Hn Hk.
  destruct (decide (S k < length ext)) as [Hlt|Hge].
  - rewrite find_boundary_step by done. case_bool_decide as Hat; [left; by exists k|].
    destruct (IH (length ext - S k) ltac:(lia) (S k) eq_refl ltac:(lia)) as [?|[Hnone Hall]]; [by left|]. right. split; [done|].
    intros b Hkb Hb'. destruct (decide (b = k)) as [->|]; [done|]. apply Hall; lia.
  - right. split; [|intros; lia]. destruct (drop k rects) as [|a [|b rest]] eqn:E; [done|done|].
    apply (f_equal length) in E. rewrite length_drop in E. cbn in E. lia.
Qed.
End boundaries.

(** The loop over the children finds what the first of them finds. *)
Lemma find_child_Some fs path k d :
  find_child fs path k = Some d → ∃ i f, fs !! i = Some f ∧ f (path ++ [N.of_nat (k + i)]) = Some d.
Proof.
  revert k. induction fs as [|f fs IH]; intros k; [done|]. cbn [find_child]. unfold try_u16. case_decide; [|done].
  cbn [mbind option_bind]. destruct (f _) as [found|] eqn:E.
  - intros [= ->]. exists 0, f. by rewrite Nat.add_0_r.
  - intros (i & g & Hg & Hd)%IH. exists (S i), g. by rewrite Nat.add_succ_r.
Qed.

Lemma find_child_is_Some fs path k i f :
  (N.of_nat (k + length fs) ≤ u16_MAX)%N → fs !! i = Some f → is_Some (f (path ++ [N.of_nat (k + i)])) → is_Some (find_child fs path k).
Proof.
  revert k i. induction fs as [|g fs IH]; intros k i Hk Hf Hs; [done|]. cbn [find_child length] in *. unfold try_u16.
  rewrite decide_True by lia. cbn [mbind option_bind]. destruct (g _) as [found|] eqn:E; [by eexists|].
  destruct i as [|i]; cbn in Hf.
  - injection Hf as ->. rewrite Nat.add_0_r in Hs. rewrite E in Hs. by destruct Hs.
  - apply (IH (S k) i); [lia|done|]. by rewrite Nat.add_succ_l, <- Nat.add_succ_r.
Qed.

(** The rectangles of the children of a split *)
Lemma child_rects panes ps axis children weights bounds :
  laid_in panes ps (Split axis children weights) bounds →
  ∃ ext rects, Layout.split_extents axis children weights (length_along axis (bcolumns bounds) (brows bounds)) = Ok ext ∧
    mapM (Rect.layout panes) children = Some rects ∧ length children = length ext ∧ length rects = length ext ∧
    (N.of_nat (length ext) ≤ u16_MAX)%N ∧
    (sum ext + (N.of_nat (length ext) - 1) = length_along axis (bcolumns bounds) (brows bounds))%N ∧
    (∀ i e, ext !! i = Some e → rects !! i = Some (rect_of (child_bounds axis bounds (sum (take i ext) + N.of_nat i) e))) ∧
    ∀ i c e, children !! i = Some c → ext !! i = Some e →
      ∃ qs, qs ⊆ ps ∧ laid_in panes qs c (child_bounds axis bounds (sum (take i ext) + N.of_nat i) e).
Proof.
  intros Hlaid. destruct (laid_children _ _ _ _ _ _ Hlaid) as (ext & E & [Hmin Hsum] & Hl & Hlen & Hsub).
  pose proof (laid_wf _ _ _ _ Hlaid) as Hwf. apply wf_split_inv in Hwf as (_ & Hn & _ & _).
  set (rects := imap (λ i e, rect_of (child_bounds axis bounds (sum (take i ext) + N.of_nat i) e)) ext).
  exists ext, rects. split; [exact E|].
  assert (Hrl : length rects = length ext) by apply length_imap.
  assert (Hr : ∀ i e, ext !! i = Some e → rects !! i = Some (rect_of (child_bounds axis bounds (sum (take i ext) + N.of_nat i) e))).
  { intros i e He. unfold rects. by rewrite list_lookup_imap, He. }
  split_and!; try done; [|by rewrite <- Hl|by rewrite Hl in Hsum].
  apply mapM_Some_2, Forall2_same_length_lookup_2; [by rewrite Hl|].
  intros i c rect Hc Hrect. destruct (lookup_lt_is_Some_2 ext i) as [e He]; [rewrite <- Hrl; by eapply lookup_lt_Some|].
  rewrite (Hr i e He) in Hrect. injection Hrect as <-. destruct (Hsub i c e Hc He) as (qs & _ & Hq). by eapply rect_layout.
Qed.

Lemma under_child point axis children weights bounds ext index path d c e :
  Layout.split_extents axis children weights (length_along axis (bcolumns bounds) (brows bounds)) = Ok ext →
  children !! index = Some c → ext !! index = Some e →
  under point c (child_bounds axis bounds (sum (take index ext) + N.of_nat index) e) path d →
  under point (Split axis children weights) bounds (N.of_nat index :: path) d.
Proof.
  intros E Hc He (dv & Hdv & Ha & Hcell & Hpos). exists dv.
  assert (Hi : N.to_nat (N.of_nat index) = index) by lia.
  pose proof (divider_at_descend axis children weights ext (N.of_nat index) path (N.to_nat (Divider.boundary d)) bounds c e E) as Hat.
  rewrite Hi in Hat. cbn zeta in Hat. rewrite (Hat Hc He). split; [exact Hdv|]. split; [|done].
  cbn [split_axis]. by rewrite Hi, Hc.
Qed.

(** What is found is under the pointer. *)
Lemma find_sound panes point l ps bounds path d :
  laid_in panes ps l bounds → find_divider panes point l path = Some d →
  ∃ more, Divider.split_path d = path ++ more ∧ under point l bounds more d.
Proof.
  revert ps bounds path. induction l as [id|axis children weights IH] using ViewLayout_ind; intros ps bounds path Hlaid; [done|].
  cbn [find_divider]. rewrite (rect_layout _ _ _ _ Hlaid). cbn [mbind option_bind].
  destruct (Rect.contains point (rect_of bounds)); [|done]. cbn [negb].
  destruct (child_rects _ _ _ _ _ _ Hlaid) as (ext & rects & E & -> & Hl & Hrl & Hn & Hsum & Hr & Hsub). cbn [mbind option_bind].
  destruct (find_boundary_spec axis point path bounds ext rects Hrl Hn (laid_16 _ _ _ _ Hlaid) Hsum Hr 0 ltac:(lia))
    as [(b & Hb & Hpt & Hf)|[Hf _]]; rewrite drop_0 in Hf; rewrite Hf.
  - intros [= <-]. exists []. split; [by rewrite app_nil_r|]. exists (boundary_of axis children (along axis (bleft bounds, btop bounds)) ext b).
    cbn. rewrite E, Nat2N.id, decide_True by lia. split_and!; try done. unfold gap. replace (b + 1) with (S b) by lia. lia.
  - intros (i & f & Hf' & Hd)%find_child_Some. rewrite list_lookup_fmap in Hf'.
    destruct (children !! i) as [c|] eqn:Hc; [|done]. injection Hf' as <-.
    destruct (lookup_lt_is_Some_2 ext i) as [e He]; [rewrite <- Hl; by eapply lookup_lt_Some|].
    destruct (Hsub i c e Hc He) as (qs & _ & Hq). rewrite Forall_forall in IH.
    destruct (IH c ltac:(by eapply list_elem_of_lookup_2) _ _ _ Hq Hd) as (more & Hp & Hu).
    exists (N.of_nat i :: more). split; [by rewrite Hp, <- app_assoc|]. by eapply under_child.
Qed.

(** A cell along the axis of a split is in a gap or in the part of a child. *)
Lemma gap_or_child (ext : list N) (start x : N) :
  (start ≤ x < start + (sum ext + (N.of_nat (length ext) - 1)))%N →
  (∃ b, S b < length ext ∧ x = (start + sum (take (S b) ext) + N.of_nat b)%N) ∨
  ∃ i e, ext !! i = Some e ∧ (start + (sum (take i ext) + N.of_nat i) ≤ x < start + (sum (take i ext) + N.of_nat i) + e)%N.
Proof.
  revert start. induction ext as [|e ext IH]; intros start Hx; [cbn in Hx; lia|]. rewrite sum_cons in Hx. cbn [length] in Hx.
  destruct (decide (x < start + e)%N) as [Hlt|Hge]; [right; exists 0, e; split; [done|]; cbn; lia|].
  destruct (decide (x = start + e)%N) as [->|Hne].
  - left. exists 0. destruct ext; [cbn in Hx; lia|]. split; [cbn; lia|]. cbn. lia.
  - destruct ext as [|e' ext]; [cbn in Hx; lia|].
    destruct (IH (start + e + 1)%N) as [(b & Hb & ->)|(i & e2 & He & Hi)]; [cbn [length] in *; lia|left|right].
    + exists (S b). split; [cbn in *; lia|]. cbn [take]. rewrite !sum_cons. lia.
    + exists (S i), e2. split; [done|]. cbn [take]. rewrite sum_cons. lia.
Qed.

(** Every cell of the part of a layout that is in no pane hits a divider. *)
Lemma find_complete panes point l ps bounds path :
  laid_in panes ps l bounds → Rect.contains point (rect_of bounds) = true →
  (∀ p, p ∈ ps → ∀ rect, Rect.pane p = Some rect → Rect.contains point rect = false) →
  is_Some (find_divider panes point l path).
Proof.
  revert ps bounds path. induction l as [id|axis children weights IH] using ViewLayout_ind; intros ps bounds path Hlaid Hin Hout.
  - exfalso. pose proof (laid_placed _ _ _ _ Hlaid) as Hp. injection Hp as <-.
    pose proof (rect_layout _ _ _ _ Hlaid) as Hr. cbn in Hr.
    pose proof (laid_found _ _ _ _ Hlaid _ (list_elem_of_here _ _)) as Hf. cbn in Hf. rewrite Hf in Hr. cbn in Hr.
    specialize (Hout _ (list_elem_of_here _ _) _ Hr). congruence.
  - cbn [find_divider]. rewrite (rect_layout _ _ _ _ Hlaid). cbn [mbind option_bind]. rewrite Hin. cbn [negb].
    destruct (child_rects _ _ _ _ _ _ Hlaid) as (ext & rects & E & -> & Hl & Hrl & Hn & Hsum & Hr & Hsub). cbn [mbind option_bind].
    destruct (find_boundary_spec axis point path bounds ext rects Hrl Hn (laid_16 _ _ _ _ Hlaid) Hsum Hr 0 ltac:(lia))
      as [(b & Hb & Hpt & Hf)|[Hf Hno]]; rewrite drop_0 in Hf; rewrite Hf; [by eexists|].
    unfold Rect.contains in Hin. rewrite andb_true_iff, !bool_decide_eq_true in Hin. destruct Hin as [Hx Hy]. cbn in Hx, Hy.
    destruct (gap_or_child ext (along axis (bleft bounds, btop bounds)) (along axis point)) as [(b & Hb & Hg)|(i & e & He & Hi)].
    { rewrite Hsum. unfold length_along. destruct axis; simpl; lia. }
    { exfalso. apply (Hno b); [lia|done|]. unfold gap. lia. }
    destruct (lookup_lt_is_Some_2 children i) as [c Hc]; [rewrite Hl; by eapply lookup_lt_Some|].
    destruct (Hsub i c e Hc He) as (qs & Hqs & Hq).
    apply (find_child_is_Some _ _ 0 i (find_divider panes point c)).
    + rewrite length_fmap, Hl. cbn. lia.
    + by rewrite list_lookup_fmap, Hc.
    + rewrite Forall_forall in IH. eapply (IH c ltac:(by eapply list_elem_of_lookup_2)); [exact Hq| |].
      * unfold Rect.contains. rewrite andb_true_iff, !bool_decide_eq_true. destruct axis; cbn in *; lia.
      * intros p Hp. by apply Hout, Hqs.
Qed.

(** Every cell of the canvas is in a pane or on a divider that the pointer takes hold of. *)
Definition in_pane (point : N * N) (p : PaneGeometry.t) : Prop :=
  (PaneGeometry.left p ≤ point.1 < PaneGeometry.left p + PaneGeometry.columns p ∧
   PaneGeometry.top p ≤ point.2 < PaneGeometry.top p + PaneGeometry.rows p)%N.

Lemma pane_contains point p rect : Rect.pane p = Some rect → Rect.contains point rect = true ↔ in_pane point p.
Proof.
  unfold Rect.pane, checked16. repeat case_decide; cbn; try done. intros [= <-].
  unfold Rect.contains, in_pane. by rewrite andb_true_iff, !bool_decide_eq_true.
Qed.

Lemma hit_spec (view : ViewInfo.t) (point : N * N) :
  let size := ViewInfo.canvas_size view in let whole := Bounds 0 0 (TerminalSize.columns size) (TerminalSize.rows size) in
  wf_layout (ViewInfo.layout view) → size16 size → NoDup (LayoutExt.terminal_ids (ViewInfo.layout view)) →
  Layout.pane_geometry (ViewInfo.layout view) size = Ok (ViewInfo.panes view) → ViewInfo.zoomed_terminal_id view = None →
  (point.1 < TerminalSize.columns size)%N → (point.2 < TerminalSize.rows size)%N →
  match hit view point with
  | Some d => Forall (λ p, ¬ in_pane point p) (ViewInfo.panes view) ∧
              under point (ViewInfo.layout view) whole (Divider.split_path d) d
  | None => Exists (in_pane point) (ViewInfo.panes view)
  end.
Proof.
  intros size whole Hwf [Hc Hr] Hdup Hg Hz Hx Hy.
  pose proof (pane_geometry_spec (ViewInfo.layout view) size Hwf Hc Hr) as Hspec.
  destruct (decide (fits size (ViewInfo.layout view))) as [Hfit|]; [|congruence].
  destruct Hspec as (panes & Hp & Hids & Hin & _). assert (panes = ViewInfo.panes view) as -> by congruence. destruct Hfit as [Hf1 Hf2].
  assert (Hlaid : laid_in (ViewInfo.panes view) (ViewInfo.panes view) (ViewInfo.layout view) whole).
  { split; [done|split; cbn; lia|split; cbn; lia| |].
    - unfold Layout.pane_geometry in Hg. rewrite !bool_decide_eq_false_2 in Hg by lia. revert Hg. cbn [orb fail_if mbind outcome_bind]. done.
    - apply found_in_self. by rewrite Hids. }
  assert (Hpane : ∀ p, p ∈ ViewInfo.panes view → ∃ rect, Rect.pane p = Some rect).
  { intros p Hp'. rewrite Forall_forall in Hin. specialize (Hin p Hp'). unfold inside in Hin. unfold Rect.pane, checked16.
    rewrite !decide_True by lia. by eexists. }
  unfold hit. rewrite Hz. rewrite (bool_decide_eq_false_2 (is_Some _)) by (by intros []). cbn [orb].
  destruct (existsb _ _) eqn:Hex.
  { apply existsb_exists in Hex as (p & Hp'%list_elem_of_In & Hc'). destruct (Rect.pane p) as [rect|] eqn:Ep; [|done].
    apply Exists_exists. exists p. split; [done|]. by apply (pane_contains point p rect). }
  assert (Hnone : ∀ p, p ∈ ViewInfo.panes view → ∀ rect, Rect.pane p = Some rect → Rect.contains point rect = false).
  { intros p Hp' rect Ep. apply not_true_iff_false. intros Hc'. apply not_true_iff_false in Hex. apply Hex, existsb_exists.
    exists p. split; [by apply list_elem_of_In|]. by rewrite Ep. }
  destruct (find_divider _ _ _ _) as [d|] eqn:Hd.
  - split.
    + apply Forall_forall. intros p Hp'. destruct (Hpane p Hp') as [rect Ep]. rewrite <- (pane_contains point p rect Ep), (Hnone p Hp' rect Ep). done.
    + destruct (find_sound _ _ _ _ _ _ _ Hlaid Hd) as (more & -> & Hu). exact Hu.
  - exfalso. destruct (find_complete (ViewInfo.panes view) point (ViewInfo.layout view) _ whole [] Hlaid) as [d E]; [|done|congruence].
    unfold Rect.contains. rewrite andb_true_iff, !bool_decide_eq_true. cbn. lia.
Qed.

(** * A drag and the daemon *)

Import SessionRegistry (store, sessions).

Section daemon.
Context {St : Type} `{ScreenLaws St}.
Implicit Types (r : SessionRegistry.t St) (s : Session.t) (d : Drag.t) (info : ViewInfo.t).

(** What the published view says of a session *)
Definition shows s info : Prop :=
  ViewInfo.view_id info = View.id (Session.view s) ∧ ViewInfo.session_id info = Session.id s ∧
  ViewInfo.revision info = View.revision (Session.view s) ∧ ViewInfo.canvas_size info = View.canvas_size (Session.view s) ∧
  ViewInfo.zoomed_terminal_id info = View.zoomed_terminal_id (Session.view s) ∧
  ViewInfo.layout info = View.layout (Session.view s) ∧
  Layout.pane_geometry (View.layout (Session.view s)) (View.canvas_size (Session.view s)) = Ok (ViewInfo.panes info).

Lemma view_info_shows r sid s info : sessions r !! sid = Some s → view_info r sid = Ok info → shows s info.
Proof.
  intros Hs. unfold view_info. rewrite (root_here r sid s Hs). cbn [mbind outcome_bind].
  destruct (Layout.pane_geometry _ _) as [panes|e|] eqn:E; cbn; [|done..]. intros [= <-]. by split_and!.
Qed.

Lemma shows_same s info info' : shows s info → shows s info' → same_geometry info info'.
Proof. unfold shows, same_geometry. intros (-> & -> & -> & -> & -> & -> & Hp) (-> & -> & -> & -> & -> & -> & Hp'). split_and!; congruence. Qed.

Lemma same_geometry_trans a b c : same_geometry a b → same_geometry b c → same_geometry a c.
Proof. unfold same_geometry. intros (-> & -> & -> & -> & -> & -> & ->) (-> & -> & -> & -> & -> & -> & ->). done. Qed.

Lemma shows_view s a b : shows s b → same_geometry a b → shows s a.
Proof. unfold shows, same_geometry. intros (? & ? & ? & ? & ? & ? & ?) (-> & -> & -> & -> & -> & -> & ->). by split_and!. Qed.

(** The view a change answers with is the one it leaves. *)
Lemma resize_layout_reply self att change r info r' :
  is_Some (store r !! self) → resize_layout self att change r = (Ok info, r') →
  ∃ sid, owner_of r self = Ok sid ∧ view_info r' sid = Ok info.
Proof.
  intros Hself. unfold resize_layout, current_view, mbind, action_bind, reading.
  pose proof (controlled_view_total self att r Hself) as Hc.
  destruct (controlled_view self att r) as [[sid s]|e|]; [|done..]. destruct Hc as (_ & _ & _ & Ho).
  destruct (change (Session.view s) r) as [[l ch]|e|]; [|done..]. intros Hrun. exists sid. split; [exact Ho|].
  destruct ch; cbn [negb] in Hrun.
  - destruct (capture_view_geometry sid r) as [[geometry|e|] r1]; [|done..].
    destruct (rearrange sid l None geometry r1) as [[[]|e|] r2]; [|done..].
    destruct (view_info r2 sid) as [i|e|] eqn:E; cbn in Hrun; [|done..]. by injection Hrun as <- <-.
  - destruct (view_info r sid) as [i|e|] eqn:E; cbn in Hrun; [|done..]. by injection Hrun as <- <-.
Qed.

(** The change of a divider, from the view it was asked for *)
Definition divider_change (divider : DividerResize.t) (view : View.t) (_ : SessionRegistry.t St) :
    outcome SessionControlError (ViewLayout * bool) :=
  _ ← fail_if (negb (bool_decide (View.id view = DividerResize.view_id divider)) ||
               negb (bool_decide (View.revision view = DividerResize.expected_revision divider)))
        (ControlInvalidView "view changed; reload before dragging a divider");
  map_err ControlInvalidView
    (Layout.resize_divider (DividerResize.split_path divider) (DividerResize.boundary divider)
       (DividerResize.position divider) (View.canvas_size view) (View.layout view)).

Lemma wp_divider self att divider k r :
  Inv (k + 2) r → is_Some (store r !! self) →
  wp (resize_divider_inner self att divider) r
    (λ _ r', changed_layout k self r (divider_change divider) r') (λ r', undone k r r').
Proof.
  intros HI Hself. apply wp_resize_layout; [done..|]. intros sid s Ho Hs.
  destruct (view_wf _ _ _ _ HI Hs) as (Hwf & H16 & Hnd & Hf).
  unfold divider_change. destruct (_ || _); [done|]. cbn [fail_if mbind outcome_bind].
  eapply Total_mono; [by apply map_err_total, resize_divider_resizes|]. intros [l ch] Hr _. by apply (resizes_replaces s (l, ch)).
Qed.

(** What the drag predicts is what the daemon shows after the change. *)
Lemma predicted_shown s d request l ch info' :
  shows s (Drag.confirmed d) → (View.revision (Session.view s) < u64_MAX)%N →
  Layout.resize_divider (DividerResize.split_path request) (DividerResize.boundary request)
    (DividerResize.position request) (View.canvas_size (Session.view s)) (View.layout (Session.view s)) = Ok (l, ch) →
  shows (if ch then arranged s l None else s) info' →
  ∃ predicted, Drag.predict request d = Some predicted ∧ same_geometry predicted info'.
Proof.
  intros Hshow Hrev Hl Hinfo. pose proof Hshow as (Hid & Hsid & Hr & Hc & Hz & Hlay & Hp). unfold Drag.predict.
  rewrite Hc, Hlay, Hl. destruct ch.
  - destruct Hinfo as (Hid' & Hsid' & Hr' & Hc' & Hz' & Hlay' & Hp'). cbn in Hid', Hsid', Hr', Hc', Hz', Hlay', Hp'.
    unfold succ64. rewrite Hr, decide_True, Hp' by lia. eexists. split; [done|]. unfold same_geometry. cbn. split_and!; congruence.
  - exists (Drag.confirmed d). split; [done|]. by eapply shows_same.
Qed.

Lemma drag_follows k r self att sid s0 d rid request d' info :
  Inv (k + 2) r → is_Some (store r !! self) → owner_of r self = Ok sid → sessions r !! sid = Some s0 → view_info r sid = Ok info →
  same_geometry (Drag.confirmed d) info → Drag.next rid d = (Some request, d') →
  match resize_divider_inner self att request r with
  | (Ok reply, r') =>
      accepts_view reply d' = true ∧ view_info r' sid = Ok reply ∧
      ∃ d2, acknowledge rid (ResizeApplied reply) d' = (inr true, d2) ∧ Drag.confirmed d2 = reply ∧ accepts_view info d2 = true
  | (Err _, r') => ∃ info', view_info r' sid = Ok info' ∧ accepts_view info' d' = true
  | (Panic, _) => False
  end.
Proof.
  intros HI Hself Hsid Hs0 Hinfo Hsame Hnext. pose proof (wp_divider self att request k r HI Hself) as Hw. unfold wp in Hw.
  unfold Drag.next in Hnext. destruct (Drag.pending d) eqn:Hpend; [done|]. case_decide; [done|].
  remember (Drag.predict request d) as predicted eqn:Hpred. injection Hnext as Hreq Hd'. rewrite Hreq, <- Hpred in Hd'.
  destruct (resize_divider_inner self att request r) as [[reply|e|] r'] eqn:Hrun; [|clear Hrun|done].
  - destruct (resize_layout_reply _ _ _ _ _ _ Hself Hrun) as (sid' & Ho & Hreply). assert (sid' = sid) as -> by congruence.
    destruct Hw as (sid' & s & l & ch & Ho' & Hs & Hch & Hcase). assert (sid' = sid) as -> by congruence.
    assert (Hshow : shows s (Drag.confirmed d)) by (eapply shows_view; [by eapply view_info_shows|done]).
    assert (Hs' : sessions r' !! sid = Some (if ch then arranged s l None else s)).
    { destruct Hcase as [[-> Hu]|(-> & _ & -> & _)]; [by rewrite (undone_sessions _ _ _ Hu)|by apply lookup_insert_eq]. }
    destruct (inv_views _ _ HI _ _ Hs) as [_ _ _ Hrev _].
    unfold divider_change in Hch. destruct (_ || _); [done|]. cbn [fail_if mbind outcome_bind] in Hch.
    destruct (Layout.resize_divider _ _ _ _ _) as [[l0 ch0]|e|] eqn:Hl; [|done..]. injection Hch as -> ->.
    destruct (predicted_shown s d request l ch reply Hshow ltac:(lia) Hl) as (p & Hp & Hpr); [by eapply view_info_shows|].
    rewrite Hp in Hpred. subst predicted d'. split; [|split; [exact Hreply|]].
    + unfold accepts_view. cbn. by rewrite (bool_decide_eq_true_2 (same_geometry p reply)), !orb_true_r.
    + unfold acknowledge. cbn. rewrite decide_True, bool_decide_eq_true_2 by done. eexists. split; [done|]. split; [done|].
      unfold accepts_view. cbn. by rewrite (bool_decide_eq_true_2 (same_geometry (Drag.confirmed d) info)), orb_true_r.
  - destruct (view_info_Ok k r' sid s0 (undone_inv _ _ _ Hw)) as (info' & Hi' & _); [by rewrite (undone_sessions _ _ _ Hw)|].
    exists info'. split; [done|]. subst d'. unfold accepts_view. cbn. rewrite bool_decide_eq_true_2; [done|].
    eapply same_geometry_trans; [exact Hsame|]. eapply shows_same; [by eapply view_info_shows|].
    eapply view_info_shows; [|exact Hi']. by rewrite (undone_sessions _ _ _ Hw).
Qed.
End daemon.

(** * The properties *)

(** C33. Every gap between two panes can be grabbed, and nothing else.  On the published
    panes of an unzoomed view, a cell of the canvas is in a pane, and then hits nothing, or
    it hits a divider: the path and the boundary that a command would name lead to a
    divider of the layout, of the axis the drag follows, whose cell by the daemon's own
    reckoning is the position recorded, the pointer's. *)
Theorem every_gap_is_hit (view : ViewInfo.t) (point : N * N)
    (Hwf : wf_layout (ViewInfo.layout view)) (Hsize : size16 (ViewInfo.canvas_size view))
    (Hdup : NoDup (LayoutExt.terminal_ids (ViewInfo.layout view)))
    (Hpanes : Layout.pane_geometry (ViewInfo.layout view) (ViewInfo.canvas_size view) = Ok (ViewInfo.panes view))
    (Hzoom : ViewInfo.zoomed_terminal_id view = None)
    (Hx : (point.1 < TerminalSize.columns (ViewInfo.canvas_size view))%N)
    (Hy : (point.2 < TerminalSize.rows (ViewInfo.canvas_size view))%N) :
  match hit view point with
  | Some d =>
      Forall (λ p, ¬ in_pane point p) (ViewInfo.panes view) ∧
      split_axis (Divider.split_path d) (ViewInfo.layout view) = Some (Divider.axis d) ∧
      Divider.position d = along (Divider.axis d) point ∧
      ∃ dv, divider_at (Divider.split_path d) (N.to_nat (Divider.boundary d)) (0, 0)%N
              (TerminalSize.columns (ViewInfo.canvas_size view)) (TerminalSize.rows (ViewInfo.canvas_size view))
              (ViewInfo.layout view) = Some dv ∧ cell dv = Z.of_N (Divider.position d)
  | None => Exists (in_pane point) (ViewInfo.panes view)
  end.
Proof.
  pose proof (hit_spec view point Hwf Hsize Hdup Hpanes Hzoom Hx Hy) as Hh. destruct (hit view point) as [d|]; [|done].
  destruct Hh as (Hout & dv & Hdv & Ha & Hc & Hp). split_and!; try done. by exists dv.
Qed.

(** C30. A drag and the daemon agree.  In whatever state of the registry that requests have
    led to, when the view a drag holds is the one published, the command it sends is served
    without a panic.  If the daemon applies it, the drag accepts the view broadcast, takes
    the reply for the answer to its command, holds from then on exactly the view that is
    published, and still accepts the previous one.  If the daemon refuses it, the view that
    is published is still one the drag accepts: only a change by someone else ends a drag. *)
Theorem drag_follows_daemon {St} `{ScreenLaws St} (n : N) (r : SessionRegistry.t St) (self att sid rid : string)
    (s : Session.t) (d d' : Drag.t) (request : DividerResize.t) (info : ViewInfo.t)
    (Hr : reached (n + 1) r) (Hself : is_Some (store r !! self)) (Howner : owner_of r self = Ok sid)
    (Hs : sessions r !! sid = Some s) (Hinfo : view_info r sid = Ok info)
    (Hheld : same_geometry (Drag.confirmed d) info) (Hnext : Drag.next rid d = (Some request, d')) :
  match resize_divider_inner self att request r with
  | (Ok reply, r') =>
      accepts_view reply d' = true ∧ view_info r' sid = Ok reply ∧
      ∃ d2, acknowledge rid (ResizeApplied reply) d' = (inr true, d2) ∧
            Drag.confirmed d2 = reply ∧ accepts_view info d2 = true
  | (Err _, r') => ∃ info', view_info r' sid = Ok info' ∧ accepts_view info' d' = true
  | (Panic, _) => False
  end.
Proof.
  destruct (reached_inv _ _ Hr) as [HI _]. eapply (drag_follows (room (n + 1) - 2)); [|done..].
  eapply Inv_mono; [|exact HI]. unfold room. lia.
Qed.

(** A view of two panes side by side *)
Definition two_panes : ViewInfo.t :=
  ViewInfo.Mk "work" "v1" "s1" 1 size80
    [PaneGeometry.Mk "t1" 0 0 40 24; PaneGeometry.Mk "t2" 41 0 39 24] None
    (Split Horizontal [Terminal "t1"; Terminal "t2"] []) [].

Lemma every_gap_is_hit_witness :
  hit two_panes (40, 3)%N = Some (Divider.Mk [] 0 Horizontal 40) ∧
  ∃ dv, divider_at [] 0 (0, 0)%N 80 24 (ViewInfo.layout two_panes) = Some dv ∧ cell dv = 40%Z.
Proof.
  split; [by vm_compute|]. pose proof (every_gap_is_hit two_panes (40, 3)%N) as Hh.
  destruct Hh as (_ & _ & _ & dv & Hdv & Hc).
  - constructor; [done|by vm_compute|by left|]. repeat constructor.
  - by vm_compute.
  - apply (bool_decide_unpack _). by vm_compute.
  - by vm_compute.
  - done.
  - by vm_compute.
  - by vm_compute.
  - by exists dv.
Defined.

Import Blank.

(** The first session of a daemon, and a drag of its divider to the right *)
Definition dragged : option DividerResize.t * Drag.t :=
  Drag.next "drag-1" (Drag.move_to (50, 3)%N true (Drag.new two_panes (Divider.Mk [] 0 Horizontal 40) (0, 0)%N "pane")).

Lemma opening_session : is_Some (sessions (serve opening) !! "s1").
Proof. apply (bool_decide_unpack _). vm_compute. exact I. Qed.

Lemma opening_shown : ∃ info, view_info (serve opening) "s1" = Ok info ∧ same_geometry two_panes info.
Proof. eexists. split; [vm_compute; reflexivity|]. by repeat split. Qed.

Lemma opening_dragged :
  match (resize_divider_inner "t1" "x" (DividerResize.Mk "v1" 1 [] 0 50) (serve opening)).1 with Ok _ => true | _ => false end = true.
Proof. vm_compute. reflexivity. Qed.

Lemma opening_owner : is_Some (store (serve opening) !! "t1") ∧ owner_of (serve opening) "t1" = Ok "s1".
Proof. split; [apply (bool_decide_unpack _); vm_compute; exact I|vm_compute; reflexivity]. Qed.

Lemma drag_follows_daemon_witness :
  match (resize_divider_inner "t1" "x" (DividerResize.Mk "v1" 1 [] 0 50) (serve opening)).1 with Ok _ => true | _ => false end = true ∧
  match resize_divider_inner "t1" "x" (DividerResize.Mk "v1" 1 [] 0 50) (serve opening) with
  | (Ok reply, r') => accepts_view reply dragged.2 = true ∧ view_info r' "s1" = Ok reply
  | (Err _, _) => True
  | (Panic, _) => False
  end.
Proof.
  split; [exact opening_dragged|]. destruct opening_session as [s Hs]. destruct opening_shown as (info & Hinfo & Hsame).
  destruct opening_owner as [Hself Howner].
  pose proof (drag_follows_daemon 2 (serve opening) "t1" "x" "s1" "drag-1" s
    (Drag.move_to (50, 3)%N true (Drag.new two_panes (Divider.Mk [] 0 Horizontal 40) (0, 0)%N "pane")) dragged.2
    (DividerResize.Mk "v1" 1 [] 0 50) info opening_reached Hself Howner Hs Hinfo Hsame eq_refl) as Hd.
  clear -Hd. revert Hd. generalize (resize_divider_inner "t1" "x" (DividerResize.Mk "v1" 1 [] 0 50) (serve opening)).
  intros [[reply|e|] r']; [|done..]. intros (Ha & Hv & _). by split.
Defined.
