(* ===== verification/Prompt.v ===== *)
(** The command line of the terminal user interface (apps/tui/src/prompt.rs) and its key
    table (apps/tui/src/actions.rs): editing a line of text, cutting it into words, reading
    a command.

    The cursor is a byte offset, as in the code; [text[..cursor]] panics off a character
    boundary, and so does [split_at] here, with [None].  Keys are those of crossterm; the
    ones the program does not name are [OtherKey]. *)

From S2P Require Import Prelude.
From S2P Require Import Cells.
From S2P Require Import Buffers.
From S2P Require Import Layout.
From S2P Require Import Leases.
From S2P Require Import Observers.
From S2P Require Import ShellReports.
From S2P Require Import Presence.
From S2P Require Import Protocol.
From stdpp Require Import strings.

(** * Keys and actions *)

Module KeyCode.
Inductive t :=
  | Enter | Esc | Left | Right | Up | Down | Home | End_ | PageUp | PageDown | Tab | BackTab | Backspace | Insert | Delete
  | Null | F (n : N)
  | Char (c : char) | OtherKey.
#[global] Instance eq_dec : EqDecision t.
Proof. solve_decision. Defined.
End KeyCode.

Module KeyModifiers.
Record t := Mk { shift : bool; control : bool; alt : bool; others : bool }.
#[global] Instance eq_dec : EqDecision t.
Proof. solve_decision. Defined.
Definition NONE : t := Mk false false false false.
Definition SHIFT : t := Mk true false false false.
Definition CONTROL : t := Mk false true false false.
Definition ALT : t := Mk false false true false.
Definition CONTROL_SHIFT : t := Mk true true false false.
End KeyModifiers.

Module KeyEvent.
Record t := Mk { code : KeyCode.t; modifiers : KeyModifiers.t; release : bool }.
End KeyEvent.

Inductive Direction := FocusUp | FocusDown | FocusLeft | FocusRight.

Module Action.
Inductive t :=
  | Split (axis : SplitAxis)
  | SwapPane (previous stay : bool)
  | BreakPane
  | Focus (direction : Direction)
  | ResizePane (direction : ResizeDirection) (amount : N)
  | NextPane | LastPane | DisplayPanes | ToggleZoom
  | CreateSession | NextSession | PreviousSession | LastSession | Sessions
  | Refresh | Archives
  | History (page_back : bool)
  | Paste
  | ToggleLease (kind : LeaseKind)
  | KillPane | Detach | Help | CommandPrompt | Cancel.
End Action.

Module Binding.
Record t := Mk { action : Action.t; repeatable : bool }.
End Binding.

Definition ch (s : string) : char := match str s with c :: _ => c | [] => 0%N end.
Definition to_ascii_uppercase (c : char) : char := if rng 97 122 c then (c - 32)%N else c.
Definition to_ascii_lowercase (c : char) : char := if rng 65 90 c then (c + 32)%N else c.

Definition arrow (code : KeyCode.t) : option ResizeDirection :=
  match code with
  | KeyCode.Up => Some Up | KeyCode.Down => Some Down | KeyCode.Left => Some Left | KeyCode.Right => Some Right
  | _ => None
  end.

(** The table of single keys *)
Definition bound (code : KeyCode.t) : option Action.t :=
  match code with
  | KeyCode.Up => Some (Action.Focus FocusUp)
  | KeyCode.Down => Some (Action.Focus FocusDown)
  | KeyCode.Left => Some (Action.Focus FocusLeft)
  | KeyCode.Right => Some (Action.Focus FocusRight)
  | KeyCode.PageUp => Some (Action.History true)
  | KeyCode.Esc => Some Action.Cancel
  | KeyCode.Char c =>
      if decide (c = ch "%") then Some (Action.Split Horizontal) else
      if decide (c = 34%N) then Some (Action.Split Vertical) else
      if decide (c = ch "{") then Some (Action.SwapPane true false) else
      if decide (c = ch "}") then Some (Action.SwapPane false false) else
      if decide (c = ch "!") then Some Action.BreakPane else
      if decide (c = ch "o") then Some Action.NextPane else
      if decide (c = ch ";") then Some Action.LastPane else
      if decide (c = ch "q") then Some Action.DisplayPanes else
      if decide (c = ch "z") then Some Action.ToggleZoom else
      if decide (c = ch "c") then Some Action.CreateSession else
      if decide (c = ch "n") then Some Action.NextSession else
      if decide (c = ch "p") then Some Action.PreviousSession else
      if decide (c = ch "l" ∨ c = ch "L") then Some Action.LastSession else
      if decide (c = ch "s" ∨ c = ch "w") then Some Action.Sessions else
      if decide (c = ch "r") then Some Action.Refresh else
      if decide (c = ch "A") then Some Action.Archives else
      if decide (c = ch "[") then Some (Action.History false) else
      if decide (c = ch "]") then Some Action.Paste else
      if decide (c = ch "I") then Some (Action.ToggleLease Input) else
      if decide (c = ch "R") then Some (Action.ToggleLease LayoutLease) else
      if decide (c = ch "x") then Some Action.KillPane else
      if decide (c = ch "d") then Some Action.Detach else
      if decide (c = ch "?") then Some Action.Help else
      if decide (c = ch ":") then Some Action.CommandPrompt else None
  | _ => None
  end.

Definition resolve (key : KeyEvent.t) : option Binding.t :=
  if KeyEvent.release key then None else
  let modifiers := KeyEvent.modifiers key in
  let resize := direction ← arrow (KeyEvent.code key);
                amount ← (if decide (modifiers = KeyModifiers.CONTROL) then Some 1%N
                          else if decide (modifiers = KeyModifiers.ALT) then Some 5%N else None);
                Some (Binding.Mk (Action.ResizePane direction amount) true) in
  match resize with
  | Some binding => Some binding
  | None =>
      code ← (if decide (modifiers = KeyModifiers.NONE) then Some (KeyEvent.code key)
              else if decide (modifiers = KeyModifiers.SHIFT)
                   then match KeyEvent.code key with KeyCode.Char c => Some (KeyCode.Char (to_ascii_uppercase c)) | _ => None end
                   else None);
      action ← bound code;
      Some (Binding.Mk action (match action with Action.Focus _ => true | _ => false end))
  end.

(** * The line *)

Definition MAX_TEXT_BYTES : nat := 4096.
Definition MAX_HISTORY : nat := 100.
Definition COMMAND_NAMES : list (list char) :=
  str <$> ["split-window"; "swap-pane"; "break-pane"; "select-pane"; "last-pane"; "display-panes"; "resize-pane";
    "new-session"; "switch-client"; "list-sessions"; "rename-session"; "kill-session"; "kill-pane"; "copy-mode";
    "paste-buffer"; "refresh-client"; "detach-client"; "list-keys"; "take-input"; "release-input"; "take-resize";
    "release-resize"].

(** [(&text[..at], &text[at..])] *)
Fixpoint split_at (text : list char) (at_ : nat) : option (list char * list char) :=
  match at_, text with
  | 0, _ => Some ([], text)
  | _, [] => None
  | _, c :: text =>
      if decide (utf8_len c ≤ at_)
      then '(before, after) ← split_at text (at_ - utf8_len c); Some (c :: before, after)
      else None
  end.

Definition previous_boundary (text : list char) (cursor : nat) : option nat :=
  '(before, _) ← split_at text cursor;
  Some (match last before with Some c => cursor - utf8_len c | None => 0 end).

Definition next_boundary (text : list char) (cursor : nat) : option nat :=
  '(_, after) ← split_at text cursor;
  Some (cursor + match after with c :: _ => utf8_len c | [] => 0 end).

Inductive Event := Stay | Closed | Submit (text : list char).

Module Prompt.
Record t := Mk {
  active : bool; text : list char; cursor : nat; history : list (list char); history_index : option nat;
  draft : list char; draft_cursor : nat; command_mode : bool }.
Definition default : t := Mk false [] 0 [] None [] 0 false.

Definition open_text (text : list char) (p : t) : t := Mk true text (str_len text) (history p) None [] 0 false.
Definition open (p : t) : t :=
  let p := open_text [] p in
  Mk (active p) (text p) (cursor p) (history p) (history_index p) (draft p) (draft_cursor p) true.

Definition set_cursor (x : nat) (p : t) : t :=
  Mk (active p) (text p) x (history p) (history_index p) (draft p) (draft_cursor p) (command_mode p).
Definition set_text (x : list char) (cursor : nat) (p : t) : t :=
  Mk (active p) x cursor (history p) (history_index p) (draft p) (draft_cursor p) (command_mode p).
Definition edited (p : t) : t := Mk (active p) (text p) (cursor p) (history p) None [] (draft_cursor p) (command_mode p).
Definition set_index (x : option nat) (p : t) : t :=
  Mk (active p) (text p) (cursor p) (history p) x (draft p) (draft_cursor p) (command_mode p).

(** The longest prefix of [text] that fits *)
Fixpoint fitting (remaining : nat) (text : list char) : list char :=
  match text with
  | [] => []
  | c :: text => if decide (remaining < utf8_len c) then [] else c :: fitting (remaining - utf8_len c) text
  end.

Definition insert (new : list char) (p : t) : option t :=
  let new := fitting (MAX_TEXT_BYTES - str_len (text p)) new in
  if decide (str_len new = 0) then Some p else
  let p := edited p in
  '(before, after) ← split_at (text p) (cursor p);
  Some (set_text (before ++ new ++ after) (cursor p + str_len new) p).

Definition remove (start stop : nat) (p : t) : option t :=
  if decide (start < stop) then
    let p := edited p in
    '(before, _) ← split_at (text p) start;
    '(_, after) ← split_at (text p) stop;
    Some (set_text (before ++ after) start p)
  else Some p.

(** The loops of the deletion of a word; a step shortens what is before [start]. *)
Fixpoint back_while (fuel : nat) (test : char → bool) (text : list char) (start : nat) : option nat :=
  match fuel with
  | 0 => None
  | S fuel =>
      if decide (start = 0) then Some start else
      '(before, _) ← split_at text start;
      match last before with
      | Some c => if test c then start ← previous_boundary text start; back_while fuel test text start else Some start
      | None => Some start
      end
  end.

Definition submit (p : t) : Event * t :=
  let history :=
    if command_mode p && negb (bool_decide (trim (text p) = [])) && negb (bool_decide (last (history p) = Some (text p)))
    then let history := history p ++ [text p] in
         if decide (MAX_HISTORY < length history) then tail history else history
    else history p in
  (Submit (text p), Mk false (text p) (cursor p) history None (draft p) (draft_cursor p) (command_mode p)).

Definition close (p : t) : Event * t :=
  (Closed, Mk false (text p) (cursor p) (history p) None (draft p) (draft_cursor p) (command_mode p)).

Definition previous_history (p : t) : option t :=
  if decide (history p = []) then Some p else
  let '(index, p) :=
    match history_index p with
    | Some index => (index - 1, p)
    | None => (length (history p) - 1,
               Mk (active p) (text p) (cursor p) (history p) (history_index p) (text p) (cursor p) (command_mode p))
    end in
  entry ← history p !! index;
  Some (set_text entry (str_len entry) (set_index (Some index) p)).

Definition next_history (p : t) : option t :=
  match history_index p with
  | None => Some p
  | Some index =>
      if decide (index + 1 < length (history p)) then
        entry ← history p !! (index + 1);
        Some (set_text entry (str_len entry) (set_index (Some (index + 1)) p))
      else Some (set_text (draft p) (draft_cursor p) (set_index None p))
  end.
End Prompt.
Import Prompt (active, text, cursor, history, history_index, draft, draft_cursor, command_mode).

(** * Commands *)

Module Command.
Inductive t :=
  | Action (action : Action.t)
  | NewSession (name : option (list char))
  | SwitchSession (name : list char)
  | RenameSession (target : option (list char)) (name : list char)
  | KillSession (target : option (list char))
  | SelectPane (number : N)
  | BreakPane (name : option (list char)) (detached : bool)
  | Lease (kind : LeaseKind) (requested : bool).
End Command.

(** The full names with their aliases *)
Definition aliases : list (list char * list char) :=
  (λ '(alias, name), (str alias, str name)) <$>
    [("splitw", "split-window"); ("swapp", "swap-pane"); ("breakp", "break-pane"); ("selectp", "select-pane");
     ("lastp", "last-pane"); ("displayp", "display-panes"); ("resizep", "resize-pane"); ("new", "new-session");
     ("switchc", "switch-client"); ("ls", "list-sessions"); ("rename", "rename-session"); ("kill", "kill-session");
     ("killp", "kill-pane"); ("pasteb", "paste-buffer"); ("refresh", "refresh-client"); ("detach", "detach-client");
     ("lsk", "list-keys")].

Definition command_name (name : list char) : option (list char) :=
  if decide (name ∈ COMMAND_NAMES) then Some name
  else snd <$> find (λ entry, bool_decide (entry.1 = name)) aliases.

Definition usage {A} (command : string) : list char + A := inl (str "Unsupported arguments; usage: " ++ str command).
Definition ok {A} (action : Action.t) : A + Command.t := inr (Command.Action action).

Definition starts_with_dash (name : list char) : bool := match name with c :: _ => bool_decide (c = ch "-") | [] => false end.
Definition is_empty (name : list char) : bool := bool_decide (name = []).
Notation "w =: s" := (bool_decide (w = str s)) (at level 70, only parsing) : ctl_scope.

(** [str::parse::<usize>] of digits only *)
Definition pane_number (number : list char) : option N :=
  if forallb is_digit number
  then n ← parse_unsigned u64_MAX number; if decide (0 < n)%N then Some n else None
  else None.

Definition select_pane_command (args : list (list char)) : list char + Command.t :=
  let usage := usage "select-pane -L|-R|-U|-D|-l|-t NUMBER" in
  match args with
  | [flag] =>
      if flag =: "-l" then ok Action.LastPane else
      if flag =: "-L" then ok (Action.Focus FocusLeft) else
      if flag =: "-R" then ok (Action.Focus FocusRight) else
      if flag =: "-U" then ok (Action.Focus FocusUp) else
      if flag =: "-D" then ok (Action.Focus FocusDown) else usage
  | [flag; number] =>
      if flag =: "-t" then
        match pane_number number with
        | Some n => inr (Command.SelectPane n)
        | None => inl (str "Pane number must be a positive integer")
        end
      else usage
  | _ => usage
  end.

Definition resize_direction (flag : list char) : option ResizeDirection :=
  if flag =: "-L" then Some Left else if flag =: "-R" then Some Right else
  if flag =: "-U" then Some Up else if flag =: "-D" then Some Down else None.

Definition resize_command (args : list (list char)) : list char + Command.t :=
  let usage := usage "resize-pane -L|-R|-U|-D [CELLS], or resize-pane -Z" in
  if bool_decide (args = [str "-Z"]) then ok Action.ToggleZoom else
  match args with
  | [flag] =>
      match resize_direction flag with
      | Some direction => ok (Action.ResizePane direction 1)
      | None => usage
      end
  | [flag; amount] =>
      match resize_direction flag with
      | Some direction =>
          match parse_u16 amount with
          | Some n => if decide (0 < n)%N then ok (Action.ResizePane direction n)
                      else inl (str "Resize cells must be an integer from 1 to 65535")
          | None => inl (str "Resize cells must be an integer from 1 to 65535")
          end
      | None => usage
      end
  | _ => usage
  end.

Fixpoint swap_args (args : list (list char)) (previous : option bool) (stay : bool) : list char + Command.t :=
  let usage := usage "swap-pane -U|-D [-d]" in
  match args with
  | [] => match previous with Some previous => ok (Action.SwapPane previous stay) | None => usage end
  | arg :: args =>
      if ((arg =: "-U") || (arg =: "-D")) && bool_decide (previous = None) then swap_args args (Some (arg =: "-U")) stay
      else if (arg =: "-d") && negb stay then swap_args args previous true
      else usage
  end.
Definition swap_command (args : list (list char)) : list char + Command.t := swap_args args None false.

Fixpoint break_args (args : list (list char)) (name : option (list char)) (detached : bool) : list char + Command.t :=
  let usage := usage "break-pane [-d] [-n NAME]" in
  match args with
  | [] => inr (Command.BreakPane name detached)
  | arg :: args =>
      if (arg =: "-d") && negb detached then break_args args name true
      else if (arg =: "-n") && bool_decide (name = None) then
        match args with
        | value :: args => if negb (is_empty value) && negb (starts_with_dash value) then break_args args (Some value) detached else usage
        | [] => usage
        end
      else usage
  end.
Definition break_command (args : list (list char)) : list char + Command.t := break_args args None false.

Definition no_argument_command (name : list char) (args : list (list char)) : list char + Command.t :=
  if negb (bool_decide (args = [])) then inl (str "Unsupported arguments; usage: " ++ name) else
  if name =: "list-sessions" then ok Action.Sessions else
  if name =: "last-pane" then ok Action.LastPane else
  if name =: "display-panes" then ok Action.DisplayPanes else
  if name =: "kill-pane" then ok Action.KillPane else
  if name =: "paste-buffer" then ok Action.Paste else
  if name =: "refresh-client" then ok Action.Refresh else
  if name =: "detach-client" then ok Action.Detach else
  if name =: "list-keys" then ok Action.Help else
  if name =: "take-input" then inr (Command.Lease Input true) else
  if name =: "release-input" then inr (Command.Lease Input false) else
  if name =: "take-resize" then inr (Command.Lease LayoutLease true) else
  if name =: "release-resize" then inr (Command.Lease LayoutLease false) else
  inl (str "Unsupported command").

(** ** Words *)

Inductive Quote := Unquoted | Single | Double.
#[global] Instance Quote_eq_dec : EqDecision Quote.
Proof. solve_decision. Defined.

Definition one_of (c : char) (s : string) : bool := bool_decide (c ∈ str s).
Definition quote_mark : char := 39.
Definition double_mark : char := 34.
Definition backslash : char := 92.
Definition backtick : char := 96.

Fixpoint tokenize_go (text : list char) (words : list (list char)) (word : list char) (started : bool) (quote : Quote) :
    list char + list (list char) :=
  match text with
  | [] =>
      match quote with
      | Single => inl (str "Unterminated single quote")
      | Double => inl (str "Unterminated double quote")
      | Unquoted => inr (if started then words ++ [word] else words)
      end
  | c :: text =>
      let push c := tokenize_go text words (word ++ [c]) true quote in
      match quote with
      | Single => if decide (c = quote_mark) then tokenize_go text words word started Unquoted
                  else tokenize_go text words (word ++ [c]) started quote
      | _ =>
          if decide (quote = Double ∧ c = double_mark) then tokenize_go text words word started Unquoted else
          if decide (quote = Unquoted ∧ c = quote_mark) then tokenize_go text words word true Single else
          if decide (quote = Unquoted ∧ c = double_mark) then tokenize_go text words word true Double else
          if decide (c = backslash) then
            match text with
            | [] => inl (str "Trailing backslash in command")
            | c :: text => tokenize_go text words (word ++ [c]) true quote
            end
          else if decide (c = ch "$" ∨ c = backtick) then
            inl (str "Command expansions are not supported; quote or escape literal names")
          else if bool_decide (quote = Double) then push c
          else if one_of c ";|&<>{}#" then
            inl (str "Enter one command; command chains, redirection, and formats are not supported")
          else if one_of c "*?[]" then
            inl (str "Target patterns are not supported; quote or escape literal names")
          else if bool_decide (c = ch "~") && negb started then
            inl (str "Command expansions are not supported; quote or escape literal names")
          else if is_whitespace c then
            if started then tokenize_go text (words ++ [word]) [] false quote else tokenize_go text words word started quote
          else push c
      end
  end.

Definition tokenize (text : list char) : list char + list (list char) :=
  if decide (MAX_TEXT_BYTES < str_len text) then inl (str "Commands are limited to 4096 bytes") else
  if existsb is_control text then inl (str "Control characters and newlines are not supported in commands") else
  tokenize_go text [] [] false Unquoted.

(** The arms of [parse] that look at their arguments *)
Definition command_of (name : list char) (args : list (list char)) : list char + Command.t :=
  if name =: "split-window" then
    if bool_decide (args = []) || bool_decide (args = [str "-v"]) then ok (Action.Split Vertical)
    else if bool_decide (args = [str "-h"]) then ok (Action.Split Horizontal)
    else usage "split-window [-h|-v]"
  else if name =: "select-pane" then select_pane_command args
  else if name =: "resize-pane" then resize_command args
  else if name =: "swap-pane" then swap_command args
  else if name =: "break-pane" then break_command args
  else if name =: "new-session" then
    match args with
    | [] => inr (Command.NewSession None)
    | [flag; name] => if flag =: "-s" then inr (Command.NewSession (Some name)) else usage "new-session [-s NAME]"
    | _ => usage "new-session [-s NAME]"
    end
  else if name =: "switch-client" then
    let usage := usage "switch-client -n|-p|-l|-t NAME" in
    match args with
    | [flag] => if flag =: "-n" then ok Action.NextSession else if flag =: "-p" then ok Action.PreviousSession
                else if flag =: "-l" then ok Action.LastSession else usage
    | [flag; name] => if (flag =: "-t") && negb (is_empty name) then inr (Command.SwitchSession name) else usage
    | _ => usage
    end
  else if name =: "rename-session" then
    let usage := usage "rename-session [-t NAME_OR_ID] NAME" in
    match args with
    | [name] => if negb (is_empty name) && negb (starts_with_dash name) then inr (Command.RenameSession None name) else usage
    | [flag; target; name] =>
        if (flag =: "-t") && negb (is_empty target) && negb (is_empty name) then inr (Command.RenameSession (Some target) name) else usage
    | _ => usage
    end
  else if name =: "kill-session" then
    match args with
    | [] => inr (Command.KillSession None)
    | [flag; target] => if (flag =: "-t") && negb (is_empty target) then inr (Command.KillSession (Some target))
                        else usage "kill-session [-t NAME_OR_ID]"
    | _ => usage "kill-session [-t NAME_OR_ID]"
    end
  else if name =: "copy-mode" then
    if bool_decide (args = []) then ok (Action.History false)
    else if bool_decide (args = [str "-u"]) then ok (Action.History true)
    else usage "copy-mode [-u]"
  else no_argument_command name args.

Definition parse (text : list char) : list char + Command.t :=
  match tokenize text with
  | inl error => inl error
  | inr [] => ok Action.Cancel
  | inr (name :: args) =>
      match command_name name with
      | None => inl (str "Unknown command: " ++ name ++ str "; use list-keys for supported commands")
      | Some name => command_of name args
      end
  end.

(** * Completion, keys, and what is shown *)

Fixpoint common_prefix (a b : list char) : nat :=
  match a, b with
  | x :: a, y :: b => if decide (x = y) then S (common_prefix a b) else 0
  | _, _ => 0
  end.

Definition complete (p : Prompt.t) : option Prompt.t :=
  if negb (bool_decide (cursor p = str_len (text p))) || existsb is_whitespace (text p) then Some p else
  if bool_decide (is_Some (command_name (text p))) then Prompt.insert (str " ") p else
  let candidates := filter (λ name, text p `prefix_of` name) COMMAND_NAMES in
  match candidates with
  | [] => Some p
  | first :: _ =>
      let length_ := foldl (λ length_ candidate, common_prefix (take length_ first) candidate) (length first) candidates in
      let p := Prompt.edited p in
      let p := Prompt.set_text (take length_ first) (str_len (take length_ first)) p in
      if decide (length candidates = 1) then Prompt.insert (str " ") p else Some p
  end.

(** Deletion of the word before the cursor *)
Definition delete_word (p : Prompt.t) : option Prompt.t :=
  start ← Prompt.back_while (S (length (text p))) is_whitespace (text p) (cursor p);
  start ← Prompt.back_while (S (length (text p))) (λ c, negb (is_whitespace c)) (text p) start;
  Prompt.remove start (cursor p) p.

Definition stay (p : option Prompt.t) : option (Event * Prompt.t) := (λ p, (Stay, p)) <$> p.
Definition move_cursor (to : option nat) (p : Prompt.t) : option Prompt.t := (λ c, Prompt.set_cursor c p) <$> to.

Definition control_key (code : KeyCode.t) (p : Prompt.t) : option (Event * Prompt.t) :=
  match code with
  | KeyCode.Char c =>
      let c := to_ascii_lowercase c in
      if decide (c = ch "c" ∨ c = ch "g") then Some (Prompt.close p) else
      if decide (c = ch "a") then stay (Some (Prompt.set_cursor 0 p)) else
      if decide (c = ch "e") then stay (Some (Prompt.set_cursor (str_len (text p)) p)) else
      if decide (c = ch "b") then stay (move_cursor (previous_boundary (text p) (cursor p)) p) else
      if decide (c = ch "f") then stay (move_cursor (next_boundary (text p) (cursor p)) p) else
      if decide (c = ch "u") then stay (Prompt.remove 0 (cursor p) p) else
      if decide (c = ch "k") then stay (Prompt.remove (cursor p) (str_len (text p)) p) else
      if decide (c = ch "w") then stay (delete_word p) else stay (Some p)
  | _ => stay (Some p)
  end.

Definition key (k : KeyEvent.t) (p : Prompt.t) : option (Event * Prompt.t) :=
  let modifiers := KeyEvent.modifiers k in
  if negb (active p) || KeyEvent.release k then stay (Some p) else
  if bool_decide (modifiers = KeyModifiers.CONTROL) || bool_decide (modifiers = KeyModifiers.CONTROL_SHIFT)
  then control_key (KeyEvent.code k) p else
  if negb (bool_decide (modifiers = KeyModifiers.NONE)) && negb (bool_decide (modifiers = KeyModifiers.SHIFT))
  then stay (Some p) else
  match KeyEvent.code k with
  | KeyCode.Enter => Some (Prompt.submit p)
  | KeyCode.Esc => Some (Prompt.close p)
  | KeyCode.Left => stay (move_cursor (previous_boundary (text p) (cursor p)) p)
  | KeyCode.Right => stay (move_cursor (next_boundary (text p) (cursor p)) p)
  | KeyCode.Home => stay (Some (Prompt.set_cursor 0 p))
  | KeyCode.End_ => stay (Some (Prompt.set_cursor (str_len (text p)) p))
  | KeyCode.Backspace => stay (previous ← previous_boundary (text p) (cursor p); Prompt.remove previous (cursor p) p)
  | KeyCode.Delete => stay (next ← next_boundary (text p) (cursor p); Prompt.remove (cursor p) next p)
  | KeyCode.Up => stay (if command_mode p then Prompt.previous_history p else Some p)
  | KeyCode.Down => stay (if command_mode p then Prompt.next_history p else Some p)
  | KeyCode.Tab => stay (if command_mode p then complete p else Some p)
  | KeyCode.Char c => stay (if is_control c then Some p else Prompt.insert [c] p)
  | _ => stay (Some p)
  end.

Definition pasted (c : char) : option char :=
  if decide (c = 10 ∨ c = 13 ∨ c = 9)%N then Some 32%N else if is_control c then None else Some c.

Definition paste (new : list char) (p : Prompt.t) : option Prompt.t :=
  if negb (active p) then Some p else Prompt.insert (take MAX_TEXT_BYTES (omap pasted new)) p.

Section display.
Context `{UnicodeWidth}.

Definition character_width (c : char) : nat := default 0 (char_width c).

(** Characters with the marks that follow them, and their cells *)
Fixpoint groups_go (text : list char) (current : option (list char * nat)) : list (list char * nat) :=
  match text with
  | [] => option_list current
  | c :: text =>
      let width := character_width c in
      if decide (0 < width) then option_list current ++ groups_go text (Some ([c], width))
      else groups_go text ((λ '(group, cells), (group ++ [c], cells)) <$> current)
  end.
Definition display_groups (text : list char) : list (list char * nat) := groups_go text None.

(** The loop that scrolls: the groups left, and the column of the first *)
Fixpoint scrolled (target cursor_column : nat) (groups : list (list char * nat)) (start_column : nat) :
    list (list char * nat) * nat :=
  match groups with
  | (group, cells) :: rest =>
      if decide (target ≤ start_column ∨ cursor_column < start_column + cells) then (groups, start_column)
      else scrolled target cursor_column rest (start_column + cells)
  | [] => ([], start_column)
  end.

Fixpoint shown (width used : nat) (groups : list (list char * nat)) : list char :=
  match groups with
  | (group, cells) :: rest => if decide (width < used + cells) then [] else group ++ shown width (used + cells) rest
  | [] => []
  end.

Definition display (columns : N) (p : Prompt.t) : option (list char * N) :=
  if decide (columns = 0%N) then Some ([], 0%N) else
  if decide (columns = 1%N) then Some (str ":", 0%N) else
  let width := N.to_nat (columns - 1) in
  '(before, _) ← split_at (text p) (cursor p);
  let cursor_column := sum_list (character_width <$> before) in
  let target := cursor_column - (width - 1) in
  let '(groups, start_column) := scrolled target cursor_column (display_groups (text p)) 0 in
  let cursor := 1 + (cursor_column - start_column) `min` (width - 1) in
  if decide (N.of_nat cursor ≤ u16_MAX)%N then Some (str ":" ++ shown width 0 groups, N.of_nat cursor) else None.
End display.

(** * Boundaries *)

Lemma utf8_len_pos c : 0 < utf8_len c.
Proof. unfold utf8_len. repeat case_bool_decide; lia. Qed.

Lemma split_at_str_len before after : split_at (before ++ after) (str_len before) = Some (before, after).
Proof.
  induction before as [|c before IH]; [by destruct after|]. cbn [app]. change (str_len (c :: before)) with (utf8_len c + str_len before).
  pose proof (utf8_len_pos c). destruct (utf8_len c + str_len before) as [|n] eqn:E; [lia|]. cbn [split_at].
  rewrite decide_True by lia. replace (S n - utf8_len c) with (str_len before) by lia. by rewrite IH.
Qed.

Lemma split_at_Some text at_ before after :
  split_at text at_ = Some (before, after) → text = before ++ after ∧ at_ = str_len before.
Proof.
  revert at_ before. induction text as [|c text IH]; intros at_ before.
  - destruct at_; [|done]. by intros [= <- <-].
  - destruct at_ as [|n]; cbn [split_at]; [by intros [= <- <-]|]. case_decide as Hc; [|done].
    destruct (split_at text _) as [[b a]|] eqn:E; [|done]. cbn. intros [= <- <-].
    destruct (IH _ _ E) as [-> Hn]. split; [done|]. change (str_len (c :: b)) with (utf8_len c + str_len b). lia.
Qed.

(** A text and a cursor in it, on a boundary *)
Definition at_boundary (t : list char) (c : nat) : Prop := ∃ before after, t = before ++ after ∧ c = str_len before.

Lemma at_boundary_split t c : at_boundary t c → ∃ before after, split_at t c = Some (before, after) ∧ t = before ++ after ∧ c = str_len before.
Proof. intros (b & a & -> & ->). exists b, a. by rewrite split_at_str_len. Qed.

Lemma at_end t : at_boundary t (str_len t).
Proof. exists t, []. by rewrite app_nil_r. Qed.
Lemma at_start t : at_boundary t 0.
Proof. by exists [], t. Qed.

Lemma str_len_cons c t : str_len (c :: t) = utf8_len c + str_len t.
Proof. done. Qed.
Lemma str_len_nil t : str_len t = 0 → t = [].
Proof. destruct t as [|c t]; [done|]. rewrite str_len_cons. pose proof (utf8_len_pos c). lia. Qed.

Lemma previous_ok t c : at_boundary t c → previous_boundary t c ⇓ λ n, at_boundary t n ∧ n ≤ c.
Proof.
  intros (b & a & E & -> & ->)%at_boundary_split. unfold previous_boundary. rewrite E. cbn.
  destruct b as [|x b _] using rev_ind; [split; [by exists [], a|done]|]. rewrite last_snoc, str_len_app.
  change (str_len [x]) with (utf8_len x + 0). split; [|lia].
  exists b, ([x] ++ a). split; [by rewrite app_assoc|lia].
Qed.

(** A step back is by a character. *)
Lemma previous_exact b x a : previous_boundary ((b ++ [x]) ++ a) (str_len (b ++ [x])) = Some (str_len b).
Proof.
  unfold previous_boundary. rewrite split_at_str_len. cbn. rewrite last_snoc, str_len_app. change (str_len [x]) with (utf8_len x + 0). f_equal. lia.
Qed.

Lemma next_character_ok t c : at_boundary t c → next_boundary t c ⇓ λ n, at_boundary t n ∧ c ≤ n.
Proof.
  intros (b & a & E & -> & ->)%at_boundary_split. unfold next_boundary. rewrite E. cbn.
  destruct a as [|x a]; [split; [rewrite Nat.add_0_r; by exists b, []|lia]|]. split; [|lia].
  exists (b ++ [x]), a. split; [by rewrite <- app_assoc|]. rewrite str_len_app. change (str_len [x]) with (utf8_len x + 0). lia.
Qed.

(** * The line stays sound *)

(** A line that fits and has no control characters *)
Definition clean (t : list char) : Prop := str_len t ≤ MAX_TEXT_BYTES ∧ Forall (λ c, is_control c = false) t.

Record sound (p : Prompt.t) : Prop := {
  sound_text : clean (text p);
  sound_cursor : at_boundary (text p) (cursor p);
  sound_history : length (history p) ≤ MAX_HISTORY ∧ Forall clean (history p);
  sound_index i : history_index p = Some i → i < length (history p) ∧ clean (draft p) ∧ at_boundary (draft p) (draft_cursor p) }.

Lemma fitting_prefix n t : ∃ rest, t = Prompt.fitting n t ++ rest ∧ str_len (Prompt.fitting n t) ≤ n.
Proof.
  revert n. induction t as [|c t IH]; intros n; [exists []; split; [done|cbn; lia]|]. cbn [Prompt.fitting]. case_decide.
  - exists (c :: t). split; [done|]. cbn. lia.
  - destruct (IH (n - utf8_len c)) as (rest & E & Hle). exists rest. split; [cbn; by rewrite <- E|]. rewrite str_len_cons. lia.
Qed.

Lemma insert_sound new p : sound p → Forall (λ c, is_control c = false) new → Prompt.insert new p ⇓ sound.
Proof.
  intros [[Hlen Hctl] Hcur Hh Hi] Hnew. unfold Prompt.insert.
  destruct (fitting_prefix (MAX_TEXT_BYTES - str_len (text p)) new) as (rest & E & Hle).
  set (new' := Prompt.fitting _ new) in *. destruct (decide (str_len new' = 0)); [by split|].
  destruct (at_boundary_split _ _ Hcur) as (b & a & Es & Et & Ec). cbn [text cursor Prompt.edited]. rewrite Es. cbn.
  rewrite E in Hnew. apply Forall_app in Hnew as [Hnew' _].
  rewrite Et in Hlen, Hctl, Hle. rewrite str_len_app in Hlen, Hle. apply Forall_app in Hctl as [Hb Ha]. split; cbn; [|..|done|done].
  - split; [rewrite !str_len_app; lia|]. by rewrite !Forall_app.
  - exists (b ++ new'), a. split; [by rewrite <- app_assoc|]. rewrite str_len_app. lia.
Qed.

Lemma remove_sound start stop p :
  sound p → at_boundary (text p) start → at_boundary (text p) stop → Prompt.remove start stop p ⇓ sound.
Proof.
  intros Hs Hstart Hstop. unfold Prompt.remove. case_decide as Hlt; [|done]. cbn [text Prompt.edited].
  destruct Hs as [[Hlen Hctl] Hcur Hh Hi].
  destruct (at_boundary_split _ _ Hstart) as (b & a & -> & Et & Ec). destruct (at_boundary_split _ _ Hstop) as (b' & a' & -> & Et' & Ec').
  cbn. assert (b `prefix_of` b') as [m ->].
  { assert (∃ k, b' = b ++ k ∨ b = b' ++ k) as [k [->| ->]].
    { rewrite Et in Et'. apply app_eq_inv in Et' as [(k & -> & _)|(k & -> & _)]; eauto. }
    - by exists k.
    - rewrite str_len_app in Ec. assert (str_len k = 0) as ->%str_len_nil by lia. exists []. by rewrite !app_nil_r. }
  rewrite Et' in Hlen, Hctl. rewrite !str_len_app in Hlen. rewrite !Forall_app in Hctl. destruct Hctl as [[Hb Hm] Ha'].
  split; cbn; [|..|done|done].
  - split; [rewrite str_len_app; lia|]. by apply Forall_app.
  - exists b, a'. split; [done|exact Ec].
Qed.

Lemma moved_sound n p : sound p → at_boundary (text p) n → sound (Prompt.set_cursor n p).
Proof. intros [] Hn. by split. Qed.

Lemma close_sound p : sound p → sound (Prompt.close p).2.
Proof. intros []. by split. Qed.

Lemma submit_sound p : sound p → sound (Prompt.submit p).2 ∧ (Prompt.submit p).1 = Submit (text p).
Proof.
  intros [Ht Hc [Hl Hh] Hi]. split; [|done]. split; cbn [Prompt.submit snd text cursor history history_index]; [done..| |done].
  destruct (_ && _); [|done]. case_decide as Hfull.
  - rewrite length_app in Hfull. cbn in Hfull. destruct (history p) as [|h hs]; cbn in *; [unfold MAX_HISTORY in *; lia|].
    rewrite length_app. cbn. split; [lia|]. apply Forall_app. split; [by apply Forall_inv_tail in Hh|by constructor].
  - split; [lia|]. apply Forall_app. split; [done|by constructor].
Qed.

Lemma entry_sound i entry p : sound p → history p !! i = Some entry →
  clean (draft p) → at_boundary (draft p) (draft_cursor p) →
  sound (Prompt.set_text entry (str_len entry) (Prompt.set_index (Some i) p)).
Proof.
  intros [Ht Hc [Hl Hh] Hi] He Hd Hdc. split; cbn.
  - rewrite Forall_lookup in Hh. by eapply Hh.
  - apply at_end.
  - done.
  - intros j [= <-]. split; [by eapply lookup_lt_Some|done].
Qed.

Lemma previous_history_sound p : sound p → Prompt.previous_history p ⇓ sound.
Proof.
  intros Hs. unfold Prompt.previous_history. case_decide as Hne; [done|].
  destruct (history_index p) as [i|] eqn:Ei.
  - destruct (sound_index _ Hs i Ei) as (Hi & Hd & Hdc). destruct (lookup_lt_is_Some_2 (history p) (i - 1)) as [e He]; [lia|].
    rewrite He. by apply entry_sound.
  - assert (length (history p) ≠ 0) by (by destruct (history p)).
    destruct (lookup_lt_is_Some_2 (history p) (length (history p) - 1)) as [e He]; [lia|]. cbn [history]. rewrite He.
    destruct Hs as [Ht Hc Hh Hi]. apply entry_sound; [|done..]. by split.
Qed.

Lemma next_history_sound p : sound p → Prompt.next_history p ⇓ sound.
Proof.
  intros Hs. unfold Prompt.next_history. destruct (history_index p) as [i|] eqn:Ei; [|done].
  destruct (sound_index _ Hs i Ei) as (Hi & Hd & Hdc). case_decide as Hlt.
  - destruct (lookup_lt_is_Some_2 (history p) (i + 1)) as [e He]; [lia|]. rewrite He. by apply entry_sound.
  - destruct Hs as [Ht Hc Hh Hix]. by split.
Qed.

(** ** Deleting a word, completing *)

Lemma split_last t c before after : split_at t c = Some (before, after) →
  match last before with
  | Some x => ∃ b, before = b ++ [x] ∧ previous_boundary t c = Some (str_len b) ∧ length b < length before
  | None => before = []
  end.
Proof.
  intros Hs. destruct (split_at_Some _ _ _ _ Hs) as [-> ->]. destruct before as [|x b _] using rev_ind; [done|].
  rewrite last_snoc. exists b. split; [done|]. split; [by apply previous_exact|]. rewrite length_app. cbn. lia.
Qed.

Lemma back_while_ok fuel test t c b a :
  split_at t c = Some (b, a) → length b < fuel → Prompt.back_while fuel test t c ⇓ λ n, at_boundary t n ∧ n ≤ c.
Proof.
  revert c b a. induction fuel as [|fuel IH]; intros c b a Hs Hf; [lia|]. cbn [Prompt.back_while].
  destruct (split_at_Some _ _ _ _ Hs) as [Et Ec].
  case_decide as Hz; [split; [by exists b, a|done]|]. rewrite Hs. cbn. pose proof (split_last _ _ _ _ Hs) as Hl.
  destruct (last b) as [x|]; [|split; [by exists b, a|done]]. destruct (test x); [|split; [by exists b, a|done]].
  destruct Hl as (b' & -> & Hp & Hlen). rewrite Hp. cbn.
  eapply Safe_mono; [apply (IH (str_len b') b' ([x] ++ a)); [|lia]|].
  - rewrite Et, <- app_assoc. apply split_at_str_len.
  - cbv beta. intros n [Hn Hle]. split; [done|]. rewrite Ec, str_len_app. lia.
Qed.

Lemma delete_word_sound p : sound p → delete_word p ⇓ sound.
Proof.
  intros Hs. destruct (at_boundary_split _ _ (sound_cursor _ Hs)) as (b & a & E & Et & Ec). unfold delete_word.
  assert (Hshort : ∀ b a, text p = b ++ a → length b < S (length (text p))) by (intros b' a' ->; rewrite length_app; lia).
  eapply Safe_bind; [eapply (back_while_ok _ _ _ _ _ _ E); by eapply Hshort|]. intros n [Hn Hle].
  destruct (at_boundary_split _ _ Hn) as (b1 & a1 & E1 & Et1 & Ec1).
  eapply Safe_bind; [eapply (back_while_ok _ _ _ _ _ _ E1); by eapply Hshort|]. intros m [Hm Hle'].
  apply remove_sound; [done|done|exact (sound_cursor _ Hs)].
Qed.

Lemma name_clean name n : name ∈ COMMAND_NAMES → clean (take n name).
Proof.
  intros Hin. assert (clean name) as [Hl Hc].
  { assert (Forall clean COMMAND_NAMES) as Hall.
    { apply (bool_decide_unpack _). vm_compute. exact I. }
    rewrite Forall_forall in Hall. by apply Hall. }
  rewrite <- (take_drop n name) in Hl, Hc. rewrite str_len_app in Hl. apply Forall_app in Hc as [Hc _]. split; [lia|done].
Qed.

Lemma complete_sound p : sound p → complete p ⇓ sound.
Proof.
  intros Hs. unfold complete. destruct (_ || _); [done|]. destruct (bool_decide _); [by apply insert_sound; [|repeat constructor]|].
  destruct (filter _ COMMAND_NAMES) as [|first rest] eqn:E; [done|]. cbv zeta.
  match goal with |- context [take ?n first] => set (chosen := take n first) end.
  assert (first ∈ COMMAND_NAMES) as Hin.
  { assert (first ∈ filter (λ name, text p `prefix_of` name) COMMAND_NAMES) as H by (rewrite E; left).
    by apply list_elem_of_filter in H as [_ ?]. }
  assert (sound (Prompt.set_text chosen (str_len chosen) (Prompt.edited p))) as Hs'.
  { destruct Hs as [Ht Hc Hh Hi]. split; cbn; [by apply name_clean|apply at_end|done|done]. }
  case_decide; [|done]. by apply insert_sound; [|repeat constructor].
Qed.

(** ** Keys *)

Lemma stay_sound m : m ⇓ sound → stay m ⇓ λ r, sound r.2 ∧ r.1 = Stay.
Proof. intros Hm. unfold stay. eapply Safe_fmap; [exact Hm|]. done. Qed.

Lemma moves_sound m p : sound p → m ⇓ at_boundary (text p) → move_cursor m p ⇓ sound.
Proof. intros Hs Hm. unfold move_cursor. eapply Safe_fmap; [exact Hm|]. intros n Hn. by apply moved_sound. Qed.

Lemma previous_moves p : sound p → move_cursor (previous_boundary (text p) (cursor p)) p ⇓ sound.
Proof. intros Hs. apply moves_sound; [done|]. eapply Safe_mono; [by apply previous_ok, sound_cursor|]. by intros n []. Qed.
Lemma next_moves p : sound p → move_cursor (next_boundary (text p) (cursor p)) p ⇓ sound.
Proof. intros Hs. apply moves_sound; [done|]. eapply Safe_mono; [by apply next_character_ok, sound_cursor|]. by intros n []. Qed.

(** What a key leaves: a sound line, which it may hand over *)
Definition sound_event (p : Prompt.t) (r : Event * Prompt.t) : Prop :=
  sound r.2 ∧ (r.1 = Stay ∨ r.1 = Closed ∨ r.1 = Submit (text p)).

Lemma stays m p : m ⇓ sound → stay m ⇓ sound_event p.
Proof. intros Hm%stay_sound. eapply Safe_mono; [exact Hm|]. intros r []. split; auto. Qed.

Lemma control_key_sound code p : sound p → control_key code p ⇓ sound_event p.
Proof.
  intros Hs. assert (Hcur := sound_cursor _ Hs). destruct code; try (by apply stays). cbn [control_key]. cbv zeta.
  case_decide; [split; [by apply close_sound|auto]|].
  case_decide; [apply stays, moved_sound; [done|apply at_start]|].
  case_decide; [apply stays, moved_sound; [done|apply at_end]|].
  case_decide; [by apply stays, previous_moves|].
  case_decide; [by apply stays, next_moves|].
  case_decide; [apply stays, remove_sound; [done|apply at_start|done]|].
  case_decide; [apply stays, remove_sound; [done|done|apply at_end]|].
  case_decide; [by apply stays, delete_word_sound|by apply stays].
Qed.

Lemma key_sound k p : sound p → key k p ⇓ sound_event p.
Proof.
  intros Hs. assert (Hcur := sound_cursor _ Hs). unfold key. destruct (_ || _); [by apply stays|].
  destruct (_ || _); [by apply control_key_sound|]. destruct (_ && _); [by apply stays|].
  destruct (KeyEvent.code k) as [| | | | | | | | | | | | | | | | |c|]; try (by apply stays).
  - destruct (submit_sound p Hs) as [H1 H2]. split; [exact H1|auto].
  - split; [by apply close_sound|auto].
  - by apply stays, previous_moves.
  - by apply stays, next_moves.
  - apply stays. destruct (command_mode p); [by apply previous_history_sound|done].
  - apply stays. destruct (command_mode p); [by apply next_history_sound|done].
  - apply stays, moved_sound; [done|apply at_start].
  - apply stays, moved_sound; [done|apply at_end].
  - apply stays. destruct (command_mode p); [by apply complete_sound|done].
  - apply stays. eapply Safe_bind; [by apply previous_ok|]. intros n [Hn _]. by apply remove_sound.
  - apply stays. eapply Safe_bind; [by apply next_character_ok|]. intros n [Hn _]. by apply remove_sound.
  - apply stays. destruct (is_control c) eqn:Ec; [done|]. apply insert_sound; [done|by constructor].
Qed.

Lemma paste_sound new p : sound p → paste new p ⇓ sound.
Proof.
  intros Hs. unfold paste. destruct (negb _); [done|]. apply insert_sound; [done|]. apply Forall_take, Forall_forall.
  intros c (x & _ & Hc)%list_elem_of_omap. unfold pasted in Hc. case_decide; [by injection Hc as <-|].
  destruct (is_control x) eqn:E; [done|]. by injection Hc as <-.
Qed.

Lemma open_text_sound t p : sound p → clean t → sound (Prompt.open_text t p).
Proof. intros [Ht Hc Hh Hi] Hclean. split; [exact Hclean|apply at_end|exact Hh|done]. Qed.
Lemma open_sound p : sound p → sound (Prompt.open p).
Proof. intros [Ht Hc Hh Hi]. split; [by split; [cbn; lia|]|by exists [], []|exact Hh|done]. Qed.

(** * What is shown *)

Section display.
Context `{UnicodeWidth}.

Definition cells (groups : list (list char * nat)) : nat := sum_list (snd <$> groups).
Definition width_of (t : list char) : nat := sum_list (character_width <$> t).

Lemma cells_app a b : cells (a ++ b) = cells a + cells b.
Proof. unfold cells. by rewrite fmap_app, sum_list_with_app. Qed.

Lemma current_cells after current : ∃ k, cells (take k (groups_go after current)) = cells (option_list current).
Proof.
  destruct current as [[group n]|]; [|by exists 0]. exists 1. revert group.
  induction after as [|c after IH]; intros group; cbn [groups_go]; [done|]. case_decide; [done|]. cbn [fmap option_fmap option_map]. etrans; [apply IH|done].
Qed.

(** The columns of the characters are those of the groups. *)
Lemma prefix_cells after before current :
  ∃ k, cells (take k (groups_go (before ++ after) current)) = cells (option_list current) + width_of before.
Proof.
  revert current. induction before as [|c before IH]; intros current; cbn [app].
  { destruct (current_cells after current) as [k Hk]. exists k. unfold width_of. cbn. lia. }
  change (width_of (c :: before)) with (character_width c + width_of before). cbn [groups_go]. case_decide as Hw.
  - destruct (IH (Some ([c], character_width c))) as [k Hk]. exists (length (option_list current) + k).
    rewrite take_app_add, cells_app, Hk. cbn. lia.
  - destruct (IH ((λ '(group, n), (group ++ [c], n)) <$> current)) as [k Hk]. exists k.
    etrans; [exact Hk|]. destruct current as [[]|]; cbn; lia.
Qed.

(** Where the loop that scrolls stops *)
Lemma scrolled_spec target c gs start : start ≤ c → (∃ k, c = start + cells (take k gs)) →
  ∃ skipped, gs = skipped ++ (scrolled target c gs start).1 ∧ (scrolled target c gs start).2 = start + cells skipped ∧
    start + cells skipped ≤ c ∧ (target ≤ start + cells skipped ∨ c = start + cells skipped).
Proof.
  revert start. induction gs as [|[group n] gs IH]; intros start Hle [k Hk].
  { exists []. rewrite take_nil in Hk. cbn in *. split_and!; [done|lia..]. }
  cbn [scrolled]. case_decide as Hd.
  - exists []. cbn. split_and!; [done|lia|lia|]. destruct Hd as [Ht|Hc]; [left; lia|right].
    destruct k as [|k]; [cbn in Hk; lia|]. change (cells (take (S k) ((group, n) :: gs))) with (n + cells (take k gs)) in Hk. lia.
  - destruct (IH (start + n)) as (skipped & Hg & Hs & H1 & H2); [lia| |].
    { destruct k as [|k]; [|exists k; change (cells (take (S k) ((group, n) :: gs))) with (n + cells (take k gs)) in Hk; lia].
      exists 0. change (cells (take 0 gs)) with 0. change (cells (take 0 ((group, n) :: gs))) with 0 in Hk. lia. }
    exists ((group, n) :: skipped). change (cells ((group, n) :: skipped)) with (n + cells skipped).
    rewrite Hs. split_and!; [cbn; by rewrite <- Hg|lia..].
Qed.

(** The groups have the width of their characters. *)
Lemma groups_width t current : (∀ group n, current = Some (group, n) → width_of group = n) →
  Forall (λ g, width_of g.1 = g.2) (groups_go t current).
Proof.
  revert current. induction t as [|c t IH]; intros current Hc; cbn [groups_go].
  { destruct current as [[group n]|]; [|constructor]. constructor; [by apply Hc|constructor]. }
  case_decide as Hw.
  - apply Forall_app. split.
    + destruct current as [[group n]|]; [|constructor]. constructor; [by apply Hc|constructor].
    + apply IH. intros group n [= <- <-]. unfold width_of. cbn. lia.
  - apply IH. destruct current as [[group n]|]; [|done]. intros g m [= <- <-]. unfold width_of in *.
    rewrite fmap_app, sum_list_with_app. specialize (Hc group n eq_refl). cbn. lia.
Qed.

Lemma shown_width width used gs : used ≤ width → Forall (λ g, width_of g.1 = g.2) gs → width_of (shown width used gs) ≤ width - used.
Proof.
  intros Hu Hf. revert used Hu. induction Hf as [|[group n] gs Hg _ IH]; intros used Hu; [cbn; lia|]. cbn [shown].
  case_decide; [cbn; lia|]. cbn in Hg. unfold width_of in *. rewrite fmap_app, sum_list_with_app. specialize (IH (used + n)). lia.
Qed.
End display.

(** * Quoting *)

(** A word between single quotes; a single quote in it is closed, escaped and reopened. *)
Definition quoted (w : list char) : list char :=
  quote_mark :: mjoin ((λ c, if decide (c = quote_mark) then [quote_mark; backslash; quote_mark; quote_mark] else [c]) <$> w) ++ [quote_mark].

(** A command line of quoted words *)
Fixpoint line (words : list (list char)) : list char :=
  match words with
  | [] => []
  | [w] => quoted w
  | w :: words => quoted w ++ 32%N :: line words
  end.

Lemma tokenize_quoted w rest words word :
  tokenize_go (mjoin ((λ c, if decide (c = quote_mark) then [quote_mark; backslash; quote_mark; quote_mark] else [c]) <$> w) ++ quote_mark :: rest)
    words word true Single =
  tokenize_go rest words (word ++ w) true Unquoted.
Proof.
  revert word. induction w as [|c w IH]; intros word.
  { cbn [fmap list_fmap map mjoin list_join app]. rewrite app_nil_r. done. }
  cbn [fmap list_fmap map mjoin list_join]. case_decide as Hc.
  - subst c. rewrite <- app_assoc. replace (word ++ quote_mark :: w) with ((word ++ [quote_mark]) ++ w) by (by rewrite <- app_assoc).
    etrans; [|apply IH]. reflexivity.
  - rewrite <- app_assoc. cbn [app tokenize_go]. rewrite decide_False by done. rewrite IH. by rewrite <- app_assoc.
Qed.

Lemma tokenize_word w rest words :
  tokenize_go (quoted w ++ rest) words [] false Unquoted = tokenize_go rest words w true Unquoted.
Proof.
  unfold quoted. cbn [app]. rewrite <- app_assoc. cbn [app].
  etrans; [|apply (tokenize_quoted w rest words [])]. reflexivity.
Qed.

Lemma tokenize_line words before : words ≠ [] →
  tokenize_go (line words) before [] false Unquoted = inr (before ++ words).
Proof.
  revert before. induction words as [|w [|w' words] IH]; intros before Hne; [done| |].
  - cbn [line]. rewrite <- (app_nil_r (quoted w)), tokenize_word. done.
  - change (line (w :: w' :: words)) with (quoted w ++ 32%N :: line (w' :: words)). rewrite tokenize_word.
    transitivity (tokenize_go (line (w' :: words)) (before ++ [w]) [] false Unquoted); [reflexivity|].
    rewrite IH by done. by rewrite <- app_assoc.
Qed.

Lemma clean_tokenize t : clean t → tokenize t = tokenize_go t [] [] false Unquoted.
Proof.
  intros [Hl Hc]. unfold tokenize. rewrite decide_False by lia.
  replace (existsb is_control t) with false; [done|]. symmetry. clear Hl. induction Hc as [|c t Hc _ IH]; [done|]. cbn. by rewrite Hc.
Qed.

(** ** Commands as words *)

Definition focus_flag (d : Direction) : list char :=
  str match d with FocusUp => "-U" | FocusDown => "-D" | FocusLeft => "-L" | FocusRight => "-R" end.
Definition resize_flag (d : ResizeDirection) : list char :=
  str match d with Up => "-U" | Down => "-D" | Left => "-L" | Right => "-R" end.

Definition show_action (a : Action.t) : option (list (list char)) :=
  match a with
  | Action.Split Vertical => Some [str "split-window"]
  | Action.Split Horizontal => Some [str "split-window"; str "-h"]
  | Action.SwapPane previous stay =>
      Some ([str "swap-pane"; str (if previous then "-U" else "-D")] ++ if stay : bool then [str "-d"] else [])
  | Action.Focus d => Some [str "select-pane"; focus_flag d]
  | Action.ResizePane d n => if decide (0 < n ≤ 65535)%N then Some [str "resize-pane"; resize_flag d; to_string n] else None
  | Action.LastPane => Some [str "last-pane"]
  | Action.DisplayPanes => Some [str "display-panes"]
  | Action.ToggleZoom => Some [str "resize-pane"; str "-Z"]
  | Action.NextSession => Some [str "switch-client"; str "-n"]
  | Action.PreviousSession => Some [str "switch-client"; str "-p"]
  | Action.LastSession => Some [str "switch-client"; str "-l"]
  | Action.Sessions => Some [str "list-sessions"]
  | Action.Refresh => Some [str "refresh-client"]
  | Action.History page_back => Some (str "copy-mode" :: if page_back : bool then [str "-u"] else [])
  | Action.Paste => Some [str "paste-buffer"]
  | Action.KillPane => Some [str "kill-pane"]
  | Action.Detach => Some [str "detach-client"]
  | Action.Help => Some [str "list-keys"]
  | Action.Cancel => Some []
  | Action.BreakPane | Action.NextPane | Action.CreateSession | Action.Archives | Action.ToggleLease _ | Action.CommandPrompt => None
  end.

Definition given (name : list char) : Prop := name ≠ [].
Definition plain_name (name : list char) : Prop := name ≠ [] ∧ starts_with_dash name = false.
#[global] Instance given_dec name : Decision (given name). Proof. unfold given. apply _. Defined.
#[global] Instance plain_name_dec name : Decision (plain_name name). Proof. unfold plain_name. apply _. Defined.

(** A command line for a command, where one exists *)
Definition show (c : Command.t) : option (list (list char)) :=
  match c with
  | Command.Action a => show_action a
  | Command.NewSession None => Some [str "new-session"]
  | Command.NewSession (Some name) => Some [str "new-session"; str "-s"; name]
  | Command.SwitchSession name => if decide (given name) then Some [str "switch-client"; str "-t"; name] else None
  | Command.RenameSession None name => if decide (plain_name name) then Some [str "rename-session"; name] else None
  | Command.RenameSession (Some target) name =>
      if decide (given target ∧ given name) then Some [str "rename-session"; str "-t"; target; name] else None
  | Command.KillSession None => Some [str "kill-session"]
  | Command.KillSession (Some target) => if decide (given target) then Some [str "kill-session"; str "-t"; target] else None
  | Command.SelectPane n => if decide (0 < n ≤ u64_MAX)%N then Some [str "select-pane"; str "-t"; to_string n] else None
  | Command.BreakPane name detached =>
      let flags := if detached : bool then [str "-d"] else [] in
      match name with
      | None => Some ([str "break-pane"] ++ flags)
      | Some name => if decide (plain_name name) then Some ([str "break-pane"] ++ flags ++ [str "-n"; name]) else None
      end
  | Command.Lease kind requested =>
      Some [str match kind, requested with
                | Input, true => "take-input" | Input, false => "release-input"
                | LayoutLease, true => "take-resize" | LayoutLease, false => "release-resize"
                end]
  end.

Lemma to_string_digits n : (n ≤ u64_MAX)%N →
  to_string n ≠ [] ∧ Forall (λ c, is_digit c = true) (to_string n) ∧ digits_value (to_string n) = n.
Proof.
  intros Hn. assert (n < 10 ^ N.of_nat 20)%N as Hb.
  { eapply N.le_lt_trans; [exact Hn|]. by apply N.ltb_lt. }
  destruct (to_string_go_canonical 20 n [] Hb ltac:(done)) as (ds & E & (Hne & Hd & _) & Hv).
  rewrite app_nil_r in E. change (to_string n = ds) in E. by rewrite E.
Qed.

Lemma parse_to_string bound n : (n ≤ bound)%N → (n ≤ u64_MAX)%N → parse_unsigned bound (to_string n) = Some n.
Proof.
  intros Hb Hn. destruct (to_string_digits n Hn) as (Hne & Hd & Hv). unfold parse_unsigned.
  assert (match to_string n with 43%N :: rest => rest | _ => to_string n end = to_string n) as ->.
  { destruct (to_string n) as [|c s]; [done|]. apply Forall_inv, is_digit_iff in Hd.
    destruct c as [|p]; [done|]. do 6 (destruct p as [p|p|]; try done). lia. }
  rewrite bool_decide_eq_false_2 by done. rewrite Hv, (bool_decide_eq_true_2 (n ≤ bound)%N) by done.
  replace (forallb is_digit (to_string n)) with true; [done|]. symmetry. apply forallb_forall. intros c Hc%list_elem_of_In.
  rewrite Forall_forall in Hd. by apply Hd.
Qed.

Lemma all_digits n : (n ≤ u64_MAX)%N → forallb is_digit (to_string n) = true.
Proof.
  intros (_ & Hd & _)%to_string_digits. apply forallb_forall. intros c Hc%list_elem_of_In. rewrite Forall_forall in Hd. by apply Hd.
Qed.

Lemma parse_line name args : clean (line (name :: args)) → name ∈ COMMAND_NAMES → parse (line (name :: args)) = command_of name args.
Proof.
  intros Hc Hn. unfold parse. rewrite clean_tokenize, tokenize_line by done. cbn [app].
  unfold command_name. by rewrite decide_True.
Qed.

(** Evaluates the comparisons of fixed texts. *)
Ltac texts :=
  repeat match goal with
  | |- context [bool_decide (str ?a = str ?b)] =>
      let v := eval vm_compute in (bool_decide (str a = str b)) in
      change (bool_decide (str a = str b)) with v; cbn [andb orb negb]; cbv iota
  | |- context [bool_decide ([str ?a] = [str ?b])] =>
      let v := eval vm_compute in (bool_decide ([str a] = [str b])) in
      change (bool_decide ([str a] = [str b])) with v; cbn [andb orb negb]; cbv iota
  end.
Ltac known := match goal with
  | |- ?name ∈ COMMAND_NAMES => apply (bool_decide_unpack _); vm_compute; exact I
  end.
Ltac by_words := rewrite parse_line by (done || known); unfold command_of; texts.

Lemma show_action_parses a words : show_action a = Some words → clean (line words) → parse (line words) = ok a.
Proof.
  destruct a as [[]|previous stay0| |d|d n| | | | | | | | | | | |page_back| |[]| | | | |]; cbn [show_action]; try done.
  all: try (intros [= <-] Hc; by_words; reflexivity).
  - intros [= <-] Hc. destruct previous, stay0; cbn [app] in *; by_words; reflexivity.
  - intros [= <-] Hc. destruct d; cbn [focus_flag] in *; by_words; reflexivity.
  - case_decide as Hn; [|done]. intros [= <-] Hc. by_words. unfold resize_command.
    rewrite bool_decide_eq_false_2 by done.
    assert (resize_direction (resize_flag d) = Some d) as -> by by destruct d.
    change parse_u16 with (parse_unsigned 65535). rewrite parse_to_string by (unfold u64_MAX; lia). by rewrite decide_True by lia.
  - intros [= <-] Hc. destruct page_back; by_words; reflexivity.
  - by intros [= <-] _.
Qed.

Lemma show_parses c words : show c = Some words → clean (line words) → parse (line words) = inr c.
Proof.
  destruct c as [a|[name|]|name|[target|] name|[target|]|n|[name|] detached|kind requested]; cbn [show].
  - apply show_action_parses.
  - intros [= <-] Hc. by_words. done.
  - intros [= <-] Hc. by_words. done.
  - case_decide as Hg; [|done]. intros [= <-] Hc. by_words. unfold is_empty. by rewrite bool_decide_eq_false_2.
  - case_decide as Hg; [|done]. destruct Hg. intros [= <-] Hc. by_words. unfold is_empty. by rewrite !bool_decide_eq_false_2.
  - case_decide as Hg; [|done]. destruct Hg as [Hg1 Hg2]. intros [= <-] Hc. by_words. unfold is_empty. by rewrite bool_decide_eq_false_2, Hg2.
  - case_decide as Hg; [|done]. intros [= <-] Hc. by_words. unfold is_empty. by rewrite bool_decide_eq_false_2.
  - intros [= <-] Hc. by_words. done.
  - case_decide as Hn; [|done]. intros [= <-] Hc. by_words. unfold select_pane_command, pane_number. texts.
    rewrite all_digits by lia. rewrite parse_to_string by lia. cbn [mbind option_bind]. by rewrite decide_True by lia.
  - case_decide as Hg; [|done]. destruct Hg as [Hg1 Hg2]. intros [= <-] Hc. destruct detached; cbn [app] in *; by_words;
      unfold break_command, break_args, is_empty; texts; rewrite (bool_decide_eq_true_2 (None = None)) by done; cbn [andb];
      by rewrite bool_decide_eq_false_2, Hg2.
  - intros [= <-] Hc. destruct detached; cbn [app] in *; by_words; unfold break_command, break_args; texts; done.
  - intros [= <-] Hc. destruct kind, requested; by_words; reflexivity.
Qed.

(** ** Every command that is read can be written *)

Lemma parse_unsigned_le bound s n : parse_unsigned bound s = Some n → (n ≤ bound)%N.
Proof.
  unfold parse_unsigned. cbv zeta. destruct (bool_decide (match s with _ => _ end = [])); [done|].
  match goal with |- context [digits_value ?d] => set (v := digits_value d) end.
  destruct (forallb _ _); [|done]. cbn [andb]. case_bool_decide; [|done]. by intros [= <-].
Qed.

Definition writable (r : list char + Command.t) : Prop := match r with inr c => is_Some (show c) | inl _ => True end.

(** Goes through the tests of a reader. *)
Ltac reads :=
  repeat match goal with
  | |- writable (if ?b then _ else _) => let E := fresh "E" in destruct b eqn:E
  | |- writable (match ?l with [] => _ | _ :: _ => _ end) => destruct l
  | |- writable (match ?o with Some _ => _ | None => _ end) => let E := fresh "E" in destruct o eqn:E
  end; try exact I; try (by eexists).

Lemma given_intro name : negb (is_empty name) = true → given name.
Proof. unfold is_empty, given. by rewrite negb_true_iff, bool_decide_eq_false. Qed.

Lemma select_pane_writable args : writable (select_pane_command args).
Proof.
  unfold select_pane_command, usage, ok. reads. unfold pane_number in *. destruct (forallb _ _); [|done].
  destruct (parse_unsigned _ _) as [m|] eqn:Em; [|done]. cbn in *. case_decide; [|done]. simplify_eq.
  apply parse_unsigned_le in Em. unfold writable. cbn. rewrite decide_True by lia. by eexists.
Qed.

Lemma resize_writable args : writable (resize_command args).
Proof.
  unfold resize_command, usage, ok. reads; unfold writable; cbn; rewrite decide_True; try by eexists.
  change parse_u16 with (parse_unsigned 65535) in *. match goal with H : parse_unsigned _ _ = Some _ |- _ => apply parse_unsigned_le in H end. lia.
Qed.

Lemma swap_writable args : writable (swap_command args).
Proof.
  unfold swap_command. generalize (@None bool), false. induction args as [|arg args IH]; intros previous stay0; cbn [swap_args]; cbv zeta;
    unfold usage, ok; reads; apply IH.
Qed.

Lemma break_writable args : writable (break_command args).
Proof.
  unfold break_command. assert (∀ n : list char, @None (list char) = Some n → plain_name n) as Hn by done. revert Hn.
  generalize (@None (list char)), false. remember (length args) as k eqn:Hk. revert args Hk.
  induction k as [k IH] using lt_wf_ind; intros [|arg args] -> name detached Hn; cbn [break_args]; cbv zeta.
  - unfold writable. cbn. destruct name as [name|]; [|by eexists]. rewrite decide_True by by apply Hn. by eexists.
  - unfold usage. destruct (_ && _); [eapply IH; [|done|done]; cbn; lia|]. destruct (_ && _); [|done].
    destruct args as [|value args]; [done|]. destruct (_ && _) eqn:E; [|done]. apply andb_true_iff in E as [E1%given_intro E2%negb_true_iff].
    eapply IH; [|done|]; [cbn; lia|]. intros n [= <-]. by split.
Qed.

Lemma command_writable name args : writable (command_of name args).
Proof.
  unfold command_of. repeat match goal with |- writable (if bool_decide (_ = str _) then _ else _) => case_bool_decide end;
    [..|unfold no_argument_command, ok; reads].
  all: try by (apply select_pane_writable || apply resize_writable || apply swap_writable || apply break_writable).
  all: unfold usage, ok; cbv zeta; reads; unfold writable; cbn;
    repeat match goal with H : _ && _ = true |- _ => apply andb_true_iff in H as [? ?] end;
    rewrite decide_True; try (by eexists); unfold plain_name; rewrite <- ?negb_true_iff; auto using given_intro.
  split; [by apply given_intro|done].
Qed.

(** * The properties *)

(** What the user does at the prompt *)
Inductive edit := OpenPrompt | OpenText (text : list char) | Press (k : KeyEvent.t) | PasteText (text : list char).

(** The text that is handed over, if any, and the prompt *)
Definition edit_step (e : edit) (p : Prompt.t) : option (list (list char) * Prompt.t) :=
  match e with
  | OpenPrompt => Some ([], Prompt.open p)
  | OpenText text => Some ([], Prompt.open_text text p)
  | Press k => '(event, p) ← key k p; Some (match event with Submit text => [text] | _ => [] end, p)
  | PasteText text => p ← paste text p; Some ([], p)
  end.

Fixpoint type_all (es : list edit) (p : Prompt.t) : option (list (list char) * Prompt.t) :=
  match es with
  | [] => Some ([], p)
  | e :: es => '(handed, p) ← edit_step e p; '(more, p) ← type_all es p; Some (handed ++ more, p)
  end.

Definition edit_ok (e : edit) : Prop := match e with OpenText text => clean text | _ => True end.

Lemma edit_step_sound e p : sound p → edit_ok e → edit_step e p ⇓ λ r, Forall clean r.1 ∧ sound r.2.
Proof.
  intros Hs He. destruct e as [|t|k|t]; cbn [edit_step].
  - split; [constructor|by apply open_sound].
  - split; [constructor|by apply open_text_sound].
  - eapply Safe_bind; [by apply key_sound|]. intros [event p'] [Hp' Hev]. cbn in *. split; [|done].
    destruct Hev as [->|[->| ->]]; [constructor..|]. constructor; [by apply sound_text|constructor].
  - eapply Safe_bind; [by apply paste_sound|]. intros p' Hp'. by split; [constructor|].
Qed.

Lemma type_all_sound es p : sound p → Forall edit_ok es → type_all es p ⇓ λ r, Forall clean r.1 ∧ sound r.2.
Proof.
  intros Hs He. revert p Hs. induction He as [|e es He _ IH]; intros p Hs; cbn [type_all]; [by split; [constructor|]|].
  eapply Safe_bind; [by apply edit_step_sound|]. intros [handed p1] [Hh H1]. cbn in Hh, H1.
  eapply Safe_bind; [by apply IH|]. intros [more p2] [Hm H2]. cbn in *. split; [by apply Forall_app|done].
Qed.

Lemma default_sound : sound Prompt.default.
Proof. split; cbn; [by split; [cbn; unfold MAX_TEXT_BYTES; lia|]|apply at_start|split; [unfold MAX_HISTORY; lia|constructor]|done]. Qed.

(** C34. The prompt never panics, and what it shows is right.  Whatever is typed and pasted,
    in whatever order, and whenever the prompt is opened, on an empty line or on a name
    without control characters: the cursor stays on a character, the line and every line of
    the history within 4096 bytes, the history within 100 lines, and only texts that fit and
    have no control characters are handed over.  On a screen of two columns or more, the
    groups of characters that are shown fit behind the colon, and the cursor is shown on the
    screen, exactly where the characters before it end. *)
Theorem prompt_stays_sound `{UnicodeWidth} (es : list edit) (He : Forall edit_ok es) :
  ∃ handed p, type_all es Prompt.default = Some (handed, p) ∧ Forall clean handed ∧
    clean (text p) ∧ length (history p) ≤ 100 ∧ Forall clean (history p) ∧
    ∃ before after, text p = before ++ after ∧ cursor p = str_len before ∧
      ∀ columns, (2 ≤ columns ≤ u16_MAX)%N →
        ∃ skipped groups column, display_groups (text p) = skipped ++ groups ∧
          display columns p = Some (str ":" ++ shown (N.to_nat columns - 1) 0 groups, column) ∧
          width_of (shown (N.to_nat columns - 1) 0 groups) ≤ N.to_nat columns - 1 ∧ (column < columns)%N ∧
          cells skipped + N.to_nat column = width_of before + 1.
Proof.
  destruct (Safe_elim _ _ (type_all_sound es _ default_sound He)) as ([handed p] & E & Hh & Hs). cbn in Hh, Hs.
  exists handed, p. destruct (sound_history _ Hs) as [Hl Hf]. split_and!; try done; [by apply sound_text|].
  destruct (at_boundary_split _ _ (sound_cursor _ Hs)) as (before & after & Es & Et & Ec).
  exists before, after. split; [done|]. split; [done|]. intros columns Hc.
  destruct (prefix_cells after before None) as [k Hk]. rewrite <- Et in Hk. change (cells (option_list None)) with 0 in Hk. cbn in Hk.
  set (width := N.to_nat (columns - 1)).
  destruct (scrolled_spec (width_of before - (width - 1)) (width_of before) (display_groups (text p)) 0) as (skipped & Hg & Hsk & Hle & Hend);
    [lia|exists k; unfold display_groups; lia|].
  destruct (scrolled _ _ _ _) as [groups start] eqn:Escr. cbn in Hg, Hsk, Hle, Hend. subst start.
  replace (N.to_nat columns - 1) with width by (unfold width; lia).
  exists skipped, groups, (N.of_nat (1 + (width_of before - cells skipped))). split; [exact Hg|].
  assert (width_of before - cells skipped ≤ width - 1) as Hvis by lia. split_and!.
  - unfold display. rewrite !decide_False by lia. fold width. rewrite Es. cbn [mbind option_bind].
    change (sum_list (character_width <$> before)) with (width_of before). rewrite Escr, Nat.min_l by lia.
    rewrite decide_True; [done|]. unfold width in *. lia.
  - etrans; [apply shown_width; [lia|]|lia]. pose proof (groups_width (text p) None ltac:(done)) as Hw.
    change (groups_go (text p) None) with (display_groups (text p)) in Hw. rewrite Hg in Hw. by apply Forall_app in Hw as [_ ?].
  - unfold width in *. lia.
  - lia.
Qed.

(** A line that is too long or holds control characters is refused. *)
Lemma parse_refuses t : ¬ clean t → ∃ error, parse t = inl error.
Proof.
  intros Hc. unfold parse, tokenize. case_decide as Hl; [by eexists|]. destruct (existsb is_control t) eqn:Ec; [by eexists|].
  destruct Hc. split; [lia|]. apply Forall_forall. intros c Hin. apply not_true_is_false. intros Ht.
  apply not_true_iff_false in Ec. apply Ec, existsb_exists. exists c. split; [by apply list_elem_of_In|done].
Qed.

(** C35. Commands can be written and read back.  A command that any line is read as has a
    canonical line, its words between single quotes; whatever its names contain, that line is
    read as the same command if it has at most 4096 bytes and no control characters, and is
    refused otherwise. *)
Theorem commands_roundtrip (c : Command.t) :
  (∀ t, parse t = inr c → is_Some (show c)) ∧
  (∀ words, show c = Some words → clean (line words) → parse (line words) = inr c) ∧
  (∀ words, show c = Some words → ¬ clean (line words) → ∃ error, parse (line words) = inl error).
Proof.
  split; [|split; intros words; [apply show_parses|intros _; apply parse_refuses]]. intros t. unfold parse.
  destruct (tokenize t) as [e|[|name args]]; [done|by intros [= <-]; eexists|].
  destruct (command_name name) as [full|]; [|done]. intros E. pose proof (command_writable full args) as Hw. by rewrite E in Hw.
Qed.

Lemma commands_roundtrip_witness :
  let c := Command.RenameSession (Some (str "it's; $HOME")) (str "-a b") in
  show c = Some [str "rename-session"; str "-t"; str "it's; $HOME"; str "-a b"] ∧
  parse (str "'rename-session' '-t' 'it'\''s; $HOME' '-a b'") = inr c.
Proof.
  cbv zeta. split; [by vm_compute|].
  apply (proj1 (proj2 (commands_roundtrip (Command.RenameSession (Some (str "it's; $HOME")) (str "-a b"))))
    [str "rename-session"; str "-t"; str "it's; $HOME"; str "-a b"]); [by vm_compute|].
  apply (bool_decide_unpack _). vm_compute. exact I.
Defined.

Module Narrow.
#[export] Instance narrow_width : UnicodeWidth := λ _, Some 1.
End Narrow.
Import Narrow.

(** A name is edited, then a command is typed on a narrow screen *)
Definition session_of_edits : list edit :=
  let press code := Press (KeyEvent.Mk code KeyModifiers.NONE false) in
  [OpenText (str "work"); press KeyCode.Left; press KeyCode.Backspace; press KeyCode.Enter; OpenPrompt;
   PasteText (str "kill-pane"); press KeyCode.Left].

Lemma prompt_stays_sound_witness :
  ∃ handed p, type_all session_of_edits Prompt.default = Some (handed, p) ∧ handed = [str "wok"] ∧
    display 6 p = Some (str ":-pane", 5%N) ∧ Forall clean handed.
Proof.
  destruct (prompt_stays_sound session_of_edits) as (handed & p & E & Hh & _).
  { repeat constructor; apply (bool_decide_unpack _); vm_compute; exact I. }
  exists handed, p. split; [exact E|]. vm_compute in E. injection E as <- <-. split_and!; [reflexivity|vm_compute; reflexivity|exact Hh].
Defined.
