(* ===== verification/CopyMode.v ===== *)
(** The copy mode of the terminal front end (apps/tui/src/copy.rs): a frozen text, in rows,
    with a cursor, a view of it, selections by keys and by the pointer, and searching.

    Rows keep their place: a row is followed by another of the same line where it is
    soft-wrapped.  Slicing and indexing out of range panic, and are [None] or [Panic]
    here; of the texts in the status line only the counts are worth a statement. *)

From S2P Require Import Prelude.
From S2P Require Import Cells.
From S2P Require Import Lines.
From S2P Require Import Layout.
From S2P Require Import Observers.
From S2P Require Import History.
From S2P Require Import HistoryInv.
From S2P Require Import Prompt.
From stdpp Require Import strings sorting.

Module Position.
Record t := Mk { row : nat; column : nat }.
#[global] Instance eq_dec : EqDecision t.
Proof. solve_decision. Defined.
Definition default : t := Mk 0 0.
Definition lt (p q : t) : Prop := row p < row q ∨ row p = row q ∧ column p < column q.
#[global] Instance lt_dec p q : Decision (lt p q).
Proof. unfold lt. apply _. Defined.
Definition le (p q : t) : Prop := lt p q ∨ p = q.
#[global] Instance le_dec p q : Decision (le p q).
Proof. unfold le. apply _. Defined.
Definition min (p q : t) : t := if decide (lt q p) then q else p.
Definition max (p q : t) : t := if decide (lt q p) then p else q.
End Position.

Module CopyAction.
Inductive t := Stay | Close | Copy (text : list char).
End CopyAction.

Module MouseRelease.
Inductive t := Select | Copy.
#[global] Instance eq_dec : EqDecision t.
Proof. solve_decision. Defined.
End MouseRelease.

Module BottomBehavior.
Inductive t := Stay | ReturnToLive.
#[global] Instance eq_dec : EqDecision t.
Proof. solve_decision. Defined.
End BottomBehavior.

Module DragState.
Inductive t := Idle | Pressed (column row : nat) (anchor : Position.t) | Selecting.
End DragState.

Module Selection.
Inductive t := Extending (anchor : Position.t) | Complete (anchor end_ : Position.t).
End Selection.

Definition newline : char := 10%N.

(** [line[from..to]] *)
Definition slice {A} (l : list A) (from to : nat) : option (list A) :=
  if decide (from ≤ to ≤ length l) then Some (take (to - from) (drop from l)) else None.

Module CopyMode.
Record t := Mk {
  lines : list (list char);
  pens : list (list ((nat * nat) * Pen.t));
  soft_wrapped : list bool;
  cursor : Position.t;
  top : nat;
  left : nat;
  selection : option Selection.t;
  drag_state : DragState.t;
  query : list char;
  searching : bool;
  backwards : bool;
  notice : list char;
  history_gap : bool;
  bottom_behavior : BottomBehavior.t;
}.

Definition with_cursor (x : Position.t) (m : t) : t :=
  Mk (lines m) (pens m) (soft_wrapped m) x (top m) (left m) (selection m) (drag_state m) (query m)
    (searching m) (backwards m) (notice m) (history_gap m) (bottom_behavior m).
Definition with_top (x : nat) (m : t) : t :=
  Mk (lines m) (pens m) (soft_wrapped m) (cursor m) x (left m) (selection m) (drag_state m) (query m)
    (searching m) (backwards m) (notice m) (history_gap m) (bottom_behavior m).
Definition with_left (x : nat) (m : t) : t :=
  Mk (lines m) (pens m) (soft_wrapped m) (cursor m) (top m) x (selection m) (drag_state m) (query m)
    (searching m) (backwards m) (notice m) (history_gap m) (bottom_behavior m).
Definition with_selection (x : option Selection.t) (m : t) : t :=
  Mk (lines m) (pens m) (soft_wrapped m) (cursor m) (top m) (left m) x (drag_state m) (query m)
    (searching m) (backwards m) (notice m) (history_gap m) (bottom_behavior m).
Definition with_drag_state (x : DragState.t) (m : t) : t :=
  Mk (lines m) (pens m) (soft_wrapped m) (cursor m) (top m) (left m) (selection m) x (query m)
    (searching m) (backwards m) (notice m) (history_gap m) (bottom_behavior m).
Definition with_query (x : list char) (m : t) : t :=
  Mk (lines m) (pens m) (soft_wrapped m) (cursor m) (top m) (left m) (selection m) (drag_state m) x
    (searching m) (backwards m) (notice m) (history_gap m) (bottom_behavior m).
Definition with_searching (x : bool) (m : t) : t :=
  Mk (lines m) (pens m) (soft_wrapped m) (cursor m) (top m) (left m) (selection m) (drag_state m) (query m)
    x (backwards m) (notice m) (history_gap m) (bottom_behavior m).
Definition with_backwards (x : bool) (m : t) : t :=
  Mk (lines m) (pens m) (soft_wrapped m) (cursor m) (top m) (left m) (selection m) (drag_state m) (query m)
    (searching m) x (notice m) (history_gap m) (bottom_behavior m).
Definition with_notice (x : list char) (m : t) : t :=
  Mk (lines m) (pens m) (soft_wrapped m) (cursor m) (top m) (left m) (selection m) (drag_state m) (query m)
    (searching m) (backwards m) x (history_gap m) (bottom_behavior m).
Definition with_bottom_behavior (x : BottomBehavior.t) (m : t) : t :=
  Mk (lines m) (pens m) (soft_wrapped m) (cursor m) (top m) (left m) (selection m) (drag_state m) (query m)
    (searching m) (backwards m) (notice m) (history_gap m) x.

Definition cursor_row (m : t) : nat := Position.row (cursor m).
Definition with_row (row : nat) (m : t) : t := with_cursor (Position.Mk row (Position.column (cursor m))) m.
Definition with_column (column : nat) (m : t) : t := with_cursor (Position.Mk (cursor_row m) column) m.

Definition new (lines : list (list char)) : t :=
  Mk lines (replicate (length lines) []) (replicate (length lines) false) (Position.Mk (length lines - 1) 0)
    0 0 None DragState.Idle [] false false [] false BottomBehavior.Stay.

Section mode.
Context `{UnicodeWidth}.

Definition width (c : char) : nat := default 0 (char_width c).

(** The rows of one line: the loop over its characters, with the row so far and its cells *)
Fixpoint wrap (limit : nat) (row : list char) (cells : nat) (text : list char) : list (list char * bool) :=
  match text with
  | [] => [(row, false)]
  | c :: text =>
      if decide (0 < width c ∧ 0 < cells ∧ limit < cells + width c)
      then (row, true) :: wrap limit [c] (width c) text
      else wrap limit (row ++ [c]) (cells + width c) text
  end.

Definition new_wrapped (lines : list (list char)) (columns : nat) : t :=
  let rows := mjoin (wrap (columns `max` 1) [] 0 <$> lines) in
  let mode := new rows.*1 in
  Mk (CopyMode.lines mode) (pens mode) rows.*2 (cursor mode) (top mode) (left mode) (selection mode)
    (drag_state mode) (query mode) (searching mode) (backwards mode) (notice mode) (history_gap mode)
    (bottom_behavior mode).

Definition row_pens (row : HistoryRow.t) : list ((nat * nat) * Pen.t) :=
  if negb (bool_decide (HistoryRow.styles row = [])) && is_ok (validate_history_row row)
  then (λ span, let start := N.to_nat (StyleSpan.start span) in
                ((start, start + N.to_nat (StyleSpan.length span)), style_pen (StyleSpan.style span)))
         <$> HistoryRow.styles row
  else [].

Definition from_rows (prefix : list (list char)) (rows : list HistoryRow.t) (columns : nat) : t :=
  let mode := new_wrapped prefix columns in
  let lines := CopyMode.lines mode ++ (HistoryRow.text <$> rows) in
  Mk lines (pens mode ++ (row_pens <$> rows)) (soft_wrapped mode ++ (HistoryRow.wrapped <$> rows))
    (Position.Mk (length lines - 1) (Position.column (cursor mode)))
    (top mode) (left mode) (selection mode) (drag_state mode) (query mode) (searching mode) (backwards mode)
    (notice mode) (history_gap mode) (bottom_behavior mode).

(** [partition_point] of a list whose first elements satisfy the test and the others do not *)
Fixpoint partition_point {A} (test : A → bool) (l : list A) : nat :=
  match l with
  | x :: l => if test x then S (partition_point test l) else 0
  | [] => 0
  end.

Definition pen (position : Position.t) (m : t) : Pen.t :=
  match pens m !! Position.row position with
  | None => Pen.default
  | Some row =>
      let index := partition_point (λ '((_, end_), _), bool_decide (end_ ≤ Position.column position)) row in
      match row !! index with
      | Some ((start, end_), pen) =>
          if decide (start ≤ Position.column position < end_) then pen else Pen.default
      | None => Pen.default
      end
  end.

Definition cursor_column (m : t) : nat :=
  match lines m !! cursor_row m with
  | Some line => sum_list (width <$> take (Position.column (cursor m)) line)
  | None => 0
  end.

Definition line_len (m : t) : nat := default 0 (length <$> lines m !! cursor_row m).

Definition clamp_row (m : t) : t := with_row (cursor_row m `min` (length (lines m) - 1)) m.
Definition clamp_column (m : t) : t := with_column (Position.column (cursor m) `min` (line_len m - 1)) m.

Definition fit (columns height : nat) (m : t) : t :=
  let m := clamp_column (clamp_row m) in
  let m := with_top (top m `min` cursor_row m) m in
  let m := if decide (top m + height `max` 1 ≤ cursor_row m)
           then with_top (cursor_row m + 1 - height `max` 1) m else m in
  let column := cursor_column m in
  let cursor_width := match line ← lines m !! cursor_row m; line !! Position.column (cursor m) with
                      | Some c => width c `max` 1
                      | None => 1
                      end in
  let m := with_left (left m `min` column) m in
  if decide (left m + columns `max` 1 < column + cursor_width)
  then with_left (column + cursor_width - columns `max` 1) m else m.

Definition scroll (up : bool) (rows height : nat) (m : t) : t * CopyAction.t :=
  let relative := cursor_row m - top m in
  let last := length (lines m) - height `max` 1 in
  let m := with_top ((if up then top m - rows else top m + rows) `min` last) m in
  let m := with_row ((top m + relative) `min` (length (lines m) - 1)) m in
  let m := clamp_column m in
  if negb up && bool_decide (bottom_behavior m = BottomBehavior.ReturnToLive) && negb (bool_decide (is_Some (selection m)))
     && negb (searching m) && bool_decide (top m = last)
  then (m, CopyAction.Close) else (m, CopyAction.Stay).

(** The loop of [position_at]: the column found, or the last one that starts a cell *)
Fixpoint column_at (target index cell last : nat) (line : list char) : nat :=
  match line with
  | [] => last
  | c :: line =>
      if decide (width c = 0) then column_at target (S index) cell last line else
      if decide (target < cell + width c) then index
      else column_at target (S index) (cell + width c) index line
  end.

Definition position_at (column row : nat) (m : t) : Position.t :=
  let row := (top m + row) `min` (length (lines m) - 1) in
  match lines m !! row with
  | None => Position.default
  | Some line => Position.Mk row (column_at (left m + column) 0 0 0 line)
  end.

(** * The pointer *)

Definition complete_selection (m : t) : t :=
  match selection m with
  | Some (Selection.Extending anchor) => with_selection (Some (Selection.Complete anchor (cursor m))) m
  | _ => m
  end.

Definition begin_drag (column row : nat) (m : t) : t :=
  let m := with_selection None m in
  let m := with_drag_state (DragState.Pressed column row (position_at column row m)) m in
  with_notice [] (with_searching false m).

Definition drag (column row : nat) (m : t) : t :=
  match drag_state m with
  | DragState.Idle => m
  | DragState.Pressed initial_column initial_row anchor =>
      if decide (column = initial_column ∧ row = initial_row) then m else
      let m := with_drag_state DragState.Selecting (with_selection (Some (Selection.Extending anchor)) m) in
      with_cursor (position_at column row m) m
  | DragState.Selecting => with_cursor (position_at column row m) m
  end.

Definition finish_drag (m : t) : t * bool :=
  let idle := with_drag_state DragState.Idle m in
  match drag_state m with
  | DragState.Selecting => (complete_selection idle, true)
  | DragState.Pressed _ _ _ => (with_selection None idle, false)
  | DragState.Idle => (idle, false)
  end.

Definition clear_selection (m : t) : t :=
  with_notice [] (with_drag_state DragState.Idle (with_selection None m)).

(** * Selections *)

Definition selection_bounds (m : t) : option (Position.t * Position.t) :=
  selection ← selection m;
  let '(anchor, end_) := match selection with
                         | Selection.Extending anchor => (anchor, cursor m)
                         | Selection.Complete anchor end_ => (anchor, end_)
                         end in
  Some (Position.min anchor end_, Position.max anchor end_).

Definition selected (position : Position.t) (m : t) : bool :=
  match selection_bounds m with
  | Some (start, end_) => bool_decide (Position.le start position ∧ Position.le position end_)
  | None => false
  end.

(** The marks at the front of a row *)
Fixpoint marks (line : list char) : nat :=
  match line with
  | c :: line => if decide (width c = 0) then S (marks line) else 0
  | [] => 0
  end.

Definition wrapped_at (m : t) (row : nat) : bool := default false (soft_wrapped m !! row).

(** [Err] is the early return of [None], for a row that is not there. *)
Definition selected_row (m : t) (start end_ : Position.t) (row : nat) : outcome () (list char) :=
  line ← ok_or (lines m !! row) ();
  let from := if decide (row = Position.row start) then Position.column start `min` length line else 0 in
  let to := if decide (row = Position.row end_)
            then let to := (Position.column end_ + 1) `min` length line in to + marks (drop to line)
            else length line in
  piece ← expect (slice line from to);
  Ok (piece ++ if bool_decide (row ≠ Position.row end_) && negb (wrapped_at m row) then [newline] else []).

Fixpoint selected_rows (m : t) (start end_ : Position.t) (rows : list nat) : outcome () (list char) :=
  match rows with
  | [] => Ok []
  | row :: rows =>
      piece ← selected_row m start end_ row;
      rest ← selected_rows m start end_ rows;
      Ok (piece ++ rest)
  end.

Definition selected_text (m : t) : outcome () (list char) :=
  '(start, end_) ← ok_or (selection_bounds m) ();
  selected_rows m start end_ (seq (Position.row start) (Position.row end_ + 1 - Position.row start)).

Definition copy_selection (m : t) : option (t * CopyAction.t) :=
  match selected_text m with
  | Panic => None
  | Ok (c :: text) => Some (complete_selection m, CopyAction.Copy (c :: text))
  | _ => Some (m, CopyAction.Stay)
  end.

Definition release_drag (behavior : MouseRelease.t) (m : t) : option (t * CopyAction.t) :=
  let '(m, selecting) := finish_drag m in
  if selecting && bool_decide (behavior = MouseRelease.Copy) then copy_selection m else Some (m, CopyAction.Stay).

(** * Searching *)

Record Found := Matches { first : option Position.t; last_ : option Position.t;
                          next : option Position.t; previous : option Position.t }.

Definition get_or_insert (old : option Position.t) (new : Position.t) : option Position.t :=
  Some (default new old).

Definition note (cursor : Position.t) (found : Found) (position : Position.t) : Found :=
  Matches (get_or_insert (first found) position) (Some position)
    (if decide (Position.lt cursor position) then get_or_insert (next found) position else next found)
    (if decide (Position.lt position cursor) then Some position else previous found).

Definition windows (n : nat) (text : list char) : list (list char) :=
  (λ column, take n (drop column text)) <$> seq 0 (length text + 1 - n).

Fixpoint scan (cursor : Position.t) (needle : list char) (positions : list Position.t) (column : nat)
    (candidates : list (list char)) (found : Found) : option Found :=
  match candidates with
  | [] => Some found
  | candidate :: candidates =>
      found ← (if decide (candidate = needle)
               then position ← positions !! column; Some (note cursor found position)
               else Some found);
      scan cursor needle positions (S column) candidates found
  end.

(** The loop over the rows, with the text of the line so far and where it is from *)
Fixpoint search_rows (m : t) (needle : list char) (row : nat) (lines : list (list char)) (text : list char)
    (positions : list Position.t) (found : Found) : option Found :=
  match lines with
  | [] => Some found
  | line :: lines =>
      let text := text ++ line in
      let positions := positions ++ (Position.Mk row <$> seq 0 (length line)) in
      if wrapped_at m row && bool_decide (row + 1 < length (CopyMode.lines m))
      then search_rows m needle (S row) lines text positions found
      else found ← scan (cursor m) needle positions 0 (windows (length needle) text) found;
           search_rows m needle (S row) lines [] [] found
  end.

Definition or_found (p q : option Position.t) : option Position.t := match p with Some _ => p | None => q end.

Definition search (backwards : bool) (m : t) : option t :=
  if decide (query m = []) then Some m else
  found ← search_rows m (query m) 0 (lines m) [] [] (Matches None None None None);
  Some (match (if backwards then or_found (previous found) (last_ found) else or_found (next found) (first found)) with
        | Some position => with_cursor position m
        | None => with_notice (str "No match") m
        end).

(** * Keys *)

(** What the modifiers make of a key: a result, or another key *)
Inductive Translated := Returns (m : t) (action : CopyAction.t) | Continues (code : KeyCode.t).

Definition control_code (code : KeyCode.t) (m : t) : Translated :=
  match code with
  | KeyCode.Null => Continues (KeyCode.Char (ch " "))
  | KeyCode.Char c =>
      if decide (c = ch "c") then Returns m CopyAction.Close else
      if decide (c = ch "g") then Returns (clear_selection m) CopyAction.Stay else
      if decide (c = ch "b") then Continues KeyCode.Left else
      if decide (c = ch "f") then Continues KeyCode.Right else
      if decide (c = ch "p") then Continues KeyCode.Up else
      if decide (c = ch "n") then Continues KeyCode.Down else
      if decide (c = ch "a") then Continues KeyCode.Home else
      if decide (c = ch "e") then Continues KeyCode.End_ else
      if decide (c = ch "v") then Continues KeyCode.PageDown else
      if decide (c = ch " " ∨ c = ch "@") then Continues (KeyCode.Char (ch " ")) else
      if decide (c = ch "w") then Continues KeyCode.Enter else
      if decide (c = ch "r") then Continues (KeyCode.Char (ch "?")) else
      if decide (c = ch "s") then Continues (KeyCode.Char (ch "/")) else Returns m CopyAction.Stay
  | _ => Returns m CopyAction.Stay
  end.

Definition alt_code (code : KeyCode.t) (m : t) : Translated :=
  match code with
  | KeyCode.Char c =>
      if decide (c = ch "v") then Continues KeyCode.PageUp else
      if decide (c = ch "w") then Continues KeyCode.Enter else
      if decide (c = ch "<") then Continues (KeyCode.Char (ch "g")) else
      if decide (c = ch ">") then Continues (KeyCode.Char (ch "G")) else Returns m CopyAction.Stay
  | _ => Returns m CopyAction.Stay
  end.

(** While a query is typed *)
Definition query_key (key : KeyEvent.t) (m : t) : option t :=
  let modifiers := KeyEvent.modifiers key in
  match KeyEvent.code key with
  | KeyCode.Esc => Some (with_searching false m)
  | KeyCode.Enter => search (backwards m) (with_searching false m)
  | KeyCode.Backspace => Some (with_query (take (length (query m) - 1) (query m)) m)
  | KeyCode.Char c =>
      if KeyModifiers.control modifiers || KeyModifiers.alt modifiers then Some m
      else Some (with_query (query m ++ [c]) m)
  | _ => Some m
  end.

(** Which command a key is *)
Inductive Command :=
  | Leave | MoveUp | MoveDown | MoveLeft | MoveRight | PageUp_ | PageDown_ | First | Last | LineStart | LineEnd
  | Select | CopyIt | Search (backwards : bool) | Next | Previous | Nothing.

Definition command (code : KeyCode.t) : Command :=
  match code with
  | KeyCode.Esc => Leave
  | KeyCode.Up => MoveUp | KeyCode.Down => MoveDown | KeyCode.Left => MoveLeft | KeyCode.Right => MoveRight
  | KeyCode.PageUp => PageUp_ | KeyCode.PageDown => PageDown_
  | KeyCode.Home => LineStart | KeyCode.End_ => LineEnd
  | KeyCode.Enter => CopyIt
  | KeyCode.Char c =>
      if decide (c = ch "q") then Leave else
      if decide (c = ch "k") then MoveUp else
      if decide (c = ch "j") then MoveDown else
      if decide (c = ch "h") then MoveLeft else
      if decide (c = ch "l") then MoveRight else
      if decide (c = ch "g") then First else
      if decide (c = ch "G") then Last else
      if decide (c = ch "0") then LineStart else
      if decide (c = ch "$") then LineEnd else
      if decide (c = ch " " ∨ c = ch "v") then Select else
      if decide (c = ch "y") then CopyIt else
      if decide (c = ch "/") then Search false else
      if decide (c = ch "?") then Search true else
      if decide (c = ch "n") then Next else
      if decide (c = ch "N") then Previous else Nothing
  | _ => Nothing
  end.

(** What follows every command that does not return: the cursor back onto a character *)
Definition stay (m : t) : t * CopyAction.t := (clamp_column (clamp_row m), CopyAction.Stay).

Definition perform (command : Command) (page : nat) (m : t) : option (t * CopyAction.t) :=
  match command with
  | Leave => Some (m, CopyAction.Close)
  | MoveUp => Some (stay (with_row (cursor_row m - 1) m))
  | MoveDown => Some (stay (with_row (cursor_row m + 1) m))
  | MoveLeft => Some (stay (with_column (Position.column (cursor m) - 1) m))
  | MoveRight => Some (stay (with_column (Position.column (cursor m) + 1) m))
  | PageUp_ => Some (stay (with_row (cursor_row m - page `max` 1) m))
  | PageDown_ => Some (stay (with_row (cursor_row m + page `max` 1) m))
  | First => Some (stay (with_cursor Position.default m))
  | Last => Some (stay (with_row (length (lines m) - 1) m))
  | LineStart => Some (stay (with_column 0 m))
  | LineEnd => Some (stay (with_column (line_len m - 1) m))
  | Select => Some (stay (with_selection (Some (Selection.Extending (cursor m))) m))
  | CopyIt =>
      '(m, action) ← copy_selection m;
      match action with
      | CopyAction.Copy _ => Some (m, action)
      | _ => Some (stay (with_notice (str "Ctrl+Space or v starts a selection") m))
      end
  | Search backwards => Some (stay (with_query [] (with_searching true (with_backwards backwards m))))
  | Next => m ← search (backwards m) m; Some (stay m)
  | Previous => m ← search (negb (backwards m)) m; Some (stay m)
  | Nothing => Some (stay m)
  end.

Definition key (key : KeyEvent.t) (page : nat) (m : t) : option (t * CopyAction.t) :=
  let m := (finish_drag m).1 in
  if searching m then m ← query_key key m; Some (m, CopyAction.Stay) else
  let m := with_notice [] m in
  let modifiers := KeyEvent.modifiers key in
  let translated :=
    if KeyModifiers.control modifiers then control_code (KeyEvent.code key) m
    else if KeyModifiers.alt modifiers then alt_code (KeyEvent.code key) m
    else if decide (KeyEvent.code key = KeyCode.Char (ch " ")) then Continues KeyCode.PageDown
    else Continues (KeyEvent.code key) in
  match translated with
  | Returns m action => Some (m, action)
  | Continues code => perform (command code) page m
  end.
End mode.

(** * Status *)

Fixpoint grouped (digits : list char) : list char :=
  match digits with
  | [] => []
  | digit :: rest =>
      digit :: if bool_decide (rest ≠ [] ∧ length rest `mod` 3 = 0) then (ch ",") :: grouped rest else grouped rest
  end.
Definition format_line_count (count : nat) : list char := grouped (to_string (N.of_nat count)).

Definition history_status (first_visible height : nat) (m : t) : list char :=
  let total := length (lines m) in
  let start := (top m + first_visible) `min` total in
  let end_ := (start + height) `min` total in
  let first := if decide (start < end_) then start + 1 else 0 in
  str "history " ++ format_line_count first ++ [0x2013%N] ++
  format_line_count (if decide (first = 0) then 0 else end_) ++ str " / " ++ format_line_count total.
End CopyMode.

(** * What the text of a mode is *)

Import CopyMode.

(** The text of rows, from row [row] on: a newline after each row that is not wrapped *)
Fixpoint units (soft : nat → bool) (row : nat) (lines : list (list char)) : list char :=
  match lines with
  | [] => []
  | line :: lines => line ++ (if soft row then [] else [newline]) ++ units soft (S row) lines
  end.
Definition document (m : CopyMode.t) : list char := units (wrapped_at m) 0 (lines m).

(** The rest of a line from row [row] on *)
Fixpoint logical (soft : nat → bool) (row : nat) (lines : list (list char)) : list char :=
  match lines with
  | [] => []
  | line :: lines => line ++ if soft row then logical soft (S row) lines else []
  end.

Definition row_len (m : CopyMode.t) (row : nat) : nat := default 0 (length <$> lines m !! row).

(** Where the query begins, possibly going on over soft wraps *)
Definition occurs (m : CopyMode.t) (p : Position.t) : Prop :=
  Position.column p < row_len m (Position.row p) ∧
  query m `prefix_of` drop (Position.column p) (logical (wrapped_at m) (Position.row p) (drop (Position.row p) (lines m))).

(** * Searching *)

#[global] Instance lt_strict : StrictOrder Position.lt.
Proof.
  split; [intros [r c]|intros [r1 c1] [r2 c2] [r3 c3]]; unfold complement, Position.lt; cbn; lia.
Qed.

Lemma lt_total (p q : Position.t) : Position.lt p q ∨ p = q ∨ Position.lt q p.
Proof.
  destruct p as [r1 c1], q as [r2 c2]. unfold Position.lt. cbn.
  destruct (decide (r1 = r2 ∧ c1 = c2)) as [[-> ->]|]; [by right; left|lia].
Qed.

Lemma not_lt (p q : Position.t) : ¬ Position.lt p q → Position.le q p.
Proof. intros H. unfold Position.le. destruct (lt_total p q) as [?|[->|?]]; [done|by right|by left]. Qed.

(** Places with the text that follows them; those where the text begins with the needle *)
Fixpoint tails (text : list char) (positions : list Position.t) : list (Position.t * list char) :=
  match text, positions with
  | c :: text', p :: positions' => (p, text) :: tails text' positions'
  | _, _ => []
  end.
Definition hits (needle : list char) (cells : list (Position.t * list char)) : list Position.t :=
  (filter (λ cell, take (length needle) cell.2 = needle) cells).*1.

Definition row_cells (row : nat) (line rest : list char) : list (Position.t * list char) :=
  tails (line ++ rest) (Position.Mk row <$> seq 0 (length line)).
Fixpoint cells (soft : nat → bool) (row : nat) (lines : list (list char)) : list (Position.t * list char) :=
  match lines with
  | [] => []
  | line :: lines =>
      row_cells row line (if soft row then logical soft (S row) lines else []) ++ cells soft (S row) lines
  end.

Lemma tails_app text rest ps qs :
  length ps = length text → tails (text ++ rest) (ps ++ qs) = tails (text ++ rest) ps ++ tails rest qs.
Proof.
  revert ps. induction text as [|c text IH]; intros [|p ps] Hl; try done.
  - cbn [app]. by destruct rest.
  - cbn [app tails]. f_equal. apply IH. by injection Hl.
Qed.

Lemma hits_app needle xs ys : hits needle (xs ++ ys) = hits needle xs ++ hits needle ys.
Proof. unfold hits. by rewrite filter_app, fmap_app. Qed.

Lemma hits_short needle text ps : length text < length needle → hits needle (tails text ps) = [].
Proof.
  revert ps. induction text as [|c text IH]; intros [|p ps] Hl; try done.
  unfold hits in *. cbn [tails]. rewrite filter_cons_False.
  - apply IH. cbn in Hl. lia.
  - cbn [snd]. intros E. apply (f_equal length) in E. rewrite length_take in E. lia.
Qed.

Lemma scan_hits cursor needle text ps pre found :
  needle ≠ [] → length ps = length text →
  scan cursor needle (pre ++ ps) (length pre) (windows (length needle) text) found
  = Some (foldl (note cursor) found (hits needle (tails text ps))).
Proof.
  intros Hn. revert ps pre found. induction text as [|c text IH]; intros ps pre found Hl.
  { destruct needle; [done|]. by destruct ps. }
  destruct ps as [|p ps]; [done|]. injection Hl as Hl.
  destruct (decide (length (c :: text) < length needle)) as [Hs|Hs].
  { rewrite hits_short by done. unfold windows. by replace (length (c :: text) + 1 - length needle) with 0 by lia. }
  unfold windows. replace (length (c :: text) + 1 - length needle) with (S (length text + 1 - length needle)).
  2:{ destruct needle; [done|]. cbn in *. lia. }
  cbn [seq]. rewrite fmap_cons, <- fmap_S_seq, <- list_fmap_compose. cbn [scan drop].
  rewrite list_lookup_middle by done.
  assert (Hrest : ∀ found, scan cursor needle (pre ++ p :: ps) (S (length pre))
      (((λ column, take (length needle) (drop column (c :: text))) ∘ S) <$> seq 0 (length text + 1 - length needle)) found
    = Some (foldl (note cursor) found (hits needle (tails text ps)))).
  { intros f. specialize (IH ps (pre ++ [p]) f Hl). rewrite <- app_assoc, length_app, Nat.add_1_r in IH. exact IH. }
  cbn [tails]. unfold hits in *. case_decide as Hd.
  - rewrite filter_cons_True by done. cbn. apply Hrest.
  - rewrite filter_cons_False by done. cbn. apply Hrest.
Qed.

Lemma tails_nil text : tails text [] = [].
Proof. by destruct text. Qed.

Lemma row_positions row (line : list char) : length (Position.Mk row <$> seq 0 (length line)) = length line.
Proof. by rewrite length_fmap, length_seq. Qed.

Section rows.
Variable m : CopyMode.t.
Variable needle : list char.
Hypothesis Hneedle : needle ≠ [].
Let soft : nat → bool := wrapped_at m.

Lemma search_rows_hits row lns text ps found :
  lns = drop row (lines m) → length ps = length text → (lns = [] → text = []) →
  search_rows m needle row lns text ps found
  = Some (foldl (note (cursor m)) found
            (hits needle (tails (text ++ logical soft row lns) ps) ++ hits needle (cells soft row lns))).
Proof.
  revert row text ps found. induction lns as [|line lns IH]; intros row text ps found Hd Hl He.
  { rewrite He in * by done. destruct ps; [|done]. done. }
  assert (Hd' : lns = drop (S row) (lines m)).
  { rewrite <- (Nat.add_1_r row), <- drop_drop, <- Hd. by rewrite skipn_cons, drop_0. }
  assert (Hlen : length (lines m) = row + S (length lns)).
  { apply (f_equal length) in Hd. rewrite length_drop in Hd. cbn in Hd. lia. }
  cbn [search_rows cells logical]. unfold row_cells.
  rewrite hits_app. rewrite (app_assoc (hits needle (tails (text ++ _) ps))), <- hits_app, <- tails_app by done.
  set (ps' := ps ++ _). assert (Hps : length ps' = length (text ++ line)).
  { unfold ps'. rewrite !length_app, row_positions. lia. }
  destruct (soft row) eqn:Es; unfold soft in Es; rewrite Es; cbn [andb].
  - case_bool_decide as Hb.
    + rewrite (IH (S row) (text ++ line) ps') by (done || (intros ->; cbn in Hlen; lia)).
      by rewrite <- app_assoc.
    + assert (lns = []) as -> by (destruct lns; [done|cbn in Hlen; lia]).
      pose proof (scan_hits (cursor m) needle (text ++ line) ps' [] found Hneedle Hps) as Hs.
      cbn [app length] in Hs. rewrite Hs. cbn. by rewrite !app_nil_r.
  - pose proof (scan_hits (cursor m) needle (text ++ line) ps' [] found Hneedle Hps) as Hs.
    cbn [app length] in Hs. rewrite Hs. cbn [mbind option_bind].
    rewrite (IH (S row) [] []) by done. by rewrite tails_nil, app_nil_r, !foldl_app.
Qed.
End rows.

Lemma take_prefix (needle text : list char) : take (length needle) text = needle ↔ needle `prefix_of` text.
Proof.
  split; [intros <-; exists (drop (length needle) text); by rewrite take_drop|].
  intros [rest ->]. apply take_app_length.
Qed.

Lemma elem_of_tails text ps p t :
  (p, t) ∈ tails text ps ↔ ∃ i, ps !! i = Some p ∧ i < length text ∧ t = drop i text.
Proof.
  revert ps. induction text as [|c text IH]; intros [|q ps]; cbn [tails].
  1-3: split; [by intros ?%not_elem_of_nil|intros (i & Hi & Hl & _); cbn in *; try lia; by destruct i].
  rewrite elem_of_cons, IH. split.
  - intros [[= -> ->]|(i & Hi & Hl & ->)]; [by exists 0; repeat split; cbn; lia|].
    exists (S i). repeat split; [done|cbn; lia].
  - intros ([|i] & Hi & Hl & ->); [left; cbn in Hi; by injection Hi as ->|right].
    exists i. repeat split; [done|cbn in Hl; lia].
Qed.

Lemma elem_of_cells soft row lns p t :
  (p, t) ∈ cells soft row lns ↔
  ∃ i line, lns !! i = Some line ∧ Position.row p = row + i ∧ Position.column p < length line ∧
            t = drop (Position.column p) (logical soft (row + i) (drop i lns)).
Proof.
  revert row. induction lns as [|line lns IH]; intros row; cbn [cells].
  { split; [by intros ?%not_elem_of_nil|by intros (i & l & H & _)]. }
  rewrite elem_of_app, IH. unfold row_cells. rewrite elem_of_tails. split.
  - intros [(i & Hi & Hl & ->)|(i & l & Hl & Hr & Hc & ->)].
    + apply list_lookup_fmap_Some in Hi as (c & -> & Hi). apply lookup_seq in Hi as [-> Hi].
      exists 0, line. repeat split; [cbn; lia..|]. by rewrite Nat.add_0_r.
    + exists (S i), l. repeat split; [done|lia|done|]. by rewrite Nat.add_succ_r.
  - intros ([|i] & l & Hl & Hr & Hc & ->).
    + left. injection Hl as <-. exists (Position.column p). repeat split.
      * destruct p as [r c]. cbn in *. rewrite list_lookup_fmap, lookup_seq_lt by done. cbn. do 2 f_equal. lia.
      * rewrite length_app. lia.
      * by rewrite Nat.add_0_r.
    + right. exists i, l. repeat split; [done|lia|done|]. by rewrite Nat.add_succ_r.
Qed.

Lemma elem_of_hits m p :
  p ∈ hits (query m) (cells (wrapped_at m) 0 (lines m)) ↔ occurs m p.
Proof.
  unfold hits, occurs, row_len. rewrite list_elem_of_fmap. split.
  - intros ([q t] & -> & [Ht Hc]%list_elem_of_filter). cbn in *.
    apply elem_of_cells in Hc as (i & line & Hi & Hr & Hl & ->). cbn in *. subst i. rewrite Hi.
    split; [done|]. by apply take_prefix.
  - intros [Hl Hp]. destruct (lines m !! Position.row p) as [line|] eqn:E; [|cbn in Hl; lia].
    eexists (p, _). split; [done|]. apply list_elem_of_filter. split; [by apply take_prefix|].
    apply elem_of_cells. exists (Position.row p), line. done.
Qed.

Definition cell_lt (x y : Position.t * list char) : Prop := Position.lt x.1 y.1.

Lemma tails_sorted row text start n :
  StronglySorted cell_lt (tails text (Position.Mk row <$> seq start n)).
Proof.
  revert start n. induction text as [|c text IH]; intros start [|n]; try constructor.
  - apply IH.
  - apply Forall_forall. intros [p t] Hp. apply elem_of_tails in Hp as (i & Hi & _).
    apply list_lookup_fmap_Some in Hi as (k & -> & Hk). apply lookup_seq in Hk as [-> _].
    unfold cell_lt, Position.lt. cbn. lia.
Qed.

Lemma cells_sorted soft row lns : StronglySorted cell_lt (cells soft row lns).
Proof.
  revert row. induction lns as [|line lns IH]; intros row; cbn [cells]; [constructor|].
  apply StronglySorted_app. split_and!; [|apply tails_sorted|apply IH].
  intros [p t] [q u] Hp Hq. apply elem_of_tails in Hp as (i & Hi & _).
  apply list_lookup_fmap_Some in Hi as (k & -> & _). apply elem_of_cells in Hq as (j & l & _ & Hr & _).
  unfold cell_lt, Position.lt. cbn in *. lia.
Qed.

Lemma hits_sorted needle xs : StronglySorted cell_lt xs → StronglySorted Position.lt (hits needle xs).
Proof.
  unfold hits. induction 1 as [|x xs _ IH Hx]; [constructor|]. rewrite filter_cons. case_decide; [|done].
  constructor; [done|]. apply Forall_fmap, Forall_forall. intros y [_ Hy]%list_elem_of_filter.
  rewrite Forall_forall in Hx. by apply Hx.
Qed.

Lemma note_all cursor l :
  foldl (note cursor) (Matches None None None None) l
  = Matches (head l) (last l) (head (filter (Position.lt cursor) l)) (last (filter (λ p, Position.lt p cursor) l)).
Proof.
  induction l as [|p l IH] using rev_ind; [done|]. rewrite foldl_app, IH. cbn [foldl]. unfold note, get_or_insert.
  cbn [first last_ next previous]. rewrite !filter_app, !filter_cons, last_snoc.
  f_equal.
  - by destruct l.
  - case_decide; [|by rewrite filter_nil, app_nil_r]. by destruct (filter (Position.lt cursor) l).
  - rewrite filter_nil. case_decide; [by rewrite last_snoc|by rewrite app_nil_r].
Qed.

Lemma filter_sorted (P : Position.t → Prop) `{∀ p, Decision (P p)} l :
  StronglySorted Position.lt l → StronglySorted Position.lt (filter P l).
Proof.
  induction 1 as [|x xs _ IH Hx]; [constructor|]. rewrite filter_cons. case_decide; [|done].
  constructor; [done|]. apply Forall_forall. intros y [_ Hy]%list_elem_of_filter.
  rewrite Forall_forall in Hx. by apply Hx.
Qed.

(** The first and the last of a sorted list that satisfy a test *)
Section ends.
Context (P : Position.t → Prop) `{∀ p, Decision (P p)} (l : list Position.t).
Hypothesis Hl : StronglySorted Position.lt l.

Lemma filtered p : p ∈ filter P l ↔ p ∈ l ∧ P p.
Proof. rewrite list_elem_of_filter. tauto. Qed.

Lemma head_filter : match head (filter P l) with
  | Some p => p ∈ l ∧ P p ∧ ∀ q, q ∈ l → P q → q = p ∨ Position.lt p q
  | None => ∀ q, q ∈ l → ¬ P q
  end.
Proof.
  pose proof (filter_sorted P l Hl) as Hs. pose proof filtered as Hf.
  destruct (filter P l) as [|p f]; cbn [head].
  - intros q Hq HP. by eapply not_elem_of_nil, Hf.
  - apply StronglySorted_inv in Hs as [_ Hs]. rewrite Forall_forall in Hs.
    destruct (proj1 (Hf p)) as [Hp HP]; [left|]. split_and!; [done..|]. intros q Hq HQ.
    assert (q ∈ p :: f) as [->|Hin]%elem_of_cons by (by apply Hf); [by left|right; by apply Hs].
Qed.

Lemma last_filter : match last (filter P l) with
  | Some p => p ∈ l ∧ P p ∧ ∀ q, q ∈ l → P q → q = p ∨ Position.lt q p
  | None => ∀ q, q ∈ l → ¬ P q
  end.
Proof.
  pose proof (filter_sorted P l Hl) as Hs. pose proof filtered as Hf.
  destruct (last (filter P l)) as [p|] eqn:E.
  - apply last_Some in E as [f E]. rewrite E in *. apply StronglySorted_app in Hs as (Hs & _).
    destruct (proj1 (Hf p)) as [Hp HP]; [apply elem_of_app; right; by left|]. split_and!; [done..|].
    intros q Hq HQ. assert (q ∈ f ++ [p]) as [Hin|Hin]%elem_of_app by (by apply Hf).
    + right. apply Hs; [done|by left].
    + left. by apply list_elem_of_singleton in Hin.
  - apply last_None in E. rewrite E in Hf. intros q Hq HP. by eapply not_elem_of_nil, Hf.
Qed.
End ends.

Lemma filter_all (l : list Position.t) : filter (λ _, True) l = l.
Proof. induction l as [|p l IH]; [done|]. rewrite filter_cons_True by done. by rewrite IH. Qed.

Lemma head_all l : StronglySorted Position.lt l →
  match head l with
  | Some p => p ∈ l ∧ ∀ q, q ∈ l → q = p ∨ Position.lt p q
  | None => ∀ q, q ∉ l
  end.
Proof.
  intros Hs. pose proof (head_filter (λ _, True) l Hs) as H. rewrite filter_all in H.
  destruct (head l); [|naive_solver]. destruct H as (? & _ & ?). auto.
Qed.

Lemma last_all l : StronglySorted Position.lt l →
  match last l with
  | Some p => p ∈ l ∧ ∀ q, q ∈ l → q = p ∨ Position.lt q p
  | None => ∀ q, q ∉ l
  end.
Proof.
  intros Hs. pose proof (last_filter (λ _, True) l Hs) as H. rewrite filter_all in H.
  destruct (last l); [|naive_solver]. destruct H as (? & _ & ?). auto.
Qed.

(** What a search goes to: the nearest place ahead, or else the farthest one behind *)
Definition ahead (backwards : bool) (p q : Position.t) : Prop :=
  if backwards then Position.lt q p else Position.lt p q.
Definition nearest (backwards : bool) (m : CopyMode.t) (p : Position.t) : Prop :=
  occurs m p ∧
  (ahead backwards (cursor m) p ∧
   (∀ q, occurs m q → ahead backwards (cursor m) q → q = p ∨ ahead backwards p q) ∨
   (∀ q, occurs m q → ¬ ahead backwards (cursor m) q ∧ (q = p ∨ ahead backwards p q))).

Lemma search_finds backwards m :
  query m ≠ [] →
  search backwards m ⇓ λ m',
    (∀ p, ¬ occurs m p) ∧ m' = with_notice (str "No match") m ∨
    ∃ p, nearest backwards m p ∧ m' = with_cursor p m.
Proof.
  intros Hq. unfold search. rewrite decide_False by done.
  rewrite (search_rows_hits m (query m) Hq 0 (lines m) [] []) by (done || by rewrite drop_0).
  rewrite tails_nil. cbn [mbind option_bind].
  change (hits (query m) []) with (@nil Position.t). cbn [app]. rewrite note_all. cbn [first last_ next previous].
  set (l := hits _ _). assert (Ho : ∀ p, p ∈ l ↔ occurs m p) by (intros p; apply elem_of_hits).
  assert (Hs : StronglySorted Position.lt l) by apply hits_sorted, cells_sorted.
  clearbody l. eapply Safe_intro; [done|]. unfold nearest, ahead. setoid_rewrite <- Ho.
  pose proof (head_filter (Position.lt (cursor m)) l Hs) as H1. pose proof (head_all l Hs) as H2.
  pose proof (last_filter (λ p, Position.lt p (cursor m)) l Hs) as H3. pose proof (last_all l Hs) as H4.
  destruct backwards; unfold or_found.
  - clear H1 H2. destruct (last (filter _ _)) as [p|]; [right; exists p; naive_solver|].
    destruct (last l) as [p|]; [right; exists p; naive_solver|by left].
  - clear H3 H4. destruct (head (filter _ _)) as [p|]; [right; exists p; naive_solver|].
    destruct (head l) as [p|]; [right; exists p; naive_solver|by left].
Qed.

(** * What happens to a mode *)

(** The application writes notices of its own, and what the bottom does. *)
Module CopyEvent.
Inductive t :=
  | Key (key : KeyEvent.t) (page : nat)
  | BeginDrag (column row : nat)
  | Drag (column row : nat)
  | FinishDrag
  | ReleaseDrag (behavior : MouseRelease.t)
  | ClearSelection
  | Scroll (up : bool) (rows height : nat)
  | Fit (columns height : nat)
  | Notice (text : list char)
  | ReturnToLive.
End CopyEvent.

(** * What a selection copies *)

Section exact.
Context {UW : UnicodeWidth}.

(** The piece of a text from one place to another *)
Definition segment (text : list char) (i j : nat) : list char := take (j - i) (drop i text).

(** Where a row begins in the text, and where a character and a selection up to it do *)
Definition before (m : CopyMode.t) (row : nat) : nat := length (units (wrapped_at m) 0 (take row (lines m))).
Definition place (m : CopyMode.t) (p : Position.t) : nat :=
  before m (Position.row p) + Position.column p `min` row_len m (Position.row p).
Definition stop (line : list char) (column : nat) : nat :=
  let to := (column + 1) `min` length line in to + marks (drop to line).
Definition end_place (m : CopyMode.t) (p : Position.t) : nat :=
  before m (Position.row p) + stop (default [] (lines m !! Position.row p)) (Position.column p).

Lemma segment_app {text i} j {k} : i ≤ j ≤ k → segment text i j ++ segment text j k = segment text i k.
Proof.
  intros H. unfold segment. replace (k - i) with ((j - i) + (k - j)) by lia.
  rewrite <- (take_take_drop (drop i text) (j - i) (k - j)), drop_drop. do 4 f_equal. lia.
Qed.

Lemma units_app soft row a b : units soft row (a ++ b) = units soft row a ++ units soft (row + length a) b.
Proof.
  revert row. induction a as [|l a IH]; intros row; cbn [units app length]; [by rewrite Nat.add_0_r|].
  by rewrite IH, <- !app_assoc, Nat.add_succ_r.
Qed.

Lemma marks_le line : marks line ≤ length line.
Proof. induction line as [|c line IH]; cbn [marks length]; [done|]. case_decide; lia. Qed.

Lemma stop_le line column : stop line column ≤ length line.
Proof.
  unfold stop. pose proof (marks_le (drop ((column + 1) `min` length line) line)) as H.
  rewrite length_drop in H. lia.
Qed.

Section copied.
Variable m : CopyMode.t.

Definition unit_of (row : nat) (line : list char) : list char :=
  line ++ if wrapped_at m row then [] else [newline].

Lemma before_S row line :
  lines m !! row = Some line → before m (S row) = before m row + length (unit_of row line).
Proof.
  intros Hl. unfold before. rewrite (take_S_r _ _ line) by done. rewrite units_app, length_app. cbn [units].
  rewrite length_take_le by (apply lookup_lt_Some in Hl; lia). by rewrite app_nil_r.
Qed.

Lemma document_split row line :
  lines m !! row = Some line →
  ∃ front back, document m = front ++ unit_of row line ++ back ∧ length front = before m row.
Proof.
  intros Hl. exists (units (wrapped_at m) 0 (take row (lines m))), (units (wrapped_at m) (S row) (drop (S row) (lines m))).
  split; [|done]. unfold document. rewrite <- (take_drop_middle (lines m) row line Hl) at 1. rewrite units_app.
  rewrite length_take_le by (apply lookup_lt_Some in Hl; lia). cbn [units]. unfold unit_of. by rewrite <- !app_assoc.
Qed.

Lemma segment_unit row line from to :
  lines m !! row = Some line → from ≤ to ≤ length (unit_of row line) →
  segment (document m) (before m row + from) (before m row + to) = take (to - from) (drop from (unit_of row line)).
Proof.
  intros Hl Hb. destruct (document_split row line Hl) as (front & back & -> & <-). unfold segment.
  rewrite drop_app_add. replace (length front + to - (length front + from)) with (to - from) by lia.
  rewrite drop_app_le by lia. rewrite take_app_le; [done|]. rewrite length_drop. lia.
Qed.

Variables start end_ : Position.t.
Hypothesis Hle : Position.le start end_.
Hypothesis Hend : Position.row end_ < length (lines m).

Definition from_of (row : nat) : nat :=
  if decide (row = Position.row start) then Position.column start `min` row_len m row else 0.

Lemma from_bounds row line : lines m !! row = Some line → from_of row ≤ length line.
Proof. intros Hl. unfold from_of, row_len. rewrite Hl. cbn. case_decide; lia. Qed.

Lemma selected_row_piece row line :
  lines m !! row = Some line →
  selected_row m start end_ row
  = Ok (segment (document m) (before m row + from_of row)
          (if decide (row = Position.row end_) then end_place m end_ else before m (S row))).
Proof.
  intros Hl. unfold selected_row. rewrite Hl. cbn [ok_or mbind outcome_bind].
  assert (Hf : (if decide (row = Position.row start) then Position.column start `min` length line else 0) = from_of row).
  { unfold from_of, row_len. by rewrite Hl. }
  rewrite Hf. clear Hf. pose proof (from_bounds row line Hl) as Hb.
  case_decide as He.
  - subst row. cbn zeta. change (_ + marks _) with (stop line (Position.column end_)).
    pose proof (stop_le line (Position.column end_)) as Hs.
    assert (from_of (Position.row end_) ≤ stop line (Position.column end_)) as Hfs.
    { unfold from_of, row_len, stop. rewrite Hl. cbn. case_decide as Hr; [|lia].
      unfold Position.le, Position.lt in Hle. destruct Hle as [[?|[_ ?]]|E]; [lia..|]. rewrite E. lia. }
    unfold slice. rewrite decide_True by lia. cbn [expect mbind outcome_bind].
    rewrite bool_decide_false by (intros []; done). cbn [andb]. rewrite app_nil_r. f_equal.
    unfold end_place. rewrite Hl. cbn [from_option]. unfold id. symmetry.
    rewrite (segment_unit _ line) by (done || (unfold unit_of; rewrite length_app; lia)).
    unfold unit_of. rewrite drop_app_le by lia. rewrite take_app_le; [done|]. rewrite length_drop. lia.
  - unfold slice. rewrite decide_True by lia. cbn [expect mbind outcome_bind].
    rewrite bool_decide_true by done. cbn [andb]. f_equal. rewrite (before_S row line Hl).
    rewrite (segment_unit _ line) by (done || (split; [unfold unit_of; rewrite length_app; lia|done])).
    unfold unit_of. rewrite drop_app_le by lia. rewrite length_app, (take_ge (_ ++ _)).
    + rewrite take_ge by (rewrite length_drop; lia). by destruct (wrapped_at m row).
    + rewrite length_app, length_drop. lia.
Qed.

Lemma before_mono row k : row ≤ k → k < length (lines m) → before m row ≤ before m k.
Proof.
  intros H Hk. induction H as [|k H IH]; [done|]. destruct (lookup_lt_is_Some_2 (lines m) k) as [line Hl]; [lia|].
  rewrite (before_S k line Hl). specialize (IH ltac:(lia)). lia.
Qed.

Lemma selected_rows_piece n row :
  Position.row start ≤ row → row + n = Position.row end_ →
  selected_rows m start end_ (seq row (S n))
  = Ok (segment (document m) (before m row + from_of row) (end_place m end_)).
Proof.
  revert row. induction n as [|n IH]; intros row Hr He.
  all: destruct (lookup_lt_is_Some_2 (lines m) row) as [line Hl]; [lia|].
  - cbn [seq selected_rows]. rewrite (selected_row_piece row line Hl), decide_True by lia. cbn. by rewrite app_nil_r.
  - change (selected_rows m start end_ (seq row (S (S n)))) with
      (piece ← selected_row m start end_ row; rest ← selected_rows m start end_ (seq (S row) (S n)); Ok (piece ++ rest)).
    rewrite IH, (selected_row_piece row line Hl), decide_False by lia. cbn [mbind outcome_bind].
    unfold from_of at 2. rewrite decide_False by lia. rewrite Nat.add_0_r, segment_app; [done|].
    pose proof (from_bounds row line Hl). rewrite (before_S row line Hl). unfold unit_of. rewrite length_app. split; [lia|].
    pose proof (before_mono (S row) (Position.row end_) ltac:(lia) Hend) as Hm. rewrite (before_S row line Hl) in Hm.
    unfold unit_of in Hm. rewrite length_app in Hm. unfold end_place. lia.
Qed.

Lemma selected_piece :
  selected_rows m start end_ (seq (Position.row start) (Position.row end_ + 1 - Position.row start))
  = Ok (segment (document m) (place m start) (end_place m end_)).
Proof.
  assert (Position.row start ≤ Position.row end_).
  { unfold Position.le, Position.lt in Hle. destruct Hle as [|E]; [lia|by rewrite E]. }
  replace (Position.row end_ + 1 - Position.row start) with (S (Position.row end_ - Position.row start)) by lia.
  rewrite selected_rows_piece by lia. do 2 f_equal. unfold place, from_of. by rewrite decide_True.
Qed.
End copied.

(** * Wrapping keeps the text *)

Definition text_of (lines : list (list char)) : list char := mjoin ((λ line, line ++ [newline]) <$> lines).
Definition rows_text (rows : list (list char * bool)) : list char :=
  mjoin ((λ '(row, wrapped), row ++ if wrapped : bool then [] else [newline]) <$> rows).

Lemma mjoin_cons {A} (x : list A) xs : mjoin (x :: xs) = x ++ mjoin xs.
Proof. done. Qed.

Lemma wrap_text limit row cells text : rows_text (wrap limit row cells text) = row ++ text ++ [newline].
Proof.
  revert row cells. induction text as [|c text IH]; intros row cells; cbn [wrap].
  - unfold rows_text. cbn. by rewrite app_nil_r.
  - case_decide.
    + unfold rows_text in *. rewrite fmap_cons, mjoin_cons, IH, app_nil_r. done.
    + by rewrite IH, <- app_assoc.
Qed.

Lemma rows_text_wrapped limit lines : rows_text (mjoin (wrap limit [] 0 <$> lines)) = text_of lines.
Proof.
  unfold text_of. induction lines as [|line lines IH]; [done|]. rewrite !fmap_cons, !mjoin_cons.
  unfold rows_text in *. rewrite fmap_app, join_app, IH. f_equal. exact (wrap_text limit [] 0 line).
Qed.

Lemma units_rows soft row rows :
  (∀ i, i < length rows → soft (row + i) = default false (rows.*2 !! i)) → units soft row rows.*1 = rows_text rows.
Proof.
  revert row. induction rows as [|[text wrapped] rows IH]; intros row Hs; [done|]. cbn [fmap list_fmap units fst].
  unfold rows_text. rewrite fmap_cons, mjoin_cons, <- app_assoc. f_equal.
  pose proof (Hs 0 ltac:(cbn; lia)) as H0. rewrite Nat.add_0_r in H0. cbn in H0. rewrite H0. f_equal. apply IH.
  intros i Hi. specialize (Hs (S i)). rewrite Nat.add_succ_r in Hs. apply Hs. cbn. lia.
Qed.

(** The rows a mode is made of *)
Definition frozen_rows (prefix : list (list char)) (rows : list HistoryRow.t) (columns : nat) :
    list (list char * bool) :=
  mjoin (wrap (columns `max` 1) [] 0 <$> prefix) ++ ((λ row, (HistoryRow.text row, HistoryRow.wrapped row)) <$> rows).

Lemma from_rows_lines prefix rows columns :
  lines (from_rows prefix rows columns) = (frozen_rows prefix rows columns).*1 ∧
  soft_wrapped (from_rows prefix rows columns) = (frozen_rows prefix rows columns).*2.
Proof. unfold from_rows, frozen_rows. cbn. by rewrite !fmap_app, <- !list_fmap_compose. Qed.

(** The text a mode was made from *)
Definition source_text (prefix : list (list char)) (rows : list HistoryRow.t) : list char :=
  text_of prefix ++ rows_text ((λ row, (HistoryRow.text row, HistoryRow.wrapped row)) <$> rows).

Lemma from_rows_document prefix rows columns :
  document (from_rows prefix rows columns) = source_text prefix rows.
Proof.
  unfold document. destruct (from_rows_lines prefix rows columns) as [-> Hs]. rewrite units_rows.
  - unfold frozen_rows, source_text. unfold rows_text at 1. rewrite fmap_app, join_app. f_equal. apply rows_text_wrapped.
  - intros i _. unfold wrapped_at. by rewrite Hs.
Qed.

(** * Soundness *)

(** On a character, or on the first column of an empty row *)
Definition within (m : CopyMode.t) (p : Position.t) : Prop :=
  Position.row p ≤ length (lines m) - 1 ∧ Position.column p ≤ row_len m (Position.row p) - 1.

Definition valid_selection (m : CopyMode.t) (s : option Selection.t) : Prop :=
  match s with
  | None => True
  | Some (Selection.Extending anchor) => within m anchor
  | Some (Selection.Complete anchor end_) => within m anchor ∧ within m end_
  end.
Definition valid_drag (m : CopyMode.t) (s : DragState.t) : Prop :=
  match s with DragState.Pressed _ _ anchor => within m anchor | _ => True end.

Definition frozen (m m' : CopyMode.t) : Prop :=
  lines m' = lines m ∧ pens m' = pens m ∧ soft_wrapped m' = soft_wrapped m.

(** What every operation keeps, whatever it does to the cursor *)
Definition loose (m : CopyMode.t) : Prop := valid_selection m (selection m) ∧ valid_drag m (drag_state m).
Definition sound (m : CopyMode.t) : Prop := within m (cursor m) ∧ loose m.

Lemma valid_frozen m m' p : lines m' = lines m → within m p → within m' p.
Proof. intros E. unfold within, row_len. by rewrite E. Qed.

Lemma loose_frozen m m' :
  lines m' = lines m → selection m' = selection m → drag_state m' = drag_state m → loose m → loose m'.
Proof. intros El Es Ed. unfold loose, valid_selection, valid_drag, within, row_len. by rewrite El, Es, Ed. Qed.

Lemma clamp_sound m : loose m → sound (clamp_column (clamp_row m)).
Proof.
  intros H. split; [|by apply (loose_frozen m)]. unfold clamp_column, clamp_row, within, row_len, line_len. cbn. split; lia.
Qed.

Lemma column_at_bound target index cell last line :
  column_at target index cell last line ≤ last `max` (index + length line - 1).
Proof.
  revert index cell last. induction line as [|c line IH]; intros index cell last; cbn [column_at length]; [lia|].
  repeat case_decide; [|lia|]; (etrans; [apply IH|]); lia.
Qed.

Lemma position_at_valid column row m : within m (position_at column row m).
Proof.
  unfold position_at. destruct (lines m !! _) as [line|] eqn:E; unfold within, row_len; cbn; [|lia].
  split; [lia|]. rewrite E. cbn. pose proof (column_at_bound (left m + column) 0 0 0 line). lia.
Qed.

Lemma valid_default m : within m Position.default.
Proof. unfold within. cbn. lia. Qed.

Lemma occurs_valid m p : occurs m p → within m p.
Proof.
  unfold occurs, within, row_len. destruct (lines m !! _) as [line|] eqn:E; cbn; intros [H _]; [|lia].
  apply lookup_lt_Some in E. lia.
Qed.

(** A step keeps the text and is sound *)
Definition keeps (m m' : CopyMode.t) : Prop := frozen m m' ∧ sound m'.

Lemma search_keeps backwards m : sound m → search backwards m ⇓ keeps m.
Proof.
  intros [Hc Hl]. destruct (decide (query m = [])) as [Hq|Hq].
  { unfold search. rewrite decide_True by done. eapply Safe_intro; [done|]. split; [done|by split]. }
  eapply Safe_mono; [by apply search_finds|]. intros m' [[_ ->]|(p & [Hp _] & ->)]; (split; [done|]).
  - by split.
  - split; [by apply occurs_valid|done].
Qed.

Lemma complete_keeps m : sound m → keeps m (complete_selection m).
Proof.
  intros [Hc [Hs Hd]]. unfold complete_selection. destruct (selection m) as [[a|a e]|] eqn:E; (split; [done|]).
  - split; [done|]. split; [|done]. by split.
  - split; [done|]. split; [by rewrite E|done].
  - split; [done|]. split; [by rewrite E|done].
Qed.

Lemma finish_keeps m : sound m → keeps m (finish_drag m).1.
Proof.
  intros [Hc [Hs Hd]]. unfold finish_drag.
  assert (sound (with_drag_state DragState.Idle m)) as Hi by (split; [done|by split]).
  destruct (drag_state m); cbn [fst].
  - by split.
  - split; [done|]. split; [done|by split].
  - by apply complete_keeps in Hi.
Qed.

Lemma bounds_complete m : selection_bounds (complete_selection m) = selection_bounds m.
Proof. unfold complete_selection, selection_bounds. destruct (selection m) as [[a|a e]|] eqn:E; cbn; by rewrite ?E. Qed.

Lemma bounds_valid m start end_ :
  sound m → selection_bounds m = Some (start, end_) → within m start ∧ within m end_ ∧ Position.le start end_.
Proof.
  intros [Hc [Hs _]] Hb. unfold selection_bounds in Hb. destruct (selection m) as [s|]; [|done]. cbn in Hb.
  assert (∃ a e, Some (start, end_) = Some (Position.min a e, Position.max a e) ∧ within m a ∧ within m e) as (a & e & [= -> ->] & Ha & He).
  { destruct s as [a|a e]; cbn in Hb; injection Hb as <- <-; eexists _, _; split; try done; cbn in Hs; naive_solver. }
  unfold Position.min, Position.max. case_decide as Hd; split_and!; try done; [by left|by apply not_lt].
Qed.

(** What [Copy] hands over *)
Definition copies (m : CopyMode.t) (action : CopyAction.t) : Prop :=
  ∀ text, action = CopyAction.Copy text →
    text ≠ [] ∧ ∃ start end_, selection_bounds m = Some (start, end_) ∧ within m start ∧ within m end_ ∧
      text = segment (document m) (place m start) (end_place m end_).

Lemma copies_not m action : (∀ text, action ≠ CopyAction.Copy text) → copies m action.
Proof. intros H text E. by apply H in E. Qed.
#[local] Hint Resolve copies_not : core.

Lemma selected_text_spec m :
  sound m →
  selected_text m ≠ Panic ∧
  ∀ text, selected_text m = Ok text → ∃ start end_, selection_bounds m = Some (start, end_) ∧ within m start ∧ within m end_ ∧
    text = segment (document m) (place m start) (end_place m end_).
Proof.
  intros Hs. unfold selected_text. destruct (selection_bounds m) as [[start end_]|] eqn:Hb; cbn [ok_or mbind outcome_bind]; [|done].
  destruct (bounds_valid m start end_ Hs Hb) as (H1 & H2 & Hle).
  destruct (decide (Position.row end_ < length (lines m))) as [Hr|Hr].
  - rewrite (selected_piece m start end_ Hle Hr). split; [done|]. intros text [= <-]. by exists start, end_.
  - assert (length (lines m) = 0) as Hn by (destruct H2; lia).
    assert (Position.row end_ + 1 - Position.row start = 1) as -> by (destruct H1, H2; lia).
    apply nil_length_inv in Hn.
    cbn. unfold selected_row. by rewrite Hn.
Qed.

Lemma copy_keeps m : sound m → copy_selection m ⇓ λ '(m', action), keeps m m' ∧ copies m' action.
Proof.
  intros Hs. destruct (selected_text_spec m Hs) as [Hp Ht]. unfold copy_selection.
  destruct (selected_text m) as [[|c text]| |] eqn:E; [| | |done].
  1,3: (eapply Safe_intro; [done|]; cbn; split; [by split|by apply copies_not]).
  eapply Safe_intro; [done|]. cbn. split; [by apply complete_keeps|]. intros text' [= <-]. split; [done|].
  destruct (Ht _ eq_refl) as (start & end_ & Hb & H1 & H2 & ->). exists start, end_. rewrite bounds_complete.
  destruct (complete_keeps m Hs) as [(El & _ & Ew) _].
  unfold document, place, end_place, before, wrapped_at, row_len. rewrite El, Ew.
  split_and!; [done|by apply (valid_frozen m)..|done].
Qed.

(** * Everything that happens to a mode *)

Definition step (event : CopyEvent.t) (m : CopyMode.t) : option (CopyMode.t * CopyAction.t) :=
  let quiet m := Some (m, CopyAction.Stay) in
  match event with
  | CopyEvent.Key k page => key k page m
  | CopyEvent.BeginDrag column row => quiet (begin_drag column row m)
  | CopyEvent.Drag column row => quiet (drag column row m)
  | CopyEvent.FinishDrag => quiet (finish_drag m).1
  | CopyEvent.ReleaseDrag behavior => release_drag behavior m
  | CopyEvent.ClearSelection => quiet (clear_selection m)
  | CopyEvent.Scroll up rows height => Some (scroll up rows height m)
  | CopyEvent.Fit columns height => quiet (fit columns height m)
  | CopyEvent.Notice text => quiet (with_notice text m)
  | CopyEvent.ReturnToLive => quiet (with_bottom_behavior BottomBehavior.ReturnToLive m)
  end.

Fixpoint run (events : list CopyEvent.t) (m : CopyMode.t) : option CopyMode.t :=
  match events with
  | [] => Some m
  | event :: events => '(m, _) ← step event m; run events m
  end.

(** What a step from [m] comes to *)
Definition Post (m : CopyMode.t) (r : CopyMode.t * CopyAction.t) : Prop := keeps m r.1 ∧ copies r.1 r.2.

Lemma frozen_trans m1 m2 m3 : frozen m1 m2 → frozen m2 m3 → frozen m1 m3.
Proof. intros (? & ? & ?) (? & ? & ?). split_and!; congruence. Qed.

Lemma keeps_after m1 m2 m3 : frozen m1 m2 → keeps m2 m3 → keeps m1 m3.
Proof. intros Hf [Hg Hs]. split; [by eapply frozen_trans|done]. Qed.

Lemma post_after m1 m2 r : frozen m1 m2 → Post m2 r → Post m1 r.
Proof. intros Hf [Hk Hc]. split; [by eapply keeps_after|done]. Qed.

Lemma post_stay m m' : loose m' → frozen m m' → Post m (stay m').
Proof. intros Hl Hf. split; [|by apply copies_not]. split; [done|]. by apply clamp_sound. Qed.

Lemma post_quiet m m' : keeps m m' → Post m (m', CopyAction.Stay).
Proof. intros H. split; [done|by apply copies_not]. Qed.

Lemma perform_keeps c page m : sound m → perform c page m ⇓ Post m.
Proof.
  intros Hm. pose proof Hm as [Hc Hl].
  assert (Hstay : ∀ m', loose m' → frozen m m' → Some (stay m') ⇓ Post m).
  { intros m' H1 H2. eapply Safe_intro; [done|]. by apply post_stay. }
  assert (Hsearch : ∀ b, (m' ← search b m; Some (stay m')) ⇓ Post m).
  { intros b. destruct (Safe_elim _ _ (search_keeps b m Hm)) as (m' & -> & Hf & _ & Hs). cbn. by apply Hstay. }
  destruct c; cbn [perform]; try (apply Hstay; [exact Hl|done]); try apply Hsearch.
  - eapply Safe_intro; [done|]. split; [by split|by apply copies_not].
  - apply Hstay; [|done]. split; [exact Hc|apply Hl].
  - destruct (Safe_elim _ _ (copy_keeps m Hm)) as ([m' action] & -> & [Hf Hs] & Ha). cbn.
    destruct action as [| |text].
    1,2: apply Hstay; [apply Hs|done].
    eapply Safe_intro; [done|]. split; [by split|done].
Qed.

Lemma key_keeps k page m : sound m → key k page m ⇓ Post m.
Proof.
  intros Hm. unfold key. destruct (finish_keeps m Hm) as [Hf Hs]. set (m1 := (finish_drag m).1) in *. clearbody m1.
  destruct (searching m1).
  - assert (query_key k m1 ⇓ keeps m1) as (m2 & -> & Hk)%Safe_elim.
    { unfold query_key. destruct (KeyEvent.code k); try (eapply Safe_intro; [done|]; by split).
      - by apply (search_keeps (backwards m1) (with_searching false m1)).
      - case_match; (eapply Safe_intro; [done|]; by split). }
    eapply Safe_intro; [done|]. by apply post_quiet, (keeps_after m m1).
  - set (m2 := with_notice [] m1). assert (sound m2) as Hs2 by done. assert (frozen m m2) as Hf2 by done. clearbody m2.
    assert (Hq : ∀ m', keeps m2 m' → ∀ a, (∀ t, a ≠ CopyAction.Copy t) → Some (m', a) ⇓ Post m).
    { intros m' Hk a Ha. eapply Safe_intro; [done|]. split; [by eapply keeps_after|by apply copies_not]. }
    assert (Hc : clear_selection m2 = clear_selection m2 → keeps m2 (clear_selection m2)).
    { intros _. split; [done|]. split; [apply Hs2|done]. }
    set (code := if KeyModifiers.control _ then _ else _).
    assert (match code with
            | Returns m' action => keeps m2 m' ∧ ∀ t, action ≠ CopyAction.Copy t
            | Continues _ => True
            end) as Hcode.
    { assert (keeps m2 m2) by (by split). unfold code, control_code, alt_code. repeat case_match; naive_solver. }
    destruct code as [m' action|code]; [by apply Hq; destruct Hcode|].
    eapply Safe_mono; [by apply perform_keeps|]. intros r. by apply post_after.
Qed.

Lemma release_keeps behavior m : sound m → release_drag behavior m ⇓ Post m.
Proof.
  intros Hm. unfold release_drag. pose proof (finish_keeps m Hm) as [Hf Hs].
  destruct (finish_drag m) as [m1 selecting]. cbn [fst] in *. case_match.
  - eapply Safe_mono; [by apply copy_keeps|]. intros [m2 a] [Hk Hc]. split; [by eapply keeps_after|done].
  - eapply Safe_intro; [done|]. apply post_quiet. by split.
Qed.

Lemma fit_keeps columns height m : loose m → keeps m (fit columns height m).
Proof.
  intros Hl. pose proof (clamp_sound m Hl) as Hs. unfold fit. cbn zeta.
  set (m1 := clamp_column (clamp_row m)) in *. assert (frozen m m1) as Hf by done. clearbody m1.
  repeat case_decide; (split; [exact Hf|exact Hs]).
Qed.

Lemma event_keeps event m : sound m → step event m ⇓ Post m.
Proof.
  intros Hm. pose proof Hm as [Hc Hl].
  assert (Hquiet : ∀ m', keeps m m' → Some (m', CopyAction.Stay) ⇓ Post m).
  { intros m' H. eapply Safe_intro; [done|]. by apply post_quiet. }
  destruct event; cbn [step].
  - by apply key_keeps.
  - apply Hquiet. split; [done|]. split; [exact Hc|]. split; [done|].
    exact (position_at_valid column row (with_selection None m)).
  - apply Hquiet. unfold drag. destruct (drag_state m) as [|c r a|] eqn:Ed; [by split| |].
    + destruct Hl as [Hs Hd]. rewrite Ed in Hd. case_decide; [split; [done|split; [done|split; [done|by rewrite Ed]]]|].
      split; [done|]. split; [|by split].
      exact (position_at_valid column row (with_drag_state DragState.Selecting (with_selection (Some (Selection.Extending a)) m))).
    + split; [done|]. split; [apply (position_at_valid column row m)|exact Hl].
  - by apply Hquiet, finish_keeps.
  - by apply release_keeps.
  - apply Hquiet. split; [done|]. split; [exact Hc|done].
  - unfold scroll. eapply Safe_intro; [done|]. case_match; (split; [|by apply copies_not]); (split; [done|]);
      by apply (clamp_sound (with_row _ (with_top _ m))).
  - apply Hquiet. by apply fit_keeps.
  - apply Hquiet. by split.
  - apply Hquiet. by split.
Qed.

Lemma run_keeps events m : sound m → run events m ⇓ keeps m.
Proof.
  revert m. induction events as [|event events IH]; intros m Hm; cbn [run].
  - eapply Safe_intro; [done|]. by split.
  - destruct (Safe_elim _ _ (event_keeps event m Hm)) as ([m1 a] & -> & [Hf Hs] & _). cbn in *.
    eapply Safe_mono; [by apply IH|]. intros m2. by apply keeps_after.
Qed.

(** A mode as it is opened, with the text it is made from *)
Inductive opened : CopyMode.t → list char → Prop :=
  | opened_rows prefix rows columns : opened (from_rows prefix rows columns) (source_text prefix rows)
  | opened_lines lines : opened (new lines) (text_of lines).

Lemma units_plain soft row lines : (∀ i, soft i = false) → units soft row lines = text_of lines.
Proof.
  intros Hs. revert row. induction lines as [|l lines IH]; intros row; cbn [units]; [done|].
  unfold text_of. rewrite Hs, IH, fmap_cons, mjoin_cons, <- app_assoc. done.
Qed.

Lemma opened_sound m text : opened m text → sound m ∧ document m = text.
Proof.
  intros [prefix rows columns|ls].
  - split; [|apply from_rows_document]. split; [|done]. unfold within. cbn. split; lia.
  - split; [split; [unfold within; cbn; split; lia|done]|]. apply units_plain. intros i.
    unfold wrapped_at. cbn. destruct (replicate _ _ !! i) eqn:E; [|done]. by apply lookup_replicate in E as [-> _].
Qed.

Lemma document_at m p line c :
  lines m !! Position.row p = Some line → line !! Position.column p = Some c → document m !! place m p = Some c.
Proof.
  intros Hl Hc. destruct (document_split m _ _ Hl) as (front & back & -> & Hb). unfold place, row_len. rewrite Hl. cbn.
  apply lookup_lt_Some in Hc as Hlt. rewrite Nat.min_l, <- Hb, lookup_app_r by lia. unfold unit_of.
  rewrite Nat.add_comm, Nat.add_sub, <- app_assoc. by rewrite lookup_app_l.
Qed.
End exact.

(** * Pens *)

Lemma spans_inv len previous span styles :
  validate_spans len previous (span :: styles) = Ok () →
  (previous ≤ StyleSpan.start span)%N ∧
  validate_spans len (StyleSpan.start span + StyleSpan.length span)%N styles = Ok ().
Proof.
  cbn [validate_spans]. unfold add32. case_decide; [|done]. rewrite bind_Ok. setoid_rewrite fail_if_Ok.
  setoid_rewrite orb_false_iff. setoid_rewrite orb_false_iff. setoid_rewrite bool_decide_eq_false.
  intros (_ & [[_ Hs] _] & Hv). split; [lia|done].
Qed.

Lemma look_earlier len previous styles c :
  validate_spans len previous styles = Ok () → (c < previous)%N → look styles c = TerminalStyle.default.
Proof.
  revert previous. induction styles as [|span styles IH]; intros previous Hv Hc; [apply look_nil|].
  apply spans_inv in Hv as [Hp Hv]. rewrite look_cons, decide_False by lia. eapply IH; [exact Hv|lia].
Qed.

Definition span_pen (span : StyleSpan.t) : (nat * nat) * Pen.t :=
  let start := N.to_nat (StyleSpan.start span) in
  ((start, start + N.to_nat (StyleSpan.length span)), style_pen (StyleSpan.style span)).

Lemma pen_of_spans len previous styles column :
  validate_spans len previous styles = Ok () →
  match (span_pen <$> styles) !! partition_point (λ '((_, end_), _), bool_decide (end_ ≤ column)) (span_pen <$> styles) with
  | Some ((start, end_), pen) => if decide (start ≤ column < end_) then pen else Pen.default
  | None => Pen.default
  end = style_pen (look styles (N.of_nat column)).
Proof.
  revert previous. induction styles as [|span styles IH]; intros previous Hv; [done|].
  apply spans_inv in Hv as [Hp Hv]. rewrite look_cons, fmap_cons. set (test := λ '((_, end_), _), _) in *.
  change (partition_point test (span_pen span :: ?l)) with
    (if bool_decide (N.to_nat (StyleSpan.start span) + N.to_nat (StyleSpan.length span) ≤ column)
     then S (partition_point test l) else 0).
  case_bool_decide as Hd.
  - change ((span_pen span :: ?l) !! S ?n) with (l !! n). rewrite decide_False by lia. by eapply IH.
  - change ((span_pen span :: ?l) !! 0) with (Some (span_pen span)). unfold span_pen at 1. cbn zeta. case_decide as H1.
    + by rewrite decide_True by lia.
    + rewrite decide_False by lia. erewrite look_earlier; [done|exact Hv|lia].
Qed.

Lemma row_pens_look row column :
  validate_history_row row = Ok () →
  match row_pens row !! partition_point (λ '((_, end_), _), bool_decide (end_ ≤ column)) (row_pens row) with
  | Some ((start, end_), pen) => if decide (start ≤ column < end_) then pen else Pen.default
  | None => Pen.default
  end = style_pen (look (HistoryRow.styles row) (N.of_nat column)).
Proof.
  intros Hv. unfold row_pens. rewrite Hv. cbn [is_ok]. rewrite andb_true_r. case_bool_decide as Hn; cbn [negb].
  - by rewrite Hn.
  - unfold validate_history_row in Hv. apply bind_Ok in Hv as (_ & _ & Hv). apply bind_Ok in Hv as (_ & _ & Hv).
    by apply (pen_of_spans _ _ _ column) in Hv.
Qed.

(** * The pointer *)

Section pointer.
Context {UW : UnicodeWidth}.

Definition cells_to (line : list char) (column : nat) : nat := sum_list (width <$> take column line).

Lemma column_at_char target index cell last line i c :
  line !! i = Some c → 0 < width c →
  cell + cells_to line i ≤ target < cell + cells_to line i + width c →
  column_at target index cell last line = index + i.
Proof.
  revert index cell last i. induction line as [|d line IH]; intros index cell last i Hi Hw Ht; [done|].
  destruct i as [|i]; cbn in Hi.
  - injection Hi as ->. unfold cells_to in Ht. cbn in Ht. cbn [column_at].
    rewrite decide_False, decide_True by lia. lia.
  - assert (Hc : cells_to (d :: line) (S i) = width d + cells_to line i) by done. rewrite Hc in Ht.
    cbn [column_at]. case_decide as Hz.
    + rewrite (IH _ _ _ i) by (done || lia). lia.
    + rewrite decide_False by lia. rewrite (IH _ _ _ i) by (done || lia). lia.
Qed.

(** What [fit] leaves *)
Lemma fit_spec columns height m c :
  let m' := fit columns height m in
  (line ← lines m' !! cursor_row m'; line !! Position.column (cursor m')) = Some c →
  0 < width c →
  top m' ≤ cursor_row m' < top m' + height `max` 1 ∧
  left m' < cursor_column m' + width c ≤ left m' + columns `max` 1 ∧
  (width c ≤ columns `max` 1 → left m' ≤ cursor_column m').
Proof.
  cbn zeta. unfold fit. cbn zeta. set (m1 := clamp_column (clamp_row m)). clearbody m1.
  set (m2 := if decide (top _ + _ ≤ _) then _ else _).
  assert (top m2 ≤ cursor_row m2 < top m2 + height `max` 1) as Htop.
  { unfold m2, cursor_row in *. case_decide; cbn in *; lia. }
  clearbody m2. intros Hc Hw.
  assert ((line ← lines m2 !! cursor_row m2; line !! Position.column (cursor m2)) = Some c) as Hm by (by case_decide).
  rewrite Hm in *. clear Hc. split; [by case_decide|].
  assert (∀ x m, cursor_column (with_left x m) = cursor_column m) as Hcol by done.
  case_decide; rewrite ?Hcol; cbn in *; lia.
Qed.

(** After a fit, the cell the cursor is drawn in is the cursor's. *)
Lemma fitted_cursor_hit columns height m c :
  let m' := fit columns height m in
  (line ← lines m' !! cursor_row m'; line !! Position.column (cursor m')) = Some c →
  0 < width c →
  position_at (cursor_column m' - left m') (cursor_row m' - top m') m' = cursor m'.
Proof.
  intros m' Hc Hw. destruct (fit_spec columns height m c Hc Hw) as (Ht & Hl & _). fold m' in Ht, Hl. clearbody m'.
  destruct (lines m' !! cursor_row m') as [line|] eqn:El; cbn in Hc; [|done].
  assert (Hcol : cursor_column m' = cells_to line (Position.column (cursor m'))) by (unfold cursor_column; by rewrite El).
  unfold position_at. apply lookup_lt_Some in El as Hlt.
  replace ((top m' + (cursor_row m' - top m')) `min` (length (lines m') - 1)) with (cursor_row m') by lia. rewrite El.
  rewrite (column_at_char _ _ _ _ _ (Position.column (cursor m')) c Hc Hw) by lia.
  unfold cursor_row. by destruct (cursor m').
Qed.
End pointer.

(** * The properties *)

Section properties.
Context {UW : UnicodeWidth}.

(** C29. What is copied is exactly what was selected.  Whatever keys, drags, scrolls and
    redraws a mode sees, it does not panic, its text does not change and its cursor stays
    within it; and whatever it then copies is the piece of the text it was opened with, its
    soft wraps undone, from the first character selected through the last and the marks on
    it. *)
Theorem copies_exactly (m : CopyMode.t) (text : list char) (events : list CopyEvent.t) (Ho : opened m text) :
  (∀ p line c, lines m !! Position.row p = Some line → line !! Position.column p = Some c →
               text !! place m p = Some c) ∧
  run events m ⇓ λ m1, frozen m m1 ∧ within m (cursor m1) ∧
    ∀ event, step event m1 ⇓ λ '(m2, action), ∀ copied, action = CopyAction.Copy copied →
      copied ≠ [] ∧ ∃ start end_, selection_bounds m2 = Some (start, end_) ∧ within m start ∧ within m end_ ∧
        copied = segment text (place m start) (end_place m end_).
Proof.
  destruct (opened_sound m text Ho) as [Hs <-]. split; [apply document_at|].
  eapply Safe_mono; [by apply run_keeps|]. intros m1 [(El & Ep & Ew) [Hc Hl]]. split; [done|].
  split; [by apply (valid_frozen m1)|]. intros event. eapply Safe_mono; [by apply event_keeps|].
  intros [m2 action] [[(El2 & _ & Ew2) _] Ha] copied E. destruct (Ha copied E) as (Hn & start & end_ & Hb & H1 & H2 & ->).
  cbn [fst] in *. assert (lines m2 = lines m) as El3 by congruence. split; [done|]. exists start, end_. split; [done|].
  split; [by apply (valid_frozen m2)|]. split; [by apply (valid_frozen m2)|].
  unfold document, place, end_place, before, wrapped_at, row_len. by rewrite El3, Ew2, Ew.
Qed.

(** C32. A search goes to the next match.  The cursor goes to the nearest place ahead, in
    the direction of the search, where the query begins, possibly going on over soft wraps;
    when there is none ahead, to the farthest behind, where one sweep round the text first
    meets a match; and the mode says so only when there is no match at all. *)
Theorem search_goes_next (backwards : bool) (m : CopyMode.t) :
  search backwards m ⇓ λ m',
    query m = [] ∧ m' = m ∨
    query m ≠ [] ∧ (∀ p, ¬ occurs m p) ∧ m' = with_notice (str "No match") m ∨
    ∃ p, nearest backwards m p ∧ m' = with_cursor p m.
Proof.
  destruct (decide (query m = [])) as [Hq|Hq].
  - unfold search. rewrite decide_True by done. eapply Safe_intro; [done|]. by left.
  - eapply Safe_mono; [by apply search_finds|]. naive_solver.
Qed.

(** Once a mode has been fitted to its pane, its cursor is visible there, and the pointer
    on the cell where it is drawn means the cursor's own character. *)
Theorem cursor_under_pointer (columns height : nat) (m : CopyMode.t) (c : char)
    (Hc : let m' := fit columns height m in
          (line ← lines m' !! cursor_row m'; line !! Position.column (cursor m')) = Some c)
    (Hw : 0 < width c) :
  let m' := fit columns height m in
  position_at (cursor_column m' - left m') (cursor_row m' - top m') m' = cursor m' ∧
  top m' ≤ cursor_row m' < top m' + height `max` 1 ∧
  left m' < cursor_column m' + width c ≤ left m' + columns `max` 1 ∧
  (width c ≤ columns `max` 1 → left m' ≤ cursor_column m').
Proof. split; [by eapply fitted_cursor_hit|by apply fit_spec]. Qed.

(** Every visible cell of a screen row captured for a mode is there with its character and
    with its own pen. *)
Theorem captured_cell_shown (prefix : list (list char)) (rows : list HistoryRow.t) (columns k i : nat)
    (line : Line.t) (wrapped : bool) (row : HistoryRow.t) (cell : Cell.t)
    (Hcap : capture_row line wrapped = Some row) (Hk : rows !! k = Some row) (Hi : visible line !! i = Some cell)
    (Hlen : (N.of_nat (length (visible line)) ≤ u32_MAX)%N)
    (Hprint : Forall (λ cell, is_control (Cell.ch cell) = false) (visible line)) (Hpen : Pen.wf (Cell.pen cell)) :
  let m := from_rows prefix rows columns in
  let p := Position.Mk (length (lines (new_wrapped prefix columns)) + k) i in
  (line ← lines m !! Position.row p; line !! i) = Some (Cell.ch cell) ∧ pen p m = Cell.pen cell.
Proof.
  pose proof (capture_row_spec line wrapped Hlen) as Hs. pose proof (capture_row_valid line wrapped Hlen Hprint) as Hv.
  rewrite Hcap in Hs, Hv. cbn in Hs, Hv. destruct Hs as (_ & Ht & _ & Hl). split.
  - cbn [from_rows lines Position.row]. rewrite lookup_app_r, Nat.add_comm, Nat.add_sub by lia.
    by rewrite list_lookup_fmap, Hk; cbn; rewrite Ht, list_lookup_fmap, Hi.
  - unfold pen. cbn [from_rows pens Position.row Position.column].
    assert (length (pens (new_wrapped prefix columns)) = length (lines (new_wrapped prefix columns))) as Hp.
    { cbn. by rewrite length_replicate. }
    rewrite lookup_app_r, Hp, Nat.add_comm, Nat.add_sub by lia. rewrite list_lookup_fmap, Hk. cbn [fmap option_fmap option_map].
    rewrite row_pens_look by done. rewrite (Hl i cell Hi). by apply style_pen_style.
Qed.
End properties.

(** The commas of a count aside, it is the count. *)
Lemma format_line_count_digits (count : nat) :
  filter (λ c, c ≠ ch ",") (format_line_count count) = filter (λ c, c ≠ ch ",") (to_string (N.of_nat count)).
Proof.
  unfold format_line_count. induction (to_string (N.of_nat count)) as [|d ds IH]; [done|]. cbn [grouped].
  rewrite !(filter_cons _ d). case_bool_decide; rewrite ?(filter_cons _ (ch ",")), ?decide_False, IH by naive_solver; done.
Qed.

(** * Examples *)

Module Wide.
(** A wide character, a combining mark, and narrow ones *)
#[export] Instance wide_width : UnicodeWidth := λ c, Some (if decide (c = 0x754c%N) then 2 else if decide (c = 0x301%N) then 0 else 1).
End Wide.
Import Wide.

Definition wide_text : list char := str "ab" ++ [0x754c%N] ++ str "e" ++ [0x301%N] ++ str "fg".

Definition plain (code : KeyCode.t) : CopyEvent.t := CopyEvent.Key (KeyEvent.Mk code KeyModifiers.NONE false) 10.

(** Everything is selected by keys, over soft wraps, and copied *)
Definition select_all : list CopyEvent.t :=
  [plain (KeyCode.Char (ch "g")); plain (KeyCode.Char (ch "v")); plain (KeyCode.Char (ch "G")); plain KeyCode.End_].

Lemma copies_exactly_witness :
  run select_all (from_rows [wide_text; []] [HistoryRow.Mk (str "cd") true []; HistoryRow.Mk (str "e") false []] 3)
    ⇓ λ m1, step (plain (KeyCode.Char (ch "y"))) m1 ⇓ λ '(m2, action),
      action = CopyAction.Copy (wide_text ++ [newline; newline] ++ str "cde") ∧
      cursor m2 = Position.Mk 5 0.
Proof.
  destruct (copies_exactly _ _ select_all
    (opened_rows [wide_text; []] [HistoryRow.Mk (str "cd") true []; HistoryRow.Mk (str "e") false []] 3)) as [_ H].
  apply Safe_elim in H as (m1 & E & _ & _ & H). rewrite E. cbn [Safe].
  destruct (Safe_elim _ _ (H (plain (KeyCode.Char (ch "y"))))) as ([m2 action] & E2 & _). rewrite E2.
  vm_compute in E. injection E as <-. vm_compute in E2. injection E2 as <- <-. by vm_compute.
Defined.

Lemma cursor_under_pointer_witness :
  let m' := fit 4 1 (with_column 3 (new [str "abc" ++ [0x754c%N]])) in
  left m' = 1 ∧ position_at 2 0 m' = cursor m'.
Proof.
  split; [done|].
  destruct (cursor_under_pointer 4 1 (with_column 3 (new [str "abc" ++ [0x754c%N]])) 0x754c%N) as [H _];
    [done|vm_compute; lia|]. exact H.
Defined.

Example search_wraps :
  let m := with_query (str "needle") (with_cursor Position.default
             (new_wrapped [[0x754c%N] ++ str "xneedle---needle"] 4)) in
  (cursor <$> search false m, (m ← search false m; cursor <$> search false m), cursor <$> search true m)
  = (Some (Position.Mk 0 2), Some (Position.Mk 3 0), Some (Position.Mk 3 0)).
Proof. by vm_compute. Qed.

Example counts : format_line_count 1240 = str "1,240" ∧ format_line_count 999 = str "999" ∧ format_line_count 0 = str "0".
Proof. by vm_compute. Qed.
