(* ===== verification/KeyInput.v ===== *)
(** What the terminal front end makes of keys and of the pointer (apps/tui/src/input.rs and
    keys.rs): the prefix key and the keys after it, and the bytes an application is sent in
    the modes it has asked for.

    Bytes are [N]; a text whose characters are ASCII is its bytes.  In [encode_mouse] sums
    of 8-bit numbers are checked, and [Panic] is an overflow; [Err ()] is the code's [None].
    Instants are in milliseconds. *)

From S2P Require Import Prelude.
From S2P Require Import Cells.
From S2P Require Import Buffers.
From S2P Require Import Layout.
From S2P Require Import Utf8.
From S2P Require Import Observers.
From S2P Require Import Protocol.
From S2P Require Import Prompt.
From stdpp Require Import strings.

(** * The prefix *)

Module Prefix.
Record t := Mk { key : KeyEvent.t; label : list char }.
End Prefix.

Fixpoint split_once (at_ : char) (value : list char) : option (list char * list char) :=
  match value with
  | [] => None
  | c :: value => if decide (c = at_) then Some ([], value)
                  else '(before, after) ← split_once at_ value; Some (c :: before, after)
  end.

Definition is_ascii_alphabetic (c : char) : bool := rng 65 90 c || rng 97 122 c.

Definition parse_prefix (value : list char) : outcome string Prefix.t :=
  '(modifier, key) ← ok_or (split_once (ch "+") value) "use Ctrl+letter or Alt+letter"%string;
  c ← ok_or (match key with c :: _ => if is_ascii_alphabetic c then Some c else None | [] => None end)
        "prefix must be a letter"%string;
  _ ← fail_if (bool_decide (tail key ≠ [])) "prefix must be one letter"%string;
  let name := to_ascii_lowercase <$> modifier in
  modifiers ← (if decide (name = str "ctrl") then Ok KeyModifiers.CONTROL
               else if decide (name = str "alt") then Ok KeyModifiers.ALT
               else Err "use Ctrl+letter or Alt+letter"%string);
  Ok (Prefix.Mk (KeyEvent.Mk (KeyCode.Char (to_ascii_lowercase c)) modifiers false) value).

Definition matches_prefix (key : KeyEvent.t) (prefix : Prefix.t) : bool :=
  bool_decide (KeyEvent.code key = KeyEvent.code (Prefix.key prefix)) &&
  bool_decide (KeyEvent.modifiers key = KeyEvent.modifiers (Prefix.key prefix)).

(** * Keys of an application *)

Definition bit (b : bool) : N := if b then 1 else 0.

Definition modifier_parameter (modifiers : KeyModifiers.t) : N :=
  1 + bit (KeyModifiers.shift modifiers) + 2 * bit (KeyModifiers.alt modifiers) + 4 * bit (KeyModifiers.control modifiers).

Definition with_shift (modifiers : KeyModifiers.t) : KeyModifiers.t :=
  KeyModifiers.Mk true (KeyModifiers.control modifiers) (KeyModifiers.alt modifiers) (KeyModifiers.others modifiers).

Definition ESC : N := 27.

(** A character other than a space *)
Definition is_text (code : KeyCode.t) : bool :=
  match code with KeyCode.Char c => bool_decide (c ≠ ch " ") | _ => false end.

Definition legacy_mode1 (key : KeyEvent.t) (modifiers : KeyModifiers.t) : bool :=
  if KeyModifiers.alt modifiers && negb (KeyModifiers.control modifiers) then true else
  if decide (modifiers = KeyModifiers.SHIFT)
  then bool_decide (KeyEvent.code key = KeyCode.BackTab) || is_text (KeyEvent.code key)
  else KeyModifiers.control modifiers &&
       match KeyEvent.code key with
       | KeyCode.Char c => bool_decide (c = ch " ") || bool_decide (c = ch "/") || rng 50 56 c || rng 64 126 c
       | _ => false
       end.

Definition codepoint (code : KeyCode.t) : option N :=
  match code with
  | KeyCode.Char c => Some c
  | KeyCode.Enter => Some 13
  | KeyCode.Tab | KeyCode.BackTab => Some 9
  | KeyCode.Backspace => Some 127
  | KeyCode.Esc => Some 27
  | _ => None
  end%N.

Definition encode_other_key (key : KeyEvent.t) (mode : ModifyOtherKeys) : option (list N) :=
  if decide (mode = KeysOff) then None else
  let modifiers := match KeyEvent.code key with
                   | KeyCode.BackTab => with_shift (KeyEvent.modifiers key)
                   | _ => KeyEvent.modifiers key
                   end in
  point ← codepoint (KeyEvent.code key);
  if bool_decide (modifiers = KeyModifiers.NONE)
     || (bool_decide (modifiers = KeyModifiers.SHIFT) && is_text (KeyEvent.code key))
     || (bool_decide (mode = Mode1) && legacy_mode1 key modifiers)
  then None
  else Some ([ESC] ++ str "[27;" ++ to_string (modifier_parameter modifiers) ++ str ";" ++ to_string point ++ str "~").

Definition cursor_letter (code : KeyCode.t) : option N :=
  match code with
  | KeyCode.Up => Some 65 | KeyCode.Down => Some 66 | KeyCode.Right => Some 67 | KeyCode.Left => Some 68
  | KeyCode.Home => Some 72 | KeyCode.End_ => Some 70
  | _ => None
  end%N.

Definition tilde_number (code : KeyCode.t) : option N :=
  match code with
  | KeyCode.Insert => Some 2 | KeyCode.Delete => Some 3 | KeyCode.PageUp => Some 5 | KeyCode.PageDown => Some 6
  | KeyCode.F 5 => Some 15 | KeyCode.F 6 => Some 17 | KeyCode.F 7 => Some 18 | KeyCode.F 8 => Some 19
  | KeyCode.F 9 => Some 20 | KeyCode.F 10 => Some 21 | KeyCode.F 11 => Some 23 | KeyCode.F 12 => Some 24
  | _ => None
  end%N.

Definition low_function (code : KeyCode.t) : option N :=
  match code with
  | KeyCode.F n => if decide (1 ≤ n ≤ 4)%N then Some (80 + n - 1)%N else None
  | _ => None
  end.

Definition control_byte (c : char) : list N :=
  let c := to_ascii_uppercase c in
  if rng 64 126 c then [N.land c 0x1f]
  else if bool_decide (c = ch " ") || bool_decide (c = ch "2") then [0%N]
  else if rng 51 55 c then [(c - 51 + 27)%N]
  else if bool_decide (c = ch "/") then [31%N]
  else if bool_decide (c = ch "8") || bool_decide (c = ch "?") then [127%N]
  else [].

Definition plain_key (key : KeyEvent.t) : list N :=
  match KeyEvent.code key with
  | KeyCode.Char c => if KeyModifiers.control (KeyEvent.modifiers key) then control_byte c else Utf8.encode c
  | KeyCode.Enter => [13]
  | KeyCode.Tab => [9]
  | KeyCode.BackTab => [ESC] ++ str "[Z"
  | KeyCode.Backspace => [127]
  | KeyCode.Esc => [27]
  | _ => []
  end%N.

Definition encode_xterm (key : KeyEvent.t) (application_cursor : bool) : list N :=
  let modifiers := KeyEvent.modifiers key in
  let modified := KeyModifiers.shift modifiers || KeyModifiers.alt modifiers || KeyModifiers.control modifiers in
  let parameter := to_string (modifier_parameter modifiers) in
  match cursor_letter (KeyEvent.code key) with
  | Some letter =>
      if modified then [ESC] ++ str "[1;" ++ parameter ++ [letter]
      else if application_cursor then [ESC] ++ str "O" ++ [letter] else [ESC] ++ str "[" ++ [letter]
  | None =>
  match tilde_number (KeyEvent.code key) with
  | Some number =>
      if modified then [ESC] ++ str "[" ++ to_string number ++ str ";" ++ parameter ++ str "~"
      else [ESC] ++ str "[" ++ to_string number ++ str "~"
  | None =>
  match low_function (KeyEvent.code key) with
  | Some letter =>
      if modified then [ESC] ++ str "[1;" ++ parameter ++ [letter] else [ESC] ++ str "O" ++ [letter]
  | None =>
      let data := plain_key key in
      if KeyModifiers.alt modifiers && negb (bool_decide (data = [])) then ESC :: data else data
  end end end.

Definition encode (key : KeyEvent.t) (application_cursor : bool) (mode : ModifyOtherKeys) : list N :=
  if KeyEvent.release key || KeyModifiers.others (KeyEvent.modifiers key) then [] else
  match encode_other_key key mode with
  | Some data => data
  | None => encode_xterm key application_cursor
  end.

(** * The pointer *)

Inductive MouseButton := LeftButton | MiddleButton | RightButton.

Inductive MouseEventKind :=
  | ButtonDown (button : MouseButton) | ButtonUp (button : MouseButton) | ButtonDrag (button : MouseButton)
  | Moved | ScrollDown | ScrollUp | ScrollLeft | ScrollRight.

Module MouseEvent.
Record t := Mk { kind : MouseEventKind; column : N; row : N; modifiers : KeyModifiers.t }.
End MouseEvent.

Definition button_code (button : MouseButton) : N :=
  match button with LeftButton => 0 | MiddleButton => 1 | RightButton => 2 end.

Definition add8 (a b : N) : outcome () N := if decide (a + b < 256)%N then Ok (a + b)%N else Panic.

Definition kind_code (kind : MouseEventKind) (tracking : MouseTracking) : option N :=
  match kind with
  | ButtonDown button | ButtonUp button => Some (button_code button)
  | ButtonDrag button =>
      match tracking with Drag | Any => Some (32 + button_code button)%N | _ => None end
  | Moved => match tracking with Any => Some 35%N | _ => None end
  | ScrollUp => Some 64%N
  | ScrollDown => Some 65%N
  | ScrollLeft => Some 66%N
  | ScrollRight => Some 67%N
  end.

Definition is_up (kind : MouseEventKind) : bool := match kind with ButtonUp _ => true | _ => false end.

Definition byte_of (value : N) : outcome () N := if decide (value < 256)%N then Ok value else Err ().

Definition encode_mouse (event : MouseEvent.t) (modes : MouseModes.t) : outcome () (list N) :=
  let tracking := MouseModes.tracking modes in
  let encoding := MouseModes.encoding modes in
  if bool_decide (tracking = TrackNone) || match encoding with SgrPixels => true | _ => false end then Err () else
  let release := is_up (MouseEvent.kind event) in
  code ← ok_or (kind_code (MouseEvent.kind event) tracking) ();
  let code := if release && negb match encoding with Sgr => true | _ => false end then 3%N else code in
  let modifiers := MouseEvent.modifiers event in
  code ← add8 code (4 * bit (KeyModifiers.shift modifiers) + 8 * bit (KeyModifiers.alt modifiers)
                    + 16 * bit (KeyModifiers.control modifiers));
  let column := (MouseEvent.column event + 1)%N in
  let row := (MouseEvent.row event + 1)%N in
  match encoding with
  | Sgr => Ok ([ESC] ++ str "[<" ++ to_string code ++ str ";" ++ to_string column ++ str ";" ++ to_string row
               ++ [if release then ch "m" else ch "M"])
  | Urxvt =>
      code ← add8 code 32;
      Ok ([ESC] ++ str "[" ++ to_string code ++ str ";" ++ to_string column ++ str ";" ++ to_string row ++ str "M")
  | Utf8 =>
      _ ← fail_if (bool_decide (2047 < column + 32)%N || bool_decide (2047 < row + 32)%N) ();
      Ok (encode_all ([ESC] ++ str "[M" ++ [code + 32; column + 32; row + 32]%N))
  | Legacy =>
      code ← add8 code 32;
      column ← byte_of ((column + 32) `min` 255);
      row ← byte_of ((row + 32) `min` 255);
      Ok ([ESC] ++ str "[M" ++ [code; column; row])
  | SgrPixels => Err ()
  end.

(** * The keys after a prefix *)

Definition REPEAT_TIME : N := 500.

Module KeyState.
Inductive t := Root | Prefix | Repeat (until : N).
#[global] Instance eq_dec : EqDecision t.
Proof. solve_decision. Defined.
Definition is_prefix (s : t) : bool := match s with Prefix => true | _ => false end.
Definition cancel_repeat (s : t) : t := match s with Repeat _ => Root | _ => s end.
End KeyState.

Module Dispatch.
Inductive t := Ignore | Pending | Act (binding : Binding.t) | SendPrefix | Unknown | Forward.
End Dispatch.

Module Keys.
Definition command (binding : Binding.t) (now : N) : KeyState.t * Dispatch.t :=
  (if Binding.repeatable binding then KeyState.Repeat (now + REPEAT_TIME) else KeyState.Root, Dispatch.Act binding).

Definition resolve (s : KeyState.t) (key : KeyEvent.t) (prefix : Prefix.t) (now : N) : KeyState.t * Dispatch.t :=
  if KeyEvent.release key then (s, Dispatch.Ignore) else
  let s := match s with
           | KeyState.Repeat until => if decide (until ≤ now)%N then KeyState.Root else s
           | _ => s
           end in
  if KeyState.is_prefix s then
    if matches_prefix key prefix then (KeyState.Root, Dispatch.SendPrefix) else
    match Prompt.resolve key with
    | None => (KeyState.Root, Dispatch.Unknown)
    | Some binding => command binding now
    end
  else if matches_prefix key prefix then (KeyState.Prefix, Dispatch.Pending) else
  match s with
  | KeyState.Repeat _ =>
      match Prompt.resolve key with
      | Some binding => if Binding.repeatable binding then command binding now else (KeyState.Root, Dispatch.Forward)
      | None => (KeyState.Root, Dispatch.Forward)
      end
  | _ => (s, Dispatch.Forward)
  end.
End Keys.

(** * Reading reports back *)

Fixpoint leading_digits (s : list N) : list N * list N :=
  match s with
  | c :: rest => if is_digit c then let '(ds, rest) := leading_digits rest in (c :: ds, rest) else ([], s)
  | [] => ([], [])
  end.
Definition read_number (s : list N) : option (N * list N) :=
  match leading_digits s with ([], _) => None | (ds, rest) => Some (digits_value ds, rest) end.

(** A byte that has to be next *)
Definition after (b : N) (s : list N) : option (list N) :=
  match s with c :: rest => if decide (c = b) then Some rest else None | [] => None end.

Lemma leading_digits_app ds c rest :
  Forall (λ c, is_digit c = true) ds → is_digit c = false → leading_digits (ds ++ c :: rest) = (ds, c :: rest).
Proof.
  intros Hd Hc. induction Hd as [|d ds Hd _ IH]; cbn [leading_digits app]; [by rewrite Hc|]. by rewrite Hd, IH.
Qed.

Lemma read_to_string n c rest :
  (n ≤ u64_MAX)%N → is_digit c = false → read_number (to_string n ++ c :: rest) = Some (n, c :: rest).
Proof.
  intros Hn Hc. destruct (to_string_digits n Hn) as (Hne & Hd & Hv). unfold read_number.
  rewrite leading_digits_app by done. destruct (to_string n); [done|]. by rewrite Hv.
Qed.

(** What an application reads in a report of the pointer: [None] is a release of some
    button, which most encodings do not name. *)
Module Report.
Record t := Mk { kind : option MouseEventKind; shift : bool; alt : bool; control : bool; column : N; row : N }.
End Report.

Definition button_of (code : N) : MouseButton :=
  if decide (code = 0%N) then LeftButton else if decide (code = 1%N) then MiddleButton else RightButton.

Definition kind_of (base : N) (release : bool) : option MouseEventKind :=
  if decide (base = 3)%N then None else
  if decide (base = 35)%N then Some Moved else
  if decide (base = 64)%N then Some ScrollUp else
  if decide (base = 65)%N then Some ScrollDown else
  if decide (base = 66)%N then Some ScrollLeft else
  if decide (base = 67)%N then Some ScrollRight else
  if decide (32 ≤ base)%N then Some (ButtonDrag (button_of (base - 32))) else
  Some ((if release then ButtonUp else ButtonDown) (button_of base)).

Definition report (code column row : N) (release : bool) : Report.t :=
  Report.Mk (kind_of (N.ldiff code 28) release) (N.testbit code 2) (N.testbit code 3) (N.testbit code 4) column row.

Definition read_fields (s : list N) : option (N * N * N * list N) :=
  '(a, s) ← read_number s; s ← after (ch ";") s;
  '(b, s) ← read_number s; s ← after (ch ";") s;
  '(c, s) ← read_number s; Some (a, b, c, s).

Definition read_report (encoding : MouseEncoding) (s : list N) : option Report.t :=
  s ← after ESC s; s ← after (ch "[") s;
  match encoding with
  | Sgr =>
      s ← after (ch "<") s; '(code, column, row, s) ← read_fields s;
      match s with
      | [f] => if decide (f = ch "M") then Some (report code column row false)
               else if decide (f = ch "m") then Some (report code column row true) else None
      | _ => None
      end
  | Urxvt =>
      '(code, column, row, s) ← read_fields s;
      if decide (s = str "M" ∧ (32 ≤ code)%N) then Some (report (code - 32) column row false) else None
  | Utf8 =>
      s ← after (ch "M") s;
      match lossy s with
      | ([code; column; row], []) => Some (report (code - 32) (column - 32) (row - 32) false)
      | _ => None
      end
  | Legacy =>
      s ← after (ch "M") s;
      match s with
      | [code; column; row] => Some (report (code - 32) (column - 32) (row - 32) false)
      | _ => None
      end
  | SgrPixels => None
  end.

(** How far the coordinates of an encoding reach *)
Definition reach (encoding : MouseEncoding) (position : N) : N :=
  match encoding with Legacy => (position + 1) `min` 223 | _ => position + 1 end.

Definition reported (event : MouseEvent.t) (encoding : MouseEncoding) : Report.t :=
  let modifiers := MouseEvent.modifiers event in
  Report.Mk (if is_up (MouseEvent.kind event) && negb match encoding with Sgr => true | _ => false end
             then None else Some (MouseEvent.kind event))
    (KeyModifiers.shift modifiers) (KeyModifiers.alt modifiers) (KeyModifiers.control modifiers)
    (reach encoding (MouseEvent.column event)) (reach encoding (MouseEvent.row event)).

(** The movement an event is, and whether a button is held during it *)
Definition movement (kind : MouseEventKind) : option bool :=
  match kind with ButtonDrag _ => Some true | Moved => Some false | _ => None end.

(** What an application asks for with the private modes of xterm: with 1000 the buttons and
    the wheel, with 1002 also movement while a button is held, and with 1003 all movement *)
Definition asked (tracking : MouseTracking) (kind : MouseEventKind) : Prop :=
  match tracking with
  | TrackNone => False
  | Buttons => movement kind = None
  | Drag => movement kind ≠ Some false
  | Any => True
  end.

(** Where an encoding can name the cell: no cell in pixels, and with two-byte characters the
    cells whose numbers plus 32 are at most [0x7ff] *)
Definition expressible (encoding : MouseEncoding) (column row : N) : Prop :=
  match encoding with
  | SgrPixels => False
  | Utf8 => (column + 1 + 32 ≤ 0x7ff ∧ row + 1 + 32 ≤ 0x7ff)%N
  | _ => True
  end.

Definition wanted (event : MouseEvent.t) (modes : MouseModes.t) : Prop :=
  asked (MouseModes.tracking modes) (MouseEvent.kind event) ∧
  expressible (MouseModes.encoding modes) (MouseEvent.column event) (MouseEvent.row event).

(** The encoder has a number for the events that were asked for. *)
Lemma kind_code_asked kind tracking : tracking ≠ TrackNone → is_Some (kind_code kind tracking) ↔ asked tracking kind.
Proof.
  intros Ht. unfold is_Some. destruct tracking, kind; cbn; split; intros H; try done; try (by eexists); try (by destruct H).
Qed.

(** ** The code of a report *)

(** The number sent for an event, before the offset of the encoding *)
Definition sent_code (event : MouseEvent.t) (code : N) (encoding : MouseEncoding) : N :=
  let modifiers := MouseEvent.modifiers event in
  (if is_up (MouseEvent.kind event) && negb match encoding with Sgr => true | _ => false end then 3%N else code)
  + (4 * bit (KeyModifiers.shift modifiers) + 8 * bit (KeyModifiers.alt modifiers) + 16 * bit (KeyModifiers.control modifiers)).

Lemma kind_code_small kind tracking code : kind_code kind tracking = Some code → (code ≤ 67)%N.
Proof. destruct kind as [b|b|b| | | | |], tracking; try destruct b; cbn; try done; intros [= <-]; lia. Qed.

Lemma sent_small event tracking code encoding :
  kind_code (MouseEvent.kind event) tracking = Some code → (sent_code event code encoding ≤ 95)%N.
Proof.
  intros H%kind_code_small. unfold sent_code, bit. cbn zeta. repeat case_match; lia.
Qed.

Lemma report_sent event tracking code encoding column row :
  kind_code (MouseEvent.kind event) tracking = Some code →
  report (sent_code event code encoding) column row
    (is_up (MouseEvent.kind event) && match encoding with Sgr => true | _ => false end)
  = Report.Mk (if is_up (MouseEvent.kind event) && negb match encoding with Sgr => true | _ => false end
               then None else Some (MouseEvent.kind event))
      (KeyModifiers.shift (MouseEvent.modifiers event)) (KeyModifiers.alt (MouseEvent.modifiers event))
      (KeyModifiers.control (MouseEvent.modifiers event)) column row.
Proof.
  unfold report, sent_code. destruct event as [kind c r [s k a o]]. cbn [MouseEvent.kind MouseEvent.modifiers KeyModifiers.shift KeyModifiers.alt KeyModifiers.control].
  intros Hk. destruct kind as [b|b|b| | | | |], tracking; try destruct b; cbn in Hk; try discriminate Hk; injection Hk as <-;
    destruct encoding, s, a, k; reflexivity.
Qed.

Lemma after_cons b s : after b (b :: s) = Some s.
Proof. unfold after. by rewrite decide_True. Qed.

Lemma read_fields_sent a b c f rest :
  (a ≤ u64_MAX)%N → (b ≤ u64_MAX)%N → (c ≤ u64_MAX)%N → is_digit f = false →
  read_fields (to_string a ++ str ";" ++ to_string b ++ str ";" ++ to_string c ++ f :: rest) = Some (a, b, c, f :: rest).
Proof.
  intros Ha Hb Hc Hf. unfold read_fields. change (str ";") with [ch ";"]. cbn [app].
  rewrite (read_to_string a) by done. cbn [mbind option_bind]. rewrite after_cons. cbn [mbind option_bind].
  rewrite (read_to_string b) by done. cbn [mbind option_bind]. rewrite after_cons. cbn [mbind option_bind].
  by rewrite (read_to_string c) by done.
Qed.

Lemma u64_room n : (n ≤ 70000)%N → (n ≤ u64_MAX)%N.
Proof. intros H. etrans; [exact H|]. by vm_compute. Qed.

(** The end of [encode_mouse], from the code of the event on *)
Definition encode_code (encoding : MouseEncoding) (release : bool) (code column row : N) : outcome () (list N) :=
  match encoding with
  | Sgr => Ok ([ESC] ++ str "[<" ++ to_string code ++ str ";" ++ to_string column ++ str ";" ++ to_string row
               ++ [if release then ch "m" else ch "M"])
  | Urxvt =>
      code ← add8 code 32;
      Ok ([ESC] ++ str "[" ++ to_string code ++ str ";" ++ to_string column ++ str ";" ++ to_string row ++ str "M")
  | Utf8 =>
      _ ← fail_if (bool_decide (2047 < column + 32)%N || bool_decide (2047 < row + 32)%N) ();
      Ok (encode_all ([ESC] ++ str "[M" ++ [code + 32; column + 32; row + 32]%N))
  | Legacy =>
      code ← add8 code 32;
      column ← byte_of ((column + 32) `min` 255);
      row ← byte_of ((row + 32) `min` 255);
      Ok ([ESC] ++ str "[M" ++ [code; column; row])
  | SgrPixels => Err ()
  end.

Lemma encode_code_read encoding release code c r :
  (code ≤ 95)%N → (c ≤ u16_MAX)%N → (r ≤ u16_MAX)%N →
  match encode_code encoding release code (c + 1) (r + 1) with
  | Ok bytes => match encoding with Utf8 => (c ≤ 2014 ∧ r ≤ 2014)%N | SgrPixels => False | _ => True end ∧
                read_report encoding bytes
                = Some (report code (reach encoding c) (reach encoding r) (release && match encoding with Sgr => true | _ => false end))
  | Err _ => match encoding with Utf8 => (2014 < c ∨ 2014 < r)%N | SgrPixels => True | _ => False end
  | Panic => False
  end.
Proof.
  unfold u16_MAX. intros Hcode Hc Hr. destruct encoding; cbn [encode_code].
  - unfold add8, byte_of. rewrite decide_True by lia. cbn [mbind outcome_bind].
    rewrite !decide_True by lia. cbn [mbind outcome_bind]. split; [done|].
    unfold read_report. change (str "[M") with [ch "["; ch "M"]. cbn [app].
    rewrite after_cons. cbn [mbind option_bind]. rewrite after_cons. cbn [mbind option_bind].
    rewrite after_cons. cbn [mbind option_bind]. rewrite andb_false_r, N.add_sub. unfold reach. do 2 f_equal; lia.
  - unfold fail_if. repeat case_bool_decide; cbn [orb mbind outcome_bind]; [lia..|]. split; [lia|].
    unfold read_report. rewrite encode_all_app. change (encode_all [ESC]) with [ESC]. cbn [app]. rewrite after_cons. cbn [mbind option_bind].
    rewrite encode_all_app. change (encode_all (str "[M")) with [ch "["; ch "M"]. cbn [app].
    rewrite after_cons. cbn [mbind option_bind]. rewrite after_cons. cbn [mbind option_bind].
    rewrite lossy_encoded.
    + rewrite !N.add_sub, andb_false_r. done.
    + repeat constructor; unfold is_scalar; apply orb_true_iff; left; apply within_true; lia.
  - split; [done|]. unfold read_report. cbn [app]. rewrite after_cons. cbn [mbind option_bind].
    change (str "[<") with [ch "["; ch "<"]. cbn [app]. rewrite after_cons. cbn [mbind option_bind]. rewrite after_cons. cbn [mbind option_bind].
    rewrite read_fields_sent by (first [apply u64_room; lia|by destruct release]). cbn [mbind option_bind].
    rewrite andb_true_r. by destruct release.
  - unfold add8. rewrite decide_True by lia. cbn [mbind outcome_bind]. split; [done|].
    unfold read_report. cbn [app]. rewrite after_cons. cbn [mbind option_bind].
    change (str "[") with [ch "["]. cbn [app]. rewrite after_cons. cbn [mbind option_bind]. change (str "M") with [ch "M"].
    rewrite read_fields_sent by (first [apply u64_room; lia|done]). cbn [mbind option_bind].
    rewrite decide_True by (split; [done|lia]). by rewrite N.add_sub, andb_false_r.
  - done.
Qed.

(** C36. Applications can read what the pointer does.  Every event an application has asked
    for (buttons and the wheel, movement with a button held, or all movement) in a cell that
    its encoding can name is sent, in that encoding, as a report that reads back as that event
    with its modifiers and its cell, counted from one: encodings that have no name for a
    released button say only that one was released, and the oldest stops at column 223.
    Nothing else is sent, and no sum of 8-bit numbers overflows. *)
Theorem pointer_reports_read_back (event : MouseEvent.t) (modes : MouseModes.t)
    (Hc : (MouseEvent.column event ≤ u16_MAX)%N) (Hr : (MouseEvent.row event ≤ u16_MAX)%N) :
  match encode_mouse event modes with
  | Ok bytes => wanted event modes ∧
                read_report (MouseModes.encoding modes) bytes = Some (reported event (MouseModes.encoding modes))
  | Err _ => ¬ wanted event modes
  | Panic => False
  end.
Proof.
  unfold encode_mouse, wanted. cbn zeta. set (encoding := MouseModes.encoding modes).
  case_bool_decide as Ht; cbn [orb]; [rewrite Ht; by intros [[] _]|].
  destruct (match encoding with SgrPixels => true | _ => false end) eqn:Ep; [by destruct encoding; naive_solver|].
  pose proof (kind_code_asked (MouseEvent.kind event) _ Ht) as Hasked.
  destruct (kind_code _ _) as [code|] eqn:Ek; cbn [ok_or mbind outcome_bind]; [|by intros [[? [=]]%Hasked _]].
  pose proof (sent_small event _ code encoding Ek) as Hs.
  assert (add8 (if is_up (MouseEvent.kind event) && negb match encoding with Sgr => true | _ => false end then 3%N else code)
            (4 * bit (KeyModifiers.shift (MouseEvent.modifiers event)) + 8 * bit (KeyModifiers.alt (MouseEvent.modifiers event))
             + 16 * bit (KeyModifiers.control (MouseEvent.modifiers event)))%N = Ok (sent_code event code encoding)) as ->.
  { unfold add8. rewrite decide_True; [done|]. unfold sent_code in Hs. lia. }
  cbn [mbind outcome_bind].
  pose proof (encode_code_read encoding (is_up (MouseEvent.kind event)) _ _ _ Hs Hc Hr) as H.
  lazymatch goal with |- match ?x with _ => _ end =>
    change x with (encode_code encoding (is_up (MouseEvent.kind event)) (sent_code event code encoding)
                     (MouseEvent.column event + 1) (MouseEvent.row event + 1)) end.
  destruct (encode_code _ _ _ _ _) as [bytes|[]|].
  - destruct H as [H1 H2]. split; [split; [apply Hasked; by eexists|destruct encoding; try done; cbn; lia]|]. rewrite H2.
    f_equal. by eapply report_sent.
  - intros [_ Hw]. destruct encoding; try done; cbn in Hw; lia.
  - done.
Qed.

(** * Reading keys back *)

Definition modifiers_of (parameter : N) : KeyModifiers.t :=
  let bits := (parameter - 1)%N in
  KeyModifiers.Mk (N.testbit bits 0) (N.testbit bits 2) (N.testbit bits 1) false.

Definition code_of_point (point : N) : KeyCode.t :=
  if decide (point = 13)%N then KeyCode.Enter else
  if decide (point = 9)%N then KeyCode.Tab else
  if decide (point = 127)%N then KeyCode.Backspace else
  if decide (point = 27)%N then KeyCode.Esc else KeyCode.Char point.

Definition code_of_letter (letter : N) : option KeyCode.t :=
  match letter with
  | 65 => Some KeyCode.Up | 66 => Some KeyCode.Down | 67 => Some KeyCode.Right | 68 => Some KeyCode.Left
  | 72 => Some KeyCode.Home | 70 => Some KeyCode.End_
  | 80 => Some (KeyCode.F 1) | 81 => Some (KeyCode.F 2) | 82 => Some (KeyCode.F 3) | 83 => Some (KeyCode.F 4)
  | _ => None
  end%N.

Definition code_of_tilde (number : N) : option KeyCode.t :=
  match number with
  | 2 => Some KeyCode.Insert | 3 => Some KeyCode.Delete | 5 => Some KeyCode.PageUp | 6 => Some KeyCode.PageDown
  | 15 => Some (KeyCode.F 5) | 17 => Some (KeyCode.F 6) | 18 => Some (KeyCode.F 7) | 19 => Some (KeyCode.F 8)
  | 20 => Some (KeyCode.F 9) | 21 => Some (KeyCode.F 10) | 23 => Some (KeyCode.F 11) | 24 => Some (KeyCode.F 12)
  | _ => None
  end%N.

Definition Reads : Type := KeyCode.t * KeyModifiers.t.

(** After [ESC [] and two numbers *)
Definition read_modified (number parameter : N) (s : list N) : option Reads :=
  if decide (s = str "~") then code ← code_of_tilde number; Some (code, modifiers_of parameter) else
  if decide (number = 27)%N then
    s ← after (ch ";") s; '(point, s) ← read_number s;
    if decide (s = str "~") then Some (code_of_point point, modifiers_of parameter) else None
  else match s with
       | [letter] => if decide (number = 1)%N then code ← code_of_letter letter; Some (code, modifiers_of parameter) else None
       | _ => None
       end.

Definition read_csi (s : list N) : option Reads :=
  match read_number s with
  | None => match s with [letter] => code ← code_of_letter letter; Some (code, KeyModifiers.NONE) | _ => None end
  | Some (number, s) =>
      if decide (s = str "~") then code ← code_of_tilde number; Some (code, KeyModifiers.NONE) else
      s ← after (ch ";") s; '(parameter, s) ← read_number s; read_modified number parameter s
  end.

(** What an application that asked for the second level reads *)
Definition read_key (s : list N) : option Reads :=
  match s with
  | [] => None
  | b :: rest =>
      if decide (b = ESC ∧ rest ≠ []) then
        match after (ch "[") rest with
        | Some rest => read_csi rest
        | None => rest ← after (ch "O") rest;
                  match rest with [letter] => code ← code_of_letter letter; Some (code, KeyModifiers.NONE) | _ => None end
        end
      else match read_char s with
           | Char c [] => Some (code_of_point c, KeyModifiers.NONE)
           | _ => None
           end
  end.

(** Two key events that are the same key: a shifted Tab is one key however the terminal
    names it, a control character is the key that types it, and shift is part of the text. *)
Definition meaning (key : KeyEvent.t) : Reads :=
  let modifiers := KeyEvent.modifiers key in
  match KeyEvent.code key with
  | KeyCode.BackTab => (KeyCode.Tab, with_shift modifiers)
  | KeyCode.Char c =>
      (code_of_point c, if decide (modifiers = KeyModifiers.SHIFT ∧ c ≠ ch " ") then KeyModifiers.NONE else modifiers)
  | code => (code, modifiers)
  end.

(** Keys there are sequences for *)
Definition sendable (key : KeyEvent.t) : Prop :=
  KeyEvent.release key = false ∧ KeyModifiers.others (KeyEvent.modifiers key) = false ∧
  match KeyEvent.code key with
  | KeyCode.Char c => is_scalar c = true
  | KeyCode.F n => (1 ≤ n ≤ 12)%N
  | KeyCode.Null | KeyCode.OtherKey => False
  | _ => True
  end.

Lemma modifiers_read modifiers :
  KeyModifiers.others modifiers = false → modifiers_of (modifier_parameter modifiers) = modifiers.
Proof. destruct modifiers as [s k a o]; cbn. intros ->. by destruct s, k, a. Qed.

Lemma parameter_small modifiers : (modifier_parameter modifiers ≤ 8)%N.
Proof. destruct modifiers as [s k a o]. unfold modifier_parameter. destruct s, k, a; cbn; lia. Qed.

Lemma scalar_small c : is_scalar c = true → (c ≤ 0x10ffff)%N.
Proof. unfold is_scalar. rewrite orb_true_iff, !within_true. lia. Qed.

(** ** Extended sequences *)

Lemma read_key_csi rest : read_key ([ESC] ++ ch "[" :: rest) = read_csi rest.
Proof. unfold read_key. cbn [app]. rewrite decide_True by done. by rewrite after_cons. Qed.

Lemma read_csi_two number modifiers f rest :
  (number ≤ 70000)%N → is_digit f = false →
  read_csi (to_string number ++ str ";" ++ to_string (modifier_parameter modifiers) ++ f :: rest)
  = read_modified number (modifier_parameter modifiers) (f :: rest).
Proof.
  intros Hn Hf. unfold read_csi. change (str ";") with [ch ";"]. cbn [app].
  rewrite read_to_string by (done || by apply u64_room). rewrite decide_False by done. rewrite after_cons. cbn [mbind option_bind].
  pose proof (parameter_small modifiers). by rewrite read_to_string by (done || (apply u64_room; lia)).
Qed.

Lemma other_key_read point modifiers :
  (point ≤ 0x10ffff)%N → KeyModifiers.others modifiers = false →
  read_key ([ESC] ++ str "[27;" ++ to_string (modifier_parameter modifiers) ++ str ";" ++ to_string point ++ str "~")
  = Some (code_of_point point, modifiers).
Proof.
  intros Hp Ho. change (str "[27;" ++ ?x) with (ch "[" :: to_string 27 ++ str ";" ++ x). rewrite read_key_csi.
  change (str ";" ++ ?x ++ str "~") with (ch ";" :: x ++ str "~").
  rewrite read_csi_two by done. unfold read_modified. rewrite decide_False by done. rewrite decide_True by done.
  rewrite after_cons. cbn [mbind option_bind]. change (str "~") with [ch "~"].
  rewrite read_to_string; [|etrans; [exact Hp|by vm_compute]|done]. cbn [mbind option_bind]. rewrite decide_True by done.
  by rewrite modifiers_read.
Qed.

Lemma cursor_key_read letter code modifiers :
  code_of_letter letter = Some code → letter ≠ ch "~" → is_digit letter = false → KeyModifiers.others modifiers = false →
  read_key ([ESC] ++ str "[1;" ++ to_string (modifier_parameter modifiers) ++ [letter]) = Some (code, modifiers).
Proof.
  intros Hl Ht Hd Ho. change (str "[1;" ++ ?x) with (ch "[" :: to_string 1 ++ str ";" ++ x).
  rewrite read_key_csi, read_csi_two by done. unfold read_modified.
  rewrite decide_False by (intros [= E]; by rewrite E in Ht). rewrite decide_False, decide_True by done. rewrite Hl. cbn.
  by rewrite modifiers_read.
Qed.

Lemma tilde_key_read number code modifiers :
  code_of_tilde number = Some code → (number ≤ 70000)%N → KeyModifiers.others modifiers = false →
  read_key ([ESC] ++ str "[" ++ to_string number ++ str ";" ++ to_string (modifier_parameter modifiers) ++ str "~")
  = Some (code, modifiers).
Proof.
  intros Hl Hn Ho. change (str "[" ++ ?x) with (ch "[" :: x). change (str "~") with [ch "~"].
  rewrite read_key_csi, read_csi_two by done. unfold read_modified. rewrite decide_True by done. rewrite Hl. cbn.
  by rewrite modifiers_read.
Qed.

Lemma text_read c : is_scalar c = true → read_key (Utf8.encode c) = Some (code_of_point c, KeyModifiers.NONE).
Proof.
  intros Hc. pose proof (read_encoded c [] Hc) as Hr. rewrite app_nil_r in Hr.
  assert (∃ b rest, Utf8.encode c = b :: rest ∧ ¬ (b = ESC ∧ rest ≠ [])) as (b & rest & E & Hb).
  { unfold Utf8.encode, ESC. repeat case_match; eexists _, _; (split; [done|]); [by intros []|..];
      intros [E _]; revert E; generalize (c / 64)%N (c / 4096)%N (c / 262144)%N; intros; lia. }
  rewrite E in *. unfold read_key. by rewrite decide_False, Hr.
Qed.

(** The keys that both forms can send *)
Lemma point_read key point cursor :
  codepoint (KeyEvent.code key) = Some point → sendable key →
  read_key (encode key cursor Mode2) = Some (meaning key).
Proof.
  intros Hp (Hr & Ho & Hs). unfold encode. rewrite Hr, Ho. cbn [orb]. unfold encode_other_key. rewrite decide_False by done.
  rewrite Hp. cbn [mbind option_bind]. set (modifiers := match KeyEvent.code key with KeyCode.BackTab => _ | _ => _ end).
  assert (KeyModifiers.others modifiers = false) as Hm by (unfold modifiers; by destruct (KeyEvent.code key)).
  assert (point ≤ 0x10ffff)%N as Hsmall.
  { destruct (KeyEvent.code key); try discriminate Hp; injection Hp as <-; try lia. by apply scalar_small. }
  rewrite (bool_decide_eq_false_2 (Mode2 = Mode1)) by done. cbn [andb]. rewrite orb_false_r.
  destruct (bool_decide (modifiers = KeyModifiers.NONE) || _) eqn:Eb.
  - destruct key as [code mods rel]. cbn [KeyEvent.code KeyEvent.modifiers KeyEvent.release] in *. subst rel.
    apply orb_true_iff in Eb as [Eb|[Eb1 Eb2]%andb_true_iff].
    + apply bool_decide_eq_true in Eb. unfold modifiers in *. destruct code; try discriminate Hp; try discriminate Eb; try (by rewrite Eb).
      injection Hp as ->. rewrite Eb. unfold encode_xterm, meaning. cbn. rewrite text_read by done.
      by rewrite decide_False by (intros [[=] _]).
    + apply bool_decide_eq_true in Eb1. unfold modifiers in *. destruct code; try discriminate Eb2.
      injection Hp as ->. apply bool_decide_eq_true in Eb2. rewrite Eb1. unfold encode_xterm, meaning. cbn.
      rewrite text_read by done. by rewrite decide_True by done.
  - rewrite other_key_read by done. apply orb_false_iff in Eb as [_ Eb]. unfold meaning, modifiers in *.
    destruct (KeyEvent.code key) as [| | | | | | | | | | | | | | | | |c|]; try discriminate Hp; injection Hp as <-; try done.
    rewrite decide_False; [done|]. intros [E1 E2]. rewrite E1 in Eb. cbn [is_text] in Eb.
    by rewrite !bool_decide_eq_true_2 in Eb.
Qed.

Lemma unmodified modifiers :
  KeyModifiers.others modifiers = false →
  KeyModifiers.shift modifiers || KeyModifiers.alt modifiers || KeyModifiers.control modifiers = false →
  modifiers = KeyModifiers.NONE.
Proof. destruct modifiers as [s k a o]; cbn. by destruct s, k, a, o. Qed.

Lemma sequence_read key cursor :
  codepoint (KeyEvent.code key) = None → sendable key → encode_other_key key Mode2 = None ∧
  read_key (encode_xterm key cursor) = Some (meaning key).
Proof.
  destruct key as [code mods rel]. cbn [KeyEvent.code]. intros Hp (_ & Ho & Hs). cbn [KeyEvent.code KeyEvent.modifiers] in *.
  split; [unfold encode_other_key; cbn [KeyEvent.code]; by rewrite Hp|].
  assert (code = KeyCode.F 1 ∨ code = KeyCode.F 2 ∨ code = KeyCode.F 3 ∨ code = KeyCode.F 4 ∨
          code = KeyCode.F 5 ∨ code = KeyCode.F 6 ∨ code = KeyCode.F 7 ∨ code = KeyCode.F 8 ∨ code = KeyCode.F 9 ∨
          code = KeyCode.F 10 ∨ code = KeyCode.F 11 ∨ code = KeyCode.F 12 ∨ (∀ n, code ≠ KeyCode.F n)) as Hcode.
  { destruct code as [| | | | | | | | | | | | | | | |n| |]; try (do 12 right; by intros).
    assert (n = 1 ∨ n = 2 ∨ n = 3 ∨ n = 4 ∨ n = 5 ∨ n = 6 ∨ n = 7 ∨ n = 8 ∨ n = 9 ∨ n = 10 ∨ n = 11 ∨ n = 12)%N
      as Hn by lia. intuition congruence. }
  unfold encode_xterm, meaning. cbn [KeyEvent.code KeyEvent.modifiers].
  destruct (KeyModifiers.shift mods || KeyModifiers.alt mods || KeyModifiers.control mods) eqn:Em.
  - repeat destruct Hcode as [->|Hcode]; [by apply cursor_key_read|by apply cursor_key_read|by apply cursor_key_read
      |by apply cursor_key_read|by apply tilde_key_read..|].
    destruct code as [| | | | | | | | | | | | | | | |n| |]; try discriminate Hp; try done; cbn [cursor_letter tilde_number];
      first [by apply cursor_key_read|by apply tilde_key_read|by destruct (Hcode n)].
  - rewrite (unmodified mods Ho Em). repeat destruct Hcode as [->|Hcode]; try (by destruct cursor).
    destruct code as [| | | | | | | | | | | | | | | |n| |]; try discriminate Hp; try done; try (by destruct cursor).
    by destruct (Hcode n).
Qed.

(** C31. Applications can tell keys apart.  A program that has asked for the second level of
    modified keys can read back, from the bytes it is sent, every key there is a sequence
    for, with all its modifiers, whichever form the cursor keys have: two keys are sent the
    same bytes only if they are the same key. *)
Theorem keys_read_back (key : KeyEvent.t) (cursor : bool) (Hs : sendable key) :
  read_key (encode key cursor Mode2) = Some (meaning key).
Proof.
  destruct (codepoint (KeyEvent.code key)) as [point|] eqn:Ep; [by eapply point_read|].
  destruct (sequence_read key cursor Ep Hs) as [E Hr]. destruct Hs as (H1 & H2 & _). unfold encode. by rewrite H1, H2, E.
Qed.

(** * Commands *)

Section commands.
Variable prefix : Prefix.t.

Fixpoint dispatches (s : KeyState.t) (events : list (KeyEvent.t * N)) : list Dispatch.t :=
  match events with
  | [] => []
  | (key, now) :: events => let '(s, d) := Keys.resolve s key prefix now in d :: dispatches s events
  end.

Fixpoint state_after (s : KeyState.t) (events : list (KeyEvent.t * N)) : KeyState.t :=
  match events with
  | [] => s
  | (key, now) :: events => state_after (Keys.resolve s key prefix now).1 events
  end.

Lemma dispatches_app s a b : dispatches s (a ++ b) = dispatches s a ++ dispatches (state_after s a) b.
Proof.
  revert s. induction a as [|[key now] a IH]; intros s; cbn; [done|].
  destruct (Keys.resolve s key prefix now) as [s' d] eqn:E. cbn. by rewrite IH.
Qed.

Lemma state_after_app s a b : state_after s (a ++ b) = state_after (state_after s a) b.
Proof. revert s. induction a as [|[key now] a IH]; intros s; cbn; [done|]. apply IH. Qed.

Lemma length_dispatches s events : length (dispatches s events) = length events.
Proof. revert s. induction events as [|[k n] es IH]; intros s; cbn; [done|]. destruct (Keys.resolve s k prefix n). cbn. by rewrite IH. Qed.

(** The last key pressed before, with what it was dispatched as *)
Definition last_press (events : list (KeyEvent.t * N)) (key : KeyEvent.t) (now : N) (d : Dispatch.t) : Prop :=
  ∃ j, events !! j = Some (key, now) ∧ KeyEvent.release key = false ∧ dispatches KeyState.Root events !! j = Some d ∧
    ∀ k e, j < k → events !! k = Some e → KeyEvent.release e.1 = true.

(** What a state says of it *)
Definition told (events : list (KeyEvent.t * N)) : Prop :=
  match state_after KeyState.Root events with
  | KeyState.Root => True
  | KeyState.Prefix => ∃ key now, last_press events key now Dispatch.Pending ∧ matches_prefix key prefix = true
  | KeyState.Repeat until =>
      ∃ key now binding, last_press events key now (Dispatch.Act binding) ∧ Binding.repeatable binding = true ∧
        until = (now + REPEAT_TIME)%N
  end.

Lemma last_press_release events key now d e :
  KeyEvent.release e.1 = true → last_press events key now d → last_press (events ++ [e]) key now d.
Proof.
  intros He (j & Hj & Hr & Hd & Hk). exists j. rewrite dispatches_app, !lookup_app_l
    by (rewrite ?length_dispatches; by eapply lookup_lt_Some). split_and!; [done..|].
  intros k e' Hjk [Hk'|[_ Hk']]%lookup_app_Some; [by eapply Hk|]. by apply list_lookup_singleton_Some in Hk' as [_ <-].
Qed.

Lemma last_press_now events key now :
  KeyEvent.release key = false →
  last_press (events ++ [(key, now)]) key now (Keys.resolve (state_after KeyState.Root events) key prefix now).2.
Proof.
  intros Hr. exists (length events). rewrite dispatches_app, !lookup_app_r, !length_dispatches, !Nat.sub_diag by (rewrite ?length_dispatches; lia).
  cbn. destruct (Keys.resolve _ _ _ _) as [s d]. cbn. split_and!; [done..|].
  intros k e Hk [Hk'|[_ Hk']]%lookup_app_Some; [apply lookup_lt_Some in Hk'; lia|].
  apply lookup_lt_Some in Hk'. cbn in Hk'. lia.
Qed.

Lemma told_always events : told events.
Proof.
  induction events as [|[key now] events IH] using rev_ind; [done|]. unfold told in *. rewrite state_after_app. cbn [state_after].
  destruct (KeyEvent.release key) eqn:Er.
  { assert (Keys.resolve (state_after KeyState.Root events) key prefix now = (state_after KeyState.Root events, Dispatch.Ignore)) as ->.
    { unfold Keys.resolve. by rewrite Er. }
    cbn. destruct (state_after KeyState.Root events); [done|..].
    - destruct IH as (k & n & Hl & Hm). exists k, n. split; [by apply last_press_release|done].
    - destruct IH as (k & n & b & Hl & Hb). exists k, n, b. split; [by apply last_press_release|done]. }
  pose proof (last_press_now events key now Er) as Hl. revert Hl. unfold Keys.resolve, Keys.command. rewrite Er.
  repeat case_match; cbn; intros Hl; try done; simplify_eq/=; try by eauto 8.
Qed.

(** Only what follows the prefix is a command.  Whatever is typed and whenever, a key
    runs a command only if it is bound to it and the key pressed before it was the prefix,
    or was itself a repeatable command less than half a second before and so is this one;
    and a key that is passed on to the application is never the prefix. *)
Theorem commands_are_asked_for (events : list (KeyEvent.t * N)) (i : nat) (key : KeyEvent.t) (now : N) (d : Dispatch.t)
    (Hi : events !! i = Some (key, now)) (Hd : dispatches KeyState.Root events !! i = Some d) :
  match d with
  | Dispatch.Act binding =>
      Prompt.resolve key = Some binding ∧ KeyEvent.release key = false ∧
      ∃ key' now' d', last_press (take i events) key' now' d' ∧
        (d' = Dispatch.Pending ∧ matches_prefix key' prefix = true ∨
         ∃ binding', d' = Dispatch.Act binding' ∧ Binding.repeatable binding' = true ∧ Binding.repeatable binding = true ∧
           (now < now' + REPEAT_TIME)%N)
  | Dispatch.Forward => KeyEvent.release key = false ∧ matches_prefix key prefix = false
  | Dispatch.SendPrefix => matches_prefix key prefix = true
  | _ => True
  end.
Proof.
  pose proof (told_always (take i events)) as Ht. unfold told in Ht.
  rewrite <- (take_drop_middle events i _ Hi), dispatches_app, lookup_app_r in Hd
    by (rewrite length_dispatches, length_take; lia).
  rewrite length_dispatches, length_take_le, Nat.sub_diag in Hd by (apply lookup_lt_Some in Hi; lia).
  assert (d = (Keys.resolve (state_after KeyState.Root (take i events)) key prefix now).2) as ->.
  { cbn [dispatches] in Hd. destruct (Keys.resolve _ key prefix now). by injection Hd. }
  clear Hd Hi. revert Ht. unfold Keys.resolve, Keys.command.
  destruct (KeyEvent.release key) eqn:Er; [done|]. destruct (matches_prefix key prefix) eqn:Em.
  { destruct (state_after _ _); cbn; [done..|]. by case_decide. }
  destruct (Prompt.resolve key) as [binding|]; destruct (state_after _ _) as [| |until]; cbn; try done.
  - intros (k & n & Hl & Hk). split_and!; [done..|]. exists k, n, Dispatch.Pending. split; [done|by left].
  - intros (k & n & b & Hl & Hb & ->). case_decide; cbn; [done|]. destruct (Binding.repeatable binding) eqn:Eb; cbn; [|done].
    split_and!; [done..|]. exists k, n, (Dispatch.Act b). split; [done|]. right. exists b. split_and!; [done..|lia].
  - intros _. by case_decide.
Qed.
End commands.

(** A prefix is one letter with Control or Alt, whatever the case it is written in. *)
Lemma parse_prefix_spec (value : list char) :
  match parse_prefix value with
  | Ok p => Prefix.label p = value ∧ KeyEvent.release (Prefix.key p) = false ∧
            ∃ c modifiers, Prefix.key p = KeyEvent.Mk (KeyCode.Char c) modifiers false ∧ rng 97 122 c = true ∧
              (modifiers = KeyModifiers.CONTROL ∨ modifiers = KeyModifiers.ALT)
  | Err _ => True
  | Panic => False
  end.
Proof.
  unfold parse_prefix. destruct (split_once _ _) as [[modifier [|c rest]]|]; cbn [ok_or mbind outcome_bind]; [done| |done].
  destruct (is_ascii_alphabetic c) eqn:Ec; cbn [ok_or mbind outcome_bind]; [|done].
  unfold fail_if. case_bool_decide; cbn [mbind outcome_bind]; [done|].
  assert (rng 97 122 (to_ascii_lowercase c) = true) as Hc.
  { unfold is_ascii_alphabetic, to_ascii_lowercase in *. apply orb_true_iff in Ec. destruct (rng 65 90 c) eqn:E; [|by destruct Ec].
    unfold rng in *. rewrite !andb_true_iff, !bool_decide_eq_true in *. lia. }
  repeat case_decide; cbn; first [done|split_and!; [done..|]; eauto 8].
Qed.

(** * Examples *)

Definition ctrl_b : Prefix.t := Prefix.Mk (KeyEvent.Mk (KeyCode.Char (ch "b")) KeyModifiers.CONTROL false) (str "Ctrl+b").

Example ctrl_b_parses : parse_prefix (str "Ctrl+b") = Ok ctrl_b.
Proof. by vm_compute. Qed.

Lemma pointer_reports_read_back_witness :
  let event := MouseEvent.Mk (ButtonUp MiddleButton) 4 2 KeyModifiers.SHIFT in
  encode_mouse event (MouseModes.Mk Buttons SGR) = Ok ([ESC] ++ str "[<5;5;3m") ∧
  read_report Sgr ([ESC] ++ str "[<5;5;3m") = Some (Report.Mk (Some (ButtonUp MiddleButton)) true false false 5 3).
Proof.
  split; [by vm_compute|].
  pose proof (pointer_reports_read_back (MouseEvent.Mk (ButtonUp MiddleButton) 4 2 KeyModifiers.SHIFT) (MouseModes.Mk Buttons SGR)
    ltac:(by vm_compute) ltac:(by vm_compute)) as H.
  vm_compute in H. destruct H as [_ H]. exact H.
Defined.

Lemma keys_read_back_witness :
  let key := KeyEvent.Mk KeyCode.BackTab KeyModifiers.CONTROL false in
  encode key true Mode2 = [ESC] ++ str "[27;6;9~" ∧
  read_key ([ESC] ++ str "[27;6;9~") = Some (KeyCode.Tab, KeyModifiers.CONTROL_SHIFT).
Proof.
  split; [by vm_compute|]. apply (keys_read_back (KeyEvent.Mk KeyCode.BackTab KeyModifiers.CONTROL false) true).
  by split_and!.
Defined.

(** The prefix, then an arrow twice within the time *)
Definition walk : list (KeyEvent.t * N) :=
  [(Prefix.key ctrl_b, 0%N); (KeyEvent.Mk KeyCode.Right KeyModifiers.NONE false, 1000%N);
   (KeyEvent.Mk KeyCode.Right KeyModifiers.NONE true, 1001%N); (KeyEvent.Mk KeyCode.Right KeyModifiers.NONE false, 1400%N)].

Lemma commands_are_asked_for_witness :
  ∃ d, dispatches ctrl_b KeyState.Root walk !! 3 = Some d ∧ d = Dispatch.Act (Binding.Mk (Action.Focus FocusRight) true) ∧
  ∃ key now d', last_press ctrl_b (take 3 walk) key now d' ∧ (1400 < now + REPEAT_TIME)%N.
Proof.
  eexists. split; [by vm_compute|]. split; [done|].
  pose proof (commands_are_asked_for ctrl_b walk 3 (KeyEvent.Mk KeyCode.Right KeyModifiers.NONE false) 1400%N _ eq_refl
    ltac:(vm_compute; reflexivity)) as H.
  cbn beta iota in H. destruct H as (_ & _ & key & now & d' & Hl & H). exists key, now, d'. split; [exact Hl|].
  destruct H as [[-> _]|(b & _ & _ & _ & H)]; [|exact H].
  destruct Hl as (j & Hj & _ & Hd & Hk). exfalso.
  destruct j as [|[|[|j]]]; [|vm_compute in Hd; discriminate Hd..|by destruct j].
  specialize (Hk 1 _ ltac:(lia) eq_refl). discriminate Hk.
Defined.
