(* ===== verification/HostInput.v ===== *)
(** How the front end frames what its own terminal sends (apps/tui/src/host_input.rs): the
    bytes of a read are cut into keys, sequences and pastes, each parsed as a whole or
    thrown away as a whole.

    The parser of one frame is the crate terminput, with the conversion to the events of
    crossterm: [Parsing].  Bytes are [N], instants milliseconds; [None] is a panic. *)

From S2P Require Import Prelude.
From S2P Require Import Cells.
From S2P Require Import Layout.
From S2P Require Import Utf8.
From S2P Require Import Observers.
From S2P Require Import ShellReports.
From S2P Require Import Protocol.
From S2P Require Import Prompt.
From S2P Require Import KeyInput.
From stdpp Require Import strings.

Definition POLL_INTERVAL : N := 50.
Definition ESC_DELAY : N := 30.
Definition MAX_SEQUENCE : nat := 256.
Definition MAX_PASTE : nat := 1024 * 1024.
#[global] Arguments MAX_PASTE : simpl never.
Definition PASTE_START : list N := [27; 91; 50; 48; 48; 126]%N.
Definition PASTE_END : list N := [27; 91; 50; 48; 49; 126]%N.

(** An event of crossterm: a key, or something else *)
Inductive Event (O : Type) := KeyPressed (key : KeyEvent.t) | OtherEvent (other : O).
Arguments KeyPressed {O}.
Arguments OtherEvent {O}.

Inductive Parsed (E : Type) := Complete (event : E) | Unfinished | Invalid.
Arguments Complete {E}.
Arguments Unfinished {E}.
Arguments Invalid {E}.

(** [terminput::Event::parse_from] and [terminput_crossterm::to_crossterm] *)
Class Parsing (E O : Type) := {
  parse_from : list N → Parsed E;
  to_crossterm : E → option (Event O);
}.

Definition CSI : list N := [27; 91]%N.
Definition CSI_LESS : list N := [27; 91; 60]%N.

(** ** Frames *)

Fixpoint split_char (tests : char → bool) (s : list char) : list (list char) :=
  match s with
  | [] => [[]]
  | c :: s =>
      if tests c then [] :: split_char tests s
      else match split_char tests s with
           | part :: parts => (c :: part) :: parts
           | [] => [[c]]
           end
  end.

Definition is_char (c d : char) : bool := bool_decide (d = c).
Definition valid_mouse_coordinates (frame : list N) : bool :=
  match utf8_ok (take (length frame - 1) frame) with
  | None => false
  | Some parameters =>
      let values := split_char (is_char (ch ";")) parameters in
      bool_decide (length values = 3) &&
      forallb (λ value, match parse_unsigned u16_MAX value with Some number => bool_decide (0 < number)%N | None => false end)
        (drop 1 values)
  end.

(** [strip_prefix] and [strip_suffix] *)
Definition strip (before after s : list N) : option (list N) :=
  if decide (before `prefix_of` s) then
    let s := drop (length before) s in
    if decide (after `suffix_of` s) then Some (take (length s - length after) s) else None
  else None.

Definition u32_char (value : N) : option char := if is_scalar value then Some value else None.

Definition rewrite_csi_u (frame : list N) : option (list N) :=
  body ← strip CSI [ch "u"] frame; body ← utf8_ok body;
  let '(codes, suffix) := default (body, []) (split_once (ch ";") body) in
  let alternates := split_char (is_char (ch ":")) codes in
  primary ← (value ← alternates !! 0; parse_unsigned u32_MAX value);
  let shifted := value ← alternates !! 1; number ← parse_unsigned u32_MAX value; u32_char number in
  let modifier := default 1%N (value ← split_char (λ c, is_char (ch ";") c || is_char (ch ":") c) suffix !! 0;
                               parse_unsigned 255 value) in
  let shift := negb (bool_decide (N.land (modifier - 1) 1 = 0)%N) in
  let chosen := if shift then
                  match shifted with
                  | Some character => character
                  | None => match u32_char primary with Some character => to_ascii_uppercase character | None => primary end
                  end
                else primary in
  let suffix := if decide (suffix = []) then [] else ch ";" :: suffix in
  Some (encode_all (CSI ++ to_string chosen ++ suffix ++ [ch "u"])).

Section decoder.
Context {E O : Type} `{!Parsing E O}.

Definition parse_frame (frame : list N) : option (Event O) :=
  if bool_decide (CSI_LESS `prefix_of` frame) && negb (valid_mouse_coordinates (drop 3 frame)) then None else
  if bool_decide (CSI `prefix_of` frame) && bool_decide ([ch "M"] `suffix_of` frame)
     && match frame !! 2 with Some c => is_digit c | None => false end
     && negb (valid_mouse_coordinates (drop 2 frame)) then None else
  let rewritten := rewrite_csi_u frame in
  match parse_from (default frame rewritten) with
  | Complete event => to_crossterm event
  | _ => None
  end.
End decoder.

Inductive Discard := DiscardCsi | DiscardPaste (tail : list N).

Module Decoder.
Record t := Mk { frame : list N; escape_at : option N; discard : option Discard }.
Definition default : t := Mk [] None None.
Definition with_frame (x : list N) (d : t) : t := Mk x (escape_at d) (discard d).
Definition with_escape_at (x : option N) (d : t) : t := Mk (frame d) x (discard d).
Definition with_discard (x : option Discard) (d : t) : t := Mk (frame d) (escape_at d) x.

Definition is_final (byte : N) : bool := within_range 0x40 0x7e byte.

Definition discard_byte (byte : N) (d : t) : option t :=
  match discard d with
  | None => None
  | Some DiscardCsi => Some (if is_final byte then with_discard None d else d)
  | Some (DiscardPaste tail) =>
      let tail := tail ++ [byte] in
      let tail := if decide (length PASTE_END < length tail) then drop 1 tail else tail in
      Some (with_discard (if decide (tail = PASTE_END) then None else Some (DiscardPaste tail)) d)
  end.

Section ops.
Context {E O : Type} `{!Parsing E O}.

Definition finish (d : t) : t * list (Event O) := (with_frame [] d, option_list (parse_frame (frame d))).

Definition insert_alt (event : Event O) : Event O :=
  match event with
  | KeyPressed key =>
      let m := KeyEvent.modifiers key in
      KeyPressed (KeyEvent.Mk (KeyEvent.code key)
        (KeyModifiers.Mk (KeyModifiers.shift m) (KeyModifiers.control m) true (KeyModifiers.others m)) (KeyEvent.release key))
  | OtherEvent other => OtherEvent other
  end.

Definition expire (now : N) (d : t) : t * option (Event O) :=
  match escape_at d with
  | None => (d, None)
  | Some started =>
      if decide (now - started < ESC_DELAY)%N then (d, None) else
      let event := if decide (frame d = CSI ∨ frame d = [27; 79]%N)
                   then insert_alt <$> parse_frame (drop 1 (frame d)) else parse_frame (frame d) in
      (with_frame [] (with_escape_at None d), event)
  end.

(** One byte that is not thrown away, once the frame it may end is finished *)
Definition push_byte (byte : N) (now : N) (d : t) : option (t * list (Event O)) :=
  let d := with_frame (frame d ++ [byte]) d in
  if decide (frame d = [27]%N ∨ frame d = [27; 27]%N) then Some (with_escape_at (Some now) d, []) else
  let d := with_escape_at None d in
  if decide (frame d = CSI ∨ frame d = [27; 79]%N) then Some (with_escape_at (Some now) d, []) else
  if decide (PASTE_START `prefix_of` frame d) then
    if decide (PASTE_END `suffix_of` frame d) then
      size ← csub (length (frame d)) (length PASTE_START); size ← csub size (length PASTE_END);
      if decide (size ≤ MAX_PASTE) then Some (finish d) else Some (with_frame [] d, [])
    else if decide (MAX_PASTE + length PASTE_START + length PASTE_END < length (frame d)) then
      start ← csub (length (frame d)) (length PASTE_END);
      Some (with_frame [] (with_discard (Some (DiscardPaste (drop start (frame d)))) d), [])
    else Some (d, [])
  else if decide (CSI `prefix_of` frame d) then
    if decide (frame d = [27; 91; 91]%N) then Some (d, [])
    else if decide (frame d !! 2 = Some (ch "M")) then
      Some (if decide (length (frame d) = 6) then finish d else (d, []))
    else if bool_decide (2 < length (frame d)) && is_final byte then Some (finish d)
    else if decide (MAX_SEQUENCE ≤ length (frame d)) then Some (with_frame [] (with_discard (Some DiscardCsi) d), [])
    else Some (d, [])
  else if decide (frame d = [27; 79]%N ∨ frame d = [27; 27; 91]%N) then Some (d, [])
  else
    let '(d, events) := match parse_from (frame d) with
                        | Complete _ => finish d
                        | Unfinished => (d, [])
                        | Invalid => (with_frame [] d, [])
                        end in
    Some (if decide (MAX_SEQUENCE ≤ length (frame d)) then with_frame [] d else d, events).

Definition feed_byte (byte : N) (now : N) (d : t) : option (t * list (Event O)) :=
  match discard_byte byte d with
  | Some d => Some (d, [])
  | None =>
      let '(d, events) := if decide (frame d = [27; 27]%N ∧ byte ≠ ch "[") then finish d else (d, []) in
      '(d, more) ← push_byte byte now d; Some (d, events ++ more)
  end.

Fixpoint feed_bytes (bytes : list N) (now : N) (d : t) : option (t * list (Event O)) :=
  match bytes with
  | [] => Some (d, [])
  | byte :: bytes =>
      '(d, events) ← feed_byte byte now d; '(d, more) ← feed_bytes bytes now d; Some (d, events ++ more)
  end.

Definition feed (bytes : list N) (now : N) (d : t) : option (t * list (Event O)) :=
  let '(d, expired) := expire now d in
  '(d, events) ← feed_bytes bytes now d; Some (d, option_list expired ++ events).
End ops.

Definition wait (now : N) (d : t) : N :=
  match escape_at d with Some at_ => N.min (ESC_DELAY - (now - at_)) POLL_INTERVAL | None => POLL_INTERVAL end.
End Decoder.

(** * Bounds *)

Import Decoder.

Lemma prefix_length (p s : list N) : p `prefix_of` s → length p ≤ length s.
Proof. intros [x ->]. rewrite length_app. lia. Qed.

Lemma prefix_snoc (p s : list N) b : p `prefix_of` s ++ [b] → p `prefix_of` s ∨ p = s ++ [b].
Proof.
  intros [x E]. destruct x as [|c x _] using rev_ind; [right; by rewrite app_nil_r in E|left].
  rewrite app_assoc in E. apply app_inj_tail in E as [-> _]. by eexists.
Qed.

(** The two marks of a paste do not overlap. *)
Lemma marks_apart s : PASTE_START `prefix_of` s → PASTE_END `suffix_of` s → 12 ≤ length s.
Proof.
  intros [x ->] [y E]. rewrite length_app. cbn [length PASTE_START].
  assert (length y = length x) as Hl.
  { apply (f_equal length) in E. rewrite !length_app in E. cbn in E. lia. }
  destruct (decide (6 ≤ length x)) as [|Hx]; [cbn; lia|exfalso].
  assert ((PASTE_START ++ x) !! length y = Some 27%N) as Hy by (by rewrite E, lookup_app_r, Nat.sub_diag by lia).
  rewrite lookup_app_l in Hy by (cbn; lia). destruct (length y) as [|[|[|[|[|[|k]]]]]] eqn:Ey; try discriminate Hy.
  apply nil_length_inv in Ey as ->. symmetry in Hl. apply nil_length_inv in Hl as ->. discriminate E.
Qed.

Section bounds.
Context {E O : Type} `{!Parsing E O}.

(** No frame and no discarded tail grows without bound. *)
Definition bounded (d : Decoder.t) : Prop :=
  (length (frame d) ≤ MAX_PASTE + 12) ∧
  (PASTE_START `prefix_of` frame d ∨
   length (frame d) < MAX_SEQUENCE ∧ (CSI `prefix_of` frame d → frame d !! 2 = Some (ch "M") → length (frame d) < 6)) ∧
  match discard d with Some (DiscardPaste tail) => length tail ≤ 6 | _ => True end.

Lemma bounded_empty a x : match x with Some (DiscardPaste tail) => length tail ≤ 6 | _ => True end → bounded (Mk [] a x).
Proof. intros H. split; [cbn; lia|]. split; [right|done]. split; [unfold MAX_SEQUENCE; cbn; lia|cbn; lia]. Qed.

Lemma bounded_short f a x :
  length f < MAX_SEQUENCE → (CSI `prefix_of` f → f !! 2 = Some (ch "M") → length f < 6) →
  match x with Some (DiscardPaste tail) => length tail ≤ 6 | _ => True end → bounded (Mk f a x).
Proof. intros H1 H2 H3. split; [cbn; unfold MAX_SEQUENCE, MAX_PASTE in *; lia|]. split; [by right|done]. Qed.

Lemma push_bounded byte now d : bounded d → push_byte byte now d ⇓ λ '(d', _), bounded d'.
Proof.
  destruct d as [f a x]. intros (Hl & Hf & Hx). cbn [frame discard] in *. unfold push_byte, with_escape_at, with_discard, with_frame.
  cbn [frame escape_at discard]. set (g := f ++ [byte]). assert (Hg : length g = S (length f)) by (unfold g; rewrite length_app; cbn; lia).
  assert (Hshort : ∀ s : list N, length s ≤ 3 → g = s → bounded (Mk g (Some now) x)).
  { intros s Hs Es. apply bounded_short; rewrite ?Es; [unfold MAX_SEQUENCE; lia|intros; lia|done]. }
  case_decide as H1; [eapply Safe_intro; [done|]; destruct H1 as [H1|H1]; (eapply Hshort; [|exact H1]); cbn; lia|].
  case_decide as H2; [eapply Safe_intro; [done|]; destruct H2 as [H2|H2]; (eapply Hshort; [|exact H2]); cbn; lia|].
  case_decide as Hs.
  - case_decide as He.
    + pose proof (marks_apart g Hs He). rewrite csub_Some by (cbn; lia). cbn [mbind option_bind]. rewrite csub_Some by (cbn; lia). cbn [mbind option_bind].
      case_decide; (eapply Safe_intro; [done|]); by apply bounded_empty.
    + case_decide as Hm.
      * rewrite csub_Some by (cbn; cbn in Hm; lia). cbn [mbind option_bind]. eapply Safe_intro; [done|]. apply bounded_empty.
        rewrite length_drop. cbn. lia.
      * eapply Safe_intro; [done|]. change (¬ MAX_PASTE + 6 + 6 < length g) in Hm.
        split; [change (length g ≤ MAX_PASTE + 12); lia|]. split; [by left|done].
  - assert (Hf' : length f < MAX_SEQUENCE ∧ (CSI `prefix_of` f → f !! 2 = Some (ch "M") → length f < 6)).
    { destruct Hf as [Hf|Hf]; [|done]. destruct Hs. by apply prefix_app_r. }
    clear Hf. case_decide as Hc.
    + case_decide as Hb; [eapply Safe_intro; [done|]; apply bounded_short; [rewrite Hb; unfold MAX_SEQUENCE; cbn; lia|rewrite Hb; cbn; lia|done]|].
      case_decide as HM.
      { eapply Safe_intro; [done|]. case_decide; [by apply bounded_empty|].
        assert (length g < 6) as H6.
        { destruct (decide (length g = 3)); [lia|]. apply lookup_lt_Some in HM as H3. destruct Hf' as [_ Hf'].
          assert (length f < 6); [|lia]. apply Hf'.
          - apply prefix_snoc in Hc as [?|E']; [done|]. unfold g in *. rewrite <- E' in H3. cbn in H3. lia.
          - unfold g in HM. by rewrite lookup_app_l in HM by lia. }
        apply bounded_short; [unfold MAX_SEQUENCE; lia|by intros|done]. }
      destruct (bool_decide _ && _); [eapply Safe_intro; [done|]; by apply bounded_empty|].
      case_decide; (eapply Safe_intro; [done|]); [by apply bounded_empty|]. apply bounded_short; [lia|by intros|done].
    + case_decide as H3; [eapply Safe_intro; [done|]; destruct H3 as [H3|H3]; rewrite H3; apply bounded_short; cbn; unfold MAX_SEQUENCE; try lia; done|].
      destruct (parse_from g); (eapply Safe_intro; [done|]); cbn [frame finish with_frame]; case_decide; try (by apply bounded_empty).
      apply bounded_short; [lia|by intros|done].
Qed.

Lemma expire_bounded now d : bounded d → bounded (expire now d).1.
Proof.
  destruct d as [f [a|] x]; intros H; unfold expire; cbn [escape_at]; [|done]. case_decide; [done|]. apply bounded_empty, H.
Qed.

Lemma finish_bounded d : bounded d → bounded (finish d).1.
Proof. intros (_ & _ & H). by apply bounded_empty. Qed.

Lemma feed_byte_bounded byte now d : bounded d → feed_byte byte now d ⇓ λ '(d', _), bounded d'.
Proof.
  intros Hd. unfold feed_byte. destruct (discard_byte byte d) as [d'|] eqn:Ed.
  - eapply Safe_intro; [done|]. destruct Hd as (H1 & H2 & H3). unfold discard_byte in Ed.
    destruct (discard d) as [[|tail]|] eqn:Ex; [..|done]; injection Ed as <-.
    + case_match; split_and!; try done. by rewrite Ex.
    + split_and!; try done. cbn [discard with_discard]. case_decide; [done|]. case_decide as Hn.
      * rewrite length_drop, length_app. cbn. lia.
      * rewrite length_app in *. cbn in *. lia.
  - set (p := if decide _ then _ else _). assert (bounded p.1) as Hp by (unfold p; case_decide; [by apply finish_bounded|done]).
    destruct p as [d1 events]. cbn in Hp. destruct (Safe_elim _ _ (push_bounded byte now d1 Hp)) as ([d2 more] & -> & H). by eapply Safe_intro.
Qed.

Lemma feed_bytes_bounded bytes now d : bounded d → feed_bytes bytes now d ⇓ λ '(d', _), bounded d'.
Proof.
  revert d. induction bytes as [|b bytes IH]; intros d Hd; cbn [feed_bytes]; [by eapply Safe_intro|].
  destruct (Safe_elim _ _ (feed_byte_bounded b now d Hd)) as ([d1 e1] & -> & H1). cbn [mbind option_bind].
  destruct (Safe_elim _ _ (IH d1 H1)) as ([d2 e2] & -> & H2). by eapply Safe_intro.
Qed.

(** Every read of the terminal, whenever it comes *)
Fixpoint read_all (reads : list (list N * N)) (d : Decoder.t) : option (Decoder.t * list (Event O)) :=
  match reads with
  | [] => Some (d, [])
  | (bytes, now) :: reads => '(d, events) ← feed bytes now d; '(d, more) ← read_all reads d; Some (d, events ++ more)
  end.

(** Whatever comes from the terminal and whenever, the decoder does not panic and what it
    keeps stays within the limit of a paste. *)
Theorem decoder_bounded (reads : list (list N * N)) :
  read_all reads Decoder.default ⇓ λ '(d, _), bounded d.
Proof.
  assert (bounded Decoder.default) as Hd by by apply bounded_empty.
  revert Hd. generalize Decoder.default. induction reads as [|[bytes now] reads IH]; intros d Hd; cbn [read_all]; [by eapply Safe_intro|].
  unfold feed. pose proof (expire_bounded now d Hd) as He. destruct (expire now d) as [d0 e0]. cbn in He.
  destruct (Safe_elim _ _ (feed_bytes_bounded bytes now d0 He)) as ([d1 e1] & -> & H1). cbn [mbind option_bind].
  destruct (Safe_elim _ _ (IH d1 H1)) as ([d2 e2] & -> & H2). by eapply Safe_intro.
Qed.
End bounds.

(** * Pastes and sequences *)

Opaque MAX_PASTE.

Lemma suffix_end (s : list N) :
  length PASTE_END ≤ length s → drop (length s - length PASTE_END) s = PASTE_END ↔ PASTE_END `suffix_of` s.
Proof.
  intros Hl. split.
  - intros E. exists (take (length s - length PASTE_END) s). rewrite <- (take_drop (length s - length PASTE_END) s) at 1. by rewrite E.
  - intros [x ->]. rewrite length_app, Nat.add_sub. by rewrite drop_app_length.
Qed.

Section whole.
Context {E O : Type} `{!Parsing E O}.

Lemma feed_bytes_cons b bytes now d :
  feed_bytes (b :: bytes) now d
  = ('(d, events) ← feed_byte b now d; '(d, more) ← feed_bytes bytes now d; Some (d, events ++ more)).
Proof. done. Qed.

Lemma feed_bytes_app a b now d :
  feed_bytes (a ++ b) now d
  = ('(d, events) ← feed_bytes a now d; '(d, more) ← feed_bytes b now d; Some (d, events ++ more)).
Proof.
  revert b d. induction a as [|x a IH]; intros b d; cbn [feed_bytes app mbind option_bind].
  - destruct (feed_bytes b now d) as [[]|]; done.
  - destruct (feed_byte x now d) as [[d1 e1]|]; [|done]. cbn [mbind option_bind]. rewrite IH.
    destruct (feed_bytes a now d1) as [[d2 e2]|]; [|done]. cbn [mbind option_bind].
    destruct (feed_bytes b now d2) as [[d3 e3]|]; [|done]. cbn. by rewrite app_assoc.
Qed.

(** One byte within a paste *)
Lemma paste_byte f b now :
  PASTE_START `prefix_of` f →
  feed_byte b now (Mk f None None)
  = Some (if decide (PASTE_END `suffix_of` f ++ [b]) then
            if decide (length f + 1 ≤ MAX_PASTE + 12) then (Decoder.default, option_list (parse_frame (f ++ [b])))
            else (Decoder.default, [])
          else if decide (MAX_PASTE + 12 < length f + 1)
               then (Mk [] None (Some (DiscardPaste (drop (length f - 5) (f ++ [b])))), [])
               else (Mk (f ++ [b]) None None, [])).
Proof.
  intros Hf. pose proof (prefix_length _ _ Hf) as Hl. cbn in Hl.
  assert (Hg : length (f ++ [b]) = length f + 1) by (by rewrite length_app).
  assert (Hp : PASTE_START `prefix_of` f ++ [b]) by by apply prefix_app_r.
  unfold feed_byte. cbn [discard_byte discard frame].
  assert (∀ s, length s ≤ 3 → f ≠ s) as Hne by (intros s Hs ->; lia).
  assert (∀ s, length s ≤ 3 → f ++ [b] ≠ s) as Hne' by (intros s Hs <-; lia).
  rewrite decide_False by (intros [H _]; by apply Hne in H; [|cbn; lia]).
  unfold push_byte, with_escape_at, with_discard, with_frame. cbn [frame escape_at discard].
  rewrite decide_False by (intros [H|H]; by apply Hne' in H; [|cbn; lia]).
  rewrite decide_False by (intros [H|H]; by apply Hne' in H; [|cbn; lia]).
  rewrite decide_True by done. case_decide as He.
  - pose proof (marks_apart _ Hp He) as H12. rewrite csub_Some by (cbn; lia). cbn [mbind option_bind].
    rewrite csub_Some by (cbn; lia). cbn [mbind option_bind]. change (length PASTE_START) with 6. change (length PASTE_END) with 6.
    rewrite Hg in *. repeat case_decide; try lia; done.
  - change (length PASTE_START) with 6. change (length PASTE_END) with 6. rewrite Hg.
    repeat case_decide; try lia; [|done]. rewrite csub_Some by lia. cbn [mbind option_bind app].
    by replace (length f + 1 - 6) with (length f - 5) by lia.
Qed.

(** The rest of a paste that was too long *)
Lemma discarded rest seen now :
  rest ≠ [] → 6 ≤ length seen → PASTE_END `suffix_of` seen ++ rest →
  (∀ k, k < length rest → ¬ PASTE_END `suffix_of` seen ++ take k rest) →
  feed_bytes rest now (Mk [] None (Some (DiscardPaste (drop (length seen - 6) seen)))) = Some (Decoder.default, []).
Proof.
  revert seen. induction rest as [|b rest IH]; intros seen Hr Hl He Hk; [done|]. rewrite feed_bytes_cons. unfold feed_byte, discard_byte.
  cbn [discard]. set (tail := drop (length seen - 6) seen ++ [b]).
  assert (Ht : (if decide (length PASTE_END < length tail) then drop 1 tail else tail) = drop (length (seen ++ [b]) - 6) (seen ++ [b])).
  { unfold tail. rewrite decide_True by (rewrite length_app, length_drop; cbn; lia).
    rewrite <- drop_app_le, drop_drop by lia. f_equal. rewrite length_app. cbn. lia. }
  rewrite Ht. clear Ht tail. pose proof (suffix_end (seen ++ [b]) ltac:(rewrite length_app; cbn; lia)) as Hs.
  change (length PASTE_END) with 6 in Hs.
  assert (Heq : seen ++ b :: rest = (seen ++ [b]) ++ rest) by (by rewrite <- app_assoc). rewrite Heq in He.
  destruct rest as [|c rest].
  - rewrite app_nil_r in He. rewrite decide_True by (by apply Hs). done.
  - rewrite decide_False by (rewrite Hs; apply (Hk 1); cbn; lia). unfold with_discard. cbn [frame escape_at mbind option_bind].
    rewrite (IH (seen ++ [b])); [done|done|rewrite length_app; lia|done|].
    intros k Hlt. specialize (Hk (S k)). cbn [take] in Hk. replace (seen ++ b :: take k (c :: rest)) with ((seen ++ [b]) ++ take k (c :: rest)) in Hk
      by (by rewrite <- app_assoc). apply Hk. cbn in *. lia.
Qed.

Lemma paste_rest rest f now :
  PASTE_START `prefix_of` f → rest ≠ [] → PASTE_END `suffix_of` f ++ rest → length f ≤ MAX_PASTE + 12 →
  (∀ k, k < length rest → ¬ PASTE_END `suffix_of` f ++ take k rest) →
  feed_bytes rest now (Mk f None None)
  = Some (Decoder.default, if decide (length f + length rest ≤ MAX_PASTE + 12) then option_list (parse_frame (f ++ rest)) else []).
Proof.
  revert f. induction rest as [|b rest IH]; intros f Hf Hr He Hm Hk; [done|]. rewrite feed_bytes_cons, paste_byte by done.
  assert (Heq : f ++ b :: rest = (f ++ [b]) ++ rest) by (by rewrite <- app_assoc). rewrite Heq in *. cbn [length].
  destruct rest as [|c rest].
  - rewrite app_nil_r in *. rewrite decide_True by done. cbn [length]. case_decide; cbn; [by rewrite app_nil_r|done].
  - rewrite decide_False by (apply (Hk 1); cbn; lia).
    assert (Hk' : ∀ k, k < length (c :: rest) → ¬ PASTE_END `suffix_of` (f ++ [b]) ++ take k (c :: rest)).
    { intros k Hlt. specialize (Hk (S k)). cbn [take] in Hk. rewrite <- app_assoc. apply Hk. cbn in *. lia. }
    case_decide as Hb.
    + cbn [mbind option_bind]. pose proof (prefix_length _ _ Hf) as H6. cbn in H6.
      replace (length f - 5) with (length (f ++ [b]) - 6) by (rewrite length_app; cbn; lia).
      rewrite discarded; [|done|rewrite length_app; cbn; lia|done|done]. cbn [mbind option_bind app].
      rewrite decide_False by (cbn; lia). done.
    + cbn [mbind option_bind]. rewrite IH; [|by apply prefix_app_r|done|done|rewrite length_app; cbn; lia|done].
      cbn [mbind option_bind app]. rewrite length_app. cbn [length]. repeat case_decide; try lia; done.
Qed.

(** The content of a paste: the closing mark is first found where the content ends. *)
Definition content_of_paste (content : list N) : Prop :=
  ∀ k, k < length content → ¬ PASTE_END `prefix_of` drop k (content ++ PASTE_END).

Definition paste (content : list N) : list N := PASTE_START ++ content ++ PASTE_END.

Lemma paste_bytes content now :
  content_of_paste content →
  feed_bytes (paste content) now Decoder.default
  = Some (Decoder.default, if decide (length content ≤ MAX_PASTE) then option_list (parse_frame (paste content)) else []).
Proof.
  intros Hc. assert (Hs : feed_bytes PASTE_START now Decoder.default = Some (Mk PASTE_START None None, [])) by (by vm_compute).
  unfold paste. rewrite feed_bytes_app, Hs. cbn [mbind option_bind]. rewrite paste_rest.
  - cbn [mbind option_bind app]. rewrite length_app. change (length PASTE_START) with 6. change (length PASTE_END) with 6.
    repeat case_decide; try lia; done.
  - done.
  - by destruct content.
  - exists (PASTE_START ++ content). by rewrite app_assoc.
  - change (length PASTE_START) with 6. lia.
  - intros k Hk He. pose proof (marks_apart _ (prefix_app_r _ _ _ (reflexivity _)) He) as H12.
    rewrite length_app, length_take in H12. rewrite length_app in Hk. change (length PASTE_START) with 6 in H12. change (length PASTE_END) with 6 in *.
    apply (Hc (k - 6)); [lia|]. destruct He as [x Ex].
    exists (drop k (content ++ PASTE_END)). assert (length x = k) as Hx.
    { apply (f_equal length) in Ex. rewrite !length_app, length_take, length_app in Ex. cbn in Ex. lia. }
    assert (drop (k - 6) (take k (content ++ PASTE_END)) = PASTE_END) as Hd.
    { apply (f_equal (drop k)) in Ex. rewrite (drop_app_ge PASTE_START) in Ex by (cbn; lia).
      change (length PASTE_START) with 6 in Ex. rewrite Ex. by rewrite drop_app_length'. }
    transitivity (drop (k - 6) (take k (content ++ PASTE_END) ++ drop k (content ++ PASTE_END))); [by rewrite take_drop|].
    rewrite drop_app_le, Hd; [done|]. rewrite length_take, length_app. cbn. lia.
Qed.

(** ** Control sequences *)

Definition parameters (ps : list N) : Prop := Forall (λ b, is_final b = false) ps.

Lemma csi_not_paste ps b :
  parameters ps → (is_final b = false ∨ ps ++ [b] ≠ [50; 48; 48; 126]%N) → ¬ PASTE_START `prefix_of` CSI ++ ps ++ [b].
Proof.
  intros Hp Hb [x Ex]. destruct ps as [|p1 [|p2 [|p3 [|p4 ps]]]]; try discriminate Ex.
  - injection Ex as -> -> -> -> _. destruct Hb as [Hb|Hb]; done.
  - injection Ex as -> -> -> -> _. do 3 apply Forall_inv_tail in Hp. by apply Forall_inv in Hp.
Qed.

Lemma sequence_byte ps b now a :
  parameters ps → (is_final b = false ∨ ps ++ [b] ≠ [50; 48; 48; 126]%N) →
  (ps = [] → b ≠ ch "[" ∧ b ≠ ch "M") →
  feed_byte b now (Mk (CSI ++ ps) a None)
  = Some (if is_final b then (Decoder.default, option_list (parse_frame (CSI ++ ps ++ [b])))
          else if decide (MAX_SEQUENCE ≤ length ps + 3) then (Mk [] None (Some DiscardCsi), [])
          else (Mk (CSI ++ ps ++ [b]) None None, [])).
Proof.
  intros Hp Hb Hn. pose proof (csi_not_paste ps b Hp Hb) as Hs. unfold feed_byte, discard_byte. cbn [discard frame].
  rewrite decide_False by (intros [[=] _]). unfold push_byte, with_escape_at, with_discard, with_frame. cbn [frame escape_at discard].
  rewrite <- app_assoc. rewrite decide_False by (intros [[=]|[=]]).
  rewrite decide_False by (intros [[= Ex]|[=]]; by destruct ps). rewrite decide_False by done.
  rewrite decide_True by (by eexists). rewrite decide_False by (intros [= Ex]; destruct ps as [|? [|]]; try done; injection Ex as ->; by destruct (Hn eq_refl)).
  rewrite decide_False.
  2:{ destruct ps as [|p ps]; cbn; intros [= ->]; [by destruct (Hn eq_refl)|]. by apply Forall_inv in Hp. }
  assert (length (CSI ++ ps ++ [b]) = length ps + 3) as -> by (rewrite !length_app; cbn; lia).
  rewrite bool_decide_eq_true_2 by lia. cbn [andb]. destruct (is_final b); [done|]. case_decide; done.
Qed.

Lemma discarded_sequence ps b now :
  parameters ps → is_final b = true →
  feed_bytes (ps ++ [b]) now (Mk [] None (Some DiscardCsi)) = Some (Decoder.default, []).
Proof.
  intros Hp Hb. induction Hp as [|p ps Hp _ IH]; cbn [app]; rewrite feed_bytes_cons; unfold feed_byte, discard_byte; cbn [discard].
  - by rewrite Hb.
  - rewrite Hp. cbn [mbind option_bind]. by rewrite IH.
Qed.

Lemma sequence_rest ps seen b now a :
  parameters (seen ++ ps) → is_final b = true → (seen ++ ps = [] → b ≠ ch "[" ∧ b ≠ ch "M") →
  seen ++ ps ++ [b] ≠ [50; 48; 48; 126]%N → length seen + 3 ≤ MAX_SEQUENCE →
  feed_bytes (ps ++ [b]) now (Mk (CSI ++ seen) a None)
  = Some (Decoder.default, if decide (length seen + length ps + 3 ≤ MAX_SEQUENCE)
                           then option_list (parse_frame (CSI ++ seen ++ ps ++ [b])) else []).
Proof.
  revert seen a. induction ps as [|p ps IH]; intros seen a Hp Hb Hn Hs Hl; cbn [app]; rewrite feed_bytes_cons.
  - rewrite app_nil_r in *. rewrite sequence_byte by (done || by right). rewrite Hb. cbn [mbind option_bind feed_bytes length].
    rewrite decide_True by lia. by rewrite app_nil_r.
  - assert (parameters seen ∧ is_final p = false ∧ parameters ps) as (Hp1 & Hp2 & Hp3).
    { apply Forall_app in Hp as [? Hp]. by apply Forall_cons in Hp as []. }
    assert (seen ++ p :: ps ++ [b] = (seen ++ [p]) ++ ps ++ [b]) as Heq by (by rewrite <- app_assoc).
    rewrite sequence_byte; [|done|by left|intros _; split; intros ->; discriminate Hp2]. rewrite Hp2. cbn [length].
    case_decide as Hm; cbn [mbind option_bind].
    + rewrite discarded_sequence by done. cbn. rewrite decide_False by lia. done.
    + rewrite IH; [|by rewrite <- app_assoc|done|by destruct seen|by rewrite <- Heq|rewrite length_app; cbn; lia].
      cbn [mbind option_bind app]. rewrite length_app, Heq. cbn [length]. repeat case_decide; try lia; done.
Qed.

(** A control sequence is one event, parsed from all its bytes, or nothing if it is too
    long: no byte of it is ever taken for a key. *)
Theorem sequence_is_one_event (ps : list N) (b now : N)
    (Hp : parameters ps) (Hb : is_final b = true) (Hn : ps = [] → b ≠ ch "[" ∧ b ≠ ch "M")
    (Hs : ps ++ [b] ≠ [50; 48; 48; 126]%N) :
  feed_bytes (CSI ++ ps ++ [b]) now Decoder.default
  = Some (Decoder.default, if decide (length ps + 3 ≤ MAX_SEQUENCE)
                           then option_list (parse_frame (CSI ++ ps ++ [b])) else []).
Proof.
  rewrite feed_bytes_app. assert (feed_bytes CSI now Decoder.default = Some (Mk CSI (Some now) None, [])) as -> by (by vm_compute).
  cbn [mbind option_bind]. pose proof (sequence_rest ps [] b now (Some now)) as H. rewrite app_nil_r in H.
  rewrite H; [|done|done|done|done|unfold MAX_SEQUENCE; cbn; lia]. done.
Qed.

(** ** How the bytes are cut into reads *)

Definition same (d d' : Decoder.t) : Prop :=
  frame d = frame d' ∧ discard d = discard d' ∧ (escape_at d = None ↔ escape_at d' = None).

Lemma push_same b now now' d d' :
  same d d' →
  match push_byte b now d, push_byte b now' d' with
  | Some (x, e), Some (y, e') => same x y ∧ e = e'
  | None, None => True
  | _, _ => False
  end.
Proof.
  destruct d as [f a x], d' as [f' a' x']. intros (E1 & E2 & E3). cbn [frame discard escape_at] in *. subst f' x'.
  unfold push_byte, with_escape_at, with_discard, with_frame, finish. cbn [frame escape_at discard].
  repeat case_decide; try (by repeat split); try (by destruct (csub _ _) as [n|]; cbn [mbind option_bind]; [|done];
    destruct (csub n _); cbn [mbind option_bind]; [|done]; case_decide; by repeat split).
  all: try (by destruct (csub _ _); cbn [mbind option_bind]; [by repeat split|done]).
  all: try (destruct (is_final b); by repeat split).
  all: destruct (parse_from _); cbn [frame]; repeat case_decide; by repeat split.
Qed.

(** A relation on results *)
Definition agree (r r' : option (Decoder.t * list (Event O))) : Prop :=
  match r, r' with
  | Some (x, e), Some (y, e') => same x y ∧ e = e'
  | None, None => True
  | _, _ => False
  end.

Lemma byte_same b now now' d d' : same d d' → agree (feed_byte b now d) (feed_byte b now' d').
Proof.
  intros Hs. unfold feed_byte. destruct Hs as (E1 & E2 & E3). unfold discard_byte. rewrite <- E2.
  destruct (discard d) as [[|tail]|] eqn:Ed; cbn;
    [case_match; (split; [by split_and!; cbn; rewrite ?Ed|done])|split; [by split_and!|done]|].
  assert (same d d') as Hs by (split_and!; [done|by rewrite Ed|done]). rewrite <- E1.
  case_decide as Hf; cbn.
  - assert (same (with_frame [] d) (with_frame [] d')) as Hs' by (split; [done|split; [apply Hs|exact E3]]).
    pose proof (push_same b now now' _ _ Hs') as H. unfold agree.
    destruct (push_byte b now _) as [[x e]|], (push_byte b now' _) as [[y e']|]; try done. cbn. destruct H as [? ->]. by rewrite E1.
  - pose proof (push_same b now now' _ _ Hs) as H. unfold agree.
    destruct (push_byte b now _) as [[x e]|], (push_byte b now' _) as [[y e']|]; try done.
Qed.

Lemma bytes_same bytes now now' d d' : same d d' → agree (feed_bytes bytes now d) (feed_bytes bytes now' d').
Proof.
  revert d d'. induction bytes as [|b bytes IH]; intros d d' Hs; [done|]. rewrite !feed_bytes_cons.
  pose proof (byte_same b now now' d d' Hs) as H. unfold agree in *.
  destruct (feed_byte b now d) as [[x e]|], (feed_byte b now' d') as [[y e']|]; try done. destruct H as [Hxy ->]. cbn [mbind option_bind].
  pose proof (IH x y Hxy) as H. destruct (feed_bytes bytes now x) as [[x2 e2]|], (feed_bytes bytes now' y) as [[y2 e2']|]; try done.
  cbn. by destruct H as [? ->].
Qed.

(** A pending escape is from the last read. *)
Definition pending_since (now : N) (d : Decoder.t) : Prop :=
  match escape_at d with None => True | Some at_ => at_ = now ∧ discard d = None end.

Lemma byte_pending b last now d :
  pending_since last d → match feed_byte b now d with Some (d', _) => pending_since now d' | None => True end.
Proof.
  intros Hp. unfold feed_byte, discard_byte, pending_since in *. destruct d as [f a x]. cbn [escape_at discard frame] in *.
  destruct x as [[|tail]|].
  - destruct a; [by destruct Hp|]. by destruct (is_final b).
  - destruct a; [by destruct Hp|]. done.
  - set (p := if decide _ then _ else _). assert (escape_at p.1 = a ∧ discard p.1 = None) as [E1 E2] by (unfold p; by case_decide).
    destruct p as [[f' a' x'] e]. cbn in E1, E2. subst a' x'. clear Hp. unfold push_byte, with_escape_at, with_discard, with_frame, finish.
    cbn [frame escape_at discard]. repeat case_decide; try done;
      try (by destruct (csub _ _) as [n|]; cbn [mbind option_bind]; [|done]; destruct (csub n _); cbn; [case_decide|]);
      try (by destruct (csub _ _)); try (by destruct (is_final b)).
    all: destruct (parse_from _); cbn [frame]; by repeat case_decide.
Qed.

Lemma bytes_pending bytes last now d :
  bytes ≠ [] → pending_since last d → match feed_bytes bytes now d with Some (d', _) => pending_since now d' | None => True end.
Proof.
  intros Hb. destruct bytes as [|b bytes]; [done|]. clear Hb. revert b last d.
  induction bytes as [|c bytes IH]; intros b last d Hp; rewrite feed_bytes_cons; pose proof (byte_pending b last now d Hp) as H;
    destruct (feed_byte b now d) as [[d' e]|]; cbn [mbind option_bind]; try done.
  pose proof (IH c now d' H) as H'. by destruct (feed_bytes (c :: bytes) now d') as [[d2 e2]|].
Qed.

(** No read comes an escape's delay or more after the one before. *)
Definition timely (reads : list (list N * N)) : Prop :=
  ∀ i r r', reads !! i = Some r → reads !! S i = Some r' → (r'.2 - r.2 < ESC_DELAY)%N.

Lemma reads_cut reads d d' last t :
  Forall (λ r, r.1 ≠ []) reads → timely reads → same d d' → pending_since last d →
  match reads with r :: _ => (r.2 - last < ESC_DELAY)%N | [] => True end →
  agree (read_all reads d) (feed_bytes (mjoin reads.*1) t d').
Proof.
  revert d d' last. induction reads as [|[bytes now] reads IH]; intros d d' last Hne Ht Hs Hp Hn; [done|].
  change (mjoin ((bytes, now) :: reads).*1) with (bytes ++ mjoin reads.*1). rewrite feed_bytes_app. cbn [read_all]. unfold feed.
  assert (expire now d = (d, None)) as ->.
  { unfold expire, pending_since in *. destruct (escape_at d); [|done]. destruct Hp as [-> _]. by rewrite decide_True. }
  apply Forall_cons in Hne as [Hb Hne]. pose proof (bytes_same bytes now t d d' Hs) as H. pose proof (bytes_pending bytes last now d Hb Hp) as Hp'.
  unfold agree in *. destruct (feed_bytes bytes now d) as [[x e]|], (feed_bytes bytes t d') as [[y e']|]; try done.
  destruct H as [Hxy ->]. cbn [mbind option_bind option_list app].
  assert (Ht' : timely reads) by (intros i; apply (Ht (S i))).
  assert (match reads with r :: _ => (r.2 - now < ESC_DELAY)%N | [] => True end) as Hn'.
  { destruct reads as [|r reads]; [done|]. by apply (Ht 0 (bytes, now) r). }
  pose proof (IH x y now Hne Ht' Hxy Hp' Hn') as H.
  destruct (read_all reads x) as [[x2 e2]|], (feed_bytes (mjoin reads.*1) t y) as [[y2 e2']|]; try done.
  cbn. by destruct H as [? ->].
Qed.

(** C28. A paste is one event.  However the terminal's bytes are cut into reads, as long as
    none comes an escape's delay after the one before, a paste between its marks is handed
    over as one event, parsed from all its bytes, or as nothing when it is longer than the
    limit: whatever it contains, no byte of it is ever taken for a key. *)
Theorem paste_is_one_event (content : list N) (reads : list (list N * N))
    (Hc : content_of_paste content) (Hr : mjoin reads.*1 = paste content)
    (Hne : Forall (λ r, r.1 ≠ []) reads) (Ht : timely reads) :
  read_all reads Decoder.default
  = Some (Decoder.default, if decide (length content ≤ MAX_PASTE) then option_list (parse_frame (paste content)) else []).
Proof.
  pose proof (reads_cut reads Decoder.default Decoder.default (match reads with r :: _ => r.2 | [] => 0%N end) 0%N Hne Ht ltac:(done) I) as H.
  assert (match reads with r :: _ => (r.2 - match reads with r :: _ => r.2 | [] => 0%N end < ESC_DELAY)%N | [] => True end) as Hn.
  { destruct reads as [|[b now] reads]; [done|]. cbn. unfold ESC_DELAY. lia. }
  specialize (H Hn). rewrite Hr, paste_bytes in H by done. unfold agree in H.
  destruct (read_all reads Decoder.default) as [[[f a x] e]|]; [|done].
  destruct H as [(E1 & E2 & E3) ->]. cbn in E1, E2, E3. subst f x. by destruct E3 as [_ ->].
Qed.
End whole.

(** * Examples *)

Module Plain.
(** A parser that takes every frame for itself *)
#[export] Instance plain_parsing : Parsing (list N) (list N) :=
  {| parse_from s := if decide (s = [27]%N) then Unfinished else Complete s; to_crossterm s := Some (OtherEvent s) |}.
End Plain.
Import Plain.

(** A pasted interrupt, with the closing mark cut in two *)
Lemma paste_is_one_event_witness :
  let reads := [(PASTE_START ++ [3; 27]%N, 0%N); ([27; 91; 50]%N, 20%N); ([48; 49; 126]%N, 45%N)] in
  read_all reads Decoder.default = Some (Decoder.default, [OtherEvent (PASTE_START ++ [3; 27]%N ++ PASTE_END)]).
Proof.
  intros reads. pose proof (paste_is_one_event (E:=list N) (O:=list N) [3; 27]%N reads) as H. rewrite H.
  - by vm_compute.
  - intros [|[|k]] Hk; [intros [x [=]]..|cbn in Hk; lia].
  - done.
  - repeat constructor; done.
  - intros [|[|[|i]]] r r' Hi Hj; try discriminate Hj; injection Hi as <-; injection Hj as <-; by vm_compute.
Defined.

